(* ===== verification/_CoqProject ===== *)
-Q . S2P
Prelude.v
Paths.v
Database.v
Registry.v
Consultation.v
Claims.v
Invariant.v
Isolation.v
Protocol.v
Sweeps.v
Lifecycle.v
ClaimSafety.v
FileTracking.v
Activity.v
DependencyMap.v
ImpactScorer.v
Conflicts.v
Announce.v
AuditChain.v
EventStream.v
Schemas.v
Handlers.v
RestSafety.v
RateLimit.v
AuthState.v
Rotation.v
AuthInstances.v
Envelope.v
EnvelopeSafety.v
ServiceTokens.v
RotationSafety.v
RotationTheorems.v
RotationRuns.v
Authenticate.v
AuthTheorems.v
DeviceFlow.v
Bridge.v
BridgeSafety.v
BridgeWaits.v
BridgeRuns.v
Departure.v
Tools.v
ToolSafety.v
MembershipCache.v
Login.v
LoginSafety.v
LoginProvision.v
LoginAgree.v
LoginRuns.v
Admin.v
AdminSafety.v
MasterKey.v
EncryptionBoot.v
EncryptionSafety.v
EncryptionCli.v
Sweeper.v
EventStreamSafety.v
EventReader.v
Cochange.v
HttpUtils.v
McpSessions.v
HttpServer.v
HttpSafety.v
QuotaCache.v
Providers.v
ProviderSafety.v
Channel.v
OrgsGuard.v
SdkClient.v
BootMigrations.v
BootMigrationsSafety.v
Phase2Boot.v
RedisLock.v
Setup.v
ServerControl.v
Backup.v
Doctor.v
ServerLife.v
SymbolExtractor.v
SdkConfig.v
