(* ===== verification/Prelude.v ===== *)
(** * mcp-coordinator: a verification library

    The coordinator is a TypeScript server that lets several coding agents work
    on one repository. Agents register, announce what they are about to touch,
    discuss it in consultation threads, claim work from a shared queue and
    report the files they edit; the coordinator scores who is concerned by an
    announcement, detects conflicts, and keeps everything in one SQLite
    database shared by several organisations (tenants). Agents reach it over
    REST, over the MCP tools and over a message bus; people sign in through an
    identity provider, administer organisations and watch a dashboard.

    ** Parts and files

    Shared: [Prelude.v] (this file) has tables as lists of rows with SELECT,
    UPDATE and DELETE, the JavaScript collections and text functions the code
    uses, and the lemmas every component shares; [Paths.v] ([src/path-normalize.ts],
    [src/path-guard.ts]) has paths and percent-decoding.

    Coordination.
    - [Database.v]: the rows of [src/types.ts] and [src/database.ts], the world
      of a request (clock, identifiers drawn by [crypto.randomUUID], database,
      resolution callback, calls to the MQTT bridge) and the monad of handlers:
      state passing with exceptions. A statement that ran before an exception
      stays; [transaction] ([src/db-adapter.ts]) rolls back. [respects] is the
      logic of that monad: what a handler does to the database, composed
      statement by statement by the tactic [effects].
    - [Registry.v] ([src/agent-registry.ts]), [Consultation.v]
      ([src/consultation.ts]), [Claims.v] ([handleClaimTask] and
      [handleUnclaimTask] of [src/http/rest-handlers.ts]): the operations, one
      definition per method, with the statements in the order of the source.
    - [Invariant.v]: the requests as a step relation, the well-formedness [wf]
      of the tables and its preservation. [Isolation.v]: tenants. [Protocol.v],
      [Sweeps.v]: each step of a consultation on every branch, and the two loops
      (timeouts, departures) as batch updates. [Lifecycle.v]: the abstract
      lifecycle of a thread. [ClaimSafety.v]: exclusion of claims.
    - [FileTracking.v] ([src/file-tracker.ts], [src/working-files-tracker.ts]),
      [Activity.v] ([src/agent-activity.ts], [src/introspection.ts]),
      [DependencyMap.v] ([src/dependency-map.ts]), [ImpactScorer.v]
      ([src/impact-scorer.ts]), [Conflicts.v] ([src/conflict-detector.ts]),
      [Announce.v] ([src/announce-workflow.ts], [src/plan-quality.ts],
      [src/register-workflow.ts]): files, activity, who is concerned and by what.
    - [Cochange.v] ([src/git-cochange-builder.ts]): the table
      of files that change together, from the output of [git log].
    - [SymbolExtractor.v] ([src/tree-sitter-extractor.ts]): the names of the
      functions of an uploaded file, over parsers that are parameters.

    Ways in.
    - [Schemas.v] ([src/http/rest-schemas.ts]), [Handlers.v]
      ([src/http/rest-handlers.ts], [src/http/handle-rest.ts],
      [src/reset-guard.ts]), [RestSafety.v]: the REST surface.
    - [Tools.v], [ToolSafety.v] ([src/tools/*.ts], [src/context-provider.ts]): the
      MCP tools, with their scopes.
    - [HttpUtils.v] ([src/http/utils.ts], [src/http/origin.ts]), [McpSessions.v]
      (the sessions of the MCP transport in [src/serve-http.ts]), [HttpServer.v]
      ([createHttpHandler] and [handleAuth] of [src/serve-http.ts], the probes of
      [src/http]), [HttpSafety.v]: the router in front of all of them, composed
      with authentication and with the REST handlers.
    - [EventStream.v], [EventStreamSafety.v], [EventReader.v]
      ([src/sse-emitter.ts], [handleSse], the reader of
      [dashboard/public/dashboard.js]): events from the table to the page.
    - [Bridge.v], [BridgeSafety.v], [BridgeWaits.v], [BridgeRuns.v]
      ([src/mqtt-broker.ts], [src/mqtt-bridge.ts], [src/tools/mqtt-tools.ts]),
      [Departure.v] (the offline handler of [src/serve-http.ts]): the bus.
    - [Channel.v] ([cli/channel.ts]): the sidecar that brings
      the bus into a session of Claude Code and its replies back.
    - [SdkClient.v] ([sdk/src], with [SingleFlight] for
      [sdk/src/single-flight.ts]): the client library, its tokens and its lock.
      [SdkConfig.v] ([sdk/src/profiles.ts], [discovery.ts], [keytar-store.ts]): its
      profiles, the discovery document and the keychain.

    Authentication.
    - [AuthState.v] (rows, tokens, epochs, settings), [AuthInstances.v] (instances
      of its interfaces, for examples), [Rotation.v], [RotationSafety.v],
      [RotationTheorems.v], [RotationRuns.v] ([src/auth/refresh-rotation.ts],
      [src/auth/logout.ts]), [ServiceTokens.v] ([src/auth/service-tokens.ts]),
      [Authenticate.v], [AuthTheorems.v] ([src/auth.ts]).
    - [RateLimit.v] ([src/auth/rate-limit.ts] and its Redis form,
      [src/auth/login-lockout.ts]), [DeviceFlow.v]
      ([src/auth/device-flow.ts]), [MembershipCache.v]
      ([src/auth/membership-cache.ts]).
    - [Login.v], [LoginSafety.v], [LoginProvision.v], [LoginAgree.v],
      [LoginRuns.v] ([src/auth/oauth-*.ts]): signing in. [Providers.v],
      [ProviderSafety.v] ([src/auth/providers]): the identity
      providers as programs over the network.
    - [Admin.v], [AdminSafety.v] ([src/admin], [src/http/auth-routes.ts],
      [src/auth/userinfo.ts]).

    Data at rest and upkeep.
    - [AuditChain.v] ([src/security/audit-chain.ts], [src/security/audit.ts],
      [src/security/audit-queue.ts], [scripts/verify-audit-chain.ts]).
    - [Envelope.v], [EnvelopeSafety.v], [MasterKey.v], [EncryptionBoot.v],
      [EncryptionSafety.v] ([src/security], [src/boot-encryption.ts]),
      [EncryptionCli.v]
      ([cli/encryption/migrate.ts], [cli/lib/pid-lock.ts]).
    - [Sweeper.v] ([src/sweeper/index.ts],
      [src/security/audit-events.ts]); [QuotaCache.v] ([src/quota]).
    - [OrgsGuard.v] ([src/boot-orgs-uniqueness.ts], the first steps of
      [openAndMigrate]): a start, up to the schema. [BootMigrations.v],
      [BootMigrationsSafety.v] ([src/database.ts],
      [src/migration-guard.ts], [src/fk-violation-report.ts]): the migrations of
      versions 8 to 12. [Phase2Boot.v] ([src/boot.ts],
      [src/auth/entropy.ts], [src/auth/providers/registry.ts]): the start with
      logins. [RedisLock.v] ([src/infra/redis.ts]): several instances.
      [ServerLife.v] ([startServer] and [wireShutdown] of [src/serve-http.ts],
      [src/server-setup.ts]): the start and the stop of a server in a process.
    - [Setup.v] ([cli/init.ts],
      [cli/uninstall.ts]): a project is set up and taken out again.
      [ServerControl.v] ([cli/server/start.ts],
      [stop.ts], [restart.ts], [cli/pid-file.ts], [cli/config.ts]): the processes
      of one machine, composed with the start with logins. [Backup.v]
      ([backup.ts], [restore.ts]): archives. [Doctor.v] ([cli/doctor.ts]): the
      examination of an installation, compared with what the server answers.

    The parts meet in interfaces: [Jose] (signatures), [Encryption] and its laws
    (provider tokens at rest, discharged by [EnvelopeSafety.v] over [Aead]),
    [Digest], [Crypto], [RateLimiterOps] and [RateLimiterLaws] (discharged by the
    bucket in memory and by the counter over [Redis]), [TopicFilters]. Clients are
    proved against the class.

    A component of one file has its operations in the module of that name and,
    where they are long, its theorems in a second module of the same file
    ([DeviceFlow.v] has [DeviceFlow] and [DeviceSafety]).

    ** What the theorems show

    - Invariants of whole runs: [reachable_wf], [finished_threads_stay],
      [claims_exclusive]; [one_live_token], [revocation_final], [an_admin_remains],
      [device_decided_once], [tokens_recoverable], [sessions_consistent],
      [audit_log_verifies], [counters_exact], [queues_bounded],
      [migrations_establish], [stop_stops_own].
    - Tenants: [tenant_isolation] for the operations, [rest_tenant_isolation],
      [tools_tenant_isolation], and [http_tenant_isolation] from the socket to the
      rows; [non_post_is_read_only], [read_scope_read_only].
    - Who is let in: [complete_mediation], [authenticated_guards],
      [kid_never_downgraded], [token_types_separate], [renewal_gives_no_right],
      [revoked_agent_shut_out], [registration_spec], [admin_gate],
      [departure_needs_identity], [publish_confined].
    - Around the server: [relayed_text_safe], [channel_reply_confined],
      [channel_hears_daemon]; [lock_exclusive], [refresh_tokens_exchanged_once];
      [redis_lock_exclusive], [departure_once], [renew_elects];
      [discovery_served], [endpoints_agree], [upload_symbols],
      [extract_while_loading], [load_spec].
    - A start: [boot_fails_closed], [loopback_spec], [upgrade_brings_home],
      [restart_keeps], [revocations_rescoped], [repair_resolves];
      [wizard_writes_checked], [daemon_boots_alike], [daemon_env_closed],
      [init_recovers], [backup_restored], [restore_never_loses],
      [healthy_server_passes], [stop_releases].
    - Sessions and logins: [exchanged_once], [reuse_ends_family],
      [epoch_bump_refuses], [logout_all_spec], [service_revocation_immediate],
      [state_used_once], [login_provisions], [grants_agree], [device_single_use],
      [memberships_recent]; what reaches the network: [oidc_confined],
      [github_token_confined], [memberships_all_pages].
    - Refinement: [lifecycle_refinement], [acknowledged_delivery];
      [token_bucket_refines], of the bucket in exact arithmetic: in doubles it
      may answer a poll late ([polled_bucket_late]). Confinement of paths:
      [safe_join_confined].
    - Optimised code against its reference: [layer4_batched],
      [index_is_per_file_query], [blast_radius_correct], [conflict_explains], [extract_spec],
      [error_iff_claim_refused], [cochange_counts].
    - The effect of each operation, errors included: [approve_spec],
      [contest_spec], [propose_spec], [claim_spec], [unclaim_spec],
      [checkTimeouts_spec], [handleAgentDeparture_spec], [announce_flow_spec],
      [introspection_answer_spec], [build_replaces], [acquire_spec],
      [orgs_boot_outcome], [scoring_stats_spec], [credential_read].
    - Round trips: [key_stable], [dependencies_round_trip], [envelope_roundtrip],
      [migrate_roundtrip], [stream_read_back], [next_link_read],
      [master_key_read], [claude_round_trip], [mcp_round_trip],
      [profiles_round_trip], [keychain_round_trip]; and what is resumed: [page_resumes],
      [resumed_stream_complete].
    - Bounds and progress: [granted_bound], [retry_after_exact], [body_limited],
      [quota_fetches_paced], [sweep_only_expired], [backlog_drains],
      [lone_wait_returns], [wait_for_peers_ends], [allocation_ends],
      [stop_ends_gracefully], [attempts_bounded].
    - What does not hold: [contest_breaks_exclusion],
      [silent_detector_refused_claim], [late_backfill_breaks_chain],
      [chain_revocation_overtaken], [grace_outlives_logout], [remint_not_identical],
      [same_second_survives], [lockout_unreachable], [overlapping_wait_hangs],
      [session_token_opens_default_bus], [relogin_ends_sessions],
      [rollback_orphans_tokens], [lock_race], [reset_does_not_restart],
      [long_retention_erases], [resume_gap], [colliding_names_empty],
      [orphan_claims_stay], [agent_revocation_lost], [override_never_audited],
      [topic_level_unfiltered], [null_status_throws], [stale_lock_two_holders],
      [slow_holder_unlocks_other], [undeletable_lock_spins],
      [late_process_reuses_token], [long_lived_token_refreshed_at_once],
      [cleared_tokens_come_back], [inherited_error_is_a_status],
      [restart_drops_both], [restart_moves_revocation], [migration_hides_restore],
      [loopback_unsound], [bracketed_refused], [demo_collision],
      [section_overrun], [departure_lost], [two_leaders], [tidying_shows],
      [wizard_never_writes], [daemon_loses_domain], [daemon_loses_redis],
      [daemon_never_repairs], [claims_not_shown], [polled_bucket_late],
      [upgrade_refuses_dangling], [departure_takes_owed], [changed_key_reported],
      [occupied_reported_started], [occupied_start_orphans], [stop_falls_back],
      [restart_other_port], [custom_data_refused], [custom_data_overwrites],
      [running_unseen], [depth_units], [openers_fail], [actions_written],
      [cochange_survives], [stop_tears_down_next], [failed_bind_leaks],
      [stream_blocks_stop], [scoring_stats_default], [literal_unescaped],
      [literal_hides_comment], [inherited_profile_found], [proto_profile_shared],
      [one_place], [stale_memory_unused], [abstract_class_unqualified],
      [upper_extension_kept].

    ** Choices of the model

    - A table is the list of its rows in rowid order. SELECT without ORDER BY
      returns that order, an ORDER BY leaves ties in it, and DELETE with a LIMIT
      takes the first rows; SQLite leaves all three open.
    - Requests of the synchronous driver run to their end, so a run of the
      coordination is a sequence of steps. Code with [await] is cut into segments
      at its waits, and the step relations interleave the segments of all
      requests ([RotationSafety.v], [DeviceFlow.v], [LoginSafety.v],
      [MembershipCache.v], [McpSessions.v], [QuotaCache.v], [SdkClient.v]); the
      providers are free monads over the network and the shared caches, with a
      weakest precondition.
    - What is drawn at random is an argument, or a function of the draws already
      made. Inserts check their keys, so a repeated identifier is an error of the
      model and not excluded; the theorems that need a fresh one say so.
    - Timestamps: [CURRENT_TIMESTAMP] text is kept as seconds, text that is
      compared with ISO text as [stamp], whose order is the order of the text.
      Token counts of the limiter and the jitter of a timer are exact rationals,
      scores integers.
    - In the handlers with logins the INSERT of an audit entry does not fail, and
      the issue of a service token, which awaits a signature between its row and
      its entry, is one step; the log itself, with failing flushes, is
      [AuditChain.v].
    - JSON columns hold an array of strings, NULL or malformed text; the
      operations say what each does with the last two.
    - Strings are UTF-8; [utf16_length] is JavaScript's length. Case folding is
      ASCII, and the host is POSIX. The parser of URLs is a parameter.
    - The repository roots, environment variables, SHA-256 and the symbol
      extraction of an uploaded file reach a handler in its context;
      [SymbolExtractor.v] gives the last.

    ** Bounds and fuel

    Loops over lists are structural. The walk of the blast radius has the direct
    dependents plus the modules of the map as fuel, enough by
    [blast_radius_correct]; the allocation of user codes the three attempts of the
    source ([allocation_ends]); the reader of the event stream the length of its
    buffer, each turn of which shortens it; the batches of the migration one turn
    per row ([migrate_roundtrip]); [wait_for_peers] three hundred looks
    ([wait_for_peers_ends]); the loops of [stop] and of the wait for a server one
    turn per pause ([stop_ends_gracefully], [await_ends]). The pages of a listing of GitHub have no bound in the
    source: with fuel for the pages there are the list is complete, and without
    an end there is none ([memberships_all_pages]).

    ** What is not modelled

    The DDL of [src/database.ts] and its migrations before version 8, but for the
    organisations; sockets, the broker itself, [fetch] and [jose]; the parsers of
    tree-sitter; metrics and log lines; the device flow of GitHub; HTML pages; of the
    command line the clients that print what the server answers; the rendering of
    the dashboard: they are input and output around libraries that are not in the
    repository. *)

From stdpp Require Export base tactics list strings sorting gmap pretty.
From Stdlib Require Export ZArith Lia Ascii.

(** ** Rows of a table: SELECT, UPDATE, DELETE

    A SQLite table is modelled by the list of its rows in [rowid] order. A
    statement's WHERE clause is a decidable predicate on rows. *)

(** [SELECT ... WHERE P], all rows, in rowid order. *)
Definition select {A} (P : A → Prop) `{!∀ x, Decision (P x)} (l : list A) : list A :=
  filter P l.

(** [SELECT ... WHERE P] read with [.get()]: the first row or nothing. *)
Definition select_one {A} (P : A → Prop) `{!∀ x, Decision (P x)} (l : list A) : option A :=
  head (filter P l).

(** [UPDATE ... SET f WHERE P]. *)
Definition update_where {A} (P : A → Prop) `{!∀ x, Decision (P x)} (f : A → A)
    (l : list A) : list A :=
  (λ x, if decide (P x) then f x else x) <$> l.

(** [DELETE ... WHERE P]. *)
Definition delete_where {A} (P : A → Prop) `{!∀ x, Decision (P x)} (l : list A) : list A :=
  filter (λ x, ¬ P x) l.

(** The number of rows a statement with this WHERE clause changes. *)
Definition changes {A} (P : A → Prop) `{!∀ x, Decision (P x)} (l : list A) : nat :=
  length (filter P l).

(** ** JavaScript idioms *)

(** [s || null] on a nullable string: the empty string is falsy. *)
Definition truthy (s : option string) : option string :=
  match s with
  | Some "" => None
  | _ => s
  end.

(** [a ?? d]. *)
Definition nullish {A} (d : A) (o : option A) : A := default d o.

(** [s.startsWith(p)]. *)
Definition startsWith (p s : string) : bool := String.prefix p s.

Definition endsWith (p s : string) : bool :=
  (String.length p <=? String.length s)%nat &&
  String.eqb p (String.substring (String.length s - String.length p) (String.length p) s).

(** [s.length], in UTF-16 units, of a text kept as UTF-8: two for a character of
    four bytes, one for the others, nothing for continuation bytes. *)
Fixpoint utf16_length (s : string) : nat :=
  match s with
  | EmptyString => O
  | String a s =>
      let n := Ascii.nat_of_ascii a in
      (if decide (n < 128) then 1 else if decide (n < 192) then 0
       else if decide (n < 240) then 1 else 2)%nat + utf16_length s
  end%nat.

(** [Set.add] on a JavaScript [Set] kept in insertion order. *)
Definition set_add {A} `{EqDecision A} (x : A) (l : list A) : list A :=
  if decide (x ∈ l) then l else l ++ [x].

(** [[...new Set(l)]]: first occurrences, in order. *)
Definition dedup {A} `{EqDecision A} (l : list A) : list A :=
  foldl (λ acc x, set_add x acc) [] l.

(** A JavaScript [Map] with string keys, as its entries in insertion order. *)
Definition jsmap (A : Type) : Type := list (string * A).

Definition map_get {A} (k : string) (m : jsmap A) : option A :=
  snd <$> select_one (λ p, p.1 = k) m.

(** [Map.set]: an existing key keeps its place. *)
Definition map_set {A} (k : string) (v : A) (m : jsmap A) : jsmap A :=
  match map_get k m with
  | Some _ => update_where (λ p, p.1 = k) (λ p, (p.1, v)) m
  | None => m ++ [(k, v)]
  end.

(** [s.split(c)] for a one character separator: never empty. *)
Fixpoint split_on (c : ascii) (s : string) : list string :=
  match s with
  | EmptyString => [""]
  | String a s =>
      if Ascii.eqb a c then "" :: split_on c s
      else match split_on c s with
           | [] => [String a ""]
           | p :: ps => String a p :: ps
           end
  end.

(** [l.join(sep)]. *)
Definition join (sep : string) (l : list string) : string := String.concat sep l.

(** [s.includes(p)]. *)
Fixpoint includes (p s : string) : bool :=
  String.prefix p s ||
  match s with
  | EmptyString => false
  | String _ s => includes p s
  end.

(** The characters of a string. *)
Fixpoint has_char (c : ascii) (s : string) : bool :=
  match s with
  | EmptyString => false
  | String a s => Ascii.eqb a c || has_char c s
  end.

(** Lexicographic order on JavaScript / SQLite (BINARY collation) strings. *)
Definition str_le (a b : string) : Prop := String.leb a b = true.

#[global] Instance str_le_dec : RelDecision str_le.
Proof. intros a b. unfold str_le. apply _. Defined.

Lemma str_le_le a b : str_le a b ↔ String.le a b.
Proof. unfold str_le, String.le. split; apply Is_true_true. Qed.

#[global] Instance str_le_po : PartialOrder str_le.
Proof.
  split; [split|].
  - intros a. by apply str_le_le.
  - intros a b c. rewrite !str_le_le. apply transitivity.
  - intros a b. rewrite !str_le_le. apply anti_symm, _.
Qed.
#[global] Instance str_le_total : Total str_le.
Proof. intros a b. rewrite !str_le_le. apply total, _. Qed.

(** ** Tactics *)

(** Splits every conjunction and existential of the context. *)
Ltac split_hyps :=
  repeat match goal with
    | H : _ ∧ _ |- _ => destruct H
    | H : ∃ _, _ |- _ => destruct H
    | H : (_, _) = (_, _) |- _ => injection H as ?; subst
    end.

(** Case analysis on every [match] and [decide] of the goal, keeping the equations. *)
Ltac case_all :=
  repeat (case_match || case_decide); simplify_eq/=.

(** ** Lemmas on tables *)

Create HintDb rows.

Section rows.
Context {A : Type}.
Implicit Types (l : list A) (x y : A).

Lemma elem_of_select (P : A → Prop) `{!∀ x, Decision (P x)} l x :
  x ∈ select P l ↔ P x ∧ x ∈ l.
Proof. unfold select. apply list_elem_of_filter. Qed.

Lemma elem_of_update_where (P : A → Prop) `{!∀ x, Decision (P x)} f l x :
  x ∈ update_where P f l ↔ ∃ y, y ∈ l ∧ x = (if decide (P y) then f y else y).
Proof. unfold update_where. rewrite list_elem_of_fmap. naive_solver. Qed.

Lemma length_update_where (P : A → Prop) `{!∀ x, Decision (P x)} f l :
  length (update_where P f l) = length l.
Proof. apply length_fmap. Qed.

(** An UPDATE that keeps a column keeps the column of the whole table. *)
Lemma fmap_update_where {B} (k : A → B) (P : A → Prop) `{!∀ x, Decision (P x)} f l :
  (∀ x, x ∈ l → P x → k (f x) = k x) → k <$> update_where P f l = k <$> l.
Proof.
  intros Hk. unfold update_where. rewrite <- list_fmap_compose.
  apply list_fmap_ext. intros i x Hx. simpl.
  case_decide; [|done]. apply Hk; [by eapply list_elem_of_lookup_2|done].
Qed.

Lemma Forall_update_where (Q : A → Prop) (P : A → Prop) `{!∀ x, Decision (P x)} f l :
  Forall Q l → (∀ x, x ∈ l → P x → Q x → Q (f x)) → Forall Q (update_where P f l).
Proof.
  rewrite !Forall_forall. intros HQ Hf x (y & Hy & ->)%elem_of_update_where.
  case_decide; eauto.
Qed.

(** Rows outside the WHERE clause are not touched. *)
Lemma filter_update_where (Q P : A → Prop)
    `{!∀ x, Decision (P x), !∀ x, Decision (Q x)} f l :
  (∀ x, P x → ¬ Q x) → (∀ x, P x → ¬ Q (f x)) →
  filter Q (update_where P f l) = filter Q l.
Proof.
  intros HP Hf. induction l as [|x l IH]; [done|].
  change (update_where P f (x :: l))
    with ((if decide (P x) then f x else x) :: update_where P f l).
  rewrite !filter_cons. destruct (decide (P x)).
  - rewrite decide_False by eauto. by rewrite (decide_False (P := Q x)) by eauto.
  - by rewrite IH.
Qed.

Lemma update_where_none (P : A → Prop) `{!∀ x, Decision (P x)} f l :
  (∀ x, x ∈ l → ¬ P x) → update_where P f l = l.
Proof.
  intros HP. induction l as [|x l IH]; [done|].
  change (update_where P f (x :: l))
    with ((if decide (P x) then f x else x) :: update_where P f l).
  rewrite decide_False by (apply HP; left). f_equal.
  apply IH. intros y Hy. apply HP. by right.
Qed.

Lemma select_one_Some (P : A → Prop) `{!∀ x, Decision (P x)} l x :
  select_one P l = Some x → P x ∧ x ∈ l.
Proof.
  unfold select_one. intros Hh. apply (list_elem_of_filter P).
  destruct (filter P l) eqn:E; simplify_eq/=. left.
Qed.

Lemma select_one_None (P : A → Prop) `{!∀ x, Decision (P x)} l :
  select_one P l = None ↔ ∀ x, x ∈ l → ¬ P x.
Proof.
  unfold select_one. split.
  - intros Hh x Hx HP. assert (x ∈ filter P l) as Hf by by apply list_elem_of_filter.
    destruct (filter P l); [by apply not_elem_of_nil in Hf|done].
  - intros Hh. destruct (filter P l) as [|x k] eqn:E; [done|].
    assert (x ∈ filter P l) as Hx by (rewrite E; left).
    apply list_elem_of_filter in Hx. naive_solver.
Qed.

(** Two rows of a table with the same primary key are the same row. *)
Lemma NoDup_key_eq {B} (k : A → B) l x y :
  NoDup (k <$> l) → x ∈ l → y ∈ l → k x = k y → x = y.
Proof.
  intros Hnd Hx Hy Hk.
  apply list_elem_of_lookup in Hx as [i Hi], Hy as [j Hj].
  assert (i = j) as ->; [|congruence].
  eapply (NoDup_lookup (k <$> l)); eauto.
  - by rewrite list_lookup_fmap, Hi.
  - by rewrite list_lookup_fmap, Hj, Hk.
Qed.

(** Reading a table by its primary key returns the row that has it. *)
Lemma select_one_key {B} (k : A → B) (P : A → Prop) `{!∀ x, Decision (P x)} l x :
  NoDup (k <$> l) → x ∈ l → P x → (∀ y, P y → k y = k x) →
  select_one P l = Some x.
Proof.
  intros Hnd Hx HP Hk. destruct (select_one P l) as [y|] eqn:E.
  - apply select_one_Some in E as [HPy Hy]. f_equal.
    eapply NoDup_key_eq; eauto.
  - rewrite select_one_None in E. by destruct (E x).
Qed.

(** Reading after an UPDATE that does not change what the read selects. *)
Lemma select_one_update_where (Q P : A → Prop)
    `{!∀ x, Decision (P x), !∀ x, Decision (Q x)} f l :
  (∀ x, Q (f x) ↔ Q x) →
  select_one Q (update_where P f l) =
    (λ x, if decide (P x) then f x else x) <$> select_one Q l.
Proof.
  intros Hf. unfold select_one. induction l as [|x l IH]; [done|].
  change (update_where P f (x :: l))
    with ((if decide (P x) then f x else x) :: update_where P f l).
  rewrite !filter_cons. destruct (decide (Q x)) as [HQ|HQ].
  - rewrite decide_True; [done|]. case_decide; [by apply Hf|done].
  - rewrite decide_False; [done|]. case_decide; [by rewrite Hf|done].
Qed.

Lemma update_where_ext (P Q : A → Prop)
    `{!∀ x, Decision (P x), !∀ x, Decision (Q x)} f g l :
  (∀ x, x ∈ l → P x ↔ Q x) → (∀ x, x ∈ l → P x → f x = g x) →
  update_where P f l = update_where Q g l.
Proof.
  intros HPQ Hfg. apply list_fmap_ext. intros i x Hx%list_elem_of_lookup_2.
  destruct (HPQ x Hx). repeat case_decide; try tauto. by apply Hfg.
Qed.

Lemma changes_pos (P : A → Prop) `{!∀ x, Decision (P x)} l :
  (0 < changes P l)%nat ↔ ∃ x, x ∈ l ∧ P x.
Proof.
  unfold changes. split.
  - destruct (filter P l) as [|x k] eqn:E; simpl; [lia|]. intros _. exists x.
    assert (x ∈ filter P l) as Hx by (rewrite E; left).
    apply list_elem_of_filter in Hx. naive_solver.
  - intros (x & Hx & HP). assert (x ∈ filter P l) as Hf by by apply list_elem_of_filter.
    destruct (filter P l); [by apply not_elem_of_nil in Hf|simpl; lia].
Qed.
End rows.

(** Updates composed, selections of updated rows, keys of selections. *)

Lemma update_where_id {A} (P : A → Prop) `{!∀ x, Decision (P x)} f (l : list A) :
  (∀ x, x ∈ l → P x → f x = x) → update_where P f l = l.
Proof.
  intros Hf. unfold update_where. rewrite <- (list_fmap_id l) at 2. apply list_fmap_ext.
  intros i x Hx%list_elem_of_lookup_2. case_decide; [by apply Hf|done].
Qed.

Lemma update_where_twice {A} (P : A → Prop) `{!∀ x, Decision (P x)} f g (l : list A) :
  (∀ x, P (f x) ↔ P x) →
  update_where P g (update_where P f l) = update_where P (λ x, g (f x)) l.
Proof.
  intros HP. unfold update_where. rewrite <- list_fmap_compose. apply list_fmap_ext.
  intros i x _. simpl. destruct (decide (P x)).
  - rewrite decide_True; [done|]. by apply HP.
  - by rewrite decide_False.
Qed.

Lemma update_where_join {A} (P Q R : A → Prop)
    `{!∀ x, Decision (P x), !∀ x, Decision (Q x), !∀ x, Decision (R x)} f (l : list A) :
  (∀ x, Q (f x) ↔ Q x) → (∀ x, P x → ¬ Q x) → (∀ x, R x ↔ P x ∨ Q x) →
  update_where Q f (update_where P f l) = update_where R f l.
Proof.
  intros HQ HPQ HR. unfold update_where. rewrite <- list_fmap_compose. apply list_fmap_ext.
  intros i x _. simpl. destruct (HR x). destruct (decide (P x)) as [HP|].
  - rewrite (decide_True (P := R x)) by tauto. rewrite decide_False; [done|].
    rewrite HQ. by apply HPQ.
  - destruct (decide (Q x)), (decide (R x)); tauto.
Qed.

Lemma filter_fmap_stable {A} (P Q : A → Prop)
    `{!∀ x, Decision (P x), !∀ x, Decision (Q x)} (f : A → A) (l : list A) :
  (∀ x, P (f x) ↔ Q x) → filter P (f <$> l) = f <$> filter Q l.
Proof.
  intros HP. induction l as [|x l IH]; [done|]. rewrite fmap_cons, !filter_cons, IH.
  destruct (decide (Q x)) as [HQ|HQ].
  - by rewrite decide_True by by apply HP.
  - rewrite decide_False; [done|]. by rewrite HP.
Qed.

Lemma filter_filter_and {A} (P Q R : A → Prop)
    `{!∀ x, Decision (P x), !∀ x, Decision (Q x), !∀ x, Decision (R x)} (l : list A) :
  (∀ x, R x ↔ Q x ∧ P x) → filter P (filter Q l) = filter R l.
Proof.
  intros HR. induction l as [|x l IH]; [done|]. rewrite !filter_cons. pose proof (HR x).
  destruct (decide (Q x)); rewrite ?filter_cons, IH; repeat case_decide; naive_solver.
Qed.

Lemma NoDup_filter_keys {A B} (k : A → B) (P : A → Prop) `{!∀ x, Decision (P x)} l :
  NoDup (k <$> l) → NoDup (k <$> filter P l).
Proof.
  induction l as [|x l IH]; [done|]. rewrite fmap_cons, NoDup_cons, filter_cons.
  intros [Hx Hnd]. case_decide; [|by apply IH]. rewrite fmap_cons. constructor; [|by apply IH].
  intros (y & E & [_ Hy]%list_elem_of_filter)%list_elem_of_fmap. apply Hx. rewrite E.
  by apply list_elem_of_fmap_2.
Qed.

Lemma NoDup_filter_single {A B} (k : A → B) (P : A → Prop) `{!∀ x, Decision (P x)} l x :
  NoDup (k <$> l) → x ∈ l → P x → (∀ y, P y → k y = k x) → filter P l = [x].
Proof.
  intros Hnd Hx HP Hk. induction l as [|y l IH]; [by apply not_elem_of_nil in Hx|].
  rewrite fmap_cons in Hnd. apply NoDup_cons in Hnd as [Hy Hnd]. rewrite filter_cons.
  apply elem_of_cons in Hx as [->|Hx].
  - rewrite decide_True by done. f_equal. destruct (filter P l) as [|z m] eqn:E; [done|].
    assert (z ∈ filter P l) as [Hz Hzl]%list_elem_of_filter by (rewrite E; left).
    destruct Hy. rewrite <- (Hk z Hz). by apply list_elem_of_fmap_2.
  - rewrite decide_False; [by apply IH|]. intros HPy. destruct Hy. rewrite (Hk y HPy).
    by apply list_elem_of_fmap_2.
Qed.

#[export] Hint Rewrite @length_update_where : rows.

(** ** Lemmas on JavaScript sets *)

Lemma elem_of_set_add {A} `{EqDecision A} (x y : A) l :
  y ∈ set_add x l ↔ y = x ∨ y ∈ l.
Proof. unfold set_add. case_decide; set_solver. Qed.

Lemma NoDup_set_add {A} `{EqDecision A} (x : A) l : NoDup l → NoDup (set_add x l).
Proof.
  intros H. unfold set_add. case_decide; [done|].
  apply NoDup_app. split_and!; [done| |apply NoDup_singleton].
  intros y Hy ->%list_elem_of_singleton. done.
Qed.

Lemma dedup_gen {A} `{EqDecision A} (l acc : list A) :
  (NoDup acc → NoDup (foldl (λ acc x, set_add x acc) acc l)) ∧
  (∀ y, y ∈ foldl (λ acc x, set_add x acc) acc l ↔ y ∈ acc ∨ y ∈ l).
Proof.
  revert acc. induction l as [|x l IH]; intros acc; simpl; [set_solver|].
  destruct (IH (set_add x acc)) as [IH1 IH2]. split.
  - intros Hnd. by apply IH1, NoDup_set_add.
  - intros y. rewrite IH2, elem_of_set_add, elem_of_cons. tauto.
Qed.

Lemma NoDup_dedup {A} `{EqDecision A} (l : list A) : NoDup (dedup l).
Proof. apply dedup_gen. constructor. Qed.

Lemma elem_of_dedup {A} `{EqDecision A} (l : list A) y : y ∈ dedup l ↔ y ∈ l.
Proof. unfold dedup. rewrite (proj2 (dedup_gen l [])). set_solver. Qed.

Lemma dedup_snoc {A} `{EqDecision A} (l : list A) x : dedup (l ++ [x]) = set_add x (dedup l).
Proof. unfold dedup. by rewrite foldl_app. Qed.

Lemma set_add_in {A} `{EqDecision A} (x : A) l : x ∈ l → set_add x l = l.
Proof. intros. unfold set_add. by rewrite decide_True. Qed.

Lemma set_add_notin {A} `{EqDecision A} (x : A) l : x ∉ l → set_add x l = l ++ [x].
Proof. intros. unfold set_add. by rewrite decide_False. Qed.

Lemma filter_dedup {A} `{EqDecision A} (P : A → Prop) `{!∀ x, Decision (P x)} (l : list A) :
  filter P (dedup l) = dedup (filter P l).
Proof.
  induction l as [|x l IH] using rev_ind; [done|].
  rewrite dedup_snoc, filter_app, filter_cons, filter_nil. destruct (decide (P x)) as [HP|HP].
  - rewrite dedup_snoc, <- IH. unfold set_add.
    destruct (decide (x ∈ dedup l)) as [Hx|Hx].
    + by rewrite decide_True by by apply list_elem_of_filter.
    + rewrite decide_False by by intros [_ ?]%list_elem_of_filter.
      by rewrite filter_app, filter_cons_True, filter_nil.
  - rewrite app_nil_r, <- IH. unfold set_add. destruct (decide (x ∈ dedup l)) as [Hx|Hx]; [done|].
    rewrite filter_app, filter_cons_False, filter_nil by done. apply app_nil_r.
Qed.

Lemma fmap_dedup {A B} `{EqDecision A, EqDecision B} (f : A → B) (l : list A) :
  (∀ x y, x ∈ l → y ∈ l → f x = f y → x = y) → f <$> dedup l = dedup (f <$> l).
Proof.
  induction l as [|x l IH] using rev_ind; intros Hf; [done|].
  rewrite dedup_snoc, fmap_app, list_fmap_singleton, dedup_snoc, <- IH by set_solver.
  unfold set_add. destruct (decide (x ∈ dedup l)) as [Hx|Hx].
  - by rewrite decide_True by by apply list_elem_of_fmap_2.
  - rewrite decide_False; [by rewrite fmap_app|].
    intros (y & E & Hy)%list_elem_of_fmap. rewrite elem_of_dedup in Hy.
    destruct Hx. rewrite elem_of_dedup. rewrite (Hf x y); set_solver.
Qed.

(** ** Lemmas on JavaScript maps *)

Lemma map_get_set {A} k k' (v : A) (m : jsmap A) :
  map_get k' (map_set k v m) = if decide (k' = k) then Some v else map_get k' m.
Proof.
  unfold map_set. destruct (map_get k m) as [x|] eqn:E.
  - unfold map_get in *. rewrite select_one_update_where by by intros [].
    case_decide as Hk; [subst k'|].
    + destruct (select_one (λ p, p.1 = k) m) as [[a b]|] eqn:E2; [|done].
      apply select_one_Some in E2 as [Hp _]. simpl in *. by rewrite decide_True.
    + destruct (select_one (λ p, p.1 = k') m) as [[a b]|] eqn:E2; [|done].
      apply select_one_Some in E2 as [Hp _]. simpl in *. rewrite decide_False; [done|congruence].
  - unfold map_get in *. unfold select_one in *. rewrite filter_app, filter_cons, filter_nil. simpl.
    repeat case_decide; subst; try congruence; [|by rewrite app_nil_r].
    revert E. match goal with |- context [head ?l] => generalize l end. by intros [|[]].
Qed.

(** ** Lemmas on strings *)

Lemma str_app_assoc (s t u : string) : (s +:+ t) +:+ u = s +:+ t +:+ u.
Proof.
  induction s as [|a s IH]; [done|].
  change (String a ((s +:+ t) +:+ u) = String a (s +:+ t +:+ u)). by rewrite IH.
Qed.

Lemma str_app_inj (s t t' : string) : s +:+ t = s +:+ t' → t = t'.
Proof. induction s as [|a s IH]; [done|]. intros E. injection E as E. by apply IH. Qed.

(** The first occurrence of a separator decides. *)
Lemma first_sep c s s' t t' :
  has_char c s = false → has_char c s' = false →
  s +:+ String c t = s' +:+ String c t' → s = s' ∧ t = t'.
Proof.
  revert s'. induction s as [|a s IH]; intros [|a' s'] Hs Hs' E.
  - by injection E.
  - injection E as <- _. simpl in Hs'. by rewrite Ascii.eqb_refl in Hs'.
  - injection E as -> _. simpl in Hs. by rewrite Ascii.eqb_refl in Hs.
  - injection E as -> E. simpl in Hs, Hs'. apply orb_false_iff in Hs as [_ Hs].
    apply orb_false_iff in Hs' as [_ Hs']. by destruct (IH s' Hs Hs' E) as [-> ->].
Qed.

Lemma str_app_nil_r s : s +:+ "" = s.
Proof. induction s as [|a s IH]; [done|]. exact (f_equal (String a) IH). Qed.

Lemma split_on_cons c s : ∃ p ps, split_on c s = p :: ps.
Proof.
  destruct s as [|a s]; simpl; [by eexists _, _|].
  destruct (Ascii.eqb a c); [by eexists _, _|]. destruct (split_on c s); by eexists _, _.
Qed.

Lemma split_on_app c s t :
  has_char c s = false →
  split_on c (s +:+ t) =
    match split_on c t with [] => [s] | p :: ps => (s +:+ p) :: ps end.
Proof.
  intros Hs. induction s as [|a s IH]; simpl in *.
  - change ("" +:+ t) with t. destruct (split_on_cons c t) as (p & ps & E). by rewrite E.
  - apply orb_false_elim in Hs as [Ha Hs]. rewrite Ha, IH by done.
    by destruct (split_on c t).
Qed.

(** A list of names without the separator survives being joined and split. *)
Lemma split_join c l :
  l ≠ [] → Forall (λ s, has_char c s = false) l → split_on c (join (String c "") l) = l.
Proof.
  intros Hne Hl. induction l as [|s l IH]; [done|]. inversion Hl as [|?? Hs Hl']; subst.
  destruct l as [|s' l].
  - pose proof (split_on_app c s "" Hs) as E. simpl in E. by rewrite !str_app_nil_r in E.
  - change (join (String c "") (s :: s' :: l))
      with (s +:+ String c (join (String c "") (s' :: l))).
    rewrite split_on_app by done. cbn [split_on]. rewrite Ascii.eqb_refl, IH by done.
    by rewrite str_app_nil_r.
Qed.

Lemma split_on_sep c s t : split_on c (s +:+ String c t) = split_on c s ++ split_on c t.
Proof.
  induction s as [|a s IH].
  - change ("" +:+ String c t) with (String c t). cbn [split_on]. by rewrite Ascii.eqb_refl.
  - change (String a s +:+ String c t) with (String a (s +:+ String c t)). cbn [split_on].
    rewrite IH. destruct (Ascii.eqb a c); [done|].
    by destruct (split_on_cons c s) as (p & ps & ->).
Qed.

Lemma split_on_none c s : has_char c s = false → split_on c s = [s].
Proof.
  intros Hs. pose proof (split_on_app c s "" Hs) as E. cbn [split_on] in E.
  by rewrite !str_app_nil_r in E.
Qed.

(** Splitting loses nothing. *)
Lemma join_split c s : join (String c "") (split_on c s) = s.
Proof.
  induction s as [|a s IH]; [done|]. cbn [split_on].
  destruct (split_on_cons c s) as (p & ps & E). rewrite E in *.
  destruct (Ascii.eqb a c) eqn:Ha.
  - apply Ascii.eqb_eq in Ha as ->.
    change (join (String c "") ("" :: p :: ps)) with (String c (join (String c "") (p :: ps))).
    by rewrite IH.
  - rewrite <- IH. by destruct ps.
Qed.

(** The text after the last separator identifies both sides. *)
Lemma sep_inj c s t s' t' :
  has_char c t = false → has_char c t' = false →
  s +:+ String c t = s' +:+ String c t' → s = s' ∧ t = t'.
Proof.
  intros Ht Ht' E. apply (f_equal (split_on c)) in E.
  rewrite !split_on_sep, (split_on_none c t), (split_on_none c t') in E by done.
  apply app_inj_tail in E as [E ->]. split; [|done].
  by rewrite <- (join_split c s), E, join_split.
Qed.
