(* ===== verification/Paths.v ===== *)
(** * Paths ([src/path-normalize.ts], [src/path-guard.ts])

    One key per file: every spelling of a path an agent may use (relative,
    with dot segments, absolute under the repository or one of its worktrees,
    Windows shaped) is normalised to the same repository relative key. And the
    guard of the static file server: a request never resolves outside its
    root. The host is POSIX; case folding is ASCII. *)

From S2P Require Import Prelude.
Local Open Scope Z_scope.

Module Paths.

(** ** Characters *)

Definition code (a : ascii) : Z := Z.of_N (Ascii.N_of_ascii a).
Definition char (n : Z) : ascii := Ascii.ascii_of_N (Z.to_N n).

Definition lower_ascii (a : ascii) : ascii :=
  if decide (65 ≤ code a ∧ code a ≤ 90) then char (code a + 32) else a.

Fixpoint map_string (f : ascii → ascii) (s : string) : string :=
  match s with
  | EmptyString => EmptyString
  | String a s => String (f a) (map_string f s)
  end.

Definition toLowerCase (s : string) : string := map_string lower_ascii s.

Definition backslash : ascii := char 92.

(** [s.replace(/\\/g, "/")]. *)
Definition forward_slashes (s : string) : string :=
  map_string (λ a, if Ascii.eqb a backslash then "/"%char else a) s.

(** [s.replace(/^\/+/, "")]. *)
Fixpoint strip_leading (s : string) : string :=
  match s with
  | String "/" s => strip_leading s
  | _ => s
  end.

(** [s.replace(/\/+$/, "")]. *)
Fixpoint strip_trailing (s : string) : string :=
  match s with
  | EmptyString => EmptyString
  | String a s =>
      let s := strip_trailing s in
      match s with
      | EmptyString => if Ascii.eqb a "/" then EmptyString else String a EmptyString
      | _ => String a s
      end
  end.

(** [/^[a-zA-Z]:/.test(s)]. *)
Definition has_drive (s : string) : bool :=
  match s with
  | String a (String ":" _) =>
      bool_decide ((65 ≤ code a ∧ code a ≤ 90) ∨ (97 ≤ code a ∧ code a ≤ 122))
  | _ => false
  end.

(** [s.slice(n)]. *)
Definition slice (n : nat) (s : string) : string :=
  String.substring n (String.length s - n) s.

(** ** [path.posix.normalize]

    Segments are folded from the left: empty and "." segments are dropped,
    ".." removes the last segment that is not "..", or is kept when the path
    may go above its start. The fold keeps the segments in reverse. *)

Definition norm_step (above : bool) (acc : list string) (seg : string) : list string :=
  if String.eqb seg "" || String.eqb seg "." then acc
  else if String.eqb seg ".." then
    match acc with
    | s :: acc' => if String.eqb s ".." then (if above then ".." :: acc else acc) else acc'
    | [] => if above then [".."] else []
    end
  else seg :: acc.

Definition norm_segments (above : bool) (segs : list string) : list string :=
  reverse (foldl (norm_step above) [] segs).

Definition is_absolute (p : string) : bool := startsWith "/" p.

Fixpoint ends_with_slash (p : string) : bool :=
  match p with
  | EmptyString => false
  | String a EmptyString => Ascii.eqb a "/"
  | String _ p => ends_with_slash p
  end.

Definition posix_normalize (p : string) : string :=
  if String.eqb p "" then "."
  else
    let abs := is_absolute p in
    let q := join "/" (norm_segments (negb abs) (split_on "/" p)) in
    if String.eqb q "" then
      if abs then "/" else if ends_with_slash p then "./" else "."
    else
      let q := if ends_with_slash p then q +:+ "/" else q in
      if abs then "/" +:+ q else q.

(** ** [normalizePath] *)

Definition longer_first (a b : string) : Prop := (String.length b ≤ String.length a)%nat.

#[global] Instance longer_first_dec : RelDecision longer_first.
Proof. intros a b. unfold longer_first. apply _. Defined.

Definition tidy (p : string) : string := strip_trailing (forward_slashes p).

Definition tidy_roots (given : list string) : list string :=
  merge_sort longer_first (filter (λ r, r ≠ "") (tidy <$> given)).

Definition windows_style (given : list string) (input : string) : bool :=
  existsb (λ r, has_drive r || has_char backslash r) given ||
  has_drive input || has_char backslash input.

Definition under_root (fold_case : bool) (p root : string) : bool :=
  let p := if fold_case then toLowerCase p else p in
  let root := if fold_case then toLowerCase root else root in
  startsWith (root +:+ "/") p || String.eqb p root.

(** [.replace(/^\.\//, "")]. *)
Definition drop_dot_slash (p : string) : string :=
  match p with
  | String "." (String "/" p) => p
  | _ => p
  end.

Definition finish (win : bool) (p : string) : string :=
  let p := drop_dot_slash (posix_normalize p) in
  if win then toLowerCase p else p.

(** [None] is the "path is outside repoRoot" error. [given] is empty for a
    [null] root and a singleton for one root. *)
Definition normalizePath (given : list string) (input : string) : option string :=
  let roots := tidy_roots given in
  let win := windows_style given input in
  let p := forward_slashes input in
  if decide (roots ≠ [] ∧ Is_true (is_absolute input || has_drive input)) then
    root ← head (filter (λ r, Is_true (under_root win p r)) roots);
    Some (finish win (strip_leading (slice (String.length root) p)))
  else Some (finish win p).

(** The first rejected path, or all of them normalised. *)
Fixpoint normalizeDeclaredPaths (given : list string) (paths : list string)
    : string + list string :=
  match paths with
  | [] => inr []
  | p :: paths =>
      match normalizePath given p with
      | None => inl p
      | Some q =>
          match normalizeDeclaredPaths given paths with
          | inl r => inl r
          | inr qs => inr (q :: qs)
          end
      end
  end.

(** ** [safeJoinUnderRoot] *)

Definition hex_value (a : ascii) : option Z :=
  let n := code a in
  if decide (48 ≤ n ∧ n ≤ 57) then Some (n - 48)
  else if decide (65 ≤ n ∧ n ≤ 70) then Some (n - 55)
  else if decide (97 ≤ n ∧ n ≤ 102) then Some (n - 87)
  else None.

(** How many continuation bytes a UTF-8 lead byte announces, and the bounds of
    the first one (overlong forms and surrogates are malformed). *)
Definition utf8_lead (b : Z) : option (nat * Z * Z) :=
  if decide (194 ≤ b ∧ b ≤ 223) then Some (1%nat, 128, 191)
  else if decide (b = 224) then Some (2%nat, 160, 191)
  else if decide (b = 237) then Some (2%nat, 128, 159)
  else if decide (225 ≤ b ∧ b ≤ 239) then Some (2%nat, 128, 191)
  else if decide (b = 240) then Some (3%nat, 144, 191)
  else if decide (241 ≤ b ∧ b ≤ 243) then Some (3%nat, 128, 191)
  else if decide (b = 244) then Some (3%nat, 128, 143)
  else None.

(** [decodeURIComponent] on the UTF-8 text; [need] continuation bytes are
    still expected, the next within [lo]..[hi]. [None] is the URIError. *)
Fixpoint decode_uri (need : nat) (lo hi : Z) (s : string) : option string :=
  match s with
  | EmptyString => match need with O => Some "" | S _ => None end
  | String "%" (String a (String b s)) =>
      x ← hex_value a; y ← hex_value b;
      let n := 16 * x + y in
      match need with
      | O =>
          if decide (n < 128) then r ← decode_uri 0 0 0 s; Some (String (char n) r)
          else
            '(k, lo', hi') ← utf8_lead n;
            r ← decode_uri k lo' hi' s; Some (String (char n) r)
      | S k =>
          if decide (lo ≤ n ∧ n ≤ hi)
          then r ← decode_uri k 128 191 s; Some (String (char n) r)
          else None
      end
  | String "%" _ => None
  | String a s =>
      match need with
      | O => r ← decode_uri 0 0 0 s; Some (String a r)
      | S _ => None
      end
  end.

Definition decodeURIComponent (s : string) : option string := decode_uri 0 0 0 s.

Definition nul : ascii := char 0.

(** [s.replace(/^[/\\]+/, "")]. *)
Fixpoint strip_leading_both (s : string) : string :=
  match s with
  | String a s' => if Ascii.eqb a "/" || Ascii.eqb a backslash then strip_leading_both s' else s
  | EmptyString => EmptyString
  end.

(** [path.resolve] of an absolute root, and of a path below it. *)
Definition resolve (root : string) (rel : string) : string :=
  "/" +:+ join "/" (norm_segments false (split_on "/" root ++ split_on "/" rel)).

Definition safeJoinUnderRoot (root urlPath : string) : option string :=
  if has_char nul urlPath then None
  else
    decoded ← decodeURIComponent urlPath;
    if has_char nul decoded then None
    else
      let trimmed := strip_leading_both decoded in
      if String.eqb trimmed "" then None
      else
        let rootResolved := resolve root "" in
        let candidate := if is_absolute trimmed then resolve trimmed "" else resolve root trimmed in
        let rootWithSep := if ends_with_slash rootResolved then rootResolved
                           else rootResolved +:+ "/" in
        if negb (String.eqb candidate rootResolved) && negb (startsWith rootWithSep candidate)
        then None
        else Some candidate.

(** ** Specifications *)

(** A segment that normalisation keeps as it is. *)
Definition clean (s : string) : Prop :=
  s ≠ "" ∧ s ≠ "." ∧ s ≠ ".." ∧ has_char "/" s = false.

(** A normal form: parent segments, only if allowed, then clean ones. *)
Definition normal (above : bool) (segs : list string) : Prop :=
  ∃ n l, segs = replicate n ".." ++ l ∧ Forall clean l ∧ (above = false → n = O).

(** The segments of the resolved root. *)
Definition root_segments (root : string) : list string := norm_segments false (split_on "/" root).

(** ** Lemmas on strings *)

Lemma startsWith_spec p s : startsWith p s = true ↔ ∃ t, s = p +:+ t.
Proof.
  unfold startsWith. revert s. induction p as [|a p IH]; intros s.
  - split; [by exists s|]. by destruct s.
  - destruct s as [|b s]; cbn [String.prefix].
    { split; [done|by intros [t ?]]. }
    destruct (Ascii.ascii_dec a b) as [->|Hne].
    + rewrite IH. split; intros [t E]; exists t; [by rewrite E|by injection E].
    + split; [done|]. intros [t E]. by injection E.
Qed.

Lemma has_char_app c s t : has_char c (s +:+ t) = has_char c s || has_char c t.
Proof.
  induction s as [|a s IH]; [done|]. change (String a s +:+ t) with (String a (s +:+ t)).
  cbn [has_char]. rewrite IH. by rewrite orb_assoc.
Qed.

Lemma last_split p : p ≠ "" → (last (split_on "/" p) = Some "" ↔ ends_with_slash p = true).
Proof.
  induction p as [|a p IH]; [done|]. intros _. cbn [split_on].
  destruct p as [|b p].
  - cbn. destruct (Ascii.eqb a "/"); simpl; [done|]. split; [|done]. by intros [=].
  - specialize (IH ltac:(done)). destruct (split_on_cons "/" (String b p)) as (q & qs & E).
    change (ends_with_slash (String a (String b p))) with (ends_with_slash (String b p)).
    rewrite <- IH, E. destruct (Ascii.eqb a "/"); [by rewrite last_cons_cons|].
    destruct qs as [|q' qs]; [|by rewrite !last_cons_cons].
    simpl. split; [by intros [=]|]. intros [= ->].
    (* a single empty segment would make the tail empty *)
    pose proof (join_split "/" (String b p)) as Hj. by rewrite E in Hj.
Qed.

Lemma split_no_slash p s : s ∈ split_on "/" p → has_char "/" s = false.
Proof.
  revert s. induction p as [|a p IH]; intros s; cbn [split_on].
  - by intros ->%list_elem_of_singleton.
  - destruct (Ascii.eqb a "/") eqn:Ha.
    + intros [->|Hs]%elem_of_cons; [done|by apply IH].
    + destruct (split_on_cons "/" p) as (q & qs & E). rewrite E in *.
      intros [->|Hs]%elem_of_cons; [|apply IH; by right].
      cbn [has_char]. rewrite Ha. apply IH. left.
Qed.

(** ** Normal forms *)

Lemma norm_clean above acc l :
  Forall clean l → foldl (norm_step above) acc l = reverse l ++ acc.
Proof.
  revert acc. induction l as [|s l IH]; intros acc Hl; [done|].
  inversion Hl as [|?? (H1 & H2 & H3 & _) Hl']; subst. cbn [foldl].
  assert (norm_step above acc s = s :: acc) as ->.
  { unfold norm_step. apply String.eqb_neq in H1, H2, H3. by rewrite H1, H2, H3. }
  rewrite IH by done. by rewrite reverse_cons, <- app_assoc.
Qed.

Lemma norm_ups n : foldl (norm_step true) [] (replicate n "..") = replicate n "..".
Proof.
  assert (∀ k, foldl (norm_step true) (replicate k "..") (replicate n "..") =
    replicate (n + k) "..") as H;
    [|pose proof (H O) as H0; by rewrite Nat.add_0_r in H0].
  induction n as [|n IH]; intros k; [done|]. cbn [replicate foldl].
  assert (norm_step true (replicate k "..") ".." = replicate (S k) "..") as -> by by destruct k.
  rewrite IH. f_equal. lia.
Qed.

(** The fold always ends in a normal form (kept in reverse). *)
Lemma norm_normal above segs :
  Forall (λ s, has_char "/" s = false) segs → normal above (norm_segments above segs).
Proof.
  intros Hs. unfold norm_segments.
  assert (∀ acc, normal above (reverse acc) →
    normal above (reverse (foldl (norm_step above) acc segs))) as H.
  2:{ apply H. exists O, []. done. }
  induction segs as [|s segs IH]; intros acc Hacc; [done|].
  inversion Hs as [|?? Hsl Hs']; subst. cbn [foldl]. apply IH; [done|]. clear IH Hs'.
  unfold norm_step. destruct (String.eqb s "" || String.eqb s ".") eqn:E1; [done|].
  apply orb_false_elim in E1 as [E0 E1]. apply String.eqb_neq in E0, E1.
  destruct Hacc as (n & l & E & Hl & Hn).
  apply (f_equal reverse) in E. rewrite reverse_involutive, reverse_app, reverse_replicate in E.
  subst acc.
  destruct (String.eqb s "..") eqn:E2.
  - destruct l as [|x l _] using rev_ind.
    + rewrite reverse_nil. cbn [app]. destruct n as [|n]; cbn [replicate].
      * destruct above; [exists 1%nat, []|exists O, []]; done.
      * rewrite String.eqb_refl. destruct above; [exists (S (S n)), []|by specialize (Hn eq_refl)].
        split; [|done]. rewrite app_nil_r. change (".." :: ".." :: replicate n "..")
          with (replicate (S (S n)) ".."). by rewrite reverse_replicate.
    + rewrite reverse_snoc. cbn [app]. apply Forall_app in Hl as [Hl Hx].
      apply Forall_singleton in Hx as (_ & _ & Hx & _). apply String.eqb_neq in Hx. rewrite Hx.
      exists n, l. split; [|done]. by rewrite reverse_app, reverse_involutive, reverse_replicate.
  - apply String.eqb_neq in E2. exists n, (l ++ [s]). split; [|split; [|done]].
    + by rewrite reverse_cons, reverse_app, reverse_involutive, reverse_replicate, app_assoc.
    + apply Forall_app. split; [done|]. by apply Forall_singleton.
Qed.

(** A normal form is left alone, with empty segments around it or not. *)
Lemma norm_fixed above segs pre post :
  normal above segs → Forall (λ s, s = "") pre → Forall (λ s, s = "") post →
  norm_segments above (pre ++ segs ++ post) = segs.
Proof.
  intros (n & l & -> & Hl & Hn) Hpre Hpost. unfold norm_segments.
  assert (∀ acc k, Forall (λ s, s = "") k → foldl (norm_step above) acc k = acc) as Hnil.
  { intros acc k Hk. induction Hk as [|s k -> _ IH]; [done|]. apply IH. }
  rewrite !foldl_app, (Hnil [] pre) by done. rewrite (Hnil _ post) by done.
  rewrite norm_clean by done. rewrite reverse_app, reverse_involutive. f_equal.
  destruct above; [by rewrite norm_ups, reverse_replicate|]. by rewrite (Hn eq_refl).
Qed.

(** ** Rendering a normal form *)

Lemma normal_segments above segs :
  normal above segs → Forall (λ s, s ≠ "" ∧ has_char "/" s = false) segs.
Proof.
  intros (n & l & -> & Hl & _). apply Forall_app. split.
  - apply Forall_replicate. done.
  - eapply Forall_impl; [exact Hl|]. intros s (? & _ & _ & ?). done.
Qed.

Lemma split_normal above segs :
  normal above segs → segs ≠ [] → split_on "/" (join "/" segs) = segs.
Proof.
  intros Hn Hne. apply split_join; [done|]. eapply Forall_impl; [by eapply normal_segments|].
  by intros s [_ ?].
Qed.

Lemma join_empty above segs : normal above segs → join "/" segs = "" ↔ segs = [].
Proof.
  intros Hn. split; [|by intros ->]. intros E.
  destruct (decide (segs = [])) as [|Hne]; [done|]. exfalso.
  pose proof (split_normal above segs Hn Hne) as Hs. rewrite E in Hs. simpl in Hs. subst segs.
  apply normal_segments in Hn. by apply Forall_singleton in Hn as [? _].
Qed.

Definition render (abs trailing : bool) (segs : list string) : string :=
  (if abs then "/" else "") +:+ (join "/" segs +:+ (if trailing then "/" else "")).

Lemma split_render above abs trailing segs :
  normal above segs → segs ≠ [] →
  split_on "/" (render abs trailing segs) =
    (if abs then [""] else []) ++ segs ++ (if trailing then [""] else []).
Proof.
  intros Hn Hne. unfold render.
  assert (split_on "/" (join "/" segs +:+ (if trailing then "/" else "")) =
    segs ++ (if trailing then [""] else [])) as E.
  { destruct trailing.
    - rewrite (split_on_sep "/" _ ""), (split_normal above) by done. done.
    - rewrite str_app_nil_r, app_nil_r. by eapply split_normal. }
  destruct abs; [|exact E].
  change ("/" +:+ (join "/" segs +:+ (if trailing then "/" else "")))
    with ("" +:+ String "/" (join "/" segs +:+ (if trailing then "/" else ""))).
  rewrite split_on_sep, E. done.
Qed.

Lemma abs_render above abs trailing segs :
  normal above segs → segs ≠ [] → is_absolute (render abs trailing segs) = abs.
Proof.
  intros Hn Hne. destruct abs; [apply startsWith_spec; by eexists|].
  destruct segs as [|s segs]; [done|]. apply normal_segments in Hn.
  apply Forall_cons in Hn as [[Hs1 Hs2] _]. destruct s as [|a s]; [done|].
  assert (∃ t, render false trailing (String a s :: segs) = String a t) as [t ->].
  { unfold render. change ("" +:+ ?x) with x. destruct segs; by eexists. }
  cbn in Hs2. apply orb_false_elim in Hs2 as [Ha _]. unfold is_absolute, startsWith.
  cbn [String.prefix]. destruct (Ascii.ascii_dec "/" a) as [<-|]; [|done]. done.
Qed.

Lemma trailing_render above abs trailing segs :
  normal above segs → segs ≠ [] → ends_with_slash (render abs trailing segs) = trailing.
Proof.
  intros Hn Hne.
  assert (render abs trailing segs ≠ "") as Hr.
  { intros E. pose proof (split_render above abs trailing segs Hn Hne) as Hs. rewrite E in Hs.
    pose proof (join_empty above segs Hn) as Hj. unfold render in E.
    destruct abs; [done|]. change ("" +:+ ?x) with x in E.
    destruct (join "/" segs) eqn:Ej; [by apply Hne, Hj|done]. }
  pose proof (last_split _ Hr) as Hl. rewrite (split_render above) in Hl by done.
  destruct trailing.
  - apply Hl. by rewrite app_assoc, last_snoc.
  - apply not_true_is_false. rewrite <- Hl, app_nil_r. intros E.
    destruct segs as [|s segs _] using rev_ind; [done|].
    rewrite app_assoc, last_snoc in E. injection E as ->.
    apply normal_segments, Forall_app in Hn as [_ Hn]. by apply Forall_singleton in Hn as [? _].
Qed.

Lemma posix_render p :
  p ≠ "" →
  let segs := norm_segments (negb (is_absolute p)) (split_on "/" p) in
  posix_normalize p =
    if decide (segs = []) then
      if is_absolute p then "/" else if ends_with_slash p then "./" else "."
    else render (is_absolute p) (ends_with_slash p) segs.
Proof.
  intros Hp segs. unfold posix_normalize. apply String.eqb_neq in Hp. rewrite Hp. fold segs.
  assert (normal (negb (is_absolute p)) segs) as Hn.
  { apply norm_normal, Forall_forall. intros s. apply split_no_slash. }
  destruct (String.eqb (join "/" segs) "") eqn:E.
  - apply String.eqb_eq in E. rewrite decide_True; [done|]. by apply (join_empty _ _ Hn).
  - apply String.eqb_neq in E. rewrite decide_False; [|intros E'; by apply E, (join_empty _ _ Hn)].
    unfold render. destruct (is_absolute p), (ends_with_slash p); rewrite ?str_app_nil_r; done.
Qed.

Lemma normalize_idempotent p : posix_normalize (posix_normalize p) = posix_normalize p.
Proof.
  destruct (decide (p = "")) as [->|Hp]; [done|].
  rewrite (posix_render p Hp). set (segs := norm_segments _ _).
  assert (normal (negb (is_absolute p)) segs) as Hn.
  { apply norm_normal, Forall_forall. intros s. apply split_no_slash. }
  case_decide as Hne; [by destruct (is_absolute p), (ends_with_slash p)|].
  set (p' := render (is_absolute p) (ends_with_slash p) segs).
  assert (is_absolute p' = is_absolute p) as Ea by by eapply abs_render.
  assert (ends_with_slash p' = ends_with_slash p) as Et by by eapply trailing_render.
  assert (p' ≠ "") as Hp'.
  { intros E. pose proof (split_render _ (is_absolute p) (ends_with_slash p) segs Hn Hne) as Hs.
    fold p' in Hs. rewrite E in Hs. destruct (is_absolute p); [by rewrite E in Ea|].
    destruct segs as [|s l]; [done|]. injection Hs as <- _.
    apply normal_segments in Hn. by apply Forall_cons in Hn as [[? _] _]. }
  assert (norm_segments (negb (is_absolute p)) (split_on "/" p') = segs) as Es.
  { unfold p'. rewrite (split_render _ _ _ segs Hn Hne). apply norm_fixed; [done|..].
    - by destruct (is_absolute p); repeat constructor.
    - by destruct (ends_with_slash p); repeat constructor. }
  rewrite (posix_render p' Hp'), Ea, Et, Es. by rewrite decide_False.
Qed.

(** ** One key per file *)

Lemma map_string_id f s : (∀ a, has_char a s = true → f a = a) → map_string f s = s.
Proof.
  induction s as [|a s IH]; intros Hf; [done|]. cbn [map_string]. f_equal.
  - apply Hf. cbn. by rewrite Ascii.eqb_refl.
  - apply IH. intros b Hb. apply Hf. cbn. by rewrite Hb, orb_true_r.
Qed.

Lemma forward_slashes_id s : has_char backslash s = false → forward_slashes s = s.
Proof.
  intros Hs. apply map_string_id. intros a Ha. destruct (Ascii.eqb a backslash) eqn:E; [|done].
  apply Ascii.eqb_eq in E as ->. congruence.
Qed.

Lemma slice_app r t : slice (String.length r) (r +:+ t) = t.
Proof.
  induction r as [|a r IH]; [|exact IH]. change ("" +:+ t) with t. unfold slice.
  change (String.length "") with O. rewrite Nat.sub_0_r.
  induction t as [|b t IH]; [done|]. exact (f_equal (String b) IH).
Qed.

Lemma same_length_prefix r r' t t' :
  String.length r = String.length r' → r +:+ t = r' +:+ t' → r = r'.
Proof.
  revert r'. induction r as [|a r IH]; intros [|b r'] Hl E; try done.
  injection E as -> E. injection Hl as Hl. by rewrite (IH r').
Qed.

Lemma length_str_app s t : String.length (s +:+ t) = (String.length s + String.length t)%nat.
Proof. induction s as [|a s IH]; [done|]. exact (f_equal S IH). Qed.

(** The first match of a sorted list is a greatest match. *)
Lemma head_filter_sorted {A} (R : relation A) (P : A → Prop) `{!∀ x, Decision (P x)} l x :
  StronglySorted R l → reflexive _ R → head (filter P l) = Some x →
  P x ∧ x ∈ l ∧ ∀ y, y ∈ l → P y → R x y.
Proof.
  intros Hs Hr. induction Hs as [|z l Hs IH Hz]; [done|]. rewrite filter_cons.
  case_decide as Hp.
  - intros [= <-]. split_and!; [done|left|].
    intros y [->|Hy]%elem_of_cons _; [apply Hr|]. rewrite Forall_forall in Hz. by apply Hz.
  - intros E. destruct (IH E) as (? & ? & Hy). split_and!; [done|by right|].
    intros y [->|Hyl]%elem_of_cons HPy; [done|]. by apply Hy.
Qed.

Lemma tidy_roots_sorted given : StronglySorted longer_first (tidy_roots given).
Proof.
  apply Sorted_StronglySorted.
  - intros x y z. unfold longer_first. lia.
  - apply Sorted_merge_sort. intros x y. unfold longer_first. lia.
Qed.

Lemma absolute_no_drive p : is_absolute p = true → has_drive p = false.
Proof.
  intros [t ->]%startsWith_spec. destruct t as [|a t]; [done|].
  change ("/" +:+ String a t) with (String "/" (String a t)).
  by destruct a as [[] [] [] [] [] [] [] []].
Qed.

(** The longest root that contains the file is the one that is found. *)
Lemma longest_root given root r :
  root ∈ tidy_roots given →
  (∀ g, g ∈ tidy_roots given → under_root false (root +:+ "/" +:+ r) g = true →
     (String.length g ≤ String.length root)%nat) →
  head (filter (λ g, Is_true (under_root false (root +:+ "/" +:+ r) g)) (tidy_roots given)) = Some root.
Proof.
  intros Hroot Hlongest. set (p := root +:+ "/" +:+ r) in *.
  assert (under_root false p root = true) as Hu.
  { unfold under_root. apply orb_true_iff. left. apply startsWith_spec. exists r.
    by rewrite str_app_assoc. }
  destruct (head (filter (λ g, Is_true (under_root false p g)) (tidy_roots given))) as [g|] eqn:E.
  2:{ exfalso. assert (root ∈ filter (λ g, Is_true (under_root false p g)) (tidy_roots given)) as Hf.
      { apply list_elem_of_filter. by rewrite Hu. }
      revert E Hf. destruct (filter _ _); [|done]. by intros _ ?%not_elem_of_nil. }
  apply (head_filter_sorted longer_first) in E as (Hgu & Hgin & Hmax);
    [|apply tidy_roots_sorted|by intros x; unfold longer_first].
  apply Is_true_true in Hgu. specialize (Hlongest g Hgin Hgu).
  specialize (Hmax root Hroot). rewrite Hu in Hmax. specialize (Hmax I). unfold longer_first in Hmax.
  f_equal. unfold under_root in Hgu. apply orb_true_iff in Hgu as [[t Et]%startsWith_spec|Eg%String.eqb_eq].
  - unfold p in Et. rewrite str_app_assoc in Et. symmetry.
    eapply same_length_prefix; [|exact Et]. lia.
  - exfalso. subst g. unfold p in Hlongest. rewrite !length_str_app in Hlongest.
    cbn in Hlongest. lia.
Qed.

(** Every spelling of a file has one key: under a configured root or a
    worktree, the absolute path and the repository relative path of a file are
    normalised alike, when the root is the longest of the known roots that
    contain the file (a worktree inside the repository wins over it). *)
Theorem one_key_per_file given root r :
  Forall (λ g, has_drive g = false ∧ has_char backslash g = false) given →
  root ∈ given → strip_trailing root = root → is_absolute root = true →
  is_absolute r = false → has_drive r = false → has_char backslash r = false →
  (∀ g, g ∈ tidy_roots given → under_root false (root +:+ "/" +:+ r) g = true →
     (String.length g ≤ String.length root)%nat) →
  normalizePath given (root +:+ "/" +:+ r) = normalizePath given r.
Proof.
  intros Hg Hin Htidy Habs Hr Hd Hb Hlongest.
  set (p := root +:+ "/" +:+ r) in *.
  rewrite Forall_forall in Hg. destruct (Hg root Hin) as [Hgd Hgb].
  assert (root ≠ "") as Hne by (intros ->; done).
  assert (has_char backslash p = false) as Hpb.
  { unfold p. rewrite !has_char_app, Hgb, Hb. done. }
  assert (is_absolute p = true ∧ has_drive p = false) as [Hpa Hpd].
  { apply startsWith_spec in Habs as [t ->].
    assert (is_absolute p = true) as Ha.
    { apply startsWith_spec. exists (t +:+ "/" +:+ r). unfold p. by rewrite str_app_assoc. }
    split; [done|]. by apply absolute_no_drive. }
  assert (existsb (λ g, has_drive g || has_char backslash g) given = false) as Hex.
  { apply not_true_is_false. intros (g & Hgin & Hgt)%existsb_exists.
    apply list_elem_of_In in Hgin. destruct (Hg g Hgin) as [E1 E2]. by rewrite E1, E2 in Hgt. }
  assert (root ∈ tidy_roots given) as Hroot.
  { unfold tidy_roots. rewrite merge_sort_Permutation. apply list_elem_of_filter. split; [done|].
    apply list_elem_of_fmap. exists root. split; [|done]. unfold tidy.
    by rewrite forward_slashes_id. }
  unfold normalizePath. unfold windows_style. rewrite Hex, Hpb, Hpd, Hd, Hb, Hpa, Hr.
  rewrite !forward_slashes_id by done. cbn [orb].
  rewrite decide_True; [|split; [|done]; intros E; rewrite E in Hroot; by apply not_elem_of_nil in Hroot].
  rewrite (decide_False (P := _ ∧ Is_true false)) by by intros [_ ?].
  unfold p. rewrite (longest_root given root r Hroot Hlongest). fold p.
  cbn [mbind option_bind]. f_equal. f_equal. unfold p. rewrite slice_app.
  change ("/" +:+ r) with (String "/" r). cbn [strip_leading].
  destruct r as [|a r]; [done|]. unfold is_absolute, startsWith in Hr. cbn [String.prefix] in Hr.
  destruct (Ascii.ascii_dec "/" a) as [|Hna]; [by destruct r|].
  cbn [strip_leading]. destruct a as [[] [] [] [] [] [] [] []]; done.
Qed.

(** ** Keys are stable *)

Lemma lower_facts a :
  Ascii.eqb (lower_ascii a) "/" = Ascii.eqb a "/" ∧ Ascii.eqb (lower_ascii a) "." = Ascii.eqb a "." ∧
  lower_ascii (lower_ascii a) = lower_ascii a ∧
  (lower_ascii a = backslash → a = backslash).
Proof. destruct a as [[] [] [] [] [] [] [] []]; done. Qed.

Lemma split_lower s : split_on "/" (toLowerCase s) = toLowerCase <$> split_on "/" s.
Proof.
  induction s as [|a s IH]; [done|]. unfold toLowerCase in *. cbn [map_string split_on].
  destruct (lower_facts a) as (-> & _). destruct (Ascii.eqb a "/"); [by rewrite IH|].
  rewrite IH. by destruct (split_on_cons "/" s) as (p & ps & ->).
Qed.

Lemma lower_app s t : toLowerCase (s +:+ t) = toLowerCase s +:+ toLowerCase t.
Proof. induction s as [|a s IH]; [done|]. exact (f_equal (String (lower_ascii a)) IH). Qed.

Lemma join_lower l : join "/" (toLowerCase <$> l) = toLowerCase (join "/" l).
Proof.
  induction l as [|s l IH]; [done|]. destruct l as [|s' l]; [done|].
  change (join "/" (s :: s' :: l)) with (s +:+ String "/" (join "/" (s' :: l))).
  rewrite lower_app. cbn [fmap list_fmap] in *.
  change (toLowerCase (String "/" (join "/" (s' :: l)))) with (String "/" (toLowerCase (join "/" (s' :: l)))).
  by rewrite <- IH.
Qed.

Lemma eqb_lower s t :
  t = "" ∨ t = "." ∨ t = ".." → String.eqb (toLowerCase s) t = String.eqb s t.
Proof.
  assert (∀ a s, String.eqb (toLowerCase (String a s)) "." = String.eqb (String a s) ".") as H1.
  { intros a [|b s']; unfold toLowerCase; cbn; destruct (lower_facts a) as (_ & -> & _); by destruct (Ascii.eqb a "."). }
  intros [->|[->| ->]]; destruct s as [|a s]; try done; try apply H1.
  unfold toLowerCase. cbn [map_string String.eqb]. destruct (lower_facts a) as (_ & -> & _).
  destruct (Ascii.eqb a "."); [|done]. destruct s as [|b s]; [done|]. apply H1.
Qed.

Lemma norm_lower above segs :
  norm_segments above (toLowerCase <$> segs) = toLowerCase <$> norm_segments above segs.
Proof.
  unfold norm_segments. rewrite fmap_reverse. f_equal.
  assert (∀ acc, foldl (norm_step above) (toLowerCase <$> acc) (toLowerCase <$> segs) =
    toLowerCase <$> foldl (norm_step above) acc segs) as H; [|apply (H [])].
  induction segs as [|s segs IH]; intros acc; [done|]. rewrite fmap_cons. cbn [foldl].
  rewrite <- IH. f_equal. unfold norm_step. rewrite !eqb_lower by tauto.
  destruct (String.eqb s "" || String.eqb s "."); [done|].
  destruct (String.eqb s ".."); [|done]. destruct acc as [|x acc]; [by destruct above|].
  rewrite fmap_cons, eqb_lower by tauto.
  destruct (String.eqb x ".."); [|done]. by destruct above.
Qed.

Lemma abs_lower p : is_absolute (toLowerCase p) = is_absolute p.
Proof.
  destruct p as [|a p]; [done|]. unfold is_absolute, startsWith, toLowerCase.
  cbn [map_string String.prefix]. destruct (lower_facts a) as (E & _).
  destruct (Ascii.ascii_dec "/" (lower_ascii a)) as [Ha|Ha], (Ascii.ascii_dec "/" a) as [Hb|Hb].
  - by destruct p.
  - exfalso. apply Hb. symmetry. apply Ascii.eqb_eq. rewrite <- E. by apply Ascii.eqb_eq.
  - exfalso. apply Ha. symmetry. apply Ascii.eqb_eq. rewrite E. by apply Ascii.eqb_eq.
  - done.
Qed.

Lemma ends_lower p : ends_with_slash (toLowerCase p) = ends_with_slash p.
Proof.
  induction p as [|a p IH]; [done|]. destruct p as [|b p].
  - unfold toLowerCase. cbn. apply lower_facts.
  - exact IH.
Qed.

Lemma posix_lower p : posix_normalize (toLowerCase p) = toLowerCase (posix_normalize p).
Proof.
  unfold posix_normalize. rewrite eqb_lower by tauto. destruct (String.eqb p ""); [done|].
  rewrite abs_lower, ends_lower, split_lower, norm_lower, join_lower, eqb_lower by tauto.
  destruct (String.eqb _ ""), (is_absolute p), (ends_with_slash p); by rewrite ?lower_app.
Qed.

Lemma lower_idem s : toLowerCase (toLowerCase s) = toLowerCase s.
Proof.
  induction s as [|a s IH]; [done|]. unfold toLowerCase in *. cbn [map_string]. rewrite IH.
  by destruct (lower_facts a) as (_ & _ & -> & _).
Qed.

(** Only a path that normalises to "./" starts with "./". *)
Lemma drop_normalized p : posix_normalize p ≠ "./" → drop_dot_slash (posix_normalize p) = posix_normalize p.
Proof.
  intros Hne. destruct (decide (p = "")) as [->|Hp]; [done|]. revert Hne.
  rewrite (posix_render p Hp). set (segs := norm_segments _ _).
  assert (normal (negb (is_absolute p)) segs) as Hn.
  { apply norm_normal, Forall_forall. intros s. apply split_no_slash. }
  case_decide as He; [by destruct (is_absolute p), (ends_with_slash p)|]. intros _.
  pose proof (split_render _ (is_absolute p) (ends_with_slash p) segs Hn He) as Hs.
  set (q := render _ _ _) in *. clearbody q.
  assert (∀ t, q = String "." (String "/" t) → False) as Hno.
  { intros t ->. cbn in Hs. destruct (is_absolute p); [done|].
    destruct segs as [|x l]; [done|]. injection Hs as <- _.
    destruct Hn as (n & l' & E & Hl & _). destruct n as [|n]; [|done].
    cbn in E. subst l'. by apply Forall_cons in Hl as [(_ & Hx & _) _]. }
  destruct q as [|a [|b q]]; [done| |].
  - by destruct a as [[] [] [] [] [] [] [] []].
  - destruct (decide (a = "."%char)) as [->|Ha]; [destruct (decide (b = "/"%char)) as [->|Hb]|].
    + by destruct (Hno q).
    + by destruct b as [[] [] [] [] [] [] [] []].
    + by destruct a as [[] [] [] [] [] [] [] []].
Qed.

Lemma has_char_join c l : has_char c (join "/" l) = true → c = "/"%char ∨ ∃ s, s ∈ l ∧ has_char c s = true.
Proof.
  induction l as [|s l IH]; [done|]. destruct l as [|s' l].
  - intros H. right. exists s. split; [left|done].
  - change (join "/" (s :: s' :: l)) with (s +:+ String "/" (join "/" (s' :: l))).
    rewrite has_char_app, orb_true_iff. cbn [has_char]. rewrite orb_true_iff.
    intros [H|[H|H]].
    + right. exists s. split; [left|done].
    + left. by apply Ascii.eqb_eq in H as <-.
    + destruct (IH H) as [?|(x & ? & ?)]; [by left|right]. exists x. split; [by right|done].
Qed.

Lemma has_char_split c p s : s ∈ split_on "/" p → has_char c s = true → has_char c p = true.
Proof.
  revert s. induction p as [|a p IH]; intros s; cbn [split_on has_char].
  - by intros ->%list_elem_of_singleton.
  - rewrite orb_true_iff. destruct (Ascii.eqb a "/").
    + intros [->|Hs]%elem_of_cons Hc; [done|right]. by eapply IH.
    + destruct (split_on_cons "/" p) as (q & qs & E). rewrite E in *.
      intros [->|Hs]%elem_of_cons; [|intros Hc; right; apply (IH s); [by right|done]].
      cbn [has_char]. rewrite orb_true_iff. intros [?|Hc]; [by left|right].
      apply (IH q); [left|done].
Qed.

Lemma elem_of_norm above segs s : s ∈ norm_segments above segs → s = ".." ∨ s ∈ segs.
Proof.
  unfold norm_segments. rewrite elem_of_reverse.
  assert (∀ acc, s ∈ foldl (norm_step above) acc segs → s ∈ acc ∨ s = ".." ∨ s ∈ segs) as H.
  { induction segs as [|x segs IH]; intros acc Hs; [by left|]. cbn [foldl] in Hs.
    apply IH in Hs as [Hs|[?|?]]; [|by right; left|right; right; by right].
    unfold norm_step in Hs. destruct (_ || _); [by left|]. destruct (String.eqb x "..").
    - destruct acc as [|y acc]; [destruct above; set_solver|].
      destruct (String.eqb y ".."); [destruct above|]; set_solver.
    - set_solver. }
  intros Hs%H. destruct Hs as [?%not_elem_of_nil|?]; done.
Qed.

Lemma no_backslash_normalize p : has_char backslash p = false → has_char backslash (posix_normalize p) = false.
Proof.
  intros Hb. apply not_true_is_false. intros Hc.
  assert (∀ above, has_char backslash (join "/" (norm_segments above (split_on "/" p))) = false) as Hj.
  { intros above. apply not_true_is_false. intros [?|(s & [->|Hs]%elem_of_norm & Hsc)]%has_char_join; try done.
    apply (has_char_split _ p) in Hsc; [|done]. congruence. }
  revert Hc. unfold posix_normalize. destruct (String.eqb p ""); [done|].
  specialize (Hj (negb (is_absolute p))).
  destruct (String.eqb _ ""); [by destruct (is_absolute p), (ends_with_slash p)|].
  destruct (is_absolute p), (ends_with_slash p); rewrite ?has_char_app, Hj; done.
Qed.

Lemma no_backslash_lower s : has_char backslash s = false → has_char backslash (toLowerCase s) = false.
Proof.
  induction s as [|a s IH]; [done|]. unfold toLowerCase in *. cbn [map_string has_char].
  intros [Ha Hs]%orb_false_elim. rewrite IH, orb_false_r by done.
  apply Ascii.eqb_neq. apply Ascii.eqb_neq in Ha. intros E. apply Ha, lower_facts, E.
Qed.

Lemma no_backslash_tail n p :
  has_char backslash p = false → has_char backslash (strip_leading (slice n p)) = false.
Proof.
  intros Hp. assert (has_char backslash (slice n p) = false) as Hs.
  { unfold slice. revert n. induction p as [|a p IH]; intros n; [by destruct n|].
    cbn in Hp. apply orb_false_elim in Hp as [Ha Hp]. destruct n as [|n].
    - cbn. rewrite Ha. specialize (IH Hp O). by rewrite Nat.sub_0_r in IH.
    - apply (IH Hp n). }
  revert Hs. generalize (slice n p). intros s. induction s as [|a s IH]; [done|]. intros Hs.
  cbn [strip_leading]. destruct a as [[] [] [] [] [] [] [] []]; try exact Hs.
  apply IH. cbn in Hs. exact Hs.
Qed.

Lemma no_backslash_forward s : has_char backslash (forward_slashes s) = false.
Proof.
  induction s as [|a s IH]; [done|]. unfold forward_slashes in *. cbn [map_string has_char].
  rewrite IH, orb_false_r. destruct (Ascii.eqb a backslash) eqn:E; [done|exact E].
Qed.

(** Keys are stable: normalising a stored key again (as when a path that
    was reported by the coordinator is declared back to it) gives the key
    itself, for every relative key. *)
Theorem key_stable given input k :
  normalizePath given input = Some k →
  k ≠ "" → is_absolute k = false → has_drive k = false →
  normalizePath given k = Some k.
Proof.
  intros Hk Hne Ha Hd.
  assert (∃ p0, has_char backslash p0 = false ∧ k = finish (windows_style given input) p0)
    as (p0 & Hb0 & E0).
  { unfold normalizePath in Hk. case_decide.
    - destruct (head _) as [r|]; [|done]. injection Hk as <-. eexists. split; [|reflexivity].
      apply no_backslash_tail, no_backslash_forward.
    - injection Hk as <-. eexists. split; [|reflexivity]. apply no_backslash_forward. }
  set (win := windows_style given input) in *.
  assert (posix_normalize p0 ≠ "./") as Hnd.
  { intros E. apply Hne. rewrite E0. unfold finish. rewrite E. by destruct win. }
  assert (∃ p1, k = posix_normalize p1 ∧ has_char backslash k = false ∧
    posix_normalize p1 ≠ "./") as (p1 & E1 & Hkb & Hnd1).
  { unfold finish in E0. rewrite (drop_normalized _ Hnd) in E0. destruct win.
    - exists (toLowerCase p0). rewrite posix_lower. split_and!; [done| |].
      + rewrite E0. by apply no_backslash_lower, no_backslash_normalize.
      + intros E. apply Hnd. destruct (posix_normalize p0) as [|a [|b [|c q]]]; try done.
        unfold toLowerCase in E. injection E as Ea Eb.
        destruct (lower_facts a) as (_ & Fa & _), (lower_facts b) as (Fb & _).
        rewrite Ea in Fa. rewrite Eb in Fb. symmetry in Fa, Fb.
        by apply Ascii.eqb_eq in Fa as ->; apply Ascii.eqb_eq in Fb as ->.
    - exists p0. split_and!; [done| |done]. rewrite E0. by apply no_backslash_normalize. }
  unfold normalizePath. rewrite Ha, Hd. rewrite decide_False by by intros [_ ?].
  rewrite forward_slashes_id by done. f_equal. unfold finish.
  assert (drop_dot_slash (posix_normalize k) = k) as ->.
  { rewrite E1, normalize_idempotent. by apply drop_normalized. }
  destruct (windows_style given k) eqn:Ew; [|done].
  assert (win = true) as Hw.
  { unfold win. unfold windows_style in Ew |- *. rewrite Hd, Hkb, !orb_false_r in Ew. by rewrite Ew. }
  rewrite E0. unfold finish. rewrite Hw. apply lower_idem.
Qed.

Lemma key_stable_witness :
  normalizePath ["C:/Repo"] "src/types.ts" = Some "src/types.ts".
Proof.
  apply (key_stable ["C:/Repo"] "c:/repo/Src/./Types.ts"); [vm_compute; reflexivity|discriminate|
    reflexivity|reflexivity].
Defined.

(** ** The static file guard *)

Lemma normal_false segs : normal false segs → Forall clean segs.
Proof. intros (n & l & -> & Hl & Hn). by rewrite (Hn eq_refl). Qed.

Lemma norm_app_nil above l : norm_segments above (l ++ [""]) = norm_segments above l.
Proof. unfold norm_segments. by rewrite foldl_app. Qed.

Lemma resolve_normal root rel :
  ∃ segs, resolve root rel = "/" +:+ join "/" segs ∧ normal false segs ∧
    segs = norm_segments false (split_on "/" root ++ split_on "/" rel).
Proof.
  eexists. split; [reflexivity|]. split; [|done]. apply norm_normal, Forall_app.
  split; apply Forall_forall; intros s; apply split_no_slash.
Qed.

Lemma resolve_root root : resolve root "" = "/" +:+ join "/" (root_segments root).
Proof. unfold resolve, root_segments. by rewrite norm_app_nil. Qed.

Lemma root_normal root : normal false (root_segments root).
Proof. apply norm_normal, Forall_forall. intros s. apply split_no_slash. Qed.

Lemma ends_root root :
  ends_with_slash (resolve root "") = bool_decide (root_segments root = []).
Proof.
  rewrite resolve_root. case_bool_decide as Hr; [by rewrite Hr|].
  pose proof (trailing_render false true false _ (root_normal root) Hr) as E.
  unfold render in E. by rewrite str_app_nil_r in E.
Qed.

(** Text below "/a/b/" has the segments of "/a/b" first. *)
Lemma below_segments rsegs csegs t :
  normal false rsegs → rsegs ≠ [] → normal false csegs →
  "/" +:+ join "/" csegs = ("/" +:+ join "/" rsegs) +:+ "/" +:+ t →
  csegs = rsegs ++ split_on "/" t.
Proof.
  intros Hr Hne Hc E.
  assert (split_on "/" (("/" +:+ join "/" rsegs) +:+ "/" +:+ t) = "" :: rsegs ++ split_on "/" t) as E1.
  { change ("/" +:+ t) with (String "/" t). rewrite split_on_sep.
    change ("/" +:+ join "/" rsegs) with ("" +:+ String "/" (join "/" rsegs)).
    rewrite split_on_sep, (split_normal false rsegs) by done. done. }
  destruct (decide (csegs = [])) as [->|Hcne].
  - exfalso. rewrite <- E in E1. cbn in E1. injection E1 as E1. apply (f_equal length) in E1.
    rewrite length_app in E1. destruct (split_on_cons "/" t) as (x & xs & Et).
    rewrite Et in E1. destruct rsegs; [done|]. simpl in E1. lia.
  - rewrite <- E in E1. change ("/" +:+ join "/" csegs) with ("" +:+ String "/" (join "/" csegs)) in E1.
    rewrite split_on_sep, (split_normal false csegs) in E1 by done. by injection E1.
Qed.

(** [C22] A request never leaves the root: whatever the URL (encoded dots,
    backslashes, doubled slashes), the path the guard returns consists of the
    segments of the resolved root followed by plain segments, none of them
    empty, "." or "..". *)
Theorem safe_join_confined root u c :
  safeJoinUnderRoot root u = Some c →
  ∃ rel, Forall clean rel ∧ c = "/" +:+ join "/" (root_segments root ++ rel).
Proof.
  unfold safeJoinUnderRoot. destruct (has_char nul u); [done|].
  destruct (decodeURIComponent u) as [dec|]; [|done]. cbn [mbind option_bind].
  destruct (has_char nul dec); [done|]. set (tr := strip_leading_both dec).
  destruct (String.eqb tr ""); [done|].
  set (cand := if is_absolute tr then resolve tr "" else resolve root tr).
  assert (∃ segs, cand = "/" +:+ join "/" segs ∧ normal false segs) as (csegs & Ec & Hc).
  { unfold cand. destruct (is_absolute tr);
      [destruct (resolve_normal tr "") as (l & E & Hl & _)|
       destruct (resolve_normal root tr) as (l & E & Hl & _)]; by exists l. }
  clearbody cand. rewrite ends_root, resolve_root.
  case_bool_decide as Hr.
  - rewrite Hr. intros E. assert (cand = c) as <- by (case_match; congruence).
    exists csegs. split; [by apply normal_false|]. by rewrite Ec.
  - destruct (negb _ && negb _) eqn:Eb; [done|]. intros [= <-].
    apply andb_false_iff in Eb as [Eb|Eb]; apply negb_false_iff in Eb.
    + apply String.eqb_eq in Eb as ->. exists []. by rewrite app_nil_r.
    + apply startsWith_spec in Eb as [t Et]. rewrite Ec, str_app_assoc in Et.
      apply below_segments in Et; [|apply root_normal|done|done].
      exists (split_on "/" t). split; [|by rewrite Ec, Et].
      apply normal_false in Hc. rewrite Et in Hc. by apply Forall_app in Hc as [_ ?].
Qed.

Lemma decode_plain s : has_char "%" s = false → decodeURIComponent s = Some s.
Proof.
  unfold decodeURIComponent. induction s as [|a s IH]; [done|]. cbn [has_char].
  intros [Ha Hs]%orb_false_elim. specialize (IH Hs).
  assert (decode_uri 0 0 0 (String a s) = r ← decode_uri 0 0 0 s; Some (String a r)) as ->.
  { by destruct a as [[] [] [] [] [] [] [] []]. }
  by rewrite IH.
Qed.

(** The guard lets every plain request through: a relative path of plain
    segments without percent, NUL and backslash characters resolves to itself
    below the root. *)
Theorem safe_join_complete root rel :
  Forall (λ s, clean s ∧ has_char "%" s = false ∧ has_char nul s = false ∧
               has_char backslash s = false) rel →
  rel ≠ [] →
  safeJoinUnderRoot root (join "/" rel) = Some ("/" +:+ join "/" (root_segments root ++ rel)).
Proof.
  intros Hrel Hne.
  assert (normal false rel) as Hn.
  { exists O, rel. split; [done|]. split; [|done]. eapply Forall_impl; [exact Hrel|]. by intros s [? _]. }
  assert (∀ c, c ≠ "/"%char → Forall (λ s, has_char c s = false) rel → has_char c (join "/" rel) = false)
    as Hfree.
  { intros ch Hch Hl. clear -Hch Hl. induction Hl as [|s l Hs Hl IH]; [done|].
    destruct l as [|s' l]; [done|].
    change (join "/" (s :: s' :: l)) with (s +:+ String "/" (join "/" (s' :: l))).
    rewrite has_char_app, Hs. cbn [has_char orb]. rewrite IH, orb_false_r.
    apply Ascii.eqb_neq. by intros <-. }
  unfold safeJoinUnderRoot.
  rewrite (Hfree nul), decode_plain; [|apply Hfree|..];
    try (by eapply Forall_impl; [exact Hrel|]; naive_solver); try done.
  cbn [mbind option_bind]. rewrite (Hfree nul); [|done|by eapply Forall_impl; [exact Hrel|]; naive_solver].
  assert (strip_leading_both (join "/" rel) = join "/" rel ∧ is_absolute (join "/" rel) = false ∧
    join "/" rel ≠ "") as (-> & Ha & Hj).
  { split_and!; [| |by rewrite (join_empty false rel Hn)].
    - destruct rel as [|[|a s] l]; [done|by apply Forall_cons in Hrel as [[[? _] _] _]|].
      apply Forall_cons in Hrel as [((_ & _ & _ & H1) & _ & _ & H2) _]. cbn [has_char] in H1, H2.
      apply orb_false_elim in H1 as [H1 _], H2 as [H2 _].
      assert (∃ t, join "/" (String a s :: l) = String a t) as [t ->] by (destruct l; by eexists).
      cbn [strip_leading_both]. by rewrite H1, H2.
    - pose proof (abs_render false false false rel Hn Hne) as E. unfold render in E.
      change ("" +:+ ?x) with x in E. by rewrite str_app_nil_r in E. }
  apply String.eqb_neq in Hj. rewrite Hj, Ha.
  assert (resolve root (join "/" rel) = "/" +:+ join "/" (root_segments root ++ rel)) as ->.
  { unfold resolve. do 2 f_equal. rewrite (split_normal false rel) by done.
    unfold root_segments, norm_segments. rewrite foldl_app, norm_clean by by apply normal_false.
    by rewrite reverse_app, reverse_involutive. }
  rewrite ends_root, resolve_root.
  destruct (negb _ && negb _) eqn:Eb; [|done]. exfalso.
  apply andb_true_iff in Eb as [_ Eb]. apply negb_true_iff, not_true_iff_false in Eb. apply Eb.
  apply startsWith_spec. case_bool_decide as Hr; [rewrite Hr; by eexists|].
  exists (join "/" rel). rewrite !str_app_assoc. f_equal.
  generalize (root_segments root) Hr. clear -Hne. intros l. induction l as [|s l IH]; [done|]. intros _.
  destruct l as [|s' l]; [by destruct rel|]. specialize (IH ltac:(done)).
  change (join "/" ((s :: s' :: l) ++ rel)) with (s +:+ String "/" (join "/" ((s' :: l) ++ rel))).
  rewrite IH. change (join "/" (s :: s' :: l)) with (s +:+ String "/" (join "/" (s' :: l))).
  rewrite str_app_assoc. done.
Qed.

(** ** Concrete paths *)

(** A worktree inside the repository. *)
Lemma one_key_per_file_witness :
  normalizePath ["/repo"; "/repo/.claude/worktrees/x"] "/repo/.claude/worktrees/x/src/a.ts" =
    Some "src/a.ts".
Proof.
  etransitivity; [apply (one_key_per_file ["/repo"; "/repo/.claude/worktrees/x"]
    "/repo/.claude/worktrees/x" "src/a.ts")|vm_compute; reflexivity].
  - apply (bool_decide_unpack _). vm_compute. reflexivity.
  - right. left.
  - reflexivity.
  - reflexivity.
  - reflexivity.
  - reflexivity.
  - reflexivity.
  - intros g Hg _. vm_compute in Hg. set_unfold in Hg. destruct Hg as [->|[->|[]]]; cbn; lia.
Defined.

Lemma safe_join_confined_witness :
  ∃ rel, Forall clean rel ∧ "/srv/app.js" = "/" +:+ join "/" (root_segments "/srv" ++ rel).
Proof. apply (safe_join_confined "/srv" "//x/%2e%2e/app.js"). vm_compute. reflexivity. Defined.

Lemma safe_join_complete_witness :
  safeJoinUnderRoot "/srv/" "js/app.js" = Some "/srv/js/app.js".
Proof.
  apply (safe_join_complete "/srv/" ["js"; "app.js"]); [|discriminate].
  apply (bool_decide_unpack _). vm_compute. reflexivity.
Defined.

End Paths.
