(* ===== verification/Database.v ===== *)
(** * The shared SQLite database and the effects of a request

    Every component of the coordinator reads and writes one SQLite database
    ([getDb()] of [src/database.ts]); this file holds its rows ([src/types.ts]
    and the table definitions), the world a request runs in (clock, random
    identifiers, database, calls to the event emitter and to the MQTT bridge),
    and the monad of request handlers: state passing with exceptions, where an
    exception keeps the statements that already committed and
    [db.transaction] rolls them back. *)

From S2P Require Import Prelude.
Local Open Scope Z_scope.

(** ** Text timestamps

    SQLite compares the text of two timestamps. [CURRENT_TIMESTAMP] and
    [datetime(...)] print "YYYY-MM-DD HH:MM:SS"; [toISOString()] prints
    "YYYY-MM-DDTHH:MM:SS.mmmZ". Both are fixed width down to the seconds, so
    for four digit years the text order is the order of the date, then of the
    separator (a space, code 32, or "T", code 84), then of the time of day. *)
Inductive stamp :=
  | SqlTs (sec : Z)
  | IsoTs (ms : Z).

Definition stamp_key (s : stamp) : Z * Z * Z :=
  match s with
  | SqlTs sec => (sec / 86400, 32, (sec mod 86400) * 1000)
  | IsoTs ms => (ms / 86400000, 84, ms mod 86400000)
  end.

Definition stamp_lt (a b : stamp) : Prop :=
  let '(d1, s1, t1) := stamp_key a in
  let '(d2, s2, t2) := stamp_key b in
  d1 < d2 ∨ (d1 = d2 ∧ (s1 < s2 ∨ (s1 = s2 ∧ t1 < t2))).

(** ** JSON text columns holding arrays of strings *)

Inductive json_col :=
  | JNull
  | JText (l : list string)
  | JMalformed.

(** [safeJsonParse] with fallback [[]]. *)
Definition safeJsonParse (c : json_col) : list string :=
  match c with
  | JNull => []
  | JText l => l
  | JMalformed => []
  end.

(** ** Enumerations of [src/types.ts] *)

Inductive AgentConnectionStatus := AOnline | AOffline.
Inductive ActivityStatus := ActWorking | ActIdle | ActWaiting | ActOffline.
Inductive ThreadStatus := TOpen | TResolving | TResolved | TCancelled | TPoisoned.
Inductive ResolutionType :=
  RConsensus | RAutoResolved | RTimeout | RClosed | RMaxRounds | RAgentDeparture.
Inductive MessageType :=
  MContext | MSuggestion | MWarning | MResolution | MApprove | MContest.
Inductive IntrospectionStatus := IPending | IConcerned | INotConcerned | IResponded.
Inductive ConflictType := CModuleOverlap | CApiContract | CFileOverlap | CDependencyChain.
Inductive Severity := SevError | SevWarning | SevInfo.

(** ** Rows

    Columns whose text is always SQLite's "YYYY-MM-DD HH:MM:SS" are kept as
    seconds since the epoch; columns that hold either text form as [stamp]. *)

Record Agent := mkAgent {
  a_id : string;
  a_org : string;
  a_name : string;
  a_modules : json_col;
  a_status : AgentConnectionStatus;
  a_registered_at : Z;
  a_last_seen_at : Z
}.

Record AgentActivity := mkActivity {
  aa_org : string;
  aa_agent : string;
  aa_status : ActivityStatus;
  aa_file : option string;
  aa_thread : option string;
  aa_last : stamp
}.

Record ConflictReport := mkConflict {
  c_type : ConflictType;
  c_severity : Severity;
  c_agent_id : string;
  c_agent_name : string;
  c_description : string;
  c_details : string
}.

Record Thread := mkThread {
  t_id : string;
  t_org : string;
  t_initiator : string;
  t_subject : string;
  t_plan : option string;
  t_target_modules : json_col;
  t_target_files : json_col;
  t_status : ThreadStatus;
  t_summary : option string;
  t_conflicts : option (list ConflictReport);
  t_round : Z;
  t_max_rounds : Z;
  t_timeout : Z;
  t_created_at : Z;
  t_resolved_at : option stamp;
  t_expected : json_col;
  t_depends_on : json_col;
  t_exports : json_col;
  t_claimed_by : option string;
  t_claimed_at : option stamp;
  t_unclaim_count : option Z;
  t_assigned_to : option string;
  t_run_id : option string
}.

Record ThreadMessage := mkMessage {
  m_id : string;
  m_org : string;
  m_thread : string;
  m_agent : string;
  m_agent_name : option string;
  m_type : MessageType;
  m_content : string;
  m_snapshot : option string;
  m_reply_to : option string;
  m_round : Z;
  m_tokens : Z;
  m_created_at : Z
}.

Record ActionSummary := mkSummary {
  s_id : string;
  s_org : string;
  s_session : string;
  s_agent : string;
  s_file : option string;
  s_summary : string;
  s_created_at : Z
}.

Record FileActivity := mkFileActivity {
  f_id : Z;
  f_org : string;
  f_session : string;
  f_agent : string;
  f_agent_name : option string;
  f_tool : string;
  f_path : string;
  f_module : string;
  f_hash : option string;
  f_symbols : json_col;
  f_created_at : Z
}.

(** [working_files] prints its three times in one format, so they are seconds. *)
Record WorkingFile := mkWorking {
  wf_org : string;
  wf_agent : string;
  wf_path : string;
  wf_started : Z;
  wf_last : Z;
  wf_until : Z
}.

Record DependencyRow := mkDep {
  d_org : string;
  d_module : string;
  d_depends_on : json_col;
  d_exports : json_col;
  d_owners : json_col
}.

Record Introspection := mkIntrospection {
  i_id : string;
  i_org : string;
  i_thread : string;
  i_agent : string;
  i_score : Z;
  i_reasons : option (list string);
  i_status : IntrospectionStatus;
  i_response : option string;
  i_concerned : Z;
  i_created_at : Z;
  i_responded_at : option stamp
}.

(** [CHECK (file_a < file_b)] is a constraint of the table. *)
Record Cochange := mkCochange {
  g_org : string;
  g_file_a : string;
  g_file_b : string;
  g_count : Z;
  g_total : Z
}.

Record LayerFiring := mkFiring {
  lf_org : string;
  lf_thread : string;
  lf_layer : string;
  lf_score : Z;
  lf_agent : string;
  lf_fired_at : Z
}.

(** ** Events, in the shapes the components emit them *)

(** [pq_with_plan] is [mode = "with_plan"]. *)
Record PlanQualityResult := mkQuality {
  pq_with_plan : bool;
  pq_score : Z;
  pq_mentions_files : bool;
  pq_concrete : bool;
  pq_detail : bool;
  pq_plan : option string
}.

Inductive Category := CatConcerned | CatGrayZone | CatPass | CatPlanQuality.

Inductive CoordinatorEvent :=
  | EvAgentOnline (agent name : string) (modules : list string)
  | EvAgentOffline (agent : string)
  | EvThreadOpened (thread subject agent name : string) (modules files respondents : list string)
      (conflicts : list ConflictReport) (created_at : Z) (plan : option string)
      (quality : PlanQualityResult)
  | EvMessagePosted (thread agent name : string) (type : MessageType) (content : string)
      (round tokens : Z)
  | EvResolutionProposed (thread agent name summary : string)
  | EvThreadResolved (thread : string) (type : ResolutionType) (summary : option string)
      (approved_by approved_by_name : option string) (created_at : Z)
      (resolved_at : stamp) (had_messages : bool)
  | EvFileEdited (agent name file tool : string)
  | EvImpactScored (thread agent name : string) (score : Z) (reasons : list string)
      (category : Category)
  | EvIntrospectionRequested (thread agent name : string) (score : Z) (reasons : list string)
  | EvIntrospectionCompleted (introspection : string) (thread agent name : option string)
      (concerned : bool) (reason : string)
  | EvTaskClaimed (thread agent : string)
  (** The payloads of the MCP tools. *)
  | EvConsultationOpened (thread initiator subject : string) (modules : list string)
      (conflicts : list ConflictReport) (respondents : list string) (plan : option string)
      (quality : PlanQualityResult)
  | EvToolProposed (thread agent summary : string)
  | EvThreadCancelled (thread : string) (reason : option string)
  | EvActionSummary (agent : string) (file : option string) (summary : string)
  | EvAgentActivity (agent : string) (status : ActivityStatus) (file thread : option string).

Record EventRow := mkEvent {
  e_id : Z;
  e_org : string;
  e_event : CoordinatorEvent
}.

(** What the coordinator asks of its MQTT bridge. *)
Inductive BridgeCall :=
  | BrRegisterAgent (org agent name : string)
  | BrPublishResolution (org thread status summary : string)
  | BrClearRetained (org thread : string)
  | BrTaskClaimed (org thread agent : string)
  | BrTaskCompleted (org thread agent summary : string)
  | BrPublishConsultation (org thread agent subject : string) (modules : list string)
  | BrPublishMessage (org thread agent : string) (type : MessageType) (content : string).

Record ResolutionEvent := mkResolution {
  r_thread : string;
  r_org : string;
  r_type : ResolutionType;
  r_summary : option string;
  r_created_at : Z;
  r_resolved_at : stamp;
  r_approved_by : option string;
  r_approved_by_name : option string;
  r_had_messages : bool
}.

(** ** The database and the world *)

Record Db := mkDb {
  db_orgs : list string;
  db_agents : list Agent;
  db_threads : list Thread;
  db_messages : list ThreadMessage;
  db_summaries : list ActionSummary;
  db_events : list EventRow;
  db_event_seq : Z;
  db_deps : list DependencyRow;
  db_files : list FileActivity;
  db_file_seq : Z;
  db_introspections : list Introspection;
  db_activity : list AgentActivity;
  db_working : list WorkingFile;
  db_cochange : list Cochange;
  db_firings : list LayerFiring
}.

(** A numeric environment variable: unset or empty, set to text
    [Number.parseInt] cannot read, or read as an integer. *)
Inductive env_int := EnvUnset | EnvNaN | EnvInt (n : Z).

(** [w_clock] is [Date.now()] in milliseconds; [w_ttl_env] is
    [COORDINATOR_AGENT_ONLINE_TTL_SECONDS]; [w_uuid n] is the [n]-th value
    [crypto.randomUUID()] returns and [w_uuid_next] how many were drawn;
    [w_resolutions] are the events handed to the [onResolve] callback and
    [w_bridge] the calls made to the MQTT bridge, in order. *)
Record World := mkWorld {
  w_clock : Z;
  w_ttl_env : env_int;
  w_uuid : nat → string;
  w_uuid_next : nat;
  w_db : Db;
  w_resolutions : list ResolutionEvent;
  w_bridge : list BridgeCall
}.

Definition now_sec (w : World) : Z := w_clock w / 1000.

Definition on_agents (f : list Agent → list Agent) (d : Db) : Db :=
  mkDb (db_orgs d) (f (db_agents d)) (db_threads d) (db_messages d) (db_summaries d)
    (db_events d) (db_event_seq d) (db_deps d) (db_files d) (db_file_seq d)
    (db_introspections d) (db_activity d) (db_working d) (db_cochange d) (db_firings d).
Definition on_threads (f : list Thread → list Thread) (d : Db) : Db :=
  mkDb (db_orgs d) (db_agents d) (f (db_threads d)) (db_messages d) (db_summaries d)
    (db_events d) (db_event_seq d) (db_deps d) (db_files d) (db_file_seq d)
    (db_introspections d) (db_activity d) (db_working d) (db_cochange d) (db_firings d).
Definition on_messages (f : list ThreadMessage → list ThreadMessage) (d : Db) : Db :=
  mkDb (db_orgs d) (db_agents d) (db_threads d) (f (db_messages d)) (db_summaries d)
    (db_events d) (db_event_seq d) (db_deps d) (db_files d) (db_file_seq d)
    (db_introspections d) (db_activity d) (db_working d) (db_cochange d) (db_firings d).
Definition on_summaries (f : list ActionSummary → list ActionSummary) (d : Db) : Db :=
  mkDb (db_orgs d) (db_agents d) (db_threads d) (db_messages d) (f (db_summaries d))
    (db_events d) (db_event_seq d) (db_deps d) (db_files d) (db_file_seq d)
    (db_introspections d) (db_activity d) (db_working d) (db_cochange d) (db_firings d).
Definition add_event (org : string) (e : CoordinatorEvent) (d : Db) : Db :=
  mkDb (db_orgs d) (db_agents d) (db_threads d) (db_messages d) (db_summaries d)
    (db_events d ++ [mkEvent (db_event_seq d + 1) org e]) (db_event_seq d + 1)
    (db_deps d) (db_files d) (db_file_seq d)
    (db_introspections d) (db_activity d) (db_working d) (db_cochange d) (db_firings d).
Definition on_deps (f : list DependencyRow → list DependencyRow) (d : Db) : Db :=
  mkDb (db_orgs d) (db_agents d) (db_threads d) (db_messages d) (db_summaries d)
    (db_events d) (db_event_seq d) (f (db_deps d)) (db_files d) (db_file_seq d)
    (db_introspections d) (db_activity d) (db_working d) (db_cochange d) (db_firings d).
Definition add_file (mk : Z → FileActivity) (d : Db) : Db :=
  mkDb (db_orgs d) (db_agents d) (db_threads d) (db_messages d) (db_summaries d)
    (db_events d) (db_event_seq d) (db_deps d)
    (db_files d ++ [mk (db_file_seq d + 1)]) (db_file_seq d + 1)
    (db_introspections d) (db_activity d) (db_working d) (db_cochange d) (db_firings d).
Definition on_introspections (f : list Introspection → list Introspection) (d : Db) : Db :=
  mkDb (db_orgs d) (db_agents d) (db_threads d) (db_messages d) (db_summaries d)
    (db_events d) (db_event_seq d) (db_deps d) (db_files d) (db_file_seq d)
    (f (db_introspections d)) (db_activity d) (db_working d) (db_cochange d) (db_firings d).
Definition on_activity (f : list AgentActivity → list AgentActivity) (d : Db) : Db :=
  mkDb (db_orgs d) (db_agents d) (db_threads d) (db_messages d) (db_summaries d)
    (db_events d) (db_event_seq d) (db_deps d) (db_files d) (db_file_seq d)
    (db_introspections d) (f (db_activity d)) (db_working d) (db_cochange d) (db_firings d).
Definition on_working (f : list WorkingFile → list WorkingFile) (d : Db) : Db :=
  mkDb (db_orgs d) (db_agents d) (db_threads d) (db_messages d) (db_summaries d)
    (db_events d) (db_event_seq d) (db_deps d) (db_files d) (db_file_seq d)
    (db_introspections d) (db_activity d) (f (db_working d)) (db_cochange d) (db_firings d).
Definition on_firings (f : list LayerFiring → list LayerFiring) (d : Db) : Db :=
  mkDb (db_orgs d) (db_agents d) (db_threads d) (db_messages d) (db_summaries d)
    (db_events d) (db_event_seq d) (db_deps d) (db_files d) (db_file_seq d)
    (db_introspections d) (db_activity d) (db_working d) (db_cochange d) (f (db_firings d)).

Definition on_db (f : Db → Db) (w : World) : World :=
  mkWorld (w_clock w) (w_ttl_env w) (w_uuid w) (w_uuid_next w) (f (w_db w)) (w_resolutions w) (w_bridge w).

(** ** Column updates of [threads] *)

Definition set_status (s : ThreadStatus) (t : Thread) : Thread :=
  mkThread (t_id t) (t_org t) (t_initiator t) (t_subject t) (t_plan t) (t_target_modules t)
    (t_target_files t) s (t_summary t) (t_conflicts t) (t_round t) (t_max_rounds t)
    (t_timeout t) (t_created_at t) (t_resolved_at t) (t_expected t) (t_depends_on t)
    (t_exports t) (t_claimed_by t) (t_claimed_at t) (t_unclaim_count t) (t_assigned_to t)
    (t_run_id t).
Definition set_summary (s : option string) (t : Thread) : Thread :=
  mkThread (t_id t) (t_org t) (t_initiator t) (t_subject t) (t_plan t) (t_target_modules t)
    (t_target_files t) (t_status t) s (t_conflicts t) (t_round t) (t_max_rounds t)
    (t_timeout t) (t_created_at t) (t_resolved_at t) (t_expected t) (t_depends_on t)
    (t_exports t) (t_claimed_by t) (t_claimed_at t) (t_unclaim_count t) (t_assigned_to t)
    (t_run_id t).
Definition set_conflicts (c : option (list ConflictReport)) (t : Thread) : Thread :=
  mkThread (t_id t) (t_org t) (t_initiator t) (t_subject t) (t_plan t) (t_target_modules t)
    (t_target_files t) (t_status t) (t_summary t) c (t_round t) (t_max_rounds t)
    (t_timeout t) (t_created_at t) (t_resolved_at t) (t_expected t) (t_depends_on t)
    (t_exports t) (t_claimed_by t) (t_claimed_at t) (t_unclaim_count t) (t_assigned_to t)
    (t_run_id t).
Definition set_round (r : Z) (t : Thread) : Thread :=
  mkThread (t_id t) (t_org t) (t_initiator t) (t_subject t) (t_plan t) (t_target_modules t)
    (t_target_files t) (t_status t) (t_summary t) (t_conflicts t) r (t_max_rounds t)
    (t_timeout t) (t_created_at t) (t_resolved_at t) (t_expected t) (t_depends_on t)
    (t_exports t) (t_claimed_by t) (t_claimed_at t) (t_unclaim_count t) (t_assigned_to t)
    (t_run_id t).
Definition set_resolved_at (r : option stamp) (t : Thread) : Thread :=
  mkThread (t_id t) (t_org t) (t_initiator t) (t_subject t) (t_plan t) (t_target_modules t)
    (t_target_files t) (t_status t) (t_summary t) (t_conflicts t) (t_round t) (t_max_rounds t)
    (t_timeout t) (t_created_at t) r (t_expected t) (t_depends_on t)
    (t_exports t) (t_claimed_by t) (t_claimed_at t) (t_unclaim_count t) (t_assigned_to t)
    (t_run_id t).
Definition set_expected (e : json_col) (t : Thread) : Thread :=
  mkThread (t_id t) (t_org t) (t_initiator t) (t_subject t) (t_plan t) (t_target_modules t)
    (t_target_files t) (t_status t) (t_summary t) (t_conflicts t) (t_round t) (t_max_rounds t)
    (t_timeout t) (t_created_at t) (t_resolved_at t) e (t_depends_on t)
    (t_exports t) (t_claimed_by t) (t_claimed_at t) (t_unclaim_count t) (t_assigned_to t)
    (t_run_id t).
Definition set_claim (b : option string) (a : option stamp) (t : Thread) : Thread :=
  mkThread (t_id t) (t_org t) (t_initiator t) (t_subject t) (t_plan t) (t_target_modules t)
    (t_target_files t) (t_status t) (t_summary t) (t_conflicts t) (t_round t) (t_max_rounds t)
    (t_timeout t) (t_created_at t) (t_resolved_at t) (t_expected t) (t_depends_on t)
    (t_exports t) b a (t_unclaim_count t) (t_assigned_to t) (t_run_id t).
Definition set_unclaim_count (n : option Z) (t : Thread) : Thread :=
  mkThread (t_id t) (t_org t) (t_initiator t) (t_subject t) (t_plan t) (t_target_modules t)
    (t_target_files t) (t_status t) (t_summary t) (t_conflicts t) (t_round t) (t_max_rounds t)
    (t_timeout t) (t_created_at t) (t_resolved_at t) (t_expected t) (t_depends_on t)
    (t_exports t) (t_claimed_by t) (t_claimed_at t) n (t_assigned_to t) (t_run_id t).

(** ** The monad of request handlers *)

Inductive sql_error := SqlForeignKey | SqlPrimaryKey | SqlMalformedJson | SqlNotNull.

Inductive error :=
  | EThreadNotFound (id : string)
  | EThreadCancelled (id : string)
  | ENotInitiatorOrClaimant
  | ENotResolving (s : ThreadStatus)
  | ENotInitiatorCancel
  | ENotInitiatorClose (initiator id agent : string)
  | ECannotClose (id : string) (s : ThreadStatus)
  | ETypeError
  | ESqlite (e : sql_error).

Inductive outcome (A : Type) :=
  | Ok (a : A)
  | Throw (e : error).
Arguments Ok {A} a.
Arguments Throw {A} e.

Definition M (A : Type) : Type := World → World * outcome A.

#[global] Instance M_ret : MRet M := λ A a w, (w, Ok a).
#[global] Instance M_bind : MBind M := λ A B k m w,
  match m w with
  | (w', Ok a) => k a w'
  | (w', Throw e) => (w', Throw e)
  end.

Definition throw {A} (e : error) : M A := λ w, (w, Throw e).
Definition gets {A} (f : World → A) : M A := λ w, (w, Ok (f w)).
Definition stmt (f : Db → Db) : M unit := λ w, (on_db f w, Ok ()).
Definition when (b : bool) (m : M unit) : M unit := if b then m else mret ().

(** [db.transaction(fn)()]: an exception restores the tables and propagates. *)
Definition transaction {A} (m : M A) : M A := λ w,
  match m w with
  | (w', Ok a) => (w', Ok a)
  | (w', Throw e) => (on_db (λ _, w_db w) w', Throw e)
  end.

(** [for (const x of l) f(x)]. *)
Fixpoint for_each {A} (l : list A) (f : A → M unit) : M unit :=
  match l with
  | [] => mret ()
  | x :: l => f x ≫= λ _, for_each l f
  end.

Definition randomUUID : M string := λ w,
  (mkWorld (w_clock w) (w_ttl_env w) (w_uuid w) (S (w_uuid_next w)) (w_db w) (w_resolutions w) (w_bridge w),
   Ok (w_uuid w (w_uuid_next w))).

(** Hands an event to the registered resolution callback. *)
Definition deliver (ev : ResolutionEvent) : M unit := λ w,
  (mkWorld (w_clock w) (w_ttl_env w) (w_uuid w) (w_uuid_next w) (w_db w)
     (w_resolutions w ++ [ev]) (w_bridge w), Ok ()).

Definition bridge (c : BridgeCall) : M unit := λ w,
  (mkWorld (w_clock w) (w_ttl_env w) (w_uuid w) (w_uuid_next w) (w_db w) (w_resolutions w)
     (w_bridge w ++ [c]), Ok ()).

(** ** Foreign keys and inserts *)

(** [FOREIGN KEY (org_id, agent) REFERENCES agents(org_id, id)]. *)
Definition agent_ref (org agent : string) (d : Db) : Prop :=
  Exists (λ a, a_org a = org ∧ a_id a = agent) (db_agents d).

(** [FOREIGN KEY (thread_id) REFERENCES threads(id)]. *)
Definition thread_ref (id : string) (d : Db) : Prop :=
  Exists (λ t, t_id t = id) (db_threads d).

(** A constrained INSERT: the uniqueness test comes first, foreign keys are
    checked at the end of the statement, and a violation inserts nothing. *)
Definition checked_insert (unique refs : Db → Prop)
    `{!∀ d, Decision (unique d), !∀ d, Decision (refs d)} (f : Db → Db) : M unit :=
  d ← gets w_db;
  if decide (unique d) then
    if decide (refs d) then stmt f else throw (ESqlite SqlForeignKey)
  else throw (ESqlite SqlPrimaryKey).

(** ** Decidable equality and order *)

#[global] Instance stamp_eq_dec : EqDecision stamp.
Proof. solve_decision. Defined.
#[global] Instance stamp_lt_dec : RelDecision stamp_lt.
Proof.
  intros a b. unfold stamp_lt.
  destruct (stamp_key a) as [[??]?], (stamp_key b) as [[??]?]. apply _.
Defined.
#[global] Instance json_col_eq_dec : EqDecision json_col.
Proof. solve_decision. Defined.
#[global] Instance agent_status_eq_dec : EqDecision AgentConnectionStatus.
Proof. solve_decision. Defined.
#[global] Instance activity_status_eq_dec : EqDecision ActivityStatus.
Proof. solve_decision. Defined.
#[global] Instance thread_status_eq_dec : EqDecision ThreadStatus.
Proof. solve_decision. Defined.
#[global] Instance resolution_type_eq_dec : EqDecision ResolutionType.
Proof. solve_decision. Defined.
#[global] Instance message_type_eq_dec : EqDecision MessageType.
Proof. solve_decision. Defined.
#[global] Instance introspection_status_eq_dec : EqDecision IntrospectionStatus.
Proof. solve_decision. Defined.
#[global] Instance conflict_type_eq_dec : EqDecision ConflictType.
Proof. solve_decision. Defined.
#[global] Instance agent_ref_dec org agent d : Decision (agent_ref org agent d).
Proof. unfold agent_ref. apply _. Defined.
#[global] Instance thread_ref_dec id d : Decision (thread_ref id d).
Proof. unfold thread_ref. apply _. Defined.

(** ** Inserts shared by the components *)

Definition insert_thread (t : Thread) : M unit :=
  checked_insert
    (λ d, t_id t ∉ t_id <$> db_threads d)
    (λ d, t_org t ∈ db_orgs d ∧ agent_ref (t_org t) (t_initiator t) d)
    (on_threads (λ l, l ++ [t])).

Definition insert_message (m : ThreadMessage) : M unit :=
  checked_insert
    (λ d, m_id m ∉ m_id <$> db_messages d)
    (λ d, m_org m ∈ db_orgs d ∧ thread_ref (m_thread m) d ∧ agent_ref (m_org m) (m_agent m) d)
    (on_messages (λ l, l ++ [m])).

(** [SseEmitter.emit]: the event row; its foreign key is the organisation. *)
Definition sse_emit (org : string) (e : CoordinatorEvent) : M unit :=
  checked_insert (λ _, True) (λ d, org ∈ db_orgs d) (add_event org e).

(** ** Running handlers *)

Definition run {A} (m : M A) (w : World) : World := (m w).1.
Definition result {A} (m : M A) (w : World) : outcome A := (m w).2.

Lemma run_result {A} (m : M A) w : m w = (run m w, result m w).
Proof. unfold run, result. by destruct (m w). Qed.

(** Statements that cannot fail, evaluated in place. *)
Lemma bind_gets {A B} (f : World → A) (k : A → M B) w : (gets f ≫= k) w = k (f w) w.
Proof. done. Qed.

Lemma bind_stmt {B} f (k : unit → M B) w : (stmt f ≫= k) w = k () (on_db f w).
Proof. done. Qed.

Lemma bind_Ok {A B} (m : M A) (k : A → M B) w w' a : m w = (w', Ok a) → (m ≫= k) w = k a w'.
Proof. unfold mbind, M_bind. by intros ->. Qed.

Lemma bind_Throw {A B} (m : M A) (k : A → M B) w w' e :
  m w = (w', Throw e) → (m ≫= k) w = (w', Throw e).
Proof. unfold mbind, M_bind. by intros ->. Qed.

(** ** What a handler does to the database

    [respects R m w]: running [m] from [w] relates the tables before and after
    by [R], whether or not [m] throws. For a preorder [R] it composes; an
    invariant [I] is the preorder [λ d d', I d → I d']. *)
Definition respects (R : relation Db) {A} (m : M A) (w : World) : Prop :=
  R (w_db w) (w_db (run m w)).

Create HintDb effects.

Section respects.
Context (R : relation Db) `{!PreOrder R}.

Lemma respects_ret {A} (a : A) w : respects R (mret a) w.
Proof. unfold respects, run, mret, M_ret. simpl. reflexivity. Qed.

Lemma respects_throw {A} e w : respects R (throw (A := A) e) w.
Proof. unfold respects. simpl. reflexivity. Qed.

Lemma respects_gets {A} (f : World → A) w : respects R (gets f) w.
Proof. unfold respects. simpl. reflexivity. Qed.

Lemma respects_uuid w : respects R randomUUID w.
Proof. unfold respects. simpl. reflexivity. Qed.

Lemma respects_bridge c w : respects R (bridge c) w.
Proof. unfold respects. simpl. reflexivity. Qed.

Lemma respects_deliver ev w : respects R (deliver ev) w.
Proof. unfold respects. simpl. reflexivity. Qed.

Lemma respects_bind {A B} (m : M A) (k : A → M B) w :
  respects R m w →
  (∀ a w', m w = (w', Ok a) → respects R (k a) w') →
  respects R (m ≫= k) w.
Proof.
  unfold respects, run, mbind, M_bind. intros Hm Hk.
  destruct (m w) as [w' [a|e]] eqn:E; simpl in *; [|done].
  etrans; [exact Hm|]. by eapply Hk.
Qed.

Lemma respects_stmt f w : R (w_db w) (f (w_db w)) → respects R (stmt f) w.
Proof. done. Qed.

Lemma respects_checked_insert (P Q : Db → Prop)
    `{!∀ d, Decision (P d), !∀ d, Decision (Q d)} f w :
  (P (w_db w) → Q (w_db w) → R (w_db w) (f (w_db w))) →
  respects R (checked_insert P Q f) w.
Proof.
  intros Hf. unfold checked_insert. apply respects_bind; [apply respects_gets|].
  intros d w' [= <- <-]. case_decide; [|apply respects_throw].
  case_decide; [|apply respects_throw]. by apply respects_stmt, Hf.
Qed.

Lemma respects_transaction {A} (m : M A) w : respects R m w → respects R (transaction m) w.
Proof.
  unfold respects, run, transaction. destruct (m w) as [w' [a|e]]; simpl; [done|].
  intros _. reflexivity.
Qed.

Lemma respects_when b m w : (b = true → respects R m w) → respects R (when b m) w.
Proof. destruct b; [by intros H; apply H|intros _; apply respects_ret]. Qed.

Lemma respects_for_each {A} (l : list A) f w :
  (∀ x w', x ∈ l → respects R (f x) w') → respects R (for_each l f) w.
Proof.
  revert w. induction l as [|x l IH]; intros w Hf; simpl; [apply respects_ret|].
  apply respects_bind; [apply Hf; left|]. intros ? w' _. apply IH.
  intros y w'' Hy. apply Hf. by right.
Qed.
End respects.

#[export] Hint Resolve respects_ret respects_throw respects_gets respects_uuid
  respects_bridge respects_deliver : effects.

(** Follows a handler's body statement by statement; what is left are the
    statements that write. *)
Ltac effects_step :=
  match goal with
  | |- respects _ (_ ≫= _) _ => apply respects_bind; [apply _| |intros ?? ?]
  | |- respects _ (when _ _) _ => apply respects_when; [apply _|intros ?]
  | |- respects _ (transaction _) _ => apply respects_transaction; [apply _|]
  | |- respects _ (match ?x with _ => _ end) _ => destruct x eqn:?
  | |- respects _ _ _ => solve [eauto with effects typeclass_instances]
  end.
Ltac effects := repeat effects_step.

Lemma respects_elim (R : relation Db) {A} (m : M A) w w' r :
  respects R m w → m w = (w', r) → R (w_db w) (w_db w').
Proof. unfold respects, run. intros Hm E. by rewrite E in Hm. Qed.

(** Preserving an invariant. *)
Definition keeps (I : Db → Prop) : relation Db := λ d d', I d → I d'.

#[global] Instance keeps_preorder I : PreOrder (keeps I).
Proof. unfold keeps. split; [by intros d|intros d1 d2 d3; tauto]. Qed.

(** Leaving a part of the database as it is. *)
Definition same {B} (f : Db → B) : relation Db := λ d d', f d' = f d.

#[global] Instance same_preorder {B} (f : Db → B) : PreOrder (same f).
Proof. unfold same. split; [by intros d|intros d1 d2 d3; congruence]. Qed.

(** Evaluates the equations [effects] leaves for the statements that cannot fail. *)
Ltac run_eqs :=
  repeat match goal with
    | H : gets _ _ = _ |- _ => unfold gets in H
    | H : randomUUID _ = _ |- _ => unfold randomUUID in H
    | H : stmt _ _ = _ |- _ => unfold stmt in H
    | H : mret _ _ = _ |- _ => unfold mret, M_ret in H
    | H : bridge _ _ = _ |- _ => unfold bridge in H
    | H : (_, _) = (_, _) |- _ => injection H as <- <- || (injection H as ? ?; subst)
    end; simpl in *.
