(* ===== verification/Registry.v ===== *)
(** * The agent registry ([src/agent-registry.ts])

    Registration, liveness (heartbeats and the online TTL) and the two views
    of the fleet: [listOnline], which the other components route on, and
    [listAll]. *)

From S2P Require Import Prelude Database.
Local Open Scope Z_scope.

Module Registry.

Definition DEFAULT_ONLINE_TTL_SECONDS : Z := 900.

Definition onlineTtlSeconds (raw : env_int) : Z :=
  match raw with
  | EnvUnset => DEFAULT_ONLINE_TTL_SECONDS
  | EnvNaN => DEFAULT_ONLINE_TTL_SECONDS
  | EnvInt n => if decide (0 < n) then n else DEFAULT_ONLINE_TTL_SECONDS
  end.

Definition is_agent (org agent : string) (a : Agent) : Prop := a_org a = org ∧ a_id a = agent.

#[global] Instance is_agent_dec org agent a : Decision (is_agent org agent a).
Proof. unfold is_agent. apply _. Defined.

Definition get (org agent : string) : M (option Agent) :=
  gets (λ w, select_one (is_agent org agent) (db_agents (w_db w))).

(** INSERT ... ON CONFLICT(org_id, id) DO UPDATE; the row keeps its
    [registered_at] on conflict. *)
Definition register (org agent name : string) (modules : list string) : M (option Agent) :=
  now ← gets now_sec;
  d ← gets w_db;
  _ ← (if decide (agent_ref org agent d) then
         stmt (on_agents (update_where (is_agent org agent)
           (λ a, mkAgent (a_id a) (a_org a) name (JText modules) AOnline
                   (a_registered_at a) now)))
       else
         checked_insert (λ _, True) (λ d, org ∈ db_orgs d)
           (on_agents (λ l, l ++ [mkAgent agent org name (JText modules) AOnline now now])));
  get org agent.

(** Online and seen within the TTL, [ORDER BY name]. *)
Definition fresh_online (org : string) (now ttl : Z) (a : Agent) : Prop :=
  a_org a = org ∧ a_status a = AOnline ∧ now - a_last_seen_at a ≤ ttl.

#[global] Instance fresh_online_dec org now ttl a : Decision (fresh_online org now ttl a).
Proof. unfold fresh_online. apply _. Defined.

Definition by_name (a b : Agent) : Prop := str_le (a_name a) (a_name b).

#[global] Instance by_name_dec : RelDecision by_name.
Proof. intros a b. unfold by_name. apply _. Defined.

Definition listOnline (org : string) : M (list Agent) :=
  gets (λ w, merge_sort by_name
    (select (fresh_online org (now_sec w) (onlineTtlSeconds (w_ttl_env w)))
       (db_agents (w_db w)))).

Definition by_last_seen_desc (a b : Agent) : Prop := a_last_seen_at b ≤ a_last_seen_at a.

#[global] Instance by_last_seen_desc_dec : RelDecision by_last_seen_desc.
Proof. intros a b. unfold by_last_seen_desc. apply _. Defined.

Definition listAll (org : string) : M (list Agent) :=
  gets (λ w, merge_sort by_last_seen_desc
    (select (λ a, a_org a = org) (db_agents (w_db w)))).

Definition touch (s : AgentConnectionStatus) (now : Z) (a : Agent) : Agent :=
  mkAgent (a_id a) (a_org a) (a_name a) (a_modules a) s (a_registered_at a) now.

Definition setOnline (org agent : string) : M unit :=
  now ← gets now_sec;
  stmt (on_agents (update_where (is_agent org agent) (touch AOnline now))).

Definition setOffline (org agent : string) : M unit :=
  now ← gets now_sec;
  stmt (on_agents (update_where (is_agent org agent) (touch AOffline now))).

Definition heartbeat (org agent : string) : M unit :=
  now ← gets now_sec;
  stmt (on_agents (update_where (is_agent org agent) (touch AOnline now))).

Definition isStale (org agent : string) : M bool :=
  gets (λ w,
    match select_one (is_agent org agent) (db_agents (w_db w)) with
    | None => true
    | Some a =>
        bool_decide (onlineTtlSeconds (w_ttl_env w) < now_sec w - a_last_seen_at a)
    end).

(** ** Lemmas *)

Lemma onlineTtl_pos raw : 0 < onlineTtlSeconds raw.
Proof. destruct raw; simpl; try case_decide; unfold DEFAULT_ONLINE_TTL_SECONDS; lia. Qed.

Lemma elem_of_listOnline org w l a :
  result (listOnline org) w = Ok l →
  a ∈ l ↔ fresh_online org (now_sec w) (onlineTtlSeconds (w_ttl_env w)) a ∧
          a ∈ db_agents (w_db w).
Proof.
  unfold result, listOnline, gets. simpl. intros [= <-].
  rewrite (merge_sort_Permutation by_name), elem_of_select. done.
Qed.

End Registry.
