(* ===== verification/Consultation.v ===== *)
(** * Consultation threads ([src/consultation.ts])

    The life of a thread: announced, discussed in rounds, proposed, approved
    or contested, closed, cancelled or timed out, and what happens to it when
    an agent departs. Definitions first; the invariant of the tables, the
    behaviour of each operation and the refinement of the abstract thread
    lifecycle are in the files that follow. *)

From S2P Require Import Prelude Database Registry.
Local Open Scope Z_scope.

Module Consultation.

Definition DEFAULT_ACTION_SUMMARY_LIMIT : nat := 10.

(** ** Predicates of the WHERE clauses *)

(** [WHERE id = ? AND org_id = ?]. *)
Definition is_thread (org id : string) (t : Thread) : Prop := t_id t = id ∧ t_org t = org.

#[global] Instance is_thread_dec org id t : Decision (is_thread org id t).
Proof. unfold is_thread. apply _. Defined.

(** [status IN ('open', 'resolving')]. *)
Definition is_active (t : Thread) : Prop := t_status t = TOpen ∨ t_status t = TResolving.

#[global] Instance is_active_dec t : Decision (is_active t).
Proof. unfold is_active. apply _. Defined.

(** [am === tm || am.startsWith(tm + "/") || tm.startsWith(am + "/")]. *)
Definition module_overlap (am tm : string) : bool :=
  String.eqb am tm || startsWith (tm +:+ "/") am || startsWith (am +:+ "/") tm.

Definition modules_meet (agentModules target_modules : list string) : bool :=
  existsb (λ tm, existsb (λ am, module_overlap am tm) agentModules) target_modules.

(** ** Reads *)

Definition getThread (org id : string) : M (option Thread) :=
  gets (λ w, select_one (is_thread org id) (db_threads (w_db w))).

Definition getThreadCrossOrg (id : string) : M (option Thread) :=
  gets (λ w, select_one (λ t, t_id t = id) (db_threads (w_db w))).

(** ** Resolution events *)

(** The [onResolve] callback registered by [createServices]
    ([src/server-setup.ts]): the "thread_resolved" event and the MQTT calls. *)
Definition onResolve (ev : ResolutionEvent) : M unit :=
  _ ← deliver ev;
  _ ← sse_emit (r_org ev)
        (EvThreadResolved (r_thread ev) (r_type ev) (r_summary ev) (r_approved_by ev)
           (r_approved_by_name ev) (r_created_at ev) (r_resolved_at ev) (r_had_messages ev));
  _ ← when (bool_decide (r_type ev ≠ RAutoResolved))
        (bridge (BrPublishResolution (r_org ev) (r_thread ev) "resolved"
                   (default "" (r_summary ev))));
  bridge (BrClearRetained (r_org ev) (r_thread ev)).

Definition emitResolution (id : string) (type : ResolutionType)
    (approvedBy approvedByName : option string) : M unit :=
  mt ← getThreadCrossOrg id;
  match mt with
  | None => mret ()
  | Some thread =>
      messageCount ← gets (λ w, length (filter (λ m, m_thread m = id) (db_messages (w_db w))));
      now ← gets w_clock;
      onResolve
        (mkResolution id (t_org thread) type (t_summary thread) (t_created_at thread)
           (default (IsoTs now) (t_resolved_at thread)) approvedBy approvedByName
           (bool_decide (0 < messageCount)%nat))
  end.

(** ** Opening a thread *)

Record AnnounceParams := mkAnnounce {
  p_agent : string;
  p_subject : string;
  p_plan : option string;
  p_target_modules : list string;
  p_target_files : list string;
  p_depends_on : option (list string);
  p_exports : option (list string);
  p_keep_open : bool;
  p_assigned_to : option string;
  p_run_id : option string
}.

Definition respondents_of (target_modules : list string) (agents : list Agent) : list string :=
  a_id <$> filter (λ a, Is_true (modules_meet (safeJsonParse (a_modules a)) target_modules))
             agents.

Definition announceWork (org : string) (p : AnnounceParams) : M (option Thread) :=
  id ← randomUUID;
  _ ← transaction (
    onlineAgents ← gets (λ w, select
      (λ a, a_status a = AOnline ∧ a_id a ≠ p_agent p ∧ a_org a = org) (db_agents (w_db w)));
    let respondentIds := respondents_of (p_target_modules p) onlineAgents in
    let keepOpen := p_keep_open p || bool_decide (p_assigned_to p ≠ None) in
    let autoResolve := bool_decide (respondentIds = []) && negb keepOpen in
    now ← gets w_clock;
    insert_thread
      (mkThread id org (p_agent p) (p_subject p) (truthy (p_plan p))
         (JText (p_target_modules p)) (JText (p_target_files p))
         (if autoResolve then TResolved else TOpen) None None 1 4
         (if keepOpen then 0 else 600) (now / 1000)
         (if autoResolve then Some (IsoTs now) else None)
         (JText respondentIds) (JText (default [] (p_depends_on p)))
         (JText (default [] (p_exports p)))
         None None (Some 0) (p_assigned_to p) (p_run_id p)));
  getThread org id.

(** ** Messages *)

Definition ceil_div4 (n : nat) : Z := (Z.of_nat n + 3) / 4.

Definition postToThread (org id agent : string) (agent_name : option string)
    (type : MessageType) (content : string) (snapshot in_reply_to : option string)
    : M (option ThreadMessage) :=
  mt ← getThread org id;
  match mt with
  | None => throw (EThreadNotFound id)
  | Some thread =>
      if decide (t_status thread = TCancelled) then throw (EThreadCancelled id)
      else
        mid ← randomUUID;
        now ← gets now_sec;
        _ ← insert_message
              (mkMessage mid org id agent (truthy agent_name) type content (truthy snapshot)
                 (truthy in_reply_to) (t_round thread) (ceil_div4 (utf16_length content)) now);
        gets (λ w, select_one (λ m, m_id m = mid) (db_messages (w_db w)))
  end.

(** The caller has read the thread; [getThread(...)!] on a missing one would
    be a TypeError, which no caller can reach. *)
Definition postResolutionMessage (org id agent : string) (type : MessageType)
    (content : string) : M unit :=
  mt ← getThread org id;
  match mt with
  | None => throw (EThreadNotFound id)
  | Some thread =>
      mid ← randomUUID;
      now ← gets now_sec;
      insert_message
        (mkMessage mid org id agent None type content None None (t_round thread) 0 now)
  end.

Definition allRespondentsApproved (org id : string) : M bool :=
  gets (λ w,
    match select_one (is_thread org id) (db_threads (w_db w)) with
    | None => false
    | Some thread =>
        let expected := safeJsonParse (t_expected thread) in
        let approvals := m_agent <$> filter (λ m, m_thread m = id ∧ m_type m = MApprove ∧
                           m_round m = t_round thread) (db_messages (w_db w)) in
        bool_decide (expected = []) || forallb (λ e, bool_decide (e ∈ approvals)) expected
    end).

(** ** Proposing, approving, contesting *)

(** The initiator or the claimant; the status is not tested. *)
Definition proposeResolution (org id agent summary : string) : M unit :=
  mt ← getThread org id;
  match mt with
  | None => throw (EThreadNotFound id)
  | Some thread =>
      if decide (t_initiator thread ≠ agent ∧ t_claimed_by thread ≠ Some agent)
      then throw ENotInitiatorOrClaimant
      else
        _ ← stmt (on_threads (update_where (is_thread org id)
              (λ t, set_summary (Some summary) (set_status TResolving t))));
        postResolutionMessage org id agent MResolution summary
  end.

(** [UPDATE ... SET status = 'resolved' ... WHERE id AND org AND status = 'resolving']. *)
Definition is_resolving_thread (org id : string) (t : Thread) : Prop :=
  is_thread org id t ∧ t_status t = TResolving.

#[global] Instance is_resolving_thread_dec org id t : Decision (is_resolving_thread org id t).
Proof. unfold is_resolving_thread. apply _. Defined.

Definition mark_resolved (at_ : stamp) (t : Thread) : Thread :=
  set_resolved_at (Some at_) (set_status TResolved t).

Definition approveResolution (org id agent : string) (agentName : option string) : M unit :=
  mt ← getThread org id;
  match mt with
  | None => throw (EThreadNotFound id)
  | Some thread =>
      if decide (t_status thread ≠ TResolving) then throw (ENotResolving (t_status thread))
      else
        wonRace ← transaction (
          _ ← postResolutionMessage org id agent MApprove "Approved";
          all ← allRespondentsApproved org id;
          if (all : bool) then
            now ← gets w_clock;
            n ← gets (λ w, changes (is_resolving_thread org id) (db_threads (w_db w)));
            _ ← stmt (on_threads (update_where (is_resolving_thread org id)
                        (mark_resolved (IsoTs now))));
            mret (bool_decide (0 < n)%nat)
          else mret false);
        when wonRace
          (emitResolution id RConsensus (Some agent)
             (Some (default agent (truthy agentName))))
  end.

Definition contestResolution (org id agent reason : string) : M unit :=
  mt ← getThread org id;
  match mt with
  | None => throw (EThreadNotFound id)
  | Some thread =>
      if decide (t_status thread ≠ TResolving) then throw (ENotResolving (t_status thread))
      else
        _ ← postResolutionMessage org id agent MContest reason;
        let nextRound := t_round thread + 1 in
        if decide (t_max_rounds thread < nextRound) then
          now ← gets w_clock;
          _ ← stmt (on_threads (update_where (is_thread org id) (mark_resolved (IsoTs now))));
          emitResolution id RMaxRounds None None
        else
          stmt (on_threads (update_where (is_thread org id)
            (λ t, set_summary None (set_round nextRound (set_status TOpen t)))))
  end.

(** ** Cancelling and closing *)

Definition cancelThread (org id agent : string) (reason : option string) : M unit :=
  mt ← getThread org id;
  match mt with
  | None => throw (EThreadNotFound id)
  | Some thread =>
      if decide (t_initiator thread ≠ agent) then throw ENotInitiatorCancel
      else
        now ← gets w_clock;
        _ ← stmt (on_threads (update_where (is_thread org id)
              (λ t, set_resolved_at (Some (IsoTs now)) (set_status TCancelled t))));
        match truthy reason with
        | Some r => postResolutionMessage org id agent MContext ("Cancelled: " +:+ r)
        | None => mret ()
        end
  end.

Definition closeThread (org id agent summary : string) : M unit :=
  mt ← getThread org id;
  match mt with
  | None => throw (EThreadNotFound id)
  | Some thread =>
      if decide (t_initiator thread ≠ agent)
      then throw (ENotInitiatorClose (t_initiator thread) id agent)
      else if decide (t_status thread ≠ TOpen ∧ t_status thread ≠ TResolving)
      then throw (ECannotClose id (t_status thread))
      else
        now ← gets w_clock;
        _ ← stmt (on_threads (update_where (is_thread org id)
              (λ t, set_summary (Some summary) (mark_resolved (IsoTs now) t))));
        emitResolution id RClosed None None
  end.

(** ** An agent departs *)

(** The loop body: [id] is the row selected before the loop, [updated] its
    respondents without the departed agent. *)
Definition departThread (org id : string) (updated : list string) : M unit :=
  _ ← stmt (on_threads (update_where (is_thread org id) (set_expected (JText updated))));
  mt ← getThreadCrossOrg id;
  match mt with
  | None => throw (EThreadNotFound id)
  | Some t =>
      all ← allRespondentsApproved org id;
      now ← gets w_clock;
      _ ← when (bool_decide (t_status t = TResolving) && all)
            (_ ← stmt (on_threads (update_where (is_thread org id) (mark_resolved (IsoTs now))));
             emitResolution id RAgentDeparture None None);
      when (bool_decide (t_status t = TOpen) && bool_decide (updated = []))
        (_ ← stmt (on_threads (update_where (is_thread org id) (mark_resolved (IsoTs now))));
         emitResolution id RAgentDeparture None None)
  end.

Definition handleAgentDeparture (org agent : string) : M unit :=
  _ ← stmt (on_threads (update_where
        (λ t, t_claimed_by t = Some agent ∧ t_status t = TOpen ∧ t_org t = org)
        (set_claim None None)));
  threads ← gets (λ w, select (λ t, is_active t ∧ t_org t = org) (db_threads (w_db w)));
  for_each threads (λ thread,
    departThread org (t_id thread)
      (filter (λ r, r ≠ agent) (safeJsonParse (t_expected thread)))).

(** ** The timeout sweeper *)

Definition timed_out (now : Z) (t : Thread) : Prop :=
  is_active t ∧ 0 < t_timeout t ∧ t_created_at t + t_timeout t * t_round t < now.

#[global] Instance timed_out_dec now t : Decision (timed_out now t).
Proof. unfold timed_out. apply _. Defined.

Definition timeout_summary : string :=
  "Résolu par timeout — pas de réponse dans le délai".

Definition checkTimeouts : M unit :=
  timedOut ← transaction (
    now ← gets now_sec;
    rows ← gets (λ w, t_id <$> select (timed_out now) (db_threads (w_db w)));
    _ ← stmt (on_threads (update_where (timed_out now)
          (λ t, set_summary (Some timeout_summary) (mark_resolved (SqlTs now) t))));
    mret rows);
  for_each timedOut (λ id, emitResolution id RTimeout None None).

(** ** Queries *)

Record ThreadFilters := mkFilters {
  fl_status : option ThreadStatus;
  fl_agent : option string;
  fl_module : option string;
  fl_assigned_to_me : option string;
  fl_since_minutes : option Z;
  fl_run_id : option string
}.

Definition no_filters : ThreadFilters := mkFilters None None None None None None.

(** [json_each(column)]: no row for NULL. Malformed text is an SQL error, which
    the queries below raise before they look at the values. *)
Definition json_each (c : json_col) : list string := safeJsonParse c.

(** [COALESCE(resolved_at, created_at) > datetime('now', '-' || m || ' minutes')]. *)
Definition since_window (now m : Z) (t : Thread) : Prop :=
  stamp_lt (SqlTs (now - 60 * m)) (default (SqlTs (t_created_at t)) (t_resolved_at t)).

#[global] Instance since_window_dec now m t : Decision (since_window now m t).
Proof. unfold since_window. apply _. Defined.

(** The optional conjuncts; a filter is skipped when it is absent or falsy. *)
Definition opt_clause {A} (o : option A) (P : A → Prop) : Prop :=
  match o with
  | None => True
  | Some a => P a
  end.

#[global] Instance opt_clause_dec {A} (o : option A) (P : A → Prop)
  `{!∀ a, Decision (P a)} : Decision (opt_clause o P).
Proof. destruct o; simpl; apply _. Defined.

Definition matches_before_module (org : string) (f : ThreadFilters) (t : Thread) : Prop :=
  t_org t = org ∧
  opt_clause (fl_status f) (λ s, t_status t = s) ∧
  opt_clause (truthy (fl_agent f)) (λ a, t_initiator t = a).

Definition matches (org : string) (f : ThreadFilters) (now : Z) (t : Thread) : Prop :=
  matches_before_module org f t ∧
  opt_clause (truthy (fl_module f)) (λ m, m ∈ json_each (t_target_modules t)) ∧
  opt_clause (truthy (fl_assigned_to_me f))
    (λ a, t_assigned_to t = None ∨ t_assigned_to t = Some a) ∧
  opt_clause (truthy (fl_run_id f)) (λ r, t_run_id t = None ∨ t_run_id t = Some r) ∧
  opt_clause (fl_since_minutes f) (λ m, since_window now m t).

#[global] Instance matches_before_module_dec org f t :
  Decision (matches_before_module org f t).
Proof. unfold matches_before_module. apply _. Defined.

#[global] Instance matches_dec org f now t : Decision (matches org f now t).
Proof. unfold matches. apply _. Defined.

(** [ORDER BY created_at DESC]; SQLite leaves ties open, rows are kept in
    rowid order here. *)
Definition newest_first (a b : Thread) : Prop := t_created_at b ≤ t_created_at a.

#[global] Instance newest_first_dec : RelDecision newest_first.
Proof. intros a b. unfold newest_first. apply _. Defined.

Definition listThreads (org : string) (f : ThreadFilters) : M (list Thread) :=
  bad ← gets (λ w, bool_decide (truthy (fl_module f) ≠ None ∧
          Exists (λ t, matches_before_module org f t ∧ t_target_modules t = JMalformed)
            (db_threads (w_db w))));
  if (bad : bool) then throw (ESqlite SqlMalformedJson)
  else gets (λ w, merge_sort newest_first
                    (select (matches org f (now_sec w)) (db_threads (w_db w)))).

Definition oldest_message_first (a b : ThreadMessage) : Prop := m_created_at a ≤ m_created_at b.

#[global] Instance oldest_message_first_dec : RelDecision oldest_message_first.
Proof. intros a b. unfold oldest_message_first. apply _. Defined.

Definition getThreadWithMessages (org id : string)
    : M (option (Thread * list ThreadMessage)) :=
  mt ← getThread org id;
  match mt with
  | None => mret None
  | Some thread =>
      messages ← gets (λ w, merge_sort oldest_message_first
        (select (λ m, m_thread m = id ∧ Exists (λ t, t_id t = m_thread m ∧ t_org t = org)
                        (db_threads (w_db w))) (db_messages (w_db w))));
      mret (Some (thread, messages))
  end.

(** A [since] cursor: a timestamp without a timezone designator (what
    [get_thread_updates] hands back), or one [new Date] reads as an instant. *)
Inductive cursor :=
  | CurTimezoneLess (sec : Z)
  | CurInstant (ms : Z).

Definition normalizeSinceCursor (c : cursor) : Z :=
  match c with
  | CurTimezoneLess sec => sec
  | CurInstant ms => ms / 1000
  end.

Definition getThreadUpdates (org agent : string) (since : option cursor)
    : M (list ThreadMessage) :=
  gets (λ w, merge_sort oldest_message_first
    (select (λ m,
       Exists (λ t, t_id t = m_thread m ∧ t_org t = org ∧ is_active t) (db_threads (w_db w)) ∧
       m_agent m ≠ agent ∧
       opt_clause since (λ c, normalizeSinceCursor c ≤ m_created_at m))
       (db_messages (w_db w)))).

(** ** Action summaries *)

Definition logActionSummary (org session agent : string) (file : option string)
    (summary : string) : M (option ActionSummary) :=
  id ← randomUUID;
  now ← gets now_sec;
  _ ← checked_insert
        (λ d, id ∉ s_id <$> db_summaries d)
        (λ d, org ∈ db_orgs d ∧ agent_ref org agent d)
        (on_summaries (λ l, l ++ [mkSummary id org session agent (truthy file) summary now]));
  gets (λ w, select_one (λ s, s_id s = id) (db_summaries (w_db w))).

(** [ORDER BY created_at DESC, rowid DESC]: a stable sort of the rows from the
    newest rowid to the oldest. *)
Definition newest_summary_first (a b : ActionSummary) : Prop :=
  s_created_at b ≤ s_created_at a.

#[global] Instance newest_summary_first_dec : RelDecision newest_summary_first.
Proof. intros a b. unfold newest_summary_first. apply _. Defined.

Definition getActionSummaries (org agent : string) (since : option cursor) (limit : nat)
    : M (list ActionSummary) :=
  gets (λ w, take limit (merge_sort newest_summary_first
    (reverse (select (λ s, s_org s = org ∧ s_agent s = agent ∧
       opt_clause since (λ c, normalizeSinceCursor c < s_created_at s))
       (db_summaries (w_db w)))))).

Definition oldest_summary_first (a b : ActionSummary) : Prop :=
  s_created_at a ≤ s_created_at b.

#[global] Instance oldest_summary_first_dec : RelDecision oldest_summary_first.
Proof. intros a b. unfold oldest_summary_first. apply _. Defined.

Definition getActionSummariesBySession (org session : string) : M (list ActionSummary) :=
  gets (λ w, merge_sort oldest_summary_first
    (select (λ s, s_org s = org ∧ s_session s = session) (db_summaries (w_db w)))).

End Consultation.
