(* ===== verification/Claims.v ===== *)
(** * Work stealing: claiming and releasing threads
    ([handleClaimTask], [handleUnclaimTask] of [src/http/rest-handlers.ts])

    The claim is one conditional UPDATE: it takes the thread only if it is
    open, unclaimed, not reserved for someone else, and no thread held by
    another agent of the organisation targets one of its files. *)

From S2P Require Import Prelude Database Registry Consultation.
Import Consultation.
Local Open Scope Z_scope.

Module Claims.

Definition POISON_THRESHOLD : Z := 2.

(** [WHERE id = ? AND org_id = ? AND claimed_by = ? AND status = 'open']. *)
Definition is_held (org id agent : string) (t : Thread) : Prop :=
  is_thread org id t ∧ t_claimed_by t = Some agent ∧ t_status t = TOpen.

#[global] Instance is_held_dec org id agent t : Decision (is_held org id agent t).
Proof. unfold is_held. apply _. Defined.

Definition release (t : Thread) : Thread :=
  set_unclaim_count (Some (default 0 (t_unclaim_count t) + 1)) (set_claim None None t).

Record UnclaimResponse := mkUnclaim { u_success : bool; u_poisoned : bool }.

Definition handleUnclaimTask (org id agent : string) : M UnclaimResponse :=
  n ← gets (λ w, changes (is_held org id agent) (db_threads (w_db w)));
  _ ← stmt (on_threads (update_where (is_held org id agent) release));
  if decide (n = 1%nat) then
    row ← getThread org id;
    match row with
    | Some t =>
        if decide (POISON_THRESHOLD ≤ default 0 (t_unclaim_count t)) then
          _ ← stmt (on_threads (update_where
                (λ t, is_thread org id t ∧ t_status t = TOpen) (set_status TPoisoned)));
          mret (mkUnclaim true true)
        else mret (mkUnclaim true false)
    | None => mret (mkUnclaim true false)
    end
  else mret (mkUnclaim false false).

(** ** The overlap guard *)

Definition overlap (xs ys : list string) : list string := filter (λ f, f ∈ ys) xs.

(** A thread of the organisation that another agent holds. *)
Definition held_by_other (org id agent : string) (o : Thread) : Prop :=
  t_org o = org ∧ t_id o ≠ id ∧ t_status o = TOpen ∧
  t_claimed_by o ≠ None ∧ t_claimed_by o ≠ Some agent.

#[global] Instance held_by_other_dec org id agent o : Decision (held_by_other org id agent o).
Proof. unfold held_by_other. apply _. Defined.

Definition blocks (agent : string) (t o : Thread) : Prop :=
  held_by_other (t_org t) (t_id t) agent o ∧
  overlap (json_each (t_target_files t)) (json_each (t_target_files o)) ≠ [].

#[global] Instance blocks_dec agent t o : Decision (blocks agent t o).
Proof. unfold blocks. apply _. Defined.

(** The WHERE clause without its NOT EXISTS. *)
Definition claimable (org id agent : string) (t : Thread) : Prop :=
  is_thread org id t ∧ t_claimed_by t = None ∧ t_status t = TOpen ∧
  (t_assigned_to t = None ∨ t_assigned_to t = Some agent).

#[global] Instance claimable_dec org id agent t : Decision (claimable org id agent t).
Proof. unfold claimable. apply _. Defined.

Definition claim_where (org id agent : string) (ts : list Thread) (t : Thread) : Prop :=
  claimable org id agent t ∧ ¬ Exists (blocks agent t) ts.

#[global] Instance claim_where_dec org id agent ts t : Decision (claim_where org id agent ts t).
Proof. unfold claim_where. apply _. Defined.

(** [json_each] reads malformed text: the UPDATE fails. *)
Definition claim_malformed (org id agent : string) (ts : list Thread) : Prop :=
  Exists (λ t, claimable org id agent t ∧
    Exists (λ o, held_by_other (t_org t) (t_id t) agent o ∧
      (t_target_files t = JMalformed ∨ t_target_files o = JMalformed)) ts) ts.

#[global] Instance claim_malformed_dec org id agent ts :
  Decision (claim_malformed org id agent ts).
Proof. unfold claim_malformed. apply _. Defined.

(** ** Explaining a refusal *)

Definition first_overlap (wanted : list string) (held : list Thread)
    : option (string * list string) :=
  head (omap (λ o, let files := overlap wanted (safeJsonParse (t_target_files o)) in
                   if decide (files = []) then None else Some (t_id o, files)) held).

Definition findClaimFileConflict (org id agent : string) : M (option (string * list string)) :=
  gets (λ w,
    match select_one (is_thread org id) (db_threads (w_db w)) with
    | None => None
    | Some candidate =>
        let wanted := safeJsonParse (t_target_files candidate) in
        if decide (wanted = []) then None
        else first_overlap wanted (select (held_by_other org id agent) (db_threads (w_db w)))
    end).

Inductive ClaimResponse :=
  | ClaimOk
  | ClaimRefused (claimed_by assigned_to : option string) (status : option ThreadStatus)
      (conflict : option (string * list string)).

Definition handleClaimTask (org id agent : string) : M ClaimResponse :=
  now ← gets w_clock;
  ts ← gets (λ w, db_threads (w_db w));
  if decide (claim_malformed org id agent ts) then throw (ESqlite SqlMalformedJson)
  else
    _ ← stmt (on_threads (update_where (claim_where org id agent ts)
          (set_claim (Some agent) (Some (IsoTs now)))));
    if decide (changes (claim_where org id agent ts) ts = 1%nat) then
      _ ← bridge (BrTaskClaimed org id agent);
      _ ← sse_emit org (EvTaskClaimed id agent);
      mret ClaimOk
    else
      thread ← getThread org id;
      conflict ← findClaimFileConflict org id agent;
      mret (ClaimRefused
              (thread ≫= λ t, truthy (t_claimed_by t))
              (thread ≫= λ t, truthy (t_assigned_to t))
              (t_status <$> thread) conflict).

End Claims.
