(* ===== verification/Invariant.v ===== *)
(** * The invariant of the coordination tables

    [wf] is the well-formedness the coordinator keeps in [agents], [threads]
    and [thread_messages]: primary keys, foreign keys, the bounds on rounds,
    and the agreement of the status column with the columns that go with it.
    Every operation of the registry, of the consultation threads and of the
    claims preserves it, also when it throws. *)

From S2P Require Import Prelude Database Registry Consultation Claims.
Import Registry Consultation Claims.
Local Open Scope Z_scope.

Module Invariant.

(** ** Requests *)

Inductive op :=
  | OpTick (ms : Z)
  | OpRegister (org agent name : string) (modules : list string)
  | OpHeartbeat (org agent : string)
  | OpSetOnline (org agent : string)
  | OpSetOffline (org agent : string)
  | OpAnnounce (org : string) (p : AnnounceParams)
  | OpPost (org id agent : string) (name : option string) (type : MessageType)
      (content : string) (snapshot reply : option string)
  | OpPropose (org id agent summary : string)
  | OpApprove (org id agent : string) (name : option string)
  | OpContest (org id agent reason : string)
  | OpCancel (org id agent : string) (reason : option string)
  | OpClose (org id agent summary : string)
  | OpDepart (org agent : string)
  | OpTimeouts
  | OpClaim (org id agent : string)
  | OpUnclaim (org id agent : string).

Definition tick (ms : Z) : M unit := λ w,
  (mkWorld (w_clock w + Z.max 0 ms) (w_ttl_env w) (w_uuid w) (w_uuid_next w) (w_db w)
     (w_resolutions w) (w_bridge w), Ok ()).

Definition discard {A} (m : M A) : M unit := _ ← m; mret ().

Definition exec (o : op) : M unit :=
  match o with
  | OpTick ms => tick ms
  | OpRegister org agent name modules => discard (register org agent name modules)
  | OpHeartbeat org agent => Registry.heartbeat org agent
  | OpSetOnline org agent => setOnline org agent
  | OpSetOffline org agent => setOffline org agent
  | OpAnnounce org p => discard (announceWork org p)
  | OpPost org id agent name type content snapshot reply =>
      discard (postToThread org id agent name type content snapshot reply)
  | OpPropose org id agent summary => proposeResolution org id agent summary
  | OpApprove org id agent name => approveResolution org id agent name
  | OpContest org id agent reason => contestResolution org id agent reason
  | OpCancel org id agent reason => cancelThread org id agent reason
  | OpClose org id agent summary => closeThread org id agent summary
  | OpDepart org agent => handleAgentDeparture org agent
  | OpTimeouts => checkTimeouts
  | OpClaim org id agent => discard (handleClaimTask org id agent)
  | OpUnclaim org id agent => discard (handleUnclaimTask org id agent)
  end.

(** One request, served to its end; requests are served one at a time. *)
Inductive step : World → World → Prop :=
  | step_op o w : step w (run (exec o) w).

(** ** Well-formed tables *)

Definition wf_thread (t : Thread) : Prop :=
  (1 ≤ t_round t ≤ t_max_rounds t) ∧
  (t_status t = TResolved ∨ t_status t = TCancelled → t_resolved_at t ≠ None) ∧
  (t_status t = TResolving → t_summary t ≠ None) ∧
  (t_claimed_by t = None ↔ t_claimed_at t = None) ∧
  (t_target_files t ≠ JMalformed ∧ t_target_modules t ≠ JMalformed ∧
   t_expected t ≠ JMalformed ∧ t_depends_on t ≠ JMalformed).

Definition wf_message (d : Db) (m : ThreadMessage) : Prop :=
  agent_ref (m_org m) (m_agent m) d ∧
  Exists (λ t, t_id t = m_thread m ∧ t_org t = m_org m ∧ 1 ≤ m_round m ≤ t_round t)
    (db_threads d).

Record wf (d : Db) : Prop := {
  wf_agent_keys : NoDup ((λ a, (a_org a, a_id a)) <$> db_agents d);
  wf_agents : Forall (λ a, a_org a ∈ db_orgs d ∧ a_modules a ≠ JMalformed) (db_agents d);
  wf_thread_keys : NoDup (t_id <$> db_threads d);
  wf_threads : Forall wf_thread (db_threads d);
  wf_thread_refs : Forall (λ t, agent_ref (t_org t) (t_initiator t) d) (db_threads d);
  wf_message_keys : NoDup (m_id <$> db_messages d);
  wf_messages : Forall (wf_message d) (db_messages d)
}.

(** ** Lemmas: statements that keep the tables well formed *)

Lemma Exists_update_where {A} (Q Q' P : A → Prop) `{!∀ x, Decision (P x)} f (l : list A) :
  (∀ x, x ∈ l → Q x → Q' (if decide (P x) then f x else x)) →
  Exists Q l → Exists Q' (update_where P f l).
Proof.
  rewrite !Exists_exists. intros Hf (x & Hx & HQ).
  exists (if decide (P x) then f x else x). split; [|by apply Hf].
  apply elem_of_update_where. eauto.
Qed.

(** A row update of [threads] that keeps the identity of the row, never lowers
    its round and keeps the row well formed. *)
Definition row_update (t t' : Thread) : Prop :=
  t_id t' = t_id t ∧ t_org t' = t_org t ∧ t_initiator t' = t_initiator t ∧
  t_round t ≤ t_round t' ∧ (wf_thread t → wf_thread t').

Lemma wf_on_threads P `{!∀ t, Decision (P t)} f d :
  (∀ t, t ∈ db_threads d → P t → wf_thread t → row_update t (f t)) →
  wf d → wf (on_threads (update_where P f) d).
Proof.
  intros Hf []. assert (∀ t, t ∈ db_threads d → P t → row_update t (f t)) as Hf'.
  { intros t Ht HP. rewrite Forall_forall in wf_threads0. eauto. }
  split; simpl; try done.
  - rewrite fmap_update_where; [done|]. intros t Ht HP. by apply Hf'.
  - apply Forall_update_where; [done|]. intros t Ht HP. by apply Hf'.
  - apply Forall_update_where; [done|]. intros t Ht HP Ha.
    destruct (Hf' t Ht HP) as (_ & -> & -> & _). done.
  - eapply Forall_impl; [exact wf_messages0|]. intros m [Ha Ht]. split; [done|].
    revert Ht. apply Exists_update_where. intros t Ht (?&?&?).
    case_decide as HP; [|done]. destruct (Hf' t Ht HP) as (-> & -> & _ & ? & _).
    split_and!; try done; lia.
Qed.

Lemma wf_add_thread t d :
  wf_thread t → t_id t ∉ t_id <$> db_threads d → agent_ref (t_org t) (t_initiator t) d →
  wf d → wf (on_threads (λ l, l ++ [t]) d).
Proof.
  intros Ht Hid Ha []. split; simpl; try done.
  - rewrite fmap_app. apply NoDup_app. split_and!; [done| |apply NoDup_singleton].
    intros i Hi ->%list_elem_of_singleton. done.
  - apply Forall_app. by split; [|apply Forall_singleton].
  - apply Forall_app. by split; [|apply Forall_singleton].
  - eapply Forall_impl; [exact wf_messages0|]. intros m [? ?]. split; [done|].
    apply Exists_app. by left.
Qed.

Lemma wf_add_message m d :
  m_id m ∉ m_id <$> db_messages d → wf_message d m →
  wf d → wf (on_messages (λ l, l ++ [m]) d).
Proof.
  intros Hid Hm []. split; simpl; try done.
  - rewrite fmap_app. apply NoDup_app. split_and!; [done| |apply NoDup_singleton].
    intros i Hi ->%list_elem_of_singleton. done.
  - apply Forall_app. by split; [|apply Forall_singleton].
Qed.

Lemma wf_add_event org e d : wf d → wf (add_event org e d).
Proof. by intros []. Qed.

Lemma agent_ref_update P `{!∀ a, Decision (P a)} f org agent d :
  (∀ a, a_org (f a) = a_org a ∧ a_id (f a) = a_id a) →
  agent_ref org agent d → agent_ref org agent (on_agents (update_where P f) d).
Proof.
  intros Hf. apply Exists_update_where. intros a _ [? ?].
  destruct (Hf a). case_decide; naive_solver.
Qed.

Lemma wf_on_agents P `{!∀ a, Decision (P a)} f d :
  (∀ a, a_org (f a) = a_org a ∧ a_id (f a) = a_id a) →
  (∀ a, a_modules a ≠ JMalformed → a_modules (f a) ≠ JMalformed) →
  wf d → wf (on_agents (update_where P f) d).
Proof.
  intros Hf Hm []. split; simpl; try done.
  - rewrite fmap_update_where; [done|]. intros a _ _. by destruct (Hf a) as [-> ->].
  - apply Forall_update_where; [done|]. intros a _ _ [? ?]. destruct (Hf a) as [-> _]. eauto.
  - eapply Forall_impl; [exact wf_thread_refs0|]. intros t. by apply agent_ref_update.
  - eapply Forall_impl; [exact wf_messages0|]. intros m [? ?]. split; [|done].
    by apply agent_ref_update.
Qed.

Lemma wf_add_agent a d :
  a_org a ∈ db_orgs d → a_modules a ≠ JMalformed → ¬ agent_ref (a_org a) (a_id a) d →
  wf d → wf (on_agents (λ l, l ++ [a]) d).
Proof.
  intros Ho Hm Ha []. split; simpl; try done.
  - rewrite fmap_app. apply NoDup_app. split_and!; [done| |apply NoDup_singleton].
    intros k Hk ->%list_elem_of_singleton. apply Ha.
    apply list_elem_of_fmap in Hk as (b & ? & Hb). apply Exists_exists. exists b. naive_solver.
  - apply Forall_app. by split; [|apply Forall_singleton].
  - eapply Forall_impl; [exact wf_thread_refs0|]. intros t ?. apply Exists_app. by left.
  - eapply Forall_impl; [exact wf_messages0|]. intros m [? ?]. split; [|done].
    apply Exists_app. by left.
Qed.

(** ** Reading a thread *)

Lemma getThread_spec org id w w' mt :
  getThread org id w = (w', Ok mt) →
  w' = w ∧ mt = select_one (is_thread org id) (db_threads (w_db w)).
Proof. unfold getThread, gets. naive_solver. Qed.

Lemma getThread_Some org id w w' t :
  getThread org id w = (w', Ok (Some t)) →
  w' = w ∧ t_id t = id ∧ t_org t = org ∧ t ∈ db_threads (w_db w).
Proof.
  intros [-> Ht]%getThread_spec. symmetry in Ht.
  apply select_one_Some in Ht as [[??]?]. done.
Qed.

(** The row an [id] predicate selects is the row that was read. *)
Lemma thread_unique d t t' :
  wf d → t ∈ db_threads d → t' ∈ db_threads d → t_id t' = t_id t → t' = t.
Proof. intros [] ???. by eapply (NoDup_key_eq t_id). Qed.

(** ** Operations *)

Create HintDb wf.

Lemma wf_sse_emit org e w : respects (keeps wf) (sse_emit org e) w.
Proof.
  apply respects_checked_insert; [apply _|]. intros _ _. intros ?. by apply wf_add_event.
Qed.

Lemma wf_onResolve ev w : respects (keeps wf) (onResolve ev) w.
Proof. unfold onResolve. effects. apply wf_sse_emit. Qed.

Lemma wf_emitResolution id ty a n w : respects (keeps wf) (emitResolution id ty a n) w.
Proof. unfold emitResolution, getThreadCrossOrg. effects. apply wf_onResolve. Qed.

Lemma wf_insert_message m w :
  Exists (λ t, t_id t = m_thread m ∧ t_org t = m_org m ∧ 1 ≤ m_round m ≤ t_round t)
    (db_threads (w_db w)) →
  respects (keeps wf) (insert_message m) w.
Proof.
  intros Ht. apply respects_checked_insert; [apply _|]. intros Hid (_ & _ & Ha) Hwf.
  by apply wf_add_message.
Qed.

(** The round stored with a message is the round of the thread that was read. *)
Lemma read_round w t :
  wf (w_db w) → t ∈ db_threads (w_db w) →
  Exists (λ t', t_id t' = t_id t ∧ t_org t' = t_org t ∧ 1 ≤ t_round t ≤ t_round t')
    (db_threads (w_db w)).
Proof.
  intros Hwf Ht. apply Exists_exists. exists t. split_and!; try done.
  destruct Hwf. rewrite Forall_forall in wf_threads0. destruct (wf_threads0 t Ht). lia.
Qed.

Lemma respects_assume (I : Db → Prop) {A} (m : M A) w :
  (I (w_db w) → respects (keeps I) m w) → respects (keeps I) m w.
Proof. unfold respects, keeps. intros H HI. by apply H. Qed.

Lemma wf_postResolutionMessage org id agent ty c w :
  respects (keeps wf) (postResolutionMessage org id agent ty c) w.
Proof.
  unfold postResolutionMessage. apply respects_bind; [apply _|by apply respects_gets, _|].
  intros [t|] w' Hg; [|by apply respects_throw, _].
  apply getThread_Some in Hg as (-> & <- & <- & Ht). apply respects_assume. intros Hwf.
  effects. run_eqs. apply wf_insert_message. simpl. by apply (read_round w).
Qed.

(** [postResolutionMessage] does not write to [threads]. *)
Lemma threads_postResolutionMessage org id agent ty c w :
  respects (same db_threads) (postResolutionMessage org id agent ty c) w.
Proof.
  unfold postResolutionMessage, getThread. effects.
  by apply respects_checked_insert; [apply _|].
Qed.

#[export] Hint Resolve wf_sse_emit wf_onResolve wf_emitResolution
  wf_postResolutionMessage threads_postResolutionMessage : effects.

(** Row updates, one by one. *)
Lemma row_resolve at_ t : row_update t (mark_resolved at_ t).
Proof. unfold row_update, wf_thread. simpl. naive_solver. Qed.

Lemma row_resolve_summary at_ s t : row_update t (set_summary s (mark_resolved at_ t)).
Proof. unfold row_update, wf_thread. simpl. naive_solver. Qed.

Lemma row_propose s t : row_update t (set_summary (Some s) (set_status TResolving t)).
Proof. unfold row_update, wf_thread. simpl. naive_solver. Qed.

Lemma row_cancel at_ t :
  row_update t (set_resolved_at (Some at_) (set_status TCancelled t)).
Proof. unfold row_update, wf_thread. simpl. naive_solver. Qed.

Lemma row_reopen t :
  t_round t + 1 ≤ t_max_rounds t →
  row_update t (set_summary None (set_round (t_round t + 1) (set_status TOpen t))).
Proof. unfold row_update, wf_thread. simpl. intros. split_and!; naive_solver lia. Qed.

Lemma row_expected l t : row_update t (set_expected (JText l) t).
Proof. unfold row_update, wf_thread. simpl. naive_solver. Qed.

Lemma row_claim a at_ t : row_update t (set_claim (Some a) (Some at_) t).
Proof. unfold row_update, wf_thread. simpl. naive_solver. Qed.

Lemma row_unclaim t : row_update t (set_claim None None t).
Proof. unfold row_update, wf_thread. simpl. naive_solver. Qed.

Lemma row_release t : row_update t (release t).
Proof. unfold row_update, wf_thread. simpl. naive_solver. Qed.

Lemma row_poison t : row_update t (set_status TPoisoned t).
Proof. unfold row_update, wf_thread. simpl. naive_solver. Qed.

#[export] Hint Resolve row_resolve row_resolve_summary row_propose row_cancel row_expected
  row_claim row_unclaim row_release row_poison : wf.

Lemma wf_stmt_threads P `{!∀ t, Decision (P t)} f w :
  (∀ t, P t → row_update t (f t)) →
  respects (keeps wf) (stmt (on_threads (update_where P f))) w.
Proof. intros Hf. apply respects_stmt. intros ?. apply wf_on_threads; eauto. Qed.

#[export] Hint Resolve wf_stmt_threads : effects.
#[export] Hint Extern 4 (∀ t : Thread, _ → row_update t _) => intros; solve [eauto with wf] : effects.

Lemma wf_register org agent name modules w :
  respects (keeps wf) (register org agent name modules) w.
Proof.
  unfold register, get. effects; run_eqs.
  - apply respects_stmt. intros ?. by apply wf_on_agents.
  - apply respects_checked_insert; [apply _|]. intros _ Ho ?. by apply wf_add_agent.
Qed.

Lemma wf_touch P `{!∀ a, Decision (P a)} s now w :
  respects (keeps wf) (stmt (on_agents (update_where P (touch s now)))) w.
Proof. apply respects_stmt. intros ?. by apply wf_on_agents. Qed.

Lemma wf_announceWork org p w : respects (keeps wf) (announceWork org p) w.
Proof.
  unfold announceWork, getThread. effects.
  apply respects_checked_insert; [apply _|]. intros Hid [_ Ha] ?. apply wf_add_thread; try done.
  unfold wf_thread. simpl. split_and!; try done; try lia; case_match; naive_solver.
Qed.

Lemma wf_postToThread org id agent name ty c sn rp w :
  respects (keeps wf) (postToThread org id agent name ty c sn rp) w.
Proof.
  unfold postToThread. apply respects_bind; [apply _|by apply respects_gets, _|].
  intros [t|] w' Hg; [|by apply respects_throw, _].
  apply getThread_Some in Hg as (-> & <- & <- & Ht). apply respects_assume. intros Hwf.
  effects. run_eqs. apply wf_insert_message. simpl. by apply (read_round w).
Qed.

Lemma wf_proposeResolution org id agent s w :
  respects (keeps wf) (proposeResolution org id agent s) w.
Proof. unfold proposeResolution, getThread. effects. Qed.

Lemma wf_approveResolution org id agent n w :
  respects (keeps wf) (approveResolution org id agent n) w.
Proof. unfold approveResolution, getThread, allRespondentsApproved. effects. Qed.

Lemma wf_contestResolution org id agent r w :
  respects (keeps wf) (contestResolution org id agent r) w.
Proof.
  unfold contestResolution. apply respects_bind; [apply _|by apply respects_gets, _|].
  intros [t|] w' Hg; [|by apply respects_throw, _].
  apply getThread_Some in Hg as (-> & <- & <- & Ht). apply respects_assume. intros Hwf.
  case_decide; [by apply respects_throw, _|].
  apply respects_bind; [apply _|apply wf_postResolutionMessage|]. intros [] w' Hp.
  pose proof (respects_elim _ _ _ _ _ (threads_postResolutionMessage _ _ _ _ _ w) Hp) as Hth.
  case_decide; effects. apply respects_stmt. intros Hwf'. apply wf_on_threads; [|done].
  rewrite Hth. intros t' Ht' [Hid _] _. rewrite (thread_unique _ _ _ Hwf Ht Ht' Hid).
  apply row_reopen. lia.
Qed.

Lemma wf_cancelThread org id agent r w :
  respects (keeps wf) (cancelThread org id agent r) w.
Proof. unfold cancelThread, getThread. effects. Qed.

Lemma wf_closeThread org id agent s w :
  respects (keeps wf) (closeThread org id agent s) w.
Proof. unfold closeThread, getThread. effects. Qed.

Lemma wf_departThread org id l w : respects (keeps wf) (departThread org id l) w.
Proof. unfold departThread, getThreadCrossOrg, allRespondentsApproved. effects. Qed.

Lemma wf_handleAgentDeparture org agent w :
  respects (keeps wf) (handleAgentDeparture org agent) w.
Proof.
  unfold handleAgentDeparture. effects.
  apply respects_for_each; [apply _|]. intros. apply wf_departThread.
Qed.

Lemma wf_checkTimeouts w : respects (keeps wf) checkTimeouts w.
Proof.
  unfold checkTimeouts. effects. apply respects_for_each; [apply _|]. intros.
  apply wf_emitResolution.
Qed.

Lemma wf_handleUnclaimTask org id agent w :
  respects (keeps wf) (handleUnclaimTask org id agent) w.
Proof. unfold handleUnclaimTask, getThread. effects. Qed.

Lemma wf_handleClaimTask org id agent w :
  respects (keeps wf) (handleClaimTask org id agent) w.
Proof. unfold handleClaimTask, getThread, findClaimFileConflict. effects. Qed.

#[export] Hint Resolve wf_register wf_touch wf_announceWork wf_postToThread
  wf_proposeResolution wf_approveResolution wf_contestResolution wf_cancelThread
  wf_closeThread wf_handleAgentDeparture wf_checkTimeouts wf_handleUnclaimTask
  wf_handleClaimTask : effects.

Lemma respects_tick R `{!PreOrder R} ms w : respects R (tick ms) w.
Proof. unfold respects. simpl. reflexivity. Qed.

#[export] Hint Resolve respects_tick : effects.

Lemma wf_exec o w : respects (keeps wf) (exec o) w.
Proof. destruct o; simpl; unfold discard, Registry.heartbeat, setOnline, setOffline; effects. Qed.

(** ** Reachable worlds *)

Definition empty_db (orgs : list string) : Db :=
  mkDb orgs [] [] [] [] [] 0 [] [] 0 [] [] [] [] [].

(** A coordinator that has just been installed. *)
Definition initial (orgs : list string) (clock : Z) (ttl : env_int) (uuid : nat → string)
    : World :=
  mkWorld clock ttl uuid 0 (empty_db orgs) [] [].

Lemma wf_empty orgs : wf (empty_db orgs).
Proof. split; simpl; try constructor. Qed.

Lemma rtc_wf w w' : rtc step w w' → wf (w_db w) → wf (w_db w').
Proof. induction 1 as [|w1 w2 w3 [o w0]]; [done|]. intros Hw. by apply IHrtc, wf_exec. Qed.

(** [C1] Every state the coordinator reaches by serving requests (in any
    order, including those that throw) from a fresh installation has
    well-formed tables: unique keys, valid references, rounds within their
    bounds, a resolution time on every resolved or cancelled thread, a summary
    on every proposed one, claim columns that agree, and parseable JSON. *)
Theorem reachable_wf orgs clock ttl uuid w :
  rtc step (initial orgs clock ttl uuid) w → wf (w_db w).
Proof. intros Hr. by apply (rtc_wf _ _ Hr), wf_empty. Qed.

(** ** A concrete run *)

Definition uuid_of (n : nat) : string := "u" +:+ pretty n.

Definition demo_params : AnnounceParams :=
  mkAnnounce "alice" "types" None ["src/api"] ["src/types.ts"] None None false None None.

(** Two registered agents, one of which announces work the other must approve. *)
Definition demo_ops : list op :=
  [OpRegister "default" "alice" "Alice" ["src/api"];
   OpRegister "default" "bob" "Bob" ["src"];
   OpAnnounce "default" demo_params;
   OpPropose "default" "u0" "alice" "rename field"].

Definition run_ops (os : list op) (w : World) : World := foldl (λ w o, run (exec o) w) w os.

Lemma rtc_run_ops os w : rtc step w (run_ops os w).
Proof.
  revert w. induction os as [|o os IH]; intros w; [done|].
  simpl. eapply rtc_l; [apply (step_op o)|apply IH].
Qed.

Definition start : World := initial ["default"] 1700000000000 EnvUnset uuid_of.

Definition demo : World := run_ops demo_ops start.

Lemma reachable_wf_witness : wf (w_db demo) ∧ t_status <$> db_threads (w_db demo) = [TResolving].
Proof.
  split; [|vm_compute; reflexivity].
  apply (reachable_wf ["default"] 1700000000000 EnvUnset uuid_of).
  apply rtc_run_ops.
Defined.

End Invariant.
