(* ===== verification/Isolation.v ===== *)
(** * Tenant isolation

    Every request of the coordination protocol names an organisation (taken
    from the caller's claims). It leaves the rows of every other organisation as
    they are, in every table. The timeout sweeper is the one operation that
    crosses organisations, by design; and the statistics of the layers are all
    stored under the organisation [default], whoever announces. *)

From S2P Require Import Prelude Database Registry Consultation Claims Invariant.
Import Registry Consultation Claims Invariant.
Local Open Scope Z_scope.

Module Isolation.

(** The organisation a request acts for. *)
Definition op_org (o : op) : option string :=
  match o with
  | OpTick _ | OpTimeouts => None
  | OpRegister org _ _ _ | OpHeartbeat org _ | OpSetOnline org _ | OpSetOffline org _
  | OpAnnounce org _ | OpPost org _ _ _ _ _ _ _ | OpPropose org _ _ _
  | OpApprove org _ _ _ | OpContest org _ _ _ | OpCancel org _ _ _ | OpClose org _ _ _
  | OpDepart org _ | OpClaim org _ _ | OpUnclaim org _ _ => Some org
  end.

(** The rows of an organisation, in every table. The firings of the layers are left
    out for [default] alone, where those of all organisations are stored. *)
Record Tenant := mkTenant {
  tn_agents : list Agent; tn_threads : list Thread; tn_messages : list ThreadMessage; tn_events : list EventRow;
  tn_summaries : list ActionSummary; tn_deps : list DependencyRow; tn_files : list FileActivity;
  tn_introspections : list Introspection; tn_activity : list AgentActivity; tn_working : list WorkingFile;
  tn_cochange : list Cochange; tn_firings : list LayerFiring }.

Definition tenant (org : string) (d : Db) : Tenant :=
  mkTenant (filter (λ a, a_org a = org) (db_agents d)) (filter (λ t, t_org t = org) (db_threads d))
    (filter (λ m, m_org m = org) (db_messages d)) (filter (λ e, e_org e = org) (db_events d))
    (filter (λ s, s_org s = org) (db_summaries d)) (filter (λ r, d_org r = org) (db_deps d))
    (filter (λ f, f_org f = org) (db_files d)) (filter (λ i, i_org i = org) (db_introspections d))
    (filter (λ a, aa_org a = org) (db_activity d)) (filter (λ x, wf_org x = org) (db_working d))
    (filter (λ g, g_org g = org) (db_cochange d))
    (if decide (org = "default") then [] else filter (λ f, lf_org f = org) (db_firings d)).

Definition thread_keys (d : Db) : list (string * string) :=
  (λ t, (t_id t, t_org t)) <$> db_threads d.

(** What is kept along a request: the other tenant's rows, and the identity
    and organisation of every thread. *)
Definition framed (other : string) : relation Db := λ d d',
  tenant other d' = tenant other d ∧ thread_keys d ⊆ thread_keys d'.

Definition isolates (other : string) : relation Db := λ d d',
  wf d → wf d' ∧ framed other d d'.

#[global] Instance framed_preorder other : PreOrder (framed other).
Proof.
  unfold framed. split; [by intros d|]. intros d1 d2 d3 [E2 K2] [E3 K3].
  split; [congruence|set_solver].
Qed.

#[global] Instance isolates_preorder other : PreOrder (isolates other).
Proof.
  unfold isolates. split; [by intros d ?|]. intros d1 d2 d3 H12 H23 Hwf.
  destruct (H12 Hwf) as [Hwf2 F2]. destruct (H23 Hwf2) as [? F3].
  split; [done|]. by etrans.
Qed.

(** ** Statements *)

Section isolation.
Context (org other : string) (Hne : org ≠ other).

Lemma isolates_wf {A} (m : M A) w :
  respects (keeps wf) m w →
  respects (framed other) m w →
  respects (isolates other) m w.
Proof. intros Hm Hf Hwf. split; [by apply Hm|apply Hf]. Qed.

Lemma framed_threads P `{!∀ t, Decision (P t)} f w :
  (∀ t, P t → t_org t = org) → (∀ t, t_id (f t) = t_id t ∧ t_org (f t) = t_org t) →
  respects (framed other) (stmt (on_threads (update_where P f))) w.
Proof.
  intros HP Hf. apply respects_stmt.
  unfold framed, tenant, thread_keys. simpl. rewrite filter_update_where; cycle 1.
  - intros t Ht%HP. congruence.
  - intros t Ht. destruct (Hf t) as [_ ->]. rewrite (HP t Ht). congruence.
  - split; [done|]. rewrite fmap_update_where; [done|].
    intros t _ _. by destruct (Hf t) as [-> ->].
Qed.

Lemma isolates_threads P `{!∀ t, Decision (P t)} f w :
  (∀ t, P t → t_org t = org) → (∀ t, row_update t (f t)) →
  respects (isolates other) (stmt (on_threads (update_where P f))) w.
Proof.
  intros HP Hf. apply isolates_wf; [by apply wf_stmt_threads|].
  apply framed_threads; [done|]. intros t. by destruct (Hf t) as (? & ? & _).
Qed.

Lemma isolates_agents P `{!∀ t, Decision (P t)} f w :
  (∀ a, P a → a_org a = org) →
  (∀ a, a_org (f a) = a_org a ∧ a_id (f a) = a_id a) →
  (∀ a, a_modules a ≠ JMalformed → a_modules (f a) ≠ JMalformed) →
  respects (isolates other) (stmt (on_agents (update_where P f))) w.
Proof.
  intros HP Hf Hm. apply isolates_wf.
  { apply respects_stmt. intros ?. by apply wf_on_agents. }
  apply respects_stmt. unfold framed, tenant, thread_keys. simpl.
  rewrite filter_update_where; [done|intros a ?%HP; congruence|].
  intros a Ha. destruct (Hf a) as [-> _]. rewrite (HP a Ha). congruence.
Qed.

Lemma filter_app_skip {A} (P : A → Prop) `{!∀ x, Decision (P x)} l x :
  ¬ P x → filter P (l ++ [x]) = filter P l.
Proof.
  intros Hx. rewrite filter_app, filter_cons_False, filter_nil, app_nil_r by done. done.
Qed.

Lemma filter_delete_where {A} (P Q : A → Prop) `{!∀ x, Decision (P x), !∀ x, Decision (Q x)} l :
  (∀ x, P x → ¬ Q x) → filter Q (delete_where P l) = filter Q l.
Proof.
  intros HP. induction l as [|x l IH]; [done|]. unfold delete_where in *. rewrite !filter_cons.
  destruct (decide (P x)) as [Hx|Hx].
  - rewrite decide_False by tauto. rewrite IH. by rewrite decide_False by by apply HP.
  - rewrite decide_True by done. rewrite filter_cons. by rewrite IH.
Qed.

Lemma isolates_sse e w : respects (isolates other) (sse_emit org e) w.
Proof.
  apply isolates_wf; [apply wf_sse_emit|].
  apply respects_checked_insert; [apply _|]. intros _ _. unfold framed, tenant, thread_keys. simpl.
  by rewrite filter_app_skip.
Qed.

Lemma isolates_insert_message m w :
  m_org m = org → respects (keeps wf) (insert_message m) w →
  respects (isolates other) (insert_message m) w.
Proof.
  intros Hm Hwf. apply isolates_wf; [done|].
  apply respects_checked_insert; [apply _|]. intros _ _. unfold framed, tenant, thread_keys. simpl.
  rewrite filter_app_skip by congruence. done.
Qed.

(** ** Handlers on a thread of the organisation *)

(** [m] isolates when thread [id] exists and belongs to [org]. *)
Definition safe (id : string) {A} (m : M A) : Prop :=
  ∀ w, wf (w_db w) → (id, org) ∈ thread_keys (w_db w) → respects (isolates other) m w.

Lemma safe_bind id {A B} (m : M A) (k : A → M B) :
  safe id m → (∀ a, safe id (k a)) → safe id (m ≫= k).
Proof.
  intros Hm Hk w Hwf Hid. apply respects_bind; [apply _|by apply Hm|]. intros a w' E.
  destruct (respects_elim _ _ _ _ _ (Hm w Hwf Hid) E Hwf) as (Hwf' & _ & Hkeys).
  apply Hk; [done|]. by apply Hkeys.
Qed.

Lemma safe_always id {A} (m : M A) : (∀ w, respects (isolates other) m w) → safe id m.
Proof. intros Hm w _ _. apply Hm. Qed.

Lemma safe_when id b m : safe id m → safe id (when b m).
Proof. intros Hm w ??. destruct b; [by apply Hm|by apply respects_ret, _]. Qed.

Lemma safe_transaction id {A} (m : M A) : safe id m → safe id (transaction m).
Proof. intros Hm w ??. apply respects_transaction; [apply _|by apply Hm]. Qed.

Lemma safe_emitResolution id ty a n : safe id (emitResolution id ty a n).
Proof.
  intros w Hwf Hid. unfold emitResolution, getThreadCrossOrg.
  apply respects_bind; [apply _|by apply respects_gets, _|]. intros mt w' [= <- <-].
  destruct (select_one _ _) as [t|] eqn:E; [|by apply respects_ret, _].
  apply select_one_Some in E as [Ht Hin].
  apply list_elem_of_fmap in Hid as (t' & E' & Hin'). injection E' as Hi Ho.
  rewrite (thread_unique _ _ _ Hwf Hin' Hin) by congruence.
  unfold onResolve. effects. simpl. rewrite <- Ho. apply isolates_sse.
Qed.

Lemma safe_postResolutionMessage id agent ty c :
  safe id (postResolutionMessage org id agent ty c).
Proof.
  intros w _ _. apply isolates_wf; [apply wf_postResolutionMessage|].
  unfold postResolutionMessage, getThread. effects.
  apply respects_checked_insert; [apply _|]. intros _ _. unfold framed, tenant, thread_keys.
  simpl. by rewrite filter_app_skip.
Qed.

Lemma safe_update id P `{!∀ t, Decision (P t)} f :
  (∀ t, P t → t_org t = org) → (∀ t, row_update t (f t)) →
  safe id (stmt (on_threads (update_where P f))).
Proof. intros ?? w _ _. by apply isolates_threads. Qed.

(** The guard of a handler: it reads the thread, and goes on only if there is one. *)
Lemma isolates_getThread id {A} e (body : Thread → M A) w :
  (∀ t, safe id (body t)) →
  respects (isolates other)
    (mt ← getThread org id; match mt with None => throw e | Some t => body t end) w.
Proof.
  intros Hs. apply respects_bind; [apply _|by apply respects_gets, _|].
  intros [t|] w' Hg; [|by apply respects_throw, _].
  apply getThread_Some in Hg as (-> & Hid & Ho & Ht). intros Hwf.
  apply Hs; [done| |done]. apply list_elem_of_fmap. exists t. by rewrite Hid, Ho.
Qed.

(** Follows a handler's body. *)
Ltac safe_step :=
  match goal with
  | |- safe _ (_ ≫= _) => apply safe_bind; [|intros ?]
  | |- safe _ (when _ _) => apply safe_when
  | |- safe _ (transaction _) => apply safe_transaction
  | |- safe _ (match ?x with _ => _ end) => destruct x
  | |- safe _ (emitResolution _ _ _ _) => apply safe_emitResolution
  | |- safe _ (postResolutionMessage _ _ _ _ _) => apply safe_postResolutionMessage
  | |- safe _ (stmt _) =>
      apply safe_update; [intros ? [[??]?] || intros ? [??]; done|intros; solve [auto with wf]]
  | |- safe _ _ => solve [apply safe_always; intros; auto with effects typeclass_instances]
  end.
Ltac safe_body := repeat safe_step.

Lemma isolates_propose id agent s w :
  respects (isolates other) (proposeResolution org id agent s) w.
Proof. unfold proposeResolution. apply isolates_getThread. intros t. safe_body. Qed.

Lemma isolates_approve id agent n w :
  respects (isolates other) (approveResolution org id agent n) w.
Proof.
  unfold approveResolution. apply isolates_getThread. intros t.
  unfold allRespondentsApproved. safe_body.
Qed.

Lemma isolates_cancel id agent r w :
  respects (isolates other) (cancelThread org id agent r) w.
Proof. unfold cancelThread. apply isolates_getThread. intros t. safe_body. Qed.

Lemma isolates_close id agent s w :
  respects (isolates other) (closeThread org id agent s) w.
Proof. unfold closeThread. apply isolates_getThread. intros t. safe_body. Qed.

Lemma isolates_contest id agent r w :
  respects (isolates other) (contestResolution org id agent r) w.
Proof.
  intros Hwf. split; [by apply wf_contestResolution|].
  change (respects (framed other) (contestResolution org id agent r) w).
  unfold contestResolution. apply respects_bind; [apply _|by apply respects_gets, _|].
  intros [t|] w' Hg; [|by apply respects_throw, _].
  apply getThread_Some in Hg as (-> & Hid & Ho & Ht).
  assert ((id, org) ∈ thread_keys (w_db w)) as Hkey.
  { apply list_elem_of_fmap. exists t. by rewrite Hid, Ho. }
  case_decide; [by apply respects_throw, _|].
  pose proof (safe_postResolutionMessage id agent MContest r w Hwf Hkey) as Hpost.
  apply respects_bind; [apply _|by apply Hpost|]. intros [] w' E.
  destruct (respects_elim _ _ _ _ _ Hpost E Hwf) as (Hwf' & _ & Hkeys).
  case_decide.
  - eapply (proj2 (B := framed other _ _)).
    assert (safe id (now ← gets w_clock;
      _ ← stmt (on_threads (update_where (is_thread org id) (mark_resolved (IsoTs now))));
      emitResolution id RMaxRounds None None)) as Hs by safe_body.
    apply (Hs w' Hwf'); [by apply Hkeys|done].
  - apply framed_threads; [by intros ? [??]|done].
Qed.

Lemma isolates_depart_thread id l : safe id (departThread org id l).
Proof. unfold departThread, getThreadCrossOrg, allRespondentsApproved. safe_body. Qed.

(** The threads of the loop were selected before it started. *)
Lemma isolates_for_each {A} (l : list A) (f : A → M unit) (id : A → string) w :
  wf (w_db w) → (∀ x, safe (id x) (f x)) →
  (∀ x, x ∈ l → (id x, org) ∈ thread_keys (w_db w)) →
  respects (isolates other) (for_each l f) w.
Proof.
  intros Hwf Hf. revert w Hwf. induction l as [|x l IH]; intros w Hwf Hl; simpl.
  { by apply respects_ret, _. }
  assert ((id x, org) ∈ thread_keys (w_db w)) as Hx by (apply Hl; left).
  apply respects_bind; [apply _|by apply Hf|]. intros [] w' E.
  destruct (respects_elim _ _ _ _ _ (Hf x w Hwf Hx) E Hwf) as (Hwf' & _ & Hkeys).
  apply IH; [done|]. intros y Hy. apply Hkeys, Hl. by right.
Qed.

Lemma isolates_departure agent w :
  respects (isolates other) (handleAgentDeparture org agent) w.
Proof.
  unfold handleAgentDeparture. apply respects_bind; [apply _| |].
  { apply isolates_threads; [by intros ? (?&?&?)|auto with wf]. }
  intros [] w1 _. apply respects_bind; [apply _|by apply respects_gets, _|].
  intros ts w2 [= <- <-]. intros Hwf. eapply (isolates_for_each _ _ t_id); [done| | |done].
  - intros t. apply isolates_depart_thread.
  - intros t ([_ <-] & Ht)%elem_of_select. apply list_elem_of_fmap. by exists t.
Qed.

Lemma isolates_claim id agent w :
  respects (isolates other) (handleClaimTask org id agent) w.
Proof.
  unfold handleClaimTask, getThread, findClaimFileConflict. effects.
  - apply isolates_threads; [by intros ? [[[??]?]?]|auto with wf].
  - apply isolates_sse.
Qed.

Lemma isolates_unclaim id agent w :
  respects (isolates other) (handleUnclaimTask org id agent) w.
Proof.
  unfold handleUnclaimTask, getThread. effects.
  all: apply isolates_threads; [intros ? [[??]?]; done|auto with wf].
Qed.

Lemma isolates_announce p w : respects (isolates other) (announceWork org p) w.
Proof.
  apply isolates_wf; [apply wf_announceWork|]. unfold announceWork, getThread. effects.
  apply respects_checked_insert; [apply _|]. intros _ _. unfold framed, tenant, thread_keys.
  simpl. rewrite filter_app_skip, fmap_app by done. set_solver.
Qed.

Lemma isolates_post id agent n ty c sn rp w :
  respects (isolates other) (postToThread org id agent n ty c sn rp) w.
Proof.
  apply isolates_wf; [apply wf_postToThread|]. unfold postToThread, getThread. effects.
  apply respects_checked_insert; [apply _|]. intros _ _. unfold framed, tenant, thread_keys.
  simpl. by rewrite filter_app_skip.
Qed.

Lemma isolates_register agent name modules w :
  respects (isolates other) (register org agent name modules) w.
Proof.
  apply isolates_wf; [apply wf_register|]. unfold register, get. effects.
  - apply respects_stmt. unfold framed, tenant, thread_keys. simpl.
    rewrite filter_update_where; [done|intros ? [??]; simpl; congruence..].
  - apply respects_checked_insert; [apply _|]. intros _ _. unfold framed, tenant, thread_keys.
    simpl. by rewrite filter_app_skip.
Qed.

Lemma isolates_touch s agent now w :
  respects (isolates other) (stmt (on_agents (update_where (is_agent org agent) (touch s now)))) w.
Proof. apply isolates_agents; [by intros ? [??]|done..]. Qed.

Lemma isolates_exec o w : op_org o = Some org → respects (isolates other) (exec o) w.
Proof.
  destruct o; simpl; intros [= ->];
    unfold discard, Registry.heartbeat, setOnline, setOffline; effects;
    eauto using isolates_register, isolates_touch, isolates_announce, isolates_post,
      isolates_propose, isolates_approve, isolates_contest, isolates_cancel,
      isolates_close, isolates_departure, isolates_claim, isolates_unclaim.
Qed.
End isolation.

(** [C2] Tenant isolation: on well-formed tables, a request of the coordination
    protocol made for one organisation leaves the rows of every other organisation
    unchanged in every table, whatever identifiers it names and whether it succeeds
    or throws. (Of the organisation [default], the rows of [layer_firings] are
    apart: the announcements of every organisation are recorded there.) *)
Theorem tenant_isolation o w org other :
  wf (w_db w) → op_org o = Some org → org ≠ other →
  tenant other (w_db (run (exec o) w)) = tenant other (w_db w).
Proof.
  intros Hwf Ho Hne. apply (isolates_exec org other Hne o w Ho Hwf).
Qed.

(** A departure in org "b" of an agent id that also exists in org "a". *)
Definition two_tenants : World :=
  run_ops [OpRegister "a" "builder" "B" ["src"]; OpRegister "b" "builder" "B" ["src"];
           OpAnnounce "a" (mkAnnounce "builder" "s" None ["src"] ["src/x.ts"] None None true
                             None None);
           OpClaim "a" "u0" "builder"]
    (initial ["a"; "b"] 1700000000000 EnvUnset uuid_of).

Lemma tenant_isolation_witness :
  tenant "a" (w_db (run (exec (OpDepart "b" "builder")) two_tenants)) =
    tenant "a" (w_db two_tenants) ∧
  t_claimed_by <$> db_threads (w_db two_tenants) = [Some "builder"].
Proof.
  split; [|vm_compute; reflexivity].
  apply (tenant_isolation _ _ "b" "a"); [|reflexivity|discriminate].
  apply (rtc_wf (initial ["a"; "b"] 1700000000000 EnvUnset uuid_of)); [|apply wf_empty].
  apply rtc_run_ops.
Defined.

End Isolation.
