(* ===== verification/Protocol.v ===== *)
(** * The consultation protocol

    What each step of a consultation does, on every branch: approval and the
    consensus it completes, contest and the bound on rounds, and proposals. The
    lemmas that evaluate a step ([post_eval], [emit_eval], [resolve_eval]) serve
    the files that follow. *)

From S2P Require Import Prelude Database Registry Consultation Claims Invariant.
Import Registry Consultation Claims Invariant.
Local Open Scope Z_scope.

Module Protocol.

(** ** Specifications *)

Definition thread_of (org id : string) (w : World) : option Thread :=
  select_one (is_thread org id) (db_threads (w_db w)).

(** The identifier the next insert will draw is not in use. *)
Definition fresh_message_id (w : World) : Prop :=
  w_uuid w (w_uuid_next w) ∉ m_id <$> db_messages (w_db w).

(** Who approved the proposal of the thread's current round. *)
Definition approvers (d : Db) (t : Thread) : list string :=
  m_agent <$> filter (λ m, m_thread m = t_id t ∧ m_type m = MApprove ∧ m_round m = t_round t)
                (db_messages d).

Definition expected (t : Thread) : list string := safeJsonParse (t_expected t).

(** The message a step of the protocol adds. *)
Definition step_message (w : World) (t : Thread) (agent : string) (ty : MessageType)
    (c : string) : ThreadMessage :=
  mkMessage (w_uuid w (w_uuid_next w)) (t_org t) (t_id t) agent None ty c None None
    (t_round t) 0 (now_sec w).

(** [w'] is [w] after the resolution callback ran on [ev], and nothing else. *)
Definition notified (ev : ResolutionEvent) (w w' : World) : Prop :=
  (∃ e, w_db w' = add_event (r_org ev) e (w_db w)) ∧
  w_resolutions w' = w_resolutions w ++ [ev] ∧
  w_clock w' = w_clock w ∧ w_uuid w' = w_uuid w ∧ w_uuid_next w' = w_uuid_next w.

Definition had_messages (id : string) (d : Db) : bool :=
  bool_decide (0 < length (filter (λ m, m_thread m = id) (db_messages d)))%nat.

(** ** Evaluating statements *)

Lemma thread_of_Some org id w t :
  thread_of org id w = Some t → t_id t = id ∧ t_org t = org ∧ t ∈ db_threads (w_db w).
Proof. intros [[??]?]%select_one_Some. done. Qed.

Lemma thread_org_known w t : wf (w_db w) → t ∈ db_threads (w_db w) → t_org t ∈ db_orgs (w_db w).
Proof.
  intros [] Ht. rewrite Forall_forall in wf_thread_refs0.
  rewrite Forall_forall in wf_agents0.
  destruct (proj1 (Exists_exists _ _) (wf_thread_refs0 t Ht)) as (a & Ha & <- & _).
  by apply wf_agents0.
Qed.

Lemma sse_eval org e w :
  org ∈ db_orgs (w_db w) → sse_emit org e w = (on_db (add_event org e) w, Ok ()).
Proof.
  intros Ho. unfold sse_emit, checked_insert, mbind, M_bind, gets.
  rewrite !decide_True by done. done.
Qed.

Lemma onResolve_eval ev w :
  r_org ev ∈ db_orgs (w_db w) → ∃ w', onResolve ev w = (w', Ok ()) ∧ notified ev w w'.
Proof.
  intros Ho. unfold onResolve, mbind, M_bind, deliver. rewrite sse_eval by done.
  unfold when, bridge. case_bool_decide; simpl; (eexists; split; [reflexivity|]);
    unfold notified; simpl; split_and!; eauto.
Qed.

Lemma cross_org_read w t :
  wf (w_db w) → t ∈ db_threads (w_db w) →
  select_one (λ t', t_id t' = t_id t) (db_threads (w_db w)) = Some t.
Proof. intros [] Ht. by eapply (select_one_key t_id). Qed.

Lemma emit_eval w t ty a n :
  select_one (λ t', t_id t' = t_id t) (db_threads (w_db w)) = Some t →
  t_org t ∈ db_orgs (w_db w) →
  ∃ w', emitResolution (t_id t) ty a n w = (w', Ok ()) ∧
    notified (mkResolution (t_id t) (t_org t) ty (t_summary t) (t_created_at t)
      (default (IsoTs (w_clock w)) (t_resolved_at t)) a n (had_messages (t_id t) (w_db w))) w w'.
Proof.
  intros Ht Ho. unfold emitResolution, getThreadCrossOrg, mbind, M_bind, gets.
  rewrite Ht. by apply onResolve_eval.
Qed.

Lemma post_eval w org id t agent ty c :
  wf (w_db w) → thread_of org id w = Some t → agent_ref org agent (w_db w) →
  fresh_message_id w →
  postResolutionMessage org id agent ty c w =
    (mkWorld (w_clock w) (w_ttl_env w) (w_uuid w) (S (w_uuid_next w))
       (on_messages (λ l, l ++ [step_message w t agent ty c]) (w_db w))
       (w_resolutions w) (w_bridge w), Ok ()).
Proof.
  intros Hwf Hr Ha Hf. destruct (thread_of_Some _ _ _ _ Hr) as (<- & <- & Ht).
  unfold postResolutionMessage, getThread, mbind, M_bind, gets, randomUUID.
  unfold thread_of in Hr. rewrite Hr.
  unfold insert_message, checked_insert, mbind, M_bind, gets. simpl.
  rewrite decide_True by done. rewrite decide_True; [done|].
  split_and!; [by apply thread_org_known| |done]. apply Exists_exists. by exists t.
Qed.

(** The state after a step's message: the rest of the step starts there. *)
Lemma post_world w org id t agent ty c :
  wf (w_db w) → thread_of org id w = Some t → agent_ref org agent (w_db w) →
  fresh_message_id w →
  ∃ w1, postResolutionMessage org id agent ty c w = (w1, Ok ()) ∧ wf (w_db w1) ∧
    w_db w1 = on_messages (λ l, l ++ [step_message w t agent ty c]) (w_db w) ∧
    w_clock w1 = w_clock w ∧ w_resolutions w1 = w_resolutions w ∧
    thread_of org id w1 = Some t ∧ t ∈ db_threads (w_db w1).
Proof.
  intros Hwf Hr Ha Hf. pose proof (post_eval w _ _ t agent ty c Hwf Hr Ha Hf) as Hp.
  pose proof (wf_postResolutionMessage org id agent ty c w Hwf) as Hwf1.
  unfold run in Hwf1. rewrite Hp in Hwf1 |- *. eexists. split; [reflexivity|]. simpl in *.
  split_and!; try done. by apply thread_of_Some in Hr as (_ & _ & ?).
Qed.

(** ** Approval *)

Lemma approved_eval w org id t :
  thread_of org id w = Some t →
  allRespondentsApproved org id w =
    (w, Ok (bool_decide (Forall (λ e, e ∈ approvers (w_db w) t) (expected t)))).
Proof.
  intros Hr. destruct (thread_of_Some _ _ _ _ Hr) as (<- & <- & Ht).
  unfold allRespondentsApproved, gets. unfold thread_of in Hr. rewrite Hr. do 2 f_equal.
  fold (expected t). fold (approvers (w_db w) t).
  destruct (forallb _ _) eqn:E.
  - rewrite orb_true_r. symmetry. apply bool_decide_eq_true, Forall_forall. intros e He.
    rewrite forallb_forall in E. apply list_elem_of_In in He.
    by apply E, bool_decide_eq_true in He.
  - rewrite orb_false_r. apply bool_decide_ext. split; [by intros ->; constructor|].
    intros HF. exfalso. apply Is_true_false in E. apply E.
    apply Is_true_true, forallb_forall. intros e He%list_elem_of_In.
    rewrite Forall_forall in HF. by apply bool_decide_eq_true, HF.
Qed.

(** What an approval achieves: the thread is resolved by consensus exactly
    when every expected respondent has approved the proposal of this round. *)
Definition approval_spec (w w' : World) (t : Thread) (agent : string) (name : option string)
    : Prop :=
  db_messages (w_db w') =
    db_messages (w_db w) ++ [step_message w t agent MApprove "Approved"] ∧
  (if decide (Forall (λ e, e = agent ∨ e ∈ approvers (w_db w) t) (expected t)) then
     db_threads (w_db w') =
       update_where (λ x, t_id x = t_id t) (mark_resolved (IsoTs (w_clock w)))
         (db_threads (w_db w)) ∧
     w_resolutions w' = w_resolutions w ++
       [mkResolution (t_id t) (t_org t) RConsensus (t_summary t) (t_created_at t)
          (IsoTs (w_clock w)) (Some agent) (Some (default agent (truthy name))) true]
   else
     db_threads (w_db w') = db_threads (w_db w) ∧ w_resolutions w' = w_resolutions w).

(** An id predicate selects the row that was read. *)
Lemma only_row w t P `{!∀ x, Decision (P x)} f :
  wf (w_db w) → t ∈ db_threads (w_db w) → P t → (∀ x, P x → t_id x = t_id t) →
  update_where P f (db_threads (w_db w)) =
    update_where (λ x, t_id x = t_id t) f (db_threads (w_db w)).
Proof.
  intros Hwf Ht HP Hid. apply update_where_ext; [|done]. intros x Hx. split; [apply Hid|].
  intros E. by rewrite (thread_unique _ _ _ Hwf Ht Hx E).
Qed.

Lemma approvers_after_post w t agent :
  ∀ e, e ∈ approvers (on_messages (λ l, l ++ [step_message w t agent MApprove "Approved"])
                        (w_db w)) t ↔ e = agent ∨ e ∈ approvers (w_db w) t.
Proof.
  intros e. unfold approvers. simpl. rewrite filter_app, fmap_app, elem_of_app.
  rewrite filter_cons_True by done. rewrite filter_nil. simpl. set_solver.
Qed.

Lemma had_messages_after d m id :
  m_thread m = id → had_messages id (on_messages (λ l, l ++ [m]) d) = true.
Proof.
  intros Hm. apply bool_decide_eq_true. simpl. rewrite filter_app, length_app.
  rewrite filter_cons_True by done. rewrite filter_nil. simpl. lia.
Qed.

(** The row a conditional UPDATE on [id] finds after [f]. *)
Lemma read_after_update w t P `{!∀ x, Decision (P x)} f :
  wf (w_db w) → t ∈ db_threads (w_db w) → P t →
  (∀ x, t_id (f x) = t_id x) →
  select_one (λ t', t_id t' = t_id t) (update_where P f (db_threads (w_db w))) = Some (f t).
Proof.
  intros Hwf Ht HP Hf. rewrite select_one_update_where by (intros x; by rewrite Hf).
  rewrite (cross_org_read w t Hwf Ht). simpl. by rewrite decide_True.
Qed.

(** Marking the row and telling the callback, from any state with the row. *)
Lemma resolve_eval w t P `{!∀ x, Decision (P x)} f at_ ty a n :
  wf (w_db w) → t ∈ db_threads (w_db w) → P t → (∀ x, P x → t_id x = t_id t) →
  (∀ x, t_id (f x) = t_id x ∧ t_org (f x) = t_org x ∧ t_created_at (f x) = t_created_at x ∧
        t_resolved_at (f x) = Some at_) →
  ∃ w', (_ ← stmt (on_threads (update_where P f)); emitResolution (t_id t) ty a n) w = (w', Ok ()) ∧
    db_threads (w_db w') = update_where (λ x, t_id x = t_id t) f (db_threads (w_db w)) ∧
    db_messages (w_db w') = db_messages (w_db w) ∧
    w_clock w' = w_clock w ∧ w_uuid w' = w_uuid w ∧ w_uuid_next w' = w_uuid_next w ∧
    w_resolutions w' = w_resolutions w ++
      [mkResolution (t_id t) (t_org t) ty (t_summary (f t)) (t_created_at t) at_ a n
         (had_messages (t_id t) (w_db w))].
Proof.
  intros Hwf Ht HP Hid Hf. unfold mbind, M_bind. simpl. destruct (Hf t) as (Ei & Eo & Ec & Er).
  edestruct (emit_eval (on_db (on_threads (update_where P f)) w) (f t) ty a n)
    as (w' & E & (e & Hdb) & Hres & Hc & Hu & Hn).
  - rewrite Ei. apply read_after_update; try done. intros x. apply Hf.
  - rewrite Eo. simpl. by apply thread_org_known.
  - rewrite Ei in E. exists w'. split; [exact E|]. rewrite Hdb, Hres. simpl.
    rewrite Ei, Eo, Ec, Er. split_and!; try done. by apply only_row.
Qed.

(** Consensus: an approval by a registered agent of a proposed thread
    records the approval; it resolves the thread, and emits one "consensus"
    event naming the approver, exactly when every expected respondent has
    approved in the current round. Otherwise the thread is left as it was and
    nothing is emitted. Approvals of earlier rounds never count. *)
Theorem approve_spec w org id agent name t :
  wf (w_db w) → thread_of org id w = Some t → t_status t = TResolving →
  agent_ref org agent (w_db w) → fresh_message_id w →
  result (approveResolution org id agent name) w = Ok () ∧
  approval_spec w (run (approveResolution org id agent name) w) t agent name.
Proof.
  intros Hwf Hr Hst Ha Hf. destruct (thread_of_Some _ _ _ _ Hr) as (<- & <- & Ht).
  destruct (post_world w _ _ t agent MApprove "Approved" Hwf Hr Ha Hf)
    as (w1 & Hp & Hwf1 & Hdb1 & Hc1 & Hres1 & Hr1 & Ht1).
  unfold run, result, approveResolution, getThread, mbind, M_bind, gets.
  unfold thread_of in Hr. rewrite Hr. rewrite decide_False by naive_solver.
  unfold transaction. rewrite Hp, (approved_eval _ _ _ _ Hr1). clear Hp. unfold approval_spec.
  rewrite (bool_decide_ext _ (Forall (λ e, e = agent ∨ e ∈ approvers (w_db w) t) (expected t))).
  2:{ rewrite !Forall_forall. setoid_rewrite <- approvers_after_post. by rewrite Hdb1. }
  case_bool_decide as Hall; [rewrite decide_True by done|rewrite decide_False by done].
  - assert (0 < changes (is_resolving_thread (t_org t) (t_id t)) (db_threads (w_db w1)))%nat as Hn.
    { apply changes_pos. rewrite Hdb1. by exists t. }
    destruct (resolve_eval w1 t (is_resolving_thread (t_org t) (t_id t))
      (mark_resolved (IsoTs (w_clock w))) (IsoTs (w_clock w)) RConsensus (Some agent)
      (Some (default agent (truthy name)))) as (w' & E & Hth & Hm & _ & _ & _ & Hres);
      try done; [by intros x [[??]?]|].
    unfold mbind, M_bind in E. simpl in E. simpl. rewrite bool_decide_true, Hc1 by done. simpl.
    rewrite E. simpl. rewrite Hm, Hth, Hres, Hres1, Hdb1. rewrite had_messages_after by done. done.
  - simpl. rewrite Hres1, Hdb1. done.
Qed.

(** ** Contest *)

(** Contest and the bound on rounds: contesting a proposal records the
    contest and either reopens the thread in the next round with no proposal
    (so that every approval has to be collected again), or, in the last round,
    resolves it and emits one "max_rounds" event. *)
Theorem contest_spec w org id agent reason t :
  wf (w_db w) → thread_of org id w = Some t → t_status t = TResolving →
  agent_ref org agent (w_db w) → fresh_message_id w →
  let w' := run (contestResolution org id agent reason) w in
  result (contestResolution org id agent reason) w = Ok () ∧
  db_messages (w_db w') = db_messages (w_db w) ++ [step_message w t agent MContest reason] ∧
  (if decide (t_round t < t_max_rounds t) then
     db_threads (w_db w') =
       update_where (λ x, t_id x = id)
         (λ x, set_summary None (set_round (t_round t + 1) (set_status TOpen x)))
         (db_threads (w_db w)) ∧
     w_resolutions w' = w_resolutions w
   else
     db_threads (w_db w') =
       update_where (λ x, t_id x = id) (mark_resolved (IsoTs (w_clock w)))
         (db_threads (w_db w)) ∧
     w_resolutions w' = w_resolutions w ++
       [mkResolution id org RMaxRounds (t_summary t) (t_created_at t)
          (IsoTs (w_clock w)) None None true]).
Proof.
  intros Hwf Hr Hst Ha Hf w'. subst w'.
  destruct (thread_of_Some _ _ _ _ Hr) as (<- & <- & Ht).
  destruct (post_world w _ _ t agent MContest reason Hwf Hr Ha Hf)
    as (w1 & Hp & Hwf1 & Hdb1 & Hc1 & Hres1 & Hr1 & Ht1).
  unfold run, result, contestResolution, getThread, mbind, M_bind, gets.
  unfold thread_of in Hr. rewrite Hr. rewrite decide_False by naive_solver.
  rewrite Hp. clear Hp. destruct (decide (t_round t < t_max_rounds t)).
  - rewrite decide_False by lia. simpl. rewrite Hres1, Hdb1. simpl.
    split_and!; try done. apply (only_row w t); [done..|by intros x [??]].
  - rewrite decide_True by lia.
    destruct (resolve_eval w1 t (is_thread (t_org t) (t_id t))
      (mark_resolved (IsoTs (w_clock w))) (IsoTs (w_clock w)) RMaxRounds None None)
      as (w' & E & Hth & Hm & _ & _ & _ & Hres); try done; [by intros x [??]|].
    unfold mbind, M_bind in E. simpl in E. simpl. rewrite Hc1, E. simpl.
    rewrite Hm, Hth, Hres, Hres1, Hdb1. rewrite had_messages_after by done. done.
Qed.

(** ** Concrete runs *)

Lemma approve_spec_witness :
  approval_spec demo (run (approveResolution "default" "u0" "bob" None) demo)
    (default (mkThread "" "" "" "" None JNull JNull TOpen None None 0 0 0 0 None JNull JNull
                JNull None None None None None) (thread_of "default" "u0" demo)) "bob" None ∧
  t_status <$> db_threads (w_db (run (approveResolution "default" "u0" "bob" None) demo)) =
    [TResolved].
Proof.
  split; [|vm_compute; reflexivity].
  destruct (thread_of "default" "u0" demo) as [t|] eqn:E; [|vm_compute in E; discriminate].
  apply (approve_spec demo "default" "u0" "bob" None t).
  - apply (rtc_wf start); [apply rtc_run_ops|apply wf_empty].
  - exact E.
  - revert E. vm_compute. by intros [= <-].
  - apply (bool_decide_unpack _). vm_compute. reflexivity.
  - apply (bool_decide_unpack _). vm_compute. reflexivity.
Defined.

Lemma contest_spec_witness :
  result (contestResolution "default" "u0" "bob" "no") demo = Ok () ∧
  (λ t, (t_status t, t_round t)) <$>
    db_threads (w_db (run (contestResolution "default" "u0" "bob" "no") demo)) = [(TOpen, 2)].
Proof.
  split; [|vm_compute; reflexivity].
  destruct (thread_of "default" "u0" demo) as [t|] eqn:E; [|vm_compute in E; discriminate].
  apply (contest_spec demo "default" "u0" "bob" "no" t).
  - apply (rtc_wf start); [apply rtc_run_ops|apply wf_empty].
  - exact E.
  - revert E. vm_compute. by intros [= <-].
  - apply (bool_decide_unpack _). vm_compute. reflexivity.
  - apply (bool_decide_unpack _). vm_compute. reflexivity.
Defined.

(** ** Proposal *)

Lemma post_eval_unregistered w org id t agent ty c :
  thread_of org id w = Some t → ¬ agent_ref org agent (w_db w) → fresh_message_id w →
  ∃ w1, postResolutionMessage org id agent ty c w = (w1, Throw (ESqlite SqlForeignKey)) ∧
    w_db w1 = w_db w ∧ w_resolutions w1 = w_resolutions w.
Proof.
  intros Hr Ha Hf. unfold postResolutionMessage, getThread, mbind, M_bind, gets, randomUUID.
  unfold thread_of in Hr. rewrite Hr.
  unfold insert_message, checked_insert, mbind, M_bind, gets. simpl.
  rewrite decide_True by done. rewrite decide_False by (simpl; naive_solver).
  unfold throw. eexists. split; [reflexivity|]. done.
Qed.

(** Proposal: by the initiator or the claimant, whatever the status of
    the thread (a resolved, cancelled or poisoned thread is revived), the
    thread becomes "resolving" with the proposed summary. The proposal is
    recorded as a message only if the proposer is a registered agent: for a
    claimant that never registered the call fails on the foreign key after the
    status was written, and the thread stays "resolving". *)
Theorem propose_spec w org id agent summary t :
  wf (w_db w) → thread_of org id w = Some t →
  t_initiator t = agent ∨ t_claimed_by t = Some agent → fresh_message_id w →
  let w' := run (proposeResolution org id agent summary) w in
  db_threads (w_db w') =
    update_where (λ x, t_id x = id)
      (λ x, set_summary (Some summary) (set_status TResolving x)) (db_threads (w_db w)) ∧
  w_resolutions w' = w_resolutions w ∧
  (if decide (agent_ref org agent (w_db w)) then
     result (proposeResolution org id agent summary) w = Ok () ∧
     db_messages (w_db w') = db_messages (w_db w) ++ [step_message w t agent MResolution summary]
   else
     result (proposeResolution org id agent summary) w = Throw (ESqlite SqlForeignKey) ∧
     db_messages (w_db w') = db_messages (w_db w)).
Proof.
  intros Hwf Hr Hag Hf w'. subst w'.
  destruct (thread_of_Some _ _ _ _ Hr) as (<- & <- & Ht).
  set (f := λ x, set_summary (Some summary) (set_status TResolving x)).
  set (w1 := on_db (on_threads (update_where (is_thread (t_org t) (t_id t)) f)) w).
  assert (wf (w_db w1)) as Hwf1.
  { apply wf_on_threads; [|done]. intros. apply row_propose. }
  assert (thread_of (t_org t) (t_id t) w1 = Some (f t)) as Hr1.
  { unfold thread_of, w1. simpl. rewrite select_one_update_where by done.
    unfold thread_of in Hr. rewrite Hr. simpl. by rewrite decide_True. }
  assert (db_threads (w_db w1) = update_where (λ x, t_id x = t_id t) f (db_threads (w_db w))) as Eth
    by (apply (only_row w t); [done..|by intros x [??]]).
  unfold run, result, proposeResolution, getThread, mbind, M_bind, gets.
  unfold thread_of in Hr. rewrite Hr. rewrite decide_False by naive_solver.
  unfold stmt. fold f w1. case_decide as Ha.
  - destruct (post_world w1 _ _ (f t) agent MResolution summary Hwf1 Hr1 Ha Hf)
      as (w2 & -> & _ & Hdb & _ & Hres & _). simpl. rewrite Hdb, Hres. done.
  - destruct (post_eval_unregistered w1 _ _ (f t) agent MResolution summary Hr1 Ha Hf)
      as (w2 & -> & Hdb & Hres). simpl. rewrite Hdb, Hres. done.
Qed.

(** A claimant that never registered proposes. *)
Definition ghost_claim : World :=
  run_ops [OpRegister "default" "alice" "Alice" ["src/api"];
           OpAnnounce "default" (mkAnnounce "alice" "s" None ["m"] ["f.ts"] None None true None None);
           OpClaim "default" "u0" "ghost"] start.

Lemma propose_spec_witness :
  result (proposeResolution "default" "u0" "ghost" "done") ghost_claim =
    Throw (ESqlite SqlForeignKey) ∧
  t_status <$> db_threads (w_db (run (proposeResolution "default" "u0" "ghost" "done") ghost_claim))
    = [TResolving] ∧
  w_resolutions (run (proposeResolution "default" "u0" "ghost" "done") ghost_claim) =
    w_resolutions ghost_claim.
Proof.
  split; [vm_compute; reflexivity|]. split; [vm_compute; reflexivity|].
  destruct (thread_of "default" "u0" ghost_claim) as [t|] eqn:E; [|vm_compute in E; discriminate].
  refine (proj1 (proj2 (propose_spec ghost_claim "default" "u0" "ghost" "done" t _ _ _ _))).
  - apply (rtc_wf start); [apply rtc_run_ops|apply wf_empty].
  - exact E.
  - right. revert E. vm_compute. by intros [= <-].
  - apply (bool_decide_unpack _). vm_compute. reflexivity.
Defined.

End Protocol.
