(* ===== verification/Sweeps.v ===== *)
(** * Sweeps over the thread table

    The two operations that walk over many threads: the timeout sweeper
    ([checkTimeouts]) and the departure of an agent ([handleAgentDeparture]).
    Each is proved equal to one batch update of the table, with exactly one
    resolution event for each thread it resolves. *)

From S2P Require Import Prelude Database Registry Consultation Claims Invariant Protocol.
Import Registry Consultation Claims Invariant Protocol.
Local Open Scope Z_scope.

Module Sweeps.

(** ** Specifications *)

Definition time_out (now : Z) (t : Thread) : Thread :=
  set_summary (Some timeout_summary) (mark_resolved (SqlTs now) t).

(** The event for a thread row as it is in the table. *)
Definition event_of (ty : ResolutionType) (d : Db) (clock : Z) (t : Thread) : ResolutionEvent :=
  mkResolution (t_id t) (t_org t) ty (t_summary t) (t_created_at t)
    (default (IsoTs clock) (t_resolved_at t)) None None (had_messages (t_id t) d).

Definition remaining (agent : string) (t : Thread) : list string :=
  filter (λ r, r ≠ agent) (safeJsonParse (t_expected t)).

(** A departure resolves a proposed thread all remaining respondents approved,
    and an open thread no respondent is left for. *)
Definition departure_resolves (d : Db) (agent : string) (t : Thread) : bool :=
  match t_status t with
  | TResolving => bool_decide (Forall (λ e, e ∈ approvers d t) (remaining agent t))
  | TOpen => bool_decide (remaining agent t = [])
  | _ => false
  end.

(** The threads a departure resolves. *)
Definition departs (d : Db) (org agent : string) (t : Thread) : Prop :=
  is_active t ∧ t_org t = org ∧ departure_resolves d agent t = true.

#[global] Instance departs_dec d org agent t : Decision (departs d org agent t).
Proof. unfold departs. apply _. Defined.

Definition depart_row (d : Db) (agent : string) (clock : Z) (t : Thread) : Thread :=
  let t1 := set_expected (JText (remaining agent t)) t in
  if departure_resolves d agent t then mark_resolved (IsoTs clock) t1 else t1.

Definition depart_events (d : Db) (agent : string) (c : Z) (l : list Thread)
    : list ResolutionEvent :=
  event_of RAgentDeparture d c ∘ depart_row d agent c <$>
    filter (λ t, departure_resolves d agent t = true) l.

Definition unclaim_row (org agent : string) (t : Thread) : Thread :=
  if decide (t_claimed_by t = Some agent ∧ t_status t = TOpen ∧ t_org t = org)
  then set_claim None None t else t.

(** One row of the batch update a departure amounts to. *)
Definition departure_row (d : Db) (org agent : string) (clock : Z) (t : Thread) : Thread :=
  let t1 := unclaim_row org agent t in
  if decide (is_active t ∧ t_org t = org) then depart_row d agent clock t1 else t1.

(** ** The timeout sweeper *)

Lemma had_messages_ext d d' id :
  db_messages d' = db_messages d → had_messages id d' = had_messages id d.
Proof. unfold had_messages. by intros ->. Qed.

Lemma approvers_ext d d' t : db_messages d' = db_messages d → approvers d' t = approvers d t.
Proof. unfold approvers. by intros ->. Qed.

Lemma notify_all l ty w :
  wf (w_db w) → (∀ t, t ∈ l → t ∈ db_threads (w_db w)) →
  ∃ w', for_each (t_id <$> l) (λ id, emitResolution id ty None None) w = (w', Ok ()) ∧
    db_threads (w_db w') = db_threads (w_db w) ∧
    db_messages (w_db w') = db_messages (w_db w) ∧
    w_resolutions w' = w_resolutions w ++ (event_of ty (w_db w) (w_clock w) <$> l).
Proof.
  revert w. induction l as [|t l IH]; intros w Hwf Hl.
  { exists w. simpl. rewrite app_nil_r. done. }
  rewrite !fmap_cons. cbn [for_each].
  assert (t ∈ db_threads (w_db w)) as Ht by (apply Hl; left).
  destruct (emit_eval w t ty None None (cross_org_read w t Hwf Ht) (thread_org_known w t Hwf Ht))
    as (w1 & E & (e & Hdb) & Hres & Hc & _).
  assert (wf (w_db w1)) as Hwf1 by (rewrite Hdb; by apply wf_add_event).
  destruct (IH w1 Hwf1) as (w' & E' & Hth & Hm & Hres').
  { intros x Hx. rewrite Hdb. apply Hl. by right. }
  exists w'. unfold mbind, M_bind. rewrite E, E'. split; [done|].
  rewrite Hth, Hm, Hres', Hres, Hc, Hdb. split_and!; try done.
  rewrite <- app_assoc. done.
Qed.

(** The timeout sweep: every active thread past its deadline (created_at
    plus timeout times round) is resolved with the timeout summary, every other
    thread is untouched, and the callback gets exactly one "timeout" event for
    each of them, in table order. Afterwards no thread is past its deadline. *)
Theorem checkTimeouts_spec w :
  wf (w_db w) →
  let now := now_sec w in
  let w' := run checkTimeouts w in
  result checkTimeouts w = Ok () ∧
  db_threads (w_db w') = update_where (timed_out now) (time_out now) (db_threads (w_db w)) ∧
  db_messages (w_db w') = db_messages (w_db w) ∧
  w_resolutions w' = w_resolutions w ++
    (event_of RTimeout (w_db w) (w_clock w) ∘ time_out now <$>
       filter (timed_out now) (db_threads (w_db w))) ∧
  Forall (λ t, ¬ timed_out now t) (db_threads (w_db w')).
Proof.
  intros Hwf now w'. subst w'. unfold run, result.
  set (w1 := on_db (on_threads (update_where (timed_out now) (time_out now))) w).
  assert (wf (w_db w1)) as Hwf1.
  { apply wf_on_threads; [|done]. intros. apply row_resolve_summary. }
  destruct (notify_all (time_out now <$> filter (timed_out now) (db_threads (w_db w)))
    RTimeout w1 Hwf1) as (w' & E & Hth & Hm & Hres).
  { intros x (t & -> & [Hp Ht]%list_elem_of_filter)%list_elem_of_fmap.
    apply elem_of_update_where. exists t. by rewrite decide_True. }
  assert (checkTimeouts w = (w', Ok ())) as ->.
  { rewrite <- E. unfold checkTimeouts, transaction, mbind, M_bind, gets, stmt, mret, M_ret.
    f_equal. by rewrite <- list_fmap_compose. }
  simpl. rewrite Hth, Hm, Hres. split_and!; try done.
  - by rewrite <- list_fmap_compose.
  - apply Forall_forall. intros x (t & Ht & ->)%elem_of_update_where.
    case_decide; [|done]. intros [[?|?] _]; done.
Qed.

(** ** Departure *)

(** The conditional resolution at the end of the loop body. *)
Lemma depart_resolve_eval w t at_ :
  wf (w_db w) → t ∈ db_threads (w_db w) →
  ∃ w', (_ ← stmt (on_threads (update_where (is_thread (t_org t) (t_id t)) (mark_resolved at_)));
         emitResolution (t_id t) RAgentDeparture None None) w = (w', Ok ()) ∧
    db_threads (w_db w') =
      update_where (λ x, t_id x = t_id t) (mark_resolved at_) (db_threads (w_db w)) ∧
    db_messages (w_db w') = db_messages (w_db w) ∧ w_clock w' = w_clock w ∧
    w_resolutions w' = w_resolutions w ++
      [event_of RAgentDeparture (w_db w) (w_clock w) (mark_resolved at_ t)].
Proof.
  intros Hwf Ht.
  destruct (resolve_eval w t (is_thread (t_org t) (t_id t)) (mark_resolved at_) at_
    RAgentDeparture None None) as (w' & E & Hth & Hm & Hc & _ & _ & Hres);
    [done..|by intros x [??]|done|].
  exists w'. split_and!; try done.
Qed.

(** The two tests at the end of the loop body are exclusive. *)
Lemma depart_tail (s : ThreadStatus) (all none : bool) (m : M unit) w :
  (_ ← when (bool_decide (s = TResolving) && all) m; when (bool_decide (s = TOpen) && none) m) w =
    (if match s with TResolving => all | TOpen => none | _ => false end then m w else (w, Ok ())).
Proof.
  unfold mbind, M_bind. destruct s, all, none; simpl; try done;
    destruct (m w) as [w' [[]|e]]; done.
Qed.

(** The state after the first statement of the loop body. *)
Lemma expected_world w t l :
  wf (w_db w) → t ∈ db_threads (w_db w) →
  let w1 := on_db (on_threads (update_where (is_thread (t_org t) (t_id t))
                                 (set_expected (JText l)))) w in
  let t1 := set_expected (JText l) t in
  wf (w_db w1) ∧ t1 ∈ db_threads (w_db w1) ∧ thread_of (t_org t) (t_id t) w1 = Some t1 ∧
  db_threads (w_db w1) =
    update_where (λ x, t_id x = t_id t) (set_expected (JText l)) (db_threads (w_db w)).
Proof.
  intros Hwf Ht w1 t1.
  assert (wf (w_db w1)) as Hwf1 by (apply wf_on_threads; [intros; apply row_expected|done]).
  assert (t1 ∈ db_threads (w_db w1)) as Ht1.
  { apply elem_of_update_where. exists t. by rewrite decide_True. }
  split_and!; try done.
  - eapply (select_one_key t_id); [apply Hwf1|exact Ht1|done|by intros y [??]].
  - apply (only_row w t); [done..|by intros x [??]].
Qed.

(** An update by primary key is an update of the row that was read. *)
Lemma update_row w t g g' :
  wf (w_db w) → t ∈ db_threads (w_db w) → g t = g' t →
  update_where (λ x, t_id x = t_id t) g (db_threads (w_db w)) =
    update_where (λ x, t_id x = t_id t) g' (db_threads (w_db w)).
Proof.
  intros Hwf Ht Hg. apply update_where_ext; [done|]. intros x Hx E.
  by rewrite (thread_unique _ _ _ Hwf Ht Hx E).
Qed.

(** One turn of the loop, on a row of the table. *)
Lemma depart_one w agent t :
  wf (w_db w) → t ∈ db_threads (w_db w) →
  ∃ w', departThread (t_org t) (t_id t) (remaining agent t) w = (w', Ok ()) ∧
    db_threads (w_db w') =
      update_where (λ x, t_id x = t_id t) (depart_row (w_db w) agent (w_clock w))
        (db_threads (w_db w)) ∧
    db_messages (w_db w') = db_messages (w_db w) ∧ w_clock w' = w_clock w ∧
    w_resolutions w' = w_resolutions w ++
      (if departure_resolves (w_db w) agent t
       then [event_of RAgentDeparture (w_db w) (w_clock w) (depart_row (w_db w) agent (w_clock w) t)]
       else []).
Proof.
  intros Hwf Ht. destruct (expected_world w t (remaining agent t) Hwf Ht) as (Hwf1 & Ht1 & Hr1 & Eth).
  set (t1 := set_expected (JText (remaining agent t)) t) in *.
  set (w1 := on_db _ w) in *.
  assert (departThread (t_org t) (t_id t) (remaining agent t) w =
    (if departure_resolves (w_db w) agent t
     then (_ ← stmt (on_threads (update_where (is_thread (t_org t1) (t_id t1))
                       (mark_resolved (IsoTs (w_clock w)))));
           emitResolution (t_id t1) RAgentDeparture None None) w1
     else (w1, Ok ()))) as ->.
  { unfold departure_resolves. rewrite <- depart_tail.
    unfold departThread, getThreadCrossOrg, gets. unfold mbind at 1 2 3 4, M_bind at 1 2 3 4.
    unfold stmt at 1. fold w1. change (t_id t) with (t_id t1).
    rewrite (cross_org_read w1 t1 Hwf1 Ht1).
    rewrite (approved_eval w1 (t_org t) (t_id t1) t1 Hr1). done. }
  unfold depart_row. destruct (departure_resolves (w_db w) agent t) eqn:Hd.
  - destruct (depart_resolve_eval w1 t1 (IsoTs (w_clock w)) Hwf1 Ht1)
      as (w2 & E2 & Hth2 & Hm2 & Hc2 & Hres2).
    exists w2. split; [exact E2|]. rewrite Hth2, Hm2, Hc2, Hres2. split_and!; try done.
    rewrite Eth, update_where_twice by done. apply update_row; [done..|]. by rewrite Hd.
  - exists w1. rewrite app_nil_r, Eth. split_and!; try done.
    apply update_row; [done..|]. by rewrite Hd.
Qed.

Lemma depart_row_id d agent c t : t_id (depart_row d agent c t) = t_id t.
Proof. unfold depart_row. by case_match. Qed.

Lemma depart_row_ext d d' agent c t :
  db_messages d' = db_messages d → depart_row d' agent c t = depart_row d agent c t.
Proof.
  intros Hm. unfold depart_row, departure_resolves. by rewrite (approvers_ext d d' t Hm).
Qed.

Lemma depart_events_ext d d' agent c l :
  db_messages d' = db_messages d → depart_events d' agent c l = depart_events d agent c l.
Proof.
  intros Hm. unfold depart_events, departure_resolves, event_of, had_messages, approvers.
  rewrite Hm. apply list_fmap_ext. intros i t _. simpl. by rewrite (depart_row_ext d d').
Qed.

Lemma depart_events_cons d agent c t l :
  depart_events d agent c (t :: l) =
    (if departure_resolves d agent t
     then [event_of RAgentDeparture d c (depart_row d agent c t)] else []) ++
    depart_events d agent c l.
Proof.
  unfold depart_events. rewrite filter_cons.
  destruct (departure_resolves d agent t); by rewrite ?decide_True, ?decide_False by done.
Qed.

(** The loop over the rows selected before it is one update of those rows. *)
Lemma depart_loop agent org l w :
  wf (w_db w) → NoDup (t_id <$> l) →
  (∀ t, t ∈ l → t ∈ db_threads (w_db w) ∧ t_org t = org) →
  ∃ w', for_each l (λ t, departThread org (t_id t) (remaining agent t)) w = (w', Ok ()) ∧
    db_threads (w_db w') =
      update_where (λ x, t_id x ∈ t_id <$> l) (depart_row (w_db w) agent (w_clock w))
        (db_threads (w_db w)) ∧
    db_messages (w_db w') = db_messages (w_db w) ∧
    w_resolutions w' = w_resolutions w ++ depart_events (w_db w) agent (w_clock w) l.
Proof.
  revert w. induction l as [|t l IH]; intros w Hwf Hnd Hl.
  { exists w. split_and!; try done; [|by rewrite app_nil_r].
    symmetry. apply update_where_none. intros x _. by apply not_elem_of_nil. }
  rewrite fmap_cons in Hnd. apply NoDup_cons in Hnd as [Hnin Hnd].
  destruct (Hl t) as [Ht <-]; [left|].
  destruct (depart_one w agent t Hwf Ht) as (w1 & E1 & Hth1 & Hm1 & Hc1 & Hres1).
  assert (wf (w_db w1)) as Hwf1.
  { pose proof (wf_departThread (t_org t) (t_id t) (remaining agent t) w Hwf) as H.
    unfold run in H. by rewrite E1 in H. }
  destruct (IH w1 Hwf1 Hnd) as (w' & E' & Hth & Hm & Hres).
  { intros x Hx. destruct (Hl x) as [Hx' Ho]; [by right|]. split; [|done].
    rewrite Hth1. apply elem_of_update_where. exists x. split; [done|].
    rewrite decide_False; [done|]. intros E. apply Hnin. rewrite <- E.
    by apply list_elem_of_fmap_2. }
  exists w'. cbn [for_each]. unfold mbind, M_bind. rewrite E1, E'. split; [done|].
  rewrite Hm, Hres, Hres1, Hm1, Hc1, depart_events_cons, (depart_events_ext (w_db w)) by done.
  split_and!; [|done|by rewrite <- app_assoc].
  rewrite Hth, Hth1, Hc1. etrans.
  { apply (update_where_ext _ (λ x, t_id x ∈ t_id <$> l) _ (depart_row (w_db w) agent (w_clock w)));
      [done|]. intros. by apply depart_row_ext. }
  apply update_where_join; [intros x; by rewrite depart_row_id| |].
  - intros x -> ?. done.
  - intros x. rewrite fmap_cons. apply elem_of_cons.
Qed.

Lemma unclaim_row_same org agent t :
  let t' := unclaim_row org agent t in
  t_id t' = t_id t ∧ t_org t' = t_org t ∧ t_status t' = t_status t ∧
  (∀ d, departure_resolves d agent t' = departure_resolves d agent t).
Proof. unfold unclaim_row. by case_decide. Qed.

Lemma departure_events d org agent c l :
  depart_events d agent c
    (filter (λ t, is_active t ∧ t_org t = org) (unclaim_row org agent <$> l)) =
  event_of RAgentDeparture d c ∘ departure_row d org agent c <$> filter (departs d org agent) l.
Proof.
  unfold depart_events.
  rewrite (filter_fmap_stable _ (λ t, is_active t ∧ t_org t = org)).
  2:{ intros x. unfold is_active. by destruct (unclaim_row_same org agent x) as (_ & -> & -> & _). }
  rewrite (filter_fmap_stable _ (λ t, departure_resolves d agent t = true)).
  2:{ intros x. destruct (unclaim_row_same org agent x) as (_ & _ & _ & E). by rewrite E. }
  rewrite (filter_filter_and _ _ (departs d org agent)) by (unfold departs; tauto).
  rewrite <- list_fmap_compose. apply list_fmap_ext.
  intros i x [(Ha & Ho & _) _]%list_elem_of_lookup_2%list_elem_of_filter.
  simpl. unfold departure_row. by rewrite (decide_True (P := is_active x ∧ t_org x = org)).
Qed.

Lemma departure_effect w org agent :
  wf (w_db w) →
  let d := w_db w in
  let w' := run (handleAgentDeparture org agent) w in
  result (handleAgentDeparture org agent) w = Ok () ∧
  db_threads (w_db w') = departure_row d org agent (w_clock w) <$> db_threads d ∧
  db_messages (w_db w') = db_messages d ∧
  w_resolutions w' = w_resolutions w ++
    (event_of RAgentDeparture d (w_clock w) ∘ departure_row d org agent (w_clock w) <$>
       filter (departs d org agent) (db_threads d)).
Proof.
  intros Hwf d w'. subst w'. unfold run, result.
  set (w1 := on_db (on_threads (update_where
    (λ t, t_claimed_by t = Some agent ∧ t_status t = TOpen ∧ t_org t = org)
    (set_claim None None))) w).
  assert (wf (w_db w1)) as Hwf1 by (apply wf_on_threads; [intros; apply row_unclaim|done]).
  set (l := filter (λ t, is_active t ∧ t_org t = org) (db_threads (w_db w1))).
  assert (∀ t, t ∈ l ↔ (is_active t ∧ t_org t = org) ∧ t ∈ db_threads (w_db w1)) as Hl
    by (intros t; unfold l; by rewrite list_elem_of_filter).
  destruct (depart_loop agent org l w1 Hwf1) as (w' & E & Hth & Hm & Hres).
  { apply NoDup_filter_keys, Hwf1. }
  { intros t [[_ ?] ?]%Hl. done. }
  assert (handleAgentDeparture org agent w = (w', Ok ())) as -> by exact E.
  simpl. rewrite Hth, Hm, Hres. split_and!; try done.
  - change (db_threads (w_db w1)) with (unclaim_row org agent <$> db_threads d).
    unfold update_where. rewrite <- list_fmap_compose. apply list_fmap_ext.
    intros i t Ht%list_elem_of_lookup_2. simpl. unfold departure_row.
    assert (unclaim_row org agent t ∈ db_threads (w_db w1)) as Hin
      by by apply (list_elem_of_fmap_2 (unclaim_row org agent)).
    destruct (unclaim_row_same org agent t) as (Eid & Eo & Es & _).
    destruct (decide (is_active t ∧ t_org t = org)) as [Ha|Ha].
    + rewrite decide_True; [done|]. apply list_elem_of_fmap_2, Hl. split; [|done].
      unfold is_active. by rewrite Es, Eo.
    + rewrite decide_False; [done|].
      intros (x & Ex & [Hx Hx']%Hl)%list_elem_of_fmap. apply Ha.
      rewrite (thread_unique _ _ _ Hwf1 Hin Hx' (eq_sym Ex)) in Hx.
      unfold is_active in Hx. by rewrite Es, Eo in Hx.
  - f_equal. apply (departure_events d org agent (w_clock w)).
Qed.

(** The departure of an agent is one batch update of the organisation's
    threads. Its claims on open threads are dropped; it leaves the expected
    respondents of every active thread; a proposed thread that all remaining
    respondents approved and an open thread with no respondent left are
    resolved, each with exactly one "agent_departure" event, in table order.
    Other organisations, finished threads and messages are not touched. *)
Theorem handleAgentDeparture_spec w org agent :
  wf (w_db w) →
  let d := w_db w in
  let w' := run (handleAgentDeparture org agent) w in
  result (handleAgentDeparture org agent) w = Ok () ∧
  db_threads (w_db w') = departure_row d org agent (w_clock w) <$> db_threads d ∧
  db_messages (w_db w') = db_messages d ∧
  w_resolutions w' = w_resolutions w ++
    (event_of RAgentDeparture d (w_clock w) ∘ departure_row d org agent (w_clock w) <$>
       filter (departs d org agent) (db_threads d)).
Proof. apply departure_effect. Qed.

(** ** Concrete runs *)

Definition late : World := run_ops (demo_ops ++ [OpTick 601000]) start.

Lemma wf_run_ops os : wf (w_db (run_ops os start)).
Proof. apply (rtc_wf start); [apply rtc_run_ops|apply wf_empty]. Qed.

Lemma checkTimeouts_spec_witness :
  w_resolutions late = [] ∧
  w_resolutions (run checkTimeouts late) =
    [mkResolution "u0" "default" RTimeout (Some timeout_summary) 1700000000
       (SqlTs 1700000601) None None true].
Proof.
  split; [vm_compute; reflexivity|].
  rewrite (proj1 (proj2 (proj2 (proj2 (checkTimeouts_spec late (wf_run_ops _)))))).
  vm_compute. reflexivity.
Defined.

(** A thread kept open on purpose, and an agent that has nothing to do with it. *)
Definition kept_open : World :=
  run_ops [OpRegister "default" "alice" "Alice" ["src/api"];
           OpRegister "default" "zoe" "Zoe" ["docs"];
           OpAnnounce "default" (mkAnnounce "alice" "queue" None ["src/api"] [] None None
                                   true None None)] start.

Lemma handleAgentDeparture_spec_witness :
  t_status <$> db_threads (w_db kept_open) = [TOpen] ∧
  t_status <$> db_threads (w_db (run (handleAgentDeparture "default" "zoe") kept_open)) =
    [TResolved].
Proof.
  split; [vm_compute; reflexivity|].
  rewrite (proj1 (proj2 (handleAgentDeparture_spec kept_open "default" "zoe" (wf_run_ops _)))).
  vm_compute. reflexivity.
Defined.

End Sweeps.
