(* ===== verification/Lifecycle.v ===== *)
(** * The abstract lifecycle of a thread

    What a consultation promises about one thread, without tables, messages
    or callbacks: a phase (status and round) that moves along six labelled
    transitions, each request being allowed some of them on some threads.
    Every request of the coordinator refines it, and the stability of finished
    threads follows for whole traces. *)

From S2P Require Import Prelude Database Registry Consultation Claims Invariant.
Import Registry Consultation Claims Invariant.
Local Open Scope Z_scope.

Module Lifecycle.

(** ** The abstract machine *)

Inductive label := LPropose | LResolve | LContest | LCancel | LPoison.

Definition phase_state : Type := ThreadStatus * Z.

Inductive lifecycle (max : Z) : label → phase_state → phase_state → Prop :=
  | lc_propose s r : lifecycle max LPropose (s, r) (TResolving, r)
  | lc_resolve s r :
      s = TOpen ∨ s = TResolving → lifecycle max LResolve (s, r) (TResolved, r)
  | lc_contest r :
      r + 1 ≤ max → lifecycle max LContest (TResolving, r) (TOpen, r + 1)
  | lc_exhaust r :
      max < r + 1 → lifecycle max LContest (TResolving, r) (TResolved, r)
  | lc_cancel s r : lifecycle max LCancel (s, r) (TCancelled, r)
  | lc_poison r : lifecycle max LPoison (TOpen, r) (TPoisoned, r).

(** What never changes in a row. *)
Record identity := mkIdentity {
  id_id : string; id_org : string; id_initiator : string; id_max : Z; id_created : Z }.

Definition ident (t : Thread) : identity :=
  mkIdentity (t_id t) (t_org t) (t_initiator t) (t_max_rounds t) (t_created_at t).

Definition phase (t : Thread) : phase_state := (t_status t, t_round t).

(** The transitions a request may take on a thread. *)
Definition allowed (o : op) (i : identity) (l : label) : Prop :=
  match o, l with
  | OpPropose org id _ _, LPropose => id_id i = id ∧ id_org i = org
  | OpApprove org id _ _, LResolve => id_id i = id ∧ id_org i = org
  | OpContest org id _ _, LContest => id_id i = id ∧ id_org i = org
  | OpCancel org id agent _, LCancel => id_id i = id ∧ id_org i = org ∧ id_initiator i = agent
  | OpClose org id agent _, LResolve => id_id i = id ∧ id_org i = org ∧ id_initiator i = agent
  | OpDepart org _, LResolve => id_org i = org
  | OpTimeouts, LResolve => True
  | OpUnclaim org id _, LPoison => id_id i = id ∧ id_org i = org
  | _, _ => False
  end.

Definition abstract_step (o : op) (i : identity) (p q : phase_state) : Prop :=
  ∃ l, allowed o i l ∧ lifecycle (id_max i) l p q.

(** Every thread is still there, with its identity, and moved as allowed. *)
Definition evolves (o : op) (d d' : Db) : Prop :=
  ∀ t, t ∈ db_threads d → ∃ t', t' ∈ db_threads d' ∧ ident t' = ident t ∧
    rtc (abstract_step o (ident t)) (phase t) (phase t').

(** A thread is born in its first round, open or resolved on the spot. *)
Definition born (d d' : Db) : Prop :=
  ∀ t', t' ∈ db_threads d' → t_id t' ∈ t_id <$> db_threads d ∨
    (t_round t' = 1 ∧ (t_status t' = TOpen ∨ t_status t' = TResolved)).

Definition refines (o : op) (d d' : Db) : Prop := wf d → wf d' ∧ evolves o d d'.

(** What one UPDATE may do to a row on behalf of a request. *)
Definition row_refines (o : op) (t t' : Thread) : Prop :=
  row_update t t' ∧ ident t' = ident t ∧
  (phase t' = phase t ∨ abstract_step o (ident t) (phase t) (phase t')).

Definition ids (d : Db) : list string := t_id <$> db_threads d.

(** The requests that may move a finished thread again. *)
Definition reopens (id : string) (o : op) : Prop :=
  match o with
  | OpPropose _ id' _ _ | OpCancel _ id' _ _ => id' = id
  | _ => False
  end.

Definition finished (s : ThreadStatus) : Prop :=
  s = TResolved ∨ s = TCancelled ∨ s = TPoisoned.

#[global] Instance refines_preorder o : PreOrder (refines o).
Proof.
  split.
  - intros d Hwf. split; [done|]. intros t Ht. by exists t.
  - intros d1 d2 d3 H12 H23 Hwf. destruct (H12 Hwf) as [Hwf2 E12].
    destruct (H23 Hwf2) as [Hwf3 E23]. split; [done|]. intros t Ht.
    destruct (E12 t Ht) as (t2 & Ht2 & Hi2 & Hp2).
    destruct (E23 t2 Ht2) as (t3 & Ht3 & Hi3 & Hp3).
    exists t3. rewrite Hi2 in Hp3. split_and!; [done|congruence|by etrans].
Qed.

(** ** Statements *)

(** A handler that leaves [threads] alone refines the machine by stuttering. *)
Lemma refines_same o {A} (m : M A) w :
  respects (keeps wf) m w → respects (same db_threads) m w → respects (refines o) m w.
Proof.
  unfold respects, keeps, same, refines. intros Hk Hs Hwf. split; [by apply Hk|].
  intros t Ht. exists t. by rewrite Hs.
Qed.

Lemma refines_update o P `{!∀ t, Decision (P t)} f w :
  (wf (w_db w) → ∀ t, t ∈ db_threads (w_db w) → P t → row_refines o t (f t)) →
  respects (refines o) (stmt (on_threads (update_where P f))) w.
Proof.
  intros Hf. apply respects_stmt. intros Hwf. specialize (Hf Hwf). split.
  - apply wf_on_threads; [|done]. intros t Ht HP _. by apply Hf.
  - intros t Ht. exists (if decide (P t) then f t else t). split_and!.
    + apply elem_of_update_where. eauto.
    + case_decide as HP; [|done]. by destruct (Hf t Ht HP) as (_ & -> & _).
    + case_decide as HP; [|done].
      destruct (Hf t Ht HP) as (_ & _ & [->|Hs]); [done|by apply rtc_once].
Qed.

Lemma refines_assume o {A} (m : M A) w :
  (wf (w_db w) → respects (refines o) m w) → respects (refines o) m w.
Proof. unfold respects, refines. intros H Hwf. by apply H. Qed.

Lemma threads_sse org e w : respects (same db_threads) (sse_emit org e) w.
Proof. by apply respects_checked_insert; [apply _|]. Qed.

Lemma threads_emitResolution id ty a n w :
  respects (same db_threads) (emitResolution id ty a n) w.
Proof. unfold emitResolution, getThreadCrossOrg, onResolve. effects; apply threads_sse. Qed.

Lemma refines_emit o id ty a n w : respects (refines o) (emitResolution id ty a n) w.
Proof. apply refines_same; [apply wf_emitResolution|apply threads_emitResolution]. Qed.

Lemma refines_sse o org e w : respects (refines o) (sse_emit org e) w.
Proof. apply refines_same; [apply wf_sse_emit|apply threads_sse]. Qed.

Lemma refines_message o org id agent ty c w :
  respects (refines o) (postResolutionMessage org id agent ty c) w.
Proof. apply refines_same; [apply wf_postResolutionMessage|apply threads_postResolutionMessage]. Qed.

#[export] Hint Resolve refines_emit refines_sse refines_message : effects.

(** A read of a thread, then the rest of the handler from the same world. *)
Lemma refines_read o {A} org id (k : option Thread → M A) w :
  (∀ t, t_id t = id → t_org t = org → t ∈ db_threads (w_db w) → wf (w_db w) →
     respects (refines o) (k (Some t)) w) →
  respects (refines o) (k None) w →
  respects (refines o) (mt ← getThread org id; k mt) w.
Proof.
  intros Hk Hn. apply refines_assume. intros Hwf.
  apply respects_bind; [apply _|by apply respects_gets, _|].
  intros [t|] w' Hg.
  - apply getThread_Some in Hg as (-> & Hi & Ho & Ht). by apply Hk.
  - by apply getThread_spec in Hg as [-> _].
Qed.

(** The update of the row that was read, from a world with the same threads. *)
Lemma refines_row o org id t f w d :
  t ∈ db_threads d → wf d → t_id t = id → db_threads (w_db w) = db_threads d →
  row_refines o t (f t) →
  respects (refines o) (stmt (on_threads (update_where (is_thread org id) f))) w.
Proof.
  intros Ht Hwf Hid Hth Hf. apply refines_update. rewrite Hth. intros _ x Hx [E _].
  rewrite (thread_unique d t x Hwf Ht Hx) by congruence. done.
Qed.

(** ** Requests *)

Create HintDb lifecycle.
#[export] Hint Constructors lifecycle : lifecycle.

(** Closes [row_refines]: the row lemma, the identity, the transition. *)
Ltac row_step l :=
  split; [eauto with wf|]; split; [done|]; right; exists l; split; [by simpl|];
  unfold phase; simpl.

Lemma refines_propose org id agent s w :
  respects (refines (OpPropose org id agent s)) (proposeResolution org id agent s) w.
Proof.
  apply refines_read; [|by apply respects_throw, _]. intros t <- <- Ht Hwf.
  case_decide; [by apply respects_throw, _|].
  apply respects_bind; [apply _| |intros; apply refines_message].
  eapply refines_row; [exact Ht|done..|]. row_step LPropose. constructor.
Qed.

Lemma refines_approve org id agent n w :
  respects (refines (OpApprove org id agent n)) (approveResolution org id agent n) w.
Proof.
  apply refines_read; [|by apply respects_throw, _]. intros t Hid Ho Ht Hwf.
  unfold allRespondentsApproved. effects. run_eqs.
  apply refines_update. intros _ x Hx [[??] Hs]. subst. row_step LResolve.
  constructor. by right.
Qed.

Lemma refines_contest org id agent r w :
  respects (refines (OpContest org id agent r)) (contestResolution org id agent r) w.
Proof.
  apply refines_read; [|by apply respects_throw, _]. intros t <- <- Ht Hwf.
  case_decide as Hs; [by apply respects_throw, _|].
  apply respects_bind; [apply _|apply refines_message|]. intros [] w' Hp.
  pose proof (respects_elim _ _ _ _ _ (threads_postResolutionMessage _ _ _ _ _ w) Hp) as Hth.
  cbv zeta. case_decide; effects; run_eqs; (eapply refines_row; [exact Ht|done..|]).
  - row_step LContest. rewrite Hs. constructor. lia.
  - split; [apply row_reopen; lia|]. split; [done|]. right. exists LContest.
    split; [by simpl|]. unfold phase. simpl. rewrite Hs. constructor. lia.
Qed.

Lemma refines_cancel org id agent r w :
  respects (refines (OpCancel org id agent r)) (cancelThread org id agent r) w.
Proof.
  apply refines_read; [|by apply respects_throw, _]. intros t <- <- Ht Hwf.
  case_decide as Hi; [by apply respects_throw, _|].
  effects. run_eqs. eapply refines_row; [exact Ht|done..|]. row_step LCancel. constructor.
Qed.

Lemma refines_close org id agent s w :
  respects (refines (OpClose org id agent s)) (closeThread org id agent s) w.
Proof.
  apply refines_read; [|by apply respects_throw, _]. intros t <- <- Ht Hwf.
  case_decide as Hi; [by apply respects_throw, _|].
  case_decide as Hs; [by apply respects_throw, _|].
  effects. run_eqs. eapply refines_row; [exact Ht|done..|]. row_step LResolve. constructor.
  destruct (t_status t); naive_solver.
Qed.

(** Row updates that do not move the phase. *)
Ltac row_stutter := split; [eauto with wf|]; split; [done|]; by left.

Lemma refines_depart_thread org agent id l w :
  respects (refines (OpDepart org agent)) (departThread org id l) w.
Proof.
  unfold departThread. apply respects_bind; [apply _| |].
  { apply refines_update. intros. row_stutter. }
  intros [] w1 _. apply refines_assume. intros Hwf.
  apply respects_bind; [apply _|by apply respects_gets, _|]. intros [t|] w2 E;
    [|by apply respects_throw, _].
  unfold getThreadCrossOrg, gets in E. injection E as <- E.
  apply select_one_Some in E as [Hid Ht].
  assert (∀ at_, is_active t →
    respects (refines (OpDepart org agent))
      (stmt (on_threads (update_where (is_thread org id) (mark_resolved at_)))) w1) as Hres.
  { intros at_ Ha. apply refines_update. intros _ x Hx [Ex Hx2].
    rewrite (thread_unique _ t x Hwf Ht Hx) in * by congruence. row_step LResolve.
    by constructor. }
  unfold allRespondentsApproved, is_active in *.
  destruct (t_status t) eqn:Hs; simpl; effects; run_eqs; eauto.
Qed.

Lemma refines_depart org agent w :
  respects (refines (OpDepart org agent)) (handleAgentDeparture org agent) w.
Proof.
  unfold handleAgentDeparture. effects.
  - apply refines_update. intros. row_stutter.
  - apply respects_for_each; [apply _|]. intros. apply refines_depart_thread.
Qed.

Lemma refines_timeouts w : respects (refines OpTimeouts) checkTimeouts w.
Proof.
  unfold checkTimeouts. effects; run_eqs.
  - apply refines_update. intros _ t Ht [Ha _]. row_step LResolve. by constructor.
  - apply respects_for_each; [apply _|]. intros. apply refines_emit.
Qed.

Lemma refines_claim o org id agent w :
  respects (refines o) (handleClaimTask org id agent) w.
Proof.
  unfold handleClaimTask, getThread, findClaimFileConflict. effects; run_eqs.
  all: apply refines_update; intros; row_stutter.
Qed.

Lemma refines_unclaim org id agent w :
  respects (refines (OpUnclaim org id agent)) (handleUnclaimTask org id agent) w.
Proof.
  unfold handleUnclaimTask, getThread. effects; run_eqs; apply refines_update.
  - intros. row_stutter.
  - intros _ x Hx [[? ?] Hs]. row_step LPoison. rewrite Hs. constructor.
Qed.

Lemma refines_announce o org p w : respects (refines o) (discard (announceWork org p)) w.
Proof.
  unfold respects. intros Hwf. split.
  - revert Hwf. change (respects (keeps wf) (discard (announceWork org p)) w).
    unfold discard. effects.
  - revert w Hwf. intros w _ t Ht. exists t. split_and!; try done. revert Ht.
    change (respects (keeps (λ d, t ∈ db_threads d)) (discard (announceWork org p)) w).
    unfold discard, announceWork, getThread. effects.
    apply respects_checked_insert; [apply _|]. intros _ _ Ht. simpl.
    apply elem_of_app. by left.
Qed.

Lemma refines_post o org id agent n ty c sn rp w :
  respects (refines o) (discard (postToThread org id agent n ty c sn rp)) w.
Proof.
  unfold discard. effects. apply refines_same; [apply wf_postToThread|].
  unfold postToThread, getThread. effects. by apply respects_checked_insert; [apply _|].
Qed.

Lemma threads_register org agent name modules w :
  respects (same db_threads) (register org agent name modules) w.
Proof.
  unfold register, get. effects; run_eqs; [by apply respects_stmt|].
  by apply respects_checked_insert; [apply _|].
Qed.

Lemma threads_touch P `{!∀ a, Decision (P a)} s now w :
  respects (same db_threads) (stmt (on_agents (update_where P (touch s now)))) w.
Proof. by apply respects_stmt. Qed.

Lemma refines_touch o P `{!∀ a, Decision (P a)} s now w :
  respects (refines o) (stmt (on_agents (update_where P (touch s now)))) w.
Proof. apply refines_same; [apply wf_touch|apply threads_touch]. Qed.

#[export] Hint Resolve refines_propose refines_approve refines_contest refines_cancel
  refines_close refines_depart refines_timeouts refines_claim refines_unclaim
  refines_announce refines_post refines_touch : effects.

Lemma refines_exec o w : respects (refines o) (exec o) w.
Proof.
  destruct o; cbn [exec]; try (unfold Registry.heartbeat, setOnline, setOffline; effects; fail).
  - unfold discard. effects. apply refines_same; [apply wf_register|apply threads_register].
  - unfold discard. effects.
  - unfold discard. effects.
Qed.

(** ** Births *)

Lemma ids_update P `{!∀ t, Decision (P t)} f w :
  (∀ t, t_id (f t) = t_id t) →
  respects (same ids) (stmt (on_threads (update_where P f))) w.
Proof. intros Hf. apply respects_stmt. unfold same, ids. simpl. by rewrite fmap_update_where. Qed.

Lemma ids_same {A} (m : M A) w : respects (same db_threads) m w → respects (same ids) m w.
Proof. unfold respects, same, ids. by intros ->. Qed.

#[export] Hint Extern 2 (respects (same ids) (stmt _) _) => apply ids_update; done : effects.
#[export] Hint Extern 3 (respects (same ids) _ _) =>
  apply ids_same; solve [eauto using threads_emitResolution, threads_postResolutionMessage,
    threads_sse, threads_register, threads_touch with typeclass_instances] : effects.

Lemma ids_departThread org id l w : respects (same ids) (departThread org id l) w.
Proof. unfold departThread, getThreadCrossOrg, allRespondentsApproved. effects. Qed.

(** Only an announcement adds a row. *)
Lemma ids_exec o w :
  (∀ org p, o ≠ OpAnnounce org p) → respects (same ids) (exec o) w.
Proof.
  intros Ho. destruct o; cbn [exec]; unfold discard; try (exfalso; by eapply Ho).
  1: apply respects_tick, _.
  all: unfold Registry.heartbeat, setOnline, setOffline, postToThread, proposeResolution,
    approveResolution, contestResolution, cancelThread, closeThread, handleAgentDeparture,
    checkTimeouts, handleClaimTask, handleUnclaimTask, getThread, findClaimFileConflict,
    allRespondentsApproved; cbv zeta; effects.
  - by apply respects_checked_insert; [apply _|].
  - apply respects_for_each; [apply _|]. intros. apply ids_departThread.
  - apply respects_for_each; [apply _|]. intros. effects.
Qed.

Lemma born_exec o w : born (w_db w) (w_db (run (exec o) w)).
Proof.
  assert ((∃ org p, o = OpAnnounce org p) ∨ ∀ org p, o ≠ OpAnnounce org p)
    as [(org & p & ->)|Hn] by (destruct o; eauto).
  2:{ intros t Ht. left. change (t_id t ∈ ids (w_db w)).
      rewrite <- (ids_exec o w Hn : _ = _).
      by apply list_elem_of_fmap_2. }
  cbn [exec]. unfold discard, announceWork, getThread, run, mbind, M_bind, randomUUID, gets,
    transaction, insert_thread, checked_insert. unfold mbind, M_bind, gets. simpl.
  repeat case_decide; simpl; intros t Ht;
    try (left; by apply list_elem_of_fmap_2).
  apply elem_of_app in Ht as [Ht| ->%list_elem_of_singleton];
    [left; by apply list_elem_of_fmap_2|right]. simpl. split; [done|]. case_match; eauto.
Qed.

(** ** Refinement *)

(** [C16] Every request refines the abstract lifecycle: each thread keeps its
    identity and moves only along transitions the request is allowed on it (a
    contest reopens the next round or, past the last one, resolves; only the
    initiator closes or cancels; a sweep or a departure only resolves active
    threads), and a new thread starts in round 1, open or resolved. *)
Theorem lifecycle_refinement o w :
  wf (w_db w) →
  evolves o (w_db w) (w_db (run (exec o) w)) ∧ born (w_db w) (w_db (run (exec o) w)).
Proof. intros Hwf. split; [by apply (refines_exec o w Hwf)|apply born_exec]. Qed.

Lemma finished_stuck o i s r q :
  finished s → ¬ reopens (id_id i) o → ¬ abstract_step o i (s, r) q.
Proof.
  intros Hs Ho (l & Ha & Hl). unfold finished in Hs.
  inversion Hl; subst; try naive_solver; destruct o; naive_solver.
Qed.

Lemma finished_step o w t :
  wf (w_db w) → t ∈ db_threads (w_db w) → finished (t_status t) → ¬ reopens (t_id t) o →
  ∃ t', t' ∈ db_threads (w_db (run (exec o) w)) ∧ ident t' = ident t ∧ phase t' = phase t.
Proof.
  intros Hwf Ht Hs Ho. destruct (refines_exec o w Hwf) as [_ He].
  destruct (He t Ht) as (t' & Ht' & Hi & Hp). exists t'. split_and!; try done.
  apply rtc_inv in Hp as [Hp|(q & Hq & _)]; [done|]. exfalso.
  by apply (finished_stuck o (ident t) (t_status t) (t_round t) q).
Qed.

(** A finished thread (resolved, cancelled or poisoned) stays as it is,
    status and round, under any sequence of requests that neither proposes a
    resolution on it nor cancels it. *)
Theorem finished_threads_stay os w t :
  wf (w_db w) → t ∈ db_threads (w_db w) → finished (t_status t) →
  Forall (λ o, ¬ reopens (t_id t) o) os →
  ∃ t', t' ∈ db_threads (w_db (run_ops os w)) ∧ ident t' = ident t ∧ phase t' = phase t.
Proof.
  revert w t. induction os as [|o os IH]; intros w t Hwf Ht Hs Hos; [by exists t|].
  inversion Hos as [|?? Ho Hos']; subst.
  destruct (finished_step o w t Hwf Ht Hs Ho) as (t1 & Ht1 & Hi1 & Hp1).
  assert (t_id t1 = t_id t) as Hid by exact (f_equal id_id Hi1).
  assert (t_status t1 = t_status t) as Hst by exact (f_equal fst Hp1).
  destruct (IH (run (exec o) w) t1) as (t2 & Ht2 & Hi2 & Hp2); [by apply wf_exec|done| | |].
  - by rewrite Hst.
  - by rewrite Hid.
  - exists t2. split_and!; [done|congruence..].
Qed.

(** ** Concrete runs *)

Lemma lifecycle_refinement_witness :
  wf (w_db demo) ∧
  ∃ t', t' ∈ db_threads (w_db (run (exec (OpContest "default" "u0" "bob" "no")) demo)) ∧
        phase t' = (TOpen, 2).
Proof.
  assert (wf (w_db demo)) as Hwf by (apply (rtc_wf start); [apply rtc_run_ops|apply wf_empty]).
  split; [exact Hwf|].
  destruct (lifecycle_refinement (OpContest "default" "u0" "bob" "no") demo Hwf) as [He _].
  destruct (db_threads (w_db demo)) as [|t ts] eqn:E; [vm_compute in E; done|].
  destruct (He t) as (t' & Ht' & _ & _); [rewrite E; left|].
  exists t'. split; [exact Ht'|]. vm_compute in Ht'.
  by apply list_elem_of_singleton in Ht' as ->.
Defined.

(** A closed thread; a contest, a late approval, a claim and a sweep leave it. *)
Definition closed : World := run_ops [OpClose "default" "u0" "alice" "done"] demo.

Definition late_requests : list op :=
  [OpContest "default" "u0" "bob" "no"; OpApprove "default" "u0" "bob" None;
   OpClaim "default" "u0" "bob"; OpTick 900000; OpTimeouts; OpDepart "default" "bob"].

Lemma finished_threads_stay_witness :
  ∃ t, t ∈ db_threads (w_db closed) ∧ t_status t = TResolved ∧
  ∃ t', t' ∈ db_threads (w_db (run_ops late_requests closed)) ∧ phase t' = phase t.
Proof.
  destruct (db_threads (w_db closed)) as [|t ts] eqn:E; [vm_compute in E; done|].
  assert (t_status t = TResolved) as Hs by (vm_compute in E; by injection E as <- _).
  assert (t_id t = "u0") as Hid by (vm_compute in E; by injection E as <- _).
  exists t. split; [left|]. split; [done|].
  destruct (finished_threads_stay late_requests closed t) as (t' & Ht' & _ & Hp).
  - apply (rtc_wf demo); [apply rtc_run_ops|].
    apply (rtc_wf start); [apply rtc_run_ops|apply wf_empty].
  - rewrite E. left.
  - by left.
  - rewrite Hid. repeat constructor; intros H; vm_compute in H; done.
  - by exists t'.
Defined.

End Lifecycle.
