(* ===== verification/ClaimSafety.v ===== *)
(** * Exclusive claims

    What the conditional UPDATE behind [claim_task] achieves: it takes the
    thread exactly when its WHERE clause holds, a refusal changes nothing and
    names the conflict that caused it, no two agents hold overlapping threads
    as long as nothing reopens a claimed thread, and a thread released twice is
    withdrawn from the queue. *)

From S2P Require Import Prelude Database Registry Consultation Claims Invariant Protocol.
From S2P Require Import Lifecycle.
Import Registry Consultation Claims Invariant Protocol Lifecycle.
Local Open Scope Z_scope.

Module ClaimSafety.

(** ** Specifications *)

(** Two agents work on disjoint files: open threads of one organisation held
    by different agents have no target file in common. *)
Definition exclusive (d : Db) : Prop :=
  ∀ t o a b, t ∈ db_threads d → o ∈ db_threads d →
    t_status t = TOpen → t_status o = TOpen → t_org t = t_org o →
    t_claimed_by t = Some a → t_claimed_by o = Some b → a ≠ b →
    overlap (json_each (t_target_files t)) (json_each (t_target_files o)) = [].

Definition safe_db (d : Db) : Prop := wf d ∧ exclusive d.

(** A row update that does not put a thread into anyone's hands. *)
Definition hands_off (t t' : Thread) : Prop :=
  t_org t' = t_org t ∧ t_target_files t' = t_target_files t ∧
  (t_status t' = TOpen → ∀ a, t_claimed_by t' = Some a →
     t_status t = TOpen ∧ t_claimed_by t = Some a).

Definition is_contest (o : op) : Prop :=
  match o with OpContest _ _ _ _ => True | _ => False end.

(** ** The overlap test *)

Lemma overlap_nil xs ys : overlap xs ys = [] ↔ ∀ f, f ∈ xs → f ∉ ys.
Proof.
  unfold overlap. split.
  - intros E f Hx Hy. assert (f ∈ filter (λ f, f ∈ ys) xs) as Hf by by apply list_elem_of_filter.
    rewrite E in Hf. by apply not_elem_of_nil in Hf.
  - intros Hd. destruct (filter _ xs) as [|f l] eqn:E; [done|].
    assert (f ∈ filter (λ f, f ∈ ys) xs) as [Hy Hx]%list_elem_of_filter by (rewrite E; left).
    by apply Hd in Hx.
Qed.

Lemma overlap_comm xs ys : overlap xs ys = [] → overlap ys xs = [].
Proof. rewrite !overlap_nil. intros H f Hy Hx. by apply (H f). Qed.

(** ** Preservation *)

Lemma exclusive_update P `{!∀ t, Decision (P t)} f w :
  (∀ t, t ∈ db_threads (w_db w) → P t → row_update t (f t) ∧ hands_off t (f t)) →
  respects (keeps safe_db) (stmt (on_threads (update_where P f))) w.
Proof.
  intros Hf. apply respects_stmt. intros [Hwf Hx]. split.
  { apply wf_on_threads; [|done]. intros t Ht HP _. by apply Hf. }
  intros t' o' a b (t & Ht & ->)%elem_of_update_where (o & Ho & ->)%elem_of_update_where.
  assert (∀ x, x ∈ db_threads (w_db w) → hands_off x (if decide (P x) then f x else x)) as HH.
  { intros x Hin. case_decide as HP; [by apply Hf|]. unfold hands_off. naive_solver. }
  destruct (HH t Ht) as (-> & -> & Ht'), (HH o Ho) as (-> & -> & Ho').
  intros St So Eo Ca Cb Hab. destruct (Ht' St a Ca), (Ho' So b Cb). by apply (Hx t o a b).
Qed.

Lemma safe_other {A} (m : M A) w :
  respects (keeps wf) m w → respects (same db_threads) m w → respects (keeps safe_db) m w.
Proof.
  unfold respects, keeps, same. intros Hk Hs [Hwf Hx]. split; [by apply Hk|].
  unfold exclusive. rewrite Hs. exact Hx.
Qed.

(** The new holder's files are disjoint from everyone else's: that is the
    NOT EXISTS of the statement. *)
Lemma safe_claim org id agent at_ w :
  respects (keeps safe_db) (stmt (on_threads
    (update_where (claim_where org id agent (db_threads (w_db w)))
       (set_claim (Some agent) (Some at_))))) w.
Proof.
  apply respects_stmt. intros [Hwf Hx]. split; [apply wf_on_threads; eauto with wf|].
  set (P := claim_where org id agent (db_threads (w_db w))).
  assert (∀ t o b, t ∈ db_threads (w_db w) → o ∈ db_threads (w_db w) → P t → ¬ P o →
    t_status o = TOpen → t_org t = t_org o → t_claimed_by o = Some b → agent ≠ b →
    overlap (json_each (t_target_files t)) (json_each (t_target_files o)) = []) as Hnew.
  { intros t o b Ht Ho [[[Hid Ho1] Hc] Hb] HPo So Eo Cb Hab. apply dec_stable. intros Hov.
    apply Hb, Exists_exists. exists o. split; [done|]. split; [|done].
    unfold held_by_other. rewrite Cb. split_and!; try done; [|naive_solver].
    intros E. apply HPo. rewrite (thread_unique _ t o Hwf Ht Ho E).
    split; [|done]. by split. }
  intros t' o' a b (t & Ht & ->)%elem_of_update_where (o & Ho & ->)%elem_of_update_where.
  fold P. destruct (decide (P t)) as [HPt|HPt], (decide (P o)) as [HPo|HPo]; simpl;
    intros St So Eo Ca Cb Hab; simplify_eq.
  - by eapply Hnew.
  - apply overlap_comm. by eapply Hnew.
  - by eapply Hx.
Qed.

Lemma safe_assume {A} (m : M A) w :
  (wf (w_db w) → respects (keeps safe_db) m w) → respects (keeps safe_db) m w.
Proof. unfold respects, keeps. intros H [Hwf Hx]. by apply H. Qed.

Lemma safe_emit id ty a n w : respects (keeps safe_db) (emitResolution id ty a n) w.
Proof. apply safe_other; [apply wf_emitResolution|apply threads_emitResolution]. Qed.

Lemma safe_message org id agent ty c w :
  respects (keeps safe_db) (postResolutionMessage org id agent ty c) w.
Proof. apply safe_other; [apply wf_postResolutionMessage|apply threads_postResolutionMessage]. Qed.

Lemma safe_sse org e w : respects (keeps safe_db) (sse_emit org e) w.
Proof. apply safe_other; [apply wf_sse_emit|apply threads_sse]. Qed.

Lemma safe_touch P `{!∀ a, Decision (P a)} s now w :
  respects (keeps safe_db) (stmt (on_agents (update_where P (touch s now)))) w.
Proof. apply safe_other; [apply wf_touch|apply threads_touch]. Qed.

Lemma safe_register org agent name modules w :
  respects (keeps safe_db) (register org agent name modules) w.
Proof. apply safe_other; [apply wf_register|apply threads_register]. Qed.

Lemma safe_postToThread org id agent n ty c sn rp w :
  respects (keeps safe_db) (postToThread org id agent n ty c sn rp) w.
Proof.
  apply safe_other; [apply wf_postToThread|]. unfold postToThread, getThread. effects.
  by apply respects_checked_insert; [apply _|].
Qed.

Lemma safe_announceWork org p w : respects (keeps safe_db) (announceWork org p) w.
Proof.
  unfold respects. intros [Hwf Hx]. split; [by apply wf_announceWork|]. revert Hx.
  change (respects (keeps exclusive) (announceWork org p) w).
  unfold announceWork, getThread. effects. apply respects_checked_insert; [apply _|].
  intros _ _ Hx t o u v Ht Ho. simpl in Ht, Ho.
  apply elem_of_app in Ht as [Ht| ->%list_elem_of_singleton], Ho as [Ho| ->%list_elem_of_singleton];
    [by apply Hx|done..].
Qed.

(** Closes the row condition of [exclusive_update]: the row lemma, then the columns. *)
Ltac hands_off :=
  apply exclusive_update; intros; split; [eauto with wf|]; unfold hands_off; simpl; naive_solver.

#[export] Hint Resolve safe_emit safe_message safe_sse safe_touch safe_register
  safe_postToThread safe_announceWork : effects.
#[export] Hint Extern 2 (respects (keeps safe_db) (stmt (on_threads _)) _) => hands_off : effects.

Lemma safe_departThread org id l w : respects (keeps safe_db) (departThread org id l) w.
Proof. unfold departThread, getThreadCrossOrg, allRespondentsApproved. effects. Qed.

Lemma safe_handleClaimTask org id agent w :
  respects (keeps safe_db) (handleClaimTask org id agent) w.
Proof.
  unfold handleClaimTask. apply respects_bind; [apply _|by apply respects_gets, _|].
  intros now w1 E1. apply respects_bind; [apply _|by apply respects_gets, _|].
  intros ts w2 E2. run_eqs. case_decide; [by apply respects_throw, _|].
  apply respects_bind; [apply _|apply safe_claim|]. intros [] w3 _.
  unfold getThread, findClaimFileConflict. effects.
Qed.

(** Every request but a contest keeps the claims exclusive. *)
Lemma safe_exec o w : ¬ is_contest o → respects (keeps safe_db) (exec o) w.
Proof.
  intros Hc. destruct o; cbn [exec]; unfold discard, Registry.heartbeat, setOnline, setOffline;
    try (by destruct Hc); try (effects; fail).
  - unfold proposeResolution, getThread. effects.
  - unfold approveResolution, getThread, allRespondentsApproved. effects.
  - unfold cancelThread, getThread. effects.
  - unfold closeThread, getThread. effects.
  - unfold handleAgentDeparture. effects. apply respects_for_each; [apply _|].
    intros. apply safe_departThread.
  - unfold checkTimeouts. effects. apply respects_for_each; [apply _|]. intros. apply safe_emit.
  - effects. apply safe_handleClaimTask.
  - unfold handleUnclaimTask, getThread. effects.
Qed.

Lemma exclusive_run os w :
  Forall (λ o, ¬ is_contest o) os → safe_db (w_db w) → safe_db (w_db (run_ops os w)).
Proof.
  revert w. induction os as [|o os IH]; intros w Hos Hw; [done|].
  inversion Hos; subst. apply IH; [done|]. by apply safe_exec.
Qed.

(** [C17] Mutual exclusion of claims: from a fresh installation, under any
    sequence of requests without a contest, two open threads of the same
    organisation held by different agents never target a common file. *)
Theorem claims_exclusive orgs clock ttl uuid os :
  Forall (λ o, ¬ is_contest o) os →
  exclusive (w_db (run_ops os (initial orgs clock ttl uuid))).
Proof.
  intros Hos. apply exclusive_run; [done|]. split; [apply wf_empty|].
  intros t o a b Ht. by apply not_elem_of_nil in Ht.
Qed.

(** ** The claim, branch by branch *)

(** Malformed JSON cannot occur in well-formed tables. *)
Lemma not_malformed org id agent w :
  wf (w_db w) → ¬ claim_malformed org id agent (db_threads (w_db w)).
Proof.
  intros [] Hm. apply Exists_exists in Hm as (t & Ht & _ & (o & Ho & _ & Hb)%Exists_exists).
  rewrite Forall_forall in wf_threads0.
  destruct (wf_threads0 t Ht) as (_ & _ & _ & _ & ? & _),
    (wf_threads0 o Ho) as (_ & _ & _ & _ & ? & _). naive_solver.
Qed.

Lemma claim_changes org id agent w t :
  wf (w_db w) → thread_of org id w = Some t →
  changes (claim_where org id agent (db_threads (w_db w))) (db_threads (w_db w)) =
    if decide (claim_where org id agent (db_threads (w_db w)) t) then 1%nat else 0%nat.
Proof.
  intros Hwf Hr. destruct (thread_of_Some _ _ _ _ Hr) as (Hid & Ho & Ht). unfold changes.
  case_decide as HP.
  - rewrite (NoDup_filter_single t_id _ _ t); [done|apply Hwf|done|done|].
    intros y [[[Hy _] _] _]. congruence.
  - destruct (filter _ _) as [|x l] eqn:E; [done|]. exfalso.
    assert (x ∈ filter (claim_where org id agent (db_threads (w_db w))) (db_threads (w_db w)))
      as [Hx Hxl]%list_elem_of_filter by (rewrite E; left).
    apply HP. rewrite <- (thread_unique _ t x Hwf Ht Hxl); [done|].
    destruct Hx as [[[Hx _] _] _]. congruence.
Qed.

(** A claim takes the thread exactly when the thread is open, unclaimed,
    free or reserved for the agent, and no other agent of the organisation
    holds an open thread with a common file. Then exactly its claim columns
    change and the claim is announced; otherwise the refusal leaves the world
    as it was and reports the holder, the assignee and the status. *)
Theorem claim_spec org id agent w t :
  wf (w_db w) → thread_of org id w = Some t →
  let w' := run (handleClaimTask org id agent) w in
  if decide (claim_where org id agent (db_threads (w_db w)) t) then
    result (handleClaimTask org id agent) w = Ok ClaimOk ∧
    db_threads (w_db w') =
      update_where (λ x, t_id x = t_id t) (set_claim (Some agent) (Some (IsoTs (w_clock w))))
        (db_threads (w_db w)) ∧
    w_bridge w' = w_bridge w ++ [BrTaskClaimed org id agent] ∧
    e_event <$> last (db_events (w_db w')) = Some (EvTaskClaimed id agent)
  else
    w' = w ∧
    ∃ conflict, result (handleClaimTask org id agent) w =
      Ok (ClaimRefused (truthy (t_claimed_by t)) (truthy (t_assigned_to t))
            (Some (t_status t)) conflict).
Proof.
  intros Hwf Hr w'. destruct (thread_of_Some _ _ _ _ Hr) as (Hid & Ho & Ht).
  subst w'. unfold run, result, handleClaimTask.
  rewrite !bind_gets, (decide_False (P := claim_malformed _ _ _ _)) by by apply not_malformed.
  rewrite bind_stmt.
  rewrite (claim_changes org id agent w t Hwf Hr).
  case_decide as HP.
  - simpl. unfold mbind, M_bind, bridge. rewrite sse_eval.
    2:{ simpl. rewrite <- Ho. by apply thread_org_known. }
    simpl. split_and!; try done.
    + apply (only_row w t); [done..|]. intros x [[[Hx _] _] _]. congruence.
    + by rewrite last_snoc.
  - assert (on_db (on_threads (update_where (claim_where org id agent (db_threads (w_db w)))
      (set_claim (Some agent) (Some (IsoTs (w_clock w)))))) w = w) as E.
    { destruct w as [c tt u n d rs br], d. unfold on_db, on_threads. simpl in *.
      rewrite update_where_none; [done|]. intros x Hx HPx. apply HP.
      rewrite <- (thread_unique _ t x Hwf Ht Hx); [done|].
      destruct HPx as [[[Hx' _] _] _]. congruence. }
    rewrite E. simpl. unfold mbind, M_bind, getThread, findClaimFileConflict, gets.
    unfold thread_of in Hr. rewrite Hr. split; [done|]. by eexists.
Qed.

(** ** The explanation of a refusal *)

Lemma first_overlap_None wanted held :
  first_overlap wanted held = None ↔
  ∀ o, o ∈ held → overlap wanted (safeJsonParse (t_target_files o)) = [].
Proof.
  unfold first_overlap. induction held as [|o l IH]; simpl.
  - split; [by intros _ o ?%not_elem_of_nil|done].
  - case_decide as Hd; simpl.
    + rewrite IH. split; [|intros H x Hx; apply H; by right].
      intros H x [->|Hx]%elem_of_cons; [done|by apply H].
    + split; [done|]. intros H. destruct Hd. apply H. left.
Qed.

Lemma first_overlap_Some wanted held oid files :
  first_overlap wanted held = Some (oid, files) →
  ∃ o, o ∈ held ∧ t_id o = oid ∧ files = overlap wanted (safeJsonParse (t_target_files o)) ∧
       files ≠ [].
Proof.
  unfold first_overlap. induction held as [|o l IH]; simpl; [done|].
  case_decide as Hd; simpl.
  - intros (x & Hx & ?)%IH. exists x. split; [by right|done].
  - intros [= <- <-]. exists o. split; [left|done].
Qed.

(** The explanation the handler computes in JavaScript agrees with the
    guard it evaluates in SQL: it names a conflict exactly when some thread
    blocks the claim, and then that thread and the files both target. *)
Theorem conflict_explains org id agent w t :
  thread_of org id w = Some t →
  match result (findClaimFileConflict org id agent) w with
  | Ok None => ¬ Exists (blocks agent t) (db_threads (w_db w))
  | Ok (Some (oid, files)) =>
      Exists (λ o, blocks agent t o ∧ t_id o = oid ∧
        ∀ f, f ∈ files ↔ f ∈ json_each (t_target_files t) ∧ f ∈ json_each (t_target_files o))
        (db_threads (w_db w))
  | Throw _ => False
  end.
Proof.
  intros Hr. destruct (thread_of_Some _ _ _ _ Hr) as (Hid & Ho & Ht).
  unfold result, findClaimFileConflict, gets. simpl. unfold thread_of in Hr. rewrite Hr.
  case_decide as Hw.
  { intros (o & _ & _ & Hov)%Exists_exists. unfold json_each in Hov. by rewrite Hw in Hov. }
  destruct (first_overlap _ _) as [[oid files]|] eqn:E.
  - apply first_overlap_Some in E as (o & [Hh Hol]%elem_of_select & Eid & -> & Hne).
    apply Exists_exists. exists o. split; [done|]. split; [by split; [rewrite Ho, Hid|]|].
    split; [done|]. intros f. unfold overlap. rewrite list_elem_of_filter. unfold json_each. tauto.
  - rewrite first_overlap_None in E. intros (o & Hol & Hh & Hov)%Exists_exists.
    apply Hov, E, elem_of_select. by rewrite Ho, Hid in Hh.
Qed.

(** ** Releasing a thread *)

Lemma read_released org id w t f P `{!∀ x, Decision (P x)} :
  wf (w_db w) → thread_of org id w = Some t → P t →
  (∀ x, t_id (f x) = t_id x ∧ t_org (f x) = t_org x) →
  select_one (is_thread org id) (update_where P f (db_threads (w_db w))) = Some (f t).
Proof.
  intros Hwf Hr HP Hf. rewrite select_one_update_where.
  - unfold thread_of in Hr. rewrite Hr. simpl. by rewrite decide_True.
  - intros x. unfold is_thread. by destruct (Hf x) as [-> ->].
Qed.

(** Releasing a thread succeeds exactly for the agent that holds it open:
    the claim is dropped and counted, and the second release withdraws the
    thread as poisoned. Any other release changes nothing. *)
Theorem unclaim_spec org id agent w t :
  wf (w_db w) → thread_of org id w = Some t →
  let w' := run (handleUnclaimTask org id agent) w in
  let r := result (handleUnclaimTask org id agent) w in
  let poisoned := bool_decide (2 ≤ default 0 (t_unclaim_count t) + 1) in
  if decide (t_claimed_by t = Some agent ∧ t_status t = TOpen) then
    r = Ok (mkUnclaim true poisoned) ∧
    db_threads (w_db w') =
      update_where (λ x, t_id x = t_id t)
        (λ x, if poisoned then set_status TPoisoned (release x) else release x)
        (db_threads (w_db w))
  else w' = w ∧ r = Ok (mkUnclaim false false).
Proof.
  intros Hwf Hr w' r poisoned. destruct (thread_of_Some _ _ _ _ Hr) as (Hid & Ho & Ht).
  subst w' r. unfold run, result, handleUnclaimTask. rewrite bind_gets, bind_stmt.
  assert (∀ x, is_held org id agent x → t_id x = t_id t) as Hkey
    by (intros x [[E _] _]; congruence).
  case_decide as Hh.
  - assert (is_held org id agent t) as HP by by split.
    assert (changes (is_held org id agent) (db_threads (w_db w)) = 1%nat) as ->.
    { unfold changes. rewrite (NoDup_filter_single t_id _ _ t); [done|apply Hwf|done..]. }
    rewrite decide_True by done. unfold getThread. rewrite bind_gets. simpl.
    rewrite (read_released org id w t release); [|done|done|done|by intros x].
    unfold POISON_THRESHOLD. subst poisoned. case_decide as Hc; simpl in *;
      rewrite (only_row w t (is_held org id agent) release) by done.
    + rewrite bool_decide_eq_true_2 by done. split; [done|].
      etrans; [|apply (update_where_twice (λ x, t_id x = t_id t) release (set_status TPoisoned));
        by intros x].
      apply update_where_ext; [|done].
      intros x (y & Hy & ->)%elem_of_update_where. unfold is_thread. case_decide as Hyt.
      * rewrite (thread_unique _ t y Hwf Ht Hy Hyt) in *. simpl. naive_solver.
      * split; [intros [[E _] _]|]; congruence.
    + rewrite bool_decide_eq_false_2 by done. done.
  - assert (∀ x, x ∈ db_threads (w_db w) → ¬ is_held org id agent x) as Hno.
    { intros x Hx HP. apply Hh. rewrite <- (thread_unique _ t x Hwf Ht Hx (Hkey x HP)).
      by destruct HP. }
    assert (changes (is_held org id agent) (db_threads (w_db w)) ≠ 1%nat) as Hc.
    { intros E. assert (0 < changes (is_held org id agent) (db_threads (w_db w)))%nat as Hp by lia.
      apply changes_pos in Hp as (x & Hx & HP). by apply (Hno x). }
    rewrite decide_False by done. simpl. split; [|done].
    destruct w as [c tt u n d rs br], d. unfold on_db, on_threads. simpl in *.
    by rewrite update_where_none.
Qed.

(** ** Concrete runs *)

Definition task (file : string) : AnnounceParams :=
  mkAnnounce "alice" "task" None ["src"] [file] None None true None None.

(** Three agents; u0 and u1 target the same file. *)
Definition queue_ops : list op :=
  [OpRegister "default" "alice" "Alice" ["src/api"];
   OpRegister "default" "bob" "Bob" ["docs"];
   OpRegister "default" "carol" "Carol" ["docs"];
   OpAnnounce "default" (task "a.ts");
   OpAnnounce "default" (task "a.ts");
   OpClaim "default" "u0" "bob"].

Definition queue : World := run_ops queue_ops start.

Lemma wf_queue : wf (w_db queue).
Proof. apply (rtc_wf start); [apply rtc_run_ops|apply wf_empty]. Qed.

Lemma claims_exclusive_witness :
  t_claimed_by <$> db_threads (w_db (run_ops (queue_ops ++ [OpClaim "default" "u1" "carol"]) start))
    = [Some "bob"; None] ∧
  exclusive (w_db (run_ops (queue_ops ++ [OpClaim "default" "u1" "carol"]) start)).
Proof.
  split; [vm_compute; reflexivity|].
  apply (claims_exclusive ["default"] 1700000000000 EnvUnset uuid_of).
  repeat constructor; intros [].
Defined.

Lemma claim_spec_witness :
  (∃ t, thread_of "default" "u1" queue = Some t ∧ t_claimed_by t = None) ∧
  run (handleClaimTask "default" "u1" "carol") queue = queue.
Proof.
  destruct (thread_of "default" "u1" queue) as [t|] eqn:E; [|vm_compute in E; done].
  split.
  { exists t. split; [reflexivity|]. vm_compute in E. by injection E as <-. }
  pose proof (claim_spec "default" "u1" "carol" queue t wf_queue E) as H. cbv zeta in H.
  rewrite decide_False in H; [apply H|].
  vm_compute in E. injection E as <-. apply (bool_decide_unpack _). vm_compute. reflexivity.
Defined.

Lemma conflict_explains_witness :
  ∃ t, thread_of "default" "u1" queue = Some t ∧
  Exists (λ o, blocks "carol" t o ∧ t_id o = "u0") (db_threads (w_db queue)).
Proof.
  destruct (thread_of "default" "u1" queue) as [t|] eqn:E; [|vm_compute in E; done].
  exists t. split; [reflexivity|].
  pose proof (conflict_explains "default" "u1" "carol" queue t E) as H.
  assert (result (findClaimFileConflict "default" "u1" "carol") queue =
    Ok (Some ("u0", ["a.ts"]))) as Hr by (vm_compute; reflexivity).
  rewrite Hr in H. eapply Exists_impl; [exact H|]. intros o (Hb & Ho & _). split; assumption.
Defined.

Lemma unclaim_spec_witness :
  ∃ t, thread_of "default" "u0" queue = Some t ∧
  result (handleUnclaimTask "default" "u0" "bob") queue = Ok (mkUnclaim true false).
Proof.
  destruct (thread_of "default" "u0" queue) as [t|] eqn:E; [|vm_compute in E; done].
  exists t. split; [reflexivity|].
  pose proof (unclaim_spec "default" "u0" "bob" queue t wf_queue E) as H. cbv zeta in H.
  vm_compute in E. injection E as <-. rewrite decide_True in H by (split; reflexivity).
  exact (proj1 H).
Defined.

(** A contest breaks the exclusion: bob holds u0 and proposes its
    resolution, so the claim guard no longer sees it; carol claims u1, which
    targets the same file; her contest reopens u0, still claimed by bob. *)
Theorem contest_breaks_exclusion :
  let w := run_ops [OpPropose "default" "u0" "bob" "done"; OpClaim "default" "u1" "carol";
                    OpContest "default" "u0" "carol" "not yet"] queue in
  (λ t, (t_status t, t_claimed_by t)) <$> db_threads (w_db w) =
    [(TOpen, Some "bob"); (TOpen, Some "carol")] ∧ ¬ exclusive (w_db w).
Proof.
  intros w. eassert (db_threads (w_db w) = _) as Hth by (vm_compute; reflexivity).
  clearbody w. unfold exclusive. rewrite Hth. split; [reflexivity|]. intros Hx.
  assert (["a.ts"] = []) as Habs; [|discriminate Habs].
  refine (Hx _ _ "bob" "carol" (list_elem_of_here _ _)
    (list_elem_of_further _ _ _ (list_elem_of_here _ _)) _ _ _ _ _ _); try reflexivity.
  discriminate.
Qed.

End ClaimSafety.
