(* ===== verification/FileTracking.v ===== *)
(** * Files: the edit log and the files in flight
    ([src/file-tracker.ts], [src/working-files-tracker.ts])

    [FileTracker] appends to [file_activity] and answers who touched a file
    recently; [WorkingFilesTracker] keeps the files being edited right now,
    with an expiry. The batched index is proved equal to one query per file,
    the round trip of the hot file list through [GROUP_CONCAT] is settled, and
    the expiry sweep is proved invisible to readers. *)

From S2P Require Import Prelude Database Invariant.
Import Invariant.
Local Open Scope Z_scope.

(** The reverse index [Map<file, Set<agent>>] both trackers build from
    [SELECT DISTINCT file_path, agent_id] rows. *)
Definition index_add (idx : jsmap (list string)) (r : string * string) : jsmap (list string) :=
  map_set r.1 (set_add r.2 (default [] (map_get r.1 idx))) idx.

Definition build_index (rows : list (string * string)) : jsmap (list string) :=
  foldl index_add [] rows.

(** ** Lemmas on the index *)

Lemma build_index_snoc rows r : build_index (rows ++ [r]) = index_add (build_index rows) r.
Proof. unfold build_index. by rewrite foldl_app. Qed.

(** The entry of a file: its agents in row order, or nothing. *)
Lemma build_index_get rows f :
  NoDup rows →
  map_get f (build_index rows) =
    match snd <$> filter (λ r, r.1 = f) rows with [] => None | a :: l => Some (a :: l) end.
Proof.
  induction rows as [|[g a] rows IH] using rev_ind; intros Hnd; [done|].
  apply NoDup_app in Hnd as (Hnd & Hx & _). specialize (IH Hnd).
  rewrite build_index_snoc. unfold index_add. cbn [fst snd].
  rewrite map_get_set, filter_app, fmap_app, filter_cons, filter_nil. cbn [fst].
  destruct (decide (f = g)) as [<-|Hfg].
  - rewrite decide_True by done. rewrite IH. simpl. rewrite set_add_notin.
    + by destruct (snd <$> filter (λ r, r.1 = f) rows).
    + intros Ha. assert (a ∈ snd <$> filter (λ r, r.1 = f) rows) as Ha'.
      { by destruct (snd <$> filter (λ r, r.1 = f) rows); [apply not_elem_of_nil in Ha|]. }
      apply list_elem_of_fmap in Ha' as ([f' a'] & -> & [Hf Hr]%list_elem_of_filter).
      simpl in *. subst f'. apply (Hx _ Hr). left.
  - rewrite decide_False by done. by rewrite app_nil_r, IH.
Qed.

(** The distinct (file, agent) pairs of a file are its distinct agents. *)
Lemma distinct_pairs {A} (file agent : A → string) (l : list A) f :
  snd <$> filter (λ r, r.1 = f) (dedup ((λ x, (file x, agent x)) <$> l)) =
    dedup (agent <$> filter (λ x, file x = f) l).
Proof.
  rewrite filter_dedup, fmap_dedup.
  - f_equal. induction l as [|x l IH]; [done|].
    rewrite fmap_cons, !filter_cons. cbn [fst]. case_decide; [|done].
    by rewrite !fmap_cons, IH.
  - intros [f1 a1] [f2 a2] [E1 _]%list_elem_of_filter [E2 _]%list_elem_of_filter.
    simpl in *. congruence.
Qed.

Module FileTracker.

(** ** Modules of files *)

(** [filePath.replace(/^\/+/, "")]. *)
Fixpoint strip_slashes (s : string) : string :=
  match s with
  | String "/" s => strip_slashes s
  | _ => s
  end.

Definition fileToModule (filePath : string) : string :=
  match split_on "/" (strip_slashes filePath) with
  | p :: q :: _ => if String.eqb p "" then "" else join "/" [p; q]
  | _ => ""
  end.

(** ** The log *)

Definition log (org session agent : string) (agent_name : option string) (tool path : string)
    (content_hash : option string) (symbols : option (list string)) : M unit :=
  now ← gets now_sec;
  checked_insert (λ _, True) (λ d, org ∈ db_orgs d)
    (add_file (λ id, mkFileActivity id org session agent (truthy agent_name) tool path
       (fileToModule path) (truthy content_hash)
       match symbols with Some l => JText l | None => JNull end now)).

Definition oldest_file_first (a b : FileActivity) : Prop := f_created_at a ≤ f_created_at b.

#[global] Instance oldest_file_first_dec : RelDecision oldest_file_first.
Proof. intros a b. unfold oldest_file_first. apply _. Defined.

Definition getBySession (org session : string) : M (list FileActivity) :=
  gets (λ w, merge_sort oldest_file_first
    (select (λ f, f_org f = org ∧ f_session f = session) (db_files (w_db w)))).

(** [created_at > datetime('now', '-' || m || ' minutes')]. *)
Definition within (now minutes : Z) (f : FileActivity) : Prop := now - 60 * minutes < f_created_at f.

#[global] Instance within_dec now minutes f : Decision (within now minutes f).
Proof. unfold within. apply _. Defined.

Definition recent (org : string) (now minutes : Z) (l : list FileActivity) : list FileActivity :=
  select (λ f, f_org f = org ∧ within now minutes f) l.

Record HotFile := mkHot { h_path : string; h_count : nat; h_agents : list string }.

Definition hotter (a b : HotFile) : Prop := (h_count b ≤ h_count a)%nat.

#[global] Instance hotter_dec : RelDecision hotter.
Proof. intros a b. unfold hotter. apply _. Defined.

(** The distinct agents of one file. *)
Definition agents_of (path : string) (rows : list FileActivity) : list string :=
  dedup (f_agent <$> select (λ f, f_path f = path) rows).

(** [GROUP BY file_path HAVING COUNT(DISTINCT agent_id) > 1]; the agents travel
    through [GROUP_CONCAT] and [split(",")]. *)
Definition getHotFiles (org : string) (sinceMinutes : Z) : M (list HotFile) :=
  gets (λ w,
    let rows := recent org (now_sec w) sinceMinutes (db_files (w_db w)) in
    merge_sort hotter
      ((λ path, mkHot path (length (agents_of path rows))
                  (split_on "," (join "," (agents_of path rows)))) <$>
         filter (λ path, (1 < length (agents_of path rows))%nat) (dedup (f_path <$> rows)))).

Definition checkFileConflict (org path agent : string) (withinMinutes : Z)
    : M (bool * list string) :=
  gets (λ w,
    let rows := dedup (f_agent <$> select (λ f, f_org f = org ∧ f_path f = path ∧
                  f_agent f ≠ agent ∧ within (now_sec w) withinMinutes f) (db_files (w_db w))) in
    (bool_decide (rows ≠ []), rows)).

Definition getFileToAgentsIndex (org : string) (paths : list string) (exclude : string)
    (withinMinutes : Z) : M (jsmap (list string)) :=
  if decide (paths = []) then mret []
  else gets (λ w, build_index (dedup ((λ f, (f_path f, f_agent f)) <$>
         select (λ f, f_org f = org ∧ f_path f ∈ paths ∧ f_agent f ≠ exclude ∧
                  within (now_sec w) withinMinutes f) (db_files (w_db w))))).

(** ** Theorems *)

(** The batched index is the per file query: for every requested file it
    holds exactly what [checkFileConflict] answers for it (no entry when there
    is no conflict), and it holds nothing for other files. *)
Theorem index_is_per_file_query org paths exclude m w f :
  ∃ idx conflict agents,
    getFileToAgentsIndex org paths exclude m w = (w, Ok idx) ∧
    checkFileConflict org f exclude m w = (w, Ok (conflict, agents)) ∧
    map_get f idx = (if decide (f ∈ paths) then if conflict then Some agents else None else None).
Proof.
  unfold getFileToAgentsIndex, checkFileConflict. case_decide as Hp.
  { subst paths. eexists _, _, _. split_and!; [reflexivity..|].
    rewrite decide_False; [done|]. apply not_elem_of_nil. }
  eexists _, _, _. split_and!; [reflexivity..|].
  rewrite build_index_get by apply NoDup_dedup. rewrite distinct_pairs. unfold select.
  destruct (decide (f ∈ paths)) as [Hf|Hf].
  - rewrite (filter_filter_and _ _ (λ x, f_org x = org ∧ f_path x = f ∧ f_agent x ≠ exclude ∧
      within (now_sec w) m x)) by naive_solver.
    by destruct (dedup _).
  - rewrite (filter_filter_and _ _ (λ _, False)) by naive_solver.
    assert (∀ l : list FileActivity, filter (λ _, False) l = []) as E.
    { induction l as [|x l IH]; [done|]. by rewrite filter_cons_False by tauto. }
    by rewrite E.
Qed.

(** A file is hot exactly when two agents touched it in the window, the
    list is ordered by how many did, and the agents reported for a file are
    the distinct agents that did, provided no agent id contains the comma that
    [GROUP_CONCAT] separates them with. *)
Theorem getHotFiles_spec org m w :
  let rows := recent org (now_sec w) m (db_files (w_db w)) in
  Forall (λ f, has_char "," (f_agent f) = false) rows →
  ∃ hot, getHotFiles org m w = (w, Ok hot) ∧ Sorted hotter hot ∧
    ∀ h, h ∈ hot ↔
      (1 < h_count h)%nat ∧ h_count h = length (h_agents h) ∧
      h_agents h = agents_of (h_path h) rows.
Proof.
  intros rows Hc. eexists. split; [reflexivity|]. fold rows. split.
  { apply Sorted_merge_sort. intros x y. unfold hotter. lia. }
  assert (∀ p, (1 < length (agents_of p rows))%nat →
    split_on "," (join "," (agents_of p rows)) = agents_of p rows) as Hrt.
  { intros p Hp. apply split_join; [by intros E; rewrite E in Hp; simpl in Hp; lia|].
    apply Forall_forall. intros a. unfold agents_of. rewrite elem_of_dedup.
    intros (f & -> & [_ Hf]%elem_of_select)%list_elem_of_fmap.
    rewrite Forall_forall in Hc. by apply Hc. }
  intros [p n l]. rewrite merge_sort_Permutation, list_elem_of_fmap. simpl. split.
  - intros (p' & [= -> -> ->] & [Hp _]%list_elem_of_filter). rewrite Hrt by done. done.
  - intros (Hn & -> & ->). exists p. rewrite Hrt by done. split; [done|].
    apply list_elem_of_filter. split; [done|]. rewrite elem_of_dedup.
    destruct (agents_of p rows) as [|a l] eqn:E; [simpl in Hn; lia|].
    assert (a ∈ agents_of p rows) as Ha by (rewrite E; left).
    unfold agents_of in Ha. rewrite elem_of_dedup in Ha.
    apply list_elem_of_fmap in Ha as (f & _ & [<- Hf]%elem_of_select).
    by apply list_elem_of_fmap_2.
Qed.

(** Two agents edit one file. *)
Definition edited : World :=
  run (_ ← log "default" "s1" "alice" None "Edit" "src/a.ts" None None;
       _ ← log "default" "s2" "bob" None "Edit" "src/a.ts" None None;
       log "default" "s2" "bob" None "Edit" "src/b.ts" None None) start.

Lemma getHotFiles_spec_witness :
  ∃ hot, getHotFiles "default" 30 edited = (edited, Ok hot) ∧
    mkHot "src/a.ts" 2 ["alice"; "bob"] ∈ hot.
Proof.
  destruct (getHotFiles_spec "default" 30 edited) as (hot & E & _ & Hh).
  - apply (bool_decide_unpack _). vm_compute. reflexivity.
  - exists hot. split; [exact E|]. apply Hh. vm_compute. repeat constructor.
Defined.

End FileTracker.

Module WorkingFiles.

Definition is_working (org agent path : string) (r : WorkingFile) : Prop :=
  wf_org r = org ∧ wf_agent r = agent ∧ wf_path r = path.

#[global] Instance is_working_dec org agent path r : Decision (is_working org agent path r).
Proof. unfold is_working. apply _. Defined.

(** The three times are printed with one format, so the text order is the
    order of the seconds. A negative TTL makes the modifier unreadable and
    [claim_until] NULL, which its column refuses. *)
Definition start (org agent path : string) (ttlMinutes : Z) : M unit :=
  now ← gets now_sec;
  existing ← gets (λ w, select_one (is_working org agent path) (db_working (w_db w)));
  if decide (ttlMinutes < 0) then throw (ESqlite SqlNotNull)
  else match existing with
  | Some _ =>
      stmt (on_working (update_where (is_working org agent path)
        (λ r, mkWorking (wf_org r) (wf_agent r) (wf_path r) (wf_started r) now
                (now + 60 * ttlMinutes))))
  | None =>
      checked_insert (λ _, True) (λ d, org ∈ db_orgs d)
        (on_working (λ l, l ++ [mkWorking org agent path now now (now + 60 * ttlMinutes)]))
  end.

Definition stop (org agent path : string) : M unit :=
  stmt (on_working (delete_where (is_working org agent path))).

Definition expired (now : Z) (r : WorkingFile) : Prop := wf_until r < now.

#[global] Instance expired_dec now r : Decision (expired now r).
Proof. unfold expired. apply _. Defined.

Definition sweepExpired : M nat :=
  now ← gets now_sec;
  evicted ← gets (λ w, changes (expired now) (db_working (w_db w)));
  _ ← stmt (on_working (delete_where (expired now)));
  mret evicted.

Definition of_agent (org agent : string) (r : WorkingFile) : Prop :=
  wf_org r = org ∧ wf_agent r = agent.

#[global] Instance of_agent_dec org agent r : Decision (of_agent org agent r).
Proof. unfold of_agent. apply _. Defined.

Definition clearForAgent (org agent : string) : M nat :=
  n ← gets (λ w, changes (of_agent org agent) (db_working (w_db w)));
  _ ← stmt (on_working (delete_where (of_agent org agent)));
  mret n.

(** A claim others see. *)
Definition in_flight (org : string) (paths : list string) (exclude : string) (now : Z)
    (r : WorkingFile) : Prop :=
  wf_org r = org ∧ wf_path r ∈ paths ∧ wf_agent r ≠ exclude ∧ now < wf_until r.

#[global] Instance in_flight_dec org paths exclude now r :
  Decision (in_flight org paths exclude now r).
Proof. unfold in_flight. apply _. Defined.

Definition getIndex (org : string) (paths : list string) (exclude : string)
    : M (jsmap (list string)) :=
  if decide (paths = []) then mret []
  else gets (λ w, build_index (dedup ((λ r, (wf_path r, wf_agent r)) <$>
         select (in_flight org paths exclude (now_sec w)) (db_working (w_db w))))).

(** ** The table and the index *)

Definition wf_working (l : list WorkingFile) : Prop :=
  NoDup ((λ r, (wf_org r, wf_agent r, wf_path r)) <$> l).

(** Who the index names for a file. *)
Definition holders (org : string) (paths : list string) (exclude f : string) (w : World)
    : list string :=
  match result (getIndex org paths exclude) w with
  | Ok idx => default [] (map_get f idx)
  | Throw _ => []
  end.

Lemma elem_of_holders org paths exclude f w a :
  a ∈ holders org paths exclude f w ↔
  ∃ r, r ∈ db_working (w_db w) ∧ in_flight org paths exclude (now_sec w) r ∧
       wf_path r = f ∧ wf_agent r = a.
Proof.
  unfold holders, result, getIndex. case_decide as Hp; simpl.
  - subst paths. unfold in_flight. set_solver.
  - rewrite build_index_get by apply NoDup_dedup. rewrite distinct_pairs. unfold select.
    rewrite (filter_filter_and _ _ (λ r, in_flight org paths exclude (now_sec w) r ∧ wf_path r = f))
      by tauto.
    assert (∀ l : list string, default [] match l with [] => None | b :: l => Some (b :: l) end = l) as E
      by by intros [].
    rewrite E, elem_of_dedup, list_elem_of_fmap. setoid_rewrite list_elem_of_filter. naive_solver.
Qed.

(** The expiry sweep is invisible: it removes rows, and only rows no
    reader would have seen, so every index reads the same after it. *)
Theorem sweep_invisible w org paths exclude :
  result (getIndex org paths exclude) (run sweepExpired w) =
    result (getIndex org paths exclude) w ∧
  result sweepExpired w = Ok (length (db_working (w_db w)) -
                              length (db_working (w_db (run sweepExpired w))))%nat.
Proof.
  unfold run, result, sweepExpired, getIndex, mbind, M_bind, gets, stmt. simpl. split.
  - case_decide; [done|]. unfold delete_where, select, now_sec. simpl.
    rewrite (filter_filter_and _ _ (in_flight org paths exclude (w_clock w / 1000))); [done|].
    intros r. unfold in_flight, expired. split; [|tauto]. intros (?&?&?&?). split_and!; try done. lia.
  - do 2 f_equal. unfold changes, delete_where. generalize (db_working (w_db w)) as l.
    induction l as [|r l IH]; [done|]. rewrite !filter_cons.
    destruct (decide (expired _ r)); [rewrite decide_False by tauto|rewrite decide_True by done];
      simpl; rewrite IH; [|done].
    pose proof (length_filter (λ x, ¬ expired (now_sec w) x) l). lia.
Qed.

(** The table after [start]: the claim's row is the refreshed or the new one. *)
Lemma start_rows org agent path ttl w :
  wf_working (db_working (w_db w)) → org ∈ db_orgs (w_db w) → 0 ≤ ttl →
  let w' := run (start org agent path ttl) w in
  result (start org agent path ttl) w = Ok () ∧ wf_working (db_working (w_db w')) ∧
  w_clock w' = w_clock w ∧
  (∀ r, is_working org agent path r → r ∈ db_working (w_db w') →
     wf_until r = now_sec w + 60 * ttl) ∧
  (∃ r, is_working org agent path r ∧ r ∈ db_working (w_db w')) ∧
  (∀ r, ¬ is_working org agent path r →
     (r ∈ db_working (w_db w') ↔ r ∈ db_working (w_db w))).
Proof.
  intros Hwf Ho Httl w'. subst w'. unfold run, result, start. rewrite !bind_gets.
  rewrite (decide_False (P := ttl < 0)) by lia.
  destruct (select_one (is_working org agent path) (db_working (w_db w))) as [r0|] eqn:E; simpl.
  - apply select_one_Some in E as [Hr0 Hin]. split_and!; try done.
    + unfold wf_working. by rewrite fmap_update_where.
    + intros r Hr (x & Hx & ->)%elem_of_update_where. by case_decide.
    + eexists. split; [|apply elem_of_update_where; exists r0; split; [done|]; by rewrite decide_True].
      done.
    + intros r Hr. rewrite elem_of_update_where. split.
      * intros (x & Hx & ->). case_decide; [|done]. by destruct Hr.
      * intros Hx. exists r. by rewrite decide_False.
  - rewrite select_one_None in E. unfold checked_insert. rewrite bind_gets.
    rewrite !decide_True by done. simpl. split_and!; try done.
    + unfold wf_working. rewrite fmap_app. apply NoDup_app. split_and!; [done| |apply NoDup_singleton].
      intros k (x & -> & Hx)%list_elem_of_fmap E2%list_elem_of_singleton.
      apply (E x Hx). unfold is_working. naive_solver.
    + intros r Hr [Hx| ->%list_elem_of_singleton]%elem_of_app; [|done]. by destruct (E r Hx).
    + eexists. split; [|apply elem_of_app; right; by apply list_elem_of_singleton]. done.
    + intros r Hr. rewrite elem_of_app, list_elem_of_singleton. split; [|by left].
      intros [?| ->]; [done|]. by destruct Hr.
Qed.

(** A claim on a file in flight: once started it is visible to every other
    agent of the organisation exactly until its TTL runs out, whatever time it
    is read at; starting it again moves the expiry; and no other claim becomes
    visible or invisible by it. *)
Theorem working_claim_visible org agent path ttl paths exclude w ms :
  wf_working (db_working (w_db w)) → org ∈ db_orgs (w_db w) → 0 ≤ ttl →
  path ∈ paths → exclude ≠ agent →
  let w1 := run (start org agent path ttl) w in
  let w2 := run (tick ms) w1 in
  (agent ∈ holders org paths exclude path w2 ↔ now_sec w2 < now_sec w + 60 * ttl) ∧
  (∀ org' paths' exclude' a f, (org', a, f) ≠ (org, agent, path) →
     a ∈ holders org' paths' exclude' f w1 ↔ a ∈ holders org' paths' exclude' f w).
Proof.
  intros Hwf Ho Httl Hp He w1 w2.
  destruct (start_rows org agent path ttl w Hwf Ho Httl) as (_ & _ & Hc & Hu & (r & Hr & Hin) & Hrest).
  split.
  - rewrite elem_of_holders. split.
    + intros (x & Hx & (? & ? & ? & Ht) & ? & ?). rewrite <- (Hu x); [done| |done]. by split_and!.
    + intros Ht. exists r. destruct Hr as (? & ? & ?). split_and!; try done.
      unfold in_flight. rewrite (Hu r) by done. by subst.
  - intros org' paths' exclude' a f Hne. rewrite !elem_of_holders.
    assert (now_sec w1 = now_sec w) as -> by (unfold now_sec, w1; by rewrite Hc).
    split; intros (x & Hx & Hf & <- & <-); exists x; (split; [|done]);
      apply Hrest in Hx; try done; intros (? & ? & ?); destruct Hf; naive_solver.
Qed.

(** Stopping a claim, or the departure of its agent, hides exactly the
    claims it should: the agent's own, in its own organisation; the same agent
    id in another organisation keeps its claims. *)
Theorem working_claim_cleared org agent path w org' paths exclude a f :
  (a ∈ holders org' paths exclude f (run (stop org agent path) w) ↔
     a ∈ holders org' paths exclude f w ∧ (org', a, f) ≠ (org, agent, path)) ∧
  (a ∈ holders org' paths exclude f (run (clearForAgent org agent) w) ↔
     a ∈ holders org' paths exclude f w ∧ (org', a) ≠ (org, agent)).
Proof.
  rewrite !elem_of_holders. unfold run, stop, clearForAgent, mbind, M_bind, gets, stmt, delete_where,
    in_flight, is_working, of_agent. simpl. setoid_rewrite list_elem_of_filter.
  split; split; naive_solver.
Qed.

Lemma working_claim_visible_witness :
  "alice" ∈ holders "default" ["a.ts"] "bob" "a.ts"
    (run (tick 60000) (run (start "default" "alice" "a.ts" 5) Invariant.start)).
Proof.
  refine (proj2 (proj1 (working_claim_visible "default" "alice" "a.ts" 5 ["a.ts"] "bob"
    Invariant.start 60000 _ _ _ _ _)) _).
  - apply NoDup_nil_2.
  - left.
  - lia.
  - left.
  - discriminate.
  - vm_compute. reflexivity.
Defined.

End WorkingFiles.
