(* ===== verification/Activity.v ===== *)
(** * What agents are doing, and what they are asked
    ([src/agent-activity.ts], [src/introspection.ts])

    The activity row of an agent (working, waiting, idle, offline), upserted by
    hooks and heartbeats, and the introspection requests sent to agents in the
    gray zone of an announcement. *)

From S2P Require Import Prelude Database Registry Invariant.
Import Registry Invariant.
Local Open Scope Z_scope.

Module Activity.

Definition is_row (org agent : string) (a : AgentActivity) : Prop :=
  aa_org a = org ∧ aa_agent a = agent.

#[global] Instance is_row_dec org agent a : Decision (is_row org agent a).
Proof. unfold is_row. apply _. Defined.

(** INSERT ... ON CONFLICT(org_id, agent_id) DO UPDATE; the foreign keys bind
    the inserted row. *)
Definition upsert (org agent : string) (status : ActivityStatus) (file thread : option string)
    : M unit :=
  now ← gets now_sec;
  existing ← gets (λ w, select_one (is_row org agent) (db_activity (w_db w)));
  match existing with
  | Some _ =>
      stmt (on_activity (update_where (is_row org agent)
        (λ a, mkActivity (aa_org a) (aa_agent a) status file thread (SqlTs now))))
  | None =>
      checked_insert (λ _, True) (λ d, org ∈ db_orgs d ∧ agent_ref org agent d)
        (on_activity (λ l, l ++ [mkActivity org agent status file thread (SqlTs now)]))
  end.

(** The statement of its own in the source: an edit also clears the thread. *)
Definition reportFileActivity (org agent path : string) : M unit :=
  upsert org agent ActWorking (Some path) None.

Definition reportWaiting (org agent thread : string) : M unit :=
  upsert org agent ActWaiting None (Some thread).

Definition reportOffline (org agent : string) : M unit :=
  stmt (on_activity (update_where (is_row org agent)
    (λ a, mkActivity (aa_org a) (aa_agent a) ActOffline None None (aa_last a)))).

Definition getStatus (org agent : string) : M (option AgentActivity) :=
  gets (λ w, select_one (is_row org agent) (db_activity (w_db w))).

(** [if (currentFile) ... else if (currentThread) ...]: empty text is falsy. *)
Definition derive_status (file thread : option string) : ActivityStatus :=
  match truthy file, truthy thread with
  | Some _, _ => ActWorking
  | None, Some _ => ActWaiting
  | None, None => ActIdle
  end.

Definition heartbeat (org agent : string) (file thread : option string) : M bool :=
  let status := derive_status file thread in
  previous ← getStatus org agent;
  _ ← upsert org agent status file thread;
  mret match previous with
       | None => true
       | Some p => bool_decide (aa_status p ≠ status) || bool_decide (aa_file p ≠ file) ||
                   bool_decide (aa_thread p ≠ thread)
       end.

Definition latest_first (a b : AgentActivity) : Prop := ¬ stamp_lt (aa_last a) (aa_last b).

#[global] Instance latest_first_dec : RelDecision latest_first.
Proof. intros a b. unfold latest_first. apply _. Defined.

Definition listActive (org : string) : M (list AgentActivity) :=
  gets (λ w, merge_sort latest_first
    (select (λ a, aa_org a = org ∧ aa_status a = ActWorking) (db_activity (w_db w)))).

(** [Date.now() - lastActivity > threshold]; text that is not SQLite's gives
    NaN, and every comparison with NaN is false. *)
Definition idle_too_long (clock minutes : Z) (last : stamp) : bool :=
  match last with
  | SqlTs sec => bool_decide (minutes * 60 * 1000 < clock - sec * 1000)
  | IsoTs _ => false
  end.

Definition with_status (s : ActivityStatus) (a : AgentActivity) : AgentActivity :=
  mkActivity (aa_org a) (aa_agent a) s (aa_file a) (aa_thread a) (aa_last a).

(** The source returns no [org_id] for an agent without a row; the model
    carries the organisation asked for. *)
Definition getActivity (org agent : string) (idleAfterMinutes : option Z) : M AgentActivity :=
  ma ← Registry.get org agent;
  clock ← gets w_clock;
  match ma with
  | None => mret (mkActivity org agent ActOffline None None (IsoTs clock))
  | Some ag =>
      if decide (a_status ag = AOffline)
      then mret (mkActivity org agent ActOffline None None (IsoTs clock))
      else
        row ← getStatus org agent;
        match row with
        | None => mret (mkActivity org agent ActIdle None None (IsoTs clock))
        | Some a =>
            match idleAfterMinutes with
            | Some m =>
                if bool_decide (aa_status a = ActWorking) && bool_decide (m ≠ 0) &&
                   idle_too_long clock m (aa_last a)
                then mret (with_status ActIdle a)
                else mret a
            | None => mret a
            end
        end
  end.

Fixpoint map_m {A B} (f : A → M B) (l : list A) : M (list B) :=
  match l with
  | [] => mret []
  | x :: l => y ← f x; ys ← map_m f l; mret (y :: ys)
  end.

Definition listAll (org : string) (idleAfterMinutes : option Z) : M (list AgentActivity) :=
  onlineAgents ← listOnline org;
  map_m (λ a, getActivity org (a_id a) idleAfterMinutes) onlineAgents.

(** ** Specifications *)

(** What others see of an agent's row. *)
Definition view (org agent : string) (w : World)
    : option (ActivityStatus * option string * option string) :=
  (λ a, (aa_status a, aa_file a, aa_thread a)) <$>
    select_one (is_row org agent) (db_activity (w_db w)).

(** ** Theorems *)

Lemma view_upsert org agent s f t w :
  org ∈ db_orgs (w_db w) → agent_ref org agent (w_db w) →
  result (upsert org agent s f t) w = Ok () ∧
  (∀ org' agent', view org' agent' (run (upsert org agent s f t) w) =
     if decide (org' = org ∧ agent' = agent) then Some (s, f, t) else view org' agent' w).
Proof.
  intros Ho Ha. unfold run, result, upsert. rewrite !bind_gets.
  destruct (select_one (is_row org agent) (db_activity (w_db w))) as [r|] eqn:E; simpl.
  - split; [done|]. intros org' agent'. unfold view. simpl.
    rewrite select_one_update_where by done.
    destruct (select_one (is_row org' agent') (db_activity (w_db w))) as [x|] eqn:E'.
    + apply select_one_Some in E' as [[<- <-] _]. simpl.
      destruct (decide (is_row org agent x)) as [Hd|Hd].
      * by rewrite decide_True.
      * by rewrite decide_False.
    + simpl. case_decide as Hd; [|done]. destruct Hd as [-> ->]. congruence.
  - unfold checked_insert. rewrite bind_gets, !decide_True by done. simpl. split; [done|].
    intros org' agent'. unfold view, select_one in *. simpl.
    rewrite filter_app, filter_cons, filter_nil.
    destruct (decide (org' = org ∧ agent' = agent)) as [[-> ->]|Hn].
    + rewrite decide_True by done. revert E.
      by destruct (filter (is_row org agent) (db_activity (w_db w))).
    + rewrite decide_False by (unfold is_row; naive_solver). by rewrite app_nil_r.
Qed.

(** A heartbeat stores what it reports, for its own agent only, and
    answers whether anything others see has changed: the callers announce
    exactly the heartbeats that changed the view of the agent. *)
Theorem heartbeat_reports_change org agent f t w :
  org ∈ db_orgs (w_db w) → agent_ref org agent (w_db w) →
  let w' := run (heartbeat org agent f t) w in
  view org agent w' = Some (derive_status f t, f, t) ∧
  (∀ org' agent', (org', agent') ≠ (org, agent) →
     view org' agent' w' = view org' agent' w) ∧
  result (heartbeat org agent f t) w =
    Ok (bool_decide (view org agent w ≠ view org agent w')).
Proof.
  intros Ho Ha w'. subst w'. unfold run, result.
  destruct (view_upsert org agent (derive_status f t) f t w Ho Ha) as [Hr Hv].
  assert (upsert org agent (derive_status f t) f t w =
    (run (upsert org agent (derive_status f t) f t) w, Ok ())) as Eu
    by (rewrite <- Hr; apply run_result).
  set (w1 := run (upsert org agent (derive_status f t) f t) w) in *.
  assert (∃ b, heartbeat org agent f t w = (w1, Ok b) ∧
    b = bool_decide (view org agent w ≠ view org agent w1)) as (b & -> & ->).
  { unfold heartbeat, getStatus. rewrite bind_gets, (bind_Ok _ _ _ _ _ Eu).
    eexists. split; [reflexivity|]. rewrite Hv, decide_True by done. unfold view.
    destruct (select_one (is_row org agent) (db_activity (w_db w))) as [p|]; simpl; [|done].
    repeat case_bool_decide; simpl; try done; congruence. }
  simpl. rewrite Hv, decide_True by done. split_and!; [done| |done].
  intros org' agent' Hne. rewrite Hv, decide_False; [done|]. naive_solver.
Qed.

(** What the dashboard is told of an agent: offline when it is unknown or
    offline, whatever its last row says; idle when it has no row, or when it
    was working but its last edit is older than the idle threshold; otherwise
    its row as it is. The read changes nothing. *)
Theorem getActivity_spec org agent idle w :
  ∃ a, getActivity org agent idle w = (w, Ok a) ∧ aa_agent a = agent ∧
  match select_one (is_agent org agent) (db_agents (w_db w)),
        select_one (is_row org agent) (db_activity (w_db w)) with
  | Some ag, Some row =>
      if decide (a_status ag = AOffline) then aa_status a = ActOffline
      else match idle, aa_last row with
           | Some m, SqlTs sec =>
               if decide (aa_status row = ActWorking ∧ m ≠ 0 ∧
                          m * 60000 < w_clock w - sec * 1000)
               then a = with_status ActIdle row else a = row
           | _, _ => a = row
           end
  | Some ag, None => aa_status a = if decide (a_status ag = AOffline) then ActOffline else ActIdle
  | None, _ => aa_status a = ActOffline
  end.
Proof.
  unfold getActivity, Registry.get, getStatus. rewrite !bind_gets.
  destruct (select_one (is_agent org agent) _) as [ag|]; [|by eexists].
  case_decide; [by eexists; destruct (select_one (is_row org agent) _)|].
  rewrite bind_gets.
  destruct (select_one (is_row org agent) (db_activity (w_db w))) as [row|] eqn:E; [|by eexists].
  apply select_one_Some in E as [[Hro Hra] _]. destruct idle as [m|]; [|by eexists].
  destruct (aa_last row) as [sec|ms] eqn:El; simpl.
  - case_decide as Hd.
    + destruct Hd as (? & ? & ?). rewrite !bool_decide_eq_true_2 by (done || lia). by eexists.
    + destruct (bool_decide (aa_status row = ActWorking) && _ && _) eqn:Hb; [|by eexists].
      destruct Hd. apply andb_true_iff in Hb as [[H1 H2]%andb_true_iff H3].
      rewrite bool_decide_eq_true in H1. rewrite bool_decide_eq_true in H2.
      rewrite bool_decide_eq_true in H3. split_and!; [done..|lia].
  - rewrite andb_false_r. by eexists.
Qed.

(** ** Concrete runs *)

Definition registered : World :=
  run_ops [OpRegister "default" "alice" "Alice" ["src/api"]] start.

Lemma heartbeat_reports_change_witness :
  result (heartbeat "default" "alice" (Some "a.ts") None) registered = Ok true ∧
  result (heartbeat "default" "alice" (Some "a.ts") None)
    (run (heartbeat "default" "alice" (Some "a.ts") None) registered) = Ok false.
Proof.
  assert ("default" ∈ db_orgs (w_db registered)) as Ho by left.
  assert (agent_ref "default" "alice" (w_db registered)) as Ha
    by (apply (bool_decide_unpack _); vm_compute; reflexivity).
  split.
  - rewrite (proj2 (proj2 (heartbeat_reports_change "default" "alice" (Some "a.ts") None
      registered Ho Ha))). vm_compute. reflexivity.
  - vm_compute. reflexivity.
Defined.

End Activity.

Module Introspections.

Definition create (org thread agent : string) (score : Z) (reasons : option (list string))
    : M (option Introspection) :=
  id ← randomUUID;
  now ← gets now_sec;
  _ ← checked_insert
        (λ d, id ∉ i_id <$> db_introspections d)
        (λ d, org ∈ db_orgs d ∧ thread_ref thread d ∧ agent_ref org agent d)
        (on_introspections (λ l, l ++ [mkIntrospection id org thread agent score reasons
           IPending None 0 now None]));
  gets (λ w, select_one (λ i, i_id i = id) (db_introspections (w_db w))).

Definition answer (response : string) (clock : Z) (i : Introspection) : Introspection :=
  mkIntrospection (i_id i) (i_org i) (i_thread i) (i_agent i) (i_score i) (i_reasons i)
    IResponded (Some response) (i_concerned i) (i_created_at i) (Some (IsoTs clock)).

Definition is_introspection (org id : string) (i : Introspection) : Prop :=
  i_org i = org ∧ i_id i = id.

#[global] Instance is_introspection_dec org id i : Decision (is_introspection org id i).
Proof. unfold is_introspection. apply _. Defined.

Definition respond (org id response : string) : M (option Introspection) :=
  clock ← gets w_clock;
  _ ← stmt (on_introspections (update_where (is_introspection org id) (answer response clock)));
  gets (λ w, select_one (is_introspection org id) (db_introspections (w_db w))).

Definition oldest_request_first (a b : Introspection) : Prop := i_created_at a ≤ i_created_at b.

#[global] Instance oldest_request_first_dec : RelDecision oldest_request_first.
Proof. intros a b. unfold oldest_request_first. apply _. Defined.

Definition getPending (org agent : string) : M (list Introspection) :=
  gets (λ w, merge_sort oldest_request_first
    (select (λ i, i_org i = org ∧ i_agent i = agent ∧ i_status i = IPending)
       (db_introspections (w_db w)))).

Definition list_ (org thread : string) : M (list Introspection) :=
  gets (λ w, merge_sort oldest_request_first
    (select (λ i, i_org i = org ∧ i_thread i = thread) (db_introspections (w_db w)))).

Definition pending_ids (org agent : string) (w : World) : list string :=
  i_id <$> select (λ i, i_org i = org ∧ i_agent i = agent ∧ i_status i = IPending)
             (db_introspections (w_db w)).

(** The life of an introspection request: created, it is pending for its
    agent under the returned id; an answer from another organisation leaves it
    pending; an answer from its own removes it from the pending list and is
    what [respond] returns. *)
Theorem introspection_lifecycle org thread agent score reasons w org' r :
  org ∈ db_orgs (w_db w) → thread_ref thread (w_db w) → agent_ref org agent (w_db w) →
  w_uuid w (w_uuid_next w) ∉ i_id <$> db_introspections (w_db w) →
  let id := w_uuid w (w_uuid_next w) in
  let w1 := run (create org thread agent score reasons) w in
  (∃ i, result (create org thread agent score reasons) w = Ok (Some i) ∧ i_id i = id) ∧
  id ∈ pending_ids org agent w1 ∧
  (org' ≠ org →
     result (respond org' id r) w1 = Ok None ∧
     db_introspections (w_db (run (respond org' id r) w1)) = db_introspections (w_db w1)) ∧
  id ∉ pending_ids org agent (run (respond org id r) w1) ∧
  (∃ i, result (respond org id r) w1 = Ok (Some i) ∧ i_response i = Some r ∧
        i_status i = IResponded ∧ i_id i = id).
Proof.
  intros Ho Ht Ha Hf id w1.
  set (new := mkIntrospection id org thread agent score reasons IPending None 0 (now_sec w) None).
  assert (∃ u, w1 = u ∧ db_introspections (w_db u) = db_introspections (w_db w) ++ [new] ∧
    result (create org thread agent score reasons) w =
      Ok (select_one (λ i, i_id i = id) (db_introspections (w_db w) ++ [new]))) as (u & -> & Hu & Hr).
  { subst w1. unfold run, result, create, mbind, M_bind, randomUUID, gets, checked_insert.
    unfold mbind, M_bind, gets. simpl. rewrite !decide_True by done. simpl. by eexists. }
  assert (∀ x, x ∈ db_introspections (w_db w) → i_id x ≠ id) as Hno.
  { intros x Hx E. apply Hf. fold id. rewrite <- E. by apply list_elem_of_fmap_2. }
  assert (∀ P `{!∀ x, Decision (P x)}, (∀ x, P x → i_id x = id) →
    filter P (db_introspections (w_db w)) = []) as Hnil.
  { intros P ? HP. destruct (filter P _) as [|x l] eqn:E; [done|]. exfalso.
    assert (x ∈ filter P (db_introspections (w_db w))) as [Hx Hxl]%list_elem_of_filter
      by (rewrite E; left). by apply (Hno x Hxl), HP. }
  rewrite Hr. unfold select_one at 1. rewrite filter_app, Hnil by done.
  unfold pending_ids, run, result, respond, mbind, M_bind, gets, stmt. simpl. rewrite Hu.
  split_and!.
  - exists new. by rewrite filter_cons_True, filter_nil by done.
  - apply list_elem_of_fmap. exists new. split; [done|]. apply elem_of_select. split; [done|].
    apply elem_of_app. right. by apply list_elem_of_singleton.
  - intros Hne.
    assert (∀ x, x ∈ db_introspections (w_db w) ++ [new] → ¬ is_introspection org' id x) as Hn.
    { intros x [Hx| ->%list_elem_of_singleton]%elem_of_app [E1 E2];
        [by apply (Hno x)|by apply Hne]. }
    rewrite update_where_none by done. split; [|done]. f_equal. by apply select_one_None.
  - intros (x & E & [(_ & _ & Hs) (y & Hy & ->)%elem_of_update_where]%elem_of_select)%list_elem_of_fmap.
    case_decide as Hd; [done|]. apply elem_of_app in Hy as [Hy| ->%list_elem_of_singleton].
    + by apply (Hno y).
    + by destruct Hd.
  - rewrite select_one_update_where by done. unfold select_one.
    rewrite filter_app, Hnil by by intros x [??]. rewrite filter_cons_True by done.
    rewrite filter_nil. simpl. rewrite decide_True by done. by eexists.
Qed.

Lemma introspection_lifecycle_witness :
  w_uuid demo (w_uuid_next demo) ∈
    pending_ids "default" "bob" (run (create "default" "u0" "bob" 40 None) demo).
Proof.
  refine (proj1 (proj2 (introspection_lifecycle "default" "u0" "bob" 40 None demo "other" ""
    _ _ _ _))).
  all: apply (bool_decide_unpack _); vm_compute; reflexivity.
Defined.

End Introspections.
