(* ===== verification/DependencyMap.v ===== *)
(** * The module dependency map ([src/dependency-map.ts])

    The table of declared module dependencies and the blast radius of a
    module: the modules that depend on it, directly or through others. The
    radius is computed by a breadth first walk over a reverse edge index; it is
    proved to be exactly the transitive closure, with fuel that suffices for
    every map. *)

From S2P Require Import Prelude Database Invariant.
Import Invariant.
Local Open Scope Z_scope.

Module DependencyMap.

(** ** The table *)

Record ModuleInfo := mkModule {
  mi_id : string;
  mi_depends_on : list string;
  mi_exports : list string;
  mi_owners : list string
}.

Definition is_module (org id : string) (r : DependencyRow) : Prop :=
  d_org r = org ∧ d_module r = id.

#[global] Instance is_module_dec org id r : Decision (is_module org id r).
Proof. unfold is_module. apply _. Defined.

(** INSERT ... ON CONFLICT(org_id, module_id) DO UPDATE. *)
Definition setDependencies (org id : string) (depends_on exports owners : list string) : M unit :=
  existing ← gets (λ w, select_one (is_module org id) (db_deps (w_db w)));
  match existing with
  | Some _ =>
      stmt (on_deps (update_where (is_module org id)
        (λ r, mkDep (d_org r) (d_module r) (JText depends_on) (JText exports) (JText owners))))
  | None =>
      checked_insert (λ _, True) (λ d, org ∈ db_orgs d)
        (on_deps (λ l, l ++ [mkDep org id (JText depends_on) (JText exports) (JText owners)]))
  end.

Definition info_of (r : DependencyRow) : ModuleInfo :=
  mkModule (d_module r) (safeJsonParse (d_depends_on r)) (safeJsonParse (d_exports r))
    (safeJsonParse (d_owners r)).

Definition getModuleInfo (org id : string) : M (option ModuleInfo) :=
  gets (λ w, info_of <$> select_one (is_module org id) (db_deps (w_db w))).

(** [getDependencies] returns the same columns without the id. *)
Definition getDependencies (org id : string) : M (option (list string * list string * list string)) :=
  gets (λ w, (λ r, (safeJsonParse (d_depends_on r), safeJsonParse (d_exports r),
                    safeJsonParse (d_owners r))) <$>
             select_one (is_module org id) (db_deps (w_db w))).

Definition listOwners (org : string) : M (list string) :=
  gets (λ w, foldl (λ all r, foldl (λ all o, set_add o all) all (safeJsonParse (d_owners r))) []
               (select (λ r, d_org r = org) (db_deps (w_db w)))).

(** The object returned by [getMap], as its entries in table order. *)
Definition getMap (org : string) : M (list ModuleInfo) :=
  gets (λ w, info_of <$> select (λ r, d_org r = org) (db_deps (w_db w))).

Definition setMap (org : string) (map : list ModuleInfo) : M unit :=
  transaction (for_each map (λ info,
    setDependencies org (mi_id info) (mi_depends_on info) (mi_exports info) (mi_owners info))).

(** ** The blast radius *)

(** [list.push(id)] on the entry of [dep], created on demand. *)
Definition push_dependent (m : jsmap (list string)) (e : string * string) : jsmap (list string) :=
  map_set e.1 (default [] (map_get e.1 m) ++ [e.2]) m.

(** The (dependency, dependent) pairs in the order the nested loops meet them. *)
Definition edges (map : list ModuleInfo) : list (string * string) :=
  concat ((λ info, (λ dep, (dep, mi_id info)) <$> mi_depends_on info) <$> map).

Definition dependents (map : list ModuleInfo) : jsmap (list string) :=
  foldl push_dependent [] (edges map).

Definition get_or_empty (m : jsmap (list string)) (k : string) : list string :=
  default [] (map_get k m).

(** The ids one turn of the loop pushes: those not visited yet. *)
Fixpoint visit (l visited : list string) : list string :=
  match l with
  | [] => []
  | id :: l => if decide (id ∈ visited) then visit l visited else id :: visit l (visited ++ [id])
  end.

(** The queue from [head] on; [indirect] receives what the queue does. *)
Fixpoint bfs (fuel : nat) (deps : jsmap (list string)) (queue visited indirect : list string)
    : list string :=
  match fuel, queue with
  | S fuel, current :: queue =>
      let pushed := visit (get_or_empty deps current) visited in
      bfs fuel deps (queue ++ pushed) (visited ++ pushed) (indirect ++ pushed)
  | _, _ => indirect
  end.

Record BlastRadius := mkRadius {
  br_module : string;
  br_direct : list string;
  br_indirect : list string;
  br_exports : list string
}.

(** Each turn takes one entry off the queue, and each module enters it at most
    once beyond the direct dependents. *)
Definition bfs_fuel (map : list ModuleInfo) (direct : list string) : nat :=
  length direct + length map.

Definition blast_radius (map : list ModuleInfo) (id : string) : BlastRadius :=
  let deps := dependents map in
  let direct := get_or_empty deps id in
  mkRadius id direct
    (bfs (bfs_fuel map direct) deps direct (dedup (id :: direct)) [])
    (from_option mi_exports [] (select_one (λ i, mi_id i = id) map)).

Definition getBlastRadius (org id : string) : M BlastRadius :=
  map ← getMap org; mret (blast_radius map id).

(** ** Specification *)

(** [y] declares a dependency on [x]. *)
Definition depends (map : list ModuleInfo) (x y : string) : Prop :=
  ∃ i, i ∈ map ∧ mi_id i = y ∧ x ∈ mi_depends_on i.

(** The modules the walk has not met. *)
Definition unvisited (map : list ModuleInfo) (visited : list string) : list string :=
  filter (λ y, y ∉ visited) (dedup (mi_id <$> map)).

(** ** The reverse index *)

Lemma elem_of_edges map x y : (x, y) ∈ edges map ↔ depends map x y.
Proof.
  unfold edges, depends.
  induction map as [|i map IH]; simpl.
  - split; [by intros ?%not_elem_of_nil|]. intros (? & ?%not_elem_of_nil & _). done.
  - rewrite elem_of_app, IH, list_elem_of_fmap. split.
    + intros [(dep & [= -> ->] & Hd)|(j & Hj & ? & ?)].
      * exists i. split; [left|done].
      * exists j. split; [by right|done].
    + intros (j & [->|Hj]%elem_of_cons & <- & Hd); [left; by exists x|right; by exists j].
Qed.

Lemma get_dependents_gen es m k :
  get_or_empty (foldl push_dependent m es) k =
    get_or_empty m k ++ (snd <$> filter (λ e, e.1 = k) es).
Proof.
  revert m. induction es as [|[x y] es IH]; intros m; simpl; [by rewrite app_nil_r|].
  rewrite IH, filter_cons. unfold push_dependent, get_or_empty at 1. simpl.
  rewrite map_get_set. destruct (decide (k = x)) as [->|Hne].
  - rewrite decide_True by done. simpl. by rewrite <- app_assoc.
  - by rewrite decide_False by done.
Qed.

(** The entry of a module in the index: the modules that depend on it. *)
Lemma elem_of_dependents map x y : y ∈ get_or_empty (dependents map) x ↔ depends map x y.
Proof.
  unfold dependents. rewrite get_dependents_gen. simpl.
  rewrite <- elem_of_edges, list_elem_of_fmap. split.
  - by intros ([a b] & -> & [<- ?]%list_elem_of_filter).
  - intros He. exists (x, y). split; [done|]. by apply list_elem_of_filter.
Qed.

(** ** The walk *)

Lemma elem_of_visit l v y : y ∈ visit l v ↔ y ∈ l ∧ y ∉ v.
Proof.
  revert v. induction l as [|x l IH]; intros v; simpl; [set_solver|].
  case_decide; [|rewrite elem_of_cons]; rewrite IH, elem_of_cons, ?elem_of_app,
    ?list_elem_of_singleton; [naive_solver|]. destruct (decide (y = x)); naive_solver.
Qed.

Lemma NoDup_visit l v : NoDup (visit l v).
Proof.
  revert v. induction l as [|x l IH]; intros v; simpl; [constructor|].
  case_decide; [done|]. constructor; [|done]. rewrite elem_of_visit. set_solver.
Qed.

Lemma unvisited_shrinks map v p :
  NoDup p → (∀ y, y ∈ p → y ∉ v ∧ y ∈ mi_id <$> map) →
  (length p + length (unvisited map (v ++ p)) ≤ length (unvisited map v))%nat.
Proof.
  intros Hnd Hp. rewrite <- length_app. apply submseteq_length, NoDup_submseteq.
  - apply NoDup_app. split_and!; [done| |apply NoDup_filter, NoDup_dedup].
    intros y Hy [Hn _]%list_elem_of_filter. set_solver.
  - intros y [Hy|[Hn Hy]%list_elem_of_filter]%elem_of_app; apply list_elem_of_filter.
    + destruct (Hp y Hy). by rewrite elem_of_dedup.
    + set_solver.
Qed.

Lemma depends_known map x y : depends map x y → y ∈ mi_id <$> map.
Proof. intros (i & Hi & <- & _). by apply list_elem_of_fmap_2. Qed.

Section walk.
Context (map : list ModuleInfo) (id : string).

(** The loop invariant; [done_] are the queue entries before [head]. *)
Record walk (done_ queue visited indirect : list string) : Prop := {
  walk_root : id ∈ visited;
  walk_sound y : y ∈ visited → y = id ∨ tc (depends map) id y;
  walk_seen y : y ∈ visited → y = id ∨ y ∈ done_ ∨ y ∈ queue;
  walk_closed x y : x = id ∨ x ∈ done_ → depends map x y → y ∈ visited;
  walk_queue y : y ∈ queue → y ∈ visited;
  walk_indirect y : y ∈ indirect ↔ y ∈ visited ∧ y ≠ id ∧ ¬ depends map id y;
  walk_nodup : NoDup indirect
}.

Lemma walk_start :
  let direct := get_or_empty (dependents map) id in
  walk [] direct (dedup (id :: direct)) [].
Proof.
  intros direct. pose proof (elem_of_dependents map id) as Hd. fold direct in Hd.
  split; try (intros y; rewrite ?elem_of_dedup, ?elem_of_cons).
  - rewrite elem_of_dedup. left.
  - intros [->|Hy]; [by left|right]. by apply tc_once, Hd.
  - naive_solver.
  - intros y' [->|?%not_elem_of_nil] Hy; [|done]. rewrite elem_of_dedup, elem_of_cons. right. by apply Hd.
  - by right.
  - split; [by intros ?%not_elem_of_nil|]. intros ([->|Hy] & Hne & Hn); [done|]. by apply Hd in Hy.
  - constructor.
Qed.

Lemma walk_turn done_ current queue visited indirect :
  walk done_ (current :: queue) visited indirect →
  let pushed := visit (get_or_empty (dependents map) current) visited in
  walk (current :: done_) (queue ++ pushed) (visited ++ pushed) (indirect ++ pushed).
Proof.
  intros [Hr Hs Hse Hc Hq Hi Hn] pushed.
  assert (∀ y, y ∈ pushed ↔ depends map current y ∧ y ∉ visited) as Hp.
  { intros y. unfold pushed. by rewrite elem_of_visit, elem_of_dependents. }
  assert (current ∈ visited) as Hcur by (apply Hq; left).
  split.
  - set_solver.
  - intros y [Hy|[Hy _]%Hp]%elem_of_app; [by apply Hs|]. right.
    destruct (Hs current Hcur) as [->|Ht]; [by apply tc_once|by eapply tc_r].
  - intros y [Hy|Hy]%elem_of_app; [|set_solver]. destruct (Hse y Hy) as [|[|]]; set_solver.
  - intros x y Hx Hd. apply elem_of_app.
    destruct (decide (y ∈ visited)) as [|Hv]; [by left|right]. apply Hp. split; [|done].
    destruct Hx as [->|[->|Hx]%elem_of_cons]; [|done|].
    + destruct Hv. by apply (Hc id); [left|].
    + destruct Hv. by apply (Hc x); [right|].
  - set_solver.
  - intros y. rewrite !elem_of_app, Hi, Hp. split; [|naive_solver].
    intros [?|[Hd Hv]]; [naive_solver|]. split; [by right|]. split.
    + by intros ->.
    + intros Hd'. destruct Hv. apply (Hc id); [by left|done].
  - apply NoDup_app. split_and!; [done| |apply NoDup_visit].
    intros y Hy [_ Hv]%Hp. apply Hi in Hy. naive_solver.
Qed.

(** When the queue is empty, the visited modules are those reached. *)
Lemma walk_end done_ visited indirect :
  walk done_ [] visited indirect →
  NoDup indirect ∧
  ∀ y, y ∈ indirect ↔ tc (depends map) id y ∧ y ≠ id ∧ ¬ depends map id y.
Proof.
  intros [Hr Hs Hse Hc Hq Hi Hn]. split; [done|]. intros y. rewrite Hi. split.
  - intros (Hy & Hne & Hd). by destruct (Hs y Hy).
  - intros (Ht & Hne & Hd). split; [|done]. clear Hne Hd Hi.
    assert (∀ x, x ∈ visited → ∀ z, depends map x z → z ∈ visited) as Hcl.
    { intros x Hx z. apply Hc. destruct (Hse x Hx) as [|[|?%not_elem_of_nil]]; tauto. }
    assert (∀ x z, tc (depends map) x z → x ∈ visited → z ∈ visited) as Htc.
    { induction 1; eauto. }
    by apply (Htc id).
Qed.

Lemma bfs_correct fuel done_ queue visited indirect :
  walk done_ queue visited indirect →
  (length queue + length (unvisited map visited) ≤ fuel)%nat →
  let r := bfs fuel (dependents map) queue visited indirect in
  NoDup r ∧ ∀ y, y ∈ r ↔ tc (depends map) id y ∧ y ≠ id ∧ ¬ depends map id y.
Proof.
  revert done_ queue visited indirect.
  induction fuel as [|fuel IH]; intros done_ [|current queue] visited indirect Hw Hf; simpl in *;
    try (by eapply walk_end); [lia|].
  eapply IH; [by apply walk_turn|].
  set (pushed := visit _ visited).
  assert (length pushed + length (unvisited map (visited ++ pushed)) ≤
    length (unvisited map visited))%nat.
  { apply unvisited_shrinks; [apply NoDup_visit|]. intros y.
    unfold pushed. rewrite elem_of_visit, elem_of_dependents. intros [Hd Hv].
    split; [done|]. by eapply depends_known. }
  rewrite length_app. lia.
Qed.
End walk.

(** [C31] The blast radius is exactly the transitive closure of the declared
    dependencies: the direct dependents are the modules that declare the
    module, the indirect ones are those that reach it through others (each
    once, without the module itself and the direct ones), and the walk always
    has enough fuel. *)
Theorem blast_radius_correct map id :
  let r := blast_radius map id in
  (∀ y, y ∈ br_direct r ↔ depends map id y) ∧
  NoDup (br_indirect r) ∧
  (∀ y, y ∈ br_indirect r ↔ tc (depends map) id y ∧ y ≠ id ∧ ¬ depends map id y).
Proof.
  intros r. split; [apply elem_of_dependents|].
  apply (bfs_correct map id _ [] _ _ [] (walk_start map id)). unfold bfs_fuel.
  assert (length (unvisited map (dedup (id :: get_or_empty (dependents map) id))) ≤ length map)%nat;
    [|lia].
  unfold unvisited. etrans; [apply length_filter|].
  rewrite <- (length_fmap mi_id map). apply submseteq_length, NoDup_submseteq; [apply NoDup_dedup|].
  intros y. by rewrite elem_of_dedup.
Qed.

(** ** The table: round trip and scope *)

(** What is stored is what is read back, for every module of every
    organisation: [setDependencies] changes the entry it is given and no other
    (another organisation's entry of the same name included). *)
Theorem dependencies_round_trip org id depends_on exports owners w org' id' :
  org ∈ db_orgs (w_db w) →
  let w' := run (setDependencies org id depends_on exports owners) w in
  result (setDependencies org id depends_on exports owners) w = Ok () ∧
  result (getModuleInfo org' id') w' =
    if decide (org' = org ∧ id' = id) then Ok (Some (mkModule id depends_on exports owners))
    else result (getModuleInfo org' id') w.
Proof.
  intros Ho w'. subst w'. unfold run, result, setDependencies, getModuleInfo. rewrite bind_gets.
  destruct (select_one (is_module org id) (db_deps (w_db w))) as [r|] eqn:E; simpl.
  - split; [done|]. rewrite select_one_update_where by done.
    destruct (select_one (is_module org' id') (db_deps (w_db w))) as [x|] eqn:E'; simpl.
    + apply select_one_Some in E' as [[<- <-] _].
      destruct (decide (is_module org id x)) as [[<- <-]|Hd].
      * by rewrite decide_True.
      * by rewrite decide_False.
    + case_decide as Hd; [|done]. destruct Hd as [-> ->]. congruence.
  - unfold checked_insert. rewrite bind_gets, !decide_True by done. simpl. split; [done|].
    unfold select_one in *. rewrite filter_app, filter_cons, filter_nil.
    destruct (decide (org' = org ∧ id' = id)) as [[-> ->]|Hn].
    + rewrite decide_True by done. revert E.
      by destruct (filter (is_module org id) (db_deps (w_db w))).
    + rewrite decide_False by (unfold is_module; naive_solver). by rewrite app_nil_r.
Qed.

Lemma dependencies_round_trip_witness :
  result (getModuleInfo "default" "api")
    (run (setDependencies "default" "api" ["core"] ["v1"] ["alice"]) start) =
  Ok (Some (mkModule "api" ["core"] ["v1"] ["alice"])).
Proof.
  rewrite (proj2 (dependencies_round_trip "default" "api" ["core"] ["v1"] ["alice"] start
    "default" "api" (list_elem_of_here _ _))).
  vm_compute. reflexivity.
Defined.

End DependencyMap.
