(* ===== verification/ImpactScorer.v ===== *)
(** * Impact scoring ([src/impact-scorer.ts])

    How strongly an announcement concerns each online agent. Five layers of
    evidence (announced intent, files touched or in flight, dependencies,
    modules, git co-change) give hits with a score and a reason; an agent's
    score is the best hit. Batched reads serve all agents at once; they are
    proved equal to the per agent reads they replace. *)

From S2P Require Import Prelude Database Registry Consultation FileTracking Invariant.
Import Registry Consultation FileTracker WorkingFiles.
Local Open Scope Z_scope.

Module ImpactScorer.

Record ImpactScore := mkImpact {
  is_agent_id : string;
  is_agent_name : string;
  is_score : Z;
  is_reasons : list string;
  is_reason : string
}.

Record CategorizedImpact := mkCategorized {
  ci_concerned : list ImpactScore;
  ci_gray_zone : list ImpactScore;
  ci_pass : list ImpactScore
}.

Record ScoreParams := mkScoreParams {
  sp_org : string;
  sp_agent : string;
  sp_target_modules : list string;
  sp_target_files : list string;
  sp_depends_on_files : option (list string);
  sp_target_symbols : option (list string)
}.

Definition LAYER_0_WINDOW_MINUTES : Z := 30.
Definition FILE_ACTIVITY_WINDOW_MINUTES : Z := 60.

(** ** [(count / max(total, 1)).toFixed(2)]

    The quotient is the nearest double (53 significant bits, ties to even),
    and [toFixed] rounds that double's exact value to two decimals, ties up. *)

Definition quotient_bits (c t k : Z) : Z :=
  if decide (0 ≤ k) then (c * 2 ^ k) / t else c / (t * 2 ^ (- k)).

(** The exponent that leaves 53 bits before the point. *)
Definition double_exp (c t : Z) : Z :=
  let k := 53 - (Z.log2 c - Z.log2 t) in
  if decide (2 ^ 53 ≤ quotient_bits c t k) then k - 1 else k.

Definition round_half_even (num den : Z) : Z :=
  let q := num / den in
  let r := 2 * (num mod den) in
  if decide (r < den) then q
  else if decide (den < r) then q + 1
  else if Z.even q then q else q + 1.

(** Hundredths of the double nearest to [c / t], for [0 <= c], [0 < t]. *)
Definition hundredths (c t : Z) : Z :=
  if decide (c = 0) then 0
  else
    let k := double_exp c t in
    if decide (0 ≤ k) then
      let m := round_half_even (c * 2 ^ k) t in
      (200 * m + 2 ^ k) / (2 * 2 ^ k)
    else 100 * (round_half_even c (t * 2 ^ (- k)) * 2 ^ (- k)).

Definition two_digits (n : Z) : string :=
  (if decide (n < 10) then "0" else "") +:+ pretty n.

Definition toFixed2 (c t : Z) : string :=
  let h := hundredths c t in
  pretty (h / 100) +:+ "." +:+ two_digits (h mod 100).

(** ** Git co-change (layer 4) *)

Record Candidate := mkCandidate { cd_partner : string; cd_score : Z; cd_count : Z; cd_total : Z }.

(** [ratio > 0.5], [ratio > 0.2]: a double quotient of such integers compares
    with these constants as the fraction does. *)
Definition cochange_score (count total : Z) : Z :=
  if decide (total < 2 * count) then 60
  else if decide (total < 5 * count) then 40
  else 0.

Definition candidate_of (file : string) (g : Cochange) : option Candidate :=
  let partner := if String.eqb (g_file_a g) file then g_file_b g else g_file_a g in
  let total := Z.max (g_total g) 1 in
  let score := cochange_score (g_count g) total in
  if decide (score = 0) then None else Some (mkCandidate partner score (g_count g) total).

Definition cochange_rows (org file : string) (d : Db) : list Cochange :=
  select (λ g, g_org g = org ∧ (g_file_a g = file ∨ g_file_b g = file)) (db_cochange d).

Definition _layer4Candidates (org : string) (files : list string) : M (jsmap (list Candidate)) :=
  gets (λ w, foldl (λ m file, map_set file (omap (candidate_of file) (cochange_rows org file (w_db w))) m)
               [] files).

Definition pair_key (file agent : string) : string := file +:+ "|" +:+ agent.

Definition _layer4PartnerActivity (org : string) (byFile : jsmap (list Candidate))
    : M (list string) :=
  let partners := dedup (cd_partner <$> mjoin (snd <$> byFile)) in
  if decide (partners = []) then mret []
  else gets (λ w, dedup ((λ r, pair_key r.1 r.2) <$> dedup ((λ f, (f_path f, f_agent f)) <$>
         select (λ f, f_org f = org ∧ f_path f ∈ partners ∧ within (now_sec w) 60 f)
           (db_files (w_db w))))).

(** ** Symbols (annotation of layer 1) *)

Definition has_symbols (org : string) (files : list string) (f : FileActivity) : Prop :=
  f_org f = org ∧ f_path f ∈ files ∧ f_symbols f ≠ JNull.

#[global] Instance has_symbols_dec org files f : Decision (has_symbols org files f).
Proof. unfold has_symbols. apply _. Defined.

(** The newest row of each (agent, file) group; malformed JSON is skipped. *)
Definition _collectSymbolsTouched (org : string) (files : list string) : M (jsmap (list string)) :=
  gets (λ w,
    let rows := db_files (w_db w) in
    foldl (λ m f,
        match f_symbols f with
        | JText l => map_set (pair_key (f_path f) (f_agent f)) l m
        | _ => m
        end) []
      (select (λ f, has_symbols org files f ∧
         ¬ Exists (λ g, has_symbols org files g ∧ f_agent g = f_agent f ∧ f_path g = f_path f ∧
                        f_id f < f_id g) rows) rows)).

(** ** The layers, as hits *)

Definition hit : Type := Z * string.

Definition meet (xs ys : list string) : list string := filter (λ f, f ∈ ys) xs.

Definition thread_tag (t : Thread) : string := "(thread " +:+ String.substring 0 8 (t_id t) +:+ ")".

Definition hit_if (score : Z) (prefix suffix : string) (l : list string) : list hit :=
  if decide (l = []) then [] else [(score, prefix +:+ join ", " l +:+ suffix)].

(** Layer 0: one thread the agent initiated. *)
Definition layer0_thread (p : ScoreParams) (t : Thread) : list hit :=
  let threadFiles := safeJsonParse (t_target_files t) in
  let threadDeps := safeJsonParse (t_depends_on t) in
  hit_if 100 "announced same file: " (" " +:+ thread_tag t) (meet (sp_target_files p) threadFiles) ++
  match sp_depends_on_files p with
  | Some deps => hit_if 80 "modifies my dependency: " (" " +:+ thread_tag t) (meet deps threadFiles)
  | None => []
  end ++
  hit_if 80 "they depend on my target: " (" " +:+ thread_tag t) (meet (sp_target_files p) threadDeps).

Definition layer0 (p : ScoreParams) (threadsByAgent : jsmap (list Thread)) (agent : string)
    : list hit :=
  mjoin (layer0_thread p <$> default [] (map_get agent threadsByAgent)).

Definition has_agent (idx : jsmap (list string)) (file agent : string) : bool :=
  match map_get file idx with
  | Some set => bool_decide (agent ∈ set)
  | None => false
  end.

(** The disjoint symbols annotation, when both sides name symbols. *)
Definition disjoint_reason (p : ScoreParams) (symbols : option (jsmap (list string)))
    (file agent : string) : option string :=
  match sp_target_symbols p, symbols ≫= map_get (pair_key file agent) with
  | Some (m :: ms), Some (t :: ts) =>
      let mine := dedup (m :: ms) in
      let theirs := dedup (t :: ts) in
      if decide (meet mine theirs = [])
      then Some ("same file: " +:+ file +:+ "; disjoint symbols: you=[" +:+ join "," mine +:+
                 "], them=[" +:+ join "," theirs +:+ "] — verify shared module state")
      else None
  | _, _ => None
  end.

Definition layer1_file (p : ScoreParams) (recentIdx inFlightIdx : jsmap (list string))
    (symbols : option (jsmap (list string))) (agent file : string) : list hit :=
  (if has_agent recentIdx file agent
   then [(100, default ("same file (recent): " +:+ file) (disjoint_reason p symbols file agent))]
   else []) ++
  (if has_agent inFlightIdx file agent
   then [(100, "same file (in flight): " +:+ file)] else []).

Definition layer2 (p : ScoreParams) (recentIdx : jsmap (list string)) (agent : string) : list hit :=
  mjoin ((λ file, if has_agent recentIdx file agent
                   then [(80, "depends on: " +:+ file)] else []) <$>
          default [] (sp_depends_on_files p)).

Definition layer3 (p : ScoreParams) (agentModules : list string) : list hit :=
  hit_if 30 "module overlap: " ""
    (filter (λ am, Is_true (existsb (module_overlap am) (sp_target_modules p))) agentModules).

Definition layer4_file (byFile : jsmap (list Candidate)) (active : list string)
    (agent file : string) : list hit :=
  mjoin ((λ c, if decide (pair_key (cd_partner c) agent ∈ active)
                then [(cd_score c, "co-change: " +:+ file +:+ " ↔ " +:+ cd_partner c +:+
                         " (ratio " +:+ toFixed2 (cd_count c) (cd_total c) +:+ ")")]
                else []) <$> default [] (map_get file byFile)).

(** ** Scoring *)

Definition group_by_initiator (ts : list Thread) : jsmap (list Thread) :=
  foldl (λ m t, map_set (t_initiator t) (default [] (map_get (t_initiator t) m) ++ [t]) m) [] ts.

(** [maxScore] and [reasons] after all pushes. *)
Definition impact_of (a : Agent) (hits : list hit) : ImpactScore :=
  mkImpact (a_id a) (a_name a) (foldl Z.max 0 (fst <$> hits)) (snd <$> hits)
    (default "no link detected" (truthy (head (snd <$> hits)))).

Definition status_filter (s : ThreadStatus) (since : option Z) : ThreadFilters :=
  mkFilters (Some s) None None None since None.

Definition score (p : ScoreParams) : M (list ImpactScore) :=
  online ← listOnline (sp_org p);
  let agents := filter (λ a, a_id a ≠ sp_agent p) online in
  if decide (agents = []) then mret []
  else
    let filesToIndex := sp_target_files p ++ default [] (sp_depends_on_files p) in
    recentIdx ← (if decide (filesToIndex = []) then mret []
                 else getFileToAgentsIndex (sp_org p) filesToIndex (sp_agent p)
                        FILE_ACTIVITY_WINDOW_MINUTES);
    inFlightIdx ← getIndex (sp_org p) filesToIndex (sp_agent p);
    symbols ← match sp_target_symbols p, sp_target_files p with
              | Some (_ :: _), _ :: _ =>
                  m ← _collectSymbolsTouched (sp_org p) (sp_target_files p); mret (Some m)
              | _, _ => mret None
              end;
    byFile ← _layer4Candidates (sp_org p) (sp_target_files p);
    active ← _layer4PartnerActivity (sp_org p) byFile;
    open_ ← listThreads (sp_org p) (status_filter TOpen None);
    resolving ← listThreads (sp_org p) (status_filter TResolving None);
    resolved ← listThreads (sp_org p) (status_filter TResolved (Some LAYER_0_WINDOW_MINUTES));
    let byAgent := group_by_initiator (open_ ++ resolving ++ resolved) in
    mret ((λ a, impact_of a
       (layer0 p byAgent (a_id a) ++
        mjoin (layer1_file p recentIdx inFlightIdx symbols (a_id a) <$> sp_target_files p) ++
        layer2 p recentIdx (a_id a) ++
        layer3 p (safeJsonParse (a_modules a)) ++
        mjoin (layer4_file byFile active (a_id a) <$> sp_target_files p))) <$> agents).

Definition categorize (p : ScoreParams) : M CategorizedImpact :=
  scores ← score p;
  mret (mkCategorized
    (filter (λ s, 90 ≤ is_score s) scores)
    (filter (λ s, 30 ≤ is_score s ∧ is_score s < 90) scores)
    (filter (λ s, is_score s < 30) scores)).

(** ** Specifications *)

(** The agent announced work on the file: an active thread of the organisation,
    or one resolved inside the window. *)
Definition announced (org agent file : string) (now : Z) (t : Thread) : Prop :=
  t_org t = org ∧ t_initiator t = agent ∧ file ∈ safeJsonParse (t_target_files t) ∧
  (t_status t = TOpen ∨ t_status t = TResolving ∨
   (t_status t = TResolved ∧ since_window now LAYER_0_WINDOW_MINUTES t)).

(** The agent edited the file in the last hour. *)
Definition edited_by (org agent file : string) (now : Z) (f : FileActivity) : Prop :=
  f_org f = org ∧ f_path f = file ∧ f_agent f = agent ∧
  within now FILE_ACTIVITY_WINDOW_MINUTES f.

(** The agent is editing the file now. *)
Definition editing (org agent file : string) (now : Z) (r : WorkingFile) : Prop :=
  wf_org r = org ∧ wf_path r = file ∧ wf_agent r = agent ∧ now < wf_until r.

(** Some evidence that the agent works on one of the announced files. *)
Definition works_on_target (p : ScoreParams) (agent : string) (w : World) : Prop :=
  ∃ file, file ∈ sp_target_files p ∧
    ((∃ t, t ∈ db_threads (w_db w) ∧ announced (sp_org p) agent file (now_sec w) t) ∨
     (∃ f, f ∈ db_files (w_db w) ∧ edited_by (sp_org p) agent file (now_sec w) f) ∨
     (∃ r, r ∈ db_working (w_db w) ∧ editing (sp_org p) agent file (now_sec w) r)).

(** The agent specific reads layer 4 replaced: for one agent and one file, the
    co-change rows whose partner file the agent touched within the hour. *)
Definition touched_recently (org agent file : string) (w : World) : Prop :=
  Exists (λ f, f_org f = org ∧ f_path f = file ∧ f_agent f = agent ∧ within (now_sec w) 60 f)
    (db_files (w_db w)).

#[global] Instance touched_recently_dec org agent file w :
  Decision (touched_recently org agent file w).
Proof. unfold touched_recently. apply _. Defined.

Definition layer4_reference (org agent file : string) (w : World) : list hit :=
  mjoin ((λ c, if decide (touched_recently org agent (cd_partner c) w)
                then [(cd_score c, "co-change: " +:+ file +:+ " ↔ " +:+ cd_partner c +:+
                         " (ratio " +:+ toFixed2 (cd_count c) (cd_total c) +:+ ")")]
                else []) <$> omap (candidate_of file) (cochange_rows org file (w_db w))).

(** ** Layer 4: the batched reads *)

Lemma candidates_get org files w file :
  file ∈ files →
  ∃ m, _layer4Candidates org files w = (w, Ok m) ∧
    map_get file m = Some (omap (candidate_of file) (cochange_rows org file (w_db w))) ∧
    (∀ c, c ∈ omap (candidate_of file) (cochange_rows org file (w_db w)) →
       cd_partner c ∈ cd_partner <$> mjoin (snd <$> m)).
Proof.
  intros Hin. eexists. split; [reflexivity|].
  set (g f := omap (candidate_of f) (cochange_rows org f (w_db w))).
  assert (∀ l m, map_get file (foldl (λ m f, map_set f (g f) m) m l) =
    if decide (file ∈ l) then Some (g file) else map_get file m) as Hget.
  { induction l as [|x l IH]; intros m; simpl; [done|]. rewrite IH, map_get_set.
    destruct (decide (file ∈ l)) as [Hl|Hl].
    - rewrite decide_True by set_solver. done.
    - destruct (decide (file = x)) as [->|]; [rewrite decide_True by left; done|].
      rewrite decide_False; [done|]. set_solver. }
  specialize (Hget files []). rewrite decide_True in Hget by done. split; [exact Hget|].
  intros c Hc. apply list_elem_of_fmap_2. unfold map_get in Hget.
  destruct (select_one (λ p, p.1 = file) _) as [[k v]|] eqn:E; [|done].
  simpl in Hget. injection Hget as ->. apply select_one_Some in E as [_ E].
  apply list_elem_of_join. exists (g file). split; [done|].
  apply list_elem_of_fmap. by exists (k, g file).
Qed.

Lemma pair_key_inj f a f' a' :
  has_char "|" a = false → has_char "|" a' = false →
  pair_key f a = pair_key f' a' → f = f' ∧ a = a'.
Proof. intros Ha Ha'. by apply (sep_inj "|"). Qed.

Lemma elem_of_active org m w agent partner :
  Forall (λ f, has_char "|" (f_agent f) = false) (db_files (w_db w)) →
  has_char "|" agent = false → partner ∈ cd_partner <$> mjoin (snd <$> m) →
  ∃ act, _layer4PartnerActivity org m w = (w, Ok act) ∧
    (pair_key partner agent ∈ act ↔ touched_recently org agent partner w).
Proof.
  intros Hf Ha Hp. unfold _layer4PartnerActivity. rewrite decide_False.
  2:{ intros E. rewrite <- elem_of_dedup, E in Hp. by apply not_elem_of_nil in Hp. }
  eexists. split; [reflexivity|]. rewrite elem_of_dedup, list_elem_of_fmap.
  unfold touched_recently. rewrite Exists_exists. split.
  - intros ([f' a'] & E & Hr). rewrite elem_of_dedup, list_elem_of_fmap in Hr.
    destruct Hr as (f & [= -> ->] & [(? & _ & ?) Hin]%elem_of_select). cbn [fst snd] in E.
    rewrite Forall_forall in Hf. apply pair_key_inj in E as [-> ->]; [|done|by apply Hf].
    by exists f.
  - intros (f & Hin & ? & <- & <- & ?). exists (f_path f, f_agent f). split; [done|].
    rewrite elem_of_dedup, list_elem_of_fmap. exists f. split; [done|].
    apply elem_of_select. by rewrite elem_of_dedup.
Qed.

(** The batched co-change layer gives every agent the hits the per agent,
    per file reads gave, in the same order, as long as agent ids do not contain
    the "|" that separates file and agent in the batched set. *)
Theorem layer4_batched org files w agent file :
  Forall (λ f, has_char "|" (f_agent f) = false) (db_files (w_db w)) →
  has_char "|" agent = false → file ∈ files →
  ∃ m act, _layer4Candidates org files w = (w, Ok m) ∧
    _layer4PartnerActivity org m w = (w, Ok act) ∧
    layer4_file m act agent file = layer4_reference org agent file w.
Proof.
  intros Hf Ha Hin. destruct (candidates_get org files w file Hin) as (m & E & Hget & Hpart).
  assert (∃ act, _layer4PartnerActivity org m w = (w, Ok act)) as [act Eact].
  { unfold _layer4PartnerActivity. case_decide; by eexists. }
  exists m, act. split_and!; [done..|]. unfold layer4_file, layer4_reference. rewrite Hget.
  cbn [from_option id]. f_equal. apply list_fmap_ext. intros i c Hc%list_elem_of_lookup_2.
  destruct (elem_of_active org m w agent (cd_partner c) Hf Ha (Hpart c Hc)) as (act' & E' & Hiff).
  rewrite E' in Eact. injection Eact as ->.
  by destruct (decide (pair_key _ _ ∈ act)), (decide (touched_recently _ _ _ _)); [|tauto..|].
Qed.

(** ** The score of an agent *)

Lemma listThreads_eval org f w :
  truthy (fl_module f) = None →
  listThreads org f w =
    (w, Ok (merge_sort newest_first (select (matches org f (now_sec w)) (db_threads (w_db w))))).
Proof.
  intros Hm. unfold listThreads. rewrite bind_gets, bool_decide_eq_false_2; [done|].
  rewrite Hm. by intros [? _].
Qed.

Lemma group_get ts a : default [] (map_get a (group_by_initiator ts)) = filter (λ t, t_initiator t = a) ts.
Proof.
  unfold group_by_initiator. induction ts as [|t ts IH] using rev_ind; [done|].
  rewrite foldl_app. cbn [foldl]. rewrite map_get_set, filter_app, filter_cons, filter_nil.
  destruct (decide (a = t_initiator t)) as [->|Hne].
  - rewrite decide_True by done. simpl. by rewrite IH.
  - rewrite decide_False by done. by rewrite app_nil_r, IH.
Qed.

Lemma max_ge l b : 0 < b → b ≤ foldl Z.max 0 l ↔ ∃ x, x ∈ l ∧ b ≤ x.
Proof.
  intros Hb. assert (∀ acc, b ≤ foldl Z.max acc l ↔ b ≤ acc ∨ ∃ x, x ∈ l ∧ b ≤ x) as H.
  { induction l as [|y l IH]; intros acc; simpl.
    - split; [by left|]. intros [?|(x & ?%not_elem_of_nil & _)]; done.
    - rewrite IH. setoid_rewrite elem_of_cons. split.
      + intros [?|(x & ? & ?)]; [|right; exists x; tauto].
        destruct (decide (b ≤ acc)); [by left|right]. exists y. split; [by left|lia].
      + intros [?|(x & [->|?] & ?)]; [left; lia|left; lia|right; by exists x]. }
  rewrite H. split; [intros [?|?]; [lia|done]|by right].
Qed.

(** A hit of at least [b] among the hits of a layer. *)
Definition strong (b : Z) (hits : list hit) : Prop := ∃ h, h ∈ hits ∧ b ≤ h.1.

Lemma strong_app b l k : strong b (l ++ k) ↔ strong b l ∨ strong b k.
Proof. unfold strong. setoid_rewrite elem_of_app. naive_solver. Qed.

Lemma strong_mjoin {A} b (f : A → list hit) l : strong b (mjoin (f <$> l)) ↔ ∃ x, x ∈ l ∧ strong b (f x).
Proof.
  unfold strong. setoid_rewrite list_elem_of_join. split.
  - intros (h & (ys & Hh & (x & -> & Hx)%list_elem_of_fmap) & Hb). eauto.
  - intros (x & Hx & h & Hh & Hb). exists h. split; [|done]. exists (f x).
    split; [done|]. by apply list_elem_of_fmap_2.
Qed.

Lemma strong_nil b : ¬ strong b [].
Proof. by intros (h & ?%not_elem_of_nil & _). Qed.

Lemma strong_one b s r : strong b [(s, r)] ↔ b ≤ s.
Proof.
  unfold strong. split; [by intros (h & ->%list_elem_of_singleton & ?)|].
  intros ?. eexists. split; [by apply list_elem_of_singleton|done].
Qed.

Lemma strong_hit_if b s pre suf l : strong b (hit_if s pre suf l) ↔ l ≠ [] ∧ b ≤ s.
Proof.
  unfold hit_if. case_decide; [|rewrite strong_one; tauto].
  split; [by intros ?%strong_nil|naive_solver].
Qed.

Lemma meet_ne xs ys : meet xs ys ≠ [] ↔ ∃ f, f ∈ xs ∧ f ∈ ys.
Proof.
  unfold meet. split.
  - destruct (filter _ xs) as [|f l] eqn:E; [done|]. intros _. exists f.
    assert (f ∈ filter (λ f, f ∈ ys) xs) as [??]%list_elem_of_filter by (rewrite E; left). done.
  - intros (f & Hx & Hy) E. assert (f ∈ filter (λ f, f ∈ ys) xs) as Hf by by apply list_elem_of_filter.
    rewrite E in Hf. by apply not_elem_of_nil in Hf.
Qed.

(** What a read that cannot fail returns. *)
Definition read {A} (dflt : A) (m : M A) (w : World) : A :=
  match result m w with Ok a => a | Throw _ => dflt end.

Definition live_threads (org : string) (w : World) : list Thread :=
  read [] (listThreads org (status_filter TOpen None)) w ++
  read [] (listThreads org (status_filter TResolving None)) w ++
  read [] (listThreads org (status_filter TResolved (Some LAYER_0_WINDOW_MINUTES))) w.

Definition indexed_files (p : ScoreParams) : list string :=
  sp_target_files p ++ default [] (sp_depends_on_files p).

Definition recent_index (p : ScoreParams) (w : World) : jsmap (list string) :=
  read [] (getFileToAgentsIndex (sp_org p) (indexed_files p) (sp_agent p)
             FILE_ACTIVITY_WINDOW_MINUTES) w.

Definition flight_index (p : ScoreParams) (w : World) : jsmap (list string) :=
  read [] (getIndex (sp_org p) (indexed_files p) (sp_agent p)) w.

Definition cochange_hits (p : ScoreParams) (w : World) (agent file : string) : list hit :=
  let byFile := read [] (_layer4Candidates (sp_org p) (sp_target_files p)) w in
  layer4_file byFile (read [] (_layer4PartnerActivity (sp_org p) byFile) w) agent file.

(** The hits of one agent. *)
Definition agent_hits (p : ScoreParams) (w : World) (symbols : option (jsmap (list string)))
    (a : Agent) : list hit :=
  layer0 p (group_by_initiator (live_threads (sp_org p) w)) (a_id a) ++
  mjoin (layer1_file p (recent_index p w) (flight_index p w) symbols (a_id a) <$> sp_target_files p) ++
  layer2 p (recent_index p w) (a_id a) ++
  layer3 p (safeJsonParse (a_modules a)) ++
  mjoin (cochange_hits p w (a_id a) <$> sp_target_files p).

Lemma read_eval {A} (dflt : A) m w a : m w = (w, Ok a) → m w = (w, Ok (read dflt m w)).
Proof. unfold read, result. by intros ->. Qed.

Lemma score_eval p w :
  ∃ online symbols,
    listOnline (sp_org p) w = (w, Ok online) ∧
    score p w = (w, Ok ((λ a, impact_of a (agent_hits p w symbols a)) <$>
                          filter (λ a, a_id a ≠ sp_agent p) online)).
Proof.
  unfold score. destruct (listOnline (sp_org p) w) as [w0 r0] eqn:El.
  unfold listOnline, gets in El. injection El as <- <-. eexists.
  rewrite (bind_Ok (listOnline (sp_org p)) _ w w _ eq_refl).
  set (agents := filter _ _). case_decide as Hag.
  { exists None. split; [done|]. unfold agents in Hag. by rewrite Hag. }
  rewrite (bind_Ok _ _ w w (recent_index p w)).
  2:{ unfold recent_index. fold (indexed_files p). case_decide as Hi.
      - unfold read, result, getFileToAgentsIndex. by rewrite decide_True.
      - unfold getFileToAgentsIndex. by rewrite decide_False. }
  rewrite (bind_Ok _ _ w w (flight_index p w)).
  2:{ unfold flight_index, getIndex. fold (indexed_files p). case_decide; done. }
  assert (∃ s, (match sp_target_symbols p, sp_target_files p with
              | Some (_ :: _), _ :: _ =>
                  m ← _collectSymbolsTouched (sp_org p) (sp_target_files p); mret (Some m)
              | _, _ => mret None
              end) w = (w, Ok s)) as [s Es].
  { destruct (sp_target_symbols p) as [[|??]|]; [by eexists| |by eexists].
    destruct (sp_target_files p); by eexists. }
  exists s. split; [done|]. rewrite (bind_Ok _ _ w w s Es).
  rewrite (bind_Ok (_layer4Candidates (sp_org p) (sp_target_files p)) _ w w _
    (read_eval [] _ w _ eq_refl)).
  set (byFile := read [] (_layer4Candidates _ _) w).
  rewrite (bind_Ok _ _ w w (read [] (_layer4PartnerActivity (sp_org p) byFile) w)).
  2:{ unfold _layer4PartnerActivity. case_decide; by eapply read_eval. }
  assert (∀ st since, listThreads (sp_org p) (status_filter st since) w =
    (w, Ok (read [] (listThreads (sp_org p) (status_filter st since)) w))) as Hl.
  { intros st since. eapply read_eval. by apply listThreads_eval. }
  rewrite (bind_Ok _ _ w w _ (Hl TOpen None)), (bind_Ok _ _ w w _ (Hl TResolving None)).
  by rewrite (bind_Ok _ _ w w _ (Hl TResolved (Some LAYER_0_WINDOW_MINUTES))).
Qed.

Lemma elem_of_live org w t :
  t ∈ live_threads org w ↔ t ∈ db_threads (w_db w) ∧ t_org t = org ∧
    (t_status t = TOpen ∨ t_status t = TResolving ∨
     (t_status t = TResolved ∧ since_window (now_sec w) LAYER_0_WINDOW_MINUTES t)).
Proof.
  unfold live_threads, read, result. rewrite !listThreads_eval by done. cbn [snd].
  rewrite !elem_of_app, !merge_sort_Permutation. unfold select.
  rewrite !list_elem_of_filter. unfold matches, matches_before_module, status_filter. simpl.
  tauto.
Qed.

Lemma has_agent_build rows f a :
  NoDup rows → has_agent (build_index rows) f a = true ↔ (f, a) ∈ rows.
Proof.
  intros Hnd. unfold has_agent. rewrite build_index_get by done.
  assert (a ∈ snd <$> filter (λ r, r.1 = f) rows ↔ (f, a) ∈ rows) as <-.
  { rewrite list_elem_of_fmap. setoid_rewrite list_elem_of_filter. split.
    - by intros ([f' a'] & -> & <- & ?).
    - intros Hin. by exists (f, a). }
  destruct (snd <$> filter (λ r, r.1 = f) rows) as [|b l].
  - split; [done|by intros ?%not_elem_of_nil].
  - by rewrite bool_decide_eq_true.
Qed.

Lemma recent_spec p w f a :
  f ∈ indexed_files p → a ≠ sp_agent p →
  has_agent (recent_index p w) f a = true ↔
  ∃ x, x ∈ db_files (w_db w) ∧ edited_by (sp_org p) a f (now_sec w) x.
Proof.
  intros Hf Ha. unfold recent_index, read, result, getFileToAgentsIndex.
  rewrite decide_False by (intros E; rewrite E in Hf; by apply not_elem_of_nil in Hf).
  cbn [snd gets]. rewrite has_agent_build by apply NoDup_dedup.
  rewrite elem_of_dedup, list_elem_of_fmap. setoid_rewrite elem_of_select. unfold edited_by.
  split; [|naive_solver]. intros (x & [= -> ->] & ? & ?). naive_solver.
Qed.

Lemma flight_spec p w f a :
  f ∈ indexed_files p → a ≠ sp_agent p →
  has_agent (flight_index p w) f a = true ↔
  ∃ r, r ∈ db_working (w_db w) ∧ editing (sp_org p) a f (now_sec w) r.
Proof.
  intros Hf Ha. unfold flight_index, read, result, getIndex.
  rewrite decide_False by (intros E; rewrite E in Hf; by apply not_elem_of_nil in Hf).
  cbn [snd gets]. rewrite has_agent_build by apply NoDup_dedup.
  rewrite elem_of_dedup, list_elem_of_fmap. setoid_rewrite elem_of_select. unfold editing, in_flight.
  split; [|naive_solver]. intros (x & [= -> ->] & ? & ?). naive_solver.
Qed.

(** Layers 2, 3 and 4 never reach the concerned threshold. *)
Lemma weak_layers p w agent modules :
  ¬ strong 90 (layer2 p (recent_index p w) agent) ∧ ¬ strong 90 (layer3 p modules) ∧
  ∀ file, ¬ strong 90 (cochange_hits p w agent file).
Proof.
  split_and!.
  - unfold layer2. rewrite strong_mjoin. intros (f & _ & Hs). destruct (has_agent _ _ _).
    + rewrite strong_one in Hs. lia.
    + by apply strong_nil in Hs.
  - unfold layer3. rewrite strong_hit_if. lia.
  - intros file. unfold cochange_hits, layer4_file.
    assert (∀ f m, map_get f (read [] (_layer4Candidates (sp_org p) (sp_target_files p)) w) = Some m →
      Forall (λ c, cd_score c ≤ 60) m) as Hb.
    { unfold read, result, _layer4Candidates. simpl. intros f m.
      assert (∀ l acc, (∀ f m, map_get f acc = Some m → Forall (λ c, cd_score c ≤ 60) m) →
        ∀ f m, map_get f (foldl (λ m file, map_set file
          (omap (candidate_of file) (cochange_rows (sp_org p) file (w_db w))) m) acc l) = Some m →
        Forall (λ c, cd_score c ≤ 60) m) as Hgen; [|by apply Hgen].
      clear f m. induction l as [|x l IH]; intros acc Hacc; [done|]. simpl. apply IH.
      intros f m. rewrite map_get_set. case_decide; [|apply Hacc]. intros [= <-].
      apply Forall_forall. intros c (g & Hg & Hc)%list_elem_of_omap. revert Hc.
      unfold candidate_of, cochange_score. repeat case_decide; intros; simplify_eq/=; lia. }
    rewrite strong_mjoin. intros (c & Hc & Hs).
    destruct (map_get file _) as [m|] eqn:E; [|by apply not_elem_of_nil in Hc].
    specialize (Hb _ _ E). rewrite Forall_forall in Hb. specialize (Hb c Hc). revert Hs.
    case_decide; [rewrite strong_one; simpl in *; lia|by intros ?%strong_nil].
Qed.

Lemma strong_layer0 p w agent :
  strong 90 (layer0 p (group_by_initiator (live_threads (sp_org p) w)) agent) ↔
  ∃ file t, file ∈ sp_target_files p ∧ t ∈ db_threads (w_db w) ∧
    announced (sp_org p) agent file (now_sec w) t.
Proof.
  unfold layer0. rewrite group_get, strong_mjoin. setoid_rewrite list_elem_of_filter.
  setoid_rewrite elem_of_live.
  assert (∀ t, strong 90 (layer0_thread p t) ↔
    ∃ f, f ∈ sp_target_files p ∧ f ∈ safeJsonParse (t_target_files t)) as Ht.
  { intros t. unfold layer0_thread. rewrite !strong_app, !strong_hit_if, meet_ne.
    split; [|intros ?; left; split; [done|lia]].
    intros [[? _]|[Hs|[_ ?]]]; [done| |lia]. destruct (sp_depends_on_files p).
    - rewrite strong_hit_if in Hs. lia.
    - by apply strong_nil in Hs. }
  setoid_rewrite Ht. unfold announced. naive_solver.
Qed.

(** An agent reaches the concerned threshold exactly when there is evidence
    that it works on one of the announced files. *)
Lemma strong_agent p w symbols a :
  a_id a ≠ sp_agent p →
  strong 90 (agent_hits p w symbols a) ↔ works_on_target p (a_id a) w.
Proof.
  intros Ha. destruct (weak_layers p w (a_id a) (safeJsonParse (a_modules a))) as (H2 & H3 & H4).
  unfold agent_hits. rewrite !strong_app, strong_layer0, !strong_mjoin.
  assert (∀ f, f ∈ sp_target_files p →
    strong 90 (layer1_file p (recent_index p w) (flight_index p w) symbols (a_id a) f) ↔
    (∃ x, x ∈ db_files (w_db w) ∧ edited_by (sp_org p) (a_id a) f (now_sec w) x) ∨
    (∃ r, r ∈ db_working (w_db w) ∧ editing (sp_org p) (a_id a) f (now_sec w) r)) as H1.
  { intros f Hf. assert (f ∈ indexed_files p) as Hi by (apply elem_of_app; by left).
    rewrite <- (recent_spec p w f (a_id a) Hi Ha), <- (flight_spec p w f (a_id a) Hi Ha).
    unfold layer1_file. rewrite strong_app.
    destruct (has_agent _ _ _), (has_agent _ _ _); rewrite ?strong_one;
      pose proof (strong_nil 90); split; try tauto; intros; try (left; lia); try (right; lia);
      intuition lia. }
  unfold works_on_target. split.
  - intros [(f & t & ? & ? & ?)|[(f & Hf & Hs)|[?|[?|(f & _ & ?)]]]]; try tauto.
    + exists f. naive_solver.
    + apply (H1 f Hf) in Hs. exists f. tauto.
    + by destruct (H4 f).
  - intros (f & Hf & [(t & ? & ?)|Hs]); [left; by exists f, t|].
    right. left. exists f. split; [done|]. by apply H1.
Qed.

Lemma three_way {A} (P Q R : A → Prop)
    `{!∀ x, Decision (P x), !∀ x, Decision (Q x), !∀ x, Decision (R x)} (l : list A) :
  (∀ x, P x ∨ Q x ∨ R x) → (∀ x, P x → ¬ Q x ∧ ¬ R x) → (∀ x, Q x → ¬ R x) →
  filter P l ++ filter Q l ++ filter R l ≡ₚ l.
Proof.
  intros Hall HPx HQx. induction l as [|x l IH]; [done|]. rewrite !filter_cons.
  destruct (decide (P x)) as [HP|HP]; [|destruct (decide (Q x)) as [HQ|HQ]].
  - destruct (HPx x HP). rewrite !decide_False by done. simpl. by rewrite IH.
  - rewrite decide_False by eauto. simpl. by rewrite <- Permutation_middle, IH.
  - rewrite decide_True by naive_solver.
    rewrite app_assoc, <- Permutation_middle, <- app_assoc. by rewrite IH.
Qed.

(** [C30] Who is asked: the concerned agents are exactly the online agents other
    than the announcer with evidence of work on an announced file (an active or
    just resolved thread of theirs targets it, they edited it within the hour,
    or they are editing it); every other online agent lands in exactly one of
    the three categories; and scoring writes nothing. *)
Theorem concerned_iff p w :
  ∃ online c,
    listOnline (sp_org p) w = (w, Ok online) ∧ categorize p w = (w, Ok c) ∧
    (is_agent_id <$> ci_concerned c ++ ci_gray_zone c ++ ci_pass c) ≡ₚ
      a_id <$> filter (λ a, a_id a ≠ sp_agent p) online ∧
    ∀ id, id ∈ is_agent_id <$> ci_concerned c ↔
      id ≠ sp_agent p ∧ id ∈ a_id <$> online ∧ works_on_target p id w.
Proof.
  destruct (score_eval p w) as (online & symbols & El & Es). exists online.
  unfold categorize. rewrite (bind_Ok _ _ w w _ Es). eexists. split; [done|].
  split; [reflexivity|]. cbn [ci_concerned ci_gray_zone ci_pass]. split.
  - rewrite three_way; [|intros; lia..]. by rewrite <- list_fmap_compose.
  - intros id. rewrite !list_elem_of_fmap. split.
    + intros (s & -> & [Hs (a & -> & [Ha Hin]%list_elem_of_filter)%list_elem_of_fmap]%list_elem_of_filter).
      simpl in *. split_and!; [done|by exists a|]. apply (strong_agent p w symbols a Ha).
      apply (max_ge _ 90) in Hs as (x & (h & -> & Hh)%list_elem_of_fmap & Hx); [|lia]. by exists h.
    + intros (Hne & (a & -> & Hin) & Hw). exists (impact_of a (agent_hits p w symbols a)).
      split; [done|]. apply list_elem_of_filter. split.
      * apply (strong_agent p w symbols a Hne) in Hw as (h & Hh & Hb). simpl.
        apply (max_ge _ 90); [lia|]. exists h.1. split; [|done]. by apply list_elem_of_fmap_2.
      * apply list_elem_of_fmap. exists a. split; [done|]. by apply list_elem_of_filter.
Qed.

(** A concrete instance of the batched layer: bob touched the partner file. *)
Definition cochanged : World :=
  on_db (λ d, mkDb (db_orgs d) (db_agents d) (db_threads d) (db_messages d) (db_summaries d)
    (db_events d) (db_event_seq d) (db_deps d) (db_files d) (db_file_seq d)
    (db_introspections d) (db_activity d) (db_working d)
    [mkCochange "default" "src/a.ts" "src/b.ts" 2 3] (db_firings d)) edited.

Lemma layer4_batched_witness :
  ∃ m act, _layer4Candidates "default" ["src/a.ts"] cochanged = (cochanged, Ok m) ∧
    layer4_file m act "bob" "src/a.ts" =
      [(60, "co-change: src/a.ts ↔ src/b.ts (ratio 0.67)")].
Proof.
  destruct (layer4_batched "default" ["src/a.ts"] cochanged "bob" "src/a.ts")
    as (m & act & Em & _ & E).
  - apply (bool_decide_unpack _). vm_compute. reflexivity.
  - reflexivity.
  - left.
  - exists m, act. split; [exact Em|]. rewrite E. vm_compute. reflexivity.
Defined.

End ImpactScorer.
