(* ===== verification/Conflicts.v ===== *)
(** * Conflict detection ([src/conflict-detector.ts])

    What an announcement collides with: threads of others on the same modules
    or files, dependency chains in both directions, and files others edited
    recently. The file reports are characterised exactly, and the verdict
    "error" is compared with the refusals of [claim_task]. *)

From S2P Require Import Prelude Database Registry Consultation Claims Invariant Protocol.
From S2P Require Import FileTracking DependencyMap ImpactScorer.
Import Registry Consultation Claims Invariant FileTracker DependencyMap.
Local Open Scope Z_scope.

Module Conflicts.

Definition RESOLVED_THREAD_CONFLICT_WINDOW_MINUTES : Z := 30.

Record DetectParams := mkDetect {
  dp_org : string;
  dp_agent : string;
  dp_target_modules : list string;
  dp_target_files : list string;
  dp_run_id : option string
}.

Definition scope_filter (s : ThreadStatus) (since : option Z) (run : option string) : ThreadFilters :=
  mkFilters (Some s) None None None since run.

Definition common (xs ys : list string) : list string := filter (λ x, x ∈ ys) xs.

(** The two hoisted maps: what each target module depends on, and who depends
    on it. A module without an entry in the dependency map has neither. *)
Fixpoint module_maps (org : string) (modules : list string)
    (maps : jsmap (list string) * jsmap (list string))
    : M (jsmap (list string) * jsmap (list string)) :=
  match modules with
  | [] => mret maps
  | m :: modules =>
      info ← getModuleInfo org m;
      match info with
      | None => module_maps org modules maps
      | Some i =>
          radius ← getBlastRadius org m;
          module_maps org modules
            (map_set m (mi_depends_on i) maps.1,
             map_set m (br_direct radius ++ br_indirect radius) maps.2)
      end
  end.

(** The double quote. *)
Definition dq : string := String (Ascii.ascii_of_nat 34) "".

Definition quoted (s : string) : string := dq +:+ s +:+ dq.

Definition module_report (t : Thread) (l : list string) : ConflictReport :=
  mkConflict CModuleOverlap SevWarning (t_initiator t) (t_subject t)
    ("Module overlap on: " +:+ join ", " l)
    ("Thread " +:+ quoted (t_subject t) +:+ " (" +:+ t_initiator t +:+ ") targets same modules").

(** [status === "open" && claimed_by !== null && claimed_by !== agent_id]. *)
Definition held_by_another (agent : string) (t : Thread) : Prop :=
  t_status t = TOpen ∧ t_claimed_by t ≠ None ∧ t_claimed_by t ≠ Some agent.

#[global] Instance held_by_another_dec agent t : Decision (held_by_another agent t).
Proof. unfold held_by_another. apply _. Defined.

Definition file_report (agent : string) (t : Thread) (l : list string) : ConflictReport :=
  mkConflict CFileOverlap (if decide (held_by_another agent t) then SevError else SevWarning)
    (t_initiator t) (t_subject t)
    ("File overlap on: " +:+ join ", " l)
    (if decide (held_by_another agent t)
     then "Thread " +:+ quoted (t_subject t) +:+ " is held by " +:+ default "" (t_claimed_by t) +:+
          " and targets the same files. claim_task would refuse this overlap."
     else "Thread " +:+ quoted (t_subject t) +:+ " (" +:+ t_initiator t +:+ ") targets same files").

Definition depends_report (t : Thread) (target dep : string) : ConflictReport :=
  mkConflict CDependencyChain SevInfo (t_initiator t) (t_subject t)
    (target +:+ " depends on " +:+ dep +:+ " which is being modified")
    ("Thread " +:+ quoted (t_subject t) +:+ " modifies " +:+ dep +:+ ", a dependency of " +:+ target).

Definition dependent_report (t : Thread) (target dependent : string) : ConflictReport :=
  mkConflict CDependencyChain SevInfo (t_initiator t) (t_subject t)
    (dependent +:+ " depends on " +:+ target +:+ " which you are modifying")
    ("Thread " +:+ quoted (t_subject t) +:+ " works on " +:+ dependent +:+ ", which depends on " +:+
     target).

Definition hot_report (file other : string) : ConflictReport :=
  mkConflict CFileOverlap SevWarning other other
    ("Hot file: " +:+ file +:+ " recently edited by " +:+ other)
    ("File activity shows " +:+ file +:+ " was recently modified by " +:+ other).

Definition if_any {A} (f : list string → A) (l : list string) : list A :=
  if decide (l = []) then [] else [f l].

(** The reports one thread gives rise to. *)
Definition thread_reports (p : DetectParams) (deps dependents_ : jsmap (list string)) (t : Thread)
    : list ConflictReport :=
  if decide (t_initiator t = dp_agent p) then []
  else
    let threadModules := safeJsonParse (t_target_modules t) in
    let threadFiles := safeJsonParse (t_target_files t) in
    if_any (module_report t) (common (dp_target_modules p) threadModules) ++
    if_any (file_report (dp_agent p) t) (common (dp_target_files p) threadFiles) ++
    mjoin ((λ m,
      (depends_report t m <$> filter (λ d, d ∈ threadModules) (get_or_empty deps m)) ++
      (dependent_report t m <$> filter (λ d, d ∈ threadModules) (get_or_empty dependents_ m)))
      <$> dp_target_modules p).

(** The hot file loop: one report per agent that has no file report yet. *)
Definition hot_step (acc : list ConflictReport) (fo : string * string) : list ConflictReport :=
  if decide (Exists (λ c, c_agent_id c = fo.2 ∧ c_type c = CFileOverlap) acc) then acc
  else acc ++ [hot_report fo.1 fo.2].

Definition hot_pairs (files : list string) (idx : jsmap (list string)) : list (string * string) :=
  mjoin ((λ f, pair f <$> get_or_empty idx f) <$> files).

Definition detect (p : DetectParams) : M (list ConflictReport) :=
  open_ ← listThreads (dp_org p) (scope_filter TOpen None (dp_run_id p));
  resolving ← listThreads (dp_org p) (scope_filter TResolving None (dp_run_id p));
  resolved ← listThreads (dp_org p)
    (scope_filter TResolved (Some RESOLVED_THREAD_CONFLICT_WINDOW_MINUTES) (dp_run_id p));
  maps ← module_maps (dp_org p) (dp_target_modules p) ([], []);
  let reports := mjoin (thread_reports p maps.1 maps.2 <$> open_ ++ resolving ++ resolved) in
  idx ← getFileToAgentsIndex (dp_org p) (dp_target_files p) (dp_agent p) 60;
  mret (foldl hot_step reports (hot_pairs (dp_target_files p) idx)).

(** ** Specification *)

(** A thread the detector looks at. *)
Definition in_scope (p : DetectParams) (now : Z) (t : Thread) : Prop :=
  t_org t = dp_org p ∧
  opt_clause (truthy (dp_run_id p)) (λ r, t_run_id t = None ∨ t_run_id t = Some r) ∧
  (t_status t = TOpen ∨ t_status t = TResolving ∨
   (t_status t = TResolved ∧ since_window now RESOLVED_THREAD_CONFLICT_WINDOW_MINUTES t)).

(** A thread of somebody else that targets one of the announced files. *)
Definition collides (p : DetectParams) (t : Thread) : Prop :=
  t_initiator t ≠ dp_agent p ∧
  ∃ f, f ∈ dp_target_files p ∧ f ∈ safeJsonParse (t_target_files t).

(** ** Evaluation *)

Definition scoped_threads (p : DetectParams) (w : World) : list Thread :=
  ImpactScorer.read [] (listThreads (dp_org p) (scope_filter TOpen None (dp_run_id p))) w ++
  ImpactScorer.read [] (listThreads (dp_org p) (scope_filter TResolving None (dp_run_id p))) w ++
  ImpactScorer.read [] (listThreads (dp_org p)
    (scope_filter TResolved (Some RESOLVED_THREAD_CONFLICT_WINDOW_MINUTES) (dp_run_id p))) w.

Lemma elem_of_scoped p w t :
  t ∈ scoped_threads p w ↔ t ∈ db_threads (w_db w) ∧ in_scope p (now_sec w) t.
Proof.
  unfold scoped_threads, ImpactScorer.read, result. rewrite !ImpactScorer.listThreads_eval by done.
  cbn [snd]. rewrite !elem_of_app, !merge_sort_Permutation. unfold select.
  rewrite !list_elem_of_filter.
  unfold matches, matches_before_module, in_scope, scope_filter. simpl. tauto.
Qed.

Lemma module_maps_eval org modules maps w :
  ∃ maps', module_maps org modules maps w = (w, Ok maps').
Proof.
  revert maps. induction modules as [|m modules IH]; intros maps; simpl; [by eexists|].
  unfold getModuleInfo, getBlastRadius, getMap. rewrite bind_gets.
  destruct (info_of <$> _); [|apply IH]. apply IH.
Qed.

Lemma detect_eval p w :
  ∃ deps dependents_ idx,
    getFileToAgentsIndex (dp_org p) (dp_target_files p) (dp_agent p) 60 w = (w, Ok idx) ∧
    detect p w = (w, Ok (foldl hot_step
      (mjoin (thread_reports p deps dependents_ <$> scoped_threads p w))
      (hot_pairs (dp_target_files p) idx))).
Proof.
  destruct (module_maps_eval (dp_org p) (dp_target_modules p) ([], []) w) as [[deps dependents_] Em].
  destruct (getFileToAgentsIndex (dp_org p) (dp_target_files p) (dp_agent p) 60 w) as [w' r] eqn:Ei.
  assert (∃ idx, w' = w ∧ r = Ok idx) as (idx & -> & ->).
  { unfold getFileToAgentsIndex in Ei. case_decide; injection Ei as <- <-; by eexists. }
  exists deps, dependents_, idx. split; [done|].
  assert (∀ st since, listThreads (dp_org p) (scope_filter st since (dp_run_id p)) w =
    (w, Ok (ImpactScorer.read [] (listThreads (dp_org p) (scope_filter st since (dp_run_id p))) w)))
    as Hl.
  { intros st since. eapply ImpactScorer.read_eval. by apply ImpactScorer.listThreads_eval. }
  unfold detect. rewrite (bind_Ok _ _ w w _ (Hl TOpen None)), (bind_Ok _ _ w w _ (Hl TResolving None)).
  rewrite (bind_Ok _ _ w w _ (Hl TResolved (Some RESOLVED_THREAD_CONFLICT_WINDOW_MINUTES))).
  by rewrite (bind_Ok _ _ w w _ Em), (bind_Ok _ _ w w _ Ei).
Qed.

(** Somebody has a file report. *)
Definition has_file_report (agent : string) (l : list ConflictReport) : Prop :=
  ∃ c, c ∈ l ∧ c_agent_id c = agent ∧ c_type c = CFileOverlap.

Lemma hot_fold pairs acc :
  (∀ b, has_file_report b (foldl hot_step acc pairs) ↔
        has_file_report b acc ∨ ∃ f, (f, b) ∈ pairs) ∧
  (∀ c, c_severity c = SevError → c ∈ foldl hot_step acc pairs ↔ c ∈ acc).
Proof.
  revert acc. induction pairs as [|[f o] pairs IH]; intros acc; simpl.
  { split; [|done]. intros b. split; [by left|]. intros [?|(f & ?%not_elem_of_nil)]; done. }
  destruct (IH (hot_step acc (f, o))) as [IH1 IH2]. split.
  - intros b. rewrite IH1. setoid_rewrite elem_of_cons.
    assert (has_file_report b (hot_step acc (f, o)) ↔ has_file_report b acc ∨ b = o) as ->.
    { unfold hot_step. case_decide as Hd; cbn [fst snd] in *.
      - split; [by left|]. intros [?| ->]; [done|].
        apply Exists_exists in Hd as (c & Hc & ? & ?). by exists c.
      - unfold has_file_report. setoid_rewrite elem_of_app. setoid_rewrite list_elem_of_singleton.
        split.
        + intros (c & [Hc| ->] & <- & ?); [left; by exists c|by right].
        + intros [(c & ? & ?)| ->]; [exists c; tauto|]. eexists. split; [by right|done]. }
    split; [naive_solver|]. intros [?|(x & [[= -> ->]|?])]; [tauto|tauto|]. right. by exists x.
  - intros c Hc. rewrite (IH2 c Hc). unfold hot_step. case_decide; [done|].
    rewrite elem_of_app, list_elem_of_singleton. split; [|by left]. intros [?| ->]; [done|].
    by cbn in Hc.
Qed.

Lemma hot_error pairs acc c :
  c_severity c = SevError → c ∈ foldl hot_step acc pairs ↔ c ∈ acc.
Proof. apply hot_fold. Qed.

Lemma elem_of_if_any {A} (f : list string → A) l x : x ∈ if_any f l ↔ l ≠ [] ∧ x = f l.
Proof.
  unfold if_any. case_decide as Hd.
  - split; [by intros ?%not_elem_of_nil|by intros [? _]].
  - rewrite list_elem_of_singleton. tauto.
Qed.

Lemma common_ne xs ys : common xs ys ≠ [] ↔ ∃ f, f ∈ xs ∧ f ∈ ys.
Proof. apply ImpactScorer.meet_ne. Qed.

(** The file report among the reports of a thread. *)
Lemma elem_of_thread_reports p deps dependents_ t c :
  c_type c = CFileOverlap →
  c ∈ thread_reports p deps dependents_ t ↔
  collides p t ∧ c = file_report (dp_agent p) t
    (common (dp_target_files p) (safeJsonParse (t_target_files t))).
Proof.
  intros Hc. unfold thread_reports, collides. case_decide as Hi.
  { split; [by intros ?%not_elem_of_nil|by intros [[? _] _]]. }
  rewrite !elem_of_app, !elem_of_if_any, !common_ne, list_elem_of_join. split.
  - intros [[_ ->]|[[? ->]|(l & Hl & (m & -> & _)%list_elem_of_fmap)]]; [done|done|].
    apply elem_of_app in Hl as [(d & -> & _)%list_elem_of_fmap|(d & -> & _)%list_elem_of_fmap]; done.
  - intros [[_ ?] ->]. right. by left.
Qed.

Lemma file_report_in p deps dependents_ t :
  collides p t →
  file_report (dp_agent p) t (common (dp_target_files p) (safeJsonParse (t_target_files t)))
    ∈ thread_reports p deps dependents_ t.
Proof. intros Hc. by apply elem_of_thread_reports. Qed.

Lemma severity_file p deps dependents_ t c :
  c ∈ thread_reports p deps dependents_ t → c_severity c = SevError → c_type c = CFileOverlap.
Proof.
  unfold thread_reports. case_decide; [by intros ?%not_elem_of_nil|].
  rewrite !elem_of_app, !elem_of_if_any, list_elem_of_join.
  intros [[_ ->]|[[? ->]|(l & Hl & (m & -> & _)%list_elem_of_fmap)]]; [done|done|].
  by apply elem_of_app in Hl as [(d & -> & _)%list_elem_of_fmap|(d & -> & _)%list_elem_of_fmap].
Qed.

Lemma elem_of_hot_pairs p w idx f b :
  getFileToAgentsIndex (dp_org p) (dp_target_files p) (dp_agent p) 60 w = (w, Ok idx) →
  (f, b) ∈ hot_pairs (dp_target_files p) idx ↔
  f ∈ dp_target_files p ∧ b ≠ dp_agent p ∧
  ∃ x, x ∈ db_files (w_db w) ∧ f_org x = dp_org p ∧ f_path x = f ∧ f_agent x = b ∧
       within (now_sec w) 60 x.
Proof.
  intros Ei. unfold hot_pairs. rewrite list_elem_of_join.
  assert (f ∈ dp_target_files p → b ∈ get_or_empty idx f ↔ b ≠ dp_agent p ∧
    ∃ x, x ∈ db_files (w_db w) ∧ f_org x = dp_org p ∧ f_path x = f ∧ f_agent x = b ∧
         within (now_sec w) 60 x) as Hidx.
  { intros Hf. revert Ei. unfold getFileToAgentsIndex.
    rewrite decide_False by (intros E; rewrite E in Hf; by apply not_elem_of_nil in Hf).
    intros [= <-]. unfold get_or_empty. rewrite build_index_get by apply NoDup_dedup.
    rewrite distinct_pairs. unfold select.
    rewrite (filter_filter_and _ _ (λ x, f_org x = dp_org p ∧ f_path x = f ∧
      f_agent x ≠ dp_agent p ∧ within (now_sec w) 60 x)) by naive_solver.
    assert (∀ l : list string, default [] match l with [] => None | b :: l => Some (b :: l) end = l)
      as E by by intros [].
    rewrite E, elem_of_dedup, list_elem_of_fmap. setoid_rewrite list_elem_of_filter. naive_solver. }
  split.
  - intros (l & Hl & (f' & -> & Hf)%list_elem_of_fmap).
    apply list_elem_of_fmap in Hl as (b' & [= <- <-] & Hb). by split; [|apply Hidx].
  - intros (Hf & Hb). exists (pair f <$> get_or_empty idx f). split.
    + apply list_elem_of_fmap. exists b. split; [done|]. by apply Hidx.
    + by apply (list_elem_of_fmap_2 (λ f, pair f <$> get_or_empty idx f)).
Qed.

(** File conflicts are reported exactly: the detector reports a file
    overlap with an agent if and only if a live thread in scope initiated by
    that agent targets an announced file, or that agent edited one within the
    hour. Detection writes nothing. *)
Theorem file_overlap_reported p w b :
  ∃ l, detect p w = (w, Ok l) ∧
    (has_file_report b l ↔
       (∃ t, t ∈ db_threads (w_db w) ∧ in_scope p (now_sec w) t ∧ collides p t ∧
             t_initiator t = b) ∨
       (∃ f x, f ∈ dp_target_files p ∧ b ≠ dp_agent p ∧ x ∈ db_files (w_db w) ∧
          f_org x = dp_org p ∧ f_path x = f ∧ f_agent x = b ∧ within (now_sec w) 60 x)).
Proof.
  destruct (detect_eval p w) as (deps & dependents_ & idx & Ei & Ed).
  eexists. split; [exact Ed|].
  rewrite (proj1 (hot_fold _ _) b). setoid_rewrite (elem_of_hot_pairs p w idx _ b Ei).
  assert (has_file_report b (mjoin (thread_reports p deps dependents_ <$> scoped_threads p w)) ↔
    ∃ t, t ∈ db_threads (w_db w) ∧ in_scope p (now_sec w) t ∧ collides p t ∧ t_initiator t = b)
    as ->; [|naive_solver].
  unfold has_file_report. setoid_rewrite list_elem_of_join. split.
  - intros (c & (l & Hl & (t & -> & Ht)%list_elem_of_fmap) & Hb & Hty).
    apply (elem_of_thread_reports _ _ _ _ _ Hty) in Hl as [Hcol ->].
    apply elem_of_scoped in Ht as [Ht Hs]. by exists t.
  - intros (t & Ht & Hs & Hcol & <-). eexists. split.
    + exists (thread_reports p deps dependents_ t). split.
      * by apply file_report_in.
      * apply list_elem_of_fmap_2. by apply elem_of_scoped.
    + done.
Qed.

(** The one verdict the detector stands behind: it reports an error if and
    only if some thread would make [claim_task] refuse the announcer's own
    thread, among the threads it looks at, those of its run and of other
    initiators. *)
Theorem error_iff_claim_refused p w t :
  wf (w_db w) → t ∈ db_threads (w_db w) → t_org t = dp_org p → t_initiator t = dp_agent p →
  safeJsonParse (t_target_files t) = dp_target_files p →
  ∃ l, detect p w = (w, Ok l) ∧
    ((∃ c, c ∈ l ∧ c_severity c = SevError) ↔
     ∃ o, o ∈ db_threads (w_db w) ∧ blocks (dp_agent p) t o ∧ t_initiator o ≠ dp_agent p ∧
       opt_clause (truthy (dp_run_id p)) (λ r, t_run_id o = None ∨ t_run_id o = Some r)).
Proof.
  intros Hwf Ht Ho Hi Hfiles. destruct (detect_eval p w) as (deps & dependents_ & idx & Ei & Ed).
  eexists. split; [exact Ed|].
  assert (∀ o, overlap (json_each (t_target_files t)) (json_each (t_target_files o)) ≠ [] ↔
    ∃ f, f ∈ dp_target_files p ∧ f ∈ safeJsonParse (t_target_files o)) as Hov.
  { intros o. unfold json_each. rewrite Hfiles. apply common_ne. }
  split.
  - intros (c & Hc & Hsev). rewrite hot_error in Hc by done.
    apply list_elem_of_join in Hc as (l & Hl & (o & -> & Hin)%list_elem_of_fmap).
    pose proof (severity_file _ _ _ _ _ Hl Hsev) as Hty.
    apply (elem_of_thread_reports _ _ _ _ _ Hty) in Hl as [[Hne Hcol] ->].
    apply elem_of_scoped in Hin as [Hin (Horg & Hrun & _)]. exists o.
    cbn [c_severity file_report] in Hsev.
    destruct (decide (held_by_another (dp_agent p) o)) as [(? & ? & ?)|]; [|done].
    split_and!; [done| |done..]. split; [|by apply Hov]. unfold held_by_other.
    split_and!; try done; [congruence|]. intros Eid.
    apply Hne. by rewrite (thread_unique _ t o Hwf Ht Hin Eid).
  - intros (o & Hin & [(Horg & Hid & Hs & Hcl & Hca) Hov'] & Hne & Hrun).
    eexists. rewrite hot_error.
    + split.
      * apply list_elem_of_join. exists (thread_reports p deps dependents_ o). split.
        -- apply file_report_in. split; [done|]. by apply Hov.
        -- apply list_elem_of_fmap_2. apply elem_of_scoped. split; [done|].
           unfold in_scope. split_and!; [congruence|done|by left].
      * simpl. by rewrite decide_True.
    + simpl. by rewrite decide_True.
Qed.

(** ** Concrete runs *)

Definition probe (agent : string) : DetectParams :=
  mkDetect "default" agent ["src"] ["a.ts"] None.

(** u0, announced by alice, is held by bob; carol announces u1 on the same file. *)
Definition contended : World :=
  run_ops [OpRegister "default" "alice" "Alice" ["src/api"];
           OpRegister "default" "bob" "Bob" ["docs"];
           OpRegister "default" "carol" "Carol" ["docs"];
           OpAnnounce "default" (mkAnnounce "alice" "task" None ["src"] ["a.ts"] None None true None None);
           OpClaim "default" "u0" "bob";
           OpAnnounce "default" (mkAnnounce "carol" "other" None ["src"] ["a.ts"] None None true None None);
           OpAnnounce "default" (mkAnnounce "alice" "again" None ["src"] ["a.ts"] None None true None None)]
    start.

Lemma wf_contended : wf (w_db contended).
Proof. apply (rtc_wf start); [apply rtc_run_ops|apply wf_empty]. Qed.

Lemma error_iff_claim_refused_witness :
  ∃ l c, detect (probe "carol") contended = (contended, Ok l) ∧ c ∈ l ∧ c_severity c = SevError.
Proof.
  destruct (Protocol.thread_of "default" "u1" contended) as [t|] eqn:E; [|vm_compute in E; done].
  pose proof (Protocol.thread_of_Some _ _ _ _ E) as (_ & Ho & Ht).
  destruct (error_iff_claim_refused (probe "carol") contended t wf_contended Ht Ho)
    as (l & Ed & Hiff).
  - vm_compute in E. injection E as <-. reflexivity.
  - vm_compute in E. injection E as <-. reflexivity.
  - destruct (proj2 Hiff) as (c & Hc & Hs); [|exists l, c; split; [exact Ed|split; assumption]].
    clear Hiff Ed l. destruct (Protocol.thread_of "default" "u0" contended) as [o|] eqn:Eo;
      [|vm_compute in Eo; done].
    pose proof (Protocol.thread_of_Some _ _ _ _ Eo) as (_ & _ & Hin). exists o.
    split; [exact Hin|]. clear Hin Ht Ho.
    vm_compute in E. injection E as <-. vm_compute in Eo. injection Eo as <-.
    apply (bool_decide_unpack _). vm_compute. reflexivity.
Defined.

(** The verdict and the refusal do not always agree: alice announces again
    on the file of a thread she initiated and bob holds. The detector reports
    nothing at all, yet her claim on the new thread is refused because of it. *)
Theorem silent_detector_refused_claim :
  let w := run_ops [OpCancel "default" "u1" "carol" None] contended in
  result (detect (probe "alice")) w = Ok [] ∧
  result (handleClaimTask "default" "u2" "alice") w =
    Ok (ClaimRefused None None (Some TOpen) (Some ("u0", ["a.ts"]))).
Proof. split; vm_compute; reflexivity. Qed.

End Conflicts.
