(* ===== verification/Announce.v ===== *)
(** * Announcing work ([src/plan-quality.ts], [src/announce-workflow.ts],
    [src/register-workflow.ts])

    The orchestration both transports share after a thread is created: score
    every online agent, log which layer fired, replace the expected
    respondents, resolve the thread when nobody else is online, tell the
    dashboard, and ask the agents of the gray zone. *)

From S2P Require Import Prelude Paths Database Registry Consultation Claims Invariant Protocol.
From S2P Require Import Sweeps FileTracking Activity ImpactScorer.
Import Registry Consultation Invariant Protocol Sweeps ImpactScorer.
Local Open Scope Z_scope.

Module PlanQuality.

(** ** Text, as UTF-8 *)

Definition word_char (a : ascii) : bool :=
  let n := Paths.code a in
  bool_decide ((48 ≤ n ∧ n ≤ 57) ∨ (65 ≤ n ∧ n ≤ 90) ∨ n = 95 ∨ (97 ≤ n ∧ n ≤ 122)).

(** The bytes of the white space character a text starts with, 0 if none:
    the ASCII ones and JavaScript's others (no-break space, ogham space, the
    U+2000 block, line and paragraph separators, U+202F, U+205F, U+3000, BOM). *)
Definition space_bytes (s : string) : nat :=
  match s with
  | String a s =>
      let n := Paths.code a in
      if decide ((9 ≤ n ∧ n ≤ 13) ∨ n = 32) then 1%nat
      else match s with
      | String b s =>
          let m := Paths.code b in
          if decide (n = 194 ∧ m = 160) then 2%nat
          else match s with
          | String c _ =>
              let k := Paths.code c in
              if decide ((n = 225 ∧ m = 154 ∧ k = 128) ∨
                         (n = 226 ∧ m = 128 ∧ ((128 ≤ k ∧ k ≤ 138) ∨ k = 168 ∨ k = 169 ∨ k = 175)) ∨
                         (n = 226 ∧ m = 129 ∧ k = 159) ∨
                         (n = 227 ∧ m = 128 ∧ k = 128) ∨
                         (n = 239 ∧ m = 187 ∧ k = 191)) then 3%nat else 0%nat
          | _ => 0%nat
          end
      | _ => 0%nat
      end
  | EmptyString => 0%nat
  end.

(** The words of a text: its maximal runs of other characters. [skip] bytes of
    the current space are left, [inside] tells whether a word is open. *)
Fixpoint count_words (skip : nat) (inside : bool) (s : string) : nat :=
  match s with
  | EmptyString => O
  | String _ s' =>
      match skip with
      | S skip => count_words skip false s'
      | O =>
          match space_bytes s with
          | O => ((if inside then 0 else 1) + count_words 0 true s')%nat
          | S k => count_words k false s'
          end
      end
  end.

(** [/\w+\/\w+|\.\w{2,4}\b/]: a slash between word characters, or a dot before
    a run of two to four of them. *)
Fixpoint word_run (s : string) : nat :=
  match s with
  | String a s => if word_char a then S (word_run s) else O
  | EmptyString => O
  end.

Fixpoint mentions_files (prev : bool) (s : string) : bool :=
  match s with
  | EmptyString => false
  | String a s' =>
      (prev && Ascii.eqb a "/" && bool_decide (0 < word_run s')%nat) ||
      (Ascii.eqb a "." && bool_decide (2 ≤ word_run s' ≤ 4)%nat) ||
      mentions_files (word_char a) s'
  end.

(** Case folding of the pattern: ASCII letters, and E acute. *)
Fixpoint fold_case (s : string) : string :=
  match s with
  | EmptyString => EmptyString
  | String a s' =>
      match s' with
      | String b s'' =>
          if decide (Paths.code a = 195 ∧ Paths.code b = 137)
          then String a (String (Paths.char 169) (fold_case s''))
          else String (Paths.lower_ascii a) (fold_case s')
      | EmptyString => String (Paths.lower_ascii a) EmptyString
      end
  end.

Definition concrete_stems : list string :=
  ["ajout"; "cré"; "cree"; "creat"; "add"; "split"; "extract"; "replac"; "remplac"; "implémen";
   "implement"; "supprim"; "delet"; "remov"; "migr"; "wrap"].

(** [/\b(stem|...)/i]: a stem that does not follow a word character. *)
Fixpoint has_stem (prev : bool) (s : string) : bool :=
  (negb prev && existsb (λ stem, startsWith stem s) concrete_stems) ||
  match s with
  | EmptyString => false
  | String a s' => has_stem (word_char a) s'
  end.

(** [s.trim()]. *)
Fixpoint trim_start (skip : nat) (s : string) : string :=
  match s with
  | EmptyString => EmptyString
  | String _ s' =>
      match skip with
      | S skip => trim_start skip s'
      | O => match space_bytes s with O => s | S k => trim_start k s' end
      end
  end.

Fixpoint trim_end (s : string) : string :=
  match s with
  | EmptyString => EmptyString
  | String a s' => if decide (count_words 0 false s = 0%nat) then EmptyString
                   else String a (trim_end s')
  end.

Definition trim (s : string) : string := trim_end (trim_start 0 s).

Definition assessPlanQuality (plan : option string) : PlanQualityResult :=
  match plan with
  | None => mkQuality false 0 false false false None
  | Some p =>
      let trimmed := trim p in
      if String.eqb trimmed "" then mkQuality false 0 false false false None
      else
        let mentions := mentions_files false trimmed in
        let concrete := has_stem false (fold_case trimmed) in
        let detail := bool_decide (20 < count_words 0 false trimmed)%nat in
        let score := Z.b2z mentions + Z.b2z concrete + Z.b2z detail in
        mkQuality (bool_decide (2 ≤ score)) score mentions concrete detail (Some trimmed)
  end.

End PlanQuality.

Module Announce.
Import PlanQuality.

Record FlowParams := mkFlow {
  fw_org : string;
  fw_agent : string;
  fw_plan : option string;
  fw_target_modules : list string;
  fw_target_files : list string;
  fw_depends_on : option (list string);
  fw_keep_open : bool;
  fw_target_symbols : option (list string)
}.

Record CommonFlowResult := mkFlowResult {
  fr_updated : Thread;
  fr_categorized : CategorizedImpact;
  fr_respondents : list string;
  fr_quality : PlanQualityResult;
  fr_downgrade : option string
}.

(** The first reason that names a layer decides. *)
Definition layer_of_reason (r : string) : option string :=
  if includes "disjoint symbols" r then Some "L0.5"
  else if includes "announced same file" r || includes "modifies my dependency" r ||
          includes "they depend on my target" r then Some "L0"
  else if includes "same file (in flight)" r then Some "L1"
  else if includes "same file" r then Some "L1"
  else if includes "co-change" r then Some "L4"
  else if includes "depends on" r then Some "L2"
  else if includes "module overlap" r then Some "L3"
  else None.

Definition inferLayerFromReasons (reasons : list string) : string :=
  default "L1" (head (omap layer_of_reason reasons)).

Definition scoredCategory (s : ImpactScore) : Category :=
  if decide (90 ≤ is_score s) then CatConcerned
  else if decide (30 ≤ is_score s) then CatGrayZone
  else CatPass.

Definition planDowngradeReason (q : PlanQualityResult) : string :=
  let flags := (if pq_mentions_files q then [] else ["no files"]) ++
               (if pq_concrete q then [] else ["vague approach"]) ++
               (if pq_detail q then [] else ["too short"]) in
  trim ("plan downgraded: score " +:+ pretty (pq_score q) +:+ "/3 — " +:+ join " " flags).

(** [INSERT INTO layer_firings (thread_id, layer, score, agent_id)]: the
    statement names no organisation, so the column takes its default. *)
Definition insert_firing (thread layer : string) (score : Z) (agent : string) : M unit :=
  now ← gets now_sec;
  checked_insert (λ _, True) (λ d, "default" ∈ db_orgs d)
    (on_firings (λ l, l ++ [mkFiring "default" thread layer score agent now])).

Definition score_params (p : FlowParams) : ScoreParams :=
  mkScoreParams (fw_org p) (fw_agent p) (fw_target_modules p) (fw_target_files p)
    (fw_depends_on p) (fw_target_symbols p).

(** A plan that was given and found wanting. *)
Definition downgraded (p : FlowParams) : bool :=
  match truthy (fw_plan p) with
  | None => false
  | Some _ => negb (pq_with_plan (assessPlanQuality (fw_plan p)))
  end.

Definition emit_scored (org thread : string) (s : ImpactScore) : M unit :=
  sse_emit org (EvImpactScored thread (is_agent_id s) (is_agent_name s) (is_score s)
                  (is_reasons s) (scoredCategory s)).

Definition ask (org thread : string) (s : ImpactScore) : M unit :=
  _ ← Introspections.create org thread (is_agent_id s) (is_score s) (Some (is_reasons s));
  sse_emit org (EvIntrospectionRequested thread (is_agent_id s) (is_agent_name s) (is_score s)
                  (is_reasons s)).

Definition runCommonAnnounceFlow (threadId : string) (p : FlowParams) : M CommonFlowResult :=
  let org := fw_org p in
  _ ← Registry.heartbeat org (fw_agent p);
  cat ← categorize (score_params p);
  _ ← for_each (ci_concerned cat ++ ci_gray_zone cat) (λ s,
        insert_firing threadId (inferLayerFromReasons (is_reasons s)) (is_score s) (is_agent_id s));
  let concernedIds := is_agent_id <$> ci_concerned cat in
  _ ← stmt (on_threads (update_where (is_thread org threadId) (set_expected (JText concernedIds))));
  online ← listOnline org;
  let others := filter (λ a, a_id a ≠ fw_agent p) online in
  let shouldAutoResolve := bool_decide (concernedIds = []) && bool_decide (others = []) in
  current ← getThread org threadId;
  now ← gets w_clock;
  _ ← match current with
      | None => when shouldAutoResolve (throw ETypeError)
      | Some t =>
          when (shouldAutoResolve && bool_decide (t_status t = TOpen) && negb (fw_keep_open p))
            (_ ← stmt (on_threads (update_where (is_thread org threadId)
                   (mark_resolved (IsoTs now))));
             emitResolution threadId RAutoResolved None None)
      end;
  _ ← for_each (ci_concerned cat ++ ci_gray_zone cat ++ ci_pass cat) (emit_scored org threadId);
  _ ← for_each (ci_gray_zone cat) (ask org threadId);
  let quality := assessPlanQuality (fw_plan p) in
  announcer ← Registry.get org (fw_agent p);
  _ ← when (downgraded p)
        (sse_emit org (EvImpactScored threadId (fw_agent p)
           (default (fw_agent p) (truthy (a_name <$> announcer)))
           (pq_score quality) [planDowngradeReason quality] CatPlanQuality));
  updated ← getThread org threadId;
  match updated with
  | None => throw ETypeError
  | Some u =>
      mret (mkFlowResult u cat (safeJsonParse (t_expected u)) quality
              (if downgraded p then Some (planDowngradeReason quality) else None))
  end.

(** ** Registration, shared by both transports *)

Definition runRegisterFlow (org agent name : string) (modules : list string) : M (option Agent) :=
  a ← register org agent name modules;
  _ ← sse_emit org (EvAgentOnline agent name modules);
  _ ← bridge (BrRegisterAgent org agent name);
  mret a.

(** ** Specification of the flow *)

(** The announcer is alone: nobody is concerned and nobody else is online. *)
Definition alone (p : FlowParams) (cat : CategorizedImpact) (online : list Agent) : bool :=
  bool_decide (is_agent_id <$> ci_concerned cat = []) &&
  bool_decide (filter (λ a, a_id a ≠ fw_agent p) online = []).

Definition resolves_alone (p : FlowParams) (cat : CategorizedImpact) (online : list Agent)
    (t : Thread) : bool :=
  alone p cat online && bool_decide (t_status t = TOpen) && negb (fw_keep_open p).

Definition flow_row (p : FlowParams) (cat : CategorizedImpact) (online : list Agent) (clock : Z)
    (t : Thread) : Thread :=
  let t1 := set_expected (JText (is_agent_id <$> ci_concerned cat)) t in
  if resolves_alone p cat online t then mark_resolved (IsoTs clock) t1 else t1.

(** Identifiers that are drawn are new. *)
Definition fresh_introspections (w : World) : Prop :=
  (∀ m n, w_uuid w m = w_uuid w n → m = n) ∧
  ∀ n, (w_uuid_next w ≤ n)%nat → w_uuid w n ∉ i_id <$> db_introspections (w_db w).

(** ** The loops *)

Definition add_events (org : string) (es : list CoordinatorEvent) (d : Db) : Db :=
  foldl (λ d e, add_event org e d) d es.

Lemma add_events_same {A} (f : Db → A) org es d :
  (∀ e d, f (add_event org e d) = f d) → f (add_events org es d) = f d.
Proof.
  intros Hf. unfold add_events. revert d.
  induction es as [|e es IH]; intros d; [done|]. cbn [foldl]. by rewrite IH, Hf.
Qed.

Lemma sse_loop {A} org (f : A → CoordinatorEvent) l w :
  org ∈ db_orgs (w_db w) →
  for_each l (λ x, sse_emit org (f x)) w = (on_db (add_events org (f <$> l)) w, Ok ()).
Proof.
  revert w. induction l as [|x l IH]; intros w Ho; [by destruct w|].
  cbn [for_each]. rewrite (bind_Ok _ _ w (on_db (add_event org (f x)) w) ()) by by apply sse_eval.
  by rewrite IH.
Qed.

Definition firings_of (id : string) (now : Z) (l : list ImpactScore) : list LayerFiring :=
  (λ s, mkFiring "default" id (inferLayerFromReasons (is_reasons s)) (is_score s) (is_agent_id s) now)
    <$> l.

Lemma firing_loop id l w :
  "default" ∈ db_orgs (w_db w) →
  for_each l (λ s, insert_firing id (inferLayerFromReasons (is_reasons s)) (is_score s)
                     (is_agent_id s)) w =
    (on_db (on_firings (λ k, k ++ firings_of id (now_sec w) l)) w, Ok ()).
Proof.
  revert w. induction l as [|s l IH]; intros w Ho; cbn [for_each].
  { unfold mret, M_ret. f_equal. destruct w as [? ? ? ? [] ? ?]. unfold on_db, on_firings. simpl.
    by rewrite app_nil_r. }
  rewrite (bind_Ok _ _ w (on_db (on_firings (λ k, k ++ firings_of id (now_sec w) [s])) w) ()).
  2:{ unfold insert_firing, checked_insert. rewrite !bind_gets, !decide_True by done. done. }
  rewrite IH by done. f_equal. unfold on_db, on_firings. simpl. by rewrite <- app_assoc.
Qed.

Definition asked (id : string) (s : ImpactScore) : string * string * Z * IntrospectionStatus :=
  (id, is_agent_id s, is_score s, IPending).

Definition request (i : Introspection) : string * string * Z * IntrospectionStatus :=
  (i_thread i, i_agent i, i_score i, i_status i).

(** One request: drawn, inserted, announced. *)
Lemma ask_eval org id s w :
  org ∈ db_orgs (w_db w) → thread_ref id (w_db w) → agent_ref org (is_agent_id s) (w_db w) →
  fresh_introspections w →
  ∃ w', ask org id s w = (w', Ok ()) ∧ fresh_introspections w' ∧
    db_threads (w_db w') = db_threads (w_db w) ∧ db_agents (w_db w') = db_agents (w_db w) ∧
    db_orgs (w_db w') = db_orgs (w_db w) ∧ w_clock w' = w_clock w ∧
    w_resolutions w' = w_resolutions w ∧
    request <$> db_introspections (w_db w') =
      (request <$> db_introspections (w_db w)) ++ [asked id s].
Proof.
  intros Ho Ht Ha [Hinj Hf]. unfold ask, Introspections.create.
  unfold mbind, M_bind, randomUUID, gets, checked_insert. unfold mbind, M_bind, gets. simpl.
  rewrite !decide_True by (done || by apply Hf). simpl.
  rewrite sse_eval by done. eexists. split; [reflexivity|]. simpl.
  split_and!; try done; [|by rewrite fmap_app].
  split; [done|]. simpl. intros n Hn. rewrite fmap_app. simpl.
  intros [Hin|Hin%list_elem_of_singleton]%elem_of_app.
  - apply (Hf n); [lia|done].
  - apply Hinj in Hin. lia.
Qed.

Lemma ask_loop org id l w :
  org ∈ db_orgs (w_db w) → thread_ref id (w_db w) →
  (∀ s, s ∈ l → agent_ref org (is_agent_id s) (w_db w)) → fresh_introspections w →
  ∃ w', for_each l (ask org id) w = (w', Ok ()) ∧
    db_threads (w_db w') = db_threads (w_db w) ∧ db_agents (w_db w') = db_agents (w_db w) ∧
    db_orgs (w_db w') = db_orgs (w_db w) ∧ w_clock w' = w_clock w ∧
    w_resolutions w' = w_resolutions w ∧
    request <$> db_introspections (w_db w') =
      (request <$> db_introspections (w_db w)) ++ (asked id <$> l).
Proof.
  revert w. induction l as [|s l IH]; intros w Ho Ht Ha Hf.
  { exists w. split_and!; try done. by rewrite app_nil_r. }
  destruct (ask_eval org id s w Ho Ht (Ha s (list_elem_of_here _ _)) Hf)
    as (w1 & E1 & Hf1 & Hth & Hag & Hor & Hc & Hre & Hi).
  destruct (IH w1) as (w2 & E2 & Hth2 & Hag2 & Hor2 & Hc2 & Hre2 & Hi2).
  - by rewrite Hor.
  - unfold thread_ref. by rewrite Hth.
  - intros x Hx. unfold agent_ref. rewrite Hag. apply Ha. by right.
  - done.
  - exists w2. cbn [for_each]. rewrite (bind_Ok _ _ _ _ _ E1), E2.
    split_and!; try congruence.
    by rewrite Hi2, Hi, fmap_cons, <- app_assoc.
Qed.

(** Every scored agent is registered in the organisation. *)
Lemma scored_registered p w cat s :
  categorize p w = (w, Ok cat) →
  s ∈ ci_concerned cat ++ ci_gray_zone cat ++ ci_pass cat →
  agent_ref (sp_org p) (is_agent_id s) (w_db w).
Proof.
  destruct (score_eval p w) as (online & symbols & El & Es). unfold categorize.
  rewrite (bind_Ok _ _ _ _ _ Es). intros [= <-]. simpl. rewrite !elem_of_app, !list_elem_of_filter.
  intros Hs. assert (s ∈ (λ a, impact_of a (agent_hits p w symbols a)) <$>
    filter (λ a, a_id a ≠ sp_agent p) online) as (a & -> & [_ Ha]%list_elem_of_filter)%list_elem_of_fmap
    by tauto.
  unfold listOnline, gets in El. injection El as <-.
  rewrite merge_sort_Permutation in Ha. apply elem_of_select in Ha as [(Ho & _) Hin].
  apply Exists_exists. by exists a.
Qed.

(** The conditional resolution of the flow, from a world with the row. *)
Lemma resolve_alone_eval (b : bool) w t at_ :
  wf (w_db w) → t ∈ db_threads (w_db w) →
  ∃ w', when b (_ ← stmt (on_threads (update_where (is_thread (t_org t) (t_id t)) (mark_resolved at_)));
                emitResolution (t_id t) RAutoResolved None None) w = (w', Ok ()) ∧
    db_threads (w_db w') = (if b then update_where (λ x, t_id x = t_id t) (mark_resolved at_)
                                        (db_threads (w_db w)) else db_threads (w_db w)) ∧
    db_agents (w_db w') = db_agents (w_db w) ∧ db_orgs (w_db w') = db_orgs (w_db w) ∧
    db_introspections (w_db w') = db_introspections (w_db w) ∧
    w_clock w' = w_clock w ∧ w_uuid w' = w_uuid w ∧ w_uuid_next w' = w_uuid_next w ∧
    w_resolutions w' = w_resolutions w ++
      (if b then [mkResolution (t_id t) (t_org t) RAutoResolved (t_summary t) (t_created_at t) at_
                    None None (had_messages (t_id t) (w_db w))] else []).
Proof.
  intros Hwf Ht. destruct b; cbn [when].
  2:{ exists w. rewrite app_nil_r. done. }
  rewrite bind_stmt. set (w1 := on_db _ w).
  assert (wf (w_db w1)) as Hwf1 by (apply wf_on_threads; [intros; apply row_resolve|done]).
  assert (mark_resolved at_ t ∈ db_threads (w_db w1)) as Ht1.
  { apply elem_of_update_where. exists t. by rewrite decide_True. }
  destruct (emit_eval w1 (mark_resolved at_ t) RAutoResolved None None) as (w2 & E & (e & Hdb) & Hre & Hc & Hu & Hn).
  - by apply cross_org_read.
  - by apply thread_org_known.
  - exists w2. split; [exact E|]. rewrite Hdb, Hre, Hc, Hu, Hn. split_and!; try done.
    apply (only_row w t); [done..|by intros x [??]].
Qed.

Lemma flow_row_same p cat online clock t :
  t_id (flow_row p cat online clock t) = t_id t ∧ t_org (flow_row p cat online clock t) = t_org t ∧
  t_expected (flow_row p cat online clock t) = JText (is_agent_id <$> ci_concerned cat).
Proof. unfold flow_row. by case_match. Qed.

(** The two updates of the row are one. *)
Lemma flow_rows p cat online clock w t :
  wf (w_db w) → t ∈ db_threads (w_db w) →
  let upd := update_where (λ x, t_id x = t_id t)
               (set_expected (JText (is_agent_id <$> ci_concerned cat))) (db_threads (w_db w)) in
  (if resolves_alone p cat online t
   then update_where (λ x, t_id x = t_id t) (mark_resolved (IsoTs clock)) upd else upd) =
  update_where (λ x, t_id x = t_id t) (flow_row p cat online clock) (db_threads (w_db w)).
Proof.
  intros Hwf Ht upd. unfold upd. destruct (resolves_alone p cat online t) eqn:Hb.
  - rewrite update_where_twice by done. apply update_where_ext; [done|]. intros x Hx E.
    unfold flow_row. by rewrite (thread_unique _ _ _ Hwf Ht Hx E), Hb.
  - apply update_where_ext; [done|]. intros x Hx E.
    unfold flow_row. by rewrite (thread_unique _ _ _ Hwf Ht Hx E), Hb.
Qed.

(** The row read back after both updates. *)
Lemma flow_read p cat online clock id w w' t :
  thread_of (fw_org p) id w = Some t →
  db_threads (w_db w') =
    update_where (λ x, t_id x = t_id t) (flow_row p cat online clock) (db_threads (w_db w)) →
  getThread (fw_org p) id w' = (w', Ok (Some (flow_row p cat online clock t))).
Proof.
  intros Hr Hth. unfold getThread, gets. rewrite Hth, select_one_update_where.
  - unfold thread_of in Hr. rewrite Hr. simpl. by rewrite decide_True.
  - intros x. unfold is_thread. by destruct (flow_row_same p cat online clock x) as (-> & -> & _).
Qed.

(** The impact is a read. *)
Lemma categorize_eval p w : ∃ cat, categorize p w = (w, Ok cat).
Proof.
  destruct (score_eval p w) as (? & ? & _ & Es). unfold categorize.
  rewrite (bind_Ok _ _ _ _ _ Es). by eexists.
Qed.

Lemma wf_on_firings f d : wf d → wf (on_firings f d).
Proof. by intros []. Qed.

(** The steps after the row is read: events, requests, plan verdict. *)
Lemma flow_tail org id p cat w :
  org ∈ db_orgs (w_db w) → thread_ref id (w_db w) → fresh_introspections w →
  (∀ s, s ∈ ci_concerned cat ++ ci_gray_zone cat ++ ci_pass cat →
     agent_ref org (is_agent_id s) (w_db w)) →
  ∃ w', (∀ B (k : M B),
        (_ ← for_each (ci_concerned cat ++ ci_gray_zone cat ++ ci_pass cat) (emit_scored org id);
         _ ← for_each (ci_gray_zone cat) (ask org id);
         announcer ← Registry.get org (fw_agent p);
         _ ← when (downgraded p)
            (sse_emit org (EvImpactScored id (fw_agent p)
               (default (fw_agent p) (truthy (a_name <$> announcer)))
               (pq_score (assessPlanQuality (fw_plan p)))
               [planDowngradeReason (assessPlanQuality (fw_plan p))] CatPlanQuality));
         k) w = k w') ∧
    db_threads (w_db w') = db_threads (w_db w) ∧
    w_resolutions w' = w_resolutions w ∧
    request <$> db_introspections (w_db w') =
      (request <$> db_introspections (w_db w)) ++ (asked id <$> ci_gray_zone cat).
Proof.
  intros Ho Ht Hf Ha. unfold emit_scored. pose proof (sse_loop org (λ s, EvImpactScored id
    (is_agent_id s) (is_agent_name s) (is_score s) (is_reasons s) (scoredCategory s))
    (ci_concerned cat ++ ci_gray_zone cat ++ ci_pass cat) w Ho) as E1.
  set (w1 := on_db (add_events _ _) w) in E1.
  assert (db_orgs (w_db w1) = db_orgs (w_db w) ∧ db_threads (w_db w1) = db_threads (w_db w) ∧
    db_agents (w_db w1) = db_agents (w_db w) ∧
    db_introspections (w_db w1) = db_introspections (w_db w)) as (Eo & Et & Ea & Ei).
  { unfold w1. simpl. by rewrite !add_events_same by done. }
  destruct (ask_loop org id (ci_gray_zone cat) w1) as (w2 & E2 & Hth & Hag & Hor & Hc & Hre & Hi).
  - by rewrite Eo.
  - unfold thread_ref. by rewrite Et.
  - intros s Hs. unfold agent_ref. rewrite Ea. apply Ha. set_solver.
  - destruct Hf as [Hinj Hf]. split; [done|]. by rewrite Ei.
  - rewrite Ei in Hi. rewrite Et in Hth. change (w_resolutions w1) with (w_resolutions w) in Hre.
    eexists (if downgraded p then _ else w2). split.
    + intros B k. rewrite (bind_Ok _ _ w w1 () E1), (bind_Ok _ _ w1 w2 () E2).
      unfold Registry.get. rewrite bind_gets. unfold when. destruct (downgraded p); [|done].
      rewrite (bind_Ok _ _ _ _ _ (sse_eval _ _ _ (eq_ind_r (λ l, org ∈ l) Ho (eq_trans Hor Eo)))).
      reflexivity.
    + destruct (downgraded p); simpl; by rewrite Hth, Hre, Hi.
Qed.

(** [C27] The announcement workflow, end to end: the thread's expected
    respondents become exactly the concerned agents; the thread is resolved on
    the spot, with one event, exactly when nobody is concerned, nobody else is
    online, it is open and not kept open; and every agent of the gray zone gets
    one pending introspection request. No other thread changes. The tables are
    well formed, the thread is one of the announcer's organisation, the identifiers
    drawn are new to the introspections, and an organisation [default] exists: the
    rows of [layer_firings] are inserted without one and get that column
    default. *)
Theorem announce_flow_spec p id w t :
  wf (w_db w) → thread_of (fw_org p) id w = Some t → "default" ∈ db_orgs (w_db w) →
  fresh_introspections w →
  let w1 := run (Registry.heartbeat (fw_org p) (fw_agent p)) w in
  ∃ cat online r w',
    categorize (score_params p) w1 = (w1, Ok cat) ∧ listOnline (fw_org p) w1 = (w1, Ok online) ∧
    runCommonAnnounceFlow id p w = (w', Ok r) ∧
    fr_categorized r = cat ∧ fr_respondents r = is_agent_id <$> ci_concerned cat ∧
    db_threads (w_db w') =
      update_where (λ x, t_id x = t_id t) (flow_row p cat online (w_clock w)) (db_threads (w_db w)) ∧
    (request <$> db_introspections (w_db w')) =
      (request <$> db_introspections (w_db w)) ++ (asked id <$> ci_gray_zone cat) ∧
    w_resolutions w' = w_resolutions w ++
      (if resolves_alone p cat online t
       then [mkResolution (t_id t) (t_org t) RAutoResolved (t_summary t) (t_created_at t)
               (IsoTs (w_clock w)) None None (had_messages (t_id t) (w_db w))] else []).
Proof.
  intros Hwf Hr Hdef Hfr w1. destruct (thread_of_Some _ _ _ _ Hr) as (Hid & Ho & Ht).
  assert (wf (w_db w1)) as Hwf1.
  { apply (wf_touch (is_agent (fw_org p) (fw_agent p)) AOnline (now_sec w) w Hwf). }
  destruct (categorize_eval (score_params p) w1) as (cat & Ec).
  set (w2 := on_db (on_firings (λ k, k ++ firings_of id (now_sec w1)
               (ci_concerned cat ++ ci_gray_zone cat))) w1).
  assert (wf (w_db w2)) as Hwf2 by by apply wf_on_firings.
  destruct (expected_world w2 t (is_agent_id <$> ci_concerned cat) Hwf2 Ht) as (Hwf3 & Ht3 & Hr3 & Eth).
  set (w3 := on_db _ w2) in *. set (t3 := set_expected _ t) in *.
  destruct (listOnline (fw_org p) w1) as [wl rl] eqn:El.
  unfold listOnline, gets in El. injection El as <- <-.
  set (online := merge_sort by_name _).
  destruct (resolve_alone_eval (resolves_alone p cat online t) w3 t3 (IsoTs (w_clock w)) Hwf3 Ht3)
    as (w4 & E4 & Hth4 & Hag4 & Hor4 & Hin4 & Hc4 & Hu4 & Hn4 & Hre4).
  destruct (flow_tail (fw_org p) id p cat w4) as (w5 & Et5 & Hth5 & Hre5 & Hin5).
  { rewrite Hor4, <- Ho. apply (thread_org_known w t Hwf Ht). }
  { unfold thread_ref. rewrite Hth4. destruct (resolves_alone _ _ _ _);
      [apply (Exists_update_where (λ x, t_id x = id)); [intros x _ <-; by case_decide|]|];
      apply Exists_exists; by exists t3. }
  { unfold fresh_introspections. by rewrite Hu4, Hn4, Hin4. }
  { intros s Hs. unfold agent_ref. rewrite Hag4. by apply (scored_registered _ _ _ _ Ec). }
  assert (db_threads (w_db w5) =
    update_where (λ x, t_id x = t_id t) (flow_row p cat online (w_clock w)) (db_threads (w_db w))) as Hth.
  { rewrite Hth5, Hth4, Eth. apply (flow_rows p cat online (w_clock w) w t Hwf Ht). }
  pose proof (flow_read p cat online (w_clock w) id w w5 t Hr Hth) as Eg.
  exists cat, online. eexists _, w5. split; [done|]. split; [done|]. split.
  - unfold runCommonAnnounceFlow.
    rewrite (bind_Ok (Registry.heartbeat _ _) _ w w1 () eq_refl), (bind_Ok _ _ _ _ _ Ec).
    rewrite (bind_Ok _ _ _ _ _ (firing_loop id _ w1 Hdef)). fold w2. rewrite bind_stmt.
    rewrite <- Hid, <- Ho. fold w3. rewrite Ho, Hid.
    rewrite (bind_Ok (listOnline (fw_org p)) _ w3 w3 online eq_refl). cbv zeta.
    rewrite (bind_Ok (getThread (fw_org p) id) _ w3 w3 (Some t3)).
    2:{ unfold getThread, gets. by rewrite <- Ho, <- Hid, <- Hr3. }
    rewrite bind_gets. change (t_org t3) with (t_org t) in E4.
    change (t_id t3) with (t_id t) in E4. rewrite Ho, Hid in E4.
    rewrite (bind_Ok _ _ w3 w4 () E4). cbv zeta. rewrite Et5, (bind_Ok _ _ _ _ _ Eg).
    reflexivity.
  - simpl. destruct (flow_row_same p cat online (w_clock w) t) as (_ & _ & ->).
    split; [done|]. split; [done|]. split; [exact Hth|]. rewrite Hin5, Hin4, Hre5, Hre4. done.
Qed.

(** Alice announces a plan that says little; Bob watches a parent module. *)
Definition flow_demo : World := run_ops (take 3 demo_ops) start.
Definition flow_params : FlowParams :=
  mkFlow "default" "alice" (Some "do it") ["src/api"] ["src/types.ts"] None false None.

Lemma announce_flow_spec_witness :
  ∃ r w', runCommonAnnounceFlow "u0" flow_params flow_demo = (w', Ok r) ∧ fr_respondents r = [] ∧
    request <$> db_introspections (w_db w') = [("u0", "bob", 30, IPending)].
Proof.
  eassert (thread_of "default" "u0" flow_demo = Some _) as Ht by (vm_compute; reflexivity).
  edestruct (announce_flow_spec flow_params "u0" flow_demo) as
    (cat & online & r & w' & Ec & _ & Er & _ & Hf & _ & Hi & _).
  - apply (rtc_wf start); [apply rtc_run_ops|apply wf_empty].
  - exact Ht.
  - vm_compute. left.
  - split; [|intros n _; apply not_elem_of_nil].
    intros m n E. change (String "u" (pretty m) = String "u" (pretty n)) in E.
    injection E as E. exact (inj pretty m n E).
  - exists r, w'. split; [exact Er|]. rewrite Hf, Hi.
    apply (f_equal snd) in Ec. vm_compute in Ec. injection Ec as <-.
    split; vm_compute; reflexivity.
Defined.

End Announce.
