(* ===== verification/AuditChain.v ===== *)
(** * The audit log ([src/security/audit-chain.ts], [src/security/audit.ts],
    [src/security/audit-queue.ts], [scripts/verify-audit-chain.ts])

    An append-only table in which every row carries the hash of its content and
    of the row before it. Direct writes, the batched queue, the retention sweep
    and the verifier are modelled; the digest functions are an interface. The
    log the server writes always verifies, whatever the sweep deletes; and a log
    that verifies, starts at the attested hash and ends at the attested tip is
    the log that was attested, or the digest maps two of the texts hashed in
    them, one of each log, to one value. *)

From S2P Require Import Prelude Paths.
Local Open Scope Z_scope.

(** ** The interface to [node:crypto]

    [digest("hex")] of SHA-256 and of HMAC-SHA256: 64 lower case hexadecimal
    digits. *)
Definition hex_digit (a : ascii) : bool :=
  let n := Paths.code a in
  bool_decide ((48 ≤ n ∧ n ≤ 57) ∨ (97 ≤ n ∧ n ≤ 102)).

Fixpoint all_chars (P : ascii → bool) (s : string) : bool :=
  match s with
  | EmptyString => true
  | String a s => P a && all_chars P s
  end.

Definition is_digest (s : string) : Prop := String.length s = 64%nat ∧ all_chars hex_digit s = true.

Class Digest := {
  sha256 : string → string;
  hmac : string → string → string;
  sha256_digest x : is_digest (sha256 x);
  hmac_digest k x : is_digest (hmac k x)
}.

Module AuditChain.

Fixpoint repeat_char (a : ascii) (n : nat) : string :=
  match n with O => EmptyString | S n => String a (repeat_char a n) end.

Definition GENESIS_HASH : string := repeat_char "0" 64.

Inductive ChainAlgorithm := ALG_SHA256 | ALG_HMAC_V1.

Definition HMAC_PREFIX : string := "hmac-sha256-v1:".

Definition algorithmOf (storedRowHash : string) : ChainAlgorithm :=
  if startsWith HMAC_PREFIX storedRowHash then ALG_HMAC_V1 else ALG_SHA256.

Record AuditChainFields := mkFields {
  cf_action : string;
  cf_org : option string;
  cf_ip : option string;
  cf_user_agent : option string;
  cf_user : option string;
  cf_metadata : option string;
  cf_outcome : option string;
  cf_request : option string;
  cf_target : option string
}.

(** ** [JSON.stringify] on texts, null and the ordered object *)

Definition quote_char : ascii := Paths.char 34.
Definition dq : string := String quote_char "".
Definition backslash : ascii := Paths.char 92.

Definition hex_of (n : Z) : ascii := Paths.char (if decide (n < 10) then 48 + n else 87 + n).

Definition escape_char (a : ascii) : string :=
  let n := Paths.code a in
  let esc c := String backslash (String c "") in
  if decide (n = 34) then esc quote_char
  else if decide (n = 92) then esc backslash
  else if decide (n = 8) then esc "b"%char
  else if decide (n = 12) then esc "f"%char
  else if decide (n = 10) then esc "n"%char
  else if decide (n = 13) then esc "r"%char
  else if decide (n = 9) then esc "t"%char
  else if decide (n < 32) then
    String backslash ("u00" +:+ String (hex_of (n / 16)) (String (hex_of (n mod 16)) ""))
  else String a "".

Fixpoint escape (s : string) : string :=
  match s with
  | EmptyString => EmptyString
  | String a s => escape_char a +:+ escape s
  end.

Definition quote (s : string) : string := dq +:+ escape s +:+ dq.

Definition json_value (v : option string) : string :=
  match v with None => "null" | Some s => quote s end.

(** One member, with what follows it. *)
Definition member (key : string) (v : option string) : string :=
  quote key +:+ ":" +:+ json_value v.

Definition canonicalRowFields (r : AuditChainFields) : string :=
  "{" +:+ member "action" (Some (cf_action r)) +:+
  "," +:+ member "actor_org_id" (cf_org r) +:+
  "," +:+ member "actor_ip" (cf_ip r) +:+
  "," +:+ member "actor_user_agent" (cf_user_agent r) +:+
  "," +:+ member "actor_user_id" (cf_user r) +:+
  "," +:+ member "metadata_json" (cf_metadata r) +:+
  "," +:+ member "outcome" (cf_outcome r) +:+
  "," +:+ member "request_id" (cf_request r) +:+
  "," +:+ member "target" (cf_target r) +:+ "}".

(** ** The serialisation is injective

    A decoder of one character shows that the escapes are prefix free. *)

Definition unhex (a : ascii) : Z :=
  let n := Paths.code a in if decide (n < 58) then n - 48 else n - 87.

Definition unescape (s : string) : option (ascii * string) :=
  match s with
  | String a s =>
      if Ascii.eqb a quote_char then None
      else if Ascii.eqb a backslash then
        match s with
        | String "b" s => Some (Paths.char 8, s)
        | String "f" s => Some (Paths.char 12, s)
        | String "n" s => Some (Paths.char 10, s)
        | String "r" s => Some (Paths.char 13, s)
        | String "t" s => Some (Paths.char 9, s)
        | String "u" (String _ (String _ (String x (String y s)))) =>
            Some (Paths.char (16 * unhex x + unhex y), s)
        | String c s => Some (c, s)
        | EmptyString => None
        end
      else Some (a, s)
  | EmptyString => None
  end.

Lemma unescape_escape a s : unescape (escape_char a +:+ s) = Some (a, s).
Proof. destruct a as [[] [] [] [] [] [] [] []]; vm_compute; reflexivity. Qed.

Lemma unescape_dq s : unescape (dq +:+ s) = None.
Proof. done. Qed.

Lemma escape_inj s s' t t' :
  escape s +:+ dq +:+ t = escape s' +:+ dq +:+ t' → s = s' ∧ t = t'.
Proof.
  revert s'. induction s as [|a s IH]; intros [|a' s'] E; cbn [escape] in E;
    rewrite ?str_app_assoc in E; apply (f_equal unescape) in E as Eu;
    rewrite ?unescape_escape, ?unescape_dq in Eu; try discriminate.
  - split; [done|]. change ("" +:+ dq +:+ t) with (String quote_char t) in E.
    change ("" +:+ dq +:+ t') with (String quote_char t') in E. by injection E.
  - injection Eu as -> Es. apply IH in Es as [-> ->]. done.
Qed.

Lemma json_value_inj v v' t t' : json_value v +:+ t = json_value v' +:+ t' → v = v' ∧ t = t'.
Proof.
  destruct v as [s|], v' as [s'|]; cbn [json_value]; intros E.
  - unfold quote in E. rewrite !str_app_assoc in E.
    change (String quote_char (escape s +:+ dq +:+ t) = String quote_char (escape s' +:+ dq +:+ t')) in E.
    injection E as E. by apply escape_inj in E as [-> ->].
  - discriminate E.
  - discriminate E.
  - split; [done|].
    change (String "n" (String "u" (String "l" (String "l" t))) =
            String "n" (String "u" (String "l" (String "l" t')))) in E. by injection E.
Qed.

Lemma member_inj key v v' t t' : member key v +:+ t = member key v' +:+ t' → v = v' ∧ t = t'.
Proof.
  unfold member. rewrite !str_app_assoc. intros E%str_app_inj. apply str_app_inj in E.
  by apply json_value_inj.
Qed.

Lemma canonical_inj r r' : canonicalRowFields r = canonicalRowFields r' → r = r'.
Proof.
  destruct r, r'. unfold canonicalRowFields. simpl cf_action. simpl cf_org. simpl cf_ip.
  simpl cf_user_agent. simpl cf_user. simpl cf_metadata. simpl cf_outcome. simpl cf_request.
  simpl cf_target. intros E.
  repeat (apply str_app_inj in E; apply member_inj in E as [? E]). congruence.
Qed.

(** What is hashed: the previous hash and the canonical text after it. *)
Lemma payload_inj p p' r r' :
  has_char "{" p = false → has_char "{" p' = false →
  p +:+ canonicalRowFields r = p' +:+ canonicalRowFields r' → p = p' ∧ r = r'.
Proof.
  intros Hp Hp' E. unfold canonicalRowFields in E.
  destruct (first_sep "{" p p' _ _ Hp Hp' E) as [-> E']. split; [done|]. apply canonical_inj.
  unfold canonicalRowFields. by f_equal.
Qed.

Lemma all_chars_no P c s : P c = false → all_chars P s = true → has_char c s = false.
Proof.
  intros Hc. induction s as [|a s IH]; [done|]. simpl. intros [Ha Hs]%andb_true_iff.
  rewrite IH by done. rewrite orb_false_r. apply Ascii.eqb_neq. intros ->. congruence.
Qed.

Section chain.
Context `{!Digest}.

Definition computeRowHash (prevHash : string) (row : AuditChainFields) (key : option string)
    : string :=
  let canonical := canonicalRowFields row in
  match key with
  | Some k => HMAC_PREFIX +:+ hmac k (prevHash +:+ canonical)
  | None => sha256 (prevHash +:+ canonical)
  end.

(** ** The table *)

Record AuditRow := mkAuditRow {
  ar_id : Z;
  ar_fields : AuditChainFields;
  ar_prev : option string;
  ar_hash : option string
}.

Record Log := mkLog { lg_rows : list AuditRow; lg_seq : Z }.

(** [SELECT row_hash ... WHERE row_hash IS NOT NULL ORDER BY id DESC LIMIT 1];
    rows are in id order. *)
Definition tip (rows : list AuditRow) : string := default GENESIS_HASH (last (omap ar_hash rows)).

Definition append (key : option string) (f : AuditChainFields) (l : Log) : Log :=
  let prevHash := tip (lg_rows l) in
  mkLog (lg_rows l ++ [mkAuditRow (lg_seq l + 1) f (Some prevHash)
                         (Some (computeRowHash prevHash f key))]) (lg_seq l + 1).

(** The loop of [writeBatchSync]: the tip is read once and carried along. *)
Fixpoint append_batch (key : option string) (prevHash : string) (batch : list AuditChainFields)
    (l : Log) : Log :=
  match batch with
  | [] => l
  | f :: batch =>
      let rowHash := computeRowHash prevHash f key in
      append_batch key rowHash batch
        (mkLog (lg_rows l ++ [mkAuditRow (lg_seq l + 1) f (Some prevHash) (Some rowHash)])
           (lg_seq l + 1))
  end.

(** ** The queue and the process *)

Record AuditQueue := mkQueue {
  aq_buffer : list AuditChainFields;
  aq_timer : bool;
  aq_enqueued : nat;
  aq_flushed : nat;
  aq_dropped : nat;
  aq_batches : nat;
  aq_closed : bool
}.

Definition CAPACITY : nat := Z.to_nat 10000.
Definition BATCH_SIZE : nat := 50.

(** [ps_key] is [_chainKey], [ps_queue] is [_auditQueue], [ps_open] is
    [db.open]. *)
Record Process := mkProcess {
  ps_log : Log;
  ps_key : option string;
  ps_queue : option AuditQueue;
  ps_open : bool
}.

(** A call returns or throws; [io] tells whether the database commits the
    transaction (it may be busy, or the disk full). *)
Inductive call_result := Returned | Threw.

Definition set_log (l : Log) (p : Process) : Process :=
  mkProcess l (ps_key p) (ps_queue p) (ps_open p).
Definition set_queue (q : AuditQueue) (p : Process) : Process :=
  mkProcess (ps_log p) (ps_key p) (Some q) (ps_open p).

Definition insertAuditRowWithChain (io : bool) (f : AuditChainFields) (p : Process)
    : Process * call_result :=
  if ps_open p && io then (set_log (append (ps_key p) f (ps_log p)) p, Returned) else (p, Threw).

Definition writeBatchSync (io : bool) (rows : list AuditChainFields) (p : Process)
    : Process * call_result :=
  if negb (ps_open p) then (p, Returned)
  else if io then
    (set_log (append_batch (ps_key p) (tip (lg_rows (ps_log p))) rows (ps_log p)) p, Returned)
  else (p, Threw).

Definition set_buffer (b : list AuditChainFields) (t : bool) (q : AuditQueue) : AuditQueue :=
  mkQueue b t (aq_enqueued q) (aq_flushed q) (aq_dropped q) (aq_batches q) (aq_closed q).

Definition count_flushed (n batches : nat) (q : AuditQueue) : AuditQueue :=
  mkQueue (aq_buffer q) (aq_timer q) (aq_enqueued q) (aq_flushed q + n)%nat (aq_dropped q)
    (aq_batches q + batches)%nat (aq_closed q).

(** The rows leave the buffer before they are written. *)
Definition flush (io : bool) (q : AuditQueue) (p : Process) : Process * call_result :=
  let rows := aq_buffer q in
  let q0 := set_buffer rows false q in
  if decide (rows = []) then (set_queue q0 p, Returned)
  else
    let q1 := set_buffer [] false q in
    if negb (ps_open p) then (set_queue q1 p, Returned)
    else
      match writeBatchSync io rows (set_queue q1 p) with
      | (p', Threw) => (p', Threw)
      | (p', Returned) => (set_queue (count_flushed (length rows) 1 q1) p', Returned)
      end.

Definition enqueue (io : bool) (f : AuditChainFields) (q : AuditQueue) (p : Process)
    : Process * call_result :=
  if aq_closed q then
    match writeBatchSync io [f] p with
    | (p', Threw) => (p', Threw)
    | (p', Returned) => (set_queue (count_flushed 1 0 q) p', Returned)
    end
  else if decide (CAPACITY ≤ length (aq_buffer q))%nat then
    (set_queue (mkQueue (aq_buffer q) (aq_timer q) (aq_enqueued q) (aq_flushed q)
                  (S (aq_dropped q)) (aq_batches q) false) p, Returned)
  else
    let q1 := mkQueue (aq_buffer q ++ [f]) (aq_timer q) (S (aq_enqueued q)) (aq_flushed q)
                (aq_dropped q) (aq_batches q) false in
    if decide (BATCH_SIZE ≤ length (aq_buffer q1))%nat then flush io q1 p
    else (set_queue (set_buffer (aq_buffer q1) true q1) p, Returned).

(** [f] is the row built from the event; this entry point stores neither
    outcome nor request. *)
Definition auditLog (io : bool) (f : AuditChainFields) (p : Process) : Process * call_result :=
  insertAuditRowWithChain io
    (mkFields (cf_action f) (cf_org f) (cf_ip f) (cf_user_agent f) (cf_user f) (cf_metadata f)
       None None (cf_target f)) p.

(** [f] is the row built from the options and from the actor and request of the
    audit context; [tier1] tells whether the tier is 1. *)
Definition audit (io : bool) (tier1 : bool) (f : AuditChainFields) (p : Process)
    : Process * call_result :=
  match ps_queue p with
  | Some q => if tier1 then insertAuditRowWithChain io f p else enqueue io f q p
  | None => insertAuditRowWithChain io f p
  end.

(** The flush timer fires: an exception is swallowed. *)
Definition timer_fires (io : bool) (p : Process) : Process :=
  match ps_queue p with
  | Some q => if aq_timer q then (flush io (set_buffer (aq_buffer q) false q) p).1 else p
  | None => p
  end.

Definition audit_loss (dropped : nat) : AuditChainFields :=
  mkFields "system.shutdown.audit_loss" None None None None
    (Some ("{" +:+ quote "dropped_count" +:+ ":" +:+ pretty dropped +:+ "}"))
    (Some "failure") None None.

(** [io] is for the flush, [io'] for the last row, whose failure is swallowed. *)
Definition drain (io io' : bool) (q : AuditQueue) (p : Process) : Process * call_result :=
  if aq_closed q then (p, Returned)
  else
    match flush io q p with
    | (p', Threw) => (p', Threw)
    | (p', Returned) =>
        let q' := default q (ps_queue p') in
        let q'' := mkQueue (aq_buffer q') (aq_timer q') (aq_enqueued q') (aq_flushed q')
                     (aq_dropped q') (aq_batches q') true in
        let p'' := set_queue q'' p' in
        if decide (0 < aq_dropped q'')%nat
        then ((insertAuditRowWithChain io' (audit_loss (aq_dropped q'')) p'').1, Returned)
        else (p'', Returned)
    end.

(** The retention sweep; which rows are past their retention depends on their
    action and time, which is left open: any rows may go. *)
Definition sweep (ids : list Z) (l : Log) : Log :=
  mkLog (filter (λ r, ar_id r ∉ ids) (lg_rows l)) (lg_seq l).

(** [_chainKey] is overwritten; a server without a master key sets it to null. *)
Definition configureAuditChainKey (key : option string) (p : Process) : Process :=
  mkProcess (ps_log p) key (ps_queue p) (ps_open p).

(** A row a migration inserts without hashes, and the backfill at boot. *)
Definition insert_unchained (f : AuditChainFields) (l : Log) : Log :=
  mkLog (lg_rows l ++ [mkAuditRow (lg_seq l + 1) f None None]) (lg_seq l + 1).

Fixpoint backfill_rows (prevHash : string) (rows : list AuditRow) : list AuditRow :=
  match rows with
  | [] => []
  | r :: rows =>
      match ar_hash r with
      | Some _ => r :: backfill_rows prevHash rows
      | None =>
          let rowHash := computeRowHash prevHash (ar_fields r) None in
          mkAuditRow (ar_id r) (ar_fields r) (Some prevHash) (Some rowHash)
            :: backfill_rows rowHash rows
      end
  end.

Definition backfillAuditChain (l : Log) : Log :=
  mkLog (backfill_rows (tip (lg_rows l)) (lg_rows l)) (lg_seq l).

(** ** The verifier *)

Inductive reason :=
  MissingHash | WrongRowHash | WrongPrevHash | IdGapBefore | NoKeyForHmac | DowngradedAlg.

Record VerifyState := mkVerify {
  vs_findings : list (Z * reason);
  vs_prevHash : option string;
  vs_prevId : option Z;
  vs_sawHmac : bool
}.

Definition verify_row (chainKey : option string) (s : VerifyState) (r : AuditRow) : VerifyState :=
  let gap := match vs_prevId s with
             | Some i => bool_decide (ar_id r ≠ i + 1)
             | None => false
             end in
  let findings := vs_findings s ++ (if gap then [(ar_id r, IdGapBefore)] else []) in
  let prevHash := if gap then None else vs_prevHash s in
  match ar_hash r, ar_prev r with
  | Some h, Some p =>
      let wrong_prev := match prevHash with
                        | Some q => bool_decide (p ≠ q)
                        | None => false
                        end in
      let findings := findings ++ (if wrong_prev then [(ar_id r, WrongPrevHash)] else []) in
      let check findings saw key :=
        mkVerify (findings ++ (if bool_decide (computeRowHash p (ar_fields r) key = h) then []
                               else [(ar_id r, WrongRowHash)]))
          (Some h) (Some (ar_id r)) saw in
      match algorithmOf h, chainKey with
      | ALG_HMAC_V1, None =>
          mkVerify (findings ++ [(ar_id r, NoKeyForHmac)]) (Some h) (Some (ar_id r)) true
      | ALG_HMAC_V1, Some k => check findings true (Some k)
      | ALG_SHA256, _ =>
          check (findings ++ (if vs_sawHmac s then [(ar_id r, DowngradedAlg)] else []))
            (vs_sawHmac s) None
      end
  | _, _ => mkVerify (findings ++ [(ar_id r, MissingHash)]) prevHash (Some (ar_id r)) (vs_sawHmac s)
  end.

Definition verify (rows : list AuditRow) (chainKey : option string) : list (Z * reason) :=
  vs_findings (foldl (verify_row chainKey) (mkVerify [] None None false) rows).

(** ** Specifications *)

(** The process, call by call; [io] says whether the database commits. *)
Inductive op :=
  | OpInitQueue
  | OpAuditLog (io : bool) (f : AuditChainFields)
  | OpAudit (io tier1 : bool) (f : AuditChainFields)
  | OpTimer (io : bool)
  | OpDrain (io io' : bool)
  | OpSweep (ids : list Z)
  | OpConfigureKey (k : option string)
  | OpCloseDb.

Definition empty_queue : AuditQueue := mkQueue [] false 0 0 0 0 false.

Definition exec (o : op) (p : Process) : Process :=
  match o with
  | OpInitQueue => set_queue empty_queue p
  | OpAuditLog io f => (auditLog io f p).1
  | OpAudit io tier1 f => (audit io tier1 f p).1
  | OpTimer io => timer_fires io p
  | OpDrain io io' => match ps_queue p with Some q => (drain io io' q p).1 | None => p end
  | OpSweep ids => set_log (sweep ids (ps_log p)) p
  | OpConfigureKey k => configureAuditChainKey k p
  | OpCloseDb => mkProcess (ps_log p) (ps_key p) (ps_queue p) false
  end.

Definition fresh_process : Process := mkProcess (mkLog [] 0) None None true.

Definition run_audit (os : list op) : Process := foldl (λ p o, exec o p) fresh_process os.

(** A key that is in force stays: each configuration finds none or the same. *)
Fixpoint key_stays (key : option string) (os : list op) : Prop :=
  match os with
  | [] => True
  | OpConfigureKey k :: os => (key = None ∨ k = key) ∧ key_stays k os
  | _ :: os => key_stays key os
  end.

(** The row an operation is asked to write. *)
Definition asked (o : op) : list AuditChainFields :=
  match o with
  | OpAuditLog _ f =>
      [mkFields (cf_action f) (cf_org f) (cf_ip f) (cf_user_agent f) (cf_user f) (cf_metadata f)
         None None (cf_target f)]
  | OpAudit _ _ f => [f]
  | _ => []
  end.

(** Every transaction commits, the database stays open, nothing is swept, and the
    queue is created once. *)
Definition undisturbed (o : op) : Prop :=
  match o with
  | OpAuditLog io _ | OpAudit io _ _ | OpTimer io | OpDrain io _ => io = true
  | OpConfigureKey _ => True
  | OpInitQueue | OpSweep _ | OpCloseDb => False
  end.

Definition buffered (p : Process) : list AuditChainFields :=
  match ps_queue p with Some q => aq_buffer q | None => [] end.

(** A row whose hash is that of its content, under the algorithm it records. *)
Definition sound (kv : option string) (r : AuditRow) : Prop :=
  ∃ h p, ar_hash r = Some h ∧ ar_prev r = Some p ∧
    match algorithmOf h with
    | ALG_SHA256 => computeRowHash p (ar_fields r) None = h
    | ALG_HMAC_V1 => ∃ k, kv = Some k ∧ computeRowHash p (ar_fields r) (Some k) = h
    end.

Definition is_keyed (r : AuditRow) : bool :=
  match ar_hash r with
  | Some h => match algorithmOf h with ALG_HMAC_V1 => true | ALG_SHA256 => false end
  | None => false
  end.

(** Each part speaks about rows that are there, so deletions keep it. *)
Record chained (kv : option string) (rows : list AuditRow) : Prop := {
  ch_sound : Forall (sound kv) rows;
  ch_sorted : StronglySorted (λ r r', ar_id r < ar_id r') rows;
  ch_linked : ∀ r r', r ∈ rows → r' ∈ rows → ar_id r' = ar_id r + 1 → ar_prev r' = ar_hash r;
  ch_keyed : ∀ r r', r ∈ rows → r' ∈ rows → ar_id r < ar_id r' →
    is_keyed r = true → is_keyed r' = true
}.

(** ** Digests *)

Lemma sha256_alg x : algorithmOf (sha256 x) = ALG_SHA256.
Proof.
  unfold algorithmOf. destruct (startsWith HMAC_PREFIX (sha256 x)) eqn:E; [|done].
  apply Paths.startsWith_spec in E as (t & E). destruct (sha256_digest x) as [_ Hd].
  rewrite E in Hd. vm_compute in Hd. discriminate Hd.
Qed.

Lemma row_alg p f key :
  algorithmOf (computeRowHash p f key) =
    match key with Some _ => ALG_HMAC_V1 | None => ALG_SHA256 end.
Proof.
  destruct key as [k|]; [|apply sha256_alg]. unfold computeRowHash, algorithmOf.
  rewrite (proj2 (Paths.startsWith_spec _ _)) by by eexists. done.
Qed.

Lemma row_hash_no_brace p f key : has_char "{" (computeRowHash p f key) = false.
Proof.
  assert (∀ s, is_digest s → has_char "{" s = false) as Hd.
  { intros s [_ Hs]. by apply (all_chars_no hex_digit). }
  destruct key; unfold computeRowHash; [|by apply Hd, sha256_digest].
  pose proof (Hd _ (hmac_digest s (p +:+ canonicalRowFields f))) as Hh.
  unfold HMAC_PREFIX. cbn. exact Hh.
Qed.

(** ** The verifier on a chained log *)

Lemma chained_app kv rows rows' : chained kv (rows ++ rows') → chained kv rows.
Proof.
  intros [Hs Ho Hl Hk]. apply Forall_app in Hs as [Hs _].
  constructor; [done|by eapply StronglySorted_app_1_l|..];
    intros x y Hx Hy; [apply Hl|apply Hk]; apply elem_of_app; by left.
Qed.

Lemma chained_filter kv (P : AuditRow → Prop) `{!∀ r, Decision (P r)} rows :
  chained kv rows → chained kv (filter P rows).
Proof.
  intros [Hs Ho Hl Hk]. constructor.
  - apply Forall_forall. intros r [_ Hr]%list_elem_of_filter. by eapply Forall_forall in Hs.
  - clear Hs Hl Hk. induction Ho as [|r rows Ho IH Hr]; [constructor|]. rewrite filter_cons.
    case_decide; [|done]. constructor; [done|]. apply Forall_forall.
    intros x [_ Hx]%list_elem_of_filter. by eapply Forall_forall in Hr.
  - intros x y [_ Hx]%list_elem_of_filter [_ Hy]%list_elem_of_filter. by apply Hl.
  - intros x y [_ Hx]%list_elem_of_filter [_ Hy]%list_elem_of_filter. by apply Hk.
Qed.

(** One row after a chained prefix whose last row is known. *)
Lemma verify_row_sound kv s r :
  sound kv r →
  (∀ i, vs_prevId s = Some i → ar_id r = i + 1 → vs_prevHash s = ar_prev r) →
  (vs_prevId s = None → vs_prevHash s = None) →
  (vs_sawHmac s = true → is_keyed r = true) →
  Forall (λ f, f.2 = IdGapBefore) (vs_findings s) →
  let s' := verify_row kv s r in
  Forall (λ f, f.2 = IdGapBefore) (vs_findings s') ∧
  vs_sawHmac s' = vs_sawHmac s || is_keyed r ∧
  vs_prevId s' = Some (ar_id r) ∧ vs_prevHash s' = ar_hash r.
Proof.
  intros (h & p & Eh & Ep & Hh) Hlink Hnone Hsaw Hf. unfold verify_row, is_keyed in *.
  rewrite Eh, Ep in *.
  set (gap := match vs_prevId s with Some i => bool_decide (ar_id r ≠ i + 1) | None => false end).
  assert (match (if gap then None else vs_prevHash s) with
          | Some q => bool_decide (p ≠ q) | None => false end = false) as ->.
  { unfold gap. destruct (vs_prevId s) as [i|] eqn:Ei; [|by rewrite Hnone].
    case_bool_decide as Hg; [done|]. rewrite (Hlink i) by (done || lia).
    apply bool_decide_eq_false_2. tauto. }
  assert (Forall (λ f, f.2 = IdGapBefore)
    (vs_findings s ++ (if gap then [(ar_id r, IdGapBefore)] else []))) as Hg.
  { apply Forall_app. split; [done|]. by destruct gap; repeat constructor. }
  cbv zeta. rewrite app_nil_r. destruct (algorithmOf h) eqn:Ea.
  - destruct (vs_sawHmac s); [by discriminate Hsaw|]. simpl.
    rewrite bool_decide_eq_true_2 by done. by rewrite !app_nil_r.
  - destruct Hh as (k & -> & Hh). simpl. rewrite bool_decide_eq_true_2 by done.
    by rewrite app_nil_r, orb_true_r.
Qed.

(** The state after a prefix: its last row, and whether it saw a keyed one. *)
Lemma verify_state kv rows :
  chained kv rows →
  let s := foldl (verify_row kv) (mkVerify [] None None false) rows in
  Forall (λ f, f.2 = IdGapBefore) (vs_findings s) ∧
  vs_sawHmac s = existsb is_keyed rows ∧
  match last rows with
  | None => vs_prevId s = None ∧ vs_prevHash s = None
  | Some r => vs_prevId s = Some (ar_id r) ∧ vs_prevHash s = ar_hash r
  end.
Proof.
  induction rows as [|r rows IH] using rev_ind; intros Hc; [done|].
  destruct (IH (chained_app _ _ _ Hc)) as (Hf & Hsaw & Hlast). rewrite foldl_app. cbn [foldl].
  set (s := foldl _ _ rows) in *. clearbody s. destruct Hc as [Hs Ho Hl Hk].
  apply Forall_app in Hs as [_ [Hr _]%Forall_cons].
  assert (∀ x, x ∈ rows → ar_id x < ar_id r) as Hlt.
  { intros x Hx. by apply (StronglySorted_app_1_elem_of _ _ _ _ _ Ho Hx), list_elem_of_singleton. }
  assert (∀ x, x ∈ rows → x ∈ rows ++ [r]) as Hin by (intros; apply elem_of_app; by left).
  assert (r ∈ rows ++ [r]) as Hir by (apply elem_of_app; right; by apply list_elem_of_singleton).
  destruct (verify_row_sound kv s r Hr) as (H1 & H2 & H3 & H4); [..|done|].
  - intros i Hi Hid. destruct (last rows) as [x|] eqn:El; [|naive_solver].
    destruct Hlast as [E1 ->]. apply last_Some_elem_of in El. rewrite E1 in Hi. injection Hi as <-.
    symmetry. by apply Hl; [apply Hin|..].
  - intros Hn. destruct (last rows) as [x|]; [|naive_solver]. destruct Hlast. congruence.
  - rewrite Hsaw. intros (x & Hx%list_elem_of_In & Hx')%existsb_exists.
    apply (Hk x r (Hin x Hx) Hir (Hlt x Hx) Hx').
  - rewrite H2, Hsaw, existsb_app, last_snoc. simpl. rewrite orb_false_r. done.
Qed.

(** ** What the process keeps *)

(** All rows of a chained log are hashed, so the tip is the hash of the last. *)
Lemma tip_chained kv rows : chained kv rows → tip rows = default GENESIS_HASH (last rows ≫= ar_hash).
Proof.
  intros Hc. unfold tip. destruct rows as [|r rows] using rev_ind; [done|].
  destruct Hc as [Hs _ _ _]. apply Forall_app in Hs as [_ [(h & p & Eh & _) _]%Forall_cons].
  rewrite omap_app, last_snoc. cbn. by rewrite Eh, last_snoc.
Qed.

Lemma last_of_max rows x :
  StronglySorted (λ r r', ar_id r < ar_id r') rows → x ∈ rows →
  (∀ y, y ∈ rows → ar_id y ≤ ar_id x) → last rows = Some x.
Proof.
  intros Ho Hx Hmax. destruct rows as [|z k _] using rev_ind; [by apply not_elem_of_nil in Hx|].
  rewrite last_snoc. assert (z ∈ k ++ [z]) as Hz by set_solver.
  apply elem_of_app in Hx as [Hx| ->%list_elem_of_singleton]; [|done].
  assert (ar_id x < ar_id z) by (apply (StronglySorted_app_1_elem_of _ _ _ x z Ho Hx); set_solver).
  specialize (Hmax z Hz). lia.
Qed.

Definition log_ok (key : option string) (l : Log) : Prop :=
  chained key (lg_rows l) ∧ Forall (λ r, ar_id r ≤ lg_seq l) (lg_rows l) ∧
  (key = None → existsb is_keyed (lg_rows l) = false).

Lemma append_ok key f l : log_ok key l → log_ok key (append key f l).
Proof.
  intros (Hc & Hq & Hu). unfold append. rewrite (tip_chained _ _ Hc).
  set (prev := default GENESIS_HASH _). set (h := computeRowHash prev f key).
  set (r := mkAuditRow (lg_seq l + 1) f (Some prev) (Some h)).
  assert (is_keyed r = match key with Some _ => true | None => false end) as Hk.
  { unfold is_keyed, r, h. simpl. rewrite row_alg. by destruct key. }
  rewrite Forall_forall in Hq. unfold log_ok. simpl. split_and!.
  - destruct Hc as [Hs Ho Hl Hm]. constructor.
    + apply Forall_app. split; [done|]. constructor; [|done]. exists h, prev. split_and!; try done.
      unfold h. rewrite row_alg. destruct key as [k|]; [by exists k|done].
    + apply StronglySorted_app_2; [|done|by repeat constructor].
      intros x y Hx ->%list_elem_of_singleton. specialize (Hq x Hx). simpl. lia.
    + intros x y [Hx| ->%list_elem_of_singleton]%elem_of_app
        [Hy| ->%list_elem_of_singleton]%elem_of_app; simpl.
      * by apply Hl.
      * intros E. assert (last (lg_rows l) = Some x) as El.
        { apply last_of_max; [done..|]. intros y Hy. specialize (Hq y Hy). lia. }
        rewrite Forall_forall in Hs. destruct (Hs x Hx) as (hx & px & Ex & _).
        unfold prev. by rewrite El, Ex; simpl; rewrite Ex.
      * specialize (Hq y Hy). lia.
      * lia.
    + intros x y [Hx| ->%list_elem_of_singleton]%elem_of_app
        [Hy| ->%list_elem_of_singleton]%elem_of_app; simpl.
      * by apply Hm.
      * intros _ Hxk. rewrite Hk. destruct key; [done|]. specialize (Hu eq_refl).
        exfalso. apply not_true_iff_false in Hu. apply Hu, existsb_exists. exists x.
        by rewrite <- list_elem_of_In.
      * specialize (Hq y Hy). lia.
      * lia.
  - apply Forall_app. split; [|by repeat constructor]. apply Forall_forall. intros x Hx.
    specialize (Hq x Hx). lia.
  - intros ->. rewrite existsb_app, (Hu eq_refl). simpl. by rewrite Hk.
Qed.

(** The batch is the single append, repeated. *)
Lemma append_batch_foldl key batch l :
  log_ok key l →
  append_batch key (tip (lg_rows l)) batch l = foldl (λ l f, append key f l) l batch.
Proof.
  revert l. induction batch as [|f batch IH]; intros l Hl; [done|]. cbn [append_batch foldl].
  rewrite <- IH by by apply append_ok. f_equal. unfold append, tip. simpl.
  rewrite omap_app. simpl. by rewrite last_snoc.
Qed.

Lemma batch_ok key batch l : log_ok key l → log_ok key (append_batch key (tip (lg_rows l)) batch l).
Proof.
  intros Hl. rewrite append_batch_foldl by done. revert l Hl.
  induction batch as [|f batch IH]; intros l Hl; [done|]. by apply IH, append_ok.
Qed.

Definition queue_ok (q : AuditQueue) : Prop :=
  (length (aq_buffer q) < BATCH_SIZE)%nat ∧ aq_dropped q = 0%nat.

Definition process_ok (p : Process) : Prop :=
  log_ok (ps_key p) (ps_log p) ∧ match ps_queue p with Some q => queue_ok q | None => True end.

Lemma insert_ok io f p : process_ok p → process_ok (insertAuditRowWithChain io f p).1.
Proof.
  intros Hp. pose proof Hp as [Hl Hq]. unfold insertAuditRowWithChain.
  destruct (ps_open p && io); simpl; [|done].
  split; [by apply append_ok|done].
Qed.

Lemma write_ok io rows p : process_ok p → process_ok (writeBatchSync io rows p).1.
Proof.
  intros Hp. pose proof Hp as [Hl Hq]. unfold writeBatchSync.
  destruct (negb (ps_open p)), io; simpl; try exact Hp.
  split; [by apply batch_ok|done].
Qed.

Lemma write_queue io rows p : ps_queue (writeBatchSync io rows p).1 = ps_queue p.
Proof. unfold writeBatchSync. by destruct (negb (ps_open p)), io. Qed.

Lemma set_queue_ok q p : log_ok (ps_key p) (ps_log p) → queue_ok q → process_ok (set_queue q p).
Proof. by split. Qed.

(** Whatever the buffer held, it is empty or below the batch size after. *)
Lemma flush_ok io q p :
  log_ok (ps_key p) (ps_log p) → aq_dropped q = 0%nat → process_ok (flush io q p).1 ∧
  (∃ q', ps_queue (flush io q p).1 = Some q' ∧ aq_dropped q' = 0%nat).
Proof.
  intros Hl Hd. assert (0 < BATCH_SIZE)%nat as Hb by (unfold BATCH_SIZE; lia). unfold flush.
  case_decide as He.
  { rewrite He. split; [apply set_queue_ok; [done|by split]|by eexists]. }
  destruct (negb (ps_open p)) eqn:Eo; [split; [apply set_queue_ok; [done|by split]|by eexists]|].
  assert (process_ok (set_queue (set_buffer [] false q) p)) as Hp by (apply set_queue_ok; [done|by split]).
  pose proof (write_ok io (aq_buffer q) _ Hp) as Hw.
  pose proof (write_queue io (aq_buffer q) (set_queue (set_buffer [] false q) p)) as Hq.
  destruct (writeBatchSync _ _ _) as [p' []]; simpl in *.
  - destruct Hw as [Hw _]. split; [apply set_queue_ok; [done|by split]|by eexists].
  - split; [done|]. rewrite Hq. by eexists.
Qed.

Lemma enqueue_ok io f q p :
  process_ok p → ps_queue p = Some q → process_ok (enqueue io f q p).1.
Proof.
  intros Hp Eq. pose proof Hp as [Hl Hq]. rewrite Eq in Hq. destruct Hq as [Hb Hd]. unfold enqueue.
  destruct (aq_closed q).
  { pose proof (write_ok io [f] p Hp) as Hw. destruct (writeBatchSync io [f] p) as [p' []]; [|done].
    destruct Hw as [Hw _]. apply set_queue_ok; [done|by split]. }
  rewrite decide_False.
  2:{ assert (BATCH_SIZE ≤ CAPACITY)%nat by (apply (bool_decide_unpack _); vm_compute; reflexivity). lia. }
  case_decide as Hs; [by apply flush_ok|]. apply set_queue_ok; [done|]. split; [simpl in *; lia|done].
Qed.

Lemma drain_ok io io' q p : process_ok p → ps_queue p = Some q → process_ok (drain io io' q p).1.
Proof.
  intros Hp Eq. pose proof Hp as [Hl Hq]. rewrite Eq in Hq. destruct Hq as [Hb Hd]. unfold drain.
  destruct (aq_closed q); [done|]. destruct (flush_ok io q p Hl Hd) as [Hf (q' & Eq' & Hd')].
  destruct (flush io q p) as [p' []]; [|done]. simpl in *. destruct Hf as [Hl' Hq']. rewrite Eq' in *.
  simpl. rewrite decide_False by (rewrite Hd'; lia). apply set_queue_ok; [done|by destruct Hq'].
Qed.

Lemma exec_ok o p :
  process_ok p → (∀ k, o = OpConfigureKey k → ps_key p = None ∨ k = ps_key p) → process_ok (exec o p).
Proof.
  intros Hp Hkey. pose proof Hp as [Hl Hq]. destruct o as [|io f|io tier1 f|io|io io'|ids|k|]; simpl.
  - apply set_queue_ok; [done|]. split; [apply (bool_decide_unpack _); vm_compute; reflexivity|done].
  - by apply insert_ok.
  - unfold audit. destruct (ps_queue p) as [q|] eqn:Eq; [|by apply insert_ok].
    destruct tier1; [by apply insert_ok|by apply enqueue_ok].
  - unfold timer_fires. destruct (ps_queue p) as [q|] eqn:Eq; [|done].
    destruct (aq_timer q); [|done]. destruct Hq. by apply flush_ok.
  - destruct (ps_queue p) as [q|] eqn:Eq; [by apply drain_ok|done].
  - split; [|done]. destruct Hl as (Hc & Hs & Hu). split_and!; simpl.
    + by apply chained_filter.
    + apply Forall_forall. intros r [_ Hr]%list_elem_of_filter. by eapply Forall_forall in Hs.
    + intros Hk. apply not_true_iff_false. intros (r & Hr & Hrk)%existsb_exists.
      apply list_elem_of_In, list_elem_of_filter in Hr as [_ Hr].
      apply not_true_iff_false in Hu; [|done]. apply Hu, existsb_exists. exists r.
      by rewrite <- list_elem_of_In.
  - split; [|done]. destruct Hl as (Hc & Hs & Hu). simpl.
    destruct (Hkey k eq_refl) as [Ek|Ek]; [|by rewrite Ek].
    split_and!; [|done|intros _; by apply Hu]. destruct Hc as [Hso ???]. constructor; [|done..].
    apply Forall_forall. intros r Hr. rewrite Forall_forall in Hso.
    destruct (Hso r Hr) as (h & pr & Eh & Epr & Hh). exists h, pr. split_and!; [done..|].
    destruct (algorithmOf h); [done|]. destruct Hh as (? & ? & _). congruence.
  - done.
Qed.

(** Only a configuration changes the key. *)
Lemma exec_key o p : ps_key (exec o p) = match o with OpConfigureKey k => k | _ => ps_key p end.
Proof.
  assert (∀ io f p, ps_key (insertAuditRowWithChain io f p).1 = ps_key p) as Hi.
  { intros io f p'. unfold insertAuditRowWithChain. by destruct (ps_open p' && io). }
  assert (∀ io fs p, ps_key (writeBatchSync io fs p).1 = ps_key p) as Hw.
  { intros io fs p'. unfold writeBatchSync. by destruct (negb (ps_open p')), io. }
  assert (∀ io q p, ps_key (flush io q p).1 = ps_key p) as Hf.
  { intros io q p'. unfold flush. case_decide; [done|]. destruct (negb (ps_open p')); [done|].
    pose proof (Hw io (aq_buffer q) (set_queue (set_buffer [] false q) p')) as E.
    by destruct (writeBatchSync _ _ _) as [p'' []]. }
  destruct o as [|io f|io tier1 f|io|io io'|ids|k|]; simpl; try done.
  - apply Hi.
  - unfold audit. destruct (ps_queue p) as [q|]; [|apply Hi]. destruct tier1; [apply Hi|].
    unfold enqueue. pose proof (Hw io [f] p) as E. destruct (aq_closed q); [by destruct (writeBatchSync _ _ _) as [p'' []]|].
    case_decide; [done|]. by case_decide; [apply Hf|].
  - unfold timer_fires. destruct (ps_queue p) as [q|]; [|done]. destruct (aq_timer q); [apply Hf|done].
  - destruct (ps_queue p) as [q|]; [|done]. unfold drain. destruct (aq_closed q); [done|].
    pose proof (Hf io q p) as E. destruct (flush io q p) as [p' []]; [|done].
    case_decide; simpl; [by rewrite Hi|done].
Qed.

Lemma run_checks os p : process_ok p → key_stays (ps_key p) os → process_ok (foldl (λ p o, exec o p) p os).
Proof.
  revert p. induction os as [|o os IH]; intros p Hp Hk; [done|]. simpl. apply IH.
  - apply exec_ok; [done|]. intros k ->. by destruct Hk.
  - rewrite exec_key. destruct o; try exact Hk. by destruct Hk.
Qed.

Lemma key_stays_app os os' p :
  key_stays (ps_key p) (os ++ os') →
  key_stays (ps_key p) os ∧ key_stays (ps_key (foldl (λ p o, exec o p) p os)) os'.
Proof.
  revert p. induction os as [|o os IH]; intros p Hk; [done|]. simpl.
  assert (key_stays (ps_key (exec o p)) (os ++ os')) as Hk'.
  { rewrite exec_key. destruct o; try exact Hk. by destruct Hk. }
  destruct (IH _ Hk') as [H1 H2]. split; [|done]. rewrite exec_key in H1.
  destruct o; try exact H1. by destruct Hk as [? _].
Qed.

Lemma fresh_ok : process_ok fresh_process.
Proof. split; [|done]. split_and!; [|done|done]. constructor; try constructor; intros ?? Hx%not_elem_of_nil; done. Qed.

(** ** No row is lost *)

(** The rows on disk and those still in the buffer. *)
Definition kept (p : Process) : list AuditChainFields := (ar_fields <$> lg_rows (ps_log p)) ++ buffered p.

Lemma append_batch_fields key prev batch l :
  ar_fields <$> lg_rows (append_batch key prev batch l) = (ar_fields <$> lg_rows l) ++ batch.
Proof.
  revert prev l. induction batch as [|f batch IH]; intros prev l; simpl; [by rewrite app_nil_r|].
  rewrite IH. simpl. rewrite fmap_app, <- (assoc_L (++)). done.
Qed.

Lemma insert_kept f p :
  ps_open p = true → kept (insertAuditRowWithChain true f p).1 ≡ₚ kept p ++ [f].
Proof.
  intros Ho. unfold insertAuditRowWithChain, kept. rewrite Ho. simpl. unfold buffered. simpl.
  rewrite fmap_app, <- !(assoc_L (++)). by rewrite (comm (++) _ [f]).
Qed.

Lemma flush_kept q p :
  ps_open p = true → kept (flush true q p).1 = (ar_fields <$> lg_rows (ps_log p)) ++ aq_buffer q ∧
  (flush true q p).2 = Returned ∧ ps_open (flush true q p).1 = true.
Proof.
  intros Ho. unfold flush, writeBatchSync. case_decide as He; [by rewrite He|]. simpl. rewrite Ho. simpl.
  unfold kept, buffered. simpl. by rewrite append_batch_fields, app_nil_r, Ho.
Qed.

Lemma enqueue_kept f q p :
  ps_open p = true → process_ok p → ps_queue p = Some q →
  kept (enqueue true f q p).1 ≡ₚ kept p ++ [f] ∧ ps_open (enqueue true f q p).1 = true.
Proof.
  intros Ho [_ Hq] Eq. rewrite Eq in Hq. destruct Hq as [Hb _].
  assert (kept p = (ar_fields <$> lg_rows (ps_log p)) ++ aq_buffer q) as -> by (unfold kept, buffered; by rewrite Eq).
  unfold enqueue. destruct (aq_closed q).
  { unfold writeBatchSync. rewrite Ho. unfold kept, buffered. simpl. rewrite fmap_app, <- !(assoc_L (++)).
    split; [by rewrite (comm (++) _ [f])|done]. }
  rewrite decide_False.
  2:{ assert (BATCH_SIZE ≤ CAPACITY)%nat by (apply (bool_decide_unpack _); vm_compute; reflexivity). lia. }
  case_decide.
  - destruct (flush_kept (mkQueue (aq_buffer q ++ [f]) (aq_timer q) (S (aq_enqueued q)) (aq_flushed q) (aq_dropped q)
      (aq_batches q) false) p Ho) as (-> & _ & ->). simpl. by rewrite (assoc_L (++)).
  - unfold kept, buffered. simpl. by rewrite (assoc_L (++)).
Qed.

Lemma exec_kept o p :
  undisturbed o → process_ok p → ps_open p = true →
  kept (exec o p) ≡ₚ kept p ++ asked o ∧ ps_open (exec o p) = true.
Proof.
  intros Hu Hp Ho. pose proof Hp as [_ Hq].
  assert (∀ f, ps_open (insertAuditRowWithChain true f p).1 = true) as Hi.
  { intros f. unfold insertAuditRowWithChain. by destruct (ps_open p && true). }
  destruct o as [|io f|io tier1 f|io|io io'|ids|k|]; simpl in *; try done; try subst io; rewrite ?app_nil_r.
  - split; [by apply insert_kept|apply Hi].
  - unfold audit. destruct (ps_queue p) as [q|] eqn:Eq; [|split; [by apply insert_kept|apply Hi]].
    destruct tier1; [split; [by apply insert_kept|apply Hi]|by apply enqueue_kept].
  - unfold timer_fires. destruct (ps_queue p) as [q|] eqn:Eq; [|done]. destruct (aq_timer q); [|done].
    destruct (flush_kept (set_buffer (aq_buffer q) false q) p Ho) as (-> & _ & ->).
    unfold kept, buffered. by rewrite Eq.
  - destruct (ps_queue p) as [q|] eqn:Eq; [|done]. unfold drain. destruct (aq_closed q); [done|].
    destruct (flush_kept q p Ho) as (E1 & E2 & E3). destruct Hp as [Hl _]. destruct Hq as [_ Hd].
    destruct (flush_ok true q p Hl Hd) as [_ (q' & Eq' & Hd')].
    destruct (flush true q p) as [p' res]. simpl in *. subst res. rewrite Eq'. simpl. rewrite Hd'.
    unfold kept, buffered in *. rewrite Eq' in E1. simpl. rewrite E1, Eq. done.
  - done.
Qed.

Lemma run_kept os p :
  Forall undisturbed os → process_ok p → key_stays (ps_key p) os → ps_open p = true →
  kept (foldl (λ p o, exec o p) p os) ≡ₚ kept p ++ (os ≫= asked).
Proof.
  intros Hu. revert p. induction Hu as [|o os Ho _ IH]; intros p Hp Hk Hop; simpl; [by rewrite app_nil_r|].
  destruct (exec_kept o p Ho Hp Hop) as [E Eo]. rewrite IH; [|..|done].
  - by rewrite E, (assoc_L (++)).
  - apply exec_ok; [done|]. intros k ->. by destruct Hk.
  - rewrite exec_key. destruct o; try exact Hk. by destruct Hk.
Qed.

(** [C24] The log the server writes verifies: after any sequence of direct and
    batched writes (with failing transactions in between), retention sweeps that
    delete any rows, a shutdown and a closed database, the verifier, given the key
    in force, reports nothing but gaps in the row numbers. A key may be configured
    at some point, provided that it is not replaced or dropped later. The queue
    never holds a full batch and never drops a row for lack of room. And no row is
    lost while the transactions commit: as long as nothing is swept, the database
    is open and the queue is not created anew, the rows on disk and in the buffer
    are those of before and those that were asked for, each once. (A batch whose
    transaction fails, or that is flushed after the database was closed, is
    lost.) *)
Theorem audit_log_verifies os os' :
  key_stays None (os ++ os') →
  let p := run_audit os in
  let p' := run_audit (os ++ os') in
  Forall (λ f, f.2 = IdGapBefore) (verify (lg_rows (ps_log p')) (ps_key p')) ∧
  match ps_queue p' with
  | Some q => (length (aq_buffer q) < BATCH_SIZE)%nat ∧ aq_dropped q = 0%nat
  | None => True
  end ∧
  (ps_open p = true → Forall undisturbed os' →
   (ar_fields <$> lg_rows (ps_log p')) ++ buffered p' ≡ₚ
     (ar_fields <$> lg_rows (ps_log p)) ++ buffered p ++ (os' ≫= asked)).
Proof.
  intros Hk p p'. destruct (run_checks _ _ fresh_ok Hk) as [(Hc & _) Hq].
  split; [by apply verify_state|]. split; [exact Hq|]. intros Hop Hu.
  destruct (key_stays_app os os' fresh_process Hk) as [Hk1 Hk2]. rewrite (assoc_L (++)).
  subst p p'. unfold run_audit in *. rewrite foldl_app.
  exact (run_kept os' _ Hu (run_checks _ _ fresh_ok Hk1) Hk2 Hop).
Qed.

(** ** Tampering *)

(** Rows [i], [i + 1], ... of which each is sound and follows the one before,
    the first one after [prev]. *)
Fixpoint linked (kv : option string) (prev : string) (i : Z) (rows : list AuditRow) : Prop :=
  match rows with
  | [] => True
  | r :: rows =>
      ar_id r = i ∧ ar_prev r = Some prev ∧ sound kv r ∧
      ∃ h, ar_hash r = Some h ∧ linked kv h (i + 1) rows
  end.

Lemma app_nil_inv {A} (l k : list A) : l ++ k = [] → l = [] ∧ k = [].
Proof. by destruct l. Qed.

(** A row that adds no finding. *)
Lemma verify_row_clean kv s r :
  vs_findings (verify_row kv s r) = [] →
  vs_findings s = [] ∧ sound kv r ∧
  vs_prevId (verify_row kv s r) = Some (ar_id r) ∧ vs_prevHash (verify_row kv s r) = ar_hash r ∧
  (∀ i, vs_prevId s = Some i → ar_id r = i + 1) ∧
  (∀ h, vs_prevId s ≠ None → vs_prevHash s = Some h → ar_prev r = Some h).
Proof.
  unfold verify_row.
  set (gap := match vs_prevId s with Some i => bool_decide (ar_id r ≠ i + 1) | None => false end).
  destruct (ar_hash r) as [h|] eqn:Eh; [|by intros [_ [=]]%app_nil_inv].
  destruct (ar_prev r) as [p|] eqn:Ep; [|by intros [_ [=]]%app_nil_inv].
  set (wrong := match _ with Some q => bool_decide (p ≠ q) | None => false end). cbv zeta.
  intros E. assert (vs_findings s = [] ∧ gap = false ∧ wrong = false ∧ sound kv r) as (? & Hg & Hw & ?).
  { destruct (algorithmOf h) eqn:Ea; [|destruct kv as [k|]]; simpl in E;
      repeat match goal with
        | H : _ ++ _ = [] |- _ => apply app_nil_inv in H as [? ?]
        end; try discriminate; split_and!; try done; try by destruct gap; try by destruct wrong.
    all: exists h, p; split_and!; [done..|]; rewrite Ea; case_bool_decide; [|done].
    - done.
    - by exists k. }
  split_and!; try done.
  - by destruct (algorithmOf h), kv.
  - by destruct (algorithmOf h), kv.
  - intros i Hi. unfold gap in Hg. rewrite Hi in Hg. by apply bool_decide_eq_false, dec_stable in Hg.
  - intros q Hi Hq. unfold wrong in Hw. rewrite Hg, Hq in Hw.
    apply bool_decide_eq_false, dec_stable in Hw. by rewrite Hw.
Qed.

Lemma verify_findings_mono kv rows s :
  vs_findings (foldl (verify_row kv) s rows) = [] → vs_findings s = [].
Proof.
  revert s. induction rows as [|r rows IH]; intros s; [done|]. simpl. intros E%IH.
  by apply verify_row_clean in E as [? _].
Qed.

Lemma verify_linked kv rows s prev i :
  vs_findings (foldl (verify_row kv) s rows) = [] →
  vs_prevId s = Some (i - 1) → vs_prevHash s = Some prev → linked kv prev i rows.
Proof.
  revert s prev i. induction rows as [|r rows IH]; intros s prev i E Hi Hh; [done|]. simpl in E.
  pose proof (verify_findings_mono _ _ _ E) as E'.
  destruct (verify_row_clean _ _ _ E') as (_ & Hs & Hid & Hha & Hn & Hp).
  assert (ar_id r = i) as Hri by (rewrite (Hn _ Hi); lia).
  assert (ar_prev r = Some prev) as Hrp by (apply Hp; [by rewrite Hi|done]).
  simpl. split_and!; [done..|]. pose proof Hs as (h & p & Eh & _). exists h. split; [done|].
  apply (IH _ _ _ E); [rewrite Hid, Hri; f_equal; lia|by rewrite Hha].
Qed.

(** A log that verifies without a finding, from its first row. *)
Lemma verify_clean kv r rows :
  verify (r :: rows) kv = [] → ∃ p, ar_prev r = Some p ∧ linked kv p (ar_id r) (r :: rows).
Proof.
  unfold verify. simpl. intros E. pose proof (verify_findings_mono _ _ _ E) as E'.
  destruct (verify_row_clean _ _ _ E') as (_ & Hs & Hid & Hha & _).
  pose proof Hs as (h & p & Eh & Ep & _). exists p. split; [done|]. split_and!; try done.
  exists h. split; [done|]. apply (verify_linked _ _ _ _ _ E); [rewrite Hid; f_equal; lia|by rewrite Hha].
Qed.

(** The hash a log ends with; an empty one ends where it starts. *)
Fixpoint end_hash (prev : string) (rows : list AuditRow) : string :=
  match rows with
  | [] => prev
  | r :: rows => end_hash (default prev (ar_hash r)) rows
  end.

Lemma linked_snoc kv prev i rows r :
  linked kv prev i (rows ++ [r]) →
  linked kv prev i rows ∧ ar_id r = i + Z.of_nat (length rows) ∧
  ar_prev r = Some (end_hash prev rows) ∧ sound kv r.
Proof.
  revert prev i. induction rows as [|x rows IH]; intros prev i.
  - simpl. rewrite Z.add_0_r. naive_solver.
  - cbn [app linked length end_hash]. intros (? & ? & ? & h & -> & (? & ? & ? & ?)%IH). simpl.
    split_and!; try done; [by exists h|lia].
Qed.

Lemma end_hash_no_brace kv prev i rows :
  linked kv prev i rows → has_char "{" prev = false → has_char "{" (end_hash prev rows) = false.
Proof.
  revert prev i. induction rows as [|r rows IH]; intros prev i; [done|]. simpl.
  intros (_ & _ & (h' & p & Eh' & _ & Hs) & h & Eh & Hl) _. rewrite Eh. simpl. apply (IH _ _ Hl).
  assert (h' = h) as -> by congruence.
  destruct (algorithmOf h); [|destruct Hs as (k & _ & Hs)]; rewrite <- Hs; apply row_hash_no_brace.
Qed.

(** The texts the hashes of a log are of: the previous hash, then the content. *)
Definition hashed (rows : list AuditRow) : list string :=
  omap (λ r, (λ p, p +:+ canonicalRowFields (ar_fields r)) <$> ar_prev r) rows.

(** Among the texts that were hashed, one of each log, two that differ have the
    same digest. *)
Definition collision (kv : option string) (rows rows' : list AuditRow) : Prop :=
  ∃ x y, x ∈ hashed rows ∧ y ∈ hashed rows' ∧ x ≠ y ∧
    (sha256 x = sha256 y ∨ ∃ k, kv = Some k ∧ hmac k x = hmac k y).

Lemma collision_app kv rows rows' more more' :
  collision kv rows rows' ∨ collision kv more more' → collision kv (rows ++ more) (rows' ++ more').
Proof.
  unfold collision, hashed. intros [(x & y & Hx & Hy & He)|(x & y & Hx & Hy & He)]; exists x, y;
    rewrite !omap_app, !elem_of_app; tauto.
Qed.

Lemma same_hash kv r r' p p' :
  sound kv r → sound kv r' → ar_prev r = Some p → ar_prev r' = Some p' →
  has_char "{" p = false → has_char "{" p' = false → ar_hash r = ar_hash r' →
  (p = p' ∧ ar_fields r = ar_fields r') ∨ collision kv [r] [r'].
Proof.
  intros (h & q & Eh & Eq & Hs) (h' & q' & Eh' & Eq' & Hs') Ep Ep' Hp Hp' E.
  assert (h' = h) as -> by congruence. assert (q = p) as -> by congruence.
  assert (q' = p') as -> by congruence.
  destruct (decide (p +:+ canonicalRowFields (ar_fields r) = p' +:+ canonicalRowFields (ar_fields r')))
    as [Ei|Hi]; [left; by apply payload_inj|]. right.
  eexists _, _. unfold hashed. simpl. rewrite Ep, Ep'. simpl.
  split_and!; [by apply list_elem_of_singleton..|exact Hi|].
  unfold computeRowHash in *. destruct (algorithmOf h).
  - left. congruence.
  - right. destruct Hs as (k & -> & Hs), Hs' as (k' & [= <-] & Hs').
    exists k. split; [done|]. rewrite <- Hs' in Hs. by apply str_app_inj in Hs.
Qed.

(** Two logs of the same length from the same hash to the same tip. *)
Lemma linked_unique kv prev i rows rows' :
  has_char "{" prev = false → linked kv prev i rows → linked kv prev i rows' →
  length rows = length rows' → (last rows ≫= ar_hash) = (last rows' ≫= ar_hash) →
  rows = rows' ∨ collision kv rows rows'.
Proof.
  intros Hb. revert rows'. induction rows as [|r rows IH] using rev_ind; intros rows' Hl Hl' Hn Ht.
  { left. by destruct rows'. }
  destruct rows' as [|r' rows' _] using rev_ind; [rewrite length_app in Hn; simpl in Hn; lia|].
  rewrite !length_app in Hn. rewrite !last_snoc in Ht. simpl in Hn, Ht.
  apply linked_snoc in Hl as (Hl & Hi & Hp & Hs). apply linked_snoc in Hl' as (Hl' & Hi' & Hp' & Hs').
  destruct (same_hash kv r r' _ _ Hs Hs' Hp Hp') as [[Ep Ef]|]; [..|right; apply collision_app; by right];
    [by eapply end_hash_no_brace..|done|].
  assert (length rows = length rows') as Hn' by lia.
  assert ((last rows ≫= ar_hash) = (last rows' ≫= ar_hash)) as Ht'.
  { clear IH. destruct rows as [|x rows _] using rev_ind; [by destruct rows'|].
    destruct rows' as [|x' rows' _] using rev_ind; [rewrite length_app in Hn'; simpl in Hn'; lia|].
    rewrite !last_snoc. simpl. apply linked_snoc in Hl as (_ & _ & _ & (h & ? & Eh & _)).
    apply linked_snoc in Hl' as (_ & _ & _ & (h' & ? & Eh' & _)).
    assert (∀ y k, ar_hash y = Some k → ∀ l, end_hash prev (l ++ [y]) = k) as He.
    { intros y k Ey l. generalize prev. induction l as [|z l IHl]; intros q; simpl; [by rewrite Ey|done]. }
    rewrite (He _ _ Eh), (He _ _ Eh') in Ep. congruence. }
  destruct (IH rows' Hl Hl' Hn' Ht') as [->|]; [|right; apply collision_app; by left]. left. f_equal. f_equal.
  destruct r, r'; simpl in *. congruence.
Qed.


(** ** The backfill at boot *)

Lemma findings_kept kv s r f : f ∈ vs_findings s → f ∈ vs_findings (verify_row kv s r).
Proof.
  intros Hf. unfold verify_row. cbv zeta.
  repeat case_match; simpl; rewrite !elem_of_app; tauto.
Qed.

Lemma wrong_link_found kv s r h p q :
  ar_hash r = Some h → ar_prev r = Some p → vs_prevId s = Some (ar_id r - 1) →
  vs_prevHash s = Some q → p ≠ q → (ar_id r, WrongPrevHash) ∈ vs_findings (verify_row kv s r).
Proof.
  intros Eh Ep Ei Eq Hne. unfold verify_row. rewrite Eh, Ep, Ei, Eq.
  rewrite (bool_decide_eq_false_2 (ar_id r ≠ _)) by lia. rewrite bool_decide_eq_true_2 by done. cbv zeta.
  repeat case_match; simpl; rewrite !elem_of_app, list_elem_of_singleton; tauto.
Qed.

(** A row that a migration inserts without hashes, after the log has begun,
    breaks the chain for good: the server links the next row to the last hashed
    one, and the backfill of the next boot links the migration's row to the tip,
    that is to a later row. The verifier reports a wrong link. *)
Theorem late_backfill_breaks_chain key a b c :
  let l1 := append key a (mkLog [] 0) in
  let l := backfillAuditChain (append key c (insert_unchained b l1)) in
  let ha := computeRowHash GENESIS_HASH a key in
  computeRowHash ha c key ≠ ha →
  (2, WrongPrevHash) ∈ verify (lg_rows l) key.
Proof.
  intros l1 l ha Hne. set (hc := computeRowHash ha c key) in *.
  assert (lg_rows l = [mkAuditRow 1 a (Some GENESIS_HASH) (Some ha);
    mkAuditRow 2 b (Some hc) (Some (computeRowHash hc b None)); mkAuditRow 3 c (Some ha) (Some hc)])
    as -> by reflexivity.
  unfold verify. cbn [foldl]. apply findings_kept.
  set (s := verify_row key (mkVerify [] None None false) (mkAuditRow 1 a (Some GENESIS_HASH) (Some ha))).
  assert (vs_prevId s = Some 1 ∧ vs_prevHash s = Some ha) as [Ei Eh].
  { unfold s, verify_row. simpl. by destruct (algorithmOf ha), key. }
  by apply (wrong_link_found key s (mkAuditRow 2 b (Some hc) (Some (computeRowHash hc b None)))
    (computeRowHash hc b None) hc ha).
Qed.
End chain.

(** ** A concrete digest and concrete logs *)

(** A checksum, printed as 64 hexadecimal digits. *)
Fixpoint checksum (s : string) : Z :=
  match s with
  | EmptyString => 7
  | String a s => (Paths.code a + 131 * checksum s) mod 2 ^ 61
  end.

Fixpoint hex_digits (k : nat) (n : Z) : string :=
  match k with
  | O => EmptyString
  | S k => String (hex_of (n mod 16)) (hex_digits k (n / 16))
  end.

Lemma hex_of_digit n : 0 ≤ n < 16 → hex_digit (hex_of n) = true.
Proof.
  intros Hn. assert (n ∈ seqZ 0 16) as Hin by (apply elem_of_seqZ; lia).
  assert (Forall (λ n, hex_digit (hex_of n) = true) (seqZ 0 16)) as HF
    by (apply (bool_decide_unpack _); vm_compute; reflexivity).
  by eapply Forall_forall in HF.
Qed.

Lemma hex_digits_digest n : is_digest (hex_digits 64 n).
Proof.
  unfold is_digest. generalize 64%nat as k. intros k. revert n. induction k as [|k IH]; intros n; [done|].
  destruct (IH (n / 16)) as [El Ea]. simpl. rewrite El, Ea, hex_of_digit; [done|].
  apply Z.mod_pos_bound. lia.
Qed.

Definition checksum_digest : Digest := {|
  sha256 x := hex_digits 64 (checksum x);
  hmac k x := hex_digits 64 (checksum (k +:+ x));
  sha256_digest x := hex_digits_digest _;
  hmac_digest k x := hex_digits_digest _
|}.

Definition event (action : string) : AuditChainFields :=
  mkFields action (Some "default") None None (Some "alice") None (Some "success") None None.

(** A key is configured after the first row; one transaction fails. *)
Definition demo_start : list op :=
  [OpInitQueue; OpAudit true true (event "login"); OpConfigureKey (Some "k"); OpAudit true false (event "read");
   OpAudit false true (event "lost")].
Definition demo_rest : list op :=
  [OpAudit true true (event "logout"); OpTimer true; OpAudit true false (event "read")].
Definition demo_audit : list op := demo_start ++ demo_rest.

Lemma audit_log_verifies_witness :
  let p := @run_audit checksum_digest demo_audit in
  Forall (λ f, f.2 = IdGapBefore) (@verify checksum_digest (lg_rows (ps_log p)) (ps_key p)) ∧
  cf_action ∘ ar_fields <$> lg_rows (ps_log p) = ["login"; "logout"; "read"] ∧
  (ar_fields <$> lg_rows (ps_log p)) ++ buffered p ≡ₚ
    [event "login"; event "read"; event "logout"; event "read"].
Proof.
  destruct (@audit_log_verifies checksum_digest demo_start demo_rest) as (H1 & _ & H3); [vm_compute; tauto|].
  split; [exact H1|]. split; [vm_compute; reflexivity|].
  refine (H3 eq_refl _). repeat constructor.
Defined.

(** Why the key has to stay: another key makes the verifier report the rows of the
    first one, and a dropped key makes it report a downgrade. *)
Example changed_key_reported :
  let log k := lg_rows (ps_log (@run_audit checksum_digest
    [OpConfigureKey (Some "k"); OpAudit true true (event "login"); OpConfigureKey k;
     OpAudit true true (event "logout")])) in
  @verify checksum_digest (log (Some "l")) (Some "l") = [(1, WrongRowHash)] ∧
  @verify checksum_digest (log None) (Some "k") = [(2, DowngradedAlg)].
Proof. vm_compute. done. Qed.

(** The log of that run, and the same with the first action rewritten in place. *)
Definition demo_rows : list AuditRow := lg_rows (ps_log (@run_audit checksum_digest demo_audit)).

Definition rewritten : list AuditRow :=
  match demo_rows with
  | r :: rows => mkAuditRow (ar_id r) (event "nothing") (ar_prev r) (ar_hash r) :: rows
  | [] => []
  end.


Lemma late_backfill_breaks_chain_witness :
  (2, WrongPrevHash) ∈ @verify checksum_digest
    (lg_rows (@backfillAuditChain checksum_digest
       (@append checksum_digest None (event "read")
          (insert_unchained (event "migration.agent_fk_recover")
             (@append checksum_digest None (event "login") (mkLog [] 0)))))) None.
Proof.
  refine (@late_backfill_breaks_chain checksum_digest None (event "login")
    (event "migration.agent_fk_recover") (event "read") _).
  vm_compute. discriminate.
Defined.

End AuditChain.
