(* ===== verification/EventStream.v ===== *)
(** * The event stream ([src/sse-emitter.ts], [handleSse] of [src/serve-http.ts],
      and its reader in [dashboard/public/dashboard.js])

    An event is a row of the table [events]; the listeners of its organisation
    at that moment get it later, one macrotask each. A client that connects is
    first sent rows of the table, then listens. *)

From S2P Require Import Prelude Paths Announce AuditChain.
Import Announce.PlanQuality.
Local Open Scope Z_scope.

Module EventStream.

(** ** Events and their text *)

(** [created] is the text of the column, or the one the live event carries. *)
Record Event := mkEv {
  ev_id : Z;
  ev_type : string;
  ev_payload : string;
  ev_created : string
}.

(** [JSON.stringify] of an object whose values are given as JSON text. *)
Definition members (fields : jsmap string) : string :=
  join "," ((λ p, AuditChain.quote p.1 +:+ ":" +:+ p.2) <$> fields).

Definition stringify (fields : jsmap string) : string := "{" +:+ members fields +:+ "}".

(** [{ ...payload, org_id: options.org_id }] *)
Definition payloadWithOrg (org : string) (payload : jsmap string) : jsmap string :=
  map_set "org_id" (AuditChain.quote org) payload.

Definition injectTimestamp (payloadJson createdAt : string) : string :=
  match payloadJson with
  | String "{" body =>
      if String.eqb body "}" then "{" +:+ AuditChain.quote "_ts" +:+ ":" +:+ AuditChain.quote createdAt +:+ "}"
      else "{" +:+ AuditChain.quote "_ts" +:+ ":" +:+ AuditChain.quote createdAt +:+ "," +:+ body
  | _ => payloadJson
  end.

Definition newline : ascii := Paths.char 10.
Definition nl : string := String newline "".

(** [writeSseEvent]: the text written for an event. *)
Definition sseFrame (e : Event) : string :=
  "id: " +:+ pretty (ev_id e) +:+ nl +:+ "event: " +:+ ev_type e +:+ nl +:+
  "data: " +:+ injectTimestamp (ev_payload e) (ev_created e) +:+ nl +:+ nl.

(** The heartbeat. *)
Definition keepAlive : string := ":keep-alive" +:+ nl +:+ nl.

(** ** The emitter *)

(** A listener is the response it writes to; [en_key] is the identity of the
    entry object. *)
Record Entry := mkEntry { en_key : nat; en_org : string; en_client : nat }.

#[global] Instance Entry_eq_dec : EqDecision Entry.
Proof. solve_decision. Defined.

(** [immediates] are the callbacks handed to [setImmediate], first in first out;
    [sent] is what was written to the responses, in order. *)
Record Emitter := mkEmitter {
  table : list (string * Event);
  seq : Z;
  entries : list Entry;
  next_key : nat;
  immediates : list (Entry * Event);
  rejectedCount : nat;
  listenerErrorCount : nat;
  sent : list (nat * Event)
}.

Definition with_entries (l : list Entry) (s : Emitter) : Emitter :=
  mkEmitter (table s) (seq s) l (next_key s) (immediates s) (rejectedCount s) (listenerErrorCount s) (sent s).
Definition with_table (l : list (string * Event)) (s : Emitter) : Emitter :=
  mkEmitter l (seq s) (entries s) (next_key s) (immediates s) (rejectedCount s) (listenerErrorCount s) (sent s).
Definition write (c : nat) (es : list Event) (s : Emitter) : Emitter :=
  mkEmitter (table s) (seq s) (entries s) (next_key s) (immediates s) (rejectedCount s) (listenerErrorCount s)
    (sent s ++ ((λ e, (c, e)) <$> es)).

(** [stamp] is the default of the column, [iso] the text of [new Date()]. *)
Definition emit (stamp iso type : string) (payload : jsmap string) (org : string) (s : Emitter) : Emitter :=
  let payloadStr := stringify (payloadWithOrg org payload) in
  let id := seq s + 1 in
  let event := mkEv id type payloadStr iso in
  let snapshot := filter (λ e, en_org e = org) (entries s) in
  mkEmitter (table s ++ [(org, mkEv id type payloadStr stamp)]) id (entries s) (next_key s)
    (immediates s ++ ((λ e, (e, event)) <$> snapshot)) (rejectedCount s) (listenerErrorCount s) (sent s).

(** The next callback runs; [throws] says whose listener does. *)
Definition deliver (throws : nat → bool) (s : Emitter) : Emitter :=
  match immediates s with
  | [] => s
  | (e, ev) :: q =>
      let bad := throws (en_client e) in
      mkEmitter (table s) (seq s) (entries s) (next_key s) q (rejectedCount s)
        (if bad then S (listenerErrorCount s) else listenerErrorCount s)
        (if bad then sent s else sent s ++ [(en_client e, ev)])
  end.

(** The table is in id order, as the ids only grow. *)
Definition getEventsSince (orgId : string) (lastId : Z) (limit : option nat) (s : Emitter) : list Event :=
  let rows := snd <$> filter (λ r, r.1 = orgId ∧ lastId < ev_id r.2) (table s) in
  match limit with Some n => take n rows | None => rows end.

(** [ORDER BY id DESC LIMIT ?], reversed. *)
Definition getRecentEvents (orgId : string) (limit : nat) (s : Emitter) : list Event :=
  reverse (take limit (reverse (snd <$> filter (λ r, r.1 = orgId) (table s)))).

(** The entry that the returned function removes, or nothing: [NOOP]. *)
Definition addListener (max : nat) (orgId : string) (client : nat) (s : Emitter) : option Entry * Emitter :=
  if bool_decide (max ≤ length (entries s))%nat
  then (None, mkEmitter (table s) (seq s) (entries s) (next_key s) (immediates s) (S (rejectedCount s))
                (listenerErrorCount s) (sent s))
  else
    let entry := mkEntry (next_key s) orgId client in
    (Some entry, mkEmitter (table s) (seq s) (entries s ++ [entry]) (S (next_key s)) (immediates s)
                   (rejectedCount s) (listenerErrorCount s) (sent s)).

Definition unsubscribe (entry : option Entry) (s : Emitter) : Emitter :=
  match entry with
  | Some e => with_entries (filter (λ x, x ≠ e) (entries s)) s
  | None => s
  end.

Definition removeAllListeners (s : Emitter) : Emitter := with_entries [] s.

(** ** [parseInt(text, 10)]; [None] is NaN *)

Fixpoint digit_prefix (acc : option Z) (s : string) : option Z :=
  match s with
  | EmptyString => acc
  | String a r =>
      let n := Paths.code a in
      if bool_decide (48 ≤ n ∧ n ≤ 57) then digit_prefix (Some (default 0 acc * 10 + (n - 48))) r else acc
  end.

Definition parseInt (s : string) : option Z :=
  match trim_start 0 s with
  | String "-" r => Z.opp <$> digit_prefix None r
  | String "+" r => digit_prefix None r
  | t => digit_prefix None t
  end.

(** [MAX_SSE_CLIENTS], from the environment. *)
Definition DEFAULT_MAX_SSE_CLIENTS : nat := 100.

Definition MAX_SSE_CLIENTS (raw : option string) : nat :=
  match truthy raw with
  | None => DEFAULT_MAX_SSE_CLIENTS
  | Some r => match parseInt r with
              | Some n => if bool_decide (0 < n) then Z.to_nat n else DEFAULT_MAX_SSE_CLIENTS
              | None => DEFAULT_MAX_SSE_CLIENTS
              end
  end.

(** ** [handleSse], once the request is authenticated as [org] *)

Definition SSE_RECENT_EVENTS_LIMIT : nat := 50.
Definition SSE_RESUME_CAP : nat := 1000.

(** What is replayed for the header [Last-Event-ID]. *)
Definition replay (org : string) (header : option string) (s : Emitter) : list Event :=
  let recent := getRecentEvents org SSE_RECENT_EVENTS_LIMIT s in
  match parseInt (default "0" (truthy header)) with
  | Some n => if bool_decide (0 < n) then getEventsSince org n (Some SSE_RESUME_CAP) s else recent
  | None => recent
  end.

Definition handleSse (max : nat) (org : string) (client : nat) (header : option string) (s : Emitter)
    : option Entry * Emitter :=
  addListener max org client (write client (replay org header s) s).

(** ** Runs *)

Inductive action :=
  | Emit (stamp iso type : string) (payload : jsmap string) (org : string)
  | Deliver (throws : nat → bool)
  | Connect (org : string) (client : nat) (header : option string)
  | Close (entry : Entry)
  | Prune (ids : list Z).

Definition step (max : nat) (a : action) (s : Emitter) : Emitter :=
  match a with
  | Emit stamp iso type payload org => emit stamp iso type payload org s
  | Deliver throws => deliver throws s
  | Connect org c h => (handleSse max org c h s).2
  | Close e => unsubscribe (Some e) s
  | Prune ids => with_table (filter (λ r, ev_id r.2 ∉ ids) (table s)) s
  end.

Definition run (max : nat) (l : list action) (s : Emitter) : Emitter := foldl (λ s a, step max a s) s l.

Definition init : Emitter := mkEmitter [] 0 [] O [] O O [].

(** ** The reader of the dashboard *)

(** [buf.indexOf("\n\n")] and the two slices around it. *)
Fixpoint cut_block (s : string) : option (string * string) :=
  match s with
  | EmptyString => None
  | String a r =>
      match r with
      | String b r' =>
          if Ascii.eqb a newline && Ascii.eqb b newline then Some ("", r')
          else '(x, y) ← cut_block r; Some (String a x, y)
      | EmptyString => None
      end
  end.

Definition carriage : ascii := Paths.char 13.

(** [replace(/\r\n/g, '\n')] *)
Fixpoint normalise (s : string) : string :=
  match s with
  | String a r =>
      if Ascii.eqb a carriage
      then match r with
           | String b r' => if Ascii.eqb b newline then String b (normalise r') else String a (normalise r)
           | EmptyString => String a ""
           end
      else String a (normalise r)
  | EmptyString => EmptyString
  end.

(** [line.indexOf(':')] and the two slices; one leading space is dropped. *)
Fixpoint cut_field (line : string) : string * string :=
  match line with
  | EmptyString => ("", "")
  | String a r =>
      if Ascii.eqb a ":" then ("", match r with String " " v => v | _ => r end)
      else let '(f, v) := cut_field r in (String a f, v)
  end.

Record Block := mkBlock { b_type : string; b_data : string; b_id : string }.

Definition read_line (b : Block) (line : string) : Block :=
  if String.eqb line "" || startsWith ":" line then b
  else
    let '(field, value) := cut_field line in
    if String.eqb field "event" then mkBlock value (b_data b) (b_id b)
    else if String.eqb field "data" then
      mkBlock (b_type b) (if String.eqb (b_data b) "" then value else b_data b +:+ nl +:+ value) (b_id b)
    else if String.eqb field "id" then mkBlock (b_type b) (b_data b) value
    else b.

Definition parse_block (block : string) : Block :=
  foldl read_line (mkBlock "message" "" "") (split_on newline block).

Definition eventTypes : list string :=
  ["agent_online"; "agent_offline"; "agent_activity"; "thread_opened"; "message_posted";
   "resolution_proposed"; "thread_resolved"; "thread_cancelled"; "file_edited"; "action_summary";
   "impact_scored"; "introspection_requested"; "introspection_completed"; "quota_update"].

(** [lastEventId], the ids shown, and the events added to the page, in order. *)
Record Page := mkPage { lastEventId : string; seenIds : list string; shown : list Block; buffer : string }.

Definition addEvent (b : Block) (p : Page) : Page :=
  if negb (String.eqb (b_id b) "") && bool_decide (b_id b ∈ seenIds p) then p
  else mkPage (lastEventId p) (if String.eqb (b_id b) "" then seenIds p else set_add (b_id b) (seenIds p))
         (shown p ++ [b]) (buffer p).

Definition dispatchSseBlock (block : string) (p : Page) : Page :=
  let b := parse_block block in
  let p := if String.eqb (b_id b) "" then p else mkPage (b_id b) (seenIds p) (shown p) (buffer p) in
  if bool_decide (b_type b ∈ eventTypes) then addEvent b p else p.

Definition with_buffer (s : string) (p : Page) : Page := mkPage (lastEventId p) (seenIds p) (shown p) s.

(** The inner loop; every turn shortens the buffer, so its length is fuel enough. *)
Fixpoint drain (fuel : nat) (p : Page) : Page :=
  match fuel with
  | O => p
  | S fuel =>
      match cut_block (buffer p) with
      | Some (block, rest) => drain fuel (with_buffer rest (dispatchSseBlock block p))
      | None => p
      end
  end.

Definition read_chunk (value : string) (p : Page) : Page :=
  let buf := normalise (buffer p +:+ value) in
  drain (String.length buf) (with_buffer buf p).

(** A connection: the buffer starts empty. *)
Definition read_stream (chunks : list string) (p : Page) : Page :=
  foldl (λ p v, read_chunk v p) (with_buffer "" p) chunks.

(** The header the next connection sends. *)
Definition resume_header (p : Page) : option string := truthy (Some (lastEventId p)).

End EventStream.
