(* ===== verification/Schemas.v ===== *)
(** * Request bodies ([src/http/rest-schemas.ts])

    JSON values as [JSON.parse] gives them and the zod object schemas of the
    REST endpoints: a schema reads the fields it names, ignores the others and
    fails when one is missing or has another type. *)

From S2P Require Import Prelude Database Consultation.
Local Open Scope Z_scope.

Module Schemas.

(** The only numeric field of a body, [since_minutes], belongs to an endpoint
    that is not modelled, so numbers carry no value. *)
Inductive json :=
  | VNull
  | VBool (b : bool)
  | VNum
  | VStr (s : string)
  | VArr (l : list json)
  | VObj (l : jsmap json).

(** [body.k]; what is not an object has none of the fields read. *)
Definition field (k : string) (v : json) : option json :=
  match v with VObj l => map_get k l | _ => None end.

(** A zod schema: [None] when [safeParse] fails. *)
Definition schema (A : Type) : Type := option json → option A.

Definition z_string : schema string := λ v,
  match v with Some (VStr s) => Some s | _ => None end.

Definition z_boolean : schema bool := λ v,
  match v with Some (VBool b) => Some b | _ => None end.

(** [z.string().min(1)]. *)
Definition z_nonempty : schema string := λ v,
  s ← z_string v; if String.eqb s "" then None else Some s.

Definition z_strings : schema (list string) := λ v,
  match v with Some (VArr l) => mapM (λ x, z_string (Some x)) l | _ => None end.

Definition optional {A} (s : schema A) : schema (option A) := λ v,
  match v with None => Some None | Some _ => Some <$> s v end.

(** [.nullable().optional()]: null and an absent field read the same here, since
    the handlers store both as NULL. *)
Definition nullable_optional {A} (s : schema A) : schema (option A) := λ v,
  match v with None | Some VNull => Some None | Some _ => Some <$> s v end.

(** [z.object(...)]: anything but an object is refused. *)
Definition z_object {A} (fields : json → option A) : json → option A := λ v,
  match v with VObj _ => fields v | _ => None end.

(** ** The bodies *)

Record RegisterBody := mkRegisterBody {
  rb_agent : string; rb_name : string; rb_modules : option (list string)
}.
Definition RegisterBodySchema : json → option RegisterBody := z_object (λ v,
  agent ← z_string (field "agent_id" v);
  name ← z_string (field "name" v);
  modules ← optional z_strings (field "modules" v);
  Some (mkRegisterBody agent name modules)).

Definition SessionStopBodySchema : json → option string := z_object (λ v,
  z_string (field "agent_id" v)).

(** The file and the agent. *)
Definition CheckConflictBodySchema : json → option (string * string) := z_object (λ v,
  file ← z_string (field "file" v);
  agent ← z_string (field "agent_id" v);
  Some (file, agent)).

Record LogFileBody := mkLogFileBody {
  lb_session : string; lb_agent : string; lb_name : option string; lb_tool : string;
  lb_file : string
}.
Definition LogFileBodySchema : json → option LogFileBody := z_object (λ v,
  session ← z_string (field "session_id" v);
  agent ← z_string (field "agent_id" v);
  name ← optional z_string (field "agent_name" v);
  tool ← z_string (field "tool_name" v);
  file ← z_string (field "file" v);
  Some (mkLogFileBody session agent name tool file)).

(** The parameters of [announceWork] and the target symbols. *)
Record AnnounceBody := mkAnnounceBody {
  ab_params : Consultation.AnnounceParams; ab_symbols : option (list string)
}.
Definition AnnounceBodySchema : json → option AnnounceBody := z_object (λ v,
  agent ← z_string (field "agent_id" v);
  subject ← z_string (field "subject" v);
  plan ← optional z_string (field "plan" v);
  modules ← z_strings (field "target_modules" v);
  files ← z_strings (field "target_files" v);
  depends ← optional z_strings (field "depends_on_files" v);
  exports ← optional z_strings (field "exports_affected" v);
  keep ← optional z_boolean (field "keep_open" v);
  assigned ← nullable_optional z_string (field "assigned_to" v);
  symbols ← optional z_strings (field "target_symbols" v);
  run ← nullable_optional z_string (field "run_id" v);
  Some (mkAnnounceBody (Consultation.mkAnnounce agent subject plan modules files depends exports
          (default false keep) assigned run) symbols)).

Definition ThreadsActiveBodySchema : json → option (option string) := z_object (λ v,
  optional z_string (field "run_id" v)).

Definition ThreadsSummaryBodySchema : json → option string := z_object (λ v,
  z_nonempty (field "run_id" v)).

Definition z_message_type : schema MessageType := λ v,
  s ← z_string v;
  if String.eqb s "context" then Some MContext
  else if String.eqb s "suggestion" then Some MSuggestion
  else if String.eqb s "warning" then Some MWarning
  else None.

Record PostToThreadBody := mkPostBody {
  pb_thread : string; pb_agent : string; pb_name : option string; pb_type : MessageType;
  pb_content : string
}.
Definition PostToThreadBodySchema : json → option PostToThreadBody := z_object (λ v,
  thread ← z_string (field "thread_id" v);
  agent ← z_string (field "agent_id" v);
  name ← optional z_string (field "agent_name" v);
  type ← z_message_type (field "type" v);
  content ← z_string (field "content" v);
  Some (mkPostBody thread agent name type content)).

(** Threads and agents. *)
Definition UnclaimTaskBodySchema : json → option (string * string) := z_object (λ v,
  thread ← z_nonempty (field "thread_id" v);
  agent ← z_nonempty (field "agent_id" v);
  Some (thread, agent)).

Definition ClaimTaskBodySchema : json → option (string * string) := z_object (λ v,
  thread ← z_nonempty (field "thread_id" v);
  agent ← z_nonempty (field "agent_id" v);
  Some (thread, agent)).

Definition ProposeResolutionBodySchema : json → option (string * string * string) := z_object (λ v,
  thread ← z_string (field "thread_id" v);
  agent ← z_string (field "agent_id" v);
  summary ← z_string (field "summary" v);
  Some (thread, agent, summary)).

Definition ApproveResolutionBodySchema : json → option (string * string) := z_object (λ v,
  thread ← z_string (field "thread_id" v);
  agent ← z_string (field "agent_id" v);
  Some (thread, agent)).

Definition CheckInterruptBodySchema : json → option string := z_object (λ v,
  z_string (field "agent_id" v)).

(** The request, whether the agent is concerned, and why. *)
Definition IntrospectionResponseBodySchema : json → option (string * bool * string) := z_object (λ v,
  id ← z_string (field "introspection_id" v);
  concerned ← z_boolean (field "concerned" v);
  reason ← z_string (field "reason" v);
  Some (id, concerned, reason)).

End Schemas.
