(* ===== verification/Handlers.v ===== *)
(** * The REST surface ([src/http/rest-handlers.ts], [src/http/handle-rest.ts],
    [src/reset-guard.ts])

    One definition per endpoint, composed from the components as the handlers
    compose them, and the router in front of them. Every handler acts for the
    organisation of the caller's claims. *)

From S2P Require Import Prelude Paths Database Registry Consultation Claims Invariant Isolation.
From S2P Require Import Protocol Sweeps FileTracking Activity ImpactScorer Announce EventStream Schemas.
Import Registry Consultation Claims Invariant Isolation Protocol Sweeps Schemas Announce.
Import FileTracker WorkingFiles Activity Introspections.
Local Open Scope Z_scope.

Module Handlers.

(** What a handler reads besides the database: the organisation of the caller's
    claims, the repository roots, the environment, the MQTT connection, and the
    two functions it calls on file contents (SHA-256 and the symbol
    extraction). *)
Record RestContext := mkContext {
  cx_org : string;
  cx_auth_enabled : bool;
  cx_roots : list string;
  cx_node_env : option string;
  cx_allow_reset : option string;
  cx_working_ttl : env_int;
  cx_mqtt : bool;
  cx_sha256 : string → string;
  cx_extract : string → string → option (list string)
}.

(** One thread of a check-interrupt answer. *)
Record Pending := mkPending {
  pd_thread : string; pd_subject : string; pd_initiator : string; pd_status : ThreadStatus;
  pd_files : list string
}.

Record OnlineAgent := mkOnline {
  on_agent : string; on_name : string; on_modules : list string; on_status : ActivityStatus;
  on_file : option string; on_thread : option string
}.

Record Counts := mkCounts {
  n_open : nat; n_resolving : nat; n_resolved : nat; n_cancelled : nat; n_poisoned : nat
}.

(** One layer of the statistics: the average is [ls_score] over [ls_count]. *)
Record LayerStats := mkStats {
  ls_layer : string; ls_count : nat; ls_score : Z;
  ls_auto_resolved : nat; ls_consensus : nat; ls_timeout : nat; ls_cancelled : nat
}.

Inductive Payload :=
  | POk
  | PAgent (a : option Agent)
  | PBriefing (briefing : string) (online open_threads hot_files : nat)
  | PConflict (conflict : bool) (warnings : list string)
  | PAnnounced (thread : string) (status : ThreadStatus) (impact : ImpactScorer.CategorizedImpact)
      (quality : PlanQualityResult) (downgrade : option string)
  | PMessage (m : ThreadMessage)
  | PUnclaim (u : UnclaimResponse)
  | PClaim (c : ClaimResponse)
  | PThread (t : option Thread)
  | PConsultation (status : ThreadStatus) (messages : list ThreadMessage)
      (summary : option string) (respondents : list string)
  | PThreads (l : list Thread)
  | PSummary (run_id : string) (total : nat) (counts : Counts)
  | PIntrospection (i : option Introspection)
  | PIntrospections (l : list Introspection)
  | PInterrupt (threads : list Pending)
  | PUnknownAgent
  | PAgentStatus (s : AgentConnectionStatus) (activity : ActivityStatus)
  | PAgents (last_event_id : Z) (agents : list OnlineAgent)
  | PStatus (online open_threads hot_files : nat) (mqtt : bool)
  | PHotFiles (l : list HotFile)
  | PScoring (since : string) (layers : list LayerStats).

(** [json(res, data, status)]; the text of an error is its reason. *)
Inductive Response :=
  | Reply (p : Payload)
  | Refuse (status : Z) (error : string).

Definition invalid : M Response := mret (Refuse 400 "INVALID_REQUEST").

(** The body of a handler behind its schema. *)
Definition parsed {A} (o : option A) (k : A → M Response) : M Response :=
  match o with
  | None => invalid
  | Some a => k a
  end.

(** [x?.name || agent_id]. *)
Definition name_or (agent : string) (a : option Agent) : string :=
  default agent (truthy (a_name <$> a)).

(** [l.join(", ") || "aucun"]. *)
Definition or_none (l : list string) : string :=
  default "aucun" (truthy (Some (join ", " l))).

Definition nl : string := String (Paths.char 10) "".

(** [{ status, run_id }] as a filter of [listThreads]. *)
Definition status_filter (s : ThreadStatus) (run : option string) : ThreadFilters :=
  mkFilters (Some s) None None None None run.

Definition handleRegister (cx : RestContext) (body : json) : M Response :=
  parsed (RegisterBodySchema body) (λ b,
    a ← runRegisterFlow (cx_org cx) (rb_agent b) (rb_name b) (default [] (rb_modules b));
    mret (Reply (PAgent a))).

Definition handleSessionStart (cx : RestContext) : M Response :=
  online ← listOnline (cx_org cx);
  openThreads ← listThreads (cx_org cx) (status_filter TOpen None);
  hotFiles ← getHotFiles (cx_org cx) 30;
  let briefing := join nl
    ["Agents en ligne: " +:+ or_none (a_name <$> online);
     "Consultations ouvertes: " +:+ pretty (length openThreads);
     "Hot files: " +:+ or_none (h_path <$> hotFiles)] in
  mret (Reply (PBriefing briefing (length online) (length openThreads) (length hotFiles))).

Definition handleSessionStop (cx : RestContext) (body : json) : M Response :=
  parsed (SessionStopBodySchema body) (λ agent,
    _ ← setOffline (cx_org cx) agent;
    _ ← reportOffline (cx_org cx) agent;
    _ ← handleAgentDeparture (cx_org cx) agent;
    _ ← sse_emit (cx_org cx) (EvAgentOffline agent);
    mret (Reply POk)).

Definition handleCheckConflict (cx : RestContext) (body : json) : M Response :=
  parsed (CheckConflictBodySchema body) (λ b,
    match Paths.normalizeDeclaredPaths (cx_roots cx) [b.1] with
    | inr [normFile] =>
        c ← checkFileConflict (cx_org cx) normFile b.2 30;
        mret (Reply (PConflict c.1
          (if (c.1 : bool) then ["File " +:+ normFile +:+ " recently edited by: " +:+ join ", " c.2]
           else [])))
    | _ => mret (Refuse 400 ("invalid file " +:+ b.1))
    end).

Definition handleLogFile (cx : RestContext) (body : json) : M Response :=
  parsed (LogFileBodySchema body) (λ b,
    match Paths.normalizePath (cx_roots cx) (lb_file b) with
    | None => mret (Refuse 400 "invalid file")
    | Some filePath =>
        _ ← FileTracker.log (cx_org cx) (lb_session b) (lb_agent b) (lb_name b) (lb_tool b) filePath
              None None;
        _ ← reportFileActivity (cx_org cx) (lb_agent b) filePath;
        _ ← sse_emit (cx_org cx) (EvFileEdited (lb_agent b)
              (default (lb_agent b) (truthy (lb_name b))) filePath (lb_tool b));
        mret (Reply POk)
    end).

Definition handleAnnounce (cx : RestContext) (body : json) : M Response :=
  parsed (AnnounceBodySchema body) (λ b,
    let org := cx_org cx in
    let p := ab_params b in
    let files := p_target_files p in
    let depends := default [] (p_depends_on p) in
    let exports := default [] (p_exports p) in
    match Paths.normalizeDeclaredPaths (cx_roots cx) (files ++ depends ++ exports) with
    | inl path => mret (Refuse 400 ("invalid path " +:+ path))
    | inr paths =>
        let nTargets := length files in
        let nDepends := length depends in
        let normFiles := take nTargets paths in
        let normDepends := (λ _, take nDepends (drop nTargets paths)) <$> p_depends_on p in
        let normExports := (λ _, drop (nTargets + nDepends) paths) <$> p_exports p in
        thread ← announceWork org
          (mkAnnounce (p_agent p) (p_subject p) (p_plan p) (p_target_modules p) normFiles
             normDepends normExports (p_keep_open p) (p_assigned_to p) (p_run_id p));
        info ← Registry.get org (p_agent p);
        match thread with
        | None => throw ETypeError
        | Some t =>
            r ← runCommonAnnounceFlow (t_id t)
                  (mkFlow org (p_agent p) (p_plan p) (p_target_modules p) normFiles normDepends
                     (p_keep_open p) (ab_symbols b));
            let u := fr_updated r in
            _ ← sse_emit org (EvThreadOpened (t_id t) (p_subject p) (p_agent p)
                  (name_or (p_agent p) info) (p_target_modules p) files (fr_respondents r)
                  (default [] (t_conflicts u)) (t_created_at u) (truthy (p_plan p))
                  (fr_quality r));
            mret (Reply (PAnnounced (t_id t) (t_status u) (fr_categorized r) (fr_quality r)
                           (fr_downgrade r)))
        end
    end).

Definition handlePostToThread (cx : RestContext) (body : json) : M Response :=
  parsed (PostToThreadBodySchema body) (λ b,
    let org := cx_org cx in
    target ← getThread org (pb_thread b);
    match target with
    | None => mret (Refuse 404 "thread_not_found")
    | Some t =>
        if decide (t_status t = TCancelled) then mret (Refuse 410 "thread_cancelled")
        else
          _ ← Registry.heartbeat org (pb_agent b);
          msg ← postToThread org (pb_thread b) (pb_agent b) (pb_name b) (pb_type b) (pb_content b)
                  None None;
          thread ← getThread org (pb_thread b);
          match msg with
          | None => throw ETypeError
          | Some m =>
              let round := default 0 (t_round <$> thread) in
              _ ← sse_emit org (EvMessagePosted (pb_thread b) (pb_agent b)
                    (default (pb_agent b) (truthy (pb_name b))) (pb_type b) (pb_content b)
                    (if decide (round = 0) then 1 else round) (m_tokens m));
              mret (Reply (PMessage m))
          end
    end).

Definition handleUnclaim (cx : RestContext) (body : json) : M Response :=
  parsed (UnclaimTaskBodySchema body) (λ b,
    u ← handleUnclaimTask (cx_org cx) b.1 b.2; mret (Reply (PUnclaim u))).

Definition handleClaim (cx : RestContext) (body : json) : M Response :=
  parsed (ClaimTaskBodySchema body) (λ b,
    c ← handleClaimTask (cx_org cx) b.1 b.2; mret (Reply (PClaim c))).

Definition handleProposeResolution (cx : RestContext) (body : json) : M Response :=
  parsed (ProposeResolutionBodySchema body) (λ b,
    let '(thread, agent, summary) := b in
    let org := cx_org cx in
    info ← Registry.get org agent;
    _ ← proposeResolution org thread agent summary;
    _ ← sse_emit org (EvResolutionProposed thread agent (name_or agent info) summary);
    t ← getThread org thread;
    _ ← bridge (BrTaskCompleted org thread agent summary);
    mret (Reply (PThread t))).

Definition handleApproveResolution (cx : RestContext) (body : json) : M Response :=
  parsed (ApproveResolutionBodySchema body) (λ b,
    info ← Registry.get (cx_org cx) b.2;
    _ ← approveResolution (cx_org cx) b.1 b.2 (a_name <$> info);
    t ← getThread (cx_org cx) b.1;
    mret (Reply (PThread t))).

(** [url.split("/")[3]]. *)
Definition url_segment3 (url : string) : option string := split_on "/" url !! 3%nat.

Definition handleConsultationStatus (cx : RestContext) (url : string) : M Response :=
  match url_segment3 url with
  | None => throw ETypeError
  | Some id =>
      r ← getThreadWithMessages (cx_org cx) id;
      mret match r with
           | None => Refuse 404 "not found"
           | Some (t, messages) =>
               Reply (PConsultation (t_status t) messages (t_summary t)
                        (safeJsonParse (t_expected t)))
           end
  end.

Definition handleThreadsActive (cx : RestContext) (body : json) : M Response :=
  parsed (ThreadsActiveBodySchema body) (λ run,
    open ← listThreads (cx_org cx) (status_filter TOpen run);
    resolving ← listThreads (cx_org cx) (status_filter TResolving run);
    mret (Reply (PThreads (open ++ resolving)))).

(** [SELECT status, COUNT( * ) ... GROUP BY status] and the loop over its rows. *)
Definition of_run (org run : string) (t : Thread) : Prop := t_org t = org ∧ t_run_id t = Some run.

#[global] Instance of_run_dec org run t : Decision (of_run org run t).
Proof. unfold of_run. apply _. Defined.

Definition status_rows (rows : list Thread) : list (ThreadStatus * nat) :=
  (λ s, (s, length (filter (λ t, t_status t = s) rows))) <$> dedup (t_status <$> rows).

Definition set_count (c : Counts) (r : ThreadStatus * nat) : Counts :=
  let '(s, n) := r in
  match s with
  | TOpen => mkCounts n (n_resolving c) (n_resolved c) (n_cancelled c) (n_poisoned c)
  | TResolving => mkCounts (n_open c) n (n_resolved c) (n_cancelled c) (n_poisoned c)
  | TResolved => mkCounts (n_open c) (n_resolving c) n (n_cancelled c) (n_poisoned c)
  | TCancelled => mkCounts (n_open c) (n_resolving c) (n_resolved c) n (n_poisoned c)
  | TPoisoned => mkCounts (n_open c) (n_resolving c) (n_resolved c) (n_cancelled c) n
  end.

Definition handleThreadsSummary (cx : RestContext) (body : json) : M Response :=
  parsed (ThreadsSummaryBodySchema body) (λ run,
    rows ← gets (λ w, status_rows (select (of_run (cx_org cx) run) (db_threads (w_db w))));
    let '(counts, total) := foldl (λ s r, (set_count s.1 r, s.2 + r.2)%nat)
                              (mkCounts 0 0 0 0 0, 0%nat) rows in
    mret (Reply (PSummary run total counts))).

(** A concerned agent joins the respondents of its thread while the thread is
    active, once. *)
Definition join_respondents (org : string) (i : Introspection) : M unit :=
  mt ← getThread org (i_thread i);
  match mt with
  | None => mret ()
  | Some t =>
      if decide (t_status t = TOpen ∨ t_status t = TResolving) then
        let respondents := safeJsonParse (t_expected t) in
        when (bool_decide (i_agent i ∉ respondents))
          (stmt (on_threads (update_where (is_thread org (t_id t))
                   (set_expected (JText (respondents ++ [i_agent i]))))))
      else mret ()
  end.

Definition handleIntrospectionResponse (cx : RestContext) (body : json) : M Response :=
  parsed (IntrospectionResponseBodySchema body) (λ b,
    let '(id, concerned, reason) := b in
    let org := cx_org cx in
    intro ← respond org id reason;
    _ ← match intro with
        | Some i => when concerned (join_respondents org i)
        | None => mret ()
        end;
    info ← Registry.get org (default "" (i_agent <$> intro));
    let name := match truthy (a_name <$> info) with
                | Some n => Some n
                | None => i_agent <$> intro
                end in
    _ ← sse_emit org (EvIntrospectionCompleted id (i_thread <$> intro) (i_agent <$> intro) name
          concerned reason);
    mret (Reply (PIntrospection intro))).

(** [agent] is the query parameter, or the empty text. *)
Definition handlePendingIntrospections (cx : RestContext) (agent : string) : M Response :=
  l ← getPending (cx_org cx) agent;
  mret (Reply (PIntrospections l)).

(** ** Reset *)

Definition canResetDb (node_env allow_reset : option string) (authEnabled : bool) : bool :=
  authEnabled || bool_decide (node_env = Some "test") || bool_decide (allow_reset = Some "true").

(** The deletions, in their order; AUTOINCREMENT counters keep counting. The
    table of revoked agents belongs to the authentication. *)
Definition reset_tables (d : Db) : Db :=
  on_agents (λ _, [])
    (on_deps (λ _, [])
      (on_activity (λ _, [])
        (mkDb (db_orgs d) (db_agents d) [] [] [] [] (db_event_seq d) (db_deps d)
           [] (db_file_seq d) [] (db_activity d) (db_working d) (db_cochange d)
           (db_firings d)))).

Definition handleReset (cx : RestContext) : M Response :=
  if canResetDb (cx_node_env cx) (cx_allow_reset cx) (cx_auth_enabled cx) then
    _ ← stmt reset_tables;
    mret (Reply POk)
  else mret (Refuse 403 "Forbidden").

(** ** Polling *)

Definition pending_of (t : Thread) : Pending :=
  mkPending (t_id t) (t_subject t) (t_initiator t) (t_status t) (safeJsonParse (t_target_files t)).

Definition handleCheckInterrupt (cx : RestContext) (body : json) : M Response :=
  parsed (CheckInterruptBodySchema body) (λ agent,
    open ← listThreads (cx_org cx) (status_filter TOpen None);
    resolving ← listThreads (cx_org cx) (status_filter TResolving None);
    let pendingThreads :=
      filter (λ t, agent ∈ safeJsonParse (t_expected t)) (open ++ resolving) in
    mret (Reply (PInterrupt (pending_of <$> pendingThreads)))).

Definition handleAgentStatus (cx : RestContext) (url : string) : M Response :=
  match url_segment3 url with
  | None => throw ETypeError
  | Some aid =>
      ma ← Registry.get (cx_org cx) aid;
      match ma with
      | None => mret (Reply PUnknownAgent)
      | Some agent =>
          activity ← getActivity (cx_org cx) aid (Some 5);
          mret (Reply (PAgentStatus (a_status agent) (aa_status activity)))
      end
  end.

(** [SELECT MAX(id)], 0 when the organisation has no event. *)
Definition last_event (org : string) (w : World) : Z :=
  match select (λ e, e_org e = org) (db_events (w_db w)) with
  | [] => 0
  | e :: l => foldl (λ m e, Z.max m (e_id e)) (e_id e) l
  end.

Definition online_entry (org : string) (a : Agent) : M OnlineAgent :=
  activity ← getActivity org (a_id a) (Some 5);
  mret (mkOnline (a_id a) (a_name a) (safeJsonParse (a_modules a)) (aa_status activity)
          (aa_file activity) (aa_thread activity)).

Definition handleAgentsOnline (cx : RestContext) : M Response :=
  latest ← gets (last_event (cx_org cx));
  online ← listOnline (cx_org cx);
  agents ← map_m (online_entry (cx_org cx)) online;
  mret (Reply (PAgents latest agents)).

Definition handleStatus (cx : RestContext) : M Response :=
  online ← listOnline (cx_org cx);
  openThreads ← listThreads (cx_org cx) (status_filter TOpen None);
  hotFiles ← getHotFiles (cx_org cx) 30;
  mret (Reply (PStatus (length online) (length openThreads) (length hotFiles) (cx_mqtt cx))).

(** [since_minutes || 30]; [since] is the number, where the body has one. *)
Definition handleHotFiles (cx : RestContext) (body : json) (since : Z) : M Response :=
  match field "since_minutes" body with
  | Some VNum | None =>
      let minutes := match field "since_minutes" body with
                     | Some _ => if decide (since = 0) then 30 else since
                     | None => 30
                     end in
      hotFiles ← getHotFiles (cx_org cx) minutes;
      mret (Reply (PHotFiles hotFiles))
  | Some _ => invalid
  end.

(** ** Statistics *)

(** The parameter as minutes: [None] is NaN. *)
Definition sinceMin (sinceParam : string) : option Z :=
  if endsWith "h" sinceParam then (λ n, n * 60) <$> EventStream.parseInt sinceParam
  else if endsWith "d" sinceParam then (λ n, n * 60 * 24) <$> EventStream.parseInt sinceParam
  else Some (60 * 24).

(** [fired_at > datetime('now', '-' || ? || ' minutes')]: NULL, and the modifier
    of a negative number, which is none, let nothing through. *)
Definition fired_since (now : Z) (minutes : option Z) (f : LayerFiring) : Prop :=
  match minutes with Some m => 0 ≤ m ∧ now - 60 * m < lf_fired_at f | None => False end.

#[export] Instance fired_since_dec now m f : Decision (fired_since now m f).
Proof. unfold fired_since. destruct m; apply _. Defined.

(** The resolutions of a thread, in the organisation of the firing. *)
Definition resolutions (f : LayerFiring) (l : list EventRow) : list ResolutionType :=
  omap (λ e, match e_event e with
             | EvThreadResolved thread type _ _ _ _ _ _ =>
                 if decide (e_org e = lf_org f ∧ thread = lf_thread f) then Some type else None
             | _ => None
             end) l.

(** [LEFT JOIN events]: a firing once for each resolution, or once without. *)
Definition joined (l : list EventRow) (f : LayerFiring) : list (LayerFiring * option ResolutionType) :=
  match resolutions f l with [] => [(f, None)] | ts => (λ t, (f, Some t)) <$> ts end.

Definition count_type (ts : list ResolutionType) (rows : list (LayerFiring * option ResolutionType)) : nat :=
  length (filter (λ r, r.2 ∈ Some <$> ts) rows).

Definition layer_stats (rows : list (LayerFiring * option ResolutionType)) (layer : string) : LayerStats :=
  let rows := filter (λ r, lf_layer r.1 = layer) rows in
  mkStats layer (length rows) (foldr Z.add 0 ((λ r, lf_score r.1) <$> rows))
    (count_type [RAutoResolved] rows) (count_type [RConsensus] rows) (count_type [RTimeout] rows)
    (count_type [RAgentDeparture; RClosed] rows).

Definition more_fired (a b : LayerStats) : Prop := (ls_count b ≤ ls_count a)%nat.

#[export] Instance more_fired_dec a b : Decision (more_fired a b).
Proof. unfold more_fired. apply _. Defined.

(** [since] is the parameter of the query, or the empty text. *)
Definition handleScoringStats (cx : RestContext) (since : string) : M Response :=
  let sinceParam := if String.eqb since "" then "24h" else since in
  layers ← gets (λ w,
    let rows := filter (λ f, lf_org f = cx_org cx ∧ fired_since (now_sec w) (sinceMin sinceParam) f) (db_firings (w_db w))
                  ≫= joined (db_events (w_db w)) in
    merge_sort more_fired (layer_stats rows <$> dedup ((λ r, lf_layer r.1) <$> rows)));
  mret (Reply (PScoring sinceParam layers)).

(** ** Hooks *)

Definition MAX_CONTENT : Z := 262144.

Definition handleFileActivity (cx : RestContext) (body : json) : M Response :=
  match z_string (field "session_id" body), z_string (field "agent_id" body),
        z_string (field "tool_name" body), z_string (field "file_path" body) with
  | Some session, Some agent, Some tool, Some file =>
      match optional z_string (field "agent_name" body) with
      | None => mret (Refuse 400 "agent_name must be string when present")
      | Some name =>
          match Paths.normalizePath (cx_roots cx) file with
          | None => mret (Refuse 400 "invalid file_path")
          | Some filePath =>
              let content := z_string (field "content" body) in
              if decide (MAX_CONTENT < Z.of_nat (default 0%nat (utf16_length <$> content)))
              then mret (Refuse 400 "content exceeds 256 KB")
              else
                _ ← FileTracker.log (cx_org cx) session agent name tool filePath
                      (cx_sha256 cx <$> content) (content ≫= cx_extract cx filePath);
                mret (Reply POk)
          end
      end
  | _, _, _, _ => mret (Refuse 400 "missing required fields")
  end.

(** [parseInt(COORDINATOR_WORKING_FILES_TTL_MIN || "30")]: NaN binds as NULL and
    the claim's expiry is NOT NULL. *)
Definition handleWorkingFilesStart (cx : RestContext) (body : json) : M Response :=
  match z_string (field "agent_id" body), z_string (field "file_path" body) with
  | Some agent, Some file =>
      match Paths.normalizePath (cx_roots cx) file with
      | None => mret (Refuse 400 "invalid file_path")
      | Some filePath =>
          _ ← match cx_working_ttl cx with
              | EnvUnset => WorkingFiles.start (cx_org cx) agent filePath 30
              | EnvInt n => WorkingFiles.start (cx_org cx) agent filePath n
              | EnvNaN => throw (ESqlite SqlNotNull)
              end;
          mret (Reply POk)
      end
  | _, _ => mret (Refuse 400 "agent_id and file_path required")
  end.

Definition handleWorkingFilesStop (cx : RestContext) (body : json) : M Response :=
  match z_string (field "agent_id" body), z_string (field "file_path" body) with
  | Some agent, Some file =>
      match Paths.normalizePath (cx_roots cx) file with
      | None => mret (Refuse 400 "invalid file_path")
      | Some filePath =>
          _ ← WorkingFiles.stop (cx_org cx) agent filePath;
          mret (Reply POk)
      end
  | _, _ => mret (Refuse 400 "agent_id and file_path required")
  end.

(** ** Routing *)

Inductive Endpoint :=
  | EpRegister | EpSessionStart | EpSessionStop | EpCheckConflict | EpLogFile | EpAnnounce
  | EpPostToThread | EpUnclaimTask | EpClaimTask | EpProposeResolution | EpApproveResolution
  | EpThreadsActive | EpThreadsSummary | EpHotFiles | EpQuota | EpQuotaRefresh
  | EpIntrospectionResponse | EpReset | EpCheckInterrupt | EpStatus | EpAgentsOnline
  | EpFileActivity | EpWorkingFilesStart | EpWorkingFilesStop
  | EpConsultationStatus | EpPendingIntrospections | EpAgentStatus | EpScoringStats.

Definition ROUTES : jsmap Endpoint :=
  [("/api/register", EpRegister); ("/api/session-start", EpSessionStart);
   ("/api/session-stop", EpSessionStop); ("/api/check-conflict", EpCheckConflict);
   ("/api/log-file", EpLogFile); ("/api/announce", EpAnnounce);
   ("/api/post-to-thread", EpPostToThread); ("/api/unclaim-task", EpUnclaimTask);
   ("/api/claim-task", EpClaimTask); ("/api/propose-resolution", EpProposeResolution);
   ("/api/approve-resolution", EpApproveResolution); ("/api/threads-active", EpThreadsActive);
   ("/api/threads-summary", EpThreadsSummary); ("/api/hot-files", EpHotFiles);
   ("/api/quota", EpQuota); ("/api/quota/refresh", EpQuotaRefresh);
   ("/api/introspection-response", EpIntrospectionResponse); ("/api/reset", EpReset);
   ("/api/check-interrupt", EpCheckInterrupt); ("/api/status", EpStatus);
   ("/api/agents-online", EpAgentsOnline)].

Definition MUTATING_ROUTES : list string :=
  ["/api/register"; "/api/session-stop"; "/api/log-file"; "/api/announce";
   "/api/post-to-thread"; "/api/unclaim-task"; "/api/claim-task"; "/api/propose-resolution";
   "/api/approve-resolution"; "/api/quota/refresh"; "/api/introspection-response"; "/api/reset"].

Definition METHOD_ROUTES : jsmap Endpoint :=
  [("POST /api/file-activity", EpFileActivity);
   ("POST /api/working-files/start", EpWorkingFilesStart);
   ("POST /api/working-files/stop", EpWorkingFilesStop)].

(** The first prefix that fits. *)
Definition prefix_route (method url : string) : option Endpoint :=
  if startsWith "/api/consultation/" url && endsWith "/status" url then Some EpConsultationStatus
  else if startsWith "/api/pending-introspections" url then Some EpPendingIntrospections
  else if startsWith "/api/agent-status/" url then Some EpAgentStatus
  else if startsWith "/api/scoring-stats" url && String.eqb method "GET" then Some EpScoringStats
  else None.

(** A request: its body is what [parseBody] gives, or the status it fails with;
    [rq_agent] and [rq_since] are the query parameters [agent_id] and [since], or
    the empty text, and [rq_minutes] the number [since_minutes] of the body. *)
Record Request := mkRequest {
  rq_method : string;
  rq_url : string;
  rq_body : Z + json;
  rq_agent : string;
  rq_since : string;
  rq_minutes : Z
}.

(** [inl]: refused with that status. *)
Definition route (method url : string) : Z + Endpoint :=
  match map_get url ROUTES with
  | Some e =>
      if bool_decide (url ∈ MUTATING_ROUTES) && negb (String.eqb method "POST") then inl 405
      else inr e
  | None =>
      match map_get (method +:+ " " +:+ url) METHOD_ROUTES with
      | Some e => inr e
      | None =>
          match prefix_route method url with
          | Some e => inr e
          | None => inl 404
          end
      end
  end.

(** [None]: the endpoint is that of the quota. *)
Definition serve (cx : RestContext) (rq : Request) (body : json) (e : Endpoint)
    : option (M Response) :=
  match e with
  | EpRegister => Some (handleRegister cx body)
  | EpSessionStart => Some (handleSessionStart cx)
  | EpSessionStop => Some (handleSessionStop cx body)
  | EpCheckConflict => Some (handleCheckConflict cx body)
  | EpLogFile => Some (handleLogFile cx body)
  | EpAnnounce => Some (handleAnnounce cx body)
  | EpPostToThread => Some (handlePostToThread cx body)
  | EpUnclaimTask => Some (handleUnclaim cx body)
  | EpClaimTask => Some (handleClaim cx body)
  | EpProposeResolution => Some (handleProposeResolution cx body)
  | EpApproveResolution => Some (handleApproveResolution cx body)
  | EpThreadsActive => Some (handleThreadsActive cx body)
  | EpThreadsSummary => Some (handleThreadsSummary cx body)
  | EpIntrospectionResponse => Some (handleIntrospectionResponse cx body)
  | EpReset => Some (handleReset cx)
  | EpCheckInterrupt => Some (handleCheckInterrupt cx body)
  | EpStatus => Some (handleStatus cx)
  | EpAgentsOnline => Some (handleAgentsOnline cx)
  | EpFileActivity => Some (handleFileActivity cx body)
  | EpWorkingFilesStart => Some (handleWorkingFilesStart cx body)
  | EpWorkingFilesStop => Some (handleWorkingFilesStop cx body)
  | EpConsultationStatus => Some (handleConsultationStatus cx (rq_url rq))
  | EpPendingIntrospections => Some (handlePendingIntrospections cx (rq_agent rq))
  | EpAgentStatus => Some (handleAgentStatus cx (rq_url rq))
  | EpHotFiles => Some (handleHotFiles cx body (rq_minutes rq))
  | EpScoringStats => Some (handleScoringStats cx (rq_since rq))
  | EpQuota | EpQuotaRefresh => None
  end.

(** A body that is null has no [agent_id] to log. *)
Definition handleRest (cx : RestContext) (rq : Request) : option (M Response) :=
  match rq_body rq with
  | inl status => Some (mret (Refuse status "Invalid request"))
  | inr VNull => Some (throw ETypeError)
  | inr body =>
      match route (rq_method rq) (rq_url rq) with
      | inl status =>
          Some (mret (Refuse status (if decide (status = 405) then "method not allowed"
                                     else "not found")))
      | inr e => serve cx rq body e
      end
  end.

End Handlers.
