(* ===== verification/RestSafety.v ===== *)
(** * Safety of the REST surface

    A request that is not a POST changes nothing; every request but the reset
    keeps the tables well formed and stays inside its organisation; and what an
    agent answers to an introspection request is what it is interrupted for. *)

From S2P Require Import Prelude Paths Database Registry Consultation Claims Invariant Isolation.
From S2P Require Import Protocol Sweeps FileTracking Activity ImpactScorer Announce Schemas Handlers.
Import Registry Consultation Claims Invariant Isolation Protocol Sweeps Schemas Announce.
Import FileTracker WorkingFiles Activity Introspections ImpactScorer Handlers.
Local Open Scope Z_scope.

Module RestSafety.

(** ** Reads *)

Definition read_only {A} (m : M A) : Prop := ∀ w, run m w = w.

Create HintDb reads.

Lemma read_ret {A} (a : A) : read_only (mret a).
Proof. done. Qed.

Lemma read_throw {A} e : read_only (throw (A := A) e).
Proof. done. Qed.

Lemma read_gets {A} (f : World → A) : read_only (gets f).
Proof. done. Qed.

Lemma read_bind {A B} (m : M A) (k : A → M B) :
  read_only m → (∀ a, read_only (k a)) → read_only (m ≫= k).
Proof.
  intros Hm Hk w. specialize (Hm w). unfold run, mbind, M_bind in *.
  destruct (m w) as [w' [a|e]]; simpl in *; subst; [apply Hk|done].
Qed.

Lemma read_map_m {A B} (f : A → M B) l : (∀ x, read_only (f x)) → read_only (map_m f l).
Proof.
  intros Hf. induction l as [|x l IH]; simpl; [apply read_ret|].
  apply read_bind; [apply Hf|]. intros y. apply read_bind; [apply IH|]. intros ys. apply read_ret.
Qed.

#[export] Hint Resolve read_ret read_throw read_gets read_map_m : reads.

Ltac reads :=
  repeat match goal with
    | |- read_only (_ ≫= _) => apply read_bind; [|intros ?]
    | |- read_only (match ?x with _ => _ end) => destruct x
    | |- read_only (let '_ := ?x in _) => destruct x
    | |- read_only _ => solve [eauto with reads]
    end.

Lemma read_parsed {A} (o : option A) k : (∀ a, read_only (k a)) → read_only (parsed o k).
Proof. destruct o; [by intros Hk; apply Hk|intros; apply read_ret]. Qed.

Lemma read_listThreads org f : read_only (listThreads org f).
Proof. unfold listThreads. reads. Qed.

Lemma read_getActivity org agent idle : read_only (getActivity org agent idle).
Proof. unfold getActivity, Registry.get, getStatus. reads. Qed.

Lemma read_thread_with_messages org id : read_only (getThreadWithMessages org id).
Proof. unfold getThreadWithMessages, getThread. reads. Qed.

#[export] Hint Resolve read_parsed read_listThreads read_getActivity read_thread_with_messages : reads.

(** The endpoints a request that is not a POST can reach. *)
Definition read_endpoint (e : Endpoint) : bool :=
  match e with
  | EpSessionStart | EpCheckConflict | EpThreadsActive | EpThreadsSummary | EpHotFiles | EpQuota
  | EpCheckInterrupt | EpStatus | EpAgentsOnline | EpConsultationStatus
  | EpPendingIntrospections | EpAgentStatus | EpScoringStats => true
  | _ => false
  end.

Lemma serve_read cx rq body e m :
  read_endpoint e = true → serve cx rq body e = Some m → read_only m.
Proof.
  destruct e; simpl; intros Hr [= <-]; try discriminate;
    unfold handleSessionStart, handleCheckConflict, handleThreadsActive, handleThreadsSummary,
      handleCheckInterrupt, handleStatus, handleAgentsOnline, handleConsultationStatus,
      handlePendingIntrospections, handleAgentStatus, handleHotFiles, handleScoringStats, invalid, listOnline, getHotFiles, checkFileConflict,
      getPending, Registry.get; reads;
    try (apply read_parsed; intros ?; reads).
  apply read_map_m. intros ag. unfold online_entry. reads.
Qed.

(** The keys of the table have one space, after the method. *)
Lemma method_route_post method url e :
  map_get (method +:+ " " +:+ url) METHOD_ROUTES = Some e → method = "POST".
Proof.
  unfold map_get. intros (p & Hp & _)%fmap_Some. apply select_one_Some in Hp as [Hk Hp].
  assert (∃ u, split_on " " p.1 = ["POST"; u]) as (u & Hu).
  { unfold METHOD_ROUTES in Hp. rewrite !elem_of_cons in Hp.
    destruct Hp as [-> | [-> | [-> | []%not_elem_of_nil]]]; by eexists. }
  rewrite Hk in Hu. change (" " +:+ url) with (String " " url) in Hu. rewrite split_on_sep in Hu.
  destruct (split_on_cons " " method) as (a & l & Em), (split_on_cons " " url) as (b & l' & Eu).
  rewrite <- (join_split " " method). rewrite Em, Eu in *.
  injection Hu as -> Hl. destruct l as [|c l]; [done|]. injection Hl as _ Hl. by destruct l.
Qed.

Lemma route_read method url e :
  method ≠ "POST" → route method url = inr e → read_endpoint e = true.
Proof.
  intros Hm. unfold route. destruct (map_get url ROUTES) as [e'|] eqn:Er.
  - apply String.eqb_neq in Hm. rewrite Hm, andb_true_r. case_bool_decide as Hu; [done|].
    intros [= <-]. apply fmap_Some in Er as (p & Hp & ->). apply select_one_Some in Hp as [<- Hp].
    unfold ROUTES in Hp. unfold MUTATING_ROUTES in Hu. rewrite !elem_of_cons in Hp.
    repeat destruct Hp as [-> | Hp]; try done;
      try (exfalso; apply Hu, (bool_decide_unpack _); vm_compute; reflexivity).
    by apply not_elem_of_nil in Hp.
  - destruct (map_get _ METHOD_ROUTES) as [e'|] eqn:Ep; [by apply method_route_post in Ep|].
    unfold prefix_route. repeat case_match; naive_solver.
Qed.

(** A request that is not a POST changes nothing: whatever its URL, method
    and body, once it is handed to a modelled endpoint (or refused), the
    database, the events, the calls to the bridge and the identifiers drawn are
    as they were. *)
Theorem non_post_is_read_only cx rq m w :
  rq_method rq ≠ "POST" → handleRest cx rq = Some m → run m w = w.
Proof.
  intros Hm. unfold handleRest. destruct (rq_body rq) as [status|body]; [by intros [= <-]|].
  destruct (route (rq_method rq) (rq_url rq)) as [status|e] eqn:Er.
  { by destruct body; intros [= <-]. }
  apply route_read in Er; [|done].
  destruct body; try (intros Hs; by apply (serve_read _ _ _ _ _ Er Hs)). by intros [= <-].
Qed.

(** ** Tenants *)

(** A statement on a table that the invariant does not read, on rows of this
    organisation. *)
Lemma isolates_elsewhere other d d' :
  db_orgs d' = db_orgs d → db_agents d' = db_agents d → db_threads d' = db_threads d →
  db_messages d' = db_messages d → tenant other d' = tenant other d → isolates other d d'.
Proof.
  intros E1 E2 E3 E4 E5 Hwf. split.
  - destruct d, d'. simpl in *. subst. destruct Hwf. by constructor.
  - split; [done|]. unfold thread_keys. by rewrite E3.
Qed.

(** The rows of another organisation after a statement on the rows of this one. *)
Ltac other_rows := intros; unfold tenant; cbn; f_equal;
  first [ done
        | apply filter_update_where; intros ? Hrow; hnf in Hrow; simpl; naive_solver congruence
        | apply filter_delete_where; intros ? Hrow; hnf in Hrow; simpl; naive_solver congruence
        | apply filter_app_skip; simpl; congruence
        | case_decide; [done|]; apply filter_app_skip; simpl; congruence ].

Section requests.
Context (cx : RestContext) (other : string) (Hne : cx_org cx ≠ other).

Notation safe' := (safe (cx_org cx) other).
Notation isolated m := (∀ w, respects (isolates other) m w).

Lemma isolated_read {A} (m : M A) w : read_only m → respects (isolates other) m w.
Proof. unfold respects. intros ->. reflexivity. Qed.

Lemma isolated_stmt f :
  (∀ d, db_orgs (f d) = db_orgs d ∧ db_agents (f d) = db_agents d ∧
     db_threads (f d) = db_threads d ∧ db_messages (f d) = db_messages d) →
  (∀ d, tenant other (f d) = tenant other d) → isolated (stmt f).
Proof.
  intros Hf Ht w. apply respects_stmt. destruct (Hf (w_db w)) as (?&?&?&?).
  by apply isolates_elsewhere.
Qed.

Lemma isolated_insert P Q `{!∀ d, Decision (P d), !∀ d, Decision (Q d)} f :
  (∀ d, db_orgs (f d) = db_orgs d ∧ db_agents (f d) = db_agents d ∧
     db_threads (f d) = db_threads d ∧ db_messages (f d) = db_messages d) →
  (∀ d, tenant other (f d) = tenant other d) → isolated (checked_insert P Q f).
Proof.
  intros Hf Ht w. apply respects_checked_insert; [apply _|]. intros _ _. by apply isolated_stmt.
Qed.

Lemma safe_for_each id {A} (l : list A) f : (∀ x, safe' id (f x)) → safe' id (for_each l f).
Proof.
  intros Hf. induction l as [|x l IH]; simpl.
  - apply safe_always. intros w. apply respects_ret, _.
  - by apply safe_bind.
Qed.

Lemma safe_read id {A} (m : M A) : read_only m → safe' id m.
Proof. intros Hm. apply safe_always. intros w. by apply isolated_read. Qed.

Lemma isolated_ask id s : isolated (ask (cx_org cx) id s).
Proof.
  intros w. unfold ask, create. effects; [apply isolated_insert; [done|other_rows]|by apply isolates_sse].
Qed.

Lemma read_categorize p : read_only (categorize p).
Proof.
  intros w. destruct (categorize_eval p w) as (cat & E). unfold run. by rewrite E.
Qed.

Lemma safe_flow id p : fw_org p = cx_org cx → safe' id (runCommonAnnounceFlow id p).
Proof.
  intros Ho. unfold runCommonAnnounceFlow, Registry.heartbeat, getThread, listOnline, Registry.get,
    emit_scored, insert_firing. rewrite Ho.
  repeat match goal with
    | |- safe _ _ _ (_ ≫= _) => apply safe_bind; [|intros ?]
    | |- safe _ _ _ (when _ _) => apply safe_when
    | |- safe _ _ _ (for_each _ _) => apply safe_for_each; intros ?
    | |- safe _ _ _ (match ?x with _ => _ end) => destruct x
    | |- safe _ _ _ (emitResolution _ _ _ _) => by apply safe_emitResolution
    | |- safe _ _ _ (categorize _) => apply safe_read, read_categorize
    | |- safe _ _ _ (ask _ _ _) => apply safe_always, isolated_ask
    | |- safe _ _ _ (sse_emit _ _) => apply safe_always; intros ?; by apply isolates_sse
    | |- safe _ _ _ (checked_insert _ _ _) => apply safe_always; apply isolated_insert; [done|other_rows]
    | |- safe _ _ _ (stmt (on_agents _)) => apply safe_always; intros ?; by apply isolates_touch
    | |- safe _ _ _ (stmt (on_threads _)) =>
        apply (safe_update _ _ Hne); [by intros ? [??]|intros; solve [auto with wf]]
    | |- safe _ _ _ _ => apply safe_read; solve [auto with reads]
    end.
Qed.

Lemma isolated_upsert agent st file thread : isolated (upsert (cx_org cx) agent st file thread).
Proof.
  intros w. unfold upsert. effects; [apply isolated_stmt|apply isolated_insert]; solve [done|other_rows].
Qed.

Lemma isolated_join i : isolated (join_respondents (cx_org cx) i).
Proof.
  intros w. unfold join_respondents, getThread. effects.
  apply (isolates_threads (cx_org cx)); [done|by intros ? [??]|intros; auto with wf].
Qed.

(** The thread [announceWork] returns is a thread of the organisation. *)
Lemma announce_thread p w w' t :
  announceWork (cx_org cx) p w = (w', Ok (Some t)) → (t_id t, cx_org cx) ∈ thread_keys (w_db w').
Proof.
  unfold announceWork. rewrite (bind_Ok randomUUID _ w _ _ eq_refl).
  set (u := mkWorld _ _ _ _ _ _ _). set (m := transaction _).
  unfold mbind at 1, M_bind at 1. destruct (m u) as [w1 [[]|e]]; [|done].
  intros (-> & _ & Ho & Ht)%getThread_Some. apply list_elem_of_fmap. exists t. by rewrite Ho.
Qed.

Lemma isolated_announce body : isolated (handleAnnounce cx body).
Proof.
  intros w. unfold handleAnnounce, parsed, invalid. destruct (AnnounceBodySchema body) as [b|];
    [|apply respects_ret, _]. cbv zeta. destruct (Paths.normalizeDeclaredPaths _ _) as [|paths];
    [apply respects_ret, _|].
  apply respects_bind; [apply _|by apply isolates_announce|]. intros [t|] w1 E1.
  - apply announce_thread in E1.
    enough (∀ k : M Response, safe' (t_id t) k → respects (isolates other) k w1) as Hk.
    { apply Hk. apply safe_bind; [by apply safe_read, read_gets|]. intros info.
      apply safe_bind; [by apply safe_flow|]. intros r. apply safe_bind; [|intros []].
      - apply safe_always. intros ?. by apply isolates_sse.
      - by apply safe_read, read_ret. }
    intros k Hk Hwf. by apply Hk.
  - unfold Registry.get. effects.
Qed.

(** The handlers that write. *)
Lemma isolated_writes rq body e m :
  e ≠ EpReset → serve cx rq body e = Some m → isolated m.
Proof.
  intros Her Hs w. destruct (read_endpoint e) eqn:Hr.
  { by apply isolated_read, (serve_read _ _ _ _ _ Hr Hs). }
  destruct e; simpl in Hs, Hr; try discriminate; injection Hs as <-; try done;
    unfold handleRegister, handleSessionStop, handleLogFile, handlePostToThread, handleUnclaim,
      handleClaim, handleProposeResolution, handleApproveResolution, handleIntrospectionResponse,
      handleFileActivity, handleWorkingFilesStart, handleWorkingFilesStop, parsed, invalid,
      runRegisterFlow, setOffline, reportOffline, Registry.heartbeat, FileTracker.log,
      reportFileActivity, Registry.get, getThread, respond, WorkingFiles.start, WorkingFiles.stop;
    try (effects;
      first [ by apply isolates_sse | by apply isolates_register | by apply isolates_touch
            | by apply isolates_departure | by apply isolates_post | by apply isolates_claim
            | by apply isolates_unclaim | by apply isolates_propose | by apply isolates_approve
            | by apply isolated_upsert | by apply isolated_join
            | apply isolated_insert; solve [done|other_rows] | apply isolated_stmt; solve [done|other_rows] ]).
  by apply isolated_announce.
Qed.
End requests.

Lemma rest_isolates cx rq m w other :
  cx_org cx ≠ other → route (rq_method rq) (rq_url rq) ≠ inr EpReset →
  handleRest cx rq = Some m → respects (isolates other) m w.
Proof.
  intros Hne Hr Hm. unfold handleRest in Hm. destruct (rq_body rq) as [status|body].
  { injection Hm as <-. apply respects_ret, _. }
  destruct (route _ _) as [status|e].
  { destruct body; injection Hm as <-; (apply respects_ret, _ || apply respects_throw, _). }
  assert (e ≠ EpReset) as He by congruence.
  destruct body; try (by apply (isolated_writes cx other Hne _ _ _ _ He Hm)).
  injection Hm as <-. apply respects_throw, _.
Qed.

(** Tenant isolation of the REST surface: a request of one organisation,
    to any modelled endpoint but the reset, keeps the tables well formed and
    leaves the rows of every other organisation, in every table, as they were,
    whatever its body says and whether it succeeds, is refused or
    throws. *)
Theorem rest_tenant_isolation cx rq m w other :
  wf (w_db w) → cx_org cx ≠ other → route (rq_method rq) (rq_url rq) ≠ inr EpReset →
  handleRest cx rq = Some m →
  wf (w_db (run m w)) ∧ tenant other (w_db (run m w)) = tenant other (w_db w).
Proof.
  intros Hwf Hne Hr Hm. destruct (rest_isolates cx rq m w other Hne Hr Hm Hwf) as (? & ? & _). done.
Qed.

(** ** Interruptions *)

(** The threads an agent is told to stop for. *)
Definition interrupts (cx : RestContext) (agent : string) (w : World) : list string :=
  match result (handleCheckInterrupt cx (VObj [("agent_id", VStr agent)])) w with
  | Ok (Reply (PInterrupt l)) => pd_thread <$> l
  | _ => []
  end.

Lemma matches_status org s now t : matches org (status_filter s None) now t ↔ t_org t = org ∧ t_status t = s.
Proof. unfold matches, matches_before_module, status_filter. simpl. tauto. Qed.

Lemma listThreads_status org s w :
  listThreads org (status_filter s None) w =
    (w, Ok (merge_sort newest_first
              (select (matches org (status_filter s None) (now_sec w)) (db_threads (w_db w))))).
Proof.
  unfold listThreads. rewrite bind_gets, bool_decide_eq_false_2; [done|]. intros [Hm _]. by apply Hm.
Qed.

Lemma elem_of_interrupts cx agent w id :
  id ∈ interrupts cx agent w ↔
  ∃ t, t ∈ db_threads (w_db w) ∧ t_id t = id ∧ t_org t = cx_org cx ∧ is_active t ∧
       agent ∈ safeJsonParse (t_expected t).
Proof.
  unfold interrupts, handleCheckInterrupt, result.
  change (CheckInterruptBodySchema _) with (Some agent). cbn [parsed].
  rewrite (bind_Ok _ _ _ _ _ (listThreads_status _ _ w)).
  rewrite (bind_Ok _ _ _ _ _ (listThreads_status _ _ w)). cbn [snd mret M_ret].
  rewrite <- list_fmap_compose, list_elem_of_fmap.
  setoid_rewrite list_elem_of_filter. setoid_rewrite elem_of_app.
  setoid_rewrite merge_sort_Permutation. setoid_rewrite elem_of_select.
  setoid_rewrite matches_status. unfold is_active. naive_solver.
Qed.

(** The row of the thread after the answer. *)
Definition answered_row (concerned : bool) (agent : string) (t : Thread) : Thread :=
  let respondents := safeJsonParse (t_expected t) in
  if decide (concerned = true ∧ is_active t ∧ agent ∉ respondents)
  then set_expected (JText (respondents ++ [agent])) t else t.

Lemma join_eval org i w t :
  wf (w_db w) → thread_of org (i_thread i) w = Some t →
  ∃ w', join_respondents org i w = (w', Ok ()) ∧ db_orgs (w_db w') = db_orgs (w_db w) ∧
    db_threads (w_db w') =
      update_where (λ x, t_id x = t_id t) (answered_row true (i_agent i)) (db_threads (w_db w)).
Proof.
  intros Hwf Hr. destruct (thread_of_Some _ _ _ _ Hr) as (Hid & Ho & Ht).
  unfold join_respondents, getThread. rewrite bind_gets. unfold thread_of in Hr. rewrite Hr.
  assert (answered_row true (i_agent i) t = t → db_threads (w_db w) =
    update_where (λ x, t_id x = t_id t) (answered_row true (i_agent i)) (db_threads (w_db w))) as Hno.
  { intros E. symmetry. apply update_where_id. intros x Hx Ex.
    by rewrite (thread_unique _ _ _ Hwf Ht Hx Ex). }
  case_decide as Ha.
  2:{ exists w. split_and!; try done. apply Hno. unfold answered_row. rewrite decide_False; [done|].
      unfold is_active. tauto. }
  case_bool_decide as Hin; cbn [when].
  - eexists. split; [reflexivity|]. split; [done|]. simpl.
    apply update_where_ext.
    + intros x Hx. unfold is_thread. split; [by intros []|]. intros E.
      by rewrite (thread_unique _ _ _ Hwf Ht Hx E).
    + intros x Hx [E _]. rewrite (thread_unique _ _ _ Hwf Ht Hx) by done.
      unfold answered_row. by rewrite decide_True.
  - exists w. split_and!; try done. apply Hno. unfold answered_row. rewrite decide_False; [done|].
    tauto.
Qed.

Lemma answered_row_same concerned agent t :
  t_id (answered_row concerned agent t) = t_id t ∧ t_org (answered_row concerned agent t) = t_org t ∧
  t_status (answered_row concerned agent t) = t_status t.
Proof. unfold answered_row. by case_decide. Qed.

(** Expected after the answer: as before, or by the answer. *)
Lemma answered_expected concerned agent t :
  is_active t →
  agent ∈ safeJsonParse (t_expected (answered_row concerned agent t)) ↔
    concerned = true ∨ agent ∈ safeJsonParse (t_expected t).
Proof.
  intros Ha. unfold answered_row. case_decide as Hd; simpl.
  - rewrite elem_of_app, list_elem_of_singleton. tauto.
  - destruct (decide (agent ∈ safeJsonParse (t_expected t))); [tauto|].
    destruct concerned; tauto.
Qed.

(** The answer stored, before the respondents are touched. *)
Lemma respond_eval org id reason w i :
  select_one (is_introspection org id) (db_introspections (w_db w)) = Some i →
  respond org id reason w =
    (on_db (on_introspections (update_where (is_introspection org id) (answer reason (w_clock w)))) w,
     Ok (Some (answer reason (w_clock w) i))).
Proof.
  intros Hi. unfold respond. rewrite bind_gets, bind_stmt. unfold gets. simpl.
  rewrite select_one_update_where, Hi by done. simpl. rewrite decide_True; [done|].
  by apply select_one_Some in Hi as [? _].
Qed.

(** What answering an introspection request does: the answer is stored and
    returned; the agent joins the expected respondents of the request's thread
    exactly when it says it is concerned, the thread is active and it is not
    expected yet, and no other thread changes; from then on the agent is
    interrupted for that thread exactly when the thread is active and it was
    expected or declared itself concerned. *)
Theorem introspection_answer_spec cx body id concerned reason w i t :
  wf (w_db w) → cx_org cx ∈ db_orgs (w_db w) →
  IntrospectionResponseBodySchema body = Some (id, concerned, reason) →
  select_one (is_introspection (cx_org cx) id) (db_introspections (w_db w)) = Some i →
  thread_of (cx_org cx) (i_thread i) w = Some t →
  let w' := run (handleIntrospectionResponse cx body) w in
  result (handleIntrospectionResponse cx body) w =
    Ok (Reply (PIntrospection (Some (answer reason (w_clock w) i)))) ∧
  db_threads (w_db w') =
    update_where (λ x, t_id x = t_id t) (answered_row concerned (i_agent i)) (db_threads (w_db w)) ∧
  (t_id t ∈ interrupts cx (i_agent i) w' ↔
     is_active t ∧ (concerned = true ∨ i_agent i ∈ safeJsonParse (t_expected t))).
Proof.
  intros Hwf Ho Hb Hi Hr w'. destruct (thread_of_Some _ _ _ _ Hr) as (Hid & Hto & Ht).
  set (i' := answer reason (w_clock w) i).
  set (w1 := on_db (on_introspections
    (update_where (is_introspection (cx_org cx) id) (answer reason (w_clock w)))) w).
  assert (wf (w_db w1)) as Hwf1 by (destruct Hwf; by constructor).
  assert (∃ w2, when concerned (join_respondents (cx_org cx) i') w1 = (w2, Ok ()) ∧
    db_orgs (w_db w2) = db_orgs (w_db w) ∧ db_threads (w_db w2) =
      update_where (λ x, t_id x = t_id t) (answered_row concerned (i_agent i)) (db_threads (w_db w)))
    as (w2 & E2 & Eo & Et).
  { destruct concerned; [by apply (join_eval _ i' w1 t)|]. exists w1. split_and!; try done.
    symmetry. apply update_where_id. intros x _ _. unfold answered_row. by rewrite decide_False by naive_solver. }
  assert (∃ w3, handleIntrospectionResponse cx body w = (w3, Ok (Reply (PIntrospection (Some i')))) ∧
    db_threads (w_db w3) = db_threads (w_db w2)) as (w3 & E3 & Et3).
  { unfold handleIntrospectionResponse. rewrite Hb. cbn [parsed].
    rewrite (bind_Ok _ _ _ _ _ (respond_eval _ _ reason _ _ Hi)). fold w1 i'.
    rewrite (bind_Ok _ _ _ _ _ E2). unfold Registry.get. rewrite bind_gets. cbv zeta.
    rewrite (bind_Ok _ _ _ _ _ (sse_eval _ _ w2 (eq_ind_r (λ l, cx_org cx ∈ l) Ho Eo))).
    by eexists. }
  subst w'. unfold run, result. rewrite E3. simpl. rewrite Et3, Et. split_and!; [done..|].
  rewrite elem_of_interrupts, Et3, Et. setoid_rewrite elem_of_update_where. split.
  - intros (x & (y & Hy & ->) & Hx). case_decide as Ey; [|naive_solver].
    rewrite (thread_unique _ _ _ Hwf Ht Hy Ey) in Hx.
    destruct Hx as (_ & _ & Ha & He). unfold is_active in Ha.
    destruct (answered_row_same concerned (i_agent i) t) as (_ & _ & Es). rewrite Es in Ha.
    split; [done|]. by apply answered_expected in He.
  - intros [Ha He]. exists (answered_row concerned (i_agent i) t).
    destruct (answered_row_same concerned (i_agent i) t) as (E1 & E4 & Es). rewrite E1, E4.
    split_and!; try done.
    + exists t. by rewrite decide_True.
    + unfold is_active. by rewrite Es.
    + by apply answered_expected.
Qed.

(** ** Concrete requests *)

Definition demo_context (org : string) : RestContext :=
  mkContext org true ["/repo"] None None EnvUnset false (λ s, s) (λ _ _, None).

Lemma non_post_is_read_only_witness :
  ∃ m, handleRest (demo_context "default")
         (mkRequest "GET" "/api/check-interrupt" (inr (VObj [("agent_id", VStr "bob")])) "" "" 0) = Some m ∧
       run m demo = demo ∧
       result m demo = Ok (Reply (PInterrupt [mkPending "u0" "types" "alice" TResolving ["src/types.ts"]])).
Proof.
  eexists. split; [reflexivity|]. split; [|vm_compute; reflexivity].
  refine (non_post_is_read_only (demo_context "default")
    (mkRequest "GET" "/api/check-interrupt" (inr (VObj [("agent_id", VStr "bob")])) "" "" 0) _ demo _ _).
  - discriminate.
  - reflexivity.
Defined.

(** Org "b" ends the session of its own builder; org "a" has one of that name. *)
Lemma rest_tenant_isolation_witness :
  ∃ m, handleRest (demo_context "b")
         (mkRequest "POST" "/api/session-stop" (inr (VObj [("agent_id", VStr "builder")])) "" "" 0) = Some m ∧
       result m two_tenants = Ok (Reply POk) ∧
       tenant "a" (w_db (run m two_tenants)) = tenant "a" (w_db two_tenants).
Proof.
  eexists. split; [reflexivity|]. split; [vm_compute; reflexivity|].
  refine (proj2 (rest_tenant_isolation (demo_context "b")
    (mkRequest "POST" "/api/session-stop" (inr (VObj [("agent_id", VStr "builder")])) "" "" 0) _
    two_tenants "a" _ _ _ _)).
  - apply (rtc_wf (initial ["a"; "b"] 1700000000000 EnvUnset uuid_of)); [|apply wf_empty].
    apply rtc_run_ops.
  - discriminate.
  - vm_compute. discriminate.
  - reflexivity.
Defined.

(** Carol, whom nobody expected, is asked and says she is concerned. *)
Definition asked_world : World :=
  run (create "default" "u0" "carol" 40 None)
    (run_ops [OpRegister "default" "carol" "Carol" ["doc"]] demo).

Lemma created_wf org thread agent score reasons w :
  wf (w_db w) → wf (w_db (run (create org thread agent score reasons) w)).
Proof.
  intros Hwf. assert (∃ other, org ≠ other) as [other Hne].
  { exists (if decide (org = "") then "x" else ""). case_decide; congruence. }
  enough (respects (isolates other) (create org thread agent score reasons) w) as Hi by by apply Hi.
  unfold create. effects. apply isolated_insert; [done|other_rows].
Qed.

Lemma asked_wf : wf (w_db asked_world).
Proof.
  unfold asked_world. apply created_wf, (rtc_wf demo); [apply rtc_run_ops|].
  apply (rtc_wf Invariant.start); [apply rtc_run_ops|apply wf_empty].
Qed.

Lemma introspection_answer_spec_witness :
  let body := VObj [("introspection_id", VStr "u2"); ("concerned", VBool true); ("reason", VStr "yes")] in
  "u0" ∈ interrupts (demo_context "default") "carol"
           (run (handleIntrospectionResponse (demo_context "default") body) asked_world) ∧
  interrupts (demo_context "default") "carol" asked_world = [].
Proof.
  split; [|vm_compute; reflexivity].
  eassert (select_one (is_introspection "default" "u2") (db_introspections (w_db asked_world)) = Some _)
    as Hi by (vm_compute; reflexivity).
  eassert (thread_of "default" "u0" asked_world = Some _) as Ht by (vm_compute; reflexivity).
  refine (proj2 (proj2 (proj2 (introspection_answer_spec (demo_context "default") _ "u2" true "yes"
    asked_world _ _ _ _ _ Hi Ht))) _).
  - apply asked_wf.
  - apply (bool_decide_unpack _); vm_compute; reflexivity.
  - vm_compute; reflexivity.
  - split; [right|left]; reflexivity.
Defined.


(** ** Statistics *)

Lemma outcomes_bounded rows :
  (count_type [RAutoResolved] rows + count_type [RConsensus] rows + count_type [RTimeout] rows
   + count_type [RAgentDeparture; RClosed] rows ≤ length rows)%nat.
Proof.
  unfold count_type. induction rows as [|[f o] rows IH]; [done|]. rewrite !filter_cons. cbn [snd].
  repeat case_decide; cbn [length] in *; try lia; exfalso; set_solver.
Qed.

Lemma joined_single l f : (length (resolutions f l) ≤ 1)%nat → length (joined l f) = 1%nat.
Proof. unfold joined. destruct (resolutions f l) as [|t [|u ts]]; simpl; lia || done. Qed.

(** The answer lists every layer that fired in the window, once, the most frequent
    first. Its outcomes are never more than its firings, and where no thread was
    resolved twice the count is that of the firings. *)
Theorem scoring_stats_spec cx since w :
  let sinceParam := if String.eqb since "" then "24h" else since in
  let fired := filter (λ f, lf_org f = cx_org cx ∧ fired_since (now_sec w) (sinceMin sinceParam) f) (db_firings (w_db w)) in
  ∃ layers, handleScoringStats cx since w = (w, Ok (Reply (PScoring sinceParam layers)))
  ∧ Sorted more_fired layers ∧ NoDup (ls_layer <$> layers)
  ∧ (∀ x, x ∈ ls_layer <$> layers ↔ x ∈ lf_layer <$> fired)
  ∧ ∀ s, s ∈ layers →
      (ls_auto_resolved s + ls_consensus s + ls_timeout s + ls_cancelled s ≤ ls_count s)%nat
      ∧ ((∀ f, f ∈ fired → (length (resolutions f (db_events (w_db w))) ≤ 1)%nat) →
         ls_count s = length (filter (λ f, lf_layer f = ls_layer s) fired)).
Proof.
  cbv zeta. set (sp := if String.eqb since "" then "24h" else since).
  set (fired := filter _ (db_firings (w_db w))). set (rows := fired ≫= joined (db_events (w_db w))).
  exists (merge_sort more_fired (layer_stats rows <$> dedup ((λ r, lf_layer r.1) <$> rows))). split; [reflexivity|].
  assert (∀ s, s ∈ merge_sort more_fired (layer_stats rows <$> dedup ((λ r, lf_layer r.1) <$> rows)) →
    s = layer_stats rows (ls_layer s)) as Hs.
  { intros s. rewrite merge_sort_Permutation. intros (x & -> & _)%list_elem_of_fmap. done. }
  assert (ls_layer <$> merge_sort more_fired (layer_stats rows <$> dedup ((λ r, lf_layer r.1) <$> rows))
    ≡ₚ dedup ((λ r, lf_layer r.1) <$> rows)) as Hp.
  { rewrite merge_sort_Permutation, <- list_fmap_compose. by rewrite list_fmap_id. }
  split_and!.
  - apply Sorted_merge_sort. intros x y. unfold more_fired. lia.
  - rewrite Hp. apply NoDup_dedup.
  - intros x. rewrite Hp, elem_of_dedup, !list_elem_of_fmap. unfold rows. split.
    + intros (r & -> & (f & Hr & Hf)%list_elem_of_bind). exists f. split; [|done].
      unfold joined in Hr. destruct (resolutions f _) eqn:E; [by apply list_elem_of_singleton in Hr as ->|].
      by apply list_elem_of_fmap in Hr as (t & -> & _).
    + intros (f & -> & Hf). unfold joined. destruct (resolutions f (db_events (w_db w))) as [|t ts] eqn:E.
      * exists (f, None). split; [done|]. apply list_elem_of_bind. exists f. rewrite E. split; [left|done].
      * exists (f, Some t). split; [done|]. apply list_elem_of_bind. exists f. rewrite E. split; [left|done].
  - intros s Hin. rewrite (Hs s Hin). split; [apply outcomes_bounded|]. intros Hone. cbn [ls_count ls_layer layer_stats].
    unfold rows. generalize (ls_layer s). intros x. clear - Hone. clearbody fired. induction fired as [|f l IH]; [done|].
    rewrite bind_cons, filter_app, length_app, IH by (intros g Hg; apply Hone; by right).
    assert (length (joined (db_events (w_db w)) f) = 1%nat) as H1 by (apply joined_single, Hone; left).
    assert (Forall (λ r, r.1 = f) (joined (db_events (w_db w)) f)) as H2.
    { unfold joined. destruct (resolutions _ _); [by repeat constructor|]. apply Forall_fmap, Forall_true. done. }
    destruct (joined (db_events (w_db w)) f) as [|r [|]]; try done. apply Forall_cons in H2 as [<- _].
    rewrite !filter_cons. by case_decide.
Qed.

(** The firings are all stored under the default organisation: another one reads
    no statistics. *)
Theorem scoring_stats_default cx since w : cx_org cx ≠ "default" → Forall (λ f, lf_org f = "default") (db_firings (w_db w)) →
  ∃ sp, handleScoringStats cx since w = (w, Ok (Reply (PScoring sp []))).
Proof.
  intros Hne Hf. destruct (scoring_stats_spec cx since w) as (layers & E & _ & _ & Hl & _). eexists. rewrite E.
  destruct layers as [|s l]; [done|]. exfalso.
  assert (ls_layer s ∈ ls_layer <$> s :: l) as Hs by left. apply Hl, list_elem_of_fmap in Hs as (f & _ & Hin).
  apply list_elem_of_filter in Hin as [[Eo _] Hin]. rewrite Forall_forall in Hf. specialize (Hf f Hin). congruence.
Qed.
End RestSafety.
