(* ===== verification/RateLimit.v ===== *)
(** * Rate limits and login lockout ([src/auth/rate-limit.ts],
    [src/auth/rate-limit-redis.ts], [src/auth/login-lockout.ts])

    The limiter has two implementations behind one interface: a token bucket in
    the memory of the process and a counter with an expiry in Redis. The bucket
    is compared with a reference that has no expiry and no sweeping; the bound on
    the calls let through and the meaning of [retry_after_seconds] follow from
    it. The lockout of logins is proved against the interface.

    Token counts are JavaScript numbers; in [RateLimiter] they are rationals, so
    its theorems are about exact arithmetic. The module [Doubles] has [check] in
    double precision and shows that the decisions differ: the rate is rounded, so
    a bucket that is polled while it refills can be short of a whole token when
    the exact one has it. The clock ([src/auth/clock.ts]) counts whole seconds,
    and so do the configurations. *)

From S2P Require Import Prelude.
From Stdlib Require Import QArith Qminmax Qround Lqa SpecFloat.
Local Open Scope Z_scope.

(** ** The interface [IRateLimiter] *)

Record RateLimitConfig := mkConfig { per : Z; window_seconds : Z }.

Inductive RateLimitResult :=
  | Allowed (remaining reset_at : Z)
  | Denied (retry_after_seconds : Z).

Definition allowed (r : RateLimitResult) : bool :=
  match r with Allowed _ _ => true | Denied _ => false end.

(** What a client may use: the state [S] stands for the store of the limiter,
    and a call reads the clock. *)
Class RateLimiterOps (S : Type) := {
  rl_check : Z → string → RateLimitConfig → S → RateLimitResult * S;
  rl_peek : Z → string → RateLimitConfig → S → RateLimitResult;
  rl_sweep : Z → S → S
}.

(** A configuration a client may pass. *)
Definition config_ok (cfg : RateLimitConfig) : Prop := 1 ≤ per cfg ∧ 0 < window_seconds cfg.

(** What every limiter promises, on the stores it reaches: [peek] foretells
    [check], a key that was let through stays so until someone checks it, a key
    is not affected by the calls on the others, and sweeping is invisible. The
    store is described at the time [now] of the last call on it. *)
Class RateLimiterLaws (S : Type) `{RateLimiterOps S} (cfg : RateLimitConfig)
    (ok : Z → S → Prop) := {
  law_ok_check now now' k s : ok now s → now ≤ now' → ok now' (rl_check now' k cfg s).2;
  law_ok_sweep now now' s : ok now s → now ≤ now' → ok now' (rl_sweep now' s);
  law_peek_check now now' k s : ok now s → now ≤ now' →
    allowed (rl_check now' k cfg s).1 = allowed (rl_peek now' k cfg s);
  law_peek_mono now now' now'' k s : ok now s → now ≤ now' → now' ≤ now'' →
    allowed (rl_peek now' k cfg s) = true → allowed (rl_peek now'' k cfg s) = true;
  law_other now now' now'' k k' s : ok now s → now ≤ now' → now' ≤ now'' → k ≠ k' →
    rl_peek now'' k cfg (rl_check now' k' cfg s).2 = rl_peek now'' k cfg s;
  law_sweep now now' now'' k s : ok now s → now ≤ now' → now' ≤ now'' →
    rl_peek now'' k cfg (rl_sweep now' s) = rl_peek now'' k cfg s
}.

(** ** The token bucket in memory *)

Module RateLimiter.

Record BucketState := mkBucket { tokens : Q; last_refill : Z; expires_at : Z }.

Notation Buckets := (gmap string BucketState).

Definition refillRate (cfg : RateLimitConfig) : Q :=
  (inject_Z (per cfg) / inject_Z (window_seconds cfg))%Q.

Definition retry_after (cfg : RateLimitConfig) (tokens : Q) : Z :=
  1 `max` Qceiling ((1 - tokens) / refillRate cfg)%Q.

(** The bucket [check] works on: the stored one, or a new full one. *)
Definition fresh_or_stored (now : Z) (cfg : RateLimitConfig) (ob : option BucketState) : BucketState :=
  match ob with
  | Some b => if bool_decide (expires_at b < now)
              then mkBucket (inject_Z (per cfg)) now (now + window_seconds cfg) else b
  | None => mkBucket (inject_Z (per cfg)) now (now + window_seconds cfg)
  end.

Definition refill (now : Z) (cfg : RateLimitConfig) (b : BucketState) : BucketState :=
  let elapsed := now - last_refill b in
  if bool_decide (0 < elapsed)
  then mkBucket (Qmin (inject_Z (per cfg)) (tokens b + inject_Z elapsed * refillRate cfg)%Q)
                now (expires_at b)
  else b.

Definition check (now : Z) (key : string) (cfg : RateLimitConfig) (s : Buckets)
    : RateLimitResult * Buckets :=
  let b := refill now cfg (fresh_or_stored now cfg (s !! key)) in
  if Qle_bool 1 (tokens b)
  then let t := (tokens b - 1)%Q in
       (Allowed (Qfloor t) (now + window_seconds cfg),
        <[key := mkBucket t (last_refill b) (now + window_seconds cfg)]> s)
  else (Denied (retry_after cfg (tokens b)),
        <[key := mkBucket (tokens b) (last_refill b) (now + window_seconds cfg)]> s).

Definition peek (now : Z) (key : string) (cfg : RateLimitConfig) (s : Buckets) : RateLimitResult :=
  let full := Allowed (per cfg) (now + window_seconds cfg) in
  match s !! key with
  | None => full
  | Some b =>
      if bool_decide (expires_at b < now) then full
      else
        let elapsed := now - last_refill b in
        let t := Qmin (inject_Z (per cfg))
                      (tokens b + inject_Z (0 `max` elapsed) * refillRate cfg)%Q in
        if Qle_bool 1 t then Allowed (Qfloor t) (now + window_seconds cfg)
        else Denied (retry_after cfg t)
  end.

(** [sweep] deletes the expired buckets and returns how many. *)
Definition sweep (now : Z) (s : Buckets) : nat * Buckets :=
  let s' := filter (λ kb : string * BucketState, ¬ (expires_at kb.2 < now)) s in
  ((size s - size s')%nat, s').

Definition reset : Buckets := ∅.

#[export] Instance ops : RateLimiterOps Buckets := {|
  rl_check := check;
  rl_peek := peek;
  rl_sweep now s := (sweep now s).2
|}.

(** ** The reference: a level per key that only grows with time

    No expiry, no sweeping: the level of a key at a time is the number of calls
    it could make at once. *)
Definition level (cfg : RateLimitConfig) (now : Z) (ob : option BucketState) : Q :=
  match ob with
  | None => inject_Z (per cfg)
  | Some b => Qmin (inject_Z (per cfg))
                   (tokens b + inject_Z (now - last_refill b) * refillRate cfg)%Q
  end.

Definition Levels := string → Q * Z.

Definition ref_level (cfg : RateLimitConfig) (now : Z) (qt : Q * Z) : Q :=
  Qmin (inject_Z (per cfg)) (qt.1 + inject_Z (now - qt.2) * refillRate cfg)%Q.

Definition ref_check (now : Z) (key : string) (cfg : RateLimitConfig) (f : Levels) : bool * Levels :=
  let lv := ref_level cfg now (f key) in
  let a := Qle_bool 1 lv in
  (a, λ k, if decide (k = key) then ((if a then lv - 1 else lv)%Q, now) else f k).

Definition ref_start (cfg : RateLimitConfig) (now : Z) : Levels := λ _, (inject_Z (per cfg), now).

(** ** Runs: calls on the limiter, each at its time *)
Inductive Call := CCheck (key : string) | CPeek (key : string) | CSweep.

#[export] Instance Call_eq_dec : EqDecision Call.
Proof. solve_decision. Defined.

Definition step (cfg : RateLimitConfig) (now : Z) (c : Call) (s : Buckets) : option bool * Buckets :=
  match c with
  | CCheck k => let r := check now k cfg s in (Some (allowed r.1), r.2)
  | CPeek k => (Some (allowed (peek now k cfg s)), s)
  | CSweep => (None, (sweep now s).2)
  end.

Fixpoint run (cfg : RateLimitConfig) (l : list (Z * Call)) (s : Buckets) : list (option bool) * Buckets :=
  match l with
  | [] => ([], s)
  | (now, c) :: l =>
      let r := step cfg now c s in
      let r' := run cfg l r.2 in (r.1 :: r'.1, r'.2)
  end.

Definition ref_step (cfg : RateLimitConfig) (now : Z) (c : Call) (f : Levels) : option bool * Levels :=
  match c with
  | CCheck k => let r := ref_check now k cfg f in (Some r.1, r.2)
  | CPeek k => (Some (Qle_bool 1 (ref_level cfg now (f k))), f)
  | CSweep => (None, f)
  end.

Fixpoint ref_run (cfg : RateLimitConfig) (l : list (Z * Call)) (f : Levels) : list (option bool) :=
  match l with
  | [] => []
  | (now, c) :: l => let r := ref_step cfg now c f in r.1 :: ref_run cfg l r.2
  end.

(** A clock that does not go back: every call is at or after the one before. *)
Fixpoint clocked (t0 : Z) (l : list (Z * Call)) : Prop :=
  match l with
  | [] => True
  | (now, _) :: l => t0 ≤ now ∧ clocked now l
  end.

(** The time of the last call. *)
Fixpoint last_call (t0 : Z) (l : list (Z * Call)) : Z :=
  match l with [] => t0 | (now, _) :: l => last_call now l end.

(** How many checks of [key] a run let through. *)
Fixpoint granted (cfg : RateLimitConfig) (key : string) (l : list (Z * Call)) (s : Buckets) : Z :=
  match l with
  | [] => 0
  | (now, c) :: l =>
      let r := step cfg now c s in
      (if bool_decide (c = CCheck key) then (if bool_decide (r.1 = Some true) then 1 else 0) else 0)
      + granted cfg key l r.2
  end.

(** The state of a bucket under a clock that does not go back. *)
Definition bucket_ok (cfg : RateLimitConfig) (now : Z) (b : BucketState) : Prop :=
  (0 <= tokens b)%Q ∧ (tokens b <= inject_Z (per cfg))%Q ∧ last_refill b ≤ now
  ∧ expires_at b = last_refill b + window_seconds cfg.

Definition ok (cfg : RateLimitConfig) (now : Z) (s : Buckets) : Prop :=
  ∀ k b, s !! k = Some b → bucket_ok cfg now b.

(** ** Lemmas *)

Lemma last_call_le t0 l : clocked t0 l → t0 ≤ last_call t0 l.
Proof.
  revert t0. induction l as [|[n c] l IH]; simpl; [done|]. intros t0 [? ?%IH]. lia.
Qed.

Lemma inject_Z_pos z : 0 < z → (0 < inject_Z z)%Q.
Proof. unfold Qlt; simpl; lia. Qed.

Lemma inject_Z_nonneg z : 0 ≤ z → (0 <= inject_Z z)%Q.
Proof. unfold Qle; simpl; lia. Qed.

Section bucket.
Context (cfg : RateLimitConfig) (Hcfg : config_ok cfg).

Lemma refillRate_pos : (0 < refillRate cfg)%Q.
Proof using Hcfg.
  destruct Hcfg as [? ?]. unfold refillRate.
  apply Qlt_shift_div_l; [by apply inject_Z_pos | ].
  assert (0 < inject_Z (per cfg))%Q by (apply inject_Z_pos; lia). lra.
Qed.

Lemma refillRate_window : (inject_Z (window_seconds cfg) * refillRate cfg == inject_Z (per cfg))%Q.
Proof using Hcfg.
  destruct Hcfg as [? ?]. unfold refillRate. field.
  assert (0 < inject_Z (window_seconds cfg))%Q by by apply inject_Z_pos. lra.
Qed.

Lemma refill_mono a b : a ≤ b → (inject_Z a * refillRate cfg <= inject_Z b * refillRate cfg)%Q.
Proof using Hcfg.
  intros. apply Qmult_le_compat_r; [by rewrite <- Zle_Qle | apply Qlt_le_weak, refillRate_pos].
Qed.

Lemma refill_nonneg a : 0 ≤ a → (0 <= inject_Z a * refillRate cfg)%Q.
Proof using Hcfg.
  intros H. apply refill_mono in H. eapply Qle_trans; [|exact H].
  change (inject_Z 0) with 0%Q. lra.
Qed.

(** A bucket that expired is full again: this is why expiry is invisible. *)
Lemma expired_is_full now b :
  bucket_ok cfg now b → expires_at b < now → (level cfg now (Some b) == inject_Z (per cfg))%Q.
Proof using Hcfg.
  intros (H0 & H1 & H2 & H3) He. unfold level. apply Q.min_l.
  assert (inject_Z (window_seconds cfg) * refillRate cfg
          <= inject_Z (now - last_refill b) * refillRate cfg)%Q as Hm by (apply refill_mono; lia).
  rewrite refillRate_window in Hm. lra.
Qed.

Lemma bucket_ok_mono now now' b : bucket_ok cfg now b → now ≤ now' → bucket_ok cfg now' b.
Proof. unfold bucket_ok. intuition lia. Qed.

Lemma level_bounds now ob :
  (∀ b, ob = Some b → bucket_ok cfg now b) →
  (0 <= level cfg now ob)%Q ∧ (level cfg now ob <= inject_Z (per cfg))%Q.
Proof using Hcfg.
  intros Hok. destruct Hcfg as [Hp _].
  assert (0 <= inject_Z (per cfg))%Q by (apply inject_Z_nonneg; lia).
  destruct ob as [b|]; simpl; [|lra].
  destruct (Hok b eq_refl) as (H0 & H1 & H2 & H3). split; [|apply Q.le_min_l].
  apply Q.min_glb; [done|].
  assert (0 <= inject_Z (now - last_refill b) * refillRate cfg)%Q by (apply refill_nonneg; lia).
  lra.
Qed.


(** The bucket [check] decides on holds the level of the key. *)
Lemma prepared_level now ob :
  (∀ b, ob = Some b → bucket_ok cfg now b) →
  let b := refill now cfg (fresh_or_stored now cfg ob) in
  (tokens b == level cfg now ob)%Q ∧ last_refill b = now.
Proof using Hcfg.
  intros Hok. unfold refill, fresh_or_stored.
  destruct ob as [b|]; simpl; last first.
  { rewrite bool_decide_eq_false_2 by lia. done. }
  specialize (Hok b eq_refl). pose proof Hok as (H0 & H1 & H2 & H3).
  destruct (decide (expires_at b < now)) as [He|He].
  { rewrite (bool_decide_eq_true_2 (expires_at b < now)) by done. simpl.
    rewrite bool_decide_eq_false_2 by lia. simpl.
    split; [symmetry; by apply expired_is_full|done]. }
  rewrite (bool_decide_eq_false_2 (expires_at b < now)) by done.
  case_bool_decide as Hd; simpl; [done|].
  assert (last_refill b = now) as Hl by lia. rewrite Hl, Z.sub_diag. split; [|done].
  change (inject_Z 0) with 0%Q. rewrite Q.min_r; lra.
Qed.

Lemma level_self now t e : (t <= inject_Z (per cfg))%Q →
  (level cfg now (Some (mkBucket t now e)) == t)%Q.
Proof.
  intros Ht. simpl. rewrite Z.sub_diag.
  rewrite Q.min_r; change (inject_Z 0) with 0%Q; lra.
Qed.

(** Time only adds tokens, at the rate of the configuration. *)
Lemma level_mono now now' ob :
  (∀ b, ob = Some b → bucket_ok cfg now b) → now ≤ now' →
  (level cfg now ob <= level cfg now' ob)%Q.
Proof using Hcfg.
  intros Hok Hn. destruct ob as [b|]; simpl; [|lra].
  apply Q.min_le_compat_l.
  assert (inject_Z (now - last_refill b) * refillRate cfg
          <= inject_Z (now' - last_refill b) * refillRate cfg)%Q by (apply refill_mono; lia). lra.
Qed.

Lemma level_rate now now' ob :
  (∀ b, ob = Some b → bucket_ok cfg now b) → now ≤ now' →
  (level cfg now' ob <= level cfg now ob + inject_Z (now' - now) * refillRate cfg)%Q.
Proof using Hcfg.
  intros Hok Hn. assert (0 <= inject_Z (now' - now) * refillRate cfg)%Q as Hd
    by (apply refill_nonneg; lia).
  destruct ob as [b|]; simpl; [|lra].
  set (p := inject_Z (per cfg)). set (t := tokens b).
  assert (inject_Z (now' - last_refill b) * refillRate cfg
    == inject_Z (now - last_refill b) * refillRate cfg + inject_Z (now' - now) * refillRate cfg)%Q as E.
  { rewrite <- Qmult_plus_distr_l, <- inject_Z_plus. do 2 f_equiv. lia. }
  rewrite E.
  destruct (Q.min_spec p (t + inject_Z (now - last_refill b) * refillRate cfg)%Q) as [[_ ->]|[_ ->]].
  - eapply Qle_trans; [apply Q.le_min_l|]. lra.
  - eapply Qle_trans; [apply Q.le_min_r|]. lra.
Qed.

(** [check] against the reference. *)
Lemma check_level now key s :
  ok cfg now s →
  let lv := level cfg now (s !! key) in
  let r := check now key cfg s in
  ok cfg now r.2
  ∧ (∀ key', key' ≠ key → r.2 !! key' = s !! key')
  ∧ allowed r.1 = Qle_bool 1 lv
  ∧ (level cfg now (r.2 !! key) == if allowed r.1 then lv - 1 else lv)%Q.
Proof using Hcfg.
  intros Hok lv r.
  assert (∀ b, s !! key = Some b → bucket_ok cfg now b) as Hk by (intros; eapply Hok; eauto).
  pose proof (prepared_level now _ Hk) as [Ht Hl].
  pose proof (level_bounds now _ Hk) as [H0 H1]. fold lv in Ht, H0, H1.
  unfold r, check. set (b := refill _ _ _) in *.
  assert (Qle_bool 1 (tokens b) = Qle_bool 1 lv) as Eq by by rewrite Ht.
  rewrite Eq. destruct (Qle_bool 1 lv) eqn:E; simpl.
  all: split; [|split; [intros; by rewrite lookup_insert_ne|split; [done|]]].
  - apply Qle_bool_iff in E. intros k b' [(<- & <-)|[? ?]]%lookup_insert_Some; [|eauto].
    unfold bucket_ok; simpl. rewrite Hl. split_and!; lra || lia.
  - rewrite lookup_insert_eq, Hl, level_self; lra.
  - intros k b' [(<- & <-)|[? ?]]%lookup_insert_Some; [|eauto].
    unfold bucket_ok; simpl. rewrite Hl. split_and!; lra || lia.
  - rewrite lookup_insert_eq, Hl, level_self; lra.
Qed.

Lemma peek_level now key s :
  ok cfg now s → allowed (peek now key cfg s) = Qle_bool 1 (level cfg now (s !! key)).
Proof using Hcfg.
  intros Hok. destruct Hcfg as [Hp Hw]. unfold peek.
  assert (Qle_bool 1 (inject_Z (per cfg)) = true) as Hfull.
  { apply Qle_bool_iff. change 1%Q with (inject_Z 1). by rewrite <- Zle_Qle. }
  destruct (s !! key) as [b|] eqn:E; [|done].
  pose proof (Hok _ _ E) as Hb. case_bool_decide as He.
  { rewrite (expired_is_full now b Hb He). done. }
  destruct Hb as (_ & _ & ? & _). rewrite Z.max_r by lia. simpl.
  destruct (Qle_bool 1 (Qmin _ _)); reflexivity.
Qed.

Lemma ok_mono now now' s : ok cfg now s → now ≤ now' → ok cfg now' s.
Proof. intros H ? k b ?. eapply bucket_ok_mono; [by eapply H|done]. Qed.

Lemma sweep_lookup now key s :
  (sweep now s).2 !! key =
    match s !! key with
    | Some b => if bool_decide (expires_at b < now) then None else Some b
    | None => None
    end.
Proof.
  unfold sweep; simpl. destruct (s !! key) as [b|] eqn:E.
  - case_bool_decide.
    + apply map_lookup_filter_None. right. intros b' ?. simplify_eq. simpl. auto.
    + apply map_lookup_filter_Some. auto.
  - apply map_lookup_filter_None. auto.
Qed.

Lemma sweep_ok now s : ok cfg now s → ok cfg now (sweep now s).2.
Proof.
  intros H k b. rewrite sweep_lookup. intros E. apply (H k).
  destruct (s !! k); [|done]. case_bool_decide; congruence.
Qed.

(** Sweeping does not change any level. *)
Lemma sweep_level now now' key s : ok cfg now s → now ≤ now' →
  (level cfg now' ((sweep now s).2 !! key) == level cfg now' (s !! key))%Q.
Proof using Hcfg.
  intros Hok Hn. rewrite sweep_lookup. destruct (s !! key) as [b|] eqn:E; [|reflexivity].
  case_bool_decide; [|reflexivity]. symmetry. apply expired_is_full; [|lia].
  eapply bucket_ok_mono; [by eapply Hok|done].
Qed.

(** One call: the store stays well formed, only a check of the key lowers its
    level, and by one. *)
Lemma step_ok now c s : ok cfg now s → ok cfg now (step cfg now c s).2.
Proof using Hcfg.
  intros H. destruct c; simpl; [by apply check_level|done|by apply sweep_ok].
Qed.

Lemma step_level now now' c s key :
  ok cfg now s → now ≤ now' → c ≠ CCheck key →
  (level cfg now' ((step cfg now c s).2 !! key) == level cfg now' (s !! key))%Q.
Proof using Hcfg.
  intros Hok Hn Hc. destruct c as [k|k|]; simpl; [|reflexivity|by apply sweep_level].
  destruct (check_level now k s Hok) as (_ & Hne & _). rewrite Hne; [reflexivity|congruence].
Qed.

(** After a check at [now] the level of the key at a later time is that of a
    bucket holding what is left. *)
Lemma check_level_later now now' key s :
  ok cfg now s → now ≤ now' →
  (level cfg now' ((check now key cfg s).2 !! key)
   == ref_level cfg now' ((if allowed (check now key cfg s).1
        then level cfg now (s !! key) - 1 else level cfg now (s !! key))%Q, now))%Q.
Proof using Hcfg.
  intros Hok Hn.
  assert (∀ b, s !! key = Some b → bucket_ok cfg now b) as Hk by (intros; eapply Hok; eauto).
  pose proof (prepared_level now _ Hk) as [Ht Hl].
  destruct (check_level now key s Hok) as (_ & _ & _ & Hlv). revert Hlv.
  unfold check, ref_level. set (b := refill _ _ _) in *.
  destruct (Qle_bool 1 (tokens b)); simpl; rewrite lookup_insert_eq; simpl; intros _;
    rewrite Hl, Ht; reflexivity.
Qed.

(** *** The reference *)
Definition simulates (now : Z) (s : Buckets) (f : Levels) : Prop :=
  ∀ k now', now ≤ now' → (level cfg now' (s !! k) == ref_level cfg now' (f k))%Q.

Lemma simulates_mono now now' s f : simulates now s f → now ≤ now' → simulates now' s f.
Proof. intros H ? k t ?. apply H. lia. Qed.

Lemma step_simulates now c s f :
  ok cfg now s → simulates now s f →
  (step cfg now c s).1 = (ref_step cfg now c f).1
  ∧ simulates now (step cfg now c s).2 (ref_step cfg now c f).2.
Proof using Hcfg.
  intros Hok Hs. destruct c as [k|k|]; simpl.
  - destruct (check_level now k s Hok) as (_ & Hne & Ha & _).
    assert (allowed (check now k cfg s).1 = Qle_bool 1 (ref_level cfg now (f k))) as Ha'.
    { by rewrite Ha, (Hs k now) by lia. }
    rewrite Ha'. split; [done|]. intros k' t Ht. case_decide as Hk.
    + subst k'. rewrite (check_level_later now t k s Hok Ht), Ha'. unfold ref_level at 1; simpl.
      destruct (Qle_bool 1 (ref_level cfg now (f k))); unfold ref_level at 2; simpl;
        by rewrite (Hs k now) by lia.
    + rewrite Hne by done. by apply Hs.
  - split; [|done]. rewrite peek_level by done. by rewrite (Hs k now) by lia.
  - split; [done|]. intros k t Ht. rewrite (sweep_level now t k s Hok Ht). by apply Hs.
Qed.

Lemma run_simulates t0 l s f :
  ok cfg t0 s → simulates t0 s f → clocked t0 l → (run cfg l s).1 = ref_run cfg l f.
Proof using Hcfg.
  revert t0 s f. induction l as [|[now c] l IH]; intros t0 s f Hok Hs Hc; [done|].
  destruct Hc as [Ht Hc]. simpl.
  destruct (step_simulates now c s f) as [E Hs']; [by eapply ok_mono|by eapply simulates_mono|].
  rewrite E. f_equal. eapply IH; [|exact Hs'|done]. apply step_ok. by eapply ok_mono.
Qed.

(** *** Runs *)
Lemma granted_level t0 key l s :
  ok cfg t0 s → clocked t0 l →
  (inject_Z (granted cfg key l s)
   <= level cfg t0 (s !! key) + inject_Z (last_call t0 l - t0) * refillRate cfg)%Q.
Proof using Hcfg.
  revert t0 s. induction l as [|[now c] l IH]; intros t0 s Hok Hc; simpl.
  { rewrite Z.sub_diag. change (inject_Z 0) with 0%Q.
    destruct (level_bounds t0 (s !! key)); [intros; eapply Hok; eauto|]. lra. }
  destruct Hc as [Ht Hc].
  assert (ok cfg now s) as Hok' by by eapply ok_mono.
  pose proof (level_rate t0 now (s !! key)) as Hr.
  assert (inject_Z (last_call now l - t0) * refillRate cfg
    == inject_Z (last_call now l - now) * refillRate cfg
       + inject_Z (now - t0) * refillRate cfg)%Q as E.
  { rewrite <- Qmult_plus_distr_l, <- inject_Z_plus. do 2 f_equiv. lia. }
  specialize (IH now (step cfg now c s).2 (step_ok _ _ _ Hok') Hc).
  specialize (Hr ltac:(intros; eapply Hok; eauto) Ht).
  rewrite inject_Z_plus, E. case_bool_decide as Hck.
  - subst c. destruct (check_level now key s Hok') as (_ & _ & Ha & Hlv).
    cbn [step] in *. cbn [fst snd] in *.
    case_bool_decide as Hb; destruct (allowed (check now key cfg s).1);
      simplify_eq; change (inject_Z 0) with 0%Q; change (inject_Z 1) with 1%Q;
      rewrite Hlv in IH; lra.
  - change (inject_Z 0) with 0%Q. rewrite (step_level now now c s key Hok' (Z.le_refl _) Hck) in IH. lra.
Qed.

Lemma run_level t0 t1 key l s :
  ok cfg t0 s → clocked t0 l → (∀ nc, nc ∈ l → nc.2 ≠ CCheck key) → last_call t0 l ≤ t1 →
  ok cfg t1 (run cfg l s).2 ∧ (level cfg t1 ((run cfg l s).2 !! key) == level cfg t1 (s !! key))%Q.
Proof using Hcfg.
  revert t0 s. induction l as [|[now c] l IH]; intros t0 s Hok Hc Hl Ht; simpl in *.
  { split; [by eapply ok_mono|done]. }
  destruct Hc as [H1 Hc].
  assert (ok cfg now s) as Hok' by by eapply ok_mono.
  assert (now ≤ t1) as Hn by (pose proof (last_call_le now l Hc); lia).
  destruct (IH now (step cfg now c s).2) as [? E]; [by apply step_ok|done| |done|].
  { intros nc ?. apply Hl. set_solver. }
  split; [done|]. rewrite E. apply step_level; [done|done|].
  apply (Hl (now, c)). set_solver.
Qed.

(** What [retry_after_seconds] promises, on the level. *)
Lemma retry_after_level now t lv :
  (0 <= lv)%Q → Qle_bool 1 lv = false → now ≤ t →
  Qle_bool 1 (ref_level cfg t (lv, now)) = bool_decide (now + retry_after cfg lv ≤ t).
Proof using Hcfg.
  intros H0 Hlt Ht. pose proof refillRate_pos as Hr.
  assert (lv < 1)%Q as H1.
  { destruct (Qlt_le_dec lv 1) as [|Hle]; [done|]. apply Qle_bool_iff in Hle. congruence. }
  assert (1 <= inject_Z (per cfg))%Q as Hp.
  { destruct Hcfg. change 1%Q with (inject_Z 1). by rewrite <- Zle_Qle. }
  set (x := ((1 - lv) / refillRate cfg)%Q).
  assert (x * refillRate cfg == 1 - lv)%Q as Ex by (unfold x; field; lra).
  assert (0 < x)%Q as Hx by (unfold x; apply Qlt_shift_div_l; lra).
  assert (1 ≤ Qceiling x) as Hc.
  { assert (inject_Z 0 < inject_Z (Qceiling x))%Q as Hq
      by (eapply Qlt_le_trans; [exact Hx|apply Qle_ceiling]).
    rewrite <- Zlt_Qlt in Hq. lia. }
  unfold retry_after. fold x. rewrite Z.max_r by done.
  apply eq_true_iff_eq. rewrite bool_decide_eq_true, Qle_bool_iff. unfold ref_level; simpl.
  split.
  - intros Hq. assert (x <= inject_Z (t - now))%Q as Hxt.
    { apply (Qmult_le_r _ _ (refillRate cfg) Hr). rewrite Ex.
      eapply Qle_trans in Hq; [|apply Qle_refl].
      pose proof (Q.le_min_r (inject_Z (per cfg)) (lv + inject_Z (t - now) * refillRate cfg)). lra. }
    apply Qceiling_resp_le in Hxt. rewrite Qceiling_Z in Hxt. lia.
  - intros Hle. apply Q.min_glb; [done|].
    assert (x <= inject_Z (t - now))%Q as Hxt.
    { eapply Qle_trans; [apply Qle_ceiling|]. rewrite <- Zle_Qle. lia. }
    apply (Qmult_le_compat_r _ _ (refillRate cfg)) in Hxt; [|lra]. lra.
Qed.

End bucket.

(** The token bucket keeps the promises of the interface. *)
#[export] Instance laws cfg `(Hcfg : config_ok cfg) : RateLimiterLaws Buckets cfg (ok cfg).
Proof.
  split; simpl.
  - intros now now' k s Hok Hn. apply check_level; [done|by eapply ok_mono].
  - intros now now' s Hok Hn. apply sweep_ok. by eapply ok_mono.
  - intros now now' k s Hok Hn. apply (ok_mono _ _ now') in Hok; [|done].
    destruct (check_level cfg Hcfg now' k s Hok) as (_ & _ & -> & _). by rewrite peek_level.
  - intros now now' now'' k s Hok Hn Hn'. pose proof (ok_mono _ _ now' _ Hok Hn) as Hok'.
    rewrite !peek_level by (try done; by eapply ok_mono). rewrite !Qle_bool_iff. intros Hl.
    eapply Qle_trans; [exact Hl|]. apply level_mono; [done| |done]. intros; by eapply Hok'.
  - intros now now' now'' k k' s Hok Hn _ Hk. apply (ok_mono _ _ now') in Hok; [|done].
    destruct (check_level cfg Hcfg now' k' s Hok) as (_ & Hne & _).
    unfold peek. by rewrite Hne.
  - intros now now' now'' k s Hok Hn Hn'. change (filter _ s) with (sweep now' s).2.
    unfold peek. rewrite sweep_lookup. destruct (s !! k) as [b|]; [|done].
    destruct (decide (expires_at b < now')) as [He|He].
    + rewrite bool_decide_eq_true_2 by done. by rewrite bool_decide_eq_true_2 by lia.
    + by rewrite bool_decide_eq_false_2.
Qed.

End RateLimiter.

(** ** The counter in Redis

    [check] runs a script (INCR, EXPIRE on the first increment, TTL) that Redis
    executes as one step; [peek] reads GET and TTL. The server is an interface:
    [entry] is what it holds for a key, a number and the second it expires. *)

Class Redis (R : Type) := {
  entry : string → R → option (Z * option Z);
  incr : Z → string → R → Z * R;
  expire : Z → string → Z → R → R;
  ttl : Z → string → R → Z;
  get : Z → string → R → option Z
}.

(** What a key holds at a time: nothing once its expiry passed. *)
Definition live `{Redis R} (now : Z) (k : string) (r : R) : option (Z * option Z) :=
  match entry k r with
  | Some (n, Some d) => if bool_decide (now < d) then Some (n, Some d) else None
  | e => e
  end.

(** The documented behaviour of the commands. *)
Class RedisLaws (R : Type) `{Redis R} := {
  incr_reply now k r : (incr now k r).1 = default 0 (fst <$> live now k r) + 1;
  incr_entry now k r :
    entry k (incr now k r).2
    = Some (default 0 (fst <$> live now k r) + 1, live now k r ≫= snd);
  incr_other now k k' r : k ≠ k' → entry k (incr now k' r).2 = entry k r;
  expire_entry now k secs r n d : live now k r = Some (n, d) →
    entry k (expire now k secs r) = Some (n, Some (now + secs));
  expire_other now k k' secs r : k ≠ k' → entry k (expire now k' secs r) = entry k r;
  ttl_reply now k r :
    ttl now k r = match live now k r with
                  | Some (_, Some d) => d - now | Some (_, None) => -1 | None => -2 end;
  get_reply now k r : get now k r = fst <$> live now k r
}.

Module RedisRateLimiter.

Definition KEY_PREFIX : string := "coordinator:rl:".

(** The script [CHECK_LUA]. *)
Definition CHECK_LUA `{Redis R} (now : Z) (k : string) (secs : Z) (r : R) : (Z * Z) * R :=
  let '(c, r) := incr now k r in
  let r := if bool_decide (c = 1) then expire now k secs r else r in
  let t := ttl now k r in
  if bool_decide (t < 0) then ((c, secs), expire now k secs r) else ((c, t), r).

(** [up] is false when the connection fails: the call is let through. *)
Definition check `{Redis R} (up : bool) (now : Z) (key : string) (cfg : RateLimitConfig) (r : R)
    : RateLimitResult * R :=
  if up then
    let '((count, t), r) := CHECK_LUA now (KEY_PREFIX +:+ key) (window_seconds cfg) r in
    let t := 1 `max` t in
    (if bool_decide (count ≤ per cfg) then Allowed (per cfg - count) (now + t) else Denied t, r)
  else (Allowed (per cfg) (now + window_seconds cfg), r).

Definition peek `{Redis R} (up : bool) (now : Z) (key : string) (cfg : RateLimitConfig) (r : R)
    : RateLimitResult :=
  if up then
    let k := KEY_PREFIX +:+ key in
    let count := default 0 (get now k r) in
    let t := ttl now k r in
    if bool_decide (count < per cfg)
    then Allowed (per cfg - count) (now + (if bool_decide (0 < t) then t else window_seconds cfg))
    else Denied (1 `max` t)
  else Allowed (per cfg) (now + window_seconds cfg).

#[export] Instance ops `{Redis R} : RateLimiterOps R := {|
  rl_check := check true;
  rl_peek := peek true;
  rl_sweep _ r := r
|}.

Section laws.
Context `{RedisLaws R} (cfg : RateLimitConfig) (Hcfg : config_ok cfg).

Lemma CHECK_LUA_count now k secs r :
  (CHECK_LUA now k secs r).1.1 = default 0 (fst <$> live now k r) + 1.
Proof.
  unfold CHECK_LUA. pose proof (incr_reply now k r) as E.
  destruct (incr now k r) as [c r']. simpl in E. by case_bool_decide.
Qed.

Lemma CHECK_LUA_other now k k' secs r :
  k ≠ k' → entry k (CHECK_LUA now k' secs r).2 = entry k r.
Proof.
  intros Hk. unfold CHECK_LUA. pose proof (incr_other now k k' r Hk) as E.
  destruct (incr now k' r) as [c r']. simpl in E. rewrite <- E.
  destruct (bool_decide (c = 1)); destruct (bool_decide (_ < 0)); simpl;
    by rewrite ?expire_other by done.
Qed.

(** A counter never outlives its window. *)
Lemma CHECK_LUA_expires now k secs r :
  0 < secs →
  ∃ d, live now k (CHECK_LUA now k secs r).2 = Some ((CHECK_LUA now k secs r).1.1, Some d)
       ∧ (CHECK_LUA now k secs r).1.2 = d - now.
Proof.
  intros Hs. unfold CHECK_LUA.
  pose proof (incr_entry now k r) as E. pose proof (incr_reply now k r) as Ec.
  destruct (incr now k r) as [c r']. cbn [fst snd] in *. rewrite <- Ec in E.
  assert (∃ d, live now k r' = Some (c, d)) as [d Hl].
  { unfold live at 1. rewrite E. unfold live. destruct (entry k r) as [[n [d|]]|]; simpl; eauto.
    case_bool_decide; simpl; [rewrite bool_decide_eq_true_2 by done|]; eauto. }
  assert (∀ r0 n d, live now k r0 = Some (n, d) →
            live now k (expire now k secs r0) = Some (n, Some (now + secs))) as Hexp.
  { intros r0 n d0 Hl0. unfold live. rewrite (expire_entry _ _ _ _ _ _ Hl0).
    by rewrite bool_decide_eq_true_2 by lia. }
  set (r1 := if bool_decide (c = 1) then _ else _).
  assert (∃ d, live now k r1 = Some (c, d)) as [d1 Hl1].
  { unfold r1. case_bool_decide; eauto. }
  assert (∀ d, live now k r1 = Some (c, Some d) → now < d) as Hd.
  { intros d0. unfold live. destruct (entry k r1) as [[n [e|]]|]; try done.
    case_bool_decide; congruence. }
  case_bool_decide as Ht; simpl.
  - exists (now + secs). split; [by eapply Hexp|lia].
  - rewrite ttl_reply, Hl1 in *. destruct d1 as [d1|]; [|lia]. eauto.
Qed.

Lemma live_mono now now' k r n : now ≤ now' → 0 < n →
  default 0 (fst <$> live now k r) < n → default 0 (fst <$> live now' k r) < n.
Proof.
  intros Ht Hn. unfold live. destruct (entry k r) as [[m [d|]]|]; try done.
  repeat case_bool_decide; simpl; lia.
Qed.

#[export] Instance laws : RateLimiterLaws R cfg (λ _ _, True).
Proof using H0 Hcfg.
  destruct Hcfg as [Hp Hw]. split; cbn [rl_check rl_peek rl_sweep ops]; try done.
  - intros now now' k r _ _. unfold check, peek. rewrite get_reply.
    pose proof (CHECK_LUA_count now' (KEY_PREFIX +:+ k) (window_seconds cfg) r) as E.
    destruct (CHECK_LUA _ _ _ _) as [[c t] r']. simpl in *. subst c.
    repeat case_bool_decide; simpl; done || lia.
  - intros now now' now'' k r _ _ Ht. unfold peek. rewrite !get_reply.
    case_bool_decide as Hc; [|done]. intros _.
    rewrite bool_decide_eq_true_2; [done|]. eapply live_mono; [done|lia|done].
  - intros now now' now'' k k' r _ _ _ Hk.
    assert (live now'' (KEY_PREFIX +:+ k) (check true now' k' cfg r).2
            = live now'' (KEY_PREFIX +:+ k) r) as E.
    { unfold live, check.
      pose proof (CHECK_LUA_other now' (KEY_PREFIX +:+ k) (KEY_PREFIX +:+ k') (window_seconds cfg) r) as E.
      destruct (CHECK_LUA _ _ _ _) as [[c t] r']. simpl in *. rewrite E; [done|].
      intros E'. by apply (inj (String.append KEY_PREFIX)) in E'. }
    unfold peek. by rewrite !get_reply, !ttl_reply, E.
Qed.

End laws.
End RedisRateLimiter.

(** A store that behaves as documented. *)
Module RedisStore.

Notation Store := (gmap string (Z * option Z)).

Definition lookup_live (now : Z) (k : string) (r : Store) : option (Z * option Z) :=
  match r !! k with
  | Some (n, Some d) => if bool_decide (now < d) then Some (n, Some d) else None
  | e => e
  end.

#[export] Instance redis : Redis Store := {|
  entry k r := r !! k;
  incr now k r :=
    let e := lookup_live now k r in
    (default 0 (fst <$> e) + 1, <[k := (default 0 (fst <$> e) + 1, e ≫= snd)]> r);
  expire now k secs r :=
    match lookup_live now k r with
    | Some (n, _) => <[k := (n, Some (now + secs))]> r
    | None => r
    end;
  ttl now k r := match lookup_live now k r with
                 | Some (_, Some d) => d - now | Some (_, None) => -1 | None => -2 end;
  get now k r := fst <$> lookup_live now k r
|}.

#[export] Instance redis_laws : RedisLaws Store.
Proof.
  split; try done; simpl.
  - intros now k r. by rewrite lookup_insert_eq.
  - intros now k k' r ?. by rewrite lookup_insert_ne.
  - intros now k secs r n d Hl. change (live now k r) with (lookup_live now k r) in Hl.
    rewrite Hl. by rewrite lookup_insert_eq.
  - intros now k k' secs r ?. destruct (lookup_live now k' r) as [[n d]|]; [|done].
    by rewrite lookup_insert_ne.
Qed.

End RedisStore.

(** ** Login lockout *)

Module LoginLockout.

Definition LOCKOUT_KEY_PREFIX : string := "lockout:".
Definition DEFAULT_LOCKOUT_THRESHOLD : Z := 5.
Definition DEFAULT_LOCKOUT_WINDOW_SECONDS : Z := 15 * 60.

Record LockoutConfig := mkLockout { threshold : Z; lockout_window : Z }.

Definition default_config : LockoutConfig :=
  mkLockout DEFAULT_LOCKOUT_THRESHOLD DEFAULT_LOCKOUT_WINDOW_SECONDS.

Record LockoutCheckResult := mkLocked { locked : bool; retry : option Z }.

Definition limits (cfg : LockoutConfig) : RateLimitConfig :=
  mkConfig (threshold cfg) (lockout_window cfg).

Definition of_result (r : RateLimitResult) : LockoutCheckResult :=
  match r with
  | Allowed _ _ => mkLocked false None
  | Denied s => mkLocked true (Some s)
  end.

Definition recordFailedLogin `{RateLimiterOps T} (now : Z) (identifierHash : string)
    (cfg : LockoutConfig) (s : T) : LockoutCheckResult * T :=
  let r := rl_check now (LOCKOUT_KEY_PREFIX +:+ identifierHash) (limits cfg) s in
  (of_result r.1, r.2).

Definition isLocked `{RateLimiterOps T} (now : Z) (identifierHash : string)
    (cfg : LockoutConfig) (s : T) : LockoutCheckResult :=
  of_result (rl_peek now (LOCKOUT_KEY_PREFIX +:+ identifierHash) (limits cfg) s).

(** Other calls on the limiter while a request is served. *)
Inductive Other := OCheck (key : string) | OSweep.

Definition other `{RateLimiterOps T} (cfg : RateLimitConfig) (now : Z) (o : Other) (s : T) : T :=
  match o with
  | OCheck k => (rl_check now k cfg s).2
  | OSweep => rl_sweep now s
  end.

Fixpoint others `{RateLimiterOps T} (cfg : RateLimitConfig) (l : list (Z * Other)) (s : T) : T :=
  match l with
  | [] => s
  | (now, o) :: l => others cfg l (other cfg now o s)
  end.

(** The times of the calls, from [t0] to [t1], never going back. *)
Fixpoint between (t0 t1 : Z) (l : list (Z * Other)) : Prop :=
  match l with
  | [] => t0 ≤ t1
  | (now, _) :: l => t0 ≤ now ∧ between now t1 l
  end.

Lemma locked_of_result r : locked (of_result r) = negb (allowed r).
Proof. by destruct r. Qed.

Lemma between_le t0 t1 l : between t0 t1 l → t0 ≤ t1.
Proof.
  revert t0. induction l as [|[n o] l IH]; simpl; [done|]. intros t0 [? ?%IH]. lia.
Qed.

Section client.
Context `{L : RateLimiterLaws T cfg ok}.

(** A key that is not checked keeps its answer. *)
Lemma others_peek t0 t1 k l s :
  ok t0 s → between t0 t1 l → (∀ now o, (now, o) ∈ l → o ≠ OCheck k) →
  ∃ t, t0 ≤ t ≤ t1 ∧ ok t (others cfg l s)
       ∧ ∀ t', t1 ≤ t' → rl_peek t' k cfg (others cfg l s) = rl_peek t' k cfg s.
Proof using L.
  revert t0 s. induction l as [|[now o] l IH]; intros t0 s Hok Hb Ho.
  { exists t0. simpl in *. split_and!; done || lia. }
  destruct Hb as [Ht Hb]. pose proof (between_le _ _ _ Hb) as Hn. simpl.
  assert (o ≠ OCheck k) as Hk by (apply (Ho now); left).
  destruct (IH now (other cfg now o s)) as (t & Ht' & Hokt & Hp); [|done| |].
  - destruct o; simpl; [by eapply law_ok_check|by eapply law_ok_sweep].
  - intros now' o' ?. apply (Ho now'). by right.
  - exists t. split_and!; [lia|lia|done|]. intros t' Ht1. rewrite Hp by done.
    destruct o; simpl; [eapply law_other|eapply law_sweep]; try done; try lia. congruence.
Qed.

End client.

(** A failed login that passed the lock is never answered with the lock:
    when [isLocked] lets an identifier through, the [recordFailedLogin] of the
    same request, later and after any calls the other requests make on other
    keys or sweeps, returns [locked: false]. Proved against the interface, so
    it holds for the memory and the Redis limiter. *)
Theorem failed_login_not_locked {T} `{Ops : RateLimiterOps T} (cfg : LockoutConfig)
    (ok : Z → T → Prop) (L : RateLimiterLaws T (limits cfg) ok)
    (t0 t1 t2 : Z) (h : string) (l : list (Z * Other)) (s : T) :
  ok t0 s → t0 ≤ t1 → between t1 t2 l →
  (∀ now o, (now, o) ∈ l → o ≠ OCheck (LOCKOUT_KEY_PREFIX +:+ h)) →
  locked (isLocked t1 h cfg s) = false →
  locked (recordFailedLogin t2 h cfg (others (limits cfg) l s)).1 = false.
Proof.
  intros Hok Ht Hb Ho. unfold isLocked, recordFailedLogin; simpl. rewrite !locked_of_result.
  rewrite !negb_false_iff. intros Hp.
  pose proof (between_le _ _ _ Hb) as H12.
  destruct (others_peek t0 t2 (LOCKOUT_KEY_PREFIX +:+ h) l s) as (t & Ht' & Hokt & E); [done| |done|].
  { destruct l as [|[n o] l]; simpl in *; [lia|]. destruct Hb. split; [lia|done]. }
  erewrite law_peek_check by (done || lia). rewrite E by done.
  eapply law_peek_mono; [exact Hok|..]; done.
Qed.

End LoginLockout.

(** ** The limits that are enforced *)

Module Limits.
Import RateLimiter LoginLockout.
#[local] Existing Instances RedisRateLimiter.ops RedisStore.redis RedisStore.redis_laws.

(** In exact arithmetic the token bucket is the textbook one. Over any sequence of checks,
    peeks and sweeps whose times do not go back, the decisions are those of the
    reference in which every key has a level that starts full, grows at
    [per / window_seconds] up to [per] and pays one per allowed check: expiry of
    buckets, sweeping and the other keys change no decision. In double precision
    they are not: see [Doubles.polled_bucket_late]. *)
Theorem token_bucket_refines (cfg : RateLimitConfig) (t0 : Z) (l : list (Z * Call)) :
  config_ok cfg → clocked t0 l →
  (run cfg l ∅).1 = ref_run cfg l (ref_start cfg t0).
Proof.
  intros Hcfg Hc. eapply (run_simulates cfg Hcfg t0); [|..|done].
  - intros k b. by rewrite lookup_empty.
  - intros k t Ht. rewrite lookup_empty. unfold ref_level, ref_start; simpl.
    rewrite Q.min_l; [reflexivity|].
    pose proof (refill_nonneg cfg Hcfg (t - t0)). specialize (H ltac:(lia)). lra.
Qed.

(** [C28] How much gets through: between the times [t0] and that of the last
    call, at most [per] checks of a key plus [per] for every [window_seconds]
    elapsed are allowed, whatever the store held and whatever is done on the
    other keys (token counts being exact). *)
Theorem granted_bound (cfg : RateLimitConfig) (t0 : Z) (key : string) (l : list (Z * Call)) s :
  config_ok cfg → ok cfg t0 s → clocked t0 l →
  granted cfg key l s * window_seconds cfg
  ≤ per cfg * (window_seconds cfg + (last_call t0 l - t0)).
Proof.
  intros Hcfg Hok Hc. pose proof (granted_level cfg Hcfg t0 key l s Hok Hc) as Hg.
  destruct (level_bounds cfg Hcfg t0 (s !! key)) as [_ Hl]; [intros; by eapply Hok|].
  assert (0 < inject_Z (window_seconds cfg))%Q as Hw by (apply inject_Z_pos, Hcfg).
  rewrite Zle_Qle, !inject_Z_mult, inject_Z_plus.
  eapply Qle_trans; [apply Qmult_le_compat_r; [eapply Qle_trans; [exact Hg|]|lra]|].
  - apply Qplus_le_compat; [exact Hl|apply Qle_refl].
  - pose proof (refillRate_window cfg Hcfg) as E.
    set (w := inject_Z (window_seconds cfg)) in *. set (d := inject_Z (_ - _)).
    set (p := inject_Z (per cfg)) in *. set (r := refillRate cfg) in *.
    apply Qle_lteq. right. 
    transitivity (p * w + d * (w * r))%Q; [ring|]. rewrite E. ring.
Qed.

(** [retry_after_seconds] is exact and a refused caller is served: after a
    refusal at [now], whatever the others do meanwhile, the key is refused at
    every time before [now + retry_after_seconds] and let through at every time
    from then on, and the wait is at least one second. *)
Theorem retry_after_exact (cfg : RateLimitConfig) (now t r : Z) (key : string)
    (s s' : Buckets) (l : list (Z * Call)) :
  config_ok cfg → ok cfg now s → check now key cfg s = (Denied r, s') →
  clocked now l → last_call now l ≤ t → (∀ nc, nc ∈ l → nc.2 ≠ CCheck key) →
  1 ≤ r ∧ allowed (check t key cfg (run cfg l s').2).1 = bool_decide (now + r ≤ t).
Proof.
  intros Hcfg Hok E Hc Ht Hl.
  pose proof (check_level cfg Hcfg now key s Hok) as (Hok' & _ & Ha & _).
  assert (now ≤ t) as Hnt by (pose proof (last_call_le now l Hc); lia).
  pose proof (check_level_later cfg Hcfg now t key s Hok Hnt) as Hlater.
  rewrite E in *. cbn [fst snd allowed] in *.
  destruct (run_level cfg Hcfg now t key l s' Hok' Hc Hl Ht) as [Hokt Hlv].
  destruct (check_level cfg Hcfg t key _ Hokt) as (_ & _ & -> & _).
  destruct (level_bounds cfg Hcfg now (s !! key)) as [H0 _]; [intros; by eapply Hok|].
  rewrite Hlv, Hlater, retry_after_level by done.
  assert (r = retry_after cfg (level cfg now (s !! key))) as ->.
  { unfold check in E. destruct (prepared_level cfg Hcfg now (s !! key)) as [Hp _];
      [intros; by eapply Hok|].
    destruct (Qle_bool 1 _) in E; simplify_eq. unfold retry_after. by rewrite Hp. }
  split; [|done]. unfold retry_after. lia.
Qed.

(** How long a lockout lasts: whatever failures the store holds at [now], an
    identifier is let through again once [window / threshold] seconds passed
    without a recorded failure, the time one token takes to come back. For the default policy, five
    failures in fifteen minutes, that is three minutes. *)
Theorem lockout_lifts (cfg : LockoutConfig) (now t : Z) (h : string) (s : Buckets) :
  config_ok (limits cfg) → ok (limits cfg) now s → now ≤ t →
  lockout_window cfg ≤ threshold cfg * (t - now) →
  locked (isLocked t h cfg s) = false.
Proof.
  intros Hcfg Hok Ht Hw. unfold isLocked. rewrite locked_of_result, negb_false_iff.
  cbn [rl_peek ops]. assert (ok (limits cfg) t s) as Hok' by (eapply ok_mono; [done|lia]).
  rewrite peek_level by done. apply Qle_bool_iff.
  assert (1 <= inject_Z (per (limits cfg)))%Q as Hp
    by (change 1%Q with (inject_Z 1); rewrite <- Zle_Qle; apply Hcfg).
  destruct (s !! _) as [b|] eqn:E; [|done]. simpl. apply Q.min_glb; [done|].
  destruct (Hok _ _ E) as (Hb0 & _ & Hl & _).
  pose proof (refill_mono (limits cfg) Hcfg (t - now) (t - last_refill b) ltac:(lia)) as Hm.
  assert (1 <= inject_Z (t - now) * refillRate (limits cfg))%Q; [|lra].
  unfold refillRate; simpl. destruct Hcfg as [_ Hpos]; simpl in Hpos.
  setoid_replace (inject_Z (t - now) * (inject_Z (threshold cfg) / inject_Z (lockout_window cfg)))%Q
    with (inject_Z (threshold cfg * (t - now)) / inject_Z (lockout_window cfg))%Q using relation Qeq
    by (rewrite inject_Z_mult; unfold Qdiv; ring).
  apply Qle_shift_div_l; [by apply inject_Z_pos|].
  rewrite Qmult_1_l, <- Zle_Qle. done.
Qed.

(** *** Concrete runs *)

Definition five_failures : list (Z * Call) :=
  [(0, CCheck "lockout:a"); (0, CCheck "lockout:a"); (0, CCheck "lockout:b");
   (1, CCheck "lockout:a"); (1, CPeek "lockout:a"); (2, CSweep); (3, CCheck "lockout:a");
   (4, CCheck "lockout:a"); (4, CCheck "lockout:a"); (2000, CSweep); (2000, CCheck "lockout:a")].

Definition after_five : Buckets := (run (limits default_config) (take 9 five_failures) ∅).2.

Lemma ok_empty cfg t : ok cfg t ∅.
Proof. intros k b. by rewrite lookup_empty. Qed.

Lemma run_ok cfg t0 l s :
  config_ok cfg → ok cfg t0 s → clocked t0 l → ok cfg (last_call t0 l) (run cfg l s).2.
Proof.
  intros Hcfg. revert t0 s. induction l as [|[n c] l IH]; intros t0 s Hok; simpl; [done|].
  intros [? ?]. apply IH; [|done]. apply step_ok; [done|]. by eapply ok_mono.
Qed.

Lemma after_five_ok : ok (limits default_config) 4 after_five.
Proof. apply (run_ok _ 0); [done|apply ok_empty|]. simpl. lia. Qed.

(** In memory, and against a counter in Redis. *)
Lemma failed_login_not_locked_witness :
  locked (recordFailedLogin 7 "b" default_config
            (others (limits default_config) [(5, OCheck "lockout:c"); (6, OSweep)] after_five)).1 = false
  ∧ locked (recordFailedLogin 7 "b" default_config (recordFailedLogin 6 "b" default_config
            (∅ : RedisStore.Store)).2).1 = false.
Proof.
  split.
  - apply (failed_login_not_locked default_config (ok (limits default_config))
           (laws (limits default_config) ltac:(done)) 4 5 7).
    + exact after_five_ok.
    + lia.
    + simpl; lia.
    + intros now o Hin. vm_compute. intros ->.
      rewrite !elem_of_cons, elem_of_nil in Hin. naive_solver.
    + vm_compute. reflexivity.
  - apply (@failed_login_not_locked RedisStore.Store RedisRateLimiter.ops default_config (λ _ _, True)
           (RedisRateLimiter.laws (limits default_config) ltac:(done)) 6 6 7 "b" []).
    + exact I.
    + lia.
    + simpl; lia.
    + intros now o Hin%elem_of_nil. destruct Hin.
    + vm_compute. reflexivity.
Defined.

Lemma token_bucket_refines_witness :
  (run (limits default_config) five_failures ∅).1
  = ref_run (limits default_config) five_failures (ref_start (limits default_config) 0)
  ∧ (run (limits default_config) five_failures ∅).1
    = [Some true; Some true; Some true; Some true; Some true; None; Some true; Some true;
       Some false; None; Some true].
Proof.
  split; [apply (token_bucket_refines (limits default_config) 0 five_failures)|vm_compute; reflexivity].
  - done.
  - simpl. lia.
Defined.

Lemma granted_bound_witness :
  granted (limits default_config) "lockout:a" five_failures ∅ = 6
  ∧ granted (limits default_config) "lockout:a" five_failures ∅ * 900 ≤ 5 * (900 + 2000).
Proof.
  split; [vm_compute; reflexivity|].
  apply (granted_bound (limits default_config) 0 "lockout:a" five_failures ∅).
  - done.
  - apply ok_empty.
  - simpl. lia.
Defined.

Lemma retry_after_exact_witness :
  1 ≤ 176 ∧ allowed (check 180 "lockout:a" (limits default_config)
     (run (limits default_config) [(10, CCheck "lockout:b")]
        (check 4 "lockout:a" (limits default_config) after_five).2).2).1 = bool_decide (4 + 176 ≤ 180).
Proof.
  apply (retry_after_exact (limits default_config) 4 180 176 "lockout:a" after_five).
  - done.
  - exact after_five_ok.
  - vm_compute. reflexivity.
  - simpl. lia.
  - simpl. lia.
  - intros nc ->%list_elem_of_singleton. done.
Defined.

Lemma lockout_lifts_witness :
  locked (isLocked 4 "a" default_config after_five) = true
  ∧ locked (isLocked 184 "a" default_config after_five) = false.
Proof.
  split; [vm_compute; reflexivity|].
  apply (lockout_lifts default_config 4 184).
  - done.
  - exact after_five_ok.
  - lia.
  - vm_compute. discriminate.
Defined.

End Limits.

(** ** The bucket in double precision *)

Module Doubles.

(** IEEE 754 binary64, rounding to nearest, ties to even. *)
Definition f64 (n : Z) : spec_float := binary_normalize 53 1024 n 0 false.
Definition fadd : spec_float → spec_float → spec_float := SFadd 53 1024.
Definition fsub : spec_float → spec_float → spec_float := SFsub 53 1024.
Definition fmul : spec_float → spec_float → spec_float := SFmul 53 1024.
Definition fdiv : spec_float → spec_float → spec_float := SFdiv 53 1024.
Definition fmin (x y : spec_float) : spec_float := if SFltb x y then x else y.

Record Bucket := mkDouble { d_tokens : spec_float; d_last : Z; d_expires : Z }.

(** [check] on the bucket of one key: whether the call is allowed. *)
Definition check (now : Z) (cfg : RateLimitConfig) (ob : option Bucket) : bool * Bucket :=
  let refillRate := fdiv (f64 (per cfg)) (f64 (window_seconds cfg)) in
  let full := mkDouble (f64 (per cfg)) now (now + window_seconds cfg) in
  let b := match ob with
           | Some b => if bool_decide (d_expires b < now) then full else b
           | None => full
           end in
  let elapsed := now - d_last b in
  let b := if bool_decide (0 < elapsed)
           then mkDouble (fmin (f64 (per cfg)) (fadd (d_tokens b) (fmul (f64 elapsed) refillRate)))
                  now (d_expires b)
           else b in
  if SFleb (f64 1) (d_tokens b)
  then (true, mkDouble (fsub (d_tokens b) (f64 1)) (d_last b) (now + window_seconds cfg))
  else (false, mkDouble (d_tokens b) (d_last b) (now + window_seconds cfg)).

Fixpoint run (cfg : RateLimitConfig) (times : list Z) (ob : option Bucket) : list bool :=
  match times with
  | [] => []
  | now :: times => let '(ok, b) := check now cfg ob in ok :: run cfg times (Some b)
  end.

(** Ten approvals a minute, all used in one second, then one attempt a second: six
    seconds later the exact bucket has a token again, and the sum of the six
    rounded refills is below one. The caller is let through a second later. *)
Definition polled : list Z := repeat 0 10 ++ [1; 2; 3; 4; 5; 6; 7].

Example polled_bucket_late :
  run (mkConfig 10 60) polled None = repeat true 10 ++ [false; false; false; false; false; false; true] ∧
  (RateLimiter.run (mkConfig 10 60) ((λ t, (t, RateLimiter.CCheck "k")) <$> polled) ∅).1 =
    Some <$> (repeat true 10 ++ [false; false; false; false; false; true; false]).
Proof. split; vm_compute; reflexivity. Qed.

End Doubles.
