(* ===== verification/AuthState.v ===== *)
(** * The state of authentication: rows, tokens, epochs, settings
    ([src/database.ts] for the tables, [src/auth/jwt-keys.ts],
    [src/auth/jwt-mint.ts], [src/auth/token-epoch.ts],
    [src/auth/org-settings.ts], [src/auth/allowlist.ts])

    The handlers of authentication wait for signatures and for the identity
    provider, so other requests run in the middle of one. A handler is a sequence
    of segments; a segment runs to the next [await] without interruption and is a
    computation of the monad [Flow]: it reads and writes the tables and ends with
    a value, or early with an outcome (a response, or the point where it
    waits). *)

From S2P Require Import Prelude Paths.
Local Open Scope Z_scope.

(** ** Tables *)

(** A row of [refresh_tokens]. The columns [revoked_at], [expires_at] and
    [last_used_at] are the text of a number of seconds, [created_at] that of the
    clock of SQLite. The column [id], a second random identifier, is left out. *)
Record RefreshRow := mkRefresh {
  jti : string;
  rt_user : string;
  rt_org : string;
  family_id : option string;
  parent_jti : option string;
  revoked_at : option Z;
  revoked_reason : option string;
  consumer_fingerprint : option string;
  rt_expires_at : Z;
  last_used_at : option Z;
  replay_count : Z;
  rt_created_at : Z
}.

Definition set_revoked (now : Z) (reason : string) (r : RefreshRow) : RefreshRow :=
  mkRefresh (jti r) (rt_user r) (rt_org r) (family_id r) (parent_jti r) (Some now) (Some reason)
    (consumer_fingerprint r) (rt_expires_at r) (last_used_at r) (replay_count r) (rt_created_at r).

Definition set_parent (p : string) (r : RefreshRow) : RefreshRow :=
  mkRefresh (jti r) (rt_user r) (rt_org r) (family_id r) (Some p) (revoked_at r) (revoked_reason r)
    (consumer_fingerprint r) (rt_expires_at r) (last_used_at r) (replay_count r) (rt_created_at r).

Definition set_replay (n : Z) (r : RefreshRow) : RefreshRow :=
  mkRefresh (jti r) (rt_user r) (rt_org r) (family_id r) (parent_jti r) (revoked_at r)
    (revoked_reason r) (consumer_fingerprint r) (rt_expires_at r) (last_used_at r) n (rt_created_at r).

Record UserRow := mkUser {
  u_id : string;
  primary_org_id : string;
  email : string;
  u_name : option string;
  idp_provider : string;
  idp_user_id : string;
  idp_access_token : option string;
  idp_refresh_token : option string;
  u_role : string;
  last_login_at : option Z;
  token_epoch : Z
}.

Definition set_idp_tokens (a r : option string) (u : UserRow) : UserRow :=
  mkUser (u_id u) (primary_org_id u) (email u) (u_name u) (idp_provider u) (idp_user_id u)
    a r (u_role u) (last_login_at u) (token_epoch u).

Definition set_role (r : string) (u : UserRow) : UserRow :=
  mkUser (u_id u) (primary_org_id u) (email u) (u_name u) (idp_provider u) (idp_user_id u)
    (idp_access_token u) (idp_refresh_token u) r (last_login_at u) (token_epoch u).

Definition set_last_login (t : Z) (u : UserRow) : UserRow :=
  mkUser (u_id u) (primary_org_id u) (email u) (u_name u) (idp_provider u) (idp_user_id u)
    (idp_access_token u) (idp_refresh_token u) (u_role u) (Some t) (token_epoch u).

Definition set_epoch (e : Z) (u : UserRow) : UserRow :=
  mkUser (u_id u) (primary_org_id u) (email u) (u_name u) (idp_provider u) (idp_user_id u)
    (idp_access_token u) (idp_refresh_token u) (u_role u) (last_login_at u) e.

(** A row of [orgs]; [o_settings] holds the configuration columns that are not
    NULL, by name. *)
Record OrgRow := mkOrg {
  o_id : string;
  o_name : string;
  allowlist_github_org : option string;
  allowlist_idp_org_id : option string;
  o_settings : list (string * string)
}.

Record UserOrgRow := mkUserOrg { uo_user : string; uo_org : string; uo_role : string; joined_at : Z }.

Record AuditEvent := mkEvent { ev_action : string; ev_tier : Z; ev_detail : option string }.

(** The floors of [token-epoch.ts]: what the bus of the other instances said. *)
Record EpochFloor := mkFloor { global_floor : Z; floor_by_user : gmap string Z }.

Record Auth := mkAuth {
  refresh_tokens : list RefreshRow;
  users : list UserRow;
  orgs : list OrgRow;
  org_columns : list string;
  user_orgs : list UserOrgRow;
  revoked_agents : list (string * string);
  floor : EpochFloor;
  events : list AuditEvent;
  published : list (string * Z)
}.

Definition with_refresh (l : list RefreshRow) (s : Auth) : Auth :=
  mkAuth l (users s) (orgs s) (org_columns s) (user_orgs s) (revoked_agents s) (floor s) (events s) (published s).
Definition with_users (l : list UserRow) (s : Auth) : Auth :=
  mkAuth (refresh_tokens s) l (orgs s) (org_columns s) (user_orgs s) (revoked_agents s) (floor s) (events s) (published s).
Definition with_orgs (l : list OrgRow) (s : Auth) : Auth :=
  mkAuth (refresh_tokens s) (users s) l (org_columns s) (user_orgs s) (revoked_agents s) (floor s) (events s) (published s).
Definition with_user_orgs (l : list UserOrgRow) (s : Auth) : Auth :=
  mkAuth (refresh_tokens s) (users s) (orgs s) (org_columns s) l (revoked_agents s) (floor s) (events s) (published s).
Definition with_revoked_agents (l : list (string * string)) (s : Auth) : Auth :=
  mkAuth (refresh_tokens s) (users s) (orgs s) (org_columns s) (user_orgs s) l (floor s) (events s) (published s).
Definition with_floor (f : EpochFloor) (s : Auth) : Auth :=
  mkAuth (refresh_tokens s) (users s) (orgs s) (org_columns s) (user_orgs s) (revoked_agents s) f (events s) (published s).
Definition with_events (l : list AuditEvent) (s : Auth) : Auth :=
  mkAuth (refresh_tokens s) (users s) (orgs s) (org_columns s) (user_orgs s) (revoked_agents s) (floor s) l (published s).
Definition with_published (l : list (string * Z)) (s : Auth) : Auth :=
  mkAuth (refresh_tokens s) (users s) (orgs s) (org_columns s) (user_orgs s) (revoked_agents s) (floor s) (events s) l.

(** ** Segments

    [Flow O A]: state passing; the computation stops with an outcome [O] or goes
    on with a value. A statement that ran before the end stays. *)
Definition Flow (O A : Type) : Type := Auth → (O + A) * Auth.

Definition fret {O A} (a : A) : Flow O A := λ s, (inr a, s).
Definition fbind {O A B} (m : Flow O A) (k : A → Flow O B) : Flow O B :=
  λ s, match m s with
       | (inl o, s') => (inl o, s')
       | (inr a, s') => k a s'
       end.
Definition fstop {O A} (o : O) : Flow O A := λ s, (inl o, s).
Definition fgets {O A} (f : Auth → A) : Flow O A := λ s, (inr (f s), s).
Definition fmod {O} (f : Auth → Auth) : Flow O unit := λ s, (inr tt, f s).
Definition fwhen {O} (b : bool) (m : Flow O unit) : Flow O unit := if b then m else fret tt.

Declare Scope flow_scope.
Delimit Scope flow_scope with flow.
Notation "'let*' x ':=' m 'in' k" := (fbind m (λ x, k))
  (at level 200, x name, m at level 100, k at level 200, right associativity) : flow_scope.
Notation "'do*' m ';' k" := (fbind m (λ _, k))
  (at level 200, m at level 100, k at level 200, right associativity) : flow_scope.

(** [audit(action, { tier, metadata })]. The log itself is the subject of
    [AuditChain.v]; here the events are kept in order, and the INSERT of an entry
    does not fail. *)
Definition audit {O} (action : string) (tier : Z) (detail : option string) : Flow O unit :=
  fmod (λ s, with_events (events s ++ [mkEvent action tier detail]) s).

(** ** Tokens ([jose])

    A token is the text a key signed. [open] is what signature verification
    gives back; the checks the code asks of [jwtVerify] are written out. *)
Record Jwt := mkJwt {
  kid : option string;
  iss : option string;
  sub : option string;
  typ : option string;
  active_org_id : option string;
  j_family : option string;
  j_role : option string;
  j_jti : option string;
  iat : option Z;
  exp : option Z;
  service_account : bool;
  scope : option string;
  j_parent : option string;
  j_user_id : option string;
  j_org : option string
}.

Class Jose := {
  sign : string → Jwt → string;
  open : string → string → option Jwt;
  header_kid : string → option string;
  open_sign k j : open k (sign k j) = Some j;
  kid_sign k j : header_kid (sign k j) = kid j
}.

Definition ACCEPTED_KIDS : list string := ["hs256-v1"; "hs256-v0"].

Definition isAcceptedKid (k : string) : bool := bool_decide (k ∈ ACCEPTED_KIDS).

Record JwtKeyRegistry := mkRegistry { current_key : string; prev_key : option string }.

(** [buildJwtKeyRegistry]: a previous secret that is empty is not registered. *)
Definition getKey (reg : JwtKeyRegistry) (k : string) : option string :=
  if decide (k = "hs256-v1") then Some (current_key reg)
  else if decide (k = "hs256-v0") then prev_key reg
  else None.

Inductive VerifyResult := VOk (j : Jwt) | VExpired (j : Jwt) | VInvalid.

(** [jwtVerify] with one key: the signature, the issuer when one is asked for,
    and the expiry with its tolerance in seconds. *)
Definition jwtVerify_key `{Jose} (now : Z) (issuer : option string) (tolerance : Z)
    (key token : string) : VerifyResult :=
  match open key token with
  | None => VInvalid
  | Some j =>
      if match issuer with Some i => bool_decide (iss j = Some i) | None => true end
      then match exp j with
           | Some e => if bool_decide (e ≤ now - tolerance) then VExpired j else VOk j
           | None => VOk j
           end
      else VInvalid
  end.

(** [jwtVerify] with the key callback both verifiers use: the kid of the header
    must be on the allowlist and have a key. *)
Definition jwtVerify_kid `{Jose} (now : Z) (reg : JwtKeyRegistry) (issuer : string) (tolerance : Z)
    (token : string) : VerifyResult :=
  match header_kid token with
  | None => VInvalid
  | Some k =>
      if isAcceptedKid k then
        match getKey reg k with
        | Some key => jwtVerify_key now (Some issuer) tolerance key token
        | None => VInvalid
        end
      else VInvalid
  end.

(** *** [jwt-mint.ts] *)

Record AccessTokenClaims := mkAccess {
  ac_sub : string; ac_org : string; ac_family : string; ac_role : string;
  ac_service : bool; ac_scope : option string
}.

(** [iatOverride ?? now]: both pins resolve the expiry against the same second. *)
Definition mintAccessJWT (now : Z) (issuer : string) (c : AccessTokenClaims) (ttl : Z)
    (iatOverride : option Z) (token_id : string) : Jwt :=
  let t := default now iatOverride in
  mkJwt (Some "hs256-v1") (Some issuer) (Some (ac_sub c)) (Some "access") (Some (ac_org c))
    (Some (ac_family c)) (Some (ac_role c)) (Some token_id) (Some t) (Some (t + ttl))
    (ac_service c) (ac_scope c) None None None.

Record RefreshTokenClaims := mkRefreshClaims {
  rc_sub : string; rc_org : string; rc_family : string; rc_parent : option string
}.

Definition mintRefreshJWT (now : Z) (issuer : string) (c : RefreshTokenClaims) (ttl : Z)
    (iatOverride : option Z) (token_id : string) : Jwt :=
  let t := default now iatOverride in
  mkJwt (Some "hs256-v1") (Some issuer) (Some (rc_sub c)) (Some "refresh") (Some (rc_org c))
    (Some (rc_family c)) None (Some token_id) (Some t) (Some (t + ttl))
    false None (rc_parent c) None None.

(** ** Token epochs ([token-epoch.ts]) *)

Definition readTokenEpoch (s : Auth) (userId : string) : Z :=
  match select_one (λ u, u_id u = userId) (users s) with
  | Some u => token_epoch u
  | None => 0
  end.

(** The epoch is a number, or not finite. *)
Definition noteEpochBump (userId : string) (epoch : option Z) (f : EpochFloor) : EpochFloor :=
  match epoch with
  | None => f
  | Some e =>
      if decide (userId = "*") then
        mkFloor (if bool_decide (global_floor f < e) then e else global_floor f) (floor_by_user f)
      else
        let cur := default 0 (floor_by_user f !! userId) in
        mkFloor (global_floor f)
          (if bool_decide (cur < e) then <[userId := e]> (floor_by_user f) else floor_by_user f)
  end.

Definition getEpochFloor (f : EpochFloor) (userId : string) : Z :=
  global_floor f `max` default 0 (floor_by_user f !! userId).

(** [publishBump]: what is sent on the bus, whether or not one is connected. *)
Definition publishBump {O} (userId : string) (epoch : Z) : Flow O unit :=
  fmod (λ s, with_published (published s ++ [(userId, epoch)]) s).

Definition bump (now : Z) (u : UserRow) : UserRow := set_epoch (now `max` (token_epoch u + 1)) u.

(** [now] is the clock of SQLite. No row is the error of the source. *)
Definition bumpTokenEpoch {O} (now : Z) (userId : string) (fail : O) : Flow O Z :=
  (do* fmod (λ s, with_users (update_where (λ u, u_id u = userId) (bump now) (users s)) s);
   let* r := fgets (λ s, select_one (λ u, u_id u = userId) (users s)) in
   match r with
   | None => fstop fail
   | Some u => do* publishBump userId (token_epoch u); fret (token_epoch u)
   end)%flow.

Definition bumpTokenEpochAllUsers {O} (now : Z) : Flow O nat :=
  (let* n := fgets (λ s, length (users s)) in
   do* fmod (λ s, with_users (bump now <$> users s) s);
   do* publishBump "*" now;
   fret n)%flow.

(** The check of both verifiers: a token issued before the epoch is refused. *)
Definition epoch_of (s : Auth) (userId : string) : Z :=
  readTokenEpoch s userId `max` getEpochFloor (floor s) userId.

(** ** Settings of an organisation ([org-settings.ts]) *)

Definition key_char (first : bool) (a : ascii) : bool :=
  let n := Paths.code a in
  bool_decide ((97 ≤ n ∧ n ≤ 122) ∨ (65 ≤ n ∧ n ≤ 90) ∨ n = 95 ∨ (first = false ∧ 48 ≤ n ∧ n ≤ 57)).

Fixpoint all_key_chars (s : string) : bool :=
  match s with EmptyString => true | String a s => key_char false a && all_key_chars s end.

Definition VALID_KEY (s : string) : bool :=
  match s with EmptyString => false | String a s => key_char true a && all_key_chars s end.

Definition upper_ascii (a : ascii) : ascii :=
  let n := Paths.code a in if bool_decide (97 ≤ n ∧ n ≤ 122) then Paths.char (n - 32) else a.

Definition env_key (key : string) : string := "COORDINATOR_" +:+ Paths.map_string upper_ascii key.

(** [None] is the exception for an invalid key; the environment is a function. *)
Definition getOrgSetting (env : string → option string) (s : Auth) (orgId : option string)
    (key : string) (envDefault : option string) : option (option string) :=
  if negb (VALID_KEY key) then None
  else
    let from_db :=
      match truthy orgId with
      | None => None
      | Some o =>
          if bool_decide (key ∈ org_columns s) then
            r ← select_one (λ r, o_id r = o) (orgs s);
            snd <$> select_one (λ kv, kv.1 = key) (o_settings r)
          else None
      end in
    Some (match from_db with
          | Some v => Some v
          | None => match env (env_key key) with Some v => Some v | None => envDefault end
          end).

(** ** The allowlist ([allowlist.ts]) *)

Record AllowlistMatch := mkMatch { am_org : string; am_name : string; am_login : string }.

Definition org_login_le (a b : string * OrgRow) : Prop := str_le a.1 b.1.

#[global] Instance org_login_le_dec : RelDecision org_login_le.
Proof. intros a b. unfold org_login_le. apply _. Defined.

(** [ORDER BY login ASC LIMIT 1] over the rows whose login matches. *)
Definition first_match (login : OrgRow → option string) (P : string → bool) (l : list OrgRow)
    : option AllowlistMatch :=
  let hits := omap (λ r, match login r with
                         | Some g => if P (Paths.toLowerCase g) then Some (g, r) else None
                         | None => None end) l in
  match merge_sort org_login_le hits with
  | [] => None
  | (g, r) :: _ => Some (mkMatch (o_id r) (o_name r) g)
  end.

Definition resolveOrgFromIdpOrgId (s : Auth) (idpOrgId : string) : option AllowlistMatch :=
  first_match allowlist_idp_org_id (λ g, bool_decide (g = Paths.toLowerCase idpOrgId)) (orgs s).

Definition resolveOrgFromMemberships (s : Auth) (memberships : list string) : option AllowlistMatch :=
  match memberships with
  | [] => None
  | _ => first_match allowlist_github_org (λ g, bool_decide (g ∈ memberships)) (orgs s)
  end.

Lemma truthy_inv o x : truthy o = Some x → o = Some x.
Proof. by destruct o as [[]|]. Qed.

Lemma truthy_Some f : f ≠ "" → truthy (Some f) = Some f.
Proof. by destruct f. Qed.
