(* ===== verification/Rotation.v ===== *)
(** * Refresh token rotation and logout ([src/auth/refresh-rotation.ts],
    [src/auth/oauth-finalize.ts], [src/auth/logout.ts])

    The grant [refresh_token] as segments between the [await]s of the source:
    [begin] up to the first wait, [resume] from a wait to the next. A request in
    flight is a value of [Pending], which holds what the source keeps in local
    variables. The definitions follow the numbered steps of the source. *)

From S2P Require Import Prelude Paths AuthState.
Local Open Scope Z_scope.
Local Open Scope flow_scope.

Module Rotation.

Definition CLOCK_TOLERANCE_S : Z := 30.
Definition ACCESS_TTL_S : Z := 15 * 60.
Definition REFRESH_TTL_S : Z := 30 * 24 * 3600.
Definition GRACE_WINDOW_S : Z := 10.
Definition REPLAY_THRESHOLD : Z := 3.

(** ** What a segment gets from outside *)

(** The clock, the identifiers [crypto.randomUUID] gives in this segment, and
    the environment variables. *)
Record Env := mkEnv { now : Z; draw : nat → string; getenv : string → option string }.

Record Provider := mkProvider {
  p_strategy : option string;
  p_can_refresh : bool;
  p_can_list : bool
}.

Record EncryptionContext := mkEnc { ec_org : string; ec_column : string; ec_user : string }.

(** [DFailed]: [DecryptionError] or [UnknownCipherVersion]; [DThrew]: any other. *)
Inductive DecryptResult := DOk (s : string) | DFailed | DThrew.

Class Encryption := {
  encrypt : EncryptionContext → string → string;
  decrypt : EncryptionContext → string → DecryptResult
}.

(** What the encryption promises for the contexts that are in use: a text is
    recovered in the context it was sealed in, and in no other. *)
Class AuthenticatedEncryption `{Encryption} (in_use : EncryptionContext → Prop) := {
  decrypt_encrypt ec t : in_use ec → decrypt ec (encrypt ec t) = DOk t;
  decrypt_bound ec ec' t : in_use ec → in_use ec' → ec ≠ ec' → decrypt ec (encrypt ec' t) = DFailed
}.

#[global] Instance context_eq_dec : EqDecision EncryptionContext.
Proof. solve_decision. Defined.

Definition encryptNullable `{Encryption} (v : option string) (c : EncryptionContext) : option string :=
  encrypt c <$> truthy v.

(** [AuthHandlerContext], the fields the grant reads. *)
Record Ctx := mkCtx {
  issuer : string;
  registry : JwtKeyRegistry;
  providers : string → option Provider
}.

Inductive IdpError := IdPTokenRevoked | IdPTransientError | OtherError.

(** What comes back at the end of a wait. *)
Inductive Reply :=
  | Signed
  | Memberships (l : list string)
  | Refreshed (access : string) (refresh : option string)
  | Failed (e : IdpError).

(** ** Data kept across a wait *)

Record Claims := mkClaims { c_sub : string; c_jti : string; c_iat : Z }.

Record Mint := mkMint {
  m_user : string;
  m_org : string;
  m_role : string;
  m_family : string;
  m_jti : string;
  m_fingerprint : option string;
  m_expires : Z;
  m_now : Z;
  m_rotates : option string
}.

Record Check := mkCheck {
  k_claims : Claims;
  k_row : RefreshRow;
  k_fingerprint : option string;
  k_now : Z;
  k_user : option UserRow
}.

Inductive Pending :=
  | PMemberships (k : Check) (p : Provider) (refresh : option string)
  | PRefreshIdp (k : Check) (p : Provider) (refresh : string)
  | PRelist (k : Check) (p : Provider)
  | PDecide (k : Check) (performed matched : bool)
  | PRemintAccess (successor : RefreshRow) (access : Jwt)
  | PRemintRefresh (access refresh : Jwt)
  | PSignAccess (m : Mint) (access : Jwt)
  | PSignRefresh (m : Mint) (access refresh : Jwt)
  | PParent (m : Mint) (old : string) (access refresh : Jwt).

Inductive Response :=
  | RError (status : Z) (error description : string)
  | RTokens (access refresh : Jwt)
  | RStatus (status : Z)
  | RThrow.

Inductive Outcome := Wait (p : Pending) | Done (r : Response).

Notation Seg := (Flow Outcome).

Definition oauth_error {A} (status : Z) (error description : string) : Seg A :=
  fstop (Done (RError status error description)).

(** ** [parseDuration] *)

Definition digit (a : ascii) : option Z :=
  let n := Paths.code a in
  if bool_decide (48 ≤ n ∧ n ≤ 57) then Some (n - 48) else None.

(** The digits before the unit, which is the last character. *)
Fixpoint duration_from (acc : Z) (s : string) : option Z :=
  match s with
  | EmptyString => None
  | String u EmptyString =>
      if decide (u = "s"%char) then Some acc
      else if decide (u = "m"%char) then Some (acc * 60)
      else if decide (u = "h"%char) then Some (acc * 3600)
      else if decide (u = "d"%char) then Some (acc * 86400)
      else None
  | String a s => n ← digit a; duration_from (acc * 10 + n) s
  end.

Definition parseDuration (s : string) : option Z :=
  match s with
  | String a s => n ← digit a; duration_from n s
  | EmptyString => None
  end.

(** ** [computeFingerprint] *)
Definition computeFingerprint (sha256 : string → string) (ip userAgent : option string) : option string :=
  match truthy ip, truthy userAgent with
  | None, None => None
  | _, _ => Some (sha256 (default "" ip +:+ "|" +:+ default "" userAgent))
  end.

(** ** [mintTokenPair]: up to the first signature *)
Definition mintTokenPair (e : Env) (c : Ctx) (user org role : string) (family : option string)
    (fingerprint : option string) (rotates : option string) : Outcome :=
  let fam := default (draw e 0) family in
  let m := mkMint user org role fam (draw e 1) fingerprint (now e + REFRESH_TTL_S) (now e) rotates in
  Wait (PSignAccess m
    (mintAccessJWT (now e) (issuer c) (mkAccess user org fam role false None) ACCESS_TTL_S None (draw e 2))).

(** The row the INSERT of [mintTokenPair] writes. *)
Definition minted_row (created : Z) (m : Mint) : RefreshRow :=
  mkRefresh (m_jti m) (m_user m) (m_org m) (Some (m_family m)) None None None
    (m_fingerprint m) (m_expires m) (Some (m_now m)) 0 created.

(** INSERT INTO refresh_tokens: [jti] is UNIQUE. *)
Definition insert_refresh (r : RefreshRow) : Seg unit :=
  let* rows := fgets refresh_tokens in
  if bool_decide (jti r ∈ jti <$> rows) then fstop (Done RThrow)
  else fmod (λ s, with_refresh (refresh_tokens s ++ [r]) s).

(** ** [revokeFamilyForReuse] *)
Definition revokeFamilyForReuse (e : Env) (family : option string) (reason : string) : Seg unit :=
  match truthy family with
  | None => fret tt
  | Some f =>
      fmod (λ s, with_refresh
        (update_where (λ r, family_id r = Some f ∧ revoked_at r = None) (set_revoked (now e) reason)
           (refresh_tokens s)) s)
  end.

(** ** [handleReuseBranch] *)
Definition handleReuseBranch (e : Env) (c : Ctx) (k : Check) (recheckFailed : bool) : Seg Outcome :=
  let row := k_row k in
  let cl := k_claims k in
  let elapsed := now e - default 0 (revoked_at row) in
  let chain_revoked reason :=
    do* revokeFamilyForReuse e (family_id row) "reuse_detected";
    do* audit "auth.refresh.chain_revoked" 1 (Some reason);
    oauth_error 401 "invalid_grant" "Refresh token chain revoked" in
  if bool_decide (GRACE_WINDOW_S ≤ elapsed) || negb (bool_decide (revoked_reason row = Some "rotated"))
  then chain_revoked "hard_reuse"
  else
    let* successor := fgets (λ s, select_one (λ r, parent_jti r = Some (c_jti cl)) (refresh_tokens s)) in
    match successor with
    | None => chain_revoked "no_successor"
    | Some succ =>
        if bool_decide (k_fingerprint k ≠ None ∧ consumer_fingerprint succ ≠ None
                        ∧ consumer_fingerprint succ = k_fingerprint k)
        then
          if recheckFailed then
            do* revokeFamilyForReuse e (family_id row) "reuse_detected";
            do* audit "auth.login.denied.not_in_org" 1 (Some "refresh_grace");
            oauth_error 401 "invalid_grant" "User no longer in allowlisted org"
          else
            let iat0 := rt_expires_at succ - REFRESH_TTL_S in
            fret (Wait (PRemintAccess succ
              (mintAccessJWT (now e) (issuer c)
                 (mkAccess (rt_user succ) (rt_org succ) (default "" (family_id succ)) "member" false None)
                 ACCESS_TTL_S (Some iat0) (draw e 0))))
        else
          do* fmod (λ s, with_refresh
                (update_where (λ r, jti r = c_jti cl) (λ r, set_replay (replay_count r + 1) r)
                   (refresh_tokens s)) s);
          let* r := fgets (λ s, select_one (λ r, jti r = c_jti cl) (refresh_tokens s)) in
          match r with
          | None => fstop (Done RThrow)
          | Some r =>
              if bool_decide (REPLAY_THRESHOLD ≤ replay_count r)
              then chain_revoked "replay_threshold_hit"
              else
                do* audit "auth.refresh.suspicious_replay" 1 None;
                oauth_error 401 "invalid_grant" "Refresh token validation failed"
          end
    end.

(** ** Steps 1 to 6 *)

Definition extractRefreshToken (body : option (jsmap string)) : Seg string :=
  match body with
  | None => oauth_error 400 "invalid_request" "Could not parse body"
  | Some b =>
      match truthy (map_get "refresh_token" b) with
      | None => oauth_error 400 "invalid_request" "Missing refresh_token"
      | Some t => fret t
      end
  end.

Section segments.
Context `{Jose, Encryption} (c : Ctx).

Definition verifyRefreshJwt (e : Env) (token : string) : VerifyResult :=
  jwtVerify_kid (now e) (registry c) (issuer c) CLOCK_TOLERANCE_S token.

(** A token this server signed as a refresh token has a subject, an identifier
    and a time of issue; one without them is refused here. *)
Definition claims_of (j : Jwt) : option Claims :=
  s ← sub j; i ← j_jti j; t ← iat j; Some (mkClaims s i t).

Definition verifyAndValidateClaims (e : Env) (token : string) : Seg (Jwt * Claims) :=
  match verifyRefreshJwt e token with
  | VOk j =>
      if negb (bool_decide (typ j = Some "refresh")) then
        do* audit "auth.invalid_token" 2 (Some "wrong_token_type");
        oauth_error 400 "invalid_grant" "Token verification failed"
      else
        match claims_of j with
        | Some cl => fret (j, cl)
        | None => oauth_error 400 "invalid_grant" "Token verification failed"
        end
  | _ =>
      do* audit "auth.invalid_token" 2 None;
      oauth_error 400 "invalid_grant" "Token verification failed"
  end.

Definition checkNotServiceAccount (j : Jwt) : Seg unit :=
  if service_account j
  then oauth_error 400 "invalid_grant" "Service tokens do not rotate. Mint a new one via admin CLI."
  else fret tt.

Definition checkTokenEpoch (cl : Claims) : Seg unit :=
  let* epoch := fgets (λ s, epoch_of s (c_sub cl)) in
  if bool_decide (c_iat cl < epoch) then
    do* audit "auth.invalid_token" 2 (Some "token_epoch_exceeded");
    oauth_error 400 "invalid_grant" "Session invalidated by admin"
  else fret tt.

Definition selectRefreshRow (cl : Claims) : Seg RefreshRow :=
  let* row := fgets (λ s, select_one (λ r, jti r = c_jti cl) (refresh_tokens s)) in
  match row with
  | None =>
      do* audit "auth.invalid_token" 2 (Some "row_not_found");
      oauth_error 400 "invalid_grant" "Unknown refresh token"
  | Some r => fret r
  end.

(** UPDATE refresh_tokens ... WHERE jti = ? AND revoked_at IS NULL *)
Definition revoke_row (t : Z) (reason : string) (j : string) : Seg unit :=
  fmod (λ s, with_refresh
    (update_where (λ r, jti r = j ∧ revoked_at r = None) (set_revoked t reason) (refresh_tokens s)) s).

Definition checkIdleTimeout (e : Env) (cl : Claims) (row : RefreshRow) : Seg unit :=
  let* raw := fgets (λ s, getOrgSetting (getenv e) s (Some (rt_org row)) "session_idle_timeout" (Some "")) in
  match raw with
  | None => fstop (Done RThrow)
  | Some raw =>
      match truthy raw with
      | None => fret tt
      | Some v =>
          if decide (v = "0") then fret tt
          else
            match parseDuration v with
            | None => fstop (Done RThrow)
            | Some timeout =>
                let lastUsedAt := default (c_iat cl) (last_used_at row) in
                if bool_decide (timeout < now e - lastUsedAt) then
                  do* revoke_row (now e) "idle_expired" (c_jti cl);
                  do* audit "auth.refresh.idle_expired" 2 None;
                  oauth_error 400 "invalid_grant" "Session idle timeout"
                else fret tt
            end
      end
  end.

(** ** Step 7: [refreshIdpMembershipAndAllowlist] *)

Definition idp_rejected {A} : Seg A :=
  oauth_error 401 "invalid_grant" "Identity provider rejected the token".

(** The two stored tokens, decrypted; [inl] is the failure of either. *)
Definition decryptNullable (v : option string) (ec : EncryptionContext) : option DecryptResult :=
  decrypt ec <$> v.

Definition decrypt_tokens (e : Env) (row : RefreshRow) (u : UserRow) : Seg (option string * option string) :=
  let ec col := mkEnc (primary_org_id u) col (rt_user row) in
  let failed :=
    do* audit "encryption.decrypt.failed" 1 None;
    do* bumpTokenEpoch (now e) (rt_user row) (Done RThrow);
    do* audit "auth.idp.token_revoked" 1 (Some "refresh_decrypt_failed");
    idp_rejected in
  match decryptNullable (idp_access_token u) (ec "idp_access_token") with
  | Some DFailed => failed
  | Some DThrew => fstop (Done RThrow)
  | None | Some (DOk _) =>
      let access := match decryptNullable (idp_access_token u) (ec "idp_access_token") with
                    | Some (DOk a) => Some a | _ => None end in
      match decryptNullable (idp_refresh_token u) (ec "idp_refresh_token") with
      | Some DFailed => failed
      | Some DThrew => fstop (Done RThrow)
      | Some (DOk r) => fret (access, Some r)
      | None => fret (access, None)
      end
  end.

Definition recheckSupported (p : option Provider) : option Provider :=
  p ← p; if decide (default "memberships" (p_strategy p) = "memberships") then Some p else None.

(** The start of step 7, up to the call of the membership cache. *)
Definition refreshIdpMembershipAndAllowlist (e : Env) (cl : Claims) (row : RefreshRow)
    (fp : option string) : Seg Outcome :=
  let* userRow := fgets (λ s, select_one (λ u, u_id u = rt_user row) (users s)) in
  let k := mkCheck cl row fp (now e) userRow in
  let* tokens :=
    match userRow with
    | Some u => if decide (primary_org_id u = "") then fret (None, None) else decrypt_tokens e row u
    | None => fret (None, None)
    end in
  let p := u ← userRow; name ← truthy (Some (idp_provider u)); providers c name in
  match truthy tokens.1, recheckSupported p with
  | Some _, Some p => fret (Wait (PMemberships k p tokens.2))
  | _, _ => fret (Wait (PDecide k false false))
  end.

(** No memberships could be read. *)
Definition recheck_failed (err : IdpError) : Seg Outcome :=
  match err with
  | IdPTokenRevoked =>
      do* audit "auth.idp.token_revoked" 1 (Some "refresh_membership_check");
      idp_rejected
  | IdPTransientError =>
      oauth_error 503 "temporarily_unavailable" "Identity provider unavailable"
  | OtherError => fstop (Done RThrow)
  end.

(** The allowlist is asked with the memberships that were read. *)
Definition recheck_memberships (k : Check) (l : list string) : Seg Outcome :=
  let* m := fgets (λ s, resolveOrgFromMemberships s l) in
  let matched := bool_decide (m ≠ None) in
  if negb matched && bool_decide (revoked_at (k_row k) = None) then
    do* revoke_row (k_now k) "admin" (c_jti (k_claims k));
    do* audit "auth.login.denied.not_in_org" 1 (Some "refresh_rotation");
    oauth_error 401 "invalid_grant" "User is not in any allowlisted org"
  else fret (Wait (PDecide k true matched)).

(** The tokens the provider gave in exchange are stored. *)
Definition store_idp_tokens (k : Check) (access : string) (refresh : option string) (old : string)
    : Seg unit :=
  let user := rt_user (k_row k) in
  let org := default "" (primary_org_id <$> k_user k) in
  do* fmod (λ s, with_users
        (update_where (λ u, u_id u = user)
           (set_idp_tokens
              (encryptNullable (Some access) (mkEnc org "idp_access_token" user))
              (encryptNullable (Some (default old refresh)) (mkEnc org "idp_refresh_token" user)))
           (users s)) s);
  audit "auth.idp.token_refreshed" 2 None.

(** ** Step 9: [rotateRefreshToken] *)

Definition valid_role (r : option string) : string :=
  match r with
  | Some r => if bool_decide (r ∈ ["admin"; "member"; "service"]) then r else "member"
  | None => "member"
  end.

Definition rotateRefreshToken (e : Env) (k : Check) : Seg Outcome :=
  let cl := k_claims k in
  let row := k_row k in
  let* n := fgets (λ s, changes (λ r, jti r = c_jti cl ∧ revoked_at r = None) (refresh_tokens s)) in
  do* revoke_row (k_now k) "rotated" (c_jti cl);
  if negb (bool_decide (n = 1%nat))
  then oauth_error 400 "invalid_grant" "Rotation race; please retry"
  else fret (mintTokenPair e c (rt_user row) (rt_org row) (valid_role (u_role <$> k_user k))
               (family_id row) (k_fingerprint k) (Some (c_jti cl))).

(** ** The segments of [refreshTokenGrant] *)

Definition begin (e : Env) (body : option (jsmap string)) (fp : option string) : Seg Outcome :=
  let* token := extractRefreshToken body in
  let* jc := verifyAndValidateClaims e token in
  let cl := jc.2 in
  do* checkNotServiceAccount jc.1;
  do* checkTokenEpoch cl;
  let* row := selectRefreshRow cl in
  do* checkIdleTimeout e cl row;
  refreshIdpMembershipAndAllowlist e cl row fp.

Definition resume (e : Env) (p : Pending) (r : Reply) : Seg Outcome :=
  match p, r with
  | PMemberships k p refresh, Memberships l => recheck_memberships k l
  | PMemberships k p refresh, Failed err =>
      match err, refresh with
      | IdPTokenRevoked, Some t =>
          if p_can_refresh p then fret (Wait (PRefreshIdp k p t)) else recheck_failed err
      | _, _ => recheck_failed err
      end
  | PRefreshIdp k p old, Refreshed access refresh =>
      do* store_idp_tokens k access refresh old;
      if p_can_list p then fret (Wait (PRelist k p)) else recheck_failed OtherError
  | PRefreshIdp k p old, Failed err => recheck_failed err
  | PRelist k p, Memberships l => recheck_memberships k l
  | PRelist k p, Failed err => recheck_failed err
  | PDecide k performed matched, _ =>
      match revoked_at (k_row k) with
      | Some _ => handleReuseBranch e c k (performed && negb matched)
      | None => rotateRefreshToken e k
      end
  | PRemintAccess succ access, Signed =>
      fret (Wait (PRemintRefresh access
        (mintRefreshJWT (now e) (issuer c)
           (mkRefreshClaims (rt_user succ) (rt_org succ) (default "" (family_id succ)) (parent_jti succ))
           REFRESH_TTL_S (Some (rt_expires_at succ - REFRESH_TTL_S)) (jti succ))))
  | PRemintRefresh access refresh, Signed => fret (Done (RTokens access refresh))
  | PSignAccess m access, Signed =>
      fret (Wait (PSignRefresh m access
        (mintRefreshJWT (now e) (issuer c) (mkRefreshClaims (m_user m) (m_org m) (m_family m) None)
           REFRESH_TTL_S None (m_jti m))))
  | PSignRefresh m access refresh, Signed =>
      do* insert_refresh (minted_row (now e) m);
      match m_rotates m with
      | Some old => fret (Wait (PParent m old access refresh))
      | None => fret (Done (RTokens access refresh))
      end
  | PParent m old access refresh, _ =>
      let* rows := fgets refresh_tokens in
      if bool_decide (Exists (λ r, jti r ≠ m_jti m ∧ parent_jti r = Some old) rows)
      then fstop (Done RThrow)
      else
        do* fmod (λ s, with_refresh
              (update_where (λ r, jti r = m_jti m) (set_parent old) (refresh_tokens s)) s);
        do* audit "auth.refresh.rotated" 2 None;
        fret (Done (RTokens access refresh))
  | p, _ => fret (Wait p)
  end.

End segments.

Definition run_seg (m : Seg Outcome) (s : Auth) : Outcome * Auth :=
  match m s with
  | (inl o, s') => (o, s')
  | (inr o, s') => (o, s')
  end.

(** ** Logout ([logout.ts])

    The segment after the caller was authenticated and, for [handleLogoutAll],
    let through by the limiter. *)

Record Caller := mkCaller { ca_user : string; ca_role : string; ca_family : option string }.

Definition handleLogout (e : Env) (ca : Caller) : Seg Outcome :=
  do* match truthy (ca_family ca) with
      | Some f =>
          fmod (λ s, with_refresh
            (update_where (λ r, family_id r = Some f ∧ revoked_at r = None) (set_revoked (now e) "logout")
               (refresh_tokens s)) s)
      | None => fret tt
      end;
  do* audit "auth.logout.local" 2 None;
  fret (Done (RStatus 204)).

Definition handleLogoutAll (e : Env) (ca : Caller) : Seg Outcome :=
  do* bumpTokenEpoch (now e) (ca_user ca) (Done RThrow);
  do* fmod (λ s, with_refresh
        (update_where (λ r, rt_user r = ca_user ca ∧ revoked_at r = None)
           (set_revoked (now e) "logout_all") (refresh_tokens s)) s);
  do* audit "auth.logout.global" 1 None;
  fret (Done (RStatus 204)).

(** The token is decoded, not verified; [token_jti] is the identifier it claims. *)
Definition handleRevoke (e : Env) (ca : Caller) (token_jti : option string) : Seg Outcome :=
  let ok := fret (Done (RStatus 200)) in
  match truthy token_jti with
  | None => ok
  | Some j =>
      let* row := fgets (λ s, select_one (λ r, jti r = j) (refresh_tokens s)) in
      match row with
      | None => ok
      | Some r =>
          if bool_decide (revoked_at r ≠ None) then ok
          else if bool_decide (rt_user r ≠ ca_user ca ∧ ca_role ca ≠ "admin") then ok
          else
            do* revoke_row (now e) "admin" j;
            do* audit "auth.token.revoked" 1 None;
            ok
      end
  end.

End Rotation.
