(* ===== verification/AuthInstances.v ===== *)
(** * Instances of the interfaces of authentication

    A signature scheme that keeps the laws of [Jose] (the text carries the key
    and the token) and the encryption that does nothing
    ([PassthroughEncryption]): they show that the interfaces can be met, and the
    runs of the other files compute with them. *)

From S2P Require Import Prelude Paths AuthState Rotation.
Local Open Scope Z_scope.

Module AuthInstances.
Import Rotation.

Fixpoint bits (p : positive) : string :=
  match p with
  | xH => "1"
  | xO p => String "0" (bits p)
  | xI p => String "i" (bits p)
  end.

Fixpoint unbits (s : string) : option positive :=
  match s with
  | EmptyString => None
  | String a s =>
      if decide (a = "1"%char) then (if decide (s = "") then Some xH else None)
      else
        p ← unbits s;
        if decide (a = "0"%char) then Some (xO p)
        else if decide (a = "i"%char) then Some (xI p) else None
  end.

Definition JwtT : Type :=
  option string * option string * option string * option string * option string *
  (option string * option string * option string) * (option Z * option Z * bool) *
  (option string * option string * option string * option string).

Definition to_tuple (j : Jwt) : JwtT :=
  (kid j, iss j, sub j, typ j, active_org_id j, (j_family j, j_role j, j_jti j),
   (iat j, exp j, service_account j), (scope j, j_parent j, j_user_id j, j_org j)).

Definition of_tuple (t : JwtT) : Jwt :=
  let '(a, b, c, d, e, (f, g, h), (i, j, k), (l, m, n, o)) := t in
  mkJwt a b c d e f g h i j k l m n o.

Definition toy_sign (key : string) (j : Jwt) : string := bits (encode (key, to_tuple j)).

Definition toy_decode (t : string) : option (string * JwtT) := p ← unbits t; decode p.

Lemma unbits_bits p : unbits (bits p) = Some p.
Proof.
  by induction p as [p IH|p IH|]; [| |done]; simpl; rewrite IH.
Qed.

Lemma toy_decode_sign k j : toy_decode (toy_sign k j) = Some (k, to_tuple j).
Proof. unfold toy_decode, toy_sign. rewrite unbits_bits. simpl. by rewrite decode_encode. Qed.

Definition toy_open (key t : string) : option Jwt :=
  '(k, j) ← toy_decode t; if decide (k = key) then Some (of_tuple j) else None.

Definition toy_kid (t : string) : option string := '(_, j) ← toy_decode t; kid (of_tuple j).

Lemma toy_open_sign k j : toy_open k (toy_sign k j) = Some j.
Proof. unfold toy_open. rewrite toy_decode_sign. simpl. rewrite decide_True by done. by destruct j. Qed.

Lemma toy_kid_sign k j : toy_kid (toy_sign k j) = kid j.
Proof. unfold toy_kid. rewrite toy_decode_sign. simpl. by destruct j. Qed.

#[export] Instance toy_jose : Jose := {|
  sign := toy_sign;
  open := toy_open;
  header_kid := toy_kid;
  open_sign := toy_open_sign;
  kid_sign := toy_kid_sign
|}.

#[export] Instance passthrough : Encryption := {|
  encrypt _ s := s;
  decrypt _ s := DOk s
|}.

End AuthInstances.
