(* ===== verification/Envelope.v ===== *)
(** * Encryption at rest ([src/security/envelope-encryption.ts],
    [src/security/encryption.ts])

    A stored token is sealed under a key of its own, which is sealed under the
    master key, and bound to the row and the column it is for. AES-GCM is an
    interface; base64url and the layout of the bytes are written out. A text is
    its UTF-8 bytes. *)

From S2P Require Import Prelude Paths Rotation.
Local Open Scope Z_scope.

Module Envelope.
Import Rotation.

Definition Buffer : Type := list ascii.

Definition bytes (s : string) : Buffer := String.list_ascii_of_string s.
Definition text (b : Buffer) : string := String.string_of_list_ascii b.

(** ** [toString("base64url")] and [Buffer.from(s, "base64url")] *)

Definition Sextet : Type := bool * bool * bool * bool * bool * bool.

Definition sextet_value (x : Sextet) : Z :=
  let '(a, b, c, d, e, f) := x in
  32 * Z.b2z a + 16 * Z.b2z b + 8 * Z.b2z c + 4 * Z.b2z d + 2 * Z.b2z e + Z.b2z f.

(** [A-Za-z0-9-_] *)
Definition b64_char (x : Sextet) : ascii :=
  let n := sextet_value x in
  if n <? 26 then Paths.char (65 + n)
  else if n <? 52 then Paths.char (71 + n)
  else if n <? 62 then Paths.char (n - 4)
  else if n <? 63 then "-"%char else "_"%char.

Definition of_value (n : Z) : Sextet :=
  (Z.testbit n 5, Z.testbit n 4, Z.testbit n 3, Z.testbit n 2, Z.testbit n 1, Z.testbit n 0).

(** Both alphabets are read, whichever of the two encodings is named. *)
Definition b64_value (a : ascii) : option Sextet :=
  let n := Paths.code a in
  if bool_decide (65 ≤ n ∧ n ≤ 90) then Some (of_value (n - 65))
  else if bool_decide (97 ≤ n ∧ n ≤ 122) then Some (of_value (n - 71))
  else if bool_decide (48 ≤ n ∧ n ≤ 57) then Some (of_value (n + 4))
  else if bool_decide (n = 45 ∨ n = 43) then Some (of_value 62)
  else if bool_decide (n = 95 ∨ n = 47) then Some (of_value 63)
  else None.

Fixpoint to_base64url (b : Buffer) : Buffer :=
  match b with
  | Ascii x0 x1 x2 x3 x4 x5 x6 x7 :: Ascii y0 y1 y2 y3 y4 y5 y6 y7 :: Ascii z0 z1 z2 z3 z4 z5 z6 z7 :: r =>
      b64_char (x7, x6, x5, x4, x3, x2) :: b64_char (x1, x0, y7, y6, y5, y4) ::
      b64_char (y3, y2, y1, y0, z7, z6) :: b64_char (z5, z4, z3, z2, z1, z0) :: to_base64url r
  | [Ascii x0 x1 x2 x3 x4 x5 x6 x7; Ascii y0 y1 y2 y3 y4 y5 y6 y7] =>
      [b64_char (x7, x6, x5, x4, x3, x2); b64_char (x1, x0, y7, y6, y5, y4); b64_char (y3, y2, y1, y0, false, false)]
  | [Ascii x0 x1 x2 x3 x4 x5 x6 x7] => [b64_char (x7, x6, x5, x4, x3, x2); b64_char (x1, x0, false, false, false, false)]
  | [] => []
  end.

(** A character of neither alphabet is skipped, and [=] ends the text. *)
Fixpoint sextets (s : Buffer) : list Sextet :=
  match s with
  | [] => []
  | a :: s =>
      if decide (a = "="%char) then []
      else match b64_value a with Some x => x :: sextets s | None => sextets s end
  end.

(** The bits that do not fill a byte are dropped. *)
Fixpoint pack (l : list Sextet) : Buffer :=
  match l with
  | (x7, x6, x5, x4, x3, x2) :: (x1, x0, y7, y6, y5, y4) :: (y3, y2, y1, y0, z7, z6) :: (z5, z4, z3, z2, z1, z0) :: r =>
      Ascii x0 x1 x2 x3 x4 x5 x6 x7 :: Ascii y0 y1 y2 y3 y4 y5 y6 y7 :: Ascii z0 z1 z2 z3 z4 z5 z6 z7 :: pack r
  | [(x7, x6, x5, x4, x3, x2); (x1, x0, y7, y6, y5, y4); (y3, y2, y1, y0, _, _)] =>
      [Ascii x0 x1 x2 x3 x4 x5 x6 x7; Ascii y0 y1 y2 y3 y4 y5 y6 y7]
  | [(x7, x6, x5, x4, x3, x2); (x1, x0, _, _, _, _)] => [Ascii x0 x1 x2 x3 x4 x5 x6 x7]
  | _ => []
  end.

Definition of_base64url (s : Buffer) : Buffer := pack (sextets s).

(** ** The version prefix *)

Definition PREFIX_V1 : string := "enc:v1:".

Fixpoint strip (p s : string) : option string :=
  match p, s with
  | EmptyString, _ => Some s
  | String a p, String b s => if Ascii.eqb a b then strip p s else None
  | String _ _, EmptyString => None
  end.

Definition is_digit (a : ascii) : bool := bool_decide (48 ≤ Paths.code a ∧ Paths.code a ≤ 57).

(** At most [n] digits and a colon. *)
Fixpoint digits_colon (n : nat) (s : string) : option string :=
  match s with
  | EmptyString => None
  | String a s =>
      if Ascii.eqb a ":" then Some ""
      else match n with
           | S n => if is_digit a then String a <$> digits_colon n s else None
           | O => None
           end
  end.

(** [/^enc:v([1-9]\d{0,2}):/]: the version, or nothing. *)
Definition VERSION_RE (c : string) : option string :=
  match strip "enc:v" c with
  | Some (String a r) => if is_digit a && negb (Ascii.eqb a "0") then String a <$> digits_colon 2 r else None
  | _ => None
  end.

(** ** [EnvelopeEncryption] *)

(** AES-256-GCM: key, nonce, additional data, text; the ciphertext and the tag. *)
Class Aead := {
  gcm_seal : Buffer → Buffer → Buffer → Buffer → Buffer * Buffer;
  gcm_open : Buffer → Buffer → Buffer → Buffer → Buffer → option Buffer
}.

(** What the mode is defined to do: it opens what was sealed, and nothing that
    was not; the tag has sixteen bytes and the ciphertext the length of the text. *)
Class AeadLaws `{Aead} := {
  gcm_complete k n a t : gcm_open k n a (gcm_seal k n a t).1 (gcm_seal k n a t).2 = Some t;
  gcm_sound k n a c g t : gcm_open k n a c g = Some t → gcm_seal k n a t = (c, g);
  gcm_text_length k n a t : length (gcm_seal k n a t).1 = length t;
  gcm_tag_length k n a t : length (gcm_seal k n a t).2 = 16%nat
}.

Definition uint16be (n : nat) : Buffer :=
  [Paths.char (Z.of_nat n / 256); Paths.char (Z.of_nat n mod 256)].

(** [None] is the exception for a field that is too long. *)
Definition aad (c : EncryptionContext) : option Buffer :=
  let org := bytes (ec_org c) in
  let col := bytes (ec_column c) in
  let usr := bytes (ec_user c) in
  if bool_decide (65535 < Z.of_nat (length org) ∨ 65535 < Z.of_nat (length col) ∨ 65535 < Z.of_nat (length usr)) then None
  else Some (Paths.char 1 :: uint16be (length org) ++ org ++ uint16be (length col) ++ col ++
             uint16be (length usr) ++ usr).

(** The random bytes of a call. *)
Record Draws := mkDraws { dek : Buffer; nonceData : Buffer; nonceDek : Buffer }.

Section envelope.
Context `{Aead} (masterKey : Buffer).

Definition encrypt (d : Draws) (plaintext : string) (c : EncryptionContext) : option string :=
  a ← aad c;
  let '(ciphertext, tagData) := gcm_seal (dek d) (nonceData d) a (bytes plaintext) in
  let '(wrappedDek, tagDek) := gcm_seal masterKey (nonceDek d) [] (dek d) in
  let blob := nonceDek d ++ tagDek ++ wrappedDek ++ nonceData d ++ tagData ++ ciphertext in
  Some (PREFIX_V1 +:+ text (to_base64url blob)).

Inductive DecryptionError := MalformedCiphertext | UnknownCipherVersion | DEKUnwrapFailed | DataDecryptFailed.

(** The blob of a ciphertext of version 1, opened. An exception of [aad] is one of
    the [try] block. *)
Definition open_blob (blob : Buffer) (c : EncryptionContext) : DecryptionError + string :=
  if bool_decide (length blob < 88)%nat then inl MalformedCiphertext
  else
    match gcm_open masterKey (take 12 blob) [] (take 32 (drop 28 blob)) (take 16 (drop 12 blob)) with
    | None => inl DEKUnwrapFailed
    | Some dek =>
        match aad c with
        | None => inl DataDecryptFailed
        | Some a =>
            match gcm_open dek (take 12 (drop 60 blob)) a (drop 88 blob) (take 16 (drop 72 blob)) with
            | None => inl DataDecryptFailed
            | Some pt => inr (text pt)
            end
        end
    end.

Definition decrypt (ciphertext : string) (c : EncryptionContext) : DecryptionError + string :=
  match VERSION_RE ciphertext with
  | None => if startsWith "enc:v" ciphertext then inl MalformedCiphertext else inr ciphertext
  | Some v =>
      if decide (v = "1") then open_blob (of_base64url (drop 7 (bytes ciphertext))) c
      else inl UnknownCipherVersion
  end.

End envelope.

(** ** The codec is lossless *)

Lemma b64_value_char x : b64_value (b64_char x) = Some x.
Proof. destruct x as [[[[[[] []] []] []] []] []]; reflexivity. Qed.

Lemma b64_char_not_pad x : b64_char x ≠ "="%char.
Proof. destruct x as [[[[[[] []] []] []] []] []]; discriminate. Qed.

Lemma sextets_cons x s : sextets (b64_char x :: s) = x :: sextets s.
Proof. cbn [sextets]. rewrite decide_False by apply b64_char_not_pad. by rewrite b64_value_char. Qed.

Lemma of_to_base64url b : of_base64url (to_base64url b) = b.
Proof.
  unfold of_base64url. remember (length b) as n eqn:E. revert b E.
  induction n as [n IH] using (well_founded_induction Wf_nat.lt_wf). intros b ->.
  destruct b as [|[] [|[] [|[] r]]]; cbn [to_base64url]; rewrite ?sextets_cons; [done..|].
  cbn [pack]. do 3 f_equal. eapply IH; [|done]. simpl. lia.
Qed.

Lemma bytes_text b : bytes (text b) = b.
Proof. apply String.list_ascii_of_string_of_list_ascii. Qed.
Lemma text_bytes s : text (bytes s) = s.
Proof. apply String.string_of_list_ascii_of_string. Qed.
Lemma bytes_inj s t : bytes s = bytes t → s = t.
Proof. intros E. by rewrite <- (text_bytes s), E, text_bytes. Qed.

End Envelope.
