(* ===== verification/EnvelopeSafety.v ===== *)
(** * What the envelope guarantees *)

From S2P Require Import Prelude Paths Rotation Envelope.
Local Open Scope Z_scope.

Module EnvelopeSafety.
Import Rotation Envelope.

(** ** The additional data determines the context *)

Lemma code_char n : 0 ≤ n < 256 → Paths.code (Paths.char n) = n.
Proof. intros Hn. unfold Paths.code, Paths.char. rewrite Ascii.N_ascii_embedding; lia. Qed.

Lemma halves z : 0 ≤ z ≤ 65535 → 0 ≤ z / 256 < 256 ∧ 0 ≤ z mod 256 < 256 ∧ z = 256 * (z / 256) + z mod 256.
Proof. intros Hz. pose proof (Z.div_mod z 256 ltac:(lia)). pose proof (Z.mod_pos_bound z 256 ltac:(lia)). lia. Qed.

Lemma uint16be_inj m n x y :
  Z.of_nat m ≤ 65535 → Z.of_nat n ≤ 65535 → uint16be m ++ x = uint16be n ++ y → m = n ∧ x = y.
Proof.
  intros Hm Hn. destruct (halves (Z.of_nat m)) as (? & ? & ?); [lia|]. destruct (halves (Z.of_nat n)) as (? & ? & ?); [lia|].
  unfold uint16be. cbn [app]. intros E. injection E as Eq Er ->. split; [|done].
  apply (f_equal Paths.code) in Eq, Er. rewrite !code_char in Eq, Er by lia. lia.
Qed.

(** A field with its length in front of it, before anything else. *)
Lemma field_inj m n x x' y y' :
  Z.of_nat (length x) ≤ 65535 → Z.of_nat (length x') ≤ 65535 → m = length x → n = length x' →
  uint16be m ++ x ++ y = uint16be n ++ x' ++ y' → x = x' ∧ y = y'.
Proof. intros Hx Hx' -> -> [El E]%uint16be_inj; [|done..]. by apply app_inj_1 in E. Qed.

Lemma aad_Some c a :
  aad c = Some a →
  (Z.of_nat (length (bytes (ec_org c))) ≤ 65535 ∧ Z.of_nat (length (bytes (ec_column c))) ≤ 65535 ∧
   Z.of_nat (length (bytes (ec_user c))) ≤ 65535) ∧
  a = Paths.char 1 :: uint16be (length (bytes (ec_org c))) ++ bytes (ec_org c) ++
        uint16be (length (bytes (ec_column c))) ++ bytes (ec_column c) ++
        uint16be (length (bytes (ec_user c))) ++ bytes (ec_user c) ++ [].
Proof.
  unfold aad. destruct (bool_decide _) eqn:Eb; [done|]. apply bool_decide_eq_false in Eb. intros [= <-].
  rewrite app_nil_r. split; [lia|done].
Qed.

Lemma aad_inj c c' a : aad c = Some a → aad c' = Some a → c = c'.
Proof.
  intros ((? & ? & ?) & ->)%aad_Some ((? & ? & ?) & E)%aad_Some. apply (f_equal tail) in E. cbn [tail] in E.
  apply field_inj in E as [Eo E]; [|done..]. apply field_inj in E as [Ec E]; [|done..].
  apply field_inj in E as [Eu _]; [|done..]. apply bytes_inj in Eo, Ec, Eu. destruct c, c'; simpl in *; congruence.
Qed.

(** ** Layout *)

Definition drawn (d : Draws) : Prop :=
  length (dek d) = 32%nat ∧ length (nonceData d) = 12%nat ∧ length (nonceDek d) = 12%nat.

Section layout.
Context (n g w m h c : Buffer).
Hypothesis (Hn : length n = 12%nat) (Hg : length g = 16%nat) (Hw : length w = 32%nat)
  (Hm : length m = 12%nat) (Hh : length h = 16%nat).

Lemma layout :
  let blob := n ++ g ++ w ++ m ++ h ++ c in
  length blob = (88 + length c)%nat ∧ take 12 blob = n ∧ take 16 (drop 12 blob) = g ∧ take 32 (drop 28 blob) = w ∧
  take 12 (drop 60 blob) = m ∧ take 16 (drop 72 blob) = h ∧ drop 88 blob = c.
Proof.
  cbv zeta. split; [rewrite !length_app; lia|]. split; [by rewrite take_app_length'|].
  rewrite (drop_app_length' n) by lia. split; [by rewrite take_app_length'|].
  rewrite (drop_app_add' n _ 12 16), (drop_app_length' g) by lia. split; [by rewrite take_app_length'|].
  rewrite (drop_app_add' n _ 12 48), (drop_app_add' g _ 16 32), (drop_app_length' w) by lia.
  split; [by rewrite take_app_length'|].
  rewrite (drop_app_add' n _ 12 60), (drop_app_add' g _ 16 44), (drop_app_add' w _ 32 12), (drop_app_length' m) by lia.
  split; [by rewrite take_app_length'|].
  by rewrite (drop_app_add' n _ 12 76), (drop_app_add' g _ 16 60), (drop_app_add' w _ 32 28),
    (drop_app_add' m _ 12 16), (drop_app_length' h) by lia.
Qed.
End layout.

Section envelope.
Context `{AeadLaws}.

(** A text was sealed under a key, a nonce and additional data; under another key
    or other additional data some text seals to the same ciphertext and tag, so
    that the two uses cannot be told apart. *)
Definition collision (n k a t k' a' : Buffer) : Prop :=
  (k, a) ≠ (k', a') ∧ ∃ t', gcm_seal k n a t = gcm_seal k' n a' t'.

(** The blob that [encrypt] writes is the one [decrypt] opens. *)
Lemma decrypt_blob key blob c : decrypt key (PREFIX_V1 +:+ text (to_base64url blob)) c = open_blob key blob c.
Proof.
  unfold decrypt. change (VERSION_RE (PREFIX_V1 +:+ text (to_base64url blob))) with (Some "1").
  change (drop 7 (bytes (PREFIX_V1 +:+ text (to_base64url blob)))) with (bytes (text (to_base64url blob))).
  cbv iota. rewrite decide_True by done. by rewrite bytes_text, of_to_base64url.
Qed.

Lemma open_sealed key key' d t a c :
  drawn d → aad c = Some a →
  ∃ v, encrypt key d t c = Some v ∧ ∀ c',
    decrypt key' v c' =
      match gcm_open key' (nonceDek d) [] (gcm_seal key (nonceDek d) [] (dek d)).1 (gcm_seal key (nonceDek d) [] (dek d)).2 with
      | None => inl DEKUnwrapFailed
      | Some k =>
          match aad c' with
          | None => inl DataDecryptFailed
          | Some a' =>
              match gcm_open k (nonceData d) a' (gcm_seal (dek d) (nonceData d) a (bytes t)).1
                      (gcm_seal (dek d) (nonceData d) a (bytes t)).2 with
              | None => inl DataDecryptFailed
              | Some pt => inr (text pt)
              end
          end
      end.
Proof.
  intros (Hk & Hd & Hn) Ea. unfold encrypt. rewrite Ea. cbn [mbind option_bind].
  pose proof (gcm_tag_length (dek d) (nonceData d) a (bytes t)) as Ht.
  pose proof (gcm_tag_length key (nonceDek d) [] (dek d)) as Ht'.
  pose proof (gcm_text_length key (nonceDek d) [] (dek d)) as Hw. rewrite Hk in Hw.
  destruct (gcm_seal (dek d) (nonceData d) a (bytes t)) as [ct tag]. destruct (gcm_seal key (nonceDek d) [] (dek d)) as [w g].
  simpl in *. eexists. split; [done|]. intros c'. rewrite decrypt_blob.
  destruct (layout (nonceDek d) g w (nonceData d) tag ct Hn Ht' Hw Hd Ht) as (El & E1 & E2 & E3 & E4 & E5 & E6).
  unfold open_blob. rewrite El, E1, E2, E3, E4, E5, E6. rewrite bool_decide_eq_false_2 by lia. done.
Qed.

Lemma gcm_seal_inj k n a t t' : gcm_seal k n a t = gcm_seal k n a t' → t = t'.
Proof. intros E. pose proof (gcm_complete k n a t) as Hc. rewrite E, gcm_complete in Hc. congruence. Qed.

(** What opens was sealed just so. *)
Lemma gcm_open_other k k' n a a' t :
  gcm_open k' n a' (gcm_seal k n a t).1 (gcm_seal k n a t).2 = None ∨
  gcm_open k' n a' (gcm_seal k n a t).1 (gcm_seal k n a t).2 = Some t ∧ k' = k ∧ a' = a ∨
  collision n k a t k' a'.
Proof.
  destruct (gcm_open k' _ _ _ _) as [t'|] eqn:E; [|by left]. right.
  apply gcm_sound in E. rewrite <- surjective_pairing in E.
  destruct (decide ((k, a) = (k', a'))) as [[= -> ->]|Hne]; [left|right; split; [done|by exists t']].
  apply gcm_seal_inj in E as ->. done.
Qed.

Lemma decrypt_sealed key d t c v : drawn d → encrypt key d t c = Some v → decrypt key v c = inr t.
Proof.
  intros Hd Ev. destruct (aad c) as [a|] eqn:Ea; [|unfold encrypt in Ev; by rewrite Ea in Ev].
  destruct (open_sealed key key d t a c Hd Ea) as (v' & Ev' & E). assert (v' = v) as -> by congruence.
  by rewrite E, gcm_complete, Ea, gcm_complete, text_bytes.
Qed.

Lemma decrypt_other_key key key' d t c v c' :
  drawn d → encrypt key d t c = Some v → key' ≠ key →
  decrypt key' v c' = inl DEKUnwrapFailed ∨ collision (nonceDek d) key [] (dek d) key' [].
Proof.
  intros Hd Ev Hk. destruct (aad c) as [a|] eqn:Ea; [|unfold encrypt in Ev; by rewrite Ea in Ev].
  destruct (open_sealed key key' d t a c Hd Ea) as (v' & Ev' & E). assert (v' = v) as -> by congruence. rewrite E.
  destruct (gcm_open_other key key' (nonceDek d) [] [] (dek d)) as [->|[(_ & ? & _)|?]]; [by left|done|by right].
Qed.
End envelope.

(** [C37] A token is recovered. Whatever the key, the random bytes and the text,
    what was sealed for a row and column is opened, in the same context, to the
    same text. *)
Theorem envelope_roundtrip `{AeadLaws} key d t c v :
  drawn d → encrypt key d t c = Some v → decrypt key v c = inr t.
Proof. apply decrypt_sealed. Qed.

(** A token opens where it belongs and nowhere else. Under another key it
    fails at the wrapped key, and under the same key for another organisation,
    column or user it fails at the data, each with its own error; otherwise AES-GCM
    seals some text, under the other key or for the other context, to the very
    bytes it sealed this key or this token to. *)
Theorem envelope_opens `{AeadLaws} key d t c v key' c' :
  drawn d → encrypt key d t c = Some v →
  decrypt key' v c' =
    (if decide (key' ≠ key) then inl DEKUnwrapFailed
     else if decide (c' ≠ c) then inl DataDecryptFailed else inr t) ∨
  collision (nonceDek d) key [] (dek d) key' [] ∨
  ∃ a a', aad c = Some a ∧ aad c' = Some a' ∧ collision (nonceData d) (dek d) a (bytes t) (dek d) a'.
Proof.
  intros Hd Ev. destruct (decide (key' ≠ key)) as [Hk|Hk].
  { destruct (decrypt_other_key key key' d t c v c' Hd Ev Hk); [by left|by right; left]. }
  apply dec_stable in Hk as ->. destruct (decide (c' ≠ c)) as [Hc|Hc].
  2: { apply dec_stable in Hc as ->. left. by eapply decrypt_sealed. }
  destruct (aad c) as [a|] eqn:Ea; [|unfold encrypt in Ev; by rewrite Ea in Ev].
  destruct (open_sealed key key d t a c Hd Ea) as (v' & Ev' & E). assert (v' = v) as -> by congruence.
  rewrite E, gcm_complete.
  destruct (aad c') as [a'|] eqn:Ea'; [|by left].
  destruct (gcm_open_other (dek d) (dek d) (nonceData d) a a' (bytes t)) as [->|[(_ & _ & ->)|?]]; [by left| |].
  2: { right. right. by exists a, a'. }
  destruct Hc. exact (aad_inj _ _ _ Ea' Ea).
Qed.

(** ** The envelope as the encryption of the authentication *)

(** [draws] are the random bytes of each call; a context that does not fit is not
    in use. *)
Definition envelope `{Aead} (key : Buffer) (draws : EncryptionContext → string → Draws) : Encryption := {|
  Rotation.encrypt ec t := default "" (encrypt key (draws ec t) t ec);
  Rotation.decrypt ec v := match decrypt key v ec with inr t => DOk t | inl _ => DFailed end
|}.

(** The contexts fit, and the mode tells their additional data apart. *)
Definition told_apart `{Aead} (in_use : EncryptionContext → Prop) : Prop :=
  (∀ ec, in_use ec → aad ec ≠ None) ∧
  ∀ ec ec' a a' k n t t', in_use ec → in_use ec' → aad ec = Some a → aad ec' = Some a' →
    gcm_seal k n a t = gcm_seal k n a' t' → a = a'.

Lemma envelope_authenticated `{AeadLaws} key draws in_use :
  (∀ ec t, drawn (draws ec t)) → told_apart in_use → @AuthenticatedEncryption (envelope key draws) in_use.
Proof.
  intros Hd [Hfit Hapart]. split.
  - intros ec t Hu. simpl. destruct (aad ec) as [a|] eqn:Ea; [|by destruct (Hfit ec)].
    destruct (open_sealed key key (draws ec t) t a ec (Hd ec t) Ea) as (v & -> & E). simpl.
    by rewrite E, gcm_complete, Ea, gcm_complete, text_bytes.
  - intros ec ec' t Hu Hu' Hne. simpl. destruct (aad ec') as [a'|] eqn:Ea'; [|by destruct (Hfit ec')].
    destruct (open_sealed key key (draws ec' t) t a' ec' (Hd ec' t) Ea') as (v & -> & E). simpl.
    rewrite E, gcm_complete. destruct (aad ec) as [a|] eqn:Ea; [|done].
    destruct (gcm_open _ _ a _ _) as [t'|] eqn:Eo; [|done]. apply gcm_sound in Eo. rewrite <- surjective_pairing in Eo.
    destruct Hne. rewrite (Hapart _ _ _ _ _ _ _ _ Hu Hu' Ea Ea' Eo) in Ea. exact (aad_inj _ _ _ Ea Ea').
Qed.

(** ** A mode that meets the laws

    The text in the clear, and the first bytes of the additional data for a tag. *)

Definition toy_tag (a : Buffer) : Buffer := take 16 (a ++ replicate 16 "0"%char).

Definition toy_aead : Aead := {|
  gcm_seal k n a t := (t, toy_tag a);
  gcm_open k n a c g := if decide (g = toy_tag a) then Some c else None
|}.

Lemma toy_aead_laws : @AeadLaws toy_aead.
Proof.
  split; cbn; intros k n a.
  - intros t. by rewrite decide_True.
  - intros c g t. by destruct (decide _) as [->|]; intros [= ->].
  - done.
  - intros _. unfold toy_tag. rewrite length_take, length_app, length_replicate. lia.
Qed.

Definition toy_draws : Draws := mkDraws (replicate 32 "k"%char) (replicate 12 "n"%char) (replicate 12 "m"%char).
Lemma toy_drawn : drawn toy_draws.
Proof. by repeat split. Qed.

Definition demo_context (org : string) : EncryptionContext := mkEnc org "idp_access_token" "ada".

Lemma envelope_roundtrip_witness :
  ∃ v, @encrypt toy_aead (bytes "key") toy_draws "gho_token" (demo_context "acme") = Some v ∧
    @decrypt toy_aead (bytes "key") v (demo_context "acme") = inr "gho_token".
Proof.
  eexists. split; [vm_compute; reflexivity|].
  refine (@envelope_roundtrip toy_aead toy_aead_laws (bytes "key") toy_draws "gho_token" (demo_context "acme") _ toy_drawn _).
  vm_compute. reflexivity.
Defined.

Lemma envelope_opens_witness :
  ∃ v, @encrypt toy_aead (bytes "key") toy_draws "gho_token" (demo_context "acme") = Some v ∧
    (@decrypt toy_aead (bytes "key") v (demo_context "beta") = inl DataDecryptFailed ∨
     @collision toy_aead (nonceDek toy_draws) (bytes "key") [] (dek toy_draws) (bytes "key") [] ∨
     ∃ a a', aad (demo_context "acme") = Some a ∧ aad (demo_context "beta") = Some a' ∧
       @collision toy_aead (nonceData toy_draws) (dek toy_draws) a (bytes "gho_token") (dek toy_draws) a').
Proof.
  eexists. split; [vm_compute; reflexivity|].
  refine (@envelope_opens toy_aead toy_aead_laws (bytes "key") toy_draws "gho_token" (demo_context "acme") _ (bytes "key")
    (demo_context "beta") toy_drawn _).
  vm_compute. reflexivity.
Defined.

End EnvelopeSafety.
