(* ===== verification/ServiceTokens.v ===== *)
(** * Service tokens ([src/auth/service-tokens.ts])

    Long-lived tokens for machines. They are rows of [refresh_tokens] in a family
    named after them; a request that presents one is checked against its row. *)

From S2P Require Import Prelude Paths AuthState Rotation.
Local Open Scope Z_scope.
Local Open Scope flow_scope.

Module ServiceTokens.
Import Rotation.

Definition SERVICE_TOKEN_MAX_TTL_S : Z := 90 * 86400.
Definition SERVICE_TOKEN_MIN_REASON_LEN : nat := 10.

(** [^service:[0-9a-f-]{36}$] on the text after the prefix. *)
Definition family_char (a : ascii) : bool :=
  let n := Paths.code a in
  bool_decide ((48 ≤ n ∧ n ≤ 57) ∨ (97 ≤ n ∧ n ≤ 102) ∨ n = 45).

Fixpoint all_family_chars (s : string) : bool :=
  match s with EmptyString => true | String a s => family_char a && all_family_chars s end.

Definition uuid_shape (s : string) : bool :=
  bool_decide (String.length s = 36%nat) && all_family_chars s.

(** [family_id LIKE 'service:%'], which does not look at case. *)
Definition service_family (r : RefreshRow) : Prop :=
  match family_id r with
  | Some f => startsWith "service:" (Paths.toLowerCase f) = true
  | None => False
  end.

#[global] Instance service_family_dec r : Decision (service_family r).
Proof. unfold service_family. destruct (family_id r); apply _. Defined.

Record IssueOptions := mkIssue {
  targetUserId : string;
  targetOrgId : string;
  i_scope : string;
  ttlSeconds : Z;
  reason : string;
  issuedByAdminId : string
}.

Inductive ServiceError :=
  | INVALID_TTL | TTL_EXCEEDS_MAX | REASON_TOO_SHORT | INVALID_SCOPE
  | USER_NOT_FOUND | USER_NOT_IN_ORG | INTERNAL | SQLITE_CONSTRAINT.

Record IssuedServiceToken := mkIssued {
  is_jti : string; is_token : Jwt; is_family : string; is_expires : Z
}.

Definition service_row (e : Env) (o : IssueOptions) (fam j : string) : RefreshRow :=
  mkRefresh j (targetUserId o) (targetOrgId o) (Some fam) None None None None
    (now e + ttlSeconds o) (Some (now e)) 0 (now e).

(** The token is signed after the row is written; nothing is written later. *)
Definition issueServiceToken (e : Env) (iss : string) (o : IssueOptions)
    : Flow ServiceError IssuedServiceToken :=
  if bool_decide (ttlSeconds o ≤ 0) then fstop INVALID_TTL
  else if bool_decide (SERVICE_TOKEN_MAX_TTL_S < ttlSeconds o) then fstop TTL_EXCEEDS_MAX
  else if bool_decide (utf16_length (reason o) < SERVICE_TOKEN_MIN_REASON_LEN)%nat then fstop REASON_TOO_SHORT
  else if negb (bool_decide (i_scope o ∈ ["read"; "write"; "admin"])) then fstop INVALID_SCOPE
  else
    let* u := fgets (λ s, select_one (λ u, u_id u = targetUserId o) (users s)) in
    match u with
    | None => fstop USER_NOT_FOUND
    | Some u =>
        let* member := fgets (λ s,
          bool_decide (primary_org_id u = targetOrgId o)
          || bool_decide (select_one (λ m, uo_user m = targetUserId o ∧ uo_org m = targetOrgId o)
                            (user_orgs s) ≠ None)) in
        if negb member then fstop USER_NOT_IN_ORG
        else
          let fam := "service:" +:+ draw e 0 in
          if negb (uuid_shape (draw e 0)) then fstop INTERNAL
          else
            let j := draw e 1 in
            let* rows := fgets refresh_tokens in
            if bool_decide (j ∈ jti <$> rows) then fstop SQLITE_CONSTRAINT
            else
              do* fmod (λ s, with_refresh (refresh_tokens s ++ [service_row e o fam j]) s);
              fret (mkIssued j
                (mintAccessJWT (now e) iss
                   (mkAccess (targetUserId o) (targetOrgId o) fam "service" true (Some (i_scope o)))
                   (ttlSeconds o) None j)
                fam (now e + ttlSeconds o))
    end.

Record ListOptions := mkList { activeOnly : bool; userId : option string; orgId : option string }.

Definition listed (o : ListOptions) (r : RefreshRow) : Prop :=
  service_family r
  ∧ (if activeOnly o then revoked_at r = None else True)
  ∧ match truthy (userId o) with Some u => rt_user r = u | None => True end
  ∧ match truthy (orgId o) with Some g => rt_org r = g | None => True end.

#[global] Instance listed_dec o r : Decision (listed o r).
Proof.
  unfold listed. repeat apply and_dec; try apply _.
  - destruct (activeOnly o); apply _.
  - destruct (truthy (userId o)); apply _.
  - destruct (truthy (orgId o)); apply _.
Defined.

Definition newer (a b : RefreshRow) : Prop := rt_created_at b ≤ rt_created_at a.

#[global] Instance newer_dec : RelDecision newer.
Proof. intros a b. unfold newer. apply _. Defined.

Definition listServiceTokens (s : Auth) (o : ListOptions) : list RefreshRow :=
  merge_sort newer (select (listed o) (refresh_tokens s)).

Definition revokeServiceToken {O} (e : Env) (j : string) : Flow O bool :=
  let P := λ r, jti r = j ∧ service_family r ∧ revoked_at r = None in
  let* n := fgets (λ s, changes P (refresh_tokens s)) in
  do* fmod (λ s, with_refresh (update_where P (set_revoked (now e) "admin") (refresh_tokens s)) s);
  fret (bool_decide (0 < n)%nat).

Definition verifyServiceTokenJti (s : Auth) (j : string) : bool :=
  match select_one (λ r, jti r = j ∧ service_family r) (refresh_tokens s) with
  | None => false
  | Some r => bool_decide (revoked_at r = None)
  end.

End ServiceTokens.
