(* ===== verification/RotationSafety.v ===== *)
(** * Safety of refresh token rotation under interleaving

    The system: the tables, the requests in flight, and the families that were
    ever given to a token. A step runs one segment of one request. The weight of
    a family is the number of its live tokens plus the number of successors that
    are being signed: no step raises it, so a family has at most one live token
    and a family without one stays so. *)

From S2P Require Import Prelude Paths AuthState Rotation ServiceTokens.
Local Open Scope Z_scope.

Module RotationSafety.
Import Rotation ServiceTokens.

(** ** The system *)

(** Two records of the past that the code does not keep: [fam], the family of
    every token identifier that was drawn, and [spent], the identifiers that were
    ever rows. *)
Record Sys := mkSys {
  auth : Auth;
  inflight : list Pending;
  fam : gmap string (option string);
  spent : list string
}.

Definition next (s : Sys) (a : Auth) (l : list Pending) (g : gmap string (option string)) : Sys :=
  mkSys a l g ((jti <$> refresh_tokens a) ++ spent s).

Definition pend (o : Outcome) : list Pending := match o with Wait p => [p] | Done _ => [] end.

Definition record_mint (o : Outcome) (f : gmap string (option string)) : gmap string (option string) :=
  match o with
  | Wait (PSignAccess m _) => <[m_jti m := Some (m_family m)]> f
  | _ => f
  end.

(** What [crypto.randomUUID] is relied on for: a token identifier and a family
    identifier that were never given. *)
Definition fresh (e : Env) (s : Sys) : Prop :=
  fam s !! draw e 1 = None
  ∧ (∀ j, fam s !! j ≠ Some (Some (draw e 0)))
  ∧ (∀ j, fam s !! j ≠ Some (Some ("service:" +:+ draw e 0))).

(** What the retention sweep may delete: revoked or expired rows. *)
Definition sweepable (t : Z) (r : RefreshRow) : Prop :=
  (∃ x, revoked_at r = Some x ∧ x < t) ∨ (revoked_at r = None ∧ rt_expires_at r < t).

Section system.
Context `{Jose, Encryption} (c : Ctx).

Inductive step : Sys → Sys → Prop :=
  | SBegin s e body fp o a :
      run_seg (begin c e body fp) (auth s) = (o, a) →
      step s (next s a (inflight s ++ pend o) (fam s))
  | SResume s i p e r o a :
      inflight s !! i = Some p → fresh e s →
      run_seg (resume c e p r) (auth s) = (o, a) →
      step s (next s a (delete i (inflight s) ++ pend o) (record_mint o (fam s)))
  | SLogin s e user org role fp :
      fresh e s →
      let o := mintTokenPair e c user org role None fp None in
      step s (next s (auth s) (inflight s ++ pend o) (record_mint o (fam s)))
  | SLogout s e ca :
      step s (next s (run_seg (handleLogout e ca) (auth s)).2 (inflight s) (fam s))
  | SLogoutAll s e ca :
      step s (next s (run_seg (handleLogoutAll e ca) (auth s)).2 (inflight s) (fam s))
  | SRevoke s e ca j :
      step s (next s (run_seg (handleRevoke e ca j) (auth s)).2 (inflight s) (fam s))
  | SIssue s e iss o t a :
      fresh e s → issueServiceToken e iss o (auth s) = (inr t, a) →
      step s (next s a (inflight s) (<[draw e 1 := Some ("service:" +:+ draw e 0)]> (fam s)))
  | SIssueError s e iss o err a :
      issueServiceToken e iss o (auth s) = (inl err, a) →
      step s (next s a (inflight s) (fam s))
  | SRevokeService s e j :
      step s (next s (revokeServiceToken (O := Outcome) e j (auth s)).2 (inflight s) (fam s))
  | SSweep s t rows :
      rows `sublist_of` refresh_tokens (auth s) →
      (∀ r, r ∈ refresh_tokens (auth s) → r ∉ rows → sweepable t r) →
      step s (next s (with_refresh rows (auth s)) (inflight s) (fam s))
  | SGiveUp s i :
      step s (next s (auth s) (delete i (inflight s)) (fam s)).

Inductive steps : Sys → Sys → Prop :=
  | steps_refl s : steps s s
  | steps_step s s' s'' : step s s' → steps s' s'' → steps s s''.

(** A server that starts without sessions. *)
Definition initial (s : Sys) : Prop :=
  refresh_tokens (auth s) = [] ∧ inflight s = [] ∧ fam s = ∅ ∧ spent s = [].

Definition reachable (s : Sys) : Prop := ∃ s0, initial s0 ∧ steps s0 s.

End system.

(** ** Weight of a family *)

Definition live_in (f : string) (r : RefreshRow) : Prop := family_id r = Some f ∧ revoked_at r = None.

Definition live (f : string) (a : Auth) : nat := length (filter (live_in f) (refresh_tokens a)).

(** A successor that is being signed will be a live token. *)
Definition pw (f : string) (p : Pending) : nat :=
  match p with
  | PSignAccess m _ | PSignRefresh m _ _ => if decide (m_family m = f) then 1 else 0
  | _ => 0
  end.

Definition pws (f : string) (l : list Pending) : nat := sum_list_with (pw f) l.

Definition weight (f : string) (s : Sys) : nat := live f (auth s) + pws f (inflight s).

(** ** Rows only change towards revocation *)

Definition row_le (r r' : RefreshRow) : Prop :=
  jti r' = jti r ∧ family_id r' = family_id r
  ∧ (revoked_at r ≠ None → revoked_at r' = revoked_at r ∧ revoked_reason r' = revoked_reason r).

Definition evolves (s s' : Auth) : Prop := Forall2 row_le (refresh_tokens s) (refresh_tokens s').

#[global] Instance row_le_preorder : PreOrder row_le.
Proof.
  split; [intros r; unfold row_le; naive_solver|].
  intros a b d (J1 & F1 & R1) (J2 & F2 & R2). split_and!; [congruence|congruence|].
  intros Hr. destruct (R1 Hr) as [E1 E1']. destruct R2 as [E2 E2']; [congruence|].
  split; congruence.
Qed.

#[global] Instance evolves_preorder : PreOrder evolves.
Proof.
  unfold evolves. split; [intros s; reflexivity|]. intros a b d ? ?. etransitivity; eassumption.
Qed.

(** ** A logic of segments: from a state that evolved from [s0], a segment ends
    in one, with an outcome in [Q] or a value in [QA]. *)
Definition seg {A} (s0 : Auth) (m : Flow Outcome A) (Q : Outcome → Prop) (QA : A → Prop) : Prop :=
  ∀ s, evolves s0 s →
  evolves s0 (m s).2 ∧ match (m s).1 with inl o => Q o | inr a => QA a end.

Section logic.
Context (s0 : Auth) (Q : Outcome → Prop).

Lemma seg_ret {A} (a : A) (QA : A → Prop) : QA a → seg s0 (fret a) Q QA.
Proof. intros Ha s Hs. split; simpl; done. Qed.

Lemma seg_stop {A} o (QA : A → Prop) : Q o → seg s0 (fstop o) Q QA.
Proof. intros Ho s Hs. split; simpl; done. Qed.

Lemma seg_bind {A B} (m : Flow Outcome A) (k : A → Flow Outcome B) QA QB :
  seg s0 m Q QA → (∀ a, QA a → seg s0 (k a) Q QB) → seg s0 (fbind m k) Q QB.
Proof.
  intros Hm Hk s Hs. unfold fbind. destruct (Hm s Hs) as [He Ho].
  destruct (m s) as [[o|a] s']; simpl in *; [done|]. by apply Hk.
Qed.

Lemma seg_gets {A} (f : Auth → A) (QA : A → Prop) :
  (∀ s, evolves s0 s → QA (f s)) → seg s0 (fgets f) Q QA.
Proof. intros Hf s Hs. split; simpl; auto. Qed.

Lemma seg_mod f (QA : unit → Prop) :
  (∀ s, evolves s (f s)) → QA tt → seg s0 (fmod f) Q QA.
Proof. intros Hf Ha s Hs. split; simpl; [|done]. by etransitivity. Qed.

Lemma seg_weaken {A} (m : Flow Outcome A) (QA QA' : A → Prop) :
  seg s0 m Q QA → (∀ a, QA a → QA' a) → seg s0 m Q QA'.
Proof.
  intros Hm Hw s Hs. destruct (Hm s Hs) as [He Ho]. split; [done|].
  destruct (m s).1; auto.
Qed.

Lemma seg_audit a t d : seg s0 (audit a t d) Q (λ _, True).
Proof. apply seg_mod; [|done]. intros s. unfold evolves; simpl. reflexivity. Qed.

End logic.

Lemma evolves_update (P : RefreshRow → Prop) `{!∀ r, Decision (P r)} f s :
  (∀ r, P r → row_le r (f r)) →
  evolves s (with_refresh (update_where P f (refresh_tokens s)) s).
Proof.
  intros Hf. unfold evolves, update_where; simpl.
  induction (refresh_tokens s) as [|r l IH]; simpl; constructor; [|done].
  case_decide; [auto|reflexivity].
Qed.

Lemma row_le_revoked t w r : revoked_at r = None → row_le r (set_revoked t w r).
Proof. unfold row_le; simpl. naive_solver. Qed.

Lemma row_le_parent p r : row_le r (set_parent p r).
Proof. unfold row_le; simpl. naive_solver. Qed.

Lemma row_le_replay n r : row_le r (set_replay n r).
Proof. unfold row_le; simpl. naive_solver. Qed.

(** Evolution of the other tables is free. *)
Lemma evolves_users l s : evolves s (with_users l s).
Proof. unfold evolves; simpl. reflexivity. Qed.

Lemma evolves_published l s : evolves s (with_published l s).
Proof. unfold evolves; simpl. reflexivity. Qed.

Create HintDb segs discriminated.
#[export] Hint Resolve seg_ret seg_stop seg_audit seg_mod evolves_users evolves_published
  row_le_revoked row_le_parent row_le_replay : segs.


(** Walks through a segment; leaves the conditions on outcomes and values. *)
Ltac seg_step :=
  lazymatch goal with
  | |- seg _ (fret _) _ _ => apply seg_ret
  | |- seg _ (fstop _) _ _ => apply seg_stop
  | |- seg _ (oauth_error _ _ _) _ _ => unfold oauth_error; apply seg_stop
  | |- seg _ (audit _ _ _) _ _ => eapply seg_weaken; [apply seg_audit|]
  | |- seg _ (fbind (audit _ _ _) _) _ _ => eapply seg_bind; [apply seg_audit|intros _ _]
  | |- seg _ (fmod _) _ _ => apply seg_mod; [intros ?|]
  | |- seg _ (fbind (fmod _) _) _ _ =>
      eapply (seg_bind _ _ _ _ (λ _, True)); [apply seg_mod; [intros ?|exact I]|intros _ _]
  | |- seg _ (fbind (fgets _) _) _ _ =>
      eapply (seg_bind _ _ _ _ (λ _, True)); [apply seg_gets; intros; exact I|intros ? _]
  | |- seg _ (if ?b then _ else _) _ _ => destruct b
  | |- seg _ (match ?x with _ => _ end) _ _ => destruct x
  | |- evolves _ (with_refresh (update_where _ _ _) _) => apply evolves_update; intros ? ?
  | |- evolves _ (with_users _ _) => apply evolves_users
  | |- evolves _ (with_published _ _) => apply evolves_published
  | |- row_le _ (set_revoked _ _ _) => apply row_le_revoked; naive_solver
  | |- row_le _ (set_parent _ _) => apply row_le_parent
  | |- row_le _ (set_replay _ _) => apply row_le_replay
  end.

(** ** What the requests in flight know *)

Definition check_ok (g : gmap string (option string)) (k : Check) : Prop :=
  c_jti (k_claims k) = jti (k_row k) ∧ g !! jti (k_row k) = Some (family_id (k_row k)).

Definition mint_ok (g : gmap string (option string)) (m : Mint) : Prop :=
  g !! m_jti m = Some (Some (m_family m)).

Definition pend_ok (g : gmap string (option string)) (p : Pending) : Prop :=
  match p with
  | PMemberships k _ _ | PRefreshIdp k _ _ | PRelist k _ | PDecide k _ _ => check_ok g k
  | PSignAccess m _ | PSignRefresh m _ _ | PParent m _ _ _ => mint_ok g m
  | PRemintAccess _ _ | PRemintRefresh _ _ => True
  end.

Definition row_ok (g : gmap string (option string)) (r : RefreshRow) : Prop :=
  g !! jti r = Some (family_id r).

(** An outcome that starts no signature of a successor. *)
Definition quiet (g : gmap string (option string)) (o : Outcome) : Prop :=
  match o with Wait p => pend_ok g p ∧ ∀ f, pw f p = 0%nat | Done _ => True end.

Lemma rows_ok_evolves g s s' :
  evolves s s' → Forall (row_ok g) (refresh_tokens s) → Forall (row_ok g) (refresh_tokens s').
Proof.
  unfold evolves. induction 1 as [|r r' l l' (J & F & _) _ IH]; inversion 1; subst; constructor; auto.
  unfold row_ok in *. by rewrite J, F.
Qed.

Lemma live_evolves f s s' : evolves s s' → (live f s' ≤ live f s)%nat.
Proof.
  unfold evolves, live. induction 1 as [|r r' l l' (J & F & R) _ IH]; [done|].
  rewrite !filter_cons. unfold live_in in *.
  destruct (decide (family_id r' = Some f ∧ revoked_at r' = None)) as [[F' L']|]; simpl.
  - rewrite decide_True; [simpl; lia|]. split; [congruence|].
    destruct (revoked_at r) eqn:E; [|done]. destruct R as [R _]; congruence.
  - destruct (decide (family_id r = Some f ∧ revoked_at r = None)); simpl; lia.
Qed.

Lemma evolves_jtis s s' : evolves s s' → jti <$> refresh_tokens s' = jti <$> refresh_tokens s.
Proof. unfold evolves. induction 1 as [|r r' l l' (J & _) _ IH]; [done|]. rewrite !fmap_cons. congruence. Qed.

Section segments.
Context `{Jose, Encryption} (c : Ctx) (g : gmap string (option string)) (s0 : Auth).
Context (Hrows : Forall (row_ok g) (refresh_tokens s0)).

Lemma seg_bump {A} e u (k : Z → Flow Outcome A) QA :
  (∀ z, seg s0 (k z) (quiet g) QA) → seg s0 (fbind (bumpTokenEpoch e u (Done RThrow)) k) (quiet g) QA.
Proof.
  intros Hk. apply (seg_bind _ _ _ _ (λ _, True)); [|auto]. unfold bumpTokenEpoch, publishBump.
  repeat seg_step; done.
Qed.

Lemma seg_revokeFamily e f w : seg s0 (revokeFamilyForReuse e f w) (quiet g) (λ _, True).
Proof. unfold revokeFamilyForReuse. repeat seg_step; done. Qed.

Lemma seg_handleReuseBranch e k b :
  seg s0 (handleReuseBranch e c k b) (quiet g) (quiet g).
Proof.
  assert (∀ A w d (QA : A → Prop), seg s0 (fbind (revokeFamilyForReuse e (family_id (k_row k)) w)
            (λ _, fbind (audit "auth.refresh.chain_revoked" 1 d)
               (λ _, oauth_error 401 "invalid_grant" "Refresh token chain revoked"))) (quiet g) QA) as Hc.
  { intros. eapply seg_bind; [apply seg_revokeFamily|]. intros _ _. repeat seg_step. done. }
  unfold handleReuseBranch. repeat first [apply Hc | seg_step]; try done.
  - eapply seg_bind; [apply seg_revokeFamily|]. intros _ _. repeat seg_step. done.
Qed.

(** Up to the check of memberships, the request holds the row it presented. *)
Lemma seg_begin e body fp : seg s0 (begin c e body fp) (quiet g) (quiet g).
Proof using Hrows.
  unfold begin.
  apply (seg_bind _ _ _ _ (λ _, True)); [unfold extractRefreshToken; repeat seg_step; done|intros token _].
  apply (seg_bind _ _ _ _ (λ _, True)).
  { unfold verifyAndValidateClaims. repeat seg_step; done. }
  intros [j cl] _.
  apply (seg_bind _ _ _ _ (λ _, True)); [unfold checkNotServiceAccount; repeat seg_step; done|intros _ _].
  apply (seg_bind _ _ _ _ (λ _, True)); [unfold checkTokenEpoch; repeat seg_step; done|intros _ _].
  simpl.
  apply (seg_bind _ _ _ _ (λ row, c_jti cl = jti row ∧ row_ok g row)).
  { unfold selectRefreshRow.
    apply (seg_bind _ _ _ _ (λ o : option RefreshRow, ∀ row, o = Some row → c_jti cl = jti row ∧ row_ok g row)).
    - apply seg_gets. intros s Hs row [Hin Hj]%select_one_Some. split; [done|].
      eapply Forall_forall; [by eapply rows_ok_evolves|done].
    - intros [row|] Hr; repeat seg_step; auto. done. }
  intros row [Hj Hr].
  apply (seg_bind _ _ _ _ (λ _, True)).
  { unfold checkIdleTimeout, revoke_row. repeat seg_step; done. }
  intros _ _. unfold refreshIdpMembershipAndAllowlist.
  eapply (seg_bind _ _ _ _ (λ _, True)); [apply seg_gets; intros; exact I|intros u _].
  eapply (seg_bind _ _ _ _ (λ _, True)).
  { unfold decrypt_tokens, idp_rejected. repeat first [apply seg_bump; intros | seg_step]; done. }
  intros tk _. repeat seg_step; split; done.
Qed.

Lemma seg_recheck_failed err : seg s0 (recheck_failed err) (quiet g) (quiet g).
Proof. unfold recheck_failed, idp_rejected. repeat seg_step; done. Qed.

Lemma seg_recheck_memberships k l :
  check_ok g k → seg s0 (recheck_memberships k l) (quiet g) (quiet g).
Proof. intros Hk. unfold recheck_memberships, revoke_row. repeat seg_step; done. Qed.


(** Revoking live rows lowers the number of live tokens of their family. *)
Lemma live_revoke_lt f (P : RefreshRow → Prop) `{!∀ r, Decision (P r)} t w s r :
  (∀ r, P r → revoked_at r = None) →
  r ∈ refresh_tokens s → P r → live_in f r →
  (live f (with_refresh (update_where P (set_revoked t w) (refresh_tokens s)) s) + 1 ≤ live f s)%nat.
Proof.
  intros HP Hin Hr Hl. unfold live; simpl. unfold update_where.
  assert (∀ l, length (filter (live_in f) ((λ r, if decide (P r) then set_revoked t w r else r) <$> l))
               ≤ length (filter (live_in f) l))%nat as Hle.
  { induction l as [|x l IH]; [done|]. rewrite fmap_cons, !filter_cons.
    repeat case_decide; simpl; try lia; try done.
    all: match goal with Hx : live_in _ (set_revoked _ _ _) |- _ => by destruct Hx end. }
  induction Hin as [r l|r x l Hin IH]; rewrite fmap_cons, !filter_cons.
  - rewrite (decide_True _ _ Hr), (decide_True _ _ Hl), decide_False.
    { simpl. specialize (Hle l). lia. }
    intros [_ E]. done.
  - specialize (IH Hr Hl). destruct (decide (P x)) as [Hx|Hx].
    + rewrite (decide_False (P := live_in f (set_revoked t w x))); [|by intros [_ ?]].
      case_decide; simpl; lia.
    + case_decide; simpl; lia.
Qed.

(** What one segment of a request in flight does. *)
Variant resumed (e : Env) (p : Pending) (o : Outcome) (a : Auth) : Prop :=
  | resumed_quiet : evolves s0 a → quiet g o → resumed e p o a
  | resumed_same : a = s0 → o = Wait p → resumed e p o a
  | resumed_rotates k b1 b2 m acc :
      p = PDecide k b1 b2 → o = Wait (PSignAccess m acc) → evolves s0 a →
      m_jti m = draw e 1 → m_family m = default (draw e 0) (family_id (k_row k)) →
      (∀ f, family_id (k_row k) = Some f → (live f a + 1 ≤ live f s0)%nat) →
      resumed e p o a
  | resumed_signs m acc ref :
      p = PSignAccess m acc → o = Wait (PSignRefresh m acc ref) → a = s0 → resumed e p o a
  | resumed_inserts m acc ref :
      p = PSignRefresh m acc ref → m_jti m ∉ jti <$> refresh_tokens s0 →
      refresh_tokens a = refresh_tokens s0 ++ [minted_row (now e) m] →
      (match o with Wait p' => ∃ old, p' = PParent m old acc ref | Done _ => True end) →
      resumed e p o a.

Lemma run_seg_quiet m o a :
  seg s0 m (quiet g) (quiet g) → run_seg m s0 = (o, a) → evolves s0 a ∧ quiet g o.
Proof.
  intros Hm. unfold run_seg. destruct (Hm s0) as [He Ho]; [reflexivity|].
  destruct (m s0) as [[o'|o'] a']; simpl in *; intros [= <- <-]; done.
Qed.

Lemma rotate_resumed e k b1 b2 o a :
  check_ok g k → run_seg (rotateRefreshToken c e k) s0 = (o, a) →
  resumed e (PDecide k b1 b2) o a.
Proof using Hrows.
  intros [Hj Hg]. unfold rotateRefreshToken, run_seg, fbind, fgets, revoke_row, fmod, oauth_error, fstop, fret.
  set (P := λ r, jti r = c_jti (k_claims k) ∧ revoked_at r = None).
  assert (evolves s0 (with_refresh (update_where P (set_revoked (k_now k) "rotated") (refresh_tokens s0)) s0)) as He.
  { apply evolves_update. intros r [_ ?]. by apply row_le_revoked. }
  destruct (bool_decide (changes P (refresh_tokens s0) = 1%nat)) eqn:E; simpl; intros [= <- <-].
  - apply bool_decide_eq_true in E. eapply resumed_rotates; try done. intros f Hf.
    assert (0 < changes P (refresh_tokens s0))%nat as (r & Hin & Hr)%changes_pos by lia.
    eapply live_revoke_lt; [by intros ? [_ ?]|exact Hin|exact Hr|]. destruct Hr as [Hjr Hlr].
    split; [|done]. pose proof (proj1 (Forall_forall _ _) Hrows r Hin) as Hok. unfold row_ok in Hok.
    rewrite Hjr, Hj, Hg in Hok. congruence.
  - by apply resumed_quiet.
Qed.

Lemma insert_resumed e m acc ref o a :
  mint_ok g m → run_seg (resume c e (PSignRefresh m acc ref) Signed) s0 = (o, a) →
  resumed e (PSignRefresh m acc ref) o a.
Proof.
  intros Hm. cbn [resume]. unfold insert_refresh, run_seg, fbind, fgets, fmod, fstop, fret.
  simpl. destruct (bool_decide (m_jti m ∈ jti <$> refresh_tokens s0)) eqn:E; simpl.
  - intros [= <- <-]. by apply resumed_quiet.
  - apply bool_decide_eq_false in E. destruct (m_rotates m); intros [= <- <-];
      eapply resumed_inserts; eauto.
Qed.

Lemma resume_resumed e p r o a :
  pend_ok g p → run_seg (resume c e p r) s0 = (o, a) → resumed e p o a.
Proof using Hrows.
  intros Hp. destruct p as [k pr rf|k pr rf|k pr|k b1 b2|su acc|acc ref|m acc|m acc ref|m old acc ref].
  7: { destruct r; simpl; intros [= <- <-]; eauto using resumed_signs, resumed_same. }
  7: { destruct r; try (intros Hrun; by apply insert_resumed);
       simpl; intros [= <- <-]; by apply resumed_same. }
  4: { simpl in Hp. cbn [resume]. destruct (revoked_at (k_row k)) eqn:E.
       - intros [? ?]%run_seg_quiet; [by apply resumed_quiet|apply seg_handleReuseBranch].
       - by apply rotate_resumed. }
  all: destruct r; try (simpl; intros [= <- <-]; by apply resumed_same);
    intros Hrun; apply run_seg_quiet in Hrun as [? ?]; try by apply resumed_quiet.
  all: cbn [resume]; simpl in Hp; repeat first
    [ apply seg_recheck_failed | apply seg_recheck_memberships; done | seg_step ]; try done.
  all: unfold store_idp_tokens; eapply (seg_bind _ _ _ _ (λ _, True)); repeat first
    [ apply seg_recheck_failed | seg_step | intros ]; done.
Qed.

End segments.


(** ** The moves of the system *)

Definition sign_jti (p : Pending) : option string :=
  match p with PSignAccess m _ | PSignRefresh m _ _ => Some (m_jti m) | _ => None end.

Definition used (s : Sys) (f : string) : Prop := ∃ j, fam s !! j = Some (Some f).

Record Inv (s : Sys) : Prop := {
  inv_nodup : NoDup (jti <$> refresh_tokens (auth s));
  inv_rows : Forall (row_ok (fam s)) (refresh_tokens (auth s));
  inv_pend : Forall (pend_ok (fam s)) (inflight s);
  inv_signs : NoDup (omap sign_jti (inflight s));
  inv_unspent j : j ∈ omap sign_jti (inflight s) → j ∉ spent s;
  inv_spent j : j ∈ jti <$> refresh_tokens (auth s) → j ∈ spent s;
  inv_dom j : j ∈ spent s → is_Some (fam s !! j);
  inv_weight f : (weight f s ≤ 1)%nat
}.

(** Every step is one of these: rows evolve or are deleted while no signature
    starts; a signature starts, in place of a live token of the family or in a
    family that is new; a signed token becomes a row; a new row in a family of
    its own. *)
Variant move (s s' : Sys) : Prop :=
  | mv_evolve :
      (evolves (auth s) (auth s')
       ∨ refresh_tokens (auth s') `sublist_of` refresh_tokens (auth s)) →
      (∀ f, (pws f (inflight s') ≤ pws f (inflight s))%nat) →
      Forall (pend_ok (fam s)) (inflight s') →
      omap sign_jti (inflight s') ⊆+ omap sign_jti (inflight s) →
      fam s' = fam s → spent s' = (jti <$> refresh_tokens (auth s')) ++ spent s →
      move s s'
  | mv_mint m acc l :
      evolves (auth s) (auth s') →
      l ⊆+ inflight s → inflight s' = l ++ [PSignAccess m acc] →
      fam s !! m_jti m = None → fam s' = <[m_jti m := Some (m_family m)]> (fam s) →
      ((live (m_family m) (auth s') + 1 ≤ live (m_family m) (auth s))%nat ∨ ¬ used s (m_family m)) →
      spent s' = (jti <$> refresh_tokens (auth s')) ++ spent s →
      move s s'
  | mv_insert m r p l q :
      inflight s ≡ₚ p :: l → sign_jti p = Some (m_jti m) → mint_ok (fam s) m →
      (∀ f, pw f p = if decide (m_family m = f) then 1 else 0)%nat →
      refresh_tokens (auth s') = refresh_tokens (auth s) ++ [r] →
      jti r = m_jti m → family_id r = Some (m_family m) →
      inflight s' = l ++ q → Forall (pend_ok (fam s)) q →
      (∀ p, p ∈ q → sign_jti p = None ∧ ∀ f, pw f p = 0%nat) →
      fam s' = fam s → spent s' = (jti <$> refresh_tokens (auth s')) ++ spent s →
      move s s'
  | mv_issue r f :
      refresh_tokens (auth s') = refresh_tokens (auth s) ++ [r] →
      family_id r = Some f → fam s !! jti r = None → ¬ used s f →
      inflight s' = inflight s → fam s' = <[jti r := Some f]> (fam s) →
      spent s' = (jti <$> refresh_tokens (auth s')) ++ spent s →
      move s s'.

(** *** Counting *)

Lemma pws_app f l l' : pws f (l ++ l') = (pws f l + pws f l')%nat.
Proof. unfold pws. induction l; simpl; lia. Qed.

Lemma pws_perm f l l' : l ≡ₚ l' → pws f l = pws f l'.
Proof. unfold pws. induction 1; simpl; lia. Qed.

Lemma pws_submseteq f l l' : l ⊆+ l' → (pws f l ≤ pws f l')%nat.
Proof. intros [k ->%(pws_perm f)]%submseteq_Permutation. rewrite pws_app. lia. Qed.

Lemma pws_quiet f o g : quiet g o → pws f (pend o) = 0%nat.
Proof. destruct o; simpl; [|done]. intros [_ Hp]. unfold pws; simpl. by rewrite Hp. Qed.

Lemma signs_quiet o g : quiet g o → omap sign_jti (pend o) = [].
Proof.
  destruct o as [p|]; simpl; [|done]. intros [_ Hp].
  destruct p as [| | | | | |m ?|m ? ?|]; simpl; try done;
    specialize (Hp (m_family m)); simpl in Hp; by rewrite decide_True in Hp.
Qed.

Lemma pend_ok_quiet o g : quiet g o → Forall (pend_ok g) (pend o).
Proof. destruct o; simpl; [|constructor]. intros [? _]. by repeat constructor. Qed.

Lemma pend_ok_mono g j x p : g !! j = None → pend_ok g p → pend_ok (<[j := x]> g) p.
Proof.
  intros Hj. assert (∀ i y, g !! i = Some y → <[j := x]> g !! i = Some y) as Hi.
  { intros i y Hy. rewrite lookup_insert_ne; [done|]. congruence. }
  destruct p; simpl; unfold check_ok, mint_ok; naive_solver.
Qed.

Lemma live_pos f a : (0 < live f a)%nat → ∃ r, r ∈ refresh_tokens a ∧ live_in f r.
Proof.
  unfold live. destruct (filter (live_in f) (refresh_tokens a)) as [|r l] eqn:E; simpl; [lia|].
  intros _. exists r. assert (r ∈ filter (live_in f) (refresh_tokens a)) as Hin by (rewrite E; left).
  apply list_elem_of_filter in Hin. tauto.
Qed.

Lemma weight_used s f : Inv s → ¬ used s f → weight f s = 0%nat.
Proof.
  intros HI Hu. unfold weight.
  assert (live f (auth s) = 0)%nat as ->.
  { destruct (live f (auth s)) eqn:E; [done|]. exfalso.
    destruct (live_pos f (auth s)) as (r & Hin & Hf & _); [lia|]. apply Hu. exists (jti r).
    pose proof (proj1 (Forall_forall _ _) (inv_rows _ HI) _ Hin) as Hr. unfold row_ok in Hr. congruence. }
  pose proof (inv_pend _ HI) as Hp. simpl. unfold pws. induction Hp as [|p l Hp _ IH]; [done|].
  simpl. rewrite IH, Nat.add_0_r.
  destruct p as [| | | | | |m ?|m ? ?|]; simpl; try done; case_decide; try done; subst;
    exfalso; apply Hu; by exists (m_jti m).
Qed.

Lemma live_app f a a' r :
  refresh_tokens a' = refresh_tokens a ++ [r] →
  (live f a' ≤ live f a + if decide (family_id r = Some f) then 1 else 0)%nat.
Proof.
  intros E. unfold live. rewrite E, filter_app, length_app. rewrite filter_cons, filter_nil.
  unfold live_in at 2. repeat case_decide; simpl; try lia. naive_solver.
Qed.

Lemma live_sublist f a a' :
  refresh_tokens a' `sublist_of` refresh_tokens a → (live f a' ≤ live f a)%nat.
Proof.
  unfold live. induction 1 as [|r l l' _ IH|r l l' _ IH]; [done| |];
    rewrite ?filter_cons; repeat case_decide; simpl; lia.
Qed.

Lemma NoDup_submseteq_inv {A} (l l' : list A) : l ⊆+ l' → NoDup l' → NoDup l.
Proof. intros [k ->]%submseteq_Permutation [? _]%NoDup_app. done. Qed.

Lemma submseteq_elem {A} (l l' : list A) x : l ⊆+ l' → x ∈ l → x ∈ l'.
Proof. intros [k ->]%submseteq_Permutation ?. apply elem_of_app. by left. Qed.

(** *** No move raises the weight of a family in use *)
Lemma move_weight s s' f : Inv s → move s s' → used s f → (weight f s' ≤ weight f s)%nat.
Proof.
  intros HI Hm Hu. unfold weight. destruct Hm as
    [Hr Hp _ _ _ _|m acc l He Hl El Hj Ef Hc _|m r p l q Hi Hs Hm Hpw Er Ej Efr El Hq Hqn Ef _
     |r f' Er Efr Hj Hn El Ef _].
  - assert (live f (auth s') ≤ live f (auth s))%nat; [|specialize (Hp f); lia].
    destruct Hr as [He|Hs]; [by apply live_evolves|by apply live_sublist].
  - rewrite El, pws_app. pose proof (live_evolves f _ _ He). pose proof (pws_submseteq f _ _ Hl).
    unfold pws at 2; simpl. case_decide as Hf; [subst f|lia]. destruct Hc; [lia|done].
  - rewrite El, (pws_perm f _ _ Hi), pws_app. pose proof (live_app f _ _ _ Er) as Hl.
    rewrite Efr in Hl. unfold pws at 3; simpl. rewrite Hpw.
    assert (pws f q = 0)%nat as ->.
    { clear -Hqn. unfold pws. induction q as [|x q IH]; [done|]. simpl. rewrite IH; [|set_solver].
      destruct (Hqn x) as [_ ->]; [left|done]. }
    fold (pws f l). repeat case_decide; simplify_eq; lia.
  - rewrite El. pose proof (live_app f _ _ _ Er) as Hl. rewrite Efr in Hl.
    case_decide; simplify_eq; [done|lia].
Qed.


Lemma row_ok_mono g j x r : g !! j = None → row_ok g r → row_ok (<[j := x]> g) r.
Proof. intros Hj Hr. unfold row_ok in *. rewrite lookup_insert_ne; [done|congruence]. Qed.

Lemma move_inv_weight s s' f : Inv s → move s s' → (weight f s' ≤ 1)%nat.
Proof.
  intros HI Hm. destruct (decide (weight f s' ≤ 1)%nat) as [|Hw]; [done|exfalso].
  assert (¬ used s f) as Hu.
  { intros Hu. pose proof (move_weight s s' f HI Hm Hu). pose proof (inv_weight _ HI f). lia. }
  pose proof (weight_used s f HI Hu) as H0. unfold weight in *. destruct Hm as
    [Hr Hp _ _ _ _|m acc l He Hl El Hj Ef Hc _|m r p l q Hi Hs Hm Hpw Er Ej Efr El Hq Hqn Ef _
     |r f' Er Efr Hj Hn El Ef _].
  - assert (live f (auth s') ≤ live f (auth s))%nat; [|specialize (Hp f); lia].
    destruct Hr; [by apply live_evolves|by apply live_sublist].
  - rewrite El, pws_app in Hw. pose proof (live_evolves f _ _ He). pose proof (pws_submseteq f _ _ Hl).
    unfold pws at 2 in Hw; simpl in Hw. case_decide; lia.
  - apply Hu. exists (m_jti m). rewrite (pws_perm f _ _ Hi) in H0. unfold pws in H0; simpl in H0.
    rewrite Hpw in H0. exfalso. apply Hw. rewrite El, pws_app. pose proof (live_app f _ _ _ Er) as Hl.
    rewrite Efr in Hl. fold (pws f l) in H0.
    assert (pws f q = 0)%nat as ->.
    { clear -Hqn. unfold pws. induction q as [|x q IH]; [done|]. simpl. rewrite IH; [|set_solver].
      destruct (Hqn x) as [_ ->]; [left|done]. }
    repeat case_decide; simplify_eq; lia.
  - rewrite El in Hw. pose proof (live_app f _ _ _ Er). case_decide; lia.
Qed.

(** Rows that evolve or are deleted. *)
Lemma inv_evolve s s' :
  Inv s → (∀ f, (weight f s' ≤ 1)%nat) →
  (evolves (auth s) (auth s')
   ∨ refresh_tokens (auth s') `sublist_of` refresh_tokens (auth s)) →
  Forall (pend_ok (fam s)) (inflight s') →
  omap sign_jti (inflight s') ⊆+ omap sign_jti (inflight s) →
  fam s' = fam s → spent s' = (jti <$> refresh_tokens (auth s')) ++ spent s →
  Inv s'.
Proof.
  intros [Hnd Hrows Hpend Hsig Huns Hsp Hdom _] Hw Hr Hpe Hsg Ef Es.
  assert (∀ j, j ∈ jti <$> refresh_tokens (auth s') → j ∈ jti <$> refresh_tokens (auth s)) as Hsub.
  { destruct Hr as [He|Hs]; [by rewrite (evolves_jtis _ _ He)|]. intros j (r & -> & Hin)%list_elem_of_fmap.
    apply list_elem_of_fmap. exists r. split; [done|]. eapply elem_of_sublist; eassumption. }
  split; rewrite ?Ef, ?Es; try done.
  - destruct Hr as [He|Hs]; [by rewrite (evolves_jtis _ _ He)|].
    eapply sublist_NoDup; [exact Hnd|]. by apply fmap_sublist.
  - destruct Hr as [He|Hs]; [by eapply rows_ok_evolves|]. apply Forall_forall.
    intros r Hin. eapply Forall_forall; [exact Hrows|]. by eapply elem_of_sublist.
  - by eapply NoDup_submseteq_inv.
  - intros j Hj. rewrite elem_of_app. intros [Hj'|Hj']; eapply Huns; eauto using submseteq_elem.
  - intros j Hj. apply elem_of_app. auto.
  - intros j [?|?]%elem_of_app; auto.
Qed.

(** A signature starts. *)
Lemma inv_mint s s' m acc l :
  Inv s → (∀ f, (weight f s' ≤ 1)%nat) →
  evolves (auth s) (auth s') →
  l ⊆+ inflight s → inflight s' = l ++ [PSignAccess m acc] →
  fam s !! m_jti m = None → fam s' = <[m_jti m := Some (m_family m)]> (fam s) →
  spent s' = (jti <$> refresh_tokens (auth s')) ++ spent s →
  Inv s'.
Proof.
  intros [Hnd Hrows Hpend Hsig Huns Hsp Hdom _] Hw He Hl El Hj Ef Es.
  pose proof (evolves_jtis _ _ He) as Ej.
  assert (m_jti m ∉ spent s) as Hns by (intros [x ?]%Hdom; congruence).
  assert (Forall (pend_ok (fam s)) l) as Hpl.
  { apply Forall_forall. intros p Hp. eapply Forall_forall; [exact Hpend|]. by eapply submseteq_elem. }
  assert (m_jti m ∉ omap sign_jti l) as Hnl.
  { intros (p & Hin & Hp)%list_elem_of_omap.
    pose proof (proj1 (Forall_forall _ _) Hpl p Hin) as Hok.
    destruct p; simplify_eq/=; unfold mint_ok in Hok; congruence. }
  assert (omap sign_jti l ⊆+ omap sign_jti (inflight s)) as Hom.
  { apply submseteq_Permutation in Hl as [k ->]. rewrite omap_app. apply submseteq_inserts_r. done. }
  split; rewrite ?Ef, ?Es, ?El, ?Ej; try done.
  - eapply Forall_impl; [by eapply rows_ok_evolves|]. intros r. by apply row_ok_mono.
  - apply Forall_app. split; [|repeat constructor; unfold pend_ok, mint_ok; by rewrite lookup_insert_eq].
    eapply Forall_impl; [exact Hpl|]. intros. by apply pend_ok_mono.
  - rewrite omap_app. simpl. apply NoDup_app. split_and!; [by eapply NoDup_submseteq_inv| |apply NoDup_singleton].
    intros j Hjl ->%list_elem_of_singleton. done.
  - intros j. rewrite omap_app, !elem_of_app. simpl. rewrite list_elem_of_singleton.
    intros Hjl [Hj'|Hj'].
    * apply Hsp in Hj'. destruct Hjl as [Hjl| ->]; [|done].
      apply (Huns j); [by eapply submseteq_elem|done].
    * destruct Hjl as [Hjl| ->]; [|done]. apply (Huns j); [by eapply submseteq_elem|done].
  - intros j Hjr. apply elem_of_app. auto.
  - intros j Hjr. destruct (decide (j = m_jti m)) as [->|]; [rewrite lookup_insert_eq; eauto|].
    rewrite lookup_insert_ne by done. apply elem_of_app in Hjr as [?|?]; auto.
Qed.

(** A signed token becomes a row. *)
Lemma inv_insert s s' m r p l q :
  Inv s → (∀ f, (weight f s' ≤ 1)%nat) →
  inflight s ≡ₚ p :: l → sign_jti p = Some (m_jti m) → mint_ok (fam s) m →
  refresh_tokens (auth s') = refresh_tokens (auth s) ++ [r] →
  jti r = m_jti m → family_id r = Some (m_family m) →
  inflight s' = l ++ q → Forall (pend_ok (fam s)) q →
  (∀ p, p ∈ q → sign_jti p = None) →
  fam s' = fam s → spent s' = (jti <$> refresh_tokens (auth s')) ++ spent s →
  Inv s'.
Proof.
  intros [Hnd Hrows Hpend Hsig Huns Hsp Hdom _] Hw Hi Hs Hm Er Ej Efr El Hq Hqn Ef Es.
  assert (m_jti m ∈ omap sign_jti (inflight s)) as Hsm.
  { rewrite Hi. simpl. rewrite Hs. left. }
  pose proof (Huns _ Hsm) as Hns.
  assert (m_jti m ∉ jti <$> refresh_tokens (auth s)) as Hnr by (intros ?%Hsp; done).
  assert (omap sign_jti q = []) as Eq.
  { clear -Hqn. induction q as [|x q IH]; [done|]. simpl. rewrite (Hqn x) by left.
    apply IH. set_solver. }
  rewrite Hi in Hsig, Hpend. simpl in Hsig. rewrite Hs in Hsig. apply NoDup_cons in Hsig as [Hml Hsl].
  inversion Hpend; subst.
  assert (jti <$> refresh_tokens (auth s') = (jti <$> refresh_tokens (auth s)) ++ [m_jti m]) as Ejs
    by (by rewrite Er, fmap_app; simpl; rewrite Ej).
  split; rewrite ?Ef, ?Es, ?Ejs, ?El; try done.
  - apply NoDup_app. split_and!; [done| |apply NoDup_singleton].
    intros j Hj' ->%list_elem_of_singleton. done.
  - rewrite Er. apply Forall_app. split; [done|]. repeat constructor.
    unfold row_ok, mint_ok in *. by rewrite Ej, Efr.
  - apply Forall_app. done.
  - by rewrite omap_app, Eq, app_nil_r.
  - intros j. rewrite omap_app, Eq, app_nil_r. intros Hjl. rewrite !elem_of_app, list_elem_of_singleton.
    assert (j ∉ spent s) as Hj by (apply Huns; rewrite Hi; simpl; rewrite Hs; by right).
    intros [[?%Hsp| ->]|?]; done.
  - intros j Hj'. apply elem_of_app. by left.
  - intros j. rewrite !elem_of_app, list_elem_of_singleton. intros [[?%Hsp| ->]|?]; eauto.
Qed.

(** A row in a family of its own. *)
Lemma inv_issue s s' r f :
  Inv s → (∀ f, (weight f s' ≤ 1)%nat) →
  refresh_tokens (auth s') = refresh_tokens (auth s) ++ [r] →
  family_id r = Some f → fam s !! jti r = None →
  inflight s' = inflight s → fam s' = <[jti r := Some f]> (fam s) →
  spent s' = (jti <$> refresh_tokens (auth s')) ++ spent s →
  Inv s'.
Proof.
  intros [Hnd Hrows Hpend Hsig Huns Hsp Hdom _] Hw Er Efr Hj El Ef Es.
  assert (jti r ∉ spent s) as Hns by (intros [x ?]%Hdom; congruence).
  assert (jti <$> refresh_tokens (auth s') = (jti <$> refresh_tokens (auth s)) ++ [jti r]) as Ejs
    by by rewrite Er, fmap_app.
  split; rewrite ?Ef, ?Es, ?Ejs, ?El; try done.
  - apply NoDup_app. split_and!; [done| |apply NoDup_singleton].
    intros j Hj' ->%list_elem_of_singleton. by apply Hns, Hsp.
  - rewrite Er. apply Forall_app. split.
    * eapply Forall_impl; [exact Hrows|]. intros. by apply row_ok_mono.
    * repeat constructor. unfold row_ok. by rewrite lookup_insert_eq, Efr.
  - eapply Forall_impl; [exact Hpend|]. intros. by apply pend_ok_mono.
  - intros j Hjl. rewrite !elem_of_app, list_elem_of_singleton. intros [[?%Hsp| ->]|?].
    * by eapply Huns.
    * apply list_elem_of_omap in Hjl as (p & Hin & Hp).
      pose proof (proj1 (Forall_forall _ _) Hpend p Hin) as Hok.
      destruct p; simplify_eq/=; unfold mint_ok in Hok; congruence.
    * by eapply Huns.
  - intros j Hj'. apply elem_of_app. by left.
  - intros j Hj'. destruct (decide (j = jti r)) as [->|]; [rewrite lookup_insert_eq; eauto|].
    rewrite lookup_insert_ne by done. revert Hj'. rewrite !elem_of_app, list_elem_of_singleton.
    intros [[?%Hsp| ->]|?]; auto. done.
Qed.

Lemma move_inv s s' : Inv s → move s s' → Inv s'.
Proof.
  intros HI Hm. pose proof (λ f, move_inv_weight s s' f HI Hm) as Hw.
  destruct Hm; [eapply inv_evolve|eapply inv_mint|eapply inv_insert|eapply inv_issue]; try done.
  naive_solver.
Qed.


(** ** Every step is a move *)

Lemma seg_evolves {A} (m : Flow Outcome A) s QA :
  seg s m (λ _, True) QA → evolves s (m s).2.
Proof. intros Hm. by destruct (Hm s) as [He _]. Qed.

Lemma run_seg_state m s : (run_seg m s).2 = (m s).2.
Proof. unfold run_seg. by destruct (m s) as [[o|o] a]. Qed.

Lemma logout_evolves e ca s : evolves s (run_seg (handleLogout e ca) s).2.
Proof.
  rewrite run_seg_state. apply (seg_evolves _ _ (λ _, True)). unfold handleLogout.
  eapply (seg_bind _ _ _ _ (λ _, True)); [|intros _ _]; repeat seg_step; done.
Qed.

Lemma logoutAll_evolves e ca s : evolves s (run_seg (handleLogoutAll e ca) s).2.
Proof.
  rewrite run_seg_state. apply (seg_evolves _ _ (λ _, True)). unfold handleLogoutAll.
  eapply (seg_bind _ _ _ _ (λ _, True)); [unfold bumpTokenEpoch, publishBump|intros _ _];
    repeat seg_step; done.
Qed.

Lemma revoke_evolves e ca j s : evolves s (run_seg (handleRevoke e ca j) s).2.
Proof.
  rewrite run_seg_state. apply (seg_evolves _ _ (λ _, True)). unfold handleRevoke, revoke_row.
  repeat seg_step; done.
Qed.

Lemma revokeService_evolves e j s : evolves s (revokeServiceToken (O := Outcome) e j s).2.
Proof.
  apply (seg_evolves _ _ (λ _, True)). unfold revokeServiceToken. repeat seg_step; naive_solver.
Qed.

Lemma issue_rows e iss o s t a :
  issueServiceToken e iss o s = (inr t, a) →
  ∃ r, refresh_tokens a = refresh_tokens s ++ [r] ∧ jti r = draw e 1
       ∧ family_id r = Some ("service:" +:+ draw e 0).
Proof.
  unfold issueServiceToken, fbind, fgets, fmod, fret, fstop. intros E.
  repeat (case_match; simplify_eq/=; try done).
  eexists. split; [reflexivity|done].
Qed.

Lemma issue_error e iss o s err a : issueServiceToken e iss o s = (inl err, a) → a = s.
Proof.
  unfold issueServiceToken, fbind, fgets, fmod, fret, fstop. intros E.
  repeat (case_match; simplify_eq/=; try done).
Qed.

Lemma delete_submseteq {A} i (l : list A) : delete i l ⊆+ l.
Proof. apply sublist_submseteq, sublist_delete. Qed.

(** A request that goes on with the same signature. *)
Lemma continue_move s a p p' i :
  Inv s → inflight s !! i = Some p → a = auth s → pend_ok (fam s) p' →
  sign_jti p' = sign_jti p → (∀ f, pw f p' = pw f p) →
  move s (next s a (delete i (inflight s) ++ [p']) (fam s)).
Proof.
  intros HI Hp -> Hok Hj Hw. pose proof (delete_Permutation _ _ _ Hp) as Hperm.
  apply mv_evolve; simpl; try done; [left; reflexivity| | |].
  - intros f. rewrite pws_app, (pws_perm f _ _ Hperm). unfold pws; simpl. rewrite Hw. lia.
  - apply Forall_app. split; [|by repeat constructor]. by apply Forall_delete, HI.
  - apply (omap_Permutation sign_jti) in Hperm. rewrite Hperm, omap_app. simpl. rewrite Hj.
    destruct (sign_jti p); [by rewrite <- Permutation_cons_append|by rewrite app_nil_r].
Qed.

(** A step that keeps the rows and adds no signature. *)
Lemma evolve_move s a l o g :
  Inv s → evolves (auth s) a → l ⊆+ inflight s → quiet (fam s) o → g = fam s →
  move s (next s a (l ++ pend o) g).
Proof.
  intros HI He Hl Ho ->. apply mv_evolve; simpl; try done; [by left| | |].
  - intros f. rewrite pws_app, (pws_quiet f o (fam s)) by done. pose proof (pws_submseteq f _ _ Hl). lia.
  - apply Forall_app. split; [|by apply pend_ok_quiet]. apply Forall_forall. intros p Hp.
    eapply Forall_forall; [exact (inv_pend _ HI)|]. by eapply submseteq_elem.
  - rewrite omap_app, (signs_quiet o (fam s)), app_nil_r by done.
    apply submseteq_Permutation in Hl as [k ->]. rewrite omap_app. by apply submseteq_inserts_r.
Qed.

Section steps.
Context `{Jose, Encryption} (c : Ctx).

(** A segment of a request in flight. *)
Lemma resume_move s i p e r o a :
  Inv s → inflight s !! i = Some p → fresh e s →
  run_seg (resume c e p r) (auth s) = (o, a) →
  move s (next s a (delete i (inflight s) ++ pend o) (record_mint o (fam s))).
Proof.
  intros HI Hp (Hf1 & Hf0 & _) Hrun.
  pose proof (delete_Permutation _ _ _ Hp) as Hperm.
  assert (pend_ok (fam s) p) as Hok.
  { eapply Forall_forall; [exact (inv_pend _ HI)|]. by eapply list_elem_of_lookup_2. }
  destruct (resume_resumed c (fam s) (auth s) (inv_rows _ HI) e p r o a Hok Hrun) as
    [He Hq | -> -> | k b1 b2 m acc -> -> He Ej Ef Hl | m acc ref -> -> -> | m acc ref -> Hn Er Ho].
  - apply evolve_move; try done; [apply delete_submseteq|].
    destruct o as [[]|]; try done. destruct Hq as [_ Hq]. specialize (Hq (m_family m)).
    simpl in Hq. by rewrite decide_True in Hq.
  - assert (record_mint (Wait p) (fam s) = fam s) as ->.
    { destruct p; simpl; try done. simpl in Hok. apply insert_id. exact Hok. }
    by eapply continue_move.
  - eapply (mv_mint _ _ m acc (delete i (inflight s))); simpl; try done;
      [apply delete_submseteq|congruence|].
    destruct (family_id (k_row k)) as [f|] eqn:E; simpl in Ef; rewrite Ef; [left; by apply Hl|].
    right. intros [j Hj]. by apply (Hf0 j).
  - by eapply continue_move.
  - assert (record_mint o (fam s) = fam s) as ->.
    { destruct o as [?|]; [|done]. by destruct Ho as [old ->]. }
    eapply (mv_insert _ _ m); simpl; try done.
    + destruct o as [?|]; simpl; [|constructor]. destruct Ho as [old ->]. by repeat constructor.
    + destruct o as [?|]; simpl; [|intros ? []%elem_of_nil]. destruct Ho as [old ->].
      by intros ? ->%list_elem_of_singleton.
Qed.

Lemma step_move s s' : Inv s → step c s s' → move s s'.
Proof.
  intros HI Hs. destruct Hs as
    [s e body fp o a Hrun|s i p e r o a Hp Hf Hrun|s e user org role fp Hf o|s e ca|s e ca|s e ca j
    |s e iss o t a Hf Hrun|s e iss o err a Hrun|s e j|s t rows Hsub Hdel|s i].
  - apply (run_seg_quiet (fam s)) in Hrun as [? ?]; [|apply seg_begin, HI]. by apply evolve_move.
  - by eapply resume_move.
  - destruct Hf as (Hf1 & Hf0 & _). eapply (mv_mint _ _ _ _ (inflight s)); simpl; try done.
    right. intros [j Hj]. by apply (Hf0 j).
  - rewrite <- (app_nil_r (inflight s)). apply (evolve_move _ _ _ (Done RThrow)); try done. apply logout_evolves.
  - rewrite <- (app_nil_r (inflight s)). apply (evolve_move _ _ _ (Done RThrow)); try done. apply logoutAll_evolves.
  - rewrite <- (app_nil_r (inflight s)). apply (evolve_move _ _ _ (Done RThrow)); try done. apply revoke_evolves.
  - destruct Hf as (Hf1 & _ & Hf0). destruct (issue_rows _ _ _ _ _ _ Hrun) as (r & Er & Ej & Ef).
    eapply mv_issue; simpl; try done; [congruence| |congruence]. intros [j Hj]. by apply (Hf0 j).
  - apply issue_error in Hrun as ->. rewrite <- (app_nil_r (inflight s)).
    by apply (evolve_move _ _ _ (Done RThrow)).
  - rewrite <- (app_nil_r (inflight s)). apply (evolve_move _ _ _ (Done RThrow)); try done. apply revokeService_evolves.
  - apply mv_evolve; simpl; try done; [by right|]. apply HI.
  - rewrite <- (app_nil_r (delete i (inflight s))).
    apply (evolve_move _ _ _ (Done RThrow)); try done. apply delete_submseteq.
Qed.

Lemma steps_inv s s' : steps c s s' → Inv s → Inv s'.
Proof. induction 1; eauto using move_inv, step_move. Qed.

Lemma initial_inv s : initial s → Inv s.
Proof.
  intros (Hr & Hi & Hf & Hs). split; rewrite ?Hr, ?Hi, ?Hs; simpl.
  1-4: constructor.
  1-3: intros j; set_solver.
  intros f. unfold weight, live. rewrite Hr, Hi. simpl. lia.
Qed.

Lemma reachable_inv s : reachable c s → Inv s.
Proof. intros (s0 & H0' & Hs). eapply steps_inv; [exact Hs|]. by apply initial_inv. Qed.

Lemma move_used s s' f : move s s' → used s f → used s' f.
Proof.
  intros Hm [j Hj]. destruct Hm as
    [_ _ _ _ Ef _|m acc l _ _ _ Hn Ef _ _|m r p l q _ _ _ _ _ _ _ _ _ _ Ef _|r f' _ _ Hn _ _ Ef _];
    exists j; rewrite Ef; try done; rewrite lookup_insert_ne; congruence.
Qed.

Lemma steps_weight s s' f :
  steps c s s' → Inv s → used s f → (weight f s' ≤ weight f s)%nat ∧ used s' f.
Proof.
  induction 1 as [s|s s1 s2 H1 _ IH]; intros HI Hu; [done|].
  pose proof (step_move _ _ HI H1) as Hm.
  destruct (IH (move_inv _ _ HI Hm) (move_used _ _ _ Hm Hu)).
  pose proof (move_weight _ _ f HI Hm Hu). split; [lia|done].
Qed.

End steps.

End RotationSafety.
