(* ===== verification/RotationTheorems.v ===== *)
(** * What refresh token rotation guarantees, and what it does not

    The theorems about sessions: one live token per family, revocation is final,
    a token is exchanged once, reuse ends the family; and two runs in which a
    session outlives its revocation. *)

From S2P Require Import Prelude Paths AuthState Rotation ServiceTokens RotationSafety.
Local Open Scope Z_scope.

Module RotationTheorems.
Import Rotation ServiceTokens RotationSafety.

(** ** Rows by identifier *)

Lemma Forall2_elem_r {A B} (R : A → B → Prop) l l' y :
  Forall2 R l l' → y ∈ l' → ∃ x, x ∈ l ∧ R x y.
Proof.
  induction 1 as [|a b l l' Hab _ IH]; [by intros ?%elem_of_nil|].
  intros [->|Hin]%elem_of_cons; [exists a; split; [left|done]|].
  destruct (IH Hin) as (x & ? & ?). exists x. split; [by right|done].
Qed.

Lemma filter_two {A} (P : A → Prop) `{!∀ x, Decision (P x)} l x y :
  (length (filter P l) ≤ 1)%nat → x ∈ l → y ∈ l → P x → P y → x = y.
Proof.
  intros Hl Hx Hy Px Py.
  assert (x ∈ filter P l) as Hx' by by apply list_elem_of_filter.
  assert (y ∈ filter P l) as Hy' by by apply list_elem_of_filter.
  destruct (filter P l) as [|a [|b k]]; simpl in Hl; [by apply elem_of_nil in Hx'| |lia].
  apply list_elem_of_singleton in Hx', Hy'. congruence.
Qed.

(** The identifier was a row, and every row that has it is revoked like this. *)
Definition sealed (j : string) (t : Z) (w : option string) (s : Sys) : Prop :=
  j ∈ spent s ∧
  ∀ r, r ∈ refresh_tokens (auth s) → jti r = j → revoked_at r = Some t ∧ revoked_reason r = w.

Lemma move_sealed j t w s s' : Inv s → move s s' → sealed j t w s → sealed j t w s'.
Proof.
  intros HI Hm [Hj Hs].
  assert (∀ r, r ∈ refresh_tokens (auth s') → jti r = j →
    (∃ r0, r0 ∈ refresh_tokens (auth s) ∧ row_le r0 r)) as Hold.
  { intros r Hin <-. destruct Hm as
      [Hr _ _ _ _ _|m acc l He _ _ _ _ _ _|m r' p l q Hi Hsg _ _ Er Ej _ _ _ _ _ _|r' f' Er _ Hn _ _ _ _].
    - destruct Hr as [He|Hsub]; [by eapply Forall2_elem_r|]. exists r. split; [|reflexivity].
      by eapply elem_of_sublist.
    - by eapply Forall2_elem_r.
    - rewrite Er in Hin. apply elem_of_app in Hin as [?|Hr%list_elem_of_singleton].
      { exists r. split; [done|reflexivity]. }
      subst r'. exfalso. apply (inv_unspent _ HI (jti r)); [|done].
      rewrite Hi, Ej. simpl. rewrite Hsg. left.
    - rewrite Er in Hin. apply elem_of_app in Hin as [?|Hr%list_elem_of_singleton].
      { exists r. split; [done|reflexivity]. }
      subst r'. exfalso. apply (inv_dom _ HI) in Hj as [x Hx]. congruence. }
  split.
  - destruct Hm as [_ _ _ _ _ Es|? ? ? _ _ _ _ _ _ Es|? ? ? ? ? _ _ _ _ _ _ _ _ _ _ _ Es|? ? _ _ _ _ _ _ Es];
      rewrite Es; apply elem_of_app; by right.
  - intros r Hin Hr. destruct (Hold r Hin Hr) as (r0 & Hin0 & Hj0 & _ & Hrev).
    destruct (Hs r0 Hin0) as [E1 E2]; [congruence|]. destruct Hrev; [congruence|]. split; congruence.
Qed.

Section guarantees.
Context `{Jose, Encryption} (c : Ctx).

Lemma steps_sealed j t w s s' : steps c s s' → Inv s → sealed j t w s → sealed j t w s'.
Proof.
  induction 1 as [s|s s1 s2 H1 _ IH]; intros HI Hs; [done|].
  pose proof (step_move c _ _ HI H1) as Hm. eauto using move_inv, move_sealed.
Qed.

(** Reachable states are closed under steps. *)
Lemma reachable_steps s s' : reachable c s → steps c s s' → reachable c s'.
Proof.
  intros (s0 & H0' & Hs) Hs'. exists s0. split; [done|]. clear H0'.
  induction Hs; [done|]. econstructor; [eassumption|]. auto.
Qed.

(** [C5] At most one session token per family. In every state the server can
    reach, whatever the interleaving of refreshes, logins, logouts, revocations
    and sweeps, a family has at most one refresh token that is live or being
    signed; in particular two live rows of a family are the same row. *)
Theorem one_live_token (s : Sys) (f : string) :
  reachable c s →
  (weight f s ≤ 1)%nat
  ∧ ∀ r r', r ∈ refresh_tokens (auth s) → r' ∈ refresh_tokens (auth s) →
      live_in f r → live_in f r' → r = r'.
Proof.
  intros Hr. pose proof (reachable_inv c s Hr) as HI. pose proof (inv_weight _ HI f) as Hw.
  split; [done|]. intros r r' ? ? ? ?.
  eapply (filter_two (live_in f)); [|done..]. unfold weight, live in Hw. lia.
Qed.

(** Revocation is final: once a refresh token is revoked, in every later
    state its row, if it is still kept, is revoked at the same time and for the
    same reason. *)
Theorem revocation_final (s s' : Sys) (r r' : RefreshRow) (t : Z) :
  reachable c s → steps c s s' →
  r ∈ refresh_tokens (auth s) → revoked_at r = Some t →
  r' ∈ refresh_tokens (auth s') → jti r' = jti r →
  revoked_at r' = Some t ∧ revoked_reason r' = revoked_reason r.
Proof.
  intros Hreach Hs Hin Hrev Hin' Hj. pose proof (reachable_inv c s Hreach) as HI.
  destruct (steps_sealed (jti r) t (revoked_reason r) s s' Hs HI) as [_ Hse]; [|by apply Hse].
  split; [apply HI; by apply list_elem_of_fmap_2|].
  intros r0 Hin0 Hj0. assert (r0 = r) as ->; [|done].
  eapply (NoDup_key_eq jti); [exact (inv_nodup _ HI)|done..].
Qed.

(** The decision of a request rotates the token [j]. *)
Definition rotates (j : string) (o : Outcome) : Prop :=
  match o with Wait (PSignAccess m _) => m_rotates m = Some j | _ => False end.

Lemma decide_rotates e k b1 b2 rep s j :
  rotates j (run_seg (resume c e (PDecide k b1 b2) rep) s).1 →
  j = c_jti (k_claims k) ∧ changes (λ r, jti r = j ∧ revoked_at r = None) (refresh_tokens s) = 1%nat
  ∧ (run_seg (resume c e (PDecide k b1 b2) rep) s).2
    = with_refresh (update_where (λ r, jti r = j ∧ revoked_at r = None)
        (set_revoked (k_now k) "rotated") (refresh_tokens s)) s.
Proof.
  cbn [resume]. destruct (revoked_at (k_row k)).
  - intros Hr. exfalso. pose proof (seg_handleReuseBranch c ∅ s e k (b1 && negb b2)) as Hq.
    destruct (run_seg _ s) as [o a] eqn:E. apply (run_seg_quiet ∅) in E as [_ Ho]; [|done].
    destruct o as [[]|]; try done. destruct Ho as [_ Ho]. specialize (Ho (m_family m)).
    simpl in Ho. by rewrite decide_True in Ho.
  - unfold rotateRefreshToken, run_seg, fbind, fgets, revoke_row, fmod, oauth_error, fstop, fret.
    destruct (bool_decide (changes _ _ = 1%nat)) eqn:E; simpl; [|done].
    intros [= <-]. split; [done|]. by apply bool_decide_eq_true in E.
Qed.

(** A refresh token is exchanged at most once: after a request rotated the
    token [j], no request in flight or to come rotates it again. *)
Theorem exchanged_once (s s1 s2 : Sys) (i : nat) (e e' : Env) (j : string) (k k' : Check)
    (b1 b2 b1' b2' : bool) (rep rep' : Reply) :
  reachable c s → inflight s !! i = Some (PDecide k b1 b2) → fresh e s →
  let oa := run_seg (resume c e (PDecide k b1 b2) rep) (auth s) in
  rotates j oa.1 →
  s1 = next s oa.2 (delete i (inflight s) ++ pend oa.1) (record_mint oa.1 (fam s)) →
  steps c s1 s2 →
  ¬ rotates j (run_seg (resume c e' (PDecide k' b1' b2') rep') (auth s2)).1.
Proof.
  intros Hreach Hi Hfr oa Hrot -> Hs2. pose proof (reachable_inv c s Hreach) as HI.
  destruct (decide_rotates _ _ _ _ _ _ _ Hrot) as (Hj & Hch & Ea).
  assert (step c s (next s oa.2 (delete i (inflight s) ++ pend oa.1) (record_mint oa.1 (fam s)))) as H1.
  { eapply SResume; [exact Hi|exact Hfr|]. unfold oa. apply surjective_pairing. }
  pose proof (step_move c _ _ HI H1) as Hm. pose proof (move_inv _ _ HI Hm) as HI1.
  assert (0 < changes (λ r, jti r = j ∧ revoked_at r = None) (refresh_tokens (auth s)))%nat
    as (r & Hin & Hrj & Hrl)%changes_pos by lia.
  assert (sealed j (k_now k) (Some "rotated")
    (next s oa.2 (delete i (inflight s) ++ pend oa.1) (record_mint oa.1 (fam s)))) as Hse.
  { split.
    - simpl. apply elem_of_app. right. apply HI. rewrite <- Hrj. by apply list_elem_of_fmap_2.
    - simpl. unfold oa at 1. rewrite Ea. simpl.
      intros r0 (r1 & Hin1 & ->)%elem_of_update_where. intros Hj0.
      assert (r1 = r) as ->.
      { eapply (NoDup_key_eq jti); [exact (inv_nodup _ HI)|done..|]. case_decide; simpl in Hj0; congruence. }
      by rewrite decide_True. }
  destruct (steps_sealed _ _ _ _ _ Hs2 HI1 Hse) as [_ Hsealed].
  intros (_ & Hch2 & _)%decide_rotates.
  assert (0 < changes (λ r, jti r = j ∧ revoked_at r = None) (refresh_tokens (auth s2)))%nat
    as (r2 & Hin2 & Hr2 & Hl2)%changes_pos by lia.
  destruct (Hsealed r2 Hin2 Hr2). congruence.
Qed.


(** Revoking a family leaves no live token in it. *)
Lemma revokeFamily_live e f w s :
  f ≠ "" → live f (revokeFamilyForReuse e (Some f) w s).2 = 0%nat.
Proof.
  intros Hf. unfold revokeFamilyForReuse. rewrite truthy_Some by done. unfold live; simpl.
  destruct (filter (live_in f) _) as [|r l] eqn:E; [done|].
  assert (r ∈ filter (live_in f) (update_where (λ r, family_id r = Some f ∧ revoked_at r = None)
            (set_revoked (now e) w) (refresh_tokens s))) as Hin by (rewrite E; left).
  apply list_elem_of_filter in Hin as [[Hfam Hl] (r0 & Hin & ->)%elem_of_update_where].
  case_decide as Hd; [done|]. exfalso. by apply Hd.
Qed.

(** The answer of [handleReuseBranch] to a token whose reuse is certain. *)
Lemma hard_reuse e k b s t :
  revoked_at (k_row k) = Some t →
  (GRACE_WINDOW_S ≤ now e - t ∨ revoked_reason (k_row k) ≠ Some "rotated") →
  (run_seg (handleReuseBranch e c k b) s).1
    = Done (RError 401 "invalid_grant" "Refresh token chain revoked")
  ∧ refresh_tokens (run_seg (handleReuseBranch e c k b) s).2
    = refresh_tokens (revokeFamilyForReuse e (family_id (k_row k)) "reuse_detected" s).2.
Proof.
  intros Hr Hh. unfold handleReuseBranch. rewrite Hr. simpl.
  assert (bool_decide (GRACE_WINDOW_S ≤ now e - t)
          || negb (bool_decide (revoked_reason (k_row k) = Some "rotated")) = true) as ->.
  { destruct Hh; [by rewrite bool_decide_eq_true_2|].
    rewrite (bool_decide_eq_false_2 (revoked_reason _ = _)) by done. by rewrite orb_true_r. }
  unfold run_seg, fbind, revokeFamilyForReuse. by destruct (truthy (family_id (k_row k))).
Qed.

(** Reuse ends the session for good. When a revoked token is presented
    after the grace window, or was revoked for another reason than rotation, and
    no successor of its family is being signed, the request is answered 401 and
    in every later state the family has no live token. *)
Theorem reuse_ends_family (s s2 : Sys) (i : nat) (e : Env) (k : Check) (b1 b2 : bool) (rep : Reply)
    (f : string) (t : Z) :
  reachable c s → inflight s !! i = Some (PDecide k b1 b2) → fresh e s →
  revoked_at (k_row k) = Some t → family_id (k_row k) = Some f → f ≠ "" →
  (GRACE_WINDOW_S ≤ now e - t ∨ revoked_reason (k_row k) ≠ Some "rotated") →
  pws f (inflight s) = 0%nat →
  let oa := run_seg (resume c e (PDecide k b1 b2) rep) (auth s) in
  steps c (next s oa.2 (delete i (inflight s) ++ pend oa.1) (record_mint oa.1 (fam s))) s2 →
  oa.1 = Done (RError 401 "invalid_grant" "Refresh token chain revoked")
  ∧ live f (auth s2) = 0%nat.
Proof.
  intros Hreach Hi Hfr Ht Hf Hne Hh Hp oa Hs2. pose proof (reachable_inv c s Hreach) as HI.
  assert (oa = run_seg (handleReuseBranch e c k (b1 && negb b2)) (auth s)) as Eoa
    by (unfold oa; cbn [resume]; by rewrite Ht).
  destruct (hard_reuse e k (b1 && negb b2) (auth s) t Ht Hh) as [E1 E2].
  rewrite <- Eoa in E1, E2. split; [done|].
  assert (step c s (next s oa.2 (delete i (inflight s) ++ pend oa.1) (record_mint oa.1 (fam s)))) as H1.
  { eapply SResume; [exact Hi|exact Hfr|]. unfold oa. apply surjective_pairing. }
  pose proof (step_move c _ _ HI H1) as Hm.
  assert (used s f) as Hu.
  { pose proof (proj1 (Forall_forall _ _) (inv_pend _ HI) _ (list_elem_of_lookup_2 _ _ _ Hi)) as [_ Hc].
    exists (jti (k_row k)). congruence. }
  destruct (steps_weight c _ _ f Hs2 (move_inv _ _ HI Hm) (move_used _ _ _ Hm Hu)) as [Hw _].
  revert Hw. unfold weight; simpl. rewrite E1. simpl. rewrite app_nil_r.
  pose proof (pws_submseteq f _ _ (delete_submseteq i (inflight s))).
  unfold live at 2. rewrite E2, Hf. pose proof (revokeFamily_live e f "reuse_detected" (auth s) Hne) as Hz.
  unfold live in Hz at 1. lia.
Qed.

(** Every row of the family revoked: what [revokeFamilyForReuse] leaves. *)
Definition family_revoked (f : string) (s : Auth) : Prop :=
  ∀ r, r ∈ refresh_tokens s → family_id r = Some f → revoked_at r ≠ None.

(** A replay within the grace window from another client. The token is not
    exchanged: the replay is counted on its row, the answer is 401, and at the
    third the whole family is revoked; before, nothing else changes. *)
Theorem foreign_replay_spec (e : Env) (k : Check) (b : bool) (s : Auth) (f : string) (t : Z)
    (row succ : RefreshRow) :
  revoked_at (k_row k) = Some t → now e - t < GRACE_WINDOW_S →
  revoked_reason (k_row k) = Some "rotated" → family_id (k_row k) = Some f → f ≠ "" →
  NoDup (jti <$> refresh_tokens s) →
  row ∈ refresh_tokens s → jti row = c_jti (k_claims k) →
  select_one (λ r, parent_jti r = Some (c_jti (k_claims k))) (refresh_tokens s) = Some succ →
  (k_fingerprint k = None ∨ consumer_fingerprint succ ≠ k_fingerprint k) →
  let oa := run_seg (handleReuseBranch e c k b) s in
  let counted := update_where (λ r, jti r = c_jti (k_claims k))
                   (λ r, set_replay (replay_count r + 1) r) (refresh_tokens s) in
  (∃ d, oa.1 = Done (RError 401 "invalid_grant" d))
  ∧ (if bool_decide (REPLAY_THRESHOLD ≤ replay_count row + 1)
     then family_revoked f oa.2 else refresh_tokens oa.2 = counted).
Proof.
  intros Ht Hg Hw Hf Hne Hnd Hin Hj Hs Hfp oa counted. unfold oa, handleReuseBranch.
  rewrite Ht, Hw. simpl.
  rewrite (bool_decide_eq_false_2 (GRACE_WINDOW_S ≤ _)) by lia. simpl.
  unfold run_seg, fbind, fgets, fmod. rewrite Hs.
  rewrite bool_decide_eq_false_2 by naive_solver. simpl.
  fold counted. assert (select_one (λ r, jti r = c_jti (k_claims k)) counted = Some (set_replay (replay_count row + 1) row)) as ->.
  { unfold counted. apply (select_one_key jti).
    - rewrite (fmap_update_where jti) by done. exact Hnd.
    - apply elem_of_update_where. exists row. split; [done|]. by rewrite decide_True.
    - done.
    - simpl. congruence. }
  simpl. case_bool_decide.
  - unfold revokeFamilyForReuse. rewrite Hf, truthy_Some by done.
    split; [eexists; reflexivity|]. intros r Hr Hfr. simpl in Hr.
    apply elem_of_update_where in Hr as (r0 & _ & ->). case_decide as Hd; [done|].
    intros Hl. by apply Hd.
  - split; [eexists; reflexivity|done].
Qed.

End guarantees.

(** ** Epochs *)

Lemma read_bumped now0 uid s v :
  readTokenEpoch (with_users (update_where (λ u, u_id u = uid) (bump now0) (users s)) s) v
  = match select_one (λ u, u_id u = v) (users s) with
    | Some x => if decide (v = uid) then now0 `max` (token_epoch x + 1) else token_epoch x
    | None => 0
    end.
Proof.
  unfold readTokenEpoch; simpl. rewrite select_one_update_where by done.
  destruct (select_one (λ u, u_id u = v) (users s)) as [x|] eqn:E; [|done].
  apply select_one_Some in E as [E _]. simpl. rewrite E. by case_decide.
Qed.

Lemma bump_run {O} now0 uid (fail : O) s u :
  select_one (λ u, u_id u = uid) (users s) = Some u →
  bumpTokenEpoch now0 uid fail s
  = (inr (now0 `max` (token_epoch u + 1)),
     with_published (published s ++ [(uid, now0 `max` (token_epoch u + 1))])
       (with_users (update_where (λ u, u_id u = uid) (bump now0) (users s)) s)).
Proof.
  intros Hu. unfold bumpTokenEpoch, fbind, fmod, fgets. simpl.
  rewrite select_one_update_where by done. rewrite Hu. simpl.
  apply select_one_Some in Hu as [Hu _]. by rewrite decide_True.
Qed.

(** The answer of the epoch check. *)
Lemma check_epoch_run cl s :
  (checkTokenEpoch cl s).1
  = if bool_decide (c_iat cl < epoch_of s (c_sub cl))
    then inl (Done (RError 400 "invalid_grant" "Session invalidated by admin")) else inr tt.
Proof.
  unfold checkTokenEpoch, fbind, fgets. by case_bool_decide.
Qed.

(** Bumping the epoch of a user ends that user's older sessions and no one
    else's. The new epoch is larger than the old one and not before the clock;
    from then on every refresh token of the user that was issued in an earlier
    second, or at or before the old epoch, is refused; the epochs of the others
    do not change. *)
Theorem epoch_bump_refuses {O} (now0 : Z) (uid : string) (fail : O) (s : Auth) (u : UserRow) (cl : Claims) :
  select_one (λ u, u_id u = uid) (users s) = Some u →
  let s' := (bumpTokenEpoch now0 uid fail s).2 in
  (token_epoch u < readTokenEpoch s' uid ∧ now0 ≤ readTokenEpoch s' uid)
  ∧ (∀ v, v ≠ uid → readTokenEpoch s' v = readTokenEpoch s v)
  ∧ (c_sub cl = uid → c_iat cl < now0 ∨ c_iat cl ≤ token_epoch u →
     (checkTokenEpoch cl s').1
     = inl (Done (RError 400 "invalid_grant" "Session invalidated by admin"))).
Proof.
  intros Hu s'. assert (∀ v, readTokenEpoch s' v
    = match select_one (λ u, u_id u = v) (users s) with
      | Some x => if decide (v = uid) then now0 `max` (token_epoch x + 1) else token_epoch x
      | None => 0 end) as Hr.
  { intros v. unfold s'. rewrite (bump_run _ _ _ _ u) by done. apply read_bumped. }
  assert (readTokenEpoch s' uid = now0 `max` (token_epoch u + 1)) as Hself
    by (rewrite Hr, Hu; simpl; by rewrite decide_True).
  split; [lia|]. split.
  - intros v Hv. rewrite Hr. unfold readTokenEpoch.
    destruct (select_one (λ u, u_id u = v) (users s)); [by rewrite decide_False|done].
  - intros Hsub Hiat. rewrite check_epoch_run, Hsub. rewrite bool_decide_eq_true_2; [done|].
    unfold epoch_of. rewrite Hself. lia.
Qed.

(** A token issued in the second of the bump survives it: when the clock has
    moved past the epoch of the user, a token whose time of issue is the second
    of the bump passes the check, though it was issued before. *)
Theorem same_second_survives {O} (now0 : Z) (uid : string) (fail : O) (s : Auth) (u : UserRow) (cl : Claims) :
  select_one (λ u, u_id u = uid) (users s) = Some u →
  token_epoch u < now0 → getEpochFloor (floor s) uid ≤ now0 →
  c_sub cl = uid → c_iat cl = now0 →
  (checkTokenEpoch cl (bumpTokenEpoch now0 uid fail s).2).1 = inr tt.
Proof.
  intros Hu He Hf Hsub Hiat. rewrite check_epoch_run, (bump_run _ _ _ _ u) by done.
  rewrite bool_decide_eq_false_2; [done|]. unfold epoch_of. rewrite Hsub.
  change (readTokenEpoch (inr _, with_published _ ?x).2 uid) with (readTokenEpoch x uid).
  simpl. change (readTokenEpoch (with_published ?l ?x) uid) with (readTokenEpoch x uid).
  rewrite read_bumped, Hu. simpl. rewrite decide_True by done. lia.
Qed.

(** The floor of a user only rises, whatever arrives on the bus. *)
Lemma floor_rises uid e f v : getEpochFloor f v ≤ getEpochFloor (noteEpochBump uid e f) v.
Proof.
  destruct e as [e|]; simpl; [|lia]. case_decide; unfold getEpochFloor; simpl.
  - case_bool_decide; lia.
  - case_bool_decide; [|lia]. destruct (decide (v = uid)) as [->|].
    + rewrite lookup_insert_eq. simpl. lia.
    + rewrite lookup_insert_ne by done. lia.
Qed.

(** Logging out everywhere. The user's epoch rises past every token issued in
    an earlier second, every refresh token of the user that is in the table is
    revoked, and the tokens of the others are not touched. *)
Theorem logout_all_spec (e : Env) (ca : Caller) (s : Auth) (u : UserRow) :
  select_one (λ u, u_id u = ca_user ca) (users s) = Some u →
  let oa := run_seg (handleLogoutAll e ca) s in
  oa.1 = Done (RStatus 204)
  ∧ now e ≤ readTokenEpoch oa.2 (ca_user ca)
  ∧ refresh_tokens oa.2
    = update_where (λ r, rt_user r = ca_user ca ∧ revoked_at r = None)
        (set_revoked (now e) "logout_all") (refresh_tokens s)
  ∧ (∀ r, r ∈ refresh_tokens oa.2 → rt_user r = ca_user ca → revoked_at r ≠ None).
Proof.
  intros Hu oa. unfold oa, handleLogoutAll, run_seg, fbind.
  rewrite (bump_run _ _ _ _ u) by done. simpl. split; [done|]. split; [|split; [done|]].
  - change (now e ≤ readTokenEpoch (with_users (update_where (λ u, u_id u = ca_user ca)
       (bump (now e)) (users s)) s) (ca_user ca)).
    rewrite read_bumped, Hu. simpl. rewrite decide_True by done. lia.
  - intros r (r0 & _ & ->)%elem_of_update_where. case_decide as Hd; [done|].
    intros Hru Hl. by apply Hd.
Qed.

End RotationTheorems.
