(* ===== verification/RotationRuns.v ===== *)
(** * Runs of the session system

    Runs of the server on the instances of [AuthInstances.v]: the theorems of [RotationTheorems.v]
    applied to a state the server reaches, and three runs in which a session
    outlives what should have ended it. *)

From S2P Require Import Prelude Paths AuthState Rotation AuthInstances ServiceTokens RotationSafety RotationTheorems.
Local Open Scope Z_scope.

Module RotationRuns.
Import Rotation AuthInstances ServiceTokens RotationSafety RotationTheorems.

(** ** The server of the runs *)

Definition ctx : Ctx := mkCtx "https://c" (mkRegistry "key" None) (λ _, None).

Definition env (t : Z) (tag : string) : Env :=
  mkEnv t (λ n, tag +:+ "-" +:+ pretty n) (λ _, None).

Definition alice : UserRow :=
  mkUser "alice" "org1" "a@x" None "github" "7" None None "admin" None 0.

Definition db0 : Auth := mkAuth [] [alice] [] [] [] [] (mkFloor 0 ∅) [] [].

Definition sys0 : Sys := mkSys db0 [] ∅ [].

(** The steps as functions. *)
Definition do_login (e : Env) (s : Sys) : Sys :=
  let o := mintTokenPair e ctx "alice" "org1" "admin" None (Some "fp") None in
  next s (auth s) (inflight s ++ pend o) (record_mint o (fam s)).

Definition do_begin (e : Env) (token : string) (s : Sys) : Sys :=
  let oa := run_seg (begin ctx e (Some [("refresh_token", token)]) (Some "fp")) (auth s) in
  next s oa.2 (inflight s ++ pend oa.1) (fam s).

Definition outcome_at (e : Env) (i : nat) (s : Sys) : option Outcome :=
  p ← inflight s !! i; Some (run_seg (resume ctx e p Signed) (auth s)).1.

Definition do_resume (e : Env) (i : nat) (s : Sys) : Sys :=
  match inflight s !! i with
  | Some p =>
      let oa := run_seg (resume ctx e p Signed) (auth s) in
      next s oa.2 (delete i (inflight s) ++ pend oa.1) (record_mint oa.1 (fam s))
  | None => s
  end.

Definition do_logout (e : Env) (f : string) (s : Sys) : Sys :=
  next s (run_seg (handleLogout e (mkCaller "alice" "admin" (Some f))) (auth s)).2 (inflight s) (fam s).

(** Freshness of draws, decided. *)
Definition freshb (e : Env) (s : Sys) : bool :=
  bool_decide (fam s !! draw e 1 = None)
  && forallb (λ kv : string * option string,
       negb (bool_decide (kv.2 = Some (draw e 0)))
       && negb (bool_decide (kv.2 = Some ("service:" +:+ draw e 0)))) (map_to_list (fam s)).

Lemma freshb_fresh e s : freshb e s = true → fresh e s.
Proof.
  unfold freshb. rewrite andb_true_iff, forallb_forall. intros [H1%bool_decide_eq_true H2].
  assert (∀ j v, fam s !! j = Some v → v ≠ Some (draw e 0) ∧ v ≠ Some ("service:" +:+ draw e 0)) as H3.
  { intros j v Hj. specialize (H2 (j, v)). rewrite <- list_elem_of_In, elem_of_map_to_list in H2.
    specialize (H2 Hj). rewrite andb_true_iff, !negb_true_iff, !bool_decide_eq_false in H2. done. }
  split_and!; [done| |]; intros j Hj; by destruct (H3 j _ Hj).
Qed.

Lemma steps_login e s : freshb e s = true → steps ctx s (do_login e s).
Proof. intros Hf%freshb_fresh. eapply steps_step; [by apply SLogin|constructor]. Qed.

Lemma steps_begin e t s : steps ctx s (do_begin e t s).
Proof.
  eapply steps_step; [|constructor]. eapply SBegin. apply surjective_pairing.
Qed.

Lemma steps_resume e i s : freshb e s = true → steps ctx s (do_resume e i s).
Proof.
  intros Hf%freshb_fresh. unfold do_resume. destruct (inflight s !! i) as [p|] eqn:E; [|constructor].
  eapply steps_step; [|constructor]. eapply SResume; [exact E|exact Hf|]. apply surjective_pairing.
Qed.

Lemma steps_logout e f s : steps ctx s (do_logout e f s).
Proof. eapply steps_step; [apply SLogout|constructor]. Qed.

Lemma steps_trans s s' s'' : steps ctx s s' → steps ctx s' s'' → steps ctx s s''.
Proof. induction 1; [done|]. intros. econstructor; eauto. Qed.

Lemma steps_at s s' : s = s' → steps ctx s s'.
Proof. intros ->. constructor. Qed.

Lemma reachable_sys0 : reachable ctx sys0.
Proof. exists sys0. split; [done|constructor]. Qed.

(** ** Alice signs in at time 100; her first refresh token is [token_a]. *)

Definition signed_in : Sys :=
  do_resume (env 100 "l3") 0 (do_resume (env 100 "l2") 0 (do_login (env 100 "l1") sys0)).

Definition family_a : string := "l1-0".

Definition token_a : string :=
  sign "key" (mintRefreshJWT 100 "https://c" (mkRefreshClaims "alice" "org1" family_a None)
                REFRESH_TTL_S None "l1-1").

Example signed_in_ok : live family_a (auth signed_in) = 1%nat ∧ inflight signed_in = [].
Proof. vm_compute. split; reflexivity. Qed.


(** ** A second request while the first one is signing *)

Definition rotating : Sys :=
  do_resume (env 200 "r1") 0 (do_begin (env 200 "b1") token_a signed_in).

Definition retried : Sys := do_begin (env 201 "b2") token_a rotating.

Definition revoked_chain : Sys := do_resume (env 201 "r2") 1 retried.

Definition revived : Sys :=
  do_resume (env 202 "r5") 0 (do_resume (env 202 "r4") 0 (do_resume (env 202 "r3") 0 revoked_chain)).

Lemma signed_in_reachable : steps ctx sys0 signed_in.
Proof.
  unfold signed_in. do 2 (eapply steps_trans; [|apply steps_resume; vm_compute; reflexivity]).
  apply steps_login. vm_compute. reflexivity.
Qed.

Lemma retried_reachable : reachable ctx retried.
Proof.
  eapply reachable_steps; [exact reachable_sys0|]. unfold retried, rotating.
  eapply steps_trans; [exact signed_in_reachable|].
  eapply steps_trans; [|apply steps_begin].
  eapply steps_trans; [apply steps_begin|]. apply steps_resume. vm_compute. reflexivity.
Qed.

Lemma revoked_chain_revived : steps ctx revoked_chain revived.
Proof.
  unfold revived. do 2 (eapply steps_trans; [|apply steps_resume; vm_compute; reflexivity]).
  apply steps_resume. vm_compute. reflexivity.
Qed.

(** Chain revocation can be overtaken. There is a reachable state in which a
    request detects reuse, revokes the family and answers 401 "Refresh token
    chain revoked", after which the family has no live row; a rotation that was
    waiting for its signatures then inserts its successor, and the family has a
    live token again. *)
Theorem chain_revocation_overtaken :
  reachable ctx retried
  ∧ outcome_at (env 201 "r2") 1 retried
    = Some (Done (RError 401 "invalid_grant" "Refresh token chain revoked"))
  ∧ revoked_chain = do_resume (env 201 "r2") 1 retried
  ∧ live family_a (auth revoked_chain) = 0%nat
  ∧ steps ctx revoked_chain revived
  ∧ live family_a (auth revived) = 1%nat.
Proof.
  split; [exact retried_reachable|]. split; [vm_compute; reflexivity|]. split; [reflexivity|].
  split; [vm_compute; reflexivity|]. split; [exact revoked_chain_revived|]. vm_compute. reflexivity.
Qed.

(** ** A retry within the grace window after a logout *)

Definition rotated : Sys :=
  do_resume (env 200 "r5") 0 (do_resume (env 200 "r4") 0 (do_resume (env 200 "r3") 0 rotating)).

Definition logged_out : Sys := do_logout (env 205 "o") family_a rotated.

Definition after_retry : Sys :=
  do_resume (env 207 "r8") 0 (do_resume (env 207 "r7") 0 (do_begin (env 207 "b2") token_a logged_out)).

Lemma rotated_steps : steps ctx sys0 rotated.
Proof.
  unfold rotated, rotating. do 3 (eapply steps_trans; [|apply steps_resume; vm_compute; reflexivity]).
  eapply steps_trans; [|apply steps_resume; vm_compute; reflexivity].
  eapply steps_trans; [exact signed_in_reachable|apply steps_begin].
Qed.

Lemma logged_out_reachable : reachable ctx logged_out.
Proof.
  eapply reachable_steps; [exact reachable_sys0|]. eapply steps_trans; [exact rotated_steps|apply steps_logout].
Qed.

(** The grace window outlives a logout. There is a reachable state, after the
    user logged out, in which no token of the family is live, and a client that
    presents the token it rotated seven seconds earlier is given a new pair: the
    access token is valid for the rest of its fifteen minutes. *)
Theorem grace_outlives_logout :
  reachable ctx logged_out
  ∧ live family_a (auth logged_out) = 0%nat
  ∧ steps ctx logged_out after_retry
  ∧ ∃ access refresh,
      outcome_at (env 207 "r9") 0 after_retry = Some (Done (RTokens access refresh))
      ∧ typ access = Some "access" ∧ sub access = Some "alice" ∧ exp access = Some (200 + ACCESS_TTL_S).
Proof.
  split; [exact logged_out_reachable|]. split; [vm_compute; reflexivity|]. split.
  - unfold after_retry. do 2 (eapply steps_trans; [|apply steps_resume; vm_compute; reflexivity]).
    apply steps_begin.
  - do 2 eexists. split; [vm_compute; reflexivity|]. vm_compute. repeat split; reflexivity.
Qed.

(** The pair given to a retry is not the pair of the rotation: whatever the
    times of signing, the refresh token signed again for a successor differs from
    the one the rotation signed, which does not name its parent. *)
Theorem remint_not_identical (c : Ctx) (e1 e2 : Env) (m : Mint) (acc acc' : Jwt) (old : string) (s s' : Auth)
    (original again : Jwt) (created : Z) :
  (run_seg (resume c e1 (PSignAccess m acc) Signed) s).1 = Wait (PSignRefresh m acc original) →
  (run_seg (resume c e2 (PRemintAccess (set_parent old (minted_row created m)) acc') Signed) s').1
    = Wait (PRemintRefresh acc' again) →
  j_jti original = j_jti again ∧ original ≠ again.
Proof. simpl. intros [= <-] [= <-]. split; [done|]. intros [=]. Qed.

Definition mint_b : Mint := mkMint "alice" "org1" "admin" family_a "b" (Some "fp") 1000 10 (Some "a").

Lemma remint_not_identical_witness :
  ∃ original again : Jwt, j_jti original = j_jti again ∧ original ≠ again.
Proof.
  do 2 eexists.
  apply (remint_not_identical ctx (env 10 "x") (env 12 "y") mint_b
           (mintAccessJWT 0 "" (mkAccess "" "" "" "" false None) 0 None "")
           (mintAccessJWT 0 "" (mkAccess "" "" "" "" false None) 0 None "") "a" db0 db0 _ _ 10);
    reflexivity.
Defined.

(** ** The theorems at these states *)

Lemma one_live_token_witness :
  (weight family_a retried ≤ 1)%nat
  ∧ ∀ r r', r ∈ refresh_tokens (auth retried) → r' ∈ refresh_tokens (auth retried) →
      live_in family_a r → live_in family_a r' → r = r'.
Proof. apply (one_live_token ctx retried family_a). exact retried_reachable. Defined.

Lemma rotated_reachable : reachable ctx rotated.
Proof. eapply reachable_steps; [exact reachable_sys0|exact rotated_steps]. Qed.

Definition row_a (s : Sys) : RefreshRow :=
  default (minted_row 0 mint_b) (select_one (λ r, jti r = "l1-1") (refresh_tokens (auth s))).

Lemma row_a_in s : jti (row_a s) = "l1-1" → row_a s ∈ refresh_tokens (auth s).
Proof.
  unfold row_a. destruct (select_one _ _) as [r|] eqn:E; simpl; [|done].
  apply select_one_Some in E. tauto.
Qed.

Lemma revocation_final_witness :
  revoked_at (row_a logged_out) = Some 200
  ∧ revoked_reason (row_a logged_out) = revoked_reason (row_a rotated).
Proof.
  apply (revocation_final ctx rotated logged_out (row_a rotated) (row_a logged_out) 200).
  - exact rotated_reachable.
  - apply steps_logout.
  - apply row_a_in. vm_compute. reflexivity.
  - vm_compute. reflexivity.
  - apply row_a_in. vm_compute. reflexivity.
  - vm_compute. reflexivity.
Defined.


Definition deciding : Sys := do_begin (env 200 "b1") token_a signed_in.

Definition check_at (i : nat) (s : Sys) : Check :=
  match inflight s !! i with
  | Some (PDecide k _ _) => k
  | _ => mkCheck (mkClaims "" "" 0) (minted_row 0 mint_b) None 0 None
  end.

Lemma deciding_reachable : reachable ctx deciding.
Proof.
  eapply reachable_steps; [exact reachable_sys0|].
  eapply steps_trans; [exact signed_in_reachable|apply steps_begin].
Qed.

Lemma exchanged_once_witness :
  ¬ rotates "l1-1" (run_seg (resume ctx (env 201 "r2") (PDecide (check_at 1 retried) false false) Signed)
                      (auth retried)).1.
Proof.
  apply (exchanged_once ctx deciding rotating retried 0 (env 200 "r1") (env 201 "r2") "l1-1"
           (check_at 0 deciding) (check_at 1 retried) false false false false Signed Signed).
  - exact deciding_reachable.
  - vm_compute. reflexivity.
  - apply freshb_fresh. vm_compute. reflexivity.
  - vm_compute. reflexivity.
  - vm_compute. reflexivity.
  - apply steps_begin.
Defined.

(** The first token, presented long after it was rotated. *)
Definition stolen : Sys := do_begin (env 300 "b3") token_a rotated.

Lemma stolen_reachable : reachable ctx stolen.
Proof.
  eapply reachable_steps; [exact reachable_sys0|].
  eapply steps_trans; [exact rotated_steps|apply steps_begin].
Qed.

Lemma reuse_ends_family_witness :
  (run_seg (resume ctx (env 300 "r9") (PDecide (check_at 0 stolen) false false) Signed) (auth stolen)).1
    = Done (RError 401 "invalid_grant" "Refresh token chain revoked")
  ∧ live family_a (auth (do_resume (env 300 "r9") 0 stolen)) = 0%nat.
Proof.
  apply (reuse_ends_family ctx stolen (do_resume (env 300 "r9") 0 stolen) 0 (env 300 "r9")
           (check_at 0 stolen) false false Signed family_a 200).
  - exact stolen_reachable.
  - vm_compute. reflexivity.
  - apply freshb_fresh. vm_compute. reflexivity.
  - vm_compute. reflexivity.
  - vm_compute. reflexivity.
  - discriminate.
  - left. vm_compute. discriminate.
  - vm_compute. reflexivity.
  - apply steps_at. vm_compute. reflexivity.
Defined.

(** The first token, presented five seconds after its rotation by another client. *)
Definition replayed : Check :=
  let k := check_at 0 (do_begin (env 205 "b4") token_a rotated) in
  mkCheck (k_claims k) (k_row k) (Some "other") (k_now k) (k_user k).

Definition successor_b : RefreshRow :=
  default (minted_row 0 mint_b)
    (select_one (λ r, parent_jti r = Some "l1-1") (refresh_tokens (auth rotated))).

Lemma foreign_replay_spec_witness :
  let oa := run_seg (handleReuseBranch (env 205 "r10") ctx replayed false) (auth rotated) in
  (∃ d, oa.1 = Done (RError 401 "invalid_grant" d))
  ∧ (if bool_decide (REPLAY_THRESHOLD ≤ replay_count (row_a rotated) + 1)
     then family_revoked family_a oa.2
     else refresh_tokens oa.2
          = update_where (λ r, jti r = c_jti (k_claims replayed))
              (λ r, set_replay (replay_count r + 1) r) (refresh_tokens (auth rotated))).
Proof.
  apply (foreign_replay_spec ctx (env 205 "r10") replayed false (auth rotated) family_a 200
           (row_a rotated) successor_b).
  - vm_compute. reflexivity.
  - vm_compute. reflexivity.
  - vm_compute. reflexivity.
  - vm_compute. reflexivity.
  - discriminate.
  - exact (inv_nodup _ (reachable_inv ctx _ rotated_reachable)).
  - apply row_a_in. vm_compute. reflexivity.
  - vm_compute. reflexivity.
  - vm_compute. reflexivity.
  - right. vm_compute. discriminate.
Defined.


Lemma epoch_bump_refuses_witness :
  let s' := (bumpTokenEpoch 500 "alice" (Done RThrow) db0).2 in
  (token_epoch alice < readTokenEpoch s' "alice" ∧ 500 ≤ readTokenEpoch s' "alice")
  ∧ (∀ v, v ≠ "alice" → readTokenEpoch s' v = readTokenEpoch db0 v)
  ∧ (c_sub (mkClaims "alice" "x" 499) = "alice" →
     c_iat (mkClaims "alice" "x" 499) < 500 ∨ c_iat (mkClaims "alice" "x" 499) ≤ token_epoch alice →
     (checkTokenEpoch (mkClaims "alice" "x" 499) s').1
     = inl (Done (RError 400 "invalid_grant" "Session invalidated by admin"))).
Proof. apply (epoch_bump_refuses 500 "alice" (Done RThrow) db0 alice). vm_compute. reflexivity. Defined.

Lemma same_second_survives_witness :
  (checkTokenEpoch (mkClaims "alice" "x" 500) (bumpTokenEpoch 500 "alice" (Done RThrow) db0).2).1 = inr tt.
Proof.
  apply (same_second_survives 500 "alice" (Done RThrow) db0 alice (mkClaims "alice" "x" 500)).
  - vm_compute. reflexivity.
  - vm_compute. reflexivity.
  - vm_compute. discriminate.
  - reflexivity.
  - reflexivity.
Defined.

Lemma logout_all_spec_witness :
  let oa := run_seg (handleLogoutAll (env 400 "o") (mkCaller "alice" "admin" None)) (auth rotated) in
  oa.1 = Done (RStatus 204)
  ∧ 400 ≤ readTokenEpoch oa.2 "alice"
  ∧ refresh_tokens oa.2
    = update_where (λ r, rt_user r = "alice" ∧ revoked_at r = None)
        (set_revoked 400 "logout_all") (refresh_tokens (auth rotated))
  ∧ (∀ r, r ∈ refresh_tokens oa.2 → rt_user r = "alice" → revoked_at r ≠ None).
Proof.
  apply (logout_all_spec (env 400 "o") (mkCaller "alice" "admin" None) (auth rotated) alice).
  vm_compute. reflexivity.
Defined.

End RotationRuns.
