(* ===== verification/Authenticate.v ===== *)
(** * Authentication of requests ([src/auth.ts])

    Two generations of tokens: those of an agent, signed without a [kid], and
    those of a session or a service, signed with one. [authenticateRequest]
    chooses the verifier by the header of the token. Signature verification is
    the interface [Jose] of [AuthState.v]. *)

From S2P Require Import Prelude Paths AuthState Rotation ServiceTokens.
Local Open Scope Z_scope.

Module Authenticate.
Import Rotation ServiceTokens.

Record AuthClaims := mkAuthClaims {
  a_sub : string;
  a_user_id : string;
  a_org : string;
  a_role : string;
  a_jti : string;
  a_active_org : option string;
  a_family : option string;
  a_service : bool;
  a_scope : option string
}.

(** The keys of [initAuth] and the wiring of [initPhase2Auth]. *)
Record AuthConfig := mkAuthConfig {
  signingKey : string;
  prevKey : option string;
  defaultExpiry : Z;
  phase2 : option (JwtKeyRegistry * string)
}.

Inductive AuthError := JWTExpired | AuthFailed (message : string).

Definition SESSION_CLOCK_TOLERANCE_S : Z := 30.

Section auth.
Context `{Jose} (cfg : AuthConfig).

(** [createToken] *)
Definition createToken (e : Env) (agentId role : string) (user_id org : option string) : Jwt :=
  mkJwt None None (Some agentId) None None None (Some role) (Some (draw e 0)) (Some (now e))
    (Some (now e + defaultExpiry cfg)) false None None
    (Some (default agentId user_id)) (Some (default "default" org)).

(** The current key, then the previous one when the signature does not match. *)
Definition verify_two_keys (e : Env) (tolerance : Z) (token : string) : VerifyResult :=
  match jwtVerify_key (now e) None tolerance (signingKey cfg) token with
  | VInvalid =>
      match prevKey cfg with
      | Some k => jwtVerify_key (now e) None tolerance k token
      | None => VInvalid
      end
  | r => r
  end.

Definition claims1 (e : Env) (j : Jwt) (s role : string) : AuthClaims :=
  mkAuthClaims s (default "legacy" (j_user_id j)) (default "default" (j_org j)) role
    (default (draw e 0) (j_jti j)) None None false None.

Definition known_role (allowed : list string) (r : option string) : string :=
  match r with
  | Some r => if bool_decide (r ∈ allowed) then r else "member"
  | None => "member"
  end.

Definition hasV07 (j : Jwt) : bool := bool_decide (j_user_id j ≠ None) && bool_decide (j_org j ≠ None).

Definition verifyToken (e : Env) (token : string) : AuthError + AuthClaims :=
  match verify_two_keys e 0 token with
  | VExpired _ => inl JWTExpired
  | VInvalid => inl (AuthFailed "signature verification failed")
  | VOk j =>
      match truthy (sub j) with
      | None => inl (AuthFailed "Missing sub claim in token")
      | Some s =>
          match j_role j with
          | Some r => if bool_decide (r ∈ ["agent"; "admin"; "member"]) then inr (claims1 e j s r)
                      else inl (AuthFailed "Invalid role in token")
          | None => inl (AuthFailed "Invalid role in token")
          end
      end
  end.

Definition verifyTokenStrict (e : Env) (token : string) : AuthError + (AuthClaims * bool) :=
  match verify_two_keys e 0 token with
  | VExpired _ => inl JWTExpired
  | VInvalid => inl (AuthFailed "signature verification failed")
  | VOk j =>
      match truthy (sub j) with
      | None => inl (AuthFailed "Missing sub claim in token")
      | Some s =>
          let role := known_role ["agent"; "admin"; "member"; "internal"] (j_role j) in
          inr (claims1 e j s role, negb (hasV07 j))
      end
  end.

(** [refreshToken]; [grace] is the grace period in seconds. *)
Definition refreshToken (e : Env) (authEnabled : bool) (grace : Z) (token : string) : AuthError + Jwt :=
  let mint c := createToken e (a_sub c) (a_role c) (Some (a_user_id c)) (Some (a_org c)) in
  match verifyTokenStrict e token with
  | inr (c, wasLegacy) =>
      if wasLegacy && authEnabled
      then inl (AuthFailed "v0.6 token rejected: upgrade required (AUTH_ENABLED=true)")
      else if decide (a_role c = "internal")
      then inl (AuthFailed "'internal' role tokens cannot be refreshed")
      else inr (mint c)
  | inl JWTExpired =>
      match verify_two_keys e grace token with
      | VExpired _ => inl JWTExpired
      | VInvalid => inl (AuthFailed "signature verification failed")
      | VOk j =>
          match truthy (sub j) with
          | None => inl (AuthFailed "Missing sub claim in token")
          | Some s =>
              if decide (j_role j = Some "internal")
              then inl (AuthFailed "'internal' role tokens cannot be refreshed")
              else if negb (hasV07 j) && authEnabled
              then inl (AuthFailed "v0.6 token rejected: upgrade required (AUTH_ENABLED=true)")
              else inr (mint (claims1 e j s (known_role ["agent"; "admin"; "member"] (j_role j))))
          end
      end
  | inl err => inl err
  end.

(** ** Revoked agents *)

Definition isRevoked (s : Auth) (orgId agentId : string) : bool :=
  bool_decide ((orgId, agentId) ∈ revoked_agents s).

Definition revokeAgent (orgId agentId : string) (s : Auth) : Auth :=
  with_revoked_agents (if isRevoked s orgId agentId then revoked_agents s
                       else revoked_agents s ++ [(orgId, agentId)]) s.

(** ** Requests *)

(** [query_token] is [new URL(url).searchParams.get("token")], nothing when the
    URL does not parse; [session_cookie] the value [parseCookies] finds. *)
Record Request := mkRequest {
  method : string;
  url : string;
  authorization : option string;
  query_token : option string;
  session_cookie : option string
}.

Inductive AuthResult := AuthOk (c : AuthClaims) | AuthNo (status : Z) (error : string).

Definition ADMIN_ONLY_ROUTES : list string := ["/api/auth/revoke"; "/api/reset"].

(** [url.split(/[?#]/)[0]] *)
Fixpoint path_only (u : string) : string :=
  match u with
  | EmptyString => EmptyString
  | String a u => if decide (a = "?"%char ∨ a = "#"%char) then EmptyString else String a (path_only u)
  end.

Definition applyRouteGuards (s : Auth) (r : AuthResult) (req : Request) : AuthResult :=
  match r with
  | AuthNo _ _ => r
  | AuthOk c =>
      if isRevoked s (a_org c) (a_sub c) then AuthNo 403 "Agent has been revoked"
      else if bool_decide (path_only (url req) ∈ ADMIN_ONLY_ROUTES) && negb (bool_decide (a_role c = "admin"))
      then AuthNo 403 "Admin access required"
      else r
  end.

(** [hasKidHeader] *)
Definition hasKidHeader (token : string) : bool := bool_decide (header_kid token ≠ None).

Definition verifyPhase2SessionCookie (e : Env) (s : Auth) (reg : JwtKeyRegistry) (publicUrl token : string)
    : AuthResult :=
  match jwtVerify_kid (now e) reg publicUrl SESSION_CLOCK_TOLERANCE_S token with
  | VExpired _ | VInvalid => AuthNo 401 "Invalid session cookie"
  | VOk j =>
      if negb (bool_decide (typ j = Some "access")) then AuthNo 401 "Invalid session"
      else
        match truthy (sub j) with
        | None => AuthNo 401 "Invalid session cookie"
        | Some u =>
            match iat j with
            | None => AuthNo 401 "Invalid session cookie"
            | Some t =>
                if bool_decide (t < epoch_of s u) then AuthNo 401 "Session invalidated"
                else
                  let ok :=
                    AuthOk (mkAuthClaims u u (default "default" (active_org_id j))
                      (known_role ["admin"; "member"; "service"; "agent"] (j_role j))
                      (default (draw e 0) (j_jti j)) (active_org_id j) (j_family j) (service_account j)
                      (c ← scope j; if bool_decide (c ∈ ["read"; "write"; "admin"]) then Some c else None)) in
                  if service_account j then
                    match j_jti j with
                    | None => AuthNo 401 "Invalid service token"
                    | Some i => if verifyServiceTokenJti s i then ok else AuthNo 401 "Service token revoked"
                    end
                  else ok
            end
        end
  end.

(** The credential of the header, or of the query of a GET. *)
Definition effectiveAuthHeader (req : Request) : option string :=
  match truthy (authorization req) with
  | Some h => Some h
  | None => if decide (method req = "GET") then (λ q, "Bearer " +:+ q) <$> truthy (query_token req) else None
  end.

(** [startsWith("Bearer ")] and [slice(7)]. *)
Definition bearer (h : option string) : option string :=
  h ← h; if startsWith "Bearer " h then Some (Paths.slice 7 h) else None.

Definition legacy_claims (e : Env) : AuthClaims :=
  mkAuthClaims "legacy" "legacy" "default" "admin" (draw e 0) None None false None.

Definition verify_bearer (e : Env) (s : Auth) (authEnabled : bool) (token : string) : AuthResult :=
  match verifyTokenStrict e token with
  | inl JWTExpired => AuthNo 401 "Token expired"
  | inl (AuthFailed _) => AuthNo 401 "Invalid or expired token"
  | inr (c, wasLegacy) =>
      if decide (a_role c = "internal") then AuthNo 401 "Invalid or expired token"
      else if wasLegacy && authEnabled
      then AuthNo 401 "v0.6 token rejected: upgrade required (AUTH_ENABLED=true)"
      else AuthOk c
  end.

Definition authenticateRequest (e : Env) (s : Auth) (authEnabled : bool) (req : Request) : AuthResult :=
  let h := effectiveAuthHeader req in
  let cookie := match h, phase2 cfg with
                | None, Some p2 => (λ ck, (p2, ck)) <$> truthy (session_cookie req)
                | _, _ => None
                end in
  match cookie with
  | Some ((reg, pub), ck) => applyRouteGuards s (verifyPhase2SessionCookie e s reg pub ck) req
  | None =>
      match bearer h with
      | None => if authEnabled then AuthNo 401 "Missing or invalid Authorization header"
                else AuthOk (legacy_claims e)
      | Some token =>
          match phase2 cfg, hasKidHeader token with
          | Some (reg, pub), true => applyRouteGuards s (verifyPhase2SessionCookie e s reg pub token) req
          | _, _ =>
              match verify_bearer e s authEnabled token with
              | AuthNo st err => AuthNo st err
              | AuthOk c => applyRouteGuards s (AuthOk c) req
              end
          end
      end
  end.

(** ** [POST /api/auth/revoke]: the route of [handleRevoke] *)
Definition revokeEndpoint (e : Env) (s : Auth) (req : Request) (token_jti : option string)
    : Response * Auth :=
  match authenticateRequest e s true req with
  | AuthNo st err => (RError st "UNAUTHORIZED" err, s)
  | AuthOk c =>
      match run_seg (handleRevoke e (mkCaller (a_user_id c) (a_role c) (a_family c)) token_jti) s with
      | (Done r, s') => (r, s')
      | (Wait _, s') => (RThrow, s')
      end
  end.

End auth.
End Authenticate.
