(* ===== verification/AuthTheorems.v ===== *)
(** * What an authenticated request has shown

    Guards that every path of [authenticateRequest] runs, the separation of
    access and refresh tokens, the immediate effect of revoking a service token,
    and the roles that can come out of a renewal. *)

From S2P Require Import Prelude Paths AuthState Rotation AuthInstances ServiceTokens Authenticate.
Local Open Scope Z_scope.

Module AuthTheorems.
Import Rotation ServiceTokens Authenticate.

Section theorems.
Context `{Jose} (cfg : AuthConfig).

(** What a session or service token has shown. *)
Definition session_shown (e : Env) (s : Auth) (reg : JwtKeyRegistry) (pub token : string) (c : AuthClaims) : Prop :=
  ∃ k key j,
    header_kid token = Some k ∧ k ∈ ACCEPTED_KIDS ∧ getKey reg k = Some key ∧ open key token = Some j
    ∧ iss j = Some pub ∧ typ j = Some "access" ∧ sub j = Some (a_sub c)
    ∧ (∀ x, exp j = Some x → now e - SESSION_CLOCK_TOLERANCE_S < x)
    ∧ (∃ t, iat j = Some t ∧ epoch_of s (a_sub c) ≤ t)
    ∧ (service_account j = true → ∃ i, j_jti j = Some i ∧ verifyServiceTokenJti s i = true)
    ∧ a_role c ∈ ["admin"; "member"; "service"; "agent"].

Lemma known_role_in l r : "member" ∈ l → known_role l r ∈ l.
Proof. intros Hm. unfold known_role. destruct r as [r|]; [|done]. by case_bool_decide. Qed.

Lemma jwtVerify_key_ok t issuer tol key token j :
  jwtVerify_key t issuer tol key token = VOk j →
  open key token = Some j ∧ (∀ i, issuer = Some i → iss j = Some i)
  ∧ (∀ x, exp j = Some x → t - tol < x).
Proof.
  unfold jwtVerify_key. destruct (open key token) as [j'|]; [|done].
  destruct (match issuer with Some i => _ | None => _ end) eqn:Ei; [|done].
  intros Hx. assert (j' = j) as ->.
  { destruct (exp j'); [|congruence]. case_bool_decide; congruence. }
  split; [done|]. split.
  - intros i ->. by apply bool_decide_eq_true in Ei.
  - intros x Ex. rewrite Ex in Hx. case_bool_decide; [done|lia].
Qed.

Lemma jwtVerify_kid_ok t reg pub tol token j :
  jwtVerify_kid t reg pub tol token = VOk j →
  ∃ k key, header_kid token = Some k ∧ k ∈ ACCEPTED_KIDS ∧ getKey reg k = Some key
    ∧ open key token = Some j ∧ iss j = Some pub ∧ (∀ x, exp j = Some x → t - tol < x).
Proof.
  unfold jwtVerify_kid, isAcceptedKid. destruct (header_kid token) as [k|]; [|done].
  case_bool_decide; [|done]. destruct (getKey reg k) as [key|] eqn:Ek; [|done].
  intros (? & Hi & ?)%jwtVerify_key_ok. exists k, key. auto 10.
Qed.

Lemma session_verified e s reg pub token c :
  verifyPhase2SessionCookie e s reg pub token = AuthOk c → session_shown e s reg pub token c.
Proof.
  unfold verifyPhase2SessionCookie.
  destruct (jwtVerify_kid _ _ _ _ _) as [j| |] eqn:Ev; [|done..].
  apply jwtVerify_kid_ok in Ev as (k & key & ? & ? & ? & ? & ? & ?).
  destruct (bool_decide (typ j = Some "access")) eqn:Et; [|done]. apply bool_decide_eq_true in Et.
  simpl. destruct (truthy (sub j)) as [u|] eqn:Es; [|done]. apply truthy_inv in Es.
  destruct (iat j) as [t|] eqn:Ei; [|done]. case_bool_decide as He; [done|].
  intros Hc. exists k, key, j.
  assert (a_sub c = u ∧ a_role c = known_role ["admin"; "member"; "service"; "agent"] (j_role j)
    ∧ (service_account j = true → ∃ i, j_jti j = Some i ∧ verifyServiceTokenJti s i = true))
    as (-> & -> & Hs).
  { destruct (service_account j); [|simplify_eq; done]. destruct (j_jti j) as [i|]; [|done].
    destruct (verifyServiceTokenJti s i) eqn:Evs; [|done]. simplify_eq. simpl. eauto 10. }
  split_and!; try done; [exists t; split; [done|lia]|]. apply known_role_in. set_solver.
Qed.

Lemma guards_ok s r req c :
  applyRouteGuards s r req = AuthOk c →
  r = AuthOk c ∧ isRevoked s (a_org c) (a_sub c) = false
  ∧ (path_only (url req) ∈ ADMIN_ONLY_ROUTES → a_role c = "admin").
Proof.
  unfold applyRouteGuards. destruct r as [c'|]; [|done].
  destruct (isRevoked s (a_org c') (a_sub c')) eqn:Er; [done|].
  destruct (bool_decide (path_only (url req) ∈ _) && _) eqn:Eb; [done|]. intros [= <-].
  split; [done|]. split; [done|]. intros Hp. rewrite bool_decide_eq_true_2 in Eb by done.
  simpl in Eb. by apply negb_false_iff, bool_decide_eq_true in Eb.
Qed.

Lemma strict_roles e token c b : verifyTokenStrict cfg e token = inr (c, b) →
  a_role c ∈ ["agent"; "admin"; "member"; "internal"].
Proof.
  unfold verifyTokenStrict. destruct (verify_two_keys _ _ _ _) as [j| |]; [|done..].
  destruct (truthy (sub j)); [|done]. intros [= <- _]. simpl. apply known_role_in. set_solver.
Qed.

Lemma bearer_ok e s en token c :
  verify_bearer cfg e s en token = AuthOk c → a_role c ∈ ["agent"; "admin"; "member"].
Proof.
  unfold verify_bearer. destruct (verifyTokenStrict _ _ _) as [[]|[c' b]] eqn:E; [done..|].
  apply strict_roles in E. case_decide; [done|]. destruct (b && en); [done|]. intros [= <-]. set_solver.
Qed.

Lemma guards_hold (e : Env) (s : Auth) (req : Request) (c : AuthClaims) :
  authenticateRequest cfg e s true req = AuthOk c →
  (effectiveAuthHeader req ≠ None ∨ session_cookie req ≠ None)
  ∧ isRevoked s (a_org c) (a_sub c) = false
  ∧ a_role c ∈ ["admin"; "member"; "service"; "agent"]
  ∧ (path_only (url req) ∈ ADMIN_ONLY_ROUTES → a_role c = "admin").
Proof.
  unfold authenticateRequest. intros Hr.
  destruct (match effectiveAuthHeader req with None => _ | Some _ => _ end) as [[[reg pub] ck]|] eqn:Ec.
  - apply guards_ok in Hr as (Hv & ? & ?). apply session_verified in Hv as (k & key & j & Hv).
    split_and!; try done; [|tauto]. right. destruct (effectiveAuthHeader req); [done|].
    destruct (phase2 cfg); [|done]. intros En. by rewrite En in Ec.
  - destruct (bearer (effectiveAuthHeader req)) as [token|] eqn:Eb; [|done].
    assert (effectiveAuthHeader req ≠ None) as Hh by (intros En; by rewrite En in Eb).
    assert (∀ r, applyRouteGuards s r req = AuthOk c →
      (r = AuthOk c → a_role c ∈ ["admin"; "member"; "service"; "agent"]) →
      isRevoked s (a_org c) (a_sub c) = false ∧ a_role c ∈ ["admin"; "member"; "service"; "agent"]
      ∧ (path_only (url req) ∈ ADMIN_ONLY_ROUTES → a_role c = "admin")) as Hg.
    { intros r (Hv & ? & ?)%guards_ok Hrole. auto. }
    split; [by left|].
    assert (match verify_bearer cfg e s true token with
            | AuthNo st err => AuthNo st err | AuthOk c => applyRouteGuards s (AuthOk c) req end = AuthOk c →
      isRevoked s (a_org c) (a_sub c) = false ∧ a_role c ∈ ["admin"; "member"; "service"; "agent"]
      ∧ (path_only (url req) ∈ ADMIN_ONLY_ROUTES → a_role c = "admin")) as H1.
    { destruct (verify_bearer cfg e s true token) as [c'|] eqn:Ev; [|done]. intros Hr'.
      apply (Hg _ Hr'). intros [= ->]. apply bearer_ok in Ev. set_solver. }
    destruct (phase2 cfg) as [[reg pub]|]; [|auto]. destruct (hasKidHeader token); [|auto].
    apply (Hg _ Hr). intros Hv%session_verified. destruct Hv as (k & key & j & Hv). tauto.
Qed.

(** [C6] The guards of every authenticated request. With authentication enabled,
    a request that is let through presented a credential; its agent is not
    revoked in its organisation; its role is one of the five a REST caller may
    have, never the internal one; and on the admin-only routes, whatever query or
    fragment follows the path, the role is admin. *)
Theorem authenticated_guards (e : Env) (s : Auth) (req : Request) (c : AuthClaims) :
  authenticateRequest cfg e s true req = AuthOk c →
  (effectiveAuthHeader req ≠ None ∨ session_cookie req ≠ None)
  ∧ isRevoked s (a_org c) (a_sub c) = false
  ∧ a_role c ∈ ["admin"; "member"; "service"; "agent"]
  ∧ (path_only (url req) ∈ ADMIN_ONLY_ROUTES → a_role c = "admin").
Proof. apply guards_hold. Qed.

Lemma kid_session_shown e s req c en reg pub token :
  phase2 cfg = Some (reg, pub) →
  bearer (effectiveAuthHeader req) = Some token → header_kid token ≠ None →
  authenticateRequest cfg e s en req = AuthOk c → session_shown e s reg pub token c.
Proof.
  intros Hp Hb Hk. unfold authenticateRequest. rewrite Hb, Hp.
  destruct (effectiveAuthHeader req) as [h|]; [|done].
  unfold hasKidHeader. rewrite bool_decide_eq_true_2 by done.
  intros (Hv & _ & _)%guards_ok. by apply session_verified.
Qed.

(** No downgrade. When sessions are configured, a bearer token that carries a
    key identifier is only accepted after the whole check of sessions: an accepted
    key, the issuer, the type access, the expiry, the epoch of the user, and for a
    service account the row of the token. *)
Theorem kid_never_downgraded (e : Env) (s : Auth) (req : Request) (c : AuthClaims) (en : bool)
    (reg : JwtKeyRegistry) (pub token : string) :
  phase2 cfg = Some (reg, pub) →
  bearer (effectiveAuthHeader req) = Some token → header_kid token ≠ None →
  authenticateRequest cfg e s en req = AuthOk c → session_shown e s reg pub token c.
Proof. intros Hp Hb Hk. by apply kid_session_shown. Qed.

(** Access and refresh tokens are not interchangeable. A token the server
    signed as a refresh token is refused as a session, and one it signed as an
    access token is refused at the refresh endpoint. *)
Theorem token_types_separate (e : Env) (s : Auth) (c : Ctx) (reg : JwtKeyRegistry)
    (pub issuer0 tid : string) (t ttl : Z) (rc : RefreshTokenClaims) (ac : AccessTokenClaims) (o : option Z) :
  (∃ st err, verifyPhase2SessionCookie e s reg pub
     (sign (current_key reg) (mintRefreshJWT t issuer0 rc ttl o tid)) = AuthNo st err) ∧
  (∃ d, (verifyAndValidateClaims c e
     (sign (current_key (registry c)) (mintAccessJWT t issuer0 ac ttl o tid)) s).1
     = inl (Done (RError 400 "invalid_grant" d))).
Proof.
  unfold verifyPhase2SessionCookie, verifyAndValidateClaims, verifyRefreshJwt, jwtVerify_kid, jwtVerify_key.
  rewrite !kid_sign. simpl. rewrite !open_sign. simpl.
  split; repeat case_bool_decide; try done; simpl; repeat eexists; reflexivity.
Qed.

(** A row that was revoked does not verify. *)
Lemma revoked_not_verified {O} e i s :
  verifyServiceTokenJti (revokeServiceToken (O := O) e i s).2 i = false.
Proof.
  unfold verifyServiceTokenJti. simpl.
  destruct (select_one _ _) as [r|] eqn:E; [|done].
  apply select_one_Some in E as [[Hj Hf] (r0 & Hin & ->)%elem_of_update_where].
  apply bool_decide_eq_false. case_decide as Hd; [done|]. intros Hl. apply Hd. auto.
Qed.

(** Revoking a service token takes effect at once: after
    [revokeServiceToken], no request that presents that token as
    a bearer is let through, whatever time it has left. *)
Theorem service_revocation_immediate {O} (e e' : Env) (s : Auth) (req : Request) (en : bool)
    (reg : JwtKeyRegistry) (pub issuer0 i : string) (t ttl : Z) (ac : AccessTokenClaims) :
  phase2 cfg = Some (reg, pub) → ac_service ac = true →
  bearer (effectiveAuthHeader req)
    = Some (sign (current_key reg) (mintAccessJWT t issuer0 ac ttl None i)) →
  ∃ st err, authenticateRequest cfg e' (revokeServiceToken (O := O) e i s).2 en req = AuthNo st err.
Proof.
  intros Hp Hs Hb.
  destruct (authenticateRequest cfg e' _ en req) as [c|st err] eqn:E; [exfalso|eauto].
  apply (kid_session_shown _ _ _ _ _ reg pub _ Hp Hb) in E as (k & key & j & Hk & _ & Hg & Ho & Hrest);
    [|by rewrite kid_sign].
  rewrite kid_sign in Hk. injection Hk as <-. injection Hg as <-. rewrite open_sign in Ho.
  injection Ho as <-. destruct Hrest as (_ & _ & _ & _ & _ & Hsv & _).
  destruct (Hsv Hs) as (i' & [= <-] & Hv). by rewrite revoked_not_verified in Hv.
Qed.


Lemma two_keys_ok e tol token j :
  verify_two_keys cfg e tol token = VOk j →
  ∃ key, (key = signingKey cfg ∨ prevKey cfg = Some key) ∧ open key token = Some j
    ∧ (∀ x, exp j = Some x → now e - tol < x).
Proof.
  unfold verify_two_keys. destruct (jwtVerify_key _ _ _ (signingKey cfg) _) eqn:E; [|done|].
  - intros [= ->]. apply jwtVerify_key_ok in E as (? & _ & ?). eauto.
  - destruct (prevKey cfg) as [k|]; [|done]. intros (? & _ & ?)%jwtVerify_key_ok. eauto.
Qed.

(** Renewing an agent token gives no new right. A token that [refreshToken]
    renews was signed with the current or the previous key and expired at most
    [grace] seconds ago; it did not have the internal role; the new token has its
    subject, its user and its organisation, and its role, or member when that role
    is not one of agent, admin and member. With authentication enabled a token
    without user and organisation is not renewed. *)
Theorem renewal_gives_no_right (e : Env) (en : bool) (grace : Z) (token : string) (j : Jwt) :
  0 ≤ grace → refreshToken cfg e en grace token = inr j →
  ∃ key j0,
    (key = signingKey cfg ∨ prevKey cfg = Some key) ∧ open key token = Some j0
    ∧ (∀ x, exp j0 = Some x → now e - grace < x)
    ∧ j_role j0 ≠ Some "internal" ∧ sub j = sub j0 ∧ kid j = None ∧ typ j = None
    ∧ j_role j = Some (known_role ["agent"; "admin"; "member"] (j_role j0))
    ∧ j_user_id j = Some (default "legacy" (j_user_id j0)) ∧ j_org j = Some (default "default" (j_org j0))
    ∧ (en = true → j_user_id j0 ≠ None ∧ j_org j0 ≠ None).
Proof.
  intros Hgr. unfold refreshToken, verifyTokenStrict.
  assert (∀ j, hasV07 j = true → j_user_id j ≠ None ∧ j_org j ≠ None) as H7.
  { intros j'. unfold hasV07. by rewrite andb_true_iff, !bool_decide_eq_true. }
  destruct (verify_two_keys cfg e 0 token) as [j0| |] eqn:E0; [| |done].
  - destruct (truthy (sub j0)) as [u|] eqn:Es; [|done]. apply truthy_inv in Es.
    destruct (negb (hasV07 j0) && en) eqn:E7; [done|]. simpl. case_decide as Hi; [done|]. intros [= <-].
    apply two_keys_ok in E0 as (key & Hkey & Ho & Hx). exists key, j0. split_and!; try done.
    + intros x Hx'. specialize (Hx x Hx'). lia.
    + intros E. by rewrite E in Hi.
    + simpl. f_equal. unfold known_role in *. destruct (j_role j0) as [r|]; [|done].
      repeat case_bool_decide; set_solver.
    + intros ->. apply H7. by destruct (hasV07 j0).
  - destruct (verify_two_keys cfg e grace token) as [j1| |] eqn:E1; [|done..].
    destruct (truthy (sub j1)) as [u|] eqn:Es; [|done]. apply truthy_inv in Es.
    case_decide as Hi; [done|]. destruct (negb (hasV07 j1) && en) eqn:E7; [done|]. intros [= <-].
    apply two_keys_ok in E1 as (key & Hkey & Ho & Hx). exists key, j1. split_and!; try done.
    intros ->. apply H7. by destruct (hasV07 j1).
Qed.

Definition at_url (u : string) (req : Request) : Request :=
  mkRequest (method req) u (authorization req) (query_token req) (session_cookie req).

(** Apart from the guards, the result does not depend on the URL. *)
Lemma authenticate_at e s u u' req c :
  authenticateRequest cfg e s true (at_url u req) = AuthOk c →
  authenticateRequest cfg e s true (at_url u' req) = applyRouteGuards s (AuthOk c) (at_url u' req).
Proof.
  unfold authenticateRequest, effectiveAuthHeader.
  cbn [method authorization query_token session_cookie at_url].
  set (h := match truthy (authorization req) with Some h => Some h | None => _ end).
  destruct (match h with None => _ | Some _ => _ end) as [[[reg pub] ck]|].
  { intros (-> & _ & _)%guards_ok. done. }
  destruct (bearer h) as [token|]; [|done].
  destruct (phase2 cfg) as [[reg pub]|]; [destruct (hasKidHeader token)|];
    [by intros (-> & _ & _)%guards_ok|..].
  all: destruct (verify_bearer cfg e s true token) as [c'|]; [|done];
    intros (Hc & _ & _)%guards_ok; by injection Hc as ->.
Qed.

(** The owner of a token cannot revoke it. [handleRevoke] lets the owner of a
    token or an admin revoke it, but the route is on the list of the admin-only
    ones: a caller who authenticates elsewhere without the admin role is answered
    403 there and nothing changes, for every token, the caller's own included. *)
Theorem revoke_needs_admin (e : Env) (s : Auth) (req : Request) (c : AuthClaims) (u : string)
    (token_jti : option string) :
  authenticateRequest cfg e s true (at_url u req) = AuthOk c → a_role c ≠ "admin" →
  revokeEndpoint cfg e s (at_url "/api/auth/revoke" req) token_jti
  = (RError 403 "UNAUTHORIZED" "Admin access required", s).
Proof.
  intros Ha Hr. unfold revokeEndpoint. pose proof Ha as Hok.
  rewrite (authenticate_at _ _ u "/api/auth/revoke" _ c Ha). unfold applyRouteGuards.
  assert (isRevoked s (a_org c) (a_sub c) = false) as ->.
  { apply authenticate_at with (u' := u) in Ha. rewrite Hok in Ha. symmetry in Ha.
    by apply guards_ok in Ha as (_ & ? & _). }
  by rewrite (bool_decide_eq_false_2 (a_role c = "admin")).
Qed.

End theorems.

(** ** Concrete requests *)

Import AuthInstances.

Definition reg : JwtKeyRegistry := mkRegistry "key" None.
Definition conf : AuthConfig := mkAuthConfig "key" None 86400 (Some (reg, "https://c")).
Definition env (t : Z) : Env := mkEnv t (λ n, "id" +:+ pretty n) (λ _, None).

Definition svc_claims : AccessTokenClaims := mkAccess "ci" "org1" "service:f" "service" true (Some "read").
Definition svc_token : string := sign "key" (mintAccessJWT 100 "https://c" svc_claims 1000 None "svc").
Definition svc_row : RefreshRow :=
  mkRefresh "svc" "ci" "org1" (Some "service:f") None None None None 1100 (Some 100) 0 100.
Definition state : Auth := mkAuth [svc_row] [] [] [] [] [] (mkFloor 0 ∅) [] [].
Definition get_with (t u : string) : Request := mkRequest "GET" u (Some ("Bearer " +:+ t)) None None.
Definition svc_auth : AuthClaims :=
  mkAuthClaims "ci" "ci" "org1" "service" "svc" (Some "org1") (Some "service:f") true (Some "read").

Lemma authenticated_guards_witness :
  authenticateRequest conf (env 200) state true (get_with svc_token "/api/agents") = AuthOk svc_auth
  ∧ (effectiveAuthHeader (get_with svc_token "/api/agents") ≠ None
     ∨ session_cookie (get_with svc_token "/api/agents") ≠ None)
  ∧ isRevoked state "org1" "ci" = false
  ∧ "service" ∈ ["admin"; "member"; "service"; "agent"]
  ∧ (path_only "/api/agents" ∈ ADMIN_ONLY_ROUTES → "service" = "admin").
Proof.
  split; [vm_compute; reflexivity|].
  apply (authenticated_guards conf (env 200) state (get_with svc_token "/api/agents") svc_auth).
  vm_compute. reflexivity.
Defined.

Lemma kid_never_downgraded_witness :
  session_shown (env 200) state reg "https://c" svc_token svc_auth.
Proof.
  apply (kid_never_downgraded conf (env 200) state (get_with svc_token "/api/agents") svc_auth true
           reg "https://c" svc_token).
  - reflexivity.
  - vm_compute. reflexivity.
  - vm_compute. discriminate.
  - vm_compute. reflexivity.
Defined.

Lemma service_revocation_immediate_witness :
  ∃ st err, authenticateRequest conf (env 201) (revokeServiceToken (O := Outcome) (env 200) "svc" state).2 true
    (get_with svc_token "/api/agents") = AuthNo st err.
Proof.
  apply (service_revocation_immediate conf (O := Outcome) (env 200) (env 201) state
    (get_with svc_token "/api/agents") true reg "https://c" "https://c" "svc" 100 1000 svc_claims).
  - reflexivity.
  - reflexivity.
  - vm_compute. reflexivity.
Defined.

Definition agent_token : string := sign "key" (createToken conf (env 10) "bot" "agent" (Some "u1") (Some "org1")).

Lemma renewal_gives_no_right_witness :
  ∃ j, refreshToken conf (env 87000) true 3600 agent_token = inr j ∧
  ∃ key j0,
    (key = signingKey conf ∨ prevKey conf = Some key) ∧ open key agent_token = Some j0
    ∧ (∀ x, exp j0 = Some x → 87000 - 3600 < x)
    ∧ j_role j0 ≠ Some "internal" ∧ sub j = sub j0 ∧ kid j = None ∧ typ j = None
    ∧ j_role j = Some (known_role ["agent"; "admin"; "member"] (j_role j0))
    ∧ j_user_id j = Some (default "legacy" (j_user_id j0)) ∧ j_org j = Some (default "default" (j_org j0))
    ∧ (true = true → j_user_id j0 ≠ None ∧ j_org j0 ≠ None).
Proof.
  exists (createToken conf (env 87000) "bot" "agent" (Some "u1") (Some "org1")).
  split; [vm_compute; reflexivity|].
  apply (renewal_gives_no_right conf (env 87000) true 3600 agent_token).
  - lia.
  - vm_compute. reflexivity.
Defined.

Lemma revoke_needs_admin_witness :
  revokeEndpoint conf (env 200) state (at_url "/api/auth/revoke" (get_with svc_token "/x")) (Some "svc")
  = (RError 403 "UNAUTHORIZED" "Admin access required", state).
Proof.
  apply (revoke_needs_admin conf (env 200) state (get_with svc_token "/x") svc_auth "/x").
  - vm_compute. reflexivity.
  - discriminate.
Defined.

End AuthTheorems.
