(* ===== verification/DeviceFlow.v ===== *)
(** * The device flow ([src/auth/device-flow.ts], [handleDeviceCodeGrant] of
    [src/auth/oauth-token.ts], [src/auth/csrf.ts])

    A device asks for a code, a signed-in user approves or denies it on another
    screen, and the device polls until it is given tokens. The table
    [device_auth_requests] is the state; signing the tokens is the wait in the
    middle of a poll, and other requests run meanwhile. *)

From S2P Require Import Prelude Paths AuthState Rotation RateLimit Authenticate.
Local Open Scope Z_scope.

Module DeviceFlow.

Definition DEVICE_CODE_TTL_S : Z := 600.
Definition DEFAULT_POLL_INTERVAL_S : Z := 5.
Definition USER_CODE_ALPHABET : string := "BCDFGHJKLMNPQRSTVWXZ".
Definition USER_CODE_LENGTH : nat := 8.
Definition COLLISION_RETRY_MAX : nat := 3.
Definition APPROVE_FAILURE_THRESHOLD : Z := 5.

Definition RATE_LIMIT_PER_MIN : RateLimitConfig := mkConfig 5 60.
Definition RATE_LIMIT_PER_HOUR : RateLimitConfig := mkConfig 20 3600.
Definition APPROVE_RATE_PER_MIN : RateLimitConfig := mkConfig 10 60.
Definition APPROVE_RATE_PER_HOUR : RateLimitConfig := mkConfig 20 3600.

(** A row of [device_auth_requests]. *)
Record DeviceRow := mkDevice {
  device_code : string;
  user_code : string;
  nonce : string;
  approved_user_id : option string;
  approved_at : option Z;
  denied_at : option Z;
  denied_reason : option string;
  expires_at : Z;
  failed_approval_attempts : Z;
  last_polled_at : option Z;
  interval : Z;
  requester_ip : option string;
  requester_user_agent : option string
}.

Definition set_approved (u : string) (t : Z) (d : DeviceRow) : DeviceRow :=
  mkDevice (device_code d) (user_code d) (nonce d) (Some u) (Some t) (denied_at d) (denied_reason d)
    (expires_at d) (failed_approval_attempts d) (last_polled_at d) (interval d)
    (requester_ip d) (requester_user_agent d).

Definition set_denied (t : Z) (reason : string) (d : DeviceRow) : DeviceRow :=
  mkDevice (device_code d) (user_code d) (nonce d) (approved_user_id d) (approved_at d) (Some t)
    (Some reason) (expires_at d) (failed_approval_attempts d) (last_polled_at d) (interval d)
    (requester_ip d) (requester_user_agent d).

Definition set_attempts (n : Z) (d : DeviceRow) : DeviceRow :=
  mkDevice (device_code d) (user_code d) (nonce d) (approved_user_id d) (approved_at d) (denied_at d)
    (denied_reason d) (expires_at d) n (last_polled_at d) (interval d)
    (requester_ip d) (requester_user_agent d).

Definition set_polled (t : Z) (d : DeviceRow) : DeviceRow :=
  mkDevice (device_code d) (user_code d) (nonce d) (approved_user_id d) (approved_at d) (denied_at d)
    (denied_reason d) (expires_at d) (failed_approval_attempts d) (Some t) (interval d)
    (requester_ip d) (requester_user_agent d).

Notation Devices := (list DeviceRow).

(** ** Codes *)

(** [USER_CODE_ALPHABET[crypto.randomInt(0, 20)]]; [r] is the sequence of draws. *)
Definition pick (r : nat → nat) (i : nat) : string :=
  match String.get (r i) USER_CODE_ALPHABET with
  | Some a => String a ""
  | None => ""
  end.

Definition generateUserCode (r : nat → nat) : string :=
  String.concat "" (pick r <$> seq 0 4) +:+ "-" +:+ String.concat "" (pick r <$> seq 4 4).

(** ** [handleDeviceAuthorization]: the row and the retry on a taken code *)

Inductive InsertResult := Inserted (l : Devices) | UserCodeTaken | OtherConstraint.

(** The constraints in the order SQLite checks them. *)
Definition insert_device (d : DeviceRow) (l : Devices) : InsertResult :=
  if bool_decide (device_code d ∈ device_code <$> l) then OtherConstraint
  else if bool_decide (user_code d ∈ user_code <$> l) then UserCodeTaken
  else if bool_decide (nonce d ∈ nonce <$> l) then OtherConstraint
  else Inserted (l ++ [d]).

Definition new_row (now : Z) (ip agent : option string) (code uc nn : string) : DeviceRow :=
  mkDevice code uc nn None None None None (now + DEVICE_CODE_TTL_S) 0 None DEFAULT_POLL_INTERVAL_S ip agent.

Inductive Allocated := Code (uc : string) (l : Devices) | Exhausted | Threw.

(** [attempt i] is the pair of the user code and the nonce drawn at attempt [i];
    the loop runs while [i < COLLISION_RETRY_MAX]. *)
Fixpoint allocate (fuel : nat) (i : nat) (row : string → string → DeviceRow)
    (attempt : nat → string * string) (l : Devices) : Allocated :=
  match fuel with
  | O => Exhausted
  | S fuel =>
      let '(uc, nn) := attempt i in
      match insert_device (row uc nn) l with
      | Inserted l' => Code uc l'
      | UserCodeTaken => allocate fuel (S i) row attempt l
      | OtherConstraint => Threw
      end
  end.

Inductive DeviceResponse :=
  | DRateLimited (retry_after : Z)
  | DIssued (device_code user_code : string) (expires_in interval : Z)
  | DError (status : Z) (code : string)
  | DRedirect (location : string)
  | DOAuthError (error : string)
  | DMinting (user : string)
  | DTokens (user : string)
  | DThrow.

(** What a handler answers and the audit events it writes. *)
Definition Answer : Type := DeviceResponse * list AuditEvent.

Definition quiet (r : DeviceResponse) : Answer := (r, []).

(** The two limits of the address, then the allocation; [T] is the limiter and
    [body_ok] says whether the form could be read. *)
Definition handleDeviceAuthorization `{RateLimiterOps T} (now : Z) (ip : option string)
    (agent : option string) (body_ok : bool) (code : string) (attempt : nat → string * string)
    (t : T) (l : Devices) : Answer * T * Devices :=
  let addr := default "unknown" ip in
  match rl_check now ("device-auth-min:" +:+ addr) RATE_LIMIT_PER_MIN t with
  | (Denied r, t) => (quiet (DRateLimited r), t, l)
  | (Allowed _ _, t) =>
      match rl_check now ("device-auth-hour:" +:+ addr) RATE_LIMIT_PER_HOUR t with
      | (Denied r, t) => (quiet (DRateLimited r), t, l)
      | (Allowed _ _, t) =>
          if negb body_ok then (quiet (DError 400 "INVALID_REQUEST"), t, l) else
          match allocate COLLISION_RETRY_MAX 0
                  (new_row now (if decide (addr = "unknown") then None else ip) agent code) attempt l with
          | Code uc l' =>
              ((DIssued code uc DEVICE_CODE_TTL_S DEFAULT_POLL_INTERVAL_S,
                [mkEvent "auth.device.code_issued" 2 None]), t, l')
          | Exhausted => (quiet (DError 500 "INTERNAL_ERROR"), t, l)
          | Threw => (quiet DThrow, t, l)
          end
      end
  end.

(** ** [verifyCsrfToken] *)
Definition verifyCsrfToken (cookieValue formValue : option string) : bool :=
  match truthy cookieValue, truthy formValue with
  | Some a, Some b => bool_decide (a = b)
  | _, _ => false
  end.

(** ** Approval and denial *)

Definition undecided (now : Z) (uc : string) (d : DeviceRow) : Prop :=
  user_code d = uc ∧ approved_user_id d = None ∧ denied_at d = None ∧ now < expires_at d.

Definition approvable (now : Z) (uc : string) (d : DeviceRow) : Prop :=
  undecided now uc d ∧ failed_approval_attempts d < APPROVE_FAILURE_THRESHOLD.

(** [handleApproveFailure] runs without a wait after the failed UPDATE. *)
Definition handleApproveFailure (now : Z) (base uc : string) (l : Devices) : Answer * Devices :=
  match select_one (λ d, user_code d = uc) l with
  | None => (quiet (DRedirect (base +:+ "/auth/device?error=invalid_code")), l)
  | Some d =>
      if bool_decide (expires_at d ≤ now) then (quiet (DRedirect (base +:+ "/auth/device?error=expired")), l)
      else if bool_decide (approved_user_id d ≠ None ∨ denied_at d ≠ None)
      then (quiet (DRedirect (base +:+ "/auth/device?error=consumed")), l)
      else
        let l := update_where (λ d, user_code d = uc) (λ d, set_attempts (failed_approval_attempts d + 1) d) l in
        let attempts := default 0 (failed_approval_attempts <$> select_one (λ d, user_code d = uc) l) in
        if bool_decide (APPROVE_FAILURE_THRESHOLD ≤ attempts)
        then ((DRedirect (base +:+ "/auth/device?error=lockout"),
               [mkEvent "auth.device.denied" 2 (Some "brute_force")]),
              update_where (λ d, user_code d = uc) (set_denied now "too_many_failed_approvals") l)
        else (quiet (DRedirect (base +:+ "/auth/device?error=consumed")), l)
  end.

Definition approve (now : Z) (base uc user : string) (l : Devices) : Answer * Devices :=
  if bool_decide (0 < changes (approvable now uc) l)%nat
  then ((DRedirect (base +:+ "/auth/success"), [mkEvent "auth.device.approved" 2 (Some user)]),
        update_where (approvable now uc) (set_approved user now) l)
  else handleApproveFailure now base uc l.

Definition deny (now : Z) (base uc : string) (l : Devices) : Answer * Devices :=
  ((DRedirect (base +:+ "/auth/device?status=denied"),
    if bool_decide (0 < changes (undecided now uc) l)%nat
    then [mkEvent "auth.device.denied" 2 (Some "user_denied")] else []),
   update_where (undecided now uc) (set_denied now "user_denied") l).

(** The form of the approval page. *)
Record ApproveForm := mkForm {
  f_user_code : option string; f_action : option string; f_csrf : option string
}.

(** [user] is what [authenticateRequest] gave; [None] for the form is a body that
    could not be read. *)
Definition handleDeviceApprove `{RateLimiterOps T} (now : Z) (base : string) (user : Z + string)
    (form : option ApproveForm) (csrf_cookie : option string) (t : T) (l : Devices)
    : Answer * T * Devices :=
  match user with
  | inl status => (quiet (DError status "UNAUTHORIZED"), t, l)
  | inr user =>
      match form with
      | None => (quiet (DError 400 "INVALID_REQUEST"), t, l)
      | Some f =>
          match truthy (f_user_code f), truthy (f_action f) with
          | Some uc, Some action =>
              match rl_check now ("device-approve-min:" +:+ user) APPROVE_RATE_PER_MIN t with
              | (Denied r, t) => (quiet (DRateLimited r), t, l)
              | (Allowed _ _, t) =>
                  match rl_check now ("device-approve-hour:" +:+ user) APPROVE_RATE_PER_HOUR t with
                  | (Denied r, t) => (quiet (DRateLimited r), t, l)
                  | (Allowed _ _, t) =>
                      if negb (verifyCsrfToken csrf_cookie (f_csrf f)) then ((DError 403 "CSRF_FAILED", [mkEvent "auth.csrf.failed" 2 (Some user)]), t, l)
                      else if decide (action = "approve") then
                        let '(r, l) := approve now base uc user l in (r, t, l)
                      else if decide (action = "deny") then
                        let '(r, l) := deny now base uc l in (r, t, l)
                      else (quiet (DError 400 "INVALID_ACTION"), t, l)
                  end
              end
          | _, _ => (quiet (DError 400 "INVALID_REQUEST"), t, l)
          end
      end
  end.

(** ** Polling: [handleDeviceCodeGrant] *)

Definition pollable (now : Z) (code : string) (d : DeviceRow) : Prop :=
  device_code d = code ∧ match last_polled_at d with None => True | Some t => interval d ≤ now - t end.

#[global] Instance pollable_dec now code d : Decision (pollable now code d).
Proof. unfold pollable. destruct (last_polled_at d); apply _. Defined.

(** Up to the signatures: [DMinting] is a poll that waits for its tokens. *)
Definition poll (now : Z) (us : list UserRow) (device : option string) (l : Devices)
    : DeviceResponse * Devices :=
  match truthy device with
  | None => (DOAuthError "invalid_request", l)
  | Some code =>
      let l' := update_where (pollable now code) (set_polled now) l in
      match select_one (pollable now code) l with
      | None =>
          match select_one (λ d, device_code d = code) l with
          | None => (DOAuthError "invalid_grant", l')
          | Some _ => (DOAuthError "slow_down", l')
          end
      | Some d =>
          if bool_decide (expires_at d ≤ now) then (DOAuthError "expired_token", l')
          else if bool_decide (denied_at d ≠ None) then (DOAuthError "access_denied", l')
          else
            match approved_user_id d with
            | None => (DOAuthError "authorization_pending", l')
            | Some u =>
                match select_one (λ x, u_id x = u) us with
                | None => (DOAuthError "invalid_grant", l')
                | Some x => (DMinting (u_id x), l')
                end
            end
      end
  end.

(** After the signatures: the row is dropped and the tokens are sent. *)
Definition poll_done (code user : string) (l : Devices) : Answer * Devices :=
  ((DTokens user, [mkEvent "auth.login.success" 2 (Some user)]), delete_where (λ d, device_code d = code) l).

(** ** The system *)

(** A poll in flight: its device, its user and the time it started. [sent] are
    the tokens that were sent, by device, and [issued] the device codes that were
    ever given; the code does not keep the last two. *)
Record DSys := mkDSys {
  devices : Devices;
  polls : list (string * string * Z);
  sent : list (string * string);
  issued : list string
}.

(** One step at a time. [DPollFailed]: the signature of a poll, or an INSERT after
    it, throws ([mintTokenPair], awaited before the DELETE); nothing is sent and
    the row stays, to be polled again. *)
Inductive dstep : Z → DSys → DSys → Prop :=
  | DIssue now ip agent code attempt s uc l :
      code ∉ issued s →
      allocate COLLISION_RETRY_MAX 0 (new_row now ip agent code) attempt (devices s) = Code uc l →
      dstep now s (mkDSys l (polls s) (sent s) (code :: issued s))
  | DApprove now base uc user s :
      dstep now s (mkDSys (approve now base uc user (devices s)).2 (polls s) (sent s) (issued s))
  | DDeny now base uc s :
      dstep now s (mkDSys (deny now base uc (devices s)).2 (polls s) (sent s) (issued s))
  | DPoll now us code s r l :
      poll now us (Some code) (devices s) = (r, l) →
      dstep now s (mkDSys l (match r with DMinting u => (code, u, now) :: polls s | _ => polls s end) (sent s) (issued s))
  | DPollDone now i code user t s :
      polls s !! i = Some (code, user, t) →
      dstep now s (mkDSys (poll_done code user (devices s)).2 (delete i (polls s)) ((code, user) :: sent s) (issued s))
  | DPollFailed now i code user t s :
      polls s !! i = Some (code, user, t) →
      dstep now s (mkDSys (devices s) (delete i (polls s)) (sent s) (issued s))
  | DSweep now s l :
      l `sublist_of` devices s →
      (∀ d, d ∈ devices s → d ∉ l → expires_at d < now) →
      dstep now s (mkDSys l (polls s) (sent s) (issued s)).

(** Runs with a clock that does not go back. *)
Inductive druns : Z → DSys → Z → DSys → Prop :=
  | druns_refl t s : druns t s t s
  | druns_step t s t' s' t'' s'' :
      t ≤ t' → dstep t' s s' → druns t' s' t'' s'' → druns t s t'' s''.

Definition dinitial (s : DSys) : Prop := devices s = [] ∧ polls s = [] ∧ sent s = [] ∧ issued s = [].

Definition dreachable (t : Z) (s : DSys) : Prop := ∃ t0 s0, dinitial s0 ∧ druns t0 s0 t s.

End DeviceFlow.

(** * What the device flow guarantees

    The shape of user codes, the allocation loop, the lifecycle of a request (it
    is decided once, by one user), and the tokens it gives. *)

From S2P Require Import Prelude Paths AuthState Rotation RateLimit Authenticate.
Local Open Scope Z_scope.

Module DeviceSafety.
Import DeviceFlow.

(** ** Codes *)

Lemma get_in n s : (n < String.length s)%nat → ∃ a, String.get n s = Some a ∧ has_char a s = true.
Proof.
  revert n. induction s as [|b s IH]; intros n; simpl; [lia|].
  destruct n as [|n]; intros Hn.
  - exists b. split; [done|]. by rewrite Ascii.eqb_refl.
  - destruct (IH n) as (a & -> & Ha); [lia|]. exists a. split; [done|]. rewrite Ha. apply orb_true_r.
Qed.

Lemma pick_char r i : (r i < 20)%nat → ∃ a, pick r i = String a "" ∧ has_char a USER_CODE_ALPHABET = true.
Proof.
  intros Hi. unfold pick. destruct (get_in (r i) USER_CODE_ALPHABET Hi) as (a & -> & Ha). eauto.
Qed.

(** The type of user codes: whatever the draws, a generated code is four
    letters of the alphabet, a dash, and four letters of the alphabet. *)
Theorem user_code_type (r : nat → nat) :
  (∀ i, (r i < 20)%nat) →
  ∃ a b c d e f g h,
    generateUserCode r
    = String a (String b (String c (String d (String "-" (String e (String f (String g (String h ""))))))))
    ∧ Forall (λ x, has_char x USER_CODE_ALPHABET = true) [a; b; c; d; e; f; g; h].
Proof.
  intros Hr. unfold generateUserCode. simpl.
  destruct (pick_char r 0 (Hr 0%nat)) as (a & -> & ?). destruct (pick_char r 1 (Hr 1%nat)) as (b & -> & ?).
  destruct (pick_char r 2 (Hr 2%nat)) as (c & -> & ?). destruct (pick_char r 3 (Hr 3%nat)) as (d & -> & ?).
  destruct (pick_char r 4 (Hr 4%nat)) as (e & -> & ?). destruct (pick_char r 5 (Hr 5%nat)) as (f & -> & ?).
  destruct (pick_char r 6 (Hr 6%nat)) as (g & -> & ?). destruct (pick_char r 7 (Hr 7%nat)) as (h & -> & ?).
  exists a, b, c, d, e, f, g, h. split; [reflexivity|]. by repeat constructor.
Qed.

Lemma user_code_type_witness :
  ∃ a b c d e f g h,
    generateUserCode (λ i, (i * 7) `mod` 20)%nat
    = String a (String b (String c (String d (String "-" (String e (String f (String g (String h ""))))))))
    ∧ Forall (λ x, has_char x USER_CODE_ALPHABET = true) [a; b; c; d; e; f; g; h].
Proof. apply (user_code_type (λ i, (i * 7) `mod` 20)%nat). intros i. apply Nat.mod_upper_bound. lia. Defined.

(** ** Allocation *)

Lemma allocate_spec fuel i row attempt l :
  (∀ uc nn, device_code (row uc nn) ∉ device_code <$> l) →
  (∀ uc nn, user_code (row uc nn) = uc ∧ nonce (row uc nn) = nn) →
  (∀ k, (attempt k).2 ∉ nonce <$> l) →
  match allocate fuel i row attempt l with
  | Code uc l' => ∃ k, (k < fuel)%nat ∧ uc = (attempt (i + k)).1%nat ∧ uc ∉ user_code <$> l
      ∧ (∀ j, (j < k)%nat → (attempt (i + j)).1%nat ∈ user_code <$> l)
      ∧ l' = l ++ [row uc (attempt (i + k)).2%nat]
  | Exhausted => ∀ j, (j < fuel)%nat → (attempt (i + j)).1%nat ∈ user_code <$> l
  | Threw => False
  end.
Proof.
  intros Hd Hrow Hn. revert i. induction fuel as [|fuel IH]; intros i; simpl; [lia|].
  destruct (attempt i) as [uc nn] eqn:Ea. unfold insert_device.
  destruct (Hrow uc nn) as [Eu En].
  rewrite bool_decide_eq_false_2 by apply Hd. rewrite Eu, En.
  case_bool_decide as Hu.
  - specialize (IH (S i)). destruct (allocate fuel (S i) row attempt l) as [uc' l'| |]; [|intros j Hj|done].
    + destruct IH as (k & Hk & E1 & E2 & E3 & E4). exists (S k).
      rewrite Nat.add_succ_r. split_and!; [lia|done|done| |done].
      intros [|j] Hj; [by rewrite Nat.add_0_r, Ea|]. rewrite Nat.add_succ_r. apply E3. lia.
    + destruct j as [|j]; [by rewrite Nat.add_0_r, Ea|]. rewrite Nat.add_succ_r. apply IH. lia.
  - rewrite bool_decide_eq_false_2; last first.
    { specialize (Hn i). by rewrite Ea in Hn. }
    exists 0%nat. rewrite Nat.add_0_r, Ea. split_and!; [lia|done|done|lia|done].
Qed.

(** The allocation loop ends after at most three attempts, with the first code
    that is free among them, as the only new row, or with an error when all three
    are taken. *)
Theorem allocation_ends (now : Z) (ip agent : option string) (code : string)
    (attempt : nat → string * string) (l : Devices) :
  code ∉ device_code <$> l → (∀ k, (attempt k).2 ∉ nonce <$> l) →
  match allocate COLLISION_RETRY_MAX 0 (new_row now ip agent code) attempt l with
  | Code uc l' => ∃ k, (k < 3)%nat ∧ uc = (attempt k).1 ∧ uc ∉ user_code <$> l
      ∧ (∀ j, (j < k)%nat → (attempt j).1 ∈ user_code <$> l)
      ∧ l' = l ++ [new_row now ip agent code uc (attempt k).2]
  | Exhausted => ∀ j, (j < 3)%nat → (attempt j).1 ∈ user_code <$> l
  | Threw => False
  end.
Proof. intros Hc Hn. by apply (allocate_spec COLLISION_RETRY_MAX 0). Qed.

Lemma allocation_ends_witness :
  match allocate COLLISION_RETRY_MAX 0 (new_row 0 None None "dc2")
          (λ k, (if decide (k = 0)%nat then "AAAA" else "BBBB", "n2"))
          [new_row 0 None None "dc1" "AAAA" "n1"] with
  | Code uc l' => ∃ k, (k < 3)%nat ∧ uc = (if decide (k = 0)%nat then "AAAA" else "BBBB", "n2").1
      ∧ uc ∉ user_code <$> [new_row 0 None None "dc1" "AAAA" "n1"]
      ∧ (∀ j, (j < k)%nat → (if decide (j = 0)%nat then "AAAA" else "BBBB", "n2").1
                             ∈ user_code <$> [new_row 0 None None "dc1" "AAAA" "n1"])
      ∧ l' = [new_row 0 None None "dc1" "AAAA" "n1"]
             ++ [new_row 0 None None "dc2" uc (if decide (k = 0)%nat then "AAAA" else "BBBB", "n2").2]
  | Exhausted => ∀ j, (j < 3)%nat → (if decide (j = 0)%nat then "AAAA" else "BBBB", "n2").1
                             ∈ user_code <$> [new_row 0 None None "dc1" "AAAA" "n1"]
  | Threw => False
  end.
Proof.
  apply (allocation_ends 0 None None "dc2" (λ k, (if decide (k = 0)%nat then "AAAA" else "BBBB", "n2"))).
  - change ("dc2" ∉ ["dc1"]). rewrite list_elem_of_singleton. discriminate.
  - intros k. change ("n2" ∉ ["n1"]). rewrite list_elem_of_singleton. discriminate.
Defined.


(** ** The lifecycle of a request *)

(** What holds of every row: nobody was locked out, and a request is not both
    approved and denied. *)
Definition row_ok (d : DeviceRow) : Prop :=
  failed_approval_attempts d = 0 ∧ interval d = DEFAULT_POLL_INTERVAL_S
  ∧ (approved_user_id d = None ∨ denied_at d = None).

(** A row only changes from undecided to approved or to denied. *)
Definition drow_le (d d' : DeviceRow) : Prop :=
  device_code d' = device_code d ∧ user_code d' = user_code d
  ∧ (approved_user_id d ≠ None ∨ denied_at d ≠ None →
     approved_user_id d' = approved_user_id d ∧ denied_at d' = denied_at d).

Record DInv (s : DSys) : Prop := {
  dinv_codes : NoDup (device_code <$> devices s);
  dinv_ucodes : NoDup (user_code <$> devices s);
  dinv_rows : Forall row_ok (devices s);
  dinv_issued c : c ∈ device_code <$> devices s → c ∈ issued s
}.

#[global] Instance drow_le_refl : Reflexive drow_le.
Proof. intros d. unfold drow_le. tauto. Qed.

Lemma update_drow (P : DeviceRow → Prop) `{!∀ d, Decision (P d)} f l :
  (∀ d, P d → drow_le d (f d)) → Forall2 drow_le l (update_where P f l).
Proof.
  intros Hf. unfold update_where. induction l as [|d l IH]; simpl; constructor; [|done].
  case_decide; [auto|reflexivity].
Qed.

(** The UPDATE of an approval either finds its row or changes nothing: the counter
    of failed approvals never leaves zero. *)
Lemma approve_rows now base uc user l :
  NoDup (user_code <$> l) → Forall row_ok l →
  (approve now base uc user l).2 = update_where (approvable now uc) (set_approved user now) l.
Proof.
  intros Hnd Hok. unfold approve. destruct (bool_decide (0 < _)%nat) eqn:E; [done|].
  apply bool_decide_eq_false in E.
  assert (∀ d, d ∈ l → ¬ approvable now uc d) as Hno.
  { intros d Hd Ha. apply E. apply changes_pos. eauto. }
  rewrite update_where_none by done. unfold handleApproveFailure.
  destruct (select_one (λ d, user_code d = uc) l) as [d|] eqn:Es; [|done].
  apply select_one_Some in Es as [Eu Hd].
  case_bool_decide as He; [done|]. case_bool_decide as Hc; [done|]. exfalso.
  apply (Hno d Hd). pose proof (proj1 (Forall_forall _ _) Hok d Hd) as (Ha & _ & _).
  unfold approvable, undecided. rewrite Ha. unfold APPROVE_FAILURE_THRESHOLD.
  destruct (approved_user_id d) eqn:E1; [exfalso; apply Hc; left; congruence|].
  destruct (denied_at d) eqn:E2; [exfalso; apply Hc; right; congruence|]. split_and!; done || lia.
Qed.

(** What a step does to the table. *)
Variant dmove (s s' : DSys) : Prop :=
  | dm_change :
      Forall2 drow_le (devices s) (devices s') → Forall row_ok (devices s') →
      issued s' = issued s → dmove s s'
  | dm_drop :
      devices s' `sublist_of` devices s → issued s' = issued s → dmove s s'
  | dm_new d :
      devices s' = devices s ++ [d] → row_ok d → device_code d ∉ issued s →
      user_code d ∉ user_code <$> devices s → issued s' = device_code d :: issued s → dmove s s'.

Lemma Forall_update (P : DeviceRow → Prop) `{!∀ d, Decision (P d)} f l :
  Forall row_ok l → (∀ d, P d → row_ok d → row_ok (f d)) → Forall row_ok (update_where P f l).
Proof.
  intros Hok Hf. apply Forall_forall. intros d (d0 & Hin & ->)%elem_of_update_where.
  pose proof (proj1 (Forall_forall _ _) Hok d0 Hin). case_decide; auto.
Qed.

Lemma poll_rows now us code l : (poll now us (Some code) l).2 = l ∨
  (poll now us (Some code) l).2 = update_where (pollable now code) (set_polled now) l.
Proof.
  unfold poll. destruct (truthy (Some code)) as [code'|] eqn:E; [|by left]. right.
  assert (code' = code) as -> by (destruct code; simpl in E; congruence).
  repeat case_match; done.
Qed.

Lemma allocate_new fuel i row attempt l uc l' :
  allocate fuel i row attempt l = Code uc l' →
  ∃ nn, l' = l ++ [row uc nn] ∧ device_code (row uc nn) ∉ device_code <$> l
        ∧ user_code (row uc nn) ∉ user_code <$> l.
Proof.
  revert i. induction fuel as [|fuel IH]; intros i; simpl; [done|].
  destruct (attempt i) as [u nn]. destruct (insert_device (row u nn) l) eqn:E; [|exact (IH (S i))|done].
  intros [= <- <-]. exists nn. unfold insert_device in E.
  destruct (bool_decide (_ ∈ device_code <$> l)) eqn:E1; [done|].
  destruct (bool_decide (_ ∈ user_code <$> l)) eqn:E2; [done|].
  destruct (bool_decide (_ ∈ nonce <$> l)) eqn:E3; [done|].
  apply bool_decide_eq_false in E1, E2. by simplify_eq.
Qed.

Lemma dstep_move t s s' : DInv s → dstep t s s' → dmove s s'.
Proof.
  intros [Hc Hu Hr Hi] Hs. destruct Hs as
    [now ip agent code attempt s uc l Hf Ha|now base uc user s|now base uc s|now us code s r l Hp
    |now i code user t s Hp|now i code user t s Hp|now s l Hsub _].
  - apply allocate_new in Ha as (nn & -> & _ & Hun). eapply dm_new; simpl; try done.
    unfold row_ok; simpl. auto.
  - apply dm_change; simpl; [| |done]; rewrite approve_rows by done.
    + apply update_drow. intros d [(_ & ? & ? & _) _]. unfold drow_le; simpl. naive_solver.
    + apply Forall_update; [done|]. intros d [(_ & ? & ? & _) _] (? & ? & _). unfold row_ok; simpl. auto.
  - apply dm_change; simpl; [| |done].
    + apply update_drow. intros d (_ & ? & ? & _). unfold drow_le; simpl. naive_solver.
    + apply Forall_update; [done|]. intros d (_ & ? & ? & _) (? & ? & _). unfold row_ok; simpl. auto.
  - pose proof (poll_rows now us code (devices s)) as Hl. rewrite Hp in Hl. simpl in Hl.
    apply dm_change; simpl; [| |done]; destruct Hl as [->| ->]; try done.
    + apply update_drow. intros d _. unfold drow_le; simpl. tauto.
    + apply Forall_update; [done|]. intros d _. done.
  - apply dm_drop; simpl; [|done]. apply sublist_filter.
  - by apply dm_drop.
  - by apply dm_drop.
Qed.

Lemma Forall2_keys {B} (k : DeviceRow → B) l l' :
  (∀ d d', drow_le d d' → k d' = k d) → Forall2 drow_le l l' → k <$> l' = k <$> l.
Proof. intros Hk. induction 1; [done|]. rewrite !fmap_cons. f_equal; auto. Qed.

Lemma dmove_inv s s' : DInv s → dmove s s' → DInv s'.
Proof.
  intros [Hc Hu Hr Hi] [Hf Hok E|Hsub E|d El Hd Hn Hun E].
  - assert (device_code <$> devices s' = device_code <$> devices s) as Ec
      by (apply Forall2_keys; [by intros ? ? (? & _)|done]).
    assert (user_code <$> devices s' = user_code <$> devices s) as Eu
      by (apply Forall2_keys; [by intros ? ? (_ & ? & _)|done]).
    split; rewrite ?Ec, ?Eu, ?E; done.
  - split; rewrite ?E.
    + eapply sublist_NoDup; [exact Hc|]. by apply fmap_sublist.
    + eapply sublist_NoDup; [exact Hu|]. by apply fmap_sublist.
    + apply Forall_forall. intros x Hx. eapply Forall_forall; [exact Hr|]. by eapply elem_of_sublist.
    + intros c Hx. apply Hi. eapply elem_of_sublist; [exact Hx|]. by apply fmap_sublist.
  - split; rewrite ?El, ?E, ?fmap_app.
    + apply NoDup_app. split_and!; [done| |apply NoDup_singleton].
      intros c Hx ->%list_elem_of_singleton. by apply Hn, Hi.
    + apply NoDup_app. split_and!; [done| |apply NoDup_singleton].
      intros c Hx ->%list_elem_of_singleton. done.
    + apply Forall_app. split; [done|]. by apply Forall_singleton.
    + intros c [?| ->%list_elem_of_singleton]%elem_of_app; [right; auto|left].
Qed.

Lemma dstep_inv t s s' : DInv s → dstep t s s' → DInv s'.
Proof. eauto using dmove_inv, dstep_move. Qed.

Lemma dinv_eq s s' : devices s' = devices s → issued s' = issued s → DInv s → DInv s'.
Proof. intros E1 E2 [? ? ? ?]. split; rewrite ?E1, ?E2; done. Qed.

Lemma druns_inv t s t' s' : druns t s t' s' → DInv s → DInv s'.
Proof. induction 1; eauto using dstep_inv. Qed.

Lemma dinitial_inv s : dinitial s → DInv s.
Proof. intros (E & _ & _ & E'). split; rewrite E; try constructor. intros c Hc. by apply elem_of_nil in Hc. Qed.

Lemma dreachable_inv t s : dreachable t s → DInv s.
Proof. intros (t0 & s0 & Hi & Hr). eauto using druns_inv, dinitial_inv. Qed.

(** What happens to the row of a code that was already given. *)
Lemma dmove_row s s' d d' : DInv s → dmove s s' →
  d' ∈ devices s' → d ∈ devices s → device_code d' = device_code d → drow_le d d'.
Proof.
  intros [Hc Hu Hr Hi] Hm Hd' Hd E.
  assert (∀ x, x ∈ devices s → device_code x = device_code d → x = d) as Hone
    by (intros x Hx Ex; by eapply (NoDup_key_eq device_code)).
  destruct Hm as [Hf Hok _|Hsub _|n El Hn Hnew Hun _].
  - apply list_elem_of_lookup in Hd' as [i Hi'].
    destruct (Forall2_lookup_r _ _ _ _ _ Hf Hi') as (x & Hx & Hle).
    assert (x = d) as -> by (apply Hone; [by eapply list_elem_of_lookup_2|destruct Hle; congruence]). done.
  - rewrite (Hone d'); [reflexivity| |done]. by eapply elem_of_sublist.
  - rewrite El in Hd'. apply elem_of_app in Hd' as [Hd'| ->%list_elem_of_singleton].
    + by rewrite (Hone d').
    + exfalso. apply Hnew. rewrite E. apply Hi. by apply list_elem_of_fmap_2.
Qed.

(** A row that is there at the end of a run was there all along, from the moment
    its code had been given. *)
Lemma dmove_back s s' d' : dmove s s' → d' ∈ devices s' → device_code d' ∈ issued s →
  ∃ d, d ∈ devices s ∧ device_code d' = device_code d.
Proof.
  intros [Hf _ _|Hsub _|n El _ Hnew _ _] Hd' Hi.
  - apply list_elem_of_lookup in Hd' as [i Hi'].
    destruct (Forall2_lookup_r _ _ _ _ _ Hf Hi') as (x & Hx & Hle & _). exists x.
    split; [by eapply list_elem_of_lookup_2|done].
  - exists d'. split; [by eapply elem_of_sublist|done].
  - rewrite El in Hd'. apply elem_of_app in Hd' as [Hd'| ->%list_elem_of_singleton]; [eauto|done].
Qed.

Lemma dmove_issued s s' : dmove s s' → ∀ c, c ∈ issued s → c ∈ issued s'.
Proof. intros [_ _ E|_ E|d _ _ _ _ E] c Hc; rewrite E; set_solver. Qed.

Lemma druns_row t s t' s' d d' : druns t s t' s' → DInv s →
  d ∈ devices s → d' ∈ devices s' → device_code d' = device_code d →
  (approved_user_id d ≠ None ∨ denied_at d ≠ None) →
  approved_user_id d' = approved_user_id d ∧ denied_at d' = denied_at d.
Proof.
  intros Hr. revert d. induction Hr as [t s|t s t1 s1 t2 s2 _ Hs Hr IH]; intros d Hinv Hd Hd' E Hdec.
  - assert (d' = d) as -> by (eapply (NoDup_key_eq device_code); eauto using dinv_codes). done.
  - pose proof (dstep_move _ _ _ Hinv Hs) as Hm. pose proof (dmove_inv _ _ Hinv Hm) as Hinv1.
    assert (device_code d' ∈ issued s1) as Hi1.
    { eapply dmove_issued; [done|]. rewrite E. apply Hinv. by apply list_elem_of_fmap_2. }
    assert (∃ x, x ∈ devices s1 ∧ device_code d' = device_code x) as (x & Hx & Ex).
    { clear -Hr Hinv1 Hd' Hi1. induction Hr as [|t s t1 s1 t2 s2 _ Hs Hr IH]; [eauto|].
      pose proof (dstep_move _ _ _ Hinv1 Hs) as Hm.
      destruct IH as (x & Hx & Ex); [done|by eapply dmove_inv|by eapply dmove_issued|].
      rewrite Ex in Hi1 |- *. by eapply dmove_back. }
    destruct (dmove_row s s1 d x) as (_ & _ & Hle); [done|done|done|done|congruence|].
    destruct (Hle Hdec) as [E1 E2]. rewrite <- E1, <- E2. apply IH; try done. by rewrite E1, E2.
Qed.

(** A device request is decided once: from any reachable state, a request that
    was approved by a user stays approved by that user and is never denied, and
    one that was denied is never approved, for as long as its row exists. A code
    that was given once is not given again, so the row is the same request. *)
Theorem device_decided_once (t : Z) (s : DSys) (t' : Z) (s' : DSys) (d d' : DeviceRow) :
  dreachable t s → druns t s t' s' →
  d ∈ devices s → d' ∈ devices s' → device_code d' = device_code d →
  (∀ u, approved_user_id d = Some u → approved_user_id d' = Some u ∧ denied_at d' = None)
  ∧ (∀ x, denied_at d = Some x → denied_at d' = Some x ∧ approved_user_id d' = None).
Proof.
  intros Hr Hruns Hd Hd' E. pose proof (dreachable_inv t s Hr) as Hinv.
  pose proof (proj1 (Forall_forall _ _) (dinv_rows s Hinv) d Hd) as (_ & _ & Hone).
  split.
  - intros u Eu. destruct (druns_row t s t' s' d d') as [-> ->]; try done; [left; congruence|].
    split; [done|]. destruct Hone; congruence.
  - intros x Ex. destruct (druns_row t s t' s' d d') as [-> ->]; try done; [right; congruence|].
    split; [done|]. destruct Hone; congruence.
Qed.

(** The counter of failed approvals never leaves zero: an approval that changes
    no row finds it missing, expired or decided, and none of these is counted. *)
Theorem lockout_unreachable (t : Z) (s : DSys) :
  dreachable t s → Forall (λ d, failed_approval_attempts d = 0) (devices s).
Proof.
  intros Hr. eapply Forall_impl; [exact (dinv_rows s (dreachable_inv t s Hr))|]. by intros d (? & _).
Qed.

(** ** Tokens *)

(** Runs in which every signature is made within the polling interval. *)
Inductive prompt_runs : Z → DSys → Z → DSys → Prop :=
  | prompt_refl t s : prompt_runs t s t s
  | prompt_step t s t' s' t'' s'' :
      t ≤ t' → (∀ c u t0, (c, u, t0) ∈ polls s → t' < t0 + DEFAULT_POLL_INTERVAL_S) →
      dstep t' s s' → prompt_runs t' s' t'' s'' → prompt_runs t s t'' s''.

(** While a poll is in flight, its row was polled when the poll began and was
    approved by the user of the poll; once tokens were sent, the row is gone. *)
Record PInv (s : DSys) : Prop := {
  pinv_d : DInv s;
  pinv_polls : NoDup ((λ p : string * string * Z, p.1.1) <$> polls s);
  pinv_sent : NoDup (sent s).*1;
  pinv_apart c u t : (c, u, t) ∈ polls s → c ∉ (sent s).*1;
  pinv_row c u t d : (c, u, t) ∈ polls s → d ∈ devices s → device_code d = c →
    last_polled_at d = Some t ∧ approved_user_id d = Some u;
  pinv_gone c : c ∈ (sent s).*1 → c ∉ device_code <$> devices s;
  pinv_issued c u t : (c, u, t) ∈ polls s → c ∈ issued s;
  pinv_sent_issued c : c ∈ (sent s).*1 → c ∈ issued s
}.

(** A step that only touches the table keeps the invariant when it leaves the rows
    of the polls in flight as they are. *)
Lemma pinv_devices s s' : PInv s → DInv s' →
  polls s' = polls s → sent s' = sent s → issued s' = issued s →
  (∀ d', d' ∈ devices s' → ∃ d, d ∈ devices s ∧ device_code d' = device_code d ∧
     (∀ u t, (device_code d, u, t) ∈ polls s → last_polled_at d = Some t → approved_user_id d = Some u →
       last_polled_at d' = last_polled_at d ∧ approved_user_id d' = approved_user_id d)) →
  PInv s'.
Proof.
  intros [_ Hp Hs Ha Hr Hg Hi Hsi] Hd E1 E2 E3 Hrows. split; rewrite ?E1, ?E2, ?E3; try done.
  - intros c u t d' Hc Hd' Ec. destruct (Hrows d' Hd') as (d & Hin & Ed & Hsame).
    assert (device_code d = c) as Ec' by congruence.
    destruct (Hr c u t d Hc Hin Ec') as [El Eu]. rewrite <- Ec' in Hc.
    by destruct (Hsame u t Hc El Eu) as [-> ->].
  - intros c Hc (d' & -> & Hd')%list_elem_of_fmap. destruct (Hrows d' Hd') as (d & Hin & Ed & _).
    apply (Hg _ Hc). rewrite Ed. by apply list_elem_of_fmap_2.
Qed.

Lemma poll_mint now us code l u l' : poll now us (Some code) l = (DMinting u, l') →
  ∃ d, d ∈ l ∧ pollable now code d ∧ approved_user_id d = Some u
       ∧ l' = update_where (pollable now code) (set_polled now) l.
Proof.
  unfold poll. destruct (truthy (Some code)) as [c|] eqn:E; [|done].
  assert (c = code) as -> by (destruct code; simpl in E; congruence).
  destruct (select_one (pollable now code) l) as [d|] eqn:Es; [|by case_match].
  apply select_one_Some in Es as [Hp Hd].
  destruct (bool_decide (expires_at d ≤ now)); [done|]. destruct (bool_decide (denied_at d ≠ None)); [done|].
  destruct (approved_user_id d) as [v|] eqn:Ev; [|done].
  destruct (select_one (λ x, u_id x = v) us) as [x|] eqn:Ex; [|done].
  apply select_one_Some in Ex as [Ex _]. intros [= <- <-]. exists d. split_and!; try done. congruence.
Qed.

Section prompt.
Context (now : Z) (s : DSys).
Context (Hinv : PInv s).
Context (Hprompt : ∀ c u t0, (c, u, t0) ∈ polls s → now < t0 + DEFAULT_POLL_INTERVAL_S).

(** A row whose poll is in flight cannot be polled again. *)
Lemma inflight_not_pollable code d u t :
  d ∈ devices s → (code, u, t) ∈ polls s → ¬ pollable now code d.
Proof.
  intros Hd Hp [Ec Hl]. destruct (pinv_row s Hinv _ _ _ _ Hp Hd Ec) as [El _]. rewrite El in Hl.
  pose proof (proj1 (Forall_forall _ _) (dinv_rows s (pinv_d s Hinv)) d Hd) as (_ & Ei & _).
  specialize (Hprompt _ _ _ Hp). lia.
Qed.

Lemma prompt_poll us code r l : poll now us (Some code) (devices s) = (r, l) →
  PInv (mkDSys l (match r with DMinting u => (code, u, now) :: polls s | _ => polls s end) (sent s) (issued s)).
Proof.
  intros Hp. pose proof (poll_rows now us code (devices s)) as Hl. rewrite Hp in Hl. simpl in Hl.
  assert (PInv (mkDSys l (polls s) (sent s) (issued s))) as Hbase.
  { apply (pinv_devices s); try done.
    - eapply dinv_eq; [| |exact (dstep_inv _ _ _ (pinv_d s Hinv) (DPoll now us code s r l Hp))]; done.
    - simpl. intros d' Hd'. destruct Hl as [->| ->]; [by exists d'|].
      apply elem_of_update_where in Hd' as (d & Hd & ->). exists d. split; [done|].
      case_decide as Hpl; [|done]. split; [done|]. intros u t Hin.
      exfalso. destruct Hpl as [Ec Hpl]. rewrite Ec in Hin. by apply (inflight_not_pollable code d u t). }
  destruct r as [| | | | |v| |]; try done. destruct (poll_mint _ _ _ _ _ _ Hp) as (d & Hd & Hpl & Eu & El).
  pose proof (proj1 Hpl) as Ec. pose proof (pinv_d s Hinv) as Hdi.
  assert (∀ u t, (code, u, t) ∉ polls s) as Hnew by (intros u t Hin; by eapply inflight_not_pollable).
  destruct Hbase as [Hd' Hp' Hs' Ha' Hr' Hg' Hi' Hsi']. simpl in *. split; simpl; try done.
  - by eapply dinv_eq; [| |exact Hd'].
  - apply NoDup_cons. split; [|done]. intros ([[c u] t] & E & Hin)%list_elem_of_fmap. simpl in E.
    subst c. by apply (Hnew u t).
  - intros c u t [[= -> -> ->]|Hin]%elem_of_cons; [|eauto].
    intros Hc. apply (pinv_gone s Hinv _ Hc). rewrite <- Ec. by apply list_elem_of_fmap_2.
  - intros c u t x [[= -> -> ->]|Hin]%elem_of_cons; [|eauto]. rewrite El.
    intros (x0 & Hx0 & ->)%elem_of_update_where Ex.
    assert (x0 = d) as ->.
    { eapply (NoDup_key_eq device_code); [apply Hdi|done|done|]. rewrite Ec. by destruct (decide _). }
    by rewrite decide_True.
  - intros c u t [[= -> -> ->]|Hin]%elem_of_cons; [|eauto].
    apply (dinv_issued s Hdi). rewrite <- Ec. by apply list_elem_of_fmap_2.
Qed.

Lemma prompt_done i code user t : polls s !! i = Some (code, user, t) →
  PInv (mkDSys (poll_done code user (devices s)).2 (delete i (polls s)) ((code, user) :: sent s) (issued s)).
Proof.
  intros Hi. pose proof (list_elem_of_lookup_2 _ _ _ Hi) as Hin. pose proof Hinv as [Hd Hp Hs Ha Hr Hg Hpi Hsi].
  assert (∀ p, p ∈ delete i (polls s) → p ∈ polls s ∧ p.1.1 ≠ code) as Hrest.
  { intros p Hpin. apply list_elem_of_lookup in Hpin as [j Hj].
    assert (∃ k, k ≠ i ∧ polls s !! k = Some p) as (k & Hk & Ek).
    { destruct (decide (j < i)%nat); [exists j; rewrite list_lookup_delete_lt in Hj by done; split; [lia|done]|].
      exists (S j). rewrite list_lookup_delete_ge in Hj by lia. split; [lia|done]. }
    split; [by eapply list_elem_of_lookup_2|]. intros E. apply Hk.
    eapply (NoDup_lookup _ _ _ _ Hp); rewrite list_lookup_fmap; [by rewrite Ek|]. by rewrite Hi, E. }
  split; simpl; try done.
  - exact (dstep_inv _ _ _ Hd (DPollDone now i code user t s Hi)).
  - eapply sublist_NoDup; [exact Hp|]. apply fmap_sublist, sublist_delete.
  - apply NoDup_cons. split; [by eapply Ha|done].
  - intros c u t' [Hc Hne]%Hrest. rewrite elem_of_cons. intros [->|?]; [done|by eapply Ha].
  - intros c u t' x [Hc Hne]%Hrest [_ Hx]%list_elem_of_filter. eauto.
  - intros c [->|Hc]%elem_of_cons.
    + intros (x & E & [Hx _]%list_elem_of_filter)%list_elem_of_fmap. done.
    + intros (x & E & [_ Hx]%list_elem_of_filter)%list_elem_of_fmap. apply (Hg c Hc). rewrite E.
      by apply list_elem_of_fmap_2.
  - intros c u t' [Hc _]%Hrest. eauto.
  - intros c [->|Hc]%elem_of_cons; eauto.
Qed.

End prompt.

Lemma prompt_pinv now s s' : PInv s →
  (∀ c u t0, (c, u, t0) ∈ polls s → now < t0 + DEFAULT_POLL_INTERVAL_S) → dstep now s s' → PInv s'.
Proof.
  intros Hinv Hprompt Hs. pose proof (dstep_inv _ _ _ (pinv_d s Hinv) Hs) as Hd'.
  destruct Hs as
    [now ip agent code attempt s uc l Hf Ha|now base uc user s|now base uc s|now us code s r l Hp
    |now i code user t s Hp|now i code user t s Hp|now s l Hsub Hexp].
  - apply allocate_new in Ha as (nn & -> & _ & _). destruct Hinv as [Hd Hp Hs Ha Hr Hg Hi Hsi].
    split; simpl; try done.
    + intros c u t d Hc [Hin| ->%list_elem_of_singleton]%elem_of_app Ec; [eauto|].
      exfalso. apply Hf. simpl in Ec. rewrite Ec. eauto.
    + intros c Hc. rewrite fmap_app. intros [Hin| ->%list_elem_of_singleton]%elem_of_app; [by eapply Hg|].
      by apply Hf, Hsi.
    + intros c u t Hc. right. eauto.
    + intros c Hc. right. eauto.
  - apply (pinv_devices s); try done. simpl. rewrite approve_rows by apply (pinv_d s Hinv).
    intros d' (d & Hd & ->)%elem_of_update_where. exists d. split; [done|].
    case_decide as Hap; [|done]. destruct Hap as [(_ & Hnone & _) _]. split; [done|]. congruence.
  - apply (pinv_devices s); try done. simpl. intros d' (d & Hd & ->)%elem_of_update_where.
    exists d. split; [done|]. by case_decide.
  - by apply (prompt_poll now s Hinv Hprompt us).
  - by eapply prompt_done.
  - destruct Hinv as [_ Hnd Hs Ha Hr Hg Hi Hsi]. assert (delete i (polls s) `sublist_of` polls s) as Hsub
      by apply sublist_delete.
    split; simpl; try done.
    + eapply sublist_NoDup; [exact Hnd|]. by apply fmap_sublist.
    + intros c u t' Hc. eapply Ha. by eapply elem_of_sublist.
    + intros c u t' d Hc. eapply Hr. by eapply elem_of_sublist.
    + intros c u t' Hc. eapply Hi. by eapply elem_of_sublist.
  - apply (pinv_devices s); try done. simpl. intros d' Hin. exists d'. split; [by eapply elem_of_sublist|done].
Qed.

Lemma prompt_runs_pinv t s t' s' : prompt_runs t s t' s' → PInv s → PInv s'.
Proof. induction 1; eauto using prompt_pinv. Qed.

Lemma dinitial_pinv s : dinitial s → PInv s.
Proof.
  intros Hi. pose proof (dinitial_inv s Hi) as Hd. destruct Hi as (E1 & E2 & E3 & E4).
  split; rewrite ?E1, ?E2, ?E3; try done; try (simpl; apply NoDup_nil_2); intros *; by intros ?%elem_of_nil.
Qed.

(** [C29] A device code gives one pair of tokens: when no signature takes longer than
    the polling interval of five seconds, in every interleaving of requests,
    approvals, denials, polls, failed signatures and sweeps each code is given
    tokens at most once, and a poll that is about to be given tokens acts for the user who approved
    the request. *)
Theorem device_single_use (t0 : Z) (s0 : DSys) (t : Z) (s : DSys) :
  dinitial s0 → prompt_runs t0 s0 t s →
  NoDup (sent s).*1
  ∧ ∀ c u t1 d, (c, u, t1) ∈ polls s → d ∈ devices s → device_code d = c →
      approved_user_id d = Some u ∧ denied_at d = None.
Proof.
  intros Hi Hr. pose proof (prompt_runs_pinv _ _ _ _ Hr (dinitial_pinv s0 Hi)) as Hinv.
  split; [apply Hinv|]. intros c u t1 d Hp Hd Ec.
  destruct (pinv_row s Hinv c u t1 d Hp Hd Ec) as [_ Eu]. split; [done|].
  pose proof (proj1 (Forall_forall _ _) (dinv_rows s (pinv_d s Hinv)) d Hd) as (_ & _ & [?|?]); congruence.
Qed.

(** ** A run *)

(** A device is given a code at 0, the user approves it at 10, the device polls at
    12 and is given its tokens. *)
Definition run_user : UserRow :=
  mkUser "u1" "org" "u1@example.com" None "github" "1" None None "member" None 0.
Definition run0 : DSys := mkDSys [] [] [] [].
Definition run1 : DSys := mkDSys [new_row 0 None None "dc" "BBBB-BBBB" "n"] [] [] ["dc"].
Definition run2 : DSys := mkDSys (approve 10 "" "BBBB-BBBB" "u1" (devices run1)).2 [] [] ["dc"].
Definition run3 : DSys := mkDSys (poll 12 [run_user] (Some "dc") (devices run2)).2 [("dc", "u1", 12)] [] ["dc"].
Definition run4 : DSys := mkDSys (poll_done "dc" "u1" (devices run3)).2 [] [("dc", "u1")] ["dc"].

Lemma run_step1 : dstep 0 run0 run1.
Proof. apply (DIssue 0 None None "dc" (λ _, ("BBBB-BBBB", "n")) run0 "BBBB-BBBB"); [apply not_elem_of_nil|done]. Qed.

Lemma run_step2 : dstep 10 run1 run2.
Proof. exact (DApprove 10 "" "BBBB-BBBB" "u1" run1). Qed.

Lemma run_step3 : dstep 12 run2 run3.
Proof.
  apply (DPoll 12 [run_user] "dc" run2 (DMinting "u1") (poll 12 [run_user] (Some "dc") (devices run2)).2).
  vm_compute. reflexivity.
Qed.

Lemma run_step4 : dstep 13 run3 run4.
Proof. by apply (DPollDone 13 0 "dc" "u1" 12 run3). Qed.

Lemma run_to2 : dreachable 10 run2.
Proof.
  exists 0, run0. split; [done|]. eapply (druns_step _ _ 0); [lia|exact run_step1|].
  eapply (druns_step _ _ 10); [lia|exact run_step2|constructor].
Qed.

Lemma device_decided_once_witness :
  ∃ d d', d ∈ devices run2 ∧ d' ∈ devices run3 ∧ approved_user_id d = Some "u1"
  ∧ ((∀ u, approved_user_id d = Some u → approved_user_id d' = Some u ∧ denied_at d' = None)
     ∧ (∀ x, denied_at d = Some x → denied_at d' = Some x ∧ approved_user_id d' = None)).
Proof.
  exists (set_approved "u1" 10 (new_row 0 None None "dc" "BBBB-BBBB" "n")),
    (set_polled 12 (set_approved "u1" 10 (new_row 0 None None "dc" "BBBB-BBBB" "n"))).
  split_and!; [vm_compute; left|vm_compute; left|reflexivity| |];
    apply (device_decided_once 10 run2 12 run3);
    try exact run_to2; try (eapply (druns_step _ _ 12); [lia|exact run_step3|constructor]);
    try reflexivity; vm_compute; left.
Defined.

Lemma lockout_unreachable_witness : Forall (λ d, failed_approval_attempts d = 0) (devices run2).
Proof. apply (lockout_unreachable 10 run2). exact run_to2. Defined.

Lemma device_single_use_witness :
  NoDup (sent run4).*1
  ∧ ∀ c u t1 d, (c, u, t1) ∈ polls run4 → d ∈ devices run4 → device_code d = c →
      approved_user_id d = Some u ∧ denied_at d = None.
Proof.
  apply (device_single_use 0 run0 13 run4); [done|].
  eapply (prompt_step _ _ 0); [lia|intros * []%elem_of_nil|exact run_step1|].
  eapply (prompt_step _ _ 10); [lia|intros * []%elem_of_nil|exact run_step2|].
  eapply (prompt_step _ _ 12); [lia|intros * []%elem_of_nil|exact run_step3|].
  eapply (prompt_step _ _ 13); [lia| |exact run_step4|constructor].
  intros c u t0 [= -> -> ->]%list_elem_of_singleton. reflexivity.
Defined.

(** The bound on the signatures is needed: a device that polls again after the
    interval, while its first poll still waits, is given two pairs of tokens. *)
Definition slow4 : DSys :=
  mkDSys (poll 17 [run_user] (Some "dc") (devices run3)).2 [("dc", "u1", 17); ("dc", "u1", 12)] [] ["dc"].

Lemma slow_signatures_give_two_pairs :
  ∃ s, druns 12 run3 18 s ∧ sent s = [("dc", "u1"); ("dc", "u1")].
Proof.
  eexists. split.
  - eapply (druns_step _ _ 17 slow4); [lia| |].
    { apply (DPoll 17 [run_user] "dc" run3 (DMinting "u1") (poll 17 [run_user] (Some "dc") (devices run3)).2).
      vm_compute. reflexivity. }
    eapply (druns_step _ _ 18); [lia|by apply (DPollDone 18 0 "dc" "u1" 17 slow4)|].
    eapply (druns_step _ _ 18); [lia|by eapply (DPollDone 18 0 "dc" "u1" 12)|]. constructor.
  - reflexivity.
Qed.

End DeviceSafety.
