(* ===== verification/Bridge.v ===== *)
(** * The message bus ([src/mqtt-broker.ts], [src/mqtt-bridge.ts],
    [src/tools/mqtt-tools.ts], the MQTT wiring of [src/serve-http.ts])

    Agents hear of consultations over an MQTT broker. The broker's hooks decide
    who connects and on which topics; the bridge is the coordinator's own client:
    it publishes what happens and queues what arrives, per organisation and agent,
    for the tools that wait or drain. A payload on the wire is the JSON value it
    parses to, or a text that does not parse. *)

From S2P Require Import Prelude Database Registry Consultation FileTracking Schemas.
From S2P Require Import AuthState Rotation Authenticate.
Import Schemas.
Local Open Scope Z_scope.

Module Broker.
Import Authenticate.

(** What the authentication attaches to a connection. *)
Record Client := mkClient { cl_org : option string; cl_role : option string; cl_agent : option string }.

Inductive MqttAuthResult :=
  | MqttRefused
  | MqttAccepted (org : string) (role : string) (agentId : option string).

Definition INTERNAL_BRIDGE_ROLE : string := "internal".

(** The verifier of [wireMqtt]: the token is the password. *)
Definition authenticate `{Jose} (cfg : AuthConfig) (e : Rotation.Env) (password : option string)
    : MqttAuthResult :=
  match password with
  | None => MqttRefused
  | Some p =>
      match verifyTokenStrict cfg e p with
      | inl _ => MqttRefused
      | inr (claims, _) =>
          MqttAccepted (a_org claims) (a_role claims)
            (if decide (a_role claims = "agent") then Some (a_sub claims) else None)
      end
  end.

(** [createAedesAuthenticateHook]: the client it leaves, or a refusal. *)
Definition authenticateHook (r : MqttAuthResult) : option Client :=
  match r with
  | MqttRefused => None
  | MqttAccepted org role agent => Some (mkClient (Some org) (Some role) agent)
  end.

Inductive SubResult := SubGranted | SubDenied | SubError.

Definition org_prefix (org : string) : string := "coordinator/" +:+ org +:+ "/".

Definition authorizeSubscribe (c : Client) (topic : string) : SubResult :=
  if decide (cl_role c = Some INTERNAL_BRIDGE_ROLE) then SubGranted
  else match truthy (cl_org c) with
       | None => SubError
       | Some org => if startsWith (org_prefix org) topic then SubGranted else SubDenied
       end.

Definition agentStatusTopicOwner (topic org : string) : option string :=
  match split_on "/" topic with
  | [root; topicOrg; kind; agentId; leaf] =>
      if decide (root = "coordinator" ∧ topicOrg = org ∧ kind = "agents" ∧ leaf = "status")
      then truthy (Some agentId) else None
  | _ => None
  end.

(** True when the callback is given no error. *)
Definition authorizePublish (c : Client) (topic : string) : bool :=
  if decide (cl_role c = Some INTERNAL_BRIDGE_ROLE) then true
  else match truthy (cl_org c) with
       | None => false
       | Some org =>
           if startsWith (org_prefix org) topic then
             match agentStatusTopicOwner topic org with
             | Some owner => bool_decide (Some owner = cl_agent c)
             | None => true
             end
           else false
       end.

End Broker.

Module Bridge.
Import Broker.

(** ** Data *)

Inductive Wire := WJson (j : json) | WText (s : string).

Record QueuedMessage := mkQueued { q_topic : string; q_payload : json; q_timestamp : Z }.

(** [waitResolve] names the waiting call it would resolve. *)
Record AgentListener := mkListener {
  queue : list QueuedMessage;
  waitResolve : option nat;
  inFlight : option (string * list QueuedMessage);
  ackMode : bool
}.

Definition MAX_LISTENER_QUEUE : nat := 1000.

Record Publish := mkPublish { p_topic : string; p_payload : Wire; p_qos : Z; p_retain : bool }.

Notation Listeners := (gmap string (gmap string AgentListener)).

(** [up] is [this.client && this.connected]; [wire] is what was handed to the
    client; [drops] the reasons recorded; [woken] the answers given to waiting
    calls, by their number; [departures] the calls of the offline handler. *)
Record Bridge := mkBridge {
  homeOrgId : string;
  up : bool;
  listeners : Listeners;
  lastRetained : gmap string string;
  wire : list Publish;
  drops : list string;
  woken : list (nat * option QueuedMessage);
  departures : list (string * string);
  waits : nat
}.

Definition with_listeners (l : Listeners) (b : Bridge) : Bridge :=
  mkBridge (homeOrgId b) (up b) l (lastRetained b) (wire b) (drops b) (woken b) (departures b) (waits b).
Definition with_wire (p : Publish) (b : Bridge) : Bridge :=
  mkBridge (homeOrgId b) (up b) (listeners b) (lastRetained b) (wire b ++ [p]) (drops b) (woken b)
    (departures b) (waits b).
Definition with_retained (m : gmap string string) (b : Bridge) : Bridge :=
  mkBridge (homeOrgId b) (up b) (listeners b) m (wire b) (drops b) (woken b) (departures b) (waits b).
Definition with_drops (l : list string) (b : Bridge) : Bridge :=
  mkBridge (homeOrgId b) (up b) (listeners b) (lastRetained b) (wire b) (drops b ++ l) (woken b)
    (departures b) (waits b).
Definition with_woken (l : list (nat * option QueuedMessage)) (b : Bridge) : Bridge :=
  mkBridge (homeOrgId b) (up b) (listeners b) (lastRetained b) (wire b) (drops b) (woken b ++ l)
    (departures b) (waits b).
Definition with_departure (d : string * string) (b : Bridge) : Bridge :=
  mkBridge (homeOrgId b) (up b) (listeners b) (lastRetained b) (wire b) (drops b) (woken b)
    (departures b ++ [d]) (waits b).
Definition with_up (u : bool) (b : Bridge) : Bridge :=
  mkBridge (homeOrgId b) u (listeners b) (lastRetained b) (wire b) (drops b) (woken b) (departures b) (waits b).
Definition next_wait (b : Bridge) : Bridge :=
  mkBridge (homeOrgId b) (up b) (listeners b) (lastRetained b) (wire b) (drops b) (woken b)
    (departures b) (S (waits b)).

(** ** One listener *)

Definition fresh : AgentListener := mkListener [] None None false.

(** A message for a listener: a waiting call gets it, or the queue, whose oldest
    message makes room when it is full. The second and third results are the
    answer given and the messages dropped. *)
Definition arrive (m : QueuedMessage) (l : AgentListener)
    : AgentListener * option (nat * option QueuedMessage) * list QueuedMessage :=
  match waitResolve l with
  | Some n => (mkListener (queue l) None (inFlight l) (ackMode l), Some (n, Some m), [])
  | None =>
      if (MAX_LISTENER_QUEUE <=? length (queue l))%nat
      then (mkListener (tail (queue l) ++ [m]) None (inFlight l) (ackMode l), None, take 1 (queue l))
      else (mkListener (queue l ++ [m]) None (inFlight l) (ackMode l), None, [])
  end.

(** [trimQueue]: what is kept and what is dropped. *)
Fixpoint trimQueue (q : list QueuedMessage) : list QueuedMessage * list QueuedMessage :=
  match q with
  | [] => ([], [])
  | m :: q' =>
      if (MAX_LISTENER_QUEUE <? length q)%nat
      then let '(kept, lost) := trimQueue q' in (kept, m :: lost)
      else (q, [])
  end.

(** The body of [getQueuedMessages] on a listener, [id] being the identifier it
    draws: the listener, the messages, the batch and the messages dropped. *)
Definition drain (requireAck : bool) (ack : option string) (id : string) (l : AgentListener)
    : AgentListener * list QueuedMessage * option string * list QueuedMessage :=
  let mode := requireAck || ackMode l in
  let '(q, lost) :=
    match inFlight l with
    | Some (b, held) =>
        if bool_decide (ack = Some b) || negb mode then (queue l, [])
        else trimQueue (held ++ queue l)
    | None => (queue l, [])
    end in
  match q with
  | [] => (mkListener [] (waitResolve l) None mode, [], None, lost)
  | _ =>
      if mode then (mkListener [] (waitResolve l) (Some (id, q)) mode, q, Some id, lost)
      else (mkListener [] (waitResolve l) None mode, q, None, lost)
  end.

(** ** The bridge *)

Definition orgListeners (org : string) (b : Bridge) : gmap string AgentListener :=
  default ∅ (listeners b !! org).

Definition listener (org agent : string) (b : Bridge) : option AgentListener :=
  orgListeners org b !! agent.

Definition set_listener (org agent : string) (l : AgentListener) (b : Bridge) : Bridge :=
  with_listeners (<[org := <[agent := l]> (orgListeners org b)]> (listeners b)) b.

Definition registerListener (org agent : string) (b : Bridge) : Bridge :=
  match listener org agent b with
  | Some _ => with_listeners (<[org := orgListeners org b]> (listeners b)) b
  | None => set_listener org agent fresh b
  end.

Definition removeListener (org agent : string) (b : Bridge) : Bridge :=
  let answered := match listener org agent b ≫= waitResolve with
                  | Some n => [(n, None)]
                  | None => []
                  end in
  with_woken answered
    (with_listeners (match listeners b !! org with
                     | Some inner => <[org := delete agent inner]> (listeners b)
                     | None => listeners b
                     end) b).

Definition queueDepth (org agent : string) (b : Bridge) : nat :=
  match listener org agent b with
  | None => 0
  | Some l => length (queue l) + match inFlight l with Some (_, held) => length held | None => 0 end
  end%nat.

(** *** Publishing *)

Definition publish (p : Publish) (b : Bridge) : Bridge := if up b then with_wire p b else b.

Definition obj (l : list (string * string)) : Wire := WJson (VObj (prod_map id VStr <$> l)).

Definition status_topic (org agent : string) : string := org_prefix org +:+ "agents/" +:+ agent +:+ "/status".
Definition new_topic (org : string) : string := org_prefix org +:+ "consultations/new".

Definition registerAgent (org agent name : string) : Bridge → Bridge :=
  publish (mkPublish (status_topic org agent) (obj [("status", "online"); ("name", name)]) 0 true).

Definition publishConsultation (org thread agent subject : string) (modules : list string) (b : Bridge)
    : Bridge :=
  if up b then
    with_wire
      (mkPublish (new_topic org)
         (WJson (VObj [("thread_id", VStr thread); ("agent_id", VStr agent); ("subject", VStr subject);
                       ("target_modules", VArr (VStr <$> modules))])) 1 true)
      (with_retained (<[org := thread]> (lastRetained b)) b)
  else b.

Definition clearRetainedConsultation (org thread : string) (b : Bridge) : Bridge :=
  if up b then
    if decide (lastRetained b !! org = Some thread)
    then with_retained (delete org (lastRetained b))
           (with_wire (mkPublish (new_topic org) (WText "") 1 true) b)
    else b
  else b.

Definition publishMessage (org thread agent type content : string) : Bridge → Bridge :=
  publish (mkPublish (org_prefix org +:+ "consultations/" +:+ thread +:+ "/messages")
             (obj [("agent_id", agent); ("type", type); ("content", content)]) 0 false).

Definition publishResolution (org thread status summary : string) : Bridge → Bridge :=
  publish (mkPublish (org_prefix org +:+ "consultations/" +:+ thread +:+ "/status")
             (obj [("status", status); ("summary", summary)]) 1 true).

Definition publishBroadcast (org agent message : string) : Bridge → Bridge :=
  publish (mkPublish (org_prefix org +:+ "broadcast") (obj [("agent_id", agent); ("message", message)]) 0 false).

Definition publishAgentOffline (org agent : string) : Bridge → Bridge :=
  publish (mkPublish (status_topic org agent) (obj [("status", "offline")]) 0 true).

Definition publishTaskClaimed (org thread agent claimed_at : string) : Bridge → Bridge :=
  publish (mkPublish (org_prefix org +:+ "consultations/" +:+ thread +:+ "/claimed")
             (obj [("agent_id", agent); ("claimed_by", agent); ("claimed_at", claimed_at)]) 1 false).

Definition publishTaskCompleted (org thread agent summary : string) : Bridge → Bridge :=
  publish (mkPublish (org_prefix org +:+ "consultations/" +:+ thread +:+ "/completed")
             (obj [("agent_id", agent); ("completed_by", agent); ("summary", summary)]) 1 false).

Definition publishQuotaUpdate (info : json) (b : Bridge) : Bridge :=
  publish (mkPublish (org_prefix (homeOrgId b) +:+ "quota/update") (WJson info) 0 false) b.

(** [topic.replace(/^coordinator\/[^/]+\//, "").replace(/^coordinator\//, "")] *)
Definition strip_coordinator_org (topic : string) : string :=
  match split_on "/" topic with
  | "coordinator" :: o :: rest =>
      match truthy (Some o), rest with
      | Some _, _ :: _ => join "/" rest
      | _, _ => topic
      end
  | _ => topic
  end.

Definition strip_coordinator (topic : string) : string :=
  match split_on "/" topic with
  | "coordinator" :: (_ :: _) as parts => join "/" (tail parts)
  | _ => topic
  end.

Definition scopedTopic (org topic : string) : string :=
  if startsWith (org_prefix org) topic then topic
  else org_prefix org +:+ strip_coordinator (strip_coordinator_org topic).

(** [/^agents\/[^/]+\/status$/.test(rest)] *)
Definition is_status (rest : string) : bool :=
  match split_on "/" rest with
  | [kind; agent; leaf] => bool_decide (kind = "agents" ∧ agent ≠ "" ∧ leaf = "status")
  | _ => false
  end.

Definition routable (rest : string) : bool :=
  bool_decide (rest = "broadcast") || startsWith "consultations/" rest || is_status rest.

Definition rest_of (org topic : string) : string :=
  String.substring (String.length (org_prefix org)) (String.length topic - String.length (org_prefix org)) topic.

(** [mqttPublish]; a caller with no agent identity is not held to one. *)
Definition mqttPublish (org topic : string) (payload : Wire) (callerAgentId : option string) (b : Bridge)
    : bool * Bridge :=
  if up b then
    let t := scopedTopic org topic in
    let b := if routable (rest_of org t) then b else with_drops ["unroutable_topic"] b in
    match callerAgentId, agentStatusTopicOwner t org with
    | Some caller, Some owner =>
        if decide (owner = caller) then (true, with_wire (mkPublish t payload 1 false) b)
        else (false, with_drops ["foreign_agent_status"] b)
    | _, _ => (true, with_wire (mkPublish t payload 1 false) b)
    end
  else (true, b).

(** *** Receiving *)

(** The status of a presence payload: its [status] field when that is a string,
    or the text itself. The text of a JSON value is never the word offline. *)
Definition is_offline (w : Wire) : bool :=
  match w with
  | WJson j => match field "status" j with Some (VStr s) => bool_decide (s = "offline") | _ => false end
  | WText s => bool_decide (s = "offline")
  end.

(** A message for every listener of an organisation. *)
Definition fan_out (m : QueuedMessage) (org : string) (b : Bridge) : Bridge :=
  let inner := orgListeners org b in
  let results := arrive m <$> inner in
  with_drops (map_to_list results ≫= λ r, (λ _, "queue_full") <$> r.2.2)
    (with_woken (map_to_list results ≫= λ r, option_list r.2.1.2)
       (with_listeners (<[org := (λ r, r.1.1) <$> results]> (listeners b)) b)).

(** The "message" handler. *)
Definition on_message (now : Z) (topic : string) (payload : Wire) (b : Bridge) : Bridge :=
  let parts := split_on "/" topic in
  match truthy (parts !! 1%nat) with
  | None => b
  | Some org =>
      let b :=
        if bool_decide (parts !! 2%nat = Some "agents" ∧ parts !! 4%nat = Some "status") && is_offline payload
        then let agent := default "" (parts !! 3%nat) in
             with_departure (org, agent) (removeListener org agent b)
        else b in
      if bool_decide (parts !! 2%nat = Some "consultations" ∨ parts !! 2%nat = Some "broadcast") then
        match payload with
        | WText _ => with_drops ["malformed_payload"] b
        | WJson j =>
            let b := if decide (orgListeners org b = ∅) then with_drops ["no_listener"] b else b in
            fan_out (mkQueued topic j now) org b
        end
      else b
  end.

(** The three subscriptions made on every connection, and the events of the
    client. *)
Definition SUBSCRIPTIONS : list string :=
  ["coordinator/+/agents/+/status"; "coordinator/+/consultations/#"; "coordinator/+/broadcast"].

Definition on_connect : Bridge → Bridge := with_up true.
Definition on_close : Bridge → Bridge := with_up false.

(** *** Waiting and draining *)

Inductive WaitResult := Returned (m : QueuedMessage) | Blocked (n : nat).

Definition waitForMessage (org agent : string) (b : Bridge) : WaitResult * Bridge :=
  let b := registerListener org agent b in
  match listener org agent b with
  | None => (Blocked (waits b), b)
  | Some l =>
      match queue l with
      | m :: q => (Returned m, set_listener org agent (mkListener q (waitResolve l) (inFlight l) (ackMode l)) b)
      | [] => (Blocked (waits b),
               next_wait (set_listener org agent (mkListener [] (Some (waits b)) (inFlight l) (ackMode l)) b))
      end
  end.

(** The timer of a waiting call. *)
Definition wait_timeout (org agent : string) (n : nat) (b : Bridge) : Bridge :=
  match listener org agent b with
  | Some l =>
      if decide (waitResolve l = Some n)
      then with_woken [(n, None)] (set_listener org agent (mkListener (queue l) None (inFlight l) (ackMode l)) b)
      else b
  | None => b
  end.

Definition getQueuedMessages (org agent : string) (requireAck : bool) (ack : option string) (id : string)
    (b : Bridge) : (list QueuedMessage * option string) * Bridge :=
  let b := registerListener org agent b in
  match listener org agent b with
  | None => (([], None), b)
  | Some l =>
      let '(l', messages, batch, lost) := drain requireAck ack id l in
      ((messages, batch), with_drops ((λ _, "queue_full") <$> lost) (set_listener org agent l' b))
  end.

Definition ackBatch (org agent batchId : string) (b : Bridge) : bool * Bridge :=
  match listener org agent b with
  | Some l =>
      match inFlight l with
      | Some (id, _) =>
          if decide (id = batchId)
          then (true, set_listener org agent (mkListener (queue l) (waitResolve l) None (ackMode l)) b)
          else (false, b)
      | None => (false, b)
      end
  | None => (false, b)
  end.

(** ** Runs *)

Inductive Op :=
  | OMessage (now : Z) (topic : string) (payload : Wire)
  | OWait (org agent : string)
  | OTimeout (org agent : string) (n : nat)
  | ODrain (org agent : string) (requireAck : bool) (ack : option string) (id : string)
  | OAck (org agent id : string)
  | OMqttPublish (org topic : string) (payload : Wire) (caller : option string)
  | OPublish (p : Publish)
  | OConsultation (org thread agent subject : string) (modules : list string)
  | OClearRetained (org thread : string)
  | OConnect
  | OClose.

Definition exec (o : Op) (b : Bridge) : Bridge :=
  match o with
  | OMessage now topic payload => on_message now topic payload b
  | OWait org agent => (waitForMessage org agent b).2
  | OTimeout org agent n => wait_timeout org agent n b
  | ODrain org agent ra ack id => (getQueuedMessages org agent ra ack id b).2
  | OAck org agent id => (ackBatch org agent id b).2
  | OMqttPublish org topic payload caller => (mqttPublish org topic payload caller b).2
  | OPublish p => publish p b
  | OConsultation org thread agent subject modules => publishConsultation org thread agent subject modules b
  | OClearRetained org thread => clearRetainedConsultation org thread b
  | OConnect => on_connect b
  | OClose => on_close b
  end.

Definition run (os : list Op) (b : Bridge) : Bridge := foldl (λ b o, exec o b) b os.

Definition initial (home : string) : Bridge := mkBridge home false ∅ ∅ [] [] [] [] 0.

End Bridge.
