(* ===== verification/BridgeSafety.v ===== *)
(** * What the message bus guarantees

    Delivery to consumers that acknowledge, the bounds of the queues, the walls
    between organisations, what waiting calls are answered, and what the broker
    lets through. *)

From S2P Require Import Prelude Database Registry Consultation FileTracking Schemas.
From S2P Require Import AuthState Rotation AuthInstances Authenticate Bridge.
Import Schemas.
Local Open Scope Z_scope.

Module BridgeSafety.
Import Broker Bridge.

(** ** One listener *)

(** What is still owed to a consumer: the batch it holds, then the queue. *)
Definition owed (l : AgentListener) : list QueuedMessage :=
  match inFlight l with Some (_, held) => held | None => [] end ++ queue l.

Lemma trim_spec q :
  trimQueue q = (drop (length q - MAX_LISTENER_QUEUE) q, take (length q - MAX_LISTENER_QUEUE) q).
Proof.
  induction q as [|m q IH]; [done|]. cbn [trimQueue]. unfold trimQueue in IH |- *. fold trimQueue in IH |- *.
  destruct (MAX_LISTENER_QUEUE <? length (m :: q))%nat eqn:E.
  - apply Nat.ltb_lt in E. rewrite IH. cbn [length] in E |- *.
    replace (S (length q) - MAX_LISTENER_QUEUE)%nat with (S (length q - MAX_LISTENER_QUEUE)) by lia. done.
  - apply Nat.ltb_ge in E. by replace (length (m :: q) - MAX_LISTENER_QUEUE)%nat with 0%nat by lia.
Qed.

(** The bounds of a listener. *)
Definition bounded (l : AgentListener) : Prop :=
  (length (queue l) ≤ MAX_LISTENER_QUEUE)%nat
  ∧ match inFlight l with Some (_, held) => (length held ≤ MAX_LISTENER_QUEUE)%nat | None => True end.

Lemma arrive_bounded m l : bounded l → bounded (arrive m l).1.1.
Proof.
  intros [Hq Hf]. unfold arrive, bounded. destruct (waitResolve l); [done|].
  destruct (MAX_LISTENER_QUEUE <=? length (queue l))%nat eqn:E; cbn [fst queue inFlight]; split; try done;
    rewrite length_app; cbn [length].
  - apply Nat.leb_le in E. assert (1 ≤ MAX_LISTENER_QUEUE)%nat by (vm_compute; lia).
    destruct (queue l); cbn [length tail] in *; lia.
  - apply Nat.leb_gt in E. lia.
Qed.

Lemma drain_bounded ra ack id l : bounded l → bounded (drain ra ack id l).1.1.1.
Proof.
  intros [Hq Hf]. unfold drain.
  set (r := match inFlight l with Some (b, held) => _ | None => _ end).
  assert (length r.1 ≤ MAX_LISTENER_QUEUE)%nat as Hr.
  { unfold r. destruct (inFlight l) as [[b held]|]; [|done].
    destruct (bool_decide (ack = Some b) || negb (ra || ackMode l)); [done|].
    rewrite trim_spec. cbn [fst]. rewrite length_drop. lia. }
  destruct r as [q lost]. cbn [fst] in Hr. destruct q as [|m q]; [split; simpl; [lia|done]|].
  destruct (ra || ackMode l); (split; [cbn [fst queue length]; lia|]); done.
Qed.

(** *** History *)

(** A batch is held only in acknowledgement mode. *)
Definition modal (l : AgentListener) : Prop := inFlight l ≠ None → ackMode l = true.

(** What is owed to an agent, registered or not. *)
Definition due (ol : option AgentListener) : list QueuedMessage :=
  match ol with Some l => owed l | None => [] end.

(** What happened to the messages of an organisation as far as one agent goes:
    those that arrived; those of the batches it acknowledged; those a full queue
    gave up; those it was given for good, by a call that waits or by a drain
    outside acknowledgement mode; and those that went with its departure, or arrived
    while it was not registered. *)
Record History := mkHistory {
  arrived : list QueuedMessage;
  acked : list QueuedMessage;
  lost : list QueuedMessage;
  given : list QueuedMessage;
  gone : list QueuedMessage
}.

Definition accounted (h : History) (ol : option AgentListener) : Prop :=
  arrived h ≡ₚ acked h ++ lost h ++ given h ++ gone h ++ due ol ∧ due ol `sublist_of` arrived h.

Definition hist_arrive (m : QueuedMessage) (ol : option AgentListener) (h : History) : History :=
  match ol with
  | None => mkHistory (arrived h ++ [m]) (acked h) (lost h) (given h) (gone h ++ [m])
  | Some l =>
      match waitResolve l with
      | Some _ => mkHistory (arrived h ++ [m]) (acked h) (lost h) (given h ++ [m]) (gone h)
      | None => mkHistory (arrived h ++ [m]) (acked h) (lost h ++ (arrive m l).2) (given h) (gone h)
      end
  end.

Definition hist_depart (ol : option AgentListener) (h : History) : History :=
  mkHistory (arrived h) (acked h) (lost h) (given h) (gone h ++ due ol).

(** The batch an acknowledgement settles. *)
Definition settled (ack : option string) (l : AgentListener) : list QueuedMessage :=
  match inFlight l with
  | Some (b, held) => if bool_decide (ack = Some b) then held else []
  | None => []
  end.

(** What a drain hands out for good. *)
Definition released (ra : bool) (ack : option string) (id : string) (l : AgentListener) : list QueuedMessage :=
  if ra || ackMode l then [] else (drain ra ack id l).1.1.2.

Definition hist_drain (ra : bool) (ack : option string) (id : string) (ol : option AgentListener) (h : History) : History :=
  let l := default fresh ol in
  mkHistory (arrived h) (acked h ++ settled ack l) (lost h ++ (drain ra ack id l).2)
    (given h ++ released ra ack id l) (gone h).

Definition hist_wait (ol : option AgentListener) (h : History) : History :=
  mkHistory (arrived h) (acked h) (lost h) (given h ++ take 1 (queue (default fresh ol))) (gone h).

Definition hist_ack (id : string) (ol : option AgentListener) (h : History) : History :=
  match ol with
  | Some l => mkHistory (arrived h) (acked h ++ settled (Some id) l) (lost h) (given h) (gone h)
  | None => h
  end.

Lemma arrive_accounted m ol h : accounted h ol →
  accounted (hist_arrive m ol h) ((λ l, (arrive m l).1.1) <$> ol).
Proof.
  intros [Hp Hs]. unfold hist_arrive, accounted in *. destruct ol as [l|]; cbn [fmap option_fmap option_map due] in *.
  2: { cbn [arrived acked lost given gone]. split; [rewrite Hp; solve_Permutation|apply sublist_nil_l]. }
  unfold arrive, owed in *. destruct (waitResolve l).
  { cbn [fst queue inFlight arrived acked lost given gone]. split; [rewrite Hp; solve_Permutation|by apply sublist_inserts_r]. }
  destruct (MAX_LISTENER_QUEUE <=? length (queue l))%nat; cbn [fst snd queue inFlight arrived acked lost given gone].
  - set (held := match inFlight l with Some (_, held) => held | None => [] end) in *. split.
    + rewrite Hp. destruct (queue l) as [|x q]; cbn [take tail]; solve_Permutation.
    + rewrite app_assoc. apply sublist_app; [|done]. etrans; [|exact Hs].
      apply sublist_app; [done|]. destruct (queue l); [done|by apply sublist_cons].
  - rewrite app_nil_r. split.
    + rewrite Hp. solve_Permutation.
    + rewrite app_assoc. by apply sublist_app.
Qed.

(** In acknowledgement mode a drain hands out all that is owed, less what the
    acknowledgement settles and what a full queue gives up, and owes it still;
    outside it hands out the queue and owes nothing. *)
Lemma drain_ack ra ack id l : modal l →
  let r := drain ra ack id l in
  r.1.1.2 = released ra ack id l ++ owed r.1.1.1 ∧ modal r.1.1.1
  ∧ settled ack l ++ r.2 ++ released ra ack id l ++ owed r.1.1.1 = owed l.
Proof.
  unfold modal, released. intros Hm. unfold drain, settled, owed in *. destruct (ra || ackMode l) eqn:Em; cbn [negb].
  - destruct (inFlight l) as [[b held]|].
    + rewrite orb_false_r. destruct (bool_decide (ack = Some b)).
      * destruct (queue l) as [|m q]; simpl; rewrite ?app_nil_r; done.
      * rewrite trim_spec. set (k := (length (held ++ queue l) - MAX_LISTENER_QUEUE)%nat).
        pose proof (take_drop k (held ++ queue l)) as E.
        destruct (drop k (held ++ queue l)) as [|m q]; simpl; rewrite ?app_nil_r in *; done.
    + destruct (queue l) as [|m q]; simpl; rewrite ?app_nil_r; done.
  - destruct (inFlight l) as [[b held]|].
    + rewrite Hm in Em by done. by rewrite orb_true_r in Em.
    + destruct (queue l) as [|m q]; simpl; rewrite ?app_nil_r; done.
Qed.

Lemma drain_accounted ra ack id ol h : modal (default fresh ol) → accounted h ol →
  accounted (hist_drain ra ack id ol h) (Some (drain ra ack id (default fresh ol)).1.1.1).
Proof.
  intros Hm [Hp Hs]. destruct (drain_ack ra ack id (default fresh ol) Hm) as (_ & _ & E).
  assert (due ol = owed (default fresh ol)) as Hd by (by destruct ol). rewrite Hd, <- E in Hp, Hs.
  unfold accounted, hist_drain. cbn [arrived acked lost given gone due]. split.
  - rewrite Hp. solve_Permutation.
  - etrans; [|exact Hs]. rewrite !app_assoc. by apply sublist_inserts_l.
Qed.

Definition after_ack (id : string) (l : AgentListener) : AgentListener :=
  match inFlight l with
  | Some (b, _) => if decide (b = id) then mkListener (queue l) (waitResolve l) None (ackMode l) else l
  | None => l
  end.

Lemma ack_accounted id ol h : accounted h ol → accounted (hist_ack id ol h) (after_ack id <$> ol).
Proof.
  destruct ol as [l|]; [|done]. cbn [fmap option_fmap option_map].
  intros [Hp Hs]. unfold accounted, hist_ack, after_ack, settled in *. cbn [due] in *. unfold owed in *.
  destruct (inFlight l) as [[b held]|] eqn:E; cbn [arrived acked lost given gone].
  - destruct (decide (b = id)) as [->|Hne].
    + rewrite bool_decide_eq_true_2 by done. cbn [inFlight queue]. split.
      * rewrite Hp. solve_Permutation.
      * etrans; [|exact Hs]. by apply sublist_inserts_l.
    + rewrite bool_decide_eq_false_2 by congruence. rewrite E, app_nil_r. done.
  - rewrite E, app_nil_r. done.
Qed.

(** ** Reading a listener after an operation *)

Lemma listener_set o a o' a' l b :
  listener o a (set_listener o' a' l b) = if decide ((o, a) = (o', a')) then Some l else listener o a b.
Proof.
  unfold listener, set_listener, orgListeners. cbn [listeners with_listeners].
  destruct (decide (o = o')) as [->|Ho].
  - rewrite lookup_insert_eq. simpl. destruct (decide (a = a')) as [->|Ha].
    + by rewrite lookup_insert_eq, decide_True.
    + by rewrite lookup_insert_ne, decide_False by congruence.
  - by rewrite lookup_insert_ne, decide_False by congruence.
Qed.

Lemma listener_org_insert o a o' m b :
  listener o a (with_listeners (<[o' := m]> (listeners b)) b)
  = if decide (o = o') then m !! a else listener o a b.
Proof.
  unfold listener, orgListeners. cbn [listeners with_listeners].
  case_decide as E; [subst; by rewrite lookup_insert_eq|by rewrite lookup_insert_ne by congruence].
Qed.

Lemma listener_register o a o' a' b :
  listener o a (registerListener o' a' b)
  = if decide ((o, a) = (o', a')) then Some (default fresh (listener o a b)) else listener o a b.
Proof.
  unfold registerListener. destruct (listener o' a' b) as [l|] eqn:E.
  - rewrite listener_org_insert. destruct (decide (o = o')) as [->|Ho].
    + change (orgListeners o' b !! a) with (listener o' a b).
      case_decide as Ha; [|done]. injection Ha as ->. by rewrite E.
    + by rewrite decide_False by congruence.
  - rewrite listener_set. case_decide as Ha; [|done]. injection Ha as -> ->. by rewrite E.
Qed.

Lemma listener_remove o a o' a' b :
  listener o a (removeListener o' a' b) = if decide ((o, a) = (o', a')) then None else listener o a b.
Proof.
  unfold removeListener, listener, orgListeners. cbn [listeners with_woken with_listeners].
  destruct (listeners b !! o') as [inner|] eqn:E.
  - destruct (decide (o = o')) as [->|Ho].
    + rewrite lookup_insert_eq, E. simpl. destruct (decide (a = a')) as [->|Ha].
      * by rewrite lookup_delete_eq, decide_True.
      * by rewrite lookup_delete_ne, decide_False by congruence.
    + by rewrite lookup_insert_ne, decide_False by congruence.
  - case_decide as Ha; [|done]. injection Ha as -> ->. by rewrite E.
Qed.

Lemma listener_fan_out o a m org b :
  listener o a (fan_out m org b)
  = if decide (o = org) then (λ l, (arrive m l).1.1) <$> listener o a b else listener o a b.
Proof.
  unfold fan_out.
  change (listener o a (with_listeners (<[org := (λ r, r.1.1) <$> (arrive m <$> orgListeners org b)]> (listeners b)) b)
    = if decide (o = org) then (λ l, (arrive m l).1.1) <$> listener o a b else listener o a b).
  rewrite listener_org_insert. case_decide; [subst|done].
  rewrite !lookup_fmap. unfold listener. by destruct (orgListeners org b !! a).
Qed.

(** What a message is to an organisation and to an agent. *)
Definition message_for (org : string) (now : Z) (topic : string) (payload : Wire) : option QueuedMessage :=
  let parts := split_on "/" topic in
  match payload with
  | WJson j =>
      if bool_decide (truthy (parts !! 1%nat) = Some org
           ∧ (parts !! 2%nat = Some "consultations" ∨ parts !! 2%nat = Some "broadcast"))
      then Some (mkQueued topic j now) else None
  | WText _ => None
  end.

Definition offline_for (topic : string) (payload : Wire) : option (string * string) :=
  let parts := split_on "/" topic in
  if bool_decide (parts !! 2%nat = Some "agents" ∧ parts !! 4%nat = Some "status") && is_offline payload
  then org ← truthy (parts !! 1%nat); Some (org, default "" (parts !! 3%nat))
  else None.

Lemma listener_on_message o a now topic payload b :
  listener o a (on_message now topic payload b)
  = if decide (offline_for topic payload = Some (o, a)) then None
    else match message_for o now topic payload with
         | Some m => (λ l, (arrive m l).1.1) <$> listener o a b
         | None => listener o a b
         end.
Proof.
  unfold on_message, offline_for, message_for. set (parts := split_on "/" topic).
  destruct (truthy (parts !! 1%nat)) as [org|] eqn:Eo; [|by destruct (_ && _), payload].
  set (off := bool_decide (parts !! 2%nat = Some "agents" ∧ parts !! 4%nat = Some "status") && is_offline payload).
  set (b1 := if off then _ else b).
  assert (listener o a b1 = if decide ((if off then Some (org, default "" (parts !! 3%nat)) else None) = Some (o, a))
                            then None else listener o a b) as Hb1.
  { unfold b1. destruct off; [|done].
    change (listener o a (removeListener org (default "" (parts !! 3%nat)) b)
      = if decide (Some (org, default "" (parts !! 3%nat)) = Some (o, a)) then None else listener o a b).
    rewrite listener_remove. by repeat case_decide; try congruence. }
  destruct (bool_decide (parts !! 2%nat = Some "consultations" ∨ parts !! 2%nat = Some "broadcast")) eqn:Ec.
  - apply bool_decide_eq_true in Ec.
    assert (off = false) as Hoff.
    { unfold off. rewrite bool_decide_eq_false_2; [done|]. intros [E _]. destruct Ec; congruence. }
    rewrite Hoff in *. cbn [option_bind] in *.
    destruct (decide (None = Some (o, a))) as [?|_]; [done|].
    destruct payload as [j|t]; [|exact Hb1]. rewrite listener_fan_out.
    set (b2 := if decide (orgListeners org b1 = ∅) then _ else b1).
    assert (listener o a b2 = listener o a b) as -> by (unfold b2; case_decide; exact Hb1).
    case_decide as Ho; [rewrite bool_decide_eq_true_2|rewrite bool_decide_eq_false_2]; naive_solver.
  - apply bool_decide_eq_false in Ec. rewrite Hb1.
    destruct off; cbn; case_decide; try done; destruct payload; try done;
      rewrite bool_decide_eq_false_2; naive_solver.
Qed.

Lemma listener_drain o a o' a' ra ack id b :
  listener o a (getQueuedMessages o' a' ra ack id b).2
  = if decide ((o, a) = (o', a')) then Some (drain ra ack id (default fresh (listener o a b))).1.1.1
    else listener o a b.
Proof.
  unfold getQueuedMessages. rewrite listener_register, decide_True by done.
  destruct (drain ra ack id (default fresh (listener o' a' b))) as [[[l' ms] batch] lost] eqn:E.
  change (listener o a (set_listener o' a' l' (registerListener o' a' b))
    = if decide ((o, a) = (o', a')) then Some (drain ra ack id (default fresh (listener o a b))).1.1.1
      else listener o a b).
  rewrite listener_set, listener_register. case_decide as Ha; [|done]. injection Ha as -> ->. by rewrite E.
Qed.

Lemma drained o a ra ack id b :
  (getQueuedMessages o a ra ack id b).1.1 = (drain ra ack id (default fresh (listener o a b))).1.1.2.
Proof.
  unfold getQueuedMessages. rewrite listener_register, decide_True by done.
  by destruct (drain ra ack id (default fresh (listener o a b))) as [[[l' ms] batch] lost].
Qed.

Lemma listener_ack o a o' a' id b :
  listener o a (ackBatch o' a' id b).2
  = if decide ((o, a) = (o', a')) then after_ack id <$> listener o a b else listener o a b.
Proof.
  unfold ackBatch. destruct (decide ((o, a) = (o', a'))) as [Ha|Ha].
  - injection Ha as -> ->. destruct (listener o' a' b) as [l|] eqn:E; [|done].
    unfold after_ack. simpl. destruct (inFlight l) as [[bid held]|]; [|done].
    case_decide; simpl; [by rewrite listener_set, decide_True|done].
  - destruct (listener o' a' b) as [l|]; [|done]. destruct (inFlight l) as [[bid held]|]; [|done].
    case_decide; simpl; [by rewrite listener_set, decide_False|done].
Qed.

Lemma listener_timeout o a o' a' n b : (o, a) ≠ (o', a') →
  listener o a (wait_timeout o' a' n b) = listener o a b.
Proof.
  intros Ha. unfold wait_timeout. destruct (listener o' a' b) as [l|]; [|done]. case_decide; [|done].
  change (listener o a (set_listener o' a' (mkListener (queue l) None (inFlight l) (ackMode l)) b) = listener o a b).
  by rewrite listener_set, decide_False.
Qed.

Lemma listener_wait o a o' a' b : (o, a) ≠ (o', a') →
  listener o a (waitForMessage o' a' b).2 = listener o a b.
Proof.
  intros Ha. unfold waitForMessage. destruct (listener o' a' (registerListener o' a' b)) as [l|] eqn:E.
  - destruct (queue l) as [|m q]; cbn [snd].
    + change (listener o a (set_listener o' a' (mkListener [] (Some (waits (registerListener o' a' b))) (inFlight l) (ackMode l))
                (registerListener o' a' b)) = listener o a b).
      by rewrite listener_set, decide_False, listener_register, decide_False.
    + by rewrite listener_set, decide_False, listener_register, decide_False.
  - simpl. by rewrite listener_register, decide_False.
Qed.

Lemma listener_publish o a p b : listener o a (publish p b) = listener o a b.
Proof. unfold publish. by destruct (up b). Qed.

Lemma listener_mqttPublish o a org topic payload caller b :
  listener o a (mqttPublish org topic payload caller b).2 = listener o a b.
Proof.
  unfold mqttPublish. destruct (up b); [|done]. destruct (routable _), caller as [c|]; try done;
    destruct (agentStatusTopicOwner _ _); try done; by case_decide.
Qed.

Lemma listener_consultation o a b org thread agent subject modules :
  listener o a (publishConsultation org thread agent subject modules b) = listener o a b.
Proof. unfold publishConsultation. by destruct (up b). Qed.

Lemma listener_clear o a b org thread :
  listener o a (clearRetainedConsultation org thread b) = listener o a b.
Proof. unfold clearRetainedConsultation. destruct (up b); [|done]. by case_decide. Qed.

(** The listener after a call of its own agent that waits. *)
Lemma listener_wait_own o a b :
  let l := default fresh (listener o a b) in
  listener o a (waitForMessage o a b).2 =
    Some (match queue l with
          | [] => mkListener [] (Some (waits b)) (inFlight l) (ackMode l)
          | _ :: q => mkListener q (waitResolve l) (inFlight l) (ackMode l)
          end).
Proof.
  cbv zeta. unfold waitForMessage. rewrite listener_register, decide_True by done.
  assert (waits (registerListener o a b) = waits b) as Ew by (unfold registerListener; by destruct (listener o a b)).
  set (l := default fresh (listener o a b)). destruct (queue l) as [|m q]; cbn [snd].
  - rewrite Ew. change (listener o a (set_listener o a (mkListener [] (Some (waits b)) (inFlight l) (ackMode l))
      (registerListener o a b)) = Some (mkListener [] (Some (waits b)) (inFlight l) (ackMode l))).
    by rewrite listener_set, decide_True.
  - by rewrite listener_set, decide_True.
Qed.

(** The timer of a call changes nothing of what is owed. *)
Lemma listener_timeout_own o a n b :
  ∃ w : AgentListener → option nat, listener o a (wait_timeout o a n b) =
    (λ l, mkListener (queue l) (w l) (inFlight l) (ackMode l)) <$> listener o a b.
Proof.
  unfold wait_timeout. destruct (listener o a b) as [l|] eqn:E.
  - exists (λ l, if decide (waitResolve l = Some n) then None else waitResolve l). cbn [fmap option_fmap option_map].
    case_decide; [|rewrite E; by destruct l].
    change (listener o a (set_listener o a (mkListener (queue l) None (inFlight l) (ackMode l)) b)
      = Some (mkListener (queue l) None (inFlight l) (ackMode l))). by rewrite listener_set, decide_True.
  - exists waitResolve. by rewrite E.
Qed.

(** ** Delivery with acknowledgements *)

(** An operation that neither waits for the agent nor takes it offline. *)
Definition calm (org agent : string) (o : Op) : Prop :=
  match o with
  | OWait o a => (o, a) ≠ (org, agent)
  | OMessage _ topic payload => offline_for topic payload ≠ Some (org, agent)
  | _ => True
  end.

(** The messages an organisation is sent. *)
Definition arrivals (org : string) (os : list Op) : list QueuedMessage :=
  omap (λ o, match o with OMessage now topic payload => message_for org now topic payload | _ => None end) os.

Definition hist_step (org agent : string) (o : Op) (ol : option AgentListener) (h : History) : History :=
  match o with
  | OMessage now topic payload =>
      if decide (offline_for topic payload = Some (org, agent)) then hist_depart ol h
      else match message_for org now topic payload with Some m => hist_arrive m ol h | None => h end
  | OWait o a => if decide ((org, agent) = (o, a)) then hist_wait ol h else h
  | ODrain o a ra ack id => if decide ((org, agent) = (o, a)) then hist_drain ra ack id ol h else h
  | OAck o a id => if decide ((org, agent) = (o, a)) then hist_ack id ol h else h
  | _ => h
  end.

(** The history of an agent over a run. *)
Fixpoint history (org agent : string) (os : list Op) (b : Bridge) (h : History) : History :=
  match os with
  | [] => h
  | o :: os => history org agent os (exec o b) (hist_step org agent o (listener org agent b) h)
  end.

(** Nobody departs and gets a message by the same operation. *)
Lemma offline_no_message org agent org' now topic payload :
  offline_for topic payload = Some (org, agent) → message_for org' now topic payload = None.
Proof.
  unfold offline_for, message_for. destruct payload as [j|]; [|done].
  destruct (bool_decide (split_on "/" topic !! 2%nat = Some "agents" ∧ _)) eqn:E; [|done].
  apply bool_decide_eq_true in E as [E _]. intros _. rewrite bool_decide_eq_false_2; [done|].
  rewrite E. intros [_ [?|?]]; congruence.
Qed.

Lemma modal_arrive m l : modal l → modal (arrive m l).1.1.
Proof. unfold modal, arrive. intros Hm. destruct (waitResolve l); [done|]. by destruct (_ <=? _)%nat. Qed.

Lemma modal_after_ack id l : modal l → modal (after_ack id l).
Proof. unfold modal, after_ack. destruct (inFlight l) as [[b held]|] eqn:E; [|by rewrite E]. intros Hm. case_decide; [done|by rewrite E]. Qed.

(** Each operation moves every message to where the history has it. *)
Lemma exec_accounted org agent o b h :
  let ol := listener org agent b in
  let ol' := listener org agent (exec o b) in
  modal (default fresh ol) → accounted h ol → modal (default fresh ol') ∧ accounted (hist_step org agent o ol h) ol'.
Proof.
  intros ol ol' Hm Ha.
  assert (∀ x, x = ol → modal (default fresh x) ∧ accounted h x) as Hsame by (by intros x ->).
  unfold ol', ol in *. clear ol ol'.
  destruct o as [now topic payload|o a|o a n|o a ra ack id|o a id| | | | | |]; cbn [exec hist_step];
    try (apply Hsame; first [apply listener_publish|apply listener_mqttPublish|apply listener_consultation|apply listener_clear|reflexivity]).
  - rewrite listener_on_message. case_decide as Hd.
    + split; [by intros []|]. destruct Ha as [Hp Hs]. unfold accounted, hist_depart. cbn [arrived acked lost given gone due].
      split; [rewrite Hp; solve_Permutation|apply sublist_nil_l].
    + destruct (message_for org now topic payload) as [m|]; [|by apply Hsame]. split; [|by apply arrive_accounted].
      destruct (listener org agent b) as [l|]; [by apply modal_arrive|by intros []].
  - destruct (decide ((org, agent) = (o, a))) as [E|E]; [|by apply Hsame, listener_wait].
    injection E as <- <-. rewrite listener_wait_own. cbn [default from_option id].
    set (l := default fresh (listener org agent b)) in *.
    assert (due (listener org agent b) = owed l) as Hd by (unfold l; by destruct (listener org agent b)).
    destruct Ha as [Hp Hs]. rewrite Hd in Hp, Hs. unfold accounted, hist_wait, modal, owed in *. fold l.
    cbn [arrived acked lost given gone due]. unfold owed.
    destruct (queue l) as [|m q]; cbn [take queue inFlight ackMode app] in *; rewrite ?app_nil_r in *; (split; [exact Hm|]).
    + done.
    + split; [rewrite Hp; solve_Permutation|]. etrans; [|exact Hs]. apply sublist_app; [done|by apply sublist_cons].
  - destruct (decide ((org, agent) = (o, a))) as [E|E]; [|by apply Hsame, listener_timeout].
    injection E as <- <-. destruct (listener_timeout_own org agent n b) as [w ->].
    destruct (listener org agent b) as [l|]; [|done]. by split.
  - rewrite listener_drain. case_decide; [|by apply Hsame]. split; [|by apply drain_accounted].
    apply (drain_ack ra ack id _ Hm).
  - rewrite listener_ack. case_decide; [|by apply Hsame]. split; [|by apply ack_accounted].
    destruct (listener org agent b) as [l|]; [by apply modal_after_ack|by intros []].
Qed.

Lemma run_accounted org agent os b h :
  modal (default fresh (listener org agent b)) → accounted h (listener org agent b) →
  modal (default fresh (listener org agent (run os b))) ∧
  accounted (history org agent os b h) (listener org agent (run os b)).
Proof.
  revert b h. induction os as [|o os IH]; intros b h Hm Ha; [done|].
  destruct (exec_accounted org agent o b h Hm Ha). cbn [run foldl history]. by apply IH.
Qed.

(** The history records every message of the organisation, in order. *)
Lemma step_arrived org agent o ol h :
  arrived (hist_step org agent o ol h) = arrived h ++ arrivals org [o].
Proof.
  unfold arrivals. destruct o as [now topic payload|o a| |o a ra ack id|o a id| | | | | |];
    cbn [hist_step omap list_omap]; rewrite ?app_nil_r; try done.
  - case_decide as Hd; [rewrite (offline_no_message _ _ _ _ _ _ Hd); by rewrite app_nil_r|].
    destruct (message_for org now topic payload) as [m|]; [|by rewrite app_nil_r].
    unfold hist_arrive. destruct ol as [l|]; [|done]. by destruct (waitResolve l).
  - by case_decide.
  - by case_decide.
  - case_decide; [|done]. by destruct ol.
Qed.

Lemma arrivals_cons org o os : arrivals org (o :: os) = arrivals org [o] ++ arrivals org os.
Proof. unfold arrivals. cbn [omap list_omap]. by destruct o; try done; destruct (message_for _ _ _ _). Qed.

Lemma history_arrived org agent os b h :
  arrived (history org agent os b h) = arrived h ++ arrivals org os.
Proof.
  revert b h. induction os as [|o os IH]; intros b h; [by rewrite app_nil_r|].
  cbn [history]. rewrite IH, step_arrived, (arrivals_cons org o os). by rewrite <- app_assoc.
Qed.

Lemma arrive_lossless m l : (length (owed l) < MAX_LISTENER_QUEUE)%nat → (arrive m l).2 = [].
Proof.
  unfold owed. rewrite length_app. intros H. unfold arrive. destruct (waitResolve l); [done|].
  destruct (MAX_LISTENER_QUEUE <=? length (queue l))%nat eqn:E; [|done]. apply Nat.leb_le in E. lia.
Qed.

Lemma drain_lossless ra ack id l : (length (owed l) ≤ MAX_LISTENER_QUEUE)%nat → (drain ra ack id l).2 = [].
Proof.
  unfold owed. intros H. unfold drain. destruct (inFlight l) as [[b held]|].
  - destruct (bool_decide (ack = Some b) || negb (ra || ackMode l)).
    + destruct (queue l); [done|by destruct (ra || ackMode l)].
    + rewrite trim_spec. replace (length (held ++ queue l) - MAX_LISTENER_QUEUE)%nat with 0%nat by lia.
      cbn [drop take]. destruct (held ++ queue l); [done|by destruct (ra || ackMode l)].
  - destruct (queue l); [done|by destruct (ra || ackMode l)].
Qed.

(** No message is given up before a thousand have arrived. *)
Lemma history_lossless org agent os b h :
  modal (default fresh (listener org agent b)) → accounted h (listener org agent b) →
  (length (arrived h ++ arrivals org os) ≤ MAX_LISTENER_QUEUE)%nat → lost h = [] →
  lost (history org agent os b h) = [].
Proof.
  revert b h. induction os as [|o os IH]; intros b h Hm Ha Hlen Hl; [done|].
  destruct (exec_accounted org agent o b h Hm Ha) as [H1 H2].
  rewrite arrivals_cons, app_assoc, <- (step_arrived org agent o (listener org agent b)) in Hlen.
  cbn [history]. apply (IH _ _ H1 H2 Hlen).
  rewrite step_arrived, !length_app in Hlen. pose proof (sublist_length _ _ (proj2 Ha)) as Hle.
  unfold arrivals in Hlen.
  destruct o as [now topic payload|o a| |o a ra ack id|o a id| | | | | |]; cbn [hist_step omap list_omap] in *; try done;
    try (case_decide; [|done]); try done.
  - case_decide; [done|]. destruct (message_for org now topic payload) as [m|]; [|done].
    unfold hist_arrive. destruct (listener org agent b) as [l|]; [|done]. destruct (waitResolve l); [done|].
    cbn [lost due length] in *. rewrite Hl, arrive_lossless; [done|]. lia.
  - unfold hist_drain. cbn [lost]. rewrite Hl, drain_lossless; [done|].
    destruct (listener org agent b) as [l|]; [|apply Nat.le_0_l].
    change (default fresh (Some l)) with l. change (due (Some l)) with (owed l) in Hle. lia.
  - by destruct (listener org agent b).
Qed.

(** A consumer that acknowledges, and does not wait. *)
Definition acking (ol : option AgentListener) : Prop := ∃ l, ol = Some l ∧ ackMode l = true ∧ waitResolve l = None.

Lemma history_calm org agent os b h :
  acking (listener org agent b) → Forall (calm org agent) os →
  given (history org agent os b h) = given h ∧ gone (history org agent os b h) = gone h ∧
  acking (listener org agent (run os b)).
Proof.
  revert b h. induction os as [|o os IH]; intros b h Hk Hc; [done|]. apply Forall_cons in Hc as [Hc Hcs].
  cbn [history run foldl].
  assert (acking (listener org agent (exec o b)) ∧
    given (hist_step org agent o (listener org agent b) h) = given h ∧
    gone (hist_step org agent o (listener org agent b) h) = gone h) as (Hk' & Eg & Ego).
  { destruct Hk as (l & El & Hm & Hw). assert (∀ x, x = listener org agent b → acking x) as Hsame by (intros x ->; by exists l).
    destruct o as [now topic payload|o a|o a n|o a ra ack id|o a id| | | | | |]; cbn [exec hist_step calm] in *;
      try (split; [|done]; apply Hsame; first [apply listener_publish|apply listener_mqttPublish|apply listener_consultation|apply listener_clear|reflexivity]).
    - rewrite listener_on_message, !decide_False, El by done. destruct (message_for org now topic payload) as [m|]; [|split; [by exists l|done]].
      unfold hist_arrive. rewrite Hw. split; [|done]. cbn [fmap option_fmap option_map]. eexists. split; [done|].
      unfold arrive. rewrite Hw. by destruct (_ <=? _)%nat.
    - rewrite listener_wait, decide_False by congruence. split; [by apply Hsame|done].
    - split; [|done]. destruct (decide ((org, agent) = (o, a))) as [E|E]; [|by apply Hsame, listener_timeout].
      injection E as <- <-. apply Hsame. unfold wait_timeout. by rewrite El, Hw.
    - rewrite listener_drain, El. case_decide; [|split; [by exists l|done]]. unfold hist_drain, released. change (default fresh (Some l)) with l.
      rewrite Hm, orb_true_r. cbn [given gone]. rewrite app_nil_r. split; [|done]. eexists. split; [done|].
      unfold drain. rewrite Hm, orb_true_r. destruct (match inFlight l with Some (bid, held) => _ | None => _ end) as [q ?].
      by destruct q.
    - rewrite listener_ack, El. case_decide; [|split; [by exists l|done]]. split; [|done]. eexists. split; [done|].
      unfold after_ack. destruct (inFlight l) as [[? ?]|]; [|done]. by case_decide. }
  destruct (IH (exec o b) (hist_step org agent o (listener org agent b) h) Hk' Hcs) as (-> & -> & ?). done.
Qed.


(** ** Walls between organisations *)

(** The organisation whose listeners an operation can touch. *)
Definition op_org (o : Op) : option string :=
  match o with
  | OMessage _ topic _ => truthy (split_on "/" topic !! 1%nat)
  | OWait org _ | OTimeout org _ _ | ODrain org _ _ _ _ | OAck org _ _ => Some org
  | _ => None
  end.

Lemma message_for_org org now topic payload m :
  message_for org now topic payload = Some m → truthy (split_on "/" topic !! 1%nat) = Some org.
Proof. unfold message_for. destruct payload; [|done]. case_bool_decide as H; [|done]. by destruct H. Qed.

Lemma offline_for_org topic payload org agent :
  offline_for topic payload = Some (org, agent) → truthy (split_on "/" topic !! 1%nat) = Some org.
Proof.
  unfold offline_for. destruct (_ && _); [|done].
  destruct (truthy (split_on "/" topic !! 1%nat)); simpl; congruence.
Qed.

Lemma exec_other_org org agent o b : op_org o ≠ Some org →
  listener org agent (exec o b) = listener org agent b.
Proof.
  intros Ho. destruct o as [now topic payload|o a|o a n|o a ra ack id|o a id| | | | | |]; cbn [exec op_org] in *.
  - rewrite listener_on_message, decide_False; last by intros ?%offline_for_org.
    destruct (message_for org now topic payload) eqn:E; [|done]. by apply message_for_org in E.
  - apply listener_wait. congruence.
  - apply listener_timeout. congruence.
  - rewrite listener_drain, decide_False; [done|congruence].
  - rewrite listener_ack, decide_False; [done|congruence].
  - apply listener_mqttPublish.
  - apply listener_publish.
  - apply listener_consultation.
  - apply listener_clear.
  - done.
  - done.
Qed.

Lemma prefix_app p t : String.prefix p t = true → ∃ r, t = p +:+ r.
Proof.
  revert t. induction p as [|a p IH]; intros t; simpl; [by exists t|].
  destruct t as [|b t]; [done|]. cbn [String.prefix]. destruct (Ascii.ascii_dec a b) as [->|]; [|done].
  intros (r & ->)%IH. by exists r.
Qed.

Lemma app_prefix p r : String.prefix p (p +:+ r) = true.
Proof.
  induction p as [|a p IH]; [by destruct r|].
  change (String a p +:+ r) with (String a (p +:+ r)). simpl. by destruct (Ascii.ascii_dec a a).
Qed.

(** The levels of a topic under the prefix of an organisation. *)
Lemma split_prefix org r : has_char "/" org = false →
  split_on "/" (org_prefix org +:+ r) = "coordinator" :: org :: split_on "/" r.
Proof.
  intros Ho. unfold org_prefix.
  change (split_on "/" (("coordinator/" +:+ org +:+ "/") +:+ r))
    with ("coordinator" :: split_on "/" ((org +:+ "/") +:+ r)).
  replace ((org +:+ "/") +:+ r) with (org +:+ String "/" r) by by rewrite str_app_assoc.
  rewrite split_on_app by done. cbn [split_on]. rewrite Ascii.eqb_refl. by rewrite str_app_nil_r.
Qed.

Lemma scopedTopic_under org topic : ∃ r, scopedTopic org topic = org_prefix org +:+ r.
Proof. unfold scopedTopic, startsWith. destruct (String.prefix _ _) eqn:E; [by apply prefix_app|eauto]. Qed.

Lemma under_prefix org r : org ≠ "" → has_char "/" org = false →
  truthy (split_on "/" (org_prefix org +:+ r) !! 1%nat) = Some org.
Proof. intros Hne Ho. rewrite split_prefix by done. simpl. by destruct org. Qed.

(** A status topic under the prefix names its owner, unless it names no one. *)
Lemma status_owner org topic payload o x : has_char "/" org = false →
  startsWith (org_prefix org) topic = true → length (split_on "/" topic) = 5%nat →
  offline_for topic payload = Some (o, x) → x ≠ "" → agentStatusTopicOwner topic org = Some x.
Proof.
  intros Ho (r & ->)%prefix_app Hlen. unfold offline_for, agentStatusTopicOwner. rewrite split_prefix in * by done.
  destruct (split_on "/" r) as [|k [|a [|leaf [|? ?]]]]; try done. simpl.
  destruct (bool_decide (Some k = Some "agents" ∧ Some leaf = Some "status")) eqn:E; [|done].
  apply bool_decide_eq_true in E as [[= ->] [= ->]]. destruct (is_offline payload); [|done]. simpl.
  destruct org as [|c org]; [done|]. simpl. intros [= <- <-] Hx.
  rewrite decide_True by done. by destruct a.
Qed.

(** A caller of [mqtt_publish] stays in its organisation and its identity.
    Whatever topic it names, what goes out is under the prefix of its
    organisation; when it comes back, it reaches the listeners of that
    organisation and no others; and a caller that is an agent makes no other
    agent depart. *)
Theorem publish_confined (org topic : string) (payload : Wire) (caller : option string) (b : Bridge) :
  org ≠ "" → has_char "/" org = false → up b = true →
  ∃ t, ((mqttPublish org topic payload caller b).1 = true →
        wire (mqttPublish org topic payload caller b).2 = wire b ++ [mkPublish t payload 1 false])
    ∧ ((mqttPublish org topic payload caller b).1 = false → wire (mqttPublish org topic payload caller b).2 = wire b)
    ∧ startsWith (org_prefix org) t = true
    ∧ (∀ now b' o a, o ≠ org → listener o a (on_message now t payload b') = listener o a b')
    ∧ (∀ a x, caller = Some a → (mqttPublish org topic payload caller b).1 = true →
         length (split_on "/" t) = 5%nat → offline_for t payload = Some (org, x) → x ≠ "" → x = a).
Proof.
  intros Hne Ho Hup. destruct (scopedTopic_under org topic) as (r & Et).
  exists (scopedTopic org topic).
  assert (startsWith (org_prefix org) (scopedTopic org topic) = true) as Hpre
    by (rewrite Et; apply app_prefix).
  unfold mqttPublish. rewrite Hup. set (t := scopedTopic org topic) in *.
  set (b1 := if routable (rest_of org t) then b else with_drops ["unroutable_topic"] b).
  assert (wire b1 = wire b) as Hw by (unfold b1; by destruct (routable _)).
  split_and!.
  - destruct caller as [c|], (agentStatusTopicOwner t org); try case_decide; try done;
      intros _; cbn [snd wire with_wire]; by rewrite Hw.
  - destruct caller as [c|], (agentStatusTopicOwner t org); try case_decide; done.
  - done.
  - intros now b' o a Hoo. apply (exec_other_org o a (OMessage now t payload)).
    cbn [op_org]. rewrite Et, under_prefix by done. congruence.
  - intros a x -> Hok Hlen Hoff Hx. rewrite (status_owner org t payload org x) in Hok by done.
    case_decide; [done|discriminate].
Qed.

(** ** What the broker lets through *)

(** Topic filters, as MQTT 3.1.1 (section 4.7) defines them: [+] is one level
    and [#] is what remains. *)
Class TopicFilters := {
  filter_matches : string → string → bool;
  filter_levels f t : filter_matches f t = true → "#" ∉ split_on "/" f →
    length (split_on "/" t) = length (split_on "/" f);
  filter_level f t i l : filter_matches f t = true → split_on "/" f !! i = Some l →
    l ≠ "+" → l ≠ "#" → (∀ j, (j < i)%nat → split_on "/" f !! j ≠ Some "#") →
    split_on "/" t !! i = Some l
}.

(** A topic the bridge is sent. *)
Definition received `{TopicFilters} (topic : string) : Prop :=
  ∃ f, f ∈ SUBSCRIPTIONS ∧ filter_matches f topic = true.

Lemma received_status `{TopicFilters} topic payload o x :
  received topic → offline_for topic payload = Some (o, x) → length (split_on "/" topic) = 5%nat.
Proof.
  intros (f & Hf & Hm) Hoff.
  assert (split_on "/" topic !! 2%nat = Some "agents") as Hk.
  { unfold offline_for in Hoff. case_bool_decide as Hb; [|done]. by destruct Hb. }
  repeat (apply elem_of_cons in Hf as [->|Hf]); [| | |by apply elem_of_nil in Hf].
  - apply (filter_levels _ _ Hm). vm_compute. intros Hin.
    repeat (apply elem_of_cons in Hin as [Hin|Hin]; [discriminate|]). by apply elem_of_nil in Hin.
  - assert (split_on "/" topic !! 2%nat = Some "consultations"); [|congruence].
    apply (filter_level _ _ 2 _ Hm); [done..|]. intros [|[|j]] Hj; [done|done|lia].
  - assert (split_on "/" topic !! 2%nat = Some "broadcast"); [|congruence].
    apply (filter_level _ _ 2 _ Hm); [done..|]. intros [|[|j]] Hj; [done|done|lia].
Qed.

Lemma on_message_departures now topic payload b :
  departures (on_message now topic payload b) = departures b ++ option_list (offline_for topic payload).
Proof.
  unfold on_message, offline_for. set (parts := split_on "/" topic).
  destruct (truthy (parts !! 1%nat)) as [org|]; [|destruct (_ && _); by rewrite app_nil_r].
  destruct (bool_decide (parts !! 2%nat = Some "agents" ∧ parts !! 4%nat = Some "status") && is_offline payload);
    cbn [option_bind]; simpl; rewrite ?app_nil_r;
    (case_bool_decide; [|done]); (destruct payload; [|done]); by case_decide.
Qed.

(** [C21] No one is taken offline by another's credential. When the broker
    authenticates its clients, a packet that a client with a token got published,
    and that makes the bridge report a departure, is about the agent the token
    names, in the organisation the token names; the bridge's own token apart. *)
Theorem departure_needs_identity `{Jose, TopicFilters} (cfg : Authenticate.AuthConfig) (e : Rotation.Env)
    (password : option string) (c : Client) (now : Z) (topic : string) (payload : Wire) (b : Bridge) (o x : string) :
  authenticateHook (authenticate cfg e password) = Some c → cl_role c ≠ Some INTERNAL_BRIDGE_ROLE →
  match cl_org c with Some org => has_char "/" org = false | None => True end →
  authorizePublish c topic = true → received topic →
  departures (on_message now topic payload b) = departures b ++ [(o, x)] → x ≠ "" →
  ∃ token claims w, password = Some token ∧ Authenticate.verifyTokenStrict cfg e token = inr (claims, w)
    ∧ Authenticate.a_role claims = "agent" ∧ x = Authenticate.a_sub claims ∧ o = Authenticate.a_org claims.
Proof.
  intros Hauth Hrole Hslash Hpub Hrec Hdep Hx. rewrite on_message_departures in Hdep.
  apply (inj (app (departures b))) in Hdep.
  destruct (offline_for topic payload) as [[o' x']|] eqn:Eoff; [|done]. injection Hdep as -> ->.
  pose proof (received_status topic payload o x Hrec Eoff) as Hlen.
  unfold authenticate in Hauth. destruct password as [token|]; [|done].
  destruct (Authenticate.verifyTokenStrict cfg e token) as [?|[claims w]] eqn:Ev; [done|].
  injection Hauth as <-. cbn [cl_org cl_role cl_agent] in *. unfold authorizePublish in Hpub.
  rewrite decide_False in Hpub by done. cbn [cl_org cl_agent] in Hpub.
  destruct (truthy (Some (Authenticate.a_org claims))) as [org|] eqn:Eo; [|done].
  assert (org = Authenticate.a_org claims) as -> by (destruct (Authenticate.a_org claims); simpl in Eo; congruence).
  destruct (startsWith _ topic) eqn:Epre; [|done].
  rewrite (status_owner _ topic payload o x) in Hpub by done. apply bool_decide_eq_true in Hpub.
  case_decide as Hr; [|done]. injection Hpub as ->. exists token, claims, w. split_and!; try done.
  destruct (prefix_app _ _ Epre) as (r & ->). apply offline_for_org in Eoff.
  rewrite under_prefix in Eoff; [congruence| |done]. intros E. rewrite E in Eo. done.
Qed.

End BridgeSafety.
