(* ===== verification/BridgeWaits.v ===== *)
(** * Calls that wait for a message

    [wait_for_message] answers at once when something is queued and otherwise
    waits for a message, for the departure of its agent or for its timer. Calls
    are numbered in the order they began to wait. *)

From S2P Require Import Prelude Database Schemas AuthState Rotation Authenticate Bridge BridgeSafety.
Import Schemas.
Local Open Scope nat_scope.

Module BridgeWaits.
Import Broker Bridge BridgeSafety.

(** Call [n] waits at the listener of an agent. *)
Definition waiting (b : Bridge) (k : string * string) (n : nat) : Prop :=
  ∃ l, listener k.1 k.2 b = Some l ∧ waitResolve l = Some n.

Definition answered (b : Bridge) (n : nat) : Prop := n ∈ (woken b).*1.

Record WInv (b : Bridge) : Prop := {
  winv_answered n : answered b n → n < waits b;
  winv_waiting k n : waiting b k n → n < waits b ∧ ¬ answered b n;
  winv_one k k' n : waiting b k n → waiting b k' n → k = k';
  winv_nodup : NoDup (woken b).*1
}.

(** What an operation does to the calls: it answers some of those that waited,
    the others go on waiting or are forgotten, and it may start one at [k]. *)
Record wmove (k : string * string) (b b' : Bridge) (new : list nat) : Prop := {
  wm_woken : (woken b').*1 = (woken b).*1 ++ new;
  wm_nodup : NoDup new;
  wm_new n : n ∈ new → ∃ k', waiting b k' n;
  wm_wait k' n : waiting b' k' n →
    (waiting b k' n ∧ n ∉ new) ∨ (k' = k ∧ n = waits b ∧ waits b' = S (waits b));
  wm_waits : waits b ≤ waits b'
}.

Lemma wmove_inv k b b' new : WInv b → wmove k b b' new → WInv b'.
Proof.
  intros [Ha Hw Ho Hn] [Ew Hnd Hnew Hwait Hle].
  assert (∀ n, answered b' n ↔ answered b n ∨ n ∈ new) as Hans
    by (intros n; unfold answered; by rewrite Ew, elem_of_app).
  assert (∀ n, n ∈ new → n < waits b ∧ ¬ answered b n) as Hlt by (intros n (k' & Hk)%Hnew; eauto).
  split.
  - intros n [H|H]%Hans; [specialize (Ha n H)|specialize (Hlt n H)]; lia.
  - intros k' n [[H1 H2]|(-> & -> & E)]%Hwait.
    + destruct (Hw _ _ H1). split; [lia|]. rewrite Hans. tauto.
    + split; [lia|]. rewrite Hans. intros [H|H]; [specialize (Ha _ H)|specialize (Hlt _ H)]; lia.
  - intros k1 k2 n H1 H2. apply Hwait in H1 as [[H1 _]|(-> & -> & _)], H2 as [[H2 _]|(-> & E & _)]; [eauto| | |done].
    + subst n. apply Hw in H1 as [? _]. lia.
    + apply Hw in H2 as [? _]. lia.
  - rewrite Ew. apply NoDup_app. split_and!; [done| |done]. intros n H1 H2. by apply (Hlt n H2).
Qed.

(** Operations that answer no one. *)
Lemma wmove_quiet k b b' : woken b' = woken b → waits b' = waits b →
  (∀ o a l', listener o a b' = Some l' → waitResolve l' ≠ None →
     ∃ l, listener o a b = Some l ∧ waitResolve l = waitResolve l') →
  wmove k b b' [].
Proof.
  intros Ew Ewt Hl. split.
  - by rewrite Ew, app_nil_r.
  - constructor.
  - by intros n ?%elem_of_nil.
  - intros [o a] n (l' & El & Er). left. split; [|apply not_elem_of_nil].
    destruct (Hl o a l' El) as (l & E1 & E2); [congruence|]. exists l. simpl. split; congruence.
  - lia.
Qed.

Lemma bind_keys {A B} (f : A → list (nat * B)) l : (l ≫= f).*1 = l ≫= (λ x, (f x).*1).
Proof. induction l as [|x l IH]; [done|]. rewrite !bind_cons, fmap_app. by rewrite IH. Qed.

Lemma arrive_wait m l : waitResolve (arrive m l).1.1 = None
  ∧ (option_list (arrive m l).1.2).*1 = option_list (waitResolve l).
Proof. unfold arrive. destruct (waitResolve l); [done|]. by destruct (_ <=? _). Qed.

Lemma wmove_fan_out k m org b : WInv b → ∃ new, wmove k b (fan_out m org b) new.
Proof.
  intros Hinv. unfold fan_out. set (results := arrive m <$> orgListeners org b).
  set (f := λ r : string * (AgentListener * option (nat * option QueuedMessage) * list QueuedMessage), option_list r.2.1.2).
  exists ((map_to_list results ≫= f).*1). rewrite bind_keys.
  assert (∀ x n, x ∈ map_to_list results → n ∈ (f x).*1 → waiting b (org, x.1) n) as Hf.
  { intros [a r] n Hx%elem_of_map_to_list Hn. unfold results in Hx. rewrite lookup_fmap in Hx.
    apply fmap_Some in Hx as (l & El & ->). exists l. split; [done|].
    unfold f in Hn. cbn [snd] in Hn. rewrite (proj2 (arrive_wait m l)) in Hn.
    destruct (waitResolve l); [by apply list_elem_of_singleton in Hn as ->|by apply elem_of_nil in Hn]. }
  split.
  - cbn [woken with_drops with_woken with_listeners]. rewrite fmap_app. f_equal. apply bind_keys.
  - apply NoDup_bind.
    + intros x1 x2 n H1 H2 H3 H4.
      assert (x1.1 = x2.1) as E by (pose proof (winv_one b Hinv _ _ n (Hf _ _ H1 H3) (Hf _ _ H2 H4)); congruence).
      destruct x1 as [a r1], x2 as [a2 r2]. cbn [fst] in E. subst a2.
      apply elem_of_map_to_list in H1, H2. congruence.
    + intros [a r] _. unfold f. cbn [snd]. destruct r.1.2; [apply NoDup_singleton|constructor].
    + apply NoDup_map_to_list.
  - intros n (x & Hn & Hx)%list_elem_of_bind. eauto.
  - intros [o a] n (l' & El & Er). left. cbn [fst snd] in El.
    change (listener o a (fan_out m org b) = Some l') in El. rewrite listener_fan_out in El.
    destruct (decide (o = org)) as [->|Ho].
    + apply fmap_Some in El as (l & _ & ->). by rewrite (proj1 (arrive_wait m l)) in Er.
    + split; [by exists l'|]. intros (x & Hn & Hx)%list_elem_of_bind.
      pose proof (winv_one b Hinv _ (o, a) n (Hf _ _ Hx Hn) ltac:(by exists l')). congruence.
  - done.
Qed.

(** An operation at [k] that answers the call waiting there, if any, and nothing
    else. *)
Lemma wmove_at k b b' : WInv b →
  (woken b').*1 = (woken b).*1 ++ option_list (listener k.1 k.2 b ≫= waitResolve) →
  waits b' = waits b →
  (∀ o a l', listener o a b' = Some l' → waitResolve l' ≠ None → (o, a) ≠ k ∧ listener o a b = Some l') →
  ∃ new, wmove k b b' new.
Proof.
  intros Hinv Ew Ewt Hl. exists (option_list (listener k.1 k.2 b ≫= waitResolve)).
  assert (∀ n, n ∈ option_list (listener k.1 k.2 b ≫= waitResolve) → waiting b k n) as Hnew.
  { intros n Hn. destruct (listener k.1 k.2 b) as [l|] eqn:El; [|by apply elem_of_nil in Hn].
    exists l. split; [done|]. simpl in Hn.
    destruct (waitResolve l); [by apply list_elem_of_singleton in Hn as ->|by apply elem_of_nil in Hn]. }
  split.
  - done.
  - destruct (_ ≫= _); [apply NoDup_singleton|constructor].
  - eauto.
  - intros [o a] n (l' & El & Er). left. destruct (Hl o a l' El) as [Hk El']; [congruence|].
    split; [by exists l'|]. intros Hn%Hnew. apply Hk. eapply winv_one; [done| |done]. by exists l'.
  - lia.
Qed.

Lemma wmove_remove org agent b : WInv b → ∃ new, wmove (org, agent) b (removeListener org agent b) new.
Proof.
  intros Hinv. apply wmove_at; [done| |done|].
  - unfold removeListener. cbn [woken with_woken with_listeners fst snd]. rewrite fmap_app. f_equal.
    by destruct (listener org agent b ≫= waitResolve).
  - intros o a l' El _. rewrite listener_remove in El. case_decide; [done|]. by split.
Qed.

Lemma wmove_timeout org agent n b : WInv b → ∃ new, wmove (org, agent) b (wait_timeout org agent n b) new.
Proof.
  intros Hinv. unfold wait_timeout. destruct (listener org agent b) as [l|] eqn:El; [case_decide as Er|].
  - apply wmove_at; [done| |done|].
    + cbn [woken with_woken fst snd]. rewrite fmap_app, El. simpl. by rewrite Er.
    + intros o a l' E Hw.
      change (listener o a (set_listener org agent (mkListener (queue l) None (inFlight l) (ackMode l)) b) = Some l') in E.
      rewrite listener_set in E. case_decide; [|by split]. by injection E as <-.
  - exists []. apply wmove_quiet; eauto.
  - exists []. apply wmove_quiet; eauto.
Qed.

Lemma registered_wait o a org agent b l' : listener o a (registerListener org agent b) = Some l' →
  waitResolve l' ≠ None → listener o a b = Some l'.
Proof.
  rewrite listener_register. case_decide as Hk; [|done]. destruct (listener o a b) as [l|]; [done|].
  by intros [= <-].
Qed.

Lemma wmove_wait org agent b : WInv b → ∃ new, wmove (org, agent) b (waitForMessage org agent b).2 new.
Proof.
  intros Hinv. exists []. unfold waitForMessage.
  assert (waits (registerListener org agent b) = waits b ∧ woken (registerListener org agent b) = woken b) as [E1 E2]
    by (unfold registerListener; by destruct (listener org agent b)).
  pose proof (listener_register org agent org agent b) as El. rewrite decide_True in El by done. rewrite El.
  set (l := default fresh (listener org agent b)) in *.
  assert (waitResolve l ≠ None → listener org agent b = Some l) as Hl
    by (unfold l; by destruct (listener org agent b)).
  destruct (queue l) as [|m q]; cbn [snd].
  - rewrite E1. split.
    + cbn [woken next_wait set_listener with_listeners]. by rewrite E2, app_nil_r.
    + constructor.
    + by intros n ?%elem_of_nil.
    + intros [o a] n (l' & E & Er). cbn [fst snd] in E.
      change (listener o a (set_listener org agent (mkListener [] (Some (waits b)) (inFlight l) (ackMode l))
                (registerListener org agent b)) = Some l') in E.
      rewrite listener_set in E. case_decide as Hk.
      * right. injection E as <-. injection Er as <-. split_and!; [done|done|].
        cbn [waits next_wait set_listener with_listeners]. by rewrite E1.
      * left. split; [|apply not_elem_of_nil]. exists l'. split; [|done].
        eapply registered_wait; [exact E|congruence].
    + cbn [waits next_wait set_listener with_listeners]. rewrite E1. lia.
  - apply wmove_quiet; [done|done|]. intros o a l' E Hw. rewrite listener_set in E. case_decide as Hk.
    + injection Hk as -> ->. injection E as <-. cbn [waitResolve] in *. eauto.
    + apply registered_wait in E; eauto.
Qed.

Lemma wmove_drain org agent ra ack id b :
  ∃ new, wmove (org, agent) b (getQueuedMessages org agent ra ack id b).2 new.
Proof.
  exists [].
  assert (waits (getQueuedMessages org agent ra ack id b).2 = waits b ∧
          woken (getQueuedMessages org agent ra ack id b).2 = woken b) as [E1 E2].
  { unfold getQueuedMessages. rewrite listener_register, decide_True by done.
    destruct (drain _ _ _ _) as [[[? ?] ?] ?]. unfold registerListener. by destruct (listener org agent b). }
  apply wmove_quiet; [done|done|]. intros o a l' E Hw. rewrite listener_drain in E.
  case_decide as Hk; [|eauto]. injection Hk as -> ->. injection E as <-.
  set (l := default fresh (listener org agent b)) in *.
  assert (waitResolve (drain ra ack id l).1.1.1 = waitResolve l) as Er.
  { unfold drain. destruct (match inFlight l with Some (bid, held) => _ | None => _ end) as [q ?].
    destruct q; [done|]. by destruct (ra || ackMode l). }
  rewrite Er in *. exists l. split; [|done]. unfold l in *. by destruct (listener org agent b).
Qed.

Lemma wmove_ack org agent id b : ∃ new, wmove (org, agent) b (ackBatch org agent id b).2 new.
Proof.
  exists [].
  assert (waits (ackBatch org agent id b).2 = waits b ∧ woken (ackBatch org agent id b).2 = woken b) as [E1 E2].
  { unfold ackBatch. destruct (listener org agent b) as [l|]; [|done].
    destruct (inFlight l) as [[? ?]|]; [|done]. by case_decide. }
  apply wmove_quiet; [done|done|]. intros o a l' E Hw. rewrite listener_ack in E.
  case_decide as Hk; [|eauto]. apply fmap_Some in E as (l & -> & ->). exists l. split; [done|].
  unfold after_ack. destruct (inFlight l) as [[? ?]|]; [|done]. by case_decide.
Qed.

(** A message is dropped, makes an agent depart, or is fanned out. *)
Lemma on_message_cases now topic payload b :
  (∃ d, on_message now topic payload b = with_drops d b) ∨ on_message now topic payload b = b
  ∨ (∃ org agent, on_message now topic payload b = with_departure (org, agent) (removeListener org agent b))
  ∨ (∃ m org, on_message now topic payload b = fan_out m org b
              ∨ on_message now topic payload b = fan_out m org (with_drops ["no_listener"] b)).
Proof.
  unfold on_message. set (parts := split_on "/" topic).
  destruct (truthy (parts !! 1)) as [org|]; [|by right; left].
  destruct (bool_decide (parts !! 2 = Some "agents" ∧ parts !! 4 = Some "status")) eqn:E1.
  - apply bool_decide_eq_true in E1 as [E1 _].
    rewrite (bool_decide_eq_false_2 (parts !! 2 = Some "consultations" ∨ _)) by (rewrite E1; intros [?|?]; congruence).
    destruct (is_offline payload); cbn [andb]; [right; right; left; by eexists _, _|by right; left].
  - cbn [andb]. destruct (bool_decide (_ ∨ _)); [|by right; left]. destruct payload as [j|]; [|by left; eexists].
    right; right; right. exists (mkQueued topic j now), org. destruct (decide (orgListeners org b = ∅)); [right|left]; reflexivity.
Qed.

Lemma exec_wmove o b : WInv b → ∃ k new, wmove k b (exec o b) new.
Proof.
  intros Hinv.
  assert (∀ b', (∀ o a, listener o a b' = listener o a b) → woken b' = woken b → waits b' = waits b →
    ∃ k new, wmove k b b' new) as Hq.
  { intros b' El Ew Ewt. exists ("", ""), []. apply wmove_quiet; [done|done|].
    intros o' a l' E _. rewrite El in E. eauto. }
  destruct o as [now topic payload|o a|o a n|o a ra ack id|o a id|o t p c| p| o t a su mo|o t| |]; cbn [exec].
  - destruct (on_message_cases now topic payload b) as [(d & ->)|[->|[(o & a & ->)|(m & o & [->| ->])]]].
    + by apply Hq.
    + by apply Hq.
    + destruct (wmove_remove o a b Hinv) as [new [? ? ? Hw ?]]. exists (o, a), new. by split.
    + eexists ("", ""). by apply wmove_fan_out.
    + assert (WInv (with_drops ["no_listener"] b)) as Hinv'.
      { destruct (Hq (with_drops ["no_listener"] b)) as (k & new & Hm); [done..|]. by eapply wmove_inv. }
      destruct (wmove_fan_out ("", "") m o _ Hinv') as [new [? ? ? Hw ?]]. exists ("", ""), new. by split.
  - eexists. by apply wmove_wait.
  - eexists. by apply wmove_timeout.
  - eexists. apply wmove_drain.
  - eexists. apply wmove_ack.
  - apply Hq; [intros; apply listener_mqttPublish| |]; unfold mqttPublish; destruct (up b); try done;
      destruct (routable _), c; try done; destruct (agentStatusTopicOwner _ _); try done; by case_decide.
  - apply Hq; [intros; apply listener_publish| |]; unfold publish; by destruct (up b).
  - apply Hq; [intros; apply listener_consultation| |]; unfold publishConsultation; by destruct (up b).
  - apply Hq; [intros; apply listener_clear| |]; unfold clearRetainedConsultation; destruct (up b); try done; by case_decide.
  - by apply Hq.
  - by apply Hq.
Qed.

Lemma exec_winv o b : WInv b → WInv (exec o b).
Proof. intros Hinv. destruct (exec_wmove o b Hinv) as (k & new & Hm). by eapply wmove_inv. Qed.

Lemma run_winv os b : WInv b → WInv (run os b).
Proof. revert b. induction os as [|o os IH]; [done|]. intros b Hinv. by apply IH, exec_winv. Qed.

Lemma initial_winv home : WInv (initial home).
Proof. split; try (by intros * ?%elem_of_nil); [| |constructor]; by intros * (l & [=] & _). Qed.

(** Answers are only added. *)
Lemma woken_grows o b : woken b `prefix_of` woken (exec o b).
Proof.
  assert (∀ m org b, woken b `prefix_of` woken (fan_out m org b)) as Hfan by (intros; by eexists).
  destruct o as [now topic payload|o a|o a n|o a ra ack id|o a id|o t p c| p| o t a su mo|o t| |]; cbn [exec]; try done.
  - destruct (on_message_cases now topic payload b) as [(d & ->)|[->|[(o & a & ->)|(m & o & [->| ->])]]]; try done;
      [by eexists|apply (Hfan m o (with_drops ["no_listener"] b))].
  - unfold waitForMessage. rewrite listener_register, decide_True by done.
    destruct (queue _); unfold registerListener; by destruct (listener o a b).
  - unfold wait_timeout. destruct (listener o a b); [|done]. case_decide; [by eexists|done].
  - unfold getQueuedMessages. rewrite listener_register, decide_True by done.
    destruct (drain _ _ _ _) as [[[? ?] ?] ?]. unfold registerListener. by destruct (listener o a b).
  - unfold ackBatch. destruct (listener o a b) as [l|]; [|done]. destruct (inFlight l) as [[? ?]|]; [|done]. by case_decide.
  - unfold mqttPublish. destruct (up b); [|done]. destruct (routable _), c as [c|]; try done;
      destruct (agentStatusTopicOwner _ _); try done; by case_decide.
  - unfold publish. by destruct (up b).
  - unfold publishConsultation. by destruct (up b).
  - unfold clearRetainedConsultation. destruct (up b); [|done]. by case_decide.
Qed.

Lemma run_woken_grows os b : woken b `prefix_of` woken (run os b).
Proof.
  revert b. induction os as [|o os IH]; intros b; [done|]. etrans; [apply woken_grows|apply (IH (exec o b))].
Qed.

(** What an operation answers a call [n] that waits at an agent: a message of the
    organisation is the answer; the agent's departure and the timer answer that
    there is none. *)
Definition answer (org agent : string) (n : nat) (o : Op) : option (option QueuedMessage) :=
  match o with
  | OMessage now topic payload =>
      if decide (offline_for topic payload = Some (org, agent)) then Some None
      else Some <$> message_for org now topic payload
  | OTimeout o a n' => if decide ((o, a, n') = (org, agent, n)) then Some None else None
  | _ => None
  end.

Lemma waiting_fan_out m org agent l b n : listener org agent b = Some l → waitResolve l = Some n →
  (n, Some m) ∈ woken (fan_out m org b).
Proof.
  intros El Er. unfold fan_out. cbn [woken with_drops with_woken with_listeners].
  apply elem_of_app. right. apply list_elem_of_bind. exists (agent, arrive m l). split.
  - unfold arrive. rewrite Er. by left.
  - apply elem_of_map_to_list. rewrite lookup_fmap. change (arrive m <$> listener org agent b = Some (arrive m l)). by rewrite El.
Qed.

(** A message that is for the organisation is fanned out. *)
Lemma on_message_for org now topic payload b m : message_for org now topic payload = Some m →
  ∃ b', on_message now topic payload b = fan_out m org b' ∧ ∀ o a, listener o a b' = listener o a b.
Proof.
  unfold message_for, on_message. destruct payload as [j|]; [|done]. case_bool_decide as H; [|done].
  destruct H as [Eo Ec]. intros [= <-]. rewrite Eo, (bool_decide_eq_true_2 (_ ∨ _)) by done.
  rewrite (bool_decide_eq_false_2 (_ ∧ _)) by (intros [E _]; rewrite E in Ec; destruct Ec; congruence).
  cbn [andb]. by eexists; split; [reflexivity|]; case_decide.
Qed.

Lemma on_message_offline org agent now topic payload b : offline_for topic payload = Some (org, agent) →
  on_message now topic payload b = with_departure (org, agent) (removeListener org agent b).
Proof.
  unfold offline_for, on_message. destruct (_ && is_offline payload) eqn:E; [|done].
  destruct (truthy (split_on "/" topic !! 1)) as [o|]; [|done]. intros [= -> ->].
  apply andb_true_iff in E as [E _]. apply bool_decide_eq_true in E as [E _].
  rewrite bool_decide_eq_false_2; [done|]. rewrite E. intros [?|?]; congruence.
Qed.

(** A call that no later call of its agent replaces gets the answer of the first
    operation that has one, and waits until then. *)
Lemma exec_answer org agent o b n : o ≠ OWait org agent → waiting b (org, agent) n →
  match answer org agent n o with
  | Some r => (n, r) ∈ woken (exec o b)
  | None => waiting (exec o b) (org, agent) n
  end.
Proof.
  intros Ho (l & El & Er). cbn [fst snd] in El.
  assert (∀ b', listener org agent b' = listener org agent b → waiting b' (org, agent) n) as Hkeep
    by (intros b' E; exists l; simpl; by rewrite E).
  destruct o as [now topic payload|o a|o a n'|o a ra ack id|o a id| | | | | |]; cbn [exec answer];
    try (apply Hkeep; first [apply listener_publish|apply listener_mqttPublish|apply listener_consultation
                            |apply listener_clear|reflexivity]).
  - case_decide as Hd.
    + rewrite (on_message_offline org agent) by done. unfold removeListener.
      cbn [woken with_woken with_listeners with_departure]. rewrite El. simpl. rewrite Er. apply elem_of_app. right. by left.
    + destruct (message_for org now topic payload) as [m|] eqn:Em; cbn [fmap option_fmap option_map].
      * destruct (on_message_for org now topic payload b m Em) as (b' & -> & Eb).
        by apply (waiting_fan_out m org agent l); [rewrite Eb|].
      * apply Hkeep. by rewrite listener_on_message, decide_False, Em.
  - apply Hkeep, listener_wait. congruence.
  - destruct (decide ((org, agent) = (o, a))) as [E|E].
    + injection E as <- <-. unfold wait_timeout. rewrite El, Er. destruct (decide (n' = n)) as [->|Hn].
      * rewrite !decide_True by done. cbn [woken with_woken]. apply elem_of_app. right. by left.
      * rewrite !decide_False by congruence. by apply Hkeep.
    + rewrite decide_False by congruence. by apply Hkeep, listener_timeout.
  - destruct (decide ((org, agent) = (o, a))) as [E|E].
    + exists (drain ra ack id l).1.1.1. cbn [fst snd]. rewrite listener_drain, decide_True, El by done. split; [done|].
      unfold drain. destruct (match inFlight l with Some (bid, held) => _ | None => _ end) as [q ?].
      destruct q; [done|]. by destruct (ra || ackMode l).
    + apply Hkeep. by rewrite listener_drain, decide_False.
  - destruct (decide ((org, agent) = (o, a))) as [E|E].
    + exists (after_ack id l). cbn [fst snd]. rewrite listener_ack, decide_True, El by done. split; [done|].
      unfold after_ack. destruct (inFlight l) as [[? ?]|]; [|done]. by case_decide.
    + apply Hkeep. by rewrite listener_ack, decide_False.
Qed.

Lemma run_answer org agent os b n : OWait org agent ∉ os → waiting b (org, agent) n →
  match head (omap (answer org agent n) os) with
  | Some r => (n, r) ∈ woken (run os b)
  | None => waiting (run os b) (org, agent) n
  end.
Proof.
  revert b. induction os as [|o os IH]; intros b Hos Hw; [done|].
  apply not_elem_of_cons in Hos as [Ho Hos]. pose proof (exec_answer org agent o b n ltac:(congruence) Hw) as H.
  cbn [omap list_omap run foldl]. destruct (answer org agent n o) as [r|]; [|by apply IH].
  cbn [head]. eapply elem_of_prefix; [exact H|apply (run_woken_grows os)].
Qed.

(** A call that blocks waits under its number. *)
Lemma blocked_waits org agent b n b1 : waitForMessage org agent b = (Blocked n, b1) →
  n = waits b ∧ waits b1 = S n ∧ waiting b1 (org, agent) n.
Proof.
  unfold waitForMessage.
  assert (waits (registerListener org agent b) = waits b) as E1
    by (unfold registerListener; by destruct (listener org agent b)).
  rewrite listener_register, decide_True by done. destruct (queue _) as [|m q]; [|done].
  intros [= <- <-]. rewrite E1. cbn [waits next_wait set_listener with_listeners]. rewrite E1. split_and!; [done|done|].
  set (l := mkListener [] (Some (waits b)) (inFlight (default fresh (listener org agent b)))
              (ackMode (default fresh (listener org agent b)))).
  exists l. split; [|done]. change (listener org agent (set_listener org agent l (registerListener org agent b)) = Some l).
  by rewrite listener_set, decide_True.
Qed.

(** [C33] Every waiting call returns, with the first message. In every run of the bus,
    a call that blocks, and that no other call of the same agent follows, is given
    the first message that arrives for its organisation after it; if the departure
    of its agent or the end of its timer comes before any, it is answered that
    there is none. It waits until then, is answered by the end of its timer at the
    latest, and is answered once. *)
Theorem lone_wait_returns (home org agent : string) (os0 os1 : list Op) (n : nat) (b1 : Bridge) :
  waitForMessage org agent (run os0 (initial home)) = (Blocked n, b1) → OWait org agent ∉ os1 →
  match head (omap (answer org agent n) os1) with
  | Some r => (n, r) ∈ woken (run os1 b1)
  | None => ¬ answered (run os1 b1) n ∧ (n, None) ∈ woken (run (os1 ++ [OTimeout org agent n]) b1)
  end
  ∧ NoDup (woken (run (os1 ++ [OTimeout org agent n]) b1)).*1.
Proof.
  intros Hb Hos. pose proof (blocked_waits _ _ _ _ _ Hb) as (_ & _ & Hw).
  assert (WInv b1) as Hinv.
  { replace b1 with (exec (OWait org agent) (run os0 (initial home))) by (cbn [exec]; by rewrite Hb).
    apply exec_winv, run_winv, initial_winv. }
  split; [|apply winv_nodup; by apply run_winv].
  pose proof (run_answer org agent os1 b1 n Hos Hw) as H.
  destruct (head (omap (answer org agent n) os1)) as [r|]; [exact H|]. split.
  - eapply winv_waiting; [by apply run_winv|exact H].
  - unfold run in *. rewrite foldl_app. cbn [foldl].
    pose proof (exec_answer org agent (OTimeout org agent n) _ n ltac:(done) H) as Ht. cbn [answer] in Ht.
    by rewrite decide_True in Ht.
Qed.

(** A call that is forgotten. *)
Definition forgotten (b : Bridge) (n : nat) : Prop := n < waits b ∧ ¬ answered b n ∧ ∀ k, ¬ waiting b k n.

Lemma exec_forgotten o b n : WInv b → forgotten b n → forgotten (exec o b) n.
Proof.
  intros Hinv (Hlt & Hna & Hnw). destruct (exec_wmove o b Hinv) as (k & new & [Ew _ Hnew Hwait Hle]). split_and!.
  - lia.
  - unfold answered. rewrite Ew, elem_of_app. intros [?|(k' & Hk)%Hnew]; [done|by eapply Hnw].
  - intros k' [[Hw _]|(_ & -> & _)]%Hwait; [by eapply Hnw|lia].
Qed.

Lemma run_forgotten os b n : WInv b → forgotten b n → ¬ answered (run os b) n.
Proof.
  revert b. induction os as [|o os IH]; intros b Hinv Hf; [apply Hf|].
  apply IH; [by apply exec_winv|by apply exec_forgotten].
Qed.

(** Two calls of the same agent. When a second call blocks while the first one
    waits, the first is never answered, by a message or by its own timer, however
    the bus goes on. *)
Theorem overlapping_wait_hangs (home org agent : string) (os0 os : list Op) (n m : nat) (b1 b2 : Bridge) :
  waitForMessage org agent (run os0 (initial home)) = (Blocked n, b1) →
  waitForMessage org agent b1 = (Blocked m, b2) →
  ¬ answered (run os b2) n.
Proof.
  intros H1 H2. assert (WInv (run os0 (initial home))) as Hinv0 by (apply run_winv, initial_winv).
  assert (WInv b1) as Hinv1.
  { replace b1 with (exec (OWait org agent) (run os0 (initial home))) by (cbn [exec]; by rewrite H1).
    by apply exec_winv. }
  assert (WInv b2) as Hinv2.
  { replace b2 with (exec (OWait org agent) b1) by (cbn [exec]; by rewrite H2). by apply exec_winv. }
  pose proof (blocked_waits _ _ _ _ _ H1) as (E0 & E1 & Hw1).
  pose proof (blocked_waits _ _ _ _ _ H2) as (E2 & E3 & Hw2).
  apply run_forgotten; [done|]. split; [lia|].
  destruct (wmove_wait org agent b1 Hinv1) as [new Hm]. rewrite H2 in Hm. cbn [snd] in Hm.
  destruct Hm as [Ew _ Hnew Hwait _]. destruct (winv_waiting b1 Hinv1 _ _ Hw1) as [_ Hna].
  assert (woken b2 = woken b1) as Ewk.
  { unfold waitForMessage in H2. destruct (listener org agent (registerListener org agent b1)) as [l|].
    - destruct (queue l); [|done]. injection H2 as _ <-. unfold registerListener. by destruct (listener org agent b1).
    - injection H2 as _ <-. unfold registerListener. by destruct (listener org agent b1). }
  split; [unfold answered; by rewrite Ewk|].
  intros k Hk. pose proof Hk as Hk'. apply Hwait in Hk as [[Hk _]|(_ & ? & _)]; [|lia].
  pose proof (winv_one b1 Hinv1 _ _ _ Hk Hw1) as Ek. subst k.
  destruct Hk' as (l & El & Er), Hw2 as (l2 & El2 & Er2). rewrite El in El2. simplify_eq. lia.
Qed.

End BridgeWaits.
