(* ===== verification/BridgeRuns.v ===== *)
(** * The message bus at work

    The bounds of the queues, the token that opens the bus, an instance of topic
    filters, and runs that exhibit the theorems and their limits. *)

From S2P Require Import Prelude Database Schemas AuthState Rotation AuthInstances Authenticate.
From S2P Require Import Bridge BridgeSafety BridgeWaits.
Import Schemas.
Local Open Scope Z_scope.

Module BridgeRuns.
Import AuthInstances Broker Bridge BridgeSafety BridgeWaits.

(** ** Bounds *)

Definition all_bounded (b : Bridge) : Prop := ∀ o a l, listener o a b = Some l → bounded l.

Lemma bounded_fields q w w' f m m' : bounded (mkListener q w f m) → bounded (mkListener q w' f m').
Proof. done. Qed.

Lemma fresh_bounded l : bounded (default fresh l) ↔ (∀ x, l = Some x → bounded x).
Proof.
  destruct l as [l|]; simpl; [split; [intros ? ? [= <-]; done|auto]|].
  split; [done|]. intros _. split; simpl; [lia|done].
Qed.

Lemma wait_bounded o a org agent b : all_bounded b →
  ∀ l, listener o a (waitForMessage org agent b).2 = Some l → bounded l.
Proof.
  intros Hb l E. destruct (decide ((o, a) = (org, agent))) as [Ek|Hk]; [|rewrite listener_wait in E by done; eauto].
  injection Ek as -> ->. revert E. unfold waitForMessage. rewrite listener_register, decide_True by done.
  assert (bounded (default fresh (listener org agent b))) as [Hq Hf] by (apply fresh_bounded; eauto).
  set (l0 := default fresh (listener org agent b)) in *. destruct (queue l0) as [|m q] eqn:Eq; cbn [snd].
  - match goal with |- listener _ _ (next_wait ?x) = _ → _ => change (listener org agent x = Some l → bounded l) end.
    rewrite listener_set, decide_True by done. intros [= <-]. by split.
  - rewrite listener_set, decide_True by done. intros [= <-]. split; [|done]. cbn [queue length] in *. lia.
Qed.

Lemma exec_bounded op b : all_bounded b → all_bounded (exec op b).
Proof.
  intros Hb o a l. destruct op as [now topic payload|o' a'|o' a' n|o' a' ra ack id|o' a' id|o' t p c|p|o' t g su mo|o' t| |];
    cbn [exec].
  - rewrite listener_on_message. case_decide; [done|].
    destruct (message_for o now topic payload) as [m|]; [|eauto].
    intros (l0 & E & ->)%fmap_Some. by eapply arrive_bounded, Hb.
  - by apply wait_bounded.
  - unfold wait_timeout. destruct (listener o' a' b) as [l0|] eqn:E0; [|eauto]. case_decide; [|eauto].
    change (listener o a (set_listener o' a' (mkListener (queue l0) None (inFlight l0) (ackMode l0)) b) = Some l → bounded l).
    rewrite listener_set. case_decide; [|eauto]. intros [= <-]. apply (Hb _ _ _ E0).
  - rewrite listener_drain. case_decide; [|eauto]. intros [= <-]. apply drain_bounded, fresh_bounded. eauto.
  - rewrite listener_ack. case_decide; [|eauto]. intros (l0 & E & ->)%fmap_Some. specialize (Hb _ _ _ E).
    unfold after_ack. destruct (inFlight l0) as [[? ?]|] eqn:Ef; [|done]. case_decide; [|done]. split; [apply Hb|done].
  - rewrite listener_mqttPublish. eauto.
  - rewrite listener_publish. eauto.
  - rewrite listener_consultation. eauto.
  - rewrite listener_clear. eauto.
  - eauto.
  - eauto.
Qed.

(** The memory of the bus. After any sequence of operations, the queue of every
    agent holds at most a thousand messages and so does its unacknowledged batch,
    and the reported depth is at most two thousand. *)
Theorem queues_bounded (home : string) (os : list Op) (org agent : string) :
  let b := run os (initial home) in
  (∀ l, listener org agent b = Some l →
     (length (queue l) ≤ MAX_LISTENER_QUEUE)%nat
     ∧ ∀ id held, inFlight l = Some (id, held) → (length held ≤ MAX_LISTENER_QUEUE)%nat)
  ∧ (queueDepth org agent b ≤ 2 * MAX_LISTENER_QUEUE)%nat.
Proof.
  intros b. assert (all_bounded b) as Hb.
  { subst b. assert (all_bounded (initial home)) as H0 by (intros o a l; unfold listener, orgListeners; simpl; done).
    revert H0. generalize (initial home). induction os as [|o os IH]; [done|]. intros b0 H0. by apply IH, exec_bounded. }
  assert (∀ l, listener org agent b = Some l →
     (length (queue l) ≤ MAX_LISTENER_QUEUE)%nat
     ∧ ∀ id held, inFlight l = Some (id, held) → (length held ≤ MAX_LISTENER_QUEUE)%nat) as H.
  { intros l E. destruct (Hb _ _ _ E) as [Hq Hf]. split; [done|]. intros id held Ef. by rewrite Ef in Hf. }
  split; [done|]. unfold queueDepth. destruct (listener org agent b) as [l|] eqn:E; [|lia].
  destruct (H l eq_refl) as [Hq Hf]. destruct (inFlight l) as [[id held]|]; [|lia].
  specialize (Hf id held eq_refl). lia.
Qed.

(** ** The token that opens the bus *)

(** A session token opens the bus of the default organisation. The broker checks
    tokens with the verifier of agent tokens only: a refresh token that the server
    signed for a user of any organisation is accepted, for the organisation
    default. *)
Theorem session_token_opens_default_bus `{Jose} (cfg : Authenticate.AuthConfig) (e : Rotation.Env)
    (t ttl : Z) (issuer tid : string) (rc : RefreshTokenClaims) (o : option Z) :
  rc_sub rc ≠ "" → Rotation.now e < default t o + ttl →
  authenticate cfg e (Some (sign (Authenticate.signingKey cfg) (mintRefreshJWT t issuer rc ttl o tid)))
  = MqttAccepted "default" "member" None.
Proof.
  intros Hs He. unfold authenticate, Authenticate.verifyTokenStrict, Authenticate.verify_two_keys, jwtVerify_key.
  rewrite open_sign. cbn [exp mintRefreshJWT]. rewrite bool_decide_eq_false_2 by lia.
  simpl. by destruct (rc_sub rc).
Qed.

(** ** Topic filters *)

Fixpoint levels_match (f t : list string) : bool :=
  match f, t with
  | [], [] => true
  | l :: f, t =>
      if decide (l = "#") then true
      else match t with
           | x :: t => (bool_decide (l = "+") || bool_decide (l = x)) && levels_match f t
           | [] => false
           end
  | [], _ :: _ => false
  end.

Lemma levels_match_length f t : levels_match f t = true → "#" ∉ f → length t = length f.
Proof.
  revert t. induction f as [|l f IH]; intros [|x t] Hm Hn; try done; simpl in Hm;
    apply not_elem_of_cons in Hn as [Hl Hn]; rewrite decide_False in Hm by done; [done|].
  apply andb_true_iff in Hm as [_ Hm]. simpl. f_equal. by apply IH.
Qed.

Lemma levels_match_level f t i l : levels_match f t = true → f !! i = Some l → l ≠ "+" → l ≠ "#" →
  (∀ j, (j < i)%nat → f !! j ≠ Some "#") → t !! i = Some l.
Proof.
  revert t i. induction f as [|x f IH]; intros t [|i] Hm Hi Hp Hh Hb; try done; simpl in Hm.
  - injection Hi as ->. rewrite decide_False in Hm by done. destruct t as [|y t]; [done|].
    apply andb_true_iff in Hm as [Hm _]. rewrite bool_decide_eq_false_2 in Hm by done.
    apply bool_decide_eq_true in Hm as ->. done.
  - assert (x ≠ "#") as Hx by (intros ->; by apply (Hb 0%nat); [lia|]).
    rewrite decide_False in Hm by done. destruct t as [|y t]; [done|]. apply andb_true_iff in Hm as [_ Hm].
    apply (IH t i Hm Hi Hp Hh). intros j Hj. apply (Hb (S j)). lia.
Qed.

#[export] Instance mqtt_filters : TopicFilters := {|
  filter_matches f t := levels_match (split_on "/" f) (split_on "/" t);
  filter_levels f t := levels_match_length (split_on "/" f) (split_on "/" t);
  filter_level f t i l Hm Hi Hp Hh Hb := levels_match_level (split_on "/" f) (split_on "/" t) i l Hm Hi Hp Hh Hb
|}.

(** ** Runs *)

Definition chat (s : string) : Op := OMessage 0 "coordinator/acme/broadcast" (WJson (VStr s)).

Definition msg (s : string) : QueuedMessage := mkQueued "coordinator/acme/broadcast" (VStr s) 0.

Definition acker : Bridge := run [ODrain "acme" "a1" true None "b0"] (initial "default").

(** Three messages; the first batch is acknowledged, the second is not and comes
    back. *)
Definition acker_run : list Op :=
  [chat "one"; ODrain "acme" "a1" false None "b1"; chat "two"; ODrain "acme" "a1" false (Some "b1") "b2"; chat "three"].


(** The same messages and a departure: what was owed goes with it. *)
Example departure_takes_owed :
  let os := acker_run ++ [OMessage 0 "coordinator/acme/agents/a1/status" (WText "offline"); chat "four"] in
  let h := history "acme" "a1" os acker (mkHistory [] [] [] [] []) in
  acked h = [msg "one"] ∧ gone h = [msg "two"; msg "three"; msg "four"] ∧ due (listener "acme" "a1" (run os acker)) = [].
Proof. vm_compute. done. Qed.

Lemma publish_confined_witness :
  ∃ t, ((mqttPublish "acme" "coordinator/globex/broadcast" (WJson (VStr "hi")) (Some "a1") (on_connect acker)).1 = true →
        wire (mqttPublish "acme" "coordinator/globex/broadcast" (WJson (VStr "hi")) (Some "a1") (on_connect acker)).2
        = wire (on_connect acker) ++ [mkPublish t (WJson (VStr "hi")) 1 false])
    ∧ ((mqttPublish "acme" "coordinator/globex/broadcast" (WJson (VStr "hi")) (Some "a1") (on_connect acker)).1 = false →
       wire (mqttPublish "acme" "coordinator/globex/broadcast" (WJson (VStr "hi")) (Some "a1") (on_connect acker)).2
       = wire (on_connect acker))
    ∧ startsWith (org_prefix "acme") t = true
    ∧ (∀ now b' o a, o ≠ "acme" → listener o a (on_message now t (WJson (VStr "hi")) b') = listener o a b')
    ∧ (∀ a x, Some "a1" = Some a →
         (mqttPublish "acme" "coordinator/globex/broadcast" (WJson (VStr "hi")) (Some "a1") (on_connect acker)).1 = true →
         length (split_on "/" t) = 5%nat → offline_for t (WJson (VStr "hi")) = Some ("acme", x) → x ≠ "" → x = a).
Proof. apply (publish_confined "acme" "coordinator/globex/broadcast"); [discriminate|reflexivity|reflexivity]. Defined.

Definition bus_config : Authenticate.AuthConfig := Authenticate.mkAuthConfig "k" None 3600 None.
Definition bus_env : Rotation.Env := Rotation.mkEnv 100 (λ _, "id") (λ _, None).
Definition agent_token : string :=
  sign "k" (Authenticate.createToken bus_config bus_env "a1" "agent" None (Some "acme")).
Definition farewell : Wire := obj [("status", "offline")].

Lemma departure_needs_identity_witness :
  ∃ token claims w, Some agent_token = Some token
    ∧ Authenticate.verifyTokenStrict bus_config bus_env token = inr (claims, w)
    ∧ Authenticate.a_role claims = "agent" ∧ "a1" = Authenticate.a_sub claims ∧ "acme" = Authenticate.a_org claims.
Proof.
  apply (departure_needs_identity bus_config bus_env (Some agent_token) (mkClient (Some "acme") (Some "agent") (Some "a1"))
           0 "coordinator/acme/agents/a1/status" farewell acker).
  - vm_compute. reflexivity.
  - discriminate.
  - reflexivity.
  - vm_compute. reflexivity.
  - exists "coordinator/+/agents/+/status". split; [left|vm_compute; reflexivity].
  - vm_compute. reflexivity.
  - discriminate.
Defined.

Lemma session_token_opens_default_bus_witness :
  authenticate bus_config bus_env
    (Some (sign (Authenticate.signingKey bus_config)
             (mintRefreshJWT 100 "https://c" (mkRefreshClaims "u1" "globex" "f1" None) 60 None "j1")))
  = MqttAccepted "default" "member" None.
Proof.
  apply (session_token_opens_default_bus bus_config bus_env 100 60); [discriminate|reflexivity].
Defined.

(** A call waits; of two messages the first is its answer, and the timer comes
    too late. *)
Lemma lone_wait_returns_witness :
  let b1 := (waitForMessage "acme" "a1" (initial "default")).2 in
  (0%nat, Some (msg "one")) ∈ woken (run [chat "one"; chat "two"] b1)
  ∧ NoDup (woken (run ([chat "one"; chat "two"] ++ [OTimeout "acme" "a1" 0]) b1)).*1.
Proof.
  destruct (lone_wait_returns "default" "acme" "a1" [] [chat "one"; chat "two"] 0
    (waitForMessage "acme" "a1" (initial "default")).2) as [Hm Hn].
  - reflexivity.
  - intros [[=]|[[=]|[]%elem_of_nil]%elem_of_cons]%elem_of_cons.
  - split; [exact Hm|exact Hn].
Defined.

Lemma overlapping_wait_hangs_witness :
  ¬ answered (run [chat "one"; OTimeout "acme" "a1" 0]
      (waitForMessage "acme" "a1" (waitForMessage "acme" "a1" (initial "default")).2).2) 0.
Proof.
  apply (overlapping_wait_hangs "default" "acme" "a1" [] _ 0 1 (waitForMessage "acme" "a1" (initial "default")).2);
    reflexivity.
Defined.

(** A message that is waited for overtakes a batch that is redelivered: the batch
    holds "one", "two" is given to a call that waits, and the next drain hands out
    "one" again. *)
Lemma redelivery_after_later_message :
  let b := run [chat "one"; ODrain "acme" "a1" false None "b1"; chat "two"] acker in
  (waitForMessage "acme" "a1" b).1 = Returned (msg "two")
  ∧ (getQueuedMessages "acme" "a1" false None "b2" (waitForMessage "acme" "a1" b).2).1.1 = [msg "one"].
Proof. vm_compute. split; reflexivity. Qed.

(** The empty payload that clears a retained announcement comes back to the bridge
    and is counted as malformed. *)
Lemma clearing_counts_as_malformed :
  drops (on_message 0 (new_topic "acme") (WText "") acker) = ["malformed_payload"].
Proof. vm_compute. reflexivity. Qed.

End BridgeRuns.
