(* ===== verification/Departure.v ===== *)
(** * Departures announced over the bus (the offline handler of [wireMqtt] in
    [src/serve-http.ts])

    When the bridge hears that an agent went offline, the coordinator marks it
    offline and, if its own records agree that the agent has been quiet, lets the
    consultation protocol and the files in flight forget it. *)

From S2P Require Import Prelude Database Registry Consultation Claims Invariant Protocol Sweeps FileTracking.
Import Registry Consultation Claims Invariant Protocol Sweeps FileTracking FileTracking.WorkingFiles.
Local Open Scope Z_scope.

Module Departure.

Definition processDeparture (org agent : string) : M unit :=
  confirmed ← isStale org agent;
  _ ← setOffline org agent;
  _ ← (if (confirmed : bool)
       then _ ← handleAgentDeparture org agent; _ ← clearForAgent org agent; mret ()
       else mret ());
  sse_emit org (EvAgentOffline agent).

(** What the lock of the other instances answers. *)
Inductive Lock := NoRedis | LockWon | LockLost | LockFailed.

Definition onOffline (lock : Lock) (org agent : string) : M unit :=
  match lock with
  | LockLost => mret ()
  | NoRedis | LockWon | LockFailed => processDeparture org agent
  end.

(** The announcement is confirmed. *)
Definition stale (org agent : string) (w : World) : bool :=
  match select_one (is_agent org agent) (db_agents (w_db w)) with
  | None => true
  | Some a => bool_decide (onlineTtlSeconds (w_ttl_env w) < now_sec w - a_last_seen_at a)
  end.

Definition marked (org agent : string) (w : World) : World :=
  on_db (on_agents (update_where (is_agent org agent) (touch AOffline (now_sec w)))) w.

Lemma processDeparture_run org agent w :
  processDeparture org agent w
  = ((if stale org agent w
      then _ ← handleAgentDeparture org agent; _ ← clearForAgent org agent; sse_emit org (EvAgentOffline agent)
      else sse_emit org (EvAgentOffline agent)) (marked org agent w)).
Proof.
  unfold processDeparture, isStale, setOffline, mbind, M_bind, gets, stmt, marked, stale.
  destruct (select_one _ _) as [a|]; [destruct (bool_decide _)|]; simpl;
    try (by destruct (handleAgentDeparture org agent _) as [? [?|?]]); done.
Qed.

Lemma emit_run org ev w : org ∈ db_orgs (w_db w) →
  sse_emit org ev w = (on_db (add_event org ev) w, Ok ()).
Proof.
  intros Ho. unfold sse_emit, checked_insert, mbind, M_bind, gets, stmt.
  by rewrite decide_True, decide_True by done.
Qed.

(** The tables the protocol's part of a departure leaves alone. *)
Definition others (d : Db) : list string * list WorkingFile * list Agent := (db_orgs d, db_working d, db_agents d).

Lemma departure_others org agent w : others (w_db (run (handleAgentDeparture org agent) w)) = others (w_db w).
Proof.
  change (respects (same others) (handleAgentDeparture org agent) w).
  unfold handleAgentDeparture. effects; [by apply respects_stmt|].
  apply respects_for_each; [apply _|]. intros t w0 _.
  unfold departThread, emitResolution, getThreadCrossOrg, allRespondentsApproved, onResolve, sse_emit, deliver. effects;
    try by apply respects_stmt.
  all: try (by apply respects_checked_insert; [apply _|]).
  all: done.
Qed.

Lemma marked_wf org agent w : wf (w_db w) → wf (w_db (marked org agent w)).
Proof. intros Hwf. by apply wf_on_agents. Qed.

(** An announced departure. The agent is marked offline and its organisation is
    told. When the coordinator has heard from the agent within its time to live,
    nothing else changes; when it has not, the departure is that of the protocol
    and the agent's files in flight are dropped, and no one else's. *)
Theorem announced_departure_spec w org agent :
  wf (w_db w) → org ∈ db_orgs (w_db w) →
  let d := w_db w in
  let w' := run (processDeparture org agent) w in
  result (processDeparture org agent) w = Ok ()
  ∧ db_agents (w_db w') = update_where (is_agent org agent) (touch AOffline (now_sec w)) (db_agents d)
  ∧ (stale org agent w = false →
     db_threads (w_db w') = db_threads d ∧ db_messages (w_db w') = db_messages d
     ∧ db_working (w_db w') = db_working d ∧ w_resolutions w' = w_resolutions w)
  ∧ (stale org agent w = true →
     db_threads (w_db w') = departure_row d org agent (w_clock w) <$> db_threads d
     ∧ db_messages (w_db w') = db_messages d
     ∧ db_working (w_db w') = delete_where (of_agent org agent) (db_working d)).
Proof.
  intros Hwf Ho d w'. subst w'. unfold run, result. rewrite processDeparture_run.
  destruct (stale org agent w) eqn:Es.
  - destruct (departure_effect (marked org agent w) org agent (marked_wf _ _ _ Hwf)) as (E & Hth & Hm & _).
    pose proof (departure_others org agent (marked org agent w)) as Hoth. unfold run, result in *.
    unfold mbind, M_bind. destruct (handleAgentDeparture org agent (marked org agent w)) as [w1 r]. cbn [fst snd] in *.
    subst r. injection Hoth as Hor Hwk Hag.
    set (w2 := on_db (on_working (delete_where (of_agent org agent))) w1).
    assert (clearForAgent org agent w1 = (w2, Ok (changes (of_agent org agent) (db_working (w_db w1))))) as -> by done.
    rewrite emit_run by (change (org ∈ db_orgs (w_db w1)); rewrite Hor; exact Ho). simpl.
    split_and!; [done|exact Hag|done|]. intros _. split_and!; [exact Hth|exact Hm|].
    change (delete_where (of_agent org agent) (db_working (w_db w1)) = delete_where (of_agent org agent) (db_working d)).
    by rewrite Hwk.
  - rewrite emit_run by exact Ho. simpl. done.
Qed.

(** An announcement under an organisation that does not exist makes the handler
    throw, in the callback of the MQTT client. *)
Lemma unknown_org_throws w org agent : wf (w_db w) → org ∉ db_orgs (w_db w) →
  result (processDeparture org agent) w = Throw (ESqlite SqlForeignKey).
Proof.
  intros Hwf Ho. unfold result. rewrite processDeparture_run.
  assert (∀ w0, org ∉ db_orgs (w_db w0) → sse_emit org (EvAgentOffline agent) w0 = (w0, Throw (ESqlite SqlForeignKey))) as He.
  { intros w0 Hw0. unfold sse_emit, checked_insert, mbind, M_bind, gets. by rewrite decide_True, decide_False by done. }
  destruct (stale org agent w); [|by rewrite He].
  destruct (departure_effect (marked org agent w) org agent (marked_wf _ _ _ Hwf)) as (E & _).
  pose proof (departure_others org agent (marked org agent w)) as Hoth. unfold run, result in *.
  unfold mbind, M_bind. destruct (handleAgentDeparture org agent (marked org agent w)) as [w1 r]. cbn [fst snd] in *.
  subst r. injection Hoth as Hor _ _.
  set (w2 := on_db (on_working (delete_where (of_agent org agent))) w1).
  assert (clearForAgent org agent w1 = (w2, Ok (changes (of_agent org agent) (db_working (w_db w1))))) as -> by done.
  rewrite He; [done|]. change (org ∉ db_orgs (w_db w1)). by rewrite Hor.
Qed.

(** An agent nobody knows is stale, and its departure resolves an open thread that
    expects no one. *)
Lemma ghost_departure_resolves :
  select_one (is_agent "default" "ghost") (db_agents (w_db kept_open)) = None
  ∧ t_status <$> db_threads (w_db kept_open) = [TOpen]
  ∧ t_status <$> db_threads (w_db (run (processDeparture "default" "ghost") kept_open)) = [TResolved].
Proof. vm_compute. done. Qed.

Lemma announced_departure_spec_witness :
  let d := w_db kept_open in
  let w' := run (processDeparture "default" "zoe") kept_open in
  result (processDeparture "default" "zoe") kept_open = Ok ()
  ∧ db_agents (w_db w') = update_where (is_agent "default" "zoe") (touch AOffline (now_sec kept_open)) (db_agents d)
  ∧ (stale "default" "zoe" kept_open = false →
     db_threads (w_db w') = db_threads d ∧ db_messages (w_db w') = db_messages d
     ∧ db_working (w_db w') = db_working d ∧ w_resolutions w' = w_resolutions kept_open)
  ∧ (stale "default" "zoe" kept_open = true →
     db_threads (w_db w') = departure_row d "default" "zoe" (w_clock kept_open) <$> db_threads d
     ∧ db_messages (w_db w') = db_messages d
     ∧ db_working (w_db w') = delete_where (of_agent "default" "zoe") (db_working d)).
Proof.
  apply (announced_departure_spec kept_open "default" "zoe"); [apply (wf_run_ops _)|]. vm_compute. left.
Defined.

End Departure.
