(* ===== verification/Tools.v ===== *)
(** * The MCP tools ([src/tools/*.ts], [src/context-provider.ts])

    The second transport: one definition per tool, composed from the components
    as the handlers compose them, behind the two checks every handler starts with,
    the claims of its session and the scope of its token. The arguments are what
    the zod schemas let through. *)

From S2P Require Import Prelude Paths Database Registry Consultation Claims Invariant Isolation.
From S2P Require Import Protocol Sweeps FileTracking Activity DependencyMap ImpactScorer Conflicts Announce Schemas.
From S2P Require Import AuthState Rotation Authenticate Bridge.
Import Registry Consultation FileTracking.FileTracker.
Local Open Scope Z_scope.

Module Scopes.
Import Authenticate.

(** [RANK] and [TOOL_SCOPES] of [tool-scopes.ts]. *)
Definition RANK : jsmap nat := [("read", 0%nat); ("write", 1%nat); ("admin", 2%nat)].

Definition TOOL_SCOPES : jsmap string := [
  ("register_agent", "write"); ("list_agents", "read"); ("heartbeat", "write"); ("agent_activity", "read");
  ("announce_work", "write"); ("post_to_thread", "write"); ("propose_resolution", "write");
  ("approve_resolution", "write"); ("contest_resolution", "write"); ("close_thread", "write");
  ("cancel_thread", "write"); ("get_thread", "read"); ("get_thread_updates", "read"); ("list_threads", "read");
  ("log_action_summary", "write");
  ("set_dependency_map", "write"); ("get_blast_radius", "read"); ("get_module_info", "read");
  ("hot_files", "read"); ("get_session_files", "read"); ("check_file_conflict", "read");
  ("wait_for_message", "write"); ("get_queued_messages", "write"); ("mqtt_publish", "write");
  ("coordinator_status", "read"); ("wait_for_peers", "read")].

(** [requireScope]: true when it does not throw. The comparison of an unknown
    scope with a number is false. *)
Definition requireScope (c : AuthClaims) (tool : string) : bool :=
  match truthy (a_scope c) with
  | None => true
  | Some held =>
      match map_get tool TOOL_SCOPES with
      | None => true
      | Some needed =>
          match map_get held RANK, map_get needed RANK with
          | Some h, Some n => negb (h <? n)%nat
          | _, _ => true
          end
      end
  end.

End Scopes.

Module Tools.
Import Authenticate Scopes.

Inductive ToolResult :=
  | TNoClaims
  | TScope
  | TError (text : string)
  | TText (text : string)
  | TAgent (a : option Agent)
  | TAgents (l : list Agent)
  | TActivity (a : AgentActivity)
  | TActivities (l : list AgentActivity)
  | TAnnounced (thread : Thread) (conflicts : list ConflictReport)
      (context : list (string * list string * list string * list ActionSummary))
      (impact : ImpactScorer.CategorizedImpact) (quality : PlanQualityResult) (downgrade : option string)
  | TMessage (m : ThreadMessage)
  | TThread (t : option Thread)
  | TThreadMessages (t : Thread) (l : list ThreadMessage)
  | TMessages (l : list ThreadMessage)
  | TThreads (l : list Thread)
  | TSummary (s : option ActionSummary)
  | TFiles (l : list FileActivity)
  | THotFiles (l : list HotFile)
  | TConflict (conflict : bool) (agents : list string)
  | TRadius (r : DependencyMap.BlastRadius)
  | TModule (m : option DependencyMap.ModuleInfo)
  | TStatus (agents : list (string * string * list string)) (open resolving hot : nat) (mqtt : bool).

(** The start of every handler: the claims of the session, then the scope. *)
Definition guarded (claims : option AuthClaims) (tool : string) (k : string → M ToolResult) : M ToolResult :=
  match claims with
  | None => mret TNoClaims
  | Some c => if requireScope c tool then k (a_org c) else mret TScope
  end.

(** ** [context-provider.ts] *)

Definition MAX_SUMMARY_CHARS : nat := 300.
Definition DEFAULT_ACTION_SUMMARY_LIMIT : nat := 10.

(** The longest prefix of whole characters of at most [n] UTF-16 units. *)
Fixpoint utf16_take (n : nat) (s : string) : string :=
  match s with
  | EmptyString => ""
  | String a s' =>
      let units := (utf16_length s - utf16_length s')%nat in
      if (n <? units)%nat then "" else String a (utf16_take (n - units) s')
  end.

Definition truncateSummary (s : ActionSummary) : ActionSummary :=
  if (utf16_length (s_summary s) <=? MAX_SUMMARY_CHARS)%nat then s
  else mkSummary (s_id s) (s_org s) (s_session s) (s_agent s) (s_file s)
         (utf16_take MAX_SUMMARY_CHARS (s_summary s) +:+ "…(truncated)") (s_created_at s).

Definition getRelevantContext (org agentId : string) (target_modules : list string)
    : M (string * list string * list string * list ActionSummary) :=
  agent ← Registry.get org agentId;
  match agent with
  | None => mret (agentId, [], [], [])
  | Some a =>
      let overlapping := filter (λ am, Is_true (existsb (module_overlap am) target_modules))
                           (safeJsonParse (a_modules a)) in
      match overlapping with
      | [] => mret (agentId, [], [], [])
      | _ =>
          summaries ← getActionSummaries org agentId None DEFAULT_ACTION_SUMMARY_LIMIT;
          mret (agentId, overlapping, dedup (omap (λ s, truthy (s_file s)) summaries), truncateSummary <$> summaries)
      end
  end.

(** ** [agents-tools.ts] *)

Definition register_agent claims (agent name : string) (modules : list string) : M ToolResult :=
  guarded claims "register_agent" (λ org,
    a ← Announce.runRegisterFlow org agent name modules; mret (TAgent a)).

Definition list_agents claims (online_only : bool) : M ToolResult :=
  guarded claims "list_agents" (λ org,
    l ← (if online_only then listOnline org else Registry.listAll org); mret (TAgents l)).

Definition heartbeat claims (agent : string) (file thread : option string) : M ToolResult :=
  guarded claims "heartbeat" (λ org,
    known ← Registry.get org agent;
    old ← isStale org agent;
    let comesBack := match known with
                     | Some a => bool_decide (a_status a = AOffline) || old
                     | None => false
                     end in
    _ ← Registry.heartbeat org agent;
    changed ← Activity.heartbeat org agent (truthy file) (truthy thread);
    activity ← Activity.getActivity org agent None;
    _ ← when (changed || comesBack)
          (sse_emit org (EvAgentActivity agent (aa_status activity) (aa_file activity) (aa_thread activity)));
    mret (TActivity activity)).

Definition agent_activity claims : M ToolResult :=
  guarded claims "agent_activity" (λ org, l ← Activity.listAll org (Some 5); mret (TActivities l)).

(** ** [files-tools.ts] *)

(** [n || d] of a number. *)
Definition or_default (d : Z) (n : option Z) : Z :=
  match n with Some k => if decide (k = 0) then d else k | None => d end.

Definition hot_files claims (since_minutes : option Z) : M ToolResult :=
  guarded claims "hot_files" (λ org, l ← getHotFiles org (or_default 30 since_minutes); mret (THotFiles l)).

Definition get_session_files claims (session : string) : M ToolResult :=
  guarded claims "get_session_files" (λ org, l ← getBySession org session; mret (TFiles l)).

Definition check_file_conflict (roots : list string) claims (path agent : string) (within : option Z) : M ToolResult :=
  guarded claims "check_file_conflict" (λ org,
    match Paths.normalizeDeclaredPaths roots [path] with
    | inl p => mret (TError ("invalid file_path " +:+ p))
    | inr paths =>
        r ← checkFileConflict org (default "" (head paths)) agent (or_default 30 within);
        mret (TConflict r.1 r.2)
    end).

(** ** [dependencies-tools.ts] *)

(** What the text of the argument decodes to: a map whose entries have the
    documented shape, another JSON value, or no JSON. *)
Inductive MapArgument := BadJson | NotAnObject | Modules (l : list DependencyMap.ModuleInfo).

Definition set_dependency_map claims (arg : MapArgument) : M ToolResult :=
  guarded claims "set_dependency_map" (λ org,
    match arg with
    | BadJson => mret (TError "Invalid JSON")
    | NotAnObject => mret (TError "must decode to a JSON object")
    | Modules l => _ ← DependencyMap.setMap org l; mret (TText "ok")
    end).

Definition get_blast_radius claims (id : string) : M ToolResult :=
  guarded claims "get_blast_radius" (λ org, r ← DependencyMap.getBlastRadius org id; mret (TRadius r)).

Definition get_module_info claims (id : string) : M ToolResult :=
  guarded claims "get_module_info" (λ org, m ← DependencyMap.getModuleInfo org id; mret (TModule m)).

(** ** [consultation-tools.ts] *)

(** [UPDATE threads SET conflicts = ? WHERE id = ?] *)
Definition store_conflicts (id : string) (l : list ConflictReport) : M unit :=
  stmt (on_threads (update_where (λ t, t_id t = id) (set_conflicts (Some l)))).

Definition announce_work (roots : list string) claims (p : AnnounceParams) (symbols : option (list string))
    : M ToolResult :=
  guarded claims "announce_work" (λ org,
    let files := p_target_files p in
    let depends := default [] (p_depends_on p) in
    let exports := default [] (p_exports p) in
    match Paths.normalizeDeclaredPaths roots (files ++ depends ++ exports) with
    | inl path => mret (TError ("invalid path " +:+ path))
    | inr paths =>
        let nTargets := length files in
        let nDepends := length depends in
        let files := take nTargets paths in
        let depends := (λ _, take nDepends (drop nTargets paths)) <$> p_depends_on p in
        let exports := (λ _, drop (nTargets + nDepends) paths) <$> p_exports p in
        conflicts ← Conflicts.detect
          (Conflicts.mkDetect org (p_agent p) (p_target_modules p) files (p_run_id p));
        thread ← announceWork org
          (mkAnnounce (p_agent p) (p_subject p) (p_plan p) (p_target_modules p) files depends exports
             (p_keep_open p) (p_assigned_to p) (p_run_id p));
        match thread with
        | None => throw ETypeError
        | Some t =>
            _ ← when (bool_decide (conflicts ≠ [])) (store_conflicts (t_id t) conflicts);
            r ← Announce.runCommonAnnounceFlow (t_id t)
                  (Announce.mkFlow org (p_agent p) (p_plan p) (p_target_modules p) files depends
                     (p_keep_open p) symbols);
            _ ← sse_emit org (EvConsultationOpened (t_id t) (p_agent p) (p_subject p) (p_target_modules p)
                  conflicts (Announce.fr_respondents r) (truthy (p_plan p)) (Announce.fr_quality r));
            _ ← bridge (BrPublishConsultation org (t_id t) (p_agent p) (p_subject p) (p_target_modules p));
            contexts ← Activity.map_m (λ rid, getRelevantContext org rid (p_target_modules p)) (Announce.fr_respondents r);
            mret (TAnnounced (Announce.fr_updated r) conflicts (filter (λ c, c.1.1.2 ≠ []) contexts)
                    (Announce.fr_categorized r) (Announce.fr_quality r) (Announce.fr_downgrade r))
        end
    end).

Definition post_to_thread claims (thread agent : string) (name : option string) (type : MessageType)
    (content : string) (snapshot in_reply_to : option string) : M ToolResult :=
  guarded claims "post_to_thread" (λ org,
    _ ← Registry.heartbeat org agent;
    msg ← postToThread org thread agent name type content snapshot in_reply_to;
    t ← getThread org thread;
    match msg with
    | None => throw ETypeError
    | Some m =>
        let round := default 0 (t_round <$> t) in
        _ ← sse_emit org (EvMessagePosted thread agent (default agent (truthy name)) type content
              (if decide (round = 0) then 1 else round) (m_tokens m));
        _ ← bridge (BrPublishMessage org thread agent type content);
        mret (TMessage m)
    end).

Definition propose_resolution claims (thread agent summary : string) : M ToolResult :=
  guarded claims "propose_resolution" (λ org,
    _ ← proposeResolution org thread agent summary;
    _ ← sse_emit org (EvToolProposed thread agent summary);
    _ ← bridge (BrPublishResolution org thread "resolving" summary);
    t ← getThread org thread;
    mret (TThread t)).

Definition approve_resolution claims (thread agent : string) : M ToolResult :=
  guarded claims "approve_resolution" (λ org,
    info ← Registry.get org agent;
    _ ← approveResolution org thread agent (a_name <$> info);
    t ← getThread org thread;
    mret (TThread t)).

Definition contest_resolution claims (thread agent reason : string) : M ToolResult :=
  guarded claims "contest_resolution" (λ org,
    _ ← contestResolution org thread agent reason;
    t ← getThread org thread;
    mret (TThread t)).

Definition close_thread claims (thread agent summary : string) : M ToolResult :=
  guarded claims "close_thread" (λ org, _ ← closeThread org thread agent summary; mret (TText "closed")).

Definition cancel_thread claims (thread agent : string) (reason : option string) : M ToolResult :=
  guarded claims "cancel_thread" (λ org,
    _ ← cancelThread org thread agent reason;
    _ ← sse_emit org (EvThreadCancelled thread reason);
    mret (TText "cancelled")).

Definition get_thread claims (thread : string) : M ToolResult :=
  guarded claims "get_thread" (λ org,
    r ← getThreadWithMessages org thread;
    mret match r with
         | None => TError ("Thread not found: " +:+ thread)
         | Some (t, l) => TThreadMessages t l
         end).

Definition get_thread_updates claims (agent : string) (since : option cursor) : M ToolResult :=
  guarded claims "get_thread_updates" (λ org, l ← getThreadUpdates org agent since; mret (TMessages l)).

Definition list_threads claims (status : option ThreadStatus) (agent module assigned_to_me : option string)
    : M ToolResult :=
  guarded claims "list_threads" (λ org,
    l ← listThreads org (mkFilters status agent module assigned_to_me None None); mret (TThreads l)).

Definition log_action_summary claims (session agent : string) (file : option string) (summary : string)
    : M ToolResult :=
  guarded claims "log_action_summary" (λ org,
    r ← logActionSummary org session agent file summary;
    _ ← sse_emit org (EvActionSummary agent file summary);
    mret (TSummary r)).

(** ** [status-tools.ts] *)

Definition coordinator_status (mqtt : bool) claims : M ToolResult :=
  guarded claims "coordinator_status" (λ org,
    online ← listOnline org;
    openThreads ← listThreads org (mkFilters (Some TOpen) None None None None None);
    resolvingThreads ← listThreads org (mkFilters (Some TResolving) None None None None None);
    hot ← getHotFiles org 30;
    mret (TStatus ((λ a, (a_id a, a_name a, safeJsonParse (a_modules a))) <$> online)
            (length openThreads) (length resolvingThreads) (length hot) mqtt)).

Definition MAX_WAIT_TIMEOUT_SECONDS : Z := 300.

Inductive PeersResult := Peers (ready : bool) (peers : list (string * string)) (waited_ms : Z).

(** The peers of an agent at one moment. *)
Definition peers_at (org agent : string) (w : World) : list (string * string) :=
  (λ a, (a_id a, a_name a)) <$>
    filter (λ a, a_id a ≠ agent) (match (listOnline org w).2 with Ok l => l | Throw _ => [] end).

(** The loop: [ws i] is the world at the [i]-th look at the clock, at the registry
    in the same turn. [None] is fuel that ran out. *)
Fixpoint wait_loop (fuel : nat) (org agent : string) (target timeout_ms started : Z) (ws : nat → World) (i : nat)
    : option PeersResult :=
  match fuel with
  | O => None
  | S fuel =>
      let w := ws i in
      let peers := peers_at org agent w in
      if decide (w_clock w - started < timeout_ms) then
        if decide (target ≤ Z.of_nat (length peers)) then Some (Peers true peers (w_clock w - started))
        else wait_loop fuel org agent target timeout_ms started ws (S i)
      else Some (Peers false peers (w_clock w - started))
  end.

Definition wait_for_peers (fuel : nat) (org agent : string) (min_peers timeout_seconds : option Z) (ws : nat → World)
    : option PeersResult :=
  let timeout_ms := (default 30 timeout_seconds `min` MAX_WAIT_TIMEOUT_SECONDS) * 1000 in
  wait_loop fuel org agent (default 1 min_peers) timeout_ms (w_clock (ws O)) ws O.

(** The tools that run in one turn of the event loop, by name. *)
Inductive ToolCall :=
  | CRegister (agent name : string) (modules : list string)
  | CList (online_only : bool)
  | CHeartbeat (agent : string) (file thread : option string)
  | CActivity
  | CAnnounce (p : AnnounceParams) (symbols : option (list string))
  | CPost (thread agent : string) (name : option string) (type : MessageType) (content : string)
      (snapshot in_reply_to : option string)
  | CPropose (thread agent summary : string)
  | CApprove (thread agent : string)
  | CContest (thread agent reason : string)
  | CClose (thread agent summary : string)
  | CCancel (thread agent : string) (reason : option string)
  | CGetThread (thread : string)
  | CUpdates (agent : string) (since : option cursor)
  | CListThreads (status : option ThreadStatus) (agent module assigned : option string)
  | CLogSummary (session agent : string) (file : option string) (summary : string)
  | CSetMap (arg : MapArgument)
  | CBlast (id : string)
  | CModule (id : string)
  | CHot (since : option Z)
  | CSessionFiles (session : string)
  | CConflict (path agent : string) (within : option Z)
  | CStatus (mqtt : bool).

Definition call (roots : list string) (claims : option AuthClaims) (c : ToolCall) : M ToolResult :=
  match c with
  | CRegister a n ms => register_agent claims a n ms
  | CList b => list_agents claims b
  | CHeartbeat a f t => heartbeat claims a f t
  | CActivity => agent_activity claims
  | CAnnounce p s => announce_work roots claims p s
  | CPost t a n ty c s r => post_to_thread claims t a n ty c s r
  | CPropose t a s => propose_resolution claims t a s
  | CApprove t a => approve_resolution claims t a
  | CContest t a r => contest_resolution claims t a r
  | CClose t a s => close_thread claims t a s
  | CCancel t a r => cancel_thread claims t a r
  | CGetThread t => get_thread claims t
  | CUpdates a s => get_thread_updates claims a s
  | CListThreads s a m x => list_threads claims s a m x
  | CLogSummary s a f x => log_action_summary claims s a f x
  | CSetMap x => set_dependency_map claims x
  | CBlast i => get_blast_radius claims i
  | CModule i => get_module_info claims i
  | CHot s => hot_files claims s
  | CSessionFiles s => get_session_files claims s
  | CConflict p a w => check_file_conflict roots claims p a w
  | CStatus b => coordinator_status b claims
  end.

End Tools.

(** ** [mqtt-tools.ts] *)

Module MqttTools.
Import Authenticate Scopes Broker Bridge.

Inductive MqttResult :=
  | MNoClaims
  | MScope
  | MNotConnected
  | MMessage (m : QueuedMessage) (queued_remaining : nat)
  | MWaiting (n : nat)
  | MBatch (messages : list QueuedMessage) (batch : option string)
  | MArray (messages : list QueuedMessage)
  | MPublished
  | MRefused.

Definition mguarded (claims : option AuthClaims) (tool : string) (b : Bridge)
    (k : AuthClaims → MqttResult * Bridge) : MqttResult * Bridge :=
  match claims with
  | None => (MNoClaims, b)
  | Some c =>
      if requireScope c tool then if up b then k c else (MNotConnected, b)
      else (MScope, b)
  end.

(** Up to the answer of a call that waits. *)
Definition wait_for_message claims (agent : string) (b : Bridge) : MqttResult * Bridge :=
  mguarded claims "wait_for_message" b (λ c,
    match waitForMessage (a_org c) agent b with
    | (Returned m, b') => (MMessage m (queueDepth (a_org c) agent b'), b')
    | (Blocked n, b') => (MWaiting n, b')
    end).

Definition get_queued_messages claims (agent : string) (require_ack : bool) (ack : option string) (id : string)
    (b : Bridge) : MqttResult * Bridge :=
  mguarded claims "get_queued_messages" b (λ c,
    let '((messages, batch), b') := getQueuedMessages (a_org c) agent require_ack ack id b in
    (if require_ack then MBatch messages batch else MArray messages, b')).

Definition mqtt_publish claims (topic : string) (payload : Wire) (b : Bridge) : MqttResult * Bridge :=
  mguarded claims "mqtt_publish" b (λ c,
    let caller := if decide (a_role c = "agent") then Some (a_sub c) else None in
    let '(published, b') := mqttPublish (a_org c) topic payload caller b in
    (if (published : bool) then MPublished else MRefused, b')).

End MqttTools.
