(* ===== verification/ToolSafety.v ===== *)
(** * What a session may do through the tools

    A [read] token changes nothing, a token of one organisation changes nothing
    of another, and the one tool that blocks comes back. *)

From S2P Require Import Prelude Paths Database Registry Consultation Claims Invariant Isolation.
From S2P Require Import Protocol Sweeps FileTracking Activity DependencyMap ImpactScorer Conflicts Announce Schemas Handlers RestSafety.
From S2P Require Import AuthState Rotation Authenticate Bridge Tools.
Import Registry Consultation Claims Invariant Isolation Handlers.Handlers RestSafety.
Local Open Scope Z_scope.

Module ToolSafety.
Import Authenticate Scopes Tools.

(** ** Scopes *)

(** A tool whose scope is [write] refuses a [read] token; the others do not write. *)
Lemma read_guarded claims tool k :
  (claims ≫= a_scope) = Some "read" →
  map_get tool TOOL_SCOPES = Some "write" ∨ (∀ org, read_only (k org)) →
  read_only (guarded claims tool k).
Proof.
  unfold guarded, requireScope. destruct claims as [c|]; simpl; [|by intros; apply read_ret].
  intros -> [->|Hk]; simpl; [apply read_ret|]. destruct (match map_get _ _ with _ => _ end); [apply Hk|apply read_ret].
Qed.

Lemma read_hot_files org m : read_only (FileTracker.getHotFiles org m).
Proof. unfold FileTracker.getHotFiles. reads. Qed.
Lemma read_check_conflict org p a m : read_only (FileTracker.checkFileConflict org p a m).
Proof. unfold FileTracker.checkFileConflict. reads. Qed.
Lemma read_listActivities org idle : read_only (Activity.listAll org idle).
Proof. unfold Activity.listAll, listOnline. reads. Qed.
#[local] Hint Resolve read_hot_files read_check_conflict read_listActivities : reads.

(** [C20] Read tokens: no tool writes anything for a session whose token has the
    scope [read]. Whatever it calls and with whatever arguments, the tables, the
    events sent, the calls to the message bridge and the identifiers drawn are
    those before the call, and for the three tools on the message bus so is the
    bus, the queues and what is held for acknowledgement included. *)
Theorem read_scope_read_only roots claims c :
  (claims ≫= a_scope) = Some "read" →
  (∀ w, run (call roots claims c) w = w) ∧
  (∀ agent b, (MqttTools.wait_for_message claims agent b).2 = b) ∧
  (∀ agent ra ack id b, (MqttTools.get_queued_messages claims agent ra ack id b).2 = b) ∧
  (∀ topic p b, (MqttTools.mqtt_publish claims topic p b).2 = b).
Proof.
  intros Hs. split; [|destruct claims as [cl|]; [|done]; unfold MqttTools.wait_for_message,
    MqttTools.get_queued_messages, MqttTools.mqtt_publish, MqttTools.mguarded, requireScope;
    simpl in Hs; by rewrite Hs].
  change (read_only (call roots claims c)). destruct c; apply (read_guarded _ _ _ Hs);
    (by left) || (right; intros org; unfold listOnline, Registry.listAll, getThreadUpdates,
      FileTracker.getBySession, DependencyMap.getBlastRadius, DependencyMap.getMap,
      DependencyMap.getModuleInfo, Conflicts.detect; reads).
Qed.

(** ** Tenants *)

Lemma row_conflicts l t : row_update t (set_conflicts l t).
Proof. unfold row_update, wf_thread. simpl. naive_solver. Qed.

Lemma read_detect p : read_only (Conflicts.detect p).
Proof.
  intros w. destruct (Conflicts.detect_eval p w) as (? & ? & ? & _ & E). unfold run. by rewrite E.
Qed.

Lemma read_context org rid ms : read_only (getRelevantContext org rid ms).
Proof. unfold getRelevantContext, Registry.get, getActionSummaries. reads. Qed.

Section tenants.
Context (org other : string) (Hne : org ≠ other).

Notation isolated m := (∀ w, respects (isolates other) m w).

(** The lemmas on the REST handlers hold for any context of the organisation. *)
Let cx : RestContext := mkContext org false [] None None EnvUnset false (λ s, s) (λ _ _, None).

(** The update names the thread by its identifier alone; there is one, of this organisation. *)
Lemma safe_store_conflicts id l : safe org other id (store_conflicts id l).
Proof.
  intros w Hwf Hid. apply list_elem_of_fmap in Hid as (t & E & Ht). injection E as -> ->.
  assert (run (store_conflicts (t_id t) l) w =
    run (stmt (on_threads (update_where (is_thread (t_org t) (t_id t)) (set_conflicts (Some l))))) w) as E.
  { enough (update_where (λ x, t_id x = t_id t) (set_conflicts (Some l)) (db_threads (w_db w)) =
      update_where (is_thread (t_org t) (t_id t)) (set_conflicts (Some l)) (db_threads (w_db w))) as Eu.
    { unfold store_conflicts, run, stmt, on_db, on_threads. simpl. by rewrite Eu. }
    apply list_fmap_ext.
    intros i t' Hin%list_elem_of_lookup_2. destruct (decide (t_id t' = t_id t)) as [Ei|].
    - rewrite decide_True; [done|]. rewrite (thread_unique _ _ _ Hwf Ht Hin Ei). by split.
    - rewrite decide_False; [done|]. by intros [??]. }
  unfold respects. rewrite E. apply (isolates_threads _ _ Hne); [by intros ? [??]|]. intros. apply row_conflicts.
Qed.

Lemma isolated_setMap l : isolated (DependencyMap.setMap org l).
Proof.
  intros w. unfold DependencyMap.setMap. apply respects_transaction; [apply _|].
  apply respects_for_each; [apply _|]. intros m w' _. unfold DependencyMap.setDependencies. effects.
  - apply isolated_stmt; [done|other_rows].
  - apply isolated_insert; [done|other_rows].
Qed.

Lemma isolated_heartbeat agent f t : isolated (Activity.heartbeat org agent f t).
Proof.
  intros w. unfold Activity.heartbeat, Activity.getStatus. effects. by apply (isolated_upsert cx).
Qed.

Lemma isolated_announce_work roots claims p s :
  (∀ c, claims = Some c → a_org c = org) → isolated (announce_work roots claims p s).
Proof.
  intros Hc w. unfold announce_work, guarded. destruct claims as [c|]; [|apply respects_ret, _].
  rewrite (Hc c eq_refl). destruct (requireScope _ _); [|apply respects_ret, _].
  destruct (Paths.normalizeDeclaredPaths _ _) as [|paths]; [apply respects_ret, _|]. cbv zeta.
  apply respects_bind; [apply _|apply isolated_read, read_detect|]. intros conflicts w0 _.
  apply respects_bind; [apply _|by apply isolates_announce|]. intros [t|] w1 E1; [|apply respects_throw, _].
  apply (announce_thread cx) in E1. simpl in E1.
  enough (∀ k : M ToolResult, safe org other (t_id t) k → respects (isolates other) k w1) as Hk.
  { apply Hk. repeat match goal with |- safe _ _ _ (_ ≫= _) => apply safe_bind; [|intros ?] end.
    - apply safe_when, safe_store_conflicts.
    - by apply (safe_flow cx).
    - apply safe_always. intros ?. by apply isolates_sse.
    - apply safe_always. intros ?. apply respects_bridge, _.
    - apply (safe_read cx). apply read_map_m. intros. apply read_context.
    - apply (safe_read cx), read_ret. }
  intros k Hk Hwf. by apply Hk.
Qed.

Lemma isolated_guarded claims tool k :
  (∀ c, claims = Some c → a_org c = org) → isolated (k org) → isolated (guarded claims tool k).
Proof.
  unfold guarded. destruct claims as [c|]; [|intros; apply respects_ret, _].
  intros Hc. rewrite (Hc c eq_refl). intros Hk w. destruct (requireScope _ _); [apply Hk|apply respects_ret, _].
Qed.

Lemma isolated_call roots claims c :
  (∀ c, claims = Some c → a_org c = org) → isolated (call roots claims c).
Proof.
  intros Hc. destruct c; cbn [call]; try (by apply isolated_announce_work);
    apply isolated_guarded; try done; intros w;
    unfold Announce.runRegisterFlow, listOnline, Registry.listAll, Registry.get, isStale, Registry.heartbeat, getThread,
      getThreadUpdates, FileTracker.getBySession, DependencyMap.getBlastRadius, DependencyMap.getMap,
      DependencyMap.getModuleInfo, logActionSummary;
    effects;
    first [ by apply isolates_sse | by apply isolates_register | by apply isolates_touch
          | by apply isolates_post | by apply isolates_propose | by apply isolates_approve
          | by apply isolates_contest | by apply isolates_close | by apply isolates_cancel
          | by apply isolated_setMap | by apply isolated_heartbeat
          | apply isolated_insert; solve [done|other_rows] | apply isolated_read; reads ].
Qed.
End tenants.

(** [C19] Tenant isolation of the tools: a call of any tool by a session of one
    organisation, with whatever arguments and whether it succeeds, is refused or
    throws, keeps well-formed tables well formed and leaves the rows of every other
    organisation, in every table, as they were (the rows of [layer_firings] of
    [default] apart, as in [Isolation.tenant]). *)
Theorem tools_tenant_isolation roots c cl w other :
  wf (w_db w) → a_org cl ≠ other →
  wf (w_db (run (call roots (Some cl) c) w)) ∧
  tenant other (w_db (run (call roots (Some cl) c) w)) = tenant other (w_db w).
Proof.
  intros Hwf Hne. destruct (isolated_call _ _ Hne roots (Some cl) c) with w as (? & ? & _); [|done..].
  by intros ? [= <-].
Qed.

(** ** Waiting for peers *)

Section waiting.
Context (org agent : string) (target timeout started d : Z) (ws : nat → World).
Hypothesis pauses : ∀ i, w_clock (ws i) + d ≤ w_clock (ws (S i)).

Notation elapsed i := (w_clock (ws i) - started).
Notation seen i := (peers_at org agent (ws i)).

(** The answer is given at one look: the first at which the peers are enough or the time is up. *)
Definition answered_at (k : nat) (r : PeersResult) : Prop :=
  r = Peers (bool_decide (elapsed k < timeout)) (seen k) (elapsed k) ∧
  (elapsed k < timeout → target ≤ Z.of_nat (length (seen k))).

Lemma wait_loop_ends fuel i :
  0 < d → timeout ≤ elapsed i + d * Z.of_nat fuel →
  ∃ k r, wait_loop (S fuel) org agent target timeout started ws i = Some r ∧ (i ≤ k ≤ i + fuel)%nat ∧
    answered_at k r ∧
    ∀ j, (i ≤ j < k)%nat → elapsed j < timeout ∧ Z.of_nat (length (seen j)) < target.
Proof.
  intros Hd. revert i. induction fuel as [|fuel IH]; intros i Hf; cbn [wait_loop]; cbv zeta.
  all: destruct (decide (elapsed i < timeout)) as [Ht|Ht]; [|exists i; eexists; split_and!; [done|lia..| |lia];
    split; [by rewrite bool_decide_eq_false_2|done]].
  { lia. }
  destruct (decide (target ≤ Z.of_nat (length (seen i)))) as [Hp|Hp].
  { exists i. eexists. split_and!; [done|lia..| |lia]. split; [by rewrite bool_decide_eq_true_2|done]. }
  specialize (pauses i). destruct (IH (S i)) as (k & r & E & Hk & Ha & Hj); [lia|].
  exists k, r. split_and!; [done|lia..|done|]. intros j Hij. destruct (decide (j = i)) as [->|]; [lia|].
  apply Hj. lia.
Qed.
End waiting.

(** [C34] The tool that blocks comes back. If at least [d] milliseconds pass
    between two looks at the registry (the code sleeps for a thousand), then
    300 000 / [d] further looks are enough whatever timeout the caller asked for;
    the answer is that of one look, says [ready] exactly when it came before the
    deadline, and then lists at least as many peers as were asked for, while at
    every earlier look there were fewer. *)
Theorem wait_for_peers_ends org agent min_peers timeout_seconds d fuel ws :
  0 < d → (∀ i, w_clock (ws i) + d ≤ w_clock (ws (S i))) → 300000 ≤ d * Z.of_nat fuel →
  ∃ k r, wait_for_peers (S fuel) org agent min_peers timeout_seconds ws = Some r ∧ (k ≤ fuel)%nat ∧
    let timeout := (default 30 timeout_seconds `min` 300) * 1000 in
    answered_at org agent (default 1 min_peers) timeout (w_clock (ws O)) ws k r ∧
    ∀ j, (j < k)%nat → w_clock (ws j) - w_clock (ws O) < timeout ∧
      Z.of_nat (length (peers_at org agent (ws j))) < default 1 min_peers.
Proof.
  intros Hd Hp Hf. unfold wait_for_peers, MAX_WAIT_TIMEOUT_SECONDS.
  destruct (wait_loop_ends org agent (default 1 min_peers) ((default 30 timeout_seconds `min` 300) * 1000)
    (w_clock (ws O)) d ws Hp fuel O) as (k & r & E & Hk & Ha & Hj); [done|lia|].
  exists k, r. split_and!; [done|lia|done|]. intros j Hjk. apply Hj. lia.
Qed.

(** ** Concrete sessions *)

Definition session (org : string) (scope : option string) : AuthClaims :=
  mkAuthClaims "u" "u" org "agent" "j" None None true scope.

(** With the scope [write], Alice's announcement of work on the file Bob's thread
    names opens a thread; with [read] it is refused. *)
Definition overlap : AnnounceParams :=
  mkAnnounce "alice" "again" None ["types"] ["src/types.ts"] None None true None None.

Lemma read_scope_read_only_witness :
  run (call ["/repo"] (Some (session "default" (Some "read"))) (CAnnounce overlap None)) demo = demo ∧
  run (call ["/repo"] (Some (session "default" (Some "write"))) (CAnnounce overlap None)) demo ≠ demo.
Proof.
  split.
  - apply (proj1 (read_scope_read_only ["/repo"] (Some (session "default" (Some "read"))) (CAnnounce overlap None) eq_refl)).
  - intros E. apply (f_equal (λ w, length (db_threads (w_db w)))) in E. revert E. vm_compute. discriminate.
Defined.

(** Org "b" names the thread of org "a". *)
Lemma tools_tenant_isolation_witness :
  let m := call ["/repo"] (Some (session "b" None)) (CClose "u0" "builder" "done") in
  result m two_tenants = Throw (EThreadNotFound "u0") ∧
  tenant "a" (w_db (run m two_tenants)) = tenant "a" (w_db two_tenants).
Proof.
  split; [vm_compute; reflexivity|].
  refine (proj2 (tools_tenant_isolation ["/repo"] (CClose "u0" "builder" "done") (session "b" None) two_tenants "a" _ _)).
  - apply (rtc_wf (initial ["a"; "b"] 1700000000000 EnvUnset uuid_of)); [|apply wf_empty].
    apply rtc_run_ops.
  - discriminate.
Defined.

(** The registry as it is, looked at once a second. *)
Definition at_clock (i : nat) : World :=
  run_ops [OpTick (Z.of_nat i * 1000)] demo.

Lemma at_clock_pauses i : w_clock (at_clock i) + 1000 ≤ w_clock (at_clock (S i)).
Proof. unfold at_clock. cbn. lia. Qed.

Lemma wait_for_peers_ends_witness :
  (∃ k r, wait_for_peers 301 "nowhere" "alice" None (Some 3600) at_clock = Some r ∧ (k ≤ 300)%nat) ∧
  wait_for_peers 301 "nowhere" "alice" None (Some 3) at_clock = Some (Peers false [] 3000) ∧
  wait_for_peers 301 "default" "alice" None (Some 3) at_clock = Some (Peers true [("bob", "Bob")] 0).
Proof.
  split; [|split; vm_compute; reflexivity].
  destruct (wait_for_peers_ends "nowhere" "alice" None (Some 3600) 1000 300 at_clock)
    as (k & r & E & Hk & _); [lia|apply at_clock_pauses|lia|].
  exists k, r. split; [exact E|exact Hk].
Defined.

End ToolSafety.
