(* ===== verification/MembershipCache.v ===== *)
(** * The cache of memberships ([src/auth/membership-cache.ts])

    Who belongs to which organisation is the identity provider's to say. The
    answers are cached for a minute, shared with the other instances, and served
    for ten minutes when the provider cannot be reached. A call waits for the
    shared store and then for the provider, so other calls run in the middle of
    it; the least recently used entries may vanish at any time. *)

From S2P Require Import Prelude Paths AuthState Rotation.
Local Open Scope Z_scope.

Module MembershipCache.
Import Rotation.

Record Entry := mkEntry { memberships : list string; ts : Z }.

Definition POSITIVE_TTL_S : Z := 60.
Definition STALE_MAX_S : Z := 600.

(** [sha256(userId|provider)]; the digest is a parameter. *)
Definition cacheKey (sha256 : string → string) (userId provider : string) : string :=
  sha256 (userId +:+ "|" +:+ provider).

(** A call in flight: its key, the time it began, the entry it found, and
    whether the provider can list. *)
Record Call := mkCall { cl_key : string; cl_now : Z; cl_cached : option Entry; cl_can_list : bool }.

Inductive How := Fresh | Asked | Stale.

Inductive CacheOutcome :=
  | CShared (c : Call)
  | CList (c : Call)
  | CReturn (l : list string) (how : How)
  | CThrow (e : IdpError).

(** What is returned, the entry to store in the local cache, and whether it is
    also written to the shared store. *)
Record CacheStep := mkStep { outcome : CacheOutcome; to_local : option Entry; to_shared : bool }.

Definition fresh (now : Z) (e : Entry) : bool := bool_decide (now - ts e < POSITIVE_TTL_S).

Definition ask_provider (c : Call) : CacheStep :=
  mkStep (if cl_can_list c then CList c else CThrow OtherError) None false.

(** [getMemberships] up to its first wait. *)
Definition getMemberships (shared can_list : bool) (key : string) (now : Z) (cached : option Entry) : CacheStep :=
  let c := mkCall key now cached can_list in
  match cached with
  | Some e =>
      if fresh now e then mkStep (CReturn (memberships e) Fresh) None false
      else if shared then mkStep (CShared c) None false else ask_provider c
  | None => if shared then mkStep (CShared c) None false else ask_provider c
  end.

(** The shared store answered; [None] is no entry, no JSON, or an error. *)
Definition on_shared (c : Call) (r : option Entry) : CacheStep :=
  match r with
  | Some e => if fresh (cl_now c) e then mkStep (CReturn (memberships e) Fresh) (Some e) false else ask_provider c
  | None => ask_provider c
  end.

(** The provider answered. *)
Definition on_list (shared : bool) (c : Call) (r : list string + IdpError) : CacheStep :=
  match r with
  | inl raw =>
      let l := Paths.toLowerCase <$> raw in
      mkStep (CReturn l Asked) (Some (mkEntry l (cl_now c))) shared
  | inr err =>
      match err, cl_cached c with
      | IdPTransientError, Some e =>
          if bool_decide (cl_now c - ts e < STALE_MAX_S)
          then mkStep (CReturn (memberships e) Stale) None false
          else mkStep (CThrow err) None false
      | _, _ => mkStep (CThrow err) None false
      end
  end.

(** ** The instances and the store they share *)

(** [answers] and [refusals] are what the provider said, by key and by the time
    the question began; [served] is what callers were given, with the time they
    called. The code does not keep the three. *)
Record Sys := mkSys {
  locals : nat → gmap string Entry;
  store : gmap string Entry;
  writes : list (string * Entry);
  calls : list (nat * CacheOutcome);
  answers : list (string * Z * list string);
  refusals : list (string * Z);
  served : list (string * Z * list string * How)
}.

Definition pending (i : nat) (o : CacheOutcome) : list (nat * CacheOutcome) :=
  match o with CShared _ | CList _ => [(i, o)] | _ => [] end.

Definition delivered (key : string) (now : Z) (o : CacheOutcome) : list (string * Z * list string * How) :=
  match o with CReturn l how => [(key, now, l, how)] | _ => [] end.

(** One segment of a call of instance [i]: [rest] are the calls in flight without it. *)
Definition apply (i : nat) (key : string) (now : Z) (st : CacheStep) (rest : list (nat * CacheOutcome))
    (answered : list (string * Z * list string)) (refused : list (string * Z)) (s : Sys) : Sys :=
  mkSys
    (match to_local st with
     | Some e => λ j, if decide (j = i) then <[key := e]> (locals s i) else locals s j
     | None => locals s
     end)
    (store s)
    (match to_local st with Some e => if to_shared st then writes s ++ [(key, e)] else writes s | None => writes s end)
    (rest ++ pending i (outcome st))
    (answers s ++ answered) (refusals s ++ refused)
    (served s ++ delivered key now (outcome st)).

Definition refusal (c : Call) (r : list string + IdpError) : list (string * Z) :=
  match r with inr IdPTransientError => [(cl_key c, cl_now c)] | _ => [] end.

Definition answer (c : Call) (r : list string + IdpError) : list (string * Z * list string) :=
  match r with inl raw => [(cl_key c, cl_now c, raw)] | _ => [] end.

Inductive step (shared : bool) : Sys → Sys → Prop :=
  | SGet i can_list key now s :
      step shared s (apply i key now (getMemberships shared can_list key now (locals s i !! key)) (calls s) [] [] s)
  | SShared n i c r s :
      calls s !! n = Some (i, CShared c) → (∀ e, r = Some e → store s !! cl_key c = Some e) →
      step shared s (apply i (cl_key c) (cl_now c) (on_shared c r) (delete n (calls s)) [] [] s)
  | SList n i c r s :
      calls s !! n = Some (i, CList c) →
      step shared s (apply i (cl_key c) (cl_now c) (on_list shared c r) (delete n (calls s)) (answer c r) (refusal c r) s)
  | SEvict i key s :
      step shared s
        (mkSys (λ j, if decide (j = i) then delete key (locals s i) else locals s j)
           (store s) (writes s) (calls s) (answers s) (refusals s) (served s))
  | SWrite n key e s :
      writes s !! n = Some (key, e) →
      step shared s
        (mkSys (locals s) (<[key := e]> (store s)) (delete n (writes s)) (calls s) (answers s) (refusals s) (served s))
  | SWriteLost n s :
      step shared s
        (mkSys (locals s) (store s) (delete n (writes s)) (calls s) (answers s) (refusals s) (served s))
  | SExpire key s :
      step shared s
        (mkSys (locals s) (delete key (store s)) (writes s) (calls s) (answers s) (refusals s) (served s)).

Definition initial : Sys := mkSys (λ _, ∅) ∅ [] [] [] [] [].

(** ** Every entry is an answer of the provider *)

Definition backed (s : Sys) (key : string) (e : Entry) : Prop :=
  ∃ raw, (key, ts e, raw) ∈ answers s ∧ memberships e = Paths.toLowerCase <$> raw.

Definition call_of (o : CacheOutcome) : option Call :=
  match o with CShared c | CList c => Some c | _ => None end.

(** The justification of what a caller was given. *)
Definition justified (s : Sys) (x : string * Z * list string * How) : Prop :=
  let '(key, now, l, how) := x in
  ∃ t raw, (key, t, raw) ∈ answers s ∧ l = Paths.toLowerCase <$> raw ∧
    match how with
    | Fresh => now - t < POSITIVE_TTL_S
    | Asked => t = now
    | Stale => now - t < STALE_MAX_S ∧ (key, now) ∈ refusals s
    end.

Record CInv (s : Sys) : Prop := mkCInv {
  ci_local i key e : locals s i !! key = Some e → backed s key e;
  ci_store key e : store s !! key = Some e → backed s key e;
  ci_writes key e : (key, e) ∈ writes s → backed s key e;
  ci_calls i o c e : (i, o) ∈ calls s → call_of o = Some c → cl_cached c = Some e → backed s (cl_key c) e;
  ci_served x : x ∈ served s → justified s x
}.

(** What was said stays said. *)
Definition grows (s s' : Sys) : Prop := answers s ⊆ answers s' ∧ refusals s ⊆ refusals s'.

Lemma backed_mono s s' key e : grows s s' → backed s key e → backed s' key e.
Proof. intros [Ha _] (raw & Hin & E). exists raw. split; [by apply Ha|done]. Qed.

Lemma justified_mono s s' x : grows s s' → justified s x → justified s' x.
Proof.
  destruct x as [[[key now] l] how]. intros [Ha Hr] (t & raw & Hin & E & Hh). exists t, raw.
  split_and!; [by apply Ha|done|]. destruct how; [done..|]. destruct Hh. split; [done|by apply Hr].
Qed.

(** What a segment must be to keep the invariant. *)
Record sound (s' : Sys) (key : string) (now : Z) (st : CacheStep) : Prop := mkSound {
  so_local e : to_local st = Some e → backed s' key e;
  so_call c e : call_of (outcome st) = Some c → cl_cached c = Some e → backed s' (cl_key c) e;
  so_return l how : outcome st = CReturn l how → justified s' (key, now, l, how)
}.

Lemma apply_inv i key now st rest a r s :
  let s' := apply i key now st rest a r s in
  CInv s → rest ⊆ calls s → sound s' key now st → CInv s'.
Proof.
  intros s' [] Hrest []. assert (grows s s') as Hg by (split; simpl; set_solver). split.
  - intros j k e. unfold s', apply. simpl. destruct (to_local st) as [e0|] eqn:El; [|by intros; eapply backed_mono; eauto].
    case_decide as Hj; [|by intros; eapply backed_mono; eauto].
    intros [[<- <-]|[_ Hk]]%lookup_insert_Some; [by apply so_local0|]. eapply backed_mono; [done|]. subst j. eauto.
  - intros k e Hk. eapply backed_mono; eauto.
  - intros k e. unfold s', apply. simpl. destruct (to_local st) as [e0|] eqn:El; [|by intros; eapply backed_mono; eauto].
    destruct (to_shared st); [|by intros; eapply backed_mono; eauto].
    intros [?|[= -> ->]%list_elem_of_singleton]%elem_of_app; [by eapply backed_mono; eauto|by apply so_local0].
  - intros j o c e Hin Ho Hc. unfold s', apply in Hin. simpl in Hin. apply elem_of_app in Hin as [Hin|Hin].
    + eapply backed_mono; [done|]. eapply ci_calls0; eauto.
    + assert (o = outcome st) as ->; [|by eapply so_call0].
      destruct (outcome st); simpl in Hin; try (by apply elem_of_nil in Hin); set_solver.
  - intros x Hin. unfold s', apply in Hin. simpl in Hin. apply elem_of_app in Hin as [Hin|Hin].
    + eapply justified_mono; eauto.
    + destruct (outcome st) eqn:Eo; simpl in Hin; try (by apply elem_of_nil in Hin).
      apply list_elem_of_singleton in Hin as ->. by apply so_return0.
Qed.

Lemma sound_ask s' key now c :
  (∀ e, cl_cached c = Some e → backed s' (cl_key c) e) → sound s' key now (ask_provider c).
Proof.
  intros Hc. unfold ask_provider. split; simpl; [done| |by destruct (cl_can_list c)].
  intros c' e. destruct (cl_can_list c); simpl; [|done]. intros [= <-]. apply Hc.
Qed.

Lemma sound_shared s' key now c :
  (∀ e, cl_cached c = Some e → backed s' (cl_key c) e) → sound s' key now (mkStep (CShared c) None false).
Proof. intros Hc. split; simpl; [done| |done]. intros c' e [= <-]. apply Hc. Qed.

(** An entry that is handed out fresh. *)
Lemma sound_fresh s' key now e st :
  backed s' key e → fresh now e = true → st = Some e ∨ st = None →
  sound s' key now (mkStep (CReturn (memberships e) Fresh) st false).
Proof.
  intros (raw & Hin & E) Hf%bool_decide_eq_true Hst. split; simpl; [|done|].
  - intros e' ->. destruct Hst as [[= ->]|]; [|done]. by exists raw.
  - intros l how [= <- <-]. exists (ts e), raw. by rewrite <- E.
Qed.

Lemma sound_get s' shared can_list key now cached :
  (∀ e, cached = Some e → backed s' key e) → sound s' key now (getMemberships shared can_list key now cached).
Proof.
  intros Hc. unfold getMemberships. destruct cached as [e|].
  - destruct (fresh now e) eqn:Ef; [by apply sound_fresh; eauto|].
    destruct shared; [apply sound_shared|apply sound_ask]; simpl; intros e' [= <-]; by apply Hc.
  - destruct shared; [apply sound_shared|apply sound_ask]; done.
Qed.

Lemma sound_on_shared s' c r :
  (∀ e, cl_cached c = Some e → backed s' (cl_key c) e) → (∀ e, r = Some e → backed s' (cl_key c) e) →
  sound s' (cl_key c) (cl_now c) (on_shared c r).
Proof.
  intros Hc Hr. unfold on_shared. destruct r as [e|]; [|by apply sound_ask].
  destruct (fresh (cl_now c) e) eqn:Ef; [|by apply sound_ask]. apply sound_fresh; eauto.
Qed.

Lemma sound_on_list s' shared c r :
  (∀ e, cl_cached c = Some e → backed s' (cl_key c) e) → answer c r ⊆ answers s' → refusal c r ⊆ refusals s' →
  sound s' (cl_key c) (cl_now c) (on_list shared c r).
Proof.
  intros Hc Ha Hr. destruct r as [raw|err]; simpl in *.
  - assert ((cl_key c, cl_now c, raw) ∈ answers s') as Hin by set_solver. split; simpl; [|done|].
    + intros e [= <-]. by exists raw.
    + intros l how [= <- <-]. by exists (cl_now c), raw.
  - destruct err; try by split.
    destruct (cl_cached c) as [e|] eqn:Ec; [|by split]. destruct (bool_decide _) eqn:Eb; [|by split].
    apply bool_decide_eq_true in Eb. split; simpl; [done..|]. intros l how [= <- <-].
    destruct (Hc e eq_refl) as (raw & Hin & E). exists (ts e), raw. split_and!; [done..|]. set_solver.
Qed.

Lemma step_inv shared s s' : step shared s s' → CInv s → CInv s'.
Proof.
  intros Hs Hi. pose proof Hi as []. destruct Hs as [i cl key now s|n i c r s En Hr|n i c r s En|i key s|n key e s En|n s|key s].
  - apply apply_inv; [done..|]. apply sound_get. intros e He. eapply backed_mono; [|eauto]. split; simpl; set_solver.
  - assert ((i, CShared c) ∈ calls s) as Hin by by eapply list_elem_of_lookup_2.
    apply apply_inv; [done|apply list_subseteq_delete|]. apply sound_on_shared.
    + intros e He. eapply backed_mono; [|eauto]. split; simpl; set_solver.
    + intros e He. eapply backed_mono; [|eauto]. split; simpl; set_solver.
  - assert ((i, CList c) ∈ calls s) as Hin by by eapply list_elem_of_lookup_2.
    apply apply_inv; [done|apply list_subseteq_delete|]. apply sound_on_list; [|simpl; set_solver..].
    intros e He. eapply backed_mono; [|eauto]. split; simpl; set_solver.
  - split; simpl; [|eauto..]. intros j k e. case_decide; [|eauto]. intros [_ ?]%lookup_delete_Some. subst j. eauto.
  - split; simpl; [eauto| | |eauto..].
    + intros k e' [[<- <-]|[_ ?]]%lookup_insert_Some; [|eauto]. eapply ci_writes0. by eapply list_elem_of_lookup_2.
    + intros k e' Hin. eapply ci_writes0. revert Hin. apply list_subseteq_delete.
  - split; simpl; [eauto..| |eauto|eauto]. intros k e' Hin. eapply ci_writes0. revert Hin. apply list_subseteq_delete.
  - split; simpl; [eauto| |eauto..]. intros k e [_ ?]%lookup_delete_Some. eauto.
Qed.

Lemma cache_initial_inv : CInv initial.
Proof. split; simpl; intros *; rewrite ?lookup_empty; set_solver. Qed.

(** No answer is older than it may be. Whatever the interleaving of calls, on
    any number of instances, with entries that vanish, writes to the shared store
    that are lost or late, and clocks that disagree: what a call that began at
    [now] returns is, in lower case, what the provider answered for this user and
    provider to a question that began less than ten minutes before [now], and less
    than one minute before unless the provider could not be reached in this very
    call. *)
Theorem memberships_recent shared s key now l how :
  rtc (step shared) initial s → (key, now, l, how) ∈ served s →
  ∃ t raw, (key, t, raw) ∈ answers s ∧ l = Paths.toLowerCase <$> raw ∧ now - t < STALE_MAX_S ∧
    ((key, now) ∉ refusals s → now - t < POSITIVE_TTL_S).
Proof.
  intros Hr Hin. assert (CInv s) as Hi.
  { revert Hr. generalize initial, cache_initial_inv. induction 2; eauto using step_inv. }
  destruct (ci_served s Hi _ Hin) as (t & raw & Ha & E & Hh). exists t, raw. unfold STALE_MAX_S, POSITIVE_TTL_S in *.
  split_and!; [done|done|destruct how; lia|]. intros Hn. destruct how; [lia..|]. by destruct Hh.
Qed.

(** ** A concrete run: one instance asks, another reads the shared store, and serves
    the entry five minutes later while the provider is down. *)

Definition demo_call (now : Z) (cached : option Entry) : Call := mkCall "k" now cached true.
Definition demo_entry : Entry := mkEntry ["acme"] 100.

Definition demo_served : list (string * Z * list string * How) :=
  [("k", 100, ["acme"], Asked); ("k", 130, ["acme"], Fresh); ("k", 400, ["acme"], Stale)].

Lemma demo_run : ∃ s, rtc (step true) initial s ∧ served s = demo_served.
Proof.
  eexists. split.
  - eapply rtc_l; [apply (SGet true 0 true "k" 100)|].
    eapply rtc_l; [apply (SShared true 0 0 (demo_call 100 None) None); [vm_compute; reflexivity|done]|].
    eapply rtc_l; [apply (SList true 0 0 (demo_call 100 None) (inl ["Acme"])); vm_compute; reflexivity|].
    eapply rtc_l; [apply (SWrite true 0 "k" demo_entry); vm_compute; reflexivity|].
    eapply rtc_l; [apply (SGet true 1 true "k" 130)|].
    eapply rtc_l; [apply (SShared true 0 1 (demo_call 130 None) (Some demo_entry));
      [vm_compute; reflexivity|intros e [= <-]; vm_compute; reflexivity]|].
    eapply rtc_l; [apply (SGet true 1 true "k" 400)|].
    eapply rtc_l; [apply (SShared true 0 1 (demo_call 400 (Some demo_entry)) None); [vm_compute; reflexivity|done]|].
    eapply rtc_l; [apply (SList true 0 1 (demo_call 400 (Some demo_entry)) (inr IdPTransientError)); vm_compute; reflexivity|].
    apply rtc_refl.
  - vm_compute. reflexivity.
Qed.

Lemma memberships_recent_witness :
  ∃ s, served s = demo_served ∧
  ∃ t raw, ("k", t, raw) ∈ answers s ∧ ["acme"] = Paths.toLowerCase <$> raw ∧ 400 - t < STALE_MAX_S ∧
    (("k", 400) ∉ refusals s → 400 - t < POSITIVE_TTL_S).
Proof.
  destruct demo_run as (s & Hr & Es). exists s. split; [exact Es|].
  apply (memberships_recent true s "k" 400 ["acme"] Stale Hr). rewrite Es. unfold demo_served. right. right. left.
Defined.

End MembershipCache.
