(* ===== verification/Login.v ===== *)
(** * Signing in ([src/auth/oauth-login.ts], [src/auth/oauth-state.ts],
    [src/auth/oauth-callback.ts], [src/auth/oauth-finalize.ts],
    [src/auth/oauth-token.ts], [src/auth/cookies.ts], [src/auth/pkce.ts])

    The login page, the callback the identity provider redirects to, and the
    grant [authorization_code] of the command line, as segments between the waits
    of the source. The provider, the digests and the signatures are outside; what
    they answer is an argument of the segment that resumes. *)

From S2P Require Import Prelude Paths AuthState Rotation RateLimit.
Local Open Scope Z_scope.
Local Open Scope flow_scope.

Module Login.
Import Rotation.

(** [crypto]: the keyed digest of the state cookie, SHA-256 in hexadecimal and
    the challenge of a verifier. *)
Class Crypto := {
  hmac : string → string → string;
  sha256 : string → string;
  computeChallenge : string → string
}.

Definition nul : string := String (Ascii.ascii_of_nat 0) "".

(** ** Cookies *)

Record Cookie := mkCookie {
  ck_name : string; ck_value : string; ck_http_only : bool; ck_secure : bool; ck_same_site : string;
  ck_path : string; ck_domain : option string; ck_max_age : Z
}.

Definition STATE_COOKIE_NAME : string := "__Host-coordinator_oauth_state".
Definition SESSION_COOKIE_NAME : string := "__Host-coordinator_session".
Definition CSRF_COOKIE_NAME : string := "__Host-coordinator_csrf".
Definition STATE_COOKIE_MAX_AGE_S : Z := 600.

(** [None] is the exception for a name without the prefix. *)
Definition hostCookie (name value : string) (http_only : bool) (same_site : string) (max_age : Z) : option Cookie :=
  if startsWith "__Host-" name
  then Some (mkCookie name value http_only true same_site "/" None max_age)
  else None.

(** [access] is the signed token. *)
Definition setSessionCookies (access csrf : string) (clear_state : bool) : option (list Cookie) :=
  s ← hostCookie SESSION_COOKIE_NAME access true "Strict" ACCESS_TTL_S;
  c ← hostCookie CSRF_COOKIE_NAME csrf false "Strict" ACCESS_TTL_S;
  if clear_state then o ← hostCookie STATE_COOKIE_NAME "" true "Lax" 0; Some [s; c; o] else Some [s; c].

(** ** [oauth-state.ts] *)

Definition TTL_S : Z := 600.

Record OAuthStateRow := mkState {
  os_state : string;
  code_verifier : string;
  redirect_uri : string;
  os_provider : string;
  os_created_at : Z;
  os_expires_at : Z;
  consumed_at : option Z;
  os_nonce : option string
}.

Notation States := (list OAuthStateRow).

Definition set_consumed (t : Z) (r : OAuthStateRow) : OAuthStateRow :=
  mkState (os_state r) (code_verifier r) (redirect_uri r) (os_provider r) (os_created_at r) (os_expires_at r)
    (Some t) (os_nonce r).

(** [state] is the draw; it is the primary key, and [None] is its violation. *)
Definition createOAuthStateWithVerifier (now : Z) (state provider redirect verifier : string) (nonce : option string)
    (l : States) : option States :=
  if bool_decide (state ∈ os_state <$> l) then None
  else Some (l ++ [mkState state verifier redirect provider now (now + TTL_S) None nonce]).

Definition createOAuthState (now : Z) (state verifier provider redirect : string) (l : States) : option States :=
  createOAuthStateWithVerifier now state provider redirect verifier None l.

Definition consumable (now : Z) (state : string) (r : OAuthStateRow) : Prop :=
  os_state r = state ∧ consumed_at r = None ∧ now < os_expires_at r.

(** UPDATE ... WHERE state = ? AND consumed_at IS NULL AND expires_at > ? RETURNING ... *)
Definition consumeOAuthState (now : Z) (state : string) (l : States) : option OAuthStateRow * States :=
  (select_one (consumable now state) l, update_where (consumable now state) (set_consumed now) l).

Inductive OAuthStateStatus := SUnknown | SExpired | SConsumed.

(** [None] is the exception for a live row. *)
Definition inspectOAuthState (now : Z) (state : string) (l : States) : option OAuthStateStatus :=
  match select_one (λ r, os_state r = state) l with
  | None => Some SUnknown
  | Some r =>
      if bool_decide (consumed_at r ≠ None) then Some SConsumed
      else if bool_decide (os_expires_at r ≤ now) then Some SExpired
      else None
  end.

(** ** Identity providers *)

Record IdpUserInfo := mkIdpUser {
  i_user_id : string; i_email : string; i_name : option string; i_org_id : option string;
  i_groups : option (list string)
}.

Record ExchangeCodeResult := mkExchange { x_user : IdpUserInfo; x_access : string; x_refresh : option string }.

(** The registry: the providers by name in the order of registration, and the default. *)
Record ProviderRegistry := mkProviders { by_name : jsmap Provider; default_name : option string }.

Definition getDefault (reg : ProviderRegistry) : option (string * Provider) :=
  n ← default_name reg; p ← map_get n (by_name reg); Some (n, p).

Definition getProvider (reg : ProviderRegistry) (n : string) : option (string * Provider) :=
  p ← map_get n (by_name reg); Some (n, p).

(** ** Responses *)

Inductive LResponse :=
  | LError (status : Z) (code : string)
  | LRetryAfter (status : Z) (code : string) (seconds : Z)
  | LPicker (names : list string)
  | LAuthorize (provider state redirect challenge nonce : string) (cookies : list Cookie)
  | LSession (location : string) (access : Jwt) (refresh : Jwt) (cookies : list Cookie)
  | LTokens (access refresh : Jwt)
  | LThrow.

(** ** [handleAuthLogin] *)

Section handlers.
Context `{Crypto}.

(** [bindState] and [recomputeStateHmac]. *)
Definition bindState (state key : string) : string := hmac key ("state-v1" +:+ nul +:+ state).

Definition RATE_LIMIT_CONFIG : RateLimitConfig := mkConfig 30 60.

Definition unknown_provider (phase : string) : AuditEvent :=
  mkEvent "auth.provider.unknown" 2 (Some phase).

(** [ctx.publicUrl.replace(/\/$/, "")] *)
Definition base_url (u : string) : string := if endsWith "/" u then String.substring 0 (String.length u - 1) u else u.

(** The random draws of a login: the verifier, the nonce and the state. *)
Record LoginDraws := mkDraws { d_verifier : string; d_nonce : string; d_state : string }.

Definition handleAuthLogin `{RateLimiterOps T} (now : Z) (publicUrl key : string) (reg : ProviderRegistry)
    (ip : option string) (requested : option string) (d : LoginDraws) (t : T) (l : States)
    : LResponse * list AuditEvent * T * States :=
  let start (np : string * Provider) (t : T) :=
    let redirect := base_url publicUrl +:+ "/api/auth/oauth/callback" in
    match createOAuthStateWithVerifier now (d_state d) np.1 redirect (d_verifier d) (Some (d_nonce d)) l with
    | None => (LThrow, [], t, l)
    | Some l' =>
        match hostCookie STATE_COOKIE_NAME (bindState (d_state d) key) true "Lax" STATE_COOKIE_MAX_AGE_S with
        | None => (LThrow, [], t, l')
        | Some c =>
            (LAuthorize np.1 (d_state d) redirect (computeChallenge (d_verifier d)) (d_nonce d) [c], [], t, l')
        end
    end in
  match rl_check now ("auth-login:" +:+ default "unknown" ip) RATE_LIMIT_CONFIG t with
  | (Denied r, t) => (LRetryAfter 429 "RATE_LIMITED" r, [], t, l)
  | (Allowed _ _, t) =>
      match requested with
      | Some name =>
          match getProvider reg name with
          | None => (LError 400 "UNKNOWN_PROVIDER", [unknown_provider "login_redirect"], t, l)
          | Some np => start np t
          end
      | None =>
          if bool_decide (1 < length (by_name reg))%nat then (LPicker (by_name reg).*1, [], t, l)
          else
            match getDefault reg with
            | None => (LError 500 "NO_IDP_CONFIGURED", [], t, l)
            | Some np => start np t
            end
      end
  end.

(** ** [handleOAuthCallback], up to the exchange of the code *)

Record CallbackQuery := mkQuery {
  q_state : option string; q_code : option string; q_error : option string; q_error_description : option string
}.

(** What the exchange is asked for. *)
Record ExchangeArgs := mkArgs {
  a_provider : string * Provider; a_code : string; a_redirect : string; a_verifier : option string;
  a_nonce : option string
}.

Definition handleOAuthCallback (now : Z) (key : string) (reg : ProviderRegistry) (q : CallbackQuery)
    (cookies : jsmap string) (l : States) : (LResponse + ExchangeArgs) * list AuditEvent * States :=
  match truthy (q_error q) with
  | Some err => (inl (LError 400 "OAUTH_DENIED"), [mkEvent "auth.login.failure" 2 (Some err)], l)
  | None =>
      match truthy (q_state q), truthy (q_code q) with
      | Some state, Some code =>
          match truthy (map_get STATE_COOKIE_NAME cookies) with
          | None =>
              (inl (LError 400 "INVALID_STATE"), [mkEvent "auth.state.replay" 1 (Some "cookie_missing")], l)
          | Some cookie =>
              if negb (bool_decide (cookie = bindState state key)) then
                (inl (LError 400 "INVALID_STATE"), [mkEvent "auth.state.replay" 1 (Some "hmac_mismatch")], l)
              else
                match consumeOAuthState now state l with
                | (None, l') =>
                    match inspectOAuthState now state l' with
                    | Some SUnknown =>
                        (inl (LError 400 "UNKNOWN_STATE"), [mkEvent "auth.state.replay" 1 (Some "state_unknown")], l')
                    | Some SConsumed =>
                        (inl (LError 409 "STATE_ALREADY_CONSUMED"),
                         [mkEvent "auth.state.replay" 1 (Some "state_consumed")], l')
                    | Some SExpired =>
                        (inl (LError 400 "STATE_EXPIRED"), [mkEvent "auth.state.replay" 1 (Some "state_expired")], l')
                    | None => (inl LThrow, [], l')
                    end
                | (Some row, l') =>
                    match getProvider reg (os_provider row) with
                    | None =>
                        (inl (LError 400 "PROVIDER_MISMATCH"),
                         [mkEvent "auth.state.provider_unregistered" 1 (Some (os_provider row))], l')
                    | Some np =>
                        (inr (mkArgs np code (redirect_uri row) (Some (code_verifier row)) (os_nonce row)), [], l')
                    end
                end
          end
      | _, _ => (inl (LError 400 "INVALID_REQUEST"), [], l)
      end
  end.

(** ** Provisioning ([oauth-finalize.ts]) *)

Record ProvisionedUser := mkProvisioned { pu_id : string; pu_org : string; pu_role : string }.

Record ProvisionResult := mkResult { pr_user : ProvisionedUser; isNew : bool; bootstrapAdmin : bool }.

Inductive Provisioned := Provision (r : ProvisionResult) | ProvisioningDenied (code : string) | ProvisionThrow.

Definition is_identity (provider idp : string) (u : UserRow) : Prop := idp_provider u = provider ∧ idp_user_id u = idp.

#[global] Instance is_identity_dec provider idp u : Decision (is_identity provider idp u).
Proof. unfold is_identity. apply _. Defined.

Definition is_admin (u : UserRow) : Prop := u_role u = "admin".

#[global] Instance is_admin_dec u : Decision (is_admin u).
Proof. unfold is_admin. apply _. Defined.

Context `{Encryption}.

(** The stored tokens of the provider, bound to the organisation, the column and the user. *)
Definition sealed (x : ExchangeCodeResult) (org user : string) : option string * option string :=
  (encryptNullable (Some (x_access x)) (mkEnc org "idp_access_token" user),
   encryptNullable (x_refresh x) (mkEnc org "idp_refresh_token" user)).

Definition new_user (now : Z) (id provider : string) (x : ExchangeCodeResult) (org : string) : UserRow :=
  mkUser id org (i_email (x_user x)) (i_name (x_user x)) provider (i_user_id (x_user x))
    (sealed x org id).1 (sealed x org id).2 "member" (Some now) 0.

(** UPDATE users SET role = 'admin' WHERE id = ? AND NOT EXISTS (SELECT 1 ... role = 'admin' AND id != ?) *)
Definition promotable (id : string) (us : list UserRow) (u : UserRow) : Prop :=
  u_id u = id ∧ Forall (λ v, ¬ (is_admin v ∧ u_id v ≠ id)) us.

Definition provisionUser (now : Z) (id provider : string) (x : ExchangeCodeResult) (m : AllowlistMatch) (s : Auth)
    : Provisioned * Auth :=
  match select_one (is_identity provider (i_user_id (x_user x))) (users s) with
  | Some u =>
      let t := sealed x (am_org m) (u_id u) in
      (Provision (mkResult (mkProvisioned (u_id u) (primary_org_id u) (u_role u)) false false),
       with_users (update_where (λ v, u_id v = u_id u) (λ v, set_last_login now (set_idp_tokens t.1 t.2 v)) (users s)) s)
  | None =>
      if bool_decide (id ∈ u_id <$> users s) || negb (bool_decide (am_org m ∈ o_id <$> orgs s))
      then (ProvisionThrow, s)
      else
        let us := users s ++ [new_user now id provider x (am_org m)] in
        let first := bool_decide (changes (promotable id us) us = 1%nat) in
        let us := update_where (promotable id us) (set_role "admin") us in
        let role := if first then "admin" else "member" in
        if bool_decide ((id, am_org m) ∈ (λ r, (uo_user r, uo_org r)) <$> user_orgs s) then (ProvisionThrow, s)
        else
          (Provision (mkResult (mkProvisioned id (am_org m) role) true first),
           with_user_orgs (user_orgs s ++ [mkUserOrg id (am_org m) role now]) (with_users us s))
  end.

(** The transaction writes nothing when it throws. *)
Definition provisionUserWithAutoProvisionGate (e : Env) (id provider : string) (x : ExchangeCodeResult)
    (m : AllowlistMatch) (s : Auth) : Provisioned * Auth :=
  match getOrgSetting (getenv e) s None "auto_provision" (Some "true") with
  | None => (ProvisionThrow, s)
  | Some v =>
      if bool_decide (Paths.toLowerCase (default "null" v) = "false")
         && bool_decide (select_one (is_identity provider (i_user_id (x_user x))) (users s) = None)
      then (ProvisioningDenied "USER_NOT_PROVISIONED", s)
      else provisionUser (now e) id provider x m s
  end.

(** ** The rest of a login, as segments *)

Record Visit := mkVisit {
  v_provider : string * Provider; v_exchange : ExchangeCodeResult; v_ip : option string; v_agent : option string
}.

(** What a segment waits for: the browser flow ([B]) and the grant ([G]). *)
Inductive LPending :=
  | BExchange (a : ExchangeArgs) (ip agent : option string)
  | BLock (v : Visit)
  | BMembers (v : Visit)
  | BRecord (v : Visit) (memberships_count : nat)
  | BMint (p : Pending) (u : ProvisionedUser) (csrf : string)
  | GExchange (a : ExchangeArgs) (ip agent : option string)
  | GLock (v : Visit)
  | GMembers (v : Visit)
  | GRecord (v : Visit)
  | GMint (p : Pending) (u : ProvisionedUser).

Inductive LReply :=
  | RExchange (r : ExchangeCodeResult + IdpError)
  | RLock (r : LoginLockout.LockoutCheckResult)
  | RMembers (r : list string + IdpError)
  | RRecorded
  | RSigned.

Inductive LOutcome := LWait (p : LPending) | LDone (r : LResponse).

Notation LSeg := (Flow LOutcome).

Definition answer {A} (r : LResponse) : LSeg A := fstop (LDone r).

Definition hashIdentifier (identifier : string) : string := sha256 ("login-lockout-v1" +:+ nul +:+ identifier).

(** [exchange.user.idp_user_id || ip || "unknown"] *)
Definition identifierHash (v : Visit) : string :=
  hashIdentifier
    (match truthy (Some (i_user_id (x_user (v_exchange v)))), truthy (v_ip v) with
     | Some i, _ => i
     | None, Some i => i
     | None, None => "unknown"
     end).

Definition strategy (v : Visit) : string := default "memberships" (p_strategy (v_provider v).2).

(** A provider's error where no memberships could be read; [revoked] and [down]
    are the answers of the flow. *)
Definition idp_failure {A} (err : IdpError) (phase : string) (revoked down : LResponse) : LSeg A :=
  match err with
  | IdPTokenRevoked => do* audit "auth.idp.token_revoked" 1 (Some phase); answer revoked
  | IdPTransientError => answer down
  | OtherError => answer LThrow
  end.

Definition embed {A} (f : Auth → A * Auth) : LSeg A := λ s, let r := f s in (inr r.1, r.2).

(** The events after the transaction. *)
Definition provision_audits (r : ProvisionResult) : LSeg unit :=
  do* fwhen (isNew r) (audit "auth.user.created" 2 (Some (pu_id (pr_user r))));
  fwhen (bootstrapAdmin r) (audit "auth.admin.bootstrapped" 1 (Some (pu_id (pr_user r)))).

Context `{Jose} (c : Ctx).

(** *** [finalizeBrowserOAuthMint] *)

Definition finalizeBrowserOAuthMint (e : Env) (v : Visit) (u : ProvisionedUser) : LSeg LOutcome :=
  let fp := computeFingerprint sha256 (v_ip v) (v_agent v) in
  match mintTokenPair e c (pu_id u) (pu_org u) (pu_role u) None fp None with
  | Wait p => fret (LWait (BMint p u (draw e 4)))
  | Done _ => answer LThrow
  end.

(** The signatures, the row of the refresh token, the cookies and the redirect. *)
Definition b_minting (e : Env) (p : Pending) (u : ProvisionedUser) (csrf : string) : LSeg LOutcome :=
  let* o := embed (run_seg (resume c e p Signed)) in
  match o with
  | Wait p' => fret (LWait (BMint p' u csrf))
  | Done (RTokens access refresh) =>
      do* audit "auth.login.success" 2 (Some (pu_id u));
      match setSessionCookies (sign (current_key (registry c)) access) csrf true with
      | None => answer LThrow
      | Some cookies => fret (LDone (LSession (issuer c +:+ "/auth/success") access refresh cookies))
      end
  | Done _ => answer LThrow
  end.

(** *** [finalizeBrowserOAuth] *)

Definition b_provision (e : Env) (v : Visit) (m : AllowlistMatch) : LSeg LOutcome :=
  let* r := embed (provisionUserWithAutoProvisionGate e (draw e 3) (v_provider v).1 (v_exchange v) m) in
  match r with
  | ProvisioningDenied code =>
      do* audit "auth.login.failure" 2 (Some "user_not_provisioned");
      answer (LError 403 code)
  | ProvisionThrow => answer LThrow
  | Provision r => do* provision_audits r; finalizeBrowserOAuthMint e v (pr_user r)
  end.

Definition b_match (e : Env) (v : Visit) (memberships : list string) (m : option AllowlistMatch) : LSeg LOutcome :=
  match m with
  | None => fret (LWait (BRecord v (length memberships)))
  | Some m => b_provision e v m
  end.

Definition finalizeBrowserOAuth (v : Visit) : LSeg LOutcome := fret (LWait (BLock v)).

Definition b_locked (e : Env) (v : Visit) (r : LoginLockout.LockoutCheckResult) : LSeg LOutcome :=
  if LoginLockout.locked r then
    do* audit "auth.login.locked" 1 (Some (identifierHash v));
    answer (LRetryAfter 429 "LOGIN_LOCKED" (default 900 (LoginLockout.retry r)))
  else if decide (strategy v = "memberships") then fret (LWait (BMembers v))
  else if decide (strategy v = "idp_org_id") then
    match truthy (i_org_id (x_user (v_exchange v))) with
    | None => b_match e v [] None
    | Some o => let* m := fgets (λ s, resolveOrgFromIdpOrgId s o) in b_match e v [] m
    end
  else if decide (strategy v = "id_token_groups") then
    match i_groups (x_user (v_exchange v)) with
    | Some ((_ :: _) as gs) =>
        let l := Paths.toLowerCase <$> gs in
        let* m := fgets (λ s, resolveOrgFromMemberships s l) in b_match e v l m
    | _ => b_match e v [] None
    end
  else b_match e v [] None.

Definition b_members (e : Env) (v : Visit) (r : list string + IdpError) : LSeg LOutcome :=
  match r with
  | inr err =>
      idp_failure err "callback_memberships" (LError 401 "IDP_TOKEN_REVOKED") (LError 503 "IDP_UNAVAILABLE")
  | inl l => let* m := fgets (λ s, resolveOrgFromMemberships s l) in b_match e v l m
  end.

Definition b_record : LSeg LOutcome :=
  do* audit "auth.login.denied.not_in_org" 1 None;
  answer (LError 403 "NOT_IN_ALLOWLIST").

(** The end of [handleOAuthCallback]. *)
Definition b_exchanged (a : ExchangeArgs) (ip agent : option string) (r : ExchangeCodeResult + IdpError) : LSeg LOutcome :=
  match r with
  | inr err => idp_failure err "callback_exchange" (LError 401 "IDP_TOKEN_REVOKED") (LError 503 "IDP_UNAVAILABLE")
  | inl x => finalizeBrowserOAuth (mkVisit (a_provider a) x ip agent)
  end.

(** *** [handleAuthorizationCodeGrant] *)

Definition handleAuthorizationCodeGrant (reg : ProviderRegistry) (body : jsmap string) (ip agent : option string)
    : LSeg LOutcome :=
  match truthy (map_get "code" body), truthy (map_get "redirect_uri" body) with
  | Some code, Some redirect =>
      match truthy (map_get "provider" body) with
      | Some name =>
          match getProvider reg name with
          | None =>
              do* audit "auth.provider.unknown" 2 (Some "auth_code_grant");
              answer (LError 400 "invalid_request")
          | Some np => fret (LWait (GExchange (mkArgs np code redirect (map_get "code_verifier" body) None) ip agent))
          end
      | None =>
          match getDefault reg with
          | None => answer (LError 400 "invalid_request")
          | Some np => fret (LWait (GExchange (mkArgs np code redirect (map_get "code_verifier" body) None) ip agent))
          end
      end
  | _, _ => answer (LError 400 "invalid_request")
  end.

Definition g_mint (e : Env) (v : Visit) (u : ProvisionedUser) : LSeg LOutcome :=
  match mintTokenPair e c (pu_id u) (pu_org u) (pu_role u) None
          (computeFingerprint sha256 (v_ip v) (v_agent v)) None with
  | Wait p => fret (LWait (GMint p u))
  | Done _ => answer LThrow
  end.

Definition g_minting (e : Env) (p : Pending) (u : ProvisionedUser) : LSeg LOutcome :=
  let* o := embed (run_seg (resume c e p Signed)) in
  match o with
  | Wait p' => fret (LWait (GMint p' u))
  | Done (RTokens access refresh) =>
      do* audit "auth.login.success" 2 (Some (pu_id u));
      fret (LDone (LTokens access refresh))
  | Done _ => answer LThrow
  end.

Definition g_provision (e : Env) (v : Visit) (m : AllowlistMatch) : LSeg LOutcome :=
  let* r := embed (provisionUserWithAutoProvisionGate e (draw e 3) (v_provider v).1 (v_exchange v) m) in
  match r with
  | ProvisioningDenied _ =>
      do* audit "auth.login.failure" 2 (Some "user_not_provisioned");
      answer (LError 403 "access_denied")
  | ProvisionThrow => answer LThrow
  | Provision r => do* provision_audits r; g_mint e v (pr_user r)
  end.

Definition g_match (e : Env) (v : Visit) (m : option AllowlistMatch) : LSeg LOutcome :=
  match m with
  | None => fret (LWait (GRecord v))
  | Some m => g_provision e v m
  end.

Definition g_locked (e : Env) (v : Visit) (r : LoginLockout.LockoutCheckResult) : LSeg LOutcome :=
  if LoginLockout.locked r then
    do* audit "auth.login.locked" 1 (Some (identifierHash v));
    answer (LRetryAfter 429 "access_denied" (default 900 (LoginLockout.retry r)))
  else if decide (strategy v = "memberships") then fret (LWait (GMembers v))
  else if decide (strategy v = "idp_org_id") then
    match truthy (i_org_id (x_user (v_exchange v))) with
    | None => g_match e v None
    | Some o => let* m := fgets (λ s, resolveOrgFromIdpOrgId s o) in g_match e v m
    end
  else if decide (strategy v = "id_token_groups") then
    match i_groups (x_user (v_exchange v)) with
    | Some ((_ :: _) as gs) =>
        let* m := fgets (λ s, resolveOrgFromMemberships s (Paths.toLowerCase <$> gs)) in g_match e v m
    | _ => g_match e v None
    end
  else g_match e v None.

Definition g_members (e : Env) (v : Visit) (r : list string + IdpError) : LSeg LOutcome :=
  match r with
  | inr err =>
      idp_failure err "auth_code_membership" (LError 401 "invalid_grant") (LError 503 "temporarily_unavailable")
  | inl l => let* m := fgets (λ s, resolveOrgFromMemberships s l) in g_match e v m
  end.

Definition g_record : LSeg LOutcome :=
  do* audit "auth.login.denied.not_in_org" 1 (Some "auth_code_grant");
  answer (LError 403 "access_denied").

Definition g_exchanged (a : ExchangeArgs) (ip agent : option string) (r : ExchangeCodeResult + IdpError) : LSeg LOutcome :=
  match r with
  | inr err => idp_failure err "auth_code_grant" (LError 401 "invalid_grant") (LError 503 "temporarily_unavailable")
  | inl x => fret (LWait (GLock (mkVisit (a_provider a) x ip agent)))
  end.

(** From a wait to the next. *)
Definition lresume (e : Env) (p : LPending) (r : LReply) : LSeg LOutcome :=
  match p, r with
  | BExchange a ip agent, RExchange r => b_exchanged a ip agent r
  | BLock v, RLock r => b_locked e v r
  | BMembers v, RMembers r => b_members e v r
  | BRecord v n, RRecorded => b_record
  | BMint p u csrf, RSigned => b_minting e p u csrf
  | GExchange a ip agent, RExchange r => g_exchanged a ip agent r
  | GLock v, RLock r => g_locked e v r
  | GMembers v, RMembers r => g_members e v r
  | GRecord v, RRecorded => g_record
  | GMint p u, RSigned => g_minting e p u
  | p, _ => fret (LWait p)
  end.

End handlers.

Definition lrun (m : Flow LOutcome LOutcome) (s : Auth) : LOutcome * Auth :=
  match m s with (inl o, s') | (inr o, s') => (o, s') end.

(** ** [handleOAuthToken] *)

Inductive TokenRoute := AuthorizationCode | RefreshToken | DeviceCode | TokenError (error : string).

(** The body is empty when the form could not be read. *)
Definition handleOAuthToken (body : jsmap string) : TokenRoute :=
  match truthy (map_get "grant_type" body) with
  | None => TokenError "invalid_request"
  | Some g =>
      if decide (g = "authorization_code") then AuthorizationCode
      else if decide (g = "refresh_token") then RefreshToken
      else if decide (g = "urn:ietf:params:oauth:grant-type:device_code") then DeviceCode
      else TokenError "unsupported_grant_type"
  end.

End Login.
