(* ===== verification/LoginSafety.v ===== *)
(** * What signing in guarantees

    A state is good for one exchange, in the browser it was given to; accounts are
    created only for identities an organisation allows; the two ways in decide
    alike; and what becomes of an account that signs in through another
    organisation than its own. *)

From S2P Require Import Prelude Paths AuthState Rotation RateLimit AuthInstances Login.
Local Open Scope Z_scope.
Local Open Scope flow_scope.

Module LoginSafety.
Import Rotation Login.

(** ** States *)

Section states.
Context `{Crypto} (key : string).

(** The logins that were started and the exchanges that were asked for. The code
    keeps neither. *)
Record LSys := mkLSys {
  states : States;
  logins : list OAuthStateRow;
  exchanges : list (string * Z * ExchangeArgs * jsmap string)
}.

Definition exchanged_states (s : LSys) : list string := (λ x, x.1.1.1) <$> exchanges s.

Definition log_exchange (now : Z) (q : CallbackQuery) (cookies : jsmap string) (r : LResponse + ExchangeArgs)
    : list (string * Z * ExchangeArgs * jsmap string) :=
  match r, q_state q with inr a, Some st => [(st, now, a, cookies)] | _, _ => [] end.

Inductive lstep : LSys → LSys → Prop :=
  | LSLogin `{RateLimiterOps T} now url reg ip requested d (t t' : T) r ev l s :
      d_state d ∉ os_state <$> logins s →
      handleAuthLogin now url key reg ip requested d t (states s) = (r, ev, t', l) →
      lstep s (mkLSys l (logins s ++ drop (length (states s)) l) (exchanges s))
  | LSCallback now reg q cookies r ev l s :
      handleOAuthCallback now key reg q cookies (states s) = (r, ev, l) →
      lstep s (mkLSys l (logins s) (exchanges s ++ log_exchange now q cookies r))
  | LSSweep l s :
      l `sublist_of` states s → lstep s (mkLSys l (logins s) (exchanges s)).

Definition linitial : LSys := mkLSys [] [] [].

(** Two rows of the same login; one may be consumed. *)
Definition same_login (r r0 : OAuthStateRow) : Prop :=
  os_state r = os_state r0 ∧ code_verifier r = code_verifier r0 ∧ redirect_uri r = redirect_uri r0 ∧
  os_provider r = os_provider r0 ∧ os_expires_at r = os_expires_at r0 ∧ os_nonce r = os_nonce r0.

(** An exchange is that of a login, in time, and in the browser that has its cookie. *)
Definition justified (s : LSys) (x : string * Z * ExchangeArgs * jsmap string) : Prop :=
  let '(st, now, a, cookies) := x in
  ∃ r0, r0 ∈ logins s ∧ os_state r0 = st ∧ now < os_created_at r0 + TTL_S ∧
    (a_provider a).1 = os_provider r0 ∧ a_redirect a = redirect_uri r0 ∧
    a_verifier a = Some (code_verifier r0) ∧ a_nonce a = os_nonce r0 ∧
    map_get STATE_COOKIE_NAME cookies = Some (bindState st key).

Record LInv (s : LSys) : Prop := mkLInv {
  li_rows r : r ∈ states s → ∃ r0, r0 ∈ logins s ∧ same_login r r0;
  li_logins r0 : r0 ∈ logins s → os_expires_at r0 = os_created_at r0 + TTL_S;
  li_keys : NoDup (os_state <$> logins s);
  li_spent st : st ∈ exchanged_states s →
    st ∈ os_state <$> logins s ∧ ∀ r, r ∈ states s → os_state r = st → consumed_at r ≠ None;
  li_once : NoDup (exchanged_states s);
  li_just x : x ∈ exchanges s → justified s x
}.

(** The login page adds a row at most, with the state that was drawn. *)
Lemma handleAuthLogin_states `{RateLimiterOps T} now url reg ip requested d (t t' : T) r ev l l' :
  handleAuthLogin now url key reg ip requested d t l = (r, ev, t', l') →
  l' = l ∨ ∃ p u, d_state d ∉ os_state <$> l ∧
    l' = l ++ [mkState (d_state d) (d_verifier d) u p now (now + TTL_S) None (Some (d_nonce d))].
Proof.
  unfold handleAuthLogin, createOAuthStateWithVerifier.
  destruct (rl_check _ _ _ _) as [[? ?|?] t0]; [|intros [= <- <- <- <-]; by left].
  assert (∀ np : string * Provider, ∀ x,
    (if bool_decide (d_state d ∈ os_state <$> l) then None
     else Some (l ++ [mkState (d_state d) (d_verifier d) (base_url url +:+ "/api/auth/oauth/callback") np.1 now
                        (now + TTL_S) None (Some (d_nonce d))])) = Some x →
    x = l ∨ ∃ p u, d_state d ∉ os_state <$> l ∧
    x = l ++ [mkState (d_state d) (d_verifier d) u p now (now + TTL_S) None (Some (d_nonce d))]) as Hc.
  { intros np x. case_bool_decide; [done|]. intros [= <-]. right. eauto. }
  destruct requested as [name|].
  - destruct (getProvider reg name) as [np|]; [|intros [= <- <- <- <-]; by left].
    specialize (Hc np). destruct (if bool_decide _ then _ else _) as [x|]; [|intros [= <- <- <- <-]; by left].
    destruct (hostCookie _ _ _ _ _); intros [= <- <- <- <-]; by apply Hc.
  - destruct (bool_decide (1 < _)%nat); [intros [= <- <- <- <-]; by left|].
    destruct (getDefault reg) as [np|]; [|intros [= <- <- <- <-]; by left].
    specialize (Hc np). destruct (if bool_decide _ then _ else _) as [x|]; [|intros [= <- <- <- <-]; by left].
    destruct (hostCookie _ _ _ _ _); intros [= <- <- <- <-]; by apply Hc.
Qed.

(** The callback leaves the rows or consumes those of the state; it asks for an
    exchange only after a row was consumable. *)
Lemma handleOAuthCallback_cases now reg q cookies r ev l l' :
  handleOAuthCallback now key reg q cookies l = (r, ev, l') →
  (l' = l ∧ log_exchange now q cookies r = []) ∨
  ∃ st, l' = update_where (consumable now st) (set_consumed now) l ∧
    (log_exchange now q cookies r = [] ∨
     ∃ row np code, r = inr (mkArgs np code (redirect_uri row) (Some (code_verifier row)) (os_nonce row)) ∧
       q_state q = Some st ∧ select_one (consumable now st) l = Some row ∧ np.1 = os_provider row ∧
       map_get STATE_COOKIE_NAME cookies = Some (bindState st key)).
Proof.
  unfold handleOAuthCallback. destruct (truthy (q_error q)); [intros [= <- <- <-]; by left|].
  destruct (truthy (q_state q)) as [st|] eqn:Es; [|intros [= <- <- <-]; by left].
  destruct (truthy (q_code q)) as [code|]; [|intros [= <- <- <-]; by left].
  destruct (truthy (map_get _ cookies)) as [ck|] eqn:Ec; [|intros [= <- <- <-]; by left].
  destruct (bool_decide (ck = bindState st key)) eqn:Eb; [|intros [= <- <- <-]; by left].
  apply bool_decide_eq_true in Eb as ->. cbn [negb]. unfold consumeOAuthState.
  intros Hr. right. exists st. destruct (select_one _ l) as [row|] eqn:Erow.
  - unfold getProvider in Hr. destruct (map_get (os_provider row) (by_name reg)) as [p|]; simpl in Hr;
      injection Hr as <- <- <-; split; [done| |done|by left].
    right. exists row, (os_provider row, p), code. split_and!; [done| |done..|].
    + destruct (q_state q) as [[|? ?]|]; simpl in Es; congruence.
    + destruct (map_get _ cookies) as [[|? ?]|]; simpl in Ec; congruence.
  - destruct (inspectOAuthState _ _ _) as [[]|]; injection Hr as <- <- <-; split; try done; by left.
Qed.

Lemma login_inv s row :
  LInv s → os_state row ∉ os_state <$> logins s → os_expires_at row = os_created_at row + TTL_S →
  LInv (mkLSys (states s ++ [row]) (logins s ++ [row]) (exchanges s)).
Proof.
  intros [] Hnew Hexp. split; simpl.
  - intros r [Hr| ->%list_elem_of_singleton]%elem_of_app.
    + destruct (li_rows0 r Hr) as (r0 & ? & ?). exists r0. split; [set_solver|done].
    + exists row. split; [set_solver|by repeat split].
  - intros r0 [?| ->%list_elem_of_singleton]%elem_of_app; auto.
  - rewrite fmap_app. apply NoDup_app. split_and!; [done| |apply NoDup_singleton]. set_solver.
  - intros st Hst. destruct (li_spent0 st Hst) as [Hin Hc]. rewrite fmap_app. split; [set_solver|].
    intros r [Hr| ->%list_elem_of_singleton]%elem_of_app; [by apply Hc|]. intros <-. done.
  - done.
  - intros [[[st now] a] ck] Hx. destruct (li_just0 _ Hx) as (r0 & ? & ?). exists r0. split; [set_solver|done].
Qed.

(** Consuming, or dropping, rows keeps what the invariant says of them. *)
Lemma fewer_inv s l :
  LInv s → (∀ r, r ∈ l → ∃ r', r' ∈ states s ∧ same_login r r' ∧ (consumed_at r' ≠ None → consumed_at r ≠ None)) →
  LInv (mkLSys l (logins s) (exchanges s)).
Proof.
  intros [] Hl. split; simpl; try done.
  - intros r Hr. destruct (Hl r Hr) as (r' & Hr' & Hs & _). destruct (li_rows0 r' Hr') as (r0 & ? & ?).
    exists r0. split; [done|]. unfold same_login in *. naive_solver congruence.
  - intros st Hst. destruct (li_spent0 st Hst) as [Hin Hc]. split; [done|].
    intros r Hr Er. destruct (Hl r Hr) as (r' & Hr' & (Es & _) & Hm). apply Hm, (Hc r'); congruence.
Qed.

Lemma consume_inv now st s :
  LInv s → LInv (mkLSys (update_where (consumable now st) (set_consumed now) (states s)) (logins s) (exchanges s)).
Proof.
  intros Hi. apply fewer_inv; [done|]. intros r (r' & Hr' & ->)%elem_of_update_where. exists r'.
  case_decide; split_and!; try done; by repeat split.
Qed.

Lemma exchange_inv now st row np code cookies s :
  LInv s → select_one (consumable now st) (states s) = Some row → np.1 = os_provider row →
  map_get STATE_COOKIE_NAME cookies = Some (bindState st key) →
  LInv (mkLSys (update_where (consumable now st) (set_consumed now) (states s)) (logins s)
    (exchanges s ++ [(st, now, mkArgs np code (redirect_uri row) (Some (code_verifier row)) (os_nonce row), cookies)])).
Proof.
  intros Hi [(Es & En & Ht) Hrow]%select_one_Some Hp Hck. pose proof (consume_inv now st s Hi) as [].
  destruct (li_rows s Hi row Hrow) as (r0 & H0 & S0 & V0 & U0 & P0 & X0 & N0).
  assert (st ∉ exchanged_states s) as Hnew.
  { intros Hst. by apply (proj2 (li_spent s Hi st Hst) row). }
  split; simpl in *; try done.
  - unfold exchanged_states in *. simpl in *. intros st'. rewrite fmap_app.
    intros [Hst| ->%list_elem_of_singleton]%elem_of_app; [by apply li_spent0|]. simpl. split.
    + apply list_elem_of_fmap. exists r0. split; [congruence|done].
    + intros r (r' & Hr' & ->)%elem_of_update_where. case_decide as Hc; [done|].
      intros Er Hnone. destruct (li_rows s Hi r' Hr') as (r1 & H1 & S1 & _ & _ & _ & X1 & _).
      assert (r1 = r0) as -> by (eapply (NoDup_key_eq os_state); [apply (li_keys s Hi)|done..|congruence]).
      apply Hc. split_and!; [done..|congruence].
  - unfold exchanged_states in *. simpl. rewrite fmap_app. apply NoDup_app.
    split_and!; [done| |apply NoDup_singleton]. intros x Hx ->%list_elem_of_singleton. done.
  - intros x [Hx| ->%list_elem_of_singleton]%elem_of_app; [by apply li_just0|]. simpl.
    exists r0. rewrite <- (li_logins s Hi r0 H0). split_and!; congruence.
Qed.

Lemma lstep_inv s s' : lstep s s' → LInv s → LInv s'.
Proof.
  intros Hs Hi. destruct Hs as [T ? now url reg ip rq d t t' r ev l s Hnew E|now reg q cookies r ev l s E|l s Hl].
  - apply handleAuthLogin_states in E as [->|(p & u & _ & ->)].
    + rewrite drop_all, app_nil_r. by destruct s.
    + rewrite drop_app_length. by apply login_inv.
  - apply handleOAuthCallback_cases in E as [(-> & ->)|(st & -> & [->|(row & np & code & -> & Eq & Er & Ep & Ec)])].
    + rewrite app_nil_r. by destruct s.
    + rewrite app_nil_r. by apply consume_inv.
    + simpl. rewrite Eq. by apply exchange_inv.
  - apply fewer_inv; [done|]. intros r Hr. exists r. split_and!; [|by repeat split|done].
    eapply sublist_subseteq; eauto.
Qed.

Lemma linitial_inv : LInv linitial.
Proof. split; simpl; try (by intros * ?%elem_of_nil); constructor. Qed.

(** [C7] One exchange for one login, in one browser. In every sequence of login pages,
    callbacks, of whatever query and cookies, and sweeps, as long as no random
    state is drawn twice: a state leads to at most one exchange of a code with the
    identity provider; the exchange is made with the provider, redirect address,
    verifier and nonce of the login page that drew the state, less than ten
    minutes after it; and the browser that asked for it presented the keyed
    digest of the state that the page put in the cookie. *)
Theorem state_used_once s :
  rtc lstep linitial s →
  NoDup (exchanged_states s) ∧ ∀ x, x ∈ exchanges s → justified s x.
Proof.
  intros Hr. enough (LInv s) as [] by done. revert Hr. generalize linitial linitial_inv.
  induction 2; eauto using lstep_inv.
Qed.

(** The refusal of a state says why. When the cookie fits and the state cannot
    be consumed, the callback never runs into its assertion: it answers that the
    state is unknown, was consumed or has expired, exactly when that is so, and
    changes nothing. *)
Theorem refused_state_explained now reg q cookies l st code :
  truthy (q_error q) = None → q_state q = Some st → st ≠ "" → q_code q = Some code → code ≠ "" →
  bindState st key ≠ "" → map_get STATE_COOKIE_NAME cookies = Some (bindState st key) →
  select_one (consumable now st) l = None →
  ∃ resp ev, handleOAuthCallback now key reg q cookies l = (inl resp, ev, l) ∧
    match select_one (λ r, os_state r = st) l with
    | None => resp = LError 400 "UNKNOWN_STATE"
    | Some r => if bool_decide (consumed_at r = None) then resp = LError 400 "STATE_EXPIRED" ∧ os_expires_at r ≤ now
                else resp = LError 409 "STATE_ALREADY_CONSUMED"
    end.
Proof.
  intros Herr Eq Hst Ec Hcode Hb Ek Hnone. unfold handleOAuthCallback, consumeOAuthState.
  rewrite Herr, Eq, Ec, Ek, !truthy_Some, bool_decide_eq_true_2, Hnone by done. cbn [negb].
  assert (∀ r, r ∈ l → ¬ consumable now st r) as Hno by exact (proj1 (select_one_None _ _) Hnone).
  rewrite update_where_none by done. unfold inspectOAuthState.
  destruct (select_one (λ r, os_state r = st) l) as [r|] eqn:Er; [|eauto].
  apply select_one_Some in Er as [Es Hin]. specialize (Hno r Hin).
  destruct (consumed_at r) as [t|] eqn:Et.
  - rewrite bool_decide_eq_true_2, bool_decide_eq_false_2 by done. eauto.
  - rewrite bool_decide_eq_false_2, (bool_decide_eq_true_2 (None = None)) by naive_solver.
    assert (os_expires_at r ≤ now) as Hx.
    { destruct (decide (os_expires_at r ≤ now)); [done|]. destruct Hno. split_and!; [done..|lia]. }
    rewrite bool_decide_eq_true_2 by done. eauto.
Qed.

End states.
End LoginSafety.
