(* ===== verification/LoginProvision.v ===== *)
(** * The accounts signing in creates, and the two ways in *)

From S2P Require Import Prelude Paths AuthState Rotation RateLimit AuthInstances Login.
Local Open Scope Z_scope.
Local Open Scope flow_scope.

Module LoginProvision.
Import Rotation Login.

(** ** Segments that leave the accounts alone *)

Definition keeps_users {O A} (m : Flow O A) : Prop := ∀ s, users (m s).2 = users s.

Lemma keeps_bind {O A B} (m : Flow O A) (k : A → Flow O B) :
  keeps_users m → (∀ a, keeps_users (k a)) → keeps_users (fbind m k).
Proof.
  intros Hm Hk s. unfold fbind. specialize (Hm s). destruct (m s) as [[o|a] s']; simpl in *; [done|].
  by rewrite Hk.
Qed.

Lemma keeps_mod {O} f : (∀ s, users (f s) = users s) → keeps_users (O := O) (fmod f).
Proof. intros Hf s. apply Hf. Qed.

Ltac keeps :=
  repeat match goal with
    | |- keeps_users (fbind _ _) => apply keeps_bind; [|intros ?]
    | |- keeps_users (fmod _) => apply keeps_mod; intros ?; reflexivity
    | |- keeps_users (let '_ := ?x in _) => destruct x
    | |- keeps_users (match ?x with _ => _ end) => destruct x
    | |- keeps_users (fwhen ?b _) => destruct b; unfold fwhen
    | |- keeps_users _ => reflexivity || (intros ?; reflexivity)
    end.

Lemma keeps_resume `{Encryption} c e p : keeps_users (resume c e p Signed).
Proof.
  destruct p; cbn [resume]; unfold handleReuseBranch, rotateRefreshToken, revokeFamilyForReuse, revoke_row,
    oauth_error, AuthState.audit, insert_refresh; cbv zeta; keeps.
Qed.

Lemma keeps_run_seg (m : Flow Outcome Outcome) s : keeps_users m → users (run_seg m s).2 = users s.
Proof. intros Hm. specialize (Hm s). unfold run_seg. by destruct (m s) as [[]]. Qed.

(** ** Provisioning *)

(** The same account; only what the provider gave and the last login may differ. *)
Definition same_account (u u' : UserRow) : Prop :=
  u_id u' = u_id u ∧ primary_org_id u' = primary_org_id u ∧ email u' = email u ∧ u_name u' = u_name u ∧
  idp_provider u' = idp_provider u ∧ idp_user_id u' = idp_user_id u ∧ u_role u' = u_role u ∧
  token_epoch u' = token_epoch u.

#[global] Instance same_account_refl : Reflexive same_account.
Proof. by repeat split. Qed.

Lemma same_accounts_refl l : Forall2 same_account l l.
Proof. by induction l; constructor. Qed.

Lemma same_accounts_fmap f l : (∀ u, same_account u (f u)) → Forall2 same_account l (f <$> l).
Proof. intros Hf. induction l; by constructor. Qed.

(** What a login can show for a user: names of groups, in lower case, and the
    organisation the provider attests. *)
Notation Evidence := (list string * option string)%type.

(** Some organisation allows the evidence. *)
Definition allowlisted (s : Auth) (org : string) (ev : Evidence) : Prop :=
  ∃ r g, r ∈ orgs s ∧ o_id r = org ∧
    ((allowlist_github_org r = Some g ∧ Paths.toLowerCase g ∈ ev.1) ∨
     (allowlist_idp_org_id r = Some g ∧ Some (Paths.toLowerCase g) = Paths.toLowerCase <$> ev.2)).

Lemma first_match_Some login P l m :
  first_match login P l = Some m →
  ∃ r g, r ∈ l ∧ login r = Some g ∧ P (Paths.toLowerCase g) = true ∧ am_org m = o_id r.
Proof.
  unfold first_match. destruct (merge_sort _ _) as [|[g r] hits] eqn:E; [done|]. intros [= <-].
  assert ((g, r) ∈ merge_sort org_login_le (omap (λ r, match login r with
     | Some g => if P (Paths.toLowerCase g) then Some (g, r) else None | None => None end) l)) as Hin
    by (rewrite E; left).
  rewrite merge_sort_Permutation in Hin. apply list_elem_of_omap in Hin as (r' & Hr & Hg).
  exists r', g. destruct (login r') as [g'|] eqn:El; [|done].
  destruct (P (Paths.toLowerCase g')) eqn:Ep; [|done]. by injection Hg as -> ->.
Qed.

Lemma resolve_memberships_Some s l m :
  resolveOrgFromMemberships s l = Some m → allowlisted s (am_org m) (l, None).
Proof.
  unfold resolveOrgFromMemberships. destruct l as [|x l]; [done|].
  intros (r & g & Hr & El & Hp%bool_decide_eq_true & ->)%first_match_Some. exists r, g. split_and!; [done..|]. by left.
Qed.

Lemma resolve_idp_Some s o m :
  resolveOrgFromIdpOrgId s o = Some m → allowlisted s (am_org m) ([], Some o).
Proof.
  intros (r & g & Hr & El & Hp%bool_decide_eq_true & ->)%first_match_Some. exists r, g. split_and!; [done..|].
  right. split; [done|]. simpl. by f_equal.
Qed.

Lemma filter_none {A} (P : A → Prop) `{!∀ x, Decision (P x)} l : (∀ x, x ∈ l → ¬ P x) → filter P l = [].
Proof.
  intros HP. induction l as [|x l IH]; [done|]. rewrite filter_cons_False by (apply HP; left).
  apply IH. intros y Hy. apply HP. by right.
Qed.

(** The conditional update promotes the new account when there is no administrator. *)
Lemma promote l n :
  u_id n ∉ u_id <$> l →
  update_where (promotable (u_id n) (l ++ [n])) (set_role "admin") (l ++ [n]) =
    l ++ [if decide (Exists is_admin l) then n else set_role "admin" n] ∧
  bool_decide (changes (promotable (u_id n) (l ++ [n])) (l ++ [n]) = 1%nat) = negb (bool_decide (Exists is_admin l)).
Proof.
  intros Hnew. assert (∀ u, u ∈ l → u_id u ≠ u_id n) as Hl.
  { intros u Hu E. apply Hnew, list_elem_of_fmap. by exists u. }
  assert (∀ u, u ∈ l → ¬ promotable (u_id n) (l ++ [n]) u) as Hold by (intros u Hu [E _]; by eapply Hl).
  assert (promotable (u_id n) (l ++ [n]) n ↔ ¬ Exists is_admin l) as Hn.
  { unfold promotable. rewrite Exists_exists, Forall_app, Forall_forall, Forall_singleton. naive_solver. }
  unfold changes. rewrite filter_app. unfold update_where at 1. rewrite fmap_app. fold (update_where (promotable (u_id n) (l ++ [n])) (set_role "admin") l).
  rewrite update_where_none by done. rewrite (filter_none _ l) by done.
  split.
  - f_equal. cbn. f_equal. destruct (decide (Exists is_admin l)) as [Ha|Ha]; [rewrite decide_False|rewrite decide_True]; tauto.
  - rewrite app_nil_l. destruct (decide (promotable (u_id n) (l ++ [n]) n)) as [Hp|Hp].
    + rewrite filter_cons_True, filter_nil by done. rewrite (bool_decide_eq_false_2 (Exists _ _)) by tauto. done.
    + rewrite filter_cons_False, filter_nil by done. rewrite (bool_decide_eq_true_2 (Exists _ _)); [done|].
      destruct (decide (Exists is_admin l)); tauto.
Qed.

(** The visit a segment resumes, where it may provision. *)
Definition visit_of (p : LPending) : option Visit :=
  match p with BLock v | BMembers v | GLock v | GMembers v => Some v | _ => None end.

(** What the visit shows at this segment. *)
Definition evidence (p : LPending) (r : LReply) : Evidence :=
  match p, r with
  | BMembers _, RMembers (inl l) | GMembers _, RMembers (inl l) => (l, None)
  | BLock v, _ | GLock v, _ =>
      if decide (strategy v = "idp_org_id") then ([], i_org_id (x_user (v_exchange v)))
      else if decide (strategy v = "id_token_groups")
      then (Paths.toLowerCase <$> default [] (i_groups (x_user (v_exchange v))), None)
      else ([], None)
  | _, _ => ([], None)
  end.

Notation identified v := (is_identity (v_provider v).1 (i_user_id (x_user (v_exchange v)))).

(** A new account: of an identity that had none, allowed by its organisation, an
    administrator exactly when there was none, and not where accounts are made by hand. *)
Definition created (e : Env) (s : Auth) (v : Visit) (ev : Evidence) (u : UserRow) : Prop :=
  u_id u ∉ u_id <$> users s ∧ identified v u ∧ (∀ w, w ∈ users s → ¬ identified v w) ∧ allowlisted s (primary_org_id u) ev ∧
  u_role u = (if decide (Exists is_admin (users s)) then "member" else "admin") ∧
  (∀ t, getenv e "COORDINATOR_AUTO_PROVISION" = Some t → Paths.toLowerCase t ≠ "false").

Definition accounts (e : Env) (s s' : Auth) (v : Visit) (ev : Evidence) : Prop :=
  ∃ l1 l2, users s' = l1 ++ l2 ∧ Forall2 same_account (users s) l1 ∧
    (l2 = [] ∨ ∃ u, l2 = [u] ∧ created e s v ev u).

(** The account tokens are signed for: that of the identity. *)
Definition holder (s s' : Auth) (v : Visit) (ev : Evidence) (u : ProvisionedUser) : Prop :=
  ∃ row org, row ∈ users s' ∧ pu_id u = u_id row ∧ pu_org u = primary_org_id row ∧ pu_role u = u_role row ∧
    identified v row ∧ allowlisted s org ev.

Definition minting (o : LOutcome) : option ProvisionedUser :=
  match o with LWait (BMint _ u _) | LWait (GMint _ u) => Some u | _ => None end.

Lemma accounts_same e s s' v ev : users s' = users s → accounts e s s' v ev.
Proof.
  intros E. exists (users s), []. rewrite app_nil_r. split_and!; [done|apply same_accounts_refl|by left].
Qed.

Section provisioning.
Context `{Crypto, Encryption, Jose} (c : Ctx).

Lemma provisionUser_accounts e id v m s r s' ev :
  allowlisted s (am_org m) ev →
  (∀ t, getenv e "COORDINATOR_AUTO_PROVISION" = Some t → Paths.toLowerCase t ≠ "false" ∨
     select_one (identified v) (users s) ≠ None) →
  provisionUser (now e) id (v_provider v).1 (v_exchange v) m s = (r, s') →
  accounts e s s' v ev ∧ ∀ pr, r = Provision pr → holder s s' v ev (pr_user pr).
Proof.
  intros Hal Hauto. unfold provisionUser. destruct (select_one (identified v) (users s)) as [u|] eqn:Eu.
  - intros [= <- <-]. apply select_one_Some in Eu as [Hid Hin]. split.
    + eexists _, []. cbn [users with_users]. rewrite app_nil_r. split_and!; [done| |by left].
      apply same_accounts_fmap. intros w. simpl. case_decide; by repeat split.
    + intros pr [= <-]. simpl. exists (set_last_login (now e) (set_idp_tokens
        (sealed (v_exchange v) (am_org m) (u_id u)).1 (sealed (v_exchange v) (am_org m) (u_id u)).2 u)), (am_org m).
      split_and!; try done. apply elem_of_update_where. exists u. split; [done|]. by rewrite decide_True.
  - pose proof (proj1 (select_one_None _ _) Eu) as Hno.
    destruct (bool_decide (id ∈ _)) eqn:Eid; [intros [= <- <-]; split; [by apply accounts_same|done]|].
    destruct (bool_decide (am_org m ∈ _)) eqn:Eo; [|intros [= <- <-]; split; [by apply accounts_same|done]].
    apply bool_decide_eq_false in Eid. cbn [orb negb].
    destruct (promote (users s) (new_user (now e) id (v_provider v).1 (v_exchange v) (am_org m)) Eid) as [Ep Ec].
    cbn [u_id new_user] in Ep, Ec. rewrite Ep, Ec.
    destruct (bool_decide (_ ∈ _ <$> user_orgs s)); [intros [= <- <-]; split; [by apply accounts_same|done]|].
    intros [= <- <-]. split.
    + eexists _, [_]. cbn [users with_users with_user_orgs].
      split_and!; [done|apply same_accounts_refl|]. right. eexists. split; [done|].
      split_and!; [by case_decide|by case_decide|done|by case_decide|by case_decide|].
      intros t Ht. destruct (Hauto t Ht) as [|Hn]; [done|by destruct Hn].
    + intros pr [= <-]. cbn [pr_user users with_users with_user_orgs]. eexists _, (am_org m).
      split_and!; [apply elem_of_app; right; left|..|done]; case_decide as Ha; try done;
        rewrite ?bool_decide_eq_true_2, ?bool_decide_eq_false_2 by done; done.
Qed.

Lemma gate_accounts e id v m s r s' ev :
  allowlisted s (am_org m) ev →
  provisionUserWithAutoProvisionGate e id (v_provider v).1 (v_exchange v) m s = (r, s') →
  accounts e s s' v ev ∧ ∀ pr, r = Provision pr → holder s s' v ev (pr_user pr).
Proof.
  intros Hal. unfold provisionUserWithAutoProvisionGate.
  change (getOrgSetting (getenv e) s None "auto_provision" (Some "true"))
    with (Some (match getenv e "COORDINATOR_AUTO_PROVISION" with Some t => Some t | None => Some "true" end)).
  cbv iota. match goal with |- (if ?b then _ else _) = _ → _ => destruct b eqn:Eb end.
  - intros [= <- <-]. split; [by apply accounts_same|done].
  - apply provisionUser_accounts; [done|]. intros t Ht. rewrite Ht in Eb. simpl in Eb.
    apply andb_false_iff in Eb as [Eb|Eb]; apply bool_decide_eq_false in Eb; [by left|by right].
Qed.
Lemma provision_audits_run r s : ∃ evs, provision_audits r s = (inr tt, with_events (events s ++ evs) s).
Proof.
  unfold provision_audits, fwhen, fbind, AuthState.audit, fmod, fret.
  destruct (isNew r), (bootstrapAdmin r); cbn; rewrite <- ?app_assoc; [eauto..|]. exists []. rewrite app_nil_r. by destruct s.
Qed.

Lemma b_match_accounts e v l m s ev o s' :
  (∀ m', m = Some m' → allowlisted s (am_org m') ev) → lrun (b_match c e v l m) s = (o, s') →
  accounts e s s' v ev ∧ ∀ u, minting o = Some u → holder s s' v ev u.
Proof.
  intros Hm. destruct m as [m|]; [|cbn; intros [= <- <-]; split; [by apply accounts_same|done]].
  unfold b_match, b_provision, lrun, fbind, embed. cbv zeta.
  destruct (provisionUserWithAutoProvisionGate _ _ _ _ m s) as [r s1] eqn:E.
  apply (gate_accounts _ _ _ _ _ _ _ ev) in E as [Ha Hh]; [|by apply Hm].
  destruct r as [r|code|]; [|intros [= <- <-]; done..].
  specialize (Hh r eq_refl). cbn [fst snd]. cbv beta iota. destruct (provision_audits_run r s1) as (evs & ->). cbn.
  intros [= <- <-]. split; [done|]. cbn. by intros u [= <-].
Qed.

Lemma g_match_accounts e v m s ev o s' :
  (∀ m', m = Some m' → allowlisted s (am_org m') ev) → lrun (g_match c e v m) s = (o, s') →
  accounts e s s' v ev ∧ ∀ u, minting o = Some u → holder s s' v ev u.
Proof.
  intros Hm. destruct m as [m|]; [|cbn; intros [= <- <-]; split; [by apply accounts_same|done]].
  unfold g_match, g_provision, lrun, fbind, embed. cbv zeta.
  destruct (provisionUserWithAutoProvisionGate _ _ _ _ m s) as [r s1] eqn:E.
  apply (gate_accounts _ _ _ _ _ _ _ ev) in E as [Ha Hh]; [|by apply Hm].
  destruct r as [r|code|]; [|intros [= <- <-]; done..].
  specialize (Hh r eq_refl). cbn [fst snd]. cbv beta iota. destruct (provision_audits_run r s1) as (evs & ->). cbn.
  intros [= <- <-]. split; [done|]. cbn. by intros u [= <-].
Qed.

(** A segment that keeps the accounts and starts no signature. *)
Lemma quiet_accounts e v ev s o s' :
  users s' = users s → minting o = None →
  accounts e s s' v ev ∧ ∀ u, minting o = Some u → holder s s' v ev u.
Proof. intros E En. split; [by apply accounts_same|]. by rewrite En. Qed.

Lemma visit_accounts e p r v s o s' :
  visit_of p = Some v → lrun (lresume c e p r) s = (o, s') →
  accounts e s s' v (evidence p r) ∧ ∀ u, minting o = Some u → holder s s' v (evidence p r) u.
Proof.
  assert (∀ m, (∀ m', resolveOrgFromMemberships s m = Some m' → allowlisted s (am_org m') (m, None))) as Hmem
    by (intros m m'; apply resolve_memberships_Some).
  destruct p; try discriminate; intros [= ->]; destruct r as [[]|lk|[l|[]]| |]; cbn [lresume evidence];
    try (intros [= <- <-]; by apply quiet_accounts).
  - unfold b_locked. destruct (LoginLockout.locked lk); [intros [= <- <-]; by apply quiet_accounts|].
    destruct (decide (strategy v = "memberships")); [intros [= <- <-]; by apply quiet_accounts|].
    destruct (decide (strategy v = "idp_org_id")).
    { destruct (i_org_id _) as [[|a o']|]; try (apply b_match_accounts; done). simpl.
      apply b_match_accounts. intros m'. apply resolve_idp_Some. }
    destruct (decide (strategy v = "id_token_groups")); [|by apply b_match_accounts].
    destruct (i_groups _) as [[|g gs]|]; try (apply b_match_accounts; done). apply b_match_accounts, Hmem.
  - apply b_match_accounts, Hmem.
  - unfold g_locked. destruct (LoginLockout.locked lk); [intros [= <- <-]; by apply quiet_accounts|].
    destruct (decide (strategy v = "memberships")); [intros [= <- <-]; by apply quiet_accounts|].
    destruct (decide (strategy v = "idp_org_id")).
    { destruct (i_org_id _) as [[|a o']|]; try (apply g_match_accounts; done). simpl.
      apply g_match_accounts. intros m'. apply resolve_idp_Some. }
    destruct (decide (strategy v = "id_token_groups")); [|by apply g_match_accounts].
    destruct (i_groups _) as [[|g gs]|]; try (apply g_match_accounts; done). apply g_match_accounts, Hmem.
  - apply g_match_accounts, Hmem.
Qed.

(** The other segments leave the accounts as they are. *)
Lemma other_segments e p r s o s' :
  visit_of p = None → lrun (lresume c e p r) s = (o, s') → users s' = users s.
Proof.
  intros Hv. destruct p; try discriminate; destruct r as [[x|[]]|lk|[]| |]; cbn [lresume];
    try (by intros [= <- <-]); unfold b_minting, g_minting, lrun, fbind, embed; cbv zeta;
    pose proof (keeps_run_seg (resume c e p Signed) s (keeps_resume c e p)) as Hk;
    destruct (run_seg (resume c e p Signed) s) as [[q|[]] s1]; simpl in *; by intros [= <- <-].
Qed.
End provisioning.

(** [C8] Who gets an account, and who gets a session. Any segment of a login, of
    either way in, with any reply of the provider, keeps every account with its
    organisation, role, identity and epoch, and adds one at most: of the identity
    that signed in, which had none, in an organisation whose allowlist matches
    what the provider said of it, unless accounts are provisioned by hand; it is
    an administrator exactly when there was none. Tokens are signed for the
    account of the identity that signed in and no other, with the organisation and
    the role of that account, and only if some allowlist matches. *)
Theorem login_provisions `{Crypto, Encryption, Jose} c e p r s o s' :
  lrun (lresume c e p r) s = (o, s') →
  (∃ l1 l2, users s' = l1 ++ l2 ∧ Forall2 same_account (users s) l1 ∧
     (l2 = [] ∨ ∃ u v, l2 = [u] ∧ visit_of p = Some v ∧ created e s v (evidence p r) u)) ∧
  (∀ u v, visit_of p = Some v → minting o = Some u → holder s s' v (evidence p r) u).
Proof.
  intros Hr. destruct (visit_of p) as [v|] eqn:Ev.
  - destruct (visit_accounts c e p r v s o s' Ev Hr) as [(l1 & l2 & E & Hs & Hn) Hh].
    split; [|intros u v' [= <-]; apply Hh]. exists l1, l2. split_and!; [done..|].
    destruct Hn as [|(u & ? & ?)]; [by left|right]. by exists u, v.
  - split; [|done]. exists (users s), []. rewrite app_nil_r.
    split_and!; [exact (other_segments c e p r s o s' Ev Hr)|apply same_accounts_refl|by left].
Qed.

End LoginProvision.
