(* ===== verification/LoginAgree.v ===== *)
(** * The browser and the command line decide alike

    The callback of the browser and the grant [authorization_code] are two copies
    of the same pipeline. A segment of one and the same segment of the other, in
    states that differ in the details of audit events at most, end alike. *)

From S2P Require Import Prelude Paths AuthState Rotation RateLimit AuthInstances Login.
Local Open Scope Z_scope.
Local Open Scope flow_scope.

Module LoginAgree.
Import Rotation Login.

(** ** Two runs side by side *)

Definition tables (s : Auth) : Auth := with_events [] s.

Definition like (sb sg : Auth) : Prop := tables sb = tables sg ∧ ev_action <$> events sb = ev_action <$> events sg.

Definition ends {O O' A A'} (RO : O → O' → Prop) (RA : A → A' → Prop) (x : O + A) (y : O' + A') : Prop :=
  match x, y with inl a, inl b => RO a b | inr a, inr b => RA a b | _, _ => False end.

Definition side_by_side {O O' A A'} (RO : O → O' → Prop) (RA : A → A' → Prop) (m : Flow O A) (m' : Flow O' A') : Prop :=
  ∀ sb sg, like sb sg → ends RO RA (m sb).1 (m' sg).1 ∧ like (m sb).2 (m' sg).2.

Section rules.
Context {O O' : Type} {RO : O → O' → Prop}.

Lemma sbs_ret {A A'} (RA : A → A' → Prop) a a' : RA a a' → side_by_side RO RA (fret a) (fret a').
Proof. by intros Ha sb sg Hl. Qed.

Lemma sbs_stop {A A'} (RA : A → A' → Prop) o o' : RO o o' → side_by_side RO RA (fstop o) (fstop o').
Proof. by intros Ho sb sg Hl. Qed.

Lemma sbs_bind {A A' B B'} (RA : A → A' → Prop) (RB : B → B' → Prop) m m' k k' :
  side_by_side RO RA m m' → (∀ a a', RA a a' → side_by_side RO RB (k a) (k' a')) →
  side_by_side RO RB (fbind m k) (fbind m' k').
Proof.
  intros Hm Hk sb sg Hl. unfold fbind. destruct (Hm sb sg Hl) as [He Hs].
  destruct (m sb) as [[o|a] s1], (m' sg) as [[o'|a'] s2]; simpl in *; try done. by apply Hk.
Qed.

Lemma sbs_gets {A} (f : Auth → A) : (∀ s, f s = f (tables s)) → side_by_side RO eq (fgets f) (fgets f).
Proof. intros Hf sb sg Hl. split; [|done]. simpl. rewrite (Hf sb), (Hf sg). by destruct Hl as [-> _]. Qed.

Lemma sbs_mod f :
  (∀ s, tables (f s) = tables (f (tables s))) → (∀ s, events (f s) = events s) →
  side_by_side RO eq (fmod f) (fmod f).
Proof.
  intros Hf He sb sg [Ht Ha]. split; [done|]. split; simpl; [by rewrite (Hf sb), (Hf sg), Ht|by rewrite !He].
Qed.

Lemma sbs_audit action tier d d' :
  side_by_side RO eq (AuthState.audit action tier d) (AuthState.audit action tier d').
Proof.
  intros sb sg [Ht Ha]. split; [done|]. split; simpl; [done|]. by rewrite !fmap_app, Ha.
Qed.

Lemma sbs_when b m m' : side_by_side RO eq m m' → side_by_side RO eq (fwhen b m) (fwhen b m').
Proof. intros Hm. destruct b; [done|by apply sbs_ret]. Qed.
End rules.

Ltac sbs_step :=
  match goal with
  | |- side_by_side _ _ (fbind _ _) _ => eapply (sbs_bind eq); [|intros ? ? <-]
  | |- side_by_side _ _ (fmod _) _ => apply sbs_mod; reflexivity
  | |- side_by_side _ _ (fgets _) _ => apply sbs_gets; reflexivity
  | |- side_by_side _ _ (AuthState.audit _ _ _) _ => apply sbs_audit
  | |- side_by_side _ _ (fwhen _ _) _ => apply sbs_when
  | |- side_by_side _ _ (fret _) _ => apply sbs_ret
  | |- side_by_side _ _ (fstop _) _ => apply sbs_stop
  | |- side_by_side _ _ (match ?x with _ => _ end) _ => destruct x
  end.
Ltac sbs := repeat sbs_step; try reflexivity.

Lemma sbs_resume `{Encryption} c e p :
  side_by_side eq eq (resume c e p Signed) (resume c e p Signed).
Proof.
  destruct p; cbn [resume]; unfold handleReuseBranch, rotateRefreshToken, revokeFamilyForReuse, revoke_row,
    oauth_error, insert_refresh; cbv zeta; sbs.
Qed.

Lemma sbs_embed {A} (f : Auth → A * Auth) {RO} :
  (∀ sb sg, like sb sg → (f sb).1 = (f sg).1 ∧ like (f sb).2 (f sg).2) →
  side_by_side RO eq (embed f) (embed f).
Proof. intros Hf sb sg Hl. apply (Hf sb sg Hl). Qed.

Lemma like_run_seg m sb sg :
  side_by_side eq eq m m → like sb sg → (run_seg m sb).1 = (run_seg m sg).1 ∧ like (run_seg m sb).2 (run_seg m sg).2.
Proof.
  intros Hm Hl. destruct (Hm sb sg Hl) as [He Hs]. unfold run_seg.
  destruct (m sb) as [[]], (m sg) as [[]]; simpl in *; by try subst.
Qed.

(** A function of the tables that returns them, changed. *)
Lemma like_tables {A} (f : Auth → A * Auth) sb sg :
  (∀ s, (f s).1 = (f (tables s)).1 ∧ tables (f s).2 = tables (f (tables s)).2 ∧ events (f s).2 = events s) →
  like sb sg → (f sb).1 = (f sg).1 ∧ like (f sb).2 (f sg).2.
Proof.
  intros Hf [Ht Ha]. destruct (Hf sb) as (B1 & B2 & B3), (Hf sg) as (G1 & G2 & G3).
  rewrite B1, G1, Ht. split; [done|]. split; [by rewrite B2, G2, Ht|by rewrite B3, G3].
Qed.

Section agree.
Context `{Crypto, Encryption, Jose} (c : Ctx).

Lemma sbs_gate e id provider x m {RO} :
  side_by_side RO eq (embed (provisionUserWithAutoProvisionGate e id provider x m))
    (embed (provisionUserWithAutoProvisionGate e id provider x m)).
Proof.
  apply sbs_embed. intros sb sg. apply like_tables. intros s.
  unfold provisionUserWithAutoProvisionGate, provisionUser. cbn [users orgs user_orgs tables with_events].
  change (getOrgSetting (getenv e) (tables s) None "auto_provision" (Some "true"))
    with (getOrgSetting (getenv e) s None "auto_provision" (Some "true")).
  destruct (getOrgSetting _ _ _ _ _) as [v|]; [|done].
  destruct (bool_decide (Paths.toLowerCase _ = _) && _); [done|].
  destruct (select_one _ (users s)); [done|]. destruct (_ || _); [done|].
  destruct (bool_decide (_ ∈ _ <$> user_orgs s)); done.
Qed.

(** ** Corresponding waits and answers *)

Definition same_wait (pb pg : LPending) : Prop :=
  match pb, pg with
  | BExchange a ip agent, GExchange a' ip' agent' => a_provider a = a_provider a' ∧ ip = ip' ∧ agent = agent'
  | BLock v, GLock v' | BMembers v, GMembers v' | BRecord v _, GRecord v' => v = v'
  | BMint p u _, GMint p' u' => p = p' ∧ u = u'
  | _, _ => False
  end.

(** The same status and delay, or the same tokens. *)
Definition same_answer (rb rg : LResponse) : Prop :=
  match rb, rg with
  | LError a _, LError b _ => a = b
  | LRetryAfter a _ n, LRetryAfter b _ m => a = b ∧ n = m
  | LSession _ a r _, LTokens a' r' => a = a' ∧ r = r'
  | LThrow, LThrow => True
  | _, _ => False
  end.

Definition same_outcome (ob og : LOutcome) : Prop :=
  match ob, og with
  | LWait p, LWait q => same_wait p q
  | LDone r, LDone q => same_answer r q
  | _, _ => False
  end.

Notation agree m m' := (side_by_side same_outcome same_outcome m m').

Lemma agree_match e v l m : agree (b_match c e v l m) (g_match c e v m).
Proof.
  destruct m as [m|]; [|by apply sbs_ret]. unfold b_match, g_match, b_provision, g_provision.
  eapply (sbs_bind eq); [apply sbs_gate|]. intros r ? <-. destruct r as [r|code|]; [|by sbs..].
  unfold provision_audits. sbs. done.
Qed.

Lemma agree_failure err ph ph' a b a' b' :
  same_answer a a' → same_answer b b' → agree (idp_failure err ph a b) (idp_failure err ph' a' b').
Proof. intros Ha Hb. destruct err; unfold idp_failure, answer; sbs; done. Qed.

Lemma agree_locked e v r : agree (b_locked c e v r) (g_locked c e v r).
Proof.
  unfold b_locked, g_locked, answer. destruct (LoginLockout.locked r); [by sbs|].
  destruct (decide (strategy v = "memberships")); [by sbs|]. destruct (decide (strategy v = "idp_org_id")).
  { destruct (truthy _); [|apply agree_match]. eapply (sbs_bind eq); [apply sbs_gets; reflexivity|].
    intros m ? <-. apply agree_match. }
  destruct (decide (strategy v = "id_token_groups")); [|apply agree_match].
  destruct (i_groups _) as [[|g gs]|]; try apply agree_match.
  eapply (sbs_bind eq); [apply sbs_gets; reflexivity|]. intros m ? <-. apply agree_match.
Qed.

Lemma agree_minting e p u csrf : agree (b_minting c e p u csrf) (g_minting c e p u).
Proof.
  unfold b_minting, g_minting. eapply (sbs_bind eq).
  - apply sbs_embed. intros sb sg. apply like_run_seg, sbs_resume.
  - intros o ? <-. destruct o as [q|[st er d|access refresh|st|]]; unfold answer; [by sbs|by sbs| |by sbs..].
    eapply (sbs_bind eq); [apply sbs_audit|]. intros ? ? _. by apply sbs_ret.
Qed.

Lemma agree_lresume e pb pg r : same_wait pb pg → agree (lresume c e pb r) (lresume c e pg r).
Proof.
  destruct pb, pg; try done; cbn [same_wait]; intros Hw; destruct_and?; subst; destruct r as [[x|err]|lk|[l|err]| |];
    cbn [lresume b_exchanged g_exchanged b_members g_members]; try (by apply sbs_ret);
    try (by apply agree_failure); try apply agree_locked; try apply agree_minting.
  - apply sbs_ret. simpl. congruence.
  - eapply (sbs_bind eq); [apply sbs_gets; reflexivity|]. intros m ? <-. apply agree_match.
  - unfold b_record, g_record, answer. by sbs.
Qed.

Lemma lrun_ends m m' sb sg :
  agree m m' → like sb sg →
  same_outcome (lrun m sb).1 (lrun m' sg).1 ∧ like (lrun m sb).2 (lrun m' sg).2.
Proof.
  intros Hm Hl. destruct (Hm sb sg Hl) as [He Hs]. unfold lrun.
  destruct (m sb) as [[]], (m' sg) as [[]]; done.
Qed.
End agree.

(** [C35] No way in is wider. Where a login of the browser and a login of the command
    line wait for the same thing, and get the same reply, they go on alike: the
    same wait, the same status and delay, or the same tokens, the same tables, and
    the same audit events up to their details, on every branch of the lockout, the
    allowlist strategies, the provisioning gate and the failures. *)
Theorem grants_agree `{Crypto, Encryption, Jose} c e pb pg r sb sg :
  same_wait pb pg → like sb sg →
  same_outcome (lrun (lresume c e pb r) sb).1 (lrun (lresume c e pg r) sg).1 ∧
  like (lrun (lresume c e pb r) sb).2 (lrun (lresume c e pg r) sg).2.
Proof. intros Hw Hl. by apply lrun_ends; [apply agree_lresume|]. Qed.

End LoginAgree.
