(* ===== verification/LoginRuns.v ===== *)
(** * Returning through another organisation, and concrete logins *)

From S2P Require Import Prelude Paths AuthState Rotation RateLimit AuthInstances Envelope EnvelopeSafety Login LoginSafety LoginProvision LoginAgree.
Local Open Scope Z_scope.
Local Open Scope flow_scope.

Module LoginRuns.
Import Rotation Login LoginSafety LoginProvision LoginAgree.

Section relogin.
Context `{Crypto, Jose, Encryption} (c : Ctx).

Lemma select_user u l f :
  NoDup (u_id <$> l) → u ∈ l → (∀ v, u_id (f v) = u_id v) →
  select_one (λ v, u_id v = u_id u) (update_where (λ v, u_id v = u_id u) f l) = Some (f u).
Proof.
  intros Hnd Hin Hf. rewrite select_one_update_where by (intros x; by rewrite Hf).
  rewrite (select_one_key u_id _ _ u) by done. simpl. by rewrite decide_True.
Qed.

(** A returning user, whose tokens are sealed for the organisation of this login. *)
Lemma returning v u m id e s r s' :
  NoDup (u_id <$> users s) → select_one (is_identity (v_provider v).1 (i_user_id (x_user (v_exchange v)))) (users s) = Some u →
  provisionUser (now e) id (v_provider v).1 (v_exchange v) m s = (r, s') →
  NoDup (u_id <$> users s') ∧ ∃ u', u' ∈ users s' ∧ u_id u' = u_id u ∧ primary_org_id u' = primary_org_id u ∧
    token_epoch u' = token_epoch u ∧
    idp_access_token u' = encryptNullable (Some (x_access (v_exchange v))) (mkEnc (am_org m) "idp_access_token" (u_id u)).
Proof.
  intros Hnd Eu. unfold provisionUser. rewrite Eu. intros [= <- <-].
  apply select_one_Some in Eu as [_ Hin]. cbn [users with_users]. split.
  - rewrite fmap_update_where; [done|]. by intros.
  - eexists. split; [apply elem_of_update_where; exists u; split; [done|]; by rewrite decide_True|]. done.
Qed.

Lemma decrypt_ends e row u s :
  NoDup (u_id <$> users s) → u ∈ users s → rt_user row = u_id u →
  decryptNullable (idp_access_token u) (mkEnc (primary_org_id u) "idp_access_token" (rt_user row)) = Some DFailed →
  ∃ s', decrypt_tokens e row u s =
      (inl (Done (RError 401 "invalid_grant" "Identity provider rejected the token")), s') ∧
    readTokenEpoch s' (u_id u) = now e `max` (token_epoch u + 1).
Proof.
  intros Hnd Hin Er Ed. unfold decrypt_tokens. rewrite Ed. unfold bumpTokenEpoch, fbind, AuthState.audit, fmod, fgets.
  cbn [users with_users with_events]. rewrite Er, (select_user u _ (bump (now e))) by done. eexists. split; [done|].
  unfold readTokenEpoch. cbn [users with_events with_published with_users]. by rewrite (select_user u _ (bump (now e))).
Qed.
End relogin.

(** Signing in through another organisation ends the account's sessions. An
    account whose identity comes back through the allowlist of an organisation
    other than its own keeps its organisation, but the provider's token is sealed
    for the other one; the next refresh of any of its sessions opens it for its
    own, fails, is answered 401 and raises the epoch of the account, which
    invalidates all its tokens. *)
Theorem relogin_ends_sessions `{Crypto, Jose, Encryption, !AuthenticatedEncryption in_use} c v u m id e0 s r s' e cl row fp :
  NoDup (u_id <$> users s) →
  select_one (is_identity (v_provider v).1 (i_user_id (x_user (v_exchange v)))) (users s) = Some u →
  in_use (mkEnc (primary_org_id u) "idp_access_token" (u_id u)) → in_use (mkEnc (am_org m) "idp_access_token" (u_id u)) →
  primary_org_id u ≠ "" → am_org m ≠ primary_org_id u → x_access (v_exchange v) ≠ "" →
  provisionUser (now e0) id (v_provider v).1 (v_exchange v) m s = (r, s') → rt_user row = u_id u →
  ∃ s'', run_seg (refreshIdpMembershipAndAllowlist c e cl row fp) s' =
      (Done (RError 401 "invalid_grant" "Identity provider rejected the token"), s'') ∧
    readTokenEpoch s'' (u_id u) = now e `max` (token_epoch u + 1).
Proof.
  intros Hnd Eu Hu Hu' Ho Hm Hx Hp Er.
  destruct (returning v u m id e0 s r s' Hnd Eu Hp) as (Hnd' & u' & Hin' & Ei & Ep & Et & Ea).
  destruct (decrypt_ends e row u' s' Hnd' Hin') as (s'' & Ed & Eep); [congruence| |].
  { rewrite Ea. unfold encryptNullable. rewrite truthy_Some by done. simpl. f_equal. rewrite Er, Ep, <- Ei in *. apply decrypt_bound; [done..|congruence]. }
  exists s''. rewrite <- Ei, <- Et, <- Eep. split; [|done].
  unfold run_seg, refreshIdpMembershipAndAllowlist, fbind, fgets.
  rewrite Er, <- Ei, (select_one_key u_id _ _ u') by done. rewrite decide_False by congruence. by rewrite Ed.
Qed.

(** ** Concrete logins *)

#[local] Instance toy_crypto : Crypto := {|
  hmac k m := k +:+ ":" +:+ m;
  sha256 s := "h" +:+ s;
  computeChallenge s := "c" +:+ s
|}.

(** The contexts of Ada's access token, for either organisation. *)
Definition ada_contexts (ec : EncryptionContext) : Prop :=
  ec = EnvelopeSafety.demo_context "acme" ∨ ec = EnvelopeSafety.demo_context "beta".

Definition sealing : Encryption :=
  @EnvelopeSafety.envelope EnvelopeSafety.toy_aead (Envelope.bytes "key") (λ _ _, EnvelopeSafety.toy_draws).

Lemma sealing_ok : @AuthenticatedEncryption sealing ada_contexts.
Proof.
  apply (@EnvelopeSafety.envelope_authenticated EnvelopeSafety.toy_aead EnvelopeSafety.toy_aead_laws).
  - intros _ _. apply EnvelopeSafety.toy_drawn.
  - split; [by intros ec [->| ->]|]. intros ec ec' a a' k n t t' Hec Hec'.
    destruct Hec as [->| ->], Hec' as [->| ->]; intros [= <-] [= <-]; intros [=]; done.
Qed.

Definition demo_ctx : Ctx := mkCtx "https://c" (mkRegistry "k" None) (λ _, None).
Definition demo_env (t : Z) : Env := mkEnv t (λ n, String.concat "" (replicate n "u") +:+ "0") (λ _, None).
Definition github : string * Provider := ("github", mkProvider None false true).
Definition demo_orgs : list OrgRow :=
  [mkOrg "acme" "Acme" (Some "Acme-GH") None []; mkOrg "beta" "Beta" (Some "beta-gh") None []].
Definition demo_auth (us : list UserRow) : Auth :=
  mkAuth [] us demo_orgs [] [] [] (mkFloor 0 ∅) [] [].
Definition demo_exchange : ExchangeCodeResult :=
  mkExchange (mkIdpUser "42" "ada@example.org" (Some "Ada") None None) "gho_token" None.
Definition demo_visit : Visit := mkVisit github demo_exchange (Some "10.0.0.1") None.
Definition ada : UserRow :=
  mkUser "ada" "acme" "ada@example.org" (Some "Ada") "github" "42" None None "member" None 7.

(** The first to sign in is made an administrator of the organisation that allows her. *)
Lemma login_provisions_witness :
  ∃ o s', lrun (@lresume toy_crypto AuthInstances.passthrough AuthInstances.toy_jose demo_ctx (demo_env 1000)
                  (BMembers demo_visit) (RMembers (inl ["acme-gh"]))) (demo_auth []) = (o, s') ∧
    minting o = Some (mkProvisioned "uuu0" "acme" "admin") ∧
    holder (demo_auth []) s' demo_visit (["acme-gh"], None) (mkProvisioned "uuu0" "acme" "admin").
Proof.
  eexists _, _. split; [reflexivity|]. split; [reflexivity|].
  refine (proj2 (@login_provisions toy_crypto AuthInstances.passthrough AuthInstances.toy_jose demo_ctx (demo_env 1000)
    (BMembers demo_visit) (RMembers (inl ["acme-gh"])) (demo_auth []) _ _ eq_refl) _ demo_visit eq_refl _).
  reflexivity.
Defined.

Definition noted (detail : string) : Auth :=
  with_events [mkEvent "auth.idp.token_revoked" 1 (Some detail)] (demo_auth []).

(** Nobody allows the member of [elsewhere]; the failed login will be recorded. *)
Lemma grants_agree_witness :
  same_outcome
    (lrun (@lresume toy_crypto AuthInstances.passthrough AuthInstances.toy_jose demo_ctx (demo_env 1000)
       (BMembers demo_visit) (RMembers (inl ["elsewhere"]))) (noted "callback_exchange")).1
    (LWait (GRecord demo_visit)).
Proof.
  refine (proj1 (@grants_agree toy_crypto AuthInstances.passthrough AuthInstances.toy_jose demo_ctx (demo_env 1000)
    (BMembers demo_visit) (GMembers demo_visit) (RMembers (inl ["elsewhere"])) (noted "callback_exchange")
    (noted "auth_code_grant") _ _)).
  - reflexivity.
  - split; reflexivity.
Defined.

(** Ada of Acme, who is now a member of Beta only, signs in and refreshes. *)
Definition ada_back : Provisioned * Auth :=
  @provisionUser sealing 1000 "new" "github" demo_exchange (mkMatch "beta" "Beta" "beta-gh") (demo_auth [ada]).
Definition ada_session : RefreshRow := mkRefresh "j" "ada" "acme" (Some "f") None None None None 9000 None 0 1500.

Lemma relogin_ends_sessions_witness :
  ada_back.1 = Provision (mkResult (mkProvisioned "ada" "acme" "member") false false) ∧
  ∃ s'', run_seg (@refreshIdpMembershipAndAllowlist sealing demo_ctx (demo_env 2000) (mkClaims "ada" "j" 1500)
      ada_session None) ada_back.2 =
      (Done (RError 401 "invalid_grant" "Identity provider rejected the token"), s'') ∧
    readTokenEpoch s'' "ada" = 2000.
Proof.
  split; [reflexivity|].
  refine (@relogin_ends_sessions toy_crypto AuthInstances.toy_jose sealing ada_contexts sealing_ok demo_ctx demo_visit ada
    (mkMatch "beta" "Beta" "beta-gh") "new" (demo_env 1000) (demo_auth [ada]) ada_back.1 ada_back.2 (demo_env 2000)
    (mkClaims "ada" "j" 1500) ada_session None (NoDup_singleton _) eq_refl (or_introl eq_refl) (or_intror eq_refl) _ _ _ (surjective_pairing _) eq_refl).
  - discriminate.
  - discriminate.
  - discriminate.
Defined.

(** A login and its callback, which is then repeated. *)
Definition demo_providers : ProviderRegistry := mkProviders [github] (Some "github").
Definition demo_draws : LoginDraws := mkDraws "verifier" "nonce" "st".
Definition demo_query : CallbackQuery := mkQuery (Some "st") (Some "code") None None.
Definition demo_cookies : jsmap string := [(STATE_COOKIE_NAME, bindState "st" "key")].
Definition demo_row (consumed : option Z) : OAuthStateRow :=
  mkState "st" "verifier" "https://c/api/auth/oauth/callback" "github" 1000 1600 consumed (Some "nonce").

Definition no_buckets : gmap string RateLimiter.BucketState := ∅.
#[local] Existing Instance RateLimiter.ops.

Lemma demo_login_run :
  ∃ s, rtc (lstep "key") linitial s ∧ states s = [demo_row (Some 1100)] ∧ exchanged_states s = ["st"].
Proof.
  eexists. split.
  - eapply rtc_l.
    { eapply (LSLogin "key" 1000 "https://c/" demo_providers None None demo_draws no_buckets);
        [by apply not_elem_of_nil|reflexivity]. }
    eapply rtc_l; [eapply (LSCallback "key" 1100 demo_providers demo_query demo_cookies); reflexivity|].
    eapply rtc_l; [eapply (LSCallback "key" 1101 demo_providers demo_query demo_cookies); reflexivity|].
    apply rtc_refl.
  - split; vm_compute; reflexivity.
Qed.

Lemma state_used_once_witness :
  ∃ s, exchanged_states s = ["st"] ∧ ∀ x, x ∈ exchanges s → justified "key" s x.
Proof.
  destruct demo_login_run as (s & Hr & _ & Ee). exists s. split; [exact Ee|].
  exact (proj2 (state_used_once "key" s Hr)).
Defined.

Lemma refused_state_explained_witness :
  ∃ resp ev, handleOAuthCallback 1101 "key" demo_providers demo_query demo_cookies [demo_row (Some 1100)] =
    (inl resp, ev, [demo_row (Some 1100)]) ∧ resp = LError 409 "STATE_ALREADY_CONSUMED".
Proof.
  refine (refused_state_explained "key" 1101 demo_providers demo_query demo_cookies [demo_row (Some 1100)] "st" "code"
    _ _ _ _ _ _ _ _); try reflexivity; discriminate.
Defined.

End LoginRuns.
