(* ===== verification/Admin.v ===== *)
(** * The administration API ([src/admin/*.ts], [src/http/auth-routes.ts],
    [src/auth/userinfo.ts])

    Organisations, users and service tokens, behind the role of the caller, the
    double-submitted token of the page and a limit per address. The caller is
    what [authenticateRequest] found; the column [created_at] of users and
    organisations is not in the rows and is an argument of the lists. *)

From S2P Require Import Prelude Paths Database Schemas AuthState Rotation RateLimit Authenticate ServiceTokens DeviceFlow Login.
Local Open Scope Z_scope.
Local Open Scope flow_scope.

Module Admin.
Import Rotation Authenticate Schemas.

(** ** Validation ([validate.ts]) *)

Inductive ValidationCode :=
  | MISSING_FIELD | WRONG_TYPE | TOO_LONG | TOO_SHORT | CONTROL_BYTES | INVALID_ROLE | UNKNOWN_FIELD | EMPTY_BODY
  | BAD_ID.

(** [AdminValidationError]: the code and the field. *)
Definition Invalid : Type := ValidationCode * option string.

Definition control_byte (a : ascii) : bool :=
  let n := Paths.code a in
  bool_decide ((n < 32 ∧ n ≠ 9 ∧ n ≠ 10 ∧ n ≠ 13) ∨ n = 127).

Fixpoint has_control (s : string) : bool :=
  match s with EmptyString => false | String a s => control_byte a || has_control s end.

(** [None] is [undefined]. A string is its UTF-8 text, so its length is
    [Buffer.byteLength]. *)
Definition validateNameField (value : option json) (field : string) (maxBytes : nat) : Invalid + string :=
  match value with
  | None | Some VNull => inl (MISSING_FIELD, Some field)
  | Some (VStr s) =>
      if decide (s = "") then inl (TOO_SHORT, Some field)
      else if bool_decide (maxBytes < String.length s)%nat then inl (TOO_LONG, Some field)
      else if has_control s then inl (CONTROL_BYTES, Some field)
      else inr s
  | Some _ => inl (WRONG_TYPE, Some field)
  end.

Definition validateAllowlistField (value : option json) (field : string) (maxBytes : nat) : Invalid + option string :=
  match value with
  | Some VNull => inr None
  | _ => match validateNameField value field maxBytes with inl e => inl e | inr s => inr (Some s) end
  end.

Definition validateRoleField (value : option json) : Invalid + string :=
  match value with
  | Some (VStr r) => if bool_decide (r = "admin" ∨ r = "member") then inr r else inl (INVALID_ROLE, Some "role")
  | _ => inl (INVALID_ROLE, Some "role")
  end.

Definition id_char (a : ascii) : bool :=
  let n := Paths.code a in
  bool_decide ((65 ≤ n ∧ n ≤ 90) ∨ (97 ≤ n ∧ n ≤ 122) ∨ (48 ≤ n ∧ n ≤ 57) ∨ n = 95 ∨ n = 45).

Fixpoint all_id_chars (s : string) : bool :=
  match s with EmptyString => true | String a s => id_char a && all_id_chars s end.

(** [/^[A-Za-z0-9_-]{1,64}$/] *)
Definition validatePathParam (value field : string) : Invalid + string :=
  if bool_decide (1 ≤ String.length value ≤ 64)%nat && all_id_chars value then inr value
  else inl (BAD_ID, Some field).

Fixpoint unknown_field (allowed : list string) (keys : list string) : option string :=
  match keys with
  | [] => None
  | k :: keys => if decide (k ∈ allowed) then unknown_field allowed keys else Some k
  end.

(** [None] is a body that passes. *)
Definition validateUpdateBody (body : jsmap json) (allowed : list string) : option Invalid :=
  match body.*1 with
  | [] => Some (EMPTY_BODY, None)
  | keys => (λ k, (UNKNOWN_FIELD, Some k)) <$> unknown_field allowed keys
  end.

(** ** Requests and answers *)

(** What [readJsonBody] gets: a body over the limit, none, no JSON, or a value. *)
Inductive Body := BTooLarge | BEmpty | BMalformed | BJson (j : json).

Inductive AResponse :=
  | AError (status : Z) (code : string)
  | AInvalid (e : Invalid)
  | AOrgs (l : list OrgRow)
  | AOrg (status : Z) (r : OrgRow)
  | AUsers (l : list UserRow) (admin_count : nat)
  | AUser (id role : string)
  | AIssued (t : ServiceTokens.IssuedServiceToken)
  | ATokens (l : list (RefreshRow * string))
  | ARevoked (jti : string)
  | AMe (u : UserRow) (o : OrgRow)
  | ARetryAfter (seconds : Z)
  | AThrow.

Record AdminRequest := mkAdminRequest {
  r_auth : AuthResult;
  r_csrf_cookie : option string;
  r_csrf_header : option string;
  r_url : string;
  r_body : Body
}.

Notation AFlow := (Flow AResponse).

Definition requireAdmin (a : AuthResult) : AFlow AuthClaims :=
  match a with
  | AuthNo status _ => fstop (AError status "UNAUTHORIZED")
  | AuthOk c => if decide (a_role c = "admin") then fret c else fstop (AError 403 "FORBIDDEN")
  end.

Definition checkCsrf (rq : AdminRequest) : AFlow unit :=
  if DeviceFlow.verifyCsrfToken (r_csrf_cookie rq) (r_csrf_header rq) then fret tt
  else fstop (AError 403 "CSRF_FAILED").

Definition readJsonBody (b : Body) : AFlow (jsmap json) :=
  match b with
  | BJson (VObj l) => fret l
  | _ => fstop (AError 400 "INVALID_REQUEST")
  end.

Definition valid {A} (r : Invalid + A) : AFlow A :=
  match r with inl e => fstop (AInvalid e) | inr a => fret a end.

Definition valid_body (r : option Invalid) : AFlow unit :=
  match r with Some e => fstop (AInvalid e) | None => fret tt end.

(** The last segment of a path of the form [prefix([^/]+)], decoded. *)
Definition segment_after (prefix p : string) : option string :=
  if startsWith prefix p then
    let id := String.substring (String.length prefix) (String.length p - String.length prefix) p in
    if bool_decide (id ≠ "") && negb (has_char "/" id) then Some id else None
  else None.

Definition path_id (prefix url : string) : option string :=
  segment_after prefix (path_only url) ≫= Paths.decodeURIComponent.

Definition parse_id (prefix : string) (rq : AdminRequest) : AFlow string :=
  match path_id prefix (r_url rq) with
  | None => fstop (AError 400 "BAD_PATH")
  | Some raw => valid (validatePathParam raw "id")
  end.

(** ** [handle-admin-users.ts] *)

Definition older (created : string → string) (a b : string) : Prop :=
  created a ≠ created b ∧ str_le (created a) (created b) ∨ created a = created b ∧ str_le a b.

#[global] Instance older_dec created : RelDecision (older created).
Proof. intros a b. unfold older. apply _. Defined.

Definition older_user created (a b : UserRow) : Prop := older created (u_id a) (u_id b).
#[global] Instance older_user_dec created : RelDecision (older_user created).
Proof. intros a b. unfold older_user. apply _. Defined.

Definition older_org created (a b : OrgRow) : Prop := older created (o_id a) (o_id b).
#[global] Instance older_org_dec created : RelDecision (older_org created).
Proof. intros a b. unfold older_org. apply _. Defined.

Definition LIST_LIMIT : nat := 5000.

Definition human (u : UserRow) : Prop := u_role u = "admin" ∨ u_role u = "member".
#[global] Instance human_dec u : Decision (human u).
Proof. unfold human. apply _. Defined.

Definition count_admins (l : list UserRow) : nat := changes Login.is_admin l.

(** [org] is the parameter of the query. *)
Definition handleListUsers (created : string → string) (rq : AdminRequest) (org : option string) : AFlow AResponse :=
  do* requireAdmin (r_auth rq);
  let* f := match org with
            | None => fret None
            | Some o => let* v := valid (validatePathParam o "org") in fret (Some v)
            end in
  fgets (λ s,
    AUsers (take LIST_LIMIT (merge_sort (older_user created)
              (select (λ u, human u ∧ (f = None ∨ f = Some (primary_org_id u))) (users s))))
      (count_admins (users s))).

(** The transaction of [handleUpdateUser]. *)
Definition update_role (userId newRole : string) : AFlow AResponse :=
  let* target := fgets (λ s, select_one (λ u, u_id u = userId) (users s)) in
  match target with
  | None => fret (AError 404 "NOT_FOUND")
  | Some u =>
      if decide (u_role u = "agent" ∨ u_role u = "service") then fret (AError 400 "NOT_HUMAN_USER")
      else if decide (u_role u = newRole) then fret (AUser (u_id u) newRole)
      else
        let* n := fgets (λ s, count_admins (users s)) in
        if decide (u_role u = "admin" ∧ newRole ≠ "admin" ∧ n = 1%nat) then fret (AError 409 "LAST_ADMIN")
        else
          do* fmod (λ s, with_users (update_where (λ u, u_id u = userId) (set_role newRole) (users s)) s);
          do* AuthState.audit "admin.user.role_changed" 1 (Some userId);
          fret (AUser userId newRole)
  end.

Definition handleUpdateUser (rq : AdminRequest) : AFlow AResponse :=
  do* requireAdmin (r_auth rq);
  do* checkCsrf rq;
  let* userId := parse_id "/api/admin/users/" rq in
  let* body := readJsonBody (r_body rq) in
  do* valid_body (validateUpdateBody body ["role"]);
  let* newRole := valid (validateRoleField (map_get "role" body)) in
  update_role userId newRole.

(** ** [handle-admin-orgs.ts] *)

Definition ORG_BODY_FIELDS : list string := ["name"; "allowlist_github_org"; "allowlist_idp_org_id"].

Definition handleListOrgs (created : string → string) (rq : AdminRequest) : AFlow AResponse :=
  do* requireAdmin (r_auth rq);
  fgets (λ s, AOrgs (take LIST_LIMIT (merge_sort (older_org created) (orgs s)))).

Definition MAX_NAME_BYTES : nat := 200.

Definition optional_allowlist (body : jsmap json) (field : string) : Invalid + option string :=
  match map_get field body with
  | None => inr None
  | v => validateAllowlistField v field MAX_NAME_BYTES
  end.

(** [id] is the identifier that is drawn. *)
Definition handleCreateOrg (id : string) (rq : AdminRequest) : AFlow AResponse :=
  do* requireAdmin (r_auth rq);
  do* checkCsrf rq;
  let* body := readJsonBody (r_body rq) in
  do* valid_body ((λ k, (UNKNOWN_FIELD, Some k)) <$> unknown_field ORG_BODY_FIELDS body.*1);
  let* name := valid (validateNameField (map_get "name" body) "name" MAX_NAME_BYTES) in
  let* github := valid (optional_allowlist body "allowlist_github_org") in
  let* idp := valid (optional_allowlist body "allowlist_idp_org_id") in
  let* rows := fgets orgs in
  if bool_decide (id ∈ o_id <$> rows) then fstop AThrow
  else if bool_decide (name ∈ o_name <$> rows) then fret (AError 409 "ORG_NAME_TAKEN")
  else
    let row := mkOrg id name github idp [] in
    do* fmod (λ s, with_orgs (orgs s ++ [row]) s);
    do* AuthState.audit "admin.org.created" 1 (Some id);
    fret (AOrg 201 row).

(** The fields that are present; [None] is a field that is not in the body. *)
Record OrgPatch := mkPatch {
  p_name : option string; p_github : option (option string); p_idp : option (option string)
}.

Definition present {A} (body : jsmap json) (field : string) (check : option json → Invalid + A) : Invalid + option A :=
  match map_get field body with
  | None => inr None
  | v => match check v with inl e => inl e | inr a => inr (Some a) end
  end.

Definition patched (p : OrgPatch) (r : OrgRow) : OrgRow :=
  mkOrg (o_id r) (default (o_name r) (p_name p)) (default (allowlist_github_org r) (p_github p))
    (default (allowlist_idp_org_id r) (p_idp p)) (o_settings r).

(** The transaction of [handleUpdateOrg]; columns that do not change are not in
    the UPDATE, and its failure rolls the audit row back. *)
Definition update_org (orgId : string) (p : OrgPatch) : AFlow AResponse :=
  let* rows := fgets orgs in
  match select_one (λ r, o_id r = orgId) rows with
  | None => fret (AError 404 "NOT_FOUND")
  | Some r =>
      let r' := patched p r in
      if bool_decide (o_name r' ≠ o_name r ∧ o_name r' ∈ o_name <$> filter (λ x, o_id x ≠ orgId) rows)
      then fret (AError 409 "ORG_NAME_TAKEN")
      else
        do* fmod (λ s, with_orgs (update_where (λ r, o_id r = orgId) (patched p) (orgs s)) s);
        do* AuthState.audit "admin.org.updated" 1 (Some orgId);
        fret (AOrg 200 r')
  end.

Definition handleUpdateOrg (rq : AdminRequest) : AFlow AResponse :=
  do* requireAdmin (r_auth rq);
  do* checkCsrf rq;
  let* orgId := parse_id "/api/admin/orgs/" rq in
  let* body := readJsonBody (r_body rq) in
  do* valid_body (validateUpdateBody body ORG_BODY_FIELDS);
  let* name := valid (present body "name" (λ v, validateNameField v "name" MAX_NAME_BYTES)) in
  let* github := valid (present body "allowlist_github_org"
                   (λ v, validateAllowlistField v "allowlist_github_org" MAX_NAME_BYTES)) in
  let* idp := valid (present body "allowlist_idp_org_id"
                (λ v, validateAllowlistField v "allowlist_idp_org_id" MAX_NAME_BYTES)) in
  update_org orgId (mkPatch name github idp).

(** ** [handle-service-tokens.ts] *)

Definition str_field (body : json) (k : string) : option string :=
  match field k body with Some (VStr s) => Some s | _ => None end.

Definition service_code (e : ServiceTokens.ServiceError) : AResponse :=
  match e with
  | ServiceTokens.INVALID_TTL => AError 400 "INVALID_TTL"
  | ServiceTokens.TTL_EXCEEDS_MAX => AError 400 "TTL_EXCEEDS_MAX"
  | ServiceTokens.REASON_TOO_SHORT => AError 400 "REASON_TOO_SHORT"
  | ServiceTokens.INVALID_SCOPE => AError 400 "INVALID_SCOPE"
  | ServiceTokens.USER_NOT_FOUND => AError 400 "USER_NOT_FOUND"
  | ServiceTokens.USER_NOT_IN_ORG => AError 400 "USER_NOT_IN_ORG"
  | ServiceTokens.INTERNAL | ServiceTokens.SQLITE_CONSTRAINT => AThrow
  end.

Definition lift {A} (m : Flow ServiceTokens.ServiceError A) : AFlow A := λ s,
  match m s with (inl e, s') => (inl (service_code e), s') | (inr a, s') => (inr a, s') end.

(** A body that is the literal [null] makes the test of its fields throw. *)
Definition handleIssueServiceToken (e : Env) (iss : string) (rq : AdminRequest) : AFlow AResponse :=
  let* c := requireAdmin (r_auth rq) in
  match r_body rq with
  | BTooLarge | BEmpty | BMalformed => fret (AError 400 "INVALID_REQUEST")
  | BJson VNull => fstop AThrow
  | BJson b =>
      match str_field b "user_id", str_field b "org_id", str_field b "scope", str_field b "ttl", str_field b "reason" with
      | Some u, Some o, Some sc, Some ttl, Some why =>
          match parseDuration ttl with
          | None => fret (AError 400 "INVALID_TTL")
          | Some n =>
              let* t := lift (ServiceTokens.issueServiceToken e iss (ServiceTokens.mkIssue u o sc n why (a_user_id c))) in
              do* AuthState.audit "auth.service_token.issued" 1 (Some (ServiceTokens.is_jti t));
              fret (AIssued t)
          end
      | _, _, _, _, _ => fret (AError 400 "INVALID_REQUEST")
      end
  end.

Definition token_status (t : Z) (r : RefreshRow) : string :=
  if bool_decide (revoked_at r ≠ None) then "revoked"
  else if bool_decide (rt_expires_at r < t) then "expired" else "active".

Definition handleListServiceTokens (e : Env) (rq : AdminRequest) (user org active_only : option string) : AFlow AResponse :=
  do* requireAdmin (r_auth rq);
  fgets (λ s,
    ATokens ((λ r, (r, token_status (now e) r)) <$>
      ServiceTokens.listServiceTokens s (ServiceTokens.mkList (bool_decide (active_only = Some "true")) user org))).

Definition handleRevokeServiceToken (e : Env) (rq : AdminRequest) (j : string) : AFlow AResponse :=
  do* requireAdmin (r_auth rq);
  let* revoked := ServiceTokens.revokeServiceToken e j in
  if (revoked : bool) then
    do* AuthState.audit "auth.service_token.revoked" 1 (Some j);
    fret (ARevoked j)
  else fret (AError 404 "NOT_FOUND").

(** ** [userinfo.ts] *)

Definition USERINFO_LIMIT : RateLimitConfig := mkConfig 600 60.

Definition handleUserinfo `{RateLimiterOps T} (t : Z) (a : AuthResult) (l : T) : AFlow AResponse * T :=
  match a with
  | AuthNo status _ => (fret (AError status "UNAUTHORIZED"), l)
  | AuthOk c =>
      match rl_check t ("userinfo:" +:+ a_user_id c) USERINFO_LIMIT l with
      | (Denied r, l) => (fret (ARetryAfter r), l)
      | (Allowed _ _, l) =>
          (fgets (λ s,
             match select_one (λ u, u_id u = a_user_id c) (users s) with
             | None => AError 404 "USER_NOT_FOUND"
             | Some u =>
                 match select_one (λ o, o_id o = primary_org_id u) (orgs s) with
                 | None => AError 404 "ORG_NOT_FOUND"
                 | Some o => AMe u o
                 end
             end), l)
      end
  end.

(** ** The routes of authentication and administration ([auth-routes.ts]) *)

Inductive AuthRoute :=
  | AtLogin | AtDevicePage | AtConfirmPage | AtSuccess | AtCallback | AtToken | AtDeviceAuthorization | AtDeviceApprove
  | AtLogout | AtLogoutAll | AtRevoke | AtUserinfo | AtIssueToken | AtListTokens | AtRevokeToken (jti : string)
  | AtListOrgs | AtCreateOrg | AtUpdateOrg | AtListUsers | AtUpdateUser
  | AtNotAllowed (allow : string) | AtThrow.

Definition EXACT_ROUTES : list (string * string * AuthRoute) := [
  ("/auth/login", "GET", AtLogin); ("/auth/device", "GET", AtDevicePage);
  ("/auth/device/confirm", "GET", AtConfirmPage); ("/auth/success", "GET", AtSuccess);
  ("/api/auth/oauth/callback", "GET", AtCallback); ("/api/auth/oauth/token", "POST", AtToken);
  ("/api/auth/oauth/device_authorization", "POST", AtDeviceAuthorization);
  ("/auth/device/approve", "POST", AtDeviceApprove); ("/api/auth/logout", "POST", AtLogout);
  ("/api/auth/logout-all", "POST", AtLogoutAll); ("/api/auth/revoke", "POST", AtRevoke);
  ("/api/auth/me", "GET", AtUserinfo); ("/api/admin/service-tokens", "POST", AtIssueToken);
  ("/api/admin/service-tokens", "GET", AtListTokens); ("/api/admin/orgs", "GET", AtListOrgs);
  ("/api/admin/orgs", "POST", AtCreateOrg); ("/api/admin/users", "GET", AtListUsers)].

Definition KNOWN_AUTH_PATHS : list string := [
  "/auth/login"; "/auth/device"; "/auth/device/confirm"; "/auth/success"; "/api/auth/oauth/callback";
  "/api/auth/oauth/token"; "/api/auth/oauth/device_authorization"; "/auth/device/approve"; "/api/auth/logout";
  "/api/auth/logout-all"; "/api/auth/revoke"; "/api/auth/me"; "/api/admin/service-tokens"; "/api/admin/orgs";
  "/api/admin/users"].

Definition methodForPath (url : string) : string :=
  if decide (url = "/api/admin/service-tokens" ∨ url = "/api/admin/orgs") then "GET, POST"
  else if decide (url ∈ ["/api/admin/users"; "/auth/login"; "/auth/device"; "/auth/device/confirm"; "/auth/success";
                         "/api/auth/oauth/callback"; "/api/auth/me"]) then "GET"
  else "POST".

(** [url.split("?")[0]] *)
Definition before_query (url : string) : string := default "" (head (split_on "?" url)).

(** [/^\/api\/admin\/service-tokens\/([^/]+)\/revoke$/] *)
Definition revoke_target (url : string) : option string :=
  match split_on "/" url with
  | [e; api; adm; st; j; r] =>
      if bool_decide (e = "" ∧ api = "api" ∧ adm = "admin" ∧ st = "service-tokens" ∧ j ≠ "" ∧ r = "revoke")
      then Some j else None
  | _ => None
  end.

(** [None] falls through to the REST surface. *)
Definition dispatchAuthRoutes (raw method : string) : option AuthRoute :=
  let url := before_query raw in
  match select_one (λ r, r.1.1 = url ∧ r.1.2 = method) EXACT_ROUTES with
  | Some r => Some r.2
  | None =>
      if bool_decide (segment_after "/api/admin/orgs/" url ≠ None ∧ method = "PATCH") then Some AtUpdateOrg
      else if bool_decide (segment_after "/api/admin/users/" url ≠ None ∧ method = "PATCH") then Some AtUpdateUser
      else
        match (if decide (method = "POST") then revoke_target url else None) with
        | Some j => Some (match Paths.decodeURIComponent j with Some j => AtRevokeToken j | None => AtThrow end)
        | None => if decide (url ∈ KNOWN_AUTH_PATHS) then Some (AtNotAllowed (methodForPath url)) else None
        end
  end.

Definition ADMIN_MUT_RATE_LIMIT : RateLimitConfig := mkConfig 30 60.
Definition OAUTH_TOKEN_RATE_LIMIT : RateLimitConfig := mkConfig 60 60.

(** The limits taken before a handler runs. *)
Definition route_limit (r : AuthRoute) (ip : option string) : option (string * RateLimitConfig) :=
  let addr := default "unknown" ip in
  match r with
  | AtToken => Some ("oauth-token:" +:+ addr, OAUTH_TOKEN_RATE_LIMIT)
  | AtCreateOrg | AtUpdateOrg | AtUpdateUser => Some ("admin:mut:" +:+ addr, ADMIN_MUT_RATE_LIMIT)
  | _ => None
  end.

Definition arun (m : Flow AResponse AResponse) (s : Auth) : AResponse * Auth :=
  match m s with (inl o, s') | (inr o, s') => (o, s') end.

End Admin.
