(* ===== verification/AdminSafety.v ===== *)
(** * What the administration API guarantees

    Nothing changes but for an administrator, with the token of the page, and with
    an entry in the audit log; and there is always an administrator left, whatever
    logins, rotations and role changes do. *)

From S2P Require Import Prelude Paths Database Schemas AuthState Rotation RateLimit Authenticate ServiceTokens DeviceFlow.
From S2P Require Import AuthInstances Login LoginProvision Admin.
Local Open Scope Z_scope.
Local Open Scope flow_scope.

Module AdminSafety.
Import Rotation Authenticate Admin.

Inductive AdminOp :=
  | OListUsers (created : string → string) (org : option string)
  | OUpdateUser
  | OListOrgs (created : string → string)
  | OCreateOrg (id : string)
  | OUpdateOrg
  | OIssue (e : Env) (iss : string)
  | OListTokens (e : Env) (user org active : option string)
  | ORevokeToken (e : Env) (j : string).

Definition handle (o : AdminOp) (rq : AdminRequest) : Flow AResponse AResponse :=
  match o with
  | OListUsers created org => handleListUsers created rq org
  | OUpdateUser => handleUpdateUser rq
  | OListOrgs created => handleListOrgs created rq
  | OCreateOrg id => handleCreateOrg id rq
  | OUpdateOrg => handleUpdateOrg rq
  | OIssue e iss => handleIssueServiceToken e iss rq
  | OListTokens e u o a => handleListServiceTokens e rq u o a
  | ORevokeToken e j => handleRevokeServiceToken e rq j
  end.

Definition csrf_checked (o : AdminOp) : bool :=
  match o with OUpdateUser | OCreateOrg _ | OUpdateOrg => true | _ => false end.

(** ** Either nothing, or something with an entry in the log *)

Definition audited {O A} (m : Flow O A) : Prop :=
  ∀ s, (m s).2 = s ∨ ∃ ev, events (m s).2 = events s ++ [ev] ∧ ev_tier ev = 1.

Definition read {O A} (m : Flow O A) : Prop := ∀ s, (m s).2 = s.

Lemma look_bind {O A B} (m : Flow O A) (k : A → Flow O B) : read m → (∀ a, audited (k a)) → audited (fbind m k).
Proof.
  intros Hm Hk s. unfold fbind. specialize (Hm s). destruct (m s) as [[o|a] s']; simpl in *; subst; [by left|apply Hk].
Qed.

Lemma read_audited {O A} (m : Flow O A) : read m → audited m.
Proof. intros Hm s. left. apply Hm. Qed.

(** A statement on the tables followed by its entry. *)
Lemma write_audited {O A} f action d (k : Flow O A) :
  (∀ s, events (f s) = events s) → read k → audited (do* fmod f; do* AuthState.audit action 1 d; k).
Proof.
  intros Hf Hk s. right. unfold fbind, fmod, AuthState.audit. cbn. rewrite Hk. cbn. rewrite Hf. by eexists.
Qed.

Lemma read_valid {A} (r : Invalid + A) : read (valid r).
Proof. by destruct r. Qed.
Lemma read_valid_body r : read (valid_body r).
Proof. by destruct r. Qed.
Lemma read_body b : read (readJsonBody b).
Proof. by destruct b as [| | |[]]. Qed.
Lemma read_admin a : read (requireAdmin a).
Proof. destruct a as [c|]; [|done]. unfold requireAdmin. by destruct (decide _). Qed.
Lemma read_csrf rq : read (checkCsrf rq).
Proof. unfold checkCsrf. by destruct (DeviceFlow.verifyCsrfToken _ _). Qed.
Lemma read_parse_id p rq : read (parse_id p rq).
Proof. unfold parse_id. destruct (path_id _ _); [apply read_valid|done]. Qed.
Lemma look_gets {O A} (f : Auth → A) : read (O := O) (fgets f).
Proof. done. Qed.
Lemma look_ret {O A} (a : A) : read (O := O) (fret a).
Proof. done. Qed.
Lemma read_stop {O A} (o : O) : read (A := A) (fstop o).
Proof. done. Qed.
#[local] Hint Resolve read_valid read_valid_body read_body read_admin read_csrf read_parse_id look_gets look_ret read_stop
  read_audited : audits.

Ltac audits :=
  repeat match goal with
    | |- audited (fbind (fmod _) _) => apply write_audited; [intros ?; reflexivity|solve [auto with audits]]
    | |- audited (fbind _ _) => apply look_bind; [solve [auto with audits]|intros ?]
    | |- audited (match ?x with _ => _ end) => destruct x
    | |- audited _ => solve [auto with audits]
    end.

Lemma issue_audited e iss o :
  audited (let* t := lift (ServiceTokens.issueServiceToken e iss o) in
           do* AuthState.audit "auth.service_token.issued" 1 (Some (ServiceTokens.is_jti t));
           fret (AIssued t)).
Proof.
  intros s. unfold lift, ServiceTokens.issueServiceToken, fbind, fgets, fmod. cbn.
  repeat match goal with
    | |- context [if ?b then _ else _] => destruct b; cbn; [by left|]
    | |- context [match select_one ?P ?l with _ => _ end] => destruct (select_one P l); cbn; [|by left]
    end.
  right. by eexists.
Qed.

Lemma revoke_audited e j :
  audited (O := AResponse) (let* revoked := ServiceTokens.revokeServiceToken e j in
           if (revoked : bool) then do* AuthState.audit "auth.service_token.revoked" 1 (Some j); fret (ARevoked j)
           else fret (AError 404 "NOT_FOUND")).
Proof.
  intros s. unfold ServiceTokens.revokeServiceToken, fbind, fgets, fmod, fret. cbn.
  destruct (bool_decide _) eqn:Eb; cbn; [right; by eexists|left]. apply bool_decide_eq_false in Eb.
  rewrite update_where_none; [by destruct s|]. intros r Hr HP. apply Eb. unfold changes.
  assert (r ∈ filter (λ r, jti r = j ∧ ServiceTokens.service_family r ∧ revoked_at r = None) (refresh_tokens s)) as Hf
    by by apply list_elem_of_filter.
  destruct (filter _ (refresh_tokens s)); [by apply elem_of_nil in Hf|simpl; lia].
Qed.

Lemma handle_audited o rq : audited (handle o rq).
Proof.
  destruct o; cbn [handle].
  - unfold handleListUsers. apply look_bind; [auto with audits|intros _]. apply look_bind; [|auto with audits].
    destruct org as [x|]; [|done]. intros s. unfold fbind. pose proof (read_valid (validatePathParam x "org") s) as Hv.
    by destruct (valid _ s) as [[] ?].
  - unfold handleUpdateUser, update_role. audits.
  - unfold handleListOrgs. audits.
  - unfold handleCreateOrg. cbv zeta. audits.
  - unfold handleUpdateOrg, update_org. cbv zeta. audits.
  - unfold handleIssueServiceToken. apply look_bind; [auto with audits|]. intros c.
    audits; apply issue_audited.
  - unfold handleListServiceTokens. audits.
  - unfold handleRevokeServiceToken. apply look_bind; [auto with audits|]. intros _. apply revoke_audited.
Qed.

(** Who can make it change something. *)
Lemma handle_gated o rq s :
  (handle o rq s).2 ≠ s →
  (∃ c, r_auth rq = AuthOk c ∧ a_role c = "admin") ∧
  (csrf_checked o = true → DeviceFlow.verifyCsrfToken (r_csrf_cookie rq) (r_csrf_header rq) = true).
Proof.
  intros Hs. destruct (r_auth rq) as [c|] eqn:Ea; [|by destruct Hs; destruct o; cbn [handle];
    unfold handleListUsers, handleUpdateUser, handleListOrgs, handleCreateOrg, handleUpdateOrg,
      handleIssueServiceToken, handleListServiceTokens, handleRevokeServiceToken; rewrite Ea].
  destruct (decide (a_role c = "admin")) as [Hr|Hr].
  - split; [by exists c|]. intros Hc. destruct (DeviceFlow.verifyCsrfToken _ _) eqn:Ev; [done|].
    destruct Hs. destruct o; try discriminate Hc; cbn [handle];
      unfold handleUpdateUser, handleCreateOrg, handleUpdateOrg, requireAdmin, checkCsrf, fbind;
      rewrite Ea, decide_True, Ev by done; done.
  - destruct Hs. destruct o; cbn [handle];
      unfold handleListUsers, handleUpdateUser, handleListOrgs, handleCreateOrg, handleUpdateOrg,
        handleIssueServiceToken, handleListServiceTokens, handleRevokeServiceToken, requireAdmin, fbind;
      rewrite Ea, decide_False by done; done.
Qed.

(** [C9] The gate of administration. A request to any of the endpoints that changes
    anything was made by a caller whose role is administrator and, on the
    endpoints for organisations and users, with the token of the page in both the
    cookie and the header; and the change is in the audit log, as one entry of the
    first tier. Every other request, whatever its body, changes nothing. The
    INSERT into the audit log is taken not to fail, and the issue of a service
    token, which awaits a signature between its row and its entry, to be one
    step. *)
Theorem admin_gate o rq s r s' :
  arun (handle o rq) s = (r, s') → s' ≠ s →
  (∃ c, r_auth rq = AuthOk c ∧ a_role c = "admin") ∧
  (csrf_checked o = true → DeviceFlow.verifyCsrfToken (r_csrf_cookie rq) (r_csrf_header rq) = true) ∧
  (∃ ev, events s' = events s ++ [ev] ∧ ev_tier ev = 1).
Proof.
  intros Hr Hs. assert ((handle o rq s).2 = s') as E.
  { unfold arun in Hr. by destruct (handle o rq s) as [[] ?]; injection Hr as <- <-. }
  destruct (handle_gated o rq s) as [Ha Hc]; [by rewrite E|]. split_and!; [done..|].
  destruct (handle_audited o rq s) as [Hn|Hev]; rewrite E in *; done.
Qed.

(** ** Roles *)

Definition ids_roles (s : Auth) : list (string * string) := (λ u, (u_id u, u_role u)) <$> users s.

(** The primary key, and an administrator. *)
Definition governed (s : Auth) : Prop := NoDup (ids_roles s).*1 ∧ "admin" ∈ (ids_roles s).*2.

Definition keeps_roles {O A} (m : Flow O A) : Prop := ∀ s, ids_roles (m s).2 = ids_roles s.

Lemma roles_bind {O A B} (m : Flow O A) (k : A → Flow O B) :
  keeps_roles m → (∀ a, keeps_roles (k a)) → keeps_roles (fbind m k).
Proof.
  intros Hm Hk s. unfold fbind. specialize (Hm s). destruct (m s) as [[o|a] s']; simpl in *; [done|].
  by rewrite Hk.
Qed.

Lemma roles_mod {O} f : (∀ s, ids_roles (f s) = ids_roles s) → keeps_roles (O := O) (fmod f).
Proof. intros Hf s. apply Hf. Qed.

(** An update of a column that is neither. *)
Lemma roles_update P `{!∀ u, Decision (P u)} f s :
  (∀ u, u_id (f u) = u_id u ∧ u_role (f u) = u_role u) →
  ids_roles (with_users (update_where P f (users s)) s) = ids_roles s.
Proof.
  intros Hf. unfold ids_roles. cbn [users with_users]. apply fmap_update_where.
  intros u _ _. by destruct (Hf u) as [-> ->].
Qed.

Ltac roles :=
  repeat match goal with
    | |- keeps_roles (fbind _ _) => apply roles_bind; [|intros ?]
    | |- keeps_roles (fmod _) => apply roles_mod; intros ?; first [reflexivity|by apply roles_update]
    | |- keeps_roles (let '_ := ?x in _) => destruct x
    | |- keeps_roles (match ?x with _ => _ end) => destruct x
    | |- keeps_roles (fwhen ?b _) => destruct b; unfold fwhen
    | |- keeps_roles _ => reflexivity || (intros ?; reflexivity)
    end.

Section rotation.
Context `{Jose, Encryption} (c : Ctx).

Lemma roles_begin e body fp : keeps_roles (begin c e body fp).
Proof.
  unfold begin, extractRefreshToken, verifyAndValidateClaims, checkNotServiceAccount, checkTokenEpoch, selectRefreshRow,
    checkIdleTimeout, refreshIdpMembershipAndAllowlist, decrypt_tokens, idp_rejected, oauth_error, revoke_row,
    bumpTokenEpoch, publishBump, AuthState.audit. cbv zeta. roles.
Qed.

Lemma roles_resume e p r : keeps_roles (resume c e p r).
Proof.
  destruct p, r; cbn [resume]; unfold handleReuseBranch, rotateRefreshToken, revokeFamilyForReuse, revoke_row,
    recheck_memberships, recheck_failed, store_idp_tokens, idp_rejected, oauth_error, AuthState.audit,
    insert_refresh; cbv zeta; roles.
Qed.

Lemma roles_run_seg (m : Flow Outcome Outcome) s : keeps_roles m → ids_roles (run_seg m s).2 = ids_roles s.
Proof. intros Hm. specialize (Hm s). unfold run_seg. by destruct (m s) as [[]]. Qed.
End rotation.

(** ** Preserving an administrator *)

Definition preserves {O A} (m : Flow O A) : Prop := ∀ s, governed s → governed (m s).2.

Lemma keeps_preserves {O A} (m : Flow O A) : keeps_roles m → preserves m.
Proof. intros Hm s Hg. unfold governed. by rewrite Hm. Qed.

Lemma preserves_bind {O A B} (m : Flow O A) (k : A → Flow O B) :
  keeps_roles m → (∀ a, preserves (k a)) → preserves (fbind m k).
Proof.
  intros Hm Hk s Hg. unfold fbind. pose proof (keeps_preserves m Hm s Hg) as Hg'.
  destruct (m s) as [[o|a] s']; simpl in *; [done|]. by apply Hk.
Qed.

Lemma governed_iff s : governed s ↔ NoDup (u_id <$> users s) ∧ ∃ a, a ∈ users s ∧ u_role a = "admin".
Proof.
  unfold governed, ids_roles. rewrite <- !list_fmap_compose.
  change (fst ∘ (λ u : UserRow, (u_id u, u_role u))) with u_id.
  change (snd ∘ (λ u : UserRow, (u_id u, u_role u))) with u_role. rewrite list_elem_of_fmap. naive_solver.
Qed.

(** Two administrators at least: one of them is somebody else. *)
Lemma another_admin l u :
  NoDup (u_id <$> l) → u ∈ l → u_role u = "admin" → count_admins l ≠ 1%nat →
  ∃ a, a ∈ l ∧ u_role a = "admin" ∧ u_id a ≠ u_id u.
Proof.
  intros Hnd Hu Hr Hn. unfold count_admins, changes in Hn.
  assert (u ∈ filter Login.is_admin l) as Hf by by apply list_elem_of_filter.
  destruct (filter Login.is_admin l) as [|x [|y k]] eqn:E; [by apply elem_of_nil in Hf|done|].
  assert (∀ z, z ∈ x :: y :: k → z ∈ l ∧ u_role z = "admin") as Hin.
  { intros z. rewrite <- E. rewrite list_elem_of_filter. naive_solver. }
  assert (NoDup (u_id <$> x :: y :: k)) as Hnd'.
  { rewrite <- E. eapply sublist_NoDup; [exact Hnd|]. apply fmap_sublist, sublist_filter. }
  apply NoDup_cons in Hnd' as [Hxy _]. destruct (decide (u_id x = u_id u)) as [Ex|Ex].
  - exists y. destruct (Hin y) as [? ?]; [set_solver|]. split_and!; [done..|]. rewrite <- Ex. set_solver.
  - exists x. destruct (Hin x) as [? ?]; [set_solver|]. done.
Qed.

Lemma update_role_preserves userId newRole : preserves (update_role userId newRole).
Proof.
  intros s Hg. unfold update_role, fbind, fgets. destruct (select_one _ (users s)) as [u|] eqn:Eu; [|done].
  apply select_one_Some in Eu as [<- Hu]. destruct (decide (u_role u = "agent" ∨ _)); [done|].
  destruct (decide (u_role u = newRole)) as [|Hne]; [done|]. destruct (decide (_ ∧ _ ∧ _)) as [|Hlast]; [done|].
  apply governed_iff in Hg as (Hnd & a & Ha & Hra). apply governed_iff. cbn [fmod users with_users with_events AuthState.audit fret snd].
  split; [by rewrite fmap_update_where|].
  assert (∀ b, b ∈ users s → u_role b = "admin" → u_id b ≠ u_id u →
    ∃ a, a ∈ update_where (λ x, u_id x = u_id u) (set_role newRole) (users s) ∧ u_role a = "admin") as Hother.
  { intros b Hb Hr Hd. exists b. split; [|done]. apply elem_of_update_where. exists b. by rewrite decide_False. }
  destruct (decide (newRole = "admin")) as [->|Hm].
  { exists (set_role "admin" u). split; [|done]. apply elem_of_update_where. exists u. by rewrite decide_True. }
  destruct (decide (u_role u = "admin")) as [Hadm|Hadm].
  - destruct (another_admin (users s) u) as (b & ? & ? & ?); [done..| |by apply (Hother b)].
    intros Hc. by apply Hlast.
  - apply (Hother a); [done..|]. intros E. apply Hadm. by rewrite <- (NoDup_key_eq u_id _ _ _ Hnd Ha Hu E).
Qed.

Lemma issue_roles e iss o : keeps_roles (lift (ServiceTokens.issueServiceToken e iss o)).
Proof.
  intros s. unfold lift, ServiceTokens.issueServiceToken, fbind, fgets, fmod. cbn.
  repeat match goal with
    | |- context [if ?b then _ else _] => destruct b; cbn; [done|]
    | |- context [match select_one ?P ?l with _ => _ end] => destruct (select_one P l); cbn; [|done]
    end. done.
Qed.

Lemma valid_roles {A} (r : Invalid + A) : keeps_roles (valid r).
Proof. by destruct r. Qed.

Lemma handle_preserves o rq : preserves (handle o rq).
Proof.
  destruct o; cbn [handle]; try solve [apply keeps_preserves;
    unfold handleListUsers, handleListOrgs, handleCreateOrg, handleUpdateOrg, update_org, handleIssueServiceToken,
      handleListServiceTokens, handleRevokeServiceToken, ServiceTokens.revokeServiceToken, requireAdmin, checkCsrf,
      readJsonBody, valid_body, parse_id, AuthState.audit; cbv zeta; roles; solve [apply valid_roles|apply issue_roles]].
  unfold handleUpdateUser.
  repeat match goal with
    | |- preserves (update_role _ _) => apply update_role_preserves
    | |- preserves (fbind _ _) => apply preserves_bind; [|intros ?]
    end; unfold requireAdmin, checkCsrf, readJsonBody, valid_body, parse_id; roles; apply valid_roles.
Qed.

(** ** Everything that writes to the accounts *)

Section steps.
Context `{Login.Crypto, Encryption, Jose} (c : Ctx).

(** The administration API, logins of either way in, refreshes and logouts, with
    whatever replies: one segment each, so that they interleave. *)
Inductive astep : relation Auth :=
  | AAdmin o rq s : astep s (arun (handle o rq) s).2
  | ALogin e p r s : astep s (Login.lrun (Login.lresume c e p r) s).2
  | ARefreshBegin e body fp s : astep s (run_seg (begin c e body fp) s).2
  | ARefresh e p r s : astep s (run_seg (resume c e p r) s).2
  | ALogout e ca s : astep s (run_seg (handleLogout e ca) s).2
  | ALogoutAll e ca s : astep s (run_seg (handleLogoutAll e ca) s).2
  | ARevoke e ca j s : astep s (run_seg (handleRevoke e ca j) s).2.

Lemma governed_same (s s' : Auth) : ids_roles s' = ids_roles s → governed s → governed s'.
Proof. unfold governed. by intros ->. Qed.

(** Accounts kept, and one added under an identifier of its own. *)
Lemma governed_accounts e s s' v ev : LoginProvision.accounts e s s' v ev → governed s → governed s'.
Proof.
  intros (l1 & l2 & E & Hs & Hn) (Hnd & a & Ha & Hr)%governed_iff. apply governed_iff. rewrite E.
  assert (u_id <$> l1 = u_id <$> users s) as Eid.
  { clear -Hs. induction Hs as [|u u' l l' Hu _ IH]; [done|]. destruct Hu as [Hu _]. cbn. by f_equal. }
  split.
  - rewrite fmap_app, Eid. apply NoDup_app. split_and!; [done|..].
    + destruct Hn as [->|(u & -> & Hu & _)]; [set_solver|]. intros x Hx. cbn. set_solver.
    + destruct Hn as [->|(u & -> & _)]; [apply NoDup_nil_2|apply NoDup_singleton].
  - apply list_elem_of_lookup in Ha as [i Hi].
    destruct (Forall2_lookup_l _ _ _ _ _ Hs Hi) as (a' & Ha'%list_elem_of_lookup_2 & Hs'). exists a'. split; [apply elem_of_app; by left|].
    destruct Hs' as (_ & _ & _ & _ & _ & _ & -> & _). done.
Qed.

Lemma astep_governed s s' : astep s s' → governed s → governed s'.
Proof.
  assert (∀ m s, keeps_roles m → governed s → governed (run_seg m s).2) as Hrun.
  { intros m s0 Hm. by apply governed_same, roles_run_seg. }
  destruct 1 as [o rq s|e p r s|e body fp s|e p r s|e ca s|e ca s|e ca j s].
  - intros Hg. unfold arun. pose proof (handle_preserves o rq s Hg) as Hp. by destruct (handle o rq s) as [[]].
  - destruct (Login.lrun _ s) as [out s'] eqn:E. destruct (LoginProvision.visit_of p) as [v|] eqn:Ev.
    + destruct (LoginProvision.visit_accounts c e p r v s out s' Ev E) as [Ha _]. exact (governed_accounts _ _ _ _ _ Ha).
    + apply governed_same. unfold ids_roles. cbn. by rewrite (LoginProvision.other_segments c e p r s out s' Ev E).
  - apply Hrun, roles_begin.
  - apply Hrun, roles_resume.
  - apply Hrun. unfold handleLogout, AuthState.audit. roles.
  - apply Hrun. unfold handleLogoutAll, bumpTokenEpoch, publishBump, AuthState.audit. roles.
  - apply Hrun. unfold handleRevoke, revoke_row, AuthState.audit. cbv zeta. roles.
Qed.
End steps.

(** [C10] There is always an administrator. Once the table of accounts has one,
    it has one after any interleaving of administration requests, logins,
    refreshes and logouts, whoever makes them: no sequence of demotions, each
    administrator demoting another included, removes the last. *)
Theorem an_admin_remains `{Login.Crypto, Encryption, Jose} c s s' :
  rtc (astep c) s s' → NoDup (u_id <$> users s) →
  (∃ a, a ∈ users s ∧ u_role a = "admin") → ∃ a, a ∈ users s' ∧ u_role a = "admin".
Proof.
  intros Hr Hnd Ha. assert (governed s') as Hg%governed_iff; [|tauto].
  assert (governed s) as Hg by by apply governed_iff. clear Hnd Ha. induction Hr as [|x y z Hs _ IH]; [done|].
  by apply IH, (astep_governed c x).
Qed.

(** ** Two administrators who demote each other *)

Definition account (id role : string) : UserRow :=
  mkUser id "acme" (id +:+ "@example.org") None "github" id None None role None 0.
Definition no_crypto : Login.Crypto := {| Login.hmac k m := m; Login.sha256 t := t; Login.computeChallenge t := t |}.
Definition no_ctx : Ctx := mkCtx "https://c" (mkRegistry "k" None) (λ _, None).
Definition two_admins : Auth :=
  mkAuth [] [account "ada" "admin"; account "bob" "admin"] [] [] [] [] (mkFloor 0 ∅) [] [].

Definition demote (who target : string) : AdminRequest :=
  mkAdminRequest (AuthOk (mkAuthClaims who who "acme" "admin" "j" None None false None)) (Some "t") (Some "t")
    ("/api/admin/users/" +:+ target) (BJson (Schemas.VObj [("role", Schemas.VStr "member")])).

Lemma admin_gate_witness :
  ∃ s', arun (handle OUpdateUser (demote "ada" "bob")) two_admins = (AUser "bob" "member", s') ∧
    ∃ ev, events s' = [ev] ∧ ev_tier ev = 1.
Proof.
  eexists. split; [vm_compute; reflexivity|].
  refine (proj2 (proj2 (admin_gate OUpdateUser (demote "ada" "bob") two_admins (AUser "bob" "member") _ _ _))).
  - vm_compute. reflexivity.
  - discriminate.
Defined.

(** Ada demotes Bob, and Bob, whose token still says so, cannot demote her. *)
Lemma an_admin_remains_witness :
  ∃ s1 s2, arun (handle OUpdateUser (demote "ada" "bob")) two_admins = (AUser "bob" "member", s1) ∧
    arun (handle OUpdateUser (demote "bob" "ada")) s1 = (AError 409 "LAST_ADMIN", s2) ∧
    ∃ a, a ∈ users s2 ∧ u_role a = "admin".
Proof.
  exists (arun (handle OUpdateUser (demote "ada" "bob")) two_admins).2,
    (arun (handle OUpdateUser (demote "bob" "ada")) (arun (handle OUpdateUser (demote "ada" "bob")) two_admins).2).2.
  split; [vm_compute; reflexivity|]. split; [vm_compute; reflexivity|].
  apply (@an_admin_remains no_crypto AuthInstances.passthrough AuthInstances.toy_jose no_ctx two_admins).
  - eapply rtc_l; [apply AAdmin|]. eapply rtc_l; [apply AAdmin|]. apply rtc_refl.
  - vm_compute. repeat constructor; set_solver.
  - exists (account "ada" "admin"). split; [left|reflexivity].
Defined.

End AdminSafety.
