(* ===== verification/MasterKey.v ===== *)
(** * The master key ([src/security/master-key.ts])

    The key of the envelope as an operator gives it: in hexadecimal, base64 or
    base64url, of thirty-two bytes, and not one that only looks like a key. *)

From S2P Require Import Prelude Paths Announce Rotation Envelope.
Local Open Scope Z_scope.

Module MasterKey.
Import Envelope.

(** ** The three alphabets *)

Definition hex_value (a : ascii) : option Z :=
  let n := Paths.code a in
  if bool_decide (48 ≤ n ∧ n ≤ 57) then Some (n - 48)
  else if bool_decide (65 ≤ n ∧ n ≤ 70) then Some (n - 55)
  else if bool_decide (97 ≤ n ∧ n ≤ 102) then Some (n - 87)
  else None.

(** [Buffer.from(s, "hex")]: it stops at the first pair that is not one. *)
Fixpoint of_hex (s : Buffer) : Buffer :=
  match s with
  | a :: b :: s =>
      match hex_value a, hex_value b with
      | Some x, Some y => Paths.char (16 * x + y) :: of_hex s
      | _, _ => []
      end
  | _ => []
  end.

(** [[A-Za-z0-9]] *)
Definition alnum (a : ascii) : bool :=
  let n := Paths.code a in
  bool_decide ((65 ≤ n ∧ n ≤ 90) ∨ (97 ≤ n ∧ n ≤ 122) ∨ (48 ≤ n ∧ n ≤ 57)).

Definition b64_std (a : ascii) : bool := alnum a || Ascii.eqb a "+" || Ascii.eqb a "/".
Definition b64_url (a : ascii) : bool := alnum a || Ascii.eqb a "_" || Ascii.eqb a "-".

Definition isHex (s : Buffer) : bool :=
  bool_decide (length s = 64%nat) && forallb (λ a, bool_decide (hex_value a ≠ None)) s.

(** The longest prefix of characters of the class, and what is left. *)
Fixpoint span (P : ascii → bool) (s : Buffer) : nat * Buffer :=
  match s with
  | a :: r => if P a then let '(n, q) := span P r in (S n, q) else (O, s)
  | [] => (O, [])
  end.

(** [/^[A-Za-z0-9+/]{42,44}={0,2}$/] *)
Definition isB64 (s : Buffer) : bool :=
  let '(n, r) := span b64_std s in
  bool_decide (42 ≤ n ≤ 44)%nat && bool_decide (length r ≤ 2)%nat && forallb (λ a, Ascii.eqb a "=") r.

Definition isB64u (s : Buffer) : bool := bool_decide (length s = 43%nat) && forallb b64_url s.

(** ** Weak keys *)

Definition byte (key : Buffer) (i : nat) : Z := default 0 (Paths.code <$> key !! i).

(** The step between two bytes, modulo 256. *)
Fixpoint arithmetic (step prev : Z) (key : list Z) : bool :=
  match key with
  | [] => true
  | b :: key => bool_decide ((b - prev + 256) mod 256 = step) && arithmetic step b key
  end.

Inductive WeakKey := IdenticalBytes | ArithmeticProgression | LowAlphabet.

Definition minDistinct (n : nat) : Z := Z.max 4 ((Z.of_nat n * 3 + 7) / 8).

Definition detectWeakKeyPattern (key : Buffer) : option WeakKey :=
  if forallb (λ b, bool_decide (Paths.code b = byte key 0)) key then Some IdenticalBytes
  else if arithmetic ((byte key 1 - byte key 0 + 256) mod 256) (byte key 0) (Paths.code <$> tail key)
  then Some ArithmeticProgression
  else if bool_decide (Z.of_nat (length (remove_dups key)) < minDistinct (length key)) then Some LowAlphabet
  else None.

Definition freq (key : Buffer) (b : ascii) : nat := length (filter (λ a, a = b) key).

(** The product of [c ^ c] over the counts of the bytes that occur. *)
Definition count_power (key : Buffer) : Z :=
  fold_right (λ b acc, Z.of_nat (freq key b) ^ Z.of_nat (freq key b) * acc) 1 (remove_dups key).

(** [shannonEntropyBitsPerByte(key) < 3.0], for a key of thirty-two bytes: the
    entropy is [5 - log2 (count_power key) / 32], so the test is one on integers. *)
Definition low_entropy (key : Buffer) : bool := bool_decide (2 ^ 64 < count_power key).

Inductive KeyError := UnrecognizedFormat | WrongLength | Weak (w : WeakKey) | LowEntropy.

(** The warning for a passphrase is a log line. *)
Definition decodeMasterKey (rawValue : string) : KeyError + Buffer :=
  let trimmed := bytes (PlanQuality.trim rawValue) in
  let decoded :=
    if isHex trimmed then Some (of_hex trimmed)
    else if isB64 trimmed || isB64u trimmed then Some (of_base64url trimmed) else None in
  match decoded with
  | None => inl UnrecognizedFormat
  | Some key =>
      if negb (bool_decide (length key = 32%nat)) then inl WrongLength
      else match detectWeakKeyPattern key with
           | Some w => inl (Weak w)
           | None => if low_entropy key then inl LowEntropy else inr key
           end
  end.

(** [hmac] is HMAC-SHA256 in hexadecimal; the first sixteen digits. *)
Definition computeKeyFingerprint (hmac : string → string → string) (masterKey : Buffer) : string :=
  String.substring 0 16 (hmac "mcc-fingerprint-v1" (text masterKey)).

(** ** Keys are read back *)

Definition strong (key : Buffer) : Prop :=
  length key = 32%nat ∧ detectWeakKeyPattern key = None ∧ low_entropy key = false.

(** A printable character is no space, and none of the first bytes of one. *)
Definition printable (a : ascii) : Prop := 33 ≤ Paths.code a ≤ 126.

Lemma space_bytes_printable a s : printable a → PlanQuality.space_bytes (String a s) = O.
Proof.
  unfold printable. intros Ha. cbn [PlanQuality.space_bytes]. rewrite decide_False by lia.
  destruct s as [|b [|c s]]; [done|..]; rewrite decide_False by lia; [done|]. by rewrite decide_False by lia.
Qed.

Lemma trim_printable b : Forall printable b → PlanQuality.trim (text b) = text b.
Proof.
  intros Hb. unfold PlanQuality.trim. assert (PlanQuality.trim_start 0 (text b) = text b) as ->.
  { destruct Hb as [|a b Ha _]; [done|]. cbn [text String.string_of_list_ascii PlanQuality.trim_start].
    by rewrite space_bytes_printable. }
  induction Hb as [|a b Ha _ IH]; [done|].
  cbn [text String.string_of_list_ascii PlanQuality.trim_end PlanQuality.count_words].
  rewrite space_bytes_printable by done. cbv iota. rewrite decide_False by lia. unfold text in IH. by rewrite IH.
Qed.

Lemma b64_char_printable x : printable (b64_char x).
Proof. destruct x as [[[[[[] []] []] []] []] []]; vm_compute; by split. Qed.

Lemma b64_char_url x : b64_url (b64_char x) = true.
Proof. destruct x as [[[[[[] []] []] []] []] []]; reflexivity. Qed.

(** Every character of an encoding is that of a sextet, and there are four for
    three bytes. *)
Lemma to_base64url_chars b :
  Forall (λ a, ∃ x, a = b64_char x) (to_base64url b) ∧ (3 * length (to_base64url b) ≤ 4 * length b + 2)%nat ∧
  (4 * length b ≤ 3 * length (to_base64url b))%nat.
Proof.
  remember (length b) as n eqn:E. revert b E. induction n as [n IH] using (well_founded_induction Wf_nat.lt_wf).
  intros b ->. destruct b as [|[] [|[] [|[] r]]]; cbn [to_base64url];
    [split; [constructor|simpl; lia]|split; [repeat constructor; eauto|simpl; lia]..|].
  destruct (IH (length r)) with r as (Hf & H1 & H2); [simpl; lia|done|].
  split; [repeat constructor; eauto|simpl; lia].
Qed.

(** [C39] A key in base64url is read as it was written: every key of thirty-two bytes that
    passes the tests for weak keys is recovered from its encoding, and whatever is
    accepted has passed them. *)
Theorem master_key_read raw key :
  (strong key → decodeMasterKey (text (to_base64url key)) = inr key) ∧
  (decodeMasterKey raw = inr key → strong key).
Proof.
  split.
  - intros (Hl & Hw & He). destruct (to_base64url_chars key) as (Hf & H1 & H2). rewrite Hl in H1, H2.
    assert (length (to_base64url key) = 43%nat) as Hlen by lia.
    unfold decodeMasterKey. rewrite trim_printable.
    2: { eapply Forall_impl; [exact Hf|]. intros a [x ->]. apply b64_char_printable. }
    rewrite bytes_text. unfold isHex. rewrite Hlen, bool_decide_eq_false_2 by done. cbn [andb].
    assert (isB64u (to_base64url key) = true) as ->.
    { unfold isB64u. rewrite bool_decide_eq_true_2 by done. apply forallb_forall. intros a Ha.
      rewrite Forall_forall in Hf. destruct (Hf a) as [x ->]; [by apply list_elem_of_In|]. apply b64_char_url. }
    rewrite orb_true_r, of_to_base64url, Hl. cbn [bool_decide negb]. by rewrite bool_decide_eq_true_2, Hw, He.
  - unfold decodeMasterKey. destruct (if isHex _ then _ else _) as [k|]; [|done].
    destruct (bool_decide (length k = 32%nat)) eqn:El; [|done]. apply bool_decide_eq_true in El. cbn [negb].
    destruct (detectWeakKeyPattern k) eqn:Ew; [done|]. destruct (low_entropy k) eqn:Ee; [done|]. by intros [= <-].
Qed.

(** The bytes 1, 3, 9, 27, ... of the powers of three, modulo 257. *)
Definition demo_key : Buffer := (λ i, Paths.char (3 ^ Z.of_nat i mod 257)) <$> seq 0 32.

Lemma master_key_read_witness : strong demo_key ∧ decodeMasterKey (text (to_base64url demo_key)) = inr demo_key.
Proof.
  assert (strong demo_key) as Hs by (split; [|split]; vm_compute; reflexivity).
  split; [exact Hs|]. exact (proj1 (master_key_read "" demo_key) Hs).
Defined.

End MasterKey.
