(* ===== verification/EncryptionBoot.v ===== *)
(** * Starting with encrypted tokens ([src/boot-encryption.ts])

    At every start the server compares the key it was given with the fingerprint
    in the database, seals the tokens it still finds in the clear, and wraps the
    provider so that the first token it seals records the fingerprint. *)

From S2P Require Import Prelude Paths AuthState Rotation Envelope MasterKey.
Local Open Scope Z_scope.

Module EncryptionBoot.
Import Rotation Envelope.

(** The table [users], the row of [system_config], the table of invalidated
    tokens (user, column, ciphertext) and the audit log. *)
Record Store := mkStore {
  s_users : list UserRow;
  s_fp : option string;
  s_stash : list (string * string * string);
  s_events : list AuditEvent
}.

Definition with_tokens (us : list UserRow) (s : Store) : Store := mkStore us (s_fp s) (s_stash s) (s_events s).
Definition with_fp (f : option string) (s : Store) : Store := mkStore (s_users s) f (s_stash s) (s_events s).
Definition log (action : string) (d : option string) (s : Store) : Store :=
  mkStore (s_users s) (s_fp s) (s_stash s) (s_events s ++ [mkEvent action 1 d]).

(** [INSERT OR IGNORE INTO system_config] *)
Definition ensure_fp (f : string) (s : Store) : Store :=
  with_fp (match s_fp s with Some g => Some g | None => Some f end) s.

(** [GLOB 'enc:v[0-9]*:*'] *)
Definition glob_enc (v : string) : bool :=
  match strip "enc:v" v with
  | Some (String a r) => is_digit a && has_char ":" r
  | _ => false
  end.

Definition sealed_value (v : option string) : bool := match v with Some v => glob_enc v | None => false end.

(** A column that holds something that does not look sealed. *)
Definition plain (v : option string) : option string :=
  match v with Some t => if glob_enc t then None else Some t | None => None end.

Definition ACCESS : string := "idp_access_token".
Definition REFRESH : string := "idp_refresh_token".

Definition set_access (v : option string) (u : UserRow) : UserRow := set_idp_tokens v (idp_refresh_token u) u.
Definition set_refresh (v : option string) (u : UserRow) : UserRow := set_idp_tokens (idp_access_token u) v u.

Section boot.
Context `{Aead} (fingerprint : Buffer → string).

(** ** [migratePlaintextIdpTokens] *)

(** The random bytes of each call, by user and column. *)
Notation Drawing := (string → string → Draws).

(** One column of one row, if it is in the clear; [None] is an exception. *)
Definition seal_column (key : Buffer) (dr : Drawing) (r : UserRow) (column : string) (v : option string)
    (set : option string → UserRow → UserRow) (us : list UserRow) : option (list UserRow) :=
  match plain v with
  | None => Some us
  | Some t =>
      c ← encrypt key (dr (u_id r) column) t (mkEnc (primary_org_id r) column (u_id r));
      Some (update_where (λ u, u_id u = u_id r) (set (Some c)) us)
  end.

Fixpoint seal_rows (key : Buffer) (dr : Drawing) (rows us : list UserRow) : option (list UserRow) :=
  match rows with
  | [] => Some us
  | r :: rows =>
      us ← seal_column key dr r ACCESS (idp_access_token r) set_access us;
      us ← seal_column key dr r REFRESH (idp_refresh_token r) set_refresh us;
      seal_rows key dr rows us
  end.

(** A transaction: nothing is written when it throws. *)
Definition migratePlaintextIdpTokens (key : Buffer) (dr : Drawing) (s : Store) : option Store :=
  match filter (λ u, plain (idp_access_token u) ≠ None ∨ plain (idp_refresh_token u) ≠ None) (s_users s) with
  | [] => Some s
  | rows => us ← seal_rows key dr rows (s_users s); Some (ensure_fp (fingerprint key) (with_tokens us s))
  end.

(** ** [runEncryptionGuards] *)

Inductive BootError := EncryptedWithoutKey | ConfirmationMismatch | KeyMismatch | BootThrew.

(** The key of the raw provider ([None] is the passthrough), and
    [fingerprintAlreadyPersisted]. *)
Record Init := mkInit { i_key : option Buffer; i_persisted : bool }.

Definition has_sealed (u : UserRow) : Prop :=
  sealed_value (idp_access_token u) = true ∨ sealed_value (idp_refresh_token u) = true.
#[global] Instance has_sealed_dec u : Decision (has_sealed u).
Proof. unfold has_sealed. apply _. Defined.

Definition expectedConfirm (n : nat) : string := "I_UNDERSTAND_THIS_NULLS_" +:+ pretty n +:+ "_ROWS".

Definition stash_column (id column : string) (v : option string) : list (string * string * string) :=
  match truthy v with
  | Some c => if startsWith "enc:v" c then [(id, column, c)] else []
  | None => []
  end.

Definition invalidate (s : Store) (r : UserRow) : Store :=
  log "encryption.token.invalidated" (Some (u_id r))
    (mkStore (update_where (λ u, u_id u = u_id r) (set_idp_tokens None None) (s_users s)) (s_fp s)
       (s_stash s ++ stash_column (u_id r) ACCESS (idp_access_token r) ++ stash_column (u_id r) REFRESH (idp_refresh_token r))
       (s_events s)).

(** Migrate, and the result if it does not throw. *)
Definition finish (key : Buffer) (dr : Drawing) (persisted : bool) (s : Store) : (BootError + Init) * Store :=
  match migratePlaintextIdpTokens key dr s with
  | None => (inl BootThrew, s)
  | Some s' => (inr (mkInit (Some key) persisted), s')
  end.

Definition runEncryptionGuards (env : string → option string) (key : option Buffer) (dr : Drawing) (s : Store)
    : (BootError + Init) * Store :=
  let sealed_rows := filter has_sealed (s_users s) in
  match key with
  | None =>
      match sealed_rows with
      | [] => (inr (mkInit None false), s)
      | rows =>
          if negb (bool_decide (env "COORDINATOR_ALLOW_TOKEN_LOSS" = Some "1")) then (inl EncryptedWithoutKey, s)
          else if negb (bool_decide (env "COORDINATOR_TOKEN_LOSS_CONFIRM" = Some (expectedConfirm (length rows))))
          then (inl ConfirmationMismatch, s)
          else (inr (mkInit None false), fold_left invalidate rows s)
      end
  | Some k =>
      match truthy (s_fp s) with
      | Some f =>
          if decide (f ≠ fingerprint k) then
            if negb (bool_decide (env "COORDINATOR_ALLOW_KEY_ROTATION" = Some "1")) then (inl KeyMismatch, s)
            else finish k dr false (with_fp None (log "encryption.key.rotation_begin" (Some f) s))
          else finish k dr true s
      | None =>
          match sealed_rows with
          | [] => finish k dr false s
          | _ =>
              (** The insert fails on a row with an empty value. *)
              if decide (s_fp s = None) then finish k dr true (with_fp (Some (fingerprint k)) s) else (inl BootThrew, s)
          end
      end
  end.

(** ** [buildWrappedProvider] *)

(** The provider of a running server: its key, and the variable of the closure. *)
Record Process := mkProcess { p_key : option Buffer; p_persisted : bool }.

Definition buildWrappedProvider (i : Init) : Process := mkProcess (i_key i) (i_persisted i).

Definition wrapped_encrypt (d : Draws) (t : string) (c : EncryptionContext) (p : Process) (s : Store)
    : option (string * Process * Store) :=
  match p_key p with
  | None => Some (t, p, s)
  | Some k =>
      ct ← encrypt k d t c;
      if p_persisted p then Some (ct, p, s)
      else Some (ct, mkProcess (Some k) true,
                 log "encryption.config.loaded" (Some (fingerprint k)) (ensure_fp (fingerprint k) s))
  end.

Definition wrapped_decrypt (p : Process) (v : string) (c : EncryptionContext) : DecryptionError + string :=
  match p_key p with None => inr v | Some k => decrypt k v c end.

(** [encryptNullable] over the wrapped provider. *)
Definition wrapped_nullable (d : Draws) (t : option string) (c : EncryptionContext) (p : Process) (s : Store)
    : option (option string * Process * Store) :=
  match truthy t with
  | None => Some (None, p, s)
  | Some t => '(v, p, s) ← wrapped_encrypt d t c p s; Some (Some v, p, s)
  end.

(** The two tokens of an account, sealed for the organisation [org], as
    [provisionUser] and the refresh grant do. *)
Definition seal_tokens (da dr : Draws) (id org : string) (access refresh : option string) (p : Process) (s : Store)
    : option (option string * option string * Process * Store) :=
  '(a, p, s) ← wrapped_nullable da access (mkEnc org ACCESS id) p s;
  '(r, p, s) ← wrapped_nullable dr refresh (mkEnc org REFRESH id) p s;
  Some (a, r, p, s).

End boot.
End EncryptionBoot.
