(* ===== verification/EncryptionSafety.v ===== *)
(** * No token is orphaned, and how one can be *)

From S2P Require Import Prelude Paths AuthState Rotation Envelope EnvelopeSafety MasterKey EncryptionBoot.
Local Open Scope Z_scope.

Module EncryptionSafety.
Import Rotation Envelope EnvelopeSafety EncryptionBoot.

(** The two columns of a row. *)
Definition columns (u : UserRow) : list (string * string) :=
  option_list ((pair ACCESS) <$> idp_access_token u) ++ option_list ((pair REFRESH) <$> idp_refresh_token u).

(** What is stored, by user and column. *)
Definition cells (us : list UserRow) : list (string * string * string) :=
  us ≫= λ u, (λ cv, (u_id u, cv.1, cv.2)) <$> columns u.

(** The history: the token last given for a user and a column, with the organisation it
    was given for; the organisation of each account ([primary_org_id]); and the keys
    the server was started with. *)
Record History := mkHistory {
  written : gmap (string * string) (string * string); homes : gmap string string; keys : list Buffer }.

Record Sys := mkSys { sy_store : Store; sy_process : option Process; history : History }.

Definition note (id column org : string) (t : option string) (g : History) : History :=
  match truthy t with
  | Some t => mkHistory (<[(id, column) := (org, t)]> (written g)) (homes g) (keys g)
  | None => g
  end.

Definition settle (id org : string) (g : History) : History := mkHistory (written g) (<[id := org]> (homes g)) (keys g).

Definition use_key (key : option Buffer) (g : History) : History :=
  mkHistory (written g) (homes g) (option_list key ++ keys g).

(** The provider never gives a token that looks like a ciphertext. *)
Definition opaque_token (t : option string) : Prop := sealed_value t = false.

Section system.
Context `{AeadLaws} (fingerprint : Buffer → string).

(** Sixteen hexadecimal digits. *)
Hypothesis fingerprint_nonempty : ∀ k, fingerprint k ≠ "".

(** Starts with any key and environment, crashes at any time, and the writes of the
    authentication: a refresh seals for the organisation of the account, a login for
    the one whose allowlist let it in. *)
Inductive step : relation Sys :=
  | SBoot env key dr r s' sy :
      env "COORDINATOR_ALLOW_KEY_ROTATION" ≠ Some "1" → (∀ id col, drawn (dr id col)) →
      runEncryptionGuards fingerprint env key dr (sy_store sy) = (r, s') →
      step sy (mkSys s' (match r with inr i => Some (buildWrappedProvider i) | inl _ => None end) (use_key key (history sy)))
  | SCrash sy : step sy (mkSys (sy_store sy) None (history sy))
  | SUpdate sy p da dr id org a r va vr p' s' :
      sy_process sy = Some p → drawn da → drawn dr → opaque_token a → opaque_token r →
      seal_tokens fingerprint da dr id org a r p (sy_store sy) = Some (va, vr, p', s') →
      step sy (mkSys (with_tokens (update_where (λ u, u_id u = id) (set_idp_tokens va vr) (s_users s')) s') (Some p')
                 (note id REFRESH org r (note id ACCESS org a (history sy))))
  | SInsert sy p da dr u org a r va vr p' s' :
      sy_process sy = Some p → drawn da → drawn dr → opaque_token a → opaque_token r →
      u_id u ∉ u_id <$> s_users (sy_store sy) →
      seal_tokens fingerprint da dr (u_id u) org a r p (sy_store sy) = Some (va, vr, p', s') →
      step sy (mkSys (with_tokens (s_users s' ++ [set_idp_tokens va vr u]) s') (Some p')
                 (note (u_id u) REFRESH org r (note (u_id u) ACCESS org a (settle (u_id u) (primary_org_id u) (history sy))))).

(** A cell in the clear, or sealed under a key with the recorded fingerprint, for the
    organisation it was given for or for that of the account. *)
Definition in_clear (g : History) (c : string * string * string) : Prop :=
  glob_enc c.2 = false ∧ ∃ org, written g !! c.1 = Some (org, c.2).

Definition sealed_by (f : option string) (g : History) (c : string * string * string) : Prop :=
  glob_enc c.2 = true ∧ ∃ k d t org o, drawn d ∧ written g !! c.1 = Some (org, t) ∧
    (o = org ∨ homes g !! c.1.1 = Some o) ∧
    encrypt k d t (mkEnc o c.1.2 c.1.1) = Some c.2 ∧ f = Some (fingerprint k) ∧ k ∈ keys g.

Definition homes_ok (g : History) (us : list UserRow) : Prop := Forall (λ u, homes g !! u_id u = Some (primary_org_id u)) us.

Definition good_cell f w c : Prop := in_clear w c ∨ sealed_by f w c.

(** What the running server may rely on. *)
Definition good_process (p : Process) (f : option string) (cs : list (string * string * string)) : Prop :=
  match p_key p with
  | None => Forall (λ c, glob_enc c.2 = false) cs
  | Some k =>
      Forall (λ c, glob_enc c.2 = true) cs ∧ (f = None ∨ f = Some (fingerprint k)) ∧
      (p_persisted p = true → f = Some (fingerprint k))
  end.

Definition key_used (p : Process) (g : History) : Prop := ∀ k, p_key p = Some k → k ∈ keys g.

Record Inv (sy : Sys) : Prop := {
  inv_fp : s_fp (sy_store sy) ≠ Some "";
  inv_cells : Forall (good_cell (s_fp (sy_store sy)) (history sy)) (cells (s_users (sy_store sy)));
  inv_homes : homes_ok (history sy) (s_users (sy_store sy));
  inv_process p : sy_process sy = Some p →
    good_process p (s_fp (sy_store sy)) (cells (s_users (sy_store sy))) ∧ key_used p (history sy)
}.

(** ** Cells *)

Lemma elem_of_cells us c :
  c ∈ cells us ↔ ∃ u, u ∈ us ∧ u_id u = c.1.1 ∧
    ((c.1.2 = ACCESS ∧ idp_access_token u = Some c.2) ∨ (c.1.2 = REFRESH ∧ idp_refresh_token u = Some c.2)).
Proof.
  unfold cells. rewrite list_elem_of_bind. destruct c as [[id col] v]. simpl. unfold columns. split.
  - intros (u & Hc & Hu). exists u. split; [done|]. apply list_elem_of_fmap in Hc as ([col' v'] & [= -> -> ->] & Hc).
    split; [done|]. apply elem_of_app in Hc as [Hc|Hc]; [left|right];
      destruct (idp_access_token u), (idp_refresh_token u); cbn in Hc; try (by apply elem_of_nil in Hc);
      apply list_elem_of_singleton in Hc; by injection Hc as -> ->.
  - intros (u & Hu & <- & Hv). exists u. split; [|done]. apply list_elem_of_fmap. exists (col, v). split; [done|].
    apply elem_of_app. destruct Hv as [[-> ->]|[-> ->]]; [left|right]; by apply list_elem_of_singleton.
Qed.

Lemma cells_app us us' c : c ∈ cells (us ++ us') ↔ c ∈ cells us ∨ c ∈ cells us'.
Proof. unfold cells. rewrite bind_app. apply elem_of_app. Qed.

(** Cells after an update of the rows of one user: those of the updated rows, and
    the others as they were. *)
Lemma cells_update id f us c :
  (∀ u, u_id (f u) = u_id u) →
  c ∈ cells (update_where (λ u, u_id u = id) f us) →
  (c.1.1 = id ∧ ∃ u, u ∈ us ∧ u_id u = id ∧ c ∈ cells [f u]) ∨ (c.1.1 ≠ id ∧ c ∈ cells us).
Proof.
  intros Hf (u & Hu & Hid & Hv)%elem_of_cells. apply elem_of_update_where in Hu as (u0 & Hu0 & ->).
  destruct (decide (u_id u0 = id)) as [E|E].
  - left. rewrite Hf in Hid. split; [congruence|]. exists u0. split_and!; [done..|]. apply elem_of_cells. exists (f u0).
    split_and!; [left|by rewrite Hf|done].
  - right. split; [congruence|]. apply elem_of_cells. by exists u0.
Qed.

Lemma cells_set_access id v us c :
  c ∈ cells (update_where (λ u, u_id u = id) (set_access (Some v)) us) →
  c = (id, ACCESS, v) ∨ (c.1 ≠ (id, ACCESS) ∧ c ∈ cells us).
Proof.
  intros [[Hi (u & Hu & Hid & Hc)]|[Hi Hc]]%cells_update; [| |done]; [|right; split; [|done]; intros E; apply Hi; by rewrite E].
  destruct c as [[i col] x]. cbn [fst] in Hi. subst i.
  apply elem_of_cells in Hc as (u' & Hu' & _ & [[Ec Ex]|[Ec Ex]]); apply list_elem_of_singleton in Hu' as ->; simpl in Ec, Ex; subst col.
  - left. by injection Ex as ->.
  - right. split; [done|]. apply elem_of_cells. exists u. split_and!; [done..|]. by right.
Qed.

Lemma cells_set_refresh id v us c :
  c ∈ cells (update_where (λ u, u_id u = id) (set_refresh (Some v)) us) →
  c = (id, REFRESH, v) ∨ (c.1 ≠ (id, REFRESH) ∧ c ∈ cells us).
Proof.
  intros [[Hi (u & Hu & Hid & Hc)]|[Hi Hc]]%cells_update; [| |done]; [|right; split; [|done]; intros E; apply Hi; by rewrite E].
  destruct c as [[i col] x]. cbn [fst] in Hi. subst i.
  apply elem_of_cells in Hc as (u' & Hu' & _ & [[Ec Ex]|[Ec Ex]]); apply list_elem_of_singleton in Hu' as ->; simpl in Ec, Ex; subst col.
  - right. split; [done|]. apply elem_of_cells. exists u. split_and!; [done..|]. by left.
  - left. by injection Ex as ->.
Qed.

(** ** Migration *)

Lemma plain_Some v t : plain v = Some t ↔ v = Some t ∧ glob_enc t = false.
Proof.
  destruct v as [x|]; simpl; [|naive_solver]. destruct (glob_enc x) eqn:E; split; [done|intros [[= ->] ?]; congruence| |].
  - by intros [= ->].
  - by intros [[= ->] _].
Qed.

Lemma encrypt_glob k d t c v : encrypt k d t c = Some v → glob_enc v = true.
Proof.
  unfold encrypt. destruct (aad c); [|done]. cbn [mbind option_bind].
  destruct (gcm_seal _ _ _ _), (gcm_seal _ _ _ _). by intros [= <-].
Qed.

(** Sealed under [key] from a cell in the clear of [us0]. *)
Definition resealed (key : Buffer) (us0 : list UserRow) (c : string * string * string) : Prop :=
  ∃ d t u, drawn d ∧ (c.1, t) ∈ cells us0 ∧ glob_enc t = false ∧ u ∈ us0 ∧ u_id u = c.1.1 ∧
    encrypt key d t (mkEnc (primary_org_id u) c.1.2 c.1.1) = Some c.2.

Section migration.
Context (key : Buffer) (dr : string → string → Draws) (us0 : list UserRow).
Hypothesis (Hdr : ∀ id col, drawn (dr id col)).

Definition from (us : list UserRow) : Prop := ∀ c, c ∈ cells us → c ∈ cells us0 ∨ resealed key us0 c.

(** Whatever is still in the clear is of one of the rows to come. *)
Definition left_in (us rows : list UserRow) : Prop :=
  ∀ c, c ∈ cells us → glob_enc c.2 = false → ∃ r, r ∈ rows ∧ c ∈ cells [r].

Lemma seal_column_cells r col v set us us' c :
  (col = ACCESS ∧ set = set_access ∨ col = REFRESH ∧ set = set_refresh) →
  seal_column key dr r col v set us = Some us' → c ∈ cells us' →
  (c ∈ cells us ∧ (plain v ≠ None → c.1 ≠ (u_id r, col))) ∨
  (c.1 = (u_id r, col) ∧ ∃ t, plain v = Some t ∧
     encrypt key (dr (u_id r) col) t (mkEnc (primary_org_id r) col (u_id r)) = Some c.2).
Proof.
  intros Hset. unfold seal_column. destruct (plain v) as [t|]; [|intros [= ->] Hc; by left].
  destruct (encrypt _ _ _ _) as [ct|] eqn:Ee; [|done]. cbn [mbind option_bind]. intros [= <-] Hc.
  assert (c = (u_id r, col, ct) ∨ (c.1 ≠ (u_id r, col) ∧ c ∈ cells us)) as [->|[Hne Hin]].
  { destruct Hset as [[-> ->]|[-> ->]]; [by apply cells_set_access|by apply cells_set_refresh]. }
  - right. split; [done|]. by exists t.
  - left. done.
Qed.

Lemma seal_rows_cells rows us us' :
  (∀ r, r ∈ rows → r ∈ us0) → from us → left_in us rows → seal_rows key dr rows us = Some us' →
  from us' ∧ left_in us' [].
Proof.
  revert us. induction rows as [|r rows IH]; intros us Hrows Hf Hl; simpl; [by intros [= <-]|].
  destruct (seal_column _ _ _ ACCESS _ _ us) as [us1|] eqn:E1; [|done]. cbn [mbind option_bind].
  destruct (seal_column _ _ _ REFRESH _ _ us1) as [us2|] eqn:E2; [|done]. cbn [mbind option_bind].
  pose proof (λ c, seal_column_cells r ACCESS _ set_access us us1 c (or_introl (conj eq_refl eq_refl)) E1) as H1.
  pose proof (λ c, seal_column_cells r REFRESH _ set_refresh us1 us2 c (or_intror (conj eq_refl eq_refl)) E2) as H2.
  assert (r ∈ us0) as Hr by (apply Hrows; left).
  intros Hrest. apply (IH us2); [intros; apply Hrows; by right| | |done].
  - assert (∀ col t c, (col = ACCESS ∧ idp_access_token r = Some t ∨ col = REFRESH ∧ idp_refresh_token r = Some t) →
      c.1 = (u_id r, col) → glob_enc t = false →
      encrypt key (dr (u_id r) col) t (mkEnc (primary_org_id r) col (u_id r)) = Some c.2 → resealed key us0 c) as Hre.
    { intros col t c Hcol Ec Hg He. exists (dr (u_id r) col), t, r. rewrite Ec.
      split_and!; [done| |done..]. apply elem_of_cells. exists r. naive_solver. }
    intros c [[Hc _]|(Ec & t & [Et Hg]%plain_Some & He)]%H2; [|right; eapply Hre; eauto].
    apply H1 in Hc as [[Hc _]|(Ec & t & [Et Hg]%plain_Some & He)]; [by apply Hf|right; eapply Hre; eauto].
  - intros c Hc Hg. destruct (H2 c Hc) as [[Hc1 Hn2]|(_ & t & _ & He)]; [|apply encrypt_glob in He; congruence].
    destruct (H1 c Hc1) as [[Hc0 Hn1]|(_ & t & _ & He)]; [|apply encrypt_glob in He; congruence].
    destruct (Hl c Hc0 Hg) as (r' & Hr' & Hcr). apply elem_of_cons in Hr' as [->|Hr']; [|by exists r'].
    exfalso. apply elem_of_cells in Hcr as (u & ->%list_elem_of_singleton & Hid & [[Ecol Ev]|[Ecol Ev]]); destruct c as [[i col] x]; simpl in *; subst.
    + apply Hn1; [|done]. rewrite Ev. simpl. by rewrite Hg.
    + apply Hn2; [|done]. rewrite Ev. simpl. by rewrite Hg.
Qed.
End migration.

(** ** A start *)

Lemma sealed_mono f f' w c : (∀ g, f = Some g → f' = Some g) → sealed_by f w c → sealed_by f' w c.
Proof.
  intros Hm (Hg & k & d & t & org & o & ? & ? & ? & ? & Hf & ?). split; [done|]. exists k, d, t, org, o. by rewrite (Hm _ Hf).
Qed.

(** More keys. *)
Lemma good_use f key g c : good_cell f g c → good_cell f (use_key key g) c.
Proof.
  intros [Hc|(Hg & k & d & t & org & o & ? & ? & ? & ? & ? & ?)]; [by left|right]. split; [done|].
  exists k, d, t, org, o. split_and!; try done. apply elem_of_app. by right.
Qed.

Lemma homes_update g P `{!∀ u, Decision (P u)} f us :
  (∀ u, u_id (f u) = u_id u ∧ primary_org_id (f u) = primary_org_id u) → homes_ok g us → homes_ok g (update_where P f us).
Proof.
  intros Hf. unfold homes_ok, update_where. rewrite Forall_fmap. intros H'. eapply Forall_impl; [exact H'|].
  intros u Hu. cbn. case_decide; [|done]. by destruct (Hf u) as [-> ->].
Qed.

Lemma homes_seal g key dr rows us us' : seal_rows key dr rows us = Some us' → homes_ok g us → homes_ok g us'.
Proof.
  assert (∀ r col v set us us', (∀ x u, u_id (set x u) = u_id u ∧ primary_org_id (set x u) = primary_org_id u) →
    seal_column key dr r col v set us = Some us' → homes_ok g us → homes_ok g us') as Hcol.
  { intros r col v set us0 us1 Hs. unfold seal_column. destruct (plain v); [|by intros [= <-]].
    destruct (encrypt _ _ _ _); [|done]. cbn [mbind option_bind]. intros [= <-]. by apply homes_update. }
  revert us. induction rows as [|r rows IH]; intros us; cbn [seal_rows]; [by intros [= <-]|].
  destruct (seal_column _ _ _ ACCESS _ _ us) as [us1|] eqn:E1; [|done]. cbn [mbind option_bind].
  destruct (seal_column _ _ _ REFRESH _ _ us1) as [us2|] eqn:E2; [|done]. cbn [mbind option_bind].
  intros Hr Hh. eapply IH; [exact Hr|]. eapply Hcol; [|exact E2|]; [done|]. by eapply Hcol; [|exact E1|].
Qed.

Lemma good_mono f f' w c : (∀ g, f = Some g → f' = Some g) → good_cell f w c → good_cell f' w c.
Proof. intros Hm [Hc|Hc]; [by left|right]. by apply (sealed_mono f). Qed.

Lemma known_fp key (f : option string) : f = None ∨ f = Some (fingerprint key) → f ≠ Some "".
Proof. intros [-> | ->]; [done|]. intros [=]. by apply (fingerprint_nonempty key). Qed.

(** Every cell is sealed afterwards, under a key with the fingerprint on record. *)
Lemma migrate_good key dr s s' w :
  (∀ id col, drawn (dr id col)) → (s_fp s = None ∨ s_fp s = Some (fingerprint key)) → key ∈ keys w → homes_ok w (s_users s) →
  Forall (good_cell (s_fp s) w) (cells (s_users s)) →
  migratePlaintextIdpTokens fingerprint key dr s = Some s' →
  Forall (sealed_by (s_fp s') w) (cells (s_users s')) ∧ homes_ok w (s_users s') ∧
  (s_fp s' = None ∨ s_fp s' = Some (fingerprint key)) ∧ (∀ g, s_fp s = Some g → s_fp s' = Some g).
Proof.
  intros Hd Hfp Hkey Hhome Hgood. unfold migratePlaintextIdpTokens. rewrite Forall_forall in Hgood.
  assert (∀ c, c ∈ cells (s_users s) → glob_enc c.2 = false →
    ∃ r, r ∈ filter (λ u, plain (idp_access_token u) ≠ None ∨ plain (idp_refresh_token u) ≠ None) (s_users s) ∧ c ∈ cells [r])
    as Hall.
  { intros c (u & Hu & Hid & Hv)%elem_of_cells Hg. exists u. rewrite list_elem_of_filter. split_and!; [|done|].
    - destruct Hv as [[_ E]|[_ E]]; [left|right]; rewrite E; simpl; by rewrite Hg.
    - apply elem_of_cells. exists u. split_and!; [left|done..]. }
  destruct (filter _ (s_users s)) as [|r rows] eqn:Ef.
  - intros [= <-]. split_and!; [|done..]. apply Forall_forall. intros c Hc.
    destruct (Hgood c Hc) as [[Hg _]|]; [|done]. destruct (Hall c Hc Hg) as (r & []%elem_of_nil & _).
  - rewrite <- Ef in *. clear Ef.
    destruct (seal_rows _ _ _ _) as [us|] eqn:Es; [|done]. cbn [mbind option_bind]. intros [= <-].
    pose proof (homes_seal w _ _ _ _ _ Es Hhome) as Hhome'.
    apply (seal_rows_cells key dr (s_users s)) in Es as [Hfrom Hleft]; [|done|..|done].
    2: { intros x. rewrite list_elem_of_filter. tauto. }
    2: { intros c Hc. by left. }
    cbn [ensure_fp with_fp with_tokens s_users s_fp].
    assert ((match s_fp s with Some g => Some g | None => Some (fingerprint key) end) = Some (fingerprint key)) as ->
      by (destruct Hfp as [-> | ->]; done).
    split_and!; [|done|by right|intros g Eg; destruct Hfp; congruence].
    apply Forall_forall. intros c Hc. destruct (Hfrom c Hc) as [Hc0|(d & t & u & Hdd & Ht & Hg & Hu & Hid & He)].
    + destruct (Hgood c Hc0) as [[Hg Hw]|Hs].
      * destruct (Hleft c Hc Hg) as (r' & []%elem_of_nil & _).
      * apply (sealed_mono (s_fp s)); [|done]. intros g Eg. destruct Hfp; congruence.
    + split; [by eapply encrypt_glob|]. destruct (Hgood _ Ht) as [[_ [org Hw]]|[Hg' _]]; [|simpl in Hg'; congruence].
      exists key, d, t, org, (primary_org_id u). split_and!; try done. right. rewrite <- Hid.
      unfold homes_ok in Hhome. rewrite Forall_forall in Hhome. by apply Hhome.
Qed.

Lemma finish_inv key dr b s r s' w :
  (∀ id col, drawn (dr id col)) → (s_fp s = None ∨ s_fp s = Some (fingerprint key)) →
  (b = true → s_fp s = Some (fingerprint key)) → key ∈ keys w → homes_ok w (s_users s) →
  Forall (good_cell (s_fp s) w) (cells (s_users s)) → finish fingerprint key dr b s = (r, s') →
  Inv (mkSys s' (match r with inr i => Some (buildWrappedProvider i) | inl _ => None end) w).
Proof.
  intros Hd Hfp Hb Hkey Hhome Hgood. unfold finish. destruct (migratePlaintextIdpTokens _ _ _ s) as [s1|] eqn:Em.
  - intros [= <- <-]. destruct (migrate_good _ _ _ _ _ Hd Hfp Hkey Hhome Hgood Em) as (Hs & Hhome' & Hfp' & Hmono). split; simpl.
    + exact (known_fp _ _ Hfp').
    + eapply Forall_impl; [exact Hs|]. intros c Hc. by right.
    + done.
    + intros p [= <-]. split; [|by intros k [= <-]]. split_and!; simpl; [|done|].
      * eapply Forall_impl; [exact Hs|]. by intros c [? _].
      * intros ->. auto.
  - intros [= <- <-]. split; [exact (known_fp _ _ Hfp)|done..].
Qed.

(** The rows of a confirmed loss have no cells left. *)
Lemma invalidate_cells rows s c :
  c ∈ cells (s_users (fold_left invalidate rows s)) →
  c ∈ cells (s_users s) ∧ ∀ r, r ∈ rows → u_id r ≠ c.1.1.
Proof.
  revert s. induction rows as [|r rows IH]; simpl; intros s; [by intros Hc; split; [|intros r Hr%elem_of_nil]|].
  intros [Hc Hr]%IH. cbn [invalidate log s_users] in Hc.
  apply cells_update in Hc as [[_ (u & _ & _ & Hu)]|[Hne Hc]]; [..|done].
  - apply elem_of_cells in Hu as (u' & ->%list_elem_of_singleton & _ & [[_ [=]]|[_ [=]]]).
  - split; [done|]. intros x [->|Hx]%elem_of_cons; [congruence|by apply Hr].
Qed.

Lemma invalidate_fp rows s : s_fp (fold_left invalidate rows s) = s_fp s.
Proof. revert s. induction rows as [|r rows IH]; intros s; [done|]. simpl. by rewrite IH. Qed.

Lemma invalidate_homes g rows s : homes_ok g (s_users s) → homes_ok g (s_users (fold_left invalidate rows s)).
Proof.
  revert s. induction rows as [|r rows IH]; intros s Hh; [done|]. cbn [fold_left]. apply IH. cbn [invalidate log s_users].
  by apply homes_update.
Qed.

Lemma sealed_row us c : c ∈ cells us → glob_enc c.2 = true → ∃ r, r ∈ filter has_sealed us ∧ u_id r = c.1.1.
Proof.
  intros (u & Hu & Hid & Hv)%elem_of_cells Hg. exists u. rewrite list_elem_of_filter. split_and!; [|done..].
  destruct Hv as [[_ E]|[_ E]]; [left|right]; by rewrite E.
Qed.

Lemma no_sealed us c : filter has_sealed us = [] → c ∈ cells us → glob_enc c.2 = false.
Proof.
  intros E Hc. destruct (glob_enc c.2) eqn:Hg; [|done].
  destruct (sealed_row us c Hc Hg) as (r & Hr & _). rewrite E in Hr. by apply elem_of_nil in Hr.
Qed.

Lemma boot_inv env key dr r s s' w :
  env "COORDINATOR_ALLOW_KEY_ROTATION" ≠ Some "1" → (∀ id col, drawn (dr id col)) → s_fp s ≠ Some "" →
  (∀ k, key = Some k → k ∈ keys w) → homes_ok w (s_users s) →
  Forall (good_cell (s_fp s) w) (cells (s_users s)) → runEncryptionGuards fingerprint env key dr s = (r, s') →
  Inv (mkSys s' (match r with inr i => Some (buildWrappedProvider i) | inl _ => None end) w).
Proof.
  intros Henv Hd Hfp Hkey Hhome Hgood. unfold runEncryptionGuards. destruct key as [k|].
  - specialize (Hkey k eq_refl). destruct (s_fp s) as [f|] eqn:Ef; [rewrite truthy_Some by congruence|]; cbn [truthy].
    + destruct (decide (f ≠ fingerprint k)) as [Hf|Hf].
      * rewrite bool_decide_eq_false_2 by done. intros [= <- <-]. split; simpl; rewrite ?Ef; done.
      * apply dec_stable in Hf as ->. apply finish_inv; rewrite ?Ef; auto.
    + destruct (filter has_sealed (s_users s)) as [|r0 rows] eqn:Es.
      * apply finish_inv; rewrite ?Ef; auto; done.
      * rewrite decide_True by done. apply finish_inv; simpl; [done|by right|done|done|done|].
        eapply Forall_impl; [exact Hgood|]. intros c. by apply good_mono.
  - destruct (filter has_sealed (s_users s)) as [|r0 rows] eqn:Es.
    + intros [= <- <-]. split; simpl; [done..|]. intros p [= <-]. split; [|done]. apply Forall_forall. intros c. by apply no_sealed.
    + destruct (negb _); [intros [= <- <-]; by split|]. destruct (negb _); [intros [= <- <-]; by split|].
      rewrite <- Es. clear Es. intros [= <- <-]. split; cbn [sy_store history sy_process].
      * by rewrite invalidate_fp.
      * rewrite invalidate_fp. rewrite Forall_forall in Hgood |- *. intros c [Hc _]%invalidate_cells. by apply Hgood.
      * by apply invalidate_homes.
      * intros p [= <-]. split; [|done]. apply Forall_forall. intros c [Hc Hr]%invalidate_cells. destruct (glob_enc c.2) eqn:Hg; [|done].
        destruct (sealed_row _ c Hc Hg) as (x & Hx & Hid). by destruct (Hr x Hx).
Qed.

(** ** A write *)

(** The fingerprint on record is that of the running server, if there is one. *)
Definition fp_known (p : Process) (f : option string) : Prop :=
  match p_key p with
  | None => True
  | Some k => (f = None ∨ f = Some (fingerprint k)) ∧ (p_persisted p = true → f = Some (fingerprint k))
  end.

(** What was sealed: nothing, the token itself, or its ciphertext. *)
Definition sealing_of (p : Process) (f : option string) (d : Draws) (c : EncryptionContext) (t v : option string) : Prop :=
  match v with
  | None => truthy t = None
  | Some v => ∃ t', truthy t = Some t' ∧
      match p_key p with
      | None => v = t' ∧ glob_enc v = false
      | Some k => encrypt k d t' c = Some v ∧ f = Some (fingerprint k)
      end
  end.

Lemma wrapped_nullable_spec d t c p s v p' s' :
  opaque_token t → fp_known p (s_fp s) → wrapped_nullable fingerprint d t c p s = Some (v, p', s') →
  p_key p' = p_key p ∧ s_users s' = s_users s ∧ fp_known p' (s_fp s') ∧ (∀ g, s_fp s = Some g → s_fp s' = Some g) ∧
  (s_fp s ≠ Some "" → s_fp s' ≠ Some "") ∧ sealing_of p (s_fp s') d c t v.
Proof.
  intros Ho Hk. unfold wrapped_nullable. destruct (truthy t) as [t'|] eqn:Et; [|intros [= <- <- <-]; done].
  assert (glob_enc t' = false) as Hg by (destruct t as [[|]|]; simpl in Et; congruence || by injection Et as <-).
  unfold wrapped_encrypt, fp_known in *. destruct (p_key p) as [k|] eqn:Ek; cbn [mbind option_bind].
  2: { intros [= <- <- <-]. rewrite Ek. split_and!; [done..|]. exists t'. by rewrite Et, Ek. }
  destruct Hk as [Hf Hp]. destruct (encrypt k d t' c) as [ct|] eqn:Ee; [|done]. cbn [mbind option_bind].
  destruct (p_persisted p) eqn:Ep; cbn [mbind option_bind]; intros [= <- <- <-].
  - rewrite Ek, Ep. split_and!; [done..|]. exists t'. rewrite Et, Ek. auto.
  - cbn. assert ((match s_fp s with Some g => Some g | None => Some (fingerprint k) end) = Some (fingerprint k)) as ->
      by (destruct Hf as [-> | ->]; done).
    split_and!; auto; [intros g Eg; destruct Hf; congruence|intros _ [=]; by apply (fingerprint_nonempty k)|].
    exists t'. by rewrite Et, Ek.
Qed.

Lemma sealing_mono p f f' d c t v : (∀ g, f = Some g → f' = Some g) → sealing_of p f d c t v → sealing_of p f' d c t v.
Proof.
  intros Hm. destruct v as [v|]; [|done]. intros (t' & Et & Hv). exists t'. split; [done|].
  destruct (p_key p) as [k|]; [|done]. destruct Hv as [? Hf]. auto.
Qed.

Lemma seal_tokens_spec da dr id org a r p s va vr p' s' :
  opaque_token a → opaque_token r → fp_known p (s_fp s) → seal_tokens fingerprint da dr id org a r p s = Some (va, vr, p', s') →
  p_key p' = p_key p ∧ s_users s' = s_users s ∧ fp_known p' (s_fp s') ∧ (∀ g, s_fp s = Some g → s_fp s' = Some g) ∧
  (s_fp s ≠ Some "" → s_fp s' ≠ Some "") ∧ sealing_of p (s_fp s') da (mkEnc org ACCESS id) a va ∧
  sealing_of p (s_fp s') dr (mkEnc org REFRESH id) r vr.
Proof.
  intros Ha Hr Hk. unfold seal_tokens. destruct (wrapped_nullable _ da _ _ _ _) as [[[v1 p1] s1]|] eqn:E1; [|done].
  cbn [mbind option_bind]. destruct (wrapped_nullable _ dr _ _ _ _) as [[[v2 p2] s2]|] eqn:E2; [|done].
  cbn [mbind option_bind]. intros [= <- <- <- <-].
  apply wrapped_nullable_spec in E1 as (K1 & U1 & F1 & M1 & N1 & S1); [|done..].
  apply wrapped_nullable_spec in E2 as (K2 & U2 & F2 & M2 & N2 & S2); [|done..].
  split_and!; [congruence|congruence|done|auto|auto|by eapply sealing_mono|].
  unfold sealing_of in *. by rewrite <- K1.
Qed.

Lemma good_process_known p f cs : good_process p f cs → fp_known p f.
Proof. unfold good_process, fp_known. destruct (p_key p); tauto. Qed.

(** The two cells of a row that was just written. *)
Lemma written_cell p f da dr id org a r va vr u w c :
  drawn da → drawn dr → key_used p w → sealing_of p f da (mkEnc org ACCESS id) a va → sealing_of p f dr (mkEnc org REFRESH id) r vr →
  u_id u = id → c ∈ cells [set_idp_tokens va vr u] →
  good_cell f (note id REFRESH org r (note id ACCESS org a w)) c ∧
  glob_enc c.2 = (match p_key p with Some _ => true | None => false end).
Proof.
  intros Hda Hdr Hk Ha Hr Hid (u' & ->%list_elem_of_singleton & Eid & Hv)%elem_of_cells.
  assert (c.1.1 = id) as Ei by (rewrite <- Hid, <- Eid; done). clear Eid. destruct c as [[i col] x]. simpl in Hv, Ei. subst i.
  set (g := note id REFRESH org r (note id ACCESS org a w)).
  assert (keys g = keys w) as Eg by (unfold g, note; by destruct (truthy r), (truthy a)).
  assert (∀ d t, drawn d → sealing_of p f d (mkEnc org col id) t (Some x) →
    written g !! (id, col) = pair org <$> truthy t →
    good_cell f g (id, col, x) ∧ glob_enc x = (match p_key p with Some _ => true | None => false end)) as Hgo.
  { intros d t Hd (t' & Et & Hp) Hw. rewrite Et in Hw. destruct (p_key p) as [k|] eqn:Ek.
    - destruct Hp as [He Hf]. pose proof (encrypt_glob _ _ _ _ _ He) as Hg. split; [|done]. right. split; [done|].
      exists k, d, t', org, org. split_and!; try done; [by left|]. rewrite Eg. by apply Hk.
    - destruct Hp as [-> Hg]. split; [|done]. left. split; [done|]. by exists org. }
  destruct Hv as [[-> ->]|[-> ->]]; [apply (Hgo da a Hda Ha)|apply (Hgo dr r Hdr Hr)]; unfold g, note.
  - destruct Ha as (t' & Et & _). rewrite Et. destruct (truthy r); cbn [written]; rewrite ?lookup_insert_ne by done;
      by rewrite lookup_insert_eq.
  - destruct Hr as (t' & Et & _). rewrite Et. cbn [written]. by rewrite lookup_insert_eq.
Qed.

(** Notes for one user say nothing about another. *)
Lemma good_note f w id col org t c : c.1.1 ≠ id → good_cell f w c → good_cell f (note id col org t w) c.
Proof.
  intros Hne. unfold note. destruct (truthy t) as [t'|]; [|done].
  assert (<[(id, col) := (org, t')]> (written w) !! c.1 = written w !! c.1) as E
    by (apply lookup_insert_ne; intros E; apply Hne; by rewrite <- E).
  unfold good_cell, in_clear, sealed_by. cbn [written homes keys]. rewrite E. tauto.
Qed.

Lemma good_settle f w id org c : c.1.1 ≠ id → good_cell f w c → good_cell f (settle id org w) c.
Proof.
  intros Hne. unfold good_cell, in_clear, sealed_by, settle. cbn [written homes keys].
  rewrite lookup_insert_ne by congruence. tauto.
Qed.

Lemma note_kept id col org t g : homes (note id col org t g) = homes g ∧ keys (note id col org t g) = keys g.
Proof. unfold note. by destruct (truthy t). Qed.

Lemma good_process_cells p p' f cs :
  p_key p' = p_key p → fp_known p' f →
  (∀ c, c ∈ cs → glob_enc c.2 = (match p_key p with Some _ => true | None => false end)) → good_process p' f cs.
Proof.
  unfold good_process, fp_known. intros ->. destruct (p_key p); intros Hf Hc; [|by apply Forall_forall].
  split_and!; [by apply Forall_forall|tauto..].
Qed.

Lemma process_glob p f cs c :
  good_process p f cs → c ∈ cs → glob_enc c.2 = (match p_key p with Some _ => true | None => false end).
Proof. unfold good_process. destruct (p_key p); [intros [H' _]|intros H']; rewrite Forall_forall in H'; apply H'. Qed.

Lemma write_inv sy g p da dr id org a r va vr p' s' us :
  Inv sy → sy_process sy = Some p → drawn da → drawn dr → opaque_token a → opaque_token r →
  seal_tokens fingerprint da dr id org a r p (sy_store sy) = Some (va, vr, p', s') →
  g = history sy ∨ (∃ o, g = settle id o (history sy)) → homes_ok g us →
  (∀ c, c ∈ cells us → (c.1.1 ≠ id ∧ c ∈ cells (s_users s')) ∨ ∃ u, u_id u = id ∧ c ∈ cells [set_idp_tokens va vr u]) →
  Inv (mkSys (with_tokens us s') (Some p') (note id REFRESH org r (note id ACCESS org a g))).
Proof.
  intros [Hfp Hc Hh Hp] Ep Hda Hdr Ha Hr Hs Hg Hhome Hus. destruct (Hp p Ep) as [Hp' Hk]. clear Hp.
  assert (keys g = keys (history sy)) as Ek by (destruct Hg as [-> |[o ->]]; done).
  assert (key_used p g) as Hkg by (intros k Hk'; rewrite Ek; by apply Hk).
  apply seal_tokens_spec in Hs as (K & U & F & M & N & Sa & Sr); [|done..|by eapply good_process_known].
  assert (∀ c, c ∈ cells us → good_cell (s_fp s') (note id REFRESH org r (note id ACCESS org a g)) c ∧
    glob_enc c.2 = (match p_key p with Some _ => true | None => false end)) as Hall.
  { intros c Hin. destruct (Hus c Hin) as [[Hne Hold]|(u & Hid & Hnew)].
    - rewrite U in Hold. split; [|by eapply process_glob]. apply good_note, good_note; [done..|].
      apply (good_mono (s_fp (sy_store sy))); [exact M|]. rewrite Forall_forall in Hc.
      destruct Hg as [-> |[o ->]]; [by apply Hc|]. apply good_settle; [done|by apply Hc].
    - exact (written_cell p _ da dr id org a r va vr u _ c Hda Hdr Hkg Sa Sr Hid Hnew). }
  destruct (note_kept id REFRESH org r (note id ACCESS org a g)) as [E1 E2]. destruct (note_kept id ACCESS org a g) as [E3 E4].
  split; cbn [sy_store with_tokens s_fp s_users history sy_process].
  - auto.
  - apply Forall_forall. intros c Hin. by apply Hall.
  - unfold homes_ok. by rewrite E1, E3.
  - intros q [= <-]. split.
    + apply (good_process_cells p); [done..|]. intros c Hin. by apply Hall.
    + intros k. rewrite K, E2, E4. apply Hkg.
Qed.

Lemma step_preserves sy sy' : Inv sy → step sy sy' → Inv sy'.
Proof.
  intros Hi. destruct 1 as [env key dr r s' sy Henv Hd Hb|sy|sy p da dr id org a r va vr p' s' Ep Hda Hdr Ha Hr Hs|
    sy p da dr u org a r va vr p' s' Ep Hda Hdr Ha Hr Hnew Hs].
  - destruct Hi as [H1 H2 H3 _]. eapply (boot_inv env key dr r (sy_store sy)); [done|done|done| | | |exact Hb].
    + intros k ->. by left.
    + exact H3.
    + eapply Forall_impl; [exact H2|]. intros c. apply good_use.
  - destruct Hi. by split.
  - assert (s_users s' = s_users (sy_store sy)) as U.
    { destruct Hi as [_ _ _ Hp]. apply seal_tokens_spec in Hs as (_ & U & _); [done|done..|].
      eapply good_process_known. by apply (Hp p Ep). }
    apply (write_inv sy (history sy) p da dr id org a r va vr p' s'); [done..|by left| |].
    + apply homes_update; [done|]. rewrite U. by destruct Hi.
    + intros c [[_ (u & _ & Hid & Hu)]|Hc]%cells_update; [right; by exists u|by left|done].
  - assert (s_users s' = s_users (sy_store sy)) as U.
    { destruct Hi as [_ _ _ Hp]. apply seal_tokens_spec in Hs as (_ & U & _); [done|done..|].
      eapply good_process_known. by apply (Hp p Ep). }
    apply (write_inv sy (settle (u_id u) (primary_org_id u) (history sy)) p da dr (u_id u) org a r va vr p' s'); [done..|by right; eexists| |].
    + apply Forall_app. split; [|apply Forall_singleton; apply lookup_insert_eq]. rewrite U.
      destruct Hi as [_ _ Hh _]. apply Forall_forall. intros x Hx. unfold settle. cbn [homes].
      rewrite lookup_insert_ne; [unfold homes_ok in Hh; rewrite Forall_forall in Hh; by apply Hh|].
      intros E. apply Hnew. rewrite E. by apply list_elem_of_fmap_2.
    + intros c [Hc|Hc]%cells_app; [left|right; by exists u]. split; [|done]. intros E. apply Hnew.
      rewrite U in Hc. apply elem_of_cells in Hc as (x & Hx & Hid & _). rewrite <- E, <- Hid. by apply list_elem_of_fmap_2.
Qed.

(** ** A transaction that fails

    [provisionUser] seals inside a transaction. When the transaction is rolled back,
    a full disk say, the fingerprint goes with it, and the closure does not know. *)
Inductive failing_step : relation Sys :=
  | FStep sy sy' : step sy sy' → failing_step sy sy'
  | FRollback sy p da dr id org a r va vr p' s' :
      sy_process sy = Some p → drawn da → drawn dr →
      seal_tokens fingerprint da dr id org a r p (sy_store sy) = Some (va, vr, p', s') →
      failing_step sy (mkSys (sy_store sy) (Some p') (history sy)).

End system.

Definition blank : History := mkHistory ∅ ∅ [].
Definition fresh : Sys := mkSys (mkStore [] None [] []) None blank.

(** [C11] No token is orphaned. Starting from any database without ciphertexts,
    whatever the sequence of starts with any keys, of different fingerprints, crashes,
    logins and refreshes, as long as no rotation of the key is allowed and no
    transaction fails: the running server opens every stored token to the text last
    given for that account and column, with the organisation of the account when it
    was given for that one, and otherwise with one of the two. *)
Theorem tokens_recoverable `{AeadLaws} fingerprint sy0 sy p u col v :
  (∀ k, fingerprint k ≠ "") →
  s_fp (sy_store sy0) = None → sy_process sy0 = None →
  Forall (in_clear (history sy0)) (cells (s_users (sy_store sy0))) → homes_ok (history sy0) (s_users (sy_store sy0)) →
  rtc (step fingerprint) sy0 sy →
  (∀ k k', k ∈ keys (history sy) → k' ∈ keys (history sy) → fingerprint k = fingerprint k' → k = k') →
  sy_process sy = Some p → u ∈ s_users (sy_store sy) → (col, v) ∈ columns u →
  let opens org t := wrapped_decrypt p v (mkEnc org col (u_id u)) = inr t in
  ∃ org t, written (history sy) !! (u_id u, col) = Some (org, t)
    ∧ (org = primary_org_id u → opens (primary_org_id u) t)
    ∧ (opens org t ∨ opens (primary_org_id u) t).
Proof.
  intros Hne Hfp Hp0 Hc0 Hh0 Hr Hinj Hp Hu Hcol. cbv zeta. assert (Inv fingerprint sy) as [_ Hcells Hhomes Hproc].
  { assert (Inv fingerprint sy0) as Hi.
    { split; [by rewrite Hfp| |done|by rewrite Hp0]. eapply Forall_impl; [exact Hc0|]. intros x Hx. by left. }
    clear -Hr Hi Hne. induction Hr as [|x y z Hs _ IH]; [done|]. by apply IH, (step_preserves fingerprint Hne x). }
  assert ((u_id u, col, v) ∈ cells (s_users (sy_store sy))) as Hc.
  { apply list_elem_of_bind. exists u. split; [|done]. apply list_elem_of_fmap. by exists (col, v). }
  destruct (Hproc p Hp) as [Hgp Hk]. clear Hproc. rewrite Forall_forall in Hcells. specialize (Hcells _ Hc).
  pose proof (process_glob _ _ _ _ _ Hgp Hc) as Hg. unfold good_process in Hgp. unfold wrapped_decrypt.
  destruct (p_key p) as [k|] eqn:Ek.
  - destruct Hcells as [[Hn _]|(_ & k' & d & t & org & o & Hd & Hw & Ho & He & Hf & Hk')]; [simpl in *; congruence|]. cbn [fst snd] in *.
    assert (k' = k) as ->. { apply Hinj; [done|by apply Hk|]. destruct Hgp as (_ & [?|?] & _); congruence. }
    assert (decrypt k v (mkEnc o col (u_id u)) = inr t) as Hdec by by eapply decrypt_sealed.
    exists org, t. split; [done|]. unfold homes_ok in Hhomes. rewrite Forall_forall in Hhomes. specialize (Hhomes u Hu).
    destruct Ho as [-> |Ho]; [split; [by intros <-|by left]|]. rewrite Hhomes in Ho. injection Ho as <-. split; [done|by right].
  - destruct Hcells as [[_ [org Hw]]|[Hn _]]; [|simpl in *; congruence]. exists org, v. split_and!; [done|done|by left].
Qed.

Definition ada_row : UserRow := mkUser "ada" "acme" "ada@example.org" None "github" "42" None None "member" None 0.
Definition no_env : string → option string := λ _, None.
Definition same_draws : string → string → Draws := λ _ _, toy_draws.

Lemma start_empty `{AeadLaws} fingerprint key w :
  step fingerprint (mkSys (mkStore [] None [] []) None w) (mkSys (mkStore [] None [] []) (Some (mkProcess (Some key) false)) (use_key (Some key) w)).
Proof.
  apply (SBoot fingerprint no_env (Some key) same_draws (inr (mkInit (Some key) false)) (mkStore [] None [] [])
    (mkSys (mkStore [] None [] []) None w)); [done|intros; apply toy_drawn|done].
Qed.

(** A failed transaction can orphan tokens. After the first login of a server
    with a new key is rolled back, the next one is stored without a fingerprint on record, and a
    start with any other key is accepted, backfills the wrong fingerprint and
    cannot open the token. *)
Theorem rollback_orphans_tokens `{AeadLaws} fingerprint key key' :
  key ≠ key' →
  ∃ sy c, rtc (failing_step fingerprint) fresh sy ∧ c ∈ cells (s_users (sy_store sy)) ∧
    sy_process sy = Some (mkProcess (Some key') true) ∧ s_fp (sy_store sy) = Some (fingerprint key') ∧
    ∀ ec, wrapped_decrypt (mkProcess (Some key') true) c.2 ec = inl DEKUnwrapFailed ∨
      collision (nonceDek toy_draws) key [] (dek toy_draws) key' [].
Proof.
  intros Hk. assert (∃ v, encrypt key toy_draws "gho" (mkEnc "acme" ACCESS "ada") = Some v) as [v Ev].
  { unfold encrypt. change (aad (mkEnc "acme" ACCESS "ada")) with (Some (default [] (aad (mkEnc "acme" ACCESS "ada")))).
    cbn [mbind option_bind]. destruct (gcm_seal _ _ _ _), (gcm_seal _ _ _ _). by eexists. }
  pose proof (encrypt_glob _ _ _ _ _ Ev) as Hg.
  set (store := mkStore [set_idp_tokens (Some v) None ada_row] None [] []).
  set (w := use_key (Some key') (note "ada" REFRESH "acme" None (note "ada" ACCESS "acme" (Some "gho") (settle "ada" "acme" (use_key (Some key) blank))))).
  exists (mkSys (with_fp (Some (fingerprint key')) store) (Some (mkProcess (Some key') true)) w), ("ada", ACCESS, v).
  split_and!.
  - eapply rtc_l; [apply FStep, (start_empty _ key)|].
    eapply rtc_l; [apply (FRollback _ _ (mkProcess (Some key) false) toy_draws toy_draws "ada" "acme" (Some "gho") None (Some v) None
      (mkProcess (Some key) true) (log "encryption.config.loaded" (Some (fingerprint key)) (with_fp (Some (fingerprint key)) (mkStore [] None [] []))));
      [done|apply toy_drawn..|]|].
    { unfold seal_tokens, wrapped_nullable, wrapped_encrypt. cbn [truthy p_key]. by rewrite Ev. }
    eapply rtc_l; [apply FStep, (SInsert _ _ (mkProcess (Some key) true) toy_draws toy_draws ada_row "acme" (Some "gho") None (Some v) None
      (mkProcess (Some key) true) (mkStore [] None [] [])); [done|apply toy_drawn..|done|done|apply not_elem_of_nil|]|].
    { unfold seal_tokens, wrapped_nullable, wrapped_encrypt. cbn [truthy p_key u_id ada_row]. by rewrite Ev. }
    eapply rtc_l; [apply FStep, SCrash|].
    apply rtc_once, FStep, (SBoot _ no_env (Some key') same_draws (inr (mkInit (Some key') true))); [done|intros; apply toy_drawn|].
    change (runEncryptionGuards fingerprint no_env (Some key') same_draws store =
      (inr (mkInit (Some key') true), with_fp (Some (fingerprint key')) store)).
    unfold runEncryptionGuards. cbn [truthy s_fp store s_users]. rewrite filter_cons_True by by left.
    cbv iota. rewrite decide_True by done. unfold finish, migratePlaintextIdpTokens. cbn [s_users store with_fp].
    rewrite filter_cons_False, filter_nil; [done|]. intros [E|E]; apply E; simpl; by rewrite ?Hg.
  - apply elem_of_cells. exists (set_idp_tokens (Some v) None ada_row). split_and!; [left|done|by left].
  - done.
  - done.
  - intros ec. by eapply decrypt_other_key; [apply toy_drawn|..].
Qed.

Definition key_a : Buffer := bytes "a".
Definition key_b : Buffer := bytes "b".
Definition prefixed (k : Buffer) : string := "f" +:+ text k.

Lemma rollback_orphans_tokens_witness :
  ∃ sy c, rtc (@failing_step toy_aead prefixed) fresh sy ∧ c ∈ cells (s_users (sy_store sy)) ∧
    sy_process sy = Some (mkProcess (Some key_b) true) ∧ s_fp (sy_store sy) = Some "fb".
Proof.
  destruct (@rollback_orphans_tokens toy_aead toy_aead_laws prefixed key_a key_b) as (sy & c & Hr & Hc & Hp & Hf & _);
    [discriminate|]. exists sy, c. split; [exact Hr|]. split; [exact Hc|]. split; [exact Hp|exact Hf].
Defined.

(** Ada signs in, the server is started again with the same key, and opens her token. *)
Definition sealed_gho : string := default "" (@encrypt toy_aead key_a toy_draws "gho" (mkEnc "acme" ACCESS "ada")).
Definition after_login : Sys :=
  mkSys (with_tokens [set_idp_tokens (Some sealed_gho) None ada_row]
           (log "encryption.config.loaded" (Some "fa") (mkStore [] (Some "fa") [] []))) (Some (mkProcess (Some key_a) true))
    (note "ada" REFRESH "acme" None (note "ada" ACCESS "acme" (Some "gho") (settle "ada" "acme" (use_key (Some key_a) blank)))).

Lemma login_run : rtc (@step toy_aead prefixed) fresh after_login.
Proof.
  eapply rtc_l; [apply (@start_empty toy_aead toy_aead_laws prefixed key_a)|].
  apply rtc_once, (@SInsert toy_aead prefixed (mkSys (mkStore [] None [] []) (Some (mkProcess (Some key_a) false)) (use_key (Some key_a) blank))
    (mkProcess (Some key_a) false) toy_draws toy_draws ada_row "acme" (Some "gho") None
    (Some sealed_gho) None (mkProcess (Some key_a) true)
    (log "encryption.config.loaded" (Some "fa") (mkStore [] (Some "fa") [] []))); [done|apply toy_drawn..|done|done|apply not_elem_of_nil|].
  vm_compute. reflexivity.
Qed.

Lemma tokens_recoverable_witness :
  @wrapped_decrypt toy_aead (mkProcess (Some key_a) true) sealed_gho (mkEnc "acme" ACCESS "ada") = inr "gho".
Proof.
  destruct (@tokens_recoverable toy_aead toy_aead_laws prefixed fresh after_login (mkProcess (Some key_a) true)
    (set_idp_tokens (Some sealed_gho) None ada_row) ACCESS sealed_gho) as (org & t & Hw & Ho & _).
  - intros k. discriminate.
  - reflexivity.
  - reflexivity.
  - constructor.
  - constructor.
  - exact login_run.
  - intros k k' Hk Hk' _. cbn in Hk, Hk'. apply list_elem_of_singleton in Hk, Hk'. congruence.
  - reflexivity.
  - left.
  - left.
  - injection Hw as <- <-. exact (Ho eq_refl).
Defined.

End EncryptionSafety.
