(* ===== verification/EncryptionCli.v ===== *)
(** * The migration command ([cli/encryption/migrate.ts])

    Encrypts or decrypts the stored tokens in place, in batches by identifier; each
    batch is a transaction over rows that were read before it, and a column is
    written only if it still holds what was read. *)

From S2P Require Import Prelude Paths AuthState Rotation Envelope EnvelopeSafety MasterKey EncryptionBoot.
Local Open Scope Z_scope.

Module EncryptionCli.
Import Rotation Envelope EnvelopeSafety EncryptionBoot.

(** [/^enc:v[0-9]+:/]; [seen] tells whether a digit came first. *)
Fixpoint digits_then_colon (seen : bool) (s : string) : bool :=
  match s with
  | EmptyString => false
  | String a s => if Ascii.eqb a ":" then seen else is_digit a && digits_then_colon true s
  end.

Definition ENC_RE (v : string) : bool :=
  match strip "enc:v" v with Some r => digits_then_colon false r | None => false end.

Record MigrateSummary := mkSummary {
  scanned : nat; changed : nat; skipped_cas : nat; already_done : nat; null_skipped : nat
}.

Definition no_summary : MigrateSummary := mkSummary 0 0 0 0 0.
Definition count_scanned (m : MigrateSummary) := mkSummary (S (scanned m)) (changed m) (skipped_cas m) (already_done m) (null_skipped m).
Definition count_changed (m : MigrateSummary) := mkSummary (scanned m) (S (changed m)) (skipped_cas m) (already_done m) (null_skipped m).
Definition count_cas (m : MigrateSummary) := mkSummary (scanned m) (changed m) (S (skipped_cas m)) (already_done m) (null_skipped m).
Definition count_done (m : MigrateSummary) := mkSummary (scanned m) (changed m) (skipped_cas m) (S (already_done m)) (null_skipped m).
Definition count_null (m : MigrateSummary) := mkSummary (scanned m) (changed m) (skipped_cas m) (already_done m) (S (null_skipped m)).

(** The rows and the counters, in a batch. *)
Notation Batch := (list UserRow * MigrateSummary)%type.

(** A column: its name, and how it is read and written. *)
Record Column := mkColumn {
  c_name : string; c_get : UserRow → option string; c_set : option string → UserRow → UserRow
}.
Definition access_column : Column := mkColumn ACCESS idp_access_token set_access.
Definition refresh_column : Column := mkColumn REFRESH idp_refresh_token set_refresh.

(** [UPDATE users SET col = ? WHERE id = ? AND col = ?], and its count. *)
Definition compare_and_set (c : Column) (id old new : string) (b : Batch) : Batch :=
  let P u := u_id u = id ∧ c_get c u = Some old in
  (update_where P (c_set c (Some new)) b.1,
   if bool_decide (changes P b.1 = 0%nat) then count_cas b.2 else count_changed b.2).

Section migrate.
Context `{Aead} (key : Buffer) (dr : string → string → Draws).

Definition context_of (r : UserRow) (c : Column) : EncryptionContext := mkEnc (primary_org_id r) (c_name c) (u_id r).

(** The two bodies of the loop over the columns; [None] is an exception. *)
Definition encrypt_column (r : UserRow) (c : Column) (b : Batch) : option Batch :=
  match truthy (c_get c r) with
  | None => Some (b.1, count_null b.2)
  | Some v =>
      if ENC_RE v then Some (b.1, count_done b.2)
      else ct ← encrypt key (dr (u_id r) (c_name c)) v (context_of r c); Some (compare_and_set c (u_id r) v ct b)
  end.

Definition decrypt_column (r : UserRow) (c : Column) (b : Batch) : option Batch :=
  match c_get c r with
  | None => Some (b.1, count_null b.2)
  | Some v =>
      if negb (ENC_RE v) then Some (b.1, count_done b.2)
      else match decrypt key v (context_of r c) with
           | inl _ => None
           | inr t => Some (compare_and_set c (u_id r) v t b)
           end
  end.

Definition on_row (column : UserRow → Column → Batch → option Batch) (r : UserRow) (b : Batch) : option Batch :=
  b ← column r access_column (b.1, count_scanned b.2); column r refresh_column b.

End migrate.

(** ** The loop *)

Definition by_id (a b : UserRow) : Prop := str_le (u_id a) (u_id b).
#[global] Instance by_id_dec : RelDecision by_id.
Proof. intros a b. unfold by_id. apply _. Defined.

(** [id > ?] *)
Definition beyond (lastId : string) (u : UserRow) : Prop := ¬ str_le (u_id u) lastId.
#[global] Instance beyond_dec lastId u : Decision (beyond lastId u).
Proof. unfold beyond. apply _. Defined.

Inductive Migration := Finished (us : list UserRow) (m : MigrateSummary) | Broken (us : list UserRow) | Running.

Section loop.
Context (sel : UserRow → bool) (work : UserRow → Batch → option Batch) (batchSize : nat).

Fixpoint run_batch (rows : list UserRow) (b : Batch) : option Batch :=
  match rows with [] => Some b | r :: rows => b ← work r b; run_batch rows b end.

Definition select_batch (lastId : string) (us : list UserRow) : list UserRow :=
  take batchSize (merge_sort by_id (filter (λ u, beyond lastId u ∧ sel u = true) us)).

(** [other] is what another process does between a read and its transaction; an
    exception undoes the batch and ends the command. *)
Fixpoint batches (other : nat → list UserRow → list UserRow) (fuel : nat) (lastId : string) (b : Batch) : Migration :=
  match fuel with
  | O => Running
  | S fuel =>
      match select_batch lastId b.1 with
      | [] => Finished b.1 b.2
      | rows =>
          let us := other fuel b.1 in
          match run_batch rows (us, b.2) with
          | None => Broken us
          | Some b => batches other fuel (default lastId (u_id <$> last rows)) b
          end
      end
  end.
End loop.

Definition alone : nat → list UserRow → list UserRow := λ _ us, us.

Definition has_glob (u : UserRow) : bool := sealed_value (idp_access_token u) || sealed_value (idp_refresh_token u).

Section commands.
Context `{Aead} (key : Buffer) (dr : string → string → Draws) (batchSize : nat).

Definition runEncryptBatches other fuel us : Migration :=
  batches (λ _, true) (on_row (encrypt_column key dr)) batchSize other fuel "" (us, no_summary).

Definition runDecryptBatches other fuel us : Migration :=
  batches has_glob (on_row (decrypt_column key)) batchSize other fuel "" (us, no_summary).

End commands.

(** ** [runMigration] *)

Inductive Refusal := BadDirection | DaemonRunning | KeyMissing | KeyBad (e : MasterKey.KeyError) | LockHeld.

Inductive MigrationResult := Refused (why : Refusal) | Ended (m : Migration).

Definition exitCode (r : MigrationResult) : Z :=
  match r with
  | Ended (Finished _ m) => if bool_decide (0 < skipped_cas m)%nat then 1 else 0
  | _ => 2
  end.

Definition runMigration `{Aead} (direction : string) (batchSize : Z) (force : bool) (runningPid : option Z)
    (rawKey : option string) (lockFree : bool) (dr : string → string → Draws) other fuel us : MigrationResult :=
  let direction := Paths.toLowerCase direction in
  if decide (direction ≠ "encrypt" ∧ direction ≠ "decrypt") then Refused BadDirection
  else if bool_decide (runningPid ≠ None) && negb force then Refused DaemonRunning
  else match truthy rawKey with
       | None => Refused KeyMissing
       | Some raw =>
           match MasterKey.decodeMasterKey raw with
           | inl e => Refused (KeyBad e)
           | inr key =>
               if negb lockFree then Refused LockHeld
               else
                 let n := Z.to_nat (Z.max 1 batchSize) in
                 Ended (if decide (direction = "encrypt") then runEncryptBatches key dr n other fuel us
                        else runDecryptBatches key n other fuel us)
           end
       end.

End EncryptionCli.

(** * The migration treats every row once, and can be undone *)

From S2P Require Import Prelude Paths AuthState Rotation Envelope EnvelopeSafety MasterKey EncryptionBoot EncryptionSafety.
Local Open Scope Z_scope.

Module MigrationSafety.
Import Rotation Envelope EnvelopeSafety EncryptionBoot EncryptionSafety EncryptionCli.

(** ** The order of identifiers *)

#[global] Instance by_id_trans : Transitive by_id.
Proof. intros a b c. unfold by_id. apply transitivity. Qed.
#[global] Instance by_id_total : Total by_id.
Proof. intros a b. unfold by_id. apply total, _. Qed.

(** ** One pass *)

Section cursor.
Context (sel : UserRow → bool) (work : UserRow → list UserRow * MigrateSummary → option (list UserRow * MigrateSummary)).
Context (n : nat) (f : UserRow → UserRow) (Q : UserRow → Prop).
Hypothesis (Hn : (0 < n)%nat) (Hid : ∀ u, u_id (f u) = u_id u).
Hypothesis HQ : ∀ u, Q u → Q (f u).
Hypothesis Hwork : ∀ r us m, NoDup (u_id <$> us) → r ∈ us → Q r →
  ∃ m', work r (us, m) = Some (update_where (λ u, u_id u = u_id r) f us, m').

Lemma row_ids_update P `{!∀ u, Decision (P u)} us : u_id <$> update_where P f us = u_id <$> us.
Proof. apply fmap_update_where. by intros. Qed.

Lemma run_batch_all rows us m :
  NoDup (u_id <$> us) → NoDup (u_id <$> rows) → (∀ r, r ∈ rows → r ∈ us ∧ Q r) →
  ∃ m', run_batch work rows (us, m) = Some (update_where (λ u, u_id u ∈ u_id <$> rows) f us, m').
Proof.
  revert us m. induction rows as [|r rows IH]; intros us m Hnd Hndr Hsub; simpl.
  - exists m. do 2 f_equal. symmetry. apply update_where_none. intros u _ []%elem_of_nil.
  - destruct (Hwork r us m Hnd) as [m1 ->]; [apply Hsub; left..|]. cbn [mbind option_bind].
    apply NoDup_cons in Hndr as [Hr Hndr].
    destruct (IH (update_where (λ u, u_id u = u_id r) f us) m1) as [m2 E].
    { by rewrite row_ids_update. }
    { done. }
    { intros x Hx. split; [|apply Hsub; by right]. apply elem_of_update_where. exists x. split; [apply Hsub; by right|]. rewrite decide_False; [done|].
      intros Ex. apply Hr. rewrite <- Ex. by apply list_elem_of_fmap_2. }
    exists m2. rewrite E. do 2 f_equal. apply update_where_join.
    + intros x. by rewrite Hid.
    + intros x -> Hx. by apply Hr.
    + intros x. apply elem_of_cons.
Qed.

(** The identifiers that are still to come. *)
Definition ahead (lastId : string) (us : list UserRow) : list string :=
  filter (λ i, ¬ str_le i lastId) (u_id <$> us).

Lemma ahead_shorter lastId lastId' us :
  str_le lastId lastId' → lastId' ∈ ahead lastId us → (length (ahead lastId' us) < length (ahead lastId us))%nat.
Proof.
  intros Hle [Hb Hin]%list_elem_of_filter. unfold ahead.
  assert (filter (λ i, ¬ str_le i lastId') (u_id <$> us) = filter (λ i, ¬ str_le i lastId') (filter (λ i, ¬ str_le i lastId) (u_id <$> us))) as ->.
  { rewrite list_filter_filter. apply list_filter_iff. intros x. split; [|tauto]. intros Hx. split; [done|].
    intros Hx'. apply Hx. by etrans. }
  apply length_filter_lt with lastId'; [by apply list_elem_of_filter|]. intros Hx. by apply Hx.
Qed.

(** The batch is the head of the sorted rows, and the rest lies beyond its last row. *)
Lemma select_batch_spec lastId us r rows :
  NoDup (u_id <$> us) → select_batch sel n lastId us = r :: rows →
  let l := default lastId (u_id <$> last (r :: rows)) in
  NoDup (u_id <$> r :: rows) ∧ (∀ x, x ∈ r :: rows → x ∈ us ∧ beyond lastId x ∧ sel x = true ∧ str_le (u_id x) l) ∧
  str_le lastId l ∧ l ∈ ahead lastId us ∧
  (∀ x, x ∈ us → beyond lastId x → sel x = true → x ∉ r :: rows → beyond l x).
Proof.
  intros Hnd Es. unfold select_batch in Es. set (P := λ u, beyond lastId u ∧ sel u = true) in *.
  set (R := merge_sort by_id (filter P us)) in *.
  assert (R ≡ₚ filter P us) as Hperm by apply merge_sort_Permutation.
  assert (NoDup (u_id <$> R)) as HndR.
  { rewrite Hperm. eapply sublist_NoDup; [exact Hnd|]. apply fmap_sublist, sublist_filter. }
  assert (StronglySorted by_id R) as Hsort by (apply Sorted_StronglySorted, Sorted_merge_sort; apply _).
  rewrite <- (take_drop n R), Es in HndR, Hsort. rewrite fmap_app in HndR. apply NoDup_app in HndR as (Hnd1 & Hdisj & _).
  assert (∀ x, x ∈ r :: rows ++ drop n R → x ∈ us ∧ P x) as Hin.
  { intros x. change (r :: rows ++ drop n R) with ((r :: rows) ++ drop n R). rewrite <- Es, take_drop, Hperm, list_elem_of_filter. tauto. }
  destruct (last (r :: rows)) as [z|] eqn:El; [|by apply last_None in El]. change (default lastId (u_id <$> Some z)) with (u_id z). cbv zeta.
  pose proof (last_Some_elem_of _ _ El) as Hz. apply last_Some in El as [init Ei].
  assert (∀ x, x ∈ r :: rows → str_le (u_id x) (u_id z)) as Hle.
  { intros x Hx. rewrite Ei in Hx, Hsort. apply elem_of_app in Hx as [Hx|Hx].
    - apply StronglySorted_app_1_l in Hsort. eapply (StronglySorted_app_1_elem_of by_id); [exact Hsort|done|left].
    - apply list_elem_of_singleton in Hx as ->. reflexivity. }
  destruct (Hin z) as [Hzus [Hzb _]]; [change (r :: rows ++ drop n R) with ((r :: rows) ++ drop n R); apply elem_of_app; by left|].
  split_and!.
  - done.
  - intros x Hx. destruct (Hin x) as [? [? ?]]; [change (r :: rows ++ drop n R) with ((r :: rows) ++ drop n R); apply elem_of_app; by left|].
    split_and!; [done..|by apply Hle].
  - destruct (total str_le lastId (u_id z)) as [|Hzl]; [done|by destruct Hzb].
  - apply list_elem_of_filter. split; [done|]. by apply list_elem_of_fmap_2.
  - intros x Hx Hb Hs Hnot Hxl.
    assert (x ∈ drop n R) as Hd.
    { assert (x ∈ R) as HxR by (rewrite Hperm, list_elem_of_filter; done).
      rewrite <- (take_drop n R), Es in HxR. by apply elem_of_app in HxR as [?|?]. }
    assert (str_le (u_id z) (u_id x)) as Hge by (eapply (StronglySorted_app_1_elem_of by_id); [exact Hsort|done..]).
    assert (u_id x = u_id z) as E by (by apply (anti_symm str_le)).
    apply (Hdisj (u_id z)); [by apply list_elem_of_fmap_2|]. rewrite <- E. by apply list_elem_of_fmap_2.
Qed.

(** Alone, with fuel for every row, the loop treats each selected row once. *)
Lemma batches_all fuel lastId us m :
  NoDup (u_id <$> us) → (∀ u, u ∈ us → Q u) → (length (ahead lastId us) < fuel)%nat →
  ∃ m', batches sel work n alone fuel lastId (us, m) =
    Finished (update_where (λ u, beyond lastId u ∧ sel u = true) f us) m'.
Proof.
  revert lastId us m. induction fuel as [|fuel IH]; intros lastId us m Hnd Hq Hf; [lia|].
  cbn [batches fst snd]. destruct (select_batch sel n lastId us) as [|r rows] eqn:Es.
  - exists m. f_equal. symmetry. apply update_where_none. intros u Hu HP. unfold select_batch in Es.
    assert (merge_sort by_id (filter (λ u, beyond lastId u ∧ sel u = true) us) = []) as En.
    { destruct (merge_sort _ _); [done|]. destruct n; [lia|done]. }
    assert (u ∈ merge_sort by_id (filter (λ u, beyond lastId u ∧ sel u = true) us)) as Hin
      by (rewrite merge_sort_Permutation, list_elem_of_filter; done).
    rewrite En in Hin. by apply elem_of_nil in Hin.
  - destruct (select_batch_spec lastId us r rows Hnd Es) as (Hndr & Hin & Hle & Hl & Hrest).
    set (l := default lastId (u_id <$> last (r :: rows))) in *. unfold alone at 1.
    destruct (run_batch_all (r :: rows) us m Hnd Hndr) as [m1 ->].
    { intros x Hx. destruct (Hin x Hx) as (? & _). auto. }
    destruct (IH l (update_where (λ u, u_id u ∈ u_id <$> r :: rows) f us) m1) as [m2 E].
    { by rewrite row_ids_update. }
    { intros u (u0 & Hu0 & ->)%elem_of_update_where. case_decide; auto. }
    { unfold ahead. rewrite row_ids_update. pose proof (ahead_shorter lastId l us Hle Hl). unfold ahead in *. lia. }
    exists m2. rewrite E. f_equal. unfold update_where. rewrite <- list_fmap_compose. apply list_fmap_ext.
    intros i x Hx%list_elem_of_lookup_2. unfold compose. destruct (decide (u_id x ∈ u_id <$> r :: rows)) as [Hxr|Hxr].
    + apply list_elem_of_fmap in Hxr as (y & Ey & Hy). destruct (Hin y Hy) as (Hyus & Hyb & Hys & Hyl).
      assert (x = y) as -> by by apply (NoDup_key_eq u_id us).
      rewrite decide_False, decide_True; [done..|]. intros [Hb _]. apply Hb. by rewrite Hid.
    + assert (x ∉ r :: rows) as Hxr' by (intros Hx'; apply Hxr; by apply list_elem_of_fmap_2).
      destruct (decide (beyond lastId x ∧ sel x = true)) as [[Hb Hs]|Hno].
      * rewrite decide_True; [done|]. split; [|done]. by apply Hrest.
      * rewrite decide_False; [done|]. intros [Hb Hs]. apply Hno. split; [|done]. intros Hx'. apply Hb. by etrans.
Qed.
End cursor.

(** ** The two directions on a row *)

Section directions.
Context `{AeadLaws} (key : Buffer) (dr : string → string → Draws).
Hypothesis Hdr : ∀ id col, drawn (dr id col).

(** A column with the laws of a field. *)
Definition lawful (c : Column) : Prop := c = access_column ∨ c = refresh_column.

(** The stored value after either direction. *)
Definition encrypted (u : UserRow) (c : Column) : option string :=
  match truthy (c_get c u) with
  | Some v => if ENC_RE v then Some v else encrypt key (dr (u_id u) (c_name c)) v (context_of u c)
  | None => c_get c u
  end.

Definition decrypted (u : UserRow) (c : Column) : option string :=
  match c_get c u with
  | Some v => if ENC_RE v then match decrypt key v (context_of u c) with inr t => Some t | inl _ => None end else Some v
  | None => None
  end.

Definition both (value : UserRow → Column → option string) (u : UserRow) : UserRow :=
  set_idp_tokens (value u access_column) (value u refresh_column) u.

(** A compare and set on a row that still has the value that was read. *)
Lemma compare_and_set_row c r r' v x us m :
  NoDup (u_id <$> us) → r' ∈ us → u_id r' = u_id r → c_get c r' = Some v →
  compare_and_set c (u_id r) v x (us, m) = (update_where (λ u, u_id u = u_id r) (c_set c (Some x)) us, count_changed m).
Proof.
  intros Hnd Hr Hid Hv. unfold compare_and_set. cbn [fst snd]. f_equal.
  - apply update_where_ext; [|done]. intros u Hu. split; [tauto|]. intros E. split; [done|].
    by rewrite (NoDup_key_eq u_id us u r' Hnd Hu Hr) by congruence.
  - pose proof (proj2 (changes_pos (λ u, u_id u = u_id r ∧ c_get c u = Some v) us) (ex_intro _ r' (conj Hr (conj Hid Hv)))).
    rewrite bool_decide_eq_false_2 by lia. done.
Qed.

(** Writing a column with what it holds. *)
Lemma set_same c r r' us :
  lawful c → NoDup (u_id <$> us) → r' ∈ us → u_id r' = u_id r → c_get c r' = c_get c r →
  update_where (λ u, u_id u = u_id r) (c_set c (c_get c r)) us = us.
Proof.
  intros Hc Hnd Hr Hid Hv. apply update_where_id. intros u Hu E.
  rewrite (NoDup_key_eq u_id us u r' Hnd Hu Hr) by congruence. rewrite <- Hv. destruct Hc as [-> | ->]; by destruct r'.
Qed.

(** What a direction does with a column of a row. *)
Definition does (column : UserRow → Column → list UserRow * MigrateSummary → option (list UserRow * MigrateSummary))
    (value : UserRow → Column → option string) (Q : UserRow → Prop) : Prop :=
  ∀ c r r' us m, lawful c → Q r → NoDup (u_id <$> us) → r' ∈ us → u_id r' = u_id r → c_get c r' = c_get c r →
    ∃ m', column r c (us, m) = Some (update_where (λ u, u_id u = u_id r) (c_set c (value r c)) us, m').

Lemma on_row_does column value Q r us m :
  does column value Q → NoDup (u_id <$> us) → r ∈ us → Q r →
  ∃ m', on_row column r (us, m) = Some (update_where (λ u, u_id u = u_id r) (both value) us, m').
Proof.
  intros Hd Hnd Hr HQ. unfold on_row. cbn [fst snd].
  destruct (Hd access_column r r us (count_scanned m)) as [m1 ->]; [by left|done..|]. cbn [mbind option_bind].
  set (us1 := update_where _ _ us). assert (NoDup (u_id <$> us1)) as Hnd1 by by (unfold us1; rewrite fmap_update_where).
  destruct (Hd refresh_column r (set_access (value r access_column) r) us1 m1) as [m2 ->]; [by right|done..| |done|done|].
  { unfold us1. apply elem_of_update_where. exists r. by rewrite decide_True. }
  exists m2. do 2 f_equal. unfold us1. rewrite update_where_twice by done. apply update_where_ext; [done|].
  intros x Hx E. by rewrite (NoDup_key_eq u_id us x r Hnd Hx Hr E).
Qed.

(** Contexts that fit. *)
Definition fits (u : UserRow) : Prop := ∀ c, lawful c → aad (context_of u c) ≠ None.

Lemma truthy_get v : truthy v = None → v = None ∨ v = Some "".
Proof. destruct v as [[|]|]; auto; discriminate. Qed.

Lemma encrypt_fits d t c : aad c ≠ None → ∃ v, encrypt key d t c = Some v.
Proof.
  unfold encrypt. destruct (aad c); [|done]. intros _. cbn [mbind option_bind].
  destruct (gcm_seal _ _ _ _), (gcm_seal _ _ _ _). eauto.
Qed.

Lemma encrypt_does : does (encrypt_column key dr) encrypted fits.
Proof.
  intros c r r' us m Hc Hq Hnd Hr Hid Hv. unfold encrypt_column, encrypted.
  destruct (truthy (c_get c r)) as [v|] eqn:Et.
  - pose proof (truthy_inv _ _ Et) as Eg. destruct (ENC_RE v).
    + eexists. rewrite <- Eg, (set_same c r r') by done. done.
    + destruct (encrypt_fits (dr (u_id r) (c_name c)) v (context_of r c) (Hq c Hc)) as [x ->]. cbn [mbind option_bind].
      eexists. by rewrite (compare_and_set_row c r r') by (done || congruence).
  - eexists. by rewrite (set_same c r r').
Qed.

(** Ciphertexts that open to something that is none. *)
Definition opens (u : UserRow) : Prop :=
  ∀ c v, lawful c → c_get c u = Some v → ENC_RE v = true → ∃ t, decrypt key v (context_of u c) = inr t ∧ ENC_RE t = false.

Lemma decrypt_does : does (decrypt_column key) decrypted opens.
Proof.
  intros c r r' us m Hc Hq Hnd Hr Hid Hv. unfold decrypt_column, decrypted. destruct (c_get c r) as [v|] eqn:Eg.
  - destruct (ENC_RE v) eqn:Ee; cbn [negb].
    + destruct (Hq c v Hc Eg Ee) as (t & -> & _). eexists. by rewrite (compare_and_set_row c r r').
    + eexists. rewrite <- Eg, (set_same c r r') by congruence. done.
  - eexists. rewrite <- Eg, (set_same c r r') by congruence. done.
Qed.

Lemma get_both value u c : lawful c → c_get c (both value u) = value u c.
Proof. by intros [-> | ->]. Qed.

Lemma fits_both value u : fits u → fits (both value u).
Proof. done. Qed.

Lemma opens_decrypted u : opens u → opens (both decrypted u).
Proof.
  intros Ho c v Hc. rewrite get_both by done. unfold decrypted. destruct (c_get c u) as [v0|] eqn:Eg; [|done].
  destruct (ENC_RE v0) eqn:Ee; [|intros [= ->]; congruence].
  destruct (Ho c v0 Hc Eg Ee) as (t & -> & Et). intros [= ->]. congruence.
Qed.

Lemma digits_colon_has s b : digits_then_colon b s = true → has_char ":" s = true.
Proof.
  revert b. induction s as [|a s IH]; intros b; [done|]. simpl. destruct (Ascii.eqb a ":"); [done|].
  intros [_ Hs]%andb_true_iff. simpl. by eapply IH.
Qed.

Lemma enc_re_glob v : ENC_RE v = true → glob_enc v = true.
Proof.
  unfold ENC_RE, glob_enc. destruct (strip "enc:v" v) as [[|a r]|]; [done| |done]. simpl. destruct (Ascii.eqb a ":"); [done|].
  intros [Hd Hr]%andb_true_iff. rewrite Hd. by eapply digits_colon_has.
Qed.

Lemma encrypt_enc_re d t c v : encrypt key d t c = Some v → ENC_RE v = true.
Proof.
  unfold encrypt. destruct (aad c); [|done]. cbn [mbind option_bind].
  destruct (gcm_seal _ _ _ _), (gcm_seal _ _ _ _). by intros [= <-].
Qed.

(** Tokens in the clear. *)
Definition clear_row (u : UserRow) : Prop := ∀ c v, lawful c → c_get c u = Some v → glob_enc v = false.

Lemma encrypted_clear u c :
  lawful c → clear_row u → fits u →
  (truthy (c_get c u) = None ∧ encrypted u c = c_get c u) ∨
  ∃ t v, truthy (c_get c u) = Some t ∧ ENC_RE t = false ∧ encrypted u c = Some v ∧
    encrypt key (dr (u_id u) (c_name c)) t (context_of u c) = Some v.
Proof.
  intros Hc Hu Hf. unfold encrypted. destruct (truthy (c_get c u)) as [t|] eqn:Et; [right|by left].
  assert (ENC_RE t = false) as Ee.
  { destruct (ENC_RE t) eqn:E; [|done]. apply enc_re_glob in E. rewrite (Hu c t Hc) in E; [done|]. by apply truthy_inv. }
  destruct (encrypt_fits (dr (u_id u) (c_name c)) t (context_of u c) (Hf c Hc)) as [v Ev].
  exists t, v. by rewrite Ee, Ev.
Qed.

Lemma opens_encrypted u : clear_row u → fits u → opens (both encrypted u).
Proof.
  intros Hu Hf c v Hc. rewrite get_both by done.
  destruct (encrypted_clear u c Hc Hu Hf) as [[Et ->]|(t & v' & Et & Ee & -> & Ev)].
  - apply truthy_get in Et as [-> | ->]; [done|]. by intros [= <-].
  - intros [= ->] _. exists t. split; [|done]. change (context_of (both encrypted u) c) with (context_of u c).
    by eapply decrypt_sealed.
Qed.

Lemma decrypted_encrypted u : clear_row u → fits u → both decrypted (both encrypted u) = u.
Proof.
  intros Hu Hf. assert (∀ c, lawful c → decrypted (both encrypted u) c = c_get c u) as Hd.
  { intros c Hc. unfold decrypted. rewrite get_both by done.
    destruct (encrypted_clear u c Hc Hu Hf) as [[Et ->]|(t & v & Et & Ee & -> & Ev)].
    - destruct (truthy_get _ Et) as [-> | ->]; done.
    - rewrite (encrypt_enc_re _ _ _ _ Ev). change (context_of (both encrypted u) c) with (context_of u c).
      rewrite (decrypt_sealed _ _ _ _ _ (Hdr _ _) Ev). symmetry. by apply truthy_inv. }
  unfold both at 1. rewrite !Hd by (by left) || (by right). by destruct u.
Qed.

(** A row without ciphertexts after encryption had nothing to seal. *)
Lemma unsealed_row u : clear_row u → fits u → has_glob (both encrypted u) = false → both encrypted u = u.
Proof.
  intros Hu Hf. unfold has_glob. intros [Ha Hr]%orb_false_iff.
  assert (∀ c, lawful c → sealed_value (c_get c (both encrypted u)) = false → encrypted u c = c_get c u) as Hk.
  { intros c Hc. rewrite get_both by done. destruct (encrypted_clear u c Hc Hu Hf) as [[_ ->]|(t & v & _ & _ & -> & Ev)]; [done|].
    simpl. by rewrite (enc_re_glob _ (encrypt_enc_re _ _ _ _ Ev)). }
  unfold both. rewrite (Hk access_column), (Hk refresh_column); [by destruct u|by right|done|by left|done].
Qed.

End directions.

Lemma ahead_length lastId us : (length (ahead lastId us) ≤ length us)%nat.
Proof. unfold ahead. etrans; [apply length_filter|]. by rewrite length_fmap. Qed.

(** The migration can be undone. On a database whose tokens are in the clear,
    with contexts that fit, and whatever the batch sizes: the command that encrypts ends
    having sealed every token of every account with an identifier, and the command that
    decrypts, with the same key, ends with exactly the rows there were. *)
Theorem migrate_roundtrip `{AeadLaws} key dr n n' us fuel :
  (∀ id col, drawn (dr id col)) → (0 < n)%nat → (0 < n')%nat → NoDup (u_id <$> us) →
  (∀ u, u ∈ us → clear_row u ∧ fits u) → (length us < fuel)%nat →
  ∃ us' m m', runEncryptBatches key dr n alone fuel us = Finished us' m ∧
    (∀ u c v, u ∈ us' → lawful c → u_id u ≠ "" → c_get c u = Some v → v = "" ∨ glob_enc v = true) ∧
    runDecryptBatches key n' alone fuel us' = Finished us m'.
Proof.
  intros Hdr Hn Hn' Hnd Hus Hf. unfold runEncryptBatches, runDecryptBatches.
  destruct (batches_all (λ _, true) (on_row (encrypt_column key dr)) n (both (encrypted key dr)) fits Hn (λ _, eq_refl)
    (fits_both _) ltac:(intros; by eapply on_row_does; [apply encrypt_does|..]) fuel "" us no_summary Hnd) as [m E].
  { intros u Hu. by apply Hus. } { pose proof (ahead_length "" us). lia. }
  set (us' := update_where _ _ us) in E. exists us', m.
  assert (NoDup (u_id <$> us')) as Hnd' by by (unfold us'; rewrite fmap_update_where).
  assert (∀ u, u ∈ us' → ∃ u0, u0 ∈ us ∧ u = (if decide (beyond "" u0 ∧ true = true) then both (encrypted key dr) u0 else u0)) as Hin
    by (intros u; unfold us'; rewrite elem_of_update_where; naive_solver).
  destruct (batches_all has_glob (on_row (decrypt_column key)) n' (both (decrypted key)) (opens key) Hn' (λ _, eq_refl)
    (opens_decrypted key) ltac:(intros; by eapply on_row_does; [apply decrypt_does|..]) fuel "" us' no_summary Hnd') as [m' E'].
  { intros u (u0 & Hu0 & ->)%Hin. destruct (Hus u0 Hu0) as [Hc0 Hf0]. destruct (decide (beyond "" u0 ∧ true = true)); [by apply opens_encrypted|].
    intros c v Hc Ev Ee%enc_re_glob. rewrite (Hc0 c v Hc Ev) in Ee. done. }
  { pose proof (ahead_length "" us') as Hl. unfold us', update_where in Hl |- *. rewrite length_fmap in Hl. lia. }
  exists m'. split_and!; [exact E| |].
  - intros u c v (u0 & Hu0 & ->)%Hin Hc. destruct (Hus u0 Hu0) as [Hc0 Hf0].
    destruct (decide (beyond "" u0 ∧ true = true)) as [_|Hb].
    + rewrite get_both by done. destruct (encrypted_clear key dr u0 c Hc Hc0 Hf0) as [[Et ->]|(t & x & _ & _ & -> & Ev)].
      * intros _ Ev. left. apply truthy_get in Et as [Et|Et]; congruence.
      * intros _ [= ->]. right. by eapply enc_re_glob, encrypt_enc_re.
    + intros Hne. destruct Hb. split; [|done]. unfold beyond, str_le. by destruct (u_id u0).
  - rewrite E'. f_equal. unfold us', update_where. rewrite <- list_fmap_compose. rewrite <- (list_fmap_id us) at 2.
    apply list_fmap_ext. intros i u Hu%list_elem_of_lookup_2. unfold compose. destruct (Hus u Hu) as [Hc Hfit].
    destruct (decide (beyond "" u ∧ true = true)) as [[Hb _]|Hb].
    + destruct (decide (beyond "" (both (encrypted key dr) u) ∧ _)) as [_|Hg]; [by apply decrypted_encrypted|].
      apply unsealed_row; [done..|]. destruct (has_glob _) eqn:Eg; [|done]. by destruct Hg.
    + rewrite decide_False; [done|]. intros [Hb' _]. by apply Hb.
Qed.

(** ** Other writers *)

Lemma compare_and_set_cells col id old new b c :
  lawful col → c ∈ cells (compare_and_set col id old new b).1 →
  c ∈ cells b.1 ∨ (c = (id, c_name col, new) ∧ (id, c_name col, old) ∈ cells b.1).
Proof.
  intros Hcol. unfold compare_and_set. cbn [fst]. intros (u & Hu & Hid & Hv)%elem_of_cells.
  apply elem_of_update_where in Hu as (u0 & Hu0 & ->). destruct (decide (u_id u0 = id ∧ c_get col u0 = Some old)) as [[E1 E2]|_].
  2: { left. apply elem_of_cells. by exists u0. }
  destruct c as [[i k] x]. simpl in Hid, Hv.
  destruct Hcol as [-> | ->]; simpl in *; destruct Hv as [[-> Ex]|[-> Ex]]; simpl in Ex; subst i;
    first [injection Ex as ->; right; split; [congruence|] | left];
    (apply elem_of_cells; exists u0; split_and!; [done..|]; auto).
Qed.

Section writers.
Context `{AeadLaws} (key : Buffer) (dr : string → string → Draws).

(** Sealed from a value that was there. *)
Definition sealed_from (us : list UserRow) (c : string * string * string) : Prop :=
  ∃ t ec, (c.1, t) ∈ cells us ∧ ENC_RE t = false ∧ encrypt key (dr c.1.1 c.1.2) t ec = Some c.2.

Definition justified (us us' : list UserRow) : Prop := ∀ c, c ∈ cells us' → c ∈ cells us ∨ sealed_from us c.

Lemma encrypt_column_justified us r col b b' :
  lawful col → justified us b.1 → encrypt_column key dr r col b = Some b' → justified us b'.1.
Proof.
  intros Hcol Hj. unfold encrypt_column. destruct (truthy (c_get col r)) as [v|]; [|by intros [= <-]].
  destruct (ENC_RE v) eqn:Ee; [by intros [= <-]|]. destruct (encrypt _ _ _ _) as [x|] eqn:Ex; [|done]. cbn [mbind option_bind].
  intros [= <-] c [Hc|[-> Hold]]%compare_and_set_cells; [by apply Hj| |done].
  right. exists v, (context_of r col). split_and!; [|done..].
  destruct (Hj _ Hold) as [?|(t & ec & _ & _ & Et)]; [done|]. simpl in Et. apply encrypt_enc_re in Et. congruence.
Qed.

Lemma run_batch_justified us rows b b' :
  justified us b.1 → run_batch (on_row (encrypt_column key dr)) rows b = Some b' → justified us b'.1.
Proof.
  revert b. induction rows as [|r rows IH]; intros b Hj; simpl; [by intros [= <-]|].
  destruct (on_row _ r b) as [b1|] eqn:E; [|done]. cbn [mbind option_bind]. apply IH. revert E. unfold on_row.
  destruct (encrypt_column _ _ r access_column _) as [b2|] eqn:E2; [|done]. cbn [mbind option_bind].
  intros E. eapply encrypt_column_justified; [by right| |exact E].
  eapply encrypt_column_justified; [by left| |exact E2]. exact Hj.
Qed.
End writers.

(** The migration overwrites nothing it has not read. Whatever rows a batch was read
    as, and whatever another process did to the table in the meantime: after the
    transaction every stored token is one that was there when it began, or the
    sealing of the token that was there in the same place. A token a login wrote in between is
    neither lost nor replaced by the sealing of an older one. *)
Theorem migrate_keeps_newer `{AeadLaws} key dr rows us m us' m' id col v :
  run_batch (on_row (encrypt_column key dr)) rows (us, m) = Some (us', m') → (id, col, v) ∈ cells us' →
  (id, col, v) ∈ cells us ∨
  ∃ t ec, (id, col, t) ∈ cells us ∧ ENC_RE t = false ∧ encrypt key (dr id col) t ec = Some v.
Proof.
  intros Hr Hc. apply (run_batch_justified key dr us) in Hr; [|intros c; by left]. exact (Hr (id, col, v) Hc).
Qed.

(** ** Concrete runs *)

Definition plain_ada : UserRow := set_idp_tokens (Some "gho") None ada_row.

Lemma migrate_roundtrip_witness :
  ∃ us' m m', @runEncryptBatches toy_aead key_a same_draws 100 alone 2 [plain_ada] = Finished us' m ∧
    (∀ u c v, u ∈ us' → lawful c → u_id u ≠ "" → c_get c u = Some v → v = "" ∨ glob_enc v = true) ∧
    @runDecryptBatches toy_aead key_a 1 alone 2 us' = Finished [plain_ada] m'.
Proof.
  apply (@migrate_roundtrip toy_aead toy_aead_laws key_a same_draws 100 1 [plain_ada] 2).
  - intros. apply toy_drawn.
  - lia.
  - lia.
  - apply NoDup_singleton.
  - intros u ->%list_elem_of_singleton. split.
    + intros c v [-> | ->]; [by intros [= <-]|done].
    + by intros c [-> | ->].
  - simpl. lia.
Defined.

(** Ada signed in again after the batch was read. *)
Lemma migrate_keeps_newer_witness :
  ∃ m', run_batch (on_row (@encrypt_column toy_aead key_a same_draws)) [plain_ada]
      ([set_idp_tokens (Some "newer") None ada_row], no_summary) = Some ([set_idp_tokens (Some "newer") None ada_row], m') ∧
    skipped_cas m' = 1%nat ∧
    (("ada", ACCESS, "newer") ∈ cells [set_idp_tokens (Some "newer") None ada_row] ∨
     ∃ t ec, ("ada", ACCESS, t) ∈ cells [set_idp_tokens (Some "newer") None ada_row] ∧ ENC_RE t = false ∧
       @encrypt toy_aead key_a (same_draws "ada" ACCESS) t ec = Some "newer").
Proof.
  eexists. split; [vm_compute; reflexivity|]. split; [reflexivity|].
  eapply (@migrate_keeps_newer toy_aead toy_aead_laws key_a same_draws [plain_ada]
    [set_idp_tokens (Some "newer") None ada_row] no_summary [set_idp_tokens (Some "newer") None ada_row]).
  - vm_compute. reflexivity.
  - left.
Defined.

(** The command records no fingerprint: a server that is then started with another
    key adopts it, and has ciphertexts it cannot open. *)
Lemma migrate_then_other_key :
  ∃ us m s, @runEncryptBatches toy_aead key_a same_draws 100 alone 2 [plain_ada] = Finished us m ∧
    @runEncryptionGuards toy_aead prefixed no_env (Some key_b) same_draws (mkStore us None [] []) =
      (inr (mkInit (Some key_b) true), s) ∧
    s_fp s = Some (prefixed key_b) ∧ s_users s = us.
Proof. eexists _, _, _. split; [vm_compute; reflexivity|]. split; [vm_compute; reflexivity|]. split; reflexivity. Qed.

End MigrationSafety.

(** * The lock file of the command line ([cli/lib/pid-lock.ts])

    A file with the identifier of the process that holds it, created exclusively;
    a file left by a dead process is taken over. The system calls of two processes
    interleave, so each is a step; a descriptor keeps writing to the file it
    opened after the name was removed. *)

From S2P Require Import Prelude.
Local Open Scope Z_scope.

Module PidLock.

(** The file under the name, and the contents of the files: a number, or
    nothing that [parseInt] reads. *)
Record Disk := mkDisk { name : option nat; contents : gmap nat (option Z); next : nat }.

(** [openSync(path, "wx")] where the name is free. *)
Definition create_file (d : Disk) : nat * Disk := (next d, mkDisk (Some (next d)) (<[next d := None]> (contents d)) (S (next d))).
Definition write (ino : nat) (pid : Z) (d : Disk) : Disk := mkDisk (name d) (<[ino := Some pid]> (contents d)) (next d).
Definition unlink (d : Disk) : Disk := mkDisk None (contents d) (next d).
Definition read (d : Disk) : option (option Z) := i ← name d; contents d !! i.

Section lock.
Context (isPidAlive : Z → bool).

(** The file is held by a process that is alive and not this one. *)
Definition held_by_other (me : Z) (c : option Z) : option Z :=
  match c with
  | Some p => if isPidAlive p && bool_decide (0 < p) && negb (bool_decide (p = me)) then Some p else None
  | None => None
  end.

Inductive Acquired := Handle | LockHeldError (pid : Z) | Threw.

(** A call that nothing interrupts. *)
Definition acquireLock (me : Z) (d : Disk) : Acquired * Disk :=
  match name d with
  | None => let '(i, d) := create_file d in (Handle, write i me d)
  | Some _ =>
      match read d with
      | None => (Threw, d)
      | Some c =>
          match held_by_other me c with
          | Some p => (LockHeldError p, d)
          | None => let '(i, d) := create_file (unlink d) in (Handle, write i me d)
          end
      end
  end.

(** A removal of a file that is gone is none. *)
Definition releaseLock (d : Disk) : Disk := match name d with Some _ => unlink d | None => d end.

(** ** The calls as steps *)

Inductive Pc := Start | Opened (ino : nat) | Exists | Stale | Removed | Done (a : Acquired).

Inductive sys_step (me : Z) : Pc * Disk → Pc * Disk → Prop :=
  | KCreate d : name d = None → sys_step me (Start, d) (Opened (create_file d).1, (create_file d).2)
  | KExists d : name d ≠ None → sys_step me (Start, d) (Exists, d)
  | KWrite i d : sys_step me (Opened i, d) (Done Handle, write i me d)
  | KReadGone d : read d = None → sys_step me (Exists, d) (Done Threw, d)
  | KReadHeld c p d : read d = Some c → held_by_other me c = Some p → sys_step me (Exists, d) (Done (LockHeldError p), d)
  | KReadStale c d : read d = Some c → held_by_other me c = None → sys_step me (Exists, d) (Stale, d)
  | KUnlink d : name d ≠ None → sys_step me (Stale, d) (Removed, unlink d)
  | KUnlinkGone d : name d = None → sys_step me (Stale, d) (Done Threw, d)
  | KRecreate d : name d = None → sys_step me (Removed, d) (Opened (create_file d).1, (create_file d).2)
  | KRecreateTaken d : name d ≠ None → sys_step me (Removed, d) (Done Threw, d).

(** Two processes. *)
Record Two := mkTwo { pc_a : Pc; pc_b : Pc; disk : Disk }.

Inductive two_step (a b : Z) : relation Two :=
  | StepA pa pa' pb d d' : sys_step a (pa, d) (pa', d') → two_step a b (mkTwo pa pb d) (mkTwo pa' pb d')
  | StepB pa pb pb' d d' : sys_step b (pb, d) (pb', d') → two_step a b (mkTwo pa pb d) (mkTwo pa pb' d').

(** ** An uninterrupted call *)

(** The steps of one process alone are the function. *)
Lemma acquire_steps me d : rtc (sys_step me) (Start, d) (Done (acquireLock me d).1, (acquireLock me d).2).
Proof.
  unfold acquireLock. destruct (name d) as [i|] eqn:En.
  - eapply rtc_l; [apply KExists; congruence|]. destruct (read d) as [c|] eqn:Er; [|apply rtc_once; by constructor].
    destruct (held_by_other me c) as [p|] eqn:Eh; [apply rtc_once; by econstructor|].
    eapply rtc_l; [by eapply KReadStale|]. eapply rtc_l; [apply KUnlink; congruence|].
    eapply rtc_l; [by apply KRecreate|]. apply rtc_once. constructor.
  - eapply rtc_l; [by apply KCreate|]. apply rtc_once. constructor.
Qed.

(** Every file under the name can be read. *)
Definition coherent (d : Disk) : Prop := ∀ i, name d = Some i → is_Some (contents d !! i).

(** What an uninterrupted call does: it is refused exactly when the file names another
    live process, and otherwise leaves a file that names the caller. *)
Theorem acquire_spec me d r d' :
  coherent d → acquireLock me d = (r, d') →
  (∀ p, r = LockHeldError p ↔ ∃ c, read d = Some c ∧ held_by_other me c = Some p) ∧
  (r = Handle → read d' = Some (Some me)) ∧ (r ≠ Handle → d' = d) ∧ r ≠ Threw ∧ coherent d'.
Proof.
  intros Hco. assert (∀ d0, coherent (write (next d0) me (create_file d0).2) ∧ read (write (next d0) me (create_file d0).2) = Some (Some me)) as Hnew.
  { intros d0. split; [intros i [= <-]|]; unfold read; cbn; rewrite lookup_insert_eq; [by eexists|done]. }
  unfold acquireLock. destruct (name d) as [i|] eqn:En.
  - destruct (Hco i En) as [c Ec]. assert (read d = Some c) as Er by (unfold read; by rewrite En).
    rewrite Er. destruct (held_by_other me c) as [p|] eqn:Eh.
    + intros [= <- <-]. split_and!; try done. intros q. split; [intros [= <-]; eauto|]. intros (c' & [= <-] & Eq). congruence.
    + intros [= <- <-]. destruct (Hnew (unlink d)) as [? ?]. split_and!; try done.
      intros q. split; [done|]. intros (c' & [= <-] & Eq). congruence.
  - intros [= <- <-]. destruct (Hnew d) as [? ?]. split_and!; try done.
    intros q. split; [done|]. unfold read. rewrite En. by intros (c' & [=] & _).
Qed.

End lock.

Definition no_file : Disk := mkDisk None ∅ 0.

(** The lock does not exclude. Two live processes that start when there is no lock
    both get it: between the creation of the file and the write of the identifier the
    file is empty, which the other process takes for a stale lock. *)
Theorem lock_race isPidAlive a b :
  a ≠ b → ∃ s, rtc (two_step isPidAlive a b) (mkTwo Start Start no_file) s ∧ pc_a s = Done Handle ∧ pc_b s = Done Handle.
Proof.
  intros _. eexists. split.
  - eapply rtc_l; [by apply StepA, KCreate|]. eapply rtc_l; [by apply StepB, KExists|].
    eapply rtc_l; [eapply StepB, (KReadStale _ _ None); [vm_compute; reflexivity|reflexivity]|].
    eapply rtc_l; [by apply StepB, KUnlink|]. eapply rtc_l; [by apply StepB, KRecreate|].
    eapply rtc_l; [by apply StepB, KWrite|]. eapply rtc_l; [by apply StepA, KWrite|]. apply rtc_refl.
  - done.
Qed.

End PidLock.
