(* ===== verification/Sweeper.v ===== *)
(** * The retention sweeper ([src/sweeper/index.ts])

    Every minute the sweeper deletes, by bounded statements, the rows of eleven
    selections that are past their retention. Five failing passes in a row stop
    it. The columns written by [CURRENT_TIMESTAMP] are compared as text, so the
    model keeps the text the statements compare. *)

From S2P Require Import Prelude Paths Database Announce AuthState DeviceFlow Login AuditChain.
Import Announce.PlanQuality.
Local Open Scope Z_scope.

Module Sweeper.

(** ** The two tiers of audit events ([src/security/audit-events.ts]) *)

Definition TIER1_EVENTS : list string :=
  ["auth.refresh.chain_revoked"; "auth.refresh.suspicious_replay"; "auth.state.replay";
   "auth.state.provider_unregistered"; "auth.state.mixup"; "auth.login.denied.not_in_org";
   "auth.login.locked"; "auth.token.revoked"; "auth.logout.global"; "auth.service_token.issued";
   "auth.service_token.revoked"; "auth.admin.bootstrapped"; "auth.bootstrap.admin_assigned";
   "auth.idp.token_revoked"; "auth.idp.unknown_kid"; "recovery.token_epoch_global_bump";
   "recovery.completed"; "config.boot"; "config.key_rotation"; "system.shutdown.audit_loss";
   "migration.audit_backfill"; "admin.orgs.duplicate_names_accepted"; "admin.org.created";
   "admin.org.updated"; "admin.user.role_changed"].

Definition TIER2_EVENTS : list string :=
  ["auth.login.success"; "auth.login.failure"; "auth.refresh.rotated"; "auth.refresh.idle_expired";
   "auth.device.code_issued"; "auth.device.approved"; "auth.device.denied"; "auth.user.created";
   "auth.user.provisioned"; "auth.logout.local"; "auth.invalid_token"; "auth.legacy_token.accepted";
   "auth.service_token.used"; "auth.csrf.failed"; "auth.provider.unknown"; "auth.idp.stale_served"].

(** ** Constants *)

Definition BATCH_SIZE : nat := 1000.
Definition MAX_CHAINED_RUNS : nat := 3.
Definition CIRCUIT_BREAK_THRESHOLD : nat := 5.
Definition STALE_BUFFER_S : Z := 60.
Definition REFRESH_EXPIRED_RETENTION_DAYS : Z := 30.
Definition SECONDS_PER_DAY : Z := 86400.

(** ** [Number] of a setting

    [None] is a numeric literal the model leaves out: a fraction, an exponent,
    another base, an infinity, or a whole number of more than nine digits. *)
Inductive number := NaN | Int (n : Z).

Definition is_digit (a : ascii) : bool := bool_decide (48 ≤ Paths.code a ∧ Paths.code a ≤ 57).

Fixpoint digits_value (acc : Z) (s : string) : option Z :=
  match s with
  | EmptyString => Some acc
  | String a s => if is_digit a then digits_value (acc * 10 + (Paths.code a - 48)) s else None
  end.

Fixpoint skip_digits (s : string) : nat * string :=
  match s with
  | EmptyString => (O, s)
  | String a r => if is_digit a then let '(n, t) := skip_digits r in (S n, t) else (O, s)
  end.

Definition strip_sign (s : string) : bool * string :=
  match s with
  | String "-" r => (true, r)
  | String "+" r => (false, r)
  | _ => (false, s)
  end.

Definition exponent (s : string) : bool :=
  match s with
  | EmptyString => true
  | String a r =>
      (Ascii.eqb a "e" || Ascii.eqb a "E") &&
      let '(n, t) := skip_digits (strip_sign r).2 in bool_decide (0 < n)%nat && String.eqb t ""
  end.

(** [StrUnsignedDecimalLiteral], after its sign. *)
Definition decimal (s : string) : bool :=
  String.eqb s "Infinity" ||
  let '(n, t) := skip_digits s in
  match t with
  | String "." r => let '(m, u) := skip_digits r in bool_decide (0 < n + m)%nat && exponent u
  | _ => bool_decide (0 < n)%nat && exponent t
  end.

Fixpoint all_chars (P : Z → bool) (s : string) : bool :=
  match s with EmptyString => true | String a s => P (Paths.code a) && all_chars P s end.

Definition in_range (lo hi n : Z) : bool := bool_decide (lo ≤ n ∧ n ≤ hi).

(** [0x1F], [0o17], [0b11]: no sign. *)
Definition other_base (s : string) : bool :=
  match s with
  | String "0" (String b (String d r)) =>
      let r := String d r in
      if Ascii.eqb b "x" || Ascii.eqb b "X" then
        all_chars (λ n, in_range 48 57 n || in_range 65 70 n || in_range 97 102 n) r
      else if Ascii.eqb b "o" || Ascii.eqb b "O" then all_chars (in_range 48 55) r
      else if Ascii.eqb b "b" || Ascii.eqb b "B" then all_chars (in_range 48 49) r
      else false
  | _ => false
  end.

Definition Number (s : string) : option number :=
  let t := trim s in
  if String.eqb t "" then Some (Int 0)
  else
    let '(neg, u) := strip_sign t in
    match digits_value 0 u with
    | Some n =>
        if String.eqb u "" then Some NaN
        else if bool_decide (String.length u ≤ 9)%nat then Some (Int (if neg : bool then - n else n))
        else None
    | None => if decimal u || other_base t then None else Some NaN
    end.

(** ** The settings of a process *)

Record Retention := mkRetention {
  refresh_retention_days : number;
  audit_retention_days : number;
  audit_tier2_retention_days : number;
  file_activity_retention_days : number;
  events_retention_days : number;
  thread_messages_retention_days : number;
  action_summaries_retention_days : number;
  layer_firings_retention_days : number
}.

(** [Number(getOrgSetting(db, null, key, default))]: without an organisation the
    database is not read. *)
Definition setting (env : string → option string) (s : Auth) (key dflt : string) : option number :=
  v ← getOrgSetting env s None key (Some dflt); t ← v; Number t.

Definition retentions (env : string → option string) (s : Auth) : option Retention :=
  refresh ← setting env s "refresh_retention_days" "180";
  audit ← setting env s "audit_retention_days" "365";
  tier2 ← setting env s "audit_tier2_retention_days" "90";
  files ← setting env s "file_activity_retention_days" "7";
  evs ← setting env s "events_retention_days" "7";
  msgs ← setting env s "thread_messages_retention_days" "30";
  sums ← setting env s "action_summaries_retention_days" "30";
  firings ← setting env s "layer_firings_retention_days" "30";
  Some (mkRetention refresh audit tier2 files evs msgs sums firings).

(** [now - days * SECONDS_PER_DAY] *)
Definition cutoff (now : Z) (days : number) : number :=
  match days with NaN => NaN | Int d => Int (now - d * SECONDS_PER_DAY) end.

(** [String(cutoff)] *)
Definition String_ (c : number) : string :=
  match c with NaN => "NaN" | Int n => pretty n end.

(** [strftime('%s', ...)] of a [CURRENT_TIMESTAMP] column, kept in seconds. *)
Definition strftime_s (created : Z) : string := pretty created.

Definition text_lt (a b : string) : Prop := ¬ str_le b a.

#[global] Instance text_lt_dec : RelDecision text_lt.
Proof. intros a b. unfold text_lt. apply _. Defined.

(** A bound number against an INTEGER: NaN is bound as NULL, and nothing is
    less than NULL. *)
Definition num_lt (x : Z) (c : number) : Prop := match c with NaN => False | Int n => x < n end.

#[global] Instance num_lt_dec x c : Decision (num_lt x c).
Proof. unfold num_lt. destruct c; apply _. Defined.

(** ** The tables; rows of the audit log and of events with [created_at] *)

Record Tables := mkTables {
  tb_oauth : list Login.OAuthStateRow;
  tb_device : list DeviceFlow.DeviceRow;
  tb_refresh : list RefreshRow;
  tb_audit : list (AuditChain.AuditRow * Z);
  tb_files : list FileActivity;
  tb_events : list (EventRow * Z);
  tb_messages : list ThreadMessage;
  tb_summaries : list ActionSummary;
  tb_firings : list LayerFiring
}.

(** [DELETE ... WHERE P LIMIT n], in scan order. *)
Fixpoint delete_limit {A} (P : A → Prop) `{!∀ x, Decision (P x)} (n : nat) (l : list A) : list A :=
  match l with
  | [] => []
  | x :: l =>
      if decide (P x) then match n with O => x :: l | S n => delete_limit P n l end
      else x :: delete_limit P n l
  end.

Definition deleted {A} (l l' : list A) : nat := (length l - length l')%nat.

(** ** The WHERE clauses *)

Definition stale_oauth (now : Z) (r : Login.OAuthStateRow) : Prop :=
  Login.os_expires_at r < now - STALE_BUFFER_S.
Definition stale_device (now : Z) (r : DeviceFlow.DeviceRow) : Prop :=
  DeviceFlow.expires_at r < now - STALE_BUFFER_S.
Definition stale_revoked (now : Z) (days : number) (r : RefreshRow) : Prop :=
  match revoked_at r with Some t => num_lt t (cutoff now days) | None => False end.
Definition stale_unrevoked (now : Z) (r : RefreshRow) : Prop :=
  revoked_at r = None ∧ rt_expires_at r < now - REFRESH_EXPIRED_RETENTION_DAYS * SECONDS_PER_DAY.
Definition stale_text (now : Z) (days : number) (created : Z) : Prop :=
  text_lt (strftime_s created) (String_ (cutoff now days)).
Definition stale_audit (now : Z) (days : number) (tier : list string) (r : AuditChain.AuditRow * Z) : Prop :=
  stale_text now days r.2 ∧ AuditChain.cf_action (AuditChain.ar_fields r.1) ∈ tier.

#[global] Instance stale_oauth_dec now r : Decision (stale_oauth now r).
Proof. unfold stale_oauth. apply _. Defined.
#[global] Instance stale_device_dec now r : Decision (stale_device now r).
Proof. unfold stale_device. apply _. Defined.
#[global] Instance stale_revoked_dec now d r : Decision (stale_revoked now d r).
Proof. unfold stale_revoked. destruct (revoked_at r); apply _. Defined.
#[global] Instance stale_unrevoked_dec now r : Decision (stale_unrevoked now r).
Proof. unfold stale_unrevoked. apply _. Defined.
#[global] Instance stale_text_dec now d c : Decision (stale_text now d c).
Proof. unfold stale_text. apply _. Defined.
#[global] Instance stale_audit_dec now d t r : Decision (stale_audit now d t r).
Proof. unfold stale_audit. apply _. Defined.

(** ** The eleven statements: the rows deleted and the tables after *)

Definition sweep_oauth (now : Z) (t : Tables) : nat * Tables :=
  let l := delete_limit (stale_oauth now) BATCH_SIZE (tb_oauth t) in
  (deleted (tb_oauth t) l, mkTables l (tb_device t) (tb_refresh t) (tb_audit t) (tb_files t)
     (tb_events t) (tb_messages t) (tb_summaries t) (tb_firings t)).
Definition sweep_device (now : Z) (t : Tables) : nat * Tables :=
  let l := delete_limit (stale_device now) BATCH_SIZE (tb_device t) in
  (deleted (tb_device t) l, mkTables (tb_oauth t) l (tb_refresh t) (tb_audit t) (tb_files t)
     (tb_events t) (tb_messages t) (tb_summaries t) (tb_firings t)).
Definition sweep_refresh (P : RefreshRow → Prop) `{!∀ x, Decision (P x)} (t : Tables) : nat * Tables :=
  let l := delete_limit P BATCH_SIZE (tb_refresh t) in
  (deleted (tb_refresh t) l, mkTables (tb_oauth t) (tb_device t) l (tb_audit t) (tb_files t)
     (tb_events t) (tb_messages t) (tb_summaries t) (tb_firings t)).
Definition sweep_audit (now : Z) (days : number) (tier : list string) (t : Tables) : nat * Tables :=
  let l := delete_limit (stale_audit now days tier) BATCH_SIZE (tb_audit t) in
  (deleted (tb_audit t) l, mkTables (tb_oauth t) (tb_device t) (tb_refresh t) l (tb_files t)
     (tb_events t) (tb_messages t) (tb_summaries t) (tb_firings t)).
Definition sweep_files (now : Z) (days : number) (t : Tables) : nat * Tables :=
  let l := delete_limit (λ r, stale_text now days (f_created_at r)) BATCH_SIZE (tb_files t) in
  (deleted (tb_files t) l, mkTables (tb_oauth t) (tb_device t) (tb_refresh t) (tb_audit t) l
     (tb_events t) (tb_messages t) (tb_summaries t) (tb_firings t)).
Definition sweep_events (now : Z) (days : number) (t : Tables) : nat * Tables :=
  let l := delete_limit (λ r, stale_text now days r.2) BATCH_SIZE (tb_events t) in
  (deleted (tb_events t) l, mkTables (tb_oauth t) (tb_device t) (tb_refresh t) (tb_audit t) (tb_files t)
     l (tb_messages t) (tb_summaries t) (tb_firings t)).
Definition sweep_messages (now : Z) (days : number) (t : Tables) : nat * Tables :=
  let l := delete_limit (λ r, stale_text now days (m_created_at r)) BATCH_SIZE (tb_messages t) in
  (deleted (tb_messages t) l, mkTables (tb_oauth t) (tb_device t) (tb_refresh t) (tb_audit t) (tb_files t)
     (tb_events t) l (tb_summaries t) (tb_firings t)).
Definition sweep_summaries (now : Z) (days : number) (t : Tables) : nat * Tables :=
  let l := delete_limit (λ r, stale_text now days (s_created_at r)) BATCH_SIZE (tb_summaries t) in
  (deleted (tb_summaries t) l, mkTables (tb_oauth t) (tb_device t) (tb_refresh t) (tb_audit t) (tb_files t)
     (tb_events t) (tb_messages t) l (tb_firings t)).
Definition sweep_firings (now : Z) (days : number) (t : Tables) : nat * Tables :=
  let l := delete_limit (λ r, stale_text now days (lf_fired_at r)) BATCH_SIZE (tb_firings t) in
  (deleted (tb_firings t) l, mkTables (tb_oauth t) (tb_device t) (tb_refresh t) (tb_audit t) (tb_files t)
     (tb_events t) (tb_messages t) (tb_summaries t) l).

(** The statements in the order they run, each with its counter. *)
Definition statements (cfg : Retention) (now : Z) : list (string * (Tables → nat * Tables)) :=
  [("oauth_state", sweep_oauth now);
   ("device_auth_requests", sweep_device now);
   ("refresh_tokens_revoked", sweep_refresh (stale_revoked now (refresh_retention_days cfg)));
   ("refresh_tokens_expired", sweep_refresh (stale_unrevoked now));
   ("audit_log_tier1", sweep_audit now (audit_retention_days cfg) TIER1_EVENTS);
   ("audit_log_tier2", sweep_audit now (audit_tier2_retention_days cfg) TIER2_EVENTS);
   ("file_activity", sweep_files now (file_activity_retention_days cfg));
   ("events", sweep_events now (events_retention_days cfg));
   ("thread_messages", sweep_messages now (thread_messages_retention_days cfg));
   ("action_summaries", sweep_summaries now (action_summaries_retention_days cfg));
   ("layer_firings", sweep_firings now (layer_firings_retention_days cfg))].

(** ** The sweeper *)

Record Metrics := mkMetrics {
  g_circuit_open : Z;
  g_consecutive_failures : nat;
  g_last_run : option Z;
  c_rows_deleted : jsmap nat
}.

(** [timer] says whether the interval is set; [published] is
    [_publishedRowsDeleted] and [metrics] the Prometheus registry. *)
Record Sweeper := mkSweeper {
  timer : bool;
  lastRunTimestamp : option Z;
  consecutiveFailures : nat;
  circuitOpen : bool;
  lastError : option string;
  totalRuns : nat;
  rowsDeletedByTable : jsmap nat;
  published : jsmap nat;
  metrics : Metrics
}.

Definition set_rows (m : jsmap nat) (s : Sweeper) : Sweeper :=
  mkSweeper (timer s) (lastRunTimestamp s) (consecutiveFailures s) (circuitOpen s) (lastError s)
    (totalRuns s) m (published s) (metrics s).
Definition set_timer (b : bool) (s : Sweeper) : Sweeper :=
  mkSweeper b (lastRunTimestamp s) (consecutiveFailures s) (circuitOpen s) (lastError s)
    (totalRuns s) (rowsDeletedByTable s) (published s) (metrics s).

Definition counters : list string :=
  ["oauth_state"; "device_auth_requests"; "refresh_tokens_revoked"; "refresh_tokens_expired";
   "audit_log_tier1"; "audit_log_tier2"; "file_activity"; "events"; "thread_messages";
   "action_summaries"; "layer_firings"].

Definition new_sweeper : Sweeper :=
  mkSweeper false None O false None O ((λ k, (k, O)) <$> counters) [] (mkMetrics 0 O None []).

Definition start (s : Sweeper) : Sweeper := if timer s then s else set_timer true s.
Definition stop (s : Sweeper) : Sweeper := if timer s then set_timer false s else s.
Definition drain (s : Sweeper) : Sweeper := stop s.

(** [counter += n] on a property the constructor set. *)
Definition count_rows (k : string) (n : nat) (m : jsmap nat) : jsmap nat :=
  update_where (λ p, p.1 = k) (λ p, (p.1, p.2 + n)%nat) m.

(** A statement that throws: how many run before it, and the message. *)
Definition failure : Type := option (nat * string).

Fixpoint run_statements (fail : failure) (l : list (string * (Tables → nat * Tables)))
    (total : nat) (rows : jsmap nat) (t : Tables) : (string + nat) * jsmap nat * Tables :=
  match l with
  | [] => (inr total, rows, t)
  | (k, f) :: l =>
      match fail with
      | Some (O, e) => (inl e, rows, t)
      | _ =>
          let '(n, t) := f t in
          run_statements ((λ p, (pred p.1, p.2)) <$> fail) l (total + n) (count_rows k n rows) t
      end
  end.

Definition sweepAll (cfg : Retention) (now : Z) (fail : failure) (rows : jsmap nat) (t : Tables)
    : (string + nat) * jsmap nat * Tables :=
  run_statements fail (statements cfg now) O rows t.

(** The failing statement counted over the whole pass. *)
Definition later (fail : failure) : failure := (λ p, (p.1 - 11, p.2)%nat) <$> fail.

Fixpoint chained (runs : nat) (cfg : Retention) (now : Z) (fail : failure) (rows : jsmap nat)
    (t : Tables) : option string * jsmap nat * Tables :=
  match runs with
  | O => (None, rows, t)
  | S runs =>
      match sweepAll cfg now fail rows t with
      | (inl e, rows, t) => (Some e, rows, t)
      | (inr deletedThisRun, rows, t) =>
          if bool_decide (deletedThisRun < BATCH_SIZE)%nat then (None, rows, t)
          else chained runs cfg now (later fail) rows t
      end
  end.

(** One entry of the loop of [publishMetrics]: only the delta is added. *)
Definition publish_row (acc : jsmap nat * jsmap nat) (p : string * nat) : jsmap nat * jsmap nat :=
  let '(pub, prom) := acc in
  let previous := default O (map_get p.1 pub) in
  if bool_decide (previous < p.2)%nat
  then (map_set p.1 p.2 pub, map_set p.1 (default O (map_get p.1 prom) + (p.2 - previous))%nat prom)
  else (pub, prom).

Definition publishMetrics (s : Sweeper) : Sweeper :=
  let '(pub, prom) := foldl publish_row (published s, c_rows_deleted (metrics s)) (rowsDeletedByTable s) in
  mkSweeper (timer s) (lastRunTimestamp s) (consecutiveFailures s) (circuitOpen s) (lastError s)
    (totalRuns s) (rowsDeletedByTable s) pub
    (mkMetrics (if circuitOpen s then 1 else 0) (consecutiveFailures s)
       (match lastRunTimestamp s with Some t => Some t | None => g_last_run (metrics s) end) prom).

(** A pass is synchronous; its readings of the clock, in seconds, are one value. *)
Definition runPass (cfg : Retention) (now : Z) (fail : failure) (s : Sweeper) (t : Tables)
    : Sweeper * Tables :=
  if circuitOpen s then (s, t)
  else
    match chained MAX_CHAINED_RUNS cfg now fail (rowsDeletedByTable s) t with
    | (None, rows, t) =>
        (publishMetrics (mkSweeper (timer s) (Some now) O (circuitOpen s) None (S (totalRuns s)) rows
           (published s) (metrics s)), t)
    | (Some e, rows, t) =>
        let failures := S (consecutiveFailures s) in
        let tripped := bool_decide (CIRCUIT_BREAK_THRESHOLD ≤ failures)%nat in
        (publishMetrics (mkSweeper (if tripped then false else timer s) (lastRunTimestamp s) failures
           (circuitOpen s || tripped) (Some e) (totalRuns s) rows (published s) (metrics s)), t)
    end.

(** The leader gate: absent, failing, or its answer. *)
Definition leads (gate : option (option bool)) : bool :=
  match gate with
  | Some (Some b) => b
  | _ => true
  end.

Definition tick (gate : option (option bool)) (cfg : Retention) (now : Z) (fail : failure)
    (s : Sweeper) (t : Tables) : Sweeper * Tables :=
  if leads gate then runPass cfg now fail s t else (s, t).

Definition resetCircuit (s : Sweeper) : Sweeper :=
  publishMetrics (mkSweeper (timer s) (lastRunTimestamp s) O false None (totalRuns s)
    (rowsDeletedByTable s) (published s) (metrics s)).

(** ** What happens to a sweeper: the interval fires only while it is set *)

Inductive event :=
  | Start | Stop | Reset
  | Fires (gate : option (option bool)) (now : Z) (fail : failure).

Definition step (cfg : Retention) (e : event) (st : Sweeper * Tables) : Sweeper * Tables :=
  let '(s, t) := st in
  match e with
  | Start => (start s, t)
  | Stop => (stop s, t)
  | Reset => (resetCircuit s, t)
  | Fires gate now fail => if timer s then tick gate cfg now fail s t else st
  end.

Definition run (cfg : Retention) (es : list event) (st : Sweeper * Tables) : Sweeper * Tables :=
  foldl (λ st e, step cfg e st) st es.

End Sweeper.

(** * What the sweeper deletes, and when it stops

    A pass deletes only rows past their retention as long as every cutoff has
    the ten digits of the timestamps it is compared with; outside of that range
    the text comparison deletes rows of any age. A pass that returns has
    deleted everything that was stale or at least three batches, the counters
    are exact whatever statement fails, and the breaker stays as it is until a
    reset, which does not set the timer again. *)

From S2P Require Import Prelude Paths Database AuthState DeviceFlow Login AuditChain.
Local Open Scope Z_scope.

Module SweeperSafety.
Import Sweeper.

(** ** Decimal text *)

(** The [k] last digits of a number, most significant first. *)
Fixpoint dec (k : nat) (x : N) (s : string) : string :=
  match k with
  | O => s
  | S k => dec k (x / 10)%N (String (pretty_N_char (x mod 10)) s)
  end.

Lemma pretty_N_go_dec k x s :
  (10 ^ N.of_nat k ≤ x < 10 ^ N.of_nat (S k))%N → pretty_N_go x s = dec (S k) x s.
Proof.
  revert x s. induction k as [|k IH]; intros x s Hx.
  - change (10 ^ N.of_nat 0)%N with 1%N in Hx. change (10 ^ N.of_nat 1)%N with 10%N in Hx.
    rewrite pretty_N_go_step by lia. cbn [dec]. by rewrite N.div_small by lia.
  - assert (0 < x)%N as Hp.
    { pose proof (N.pow_nonzero 10 (N.of_nat (S k))). lia. }
    rewrite pretty_N_go_step by done. cbn [dec]. rewrite IH; [done|].
    rewrite !Nat2N.inj_succ, !N.pow_succ_r' in *. split.
    + apply N.div_le_lower_bound; lia.
    + apply N.Div0.div_lt_upper_bound; lia.
Qed.

Lemma digit_code c : (c < 10)%N → N_of_ascii (pretty_N_char c) = (48 + c)%N.
Proof. intros Hc. destruct c as [|p]; [done|]. do 4 (destruct p; try done; try lia). Qed.

(** Texts that continue numbers of the same width: the numbers decide first. *)
Lemma dec_compare k x y s s' :
  (x < 10 ^ N.of_nat k)%N → (y < 10 ^ N.of_nat k)%N →
  String.compare (dec k x s) (dec k y s') =
    match (x ?= y)%N with Eq => String.compare s s' | c => c end.
Proof.
  revert x y s s'. induction k as [|k IH]; intros x y s s' Hx Hy.
  - change (10 ^ N.of_nat 0)%N with 1%N in *. assert (x = 0 ∧ y = 0)%N as [-> ->] by lia. done.
  - rewrite Nat2N.inj_succ, N.pow_succ_r' in Hx, Hy. cbn [dec].
    rewrite IH by (apply N.Div0.div_lt_upper_bound; lia). cbn [String.compare]. unfold Ascii.compare.
    pose proof (N.mod_lt x 10 ltac:(done)). pose proof (N.mod_lt y 10 ltac:(done)).
    rewrite !digit_code by done.
    pose proof (N.div_mod x 10 ltac:(done)). pose proof (N.div_mod y 10 ltac:(done)).
    generalize dependent (x / 10)%N. generalize dependent (x mod 10)%N.
    generalize dependent (y / 10)%N. generalize dependent (y mod 10)%N. intros r' Hr' q' Ey r Hr q Ex.
    destruct (N.compare_spec q q'), (N.compare_spec (48 + r) (48 + r')), (N.compare_spec x y);
      done || lia.
Qed.

(** Ten digits: the seconds of every date between 2001 and 2286. *)
Definition ten_digits (x : Z) : Prop := 10 ^ 9 ≤ x < 10 ^ 10.

Lemma pretty_ten_digits x : ten_digits x → pretty x = dec 10 (Z.to_N x) "".
Proof.
  unfold ten_digits. intros Hx. destruct x as [|p|p]; [lia| |lia].
  change (pretty (Z.pos p)) with (pretty_N_go (N.pos p) ""). apply (pretty_N_go_dec 9). lia.
Qed.

Lemma text_order x y : ten_digits x → ten_digits y → text_lt (pretty x) (pretty y) ↔ x < y.
Proof.
  intros Hx Hy. unfold text_lt, str_le, String.leb.
  rewrite !pretty_ten_digits, dec_compare by (done || unfold ten_digits in *; lia).
  unfold ten_digits in *. destruct (N.compare_spec (Z.to_N y) (Z.to_N x)); simpl; split; naive_solver lia.
Qed.

(** ** Bounded deletes *)

(** [l'] is [l] without some of its rows, all of which satisfy [E]. *)
Inductive drops {A} (E : A → Prop) : list A → list A → Prop :=
  | drops_nil : drops E [] []
  | drops_keep x l l' : drops E l l' → drops E (x :: l) (x :: l')
  | drops_drop x l l' : E x → drops E l l' → drops E (x :: l) l'.

Section drops.
Context {A : Type}.
Implicit Types (E P : A → Prop) (l : list A).

#[global] Instance drops_refl E : Reflexive (drops E).
Proof. intros l. induction l; constructor; done. Qed.

#[global] Instance drops_trans E : Transitive (drops E).
Proof.
  intros l1 l2 l3 H12. revert l3. induction H12; intros l3 H23; [done| |].
  - inversion H23; subst; constructor; eauto.
  - constructor; eauto.
Qed.

Lemma drops_impl E E' l l' : (∀ x, x ∈ l → E x → E' x) → drops E l l' → drops E' l l'.
Proof.
  intros HE Hd. induction Hd as [|x l l' Hd IH|x l l' Hx Hd IH]; constructor;
    try (apply IH; intros y Hy; apply HE; by right). apply HE; [left|done].
Qed.

Lemma drops_elem E l l' x : drops E l l' → x ∈ l → x ∈ l' ∨ E x.
Proof.
  intros Hd. induction Hd as [|y l l' Hd IH|y l l' Hy Hd IH]; intros Hx.
  - by apply not_elem_of_nil in Hx.
  - apply elem_of_cons in Hx as [->|Hx]; [left; left|]. destruct (IH Hx); [left; by right|by right].
  - apply elem_of_cons in Hx as [->|Hx]; [by right|auto].
Qed.

Lemma drops_subset E l l' x : drops E l l' → x ∈ l' → x ∈ l.
Proof.
  intros Hd. induction Hd as [|y l l' Hd IH|y l l' Hy Hd IH]; intros Hx; [done| |right; auto].
  apply elem_of_cons in Hx as [->|Hx]; [left|right; auto].
Qed.

Lemma drops_length E l l' : drops E l l' → (length l' ≤ length l)%nat.
Proof. induction 1; simpl; lia. Qed.

Lemma delete_limit_drops P `{!∀ x, Decision (P x)} n l : drops P l (delete_limit P n l).
Proof.
  revert n. induction l as [|x l IH]; intros n; simpl; [constructor|].
  destruct (decide (P x)); [destruct n; [done|constructor; auto]|constructor; auto].
Qed.

Lemma delete_limit_bound P `{!∀ x, Decision (P x)} n l : (deleted l (delete_limit P n l) ≤ n)%nat.
Proof.
  unfold deleted. revert n. induction l as [|x l IH]; intros n; simpl; [lia|].
  destruct (decide (P x)); [destruct n as [|n]; simpl; [lia|]|simpl; eauto].
  pose proof (drops_length _ _ _ (delete_limit_drops P n l)). specialize (IH n). lia.
Qed.

(** A statement that did not reach its limit has deleted everything it selects. *)
Lemma delete_limit_done P `{!∀ x, Decision (P x)} n l :
  (deleted l (delete_limit P n l) < n)%nat → Forall (λ x, ¬ P x) (delete_limit P n l).
Proof.
  unfold deleted. revert n. induction l as [|x l IH]; intros n Hn; simpl in *; [constructor|].
  destruct (decide (P x)).
  - destruct n as [|n]; [lia|]. apply IH.
    pose proof (drops_length _ _ _ (delete_limit_drops P n l)). lia.
  - constructor; [done|]. by apply IH.
Qed.
End drops.

(** ** One statement, then any number of them *)

(** The WHERE clauses, with [old days created] for the age of a row. *)
Section clauses.
Context (old : number → Z → Prop) (cfg : Retention) (now : Z).

Definition old_audit (days : number) (tier : list string) (r : AuditChain.AuditRow * Z) : Prop :=
  old days r.2 ∧ AuditChain.cf_action (AuditChain.ar_fields r.1) ∈ tier.

(** [t'] is [t] without rows some clause selects. *)
Record without (t t' : Tables) : Prop := {
  wo_oauth : drops (stale_oauth now) (tb_oauth t) (tb_oauth t');
  wo_device : drops (stale_device now) (tb_device t) (tb_device t');
  wo_refresh : drops (λ r, stale_revoked now (refresh_retention_days cfg) r ∨ stale_unrevoked now r)
    (tb_refresh t) (tb_refresh t');
  wo_audit : drops (λ r, old_audit (audit_retention_days cfg) TIER1_EVENTS r ∨
                         old_audit (audit_tier2_retention_days cfg) TIER2_EVENTS r)
    (tb_audit t) (tb_audit t');
  wo_files : drops (λ r, old (file_activity_retention_days cfg) (f_created_at r)) (tb_files t) (tb_files t');
  wo_events : drops (λ r, old (events_retention_days cfg) r.2) (tb_events t) (tb_events t');
  wo_messages : drops (λ r, old (thread_messages_retention_days cfg) (m_created_at r))
    (tb_messages t) (tb_messages t');
  wo_summaries : drops (λ r, old (action_summaries_retention_days cfg) (s_created_at r))
    (tb_summaries t) (tb_summaries t');
  wo_firings : drops (λ r, old (layer_firings_retention_days cfg) (lf_fired_at r))
    (tb_firings t) (tb_firings t')
}.

(** No clause selects a row of [t]; one predicate for each statement. *)
Definition clean : list (Tables → Prop) :=
  [λ t, Forall (λ r, ¬ stale_oauth now r) (tb_oauth t);
   λ t, Forall (λ r, ¬ stale_device now r) (tb_device t);
   λ t, Forall (λ r, ¬ stale_revoked now (refresh_retention_days cfg) r) (tb_refresh t);
   λ t, Forall (λ r, ¬ stale_unrevoked now r) (tb_refresh t);
   λ t, Forall (λ r, ¬ old_audit (audit_retention_days cfg) TIER1_EVENTS r) (tb_audit t);
   λ t, Forall (λ r, ¬ old_audit (audit_tier2_retention_days cfg) TIER2_EVENTS r) (tb_audit t);
   λ t, Forall (λ r, ¬ old (file_activity_retention_days cfg) (f_created_at r)) (tb_files t);
   λ t, Forall (λ r, ¬ old (events_retention_days cfg) r.2) (tb_events t);
   λ t, Forall (λ r, ¬ old (thread_messages_retention_days cfg) (m_created_at r)) (tb_messages t);
   λ t, Forall (λ r, ¬ old (action_summaries_retention_days cfg) (s_created_at r)) (tb_summaries t);
   λ t, Forall (λ r, ¬ old (layer_firings_retention_days cfg) (lf_fired_at r)) (tb_firings t)].
End clauses.

Notation only_stale cfg now := (without (stale_text now) cfg now).

#[global] Instance only_stale_refl cfg now : Reflexive (only_stale cfg now).
Proof. intros t. constructor; reflexivity. Qed.

#[global] Instance only_stale_trans cfg now : Transitive (only_stale cfg now).
Proof. intros t1 t2 t3 [] []. constructor; etrans; eassumption. Qed.

Definition size (t : Tables) : nat :=
  (length (tb_oauth t) + length (tb_device t) + length (tb_refresh t) + length (tb_audit t) +
   length (tb_files t) + length (tb_events t) + length (tb_messages t) + length (tb_summaries t) +
   length (tb_firings t))%nat.

Lemma only_stale_size cfg now t t' : only_stale cfg now t t' → (size t' ≤ size t)%nat.
Proof.
  intros []. repeat match goal with H : drops _ _ _ |- _ => apply drops_length in H end.
  unfold size. lia.
Qed.

(** The laws of a statement [f] that leaves [c] when it is done. *)
Record statement (cfg : Retention) (now : Z) (f : Tables → nat * Tables) (c : Tables → Prop) : Prop := {
  st_drops t : only_stale cfg now t (f t).2;
  st_count t : ((f t).1 + size (f t).2 = size t)%nat;
  st_bound t : ((f t).1 ≤ BATCH_SIZE)%nat;
  st_clean t : ((f t).1 < BATCH_SIZE)%nat → c (f t).2;
  st_keep t t' : only_stale cfg now t t' → c t → c t'
}.

Lemma Forall_drops {A} (E Q : A → Prop) l l' : drops E l l' → Forall Q l → Forall Q l'.
Proof. rewrite !Forall_forall. intros Hd HQ x Hx. eapply HQ, drops_subset; eauto. Qed.

Lemma deleted_length {A} (P : A → Prop) `{!∀ x, Decision (P x)} n l :
  (deleted l (delete_limit P n l) + length (delete_limit P n l) = length l)%nat.
Proof. unfold deleted. pose proof (drops_length _ _ _ (delete_limit_drops P n l)). lia. Qed.

Ltac statement :=
  constructor;
  [ intros t; constructor; simpl; try reflexivity;
    eapply drops_impl; [|apply delete_limit_drops]; simpl; tauto
  | intros t; unfold size; simpl;
    match goal with |- context [delete_limit ?P ?n ?l] => pose proof (deleted_length P n l); lia end
  | intros t; apply delete_limit_bound
  | intros t Ht; by apply delete_limit_done
  | intros t t' []; simpl; by eapply Forall_drops ].

Lemma statements_spec cfg now : Forall2 (λ kf c, statement cfg now kf.2 c) (statements cfg now) (clean (stale_text now) cfg now).
Proof. unfold statements, clean. repeat (apply Forall2_cons; split); [statement..|constructor]. Qed.

(** ** A pass *)

Definition total (rows : jsmap nat) : nat := sum_list (snd <$> rows).

Lemma total_cons p rows : total (p :: rows) = (p.2 + total rows)%nat.
Proof. done. Qed.

Lemma count_rows_keys k n rows : (count_rows k n rows).*1 = rows.*1.
Proof. unfold count_rows. by apply fmap_update_where. Qed.

Lemma count_rows_absent k n (rows : jsmap nat) : k ∉ rows.*1 → count_rows k n rows = rows.
Proof.
  intros Hk. apply update_where_none. intros x Hx <-. apply Hk. by apply list_elem_of_fmap_2.
Qed.

Lemma count_rows_total k n rows :
  NoDup rows.*1 → k ∈ rows.*1 → total (count_rows k n rows) = (total rows + n)%nat.
Proof.
  induction rows as [|[j m] rows IH]; intros Hnd Hk; [by apply not_elem_of_nil in Hk|].
  change (count_rows k n ((j, m) :: rows)) with
    ((if decide (j = k) then (j, m + n)%nat else (j, m)) :: count_rows k n rows).
  inversion Hnd as [|? ? Hj Hnd']; subst.
  destruct (decide (j = k)) as [->|Hjk]; rewrite !total_cons; cbn [snd].
  - rewrite count_rows_absent by done. lia.
  - apply elem_of_cons in Hk as [Hk|Hk]; [done|]. rewrite IH by done. lia.
Qed.

Definition count_of (k : string) (m : jsmap nat) : nat := default O (map_get k m).

Lemma count_of_elem (rows : jsmap nat) k n : NoDup rows.*1 → (k, n) ∈ rows → count_of k rows = n.
Proof.
  intros Hnd Hin. unfold count_of, map_get.
  by rewrite (select_one_key fst (λ p, p.1 = k) rows (k, n) Hnd Hin) by done.
Qed.

Lemma count_of_count k j n rows : (count_of j rows ≤ count_of j (count_rows k n rows))%nat.
Proof.
  unfold count_of, map_get, count_rows. rewrite select_one_update_where by done.
  destruct (select_one _ rows) as [p|]; simpl; [|lia]. case_decide; simpl; lia.
Qed.

(** The counters of a sweeper. *)
Definition counting (rows : jsmap nat) : Prop := rows.*1 = counters.

Lemma counters_NoDup : NoDup counters.
Proof. apply (bool_decide_unpack _). by vm_compute. Qed.

Lemma counting_count k n rows : counting rows → counting (count_rows k n rows).
Proof. unfold counting. by rewrite count_rows_keys. Qed.

Lemma counting_total k n rows :
  counting rows → k ∈ counters → total (count_rows k n rows) = (total rows + n)%nat.
Proof. unfold counting. intros Hr Hk. apply count_rows_total; rewrite Hr; [apply counters_NoDup|done]. Qed.

(** What is true of the tables and counters after [n] statements, some of which
    may not have run. *)
Record swept (cfg : Retention) (now : Z) (n : nat) (rows rows' : jsmap nat) (t t' : Tables) : Prop := {
  sw_stale : only_stale cfg now t t';
  sw_counting : counting rows';
  sw_mono k : (count_of k rows ≤ count_of k rows')%nat;
  sw_total : (total rows' + size t' = total rows + size t)%nat;
  sw_bound : (size t ≤ size t' + n * BATCH_SIZE)%nat
}.

Lemma swept_refl cfg now n rows t : counting rows → swept cfg now n rows rows t t.
Proof. intros Hr. constructor; [done..|lia]. Qed.

Lemma swept_trans cfg now n n' rows1 rows2 rows3 t1 t2 t3 :
  swept cfg now n rows1 rows2 t1 t2 → swept cfg now n' rows2 rows3 t2 t3 →
  swept cfg now (n + n') rows1 rows3 t1 t3.
Proof. intros [? ? Hm ? ?] [? ? Hm' ? ?]. constructor; [by etrans|done|intros k; etrans; [apply Hm|apply Hm']|lia|lia]. Qed.

Lemma swept_le cfg now n n' rows rows' t t' :
  (n ≤ n')%nat → swept cfg now n rows rows' t t' → swept cfg now n' rows rows' t t'.
Proof. intros Hn []. constructor; [done..|nia]. Qed.

(** How many of [n] statements run, when one of them fails. *)
Definition before (fail : failure) (n : nat) : nat :=
  match fail with Some (k, _) => k `min` n | None => n end.

Lemma before_le fail n n' : (n ≤ n')%nat → (before fail n ≤ before fail n')%nat.
Proof. unfold before. destruct fail as [[k e]|]; lia. Qed.

Lemma run_statements_spec cfg now l cs fail tot rows t r rows' t' :
  Forall2 (λ kf c, statement cfg now kf.2 c) l cs → (∀ kf, kf ∈ l → kf.1 ∈ counters) → counting rows →
  run_statements fail l tot rows t = (r, rows', t') →
  swept cfg now (before fail (length l)) rows rows' t t' ∧
  match r with
  | inr n => (n + size t' = tot + size t)%nat ∧ ((n < tot + BATCH_SIZE)%nat → Forall (λ c, c t') cs)
  | inl e => ∃ k, fail = Some (k, e) ∧ (k < length l)%nat
  end.
Proof.
  intros Hl. revert fail tot rows t.
  induction Hl as [|[k f] c l cs Hf Hl IH]; intros fail tot rows t Hk Hr; cbn [run_statements length].
  { intros [= <- <- <-]. split; [by apply swept_refl|]. split; [done|constructor]. }
  simpl in Hf. assert (∀ kf, kf ∈ l → kf.1 ∈ counters) as Hk' by (intros; apply Hk; by right).
  assert (swept cfg now 1 rows (count_rows k (f t).1 rows) t (f t).2) as H1.
  { assert (k ∈ counters) as Hin by (apply (Hk (k, f)); left).
    constructor; [apply Hf|by apply counting_count|intros; apply count_of_count|rewrite counting_total by done|];
      pose proof (st_count _ _ _ _ Hf t); pose proof (st_bound _ _ _ _ Hf t); lia. }
  pose proof (st_count _ _ _ _ Hf t) as Hcount. pose proof (st_clean _ _ _ _ Hf t) as Hclean.
  destruct (f t) as [n t1]. cbn [fst snd] in *. intros Hrun.
  destruct (decide (fst <$> fail = Some O)) as [Hz|Hz].
  { destruct fail as [[j e]|]; [|done]. injection Hz as ->.
    injection Hrun as <- <- <-. split; [by apply swept_refl|]. eexists. split; [done|lia]. }
  assert (run_statements ((λ p, (pred p.1, p.2)) <$> fail) l (tot + n) (count_rows k n rows) t1 =
    (r, rows', t')) as Hrun' by (by destruct fail as [[[|j] e]|]).
  apply IH in Hrun' as [Hs Hres]; [|done|by eapply sw_counting].
  split.
  { apply (swept_le _ _ (1 + before ((λ p, (pred p.1, p.2)) <$> fail) (length l))).
    - destruct fail as [[[|j] e]|]; simpl in *; [done|lia..].
    - exact (swept_trans _ _ _ _ _ _ _ _ _ _ H1 Hs). }
  destruct r as [e'|m].
  - destruct Hres as (i & Hi & Hlt). destruct fail as [[[|j] e]|]; [done| |done].
    injection Hi as <- <-. exists (S j). split; [done|lia].
  - destruct Hres as [Hm Hcs]. split; [lia|]. intros Hlt. constructor; [|by apply Hcs; lia].
    eapply (st_keep _ _ _ _ Hf); [by eapply sw_stale|]. apply Hclean.
    pose proof (only_stale_size _ _ _ _ (sw_stale _ _ _ _ _ _ _ Hs)). lia.
Qed.

Lemma sweepAll_spec cfg now fail rows t r rows' t' :
  counting rows → sweepAll cfg now fail rows t = (r, rows', t') →
  swept cfg now (before fail 11) rows rows' t t' ∧
  match r with
  | inr n => (n + size t' = size t)%nat ∧
      ((n < BATCH_SIZE)%nat → Forall (λ c, c t') (clean (stale_text now) cfg now))
  | inl e => ∃ k, fail = Some (k, e) ∧ (k < 11)%nat
  end.
Proof.
  intros Hr Hrun. eapply (run_statements_spec _ _ (statements cfg now)) in Hrun as [Hs Hres];
    [|apply statements_spec| |done].
  - split; [exact Hs|]. by destruct r.
  - intros kf Hkf. change counters with ((statements cfg now).*1). by apply list_elem_of_fmap_2.
Qed.

Lemma chained_spec runs cfg now fail rows t r rows' t' :
  counting rows → chained runs cfg now fail rows t = (r, rows', t') →
  swept cfg now (before fail (runs * 11)) rows rows' t t' ∧
  match r with
  | None => Forall (λ c, c t') (clean (stale_text now) cfg now) ∨
            (size t' + runs * BATCH_SIZE ≤ size t)%nat
  | Some e => ∃ k, fail = Some (k, e) ∧ (k < runs * 11)%nat
  end.
Proof.
  revert fail rows t. induction runs as [|runs IH]; intros fail rows t Hr; cbn [chained].
  { intros [= <- <- <-]. split; [by apply swept_refl|]. right. lia. }
  destruct (sweepAll cfg now fail rows t) as [[q rows1] t1] eqn:E.
  apply sweepAll_spec in E as [Hs Hq]; [|done].
  assert (swept cfg now (before fail (S runs * 11)) rows rows1 t t1) as Hs1.
  { eapply swept_le, Hs. apply before_le. lia. }
  destruct q as [e|n].
  - intros [= <- <- <-]. split; [exact Hs1|].
    destruct Hq as (k & -> & Hk). exists k. split; [done|lia].
  - destruct Hq as [Hn Hc]. case_bool_decide as Hlt.
    + intros [= <- <- <-]. split; [exact Hs1|]. left. auto.
    + intros Hrun. apply IH in Hrun as [Hs2 Hres]; [|apply Hs].
      split.
      { eapply swept_le, (swept_trans _ _ _ _ _ _ _ _ _ _ Hs Hs2).
        unfold before, later. destruct fail as [[j e']|]; simpl; lia. }
      destruct r as [e|].
      * destruct Hres as (k & Hf & Hk). destruct fail as [[j e']|]; [|done].
        injection Hf as <- <-. exists j. split; [done|lia].
      * destruct Hres as [Hres|Hres]; [by left|right]. lia.
Qed.

(** A pass of a closed circuit, whatever it meets. *)
Lemma runPass_spec cfg now fail s t s' t' :
  circuitOpen s = false → counting (rowsDeletedByTable s) → runPass cfg now fail s t = (s', t') →
  swept cfg now (before fail 33) (rowsDeletedByTable s) (rowsDeletedByTable s') t t' ∧
  ( lastError s' = None ∧ consecutiveFailures s' = O ∧ lastRunTimestamp s' = Some now ∧
    timer s' = timer s ∧ circuitOpen s' = false ∧
    (Forall (λ c, c t') (clean (stale_text now) cfg now) ∨ (size t' + 3 * BATCH_SIZE ≤ size t)%nat)
  ∨ ∃ k e, fail = Some (k, e) ∧ (k < 33)%nat ∧ lastError s' = Some e ∧
    consecutiveFailures s' = S (consecutiveFailures s) ∧ lastRunTimestamp s' = lastRunTimestamp s ∧
    circuitOpen s' = bool_decide (5 ≤ consecutiveFailures s')%nat ∧
    timer s' = timer s && negb (circuitOpen s')).
Proof.
  unfold runPass. intros -> Hr.
  destruct (chained _ _ _ _ _ _) as [[r rows'] t1] eqn:E.
  apply chained_spec in E as [Hs Hres]; [|done].
  destruct r as [e|]; unfold publishMetrics; cbn [published metrics rowsDeletedByTable];
    destruct (foldl _ _ _) as [pub prom]; intros [= <- <-]; (split; [exact Hs|]); simpl.
  - right. destruct Hres as (k & -> & Hk). exists k, e. repeat split; try done.
    unfold CIRCUIT_BREAK_THRESHOLD. case_bool_decide; simpl; by rewrite ?andb_true_r, ?andb_false_r.
  - left. repeat split; done.
Qed.

(** ** Ages as numbers *)

Definition older (now : Z) (days : number) (created : Z) : Prop :=
  match days with Int d => created < now - d * SECONDS_PER_DAY | NaN => False end.

(** The cutoffs that are compared as text have ten digits, *)
Definition ranged (cfg : Retention) (now : Z) : Prop :=
  Forall (λ days, ∃ d, days = Int d ∧ ten_digits (now - d * SECONDS_PER_DAY))
    [audit_retention_days cfg; audit_tier2_retention_days cfg; file_activity_retention_days cfg;
     events_retention_days cfg; thread_messages_retention_days cfg;
     action_summaries_retention_days cfg; layer_firings_retention_days cfg].

(** and so do the timestamps. *)
Record dated (t : Tables) : Prop := {
  dt_audit : Forall (λ r, ten_digits r.2) (tb_audit t);
  dt_files : Forall (λ r, ten_digits (f_created_at r)) (tb_files t);
  dt_events : Forall (λ r, ten_digits r.2) (tb_events t);
  dt_messages : Forall (λ r, ten_digits (m_created_at r)) (tb_messages t);
  dt_summaries : Forall (λ r, ten_digits (s_created_at r)) (tb_summaries t);
  dt_firings : Forall (λ r, ten_digits (lf_fired_at r)) (tb_firings t)
}.

Lemma stale_text_older now d created :
  ten_digits (now - d * SECONDS_PER_DAY) → ten_digits created →
  stale_text now (Int d) created ↔ older now (Int d) created.
Proof. intros Hn Hc. exact (text_order _ _ Hc Hn). Qed.

(** The clauses of the statements select by age. *)
Lemma without_older cfg now t t' :
  ranged cfg now → dated t → only_stale cfg now t t' → without (older now) cfg now t t'.
Proof.
  unfold ranged. intros Hr [] [].
  repeat match goal with H : Forall _ (_ :: _) |- _ => apply Forall_cons in H as [(? & ? & ?) ?] end.
  constructor; try done; eapply drops_impl; try eassumption; simpl; intros r Hin; unfold old_audit;
    repeat match goal with H : Forall _ ?l, H' : r ∈ ?l |- _ => rewrite Forall_forall in H; specialize (H r H') end;
    repeat match goal with H : ?x = Int _ |- _ => rewrite H in *; clear H end;
    rewrite !stale_text_older by done; done.
Qed.

Lemma dated_without old cfg now t t' : without old cfg now t t' → dated t → dated t'.
Proof. intros [] []. constructor; eapply Forall_drops; eassumption. Qed.

Lemma clean_older cfg now t :
  ranged cfg now → dated t →
  Forall (λ c, c t) (clean (stale_text now) cfg now) → Forall (λ c, c t) (clean (older now) cfg now).
Proof.
  unfold ranged, clean. intros Hr [] Hc.
  repeat match goal with H : Forall _ (_ :: _) |- _ => apply Forall_cons in H as [? ?] end.
  repeat match goal with H : ∃ _, _ |- _ => destruct H as (? & ? & ?) end.
  repeat apply Forall_cons_2; try apply Forall_nil_2; try done; rewrite Forall_forall in *; intros r Hin;
    repeat match goal with H : ∀ x, x ∈ ?l → _, H' : r ∈ ?l |- _ => specialize (H r H') end;
    simpl in *; unfold old_audit in *;
    repeat match goal with H : ?x = Int _ |- _ => rewrite H in *; clear H end;
    rewrite stale_text_older in * by done; done.
Qed.

(** A token that may go: revoked longer ago than its retention, or never revoked
    and expired for thirty days. *)
Definition spent (cfg : Retention) (now : Z) (r : RefreshRow) : Prop :=
  match revoked_at r with
  | Some t => older now (refresh_retention_days cfg) t
  | None => rt_expires_at r + 30 * 86400 < now
  end.

Lemma without_spent old cfg now t t' :
  without old cfg now t t' →
  drops (λ r, Login.os_expires_at r + 60 < now) (tb_oauth t) (tb_oauth t') ∧
  drops (λ r, DeviceFlow.expires_at r + 60 < now) (tb_device t) (tb_device t') ∧
  drops (spent cfg now) (tb_refresh t) (tb_refresh t').
Proof.
  intros []. unfold stale_oauth, stale_device, STALE_BUFFER_S in *.
  split_and!; eapply drops_impl; try eassumption; simpl; intros r _; [lia..|].
  unfold stale_revoked, stale_unrevoked, spent, cutoff, num_lt, older, REFRESH_EXPIRED_RETENTION_DAYS, SECONDS_PER_DAY.
  destruct (revoked_at r) as [x|]; [|intros [?|[_ ?]]; [done|lia]]. intros [?|[? _]]; [|done].
  by destruct (refresh_retention_days cfg).
Qed.

(** [C25] A pass deletes only rows that are past their retention, whichever
    statement of it fails, and at most one batch for each of its 33 statements, up
    to the one that fails: login states and device requests expired for a minute, tokens
    revoked longer ago than their retention or expired for thirty days, and rows
    of the other tables older than the days of their table, of the audit log only
    those of its tiers. The last clause is for retentions that are numbers of days,
    with cutoffs between September 2001 and November 2286, and rows of that time:
    these tables hold their dates as text, which is compared as text. Outside that
    range it fails: see [long_retention_erases], where a retention that is not a
    number, or reaches further back, deletes every row. *)
Theorem sweep_only_expired cfg now fail s t s' t' :
  counting (rowsDeletedByTable s) → ranged cfg now → dated t →
  runPass cfg now fail s t = (s', t') →
  without (older now) cfg now t t' ∧ (size t ≤ size t' + before fail 33 * BATCH_SIZE)%nat ∧
  drops (λ r, Login.os_expires_at r + 60 < now) (tb_oauth t) (tb_oauth t') ∧
  drops (λ r, DeviceFlow.expires_at r + 60 < now) (tb_device t) (tb_device t') ∧
  drops (spent cfg now) (tb_refresh t) (tb_refresh t').
Proof.
  intros Hk Hr Hd Hrun. enough (without (older now) cfg now t t' ∧ (size t ≤ size t' + before fail 33 * BATCH_SIZE)%nat) as [Hw Hs].
  { split; [done|]. split; [done|]. by apply (without_spent (older now)). }
  destruct (circuitOpen s) eqn:Ho.
  - unfold runPass in Hrun. rewrite Ho in Hrun. injection Hrun as <- <-.
    split; [constructor; reflexivity|lia].
  - apply runPass_spec in Hrun as [Hs _]; [|done..]. split; [|apply Hs].
    apply without_older; [done..|apply Hs].
Qed.

(** ** Backlogs *)

Lemma clean_keep old old' cfg now now' t t' :
  without old' cfg now' t t' → Forall (λ c, c t) (clean old cfg now) → Forall (λ c, c t') (clean old cfg now).
Proof.
  intros [] Hc. unfold clean in *.
  repeat match goal with H : Forall _ (_ :: _) |- _ => apply Forall_cons in H as [? ?] end.
  repeat apply Forall_cons_2; try apply Forall_nil_2; eapply Forall_drops; eassumption.
Qed.

Lemma clean_earlier cfg now now' t :
  now ≤ now' → Forall (λ c, c t) (clean (older now') cfg now') → Forall (λ c, c t) (clean (older now) cfg now).
Proof.
  intros Hle Hc. unfold clean in *.
  repeat match goal with H : Forall _ (_ :: _) |- _ => apply Forall_cons in H as [? ?] end.
  unfold stale_oauth, stale_device, stale_revoked, stale_unrevoked, old_audit, older, num_lt, cutoff in *.
  repeat apply Forall_cons_2; try apply Forall_nil_2; rewrite Forall_forall in *; intros r Hin Hold;
    match goal with H : ∀ x, x ∈ ?l → ¬ _, H' : r ∈ ?l |- _ =>
      apply (H r H'); clear H; revert Hold; try destruct (revoked_at r); try destruct (refresh_retention_days cfg); try done;
      repeat match goal with |- context [match ?x with NaN => _ | Int _ => _ end] => destruct x end;
      solve [intros; destruct_and?; split_and?; try done; lia] end.
Qed.

Lemma passes_spec cfg now times s t :
  circuitOpen s = false → timer s = true → counting (rowsDeletedByTable s) → dated t →
  Forall (λ n, now ≤ n ∧ ranged cfg n) times →
  let t' := (run cfg ((λ n, Fires None n None) <$> times) (s, t)).2 in
  (Forall (λ c, c t) (clean (older now) cfg now) → Forall (λ c, c t') (clean (older now) cfg now)) ∧
  (Forall (λ c, c t') (clean (older now) cfg now) ∨ (size t' + length times * (3 * BATCH_SIZE) ≤ size t)%nat).
Proof.
  revert s t. induction times as [|n times IH]; intros s t Ho Ht Hk Hd Hn; [simpl; auto with lia|].
  apply Forall_cons in Hn as [[Hle Hr] Hn]. cbn [fmap list_fmap run foldl step length]. rewrite Ht.
  unfold tick. cbn [leads]. destruct (runPass cfg n None s t) as [s1 t1] eqn:E.
  apply runPass_spec in E as [Hs [(_ & _ & _ & Ht1 & Ho1 & Hc)|(k & e & Hf & _)]]; [|done..].
  pose proof (sw_stale _ _ _ _ _ _ _ Hs) as Hw. pose proof (dated_without _ _ _ _ _ Hw Hd) as Hd1.
  rewrite Ht in Ht1. destruct (IH s1 t1 Ho1 Ht1 (sw_counting _ _ _ _ _ _ _ Hs) Hd1 Hn) as [IH1 IH2].
  unfold run in IH1, IH2. split; [intros H0; apply IH1; exact (clean_keep _ _ _ _ _ _ _ Hw H0)|].
  destruct Hc as [Hc|Hc]; [left; apply IH1, (clean_earlier _ _ n), clean_older; done|].
  destruct IH2 as [IH2|IH2]; [by left|right; lia].
Qed.

(** Backlogs drain: ticks without failures, at any times, delete every row
    that was past its retention before them, once three batches a tick exceed
    the number of rows. *)
Theorem backlog_drains cfg now times s t :
  circuitOpen s = false → timer s = true → counting (rowsDeletedByTable s) → dated t →
  Forall (λ n, now ≤ n ∧ ranged cfg n) times →
  (size t < length times * (3 * BATCH_SIZE))%nat →
  Forall (λ c, c (run cfg ((λ n, Fires None n None) <$> times) (s, t)).2) (clean (older now) cfg now).
Proof.
  intros Ho Ht Hk Hd Hn Hsz. destruct (passes_spec cfg now times s t Ho Ht Hk Hd Hn) as [_ [?|Hle]]; [done|lia].
Qed.

(** ** Counters *)

Lemma count_of_set k k' n m : count_of k' (map_set k n m) = if decide (k' = k) then n else count_of k' m.
Proof. unfold count_of. rewrite map_get_set. by case_decide. Qed.

(** Publishing: the two maps stay equal, and catch up with the counters. *)
Lemma publish_rows rows : ∀ pub, NoDup rows.*1 → (∀ k n, (k, n) ∈ rows → (count_of k pub ≤ n)%nat) →
  ∃ pub', foldl publish_row (pub, pub) rows = (pub', pub') ∧
    (∀ k, k ∉ rows.*1 → count_of k pub' = count_of k pub) ∧
    (∀ k n, (k, n) ∈ rows → count_of k pub' = n).
Proof.
  induction rows as [|[k n] rows IH]; intros pub Hnd Hle.
  { exists pub. split_and!; [done..|]. by intros k n ?%not_elem_of_nil. }
  apply NoDup_cons in Hnd as [Hk Hnd]. simpl in Hk.
  assert (∃ pub1, publish_row (pub, pub) (k, n) = (pub1, pub1) ∧
            ∀ j, count_of j pub1 = if decide (j = k) then n else count_of j pub) as (pub1 & E & H1).
  { assert (count_of k pub ≤ n)%nat as Hkn by (apply Hle; left).
    unfold publish_row. cbn [fst snd]. fold (count_of k pub). case_bool_decide as Hlt.
    - exists (map_set k n pub). split; [|by intros j; rewrite count_of_set].
      do 2 f_equal. lia.
    - exists pub. split; [done|]. intros j. case_decide; [subst; lia|done]. }
  cbn [foldl]. rewrite E. destruct (IH pub1) as (pub' & Ef & Hout & Hin); [done| |].
  { intros j m Hj. rewrite H1. case_decide as Hjk; [|apply Hle; by right]. subst j.
    destruct Hk. by apply (list_elem_of_fmap_2 fst) in Hj. }
  exists pub'. split; [done|]. split.
  - intros j Hj. cbn [fmap list_fmap fst] in Hj. apply not_elem_of_cons in Hj as [Hjk Hj].
    rewrite Hout, H1 by done. by rewrite decide_False.
  - intros j m Hj. apply elem_of_cons in Hj as [[= -> ->]|Hj]; [|by apply Hin].
    rewrite Hout by done. by rewrite H1, decide_True.
Qed.

(** The registry says what the counters say. *)
Record metered (s : Sweeper) : Prop := {
  me_counting : counting (rowsDeletedByTable s);
  me_published : published s = c_rows_deleted (metrics s);
  me_equal k : count_of k (published s) = count_of k (rowsDeletedByTable s)
}.

Lemma publish_metered s :
  counting (rowsDeletedByTable s) → published s = c_rows_deleted (metrics s) →
  (∀ k, (count_of k (published s) ≤ count_of k (rowsDeletedByTable s))%nat) →
  metered (publishMetrics s) ∧ rowsDeletedByTable (publishMetrics s) = rowsDeletedByTable s ∧
  circuitOpen (publishMetrics s) = circuitOpen s ∧ timer (publishMetrics s) = timer s ∧
  g_circuit_open (metrics (publishMetrics s)) = (if circuitOpen s then 1 else 0).
Proof.
  intros Hc Hp Hle. assert (NoDup (rowsDeletedByTable s).*1) as Hnd by (rewrite Hc; apply counters_NoDup).
  unfold publishMetrics. rewrite <- Hp.
  destruct (publish_rows (rowsDeletedByTable s) (published s) Hnd) as (pub & E & Hout & Hin).
  { intros k n Hk. by rewrite <- (count_of_elem _ _ _ Hnd Hk). }
  rewrite E. split; [|done]. constructor; simpl; [done..|].
  intros k. destruct (decide (k ∈ (rowsDeletedByTable s).*1)) as [Hk|Hk].
  - apply list_elem_of_fmap in Hk as ([j n] & -> & Hk). simpl.
    by rewrite (Hin _ _ Hk), (count_of_elem _ _ _ Hnd Hk).
  - rewrite Hout by done. specialize (Hle k). enough (count_of k (rowsDeletedByTable s) = O) by lia.
    unfold count_of, map_get. destruct (select_one _ _) as [p|] eqn:Es; [|done].
    apply select_one_Some in Es as [<- Hp']. destruct Hk. by apply list_elem_of_fmap_2.
Qed.

Lemma runPass_metered cfg now fail s t s' t' :
  metered s → runPass cfg now fail s t = (s', t') →
  metered s' ∧ (total (rowsDeletedByTable s') + size t' = total (rowsDeletedByTable s) + size t)%nat.
Proof.
  intros [Hc Hp He] Hrun. destruct (circuitOpen s) eqn:Ho.
  { unfold runPass in Hrun. rewrite Ho in Hrun. by injection Hrun as <- <-. }
  split; [|by apply runPass_spec in Hrun as [[] _]].
  unfold runPass in Hrun. rewrite Ho in Hrun.
  destruct (chained _ _ _ _ _ _) as [[r rows'] t1] eqn:E.
  apply chained_spec in E as [[_ Hc' Hm _ _] _]; [|done].
  destruct r as [e|]; injection Hrun as <- <-; apply publish_metered; simpl; try done;
    intros k; by rewrite He.
Qed.

Lemma step_metered cfg e s t s' t' :
  metered s → step cfg e (s, t) = (s', t') →
  metered s' ∧ (total (rowsDeletedByTable s') + size t' = total (rowsDeletedByTable s) + size t)%nat.
Proof.
  intros Hm. destruct e as [| | |gate now fail]; cbn [step].
  - unfold start. destruct (timer s); intros [= <- <-]; (split; [|done]); destruct Hm; by constructor.
  - unfold stop. destruct (timer s); intros [= <- <-]; (split; [|done]); destruct Hm; by constructor.
  - intros [= <- <-]. destruct Hm as [Hc Hp He]. unfold resetCircuit.
    match goal with |- context [publishMetrics ?x] =>
      destruct (publish_metered x) as (H1 & H2 & _); simpl; [done..|by intros k; rewrite He|] end.
    split; [done|]. by rewrite H2.
  - unfold tick. destruct (timer s), (leads gate); try (intros [= <- <-]; done).
    by apply runPass_metered.
Qed.

Lemma new_metered : metered new_sweeper.
Proof.
  constructor; [done..|]. intros k. unfold count_of at 1. simpl.
  destruct (decide (k ∈ counters)) as [Hk|Hk].
  - symmetry. apply count_of_elem; [exact counters_NoDup|].
    exact (list_elem_of_fmap_2 (λ k, (k, O)) counters k Hk).
  - unfold count_of, map_get. destruct (select_one _ _) as [p|] eqn:Es; [|done].
    apply select_one_Some in Es as [<- Hp']. destruct Hk.
    exact (list_elem_of_fmap_2 fst _ _ Hp').
Qed.

Lemma run_metered cfg es s t :
  metered s →
  metered (run cfg es (s, t)).1 ∧
  (total (rowsDeletedByTable (run cfg es (s, t)).1) + size (run cfg es (s, t)).2 =
   total (rowsDeletedByTable s) + size t)%nat.
Proof.
  revert s t. induction es as [|e es IH]; intros s t Hm; [done|].
  change (run cfg (e :: es) (s, t)) with (run cfg es (step cfg e (s, t))).
  destruct (step cfg e (s, t)) as [s1 t1] eqn:E. apply step_metered in E as [Hm1 E1]; [|done].
  destruct (IH s1 t1 Hm1) as [Hm2 E2]. split; [done|lia].
Qed.

(** Whatever happens to a sweeper, failing statements, trips, stops and
    resets included, its counters add up to the rows that are gone, and the
    Prometheus counter of every table is the counter of the sweeper. *)
Theorem counters_exact cfg es t :
  (total (rowsDeletedByTable (run cfg es (new_sweeper, t)).1) + size (run cfg es (new_sweeper, t)).2 = size t)%nat ∧
  ∀ k, count_of k (c_rows_deleted (metrics (run cfg es (new_sweeper, t)).1)) =
       count_of k (rowsDeletedByTable (run cfg es (new_sweeper, t)).1).
Proof.
  destruct (run_metered cfg es new_sweeper t new_metered) as [[Hc Hp He] E]. split; [exact E|].
  intros k. by rewrite <- Hp, He.
Qed.

(** ** The breaker *)

(** Without a timer no tick fires, so nothing is deleted. *)
Lemma stopped_sweeps_nothing cfg es s t :
  timer s = false → Start ∉ es → timer (run cfg es (s, t)).1 = false ∧ (run cfg es (s, t)).2 = t.
Proof.
  revert s. induction es as [|e es IH]; intros s Ht Hs; [done|].
  apply not_elem_of_cons in Hs as [He Hs].
  change (run cfg (e :: es) (s, t)) with (run cfg es (step cfg e (s, t))).
  destruct e; cbn [step]; [done| | |].
  - unfold stop. rewrite Ht. by apply IH.
  - apply IH; [|done]. unfold resetCircuit, publishMetrics. by destruct (foldl _ _ _).
  - rewrite Ht. by apply IH.
Qed.

(** An open circuit stays open, and nothing is deleted, until a reset. *)
Lemma open_sweeps_nothing cfg es s t :
  circuitOpen s = true → Reset ∉ es → circuitOpen (run cfg es (s, t)).1 = true ∧ (run cfg es (s, t)).2 = t.
Proof.
  revert s. induction es as [|e es IH]; intros s Ho Hr; [done|].
  apply not_elem_of_cons in Hr as [He Hr].
  change (run cfg (e :: es) (s, t)) with (run cfg es (step cfg e (s, t))).
  destruct e; cbn [step]; [| |done|].
  - unfold start. destruct (timer s); by apply IH.
  - unfold stop. destruct (timer s); by apply IH.
  - unfold tick, runPass. rewrite Ho. destruct (timer s), (leads gate); by apply IH.
Qed.

(** A statement of the first run that throws makes the pass fail. *)
Lemma early_failure cfg now k e s t :
  circuitOpen s = false → counting (rowsDeletedByTable s) → (k < 11)%nat →
  let s' := (runPass cfg now (Some (k, e)) s t).1 in
  counting (rowsDeletedByTable s') ∧ consecutiveFailures s' = S (consecutiveFailures s) ∧
  lastError s' = Some e ∧ circuitOpen s' = bool_decide (5 ≤ S (consecutiveFailures s))%nat ∧
  timer s' = timer s && negb (circuitOpen s').
Proof.
  intros Ho Hc Hk. destruct (runPass cfg now (Some (k, e)) s t) as [s' t'] eqn:E. cbn [fst].
  assert (lastError s' = Some e) as Hle.
  { unfold runPass in E. rewrite Ho in E.
    assert (∃ rows' t1, sweepAll cfg now (Some (k, e)) (rowsDeletedByTable s) t = (inl e, rows', t1)) as (rows' & t1 & Ea).
    { unfold sweepAll, statements. do 11 (destruct k as [|k]; [cbn; eauto|]). lia. }
    unfold MAX_CHAINED_RUNS in E. cbn [chained] in E. rewrite Ea in E. unfold publishMetrics in E.
    destruct (foldl _ _ _) in E. by injection E as <- <-. }
  apply runPass_spec in E as [Hs [(Hn & _)|(j & e' & _ & _ & _ & Hf & _ & Hb & Ht)]]; [congruence| |done..].
  rewrite Hf in Hb. split_and!; [apply Hs|done..].
Qed.

Definition failing (now : Z) (fails : list (nat * string)) : list event :=
  (λ f, Fires None now (Some f)) <$> fails.

Lemma failing_trips cfg now fails s t :
  circuitOpen s = false → timer s = true → counting (rowsDeletedByTable s) →
  Forall (λ f, (f.1 < 11)%nat) fails → (consecutiveFailures s + length fails = 5)%nat → fails ≠ [] →
  circuitOpen (run cfg (failing now fails) (s, t)).1 = true ∧
  timer (run cfg (failing now fails) (s, t)).1 = false.
Proof.
  revert s t. induction fails as [|[k e] fails IH]; intros s t Ho Ht Hc Hf Hlen Hne; [done|].
  apply Forall_cons in Hf as [Hk Hf].
  change (run cfg (failing now ((k, e) :: fails)) (s, t)) with
    (run cfg (failing now fails) (step cfg (Fires None now (Some (k, e))) (s, t))).
  cbn [step]. rewrite Ht. unfold tick. cbn [leads].
  destruct (early_failure cfg now k e s t Ho Hc Hk) as (Hc' & Hn & _ & Hb & Ht').
  destruct (runPass cfg now (Some (k, e)) s t) as [s1 t1]. cbn [fst length] in *. rewrite Ht in Ht'.
  destruct fails as [|f fails].
  - rewrite bool_decide_true in Hb by (simpl in Hlen; lia). by rewrite Hb in Ht'.
  - rewrite bool_decide_false in Hb by (simpl in Hlen; lia). rewrite Hb in Ht'.
    apply IH; [done..|lia|done].
Qed.

(** Five failing passes in a row open the circuit and clear the timer. A
    reset closes the circuit and the gauge says so, but the timer stays clear:
    nothing is swept, whatever is reset or fires, before the next start. *)
Theorem reset_does_not_restart cfg t now es (fails : list (nat * string)) :
  length fails = 5%nat → Forall (λ f, (f.1 < 11)%nat) fails → Start ∉ es →
  let st := run cfg (Start :: failing now fails) (new_sweeper, t) in
  circuitOpen st.1 = true ∧ timer st.1 = false ∧
  circuitOpen (resetCircuit st.1) = false ∧ g_circuit_open (metrics (resetCircuit st.1)) = 0 ∧
  (run cfg (Reset :: es) st).2 = st.2 ∧ timer (run cfg (Reset :: es) st).1 = false.
Proof.
  intros Hlen Hf Hs st.
  assert (circuitOpen st.1 = true ∧ timer st.1 = false) as [Ho Ht].
  { apply (failing_trips cfg now fails (start new_sweeper) t); try done. by destruct fails. }
  pose proof (run_metered cfg (Start :: failing now fails) _ t new_metered) as [[Hc Hp He] _].
  fold st in Hc, Hp, He. destruct st as [s t1]. cbn [fst snd] in *.
  assert (∀ k, (count_of k (published s) ≤ count_of k (rowsDeletedByTable s))%nat) as Hle
    by (intros k; by rewrite He).
  destruct (publish_metered (mkSweeper (timer s) (lastRunTimestamp s) O false None (totalRuns s)
    (rowsDeletedByTable s) (published s) (metrics s)) Hc Hp Hle) as (_ & _ & Hco & Htr & Hg).
  split_and!; try done; apply (stopped_sweeps_nothing cfg (Reset :: es) s t1); try done;
    by apply not_elem_of_cons.
Qed.

(** ** Cutoffs outside of the range *)

Lemma dec_head k x s : ∃ c r, dec (S k) x s = String (pretty_N_char c) r ∧ (c < 10)%N.
Proof.
  revert x s. induction k as [|k IH]; intros x s.
  - eexists _, _. split; [reflexivity|]. by apply N.mod_lt.
  - cbn [dec]. apply IH.
Qed.

(** A cutoff of nine digits, or one that is not a number, is greater as text
    than every timestamp of today. *)
Lemma stale_text_always now days created :
  10 ^ 9 ≤ created < 2 * 10 ^ 9 →
  days = NaN ∨ (∃ d, days = Int d ∧ 2 * 10 ^ 8 ≤ now - d * SECONDS_PER_DAY < 10 ^ 9) →
  stale_text now days created.
Proof.
  intros Hc Hd. assert (strftime_s created = dec 10 (Z.to_N created) "") as E
    by (apply pretty_ten_digits; unfold ten_digits; lia).
  unfold stale_text, text_lt, str_le, String.leb. rewrite E. destruct Hd as [->|(d & -> & Hd)].
  - destruct (dec_head 9 (Z.to_N created) "") as (c & r & -> & Hlt). cbn [cutoff String_ String.compare].
    unfold Ascii.compare. rewrite digit_code by done.
    change (N_of_ascii "N") with 78%N. destruct (N.compare_spec 78 (48 + c)); done || lia.
  - set (x := now - d * SECONDS_PER_DAY) in *. cbn [cutoff String_]. fold x.
    assert (pretty x = dec 9 (Z.to_N x) "") as ->.
    { destruct x as [|p|p]; [lia| |lia].
      change (pretty (Z.pos p)) with (pretty_N_go (N.pos p) ""). apply (pretty_N_go_dec 8). lia. }
    change (dec 10 (Z.to_N created) "") with
      (dec 9 (Z.to_N created / 10)%N (String (pretty_N_char (Z.to_N created mod 10)) "")).
    assert (Z.to_N created / 10 < 2 * 10 ^ 8)%N by (apply N.Div0.div_lt_upper_bound; lia).
    rewrite dec_compare by lia. destruct (N.compare_spec (Z.to_N x) (Z.to_N created / 10)); done || lia.
Qed.

Lemma delete_limit_all {A} (P : A → Prop) `{!∀ x, Decision (P x)} n l :
  Forall P l → (length l ≤ n)%nat → delete_limit P n l = [].
Proof.
  revert n. induction l as [|x l IH]; intros n HP Hn; [done|]. inversion HP; subst. simpl.
  rewrite decide_True by done. destruct n; [simpl in Hn; lia|]. apply IH; [done|simpl in Hn; lia].
Qed.

(** A retention that is not a number, or of so many days that the cutoff
    has nine digits, deletes every message of the last decades, the newest too. *)
Theorem long_retention_erases now days t :
  days = NaN ∨ (∃ d, days = Int d ∧ 2 * 10 ^ 8 ≤ now - d * SECONDS_PER_DAY < 10 ^ 9) →
  Forall (λ m, 10 ^ 9 ≤ m_created_at m < 2 * 10 ^ 9) (tb_messages t) →
  (length (tb_messages t) ≤ BATCH_SIZE)%nat →
  tb_messages (sweep_messages now days t).2 = [].
Proof.
  intros Hd Ht Hl. apply delete_limit_all; [|done]. eapply Forall_impl; [done|].
  intros m Hm. by apply stale_text_always.
Qed.

(** A variable that is set to nothing is a retention of no day at all. *)
Lemma blank_setting env s key dflt :
  VALID_KEY key = true → env (env_key key) = Some "" → setting env s key dflt = Some (Int 0).
Proof. intros Hv He. unfold setting, getOrgSetting. rewrite Hv. simpl. by rewrite He. Qed.

(** Rows whose action is of neither tier are never deleted. *)
Lemma untiered_rows_stay cfg now fail s t s' t' r :
  counting (rowsDeletedByTable s) → runPass cfg now fail s t = (s', t') →
  AuditChain.cf_action (AuditChain.ar_fields r.1) ∉ TIER1_EVENTS →
  AuditChain.cf_action (AuditChain.ar_fields r.1) ∉ TIER2_EVENTS →
  r ∈ tb_audit t → r ∈ tb_audit t'.
Proof.
  intros Hk Hrun H1 H2 Hr. destruct (circuitOpen s) eqn:Ho.
  - unfold runPass in Hrun. rewrite Ho in Hrun. by injection Hrun as <- <-.
  - apply runPass_spec in Hrun as [Hs _]; [|done..].
    destruct (drops_elem _ _ _ r (wo_audit _ _ _ _ _ (sw_stale _ _ _ _ _ _ _ Hs)) Hr) as [?|[[_ ?]|[_ ?]]]; done.
Qed.

(** ** Examples *)

Definition defaults : Retention :=
  mkRetention (Int 180) (Int 365) (Int 90) (Int 7) (Int 7) (Int 30) (Int 30) (Int 30).

Lemma defaults_spec s : retentions (λ _, None) s = Some defaults.
Proof. done. Qed.

Definition now0 : Z := 1750000000.
Definition message (id : string) (created : Z) : ThreadMessage :=
  mkMessage id "org" "thread" "agent" None MContext "text" None None 1 0 created.

(** A message of this morning and one that is 31 days old. *)
Definition tables0 : Tables :=
  mkTables [] [] [] [] [] [] [message "old" (now0 - 31 * 86400); message "new" (now0 - 3600)] [] [].

Lemma ten_digits_dec x : bool_decide (10 ^ 9 ≤ x ∧ x < 10 ^ 10) = true → ten_digits x.
Proof. intros H. by apply bool_decide_eq_true in H. Qed.

Lemma ranged_defaults now : now0 ≤ now ≤ now0 + 10 ^ 9 → ranged defaults now.
Proof.
  unfold now0, SECONDS_PER_DAY. intros Hn. repeat constructor; eexists; (split; [reflexivity|]); unfold ten_digits, SECONDS_PER_DAY; lia.
Qed.

Lemma dated_tables0 : dated tables0.
Proof. repeat constructor; by apply ten_digits_dec. Qed.

Lemma sweep_only_expired_witness :
  without (older now0) defaults now0 tables0
    (runPass defaults now0 (Some (9, "locked")%nat) new_sweeper tables0).2 ∧
  tb_messages (runPass defaults now0 (Some (9, "locked")%nat) new_sweeper tables0).2 = [message "new" (now0 - 3600)].
Proof.
  split; [|vm_compute; reflexivity].
  destruct (runPass defaults now0 (Some (9, "locked")%nat) new_sweeper tables0) as [s' t'] eqn:E.
  apply (sweep_only_expired defaults now0 (Some (9, "locked")%nat) new_sweeper tables0 s' t');
    [reflexivity|apply ranged_defaults; unfold now0; lia|exact dated_tables0|exact E].
Defined.

Lemma backlog_drains_witness :
  Forall (λ c, c (run defaults ((λ n, Fires None n None) <$> [now0; now0 + 60]) (start new_sweeper, tables0)).2)
    (clean (older now0) defaults now0).
Proof.
  apply backlog_drains; [reflexivity..|exact dated_tables0| |apply Nat.ltb_lt; vm_compute; reflexivity].
  apply Forall_cons_2; [|apply Forall_cons_2; [|apply Forall_nil_2]];
    (split; [|apply ranged_defaults]); unfold now0; lia.
Defined.

Lemma reset_does_not_restart_witness :
  let st := run defaults (Start :: failing now0 (repeat (0, "no column row_hash")%nat 5)) (new_sweeper, tables0) in
  circuitOpen st.1 = true ∧ timer st.1 = false ∧
  circuitOpen (resetCircuit st.1) = false ∧ g_circuit_open (metrics (resetCircuit st.1)) = 0 ∧
  (run defaults [Reset; Fires None (now0 + 60) None] st).2 = st.2 ∧
  timer (run defaults [Reset; Fires None (now0 + 60) None] st).1 = false.
Proof.
  apply (reset_does_not_restart defaults tables0 now0 [Fires None (now0 + 60) None]
           (repeat (0, "no column row_hash")%nat 5)).
  - reflexivity.
  - repeat constructor; apply Nat.ltb_lt; reflexivity.
  - apply not_elem_of_cons. split; [discriminate|apply not_elem_of_nil].
Defined.

Lemma long_retention_erases_witness : tb_messages (sweep_messages now0 (Int 10000) tables0).2 = [].
Proof.
  apply long_retention_erases.
  - right. exists 10000. split; [reflexivity|]. unfold now0, SECONDS_PER_DAY. lia.
  - repeat constructor; unfold now0; cbn; lia.
  - apply Nat.leb_le. reflexivity.
Defined.

End SweeperSafety.
