(* ===== verification/EventStreamSafety.v ===== *)
(** * Event streams lose nothing, within the cap

    What a client is sent is what was replayed when it connected, then every
    later event of its organisation, in order. The reader of the dashboard finds
    the same events again however the text is cut into chunks. Together: a page
    whose connection drops resumes without loss or repetition, as long as the
    events it missed are within the cap of a resumption. *)

From S2P Require Import Prelude Paths Announce AuditChain EventStream.
Local Open Scope Z_scope.

Module EventStreamSafety.
Import EventStream.

(** ** What is sent to one client *)

Definition of_client (c : nat) (l : list (nat * Event)) : list Event := snd <$> filter (λ p, p.1 = c) l.
Definition due (c : nat) (q : list (Entry * Event)) : list Event := snd <$> filter (λ p, en_client p.1 = c) q.

(** The number, type and payload; the text of the time is not the same live and
    in the table. *)
Definition core (e : Event) : Z * string * string := (ev_id e, ev_type e, ev_payload e).

(** The events of an organisation a sequence of actions emits. *)
Fixpoint emitted (org : string) (l : list action) (n : Z) : list (Z * string * string) :=
  match l with
  | [] => []
  | Emit _ _ type payload o :: l =>
      (if decide (o = org) then [(n + 1, type, stringify (payloadWithOrg o payload))] else []) ++
      emitted org l (n + 1)
  | _ :: l => emitted org l n
  end.

(** What the others do: no reuse of the response, no end of its subscription, no
    failing write to it. *)
Definition undisturbed (c : nat) (e : Entry) (a : action) : Prop :=
  match a with
  | Deliver throws => throws c = false
  | Connect _ c' _ => c' ≠ c
  | Close e' => e' ≠ e
  | _ => True
  end.

Lemma of_client_app c l l' : of_client c (l ++ l') = of_client c l ++ of_client c l'.
Proof. unfold of_client. by rewrite filter_app, fmap_app. Qed.

Lemma due_app c l l' : due c (l ++ l') = due c l ++ due c l'.
Proof. unfold due. by rewrite filter_app, fmap_app. Qed.

Lemma of_client_other c c' es : c' ≠ c → of_client c ((λ e, (c', e)) <$> es) = [].
Proof.
  intros Hc. unfold of_client. induction es as [|e es IH]; [done|].
  rewrite fmap_cons, filter_cons, decide_False by done. exact IH.
Qed.

Lemma of_client_same c es : of_client c ((λ e, (c, e)) <$> es) = es.
Proof.
  unfold of_client. induction es as [|e es IH]; [done|].
  rewrite fmap_cons, filter_cons, decide_True by done. simpl. f_equal. exact IH.
Qed.

Lemma due_fan c (ev : Event) l :
  due c ((λ e, (e, ev)) <$> l) = (λ _, ev) <$> filter (λ e, en_client e = c) l.
Proof.
  unfold due. induction l as [|e l IH]; [done|].
  rewrite fmap_cons, !filter_cons. cbn [fst]. case_decide; simpl; [f_equal|]; exact IH.
Qed.

Definition stream (c : nat) (s : Emitter) : list (Z * string * string) :=
  core <$> (of_client c (sent s) ++ due c (immediates s)).

(** The only subscription of the client. *)
Definition subscribed (c : nat) (org : string) (e : Entry) (s : Emitter) : Prop :=
  filter (λ x, en_client x = c) (entries s) = [e] ∧ en_org e = org ∧ en_client e = c.

Lemma write_sent c es s : sent (write c es s) = sent s ++ ((λ e, (c, e)) <$> es).
Proof. done. Qed.

Lemma stream_write c c' es s : c' ≠ c → stream c (write c' es s) = stream c s.
Proof.
  intros Hc. unfold stream. rewrite write_sent, of_client_app, of_client_other by done.
  by rewrite app_nil_r.
Qed.

Lemma filter_swap {A} (P Q : A → Prop) `{!∀ x, Decision (P x), !∀ x, Decision (Q x)} (l : list A) :
  filter P (filter Q l) = filter Q (filter P l).
Proof. rewrite !list_filter_filter. apply list_filter_iff. tauto. Qed.

Lemma step_stream max c org e a s :
  subscribed c org e s → undisturbed c e a →
  subscribed c org e (step max a s) ∧ stream c (step max a s) = stream c s ++ emitted org [a] (seq s).
Proof.
  intros (He & Ho & Hc) Ha. destruct a as [st iso type payload o|throws|o c' h|e'|ids]; cbn [step emitted].
  - split; [done|]. unfold stream, emit. cbn [sent immediates]. rewrite due_app, due_fan, filter_swap, He.
    rewrite filter_cons, filter_nil, app_assoc, (fmap_app core _ (_ <$> _)). f_equal. rewrite app_nil_r, Ho.
    destruct (decide (org = o)), (decide (o = org)); done || congruence.
  - unfold deliver. destruct (immediates s) as [|[x ev] q] eqn:Eq; [by rewrite app_nil_r|].
    split; [done|]. rewrite app_nil_r. unfold stream. cbn [sent immediates]. rewrite Eq. f_equal.
    unfold due. rewrite filter_cons. cbn [fst]. destruct (decide (en_client x = c)) as [Hx|Hx].
    + rewrite Hx, Ha, of_client_app. cbn [fmap list_fmap snd]. rewrite <- app_assoc. f_equal. simpl.
      unfold of_client. by rewrite filter_cons, decide_True.
    + destruct (throws (en_client x)); [done|]. rewrite of_client_app. unfold of_client at 2.
      rewrite filter_cons, decide_False by done. by rewrite filter_nil, app_nil_r.
  - simpl in Ha. unfold handleSse, addListener. rewrite app_nil_r.
    case_bool_decide; cbn [snd]; (split; [|exact (stream_write c c' _ s Ha)]).
    + done.
    + split; [|done]. cbn [entries]. rewrite filter_app, filter_cons, decide_False by done.
      by rewrite filter_nil, app_nil_r.
  - simpl in Ha. split; [|by rewrite app_nil_r]. split; [|done]. unfold unsubscribe, with_entries. cbn [entries].
    rewrite filter_swap, He, filter_cons, decide_True by congruence. done.
  - split; [done|]. by rewrite app_nil_r.
Qed.

Lemma emitted_cons org a l n :
  emitted org (a :: l) n = emitted org [a] n ++ emitted org l (match a with Emit _ _ _ _ _ => n + 1 | _ => n end).
Proof. destruct a; try done. cbn [emitted]. by rewrite app_nil_r. Qed.

Lemma step_seq max a s : seq (step max a s) = match a with Emit _ _ _ _ _ => seq s + 1 | _ => seq s end.
Proof.
  destruct a as [st iso type payload o|throws|o c' h|e'|ids]; cbn [step]; try done.
  - unfold deliver. by destruct (immediates s) as [|[x ev] q].
  - unfold handleSse, addListener. by case_bool_decide.
Qed.

Lemma run_stream max c org e l s :
  subscribed c org e s → Forall (undisturbed c e) l →
  stream c (run max l s) = stream c s ++ emitted org l (seq s).
Proof.
  revert s. induction l as [|a l IH]; intros s Hs Hl; [by rewrite app_nil_r|].
  apply Forall_cons in Hl as [Ha Hl]. destruct (step_stream max c org e a s Hs Ha) as [Hs' E].
  change (run max (a :: l) s) with (run max l (step max a s)).
  by rewrite (IH _ Hs' Hl), E, <- app_assoc, (emitted_cons org a l), step_seq.
Qed.

(** A response nothing was written to and nobody listens for. *)
Definition fresh_client (c : nat) (s : Emitter) : Prop :=
  c ∉ en_client <$> entries s ∧ c ∉ (λ p, en_client p.1) <$> immediates s ∧ c ∉ fst <$> sent s.

Lemma filter_fresh {A} (f : A → nat) c (l : list A) : c ∉ f <$> l → filter (λ x, f x = c) l = [].
Proof.
  intros Hc. induction l as [|x l IH]; [done|]. rewrite fmap_cons, not_elem_of_cons in Hc.
  rewrite filter_cons, decide_False by naive_solver. apply IH, Hc.
Qed.

(** Connecting: the replay, then the subscription. *)
Lemma handleSse_subscribes max org c header s e s1 :
  fresh_client c s → handleSse max org c header s = (Some e, s1) →
  subscribed c org e s1 ∧ stream c s1 = core <$> replay org header s ∧ seq s1 = seq s.
Proof.
  intros (Hen & Him & Hse). unfold handleSse, addListener. case_bool_decide; [done|]. intros [= <- <-].
  split; [|split; [|done]].
  - unfold subscribed. cbn [entries write]. rewrite filter_app, filter_cons, decide_True by done.
    by rewrite (filter_fresh en_client).
  - unfold stream. cbn [sent immediates write]. rewrite of_client_app, of_client_same.
    unfold of_client, due. rewrite (filter_fresh fst), (filter_fresh (λ p, en_client p.1)) by done.
    by rewrite app_nil_r.
Qed.

(** ** Numbers grow *)

Record wf (s : Emitter) : Prop := {
  wf_sorted : StronglySorted Z.lt (ev_id <$> (snd <$> table s));
  wf_seq : Forall (λ r, ev_id r.2 ≤ seq s) (table s);
  wf_nonneg : 0 ≤ seq s
}.

Lemma sorted_rows (P : string * Event → Prop) `{!∀ x, Decision (P x)} l :
  StronglySorted Z.lt (ev_id <$> (snd <$> l)) → StronglySorted Z.lt (ev_id <$> (snd <$> filter P l)).
Proof.
  induction l as [|r l IH]; [done|]. intros Hs. inversion Hs as [|? ? Hs' Hr]; subst.
  rewrite filter_cons. case_decide; [|by apply IH].
  constructor; [by apply IH|]. rewrite Forall_forall in *. intros i Hi. apply Hr.
  apply list_elem_of_fmap in Hi as (ev & -> & (x & -> & [_ Hx]%list_elem_of_filter)%list_elem_of_fmap).
  by apply list_elem_of_fmap_2, list_elem_of_fmap_2.
Qed.

Lemma StronglySorted_snoc (l : list Z) x :
  StronglySorted Z.lt l → Forall (λ y, y < x) l → StronglySorted Z.lt (l ++ [x]).
Proof.
  intros Hl Hx. apply StronglySorted_app_2; [|done|repeat constructor].
  intros y z Hy Hz%list_elem_of_singleton. subst. rewrite Forall_forall in Hx. auto.
Qed.

Lemma step_wf max a s : wf s → wf (step max a s).
Proof.
  intros [Hs Hq Hn]. destruct a as [st iso type payload o|throws|o c' h|e'|ids]; cbn [step].
  - constructor; unfold emit; cbn [table seq]; [| |lia].
    + rewrite !fmap_app. cbn [fmap list_fmap snd ev_id]. apply StronglySorted_snoc; [done|].
      apply Forall_forall. intros i Hi. rewrite Forall_forall in Hq.
      apply list_elem_of_fmap in Hi as (ev & -> & (x & -> & Hx)%list_elem_of_fmap). specialize (Hq x Hx). lia.
    + apply Forall_app. split; [eapply Forall_impl; [done|]; simpl; lia|repeat constructor; simpl; lia].
  - unfold deliver. destruct (immediates s) as [|[x ev] q]; by constructor.
  - unfold handleSse, addListener. case_bool_decide; by constructor.
  - by constructor.
  - constructor; cbn [with_table table seq]; [by apply sorted_rows| |done].
    rewrite Forall_forall in Hq. apply Forall_forall. intros x [_ Hx]%list_elem_of_filter. auto.
Qed.

Lemma run_wf max l s : wf s → wf (run max l s).
Proof.
  revert s. induction l as [|a l IH]; intros s Hs; [done|].
  change (run max (a :: l) s) with (run max l (step max a s)). by apply IH, step_wf.
Qed.

Lemma init_wf : wf init.
Proof. by repeat constructor. Qed.

Lemma emitted_sorted org l n :
  StronglySorted Z.lt ((λ x, x.1.1) <$> emitted org l n) ∧ Forall (λ x, n < x.1.1) (emitted org l n).
Proof.
  revert n. induction l as [|a l IH]; intros n; [by repeat constructor|].
  destruct a as [st iso type payload o|throws|o c' h|e'|ids]; cbn [emitted]; try apply IH.
  destruct (IH (n + 1)) as [Hs Hf].
  assert (Forall (λ x, n < x.1.1) (emitted org l (n + 1))) as Hf'.
  { eapply Forall_impl; [exact Hf|]. simpl. lia. }
  case_decide; [|done]. simpl. split; constructor; simpl; try done; [|lia].
  rewrite Forall_fmap. eapply Forall_impl; [exact Hf|]. simpl. lia.
Qed.

(** What a client resuming after number [n] has missed. *)
Definition missed (org : string) (n : Z) (s : Emitter) : list Event := getEventsSince org n None s.

Lemma missed_sorted org n s :
  wf s → StronglySorted Z.lt (ev_id <$> missed org n s) ∧ Forall (λ e, n < ev_id e ≤ seq s) (missed org n s).
Proof.
  intros [Hs Hq _]. split; [by apply sorted_rows|]. unfold missed, getEventsSince.
  rewrite Forall_forall in Hq. apply Forall_forall. intros e (r & -> & [[_ Hlt] Hr]%list_elem_of_filter)%list_elem_of_fmap.
  specialize (Hq r Hr). lia.
Qed.

Lemma resumed_stream max org c header n l s e s1 :
  wf s → fresh_client c s → parseInt header = Some n → 0 < n →
  (length (missed org n s) ≤ SSE_RESUME_CAP)%nat →
  handleSse max org c (Some header) s = (Some e, s1) → Forall (undisturbed c e) l →
  stream c (run max l s1) = (core <$> missed org n s) ++ emitted org l (seq s) ∧
  StronglySorted Z.lt ((λ x, x.1.1) <$> stream c (run max l s1)).
Proof.
  intros Hwf Hc Hh Hn Hm Hsse Hl.
  assert (replay org (Some header) s = missed org n s) as Hrep.
  { unfold replay. destruct header as [|a r]; [done|].
    change (default "0" (truthy (Some (String a r)))) with (String a r). rewrite Hh, bool_decide_true by done.
    by apply take_ge. }
  apply handleSse_subscribes in Hsse as (Hsub & E1 & Eq); [|done].
  rewrite (run_stream max c org e l s1 Hsub Hl), E1, Hrep, Eq. split; [done|].
  destruct (missed_sorted org n s Hwf) as [Hs Hf]. destruct (emitted_sorted org l (seq s)) as [Hs' Hf'].
  rewrite fmap_app, <- list_fmap_compose. apply StronglySorted_app_2; [|done|done].
  intros x y Hx Hy. rewrite Forall_forall in Hf. rewrite Forall_forall in Hf'.
  apply list_elem_of_fmap in Hx as (ev & -> & Hx). apply list_elem_of_fmap in Hy as (z & -> & Hy).
  specialize (Hf _ Hx). specialize (Hf' _ Hy). simpl in *. lia.
Qed.

(** A client that resumes after number [n], having missed no more than the
    cap, is sent exactly the events of its organisation numbered above [n],
    those of the table and those emitted later, in order and each once, whatever
    other clients, failing listeners and retention do meanwhile. *)
Theorem resumed_stream_complete max org c header n l s e s1 :
  wf s → fresh_client c s → parseInt header = Some n → 0 < n →
  (length (missed org n s) ≤ SSE_RESUME_CAP)%nat →
  handleSse max org c (Some header) s = (Some e, s1) → Forall (undisturbed c e) l →
  stream c (run max l s1) = (core <$> missed org n s) ++ emitted org l (seq s) ∧
  StronglySorted Z.lt ((λ x, x.1.1) <$> stream c (run max l s1)).
Proof. apply resumed_stream. Qed.

(** Beyond the cap, the oldest events of the cap are replayed and the listener
    is added: what lies between is never sent. *)
Lemma capped_stream max org c header n l s e s1 :
  fresh_client c s → parseInt header = Some n → 0 < n →
  handleSse max org c (Some header) s = (Some e, s1) → Forall (undisturbed c e) l →
  stream c (run max l s1) = (core <$> take SSE_RESUME_CAP (missed org n s)) ++ emitted org l (seq s).
Proof.
  intros Hc Hh Hn Hsse Hl. apply handleSse_subscribes in Hsse as (Hsub & E1 & Eq); [|done].
  rewrite (run_stream max c org e l s1 Hsub Hl), E1, Eq. do 2 f_equal.
  unfold replay. destruct header as [|a r]; [done|].
  change (default "0" (truthy (Some (String a r)))) with (String a r). by rewrite Hh, bool_decide_true.
Qed.

(** A client that missed more than the cap of a resumption never gets the
    first event beyond it, although every later live event is sent and moves its
    [Last-Event-ID] past that one. *)
Theorem resume_gap max org c header n l s e s1 lost :
  wf s → fresh_client c s → parseInt header = Some n → 0 < n →
  missed org n s !! SSE_RESUME_CAP = Some lost →
  handleSse max org c (Some header) s = (Some e, s1) → Forall (undisturbed c e) l →
  ev_id lost ∉ (λ x, x.1.1) <$> stream c (run max l s1) ∧
  Forall (λ x, ev_id lost < x.1.1) (emitted org l (seq s)) ∧
  emitted org l (seq s) `suffix_of` stream c (run max l s1).
Proof.
  intros Hwf Hc Hh Hn Hlost Hsse Hl. rewrite (capped_stream max org c header n l s e s1) by done.
  destruct (missed_sorted org n s Hwf) as [Hs Hf]. destruct (emitted_sorted org l (seq s)) as [_ Hf'].
  assert (ev_id lost ≤ seq s) as Hle.
  { apply list_elem_of_lookup_2 in Hlost. rewrite Forall_forall in Hf. specialize (Hf _ Hlost). lia. }
  assert (Forall (λ x, ev_id lost < x.1.1) (emitted org l (seq s))) as Hlater
    by (eapply Forall_impl; [exact Hf'|]; simpl; lia).
  split; [|split; [done|by eexists]].
  rewrite fmap_app, <- list_fmap_compose, not_elem_of_app. split.
  - rewrite <- (take_drop_middle _ _ _ Hlost) in Hs. rewrite fmap_app in Hs. intros Hin.
    assert (ev_id lost < ev_id lost) as Hlt; [|lia].
    eapply StronglySorted_app_1_elem_of; [exact Hs|exact Hin|]. rewrite fmap_cons. left.
  - rewrite Forall_forall in Hlater. intros (x & Ex & Hx)%list_elem_of_fmap. specialize (Hlater _ Hx). lia.
Qed.

End EventStreamSafety.
