(* ===== verification/EventReader.v ===== *)
(** * The reader of the event stream

    The dashboard gets the text of a stream in chunks that may be cut anywhere.
    It finds the events the server wrote, in order, once each; a connection that
    drops in the middle of an event leaves that event out, and the next
    connection asks for what follows the last whole one. *)

From S2P Require Import Prelude Paths Announce AuditChain EventStream EventStreamSafety.
Import Announce.PlanQuality.
Local Open Scope Z_scope.

Module EventReader.
Import EventStream EventStreamSafety.

(** ** Text without line breaks *)

Definition one_line (s : string) : Prop := has_char newline s = false ∧ has_char carriage s = false.

Lemma one_line_app s t : one_line (s +:+ t) ↔ one_line s ∧ one_line t.
Proof. unfold one_line. rewrite !Paths.has_char_app, !orb_false_iff. tauto. Qed.

Lemma escape_one_line s : one_line (AuditChain.escape s).
Proof.
  induction s as [|a s IH]; [done|]. cbn [AuditChain.escape]. apply one_line_app. split; [|done].
  destruct a as [[] [] [] [] [] [] [] []]; by vm_compute.
Qed.

Lemma quote_one_line s : one_line (AuditChain.quote s).
Proof. unfold AuditChain.quote. rewrite !one_line_app. split_and!; [done|apply escape_one_line|done]. Qed.

Lemma join_one_line l : Forall one_line l → one_line (join "," l).
Proof.
  unfold join. induction 1 as [|s l Hs Hl IH]; [done|]. destruct l as [|t l]; [done|].
  change (String.concat "," (s :: t :: l)) with (s +:+ "," +:+ String.concat "," (t :: l)).
  rewrite !one_line_app. done.
Qed.

Lemma stringify_one_line fields : Forall (λ p, one_line p.2) fields → one_line (stringify fields).
Proof.
  intros Hf. unfold stringify, members. rewrite !one_line_app. split_and!; [done| |done].
  apply join_one_line. rewrite Forall_fmap. eapply Forall_impl; [done|]. intros [k v] Hv. simpl in *.
  change (String ":" v) with (":" +:+ v). rewrite !one_line_app. split_and!; [apply quote_one_line|done..].
Qed.

Lemma map_set_forall {A} (P : A → Prop) k v (m : jsmap A) :
  P v → Forall (λ p, P p.2) m → Forall (λ p, P p.2) (map_set k v m).
Proof.
  intros Hv Hm. unfold map_set. destruct (map_get k m).
  - apply Forall_update_where; [done|]. by intros [].
  - apply Forall_app. by repeat constructor.
Qed.

Lemma injectTimestamp_one_line p t : one_line p → one_line (injectTimestamp p t).
Proof.
  intros Hp. pose proof (quote_one_line t) as Ht. pose proof (quote_one_line "_ts") as Hk.
  destruct p as [|a body]; [done|]. unfold injectTimestamp.
  destruct a as [[] [] [] [] [] [] [] []]; try done.
  apply (one_line_app "{" body) in Hp as [_ Hb].
  destruct (String.eqb body "}"); rewrite !one_line_app; split_and!; done.
Qed.

(** An event whose type and payload have no line breaks, and a payload that is
    not empty. *)
Definition plain (e : Event) : Prop := one_line (ev_type e) ∧ one_line (ev_payload e).

Lemma pretty_one_line (n : Z) : one_line (pretty n).
Proof.
  assert (∀ x s, one_line s → one_line (pretty_N_go x s)) as Hgo.
  { intros x. induction (N.lt_wf_0 x) as [x _ IH]. intros s Hs.
    destruct (decide (0 < x)%N) as [Hx|Hx]; [|by replace x with 0%N by lia].
    rewrite pretty_N_go_step by done. apply IH; [by apply N.div_lt|].
    apply (one_line_app (String _ "") s). split; [|done].
    assert (x mod 10 < 10)%N as Hm by by apply N.mod_lt.
    destruct (x mod 10)%N as [|q]; [done|]. do 4 (destruct q; try done). }
  destruct n as [|q|q]; [done| |].
  - by apply (Hgo (N.pos q) "").
  - apply (one_line_app "-" (pretty (N.pos q))). split; [done|]. by apply (Hgo (N.pos q) "").
Qed.

(** ** Blocks *)

Lemma cut_block_cons a b r :
  cut_block (String a (String b r)) =
    if Ascii.eqb a newline && Ascii.eqb b newline then Some ("", r)
    else '(x, y) ← cut_block (String b r); Some (String a x, y).
Proof. done. Qed.

Lemma cut_block_line s b t :
  has_char newline s = false →
  cut_block (s +:+ String newline (String b t)) =
    if Ascii.eqb b newline then Some (s, t)
    else '(x, y) ← cut_block (String b t); Some (s +:+ String newline x, y).
Proof.
  induction s as [|a s IH]; intros Hs.
  - change ("" +:+ String newline (String b t)) with (String newline (String b t)). rewrite cut_block_cons.
    change (Ascii.eqb newline newline) with true. by destruct (Ascii.eqb b newline).
  - cbn [has_char] in Hs. apply orb_false_iff in Hs as [Ha Hs].
    change ((String a s) +:+ String newline (String b t)) with (String a (s +:+ String newline (String b t))).
    assert (∃ d r, s +:+ String newline (String b t) = String d r) as (d & r & E) by (destruct s; eauto).
    rewrite E, cut_block_cons, Ha. cbn [andb]. rewrite <- E, IH by done.
    destruct (Ascii.eqb b newline); [done|]. by destruct (cut_block (String b t)) as [[x y]|].
Qed.

(** A line that is followed by more of the block. *)
Lemma cut_block_more s t :
  has_char newline s = false → t ≠ "" → startsWith nl t = false →
  cut_block (s +:+ String newline t) = '(x, y) ← cut_block t; Some (s +:+ String newline x, y).
Proof.
  intros Hs Ht Hn. destruct t as [|b t]; [done|]. rewrite cut_block_line by done.
  destruct (Ascii.eqb b newline) eqn:E; [|done]. apply Ascii.eqb_eq in E as ->. by destruct t.
Qed.

Lemma split_on_line s t : has_char newline s = false → split_on newline (s +:+ String newline t) = s :: split_on newline t.
Proof.
  induction s as [|a s IH]; intros Hs; [done|]. cbn [has_char] in Hs. apply orb_false_iff in Hs as [Ha Hs].
  change ((String a s) +:+ String newline t) with (String a (s +:+ String newline t)).
  cbn [split_on]. by rewrite Ha, IH.
Qed.

Lemma split_on_last s : has_char newline s = false → split_on newline s = [s].
Proof.
  induction s as [|a s IH]; intros Hs; [done|]. cbn [has_char] in Hs. apply orb_false_iff in Hs as [Ha Hs].
  cbn [split_on]. by rewrite Ha, IH.
Qed.

(** The block of an event, and what the reader makes of it. *)
Definition idLine (e : Event) : string := "id: " +:+ pretty (ev_id e).
Definition eventLine (e : Event) : string := "event: " +:+ ev_type e.
Definition dataLine (e : Event) : string := "data: " +:+ injectTimestamp (ev_payload e) (ev_created e).
Definition block_text (e : Event) : string :=
  idLine e +:+ String newline (eventLine e +:+ String newline (dataLine e)).

Definition block_of (e : Event) : Block :=
  mkBlock (ev_type e) (injectTimestamp (ev_payload e) (ev_created e)) (pretty (ev_id e)).

Lemma sseFrame_text e rest :
  sseFrame e +:+ rest =
  idLine e +:+ String newline (eventLine e +:+ String newline (dataLine e +:+ String newline (String newline rest))).
Proof.
  unfold sseFrame, idLine, eventLine, dataLine, nl. rewrite !str_app_assoc. done.
Qed.

Lemma lines_one_line e : plain e → one_line (idLine e) ∧ one_line (eventLine e) ∧ one_line (dataLine e).
Proof.
  intros [Ht Hp]. unfold idLine, eventLine, dataLine. rewrite !one_line_app.
  split_and!; try done; [apply pretty_one_line|by apply injectTimestamp_one_line].
Qed.

Lemma cut_block_frame e rest : plain e → cut_block (sseFrame e +:+ rest) = Some (block_text e, rest).
Proof.
  intros ([Hi _] & [He _] & [Hd _])%lines_one_line. rewrite sseFrame_text.
  rewrite cut_block_more by done. rewrite cut_block_more by done. by rewrite cut_block_line.
Qed.

Lemma parse_block_text e : plain e → parse_block (block_text e) = block_of e.
Proof.
  intros ([Hi _] & [He _] & [Hd _])%lines_one_line. unfold parse_block, block_text.
  rewrite !split_on_line, split_on_last by done. done.
Qed.

(** ** Chunks *)

Lemma normalise_id s : has_char carriage s = false → normalise s = s.
Proof.
  induction s as [|a s IH]; [done|]. cbn [has_char normalise]. intros [Ha Hs]%orb_false_iff.
  by rewrite Ha, IH.
Qed.

Lemma cut_block_length s x y : cut_block s = Some (x, y) → (String.length y < String.length s)%nat.
Proof.
  revert x y. induction s as [|a s IH]; intros x y; [done|]. destruct s as [|b s]; [done|].
  rewrite cut_block_cons. destruct (_ && _); [intros [= <- <-]; simpl; lia|].
  destruct (cut_block (String b s)) as [[x' y']|] eqn:E; [|done]. intros [= <- <-].
  specialize (IH _ _ eq_refl). change (String.length (String a (String b s))) with (S (String.length (String b s))). lia.
Qed.

Lemma cut_block_app s x y t : cut_block s = Some (x, y) → cut_block (s +:+ t) = Some (x, y +:+ t).
Proof.
  revert x y. induction s as [|a s IH]; intros x y; [done|]. destruct s as [|b s]; [done|].
  change ((String a (String b s)) +:+ t) with (String a (String b (s +:+ t))). rewrite !cut_block_cons.
  destruct (_ && _); [by intros [= <- <-]|].
  destruct (cut_block (String b s)) as [[x' y']|] eqn:E; [|done]. intros [= <- <-].
  change (String b (s +:+ t)) with ((String b s) +:+ t). by rewrite (IH _ _ eq_refl).
Qed.

Lemma cut_block_chars c s x y : cut_block s = Some (x, y) → has_char c s = false → has_char c y = false.
Proof.
  revert x y. induction s as [|a s IH]; intros x y; [done|]. destruct s as [|b s]; [done|].
  rewrite cut_block_cons. destruct (_ && _).
  - intros [= <- <-]. cbn [has_char]. rewrite !orb_false_iff. tauto.
  - destruct (cut_block (String b s)) as [[x' y']|] eqn:E; [|done]. intros [= <- <-].
    intros [_ Hs]%orb_false_iff. by eapply IH.
Qed.

(** The inner loop on a whole buffer. *)
Definition feed (s : string) (p : Page) : Page := drain (String.length s) (with_buffer s p).

Lemma drain_enough n p : (String.length (buffer p) ≤ n)%nat → drain n p = feed (buffer p) p.
Proof.
  unfold feed. remember (String.length (buffer p)) as k eqn:Hk. revert n p Hk.
  induction (lt_wf k) as [k _ IH]. intros n p -> Hn.
  replace (with_buffer (buffer p) p) with p by (by destruct p).
  destruct (cut_block (buffer p)) as [[x y]|] eqn:E.
  - pose proof (cut_block_length _ _ _ E) as Hlt.
    destruct n as [|n]; [lia|]. destruct (String.length (buffer p)) as [|k] eqn:Hk; [lia|].
    cbn [drain]. rewrite E. set (q := dispatchSseBlock x p).
    etrans; [|symmetry]; (apply (IH (String.length y) ltac:(lia)); [reflexivity|lia]).
  - destruct n as [|n], (String.length (buffer p)) as [|k]; cbn [drain]; by rewrite ?E.
Qed.

Lemma feed_cut s p x y : cut_block s = Some (x, y) → feed s p = feed y (dispatchSseBlock x (with_buffer s p)).
Proof.
  intros E. pose proof (cut_block_length _ _ _ E) as Hlt. unfold feed at 1.
  destruct (String.length s) as [|k] eqn:Hk; [lia|]. cbn [drain buffer with_buffer]. rewrite E.
  rewrite drain_enough by (simpl; lia). done.
Qed.

Lemma feed_none s p : cut_block s = None → feed s p = with_buffer s p.
Proof. intros E. unfold feed. destruct (String.length s); [done|]. cbn [drain buffer with_buffer]. by rewrite E. Qed.

(** The loop does not look at the buffer the page had. *)
Lemma feed_buffer s b p : feed s (with_buffer b p) = feed s p.
Proof. done. Qed.

(** Reading the beginning first makes no difference. *)
Lemma feed_app s v p : feed (s +:+ v) p = feed (buffer (feed s p) +:+ v) (feed s p).
Proof.
  remember (String.length s) as k eqn:Hk. revert s p Hk. induction (lt_wf k) as [k _ IH]. intros s p ->.
  destruct (cut_block s) as [[x y]|] eqn:E.
  - rewrite (feed_cut s p x y), (feed_cut (s +:+ v) p x (y +:+ v)) by eauto using cut_block_app.
    rewrite <- (IH (String.length y)); [|by eapply cut_block_length|done].
    unfold dispatchSseBlock. destruct (String.eqb _ _), (bool_decide (_ ∈ eventTypes)); try done;
      unfold addEvent; simpl; by destruct (negb _ && _).
  - by rewrite (feed_none s).
Qed.

Lemma feed_chars c s p : has_char c s = false → has_char c (buffer (feed s p)) = false.
Proof.
  remember (String.length s) as k eqn:Hk. revert s p Hk. induction (lt_wf k) as [k _ IH]. intros s p -> Hc.
  destruct (cut_block s) as [[x y]|] eqn:E; [|by rewrite feed_none].
  rewrite (feed_cut _ _ _ _ E). eapply IH; [by eapply cut_block_length|done|by eapply cut_block_chars].
Qed.

(** What is left has no whole block. *)
Lemma feed_settled s p : cut_block (buffer (feed s p)) = None.
Proof.
  remember (String.length s) as k eqn:Hk. revert s p Hk. induction (lt_wf k) as [k _ IH]. intros s p ->.
  destruct (cut_block s) as [[x y]|] eqn:E; [|by rewrite feed_none].
  rewrite (feed_cut _ _ _ _ E). eapply IH; [by eapply cut_block_length|done].
Qed.

Lemma read_chunks chunks p :
  has_char carriage (buffer p +:+ join "" chunks) = false → cut_block (buffer p) = None →
  foldl (λ p v, read_chunk v p) p chunks = feed (buffer p +:+ join "" chunks) p.
Proof.
  revert p. induction chunks as [|v chunks IH]; intros p Hc Hb.
  - change (join "" []) with "". rewrite str_app_nil_r, feed_none by done. by destruct p.
  - assert (join "" (v :: chunks) = v +:+ join "" chunks) as E.
    { unfold join. destruct chunks; [by rewrite str_app_nil_r|done]. }
    rewrite E in *. rewrite <- str_app_assoc in *. rewrite Paths.has_char_app, orb_false_iff in Hc.
    destruct Hc as [Hc1 Hc2]. cbn [foldl]. unfold read_chunk at 2. rewrite normalise_id by done.
    fold (feed (buffer p +:+ v) p). rewrite (feed_app (buffer p +:+ v)). apply IH.
    + rewrite Paths.has_char_app, orb_false_iff. split; [by apply feed_chars|done].
    + apply feed_settled.
Qed.

(** ** Streams *)

(** What the server writes to a response: events and heartbeats. *)
Inductive item := Ev (e : Event) | Beat.

Definition item_text (i : item) : string := match i with Ev e => sseFrame e | Beat => keepAlive end.
Definition item_event (i : item) : option Event := match i with Ev e => Some e | Beat => None end.
Definition item_plain (i : item) : Prop := match i with Ev e => plain e | Beat => True end.

(** What an event does to the page: its number is the one to resume from, and
    it is shown unless it was before. *)
Definition show (e : Event) (p : Page) : Page :=
  let p := mkPage (pretty (ev_id e)) (seenIds p) (shown p) (buffer p) in
  if bool_decide (ev_type e ∈ eventTypes) then addEvent (block_of e) p else p.

Definition shows (es : list Event) (p : Page) : Page := foldl (λ p e, show e p) p es.

Lemma pretty_nonempty (n : Z) : String.eqb (pretty n) "" = false.
Proof.
  assert (∀ x s, s ≠ "" → pretty_N_go x s ≠ "") as Hgo.
  { intros x. induction (N.lt_wf_0 x) as [x _ IH]. intros s Hs.
    destruct (decide (0 < x)%N) as [Hx|Hx]; [|by replace x with 0%N by lia].
    rewrite pretty_N_go_step by done. apply IH; [by apply N.div_lt|done]. }
  apply String.eqb_neq. destruct n as [|q|q]; [done| |done].
  change (pretty (Z.pos q)) with (pretty_N_go (N.pos q) ""). rewrite pretty_N_go_step by lia. by apply Hgo.
Qed.

Lemma dispatch_event e p : plain e → dispatchSseBlock (block_text e) p = show e p.
Proof.
  intros He. unfold dispatchSseBlock. rewrite parse_block_text by done. cbn [block_of b_id b_type].
  by rewrite pretty_nonempty.
Qed.

Lemma show_buffer e s p : show e (with_buffer s p) = with_buffer s (show e p).
Proof.
  unfold show, addEvent, with_buffer. simpl. case_bool_decide; [|done]. by destruct (negb _ && _).
Qed.

Lemma shows_buffer es s p : shows es (with_buffer s p) = with_buffer s (shows es p).
Proof. revert p. induction es as [|e es IH]; intros p; [done|]. cbn [shows foldl]. rewrite show_buffer. apply IH. Qed.

Lemma feed_item i rest p :
  item_plain i → feed (item_text i +:+ rest) p = feed rest (shows (option_list (item_event i)) p).
Proof.
  destruct i as [e|]; cbn [item_text item_event item_plain option_list]; intros Hi.
  - rewrite (feed_cut _ _ (block_text e) rest) by by apply cut_block_frame.
    rewrite dispatch_event, show_buffer by done. done.
  - rewrite (feed_cut _ _ ":keep-alive" rest) by done. done.
Qed.

Lemma shows_app es es' p : shows (es ++ es') p = shows es' (shows es p).
Proof. apply foldl_app. Qed.

Lemma feed_items l rest p :
  Forall item_plain l →
  feed (join "" (item_text <$> l) +:+ rest) p = feed rest (shows (omap item_event l) p).
Proof.
  revert p. induction l as [|i l IH]; intros p Hl; [done|]. apply Forall_cons in Hl as [Hi Hl].
  assert (join "" (item_text <$> i :: l) = item_text i +:+ join "" (item_text <$> l)) as ->.
  { unfold join. destruct l; [by rewrite str_app_nil_r|done]. }
  rewrite str_app_assoc, feed_item, IH by done. f_equal.
  destruct i; cbn [omap list_omap item_event option_list shows foldl]; done.
Qed.

Lemma frame_no_carriage e : plain e → has_char carriage (sseFrame e) = false.
Proof.
  intros ([_ Hi] & [_ He] & [_ Hd])%lines_one_line.
  assert (sseFrame e = idLine e +:+ nl +:+ eventLine e +:+ nl +:+ dataLine e +:+ nl +:+ nl) as ->.
  { unfold sseFrame, idLine, eventLine, dataLine. rewrite !str_app_assoc. done. }
  rewrite !Paths.has_char_app, Hi, He, Hd. done.
Qed.

Lemma items_no_carriage l : Forall item_plain l → has_char carriage (join "" (item_text <$> l)) = false.
Proof.
  unfold join. induction 1 as [|i l Hi Hl IH]; [done|].
  assert (has_char carriage (item_text i) = false) as Hc by (destruct i; [by apply frame_no_carriage|done]).
  destruct l as [|j l]; [done|].
  change (String.concat "" (item_text <$> i :: j :: l))
    with (item_text i +:+ "" +:+ String.concat "" (item_text <$> j :: l)).
  rewrite !Paths.has_char_app, Hc. exact IH.
Qed.

Lemma read_items l tail chunks p :
  Forall item_plain l → has_char carriage tail = false → cut_block tail = None →
  join "" chunks = join "" (item_text <$> l) +:+ tail →
  read_stream chunks p = with_buffer tail (shows (omap item_event l) p).
Proof.
  intros Hl Hc Ht E.
  assert (buffer (with_buffer "" p) +:+ join "" chunks = join "" (item_text <$> l) +:+ tail) as E' by exact E.
  unfold read_stream. rewrite read_chunks, E'; [|by rewrite E', Paths.has_char_app, items_no_carriage|done].
  by rewrite feed_buffer, feed_items, feed_none.
Qed.

(** The reader finds the events the server wrote: however the text of
    events and heartbeats is cut into chunks, and wherever the connection ends,
    the page is the one that shows the whole events in order, and the rest of a
    cut event is only left in the buffer. *)
Theorem stream_read_back l tail chunks p :
  Forall item_plain l → has_char carriage tail = false → cut_block tail = None →
  join "" chunks = join "" (item_text <$> l) +:+ tail →
  read_stream chunks p = with_buffer tail (shows (omap item_event l) p).
Proof. apply read_items. Qed.

(** ** Resuming *)

Lemma digits_head x s : (0 < x)%N → ∃ d r, pretty_N_go x s = String (pretty_N_char d) r ∧ (d < 10)%N.
Proof.
  revert s. induction (N.lt_wf_0 x) as [x _ IH]. intros s Hx. rewrite pretty_N_go_step by done.
  destruct (decide (0 < x / 10)%N) as [Hq|Hq]; [apply IH; [by apply N.div_lt|done]|].
  apply N.nlt_ge, N.le_0_r in Hq. rewrite Hq. eexists _, _. split; [reflexivity|]. by apply N.mod_lt.
Qed.

Lemma digit_prefix_digit acc d r :
  (d < 10)%N → digit_prefix acc (String (pretty_N_char d) r) = digit_prefix (Some (default 0 acc * 10 + Z.of_N d)) r.
Proof. intros Hd. destruct d as [|q]; [done|]. do 4 (destruct q; try done; try lia). Qed.

Lemma digit_prefix_pretty x s : (0 < x)%N → digit_prefix None (pretty_N_go x s) = digit_prefix (Some (Z.of_N x)) s.
Proof.
  revert s. induction (N.lt_wf_0 x) as [x _ IH]. intros s Hx. rewrite pretty_N_go_step by done.
  assert (x mod 10 < 10)%N as Hm by by apply N.mod_lt. pose proof (N.div_mod x 10 ltac:(done)) as Hd.
  assert (x / 10 < x)%N as Hlt by by apply N.div_lt.
  generalize dependent (x mod 10)%N. generalize dependent (x / 10)%N. intros q Hlt r Hr Hd.
  destruct (decide (0 < q)%N) as [Hq|Hq].
  - rewrite IH, digit_prefix_digit by done. do 2 f_equal. cbn [default from_option id]. lia.
  - assert (q = 0)%N as -> by lia. change (pretty_N_go 0 (String (pretty_N_char r) s)) with (String (pretty_N_char r) s).
    rewrite digit_prefix_digit by done. do 2 f_equal. cbn [default from_option id]. lia.
Qed.

Lemma trim_start_digit d r : (d < 10)%N → trim_start 0 (String (pretty_N_char d) r) = String (pretty_N_char d) r.
Proof.
  intros Hd. destruct r as [|b [|c r]]; (destruct d as [|d]; [reflexivity|]);
    do 4 (destruct d; try reflexivity; try lia).
Qed.

(** The header a page sends is read back as the number it shows. *)
Lemma parseInt_pretty (n : Z) : 0 < n → parseInt (pretty n) = Some n.
Proof.
  intros Hn. destruct n as [|q|q]; [lia| |lia].
  change (pretty (Z.pos q)) with (pretty_N_go (N.pos q) "").
  pose proof (digit_prefix_pretty (N.pos q) "" ltac:(lia)) as Hp.
  destruct (digits_head (N.pos q) "" ltac:(lia)) as (d & r & E & Hd). rewrite E in *.
  rewrite <- (eq_refl : digit_prefix (Some (Z.of_N (N.pos q))) "" = Some (Z.pos q)), <- Hp.
  unfold parseInt. rewrite trim_start_digit by done.
  destruct d as [|d]; [done|]. do 4 (destruct d; try done; try lia).
Qed.

(** The types the page has a listener for. *)
Definition listed (e : Event) : Prop := ev_type e ∈ eventTypes.
#[global] Instance listed_dec e : Decision (listed e).
Proof. unfold listed. apply _. Defined.

(** Showing new events adds exactly the blocks of those it has a listener for;
    the number to resume from is that of the last one, listed or not. *)
Lemma shows_new es p :
  NoDup (pretty ∘ ev_id <$> es) → (∀ e, e ∈ es → pretty (ev_id e) ∉ seenIds p) →
  shown (shows es p) = shown p ++ (block_of <$> filter listed es) ∧
  (∀ i, i ∈ seenIds (shows es p) → i ∈ seenIds p ∨ i ∈ pretty ∘ ev_id <$> es) ∧
  lastEventId (shows es p) = default (lastEventId p) (pretty ∘ ev_id <$> last es).
Proof.
  revert p. induction es as [|e es IH]; intros p Hnd Hnew.
  { simpl. rewrite app_nil_r. split_and!; auto. }
  change (shows (e :: es) p) with (shows es (show e p)). rewrite fmap_cons in Hnd.
  apply NoDup_cons in Hnd as [He Hnd].
  assert (pretty (ev_id e) ∉ seenIds p) as Hn by (apply Hnew; left).
  assert (lastEventId (show e p) = pretty (ev_id e) ∧
    shown (show e p) = shown p ++ (block_of <$> filter listed [e]) ∧
    (∀ i, i ∈ seenIds (show e p) → i ∈ seenIds p ∨ i = pretty (ev_id e))) as (El & Es & Ei).
  { unfold show, addEvent. rewrite filter_cons, filter_nil. fold (listed e).
    destruct (decide (listed e)) as [Ht|Ht].
    - rewrite bool_decide_true by done. simpl. rewrite pretty_nonempty. simpl.
      rewrite bool_decide_false by done. unfold set_add. rewrite decide_False by done. simpl.
      split_and!; [done..|]. intros i [?|?%list_elem_of_singleton]%elem_of_app; auto.
    - rewrite bool_decide_false by done. simpl. rewrite app_nil_r. auto. }
  destruct (IH (show e p) Hnd) as (H1 & H2 & H3).
  { intros x Hx [Hin|Hin]%Ei; [by apply (Hnew x); [right|]|].
    apply He. change ((pretty ∘ ev_id) e) with (pretty (ev_id e)). rewrite <- Hin.
    exact (list_elem_of_fmap_2 (pretty ∘ ev_id) es x Hx). }
  split_and!.
  - rewrite H1, Es, <- (assoc_L (++)), <- fmap_app. by rewrite <- filter_app.
  - intros i [[Hi|Hi]%Ei|Hi]%H2; [by left|right; rewrite fmap_cons, Hi; left|right; rewrite fmap_cons; by right].
  - rewrite H3, El. destruct es as [|e' es]; [done|]. rewrite last_cons_cons.
    destruct (last (e' :: es)) eqn:E; [done|]. by apply last_None in E.
Qed.

Lemma listed_core (es : list Event) : filter (λ x : Z * string * string, x.1.2 ∈ eventTypes) (core <$> es) = core <$> filter listed es.
Proof.
  induction es as [|e es IH]; [done|]. rewrite fmap_cons, !filter_cons, IH. simpl.
  destruct (decide (ev_type e ∈ eventTypes)), (decide (listed e)); done.
Qed.

(** A page that was just loaded. *)
Definition new_page : Page := mkPage "" [] [] "".

Definition written (es : list Event) : list item := Ev <$> es.

Lemma written_events es : omap item_event (written es) = es.
Proof. induction es as [|e es IH]; [done|]. cbn [written fmap list_fmap omap list_omap item_event]. by f_equal. Qed.

Lemma ids_pretty_NoDup es : StronglySorted Z.lt (ev_id <$> es) → NoDup (pretty ∘ ev_id <$> es).
Proof.
  intros Hs. rewrite (list_fmap_compose ev_id pretty). apply NoDup_fmap_2; [apply _|].
  induction Hs as [|x l Hl IH Hx]; constructor; [|done].
  intros Hin. rewrite Forall_forall in Hx. specialize (Hx _ Hin). lia.
Qed.

(** The first connection of a page, cut anywhere. *)
Lemma first_page first n tail chunks :
  let page := read_stream chunks new_page in
  0 < n → (ev_id <$> last first) = Some n → StronglySorted Z.lt (ev_id <$> first) →
  Forall plain first →
  has_char carriage tail = false → cut_block tail = None →
  join "" chunks = join "" (item_text <$> written first) +:+ tail →
  shown page = block_of <$> filter listed first ∧ (∀ i, i ∈ seenIds page → i ∈ pretty ∘ ev_id <$> first) ∧
  resume_header page = Some (pretty n).
Proof.
  intros page Hn Hlast Hs Hp Hc Ht E.
  unfold page. rewrite (read_items (written first) tail) by (done || by apply Forall_fmap).
  rewrite written_events.
  destruct (shows_new first new_page (ids_pretty_NoDup _ Hs)) as (H1 & H2 & H3).
  { intros x _. apply not_elem_of_nil. }
  split_and!; [exact H1| |].
  - intros i Hi. by destruct (H2 i Hi) as [?%not_elem_of_nil|?].
  - unfold resume_header. change (lastEventId (with_buffer ?t ?p)) with (lastEventId p). rewrite H3.
    destruct (last first) as [x|]; [|done]. injection Hlast as <-. simpl.
    pose proof (pretty_nonempty (ev_id x)). by destruct (pretty (ev_id x)).
Qed.

(** The second connection, once everything due was written. *)
Lemma second_stream max org c n l s e s1 :
  let second := of_client c (sent (run max l s1)) in
  wf s → fresh_client c s → 0 < n → n ≤ seq s → (length (missed org n s) ≤ SSE_RESUME_CAP)%nat →
  handleSse max org c (Some (pretty n)) s = (Some e, s1) →
  Forall (undisturbed c e) l → due c (immediates (run max l s1)) = [] →
  core <$> second = (core <$> missed org n s) ++ emitted org l (seq s) ∧
  StronglySorted Z.lt (ev_id <$> second) ∧ Forall (λ i, n < i) (ev_id <$> second).
Proof.
  intros second Hwf Hc Hn Hle Hcap Hsse Hl Hdue.
  destruct (resumed_stream max org c (pretty n) n l s e s1 Hwf Hc (parseInt_pretty n Hn) Hn Hcap Hsse Hl)
    as [Hst Hsort].
  unfold stream in Hst, Hsort. rewrite Hdue, app_nil_r in Hst, Hsort. fold second in Hst, Hsort.
  assert (ev_id <$> second = (ev_id <$> missed org n s) ++ ((λ x, x.1.1) <$> emitted org l (seq s))) as Hids.
  { apply (f_equal (fmap (λ x, x.1.1))) in Hst. rewrite fmap_app, <- !list_fmap_compose in Hst. exact Hst. }
  split; [exact Hst|]. rewrite <- list_fmap_compose in Hsort. split; [exact Hsort|]. rewrite Hids.
  destruct (missed_sorted org n s Hwf) as [_ Hm]. destruct (emitted_sorted org l (seq s)) as [_ He].
  apply Forall_app. split; apply Forall_fmap; (eapply Forall_impl; [eassumption|]); simpl; lia.
Qed.

Lemma last_greatest (es : list Event) n y :
  StronglySorted Z.lt (ev_id <$> es) → (ev_id <$> last es) = Some n → y ∈ es → ev_id y ≤ n.
Proof.
  intros Hs Hl Hy. destruct (last es) as [z|] eqn:E; [|done]. injection Hl as <-.
  apply last_Some in E as (l' & ->). rewrite fmap_app in Hs.
  apply elem_of_app in Hy as [Hy|Hy%list_elem_of_singleton]; [|by subst].
  assert (ev_id y < ev_id z); [|lia].
  eapply StronglySorted_app_1_elem_of; [exact Hs|by apply list_elem_of_fmap_2|left].
Qed.

(** [C26] A page whose connection drops resumes without loss or repetition. It
    showed the whole events of its first connection and reconnects with the
    header it kept; if it missed no more than the cap, then once the second
    connection is read it shows, once each, in order and under their types, the
    events of the first, those of the table that follow them, and those emitted
    since: of all these, the ones whose type is in its list of event types. (The
    server emits one that is not, [task_claimed]: see [claims_not_shown].) *)
Theorem page_resumes max org c s e s1 l first n tail1 chunks1 tail2 chunks2 :
  let page1 := read_stream chunks1 new_page in
  let second := of_client c (sent (run max l s1)) in
  wf s → fresh_client c s → 0 < n ≤ seq s → (ev_id <$> last first) = Some n →
  StronglySorted Z.lt (ev_id <$> first) → Forall plain (first ++ second) →
  has_char carriage tail1 = false → cut_block tail1 = None →
  has_char carriage tail2 = false → cut_block tail2 = None →
  join "" chunks1 = join "" (item_text <$> written first) +:+ tail1 →
  join "" chunks2 = join "" (item_text <$> written second) +:+ tail2 →
  (length (missed org n s) ≤ SSE_RESUME_CAP)%nat →
  handleSse max org c (resume_header page1) s = (Some e, s1) →
  Forall (undisturbed c e) l → due c (immediates (run max l s1)) = [] →
  (λ b, (b_id b, b_type b)) <$> shown (read_stream chunks2 page1) =
    (λ x, (pretty x.1.1, x.1.2)) <$>
      filter (λ x, x.1.2 ∈ eventTypes)
        ((core <$> first) ++ (core <$> missed org n s) ++ emitted org l (seq s)).
Proof.
  intros page1 second Hwf Hc [Hn Hle] Hlast Hs1 Hpl Hc1 Ht1 Hc2 Ht2 E1 E2 Hcap Hsse Hl Hdue.
  apply Forall_app in Hpl as [Hp1 Hp2].
  destruct (first_page first n tail1 chunks1 Hn Hlast Hs1 Hp1 Hc1 Ht1 E1) as (Hsh1 & Hseen1 & Hres).
  fold page1 in Hsh1, Hseen1, Hres. rewrite Hres in Hsse.
  destruct (second_stream max org c n l s e s1 Hwf Hc Hn Hle Hcap Hsse Hl Hdue) as (Hids & Hsort & Habove).
  fold second in Hids, Hsort, Habove.
  rewrite (read_items (written second) tail2) by (done || by apply Forall_fmap).
  rewrite written_events.
  destruct (shows_new second page1 (ids_pretty_NoDup _ Hsort)) as (Hsh2 & _ & _).
  { intros x Hx Hin%Hseen1. apply list_elem_of_fmap in Hin as (y & Ey & Hy).
    change (pretty (ev_id x) = pretty (ev_id y)) in Ey. apply (inj pretty) in Ey.
    pose proof (last_greatest first n y Hs1 Hlast Hy).
    rewrite Forall_forall in Habove. specialize (Habove (ev_id x) (list_elem_of_fmap_2 _ _ _ Hx)). lia. }
  change (shown (with_buffer ?t ?p)) with (shown p). rewrite Hsh2, Hsh1, <- Hids, <- !fmap_app, <- filter_app.
  by rewrite listed_core, <- !list_fmap_compose.
Qed.

(** The event the server emits when a thread is claimed advances the number the
    page resumes from and is never shown: its type is not in the list. *)
Lemma claims_not_shown e p :
  plain e → ev_type e = "task_claimed" →
  shown (dispatchSseBlock (block_text e) p) = shown p ∧
  lastEventId (dispatchSseBlock (block_text e) p) = pretty (ev_id e).
Proof. intros He Et. rewrite dispatch_event by done. unfold show. by rewrite Et. Qed.

(** ** Examples *)

Definition online (org : string) : action :=
  Emit "2026-01-01 10:00:00" "2026-01-01T10:00:00.000Z" "agent_online" [("agent_id", AuditChain.quote "a1")] org.

Definition s_few : Emitter := run 2 [online "org"; online "other"; online "org"; online "org"] init.
Definition s_many : Emitter := run 2 (repeat (online "org") 1002) init.
Definition later : list action := [online "org"; online "other"; Deliver (λ _, false)].

Lemma s_few_fresh : fresh_client 7 s_few.
Proof. unfold fresh_client. split_and!; by apply (bool_decide_unpack _); vm_compute. Qed.

Definition entry0 : Entry := mkEntry 0 "org" 7.

Lemma later_undisturbed : Forall (undisturbed 7 entry0) later.
Proof. by repeat constructor. Qed.

Lemma resumed_stream_complete_witness :
  stream 7 (run 2 later (handleSse 2 "org" 7 (Some "1") s_few).2) =
    (core <$> missed "org" 1 s_few) ++ emitted "org" later (seq s_few) ∧
  ((λ x, x.1.1) <$> stream 7 (run 2 later (handleSse 2 "org" 7 (Some "1") s_few).2)) = [3; 4; 5].
Proof.
  split; [|vm_compute; reflexivity].
  apply (resumed_stream_complete 2 "org" 7 "1" 1 later s_few entry0).
  - apply run_wf, init_wf.
  - exact s_few_fresh.
  - vm_compute; reflexivity.
  - lia.
  - apply Nat.leb_le. vm_compute; reflexivity.
  - vm_compute; reflexivity.
  - exact later_undisturbed.
Defined.

Lemma resume_gap_witness :
  1002 ∉ (λ x, x.1.1) <$> stream 7 (run 2 later (handleSse 2 "org" 7 (Some "1") s_many).2) ∧
  emitted "org" later (seq s_many) `suffix_of` stream 7 (run 2 later (handleSse 2 "org" 7 (Some "1") s_many).2).
Proof.
  destruct (missed "org" 1 s_many !! SSE_RESUME_CAP) as [lost|] eqn:E; [|by vm_compute in E].
  assert (1002 = ev_id lost) as -> by (vm_compute in E; by injection E as <-).
  destruct (resume_gap 2 "org" 7 "1" 1 later s_many entry0 (handleSse 2 "org" 7 (Some "1") s_many).2 lost)
    as (H1 & _ & H3).
  - apply run_wf, init_wf.
  - unfold fresh_client. split_and!; apply (bool_decide_unpack _); vm_compute; exact I.
  - vm_compute; reflexivity.
  - lia.
  - exact E.
  - vm_compute; reflexivity.
  - exact later_undisturbed.
  - split; [exact H1|exact H3].
Defined.

Definition ev_a : Event := mkEv 3 "agent_online" (stringify [("org_id", AuditChain.quote "org")]) "2026-01-01 10:00:00".
Definition ev_b : Event := mkEv 4 "agent_offline" (stringify [("org_id", AuditChain.quote "org")]) "2026-01-01 10:00:01".

Lemma ev_plain e : one_line (ev_type e) → one_line (ev_payload e) → plain e.
Proof. by split. Qed.

(** Cut in the middle of a line break, with an event cut by the end. *)
Lemma stream_read_back_witness :
  read_stream [sseFrame ev_a +:+ ":keep-alive" +:+ nl; nl +:+ sseFrame ev_b +:+ "id: 5"] new_page =
  with_buffer "id: 5" (shows [ev_a; ev_b] new_page).
Proof.
  apply (stream_read_back [Ev ev_a; Beat; Ev ev_b] "id: 5").
  - apply Forall_cons_2; [|apply Forall_cons_2; [exact I|apply Forall_cons_2; [|apply Forall_nil_2]]];
      apply ev_plain; vm_compute; split; reflexivity.
  - vm_compute; reflexivity.
  - vm_compute; reflexivity.
  - vm_compute; reflexivity.
Defined.

(** The page saw number 1; it reconnects, and numbers 3, 4 and 5 follow. *)
Lemma page_resumes_witness :
  let ev1 := mkEv 1 "agent_online" "{}" "2026-01-01 10:00:00" in
  let s1 := (handleSse 2 "org" 7 (Some "1") s_few).2 in
  let second := of_client 7 (sent (run 2 later s1)) in
  (λ b, (b_id b, b_type b)) <$> shown (read_stream [join "" (item_text <$> written second)]
                    (read_stream [sseFrame ev1 +:+ "id: 3"] new_page)) =
    [("1", "agent_online"); ("3", "agent_online"); ("4", "agent_online"); ("5", "agent_online")].
Proof.
  intros ev1 s1 second.
  etrans; [|instantiate (1 := (λ x, (pretty x.1.1, x.1.2)) <$> filter (λ x, x.1.2 ∈ eventTypes)
    ((core <$> [ev1]) ++ (core <$> missed "org" 1 s_few) ++ emitted "org" later (seq s_few)));
    vm_compute; reflexivity].
  apply (page_resumes 2 "org" 7 s_few entry0 s1 later [ev1] 1 "id: 3" [sseFrame ev1 +:+ "id: 3"] ""
           [join "" (item_text <$> written second)]).
  - apply run_wf, init_wf.
  - exact s_few_fresh.
  - vm_compute. split; discriminate || reflexivity.
  - reflexivity.
  - repeat constructor.
  - repeat (apply Forall_cons_2; [apply ev_plain; vm_compute; split; reflexivity|]). apply Forall_nil_2.
  - vm_compute; reflexivity.
  - vm_compute; reflexivity.
  - vm_compute; reflexivity.
  - vm_compute; reflexivity.
  - vm_compute; reflexivity.
  - vm_compute; reflexivity.
  - apply Nat.leb_le. vm_compute; reflexivity.
  - vm_compute; reflexivity.
  - exact later_undisturbed.
  - vm_compute; reflexivity.
Defined.

End EventReader.
