(* ===== verification/Cochange.v ===== *)
(** * The git co-change builder ([src/git-cochange-builder.ts])

    The builder counts, over the recent history of the repository, how many
    commits touch each pair of files, and stores the pairs for the impact scorer
    under the keys the other tables use. *)

From S2P Require Import Prelude Paths Database Announce.
Import Announce.PlanQuality.
Local Open Scope Z_scope.

Module Cochange.

(** ** [DEFAULT_DENYLIST] *)

Definition denied (f : string) : bool :=
  endsWith "package-lock.json" f || endsWith "pnpm-lock.yaml" f || endsWith "yarn.lock" f ||
  endsWith ".lock" f || includes "/dist/" f || includes "/build/" f || includes "/.next/" f ||
  includes "/__snapshots__/" f || endsWith ".min.js" f || endsWith ".map" f ||
  includes "/coverage/" f || includes "/node_modules/" f || endsWith ".snap" f.

Definition SCHEDULER_CIRCUIT_BREAK_THRESHOLD : nat := 5.

(** ** [parseLog] *)

Definition newline : ascii := Paths.char 10.
Definition nul : ascii := Paths.char 0.

Definition hex (a : ascii) : bool :=
  let n := Paths.code a in bool_decide ((48 ≤ n ∧ n ≤ 57) ∨ (97 ≤ n ∧ n ≤ 102)).

Fixpoint all_hex (s : string) : bool :=
  match s with EmptyString => true | String a s => hex a && all_hex s end.

(** [/^[0-9a-f]{40}$/] *)
Definition is_sha (s : string) : bool := bool_decide (String.length s = 40%nat) && all_hex s.

(** [shaRe]: what follows the hash and its line break. *)
Definition after_sha (s : string) : option string :=
  match String.get 40 s with
  | Some c => if is_sha (String.substring 0 40 s) && Ascii.eqb c newline then Some (Paths.slice 41 s) else None
  | None => None
  end.

(** [t.replace(/^\n+/, "")] *)
Fixpoint strip_newlines (s : string) : string :=
  match s with
  | String a r => if Ascii.eqb a newline then strip_newlines r else s
  | EmptyString => s
  end.

(** [<] on JavaScript strings. *)
Definition before (a b : string) : bool := bool_decide (¬ str_le b a).

Definition pair_key (x y : string) : string :=
  if before x y then x +:+ "|" +:+ y else y +:+ "|" +:+ x.

Definition bump (pairs : jsmap Z) (key : string) : jsmap Z :=
  map_set key (default 0 (map_get key pairs) + 1) pairs.

(** The two loops over the eligible files. *)
Fixpoint count_pairs (eligible : list string) (pairs : jsmap Z) : jsmap Z :=
  match eligible with
  | [] => pairs
  | x :: l => count_pairs l (foldl (λ m y, bump m (pair_key x y)) pairs l)
  end.

Record Log := mkLog { pairs : jsmap Z; totalCommits : Z; currentFiles : list string }.

Definition flush (s : Log) : Log :=
  match currentFiles s with
  | [] => s
  | files =>
      if bool_decide (200 < length files)%nat then mkLog (pairs s) (totalCommits s) []
      else mkLog (count_pairs (filter (λ f, denied f = false) files) (pairs s)) (totalCommits s + 1) []
  end.

Definition push (f : string) (s : Log) : Log := mkLog (pairs s) (totalCommits s) (currentFiles s ++ [f]).

Definition read_part (s : Log) (p : string) : Log :=
  let part := trim p in
  if String.eqb part "" then s else if is_sha part then flush s else push part s.

Definition read_token (s : Log) (t : string) : Log :=
  let stripped := strip_newlines t in
  match after_sha stripped with
  | Some rest =>
      let trailingPath := trim rest in
      if String.eqb trailingPath "" then flush s else push trailingPath (flush s)
  | None =>
      if is_sha stripped then flush s
      else foldl read_part s (split_on newline stripped)
  end.

Definition tokens (stdout : string) : list string := filter (λ t, t ≠ "") (split_on nul stdout).

Definition parseLog (stdout : string) : jsmap Z * Z :=
  let s := flush (foldl read_token (mkLog [] 0 []) (tokens stdout)) in
  (pairs s, totalCommits s).

(** ** [build] *)

(** [const [a, b] = key.split("|")] *)
Definition split_key (key : string) : string * string :=
  match split_on "|" key with
  | a :: b :: _ => (a, b)
  | [a] => (a, "")
  | [] => ("", "")
  end.

Definition add_count (f : string) (n : Z) (m : jsmap Z) : jsmap Z :=
  map_set f (default 0 (map_get f m) + n) m.

Definition fileCommitCount (ps : jsmap Z) : jsmap Z :=
  foldl (λ m p, let '(a, b) := split_key p.1 in add_count b p.2 (add_count a p.2 m)) [] ps.

(** [count / totalCommits > 0.4]: both are small integers, and the double that is
    nearest to their quotient is above the double 0.4 exactly when the quotient
    is above two fifths. *)
Definition over_cap (total count : Z) : bool := bool_decide (0 < total ∧ 2 * total < 5 * count).

Definition promiscuous (ps : jsmap Z) (total : Z) : list string :=
  fst <$> filter (λ p, over_cap total p.2 = true) (fileCommitCount ps).

(** The rows of [git_cochange] and [git_cochange_meta], and the outcomes counted. *)
Record Store := mkStore {
  rows : list Cochange;
  meta : list (string * string * string);
  outcomes : list string
}.

(** [INSERT OR REPLACE] *)
Definition setMeta (org k v : string) (s : Store) : Store :=
  mkStore (rows s) (filter (λ m, ¬ (m.1.1 = org ∧ m.1.2 = k)) (meta s) ++ [(org, k, v)]) (outcomes s).
Definition with_rows (l : list Cochange) (s : Store) : Store := mkStore l (meta s) (outcomes s).
Definition outcome (o : string) (s : Store) : Store := mkStore (rows s) (meta s) (outcomes s ++ [o]).

(** A row, unless one has its key; [None] is the constraint that fails. *)
Definition insert_row (r : Cochange) (l : list Cochange) : option (list Cochange) :=
  if bool_decide ((g_org r, g_file_a r, g_file_b r) ∈ (λ x, (g_org x, g_file_a x, g_file_b x)) <$> l)
  then None else Some (l ++ [r]).

(** One turn of [insertMany]; [None] is an exception. *)
Definition insert_pair (root org : string) (total : Z) (skip : list string) (p : string * Z)
    (l : list Cochange) : option (list Cochange) :=
  let '(a, b) := split_key p.1 in
  if bool_decide (a ∈ skip) || bool_decide (b ∈ skip) then Some l
  else
    na ← Paths.normalizePath [root] a;
    nb ← Paths.normalizePath [root] b;
    if before na nb then insert_row (mkCochange org na nb p.2 total) l
    else if before nb na then insert_row (mkCochange org nb na p.2 total) l
    else Some l.

Fixpoint insert_pairs (root org : string) (total : Z) (skip : list string) (ps : jsmap Z)
    (l : list Cochange) : option (list Cochange) :=
  match ps with
  | [] => Some l
  | p :: ps => l ← insert_pair root org total skip p l; insert_pairs root org total skip ps l
  end.

(** What [runGitLog] gives: an error message, or text; ["TIMEOUT"] stands for the
    timer. *)
Definition git_result : Type := string + string.

(** [true] when it returns, [false] when it throws. The DELETE is a statement of
    its own, before the transaction. [now] is the text of [new Date()]. *)
Definition build (root : string) (git shallow : bool) (log : git_result) (now org : string) (s : Store)
    : bool * Store :=
  if negb git then (true, outcome "failed" (setMeta org "available" "false" s))
  else if shallow then (true, outcome "shallow_skipped" (setMeta org "available" "false" s))
  else
    match log with
    | inl e => (true, outcome "failed" (setMeta org "last_error" e (setMeta org "available" "false" s)))
    | inr stdout =>
        if String.eqb stdout "TIMEOUT"
        then (true, outcome "timeout" (setMeta org "available" "stale_partial" s))
        else
          let '(ps, total) := parseLog stdout in
          let skip := promiscuous ps total in
          let s := with_rows (delete_where (λ r, g_org r = org) (rows s)) s in
          match insert_pairs root org total skip ps (rows s) with
          | None => (false, s)
          | Some l =>
              (true, outcome "success" (setMeta org "last_built_at" now (setMeta org "available" "true" (with_rows l s))))
          end
    end.

(** [ORDER BY count DESC LIMIT 50] *)
Definition count_desc (a b : Cochange) : Prop := g_count b ≤ g_count a.

#[global] Instance count_desc_dec : RelDecision count_desc.
Proof. intros a b. unfold count_desc. apply _. Defined.

Definition query (org file : string) (s : Store) : list Cochange :=
  take 50 (merge_sort count_desc
    (select (λ g, g_org g = org ∧ (g_file_a g = file ∨ g_file_b g = file)) (rows s))).

(** ** The scheduler *)

(** [timer] is the delay of the pending timeout. *)
Record Scheduler := mkScheduler { schedulerFailures : nat; schedulerCircuitOpen : bool; timer : option Z }.

Definition startScheduler : Scheduler := mkScheduler O false (Some 5000).
Definition stopScheduler (c : Scheduler) : Scheduler := mkScheduler (schedulerFailures c) (schedulerCircuitOpen c) None.

(** [io] says whether the reason can be persisted. *)
Definition recordSchedulerFailure (io : bool) (org err : string) (c : Scheduler) (s : Store) : Scheduler * Store :=
  let n := S (schedulerFailures c) in
  let s := outcome "scheduler_error" s in
  let s := if io then setMeta org "last_error" err (setMeta org "available" "false" s) else s in
  (mkScheduler n (schedulerCircuitOpen c || bool_decide (SCHEDULER_CIRCUIT_BREAK_THRESHOLD ≤ n)%nat) (timer c), s).

(** A tick, given what its build did: the store and whether it threw. *)
Definition tick (refreshMs retryMs : Z) (io : bool) (org err : string) (built : bool * Store) (c : Scheduler)
    : Scheduler * Store :=
  match built with
  | (true, s) => (mkScheduler O (schedulerCircuitOpen c) (Some refreshMs), s)
  | (false, s) =>
      let '(c, s) := recordSchedulerFailure io org err c s in
      if schedulerCircuitOpen c then (mkScheduler (schedulerFailures c) true None, s)
      else (mkScheduler (schedulerFailures c) false (Some retryMs), s)
  end.

End Cochange.

(** * The co-change table counts commits

    On the output of [git log] the parser counts, for every pair of files, the
    commits that touch both; a rebuild replaces the rows of its organisation and
    no other. Two names that differ in case only, on a Windows checkout, make
    every rebuild throw after it has emptied the table, and the cap on frequent
    files counts pairs, not commits. *)

From S2P Require Import Prelude Paths Database Announce.
Import Announce.PlanQuality.
Local Open Scope Z_scope.

Module CochangeSafety.
Import Cochange.

(** ** Commits as git prints them *)

Record Commit := mkCommit { sha : string; files : list string }.

(** A name git prints as it is, which the parser takes for a name. *)
Record file_name (f : string) : Prop := {
  fn_nonempty : f ≠ "";
  fn_trimmed : trim f = f;
  fn_line : has_char newline f = false;
  fn_not_sha : is_sha f = false
}.

Record wf_commit (c : Commit) : Prop := {
  wc_sha : is_sha (sha c) = true;
  wc_files : Forall file_name (files c);
  wc_nodup : NoDup (files c)
}.

(** The tokens of a commit: the hash is glued to the first name. *)
Definition commit_tokens (c : Commit) : list string :=
  match files c with
  | [] => [sha c]
  | f :: fs => (sha c +:+ String newline f) :: fs
  end.

(** ** Reading tokens *)

Lemma is_sha_length s : is_sha s = true → String.length s = 40%nat ∧ all_hex s = true.
Proof. unfold is_sha. intros [H1 H2]%andb_true_iff. by apply bool_decide_eq_true in H1. Qed.

Lemma hex_no_newline s : all_hex s = true → has_char newline s = false.
Proof.
  induction s as [|a s IH]; [done|]. cbn [all_hex has_char]. intros [Ha Hs]%andb_true_iff.
  apply orb_false_iff. split; [|auto]. destruct (Ascii.eqb a newline) eqn:E; [|done].
  by apply Ascii.eqb_eq in E as ->.
Qed.

Lemma strip_newlines_id s : startsWith (String newline "") s = false → strip_newlines s = s.
Proof.
  destruct s as [|a s]; [done|]. cbn [strip_newlines]. destruct (Ascii.eqb a newline) eqn:E; [|done].
  apply Ascii.eqb_eq in E as ->. by destruct s.
Qed.

Lemma no_newline_start s : has_char newline s = false → startsWith (String newline "") s = false.
Proof.
  destruct s as [|a s]; [done|]. cbn [has_char]. intros [Ha _]%orb_false_iff. unfold startsWith. cbn [String.prefix].
  destruct (ascii_dec newline a) as [<-|]; [by rewrite Ascii.eqb_refl in Ha|done].
Qed.

Lemma substring_app s t : String.substring 0 (String.length s) (s +:+ t) = s.
Proof.
  induction s as [|a s IH]; [by destruct t|].
  change (String a (String.substring 0 (String.length s) (s +:+ t)) = String a s). by rewrite IH.
Qed.

Lemma get_app s t : String.get (String.length s) (s +:+ t) = String.get 0 t.
Proof. induction s as [|a s IH]; [done|]. exact IH. Qed.

Lemma after_sha_commit h f : is_sha h = true → after_sha (h +:+ String newline f) = Some f.
Proof.
  intros Hh. destruct (is_sha_length h Hh) as [Hl _]. unfold after_sha. rewrite <- Hl at 1.
  rewrite get_app. cbn [String.get]. rewrite <- Hl at 1. rewrite substring_app, Hh.
  change (Ascii.eqb newline newline) with true. cbn [andb]. f_equal.
  change (String newline f) with ((String newline "") +:+ f). rewrite <- str_app_assoc.
  assert (41%nat = String.length (h +:+ String newline "")) as -> by (rewrite Paths.length_str_app, Hl; done).
  apply Paths.slice_app.
Qed.

Lemma get_in_range s n c : String.get n s = Some c → has_char c s = true.
Proof.
  revert n. induction s as [|a s IH]; intros n; [by destruct n|]. destruct n; cbn.
  - intros [= ->]. by rewrite Ascii.eqb_refl.
  - intros H. apply IH in H. by rewrite H, orb_true_r.
Qed.

Lemma after_sha_none s : has_char newline s = false → after_sha s = None.
Proof.
  intros Hs. unfold after_sha. destruct (String.get 40 s) as [c|] eqn:E; [|done].
  destruct (Ascii.eqb c newline) eqn:Ec; [|by rewrite andb_false_r].
  apply Ascii.eqb_eq in Ec as ->. apply get_in_range in E. congruence.
Qed.

Lemma split_one_line s : has_char newline s = false → split_on newline s = [s].
Proof.
  induction s as [|a s IH]; [done|]. cbn [has_char]. intros [Ha Hs]%orb_false_iff.
  cbn [split_on]. by rewrite Ha, IH.
Qed.

(** A name alone is added to the commit being read, *)
Lemma read_name s f : file_name f → read_token s f = push f s.
Proof.
  intros [Hne Ht Hl Hs]. unfold read_token.
  rewrite strip_newlines_id, after_sha_none, Hs, split_one_line by auto using no_newline_start.
  cbn [foldl]. unfold read_part. rewrite Ht, Hs. by destruct f.
Qed.

Lemma read_names s fs :
  Forall file_name fs → foldl read_token s fs = mkLog (pairs s) (totalCommits s) (currentFiles s ++ fs).
Proof.
  intros Hf. revert s. induction Hf as [|f fs Hf Hfs IH]; intros s; cbn [foldl].
  - rewrite app_nil_r. by destruct s.
  - rewrite read_name, IH by done. cbn [push pairs totalCommits currentFiles]. by rewrite <- app_assoc.
Qed.

(** and a commit ends the one before it. *)
Definition set_files (fs : list string) (s : Log) : Log := mkLog (pairs s) (totalCommits s) fs.

Lemma flush_files s : currentFiles (flush s) = [].
Proof. unfold flush. destruct (currentFiles s) eqn:E; [done|]. by case_bool_decide. Qed.

Lemma read_commit s c : wf_commit c → foldl read_token s (commit_tokens c) = set_files (files c) (flush s).
Proof.
  intros [Hs Hf _]. destruct (is_sha_length _ Hs) as [Hl Hh]. pose proof (hex_no_newline _ Hh) as Hn.
  unfold commit_tokens. destruct (files c) as [|f fs]; cbn [foldl].
  - unfold read_token. rewrite strip_newlines_id, after_sha_none, Hs by auto using no_newline_start.
    unfold set_files. rewrite <- (flush_files s). by destruct (flush s).
  - apply Forall_cons in Hf as [Hf Hfs].
    assert (read_token s (sha c +:+ String newline f) = push f (flush s)) as ->.
    { unfold read_token. rewrite strip_newlines_id.
      - rewrite after_sha_commit by done. rewrite (fn_trimmed _ Hf). pose proof (fn_nonempty _ Hf). by destruct f.
      - destruct (sha c) as [|a r]; [discriminate Hl|]. apply no_newline_start in Hn.
        change ((String a r) +:+ String newline f) with (String a (r +:+ String newline f)).
        revert Hn. unfold startsWith. cbn [String.prefix]. destruct (ascii_dec newline a); [by destruct r|done]. }
    rewrite read_names by done. unfold set_files. cbn [push pairs totalCommits currentFiles].
    by rewrite flush_files.
Qed.

(** ** Counting *)

Definition eligible (c : Commit) : list string := filter (λ f, denied f = false) (files c).

(** The commits that count: neither empty nor a sweep over many files. *)
Definition counted (c : Commit) : Prop := files c ≠ [] ∧ (length (files c) ≤ 200)%nat.

#[global] Instance counted_dec c : Decision (counted c).
Proof. unfold counted. apply _. Defined.

Definition add_commit (s : Log) (c : Commit) : Log :=
  if decide (counted c) then mkLog (count_pairs (eligible c) (pairs s)) (totalCommits s + 1) []
  else mkLog (pairs s) (totalCommits s) [].

Lemma flush_commit c s : currentFiles s = [] → flush (set_files (files c) s) = add_commit s c.
Proof.
  intros Hs. unfold add_commit, flush, set_files, eligible. cbn [currentFiles pairs totalCommits].
  destruct (decide (counted c)) as [[Hne Hl]|Hc].
  - destruct (files c) as [|f fs]; [done|]. by rewrite bool_decide_false by lia.
  - unfold counted in Hc. destruct (files c) as [|f fs]; [done|]. rewrite bool_decide_true; [done|].
    destruct (decide (200 < length (f :: fs))%nat); [done|]. destruct Hc. split; [done|lia].
Qed.

Lemma parse_commits cs s :
  Forall wf_commit cs →
  flush (foldl read_token s (mjoin (commit_tokens <$> cs))) = foldl add_commit (flush s) cs.
Proof.
  intros Hc. revert s. induction Hc as [|c cs Hc Hcs IH]; intros s; [done|].
  cbn [fmap list_fmap mjoin list_join foldl]. rewrite foldl_app, read_commit by done.
  etrans; [apply IH|]. by rewrite flush_commit by apply flush_files.
Qed.

(** The keys the two loops bump. *)
Fixpoint keys_of (l : list string) : list string :=
  match l with
  | [] => []
  | x :: l => (pair_key x <$> l) ++ keys_of l
  end.

Lemma count_pairs_keys l m : count_pairs l m = foldl bump m (keys_of l).
Proof.
  revert m. induction l as [|x l IH]; intros m; [done|]. cbn [count_pairs keys_of].
  rewrite foldl_app, IH. f_equal. clear IH. revert m.
  induction l as [|y l IH]; intros m; [done|]. cbn [foldl fmap list_fmap]. apply IH.
Qed.

Definition count_of (k : string) (m : jsmap Z) : Z := default 0 (map_get k m).

(** How often a key occurs. *)
Definition times (k : string) (l : list string) : nat := length (filter (λ x, x = k) l).

Lemma times_app k l l' : times k (l ++ l') = (times k l + times k l')%nat.
Proof. unfold times. by rewrite filter_app, length_app. Qed.

Lemma times_cons k x l : times k (x :: l) = ((if decide (x = k) then 1 else 0) + times k l)%nat.
Proof. unfold times. rewrite filter_cons. by case_decide. Qed.

Lemma foldl_bump k l m : count_of k (foldl bump m l) = count_of k m + Z.of_nat (times k l).
Proof.
  revert m. induction l as [|x l IH]; intros m; cbn [foldl]; [unfold times; simpl; lia|].
  rewrite IH, times_cons. unfold bump, count_of at 1. rewrite map_get_set.
  destruct (decide (k = x)) as [->|Hk].
  - rewrite decide_True by done. fold (count_of x m). cbn [default from_option id]. lia.
  - rewrite decide_False by congruence. fold (count_of k m). lia.
Qed.

(** The keys of names without the separator are those of unordered pairs. *)
Definition no_bar (f : string) : Prop := has_char "|" f = false.

Lemma pair_key_cases x y : pair_key x y = x +:+ "|" +:+ y ∨ pair_key x y = y +:+ "|" +:+ x.
Proof. unfold pair_key. destruct (before x y); auto. Qed.

Lemma pair_key_comm x y : pair_key x y = pair_key y x.
Proof.
  unfold pair_key, before. destruct (decide (x = y)) as [->|Hne]; [done|].
  destruct (String.leb_total x y) as [H|H].
  - rewrite (bool_decide_true (¬ str_le y x)); [|intros H'; apply Hne; by apply String.leb_antisym].
    by rewrite bool_decide_false by (intros H'; by apply H').
  - rewrite (bool_decide_true (¬ str_le x y)); [|intros H'; apply Hne; by apply String.leb_antisym].
    by rewrite bool_decide_false by (intros H'; by apply H').
Qed.

Lemma bar_inj x y a b :
  no_bar x → no_bar a → x +:+ "|" +:+ y = a +:+ "|" +:+ b → x = a ∧ y = b.
Proof. intros Hx Ha E. exact (first_sep "|" x a y b Hx Ha E). Qed.

Lemma pair_key_names x y a b :
  no_bar x → no_bar y → no_bar a → no_bar b →
  pair_key x y = pair_key a b ↔ (x = a ∧ y = b) ∨ (x = b ∧ y = a).
Proof.
  intros Hx Hy Ha Hb. split.
  - destruct (pair_key_cases x y) as [-> | ->], (pair_key_cases a b) as [-> | ->]; intros E;
      apply bar_inj in E as [-> ->]; auto.
  - intros [[-> ->]|[-> ->]]; [done|apply pair_key_comm].
Qed.

Lemma times_NoDup k l : NoDup l → times k l = if decide (k ∈ l) then 1%nat else O.
Proof.
  induction 1 as [|x l Hx Hl IH]; [done|]. rewrite times_cons, IH.
  destruct (decide (x = k)) as [->|Hk].
  - rewrite (decide_True (P := k ∈ k :: l)) by left. by rewrite decide_False.
  - destruct (decide (k ∈ l)); [by rewrite decide_True by by right|].
    rewrite decide_False; [done|]. intros [?|?]%elem_of_cons; congruence.
Qed.

Lemma times_keys x a b l :
  Forall no_bar (x :: l) → no_bar a → no_bar b → a ≠ b →
  times (pair_key a b) (pair_key x <$> l) =
    if decide (x = a) then times b l else if decide (x = b) then times a l else O.
Proof.
  intros Hl Ha Hb Hab. apply Forall_cons in Hl as [Hx Hl].
  induction Hl as [|y l Hy Hl IH]; [by repeat case_decide|].
  rewrite fmap_cons, !times_cons, IH.
  destruct (decide (pair_key x y = pair_key a b)) as [E|E]; rewrite pair_key_names in E by done.
  - destruct E as [[-> ->]|[-> ->]].
    + by rewrite !decide_True.
    + rewrite !(decide_False (P := b = a)) by done. by rewrite !decide_True.
  - destruct (decide (x = a)) as [->|]; [by rewrite decide_False by naive_solver|].
    destruct (decide (x = b)) as [->|]; [by rewrite decide_False by naive_solver|done].
Qed.

(** A commit adds one to the pairs of its eligible files. *)
Lemma times_pair a b l :
  NoDup l → Forall no_bar l → no_bar a → no_bar b → a ≠ b →
  times (pair_key a b) (keys_of l) = if decide (a ∈ l ∧ b ∈ l) then 1%nat else O.
Proof.
  intros Hnd. induction Hnd as [|x l Hx Hl IH]; intros Hf Ha Hb Hab.
  { rewrite decide_False; [done|]. by intros [?%not_elem_of_nil _]. }
  cbn [keys_of]. rewrite times_app, times_keys by done. apply Forall_cons in Hf as [Hfx Hf].
  rewrite IH, !times_NoDup by done.
  destruct (decide (x = a)) as [->|Hxa]; [|destruct (decide (x = b)) as [->|Hxb]].
  - rewrite (decide_False (P := a ∈ l ∧ b ∈ l)) by naive_solver.
    destruct (decide (b ∈ l)).
    + rewrite decide_True; [done|]. split; [left|by right].
    + rewrite decide_False; [done|]. intros [_ [?|?]%elem_of_cons]; congruence.
  - rewrite (decide_False (P := a ∈ l ∧ b ∈ l)) by naive_solver.
    destruct (decide (a ∈ l)).
    + rewrite decide_True; [done|]. split; [by right|left].
    + rewrite decide_False; [done|]. intros [[?|?]%elem_of_cons _]; congruence.
  - destruct (decide (a ∈ l ∧ b ∈ l)) as [[H1 H2]|H].
    + rewrite decide_True; [done|]. split; by right.
    + rewrite decide_False; [done|]. intros [[?|?]%elem_of_cons [?|?]%elem_of_cons]; naive_solver.
Qed.

(** ** The reference *)

(** The commits that count and touch both files. *)
Definition together (a b : string) (c : Commit) : Prop := counted c ∧ a ∈ eligible c ∧ b ∈ eligible c.

#[global] Instance together_dec a b c : Decision (together a b c).
Proof. unfold together. apply _. Defined.

Definition plain_names (c : Commit) : Prop := Forall no_bar (files c).

Lemma add_commits cs s :
  totalCommits (foldl add_commit s cs) = totalCommits s + Z.of_nat (length (filter counted cs)).
Proof.
  revert s. induction cs as [|c cs IH]; intros s; cbn [foldl]; [rewrite filter_nil; simpl; lia|].
  rewrite IH, filter_cons. unfold add_commit. destruct (decide (counted c)); simpl; lia.
Qed.

Lemma add_commits_pairs a b cs s :
  Forall wf_commit cs → Forall plain_names cs → no_bar a → no_bar b → a ≠ b →
  count_of (pair_key a b) (pairs (foldl add_commit s cs)) =
    count_of (pair_key a b) (pairs s) + Z.of_nat (length (filter (together a b) cs)).
Proof.
  intros Hw Hp Ha Hb Hab. revert s. induction cs as [|c cs IH]; intros s; cbn [foldl]; [rewrite filter_nil; simpl; lia|].
  apply Forall_cons in Hw as [Hc Hw]. apply Forall_cons in Hp as [Hpc Hp].
  rewrite IH, filter_cons by done. unfold add_commit.
  assert (NoDup (eligible c)) as Hnd by (apply NoDup_filter, Hc).
  assert (Forall no_bar (eligible c)) as Hnb.
  { unfold plain_names in Hpc. rewrite Forall_forall in Hpc |- *. intros f [_ Hf]%list_elem_of_filter. auto. }
  destruct (decide (counted c)) as [Hcc|Hcc]; cbn [pairs].
  - rewrite count_pairs_keys, foldl_bump, times_pair by done.
    destruct (decide (a ∈ eligible c ∧ b ∈ eligible c)) as [H|H].
    + rewrite decide_True by (by split). rewrite length_cons. lia.
    + rewrite decide_False by (unfold together; tauto). lia.
  - by rewrite decide_False by (unfold together; tauto).
Qed.

(** [C32] On the output of [git log], the parser counts the commits with at most
    200 files, and for every two files the commits among them that touch both,
    denied files left out; a commit that lists no file or too many counts for
    nothing. *)
Theorem cochange_counts cs stdout ps total :
  Forall wf_commit cs → Forall plain_names cs → tokens stdout = mjoin (commit_tokens <$> cs) →
  parseLog stdout = (ps, total) →
  total = Z.of_nat (length (filter counted cs)) ∧
  ∀ a b, no_bar a → no_bar b → a ≠ b →
    count_of (pair_key a b) ps = Z.of_nat (length (filter (together a b) cs)).
Proof.
  intros Hw Hp Ht. unfold parseLog. rewrite Ht, parse_commits by done. intros [= <- <-]. split.
  - rewrite add_commits. done.
  - intros a b Ha Hb Hab. rewrite add_commits_pairs by done. done.
Qed.

(** ** Rebuilding the table *)

Definition row_key (r : Cochange) : string * string * string := (g_org r, g_file_a r, g_file_b r).

Lemma insert_row_spec r l l' : insert_row r l = Some l' → l' = l ++ [r] ∧ row_key r ∉ row_key <$> l.
Proof. unfold insert_row. case_bool_decide; [done|]. by intros [= <-]. Qed.

(** A row comes from a pair that is not skipped, under its normalised names. *)
Definition from_pair (root org : string) (total : Z) (skip : list string) (ps : jsmap Z) (r : Cochange) : Prop :=
  g_org r = org ∧ g_total r = total ∧ before (g_file_a r) (g_file_b r) = true ∧
  ∃ k a b, (k, g_count r) ∈ ps ∧ split_key k = (a, b) ∧ a ∉ skip ∧ b ∉ skip ∧
    (Paths.normalizePath [root] a = Some (g_file_a r) ∧ Paths.normalizePath [root] b = Some (g_file_b r) ∨
     Paths.normalizePath [root] a = Some (g_file_b r) ∧ Paths.normalizePath [root] b = Some (g_file_a r)).

Lemma insert_pair_spec root org total skip p l l' :
  insert_pair root org total skip p l = Some l' →
  l' = l ∨ ∃ r, l' = l ++ [r] ∧ row_key r ∉ row_key <$> l ∧ from_pair root org total skip [p] r.
Proof.
  destruct p as [k n]. unfold insert_pair. cbn [fst snd]. destruct (split_key k) as [a b] eqn:Ek.
  do 2 (case_bool_decide; [intros [= <-]; by left|]). cbn [orb].
  destruct (Paths.normalizePath [root] a) as [na|] eqn:Ea; [|done].
  destruct (Paths.normalizePath [root] b) as [nb|] eqn:Eb; [|done]. cbn [mbind option_bind].
  destruct (before na nb) eqn:E1; [|destruct (before nb na) eqn:E2; [|intros [= <-]; by left]];
    intros [-> Hk]%insert_row_spec; right; eexists; (split; [done|split; [done|]]);
    (split_and!; [done..|exists k, a, b; split_and!; try done; [left|auto]]).
Qed.

Lemma from_pair_mono root org total skip ps ps' r :
  (∀ p, p ∈ ps → p ∈ ps') → from_pair root org total skip ps r → from_pair root org total skip ps' r.
Proof. intros Hs (? & ? & ? & k & a & b & Hin & ?). split_and!; try done. exists k, a, b. naive_solver. Qed.

Lemma insert_pairs_spec root org total skip ps l l' :
  insert_pairs root org total skip ps l = Some l' →
  ∃ new, l' = l ++ new ∧ Forall (from_pair root org total skip ps) new ∧
    (NoDup (row_key <$> l) → NoDup (row_key <$> l')).
Proof.
  revert l. induction ps as [|p ps IH]; intros l; cbn [insert_pairs].
  { intros [= <-]. exists []. by rewrite app_nil_r. }
  destruct (insert_pair root org total skip p l) as [l1|] eqn:E; [|done].
  intros (new & -> & Hnew & Hnd)%IH.
  assert (Forall (from_pair root org total skip (p :: ps)) new) as Hnew'.
  { eapply Forall_impl; [exact Hnew|]. intros r. apply from_pair_mono. intros q Hq. by right. }
  apply insert_pair_spec in E as [->|(r & -> & Hk & Hr)]; [by exists new|].
  exists (r :: new). split_and!; [by rewrite <- app_assoc| |].
  - constructor; [|done]. eapply from_pair_mono; [|exact Hr]. intros q ->%list_elem_of_singleton. left.
  - intros Hl. apply Hnd. rewrite fmap_app. cbn [fmap list_fmap]. apply NoDup_app. split_and!; [done| |by repeat constructor; apply not_elem_of_nil].
    intros x Hx ->%list_elem_of_singleton. done.
Qed.

(** The rows and the meta data of the other organisations. *)
Definition others (org : string) (s : Store) : list Cochange * list (string * string * string) :=
  (filter (λ r, g_org r ≠ org) (rows s), filter (λ m, m.1.1 ≠ org) (meta s)).

Lemma others_meta org k v s : others org (setMeta org k v s) = others org s.
Proof.
  unfold others, setMeta. cbn [rows meta]. f_equal.
  rewrite filter_app, filter_cons, decide_False by naive_solver. rewrite filter_nil, app_nil_r.
  apply list_filter_filter_l. naive_solver.
Qed.

Lemma others_outcome org o s : others org (outcome o s) = others org s.
Proof. done. Qed.

Lemma others_rows org l s :
  filter (λ r, g_org r ≠ org) l = filter (λ r, g_org r ≠ org) (rows s) → others org (with_rows l s) = others org s.
Proof. intros E. unfold others. cbn [with_rows rows meta]. by rewrite E. Qed.

Lemma filter_all_out {A} (P : A → Prop) `{!∀ x, Decision (P x)} l : Forall (λ x, ¬ P x) l → filter P l = [].
Proof. induction 1 as [|x l Hx Hl IH]; [done|]. by rewrite filter_cons, decide_False. Qed.

(** A rebuild leaves the rows and the meta data of the other organisations
    as they are, whatever happens. When it stores pairs, the rows of its
    organisation are new ones only, each from a pair of the log that is not
    capped, with its count, under the normalised names in order, no two with the
    same names; when it throws, the organisation has no row left. *)
Theorem build_replaces root git shallow log now org s ok s' :
  build root git shallow log now org s = (ok, s') →
  others org s' = others org s ∧
  (ok = false → filter (λ r, g_org r = org) (rows s') = []) ∧
  (rows s' = rows s ∨
   ∃ stdout, log = inr stdout ∧
     (NoDup (row_key <$> rows s) → NoDup (row_key <$> rows s')) ∧
     Forall (from_pair root org (parseLog stdout).2
               (promiscuous (parseLog stdout).1 (parseLog stdout).2) (parseLog stdout).1)
       (filter (λ r, g_org r = org) (rows s'))).
Proof.
  unfold build. destruct git; [|intros [= <- <-]; rewrite others_outcome, others_meta; split_and!; [done|done|by left]].
  destruct shallow; cbn [negb]; [intros [= <- <-]; rewrite others_outcome, others_meta; split_and!; [done|done|by left]|].
  destruct log as [e|stdout]; [intros [= <- <-]; rewrite others_outcome, !others_meta; split_and!; [done|done|by left]|].
  destruct (String.eqb stdout "TIMEOUT"); [intros [= <- <-]; rewrite others_outcome, !others_meta; split_and!; [done|done|by left]|].
  destruct (parseLog stdout) as [ps total] eqn:Ep. cbn [rows with_rows].
  set (kept := delete_where (λ r, g_org r = org) (rows s)).
  assert (filter (λ r, g_org r ≠ org) kept = filter (λ r, g_org r ≠ org) (rows s)) as Hk
    by (by apply list_filter_filter_l).
  assert (filter (λ r, g_org r = org) kept = []) as Hgone.
  { apply filter_all_out, Forall_forall. by intros x [Hx _]%list_elem_of_filter. }
  destruct (insert_pairs _ _ _ _ _ _) as [l|] eqn:Ei; intros [= <- <-].
  - apply insert_pairs_spec in Ei as (new & -> & Hnew & Hnd).
    assert (Forall (λ r, g_org r = org) new) as Horg by (eapply Forall_impl; [exact Hnew|]; intros r Hr; apply Hr).
    rewrite others_outcome, !others_meta. split_and!; [|done|].
    + unfold others. cbn [rows meta with_rows]. f_equal. rewrite filter_app, Hk.
      rewrite (filter_all_out _ new), app_nil_r; [done|]. eapply Forall_impl; [exact Horg|]. naive_solver.
    + right. exists stdout. cbn [rows outcome setMeta with_rows]. split_and!; [done| |].
      * intros H. apply Hnd. unfold kept. eapply sublist_NoDup; [exact H|]. apply fmap_sublist, sublist_filter.
      * rewrite filter_app, Hgone. cbn [fst snd app]. apply Forall_forall. intros r [_ Hr]%list_elem_of_filter.
        rewrite Ep. rewrite Forall_forall in Hnew. exact (Hnew r Hr).
  - split_and!; [by apply others_rows|done|].
    right. exists stdout. cbn [rows with_rows]. split_and!; [done| |by rewrite Hgone].
    intros H. unfold kept. eapply sublist_NoDup; [exact H|]. apply fmap_sublist, sublist_filter.
Qed.

(** ** Names that collide *)

(** A pair the loop stores under [(na, nb)]. *)
Definition stored_as (root : string) (skip : list string) (na nb : string) (p : string * Z) : Prop :=
  ∃ a b, split_key p.1 = (a, b) ∧ a ∉ skip ∧ b ∉ skip ∧ before na nb = true ∧
    Paths.normalizePath [root] a = Some na ∧ Paths.normalizePath [root] b = Some nb.

Lemma insert_stored root org total skip na nb p l :
  stored_as root skip na nb p →
  insert_pair root org total skip p l = insert_row (mkCochange org na nb p.2 total) l.
Proof.
  intros (a & b & Ek & Ha & Hb & Hlt & Ea & Eb). unfold insert_pair. rewrite Ek.
  rewrite !bool_decide_false by done. cbn [orb]. rewrite Ea, Eb. cbn [mbind option_bind]. by rewrite Hlt.
Qed.

Lemma insert_taken root org total skip na nb p l :
  stored_as root skip na nb p → (org, na, nb) ∈ row_key <$> l → insert_pair root org total skip p l = None.
Proof.
  intros Hp Hin. rewrite (insert_stored _ _ _ _ na nb) by done. unfold insert_row. by rewrite bool_decide_true.
Qed.

Lemma insert_pairs_taken root org total skip na nb p ps ps' l :
  stored_as root skip na nb p → (org, na, nb) ∈ row_key <$> l →
  insert_pairs root org total skip (ps ++ p :: ps') l = None.
Proof.
  intros Hp. revert l. induction ps as [|q ps IH]; intros l Hin; cbn [insert_pairs app].
  - by rewrite (insert_taken _ _ _ _ na nb).
  - destruct (insert_pair root org total skip q l) as [l1|] eqn:E; [|done]. cbn [mbind option_bind]. apply IH.
    apply insert_pair_spec in E as [->|(r & -> & _)]; [done|]. rewrite fmap_app. apply elem_of_app. by left.
Qed.

Lemma insert_pairs_twice root org total skip na nb p p' ps1 ps2 ps3 l :
  stored_as root skip na nb p → stored_as root skip na nb p' →
  insert_pairs root org total skip (ps1 ++ p :: ps2 ++ p' :: ps3) l = None.
Proof.
  intros Hp Hp'. revert l. induction ps1 as [|q ps IH]; intros l; cbn [insert_pairs app].
  - rewrite (insert_stored _ _ _ _ na nb) by done.
    destruct (insert_row _ l) as [l1|] eqn:E; [|done]. cbn [mbind option_bind].
    apply insert_row_spec in E as [-> _]. eapply insert_pairs_taken; [exact Hp'|].
    rewrite fmap_app. apply elem_of_app. right. left.
  - destruct (insert_pair root org total skip q l) as [l1|]; [|done]. apply IH.
Qed.

(** When two pairs of the log have the same normalised names, such as a file
    and its former name in another case on a Windows checkout, every rebuild
    throws after its DELETE: the organisation is left without co-change data, and
    five ticks stop the scheduler. *)
Theorem colliding_names_empty root stdout now org s na nb p p' ps1 ps2 ps3 c refreshMs retryMs io err :
  parseLog stdout = (ps1 ++ p :: ps2 ++ p' :: ps3, (parseLog stdout).2) → stdout ≠ "TIMEOUT" →
  stored_as root (promiscuous (parseLog stdout).1 (parseLog stdout).2) na nb p →
  stored_as root (promiscuous (parseLog stdout).1 (parseLog stdout).2) na nb p' →
  schedulerCircuitOpen c = false → schedulerFailures c = 4%nat →
  let built := build root true false (inr stdout) now org s in
  built.1 = false ∧ filter (λ r, g_org r = org) (rows built.2) = [] ∧
  schedulerCircuitOpen (tick refreshMs retryMs io org err built c).1 = true ∧
  timer (tick refreshMs retryMs io org err built c).1 = None.
Proof.
  intros Ep Hs Hp Hp' Hc Hf built.
  assert (built = (false, with_rows (delete_where (λ r, g_org r = org) (rows s)) s)) as ->.
  { unfold built, build. cbn [negb]. apply String.eqb_neq in Hs. rewrite Hs.
    rewrite Ep in Hp, Hp'. rewrite Ep. cbn [fst snd] in Hp, Hp'. by rewrite (insert_pairs_twice _ _ _ _ na nb). }
  split_and!; [done| | |].
  - apply filter_all_out, Forall_forall. by intros x [Hx _]%list_elem_of_filter.
  - cbn [tick recordSchedulerFailure]. by rewrite Hc, Hf.
  - cbn [tick recordSchedulerFailure]. by rewrite Hc, Hf.
Qed.

(** ** Examples *)

Definition sha_of (a : ascii) : string := foldr (λ c s, String c s) "" (repeat a 40).
Definition nulc : string := String nul "".

(** What git prints: names are separated, and commits set apart, by NUL. *)
Definition print_commit (c : Commit) : string :=
  sha c +:+ match files c with [] => "" | fs => String newline (join nulc fs) end +:+ nulc +:+ nulc.
Definition print_log (cs : list Commit) : string := join "" (print_commit <$> cs).

Definition history : list Commit :=
  [mkCommit (sha_of "a") ["src/a.ts"; "src/b.ts"; "yarn.lock"]; mkCommit (sha_of "b") [];
   mkCommit (sha_of "c") ["src/b.ts"; "src/a.ts"]; mkCommit (sha_of "d") ["src/c.ts"]].

Lemma file_name_dec f :
  negb (String.eqb f "") && String.eqb (trim f) f && negb (has_char newline f) && negb (is_sha f) = true → file_name f.
Proof.
  rewrite !andb_true_iff, !negb_true_iff. intros [[[H1 H2] H3] H4].
  constructor; [by apply String.eqb_neq|by apply String.eqb_eq|done..].
Qed.

Lemma cochange_counts_witness :
  tokens (print_log history) = mjoin (commit_tokens <$> history) ∧
  (parseLog (print_log history)).2 = 3 ∧
  count_of (pair_key "src/a.ts" "src/b.ts") (parseLog (print_log history)).1 = 2.
Proof.
  assert (tokens (print_log history) = mjoin (commit_tokens <$> history)) as Ht by (vm_compute; reflexivity).
  destruct (cochange_counts history (print_log history) (parseLog (print_log history)).1
              (parseLog (print_log history)).2) as [H1 H2].
  - repeat (apply Forall_cons_2; [split; [reflexivity| |]|]); try apply Forall_nil_2;
      try (repeat (apply Forall_cons_2; [apply file_name_dec; reflexivity|]); apply Forall_nil_2);
      apply (bool_decide_unpack _); vm_compute; exact I.
  - repeat (apply Forall_cons_2; [repeat (apply Forall_cons_2; [reflexivity|]); apply Forall_nil_2|]). apply Forall_nil_2.
  - exact Ht.
  - symmetry. apply surjective_pairing.
  - split; [exact Ht|]. rewrite H1. split; [vm_compute; reflexivity|].
    rewrite H2; [vm_compute; reflexivity|reflexivity|reflexivity|discriminate].
Defined.

(** A case-only rename, in a window of five commits. *)
Definition renamed : list Commit :=
  [mkCommit (sha_of "a") ["README.md"; "src/a.ts"]; mkCommit (sha_of "b") ["Readme.md"; "src/a.ts"];
   mkCommit (sha_of "c") ["x"]; mkCommit (sha_of "d") ["y"]; mkCommit (sha_of "e") ["z"]].

Definition windows_root : string := "C:/repo".
Definition store0 : Store := mkStore [mkCochange "org" "readme.md" "src/a.ts" 1 5; mkCochange "other" "a" "b" 1 5] [] [].

Lemma colliding_names_empty_witness :
  let built := build windows_root true false (inr (print_log renamed)) "now" "org" store0 in
  built.1 = false ∧ filter (λ r, g_org r = "org") (rows built.2) = [].
Proof.
  destruct (colliding_names_empty windows_root (print_log renamed) "now" "org" store0 "readme.md" "src/a.ts"
              ("README.md|src/a.ts", 1) ("Readme.md|src/a.ts", 1) [] [] [] (mkScheduler 4 false None) 0 0 true "constraint")
    as (H1 & H2 & _).
  - vm_compute; reflexivity.
  - discriminate.
  - exists "README.md", "src/a.ts". vm_compute. split_and!; try reflexivity; by intros H%not_elem_of_nil.
  - exists "Readme.md", "src/a.ts". vm_compute. split_and!; try reflexivity; by intros H%not_elem_of_nil.
  - reflexivity.
  - reflexivity.
  - split; [exact H1|exact H2].
Defined.

Lemma build_replaces_witness :
  others "org" (build "/repo" true false (inr (print_log history)) "now" "org" store0).2 = others "org" store0.
Proof.
  destruct (build "/repo" true false (inr (print_log history)) "now" "org" store0) as [ok s'] eqn:E.
  exact (proj1 (build_replaces "/repo" true false (inr (print_log history)) "now" "org" store0 ok s' E)).
Defined.

(** Six files that meet in one commit of ten are all over the cap. *)
Lemma cap_counts_pairs :
  let once := mkCommit (sha_of "a") ["a"; "b"; "c"; "d"; "e"; "f"] in
  let parsed := parseLog (print_log (once :: repeat (mkCommit (sha_of "b") ["x"]) 9)) in
  parsed.2 = 10 ∧ "a" ∈ promiscuous parsed.1 parsed.2 ∧
  insert_pairs "/repo" "org" parsed.2 (promiscuous parsed.1 parsed.2) parsed.1 [] = Some [].
Proof. split_and!; [by vm_compute|apply (bool_decide_unpack _); by vm_compute|by vm_compute]. Qed.

End CochangeSafety.
