(* ===== verification/HttpUtils.v ===== *)
(** * Helpers of the HTTP server ([src/http/utils.ts], [src/http/origin.ts])

    Reading a body within its limit, comparing secrets, hiding a token in a URL
    that is logged, the label of a request and the check of [Origin]. *)

From S2P Require Import Prelude Paths EventStream.
Local Open Scope Z_scope.

Module HttpUtils.

(** ** [parseBody] *)

(** [parseInt(env || "1048576", 10)]; [None] is NaN, which no size exceeds. *)
Definition MAX_BODY_BYTES (raw : option string) : option Z :=
  EventStream.parseInt (default "1048576" (truthy raw)).

Definition exceeds (n : nat) (max : option Z) : bool :=
  match max with Some m => bool_decide (m < Z.of_nat n) | None => false end.

(** How the promise settles: [None] before it does; only the first time counts. *)
Inductive BodyResult := Body (text : string) | TooLarge | Failed.

Record Reader := mkReader { bytes : nat; chunks : list string; settled : option BodyResult }.

Definition settle (r : BodyResult) (s : Reader) : Reader :=
  mkReader (bytes s) (chunks s) (match settled s with Some x => Some x | None => Some r end).

Inductive body_event := Data (chunk : string) | End_ | Error_.

Definition on_body (max : option Z) (s : Reader) (e : body_event) : Reader :=
  match e with
  | Data c =>
      let n := (bytes s + String.length c)%nat in
      if exceeds n max then settle TooLarge (mkReader n (chunks s) (settled s))
      else mkReader n (chunks s ++ [c]) (settled s)
  | End_ => settle (Body (join "" (chunks s))) s
  | Error_ => settle Failed s
  end.

Definition parseBody (max : option Z) (es : list body_event) : Reader :=
  foldl (on_body max) (mkReader O [] None) es.

(** ** [safeEqual] *)

(** [timingSafeEqual] throws, [None], when the two buffers differ in length. *)
Definition safeEqual (a b : string) : option bool :=
  if bool_decide (utf16_length a ≠ utf16_length b) then Some false
  else if bool_decide (String.length a = String.length b) then Some (String.eqb a b) else None.

(** ** [redactTokenParam]: [/([?&]token=)[^&#]*/gi] *)

Definition token_word : list ascii := ["t"; "o"; "k"; "e"; "n"; "="]%char.

Fixpoint matches_word (w : list ascii) (s : string) : bool :=
  match w, s with
  | [], _ => true
  | c :: w, String a s => Ascii.eqb (Paths.lower_ascii a) c && matches_word w s
  | _, EmptyString => false
  end.

Definition starts_param (s : string) : bool :=
  match s with
  | String a r => (Ascii.eqb a "?" || Ascii.eqb a "&") && matches_word token_word r
  | EmptyString => false
  end.

Definition ends_value (a : ascii) : bool := Ascii.eqb a "&" || Ascii.eqb a "#".

(** Outside of a match, in its group with so many characters to copy, or in the
    value that is replaced. *)
Inductive mode := Plain | Copying (n : nat) | Value.

Fixpoint redact (md : mode) (s : string) : string :=
  match s with
  | EmptyString => EmptyString
  | String a r =>
      let plain := String a (redact (if starts_param s then Copying 5 else Plain) r) in
      match md with
      | Copying (S n) => String a (redact (Copying n) r)
      | Copying O => String a ("[REDACTED]" +:+ redact Value r)
      | Value => if ends_value a then plain else redact Value r
      | Plain => plain
      end
  end.

Definition redactTokenParam (url : string) : string := redact Plain url.

(** ** [metricRoute] *)

Definition digit (a : ascii) : bool := let n := Paths.code a in bool_decide (48 ≤ n ∧ n ≤ 57).
Definition hex (a : ascii) : bool :=
  let n := Paths.code a in bool_decide ((48 ≤ n ∧ n ≤ 57) ∨ (65 ≤ n ∧ n ≤ 70) ∨ (97 ≤ n ∧ n ≤ 102)).

Fixpoint all (P : ascii → bool) (s : string) : bool :=
  match s with EmptyString => true | String a s => P a && all P s end.

Definition LONG_HEX_SEGMENT_RE (s : string) : bool := bool_decide (16 ≤ String.length s)%nat && all hex s.
Definition LONG_NUMERIC_SEGMENT_RE (s : string) : bool := bool_decide (4 ≤ String.length s)%nat && all digit s.
Definition UUID_SEGMENT_RE (s : string) : bool :=
  bool_decide ((String.length <$> split_on "-" s) = [8; 4; 4; 4; 12]%nat) && forallb (all hex) (split_on "-" s).

Definition label_segment (s : string) : string :=
  if String.eqb s "" then s
  else if UUID_SEGMENT_RE s || LONG_HEX_SEGMENT_RE s || LONG_NUMERIC_SEGMENT_RE s then ":id" else s.

Definition metricRoute (path : string) : string := join "/" (label_segment <$> split_on "/" path).

(** ** [isAllowedOrigin] *)

(** What the constructor [URL] gives, or its exception. *)
Record Url := mkUrl { hostname : string; origin_of : string }.

Definition loopback (h : string) : bool :=
  String.eqb h "localhost" || String.eqb h "127.0.0.1" || String.eqb h "[::1]" || String.eqb h "::1".

Definition isAllowedOrigin (URL : string → option Url) (origin publicUrl : option string) : bool :=
  match truthy origin with
  | None => true
  | Some o =>
      match URL o with
      | None => false
      | Some u =>
          loopback (hostname u) ||
          match truthy publicUrl with
          | Some p => match URL p with Some v => String.eqb o (origin_of v) | None => false end
          | None => false
          end
      end
  end.

(** ** Lemmas *)

(** After a body is refused nothing more of it is kept, and what is kept never
    exceeds the limit. *)
Lemma settled_stays max es s r : settled s = Some r → settled (foldl (on_body max) s es) = Some r.
Proof.
  revert s. induction es as [|e es IH]; intros s Hs; [done|]. cbn [foldl]. apply IH.
  destruct e; cbn [on_body]; [destruct (exceeds _ _)|..]; cbn [settle settled]; by rewrite ?Hs.
Qed.

Definition kept (s : Reader) : nat := sum_list (String.length <$> chunks s).

Lemma kept_push n n' cs c x y : kept (mkReader n (cs ++ [c]) x) = (kept (mkReader n' cs y) + String.length c)%nat.
Proof.
  unfold kept. cbn [chunks]. rewrite fmap_app. generalize (String.length <$> cs). intros l.
  induction l as [|k l IH]; simpl in *; lia.
Qed.

Lemma parseBody_inv m es s :
  0 ≤ m → (kept s ≤ bytes s)%nat → Z.of_nat (kept s) ≤ m →
  Z.of_nat (kept (foldl (on_body (Some m)) s es)) ≤ m.
Proof.
  revert s. induction es as [|e es IH]; intros s Hm Hk Hb; [done|]. cbn [foldl].
  destruct e as [c| |]; cbn [on_body]; [|by apply IH..]. unfold exceeds. case_bool_decide.
  - apply IH; [done| |done]. cbn [settle bytes]. unfold kept in *. cbn [settle chunks]. lia.
  - apply IH; [done|..]; rewrite (kept_push _ (bytes s) _ _ _ (settled s)); destruct s; cbn [bytes chunks settled] in *; lia.
Qed.

Fixpoint datas (es : list body_event) : list string :=
  match es with Data c :: es => c :: datas es | _ => [] end.

Lemma read_chunks_ok max cs s :
  exceeds (bytes s + sum_list (String.length <$> cs)) max = false →
  foldl (on_body max) s (Data <$> cs) =
    mkReader (bytes s + sum_list (String.length <$> cs)) (chunks s ++ cs) (settled s).
Proof.
  revert s. induction cs as [|c cs IH]; intros s He; [simpl; rewrite Nat.add_0_r, app_nil_r; by destruct s|].
  - change (sum_list (String.length <$> c :: cs)) with (String.length c + sum_list (String.length <$> cs))%nat in *.
    rewrite fmap_cons. cbn [foldl on_body].
    assert (exceeds (bytes s + String.length c) max = false) as ->.
    { revert He. unfold exceeds. destruct max as [m|]; [|done]. rewrite !bool_decide_eq_false. intros. lia. }
    rewrite IH; cbn [bytes chunks settled].
    + rewrite <- app_assoc, Nat.add_assoc. done.
    + by rewrite <- Nat.add_assoc.
Qed.

Lemma read_chunks_large max cs s :
  settled s = None → exceeds (bytes s + sum_list (String.length <$> cs)) max = true → exceeds (bytes s) max = false →
  settled (foldl (on_body max) s (Data <$> cs)) = Some TooLarge.
Proof.
  revert s. induction cs as [|c cs IH]; intros s Hs He Hn.
  - cbn in He. rewrite Nat.add_0_r in He. congruence.
  - change (sum_list (String.length <$> c :: cs)) with (String.length c + sum_list (String.length <$> cs))%nat in He.
    rewrite Nat.add_assoc in He. rewrite fmap_cons. cbn [foldl on_body].
    destruct (exceeds (bytes s + String.length c) max) eqn:E.
    + apply settled_stays. cbn [settle settled]. by rewrite Hs.
    + apply IH; done.
Qed.

(** The body is its text however it is cut into chunks: read when it fits, refused
    as too large otherwise; and no more than the limit is ever kept. *)
Theorem body_limited m cs es :
  0 ≤ m →
  settled (parseBody (Some m) ((Data <$> cs) ++ [End_])) =
    Some (if bool_decide (Z.of_nat (String.length (join "" cs)) ≤ m) then Body (join "" cs) else TooLarge) ∧
  Z.of_nat (kept (parseBody (Some m) es)) ≤ m.
Proof.
  intros Hm. split; [|by apply parseBody_inv].
  assert (String.length (join "" cs) = sum_list (String.length <$> cs)) as ->.
  { unfold join. induction cs as [|c cs IH]; [done|]. destruct cs as [|d cs]; [simpl; lia|].
    change (String.concat "" (c :: d :: cs)) with (c +:+ String.concat "" (d :: cs)).
    rewrite Paths.length_str_app, IH. done. }
  unfold parseBody. rewrite foldl_app. cbn [foldl on_body]. case_bool_decide as Hle.
  - rewrite read_chunks_ok; [done|]. unfold exceeds. apply bool_decide_eq_false. simpl. lia.
  - cbn [settle settled]. rewrite (read_chunks_large (Some m) cs); try done; unfold exceeds;
      rewrite ?bool_decide_eq_true, ?bool_decide_eq_false; simpl; lia.
Qed.

(** ** Hiding tokens *)

(** The text of a value: no separator of parameters and no fragment. *)
Definition value_text (v : string) : Prop := has_char "&" v = false ∧ has_char "#" v = false.

(** The end of the URL after a value. *)
Definition after_value (q : string) : Prop := q = "" ∨ ∃ a r, q = String a r ∧ ends_value a = true.

Definition separator (a : ascii) : Prop := a = "?"%char ∨ a = "&"%char.

Lemma redact_value v q : value_text v → redact Value (v +:+ q) = redact Value q.
Proof.
  unfold value_text. induction v as [|a v IH]; [done|]. cbn [has_char]. rewrite !orb_false_iff. intros [[H1 H2] [H3 H4]].
  change ((String a v) +:+ q) with (String a (v +:+ q)). cbn [redact]. unfold ends_value. by rewrite H1, H3, IH.
Qed.

Lemma matches_word_sep w p sep t t' :
  Forall (λ c, ¬ separator c) w → separator sep →
  matches_word w (p +:+ String sep t) = matches_word w (p +:+ String sep t').
Proof.
  intros Hw Hs. revert p. induction Hw as [|c w Hc Hw IH]; intros p; [by destruct (p +:+ _), (p +:+ _)|].
  destruct p as [|a p]; [|exact (f_equal _ (IH p))].
  change ("" +:+ String sep t) with (String sep t). change ("" +:+ String sep t') with (String sep t').
  cbn [matches_word]. assert (Ascii.eqb (Paths.lower_ascii sep) c = false) as ->; [|done].
  apply Ascii.eqb_neq. intros <-. apply Hc. by destruct Hs as [-> | ->]; [left|right].
Qed.

Lemma token_word_plain : Forall (λ c, ¬ separator c) token_word.
Proof. unfold separator. repeat constructor; intros [E|E]; discriminate E. Qed.

Lemma starts_param_sep a p sep t t' :
  separator sep → starts_param (String a (p +:+ String sep t)) = starts_param (String a (p +:+ String sep t')).
Proof. intros Hs. cbn [starts_param]. by rewrite (matches_word_sep token_word p sep t t' token_word_plain Hs). Qed.

(** The group is copied, whatever its case, and the value replaced. *)
Lemma redact_copy name rest n :
  String.length name = S n → redact (Copying n) (name +:+ rest) = name +:+ "[REDACTED]" +:+ redact Value rest.
Proof.
  revert name. induction n as [|n IH]; intros [|a name] Hl; try discriminate Hl; injection Hl as Hl.
  - destruct name; [done|discriminate Hl].
  - change ((String a name) +:+ rest) with (String a (name +:+ rest)). cbn [redact]. by rewrite IH.
Qed.

Lemma matches_word_app w name rest : matches_word w name = true → matches_word w (name +:+ rest) = true.
Proof.
  revert name. induction w as [|c w IH]; intros name; [by destruct (name +:+ rest)|].
  destruct name as [|a name]; [done|]. change ((String a name) +:+ rest) with (String a (name +:+ rest)).
  cbn [matches_word]. intros [-> H]%andb_true_iff. by rewrite IH.
Qed.

Lemma redact_param_plain sep name v q :
  separator sep → matches_word token_word name = true → String.length name = 6%nat → value_text v →
  redact Plain (String sep (name +:+ v +:+ q)) = String sep (name +:+ "[REDACTED]" +:+ redact Value q).
Proof.
  intros Hs Hm Hl Hv. cbn [redact starts_param]. rewrite matches_word_app by done.
  assert ((Ascii.eqb sep "?" || Ascii.eqb sep "&") = true) as -> by by destruct Hs as [-> | ->].
  cbn [andb]. by rewrite redact_copy, redact_value.
Qed.

(** In any mode the text before the parameter can leave. *)
Definition mode_ok (md : mode) (s : string) : Prop :=
  match md with Copying n => (n ≤ 5)%nat ∧ matches_word (drop (5 - n) token_word) s = true | _ => True end.

Lemma mode_step a p sep t md :
  separator sep → mode_ok md (String a (p +:+ String sep t)) →
  match md with
  | Copying (S n) => mode_ok (Copying n) (p +:+ String sep t)
  | _ => True
  end.
Proof.
  destruct md as [|[|n]|]; try done. intros Hs [Hn Hm]. split; [lia|].
  assert (drop (5 - S n) token_word = nth (5 - S n) token_word "=" :: drop (5 - n) token_word)%char as E.
  { do 5 (destruct n as [|n]; [done|]). lia. }
  rewrite E in Hm. cbn [matches_word] in Hm. by apply andb_true_iff in Hm as [_ Hm].
Qed.

Lemma name_value w name :
  Forall (λ c, c ≠ "&" ∧ c ≠ "#")%char w → matches_word w name = true → String.length name = length w → value_text name.
Proof.
  intros Hw. revert name. induction Hw as [|c w [H1 H2] Hw IH]; intros [|a name] Hm Hl; try discriminate Hl; [done|].
  cbn [matches_word] in Hm. apply andb_true_iff in Hm as [Ha Hm]. injection Hl as Hl.
  destruct (IH name Hm Hl) as [Hx Hy]. apply Ascii.eqb_eq in Ha. unfold value_text. cbn [has_char].
  rewrite Hx, Hy, !orb_false_r.
  split; apply Ascii.eqb_neq; intros ->; [apply H1|apply H2]; by rewrite <- Ha.
Qed.

Lemma mode_start a p sep t m :
  separator sep → m = (if starts_param (String a (p +:+ String sep t)) then Copying 5 else Plain) →
  mode_ok m (p +:+ String sep t).
Proof.
  intros _ ->. destruct (starts_param _) eqn:E; [|done]. split; [lia|].
  cbn [starts_param] in E. by apply andb_true_iff in E as [_ E].
Qed.

Lemma redact_independent sep name v v' q :
  separator sep → matches_word token_word name = true → String.length name = 6%nat →
  value_text v → value_text v' → ∀ p md,
  mode_ok md (p +:+ String sep (name +:+ v +:+ q)) →
  redact md (p +:+ String sep (name +:+ v +:+ q)) = redact md (p +:+ String sep (name +:+ v' +:+ q)).
Proof.
  intros Hs Hm Hl Hv Hv'. set (R := λ v, String sep (name +:+ v +:+ q)). fold (R v) (R v').
  assert (redact Plain (R v) = redact Plain (R v')) as Hplain.
  { unfold R. by rewrite !redact_param_plain. }
  assert (value_text name) as Hname.
  { apply (name_value token_word); [|done..]. by repeat constructor. }
  induction p as [|a p IH]; intros md Hok.
  - change (redact md (R v) = redact md (R v')). destruct md as [|n|]; [done| |].
    + destruct Hok as [Hn Hw]. exfalso. change (matches_word (drop (5 - n) token_word) (R v) = true) in Hw.
      destruct Hs as [-> | ->]; do 6 (destruct n as [|n]; [discriminate Hw|]); lia.
    + unfold R in *. destruct Hs as [-> | ->].
      * cbn [redact]. change (ends_value "?") with false. cbn iota. by rewrite !redact_value.
      * exact Hplain.
  - change ((String a p) +:+ R v) with (String a (p +:+ R v)) in *.
    change ((String a p) +:+ R v') with (String a (p +:+ R v')).
    assert (∀ m, m = (if starts_param (String a (p +:+ R v)) then Copying 5 else Plain) →
      redact m (p +:+ R v) = redact m (p +:+ R v')) as Hstart.
    { intros m Em. apply IH. by apply (mode_start a p sep (name +:+ v +:+ q)). }
    assert (starts_param (String a (p +:+ R v)) = starts_param (String a (p +:+ R v'))) as Esp
      by by apply starts_param_sep.
    pose proof (mode_step a p sep (name +:+ v +:+ q) md Hs Hok) as Hstep.
    cbn [redact]. rewrite <- Esp. destruct md as [|[|n]|].
    + f_equal. by apply Hstart.
    + do 2 f_equal. by apply IH.
    + f_equal. by apply IH.
    + destruct (ends_value a); [f_equal; by apply Hstart|by apply IH].
Qed.

(** A URL that is logged says nothing of the token it carries: two URLs that
    differ only in the value of a parameter named token, in any case and at any
    place, are logged alike. *)
Theorem redaction_hides_token p sep name v v' q :
  separator sep → matches_word token_word name = true → String.length name = 6%nat →
  value_text v → value_text v' →
  redactTokenParam (p +:+ String sep (name +:+ v +:+ q)) = redactTokenParam (p +:+ String sep (name +:+ v' +:+ q)).
Proof. intros Hs Hm Hl Hv Hv'. by apply redact_independent. Qed.

Lemma redaction_hides_token_witness :
  redactTokenParam "/api/events?x=1&Token=secret-a&y=2" = redactTokenParam "/api/events?x=1&Token=secret-b&y=2".
Proof.
  apply (redaction_hides_token "/api/events?x=1" "&" "Token=" "secret-a" "secret-b" "&y=2");
    [by right|reflexivity..|split; reflexivity|split; reflexivity].
Defined.

(** ** What does not hold *)

(** A percent-encoded name is decoded by the search parameters that authenticate,
    and is not redacted. *)
Lemma encoded_name_not_redacted :
  redactTokenParam "/api/events?%74oken=secret" = "/api/events?%74oken=secret".
Proof. done. Qed.

(** Two texts with as many UTF-16 units and not as many bytes: the comparison
    throws, so a wrong secret of the right length is told apart. *)
Lemma safeEqual_throws : safeEqual (String (Paths.char 195) (String (Paths.char 169) "bc")) "abc" = None.
Proof. done. Qed.

Lemma safeEqual_spec a b r : safeEqual a b = Some r → (r = true ↔ a = b).
Proof.
  unfold safeEqual. case_bool_decide as H1; [intros [= <-]; split; [done|intros ->; done]|].
  case_bool_decide; [|done]. intros [= <-]. apply String.eqb_eq.
Qed.

(** The labels of paths are not bounded by the routes: words of any length are
    labels of their own. *)
Definition word (n : nat) : string := foldr String "" (repeat "z"%char n).

Lemma metricRoute_unbounded n : metricRoute ("/api/" +:+ word (S n)) = "/api/" +:+ word (S n).
Proof.
  assert (∀ k, split_on "/" (word k) = [word k]) as Hsp.
  { induction k as [|k IH]; [done|]. change (word (S k)) with (String "z" (word k)). cbn [split_on].
    by rewrite IH. }
  assert (split_on "/" ("/api/" +:+ word (S n)) = ["";"api";word (S n)]) as Esplit.
  { change ("/api/" +:+ word (S n)) with (String "/" (String "a" (String "p" (String "i" (String "/" (word (S n))))))).
    generalize (Hsp (S n)). generalize (word (S n)). intros w Ew. cbn. by rewrite Ew. }
  assert (label_segment (word (S n)) = word (S n)) as E.
  { unfold label_segment, UUID_SEGMENT_RE, LONG_HEX_SEGMENT_RE, LONG_NUMERIC_SEGMENT_RE.
    assert (all hex (word (S n)) = false) as -> by done. assert (all digit (word (S n)) = false) as -> by done.
    rewrite !andb_false_r.
    destruct (split_on "-" (word (S n))) as [|s l] eqn:Es; [done|].
    assert (split_on "-" (word (S n)) = [word (S n)]) as E'.
    { clear Es. generalize (S n). intros k. induction k as [|k IH]; [done|].
      change (word (S k)) with (String "z" (word k)). cbn [split_on]. by rewrite IH. }
    rewrite E' in Es. injection Es as <- <-. by rewrite bool_decide_false by done. }
  unfold metricRoute. rewrite Esplit.
  change (label_segment <$> ["";"api";word (S n)]) with ["";"api";label_segment (word (S n))]. by rewrite E.
Qed.

End HttpUtils.
