(* ===== verification/McpSessions.v ===== *)
(** * Sessions of the MCP transport ([createHttpHandler] of [src/serve-http.ts])

    A session is a transport, the claims last verified for it and the time of its
    last request, in three maps under one identifier. A request waits for its
    authentication, and a new session for its first answer; between the two the
    other requests, the closing of transports and the sweep of idle sessions run. *)

From S2P Require Import Prelude Paths AuthState Rotation ServiceTokens Authenticate EventStream.
Local Open Scope Z_scope.

Module McpSessions.
Import Authenticate.

(** [sid_of] is [transport.sessionId], which the transport draws while it answers
    the first request; [calls] are the requests handed to a transport, each with
    the claims in scope; [closing] are the transports the sweep asked to close. *)
Record Mcp := mkMcp {
  sessions : gmap string nat;
  sessionClaims : gmap string AuthClaims;
  sessionLastActivity : gmap string Z;
  sid_of : gmap nat string;
  next : nat;
  calls : list (nat * AuthClaims);
  closing : list nat
}.

Definition init : Mcp := mkMcp ∅ ∅ ∅ ∅ O [] [].

(** The answers of the branches; [Waiting] is a request that waits for its
    authentication, for an existing session or a new one. *)
Inductive Wait := WExisting (sid : string) | WNew.
Inductive Reply := Waiting (w : Wait) | Handed | NotFound | MethodNotAllowed | BadRequest | Unauthorized | ServerError.

(** The branch a request takes, after the check of its origin. *)
Definition dispatch (method : string) (header : option string) (s : Mcp) : Reply :=
  match truthy header with
  | Some sid =>
      match sessions s !! sid with
      | Some _ => Waiting (WExisting sid)
      | None => NotFound
      end
  | None =>
      if String.eqb method "POST" then Waiting WNew
      else if String.eqb method "GET" then MethodNotAllowed else BadRequest
  end.

(** [resolveClaims]: the claims of the request being handled, else of the session. *)
Definition resolveClaims (store fromSession : option AuthClaims) : option AuthClaims :=
  match store with Some c => Some c | None => fromSession end.

Definition call (t : nat) (c : AuthClaims) (s : Mcp) : Mcp :=
  mkMcp (sessions s) (sessionClaims s) (sessionLastActivity s) (sid_of s) (next s) (calls s ++ [(t, c)]) (closing s).

Definition note (sid : string) (c : AuthClaims) (now : Z) (s : Mcp) : Mcp :=
  mkMcp (sessions s) (<[sid := c]> (sessionClaims s)) (<[sid := now]> (sessionLastActivity s)) (sid_of s)
    (next s) (calls s) (closing s).

(** After the authentication of a request on an existing session;
    [sessions.get(sid)!] of a session that was closed meanwhile throws. *)
Definition on_existing (sid : string) (auth : option AuthClaims) (now : Z) (s : Mcp) : Reply * Mcp :=
  match auth with
  | None => (Unauthorized, s)
  | Some c =>
      let s := note sid c now s in
      match sessions s !! sid with
      | Some t => (Handed, call t c s)
      | None => (ServerError, s)
      end
  end.

(** After the authentication of a new session: a transport gets the request. *)
Definition on_new (auth : option AuthClaims) (s : Mcp) : Reply * option nat * Mcp :=
  match auth with
  | None => (Unauthorized, None, s)
  | Some c =>
      let t := next s in
      (Handed, Some t, call t c (mkMcp (sessions s) (sessionClaims s) (sessionLastActivity s) (sid_of s) (S t)
                                   (calls s) (closing s)))
  end.

(** The transport draws its identifier. *)
Definition assign (t : nat) (sid : string) (s : Mcp) : Mcp :=
  mkMcp (sessions s) (sessionClaims s) (sessionLastActivity s) (<[t := sid]> (sid_of s)) (next s) (calls s) (closing s).

(** When the first answer is done. *)
Definition on_opened (t : nat) (c : AuthClaims) (now : Z) (s : Mcp) : Mcp :=
  match sid_of s !! t with
  | Some sid =>
      note sid c now
        (mkMcp (<[sid := t]> (sessions s)) (sessionClaims s) (sessionLastActivity s) (sid_of s) (next s)
           (calls s) (closing s))
  | None => s
  end.

(** [transport.onclose] *)
Definition onclose (t : nat) (s : Mcp) : Mcp :=
  match sid_of s !! t with
  | Some sid =>
      mkMcp (delete sid (sessions s)) (delete sid (sessionClaims s)) (delete sid (sessionLastActivity s)) (sid_of s)
        (next s) (calls s) (filter (λ x, x ≠ t) (closing s))
  | None => s
  end.

(** [MCP_SESSION_TTL_MS]; [None] is NaN. *)
Definition MCP_SESSION_TTL_MS (raw : option string) : option Z :=
  EventStream.parseInt (default "1800000" (truthy raw)).

(** [!(now - lastActivity <= TTL)] *)
Definition idle (now : Z) (ttl : option Z) (last : Z) : bool :=
  match ttl with Some t => bool_decide (t < now - last) | None => true end.

(** The transports to close, and the entries of no session that are removed. *)
Definition sweepIdleMcpSessions (now : Z) (ttl : option Z) (s : Mcp) : nat * Mcp :=
  let stale := filter (λ p, idle now ttl p.2 = true) (map_to_list (sessionLastActivity s)) in
  let evicted := omap (λ p, sessions s !! p.1) stale in
  let orphans := filter (λ p, sessions s !! p.1 = None) stale in
  (length evicted,
   mkMcp (sessions s) (sessionClaims s) (foldr (λ p m, delete p.1 m) (sessionLastActivity s) orphans) (sid_of s)
     (next s) (calls s) (closing s ++ evicted)).

(** ** Runs *)

(** [pend] are the requests that wait for their authentication, [first] the new
    sessions whose first answer is not done, [gone] the transports that closed. *)
Record World := mkWorld { mcp : Mcp; pend : list Wait; first : list (nat * AuthClaims); gone : list nat }.

Inductive step : World → World → Prop :=
  | S_request method header w s p f g :
      dispatch method header s = Waiting w → step (mkWorld s p f g) (mkWorld s (w :: p) f g)
  | S_existing sid auth now s p1 p2 f g :
      step (mkWorld s (p1 ++ WExisting sid :: p2) f g)
           (mkWorld (on_existing sid auth now s).2 (p1 ++ p2) f g)
  | S_new_refused s p1 p2 f g :
      step (mkWorld s (p1 ++ WNew :: p2) f g) (mkWorld s (p1 ++ p2) f g)
  | S_new c t s s' p1 p2 f g :
      on_new (Some c) s = (Handed, Some t, s') →
      step (mkWorld s (p1 ++ WNew :: p2) f g) (mkWorld s' (p1 ++ p2) ((t, c) :: f) g)
  | S_assign t c sid s p f g :
      (t, c) ∈ f → sid_of s !! t = None → (∀ u, sid_of s !! u ≠ Some sid) →
      step (mkWorld s p f g) (mkWorld (assign t sid s) p f g)
  | S_opened t c now s p f1 f2 g :
      step (mkWorld s p (f1 ++ (t, c) :: f2) g) (mkWorld (on_opened t c now s) p (f1 ++ f2) g)
  | S_close t s p f g :
      t ∉ g → step (mkWorld s p f g) (mkWorld (onclose t s) p f (t :: g))
  | S_sweep now ttl s p f g :
      step (mkWorld s p f g) (mkWorld (sweepIdleMcpSessions now ttl s).2 p f g).

Definition start : World := mkWorld init [] [] [].

(** ** The maps agree *)

Record wf (w : World) : Prop := {
  wf_session sid t : sessions (mcp w) !! sid = Some t →
    is_Some (sessionClaims (mcp w) !! sid) ∧ is_Some (sessionLastActivity (mcp w) !! sid) ∧ sid_of (mcp w) !! t = Some sid;
  wf_inj t u sid : sid_of (mcp w) !! t = Some sid → sid_of (mcp w) !! u = Some sid → t = u
}.

Lemma foldr_delete_lookup (l : list (string * Z)) (m : gmap string Z) sid :
  foldr (λ p m, delete p.1 m) m l !! sid = if decide (sid ∈ l.*1) then None else m !! sid.
Proof.
  induction l as [|p l IH]; [done|]. cbn [foldr fmap list_fmap]. destruct (decide (sid = p.1)) as [->|Hne].
  - rewrite lookup_delete_eq. by rewrite decide_True by left.
  - rewrite lookup_delete_ne, IH by done. destruct (decide (sid ∈ l.*1)).
    + by rewrite decide_True by by right.
    + rewrite decide_False; [done|]. intros [?|?]%elem_of_cons; done.
Qed.

(** The sweep touches only entries of no session. *)
Lemma sweep_keeps now ttl s sid t :
  sessions s !! sid = Some t →
  sessionLastActivity (sweepIdleMcpSessions now ttl s).2 !! sid = sessionLastActivity s !! sid.
Proof.
  intros Hs. cbn [sweepIdleMcpSessions snd sessionLastActivity]. rewrite foldr_delete_lookup.
  rewrite decide_False; [done|]. intros (p & -> & [Hp _]%list_elem_of_filter)%list_elem_of_fmap. congruence.
Qed.

Lemma note_wf w sid c now p f g :
  wf w → wf (mkWorld (note sid c now (mcp w)) p f g).
Proof.
  intros [H1 H2]. constructor; cbn [mcp note sessions sessionClaims sessionLastActivity sid_of next]; [|done].
  intros i t Ht. destruct (H1 i t Ht) as (Hc & Ha & Hi).
  destruct (decide (i = sid)) as [->|Hne]; [by rewrite !lookup_insert_eq|by rewrite !lookup_insert_ne].
Qed.

Lemma mcp_step_wf w w' : wf w → step w w' → wf w'.
Proof.
  intros Hw Hs. pose proof Hw as [H1 H2].
  destruct Hs as [method header v s p f g Hd|sid auth now s p1 p2 f g|s p1 p2 f g|c t s s' p1 p2 f g E
    |t c sid s p f g Hf Hn Hfresh|t c now s p f1 f2 g|t s p f g Hg|now ttl s p f g]; cbn [mcp] in *.
  - by constructor.
  - destruct auth as [c|]; cbn [on_existing snd]; [|by constructor].
    pose proof (note_wf _ sid c now (p1 ++ p2) f g Hw) as Hn. cbn [mcp] in Hn.
    destruct (sessions (note sid c now s) !! sid); cbn [snd]; [|done]. destruct Hn. by constructor.
  - by constructor.
  - injection E as <- <-. by constructor.
  - constructor; cbn [mcp assign sessions sessionClaims sessionLastActivity sid_of].
    + intros i u Hi. destruct (H1 i u Hi) as (? & ? & Hsid). split_and!; [done..|].
      rewrite lookup_insert_ne; [done|]. congruence.
    + intros x y i. rewrite !lookup_insert_Some. intros [[<- <-]|[Hx Ex]] [[<- E]|[Hy Ey]]; try done; naive_solver.
  - unfold on_opened. destruct (sid_of s !! t) as [sid|] eqn:E; [|by constructor].
    constructor; cbn [mcp note sessions sessionClaims sessionLastActivity sid_of]; [|done].
    intros i u Hi. destruct (decide (i = sid)) as [->|Hne].
    + rewrite lookup_insert_eq in Hi. injection Hi as <-. by rewrite !lookup_insert_eq.
    + rewrite lookup_insert_ne in Hi by done. rewrite !lookup_insert_ne by done. by apply H1.
  - unfold onclose. destruct (sid_of s !! t) as [sid|] eqn:E; [|by constructor].
    constructor; cbn [mcp sessions sessionClaims sessionLastActivity sid_of]; [|done].
    intros i u Hi. destruct (decide (i = sid)) as [->|Hne]; [by rewrite lookup_delete_eq in Hi|].
    rewrite lookup_delete_ne in Hi by done. rewrite !lookup_delete_ne by done. by apply H1.
  - constructor; [|done]. intros i u Hi. destruct (H1 i u Hi) as (Hc & Ha & Hsid). split_and!; [done| |done].
    cbn [mcp]. by rewrite (sweep_keeps now ttl s i u Hi).
Qed.

Lemma steps_wf w w' : rtc step w w' → wf w → wf w'.
Proof. induction 1; eauto using mcp_step_wf. Qed.

Lemma start_wf : wf start.
Proof. constructor; cbn; [intros sid t H|intros t u sid H]; by rewrite lookup_empty in H. Qed.

(** In every interleaving of requests, openings, closings and sweeps, a
    session that is open has claims and a last request, under the identifier
    that its transport drew; and a request that is handed to a session is handed
    with the claims that were verified for this request, whoever opened it. *)
Theorem sessions_consistent w :
  rtc step start w →
  (∀ sid t, sessions (mcp w) !! sid = Some t →
     is_Some (sessionClaims (mcp w) !! sid) ∧ is_Some (sessionLastActivity (mcp w) !! sid) ∧
     sid_of (mcp w) !! t = Some sid) ∧
  ∀ sid auth now s', on_existing sid auth now (mcp w) = (Handed, s') →
    ∃ c t, auth = Some c ∧ sessions (mcp w) !! sid = Some t ∧ calls s' = calls (mcp w) ++ [(t, c)] ∧
      ∀ stored, resolveClaims (Some c) stored = Some c.
Proof.
  intros Hr. destruct (steps_wf _ _ Hr start_wf) as [H1 _]. split; [exact H1|].
  intros sid auth now s'. unfold on_existing. destruct auth as [c|]; [|done].
  destruct (sessions (note sid c now (mcp w)) !! sid) as [t|] eqn:E; [|done].
  intros [= <-]. exists c, t. done.
Qed.

(** ** The sweep *)

(** The sweep asks to close exactly the sessions whose last request is
    longer ago than the limit, counts them, and leaves the others alone. *)
Theorem sweep_evicts_idle now ttl s n s' :
  sweepIdleMcpSessions now (Some ttl) s = (n, s') →
  sessions s' = sessions s ∧ sessionClaims s' = sessionClaims s ∧
  ∃ evicted, closing s' = closing s ++ evicted ∧ n = length evicted ∧
    ∀ t, t ∈ evicted ↔ ∃ sid last, sessions s !! sid = Some t ∧ sessionLastActivity s !! sid = Some last ∧ ttl < now - last.
Proof.
  intros [= <- <-]. split_and!; [done..|]. eexists. split_and!; [done..|].
  intros t. rewrite list_elem_of_omap. split.
  - intros ([sid last] & [Hi Hl]%list_elem_of_filter & Ht). apply elem_of_map_to_list in Hl. simpl in *.
    apply bool_decide_eq_true in Hi. eauto.
  - intros (sid & last & Hs & Hl & Hlt). exists (sid, last). split; [|done].
    apply list_elem_of_filter. split; [by apply bool_decide_eq_true|by apply elem_of_map_to_list].
Qed.

(** A limit that is not a number closes every session at every sweep. *)
Lemma nan_ttl_evicts_all now s t sid last :
  sessions s !! sid = Some t → sessionLastActivity s !! sid = Some last →
  t ∈ closing (sweepIdleMcpSessions now None s).2.
Proof.
  intros Hs Hl. cbn [sweepIdleMcpSessions snd closing]. apply elem_of_app. right.
  apply list_elem_of_omap. exists (sid, last). split; [|done].
  apply list_elem_of_filter. split; [done|by apply elem_of_map_to_list].
Qed.

(** ** Claims without a session *)

(** The claims of an identifier whose transport closed and will not open again. *)
Record orphaned (sid : string) (w : World) : Prop := {
  or_claims : is_Some (sessionClaims (mcp w) !! sid);
  or_closed : sessions (mcp w) !! sid = None;
  or_gone : ∃ t, sid_of (mcp w) !! t = Some sid ∧ t ∈ gone w ∧ (t < next (mcp w))%nat ∧ t ∉ (first w).*1
}.

Lemma note_claims sid i c now s : is_Some (sessionClaims s !! sid) → is_Some (sessionClaims (note i c now s) !! sid).
Proof.
  intros H. cbn [note sessionClaims]. destruct (decide (i = sid)) as [->|Hne];
    [by rewrite lookup_insert_eq|by rewrite lookup_insert_ne].
Qed.

Lemma step_orphaned sid w w' : wf w → orphaned sid w → step w w' → orphaned sid w'.
Proof.
  intros [_ Hinj] [Hc Hs (t0 & Ht & Hg0 & Hlt & Hf0)] Hst.
  destruct Hst as [method header v s p f g Hd|i auth now s p1 p2 f g|s p1 p2 f g|c t s s' p1 p2 f g E
    |t c i s p f g Hf Hn Hfresh|t c now s p f1 f2 g|t s p f g Hg|now ttl s p f g]; cbn [mcp gone first] in *.
  - constructor; eauto.
  - destruct auth as [c|]; cbn [on_existing snd]; [|constructor; eauto].
    destruct (sessions (note i c now s) !! i); cbn [snd];
      (constructor; cbn [mcp]; [by apply (note_claims sid i c now s)|done|eauto]).
  - constructor; eauto.
  - injection E as <- <-. constructor; cbn [mcp call sessions sessionClaims]; [done|done|].
    exists t0. cbn. split_and!; [done|done|lia|]. apply not_elem_of_cons. split; [lia|done].
  - constructor; cbn [mcp assign sessions sessionClaims]; [done|done|]. exists t0. cbn.
    rewrite lookup_insert_ne by congruence. done.
  - assert (t ≠ t0) as Hne. { intros ->. apply Hf0. rewrite fmap_app. apply elem_of_app. right. left. }
    assert (t0 ∉ (f1 ++ f2).*1) as Hf'.
    { rewrite fmap_app in *. rewrite fmap_cons in Hf0. apply not_elem_of_app in Hf0 as [Hfa [_ Hfb]%not_elem_of_cons].
      by apply not_elem_of_app. }
    unfold on_opened. destruct (sid_of s !! t) as [i|] eqn:Ei; [|constructor; eauto].
    assert (i ≠ sid) as Hi by (intros ->; apply Hne; eauto).
    constructor; cbn [mcp]; [by apply note_claims|cbn; by rewrite lookup_insert_ne|]. exists t0. done.
  - assert (t ≠ t0) as Hne by congruence.
    unfold onclose. destruct (sid_of s !! t) as [i|] eqn:Ei.
    + assert (i ≠ sid) as Hi by (intros ->; apply Hne; eauto).
      constructor; cbn; [by rewrite lookup_delete_ne|by rewrite lookup_delete_ne|].
      exists t0. split_and!; [done|by right|done|done].
    + constructor; cbn; [done|done|]. exists t0. split_and!; [done|by right|done|done].
  - constructor; cbn; [done|done|]. exists t0. done.
Qed.

Lemma steps_orphaned sid w w' : rtc step w w' → wf w → orphaned sid w → orphaned sid w'.
Proof. induction 1; eauto using mcp_step_wf, step_orphaned. Qed.

Definition someone : AuthClaims := mkAuthClaims "a1" "u1" "org" "agent" "j1" None None false None.

(** A session opens; a request on it waits for its authentication while the
    session is closed. *)
Definition opened : Mcp := on_opened 0 someone 0 (assign 0 "s" (on_new (Some someone) init).2).
Definition orphan_world : World := mkWorld (on_existing "s" (Some someone) 1 (onclose 0 opened)).2 [] [] [0%nat].

Definition first_call : Mcp := (on_new (Some someone) init).2.

Lemma orphan_reached : rtc step start orphan_world.
Proof.
  apply (rtc_l _ _ (mkWorld init [WNew] [] [])); [by apply (S_request "POST" None WNew init [] [] [])|].
  apply (rtc_l _ _ (mkWorld first_call [] [(O, someone)] [])); [by apply (S_new someone 0 init first_call [] [] [] [])|].
  apply (rtc_l _ _ (mkWorld (assign 0 "s" first_call) [] [(O, someone)] [])).
  { apply (S_assign 0 someone "s" first_call); [left|done|]. intros u. cbn. by rewrite lookup_empty. }
  apply (rtc_l _ _ (mkWorld opened [] [] [])); [apply (S_opened 0 someone 0 (assign 0 "s" first_call) [] [] [] [])|].
  apply (rtc_l _ _ (mkWorld opened [WExisting "s"] [] []));
    [by apply (S_request "POST" (Some "s") (WExisting "s") opened [] [] [])|].
  apply (rtc_l _ _ (mkWorld (onclose 0 opened) [WExisting "s"] [] [O])); [apply (S_close 0 opened); apply not_elem_of_nil|].
  apply (rtc_l _ _ orphan_world); [apply (S_existing "s" (Some someone) 1 (onclose 0 opened) [] [] [] [O])|].
  apply rtc_refl.
Qed.

(** A request that is still being authenticated when its session closes
    leaves the claims of the session behind: the request fails, and in every
    continuation the entry is never removed, since neither the sweep nor any
    closing reaches an identifier that has no transport. *)
Theorem orphan_claims_stay :
  ∃ w, rtc step start w ∧
    ∀ w', rtc step w w' → is_Some (sessionClaims (mcp w') !! "s") ∧ sessions (mcp w') !! "s" = None.
Proof.
  exists orphan_world. split; [exact orphan_reached|]. intros w' Hr.
  destruct (steps_orphaned "s" _ _ Hr) as [H1 H2 _]; [exact (steps_wf _ _ orphan_reached start_wf)| |done].
  constructor; [by vm_compute; eauto|by vm_compute|]. exists O. split_and!; [by vm_compute|left|by vm_compute; lia|apply not_elem_of_nil].
Qed.

Lemma sessions_consistent_witness :
  sessions (mcp orphan_world) !! "s" = None ∧
  ∀ sid t, sessions (mcp orphan_world) !! sid = Some t → is_Some (sessionClaims (mcp orphan_world) !! sid).
Proof.
  split; [by vm_compute|]. intros sid t H.
  destruct (sessions_consistent orphan_world orphan_reached) as [H1 _]. apply (H1 sid t H).
Defined.

Lemma sweep_evicts_idle_witness : closing (sweepIdleMcpSessions 3000000 (Some 1800000) opened).2 = [0%nat].
Proof.
  destruct (sweepIdleMcpSessions 3000000 (Some 1800000) opened) as [n s'] eqn:E.
  destruct (sweep_evicts_idle 3000000 1800000 opened n s' E) as (_ & _ & ev & Ec & _ & _).
  rewrite <- (f_equal snd E). vm_compute. reflexivity.
Defined.

End McpSessions.
