(* ===== verification/HttpServer.v ===== *)
(** * The HTTP server ([createHttpHandler] and [handleAuth] of [src/serve-http.ts],
    [src/http/handle-health.ts], [src/http/health.ts], [src/http/metrics.ts])

    The router, from the method and the URL to the handler, with the check of the
    origin, the authentication and the registration of agents. The handlers of
    login and administration are those of their own components; here a request
    for them is answered by their route. *)

From S2P Require Import Prelude Paths Database Schemas Handlers AuthState Rotation RateLimit Authenticate Admin.
From S2P Require Import Bridge Tools HttpUtils McpSessions.
Local Open Scope Z_scope.

Module HttpServer.
Import Rotation Schemas Authenticate Admin HttpUtils.

(** ** Requests and settings *)

(** [base] is what authentication reads; [body] what [parseBody] gives, or the
    status of its exception; [agent_query] and [since_query] the parameters [agent_id] and
    [since] of the query, [minutes_body] the number [since_minutes] of the body;
    [tool_calls] the calls of tools that the MCP transport reads from the body, of
    arguments that pass their schemas. *)
Record HttpReq := mkHttp {
  base : Authenticate.Request;
  origin : option string;
  mcp_session_id : option string;
  body : Z + json;
  agent_query : string;
  since_query : string;
  minutes_body : Z;
  tool_calls : list Tools.ToolCall;
  remoteAddress : option string
}.

Record Settings := mkSettings {
  AUTH_ENABLED : bool;
  PUBLIC_URL : option string;
  METRICS_BEARER : option string;
  REGISTRATION_SECRET : string;
  ADMIN_SECRET : string;
  REGISTER_RATE_LIMIT_CONFIG : RateLimitConfig;
  phase2Bootstrap : bool;
  dashboardDir : option string
}.

(** What the probes look at: the answer of [SELECT 1], the state of the bridge,
    the breaker of the sweeper and the length of the audit queue, if there is one. *)
Record Probes := mkProbes { db_ok : bool; mqtt_ok : bool; circuit_open : bool; audit_depth : option Z }.

(** ** Routes *)

Inductive Route :=
  | RtPreflight | RtAuth (r : AuthRoute) | RtDashboard | RtLivez | RtReadyz | RtHealth | RtHealthz | RtHealthReady
  | RtDiscovery | RtMetrics | RtAuthMetrics | RtEvents | RtAuthApi | RtMcp | RtGuarded.

Definition route_of (phase2 : bool) (method url : string) : Route :=
  if String.eqb method "OPTIONS" then RtPreflight
  else
    match (if phase2 then dispatchAuthRoutes url method else None) with
    | Some r => RtAuth r
    | None =>
        if String.eqb url "/dashboard" || startsWith "/dashboard/" url then RtDashboard
        else if String.eqb url "/livez" then RtLivez
        else if String.eqb url "/readyz" then RtReadyz
        else if String.eqb url "/health" then RtHealth
        else if String.eqb url "/healthz" then RtHealthz
        else if String.eqb url "/health/ready" then RtHealthReady
        else if String.eqb url "/.well-known/oauth-authorization-server" && phase2 then RtDiscovery
        else if String.eqb url "/metrics" && String.eqb method "GET" then RtMetrics
        else if String.eqb url "/metrics/auth" && String.eqb method "GET" && phase2 then RtAuthMetrics
        else if (String.eqb url "/api/events" || startsWith "/api/events?" url) && String.eqb method "GET" then RtEvents
        else if startsWith "/api/auth/" url then RtAuthApi
        else if String.eqb url "/mcp" then RtMcp
        else RtGuarded
    end.

(** ** Probes *)

Definition AUDIT_QUEUE_CAPACITY : Z := 10000.
Definition auditDepthThresholdPercent : Z := 80.

(** [handleReadyz]: the other two checks are reported and do not count. *)
Definition handleReadyz (p : Probes) : Z := if db_ok p && mqtt_ok p then 200 else 503.

(** [handleHealthReady]: as it is called, without [draining]. *)
Definition audit_queue_ok (p : Probes) : bool :=
  match audit_depth p with
  | Some d => bool_decide (d * 100 ≤ auditDepthThresholdPercent * AUDIT_QUEUE_CAPACITY)
  | None => true
  end.

Definition handleHealthReady (p : Probes) : Z :=
  if db_ok p && audit_queue_ok p && negb (circuit_open p) then 200 else 503.

(** [isLoopback], [timingSafeBearerMatch] and the rule of [handleMetrics]. *)
Definition isLoopback (a : option string) : bool :=
  match truthy a with
  | None => false
  | Some a => String.eqb a "::1" || String.eqb a "::ffff:127.0.0.1" || startsWith "127." a
  end.

Definition timingSafeBearerMatch (header : option string) (expected : string) : bool :=
  match bearer (truthy header) with
  | None => false
  | Some provided => bool_decide (String.length provided = String.length expected) && String.eqb provided expected
  end.

Definition metrics_allowed (st : Settings) (rq : HttpReq) : bool :=
  isLoopback (remoteAddress rq) ||
  match truthy (METRICS_BEARER st) with
  | Some t => timingSafeBearerMatch (authorization (base rq)) t
  | None => false
  end.

(** ** Pages *)

Definition lower (a : ascii) : bool := let n := Paths.code a in bool_decide (97 ≤ n ∧ n ≤ 122).

(** [/^\/dashboard\/admin(?:-[a-z]+)?\.(?:html|js|css)$/] *)
Definition isAdminAsset (path : string) : bool :=
  if startsWith "/dashboard/admin" path then
    match split_on "." (Paths.slice 16 path) with
    | [word; ext] =>
        bool_decide (ext ∈ ["html"; "js"; "css"]) &&
        match word with
        | EmptyString => true
        | String a w => Ascii.eqb a "-" && negb (String.eqb w "") && all lower w
        end
    | _ => false
    end
  else false.

(** The file a URL of the dashboard names, under an absolute directory; [/dashboard/]
    is replaced where it first occurs, at the start. *)
Definition dashboard_file (dir url : string) : option string :=
  if String.eqb url "/dashboard" || String.eqb url "/dashboard/" then Some (Paths.resolve dir "index.html")
  else Paths.safeJoinUnderRoot dir (Paths.slice 11 (before_query url)).

(** ** What is answered *)

(** What [existsSync] and [readFileSync] find; reading a directory throws. *)
Inductive FsEntry := Missing | RegularFile | Directory.

Inductive Served :=
  | Status (n : Z)
  | AuthHandler (r : AuthRoute)
  | Page (file : string) (hardened : bool)
  | Discovery
  | MetricsText
  | AuthMetricsText
  | Events (c : AuthClaims)
  | Registered (agentId : string) (token : Jwt)
  | Renewed (token : Jwt)
  | AgentRevoked (agent by_ : string)
  | Mcp (r : McpSessions.Reply)
  | Rest (o : outcome Handlers.Response)
  | Unmodelled.

Record Server (T : Type) := mkServer { world : World; auth : Auth; limits : T; mcp : McpSessions.Mcp }.
Arguments mkServer {T} _ _ _ _.
Arguments world {T} _.
Arguments auth {T} _.
Arguments limits {T} _.
Arguments mcp {T} _.

Section server.
Context `{Jose} `{RateLimiterOps T} (cfg : AuthConfig) (st : Settings) (URL : string → option Url)
  (lookup_file : string → FsEntry) (grace : Z) (cx0 : Handlers.RestContext).

(** A field of the body: nothing when it is absent or falsy, [None] when it is
    an array or an object, whose comparison with a text is not modelled. *)
Definition text_field (k : string) (b : json) : option (option json) :=
  match field k b with
  | None | Some VNull | Some (VBool false) | Some (VStr EmptyString) => Some None
  | Some (VArr _) | Some (VObj _) => None
  | Some v => Some (Some v)
  end.

(** [safeEqual] of a value that is not an array: what has no length is different. *)
Definition safeEqual_json (v : json) (secret : string) : option bool :=
  match v with VStr s => safeEqual s secret | _ => Some false end.

(** The role a registration gives, [inl] for the status of a refusal. *)
Definition registration_role (secret : json) : Z + string :=
  match safeEqual_json secret (ADMIN_SECRET st) with
  | None => inl 500
  | Some true => inr "admin"
  | Some false =>
      match safeEqual_json secret (REGISTRATION_SECRET st) with
      | None => inl 500
      | Some true => inr "agent"
      | Some false => inl 401
      end
  end.

(** [POST /api/auth/register]; the numbers of JSON have no value here, so 0,
    which is refused as missing, is refused as wrong. *)
Definition register (e : Env) (rq : HttpReq) (b : json) (l : T) : Served * T :=
  let ip := default "unknown" (truthy (remoteAddress rq)) in
  match rl_check (now e) ("register:" +:+ ip) (REGISTER_RATE_LIMIT_CONFIG st) l with
  | (Denied _, l) => (Status 429, l)
  | (Allowed _ _, l) =>
      (match b with
       | VNull => Status 500
       | _ =>
           match text_field "agent_name" b, text_field "registration_secret" b with
           | Some None, _ | _, Some None => Status 400
           | Some (Some _), Some (Some secret) =>
               match registration_role secret with
               | inl n => Status n
               | inr role => Registered (draw e 1) (createToken cfg e (draw e 1) role None None)
               end
           | _, _ => Unmodelled
           end
       end, l)
  end.

(** [POST /api/auth/refresh] *)
Definition refresh (e : Env) (rq : HttpReq) : Served :=
  match bearer (truthy (authorization (base rq))) with
  | None => Status 401
  | Some token =>
      match refreshToken cfg e (AUTH_ENABLED st) grace token with
      | inl _ => Status 401
      | inr j => Renewed j
      end
  end.

(** [POST /api/auth/revoke] without the routes of login. *)
Definition revoke (e : Env) (rq : HttpReq) (b : json) (s : Auth) : Served * Auth :=
  match authenticateRequest cfg e s (AUTH_ENABLED st) (base rq) with
  | AuthNo status _ => (Status status, s)
  | AuthOk c =>
      match b with
      | VNull => (Status 500, s)
      | _ =>
          match text_field "agent_id" b with
          | Some None => (Status 400, s)
          | Some (Some (VStr a)) => (AgentRevoked a (a_sub c), revokeAgent (a_org c) a s)
          | _ => (Unmodelled, s)
          end
      end
  end.

Definition handleAuth (e : Env) (rq : HttpReq) (s : Server T) : Served * Server T :=
  match body rq with
  | inl status => (Status status, s)
  | inr b =>
      let post := String.eqb (method (base rq)) "POST" in
      if String.eqb (url (base rq)) "/api/auth/register" && post then
        let (o, l) := register e rq b (limits s) in (o, mkServer (world s) (auth s) l (mcp s))
      else if String.eqb (url (base rq)) "/api/auth/refresh" && post then (refresh e rq, s)
      else if String.eqb (url (base rq)) "/api/auth/revoke" && post then
        let (o, a) := revoke e rq b (auth s) in (o, mkServer (world s) a (limits s) (mcp s))
      else (Status 404, s)
  end.

(** [authenticateMcpRequest]: without authentication the credential is not read. *)
Definition authenticateMcpRequest (e : Env) (rq : HttpReq) (s : Auth) : option AuthClaims :=
  if AUTH_ENABLED st
  then match authenticateRequest cfg e s true (base rq) with AuthOk c => Some c | AuthNo _ _ => None end
  else Some (mkAuthClaims "legacy" "legacy" "default" "admin" "legacy" None None false None).

(** The tools that a request to a session calls, one after the other, with the claims of
    the request ([requestClaims.run]). Only a POST carries calls; what a tool throws
    is answered as an error of the tool. *)
Definition run_tools (c : AuthClaims) (rq : HttpReq) (w : World) : World :=
  if String.eqb (method (base rq)) "POST"
  then foldl (λ w t, run (Tools.call (Handlers.cx_roots cx0) (Some c) t) w) w (tool_calls rq)
  else w.

(** A request to [/mcp], with no other in between. The tools of a session run when its
    transport gets the request; the first request of a new session opens it and
    calls none. *)
Definition serve_mcp (e : Env) (rq : HttpReq) (s : Server T) : Served * Server T :=
  if negb (isAllowedOrigin URL (origin rq) (PUBLIC_URL st)) then (Status 403, s)
  else
    match McpSessions.dispatch (method (base rq)) (mcp_session_id rq) (mcp s) with
    | McpSessions.Waiting (McpSessions.WExisting sid) =>
        let claims := authenticateMcpRequest e rq (auth s) in
        let (r, m) := McpSessions.on_existing sid claims (now e) (mcp s) in
        let w := match r, claims with
                 | McpSessions.Handed, Some c => run_tools c rq (world s)
                 | _, _ => world s
                 end in
        (Mcp r, mkServer w (auth s) (limits s) m)
    | McpSessions.Waiting McpSessions.WNew =>
        let '(r, _, m) := McpSessions.on_new (authenticateMcpRequest e rq (auth s)) (mcp s) in
        (Mcp r, mkServer (world s) (auth s) (limits s) m)
    | r => (Mcp r, s)
    end.

(** The context of the REST handlers, with the organisation of the claims. *)
Definition rest_context (c : AuthClaims) : Handlers.RestContext :=
  Handlers.mkContext (a_org c) (AUTH_ENABLED st) (Handlers.cx_roots cx0) (Handlers.cx_node_env cx0)
    (Handlers.cx_allow_reset cx0) (Handlers.cx_working_ttl cx0) (Handlers.cx_mqtt cx0) (Handlers.cx_sha256 cx0)
    (Handlers.cx_extract cx0).

(** The last branch: everything else is authenticated first. *)
Definition serve_guarded (e : Env) (rq : HttpReq) (s : Server T) : Served * Server T :=
  match authenticateRequest cfg e (auth s) (AUTH_ENABLED st) (base rq) with
  | AuthNo status _ => (Status status, s)
  | AuthOk c =>
      if startsWith "/api/" (url (base rq)) && bool_decide (method (base rq) ∈ ["POST"; "GET"]) then
        match Handlers.handleRest (rest_context c)
                (Handlers.mkRequest (method (base rq)) (url (base rq)) (body rq) (agent_query rq) (since_query rq) (minutes_body rq)) with
        | None => (Unmodelled, s)
        | Some m => (Rest (result m (world s)), mkServer (run m (world s)) (auth s) (limits s) (mcp s))
        end
      else (Status 404, s)
  end.

Definition serve_page (rq : HttpReq) : Served :=
  match dashboardDir st with
  | None => Status 404
  | Some dir =>
      match dashboard_file dir (url (base rq)) with
      | Some f =>
          match lookup_file f with
          | RegularFile => Page f (isAdminAsset (before_query (url (base rq))))
          | Directory => Status 500
          | Missing => Status 404
          end
      | None => Status 404
      end
  end.

Definition createHttpHandler (e : Env) (p : Probes) (rq : HttpReq) (s : Server T) : Served * Server T :=
  match route_of (phase2Bootstrap st) (method (base rq)) (url (base rq)) with
  | RtPreflight => (Status (if isAllowedOrigin URL (origin rq) (PUBLIC_URL st) then 204 else 403), s)
  | RtAuth AtThrow => (Status 500, s)
  | RtAuth (AtNotAllowed _) => (Status 405, s)
  | RtAuth r => (AuthHandler r, s)
  | RtDashboard => (serve_page rq, s)
  | RtLivez | RtHealth | RtHealthz => (Status 200, s)
  | RtReadyz => (Status (handleReadyz p), s)
  | RtHealthReady => (Status (handleHealthReady p), s)
  | RtDiscovery => (Discovery, s)
  | RtMetrics =>
      if AUTH_ENABLED st then
        match authenticateRequest cfg e (auth s) true (base rq) with
        | AuthNo status _ => (Status status, s)
        | AuthOk _ => (MetricsText, s)
        end
      else (MetricsText, s)
  | RtAuthMetrics => (if metrics_allowed st rq then AuthMetricsText else Status 403, s)
  | RtEvents =>
      match authenticateRequest cfg e (auth s) (AUTH_ENABLED st) (base rq) with
      | AuthNo status _ => (Status status, s)
      | AuthOk c => (Events c, s)
      end
  | RtAuthApi =>
      if negb (AUTH_ENABLED st) && negb (String.eqb (url (base rq)) "/api/auth/refresh") then (Status 501, s)
      else handleAuth e rq s
  | RtMcp => serve_mcp e rq s
  | RtGuarded => serve_guarded e rq s
  end.
End server.
End HttpServer.
