(* ===== verification/HttpSafety.v ===== *)
(** * Safety of the HTTP server

    Nothing behind the router is reached without the claims of a verified
    credential, end to end down to the rows of the tenants; what a registration
    gives and takes; and what becomes of the revocation of agents when the routes
    of login are served. *)

From S2P Require Import Prelude Paths Database Registry Consultation Invariant Isolation Protocol Schemas Handlers.
From S2P Require Import RestSafety AuthState Rotation AuthInstances RateLimit Authenticate AuthTheorems Admin.
From S2P Require Import Bridge Tools ToolSafety HttpUtils McpSessions HttpServer.
Local Open Scope Z_scope.

Module HttpSafety.
Import Rotation Schemas Authenticate AuthTheorems Admin HttpUtils HttpServer.

Section safety.
Context `{Jose} `{RateLimiterOps T} (cfg : AuthConfig) (st : Settings) (URL : string → option Url)
  (lookup_file : string → FsEntry) (grace : Z) (cx0 : Handlers.RestContext).

Notation handler := (createHttpHandler cfg st URL lookup_file grace cx0).
Notation authenticated e rq s c := (authenticateRequest cfg e (auth s) true (base rq) = AuthOk c).

(** ** Complete mediation *)

(** The answers that show what is behind the router. *)
Definition protected (o : Served) : bool :=
  match o with
  | MetricsText | Events _ | AgentRevoked _ _ | Mcp McpSessions.Handed | Rest _ => true
  | _ => false
  end.

(** What the router reached for a request. *)
Definition reached (o : Served) (s s' : Server T) : Prop :=
  world s' ≠ world s ∨ auth s' ≠ auth s ∨ mcp s' ≠ mcp s ∨ protected o = true.

Lemma reached_same o s : reached o s s → protected o = true.
Proof. unfold reached. naive_solver. Qed.

Lemma mediated_auth e rq s o s' :
  AUTH_ENABLED st = true → handleAuth cfg st grace e rq s = (o, s') → reached o s s' → ∃ c, authenticated e rq s c.
Proof.
  intros Hen. unfold handleAuth. destruct (body rq) as [n|b]; [by intros [= <- <-] ?%reached_same|].
  destruct (String.eqb _ "/api/auth/register" && _).
  { destruct (register cfg st e rq b (limits s)) as [o' l] eqn:E. intros [= <- <-].
    intros [Hn|[Hn|[Hn|Hp]]]; [done..|]. exfalso. unfold register in E.
    destruct (rl_check _ _ _ _) as [[] l']; injection E as <- <-; [|done]. by repeat case_match. }
  destruct (String.eqb _ "/api/auth/refresh" && _).
  { intros [= <- <-] Hp%reached_same. unfold refresh in Hp. by repeat case_match. }
  destruct (String.eqb _ "/api/auth/revoke" && _); [|by intros [= <- <-] ?%reached_same].
  unfold revoke. rewrite Hen. destruct (authenticateRequest _ _ _ _ _) as [c|]; [eauto|].
  by intros [= <- <-] [Hn|[Hn|[Hn|Hp]]].
Qed.

Lemma mediated_mcp e rq s o s' :
  AUTH_ENABLED st = true → serve_mcp cfg st URL cx0 e rq s = (o, s') → reached o s s' → ∃ c, authenticated e rq s c.
Proof.
  intros Hen. unfold serve_mcp, authenticateMcpRequest. rewrite Hen.
  destruct (negb _); [by intros [= <- <-] ?%reached_same|].
  destruct (authenticateRequest _ _ _ _ _) as [c|]; [eauto|].
  assert (mkServer (world s) (auth s) (limits s) (mcp s) = s) as Es by by destruct s.
  unfold McpSessions.dispatch, McpSessions.on_existing, McpSessions.on_new.
  repeat case_match; intros [= <- <-]; rewrite ?Es; by intros ?%reached_same.
Qed.

Lemma guarded_claims e rq s o s' :
  AUTH_ENABLED st = true → serve_guarded cfg st cx0 e rq s = (o, s') → reached o s s' → ∃ c, authenticated e rq s c.
Proof.
  intros Hen. unfold serve_guarded. rewrite Hen. destruct (authenticateRequest _ _ _ _ _) as [c|]; [eauto|].
  by intros [= <- <-] ?%reached_same.
Qed.

Lemma mediated e p rq s o s' :
  AUTH_ENABLED st = true → handler e p rq s = (o, s') → reached o s s' → ∃ c, authenticated e rq s c.
Proof.
  intros Hen. unfold createHttpHandler, serve_page. rewrite Hen. cbn [negb andb].
  destruct (route_of _ _ _); eauto using mediated_auth, mediated_mcp, guarded_claims;
    repeat case_match; intros [= <- <-]; first [by intros ?%reached_same | eauto].
Qed.

Lemma auth_metrics e p rq s s' : handler e p rq s = (AuthMetricsText, s') →
  isLoopback (remoteAddress rq) = true
  ∨ ∃ t, METRICS_BEARER st = Some t ∧ t ≠ "" ∧ bearer (truthy (authorization (base rq))) = Some t.
Proof.
  intros Hh. assert (metrics_allowed st rq = true) as Hm.
  { revert Hh. unfold createHttpHandler, serve_page, handleAuth, register, refresh, revoke, serve_mcp, serve_guarded.
    destruct (route_of _ _ _); repeat case_match; intros [=]; simplify_eq; try done. all: repeat case_match; done. }
  unfold metrics_allowed in Hm. apply orb_true_iff in Hm as [Hm|Hm]; [by left|right].
  destruct (METRICS_BEARER st) as [t|]; [|done]. destruct t as [|a t]; [done|]. exists (String a t). split_and!; [done..|].
  cbn [truthy] in Hm. unfold timingSafeBearerMatch in Hm. destruct (bearer _) as [b|]; [|done].
  apply andb_true_iff in Hm as [_ ->%String.eqb_eq]. done.
Qed.

Lemma auth_handed e p rq s s' r : handler e p rq s = (AuthHandler r, s') →
  s' = s ∧ phase2Bootstrap st = true ∧ dispatchAuthRoutes (url (base rq)) (method (base rq)) = Some r.
Proof.
  unfold createHttpHandler. destruct (route_of _ _ _) eqn:Er;
    unfold serve_page, handleAuth, register, refresh, revoke, serve_mcp, serve_guarded;
    try (repeat case_match; intros [=]; simplify_eq; repeat case_match; done).
  intros Hh. assert (r0 = r ∧ s' = s) as [-> ->] by (destruct r0; first [discriminate Hh | by injection Hh as Hr Hs; subst]). split; [done|].
  unfold route_of in Er. destruct (String.eqb _ "OPTIONS"); [done|]. destruct (phase2Bootstrap st); [|by repeat case_match].
  split; [done|]. destruct (dispatchAuthRoutes _ _) as [x|]; [congruence|]. by repeat case_match.
Qed.

(** [C4] Complete mediation: with authentication enabled, a request that changes
    the coordination state, a session or the revocations, or is answered with
    the metrics of [/metrics], events, a tool call or a REST answer, presented a
    credential that was verified, of an agent that is not revoked and a role that is
    not the internal one, and the events it is given are those of these claims. The
    metrics of [/metrics/auth] are given to this machine or to the static token
    alone. The routes of login and administration are handed to their own handlers,
    which this router runs without a check. *)
Theorem complete_mediation (e : Env) (p : Probes) (rq : HttpReq) (s s' : Server T) (o : Served) :
  AUTH_ENABLED st = true → handler e p rq s = (o, s') →
  (reached o s s' →
   ∃ c, authenticated e rq s c ∧
     (effectiveAuthHeader (base rq) ≠ None ∨ session_cookie (base rq) ≠ None) ∧
     isRevoked (auth s) (a_org c) (a_sub c) = false ∧ a_role c ∈ ["admin"; "member"; "service"; "agent"] ∧
     (∀ c', o = Events c' → c' = c))
  ∧ (o = AuthMetricsText →
     isLoopback (remoteAddress rq) = true
     ∨ ∃ t, METRICS_BEARER st = Some t ∧ t ≠ "" ∧ bearer (truthy (authorization (base rq))) = Some t)
  ∧ (∀ r, o = AuthHandler r → s' = s ∧ phase2Bootstrap st = true ∧ dispatchAuthRoutes (url (base rq)) (method (base rq)) = Some r).
Proof.
  intros Hen Hh. split_and!.
  - intros Hr. destruct (mediated _ _ _ _ _ _ Hen Hh Hr) as [c Hc]. exists c.
    destruct (guards_hold _ _ _ _ _ Hc) as (H1 & H2 & H3 & _). split_and!; try done.
    intros c' ->. revert Hh. unfold createHttpHandler, serve_page. rewrite Hen. cbn [negb andb].
    destruct (route_of _ _ _); unfold handleAuth, register, refresh, revoke, serve_mcp, serve_guarded; rewrite ?Hen, ?Hc;
      repeat case_match; intros [=]; congruence.
  - intros ->. by apply auth_metrics in Hh.
  - intros r ->. by apply auth_handed in Hh.
Qed.

(** ** Tenants, end to end *)

(** The request the REST handlers are given. *)
Definition rest_request (rq : HttpReq) : Handlers.Request :=
  Handlers.mkRequest (method (base rq)) (url (base rq)) (body rq) (agent_query rq) (since_query rq) (minutes_body rq).

(** The REST handlers and the tools change the coordination state, in the organisation
    of the claims. *)
Lemma world_changes e p rq s o s' :
  handler e p rq s = (o, s') → world s' ≠ world s →
  (∃ c m, authenticateRequest cfg e (auth s) (AUTH_ENABLED st) (base rq) = AuthOk c ∧
     Handlers.handleRest (rest_context st cx0 c) (rest_request rq) = Some m ∧ world s' = run m (world s))
  ∨ (∃ c, authenticateMcpRequest cfg st e rq (auth s) = Some c ∧ world s' = run_tools cx0 c rq (world s)).
Proof.
  unfold createHttpHandler, handleAuth, serve_mcp, serve_guarded, rest_request.
  destruct (route_of _ _ _); repeat case_match; intros [= <- <-]; try done; eauto 10.
Qed.

Lemma tools_isolate c rq other w : a_org c ≠ other → Invariant.wf (w_db w) →
  Isolation.tenant other (w_db (run_tools cx0 c rq w)) = Isolation.tenant other (w_db w).
Proof.
  intros Hne. unfold run_tools. destruct (String.eqb _ _); [|done]. revert w.
  induction (tool_calls rq) as [|t l IH]; intros w Hwf; [done|]. cbn [foldl].
  destruct (ToolSafety.isolated_call _ _ Hne (Handlers.cx_roots cx0) (Some c) t) with w as (Hwf' & Et & _);
    [by intros ? [= <-]|done|]. by rewrite IH.
Qed.

Lemma route_reset m u : Handlers.route m u = inr Handlers.EpReset → u = "/api/reset".
Proof.
  unfold Handlers.route. destruct (map_get u Handlers.ROUTES) as [ep|] eqn:Er.
  - case_match; [done|]. intros [= ->]. apply fmap_Some in Er as (q & Hq & ?). apply select_one_Some in Hq as [<- Hq].
    unfold Handlers.ROUTES in Hq. rewrite !elem_of_cons in Hq. repeat destruct Hq as [-> | Hq]; try done.
    by apply not_elem_of_nil in Hq.
  - destruct (map_get _ Handlers.METHOD_ROUTES) as [ep|] eqn:Em.
    + intros [= ->]. apply fmap_Some in Em as (q & Hq & ?). apply select_one_Some in Hq as [_ Hq].
      unfold Handlers.METHOD_ROUTES in Hq. rewrite !elem_of_cons in Hq. repeat destruct Hq as [-> | Hq]; try done.
      by apply not_elem_of_nil in Hq.
    + unfold Handlers.prefix_route. repeat case_match; naive_solver.
Qed.

(** [C3] Tenants, from the socket to the rows: with authentication enabled and
    well-formed tables, the rows of an organisation, in any table, change only by a
    request whose verified credential names that organisation and an agent that is
    not revoked, or by the reset of an administrator; whatever the method, the URL,
    the headers and the body, REST calls and calls of tools alike (and the rows of
    [layer_firings] of [default] apart, as in [Isolation.tenant]). *)
Theorem http_tenant_isolation (e : Env) (p : Probes) (rq : HttpReq) (s s' : Server T) (o : Served) (other : string) :
  AUTH_ENABLED st = true → Invariant.wf (w_db (world s)) → handler e p rq s = (o, s') →
  Isolation.tenant other (w_db (world s')) ≠ Isolation.tenant other (w_db (world s)) →
  ∃ c, authenticated e rq s c ∧ isRevoked (auth s) (a_org c) (a_sub c) = false ∧
    (a_org c = other ∨ a_role c = "admin" ∧ url (base rq) = "/api/reset").
Proof.
  intros Hen Hwf Hh Hne. destruct (world_changes _ _ _ _ _ _ Hh) as [(c & m & Hc & Hm & Ew)|(c & Hc & Ew)]; [congruence|..].
  - rewrite Hen in Hc. destruct (guards_hold _ _ _ _ _ Hc) as (_ & Hrev & _ & Hadm). exists c.
    split_and!; [done..|]. destruct (decide (a_org c = other)) as [|Ho]; [by left|right].
    enough (Handlers.route (method (base rq)) (url (base rq)) = inr Handlers.EpReset) as Hr%route_reset.
    { rewrite Hr in *. split; [|done]. apply Hadm. by apply (bool_decide_unpack _). }
    destruct (Handlers.route (method (base rq)) (url (base rq))) as [n|ep] eqn:Er; [|destruct ep]; try done; exfalso;
      apply Hne; rewrite Ew;
      destruct (RestSafety.rest_isolates (rest_context st cx0 c) (rest_request rq) m (world s) other) as (_ & ? & _);
      try done; cbn; congruence.
  - unfold authenticateMcpRequest in Hc. rewrite Hen in Hc.
    destruct (authenticateRequest _ _ _ _ _) as [c'|] eqn:Ha; [|done]. injection Hc as ->.
    destruct (guards_hold _ _ _ _ _ Ha) as (_ & Hrev & _ & _). exists c. split_and!; [done..|].
    destruct (decide (a_org c = other)) as [|Ho]; [by left|]. exfalso. apply Hne. rewrite Ew. by apply tools_isolate.
Qed.

(** ** Revocation of agents *)

Lemma isRevoked_revoke org a s : isRevoked (revokeAgent org a s) org a = true.
Proof.
  unfold isRevoked at 1, revokeAgent. apply bool_decide_eq_true. cbn. destruct (isRevoked s org a) eqn:E.
  - by apply bool_decide_eq_true in E.
  - apply elem_of_app. right. left.
Qed.

(** How an agent is revoked. *)
Lemma revoked_answer e p rq s s' a b :
  handler e p rq s = (AgentRevoked a b, s') →
  url (base rq) = "/api/auth/revoke" ∧ method (base rq) = "POST" ∧
  route_of (phase2Bootstrap st) (method (base rq)) (url (base rq)) = RtAuthApi ∧
  ∃ c, authenticateRequest cfg e (auth s) (AUTH_ENABLED st) (base rq) = AuthOk c ∧ b = a_sub c ∧
    auth s' = revokeAgent (a_org c) a (auth s).
Proof.
  unfold createHttpHandler, serve_page, serve_mcp, serve_guarded.
  destruct (route_of _ _ _); repeat case_match; try (intros [=]; done).
  all: unfold handleAuth; destruct (body rq) as [|bd]; [intros [=]; done|].
  all: destruct (String.eqb _ "/api/auth/register" && _);
    [unfold register; repeat case_match; intros [=]; simplify_eq; repeat case_match; done|].
  all: destruct (String.eqb _ "/api/auth/refresh" && _); [unfold refresh; repeat case_match; intros [=]; done|].
  all: destruct (String.eqb _ "/api/auth/revoke" && _) eqn:E; [|intros [=]; done].
  all: apply andb_true_iff in E as [Eu%String.eqb_eq Em%String.eqb_eq]; unfold revoke;
    destruct (authenticateRequest _ _ _ _ _) as [c|]; [|intros [=]; done];
    repeat case_match; intros [=]; simplify_eq; eauto 10.
Qed.

(** A request that revokes an agent came from an administrator, and from
    then on no request is authenticated as that agent in that organisation,
    whatever token it shows. *)
Theorem revoked_agent_shut_out (e : Env) (p : Probes) (rq : HttpReq) (s s' : Server T) (a b : string) :
  AUTH_ENABLED st = true → handler e p rq s = (AgentRevoked a b, s') →
  ∃ c, authenticated e rq s c ∧ a_role c = "admin" ∧ b = a_sub c ∧
    ∀ e' req c', authenticateRequest cfg e' (auth s') true req = AuthOk c' → ¬ (a_org c' = a_org c ∧ a_sub c' = a).
Proof.
  intros Hen (Eu & _ & _ & c & Hc & -> & Es)%revoked_answer. rewrite Hen in Hc. exists c.
  destruct (guards_hold _ _ _ _ _ Hc) as (_ & _ & _ & Hadm). split_and!; try done.
  - apply Hadm. rewrite Eu. by apply (bool_decide_unpack _).
  - intros e' req c' Hc' [Eo Ea]. destruct (guards_hold _ _ _ _ _ Hc') as (_ & Hr & _ & _).
    rewrite Eo, Ea, Es, isRevoked_revoke in Hr. done.
Qed.

(** Revoking a session keeps the revoked agents. *)
Lemma revokeEndpoint_agents e s req j : revoked_agents (revokeEndpoint cfg e s req j).2 = revoked_agents s.
Proof.
  unfold revokeEndpoint. destruct (authenticateRequest _ _ _ _ _) as [c|]; [|done].
  unfold handleRevoke, run_seg, revoke_row, audit, fmod, fbind, fgets, fret. repeat case_match; by simplify_eq.
Qed.

(** When the routes of login are served, no agent can be revoked any more:
    [POST /api/auth/revoke] belongs to the revocation of sessions, which leaves
    the revoked agents alone, and no other request reaches [revokeAgent]. *)
Theorem agent_revocation_lost :
  phase2Bootstrap st = true →
  (∀ e p rq s a b, (handler e p rq s).1 ≠ AgentRevoked a b) ∧
  (∀ rq, method (base rq) = "POST" → url (base rq) = "/api/auth/revoke" →
     ∀ e p s, handler e p rq s = (AuthHandler AtRevoke, s)) ∧
  (∀ e s req j, revoked_agents (revokeEndpoint cfg e s req j).2 = revoked_agents s).
Proof.
  intros H2. split_and!; [|intros rq Em Eu e p s; unfold createHttpHandler; by rewrite H2, Em, Eu|apply revokeEndpoint_agents].
  intros e p rq s a b Ha. destruct (handler e p rq s) as [o s'] eqn:E. cbn in Ha. subst o.
  apply revoked_answer in E as (Eu & Em & Er & _). by rewrite H2, Eu, Em in Er.
Qed.

(** ** Registration *)

Lemma registered_answer e p rq s s' id j :
  handler e p rq s = (Registered id j, s') →
  AUTH_ENABLED st = true ∧
  ∃ b l, body rq = inr b ∧ register cfg st e rq b (limits s) = (Registered id j, l) ∧
    s' = mkServer (world s) (auth s) l (mcp s).
Proof.
  unfold createHttpHandler, serve_page, serve_mcp, serve_guarded.
  destruct (route_of _ _ _); repeat case_match; try (intros [=]; done).
  all: unfold handleAuth; destruct (body rq) as [|bd]; [intros [=]; done|].
  all: destruct (String.eqb _ "/api/auth/register" && _) eqn:E;
    [|unfold refresh, revoke; repeat case_match; intros [=]; simplify_eq].
  destruct (register cfg st e rq bd (limits s)) as [o l] eqn:Er. intros [= -> <-].
  destruct (AUTH_ENABLED st); [eauto 10|]. apply andb_true_iff in E as [Eu%String.eqb_eq _]. by rewrite Eu in *.
Qed.

(** The secret that gives a role. *)
Lemma registration_role_ok v role :
  registration_role st v = inr role →
  ∃ secret, v = VStr secret ∧
    (role = "admin" ∧ secret = ADMIN_SECRET st ∨
     role = "agent" ∧ secret = REGISTRATION_SECRET st ∧ secret ≠ ADMIN_SECRET st).
Proof.
  unfold registration_role, safeEqual_json. destruct v as [| | |secret| |]; try done. intros Hr.
  exists secret. split; [done|].
  destruct (safeEqual secret (ADMIN_SECRET st)) as [r|] eqn:Ea; [|done]. apply safeEqual_spec in Ea.
  destruct r; [injection Hr as <-; left; naive_solver|].
  destruct (safeEqual secret (REGISTRATION_SECRET st)) as [r|] eqn:Eb; [|done]. apply safeEqual_spec in Eb.
  destruct r; [injection Hr as <-; right; naive_solver|done].
Qed.

(** A token of a registration, shown again. *)
Lemma created_authenticates e id role e' sa req :
  id ≠ "" → role ∈ ["admin"; "agent"] → authorization req = Some ("Bearer " +:+ sign (signingKey cfg) (createToken cfg e id role None None)) →
  now e' < now e + defaultExpiry cfg → isRevoked sa "default" id = false →
  (path_only (url req) ∈ ADMIN_ONLY_ROUTES → role = "admin") →
  ∃ c, authenticateRequest cfg e' sa true req = AuthOk c ∧ a_sub c = id ∧ a_org c = "default" ∧ a_role c = role.
Proof.
  intros Hid Hrole Ha Hx Hrev Hadm. set (tok := sign _ _) in *.
  assert (effectiveAuthHeader req = Some ("Bearer " +:+ tok)) as Eh by (unfold effectiveAuthHeader; by rewrite Ha).
  assert (bearer (Some ("Bearer " +:+ tok)) = Some tok) as Eb.
  { unfold bearer. cbn [mbind option_bind]. rewrite (proj2 (Paths.startsWith_spec "Bearer " _)) by eauto.
    f_equal. exact (Paths.slice_app "Bearer " tok). }
  assert (hasKidHeader tok = false) as Hk.
  { unfold hasKidHeader, tok. by rewrite kid_sign. }
  assert (verify_bearer cfg e' sa true tok = AuthOk (claims1 e' (createToken cfg e id role None None) id role)) as Hv.
  { unfold verify_bearer, verifyTokenStrict, verify_two_keys, jwtVerify_key, tok. rewrite open_sign. cbn [exp createToken].
    rewrite bool_decide_eq_false_2 by lia. change (sub (createToken cfg e id role None None)) with (Some id). rewrite truthy_Some by done.
    rewrite !elem_of_cons in Hrole. by destruct Hrole as [-> |[-> |?%not_elem_of_nil]]. }
  exists (claims1 e' (createToken cfg e id role None None) id role). split_and!; try done.
  unfold authenticateRequest. rewrite Eh, Eb, Hk, Hv. assert (applyRouteGuards sa (AuthOk (claims1 e' (createToken cfg e id role None None) id role)) req
    = AuthOk (claims1 e' (createToken cfg e id role None None) id role)) as ->.
  { unfold applyRouteGuards. cbn [a_org a_sub a_role claims1 j_org createToken]. change (default _ _) with "default". rewrite Hrev.
    destruct (bool_decide (path_only _ ∈ _)) eqn:Ep; [|done]. apply bool_decide_eq_true in Ep. by rewrite (Hadm Ep). }
  by destruct (phase2 cfg) as [[]|].
Qed.

(** A registration: the answer of a token means that the limiter let this
    address through and that the body carries the administration secret, for an
    administrator, or the registration secret and not the administration one, for
    an agent, neither of them empty. The token, shown within its life time, is
    authenticated as the new agent with that role in the organisation [default],
    on every route its role allows, until the agent is revoked. *)
Theorem registration_spec (e : Env) (p : Probes) (rq : HttpReq) (s s' : Server T) (id : string) (j : Jwt) :
  draw e 1 ≠ "" → handler e p rq s = (Registered id j, s') →
  ∃ b secret role, body rq = inr b ∧ field "registration_secret" b = Some (VStr secret) ∧ secret ≠ "" ∧
    (role = "admin" ∧ secret = ADMIN_SECRET st ∨
     role = "agent" ∧ secret = REGISTRATION_SECRET st ∧ secret ≠ ADMIN_SECRET st) ∧
    let ip := default "unknown" (truthy (remoteAddress rq)) in
    let r := rl_check (now e) ("register:" +:+ ip) (REGISTER_RATE_LIMIT_CONFIG st) (limits s) in
    allowed r.1 = true ∧ s' = mkServer (world s) (auth s) r.2 (mcp s) ∧
    ∀ e' sa req, authorization req = Some ("Bearer " +:+ sign (signingKey cfg) j) →
      now e' < now e + defaultExpiry cfg → isRevoked sa "default" id = false →
      (path_only (url req) ∈ ADMIN_ONLY_ROUTES → role = "admin") →
      ∃ c, authenticateRequest cfg e' sa true req = AuthOk c ∧ a_sub c = id ∧ a_org c = "default" ∧ a_role c = role.
Proof.
  intros Hid (_ & b & l & Hb & Hr & ->)%registered_answer. unfold register in Hr.
  destruct (rl_check _ _ _ _) as [[] l'] eqn:El; [|done]. injection Hr as Hr ->.
  assert (∃ v, text_field "registration_secret" b = Some (Some v) ∧
    match registration_role st v with inl n => Status n
    | inr role => Registered (draw e 1) (createToken cfg e (draw e 1) role None None) end = Registered id j) as (v & Hv & Hj)
    by (destruct b; [done|..]; destruct (text_field "agent_name" _) as [[]|];
        destruct (text_field "registration_secret" _) as [[]|]; try done; eauto).
  destruct (registration_role st v) as [|role] eqn:Ero; [done|]. injection Hj as <- <-.
  apply registration_role_ok in Ero as (secret & -> & Hsec). exists b, secret, role.
  assert (role ∈ ["admin"; "agent"]) as Hrole by set_solver.
  assert (field "registration_secret" b = Some (VStr secret) ∧ secret ≠ "") as [Hf Hne].
  { unfold text_field in Hv. repeat case_match; by simplify_eq. }
  cbn zeta. rewrite El. split_and!; try done. intros e' sa req. by apply created_authenticates.
Qed.
End safety.

(** ** Witnesses *)

Import AuthInstances RateLimiter.

Definition phase1 : AuthConfig := mkAuthConfig "key" None 86400 None.
Definition open_to (login : bool) : Settings :=
  mkSettings true None None "join" "root" (mkConfig 10 60) login (Some "/srv").
Definition no_url (_ : string) : option Url := None.
Definition no_file (_ : string) : FsEntry := Missing.
Definition fine : Probes := mkProbes true true false None.
Definition two : Server (gmap string BucketState) :=
  mkServer Isolation.two_tenants (mkAuth [] [] [] [] [] [] (mkFloor 0 ∅) [] []) ∅ McpSessions.init.
Definition token_of (org role : string) : string :=
  sign "key" (createToken phase1 (env 10) "bot" role (Some "u1") (Some org)).
Definition post (t u : string) (b : json) : HttpReq :=
  mkHttp (mkRequest "POST" u (Some ("Bearer " +:+ t)) None None) None None (inr b) "" "" 0 [] (Some "10.0.0.1").
Definition serve_demo (login : bool) := createHttpHandler phase1 (open_to login) no_url no_file 0 (RestSafety.demo_context "").

Definition stop_b : HttpReq := post (token_of "b" "agent") "/api/session-stop" (VObj [("agent_id", VStr "builder")]).
Definition revoke_bot : HttpReq := post (token_of "b" "admin") "/api/auth/revoke" (VObj [("agent_id", VStr "bot2")]).
Definition enrol : HttpReq :=
  post "" "/api/auth/register" (VObj [("agent_name", VStr "n"); ("registration_secret", VStr "join")]).

Lemma two_wf : Invariant.wf (w_db (world two)).
Proof.
  apply (Invariant.rtc_wf (Invariant.initial ["a"; "b"] 1700000000000 EnvUnset Invariant.uuid_of));
    [apply Invariant.rtc_run_ops|apply Invariant.wf_empty].
Qed.

Lemma complete_mediation_witness :
  ∃ c, authenticateRequest phase1 (env 20) (auth two) true (base stop_b) = AuthOk c ∧ a_org c = "b".
Proof.
  destruct (complete_mediation phase1 (open_to false) no_url no_file 0 (RestSafety.demo_context "") (env 20) fine stop_b
    two (serve_demo false (env 20) fine stop_b two).2 (serve_demo false (env 20) fine stop_b two).1) as (Hm & _).
  - reflexivity.
  - apply surjective_pairing.
  - destruct Hm as (c & Hc & _); [right; right; right; vm_compute; reflexivity|]. exists c. split; [exact Hc|]. vm_compute in Hc. injection Hc as <-. reflexivity.
Defined.

Lemma http_tenant_isolation_witness :
  ∃ c, authenticateRequest phase1 (env 20) (auth two) true (base stop_b) = AuthOk c ∧ a_org c = "b".
Proof.
  destruct (http_tenant_isolation phase1 (open_to false) no_url no_file 0 (RestSafety.demo_context "") (env 20) fine stop_b
    two (serve_demo false (env 20) fine stop_b two).2 (serve_demo false (env 20) fine stop_b two).1 "b")
    as (c & Hc & _ & Ho).
  - reflexivity.
  - exact two_wf.
  - apply surjective_pairing.
  - vm_compute. discriminate.
  - exists c. split; [exact Hc|]. destruct Ho as [Ho|[_ Hu]]; [exact Ho|discriminate].
Defined.

Lemma revoked_agent_shut_out_witness :
  ∃ s', serve_demo false (env 20) fine revoke_bot two = (AgentRevoked "bot2" "bot", s') ∧
    isRevoked (auth s') "b" "bot2" = true ∧
    ∀ req c', authenticateRequest phase1 (env 30) (auth s') true req = AuthOk c' → ¬ (a_org c' = "b" ∧ a_sub c' = "bot2").
Proof.
  exists (serve_demo false (env 20) fine revoke_bot two).2.
  split; [vm_compute; reflexivity|]. split; [vm_compute; reflexivity|].
  destruct (revoked_agent_shut_out phase1 (open_to false) no_url no_file 0 (RestSafety.demo_context "") (env 20) fine
    revoke_bot two (serve_demo false (env 20) fine revoke_bot two).2 "bot2" "bot") as (c & Hc & _ & _ & Hs).
  - reflexivity.
  - vm_compute. reflexivity.
  - intros req c' Hr. specialize (Hs (env 30) req c' Hr). vm_compute in Hc. injection Hc as <-. exact Hs.
Defined.

Lemma agent_revocation_lost_witness :
  serve_demo true (env 20) fine revoke_bot two = (AuthHandler AtRevoke, two).
Proof.
  destruct (agent_revocation_lost phase1 (open_to true) no_url no_file 0 (RestSafety.demo_context "") (T := gmap string BucketState))
    as (_ & Hr & _); [reflexivity|].
  apply (Hr revoke_bot); reflexivity.
Defined.

Lemma registration_spec_witness :
  ∃ s' j, serve_demo false (env 20) fine enrol two = (Registered "id1" j, s') ∧
    ∃ c, authenticateRequest phase1 (env 30) (auth s') true (get_with (sign "key" j) "/api/agents") = AuthOk c ∧
      a_sub c = "id1" ∧ a_role c = "agent".
Proof.
  exists (serve_demo false (env 20) fine enrol two).2, (createToken phase1 (env 20) "id1" "agent" None None).
  split; [vm_compute; reflexivity|].
  destruct (registration_spec phase1 (open_to false) no_url no_file 0 (RestSafety.demo_context "") (env 20) fine enrol two
    (serve_demo false (env 20) fine enrol two).2 "id1" (createToken phase1 (env 20) "id1" "agent" None None))
    as (b & secret & role & _ & _ & _ & Hrole & _ & _ & Hc).
  - discriminate.
  - vm_compute. reflexivity.
  - destruct (Hc (env 30) (auth (serve_demo false (env 20) fine enrol two).2)
      (get_with (sign "key" (createToken phase1 (env 20) "id1" "agent" None None)) "/api/agents")) as (c & Ha & Hs & _ & Er).
    + reflexivity.
    + reflexivity.
    + vm_compute. reflexivity.
    + intros Hin. exfalso. vm_compute in Hin. repeat (apply elem_of_cons in Hin as [Hin|Hin]; [discriminate|]).
      by apply not_elem_of_nil in Hin.
    + exists c. split; [exact Ha|]. split; [exact Hs|]. vm_compute in Ha. injection Ha as <-. reflexivity.
Defined.
End HttpSafety.
