(* ===== verification/QuotaCache.v ===== *)
(** * Quota of the model provider ([src/quota/quota.ts], [src/quota/quota-cache.ts])

    A cache in front of a remote usage API: readers share one fetch, a refusal
    for too many requests is followed by a pause, and a timer keeps the cache warm
    while agents are online. A fetch is a wait: between its start and its answer
    the other calls run. *)

From S2P Require Import Prelude.
From Stdlib Require Import QArith.
Local Open Scope Z_scope.

Module QuotaCache.

(** ** The answer of the usage API *)

Inductive value := VNumber (q : Q) | VString (s : string) | VObject (l : jsmap value) | VArray | VNull | VBoolean (b : bool).

Record QuotaBucket := mkBucket { utilization : Q; resetsAt : string; minutesUntilReset : Z }.

Record QuotaInfo := mkInfo {
  fiveHour : QuotaBucket;
  sevenDay : QuotaBucket;
  sevenDaySonnet : option QuotaBucket;
  fetchedAt : Z
}.

Section parse.
Context (parse_date : string → option Z).

(** [Math.round] rounds halves up. *)
Definition minutesUntil (now : Z) (iso8601 : string) : Z :=
  match parse_date iso8601 with
  | None => 0
  | Some t => (t - now + 30000) / 60000
  end.

(** The fields of an object; an array has none of those read. *)
Definition fields (v : option value) : option (jsmap value) :=
  match v with Some (VObject l) => Some l | Some VArray => Some [] | _ => None end.

Definition parseBucket (now : Z) (rec_ : jsmap value) (key : string) : string + QuotaBucket :=
  match fields (map_get key rec_) with
  | None => inl "missing or not an object"
  | Some bucket =>
      match map_get "utilization" bucket with
      | Some (VNumber u) =>
          match map_get "resets_at" bucket with
          | Some (VString r) => inr (mkBucket u r (minutesUntil now r))
          | _ => inl "resets_at missing or non-string"
          end
      | _ => inl "utilization missing or non-numeric"
      end
  end.

Definition parseUsageResponse (now : Z) (payload : value) : string + QuotaInfo :=
  match fields (Some payload) with
  | None => inl "usage API body is not an object"
  | Some rec_ =>
      match parseBucket now rec_ "five_hour" with
      | inl e => inl e
      | inr five =>
          match parseBucket now rec_ "seven_day" with
          | inl e => inl e
          | inr seven =>
              inr (mkInfo five seven
                     (match parseBucket now rec_ "seven_day_sonnet" with inr b => Some b | inl _ => None end) now)
          end
      end
  end.

(** What the reader of the credential and [fetch] give; [retry_after] is the header
    of that name when [Number] finds whole seconds in it, nothing when it is not a
    finite number. *)
Inductive Answer :=
  | NoCredential (message : string)
  | Unreachable (message : string)
  | Refused (status : Z) (retry_after : option Z)
  | NotJson (message : string)
  | Payload (v : value).

Record Failure := mkFailure { message : string; httpStatus : option Z; retryAfterSeconds : option Z }.

Definition fetchQuotaFromAnthropic (now : Z) (a : Answer) : Failure + QuotaInfo :=
  match a with
  | NoCredential m => inl (mkFailure ("cannot read OAuth token: " +:+ m) None None)
  | Unreachable m => inl (mkFailure ("cannot reach Anthropic usage API: " +:+ m) None None)
  | Refused st ra => inl (mkFailure ("usage API returned HTTP " +:+ pretty st) (Some st) ra)
  | NotJson m => inl (mkFailure ("usage API returned non-JSON body: " +:+ m) None None)
  | Payload v => match parseUsageResponse now v with inl e => inl (mkFailure e None None) | inr i => inr i end
  end.
End parse.

(** ** The cache *)

Definition DEFAULT_TTL_MS : Z := 120000.
Definition DEFAULT_429_COOLDOWN_MS : Z := 300000.
Definition MIN_429_COOLDOWN_MS : Z := 60000.

(** [inFlight] is the promise of the fetch that is under way; [timer] the
    interval of the background refresh. *)
Record Cache := mkCache {
  info : option QuotaInfo;
  lastError : option string;
  inFlight : bool;
  activeAgents : nat;
  timer : bool;
  cooldownUntil : Z
}.

Definition empty : Cache := mkCache None None false O false 0.

Definition isFresh (i : option QuotaInfo) (ttl now : Z) : bool :=
  match i with None => false | Some i => bool_decide (now - fetchedAt i < ttl) end.

(** What a caller of [refresh] or [get] gets: a value at once, or the result of
    the fetch under way, which it may have started. *)
Inductive Reply := Value (i : option QuotaInfo) | Shared | Started.

Definition refresh (now : Z) (s : Cache) : Reply * Cache :=
  if bool_decide (now < cooldownUntil s) then (Value (info s), s)
  else if inFlight s then (Shared, s)
  else (Started, mkCache (info s) (lastError s) true (activeAgents s) (timer s) (cooldownUntil s)).

Definition get (ttl now : Z) (s : Cache) : Reply * Cache :=
  if isFresh (info s) ttl now then (Value (info s), s) else refresh now s.

(** The pause after a refusal: at least a minute. *)
Definition cooldownMs (f : Failure) : Z :=
  match retryAfterSeconds f with Some n => n * 1000 | None => DEFAULT_429_COOLDOWN_MS end `max` MIN_429_COOLDOWN_MS.

(** The end of [doRefresh], with the value every caller that shares it gets;
    what the callback is told is the value. *)
Definition doRefresh (now : Z) (r : Failure + QuotaInfo) (s : Cache) : option QuotaInfo * Cache :=
  match r with
  | inr i => (Some i, mkCache (Some i) None false (activeAgents s) (timer s) 0)
  | inl f =>
      (None, mkCache (info s) (Some (message f)) false (activeAgents s) (timer s)
               (if decide (httpStatus f = Some 429) then now + cooldownMs f else cooldownUntil s))
  end.

Definition startBackgroundTick (now : Z) (s : Cache) : Cache :=
  let s := (refresh now s).2 in
  mkCache (info s) (lastError s) (inFlight s) (activeAgents s) true (cooldownUntil s).

Definition stopBackgroundTick (s : Cache) : Cache :=
  mkCache (info s) (lastError s) (inFlight s) (activeAgents s) false (cooldownUntil s).

Definition with_agents (n : nat) (s : Cache) : Cache :=
  mkCache (info s) (lastError s) (inFlight s) n (timer s) (cooldownUntil s).

Definition onAgentActive (now : Z) (s : Cache) : Cache :=
  let s := with_agents (S (activeAgents s)) s in
  if timer s then s else startBackgroundTick now s.

Definition onAgentInactive (s : Cache) : Cache :=
  let s := with_agents (pred (activeAgents s)) s in
  if decide (activeAgents s = O) then stopBackgroundTick s else s.

(** The body of the interval. *)
Definition tick (now : Z) (s : Cache) : Cache :=
  if timer s && negb (bool_decide (activeAgents s = O)) then (refresh now s).2 else s.

Record Status := mkStatus {
  st_info : option QuotaInfo; unavailable : bool; st_error : option string; st_active : nat; st_cooldown : option Z }.

Definition snapshot (now : Z) (s : Cache) : Status :=
  mkStatus (info s) (bool_decide (info s = None ∧ lastError s ≠ None)) (lastError s) (activeAgents s)
    (if bool_decide (now < cooldownUntil s) then Some (cooldownUntil s) else None).

(** The listener of the composition root, on the events of the organisation [default]. *)
Definition on_event (now : Z) (type : string) (s : Cache) : Cache :=
  if String.eqb type "agent_online" then onAgentActive now s
  else if String.eqb type "agent_offline" then onAgentInactive s
  else s.

(** [handleQuota] and [handleQuotaRefresh], once the value is there. *)
Definition quota_status (i : option QuotaInfo) : Z := match i with None => 503 | Some _ => 200 end.

Inductive QuotaBody :=
  | Unavailable (reason : option string) (cooldown_until : option Z) (unsupported_platform : option bool)
  | Quota (five_hour seven_day : QuotaBucket) (seven_day_sonnet : option QuotaBucket) (fetched_at : Z).

(** The answer; [handleQuotaRefresh] does not tell the platform. *)
Definition quota_body (unsupported : option bool) (now : Z) (i : option QuotaInfo) (s : Cache) : QuotaBody :=
  match i with
  | None => Unavailable (st_error (snapshot now s)) (st_cooldown (snapshot now s)) unsupported
  | Some i => Quota (fiveHour i) (sevenDay i) (sevenDaySonnet i) (fetchedAt i)
  end.

(** ** The credential *)

Definition isCredentialReaderSupported (platform : string) : bool := String.eqb platform "darwin".

Definition handleQuota (platform : string) (now : Z) (i : option QuotaInfo) (s : Cache) : Z * QuotaBody :=
  (quota_status i, quota_body (Some (negb (isCredentialReaderSupported platform))) now i s).
Definition handleQuotaRefresh (now : Z) (i : option QuotaInfo) (s : Cache) : Z * QuotaBody :=
  (quota_status i, quota_body None now i s).

(** An array has none of the fields read. *)
Definition extractAccessToken (parsed : value) : option string :=
  oauth ← fields (Some parsed) ≫= map_get "claudeAiOauth";
  token ← fields (Some oauth) ≫= map_get "accessToken";
  match token with VString t => truthy (Some t) | _ => None end.

(** [security find-generic-password] fails, or prints a text; [parse] is
    [JSON.parse] and [trim] that of strings. *)
Definition readClaudeOAuthToken (trim : string → string) (parse : string → option value) (platform : string)
    (stdout : option string) : string + string :=
  if isCredentialReaderSupported platform then
    match stdout with
    | None => inl "security CLI failed"
    | Some out =>
        if String.eqb (trim out) "" then inl "Keychain returned empty credential blob"
        else match parse (trim out) with
             | None => inl "Keychain credential is not valid JSON"
             | Some v => match extractAccessToken v with
                         | Some t => inr t
                         | None => inl "claudeAiOauth.accessToken missing or empty"
                         end
             end
    end
  else inl "not implemented".

(** ** Runs *)

Inductive Op := Get | Refresh | Online | Offline | Other (type : string) | Tick | Stop | Answered (r : Failure + QuotaInfo).

(** One call, with what the remote API sees of it. *)
Inductive Seen := Asked | Told (r : Failure + QuotaInfo).

Definition exec (ttl now : Z) (o : Op) (s : Cache) : Cache :=
  match o with
  | Get => (get ttl now s).2
  | Refresh => (refresh now s).2
  | Online => on_event now "agent_online" s
  | Offline => on_event now "agent_offline" s
  | Other t => on_event now t s
  | Tick => tick now s
  | Stop => stopBackgroundTick s
  | Answered r => (doRefresh now r s).2
  end.

(** A trace, newest first: a fetch is asked when a call puts one under way. *)
Definition seen (o : Op) (s s' : Cache) : list Seen :=
  match o with
  | Answered r => [Told r]
  | _ => if negb (inFlight s) && inFlight s' then [Asked] else []
  end.

Inductive step (ttl : Z) : Z * Cache * list (Z * Seen) → Z * Cache * list (Z * Seen) → Prop :=
  | S_exec now now' o s l :
      now ≤ now' → (∀ r, o = Answered r → inFlight s = true) →
      step ttl (now, s, l)
        (now', exec ttl now' o s, (pair now' <$> seen o s (exec ttl now' o s)) ++ l).

(** ** One fetch, and pauses *)

Definition is_asked (e : Z * Seen) : bool := match e.2 with Asked => true | Told _ => false end.
Definition asked (l : list (Z * Seen)) : nat := length (List.filter is_asked l).
Definition told (l : list (Z * Seen)) : nat := length (List.filter (λ e, negb (is_asked e)) l).

(** The pause that a refusal at [t] asks for. *)
Definition pause (f : Failure) (t : Z) : Z := t + cooldownMs f.

Definition refusal (f : Failure) : Prop := httpStatus f = Some 429.

(** A call that is not an answer keeps what the last answer left, and asks only
    when nothing is under way and no pause is. *)
Record quiet (now : Z) (s s' : Cache) : Prop := {
  q_info : info s' = info s;
  q_cooldown : cooldownUntil s' = cooldownUntil s;
  q_flight : inFlight s' = inFlight s ∨ inFlight s = false ∧ inFlight s' = true ∧ cooldownUntil s ≤ now
}.

Lemma quiet_refl now s s' :
  info s' = info s → cooldownUntil s' = cooldownUntil s → inFlight s' = inFlight s → quiet now s s'.
Proof. constructor; auto. Qed.

Lemma quiet_refresh now s : quiet now s (refresh now s).2.
Proof.
  unfold refresh. case_bool_decide; [by apply quiet_refl|]. destruct (inFlight s) eqn:E; [by apply quiet_refl|].
  constructor; [done..|]. right. cbn. split_and!; [done..|lia].
Qed.

Lemma quiet_active now s : quiet now s (onAgentActive now s).
Proof.
  unfold onAgentActive, startBackgroundTick. cbn [timer with_agents]. destruct (timer s); [by apply quiet_refl|].
  destruct (quiet_refresh now (with_agents (S (activeAgents s)) s)). by constructor.
Qed.

Lemma quiet_inactive now s : quiet now s (onAgentInactive s).
Proof. unfold onAgentInactive. case_decide; by apply quiet_refl. Qed.

Lemma quiet_event now t s : quiet now s (on_event now t s).
Proof.
  unfold on_event. destruct (String.eqb t "agent_online"); [apply quiet_active|].
  destruct (String.eqb t "agent_offline"); [apply quiet_inactive|by apply quiet_refl].
Qed.

Lemma quiet_exec ttl now o s : (∀ r, o ≠ Answered r) → quiet now s (exec ttl now o s).
Proof.
  intros Ho. destruct o as [| | | | t | | |r]; cbn [exec]; [|apply quiet_refresh|apply quiet_event|apply quiet_event|apply quiet_event| | |].
  - unfold get. destruct (isFresh _ _ _); [by apply quiet_refl|apply quiet_refresh].
  - unfold tick. destruct (timer s && _); [apply quiet_refresh|by apply quiet_refl].
  - by apply quiet_refl.
  - by destruct (Ho r).
Qed.

(** What holds of the trace: the newest entry is at the head. *)
Record traced (now : Z) (s : Cache) (l : list (Z * Seen)) : Prop := {
  tr_flight : asked l = (told l + if inFlight s then 1 else 0)%nat;
  tr_pause l1 t f l2 : l = l1 ++ (t, Told (inl f)) :: l2 → refusal f →
    (∀ t', (t', Asked) ∈ l1 → pause f t ≤ t') ∧
    (asked l1 = O → pause f t ≤ cooldownUntil s ∧ inFlight s = false) ∧ (asked l1 ≠ O → pause f t ≤ now)
}.

Lemma asked_none l : asked l = O → ∀ t, (t, Asked) ∉ l.
Proof.
  unfold asked. intros Hn t (l1 & l2 & ->)%list_elem_of_split. rewrite List.filter_app in Hn. cbn in Hn.
  rewrite length_app in Hn. cbn in Hn. lia.
Qed.

Lemma traced_answer now now' r s l :
  now ≤ now' → inFlight s = true → traced now s l → traced now' (doRefresh now' r s).2 ((now', Told r) :: l).
Proof.
  intros Hle Hfl [H1 H2]. rewrite Hfl in *. constructor.
  - change (asked ((now', Told r) :: l)) with (asked l). change (told ((now', Told r) :: l)) with (S (told l)).
    destruct r; cbn; lia.
  - intros l1 t f l2 E Hf. destruct l1 as [|x l1].
    + injection E as -> -> ->. cbn [doRefresh snd cooldownUntil inFlight]. rewrite decide_True by done.
      split_and!; [by intros ? ?%elem_of_nil|done|done].
    + injection E as <- E. destruct (H2 l1 t f l2 E Hf) as (Ha & Hb & Hc). change (asked ((now', Told r) :: l1)) with (asked l1).
      assert (asked l1 ≠ O) as Hn by (intros Hn; by destruct (Hb Hn)).
      split_and!; [|done|intros _; specialize (Hc Hn); lia].
      intros t' [?|?]%elem_of_cons; [done|auto].
Qed.

Lemma traced_quiet now now' s s' l :
  now ≤ now' → quiet now' s s' → traced now s l →
  traced now' s' ((pair now' <$> (if negb (inFlight s) && inFlight s' then [Asked] else [])) ++ l).
Proof.
  intros Hle [_ Hcd Hq] [H1 H2]. destruct (negb (inFlight s) && inFlight s') eqn:En; cbn [fmap list_fmap app].
  - apply andb_true_iff in En as [Es%negb_true_iff Es']. destruct Hq as [Hq|(_ & _ & Hcool)]; [congruence|].
    constructor.
    + change (asked ((now', Asked) :: l)) with (S (asked l)). change (told ((now', Asked) :: l)) with (told l).
      rewrite Es, Es' in *. lia.
    + intros [|x l1] t f l2 E Hf; [done|]. injection E as <- E. destruct (H2 l1 t f l2 E Hf) as (Ha & Hb & Hc).
      assert (pause f t ≤ now') as Hp.
      { destruct (decide (asked l1 = O)) as [Hn|Hn]; [destruct (Hb Hn); lia|specialize (Hc Hn); lia]. }
      split_and!; [|done|done]. intros t' [[= <-]|?]%elem_of_cons; auto.
  - assert (inFlight s' = inFlight s) as Es by (destruct Hq as [?|(Ea & Eb & _)]; [done|by rewrite Ea, Eb in En]).
    constructor; rewrite ?Es, ?Hcd; [done|]. intros l1 t f l2 E Hf. destruct (H2 l1 t f l2 E Hf) as (Ha & Hb & Hc).
    split_and!; [done..|]. intros Hn. specialize (Hc Hn). lia.
Qed.

Lemma traced_step ttl now s l now' s' l' :
  traced now s l → step ttl (now, s, l) (now', s', l') → traced now' s' l'.
Proof.
  intros Ht Hs. remember (now, s, l) as a eqn:Ea. remember (now', s', l') as b eqn:Eb.
  destruct Hs as [n n' o c k Hle Hfl]. injection Ea as -> -> ->. injection Eb as -> <- <-.
  destruct o as [| | | | ty | | |r];
    try (cbn [seen]; apply (traced_quiet now); [done|by apply quiet_exec|done]).
  by apply (traced_answer now); [|apply (Hfl r)|].
Qed.

Lemma traced_runs ttl a b : rtc (step ttl) a b → traced a.1.1 a.1.2 a.2 → traced b.1.1 b.1.2 b.2.
Proof.
  induction 1 as [|[[n s] l] [[n' s'] l'] c Hs _ IH]; [done|]. intros Ht. apply IH. by apply (traced_step ttl n s l).
Qed.

Lemma traced_empty t0 : traced t0 empty [].
Proof. constructor; [done|]. intros l1 t f l2 E. by destruct l1. Qed.

Definition start (t0 : Z) : Z * Cache * list (Z * Seen) := (t0, empty, []).

(** Readers share one fetch and respect the pauses. In every run of reads,
    refreshes, ticks of the timer, arrivals and departures of agents, at most one
    fetch is under way, and after a refusal for too many requests none is started
    before the pause the server asked for, or five minutes when it asked for none,
    and never within a minute. *)
Theorem quota_fetches_paced (ttl t0 now : Z) (s : Cache) (l : list (Z * Seen)) :
  rtc (step ttl) (start t0) (now, s, l) →
  (told l ≤ asked l ≤ S (told l))%nat ∧
  ∀ l1 l2 l3 t t' f, l = l1 ++ (t', Asked) :: l2 ++ (t, Told (inl f)) :: l3 → httpStatus f = Some 429 →
    t + 60000 ≤ t' ∧ t + default 300 (retryAfterSeconds f) * 1000 ≤ t'.
Proof.
  intros Hr. destruct (traced_runs ttl _ _ Hr (traced_empty t0)) as [H1 H2]. cbn [fst snd] in *.
  split; [destruct (inFlight s); lia|]. intros l1 l2 l3 t t' f E Hf.
  destruct (H2 (l1 ++ (t', Asked) :: l2) t f l3) as (Ha & _); [by rewrite <- app_assoc|done|].
  specialize (Ha t' ltac:(apply elem_of_app; right; left)). revert Ha. unfold pause, cooldownMs.
  unfold DEFAULT_429_COOLDOWN_MS, MIN_429_COOLDOWN_MS. destruct (retryAfterSeconds f); cbn; lia.
Qed.

(** ** The timer and the readers *)

(** The timer runs only while an agent counts as online. *)
Lemma timer_needs_agents ttl now o s :
  (timer s = true → activeAgents s ≠ O) → timer (exec ttl now o s) = true → activeAgents (exec ttl now o s) ≠ O.
Proof.
  intros Hs. assert (∀ t, timer (refresh t s).2 = timer s ∧ activeAgents (refresh t s).2 = activeAgents s) as Hr.
  { intros t. unfold refresh. case_bool_decide; [done|]. by destruct (inFlight s). }
  assert (∀ t, timer (on_event t "agent_online" s) = true → activeAgents (on_event t "agent_online" s) ≠ O) as Hon.
  { intros t. unfold on_event, onAgentActive, startBackgroundTick. cbn [String.eqb Ascii.eqb Bool.eqb timer with_agents].
    destruct (timer s); [done|]. intros _. cbn [activeAgents]. unfold refresh. case_bool_decide; [done|].
    by destruct (inFlight (with_agents _ s)). }
  assert (timer (onAgentInactive s) = true → activeAgents (onAgentInactive s) ≠ O) as Hoff.
  { unfold onAgentInactive. by case_decide as Hz. }
  destruct o as [| | | | ty | | |r]; cbn [exec].
  - unfold get. destruct (isFresh _ _ _); [done|]. destruct (Hr now) as [-> ->]. done.
  - destruct (Hr now) as [-> ->]. done.
  - apply Hon.
  - apply Hoff.
  - unfold on_event. destruct (String.eqb ty "agent_online"); [apply (Hon now)|].
    by destruct (String.eqb ty "agent_offline").
  - unfold tick. destruct (timer s && _); [|done]. destruct (Hr now) as [-> ->]. done.
  - done.
  - by destruct r.
Qed.

(** A value older than its time of validity is hidden from the readers once a
    refresh fails, unless the failure opened a pause: then it is shown. *)
Lemma failed_refresh_hides_cache now f s i :
  info s = Some i → httpStatus f ≠ Some 429 →
  (doRefresh now (inl f) s).1 = None ∧ info (doRefresh now (inl f) s).2 = Some i ∧
  quota_status (doRefresh now (inl f) s).1 = 503.
Proof. intros Hi Hf. by cbn. Qed.

Lemma pause_shows_cache ttl now s i :
  info s = Some i → now < cooldownUntil s → get ttl now s = (Value (Some i), s).
Proof.
  intros Hi Hc. unfold get, refresh. rewrite Hi. destruct (isFresh _ _ _); [done|].
  by rewrite bool_decide_eq_true_2.
Qed.

(** What is read is a text that is not empty, of a platform that has a reader; on
    another no quota is ever fetched, and the answer says so. *)
Theorem credential_read trim parse platform stdout :
  (∀ t, readClaudeOAuthToken trim parse platform stdout = inr t → t ≠ "" ∧ platform = "darwin")
  ∧ (platform ≠ "darwin" → ∀ now m parse_date s,
       readClaudeOAuthToken trim parse platform stdout = inl m →
       let '(i, s') := doRefresh now (fetchQuotaFromAnthropic parse_date now (NoCredential m)) s in
       ∃ reason cooldown, handleQuota platform now i s' = (503, Unavailable reason cooldown (Some true)) ∧ reason ≠ None).
Proof.
  unfold readClaudeOAuthToken, handleQuota, isCredentialReaderSupported. destruct (String.eqb platform "darwin") eqn:E.
  - apply String.eqb_eq in E as ->. split; [|done]. intros t. destruct stdout as [out|]; [|done].
    destruct (String.eqb _ ""); [done|]. destruct (parse _) as [v|]; [|done].
    destruct (extractAccessToken v) as [u|] eqn:Eu; [|done]. intros [= <-]. split; [|done]. intros ->. revert Eu.
    unfold extractAccessToken, mbind, option_bind, truthy. repeat case_match; congruence.
  - split; [done|]. intros _ now m pd s [= <-]. cbn. eexists _, _. by split.
Qed.

(** Two agents arrive; one of them leaves and is announced twice, by its own
    session and by the broker: the timer stops while the other is online. *)
Lemma double_departure_stops_timer now s :
  timer s = false → activeAgents s = O →
  timer (onAgentInactive (onAgentInactive (onAgentActive now (onAgentActive now s)))) = false.
Proof.
  intros Ht Ha. destruct s as [i e fl n t c]. cbn in Ht, Ha. subst. unfold onAgentActive, startBackgroundTick, refresh.
  cbn. repeat case_match; done.
Qed.

(** An agent that registers twice and leaves once keeps the timer running. *)
Lemma double_arrival_keeps_timer now s :
  timer s = false → activeAgents s = O →
  timer (onAgentInactive (onAgentActive now (onAgentActive now s))) = true.
Proof.
  intros Ht Ha. destruct s as [i e fl n t c]. cbn in Ht, Ha. subst. unfold onAgentActive, startBackgroundTick, refresh.
  cbn. repeat case_match; done.
Qed.

(** ** Witness *)

Definition too_many : Failure := mkFailure "usage API returned HTTP 429" (Some 429) (Some 120).

Lemma quota_fetches_paced_witness :
  ∃ s l, rtc (step DEFAULT_TTL_MS) (start 0) (130000, s, l) ∧
    l = [(130000, Asked); (2000, Told (inl too_many)); (1000, Asked)] ∧ 2000 + 60000 ≤ 130000 ∧ (told l ≤ asked l ≤ S (told l))%nat.
Proof.
  set (s1 := exec DEFAULT_TTL_MS 1000 Get empty).
  set (s2 := exec DEFAULT_TTL_MS 2000 (Answered (inl too_many)) s1).
  set (s3 := exec DEFAULT_TTL_MS 5000 Refresh s2).
  set (s4 := exec DEFAULT_TTL_MS 130000 Refresh s3).
  assert (rtc (step DEFAULT_TTL_MS) (start 0)
    (130000, s4, [(130000, Asked); (2000, Told (inl too_many)); (1000, Asked)])) as Hr.
  { apply (rtc_l _ _ (1000, s1, [(1000, Asked)])); [by apply (S_exec _ 0 1000 Get empty [])|].
    apply (rtc_l _ _ (2000, s2, [(2000, Told (inl too_many)); (1000, Asked)])).
    { by apply (S_exec _ 1000 2000 (Answered (inl too_many)) s1 [(1000, Asked)]). }
    apply (rtc_l _ _ (5000, s3, [(2000, Told (inl too_many)); (1000, Asked)])).
    { by apply (S_exec _ 2000 5000 Refresh s2 [(2000, Told (inl too_many)); (1000, Asked)]). }
    apply (rtc_l _ _ (130000, s4, [(130000, Asked); (2000, Told (inl too_many)); (1000, Asked)])); [|apply rtc_refl].
    by apply (S_exec _ 5000 130000 Refresh s3 [(2000, Told (inl too_many)); (1000, Asked)]). }
  exists s4, [(130000, Asked); (2000, Told (inl too_many)); (1000, Asked)].
  destruct (quota_fetches_paced DEFAULT_TTL_MS 0 130000 s4 _ Hr) as [Hn Hp].
  destruct (Hp [] [] [(1000, Asked)] 2000 130000 too_many eq_refl eq_refl) as [H60 _].
  split; [exact Hr|]. split; [reflexivity|]. split; [exact H60|exact Hn].
Defined.
End QuotaCache.
