(* ===== verification/Providers.v ===== *)
(** * Identity providers ([src/auth/providers/oidc.ts], [google.ts], [github.ts],
    [github-app.ts], [github-shared.ts], [errors.ts])

    A call to a provider is a program that fetches, asks [jose] to verify a token
    and reads or writes the caches of the provider object; what the network and
    [jose] answer is the argument of the rest of the program. Calls of one
    provider run interleaved on its caches. *)

From S2P Require Import Prelude Paths Login.
Local Open Scope Z_scope.

Module Providers.
Import Login.

(** ** JSON *)

Inductive js := JNull | JBool (b : bool) | JNum (z : Z) | JStr (s : string) | JArr (l : list js) | JObj (l : jsmap js).

(** [v.k] of an object; the numbers read are whole. *)
Definition prop_of (k : string) (v : js) : option js := match v with JObj l => map_get k l | _ => None end.

(** [z.string()] and the optional forms: [None] is a failed parse. *)
Definition z_str (v : option js) : option string := match v with Some (JStr s) => Some s | _ => None end.
Definition z_num (v : option js) : option Z := match v with Some (JNum n) => Some n | _ => None end.
Definition z_bool (v : option js) : option bool := match v with Some (JBool b) => Some b | _ => None end.
Definition z_opt {A} (f : option js → option A) (v : option js) : option (option A) :=
  match v with None => Some None | Some _ => Some <$> f v end.
Definition z_nullable {A} (f : option js → option A) (v : option js) : option (option A) :=
  match v with Some JNull => Some None | _ => Some <$> f v end.

Definition z_array {A} (f : js → option A) (v : js) : option (list A) := match v with JArr l => mapM f l | _ => None end.
Definition z_strings (v : option js) : option (list string) := v ← v; z_array (λ x, z_str (Some x)) v.

(** ** Programs *)

Record HttpRequest := mkReq {
  q_url : string; q_post : bool; q_form : list (string * string); q_bearer : option string; q_follow : bool }.

(** [r_body] is nothing when the body is not JSON. *)
Record HttpResponse := mkResp { r_status : Z; r_body : option js; r_link : option string }.

Inductive NetAnswer := NetError | NetOk (r : HttpResponse).

(** [jwtVerify] of [jose]: RS256 with the keys at a URL, the issuer and the audience. *)
Record VerifyReq := mkVerify { v_token : string; v_jwks : string; v_issuer : string; v_audience : string }.
(** [JwksTrouble] is one of the three exceptions on the set of keys the code
    looks for; [JwksUnreachable] another failure to get it. *)
Inductive VerifyAnswer := JwksTrouble | JwksUnreachable | Rejected | Accepted (payload : js).

(** [Unfinished] is no exception: the program was cut after its fuel. *)
Inductive IdpError := TokenRevoked | Transient (message : string) | Failed (message : string) | Unfinished.

Record DiscoveryDoc := mkDisco { authorizationEndpoint : string; tokenEndpoint : string; jwksUri : string }.

(** [cachedDiscovery] and [cachedJwks], the latter as the URL it was made with. *)
Record Cache := mkCache { cachedDiscovery : option DiscoveryDoc; cachedJwks : option string }.

Inductive prog (A : Type) : Type :=
  | Ret (a : A)
  | Raise (e : IdpError)
  | Fetch (q : HttpRequest) (k : NetAnswer → prog A)
  | Verify (v : VerifyReq) (k : VerifyAnswer → prog A)
  | Read (k : Cache → prog A)
  | Write (c : Cache) (p : prog A).
Arguments Ret {A} a.
Arguments Raise {A} e.
Arguments Fetch {A} q k.
Arguments Verify {A} v k.
Arguments Read {A} k.
Arguments Write {A} c p.

Fixpoint pbind {A B} (p : prog A) (f : A → prog B) : prog B :=
  match p with
  | Ret a => f a
  | Raise e => Raise e
  | Fetch q k => Fetch q (λ a, pbind (k a) f)
  | Verify v k => Verify v (λ a, pbind (k a) f)
  | Read k => Read (λ c, pbind (k c) f)
  | Write c p => Write c (pbind p f)
  end.

Declare Scope prog_scope.
Notation "'let!' x := m 'in' k" := (pbind m (λ x, k)) (at level 200, x name, m at level 100, k at level 200) : prog_scope.
Local Open Scope prog_scope.

Definition is_5xx (n : Z) : bool := bool_decide (500 ≤ n ∧ n < 600).
Definition is_ok (n : Z) : bool := bool_decide (200 ≤ n ∧ n < 300).

(** [await res.json()], which throws on what is not JSON, and a schema. *)
Definition parsed {A} (r : HttpResponse) (f : js → option A) : prog A :=
  match r_body r with
  | None => Raise (Failed "not JSON")
  | Some v => match f v with Some a => Ret a | None => Raise (Failed "schema") end
  end.

Section provider.
(** [new URL(x).origin]; [z.url()] and [z.email()] of the schemas. *)
Context (origin_of : string → option string) (is_url is_email : string → bool).

(** ** Tokens and claims *)

Record TokenResponse := mkToken {
  access_token : string; id_token : option string; expires_in : option Z; refresh_token : option string;
  refresh_expires_in : option Z }.

(** The schema of the OIDC providers: [id_token] is required. *)
Definition OidcTokenSchema (v : js) : option TokenResponse :=
  a ← z_str (prop_of "access_token" v); i ← z_str (prop_of "id_token" v); e ← z_opt z_num (prop_of "expires_in" v);
  _ ← z_opt z_str (prop_of "scope" v); _ ← z_str (prop_of "token_type" v); r ← z_opt z_str (prop_of "refresh_token" v);
  Some (mkToken a (Some i) e r None).

Definition GitHubTokenSchema (v : js) : option TokenResponse :=
  a ← z_str (prop_of "access_token" v); _ ← z_str (prop_of "token_type" v); _ ← z_opt z_str (prop_of "scope" v);
  e ← z_opt z_num (prop_of "expires_in" v); r ← z_opt z_str (prop_of "refresh_token" v);
  x ← z_opt z_num (prop_of "refresh_token_expires_in" v); Some (mkToken a None e r x).

Definition z_email (v : option js) : option string := s ← z_str v; if is_email s then Some s else None.
Definition z_url (v : option js) : option string := s ← z_str v; if is_url s then Some s else None.

Record IdClaims := mkIdClaims {
  c_sub : string; c_email : option string; c_name : option string; c_username : option string; c_hd : option string }.

Definition OidcClaimsSchema (v : js) : option IdClaims :=
  s ← z_str (prop_of "sub" v); e ← z_opt z_email (prop_of "email" v); _ ← z_opt z_bool (prop_of "email_verified" v);
  n ← z_opt z_str (prop_of "name" v); u ← z_opt z_str (prop_of "preferred_username" v); Some (mkIdClaims s e n u None).

Definition GoogleClaimsSchema (v : js) : option IdClaims :=
  s ← z_str (prop_of "sub" v); e ← z_email (prop_of "email" v); _ ← z_opt z_bool (prop_of "email_verified" v);
  n ← z_opt z_str (prop_of "name" v); h ← z_opt z_str (prop_of "hd" v); Some (mkIdClaims s (Some e) n None h).

(** ** Discovery *)

Record OIDCConfig := mkOidc {
  clientId : string; clientSecret : string; issuerUrl : string; extraAllowedOrigins : list string;
  discoveryUrl : option string; groupsClaim : option string }.

Definition allowlistStrategy (cfg : OIDCConfig) : string :=
  match truthy (groupsClaim cfg) with Some _ => "id_token_groups" | None => "none" end.

(** [replace(/\/$/, "")] *)
Definition strip_slash (s : string) : string :=
  if Paths.ends_with_slash s then String.substring 0 (String.length s - 1) s else s.

Definition discovery_url (cfg : OIDCConfig) : string :=
  default (strip_slash (issuerUrl cfg) +:+ "/.well-known/openid-configuration") (discoveryUrl cfg).

(** The origins of the configuration; [None] is an exception. *)
Fixpoint extra_origins (l : list string) : option (list string) :=
  match l with
  | [] => Some []
  | x :: l => o ← origin_of x; if String.eqb o "null" then None else os ← extra_origins l; Some (o :: os)
  end.

Definition assertAllowedEndpointOrigin (endpoint issuer : string) (extra : list string) : bool :=
  match origin_of endpoint with
  | None => false
  | Some o =>
      match origin_of issuer with
      | None => false
      | Some i =>
          match extra_origins extra with
          | None => false
          | Some os => if String.eqb o "null" then false else bool_decide (o ∈ i :: os)
          end
      end
  end.

Record DiscoveryResponse := mkDiscovery { d_issuer : string; d_doc : DiscoveryDoc }.

Definition DiscoveryResponseSchema (v : js) : option DiscoveryResponse :=
  i ← z_str (prop_of "issuer" v); a ← z_url (prop_of "authorization_endpoint" v);
  t ← z_url (prop_of "token_endpoint" v); j ← z_url (prop_of "jwks_uri" v);
  _ ← z_opt z_strings (prop_of "response_types_supported" v);
  _ ← z_opt z_strings (prop_of "id_token_signing_alg_values_supported" v);
  Some (mkDiscovery i (mkDisco a t j)).

Definition trusted (cfg : OIDCConfig) (d : DiscoveryDoc) : bool :=
  let ok e := assertAllowedEndpointOrigin e (issuerUrl cfg) (extraAllowedOrigins cfg) in
  ok (authorizationEndpoint d) && ok (tokenEndpoint d) && ok (jwksUri d).

Definition getDiscovery (cfg : OIDCConfig) : prog DiscoveryDoc :=
  Read (λ c,
    match cachedDiscovery c with
    | Some d => Ret d
    | None =>
        Fetch (mkReq (discovery_url cfg) false [] None true) (λ a,
          match a with
          | NetError => Raise (Transient "OIDC discovery endpoint unreachable")
          | NetOk r =>
              if is_5xx (r_status r) then Raise (Transient "OIDC discovery")
              else if negb (is_ok (r_status r)) then Raise (Failed "OIDC discovery failed")
              else
                let! p := parsed r DiscoveryResponseSchema in
                if negb (String.eqb (d_issuer p) (issuerUrl cfg)) then Raise (Failed "OIDC discovery issuer mismatch")
                else if negb (trusted cfg (d_doc p)) then Raise (Failed "OIDC discovery endpoint refused")
                else Read (λ c, Write (mkCache (Some (d_doc p)) (cachedJwks c)) (Ret (d_doc p)))
          end)
    end).

Definition getJwks (d : DiscoveryDoc) : prog string :=
  Read (λ c, match cachedJwks c with
             | Some u => Ret u
             | None => Write (mkCache (cachedDiscovery c) (Some (jwksUri d))) (Ret (jwksUri d))
             end).

(** ** Signing in *)

Definition SCOPE : string := "openid email profile".

(** The endpoint and the parameters set on it. *)
Record AuthUrl := mkAuthUrl { au_endpoint : string; au_params : list (string * string) }.

Definition challenge_params (c : option string) : list (string * string) :=
  match truthy c with Some c => [("code_challenge", c); ("code_challenge_method", "S256")] | None => [] end.
Definition nonce_params (n : option string) : list (string * string) :=
  match truthy n with Some n => [("nonce", n)] | None => [] end.

Definition oidc_buildAuthUrl (cfg : OIDCConfig) (state redirect : string) (challenge nonce : option string) : prog AuthUrl :=
  let! d := getDiscovery cfg in
  Ret (mkAuthUrl (authorizationEndpoint d)
         ([("client_id", clientId cfg); ("redirect_uri", redirect); ("state", state); ("scope", SCOPE);
           ("response_type", "code")] ++ challenge_params challenge ++ nonce_params nonce)).

Definition code_form (id secret code redirect : string) (verifier : option string) (grant : bool) : list (string * string) :=
  [("client_id", id); ("client_secret", secret); ("code", code); ("redirect_uri", redirect)]
    ++ (if grant then [("grant_type", "authorization_code")] else [])
    ++ match truthy verifier with Some v => [("code_verifier", v)] | None => [] end.

(** The statuses of a token endpoint. *)
Definition token_answer (a : NetAnswer) : prog HttpResponse :=
  match a with
  | NetError => Raise (Transient "token endpoint unreachable")
  | NetOk r =>
      if bool_decide (r_status r = 401) then Raise TokenRevoked
      else if is_5xx (r_status r) then Raise (Transient "token endpoint")
      else if negb (is_ok (r_status r)) then Raise (Failed "token exchange failed")
      else Ret r
  end.

Definition verified (a : VerifyAnswer) : prog js :=
  match a with
  | Accepted p => Ret p
  | JwksTrouble => Raise (Transient "JWKS unavailable")
  | JwksUnreachable | Rejected => Raise TokenRevoked
  end.

(** The nonce is tested when the caller has one. *)
Definition nonce_matches (nonce : option string) (payload : js) : bool :=
  match nonce with
  | None => true
  | Some n => match prop_of "nonce" payload with Some (JStr t) => String.eqb t n | _ => false end
  end.

(** An element of an array by its index in decimal. *)
Definition element (k : string) (l : list js) : option js :=
  snd <$> List.find (λ p, String.eqb (pretty p.1) k) (imap pair l).

(** Walks the dotted path. *)
Fixpoint walk (path : list string) (cursor : option js) : option js :=
  match path with
  | [] => cursor
  | k :: path =>
      match cursor with
      | Some (JObj l) => walk path (map_get k l)
      | Some (JArr l) => walk path (element k l)
      | _ => None
      end
  end.

Definition extractGroupsFromClaims (payload : js) (path : string) : list string :=
  match walk (split_on "." path) (Some payload) with
  | Some (JArr l) => omap (λ v, match v with JStr s => Some s | _ => None end) l
  | _ => []
  end.

Definition oidc_groups (cfg : OIDCConfig) (payload : js) : option (list string) :=
  match truthy (groupsClaim cfg) with
  | None => None
  | Some p => match extractGroupsFromClaims payload p with [] => None | l => Some l end
  end.

Definition oidc_exchangeCode (cfg : OIDCConfig) (code redirect : string) (verifier nonce : option string)
    : prog ExchangeCodeResult :=
  let! d := getDiscovery cfg in
  Fetch (mkReq (tokenEndpoint d) true (code_form (clientId cfg) (clientSecret cfg) code redirect verifier true) None false)
    (λ a,
      let! r := token_answer a in
      let! token := parsed r OidcTokenSchema in
      let! jwks := getJwks d in
      Verify (mkVerify (default "" (id_token token)) jwks (issuerUrl cfg) (clientId cfg)) (λ va,
        let! payload := verified va in
        match OidcClaimsSchema payload with
        | None => Raise (Failed "schema")
        | Some c =>
            if nonce_matches nonce payload then
              let email := default (default (c_sub c) (c_username c)) (c_email c) in
              Ret (mkExchange (mkIdpUser (c_sub c) email (c_name c) None (oidc_groups cfg payload)) (access_token token) None)
            else Raise TokenRevoked
        end)).

(** *** Google *)

Record GoogleConfig := mkGoogle {
  g_clientId : string; g_clientSecret : string; g_issuer : string; g_authorize : string; g_token : string; g_jwks : string }.

Definition default_google (id secret : string) : GoogleConfig :=
  mkGoogle id secret "https://accounts.google.com" "https://accounts.google.com/o/oauth2/v2/auth"
    "https://oauth2.googleapis.com/token" "https://www.googleapis.com/oauth2/v3/certs".

Definition google_buildAuthUrl (cfg : GoogleConfig) (state redirect : string) (challenge nonce : option string) : AuthUrl :=
  mkAuthUrl (g_authorize cfg)
    ([("client_id", g_clientId cfg); ("redirect_uri", redirect); ("state", state); ("scope", SCOPE);
      ("response_type", "code"); ("access_type", "online")] ++ challenge_params challenge ++ nonce_params nonce).

Definition google_exchangeCode (cfg : GoogleConfig) (code redirect : string) (verifier nonce : option string)
    : prog ExchangeCodeResult :=
  Fetch (mkReq (g_token cfg) true (code_form (g_clientId cfg) (g_clientSecret cfg) code redirect verifier true) None true)
    (λ a,
      let! r := token_answer a in
      let! token := parsed r OidcTokenSchema in
      Verify (mkVerify (default "" (id_token token)) (g_jwks cfg) (g_issuer cfg) (g_clientId cfg)) (λ va,
        let! payload := verified va in
        match GoogleClaimsSchema payload with
        | None => Raise (Failed "schema")
        | Some c =>
            if nonce_matches nonce payload then
              Ret (mkExchange (mkIdpUser (c_sub c) (default "" (c_email c)) (c_name c) (c_hd c) None) (access_token token) None)
            else Raise TokenRevoked
        end)).

(** *** GitHub *)

(** The exception of the second attempt is let through. *)
Definition fetchWithRetry (q : HttpRequest) : prog HttpResponse :=
  let again := Fetch q (λ a, match a with NetOk r => Ret r | NetError => Raise (Failed "fetch failed") end) in
  Fetch q (λ a, match a with NetOk r => if is_5xx (r_status r) then again else Ret r | NetError => again end).

Definition mapGitHubHttpError (status : Z) : IdpError :=
  if bool_decide (status = 401) then TokenRevoked
  else if bool_decide (status = 403) then Transient "403 (rate limit or forbidden)"
  else if is_5xx status then Transient "GitHub"
  else Failed "HTTP".

Definition github_fetch {A} (q : HttpRequest) (f : js → option A) : prog (A * HttpResponse) :=
  let! r := fetchWithRetry q in
  if is_ok (r_status r) then let! a := parsed r f in Ret (a, r) else Raise (mapGitHubHttpError (r_status r)).

Record GitHubUser := mkGitHubUser { gh_id : Z; gh_email : option string; gh_name : option string }.
Definition GitHubUserSchema (v : js) : option GitHubUser :=
  i ← z_num (prop_of "id" v); _ ← z_str (prop_of "login" v); e ← z_nullable z_str (prop_of "email" v);
  n ← z_nullable z_str (prop_of "name" v); Some (mkGitHubUser i e n).

Record GitHubEmail := mkGitHubEmail { em_email : string; em_primary : bool; em_verified : bool }.
Definition GitHubEmailSchema (v : js) : option GitHubEmail :=
  e ← z_str (prop_of "email" v); p ← z_bool (prop_of "primary" v); c ← z_bool (prop_of "verified" v);
  Some (mkGitHubEmail e p c).
Definition GitHubEmailsSchema : js → option (list GitHubEmail) := z_array GitHubEmailSchema.

Definition GitHubOrgsSchema : js → option (list string) := z_array (λ v, z_str (prop_of "login" v)).

Definition GitHubInstallationsSchema (v : js) : option (list string) :=
  _ ← z_num (prop_of "total_count" v); l ← prop_of "installations" v;
  z_array (λ i, _ ← z_num (prop_of "id" i); a ← prop_of "account" i; _ ← z_opt z_str (prop_of "type" a);
                z_str (prop_of "login" a)) l.

(** [primaryVerified?.email ?? firstVerified?.email ?? user.email], which must not be empty. *)
Definition chosen_email (u : GitHubUser) (l : list GitHubEmail) : option string :=
  truthy (match List.find (λ e, em_primary e && em_verified e) l with
          | Some e => Some (em_email e)
          | None => match List.find em_verified l with Some e => Some (em_email e) | None => gh_email u end
          end).

Definition api_get (url token : string) : HttpRequest := mkReq url false [] (Some token) true.

Definition fetchGitHubUserInfo (base token : string) : prog IdpUserInfo :=
  let! ur := github_fetch (api_get (base +:+ "/user") token) GitHubUserSchema in
  let! es := github_fetch (api_get (base +:+ "/user/emails") token) GitHubEmailsSchema in
  match chosen_email ur.1 es.1 with
  | None => Raise (Failed "GitHub user has no verified email")
  | Some e => Ret (mkIdpUser (pretty (gh_id ur.1)) e (gh_name ur.1) None None)
  end.

(** [/<([^>]+)>\s*;\s*rel="next"/] at a [<], and the first that matches. *)
Definition dquote : ascii := Paths.char 34.
Definition rel_next : string := "rel=" +:+ String dquote ("next" +:+ String dquote "").
Definition space (a : ascii) : bool := let n := Paths.code a in bool_decide (n = 32 ∨ 9 ≤ n ≤ 13).

Fixpoint skip_spaces (s : string) : string :=
  match s with String a s' => if space a then skip_spaces s' else s | EmptyString => EmptyString end.

Fixpoint until_gt (s : string) : option (string * string) :=
  match s with
  | EmptyString => None
  | String a s => if Ascii.eqb a ">" then Some ("", s) else '(t, r) ← until_gt s; Some (String a t, r)
  end.

Definition match_at (s : string) : option string :=
  '(t, r) ← until_gt s;
  if String.eqb t "" then None
  else
    match skip_spaces r with
    | String a r => if Ascii.eqb a ";" && startsWith rel_next (skip_spaces r) then Some t else None
    | EmptyString => None
    end.

Fixpoint match_part (s : string) : option string :=
  match s with
  | EmptyString => None
  | String a s => if Ascii.eqb a "<" then match match_at s with Some t => Some t | None => match_part s end else match_part s
  end.

Fixpoint first_next (parts : list string) : option string :=
  match parts with
  | [] => None
  | p :: ps => match match_part p with Some t => Some t | None => first_next ps end
  end.

Definition parseNextLink (header : option string) (expected : string) : option string :=
  h ← truthy header; t ← first_next (split_on "," h);
  o ← origin_of t; if String.eqb o expected then Some t else None.

(** The loop over the pages, cut after [fuel] of them. *)
Fixpoint pages (fuel : nat) (expected token : string) (f : js → option (list string)) (url : option string)
    (logins : list string) : prog (list string) :=
  match truthy url with
  | None => Ret logins
  | Some u =>
      match fuel with
      | O => Raise Unfinished
      | S fuel =>
          let! lr := github_fetch (api_get u token) f in
          pages fuel expected token f (parseNextLink (r_link lr.2) expected) (logins ++ lr.1)
      end
  end.

Definition list_logins (fuel : nat) (path : string) (f : js → option (list string)) (base token : string)
    : prog (list string) :=
  match origin_of base with
  | None => Raise (Failed "Invalid URL")
  | Some o => pages fuel o token f (Some (base +:+ path)) []
  end.

Definition listGitHubOrgs (fuel : nat) : string → string → prog (list string) :=
  list_logins fuel "/user/orgs?per_page=100" GitHubOrgsSchema.
Definition listGitHubAppInstallations (fuel : nat) : string → string → prog (list string) :=
  list_logins fuel "/user/installations?per_page=100" GitHubInstallationsSchema.

Record GitHubConfig := mkGitHub {
  gh_clientId : string; gh_clientSecret : string; apiBaseUrl : string; authBaseUrl : string; gh_app : bool;
  by_installations : bool }.

Definition github_buildAuthUrl (cfg : GitHubConfig) (state redirect : string) (challenge : option string) : AuthUrl :=
  mkAuthUrl (authBaseUrl cfg +:+ "/login/oauth/authorize")
    ([("client_id", gh_clientId cfg); ("redirect_uri", redirect); ("state", state)]
       ++ (if gh_app cfg then [] else [("scope", "read:user user:email read:org")]) ++ challenge_params challenge).

Definition token_request (cfg : GitHubConfig) (form : list (string * string)) : HttpRequest :=
  mkReq (authBaseUrl cfg +:+ "/login/oauth/access_token") true form None true.

Definition github_exchangeCode (cfg : GitHubConfig) (code redirect : string) (verifier : option string)
    : prog ExchangeCodeResult :=
  let! tr := github_fetch (token_request cfg
               (code_form (gh_clientId cfg) (gh_clientSecret cfg) code redirect verifier false)) GitHubTokenSchema in
  let! u := fetchGitHubUserInfo (apiBaseUrl cfg) (access_token tr.1) in
  Ret (mkExchange u (access_token tr.1) (if gh_app cfg then refresh_token tr.1 else None)).

Definition github_listMemberships (fuel : nat) (cfg : GitHubConfig) (token : string) : prog (list string) :=
  if gh_app cfg && by_installations cfg then listGitHubAppInstallations fuel (apiBaseUrl cfg) token
  else listGitHubOrgs fuel (apiBaseUrl cfg) token.

(** [refreshIdpToken] of the GitHub App: the new access and refresh tokens. *)
Definition refreshIdpToken (cfg : GitHubConfig) (refresh : string) : prog (string * option string) :=
  let! r := fetchWithRetry (token_request cfg
              [("client_id", gh_clientId cfg); ("client_secret", gh_clientSecret cfg); ("grant_type", "refresh_token");
               ("refresh_token", refresh)]) in
  if negb (is_ok (r_status r)) then Raise (mapGitHubHttpError (r_status r))
  else
    match r_body r with
    | None => Raise (Failed "not JSON")
    | Some v =>
        match v, prop_of "error" v, prop_of "access_token" v with
        | JNull, _, _ => Raise (Failed "TypeError")
        | _, Some (JStr _), _ => Raise TokenRevoked
        | _, _, Some (JStr _) =>
            match GitHubTokenSchema v with
            | Some t => Ret (access_token t, refresh_token t)
            | None => Raise (Failed "schema")
            end
        | _, _, _ => Raise TokenRevoked
        end
    end.

End provider.
End Providers.
