(* ===== verification/ProviderSafety.v ===== *)
(** * Safety of the identity providers

    A weakest precondition for the programs of [Providers], with an invariant on
    the shared caches, and its adequacy for interleaved calls: whatever the
    network answers, secrets and access tokens go only where the configuration
    says, and a user is only who a verified token names. *)

From S2P Require Import Prelude Paths AuthState Login Providers.
Local Open Scope Z_scope.

Module ProviderSafety.
Import Login Providers.

(** ** The program logic *)

(** [Sent]: the requests allowed; [Proved]: what [jose] proves of a payload it
    accepts; [I]: the invariant of the caches. *)
Record Spec := mkSpec {
  Sent : HttpRequest → Prop; Asked : VerifyReq → Prop; Proved : VerifyReq → js → Prop; I : Cache → Prop }.

Fixpoint wp {A} (S : Spec) (p : prog A) (Q : A → Prop) : Prop :=
  match p with
  | Ret a => Q a
  | Raise _ => True
  | Fetch q k => Sent S q ∧ ∀ a, wp S (k a) Q
  | Verify v k => Asked S v ∧ ∀ a, (∀ pl, a = Accepted pl → Proved S v pl) → wp S (k a) Q
  | Read k => ∀ c, I S c → wp S (k c) Q
  | Write c p => I S c ∧ wp S p Q
  end.

Lemma wp_bind {A B} S (p : prog A) (f : A → prog B) Q : wp S p (λ a, wp S (f a) Q) → wp S (pbind p f) Q.
Proof. induction p; cbn; naive_solver. Qed.

Lemma wp_mono {A} S (p : prog A) (Q Q' : A → Prop) : (∀ a, Q a → Q' a) → wp S p Q → wp S p Q'.
Proof. intros HQ. induction p; cbn; naive_solver. Qed.

Lemma wp_bind_mono {A B} S (p : prog A) (f : A → prog B) R Q :
  wp S p R → (∀ a, R a → wp S (f a) Q) → wp S (pbind p f) Q.
Proof. intros Hp Hf. apply wp_bind. by apply (wp_mono S p R). Qed.

Lemma wp_parsed {A} S r (f : js → option A) (Q : A → Prop) :
  (∀ v a, r_body r = Some v → f v = Some a → Q a) → wp S (parsed r f) Q.
Proof.
  intros HQ. unfold parsed. destruct (r_body r) as [v|]; [|done]. destruct (f v) as [a|] eqn:E; [|done]. by apply (HQ v).
Qed.

(** ** Interleaved calls *)

(** The calls under way on one provider, its caches, and the requests sent. *)
Record Pool (A : Type) := mkPool { calls : list (prog A); cache : Cache; sent : list HttpRequest; asked : list VerifyReq;
                                   done_ : list A }.
Arguments mkPool {A} _ _ _ _ _.
Arguments calls {A} _.
Arguments cache {A} _.
Arguments sent {A} _.
Arguments asked {A} _.
Arguments done_ {A} _.

Inductive pstep {A} (proved : VerifyReq → js → Prop) : Pool A → Pool A → Prop :=
  | P_fetch q k a l1 l2 c s v d :
      pstep proved (mkPool (l1 ++ Fetch q k :: l2) c s v d) (mkPool (l1 ++ k a :: l2) c (q :: s) v d)
  | P_verify u k a l1 l2 c s v d :
      (∀ pl, a = Accepted pl → proved u pl) →
      pstep proved (mkPool (l1 ++ Verify u k :: l2) c s v d) (mkPool (l1 ++ k a :: l2) c s (u :: v) d)
  | P_read k l1 l2 c s v d :
      pstep proved (mkPool (l1 ++ Read k :: l2) c s v d) (mkPool (l1 ++ k c :: l2) c s v d)
  | P_write c' p l1 l2 c s v d :
      pstep proved (mkPool (l1 ++ Write c' p :: l2) c s v d) (mkPool (l1 ++ p :: l2) c' s v d)
  | P_ret a l1 l2 c s v d :
      pstep proved (mkPool (l1 ++ Ret a :: l2) c s v d) (mkPool (l1 ++ l2) c s v (a :: d))
  | P_raise e l1 l2 c s v d :
      pstep proved (mkPool (l1 ++ Raise e :: l2) c s v d) (mkPool (l1 ++ l2) c s v d).

Record pool_ok {A} (S : Spec) (Q : A → Prop) (w : Pool A) : Prop := {
  ok_calls : Forall (λ p, wp S p Q) (calls w);
  ok_cache : I S (cache w);
  ok_sent : Forall (Sent S) (sent w);
  ok_asked : Forall (Asked S) (asked w);
  ok_done : Forall Q (done_ w)
}.

Lemma pool_step {A} S (Q : A → Prop) w w' : pool_ok S Q w → pstep (Proved S) w w' → pool_ok S Q w'.
Proof.
  intros [H1 H2 H3 H4 H5] Hs. destruct Hs as [q k a l1 l2 c s v d|u k a l1 l2 c s v d Ha|k l1 l2 c s v d
    |c' p l1 l2 c s v d|a l1 l2 c s v d|e l1 l2 c s v d]; cbn in *;
    apply Forall_app in H1 as [Hl1 [Hp Hl2]%Forall_cons]; cbn in Hp;
    constructor; cbn; try done; try (apply Forall_app; split; [done|]; try (apply Forall_cons; split; [|done])); try done;
    try (apply Forall_cons; split; [|done]); naive_solver.
Qed.

(** A provider that was just made, with any calls on it. *)
Definition fresh {A} (l : list (prog A)) : Pool A := mkPool l (mkCache None None) [] [] [].

Lemma adequacy {A} S (Q : A → Prop) (l : list (prog A)) w :
  Forall (λ p, wp S p Q) l → I S (mkCache None None) → rtc (pstep (Proved S)) (fresh l) w → pool_ok S Q w.
Proof.
  intros Hl Hi Hr. assert (pool_ok S Q (fresh l)) as H0 by by constructor.
  revert H0. induction Hr; eauto using pool_step.
Qed.

(** ** OpenID Connect *)

Section oidc.
Context (origin_of : string → option string) (is_url is_email : string → bool) (cfg : OIDCConfig)
  (proved : VerifyReq → js → Prop).

(** The origins the configuration names: the issuer's and the declared ones. *)
Definition configured (u : string) : Prop :=
  ∃ o i os, origin_of u = Some o ∧ origin_of (issuerUrl cfg) = Some i ∧
    extra_origins origin_of (extraAllowedOrigins cfg) = Some os ∧ o ≠ "null" ∧ o ∈ i :: os.

Lemma assert_configured u :
  assertAllowedEndpointOrigin origin_of u (issuerUrl cfg) (extraAllowedOrigins cfg) = true → configured u.
Proof.
  unfold assertAllowedEndpointOrigin, configured. destruct (origin_of u) as [o|]; [|done].
  destruct (origin_of (issuerUrl cfg)) as [i|]; [|done]. destruct (extra_origins _ _) as [os|]; [|done].
  destruct (String.eqb o "null") eqn:En; [done|]. intros Ho%bool_decide_eq_true. exists o, i, os.
  apply String.eqb_neq in En. done.
Qed.

Definition doc_ok (d : DiscoveryDoc) : Prop :=
  configured (authorizationEndpoint d) ∧ configured (tokenEndpoint d) ∧ configured (jwksUri d).

Lemma trusted_ok d : trusted origin_of cfg d = true → doc_ok d.
Proof. unfold trusted. rewrite !andb_true_iff. intros [[Ha Ht] Hj]. split_and!; by apply assert_configured. Qed.

(** The calls of the login. *)
Inductive OidcCall :=
  | Build (state redirect : string) (challenge nonce : option string)
  | Exchange (code redirect : string) (verifier nonce : option string).

Definition run_call (c : OidcCall) : prog (AuthUrl + ExchangeCodeResult) :=
  match c with
  | Build s r ch n => pbind (oidc_buildAuthUrl origin_of is_url cfg s r ch n) (λ u, Ret (inl u))
  | Exchange co r ve n => pbind (oidc_exchangeCode origin_of is_url is_email cfg co r ve n) (λ x, Ret (inr x))
  end.

(** A user is who a payload that [jose] verified names, for the issuer and the
    client of the configuration, with the nonce of the call. *)
Definition identified (nonce : option string) (x : ExchangeCodeResult) : Prop :=
  ∃ v pl, proved v pl ∧ v_issuer v = issuerUrl cfg ∧ v_audience v = clientId cfg ∧ configured (v_jwks v) ∧
    prop_of "sub" pl = Some (JStr (i_user_id (x_user x))) ∧ i_groups (x_user x) = oidc_groups cfg pl ∧
    nonce_matches nonce pl = true.

Definition oidc_spec : Spec := {|
  Sent q := q_form q ≠ [] → configured (q_url q) ∧ q_follow q = false;
  Asked v := v_issuer v = issuerUrl cfg ∧ v_audience v = clientId cfg ∧ configured (v_jwks v);
  Proved := proved;
  I c := (∀ d, cachedDiscovery c = Some d → doc_ok d) ∧ (∀ u, cachedJwks c = Some u → configured u)
|}.

Lemma wp_discovery : wp oidc_spec (getDiscovery origin_of is_url cfg) doc_ok.
Proof.
  intros c [Hd Hj]. destruct (cachedDiscovery c) as [d|] eqn:E; [by apply Hd|]. split; [done|].
  intros [|r]; [done|]. destruct (is_5xx _); [done|]. destruct (negb (is_ok _)); [done|].
  apply (wp_bind_mono _ _ _ (λ _, True)); [by apply wp_parsed|]. intros p _.
  destruct (negb (String.eqb _ _)); [done|]. destruct (trusted _ _ _) eqn:Et; [|done]. apply trusted_ok in Et.
  intros c' [Hd' Hj']. cbn. split; [|done]. split; [by intros ? [= <-]|done].
Qed.

Lemma wp_jwks d : doc_ok d → wp oidc_spec (getJwks d) configured.
Proof.
  intros (_ & _ & Hd) c [Hc Hj]. destruct (cachedJwks c) as [u|] eqn:E; [by apply Hj|].
  split; [|done]. split; [done|]. by intros ? [= <-].
Qed.

Lemma claims_sub v c : OidcClaimsSchema is_email v = Some c → prop_of "sub" v = Some (JStr (c_sub c)).
Proof.
  unfold OidcClaimsSchema. destruct (prop_of "sub" v) as [[]|]; cbn; try done.
  repeat (case_match || (intros; simplify_option_eq)); done.
Qed.

Lemma wp_exchange co r ve n :
  wp oidc_spec (oidc_exchangeCode origin_of is_url is_email cfg co r ve n) (identified n).
Proof.
  apply (wp_bind_mono _ _ _ doc_ok); [apply wp_discovery|]. intros d Hd.
  split; [intros _; split; [apply Hd|done]|]. intros a. apply (wp_bind_mono _ _ _ (λ _, True)).
  { destruct a as [|rs]; cbn; [done|]. by repeat case_match. }
  intros rs _. apply (wp_bind_mono _ _ _ (λ _, True)); [by apply wp_parsed|]. intros tok _.
  apply (wp_bind_mono _ _ _ configured); [by apply wp_jwks|]. intros u Hu. split; [done|].
  intros va Hva. destruct va as [| | |pl]; cbn; try done. specialize (Hva pl eq_refl).
  destruct (OidcClaimsSchema is_email pl) as [c|] eqn:Ec; [|done]. apply claims_sub in Ec.
  destruct (nonce_matches n pl) eqn:En; [|done]. cbn. eexists _, pl. split_and!; done.
Qed.

(** [C15] The OpenID Connect provider under any network. In every interleaving of
    logins on one provider, whatever the discovery document, the token endpoint
    and the redirections answer: a request with the client secret is sent only to
    an origin the configuration names and follows no redirection; the browser is
    sent only to such an origin; and a login ends only with the subject, the
    groups and the nonce of a payload that was verified against keys from such an
    origin, for the configured issuer and this client. *)
Theorem oidc_confined (l : list OidcCall) (w : Pool (AuthUrl + ExchangeCodeResult)) :
  rtc (pstep proved) (fresh (run_call <$> l)) w →
  (∀ q, q ∈ sent w → q_form q ≠ [] → configured (q_url q) ∧ q_follow q = false) ∧
  (∀ u, inl u ∈ done_ w → configured (au_endpoint u)) ∧
  (∀ x, inr x ∈ done_ w → ∃ co r ve n, Exchange co r ve n ∈ l ∧ identified n x).
Proof.
  set (Q r := match r with
              | inl u => configured (au_endpoint u)
              | inr x => ∃ co r ve n, Exchange co r ve n ∈ l ∧ identified n x end).
  intros Hr. destruct (adequacy oidc_spec Q (run_call <$> l) w) as [_ _ Hs _ Hd]; [|by split|done|].
  - apply Forall_fmap, Forall_forall. intros [s r ch n|co r ve n] Hin; cbn [run_call compose].
    + apply (wp_bind_mono _ _ _ (λ u, configured (au_endpoint u))); [|done].
      apply (wp_bind_mono _ _ _ doc_ok); [apply wp_discovery|]. by intros d (? & _ & _).
    + apply (wp_bind_mono _ _ _ (identified n)); [apply wp_exchange|]. intros x Hx. cbn. eauto 10.
  - rewrite Forall_forall in Hs. rewrite Forall_forall in Hd. split_and!.
    + intros q Hq. apply (Hs q Hq).
    + intros u Hu. apply (Hd _ Hu).
    + intros x Hx. apply (Hd _ Hx).
Qed.
End oidc.

(** ** Google *)

Lemma google_claims_sub is_email v c : GoogleClaimsSchema is_email v = Some c →
  prop_of "sub" v = Some (JStr (c_sub c)) ∧ c_hd c = z_str (prop_of "hd" v).
Proof.
  unfold GoogleClaimsSchema, z_opt. destruct (prop_of "sub" v) as [[]|]; cbn; try done.
  destruct (z_email is_email _); cbn; [|done]. destruct (prop_of "hd" v) as [h|] eqn:Eh.
  - repeat (case_match || (intros; simplify_option_eq)); done.
  - repeat (case_match || (intros; simplify_option_eq)); done.
Qed.

(** A login with Google ends only with the subject and the domain of a verified payload. *)
Lemma wp_google is_email cfg proved co r ve n :
  wp {| Sent q := q_form q ≠ [] → q_url q = g_token cfg;
        Asked v := v_issuer v = g_issuer cfg ∧ v_audience v = g_clientId cfg ∧ v_jwks v = g_jwks cfg;
        Proved := proved; I _ := True |}
     (google_exchangeCode is_email cfg co r ve n)
     (λ x, ∃ v pl, proved v pl ∧ v_issuer v = g_issuer cfg ∧ v_audience v = g_clientId cfg ∧
        prop_of "sub" pl = Some (JStr (i_user_id (x_user x))) ∧ i_org_id (x_user x) = z_str (prop_of "hd" pl) ∧
        nonce_matches n pl = true).
Proof.
  split; [done|]. intros a. apply (wp_bind_mono _ _ _ (λ _, True)).
  { destruct a as [|rs]; cbn; [done|]. by repeat case_match. }
  intros rs _. apply (wp_bind_mono _ _ _ (λ _, True)); [by apply wp_parsed|]. intros tok _. split; [done|].
  intros va Hva. destruct va as [| | |pl]; cbn; try done. specialize (Hva pl eq_refl).
  destruct (GoogleClaimsSchema is_email pl) as [c|] eqn:Ec; [|done]. apply google_claims_sub in Ec as [Es Eh].
  destruct (nonce_matches n pl) eqn:En; [|done]. cbn. eexists _, pl. split_and!; done.
Qed.

(** ** GitHub *)

Section github.
Context (origin_of : string → option string).

(** What [fetchWithRetry] sends is its request, twice at most. *)
Lemma wp_retry S q : Sent S q → wp S (fetchWithRetry q) (λ _, True).
Proof. intros Hq. split; [done|]. intros [|r]; [|destruct (is_5xx _)]; cbn; try done; (split; [done|]; by intros []). Qed.

Lemma wp_github_fetch {A} S q (f : js → option A) : Sent S q → wp S (github_fetch q f) (λ _, True).
Proof.
  intros Hq. apply (wp_bind_mono _ _ _ (λ _, True)); [by apply wp_retry|]. intros r _. destruct (is_ok _); [|done].
  apply (wp_bind_mono _ _ _ (λ _, True)); [by apply wp_parsed|done].
Qed.

(** The access token goes to the API only. *)
Definition api_only (base : string) : Spec := {|
  Sent q := q_bearer q ≠ None → origin_of (q_url q) = origin_of base ∧ q_form q = [];
  Asked _ := False; Proved _ _ := True; I _ := True |}.

Lemma next_link_origin h o u : parseNextLink origin_of h o = Some u → origin_of u = Some o.
Proof.
  unfold parseNextLink. destruct (truthy h); cbn; [|done]. destruct (first_next _) as [t|]; cbn; [|done].
  destruct (origin_of t) as [o'|] eqn:E; cbn; [|done]. destruct (String.eqb o' o) eqn:Eo; [|done].
  apply String.eqb_eq in Eo as ->. by intros [= <-].
Qed.

Lemma wp_pages base o token f fuel url logins :
  origin_of base = Some o → (∀ u, truthy url = Some u → origin_of u = Some o) →
  wp (api_only base) (pages origin_of fuel o token f url logins) (λ _, True).
Proof.
  intros Hb. revert url logins. induction fuel as [|fuel IH]; intros url logins Hu; cbn [pages]; destruct (truthy url) as [u|] eqn:Et; try done.
  apply (wp_bind_mono _ _ _ (λ _, True)).
  { apply wp_github_fetch. intros _. cbn. by rewrite Hb, (Hu u). }
  intros lr _. apply IH. intros u' Hu'%truthy_inv. by apply next_link_origin in Hu'.
Qed.

(** Wherever the pages of a listing lead and whatever they hold, the access
    token of the user is sent to the origin of the configured API and nowhere
    else, for organisations and installations alike. *)
Theorem github_token_confined (cfg : GitHubConfig) (fuel : nat) (calls : list string)
    (w : Pool (list string)) (proved : VerifyReq → js → Prop) :
  (∀ p, startsWith "/" p = true → origin_of (apiBaseUrl cfg +:+ p) = origin_of (apiBaseUrl cfg)) →
  rtc (pstep proved) (fresh (github_listMemberships origin_of fuel cfg <$> calls)) w →
  ∀ q, q ∈ sent w → q_bearer q ≠ None → origin_of (q_url q) = origin_of (apiBaseUrl cfg).
Proof.
  intros Hjoin Hr.
  set (S := mkSpec (Sent (api_only (apiBaseUrl cfg))) (λ _, False) proved (λ _, True)).
  destruct (adequacy S (λ _, True) (github_listMemberships origin_of fuel cfg <$> calls) w) as [_ _ Hs _ _]; [|done|done|].
  - apply Forall_fmap, Forall_forall. intros token _. cbn [compose].
    assert (∀ path f, startsWith "/" path = true →
      wp (api_only (apiBaseUrl cfg)) (list_logins origin_of fuel path f (apiBaseUrl cfg) token) (λ _, True)) as Hl.
    { intros path f Hp. unfold list_logins. destruct (origin_of (apiBaseUrl cfg)) as [o|] eqn:Eo; [|done].
      apply wp_pages; [done|]. intros u Hu%truthy_inv. injection Hu as <-. rewrite Hjoin by done. done. }
    assert (∀ {A} (p : prog A) Q, wp (api_only (apiBaseUrl cfg)) p Q → wp S p Q) as Hw.
    { intros A p Q. induction p; cbn; naive_solver. }
    apply Hw. unfold github_listMemberships. destruct (gh_app cfg && _); by apply Hl.
  - rewrite Forall_forall in Hs. intros q Hq Hb. by apply (Hs q Hq).
Qed.
End github.
End ProviderSafety.

(** * Listings of GitHub, page by page

    The header that leads from page to page read back, and the loop over the
    pages: complete when the pages end, endless when a page names itself. *)

From S2P Require Import Prelude Paths AuthState Login Providers.
Local Open Scope Z_scope.

Module ProviderPages.
Import Login Providers ProviderSafety.

(** ** The header *)

Lemma until_gt_app t r : has_char ">" t = false → until_gt (t +:+ String ">" r) = Some (t, r).
Proof.
  induction t as [|a t IH]; [done|]. cbn [has_char]. rewrite orb_false_iff. intros [Ha Ht].
  change (String a t +:+ String ">" r) with (String a (t +:+ String ">" r)). cbn [until_gt]. rewrite IH by done.
  by rewrite Ha.
Qed.

(** One link of the header, and what its texts must not hold. *)
Definition link (l : string * string) : string :=
  String "<" (l.1 +:+ String ">" ("; rel=" +:+ String dquote (l.2 +:+ String dquote ""))).

Definition plain (s : string) : Prop :=
  has_char "<" s = false ∧ has_char ">" s = false ∧ has_char "," s = false ∧ has_char dquote s = false.
Definition link_ok (l : string * string) : Prop := l.1 ≠ "" ∧ plain l.1 ∧ plain l.2.

Lemma match_part_none s : has_char "<" s = false → match_part s = None.
Proof.
  induction s as [|a s IH]; [done|]. cbn [has_char match_part]. rewrite orb_false_iff. intros [-> Hs]. by apply IH.
Qed.

Lemma has_char_link_tail c rel :
  has_char c rel = false → Ascii.eqb dquote c = false → has_char c "; rel=" = false →
  has_char c ("; rel=" +:+ String dquote (rel +:+ String dquote "")) = false.
Proof.
  intros Hr Hq Hp. rewrite Paths.has_char_app, Hp. cbn [has_char orb]. rewrite Paths.has_char_app, Hr. cbn [has_char orb].
  by rewrite Hq.
Qed.

(** The quoted relation decides. *)
Lemma rel_next_iff rel :
  has_char dquote rel = false →
  startsWith rel_next ("rel=" +:+ String dquote (rel +:+ String dquote "")) = bool_decide (rel = "next").
Proof.
  intros Hr. case_bool_decide as Hn; [by subst|]. apply not_true_is_false. intros [t Et]%Paths.startsWith_spec.
  apply Hn. unfold rel_next in Et. rewrite str_app_assoc in Et. apply str_app_inj in Et. injection Et as Et.
  rewrite str_app_assoc in Et. by apply (first_sep dquote rel "next" "" t).
Qed.

Lemma match_link l :
  link_ok l → match_part (link l) = if decide (l.2 = "next") then Some l.1 else None.
Proof.
  destruct l as [u rel]. intros (Hne & (Hu1 & Hu2 & _) & (Hr1 & _ & _ & Hr4)). cbn [fst snd] in *.
  unfold link. cbn [fst snd match_part]. rewrite Ascii.eqb_refl. unfold match_at.
  rewrite until_gt_app by done. cbn [mbind option_bind]. apply String.eqb_neq in Hne. rewrite Hne.
  change (skip_spaces ("; rel=" +:+ ?x)) with (String ";" (" rel=" +:+ x)). cbn [Ascii.eqb Bool.eqb andb].
  change (skip_spaces (" rel=" +:+ ?x)) with ("rel=" +:+ x). rewrite rel_next_iff by done.
  assert (match_part (u +:+ String ">" ("; rel=" +:+ String dquote (rel +:+ String dquote ""))) = None) as ->.
  { apply match_part_none. rewrite Paths.has_char_app, Hu1. cbn [orb]. change (has_char "<" (String ">" ?x)) with (has_char "<" x).
    by apply has_char_link_tail. }
  case_bool_decide as Hn; [by rewrite decide_True|by rewrite decide_False].
Qed.

(** The parts of a header. *)
Lemma split_header x l :
  Forall (λ s, has_char "," s = false) (x :: l) →
  split_on "," (join ", " (x :: l)) = x :: ((λ s, String " " s) <$> l).
Proof.
  revert x. induction l as [|y l IH]; intros x [Hx Hl]%Forall_cons; [by rewrite split_on_none|].
  change (join ", " (x :: y :: l)) with (x +:+ String "," (String " " (join ", " (y :: l)))).
  rewrite split_on_sep, split_on_none by done. cbn [app]. f_equal.
  pose proof (split_on_app "," " " (join ", " (y :: l)) eq_refl) as E. rewrite IH in E by done. exact E.
Qed.

Lemma link_no_comma l : link_ok l → has_char "," (link l) = false.
Proof.
  destruct l as [u rel]. intros (_ & (_ & _ & Hu & _) & (_ & _ & Hr & _)). unfold link. cbn [fst snd] in *.
  change (has_char "," (String "<" ?x)) with (has_char "," x). rewrite Paths.has_char_app, Hu. cbn [orb].
  change (has_char "," (String ">" ?x)) with (has_char "," x). by apply has_char_link_tail.
Qed.

Lemma first_next_links (f : string → string) l1 u l2 :
  (∀ s, match_part (f s) = match_part s) → Forall (λ l, link_ok l ∧ l.2 ≠ "next") l1 → link_ok (u, "next") →
  first_next ((λ l, f (link l)) <$> (l1 ++ (u, "next") :: l2)) = Some u.
Proof.
  intros Hf Hl Hu. induction Hl as [|l l1 [Hl Hn] _ IH]; cbn [fmap list_fmap app first_next]; rewrite Hf, match_link by done.
  - by rewrite decide_True.
  - by rewrite decide_False.
Qed.

(** The header of a page read back: among the links of a page, the one to the
    next page is found whatever relations stand before and after it, and it is
    followed when its origin is the expected one and only then. *)
Theorem next_link_read (origin_of : string → option string) (l1 l2 : list (string * string)) (u o : string) :
  Forall link_ok (l1 ++ (u, "next") :: l2) → Forall (λ l, l.2 ≠ "next") l1 →
  parseNextLink origin_of (Some (join ", " (link <$> l1 ++ (u, "next") :: l2))) o =
    if decide (origin_of u = Some o) then Some u else None.
Proof.
  intros Hok Hn.
  assert (first_next (split_on "," (join ", " (link <$> l1 ++ (u, "next") :: l2))) = Some u) as Hf.
  { pose proof Hok as Hoks. apply Forall_app in Hok as [H1 [Hu _]%Forall_cons].
    assert (Forall (λ l, link_ok l ∧ l.2 ≠ "next") l1) as H1'.
    { apply Forall_forall. intros x Hx. rewrite Forall_forall in H1. rewrite Forall_forall in Hn. auto. }
    assert (Forall (λ s, has_char "," s = false) (link <$> l1 ++ (u, "next") :: l2)) as Hc.
    { apply Forall_fmap. apply (Forall_impl _ _ _ Hoks). intros l. apply link_no_comma. }
    destruct l1 as [|x l1]; cbn [app fmap list_fmap] in *; rewrite split_header by done; cbn [first_next].
    - rewrite match_link by done. by rewrite decide_True.
    - apply Forall_cons in H1' as [[Hx Hx'] H1']. rewrite match_link, decide_False by done.
      rewrite <- list_fmap_compose. by apply (first_next_links (String " ")). }
  unfold parseNextLink. assert (truthy (Some (join ", " (link <$> l1 ++ (u, "next") :: l2)))
    = Some (join ", " (link <$> l1 ++ (u, "next") :: l2))) as ->.
  { apply truthy_Some. intros E. by rewrite E in Hf. }
  cbn [mbind option_bind]. rewrite Hf. cbn [mbind option_bind]. destruct (origin_of u) as [o'|]; cbn; [|by rewrite decide_False].
  destruct (String.eqb o' o) eqn:E; [apply String.eqb_eq in E as ->; by rewrite decide_True|].
  apply String.eqb_neq in E. rewrite decide_False; [done|]. congruence.
Qed.


(** ** The pages *)

(** A run with a network that answers a request always in the same way. *)
Fixpoint run_net {A} (net : HttpRequest → NetAnswer) (p : prog A) : IdpError + A :=
  match p with
  | Ret a => inr a
  | Raise e => inl e
  | Fetch q k => run_net net (k (net q))
  | Verify _ k => run_net net (k Rejected)
  | Read k => run_net net (k (mkCache None None))
  | Write _ p => run_net net p
  end.

Lemma run_bind {A B} net (p : prog A) (f : A → prog B) :
  run_net net (pbind p f) = match run_net net p with inl e => inl e | inr a => run_net net (f a) end.
Proof. induction p; cbn; auto. Qed.

Section pages.
Context (origin_of : string → option string) (net : HttpRequest → NetAnswer) (token expected : string)
  (f : js → option (list string)).

(** The page at a URL and the one it leads to. *)
Definition page (u : string) (l : list string) (next : option string) : Prop :=
  ∃ r v, net (api_get u token) = NetOk r ∧ is_ok (r_status r) = true ∧ r_body r = Some v ∧ f v = Some l ∧
    parseNextLink origin_of (r_link r) expected = next.

Inductive listing : string → list (list string) → Prop :=
  | L_last u l : page u l None → listing u [l]
  | L_more u l u' ls : page u l (Some u') → listing u' ls → listing u (l :: ls).

Lemma page_fetched u l next :
  page u l next → ∃ r, run_net net (github_fetch (api_get u token) f) = inr (l, r) ∧
    parseNextLink origin_of (r_link r) expected = next.
Proof.
  intros (r & v & Hn & Hok & Hb & Hf & Hnext). exists r. split; [|done]. unfold github_fetch, fetchWithRetry.
  cbn [pbind run_net]. rewrite Hn. assert (is_5xx (r_status r) = false) as ->.
  { unfold is_5xx, is_ok in *. apply bool_decide_eq_true in Hok. apply bool_decide_eq_false. lia. }
  cbn [pbind]. rewrite Hok. unfold parsed. by rewrite Hb, Hf.
Qed.

Lemma match_at_nonempty s t : match_at s = Some t → t ≠ "".
Proof.
  unfold match_at. destruct (until_gt s) as [[t' r]|]; cbn; [|done]. destruct (String.eqb t' "") eqn:E; [done|].
  destruct (skip_spaces r); [done|]. destruct (_ && _); [|done]. intros [= ->]. by apply String.eqb_neq.
Qed.

Lemma match_part_nonempty s t : match_part s = Some t → t ≠ "".
Proof.
  induction s as [|a s IH]; [done|]. cbn [match_part]. destruct (Ascii.eqb a "<"); [|done].
  destruct (match_at s) as [t'|] eqn:E; [|done]. intros [= ->]. by apply (match_at_nonempty s).
Qed.

Lemma next_link_nonempty h u : parseNextLink origin_of h expected = Some u → u ≠ "".
Proof.
  unfold parseNextLink. destruct (truthy h) as [h'|]; cbn; [|done]. destruct (first_next _) as [t|] eqn:E; cbn; [|done].
  destruct (origin_of t); cbn; [|done]. destruct (String.eqb _ _); [|done]. intros [= <-]. clear h.
  induction (split_on "," h') as [|p l IH]; [done|]. cbn [first_next] in E. destruct (match_part p) as [t'|] eqn:Ep; [|auto].
  injection E as ->. by apply (match_part_nonempty p).
Qed.

Lemma pages_all fuel u ls acc :
  listing u ls → u ≠ "" → (length ls ≤ fuel)%nat →
  run_net net (pages origin_of fuel expected token f (Some u) acc) = inr (acc ++ concat ls).
Proof.
  intros Hl. revert fuel acc. induction Hl as [u l Hp|u l u' ls Hp Hl IH]; intros [|fuel] acc Hu Hfuel; cbn in Hfuel; try lia;
    cbn [pages]; rewrite truthy_Some by done; rewrite run_bind; destruct (page_fetched _ _ _ Hp) as (r & -> & Hn);
    cbv beta iota; cbn [fst snd]; rewrite Hn.
  - destruct fuel; cbn; by rewrite app_nil_r.
  - rewrite IH; [|by apply next_link_nonempty in Hn|lia]. by rewrite <- app_assoc.
Qed.

(** A page that names itself as the next one. *)
Lemma pages_endless fuel u l acc :
  page u l (Some u) → u ≠ "" → run_net net (pages origin_of fuel expected token f (Some u) acc) = inl Unfinished.
Proof.
  intros Hp Hu. revert acc. induction fuel as [|fuel IH]; intros acc; cbn [pages]; rewrite truthy_Some by done; [done|].
  rewrite run_bind. destruct (page_fetched _ _ _ Hp) as (r & -> & Hn).
  cbv beta iota. cbn [fst snd]. rewrite Hn. apply IH.
Qed.
End pages.

(** The memberships of a user are all the pages of the listing, in order:
    with fuel for as many pages as there are, the list is their concatenation,
    for organisations and for installations; a page that names itself as the next
    one is asked for ever, whatever the fuel. *)
Theorem memberships_all_pages (origin_of : string → option string) (net : HttpRequest → NetAnswer) (cfg : GitHubConfig)
    (token o : string) (fuel : nat) (ls : list (list string)) :
  origin_of (apiBaseUrl cfg) = Some o →
  let installed := gh_app cfg && by_installations cfg in
  let first := apiBaseUrl cfg +:+ (if installed then "/user/installations?per_page=100" else "/user/orgs?per_page=100") in
  let f := if installed then GitHubInstallationsSchema else GitHubOrgsSchema in
  (listing origin_of net token o f first ls → (length ls ≤ fuel)%nat →
     run_net net (github_listMemberships origin_of fuel cfg token) = inr (concat ls)) ∧
  (∀ l, page origin_of net token o f first l (Some first) →
     run_net net (github_listMemberships origin_of fuel cfg token) = inl Unfinished).
Proof.
  intros Ho installed first f.
  assert (github_listMemberships origin_of fuel cfg token = pages origin_of fuel o token f (Some first) []) as ->.
  { unfold github_listMemberships, listGitHubAppInstallations, listGitHubOrgs, list_logins. rewrite Ho.
    unfold f, first, installed. by destruct (gh_app cfg && _). }
  assert (first ≠ "") as Hne.
  { unfold first. destruct (apiBaseUrl cfg); [by destruct installed|done]. }
  split; [intros Hl Hf; by apply (pages_all origin_of net token o f fuel first ls [])|].
  intros l Hp. by apply (pages_endless origin_of net token o f fuel first l []).
Qed.

(** ** Witnesses *)

(** A parser of origins: the text before the third slash. *)
Definition demo_origin (u : string) : option string :=
  match split_on "/" u with
  | scheme :: empty :: host :: _ => if String.eqb empty "" then Some (scheme +:+ "//" +:+ host) else None
  | _ => None
  end.

Definition hub : GitHubConfig := mkGitHub "id" "secret" "https://api.hub" "https://hub" false false.
Definition page1 : string := "https://api.hub/user/orgs?per_page=100".
Definition page2 : string := "https://api.hub/user/orgs?page=2".
Definition org (n : string) : js := JObj [("login", JStr n)].
Definition hub_net (q : HttpRequest) : NetAnswer :=
  if String.eqb (q_url q) page1
  then NetOk (mkResp 200 (Some (JArr [org "a"; org "b"])) (Some (join ", " (link <$> [(page1, "prev"); (page2, "next")]))))
  else NetOk (mkResp 200 (Some (JArr [org "c"])) None).

Lemma demo_origin_join p : startsWith "/" p = true → demo_origin ("https://api.hub" +:+ p) = Some "https://api.hub".
Proof.
  intros [t ->]%Paths.startsWith_spec. unfold demo_origin.
  change ("https://api.hub" +:+ "/" +:+ t) with ("https://api.hub" +:+ String "/" t). by rewrite split_on_sep.
Qed.

Lemma next_link_read_witness :
  parseNextLink demo_origin (Some (join ", " (link <$> [(page1, "prev"); (page2, "next")]))) "https://api.hub" = Some page2.
Proof.
  pose proof (next_link_read demo_origin [(page1, "prev")] [] page2 "https://api.hub") as Hn.
  rewrite decide_True in Hn by reflexivity. apply Hn.
  - repeat constructor; cbn; discriminate.
  - repeat constructor; cbn; discriminate.
Defined.

Lemma memberships_all_pages_witness :
  run_net hub_net (github_listMemberships demo_origin 5 hub "t") = inr ["a"; "b"; "c"].
Proof.
  destruct (memberships_all_pages demo_origin hub_net hub "t" "https://api.hub" 5 [["a"; "b"]; ["c"]]) as [Hl _];
    [reflexivity|].
  apply Hl; [|cbn; lia]. apply (L_more _ _ _ _ _ _ _ page2).
  - eexists _, _. split; [reflexivity|]. split; [reflexivity|]. split; [reflexivity|]. split; [reflexivity|].
    vm_compute. reflexivity.
  - apply L_last. eexists _, _. split; [reflexivity|]. split; [reflexivity|]. split; [reflexivity|]. split; reflexivity.
Defined.

(** A run of a program alone on its provider, newest request first. *)
Fixpoint trace {A} (net : HttpRequest → NetAnswer) (ver : VerifyReq → VerifyAnswer) (p : prog A) (c : Cache)
    (s : list HttpRequest) (v : list VerifyReq) : Pool A :=
  match p with
  | Ret a => mkPool [] c s v [a]
  | Raise _ => mkPool [] c s v []
  | Fetch q k => trace net ver (k (net q)) c (q :: s) v
  | Verify u k => trace net ver (k (ver u)) c s (u :: v)
  | Read k => trace net ver (k c) c s v
  | Write c' p => trace net ver p c' s v
  end.

Lemma trace_runs {A} proved net ver (p : prog A) c s v :
  (∀ u pl, ver u = Accepted pl → proved u pl) →
  rtc (pstep proved) (mkPool [p] c s v []) (trace net ver p c s v).
Proof.
  intros Hv. revert c s v. induction p as [a|e|q k IH|u k IH|k IH|c' p IH]; intros c s v; cbn [trace].
  - apply rtc_once. apply (P_ret _ a [] []).
  - apply rtc_once. apply (P_raise _ e [] []).
  - eapply rtc_l; [apply (P_fetch _ q k (net q) [] [])|apply IH].
  - eapply rtc_l; [apply (P_verify _ u k (ver u) [] []); apply Hv|apply IH].
  - eapply rtc_l; [apply (P_read _ k [] [])|apply IH].
  - eapply rtc_l; [apply (P_write _ c' p [] [])|apply IH].
Qed.

Lemma github_token_confined_witness :
  ∃ w, rtc (pstep (λ _ _, True)) (fresh (github_listMemberships demo_origin 5 hub <$> ["t"])) w ∧
    (q_url <$> sent w) = [page2; page1] ∧ done_ w = [["a"; "b"; "c"]] ∧
    ∀ q, q ∈ sent w → q_bearer q ≠ None → demo_origin (q_url q) = Some "https://api.hub".
Proof.
  set (p := github_listMemberships demo_origin 5 hub "t").
  exists (trace hub_net (λ _, Rejected) p (mkCache None None) [] []).
  assert (rtc (pstep (λ _ _, True)) (fresh [p]) (trace hub_net (λ _, Rejected) p (mkCache None None) [] [])) as Hr
    by (apply trace_runs; discriminate).
  split; [exact Hr|]. split; [vm_compute; reflexivity|]. split; [vm_compute; reflexivity|].
  apply (github_token_confined demo_origin hub 5 ["t"] _ (λ _ _, True)); [|exact Hr].
  intros q Hq. apply demo_origin_join. exact Hq.
Defined.

Definition idp : OIDCConfig := mkOidc "client" "secret" "https://idp" ["https://keys/x"] None (Some "realm.roles").
Definition good_doc : js :=
  JObj [("issuer", JStr "https://idp"); ("authorization_endpoint", JStr "https://idp/a");
        ("token_endpoint", JStr "https://idp/t"); ("jwks_uri", JStr "https://keys/j")].
Definition idp_net (q : HttpRequest) : NetAnswer :=
  NetOk (mkResp 200 (Some (if q_post q then JObj [("access_token", JStr "at"); ("id_token", JStr "it"); ("token_type", JStr "b")]
                           else good_doc)) None).
Definition alice : js :=
  JObj [("sub", JStr "alice"); ("nonce", JStr "n"); ("realm", JObj [("roles", JArr [JStr "dev"; JNum 1])])].

Lemma oidc_confined_witness :
  ∃ w, rtc (pstep (λ _ pl, pl = alice))
         (fresh (run_call demo_origin (λ _, true) (λ _, true) idp <$> [Exchange "code" "uri" None (Some "n")])) w ∧
    done_ w = [inr (mkExchange (mkIdpUser "alice" "alice" None None (Some ["dev"])) "at" None)] ∧
    (∀ q, q ∈ sent w → q_form q ≠ [] → configured demo_origin idp (q_url q) ∧ q_follow q = false).
Proof.
  set (p := run_call demo_origin (λ _, true) (λ _, true) idp (Exchange "code" "uri" None (Some "n"))).
  exists (trace idp_net (λ _, Accepted alice) p (mkCache None None) [] []).
  assert (rtc (pstep (λ _ pl, pl = alice)) (fresh [p]) (trace idp_net (λ _, Accepted alice) p (mkCache None None) [] [])) as Hr.
  { apply trace_runs. intros u pl E. injection E as <-. reflexivity. }
  split; [exact Hr|]. split; [vm_compute; reflexivity|].
  destruct (oidc_confined demo_origin (λ _, true) (λ _, true) idp (λ _ pl, pl = alice)
    [Exchange "code" "uri" None (Some "n")] _ Hr) as [Hs _]. exact Hs.
Defined.
End ProviderPages.
