(* ===== verification/OrgsGuard.v ===== *)
(** * Unique names of organisations at start ([src/boot-orgs-uniqueness.ts], the
    first steps of [openAndMigrate] in [src/database.ts])

    The schema creates a unique index on the names of the organisations. A guard
    looks for duplicates first and refuses to start, naming them, unless an
    operator accepts them; the acceptance is to be written in the audit log once
    the migrations are done. *)

From S2P Require Import Prelude Paths AuditChain AuthState Rotation Envelope MasterKey.
Local Open Scope Z_scope.

Module OrgsGuard.
Import AuditChain Envelope MasterKey.

(** ** The guard *)

Record OrgDuplicateRow := mkDup { d_name : string; d_n : nat; d_ids : string }.

Definition rows_named (name : string) (rows : list OrgRow) : list OrgRow := filter (λ r, o_name r = name) rows.

(** [GROUP BY name HAVING COUNT of rows > 1], in the order of the names. *)
Definition duplicates (rows : list OrgRow) : list OrgDuplicateRow :=
  omap (λ name, let g := rows_named name rows in
                if decide (1 < length g)%nat then Some (mkDup name (length g) (join "," (o_id <$> g))) else None)
    (merge_sort str_le (dedup (o_name <$> rows))).

Definition detail (dupes : list OrgDuplicateRow) : string :=
  join (String (Paths.char 10) "")
    ((λ d, "  name=" +:+ dq +:+ d_name d +:+ dq +:+ " (" +:+ pretty (d_n d) +:+ " rows, ids: " +:+ d_ids d +:+ ")")
       <$> dupes).

Record PendingAudit := mkPending { pa_duplicates : list OrgDuplicateRow; pa_total : nat }.

(** The database as the start finds it: its version, the table of organisations
    if there is one, the index on their names, the audit log; and the key of the
    log, which belongs to the process. *)
Record Boot := mkBoot {
  user_version : Z;
  orgs_table : option (list OrgRow);
  idx_orgs_name : bool;
  audit_log : Log;
  chainKey : option string
}.

Definition with_table (t : option (list OrgRow)) (s : Boot) : Boot :=
  mkBoot (user_version s) t (idx_orgs_name s) (audit_log s) (chainKey s).
Definition with_index (s : Boot) : Boot :=
  mkBoot (user_version s) (orgs_table s) true (audit_log s) (chainKey s).
Definition with_audit (l : Log) (s : Boot) : Boot :=
  mkBoot (user_version s) (orgs_table s) (idx_orgs_name s) l (chainKey s).
Definition with_chainKey (k : option string) (s : Boot) : Boot :=
  mkBoot (user_version s) (orgs_table s) (idx_orgs_name s) (audit_log s) k.

(** The variables of the environment that are read. *)
Record BootEnv := mkBootEnv {
  COORDINATOR_ALLOW_DUPLICATE_ORG_NAMES : option string;
  COORDINATOR_OAUTH_ENABLED : option string;
  COORDINATOR_ENCRYPTION_KEY : option string
}.

(** The duplicates of a refusal, or the payload for the log. *)
Definition runOrgsUniquenessGuard (env : BootEnv) (s : Boot) : list OrgDuplicateRow + option PendingAudit :=
  match orgs_table s with
  | None => inr None
  | Some rows =>
      if idx_orgs_name s then inr None
      else
        let dupes := duplicates rows in
        if decide (dupes = []) then inr None
        else
          let totalDuplicateRows := foldl (λ sum d, sum + d_n d)%nat 0%nat dupes in
          if decide (COORDINATOR_ALLOW_DUPLICATE_ORG_NAMES env = Some "1")
          then inr (Some (mkPending dupes totalDuplicateRows))
          else inl dupes
  end.

(** ** The schema *)

Definition default_org : OrgRow := mkOrg "default" "Default Organization" None None [].

(** What [SCHEMA] does to the organisations, statement by statement; [None] when
    the index cannot be created, which ends the script. *)
Definition create_table (s : Boot) : Boot := with_table (Some (default [] (orgs_table s))) s.

Definition create_index (s : Boot) : option Boot :=
  if idx_orgs_name s then Some s
  else if decide (NoDup (o_name <$> default [] (orgs_table s))) then Some (with_index s) else None.

(** [INSERT OR IGNORE]: neither the identifier nor the name may be taken. *)
Definition insert_default (s : Boot) : Boot :=
  let rows := default [] (orgs_table s) in
  if decide (o_id default_org ∈ o_id <$> rows ∨ (idx_orgs_name s = true ∧ o_name default_org ∈ o_name <$> rows))
  then s else with_table (Some (rows ++ [default_org])) s.

Definition exec_schema (s : Boot) : option Boot := insert_default <$> create_index (create_table s).

(** ** The audit row of an acceptance *)

Section audit_row.
Context `{!Digest} (deriveAuditChainKey : Buffer → string).

Definition loadEncryptionKey (env : BootEnv) : KeyError + option Buffer :=
  match truthy (COORDINATOR_ENCRYPTION_KEY env) with
  | None => inr None
  | Some raw => match decodeMasterKey raw with inl e => inl e | inr k => inr (Some k) end
  end.

Definition configureAuditChainKeyFromMaster (masterKey : option Buffer) (s : Boot) : Boot :=
  with_chainKey (deriveAuditChainKey <$> masterKey) s.

Definition ensureAuditChainKeyForBootAudit (env : BootEnv) (s : Boot) : KeyError + Boot :=
  if decide (COORDINATOR_OAUTH_ENABLED env ≠ Some "true") then inr s
  else match chainKey s with
       | Some _ => inr s
       | None => match loadEncryptionKey env with
                 | inl e => inl e
                 | inr masterKey => inr (configureAuditChainKeyFromMaster masterKey s)
                 end
       end.

Definition json_array (l : list string) : string := "[" +:+ join "," l +:+ "]".

Definition dup_json (d : OrgDuplicateRow) : string :=
  "{" +:+ quote "name" +:+ ":" +:+ quote (d_name d) +:+ "," +:+ quote "n" +:+ ":" +:+ pretty (d_n d) +:+ ","
  +:+ quote "ids" +:+ ":" +:+ json_array (quote <$> split_on "," (d_ids d)) +:+ "}".

(** [JSON.stringify(metadata)] *)
Definition metadata (payload : PendingAudit) : string :=
  "{" +:+ quote "duplicate_groups" +:+ ":" +:+ pretty (length (pa_duplicates payload)) +:+ ","
  +:+ quote "total_rows" +:+ ":" +:+ pretty (pa_total payload) +:+ ","
  +:+ quote "duplicates" +:+ ":" +:+ json_array (dup_json <$> pa_duplicates payload) +:+ "}".

Definition accepted_row (payload : PendingAudit) : AuditChainFields :=
  mkFields "admin.orgs.duplicate_names_accepted" None None None None (Some (metadata payload)) (Some "success") None None.

(** [io] tells whether the transaction commits. *)
Definition emitDuplicatesAcceptedAudit (io : bool) (payload : PendingAudit) (s : Boot) : option Boot :=
  if io then Some (with_audit (append (chainKey s) (accepted_row payload) (audit_log s)) s) else None.

(** ** The start *)

Definition CURRENT_USER_VERSION : Z := 12.

Inductive BootResult :=
  | NewerDatabase (found : Z)
  | DuplicateNames (dupes : list OrgDuplicateRow)
  | SchemaFailed
  | MigrationFailed
  | BadKey (e : KeyError)
  | AuditFailed
  | Started.

(** Up to the schema: the result of the guard is kept for the end. *)
Definition open_schema (env : BootEnv) (s : Boot) : (BootResult + option PendingAudit) * Boot :=
  if decide (CURRENT_USER_VERSION < user_version s) then (inl (NewerDatabase (user_version s)), s)
  else match runOrgsUniquenessGuard env s with
       | inl dupes => (inl (DuplicateNames dupes), s)
       | inr pending =>
           match exec_schema s with
           | None => (inl SchemaFailed, create_table s)
           | Some s => (inr pending, s)
           end
       end.

(** [later] is everything between the schema and the audit row. *)
Definition openAndMigrate (later : Boot → option Boot) (io : bool) (env : BootEnv) (s : Boot) : BootResult * Boot :=
  match open_schema env s with
  | (inl r, s) => (r, s)
  | (inr pending, s) =>
      match later s with
      | None => (MigrationFailed, s)
      | Some s =>
          match pending with
          | None => (Started, s)
          | Some payload =>
              match ensureAuditChainKeyForBootAudit env s with
              | inl e => (BadKey e, s)
              | inr s =>
                  match emitDuplicatesAcceptedAudit io payload s with
                  | None => (AuditFailed, s)
                  | Some s => (Started, s)
                  end
              end
          end
      end
  end.
End audit_row.

(** ** What the guard finds *)

Lemma elem_of_names rows name : name ∈ merge_sort str_le (dedup (o_name <$> rows)) ↔ name ∈ o_name <$> rows.
Proof. by rewrite merge_sort_Permutation, elem_of_dedup. Qed.

Lemma named_once rows : (∀ name, (length (rows_named name rows) ≤ 1)%nat) ↔ NoDup (o_name <$> rows).
Proof.
  induction rows as [|r rows IH]; [split; [intros _; constructor|intros _ n; simpl; lia]|].
  rewrite fmap_cons, NoDup_cons, <- IH. unfold rows_named. split.
  - intros H. split.
    + intros (r' & E & Hin)%list_elem_of_fmap. specialize (H (o_name r)). rewrite filter_cons_True in H by done.
      assert (r' ∈ filter (λ x, o_name x = o_name r) rows) as Hf by (by apply list_elem_of_filter).
      destruct (filter _ rows); [by apply elem_of_nil in Hf|simpl in H; lia].
    + intros n. specialize (H n). rewrite filter_cons in H. case_decide; simpl in H; lia.
  - intros [Hn H] n. rewrite filter_cons. case_decide as E; [|done]. subst n.
    destruct (filter _ rows) as [|r' l] eqn:Ef; [simpl; lia|]. exfalso. apply Hn, list_elem_of_fmap.
    assert (r' ∈ filter (λ x, o_name x = o_name r) rows) as [E Hin]%list_elem_of_filter by (rewrite Ef; left).
    by exists r'.
Qed.

Lemma elem_of_duplicates rows d : d ∈ duplicates rows ↔
  (1 < length (rows_named (d_name d) rows))%nat ∧ d_n d = length (rows_named (d_name d) rows)
  ∧ d_ids d = join "," (o_id <$> rows_named (d_name d) rows).
Proof.
  unfold duplicates. rewrite list_elem_of_omap. split.
  - intros (name & _ & H). case_decide; [|done]. by injection H as <-.
  - intros (Hl & Hn & Hi). exists (d_name d). split; [|rewrite decide_True by done; destruct d; simpl in *; congruence].
    apply elem_of_names, list_elem_of_fmap. destruct (rows_named (d_name d) rows) as [|r l] eqn:E; [simpl in Hl; lia|].
    exists r. assert (r ∈ rows_named (d_name d) rows) as [? ?]%list_elem_of_filter by (rewrite E; left). done.
Qed.

Lemma no_duplicates rows : duplicates rows = [] ↔ NoDup (o_name <$> rows).
Proof.
  rewrite <- named_once. split.
  - intros E n. destruct (decide (1 < length (rows_named n rows))%nat) as [Hl|]; [|lia].
    assert (mkDup n (length (rows_named n rows)) (join "," (o_id <$> rows_named n rows)) ∈ duplicates rows) as Hin
      by (by apply elem_of_duplicates).
    rewrite E in Hin. by apply elem_of_nil in Hin.
  - intros H. destruct (duplicates rows) as [|d l] eqn:E; [done|]. exfalso.
    assert (d ∈ duplicates rows) as (Hl & _ & _)%elem_of_duplicates by (rewrite E; left). specialize (H (d_name d)). lia.
Qed.

(** ** The index and the names *)

(** What the table and its index guarantee while nothing else writes them. *)
Definition orgs_ok (s : Boot) : Prop :=
  NoDup (o_id <$> default [] (orgs_table s))
  ∧ (idx_orgs_name s = true → orgs_table s ≠ None ∧ NoDup (o_name <$> default [] (orgs_table s))).

Lemma NoDup_fmap_snoc {A B} (f : A → B) l x : NoDup (f <$> l) → f x ∉ f <$> l → NoDup (f <$> l ++ [x]).
Proof.
  intros Hl Hx. rewrite fmap_app. apply NoDup_app. split_and!; [done| |by apply NoDup_singleton].
  intros y Hy Hin. apply list_elem_of_singleton in Hin. by subst.
Qed.

Lemma insert_default_ok s : orgs_ok s → orgs_ok (insert_default s).
Proof.
  intros [Hid Hix]. unfold insert_default. case_decide as Hd; [done|]. apply Decidable.not_or in Hd as [Hi Hn].
  split; cbn [orgs_table with_table idx_orgs_name default]; [by apply NoDup_fmap_snoc|].
  intros E. split; [done|]. apply NoDup_fmap_snoc; [by apply Hix|]. intros ?. by apply Hn.
Qed.

Lemma insert_default_keeps s r : r ∈ default [] (orgs_table s) → r ∈ default [] (orgs_table (insert_default s)).
Proof.
  intros Hr. unfold insert_default. case_decide; [done|]. cbn [orgs_table with_table default]. apply elem_of_app. by left.
Qed.

Lemma insert_default_default s : default_org ∈ default [] (orgs_table (insert_default s))
  ∨ o_id default_org ∈ o_id <$> default [] (orgs_table s) ∨ o_name default_org ∈ o_name <$> default [] (orgs_table s).
Proof.
  unfold insert_default. case_decide as Hd; [naive_solver|]. left. cbn [orgs_table with_table default].
  apply elem_of_app. right. by left.
Qed.

Lemma insert_default_index s : idx_orgs_name (insert_default s) = idx_orgs_name s.
Proof. unfold insert_default. by case_decide. Qed.

(** The schema runs exactly when no name is doubled, and leaves the index. *)
Lemma exec_schema_spec s : orgs_ok s →
  match exec_schema s with
  | Some s' => NoDup (o_name <$> default [] (orgs_table s)) ∧ orgs_ok s' ∧ idx_orgs_name s' = true
      ∧ ∀ r, r ∈ default [] (orgs_table s) → r ∈ default [] (orgs_table s')
  | None => idx_orgs_name s = false ∧ ¬ NoDup (o_name <$> default [] (orgs_table s))
  end.
Proof.
  intros Hok. pose proof Hok as [Hid Hix]. unfold exec_schema, create_index. cbn [create_table idx_orgs_name with_table].
  destruct (idx_orgs_name s) eqn:Ei; cbn [fmap option_fmap option_map].
  - destruct (Hix eq_refl) as [_ Hn]. split_and!; [done| | |].
    + apply insert_default_ok. by split.
    + by rewrite insert_default_index.
    + intros r Hr. by apply insert_default_keeps.
  - cbn [orgs_table with_table default]. case_decide as Hn; cbn; [|done]. split_and!; [done| | |].
    + apply insert_default_ok. by split.
    + by rewrite insert_default_index.
    + intros r Hr. by apply insert_default_keeps.
Qed.

Lemma guard_spec env s : orgs_ok s →
  match runOrgsUniquenessGuard env s with
  | inl dupes => dupes = duplicates (default [] (orgs_table s)) ∧ dupes ≠ [] ∧ idx_orgs_name s = false
      ∧ COORDINATOR_ALLOW_DUPLICATE_ORG_NAMES env ≠ Some "1"
  | inr None => NoDup (o_name <$> default [] (orgs_table s))
  | inr (Some p) => pa_duplicates p = duplicates (default [] (orgs_table s)) ∧ pa_duplicates p ≠ []
      ∧ idx_orgs_name s = false ∧ COORDINATOR_ALLOW_DUPLICATE_ORG_NAMES env = Some "1"
  end.
Proof.
  intros [_ Hix]. unfold runOrgsUniquenessGuard. destruct (orgs_table s) as [rows|] eqn:Et; [|apply NoDup_nil_2].
  destruct (idx_orgs_name s) eqn:Ei; [by apply Hix|]. cbn [default] in *.
  case_decide as Hd; [by apply no_duplicates|]. by case_decide.
Qed.

(** A start that reaches the migrations has unique names and the index, kept
    every organisation and has nothing to write in the audit log. Otherwise the
    database is too new; or there are doubled names, no index, and either the
    override is not given and all of them are named, or it is given and the
    schema fails all the same. No organisation is lost or changed. *)
Lemma open_schema_cases env s : orgs_ok s →
  let names := o_name <$> default [] (orgs_table s) in
  match open_schema env s with
  | (inr pending, s') => pending = None ∧ NoDup names ∧ orgs_ok s' ∧ idx_orgs_name s' = true
      ∧ (∀ r, r ∈ default [] (orgs_table s) → r ∈ default [] (orgs_table s'))
  | (inl r, s') => default [] (orgs_table s') = default [] (orgs_table s) ∧ audit_log s' = audit_log s
      ∧ match r with
        | NewerDatabase v => v = user_version s ∧ CURRENT_USER_VERSION < v
        | DuplicateNames dupes => COORDINATOR_ALLOW_DUPLICATE_ORG_NAMES env ≠ Some "1" ∧ ¬ NoDup names
            ∧ idx_orgs_name s = false ∧ dupes = duplicates (default [] (orgs_table s))
        | SchemaFailed => COORDINATOR_ALLOW_DUPLICATE_ORG_NAMES env = Some "1" ∧ ¬ NoDup names
            ∧ idx_orgs_name s = false
        | _ => False
        end
  end.
Proof.
  intros Hok names. unfold open_schema. case_decide; [done|].
  pose proof (guard_spec env s Hok) as Hg. pose proof (exec_schema_spec s Hok) as Hs.
  destruct (runOrgsUniquenessGuard env s) as [dupes|[p|]].
  - destruct Hg as (-> & Hne & Hi & He). split_and!; try done. by intros ?%no_duplicates.
  - destruct Hg as (-> & Hne & Hi & He).
    assert (¬ NoDup names) by (by intros ?%no_duplicates).
    destruct (exec_schema s) as [s'|]; [by destruct Hs|done].
  - destruct (exec_schema s) as [s'|]; [by destruct Hs as (? & ? & ? & ?)|by destruct Hs].
Qed.

Section override.
Context `{!Digest} (deriveAuditChainKey : Buffer → string).

(** [C40] The outcome of a start, whatever the migrations after the schema do, for a
    database this version can read and whose organisations have no index yet. With
    unique names the migrations run on a database that has the index and every
    organisation, and they alone decide. With a doubled name no start succeeds:
    without the override all the doubled names are reported, and with it the
    schema fails at the index. The rows of the organisations and the audit log are
    then as they were (statements of the schema before the index have run). That
    the override lets a start proceed and is audited, as the header of the guard,
    its error message and the change log say, is not so: see
    [override_never_audited]. *)
Theorem orgs_boot_outcome later io env s :
  orgs_ok s → idx_orgs_name s = false → user_version s ≤ CURRENT_USER_VERSION →
  let rows := default [] (orgs_table s) in
  let '(r, s') := openAndMigrate deriveAuditChainKey later io env s in
  (NoDup (o_name <$> rows) → ∃ s1, orgs_ok s1 ∧ idx_orgs_name s1 = true
     ∧ (∀ o, o ∈ rows → o ∈ default [] (orgs_table s1))
     ∧ (r, s') = match later s1 with None => (MigrationFailed, s1) | Some s2 => (Started, s2) end)
  ∧ (¬ NoDup (o_name <$> rows) →
     default [] (orgs_table s') = rows ∧ audit_log s' = audit_log s
     ∧ if decide (COORDINATOR_ALLOW_DUPLICATE_ORG_NAMES env = Some "1") then r = SchemaFailed
       else r = DuplicateNames (duplicates rows)
         ∧ ∀ o, o ∈ rows → (1 < length (rows_named (o_name o) rows))%nat → o_name o ∈ d_name <$> duplicates rows).
Proof.
  intros Hok Hi Hv rows. pose proof (open_schema_cases env s Hok) as Ho. cbv zeta in Ho. unfold openAndMigrate.
  destruct (open_schema env s) as [[r|pending] s'].
  - destruct Ho as (Ht & Hl & Hr). split.
    + intros Hn. exfalso. destruct r; try done; [destruct Hr; unfold CURRENT_USER_VERSION in *; lia|naive_solver..].
    + intros Hn. split_and!; [done|done|]. destruct r as [v|dupes| | | | |]; try done.
      * destruct Hr; unfold CURRENT_USER_VERSION in *; lia.
      * destruct Hr as (He & _ & _ & ->). rewrite decide_False by done. split; [done|].
        intros o Hin Hlen. apply list_elem_of_fmap.
        exists (mkDup (o_name o) (length (rows_named (o_name o) rows)) (join "," (o_id <$> rows_named (o_name o) rows))).
        split; [done|]. by apply elem_of_duplicates.
      * destruct Hr as (He & _). by rewrite decide_True.
  - destruct Ho as (-> & Hn & Hok' & Hx & Hk). destruct (later s') as [s2|] eqn:El; (split; [|done]); intros _;
      exists s'; rewrite El; by split_and!.
Qed.

(** The override neither lets a start go on despite doubled names nor leaves a
    row in the audit log: whatever the rest of the start does, with doubled names
    and no index no start succeeds and the log is what it was. *)
Theorem override_never_audited later io env s :
  orgs_ok s → idx_orgs_name s = false → ¬ NoDup (o_name <$> default [] (orgs_table s)) →
  (openAndMigrate deriveAuditChainKey later io env s).1 ≠ Started
  ∧ audit_log (openAndMigrate deriveAuditChainKey later io env s).2 = audit_log s.
Proof.
  intros Hok Hi Hn. pose proof (open_schema_cases env s Hok) as Ho. cbv zeta in Ho. unfold openAndMigrate.
  destruct (open_schema env s) as [[r|pending] s']; [|by destruct Ho as (_ & ? & _)].
  destruct Ho as (_ & Hl & Hr). split; [|done]. by destruct r.
Qed.

(** The row itself, where it is written, keeps the chain. *)
Lemma emit_keeps_chain io payload s s' :
  log_ok (chainKey s) (audit_log s) → emitDuplicatesAcceptedAudit io payload s = Some s' →
  log_ok (chainKey s') (audit_log s') ∧ orgs_table s' = orgs_table s.
Proof.
  intros Hl. unfold emitDuplicatesAcceptedAudit. destruct io; [|done]. intros [= <-].
  split; [by apply append_ok|done].
Qed.

(** The key is derived once, on a deployment with logins only. *)
Lemma ensure_idempotent env s s' : ensureAuditChainKeyForBootAudit deriveAuditChainKey env s = inr s' →
  ensureAuditChainKeyForBootAudit deriveAuditChainKey env s' = inr s'
  ∧ (chainKey s ≠ None → s' = s) ∧ (COORDINATOR_OAUTH_ENABLED env ≠ Some "true" → s' = s).
Proof.
  unfold ensureAuditChainKeyForBootAudit. case_decide as Ho; [intros [= <-]; by split_and!|].
  destruct (chainKey s) eqn:Ek; [intros [= <-]; rewrite Ek; by split_and!|].
  destruct (loadEncryptionKey env) as [e|k] eqn:El; [done|]. intros [= <-]. cbn [chainKey configureAuditChainKeyFromMaster with_chainKey].
  destruct k; cbn [fmap option_fmap option_map]; split_and!; done.
Qed.
End override.

(** ** Two organisations of one name *)

Definition twin (id : string) : OrgRow := mkOrg id "Acme" None None [].
Definition upgraded : Boot := mkBoot 9 (Some [default_org; twin "o1"; twin "o2"]) false (mkLog [] 0) None.
Definition accepting : BootEnv := mkBootEnv (Some "1") None None.

Lemma upgraded_ok : orgs_ok upgraded.
Proof. split; [|done]. apply (bool_decide_unpack (NoDup (o_id <$> [default_org; twin "o1"; twin "o2"]))). vm_compute. done. Qed.

Lemma orgs_boot_outcome_witness :
  let rows := [default_org; twin "o1"; twin "o2"] in
  (@openAndMigrate checksum_digest (λ _, "k") Some true (mkBootEnv None None None) upgraded).1 = DuplicateNames (duplicates rows)
  ∧ duplicates rows = [mkDup "Acme" 2 "o1,o2"].
Proof.
  intros rows. split; [|vm_compute; reflexivity].
  pose proof (@orgs_boot_outcome checksum_digest (λ _, "k") Some true (mkBootEnv None None None) upgraded upgraded_ok eq_refl
    ltac:(vm_compute; discriminate)) as H. cbv zeta in H.
  destruct (@openAndMigrate checksum_digest (λ _, "k") Some true (mkBootEnv None None None) upgraded) as [r s'].
  destruct H as [_ H]. cbn [fst]. destruct H as (_ & _ & H).
  - intros H. apply (bool_decide_pack _) in H. vm_compute in H. exact H.
  - destruct (decide _) as [E|_] in H; [discriminate E|]. destruct H as [H _]. exact H.
Defined.

Lemma override_never_audited_witness :
  (@openAndMigrate checksum_digest (λ _, "k") Some true accepting upgraded).1 ≠ Started
  ∧ audit_log (@openAndMigrate checksum_digest (λ _, "k") Some true accepting upgraded).2 = mkLog [] 0.
Proof.
  apply (@override_never_audited checksum_digest (λ _, "k") Some true accepting upgraded).
  - apply upgraded_ok.
  - reflexivity.
  - intros H. apply (bool_decide_pack _) in H. vm_compute in H. exact H.
Defined.
End OrgsGuard.
