(* ===== verification/SdkClient.v ===== *)
(** * The client library ([sdk/src/client.ts], [errors.ts], [refresh-strategy.ts],
    [storage.ts])

    A client keeps a pair of tokens in memory and, if asked to, in a store shared
    with other processes. It refreshes them when they are about to expire, on a
    timer or before a call, inside the lock of the single flight when it has one.
    The answers of the server have the shapes it documents; what the network or a
    body that is no JSON does is [Unreadable]. *)

From Stdlib Require Import QArith Qround.
From S2P Require Import Prelude.
Local Open Scope Z_scope.

Module SdkClient.

(** ** Errors *)

Record AppErrorEnvelope := mkApp { e_code : string; e_message : string; e_request_id : option string }.

Inductive ErrorClass :=
  | UnauthorizedError | ForbiddenError | RateLimitedError | NotInAllowlistError | UserNotProvisionedError
  | LoginLockedError | IdpUnavailableError | IdpTokenRevokedError | InvalidStateError | StateAlreadyConsumedError
  | StateExpiredError | CsrfFailedError | NotFoundError | UnknownCoordinatorError (code : string).

Record CoordinatorError := mkError {
  c_class : ErrorClass; c_message : string; c_httpStatus : Z; c_requestId : option string;
  c_retryAfterSeconds : option (option Z)
}.

(** The field [code] of each class. *)
Definition class_code (c : ErrorClass) : string :=
  match c with
  | UnauthorizedError => "UNAUTHORIZED"
  | ForbiddenError => "FORBIDDEN"
  | RateLimitedError => "RATE_LIMITED"
  | NotInAllowlistError => "NOT_IN_ALLOWLIST"
  | UserNotProvisionedError => "USER_NOT_PROVISIONED"
  | LoginLockedError => "LOGIN_LOCKED"
  | IdpUnavailableError => "IDP_UNAVAILABLE"
  | IdpTokenRevokedError => "IDP_TOKEN_REVOKED"
  | InvalidStateError => "INVALID_STATE"
  | StateAlreadyConsumedError => "STATE_ALREADY_CONSUMED"
  | StateExpiredError => "STATE_EXPIRED"
  | CsrfFailedError => "CSRF_FAILED"
  | NotFoundError => "NOT_FOUND"
  | UnknownCoordinatorError code => code
  end.

Definition class_of (code : string) : ErrorClass :=
  if decide (code = "UNAUTHORIZED") then UnauthorizedError
  else if decide (code = "FORBIDDEN") then ForbiddenError
  else if decide (code = "RATE_LIMITED") then RateLimitedError
  else if decide (code = "NOT_IN_ALLOWLIST") then NotInAllowlistError
  else if decide (code = "USER_NOT_PROVISIONED") then UserNotProvisionedError
  else if decide (code = "LOGIN_LOCKED") then LoginLockedError
  else if decide (code = "IDP_UNAVAILABLE") then IdpUnavailableError
  else if decide (code = "IDP_TOKEN_REVOKED") then IdpTokenRevokedError
  else if decide (code = "INVALID_STATE") then InvalidStateError
  else if decide (code = "STATE_ALREADY_CONSUMED") then StateAlreadyConsumedError
  else if decide (code = "STATE_EXPIRED") then StateExpiredError
  else if decide (code = "CSRF_FAILED") then CsrfFailedError
  else if decide (code = "NOT_FOUND") then NotFoundError
  else UnknownCoordinatorError code.

Definition keeps_retry_after (c : ErrorClass) : bool :=
  match c with RateLimitedError | LoginLockedError => true | _ => false end.

Definition makeCoordinatorError (envelope : AppErrorEnvelope) (httpStatus : Z) (retryAfterSeconds : option Z)
    : CoordinatorError :=
  let c := class_of (e_code envelope) in
  mkError c (e_message envelope) httpStatus (e_request_id envelope)
    (if keeps_retry_after c then Some retryAfterSeconds else None).

Inductive Failure :=
  | OAuthError (error : string) (status : Z)
  | Coordinator (e : CoordinatorError)
  | HttpError (status : Z)
  | UnexpectedStatus (status : Z)
  | NoRefreshToken
  | StoreFailed
  | NetworkFailed.

(** ** Tokens *)

Record TokenSet := mkTokens { accessToken : string; refreshToken : string; accessExpiresAt : Z }.

#[export] Instance TokenSet_eq_dec : EqDecision TokenSet.
Proof. solve_decision. Defined.

Record TokenResponse := mkTokenResponse { r_access : string; r_refresh : string; r_expires_in : Z }.

(** An answer of the token endpoint; [Refused] is a status 400. *)
Inductive Reply :=
  | Granted (t : TokenResponse)
  | Refused (error : string)
  | Other (status : Z) (envelope : option AppErrorEnvelope) (retryAfter : option Z)
  | Unreadable.

(** [makeErrorFromResponse]; an empty code is no code. *)
Definition makeErrorFromResponse (status : Z) (envelope : option AppErrorEnvelope) (retryAfter : option Z) : Failure :=
  match envelope with
  | Some e => match truthy (Some (e_code e)) with
              | Some _ => Coordinator (makeCoordinatorError e status retryAfter)
              | None => HttpError status
              end
  | None => HttpError status
  end.

(** Seconds now, from [Date.now()]. *)
Definition seconds (nowMs : Z) : Z := nowMs / 1000.

Definition token_set (nowMs : Z) (t : TokenResponse) : TokenSet :=
  mkTokens (r_access t) (r_refresh t) (seconds nowMs + r_expires_in t).

(** ** The timer *)

Record ProactiveRefresh := mkProactive { leadSeconds : Z; jitterSeconds : Z }.
Definition DEFAULT_LEAD_SECONDS : Z := 120.
Definition DEFAULT_JITTER_SECONDS : Z := 30.
Definition proactive : ProactiveRefresh := mkProactive DEFAULT_LEAD_SECONDS DEFAULT_JITTER_SECONDS.

(** [r] is the draw of the generator. *)
Definition jitterS (pr : ProactiveRefresh) (r : Q) : Q := ((r * 2 - 1) * inject_Z (jitterSeconds pr))%Q.

Definition delay_ms (pr : ProactiveRefresh) (r : Q) (nowMs : Z) (t : TokenSet) : Q :=
  ((inject_Z (accessExpiresAt t - leadSeconds pr) + jitterS pr r - inject_Z (seconds nowMs)) * 1000)%Q.

Definition nextRefreshDelayMs (pr : ProactiveRefresh) (r : Q) (nowMs : Z) (t : TokenSet) : option Z :=
  let d := delay_ms pr r nowMs t in
  if Qle_bool d 0 then None else Some (Qfloor d).

(** [setTimeout] of Node: a delay below one or above the largest of 32 bits is
    replaced by one millisecond. *)
Definition TIMEOUT_MAX : Z := 2147483647.
Definition setTimeout (delay : Z) : Z := if decide (1 ≤ delay ≤ TIMEOUT_MAX) then delay else 1.

(** What the client holds; [timer] is when the timer fires. *)
Record McpCoordinatorClient := mkClient { tokens : option TokenSet; timer : option Z }.

Definition cancelProactiveRefresh (c : McpCoordinatorClient) : McpCoordinatorClient := mkClient (tokens c) None.

(** [strategy] is absent for the lazy client; the draw comes with it. *)
Definition scheduleProactiveRefresh (strategy : option (ProactiveRefresh * Q)) (nowMs : Z) (c : McpCoordinatorClient)
    : McpCoordinatorClient :=
  let c := cancelProactiveRefresh c in
  match strategy, tokens c with
  | Some (pr, r), Some t =>
      match nextRefreshDelayMs pr r nowMs t with
      | None => c
      | Some delayMs => mkClient (tokens c) (Some (nowMs + setTimeout delayMs))
      end
  | _, _ => c
  end.

(** ** Refreshing *)

(** The shared store, if there is one; [save_ok] tells whether a write of it
    succeeds. The exchange reports the refresh token it presented. *)
Record Exchange := mkExchange {
  x_result : Failure + TokenSet;
  x_presented : option string;
  x_client : McpCoordinatorClient;
  x_store : option TokenSet
}.

Section refresh.
Context (strategy : option (ProactiveRefresh * Q)) (has_store : bool).

Definition doRefresh (nowMs : Z) (reply : Reply) (save_ok : bool) (c : McpCoordinatorClient)
    (store : option TokenSet) : Exchange :=
  match tokens c with
  | None => mkExchange (inl NoRefreshToken) None c store
  | Some t =>
      let p := Some (refreshToken t) in
      match reply with
      | Unreadable => mkExchange (inl NetworkFailed) p c store
      | Refused error => mkExchange (inl (OAuthError error 400)) p c store
      | Other status envelope ra => mkExchange (inl (makeErrorFromResponse status envelope ra)) p c store
      | Granted tr =>
          let newSet := token_set nowMs tr in
          let c := mkClient (Some newSet) (timer c) in
          if has_store && negb save_ok then mkExchange (inl StoreFailed) p c store
          else mkExchange (inr newSet) p (scheduleProactiveRefresh strategy nowMs c)
                 (if has_store then Some newSet else store)
      end
  end.

(** The body of [refresh] under the lock: the store is read again first. *)
Definition refresh_locked (nowMs : Z) (reply : Reply) (save_ok : bool) (c : McpCoordinatorClient)
    (store : option TokenSet) : Exchange :=
  match store with
  | Some stored =>
      if has_store && bool_decide (seconds nowMs + 60 < accessExpiresAt stored)
      then mkExchange (inr stored) None
             (scheduleProactiveRefresh strategy nowMs (mkClient (Some stored) (timer c))) store
      else doRefresh nowMs reply save_ok c store
  | None => doRefresh nowMs reply save_ok c store
  end.

Definition refresh (locked : bool) : Z → Reply → bool → McpCoordinatorClient → option TokenSet → Exchange :=
  if locked then refresh_locked else doRefresh.

(** [maybeRefresh]: a failure is swallowed. *)
Definition maybeRefresh (locked : bool) (nowMs : Z) (reply : Reply) (save_ok : bool) (c : McpCoordinatorClient)
    (store : option TokenSet) : McpCoordinatorClient * option TokenSet :=
  match tokens c with
  | None => (c, store)
  | Some t =>
      if decide (accessExpiresAt t - seconds nowMs < 60)
      then let x := refresh locked nowMs reply save_ok c store in (x_client x, x_store x)
      else (c, store)
  end.

Definition authHeader (c : McpCoordinatorClient) : option string := (λ t, "Bearer " +:+ accessToken t) <$> tokens c.

(** [whoami] up to its request: the header it sends. *)
Definition whoami (locked : bool) (nowMs : Z) (reply : Reply) (save_ok : bool) (c : McpCoordinatorClient)
    (store : option TokenSet) : option string * (McpCoordinatorClient * option TokenSet) :=
  let r := maybeRefresh locked nowMs reply save_ok c store in (authHeader r.1, r).

(** [clearTokens], without the store, whose removal is not awaited. *)
Definition clearTokens (c : McpCoordinatorClient) : McpCoordinatorClient :=
  cancelProactiveRefresh (mkClient None (timer c)).

Definition ok_status (s : Z) : bool := bool_decide (200 ≤ s < 300).

(** [logout] and [logoutAll]: the status of the answer, or none. *)
Definition logout (status : option Z) (c : McpCoordinatorClient) : option Failure * McpCoordinatorClient :=
  match status with
  | None => (Some NetworkFailed, c)
  | Some s => if negb (ok_status s) && negb (bool_decide (s = 204)) then (Some (UnexpectedStatus s), c)
              else (None, clearTokens c)
  end.

(** ** Polling with a device code *)

Inductive PollStatus := Pending | SlowDown | Expired | Denied.

Inductive PollResult :=
  | PollTokens (t : TokenSet)
  | PollStatusOf (s : PollStatus)
  | PollInherited (name : string)
  | PollFailed (f : Failure).

(** The names every object has: they are in the map too. *)
Definition inherited : list string :=
  ["constructor"; "__defineGetter__"; "__defineSetter__"; "hasOwnProperty"; "__lookupGetter__"; "__lookupSetter__";
   "isPrototypeOf"; "propertyIsEnumerable"; "toString"; "valueOf"; "__proto__"; "toLocaleString"].

Definition poll_error (error : string) : PollResult :=
  if decide (error = "authorization_pending") then PollStatusOf Pending
  else if decide (error = "slow_down") then PollStatusOf SlowDown
  else if decide (error = "expired_token") then PollStatusOf Expired
  else if decide (error = "access_denied") then PollStatusOf Denied
  else if decide (error ∈ inherited) then PollInherited error
  else PollFailed (OAuthError error 400).

(** A grant here is a status 200. *)
Definition deviceCodePoll (nowMs : Z) (reply : Reply) (save_ok : bool) (c : McpCoordinatorClient)
    (store : option TokenSet) : PollResult * (McpCoordinatorClient * option TokenSet) :=
  match reply with
  | Granted tr =>
      let newSet := token_set nowMs tr in
      let c := mkClient (Some newSet) (timer c) in
      if has_store && negb save_ok then (PollFailed StoreFailed, (c, store))
      else (PollTokens newSet, (scheduleProactiveRefresh strategy nowMs c, if has_store then Some newSet else store))
  | Refused error => (poll_error error, (c, store))
  | Other status envelope ra => (PollFailed (makeErrorFromResponse status envelope ra), (c, store))
  | Unreadable => (PollFailed NetworkFailed, (c, store))
  end.
End refresh.

(** ** The file store *)

(** The file and the writes that wait for their turn; a removal does not wait. *)
Record FileTokenStore := mkFileStore { file : option TokenSet; writeQueue : list TokenSet }.

Inductive StoreOp := Save (t : TokenSet) | WriteNext | Clear.

Definition store_step (o : StoreOp) (s : FileTokenStore) : FileTokenStore :=
  match o with
  | Save t => mkFileStore (file s) (writeQueue s ++ [t])
  | WriteNext => match writeQueue s with t :: q => mkFileStore (Some t) q | [] => s end
  | Clear => mkFileStore None (writeQueue s)
  end.

Definition store_run (os : list StoreOp) (s : FileTokenStore) : FileTokenStore := foldl (λ s o, store_step o s) s os.

(** ** Tokens given and taken *)

Section tokens.
Context (strategy : option (ProactiveRefresh * Q)) (has_store : bool).

(** With the operation that the store is asked for. *)
Definition setTokens (nowMs : Z) (t : TokenSet) (c : McpCoordinatorClient) : McpCoordinatorClient * list StoreOp :=
  (scheduleProactiveRefresh strategy nowMs (mkClient (Some t) (timer c)), if has_store then [Save t] else []).

Definition persistTokens (c : McpCoordinatorClient) : list StoreOp :=
  match tokens c with Some t => if has_store then [Save t] else [] | None => [] end.

(** [loaded] is what the store holds. *)
Definition loadFromStore (nowMs : Z) (loaded : option TokenSet) (c : McpCoordinatorClient) : McpCoordinatorClient :=
  if negb has_store then c
  else match tokens c with
       | Some _ => c
       | None =>
           match loaded with
           | Some t => scheduleProactiveRefresh strategy nowMs (mkClient (Some t) (timer c))
           | None => c
           end
       end.
End tokens.

Definition dispose : McpCoordinatorClient → McpCoordinatorClient := cancelProactiveRefresh.

(** [revoke] of a token: the status of the answer, or none; the client keeps its own. *)
Definition revoke (status : option Z) : option Failure :=
  match status with
  | None => Some NetworkFailed
  | Some s => if negb (ok_status s) && negb (bool_decide (s = 204)) then Some (UnexpectedStatus s) else None
  end.
End SdkClient.

(** * What the client library guarantees

    Errors keep the code the server gave; the timer fires before the tokens expire,
    unless they live too long for a timer; and processes that share a store and
    take turns exchange each refresh token once, as long as each comes back before
    the tokens of the store are about to expire. *)

From Stdlib Require Import QArith Qround Lqa.
From S2P Require Import Prelude.
Local Open Scope Z_scope.

Module SdkSafety.
Import SdkClient.

(** ** Errors *)

(** The class of an error has the code of the envelope, known or not. *)
Lemma error_code_kept envelope status ra :
  class_code (c_class (makeCoordinatorError envelope status ra)) = e_code envelope.
Proof. unfold makeCoordinatorError, class_of. cbn [c_class]. repeat case_decide; done. Qed.

(** ** The timer *)

Lemma seconds_bounds nowMs : seconds nowMs * 1000 ≤ nowMs < seconds nowMs * 1000 + 1000.
Proof. unfold seconds. pose proof (Z.mod_pos_bound nowMs 1000). pose proof (Z.div_mod nowMs 1000). lia. Qed.

Lemma jitter_bounds pr r : (0 <= r <= 1)%Q → 0 ≤ jitterSeconds pr →
  (inject_Z (- jitterSeconds pr) <= jitterS pr r <= inject_Z (jitterSeconds pr))%Q.
Proof.
  intros [H0 H1] Hj. unfold jitterS. rewrite inject_Z_opp.
  assert (0 <= inject_Z (jitterSeconds pr))%Q as Hq by (change 0%Q with (inject_Z 0); by rewrite <- Zle_Qle).
  split; nra.
Qed.

Lemma inject_Z_sub a b : inject_Z (a - b) == inject_Z a - inject_Z b.
Proof. unfold Z.sub. by rewrite inject_Z_plus, inject_Z_opp. Qed.

Lemma delay_floor pr r nowMs t : (0 <= r <= 1)%Q → 0 ≤ jitterSeconds pr →
  (accessExpiresAt t - leadSeconds pr - jitterSeconds pr - seconds nowMs) * 1000
  ≤ Qfloor (delay_ms pr r nowMs t)
  ≤ (accessExpiresAt t - leadSeconds pr + jitterSeconds pr - seconds nowMs) * 1000.
Proof.
  intros Hr Hj. destruct (jitter_bounds pr r Hr Hj) as [Hlo Hhi]. rewrite inject_Z_opp in Hlo. unfold delay_ms.
  assert (∀ a, inject_Z (a * 1000) == inject_Z a * 1000) as Hm by (intros a; by rewrite inject_Z_mult).
  split; rewrite <- (Qfloor_Z (_ * 1000)); apply Qfloor_resp_le; rewrite Hm, ?inject_Z_sub, ?inject_Z_plus, ?inject_Z_sub;
    generalize dependent (jitterS pr r); intros; lra.
Qed.

(** With a delay a timer can hold, the refresh fires before the lead, give or
    take the jitter, and in the future. *)
Lemma timer_before_expiry pr r nowMs t c at_ms : (0 <= r <= 1)%Q → 0 ≤ jitterSeconds pr →
  timer (scheduleProactiveRefresh (Some (pr, r)) nowMs (mkClient (Some t) c)) = Some at_ms →
  (accessExpiresAt t - leadSeconds pr + jitterSeconds pr - seconds nowMs) * 1000 ≤ TIMEOUT_MAX →
  nowMs < at_ms ∧ (at_ms = nowMs + 1
    ∨ at_ms ≤ (accessExpiresAt t - leadSeconds pr + jitterSeconds pr) * 1000 + 999).
Proof.
  intros Hr Hj. unfold scheduleProactiveRefresh. cbn [tokens cancelProactiveRefresh].
  unfold nextRefreshDelayMs. destruct (Qle_bool _ _); [done|]. cbn [timer]. intros Ht Hm.
  apply (inj Some) in Ht as <-.
  pose proof (delay_floor pr r nowMs t Hr Hj) as [_ Hd]. pose proof (seconds_bounds nowMs).
  unfold setTimeout. case_decide; lia.
Qed.

(** A token that lives longer than a timer can wait is refreshed after one
    millisecond, and so is every token it is exchanged for. *)
Theorem long_lived_token_refreshed_at_once pr r nowMs t c : (0 <= r <= 1)%Q → 0 ≤ jitterSeconds pr →
  TIMEOUT_MAX < (accessExpiresAt t - leadSeconds pr - jitterSeconds pr - seconds nowMs) * 1000 →
  timer (scheduleProactiveRefresh (Some (pr, r)) nowMs (mkClient (Some t) c)) = Some (nowMs + 1).
Proof.
  intros Hr Hj Hm. unfold scheduleProactiveRefresh. cbn [tokens cancelProactiveRefresh].
  pose proof (delay_floor pr r nowMs t Hr Hj) as [Hd _]. unfold nextRefreshDelayMs.
  destruct (Qle_bool _ _) eqn:E.
  - apply Qle_bool_iff, Qfloor_resp_le in E. change (Qfloor 0) with 0 in E. unfold TIMEOUT_MAX in Hm. lia.
  - unfold setTimeout. rewrite decide_False by lia. done.
Qed.

(** ** Calls *)

(** A call carries the new access token when the one at hand was about to expire
    and the exchange succeeded, and the one at hand otherwise. *)
Lemma whoami_header strategy has_store locked nowMs reply save_ok c store t : tokens c = Some t →
  (whoami strategy has_store locked nowMs reply save_ok c store).1
  = Some ("Bearer " +:+ accessToken
      (if decide (accessExpiresAt t - seconds nowMs < 60)
       then default t (tokens (x_client (refresh strategy has_store locked nowMs reply save_ok c store)))
       else t)).
Proof.
  intros Ht. unfold whoami, maybeRefresh, authHeader. rewrite Ht. case_decide; cbn [fst]; [|by rewrite Ht].
  destruct (tokens (x_client _)) as [t'|] eqn:E; [done|]. exfalso. revert E.
  assert (∀ n c', tokens (scheduleProactiveRefresh strategy n c') = tokens c') as Hs.
  { intros n c'. unfold scheduleProactiveRefresh. destruct strategy as [[pr r]|]; [|done].
    destruct c' as [[t'|] tm]; [|done]. unfold cancelProactiveRefresh. cbn [tokens].
    by destruct (nextRefreshDelayMs _ _ _ _). }
  assert (∀ c', tokens c' = Some t → tokens (x_client (doRefresh strategy has_store nowMs reply save_ok c' store)) ≠ None) as Hd.
  { intros c' Hc. unfold doRefresh. rewrite Hc. destruct reply; simpl; try by rewrite Hc.
    destruct (has_store && _); simpl; [done|by rewrite Hs]. }
  unfold refresh. destruct locked; [|by apply Hd]. unfold refresh_locked. destruct store as [st|]; [|by apply Hd].
  destruct (has_store && _); [|by apply Hd]. simpl. by rewrite Hs.
Qed.

(** ** Taking turns *)

(** The processes that share a store and a lock: what is stored, what each has in
    memory, and the refresh tokens that were exchanged. A turn is what a process
    does while it has the lock. *)
Record Group := mkGroup { g_store : option TokenSet; g_mem : gmap nat McpCoordinatorClient; g_used : list string }.

Record Turn := mkTurn { t_proc : nat; t_nowMs : Z; t_reply : Reply }.

Section turns.
Context (strategy : option (ProactiveRefresh * Q)).

Definition granted (x : Exchange) : list string :=
  match x_result x, x_presented x with inr _, Some p => [p] | _, _ => [] end.

Definition turn (t : Turn) (g : Group) : Group :=
  let c := default (mkClient None None) (g_mem g !! t_proc t) in
  let x := refresh strategy true true (t_nowMs t) (t_reply t) true c (g_store g) in
  mkGroup (x_store x) (<[t_proc t := x_client x]> (g_mem g)) (g_used g ++ granted x).

Definition turns (ts : list Turn) (g : Group) : Group := foldl (λ g t, turn t g) g ts.

(** The server never grants a refresh token twice. *)
Definition new_token (g : Group) (t : Turn) : Prop :=
  match t_reply t, g_store g with
  | Granted tr, Some st => r_refresh tr ∉ g_used g ∧ r_refresh tr ≠ refreshToken st
  | _, _ => True
  end.

(** A process whose memory differs from the store comes back while the tokens of
    the store have more than a minute left. *)
Definition in_time (g : Group) (t : Turn) : Prop :=
  match g_store g with
  | Some st => seconds (t_nowMs t) + 60 < accessExpiresAt st ∨ (g_mem g !! t_proc t) ≫= tokens = Some st
  | None => False
  end.

Fixpoint orderly (ts : list Turn) (g : Group) : Prop :=
  match ts with
  | [] => True
  | t :: ts => new_token g t ∧ in_time g t ∧ orderly ts (turn t g)
  end.

(** The tokens of the store were not exchanged yet. *)
Definition unspent (g : Group) : Prop :=
  NoDup (g_used g) ∧ ∃ st, g_store g = Some st ∧ refreshToken st ∉ g_used g.

Lemma turn_unspent t g : unspent g → new_token g t → in_time g t → unspent (turn t g).
Proof.
  intros [Hnd (st & Es & Hu)] Hnew Hin. unfold in_time, new_token in *. rewrite Es in *. unfold turn, refresh, refresh_locked.
  rewrite Es. cbn [andb]. case_bool_decide as Hf.
  { split; cbn; rewrite app_nil_r; eauto. }
  destruct Hin as [?|Hm]; [lia|]. destruct (g_mem g !! t_proc t) as [c|] eqn:Ec; [|done]. cbn in Hm.
  unfold doRefresh. cbn [default from_option id]. rewrite Hm.
  destruct (t_reply t) as [tr|err|status env ra|]; cbn [andb negb granted x_result x_presented].
  - destruct Hnew as [Hn1 Hn2]. split; cbn.
    + apply NoDup_app. split_and!; [done| |by apply NoDup_singleton].
      intros y Hy Hin. apply list_elem_of_singleton in Hin. by subst.
    + eexists. split; [done|]. cbn. rewrite elem_of_app, list_elem_of_singleton. naive_solver.
  - split; cbn; rewrite app_nil_r; eauto.
  - split; cbn; rewrite app_nil_r; eauto.
  - split; cbn; rewrite app_nil_r; eauto.
Qed.

(** Processes that share a store and take turns with the lock exchange each
    refresh token once, whatever the server and the network answer, when the
    server does not repeat a token and each process comes back before the tokens
    of the store are about to expire; the store then holds a token that was not
    exchanged yet. *)
Theorem refresh_tokens_exchanged_once ts g :
  unspent g → orderly ts g → unspent (turns ts g).
Proof.
  revert g. induction ts as [|t ts IH]; intros g Hg Ho; [done|]. destruct Ho as (Hn & Hi & Ho).
  apply IH; [by apply turn_unspent|done].
Qed.
End turns.

(** ** The file store *)

(** Without a removal the file holds the last of the texts saved, once the writes
    are done. *)
Lemma last_save_wins l s : file (store_run (replicate (length (writeQueue s) + length l) WriteNext)
    (store_run (Save <$> l) s)) = match last (writeQueue s ++ l) with Some t => Some t | None => file s end.
Proof.
  assert (∀ l s, store_run (Save <$> l) s = mkFileStore (file s) (writeQueue s ++ l)) as Hsave.
  { clear. induction l as [|t l IH]; intros s; [destruct s; cbn; by rewrite app_nil_r|].
    unfold store_run in *. cbn. rewrite IH. cbn. by rewrite <- app_assoc. }
  rewrite Hsave, <- length_app. clear Hsave. generalize (writeQueue s ++ l) (file s). clear s l.
  induction l as [|t l IH]; intros f; [done|]. unfold store_run in *. cbn -[last].
  rewrite IH, last_cons. by destruct (last l).
Qed.

(** A removal overtakes the writes before it: tokens that were saved and then
    removed are in the file. *)
Theorem cleared_tokens_come_back t :
  file (store_run [Save t; Clear; WriteNext] (mkFileStore None [])) = Some t.
Proof. reflexivity. Qed.

(** ** Runs *)

Definition r0 : TokenSet := mkTokens "a0" "r0" 1000.
Definition two : Group := mkGroup (Some r0) (<[1%nat := mkClient (Some r0) None]> {[2%nat := mkClient (Some r0) None]}) [].

Lemma refresh_tokens_exchanged_once_witness :
  unspent (turns None [mkTurn 1 990000 (Granted (mkTokenResponse "a1" "r1" 900)); mkTurn 2 991000 Unreadable] two).
Proof.
  apply (refresh_tokens_exchanged_once None).
  - split; [constructor|]. exists r0. split; [reflexivity|]. intros H. inversion H.
  - split; [split; [intros H; inversion H|discriminate]|]. split; [right; reflexivity|].
    split; [exact I|]. split; [left; vm_compute; reflexivity|exact I].
Defined.

(** The lock does not save a process that comes back late: the tokens of the
    store are about to expire, and it presents the refresh token it had in memory,
    which the first process has exchanged. *)
Theorem late_process_reuses_token :
  g_used (turns None [mkTurn 1 990000 (Granted (mkTokenResponse "a1" "r1" 900));
                      mkTurn 2 1850000 (Granted (mkTokenResponse "a2" "r2" 900))] two) = ["r0"; "r0"].
Proof. vm_compute. reflexivity. Qed.

(** An error whose name every object has is reported as a status. *)
Theorem inherited_error_is_a_status c store :
  (deviceCodePoll None false 0 (Refused "constructor") true c store).1 = PollInherited "constructor".
Proof. reflexivity. Qed.

Lemma long_lived_token_refreshed_at_once_witness :
  timer (scheduleProactiveRefresh (Some (proactive, (1 # 2)%Q)) 0 (mkClient (Some (mkTokens "a" "r" 2592000)) None)) = Some 1.
Proof.
  apply (long_lived_token_refreshed_at_once proactive (1 # 2)%Q 0 (mkTokens "a" "r" 2592000) None).
  - split; vm_compute; discriminate.
  - vm_compute. discriminate.
  - vm_compute. reflexivity.
Defined.

Lemma schedule_tokens strategy now c : tokens (scheduleProactiveRefresh strategy now c) = tokens c.
Proof. unfold scheduleProactiveRefresh. repeat (case_match; try done). Qed.

(** Tokens that one client was given are those that another finds in the store once the
    writes are done, and finding them again changes nothing. *)
Theorem tokens_shared strategy now now' t c c' f :
  tokens c' = None →
  let stored := file (store_run ((setTokens strategy true now t c).2 ++ [WriteNext]) (mkFileStore f [])) in
  let found := loadFromStore strategy true now' stored c' in
  tokens found = Some t ∧ ∀ now2 other, loadFromStore strategy true now2 other found = found.
Proof.
  intros Hn. cbv zeta.
  assert (∀ l, tokens (loadFromStore strategy true now' (Some l) c') = Some l) as Hl.
  { intros l. unfold loadFromStore. cbn [negb]. rewrite Hn. apply schedule_tokens. }
  change (file _) with (Some t). split; [apply Hl|]. intros now2 other. unfold loadFromStore at 1. cbn [negb]. by rewrite Hl.
Qed.
End SdkSafety.

(** * The lock of the client library ([sdk/src/single-flight.ts])

    Processes that share a token file take a lock before they refresh: a file
    created exclusively, polled for, and removed by the holder, or by a waiter that
    finds it too old. The processes interleave between their file operations. *)

From S2P Require Import Prelude.
Local Open Scope Z_scope.

Module SingleFlight.

(** The file at the path of the lock: which file it is, and its time of
    modification. *)
Record LockFile := mkLockFile { l_ino : nat; l_mtime : Z }.

(** Where a process is; between two file operations it waits. The deadline is set
    on entry. *)
Inductive Phase :=
  | Idle
  | Opening (deadline : Z)
  | Checking (deadline : Z)
  | Unlinking (deadline : Z)
  | Sleeping (deadline : Z)
  | Writing (ino : nat)
  | Holding (ino : nat)
  | Released
  | TimedOut
  | ReleaseFailed
  | Crashed.

Record Options := mkOptions { timeoutMs : Z; staleAfterMs : Z }.
Definition DEFAULT_TIMEOUT_MS : Z := 10000.
Definition DEFAULT_STALE_AFTER_MS : Z := 30000.
Definition defaults : Options := mkOptions DEFAULT_TIMEOUT_MS DEFAULT_STALE_AFTER_MS.

Record Shared := mkShared { lock : option LockFile; clock : Z; next_ino : nat; phases : gmap nat Phase }.

Definition phase (p : nat) (s : Shared) : Phase := default Idle (phases s !! p).
Definition at_phase (p : nat) (h : Phase) (s : Shared) : Shared :=
  mkShared (lock s) (clock s) (next_ino s) (<[p := h]> (phases s)).
Definition with_lock (l : option LockFile) (s : Shared) : Shared := mkShared l (clock s) (next_ino s) (phases s).

Definition holds (p : nat) (s : Shared) : Prop := ∃ i, phase p s = Writing i ∨ phase p s = Holding i.

Section protocol.
Context (opts : Options).

(** [acquireLock] up to its first operation. *)
Definition enter (p : nat) (s : Shared) : Shared := at_phase p (Opening (clock s + timeoutMs opts)) s.

(** [open(path, "wx")]: it creates the file or finds one. *)
Definition open_wx (p : nat) (deadline : Z) (s : Shared) : Shared :=
  match lock s with
  | None => at_phase p (Writing (next_ino s))
              (mkShared (Some (mkLockFile (next_ino s) (clock s))) (clock s) (S (next_ino s)) (phases s))
  | Some _ => at_phase p (Checking deadline) s
  end.

(** The write of the pid goes to the file that was opened, wherever it is. *)
Definition write_pid (p i : nat) (s : Shared) : Shared :=
  at_phase p (Holding i)
    (match lock s with
     | Some f => if decide (l_ino f = i) then with_lock (Some (mkLockFile i (clock s))) s else s
     | None => s
     end).

Definition is_stale (s : Shared) : bool :=
  match lock s with Some f => bool_decide (staleAfterMs opts < clock s - l_mtime f) | None => false end.

(** The stat and the two tests that follow it. *)
Definition check (p : nat) (deadline : Z) (s : Shared) : Shared :=
  if is_stale s then at_phase p (Unlinking deadline) s
  else if decide (deadline ≤ clock s) then at_phase p TimedOut s
  else at_phase p (Sleeping deadline) s.

(** [unlink]; [ok] tells whether the file system allows it. *)
Definition unlink (ok : bool) (s : Shared) : Shared := if ok then with_lock None s else s.

(** [releaseLock]: a file that is gone is not an error. *)
Definition release (p : nat) (ok : bool) (s : Shared) : Shared :=
  match lock s with
  | None => at_phase p Released s
  | Some _ => if ok then at_phase p Released (with_lock None s) else at_phase p ReleaseFailed s
  end.

(** The next operation of a process. *)
Definition advance (p : nat) (ok : bool) (s : Shared) : Shared :=
  match phase p s with
  | Opening d | Sleeping d => open_wx p d s
  | Checking d => check p d s
  | Unlinking d => at_phase p (Opening d) (unlink ok s)
  | Writing i => write_pid p i s
  | Holding _ => release p ok s
  | _ => s
  end.

Inductive Event := Begin (p : nat) | Advance (p : nat) (ok : bool) | Crash (p : nat) | Wait (ms : Z).

Definition step (e : Event) (s : Shared) : Shared :=
  match e with
  | Begin p => match phase p s with
               | Idle | Released | TimedOut | ReleaseFailed => enter p s
               | _ => s
               end
  | Advance p ok => advance p ok s
  | Crash p => at_phase p Crashed s
  | Wait ms => mkShared (lock s) (clock s + Z.max 0 ms) (next_ino s) (phases s)
  end.

Definition run (es : list Event) (s : Shared) : Shared := foldl (λ s e, step e s) s es.
End protocol.

Definition free : Shared := mkShared None 0 0 ∅.

(** ** One holder at a time *)

Lemma phase_at p q h s : phase p (at_phase q h s) = if decide (p = q) then h else phase p s.
Proof. unfold phase, at_phase; simpl. case_decide; subst; by simplify_map_eq. Qed.

(** Everyone who has the lock has the file at the path, and its own; files are
    numbered; nobody is about to remove the file of another. *)
Record exclusive (s : Shared) : Prop := {
  ex_file p i : phase p s = Writing i ∨ phase p s = Holding i → ∃ m, lock s = Some (mkLockFile i m);
  ex_one p q i : (phase p s = Writing i ∨ phase p s = Holding i) → (phase q s = Writing i ∨ phase q s = Holding i) → p = q;
  ex_fresh p i : phase p s = Writing i ∨ phase p s = Holding i → (i < next_ino s)%nat;
  ex_file_fresh f : lock s = Some f → (l_ino f < next_ino s)%nat;
  ex_safe p d : phase p s ≠ Unlinking d
}.

(** A change of phase to one that holds nothing. *)
Lemma exclusive_at p h s : exclusive s → (∀ i, h ≠ Writing i) → (∀ i, h ≠ Holding i) → (∀ d, h ≠ Unlinking d) →
  exclusive (at_phase p h s).
Proof.
  intros [Hf Ho Hr Hl Hu] Hw Hh Hd. constructor.
  - intros q i. rewrite phase_at. case_decide; [naive_solver|apply Hf].
  - intros q r i. rewrite !phase_at. repeat case_decide; naive_solver.
  - intros q i. rewrite phase_at. case_decide; [naive_solver|apply Hr].
  - apply Hl.
  - intros q d. rewrite phase_at. case_decide; [apply Hd|apply Hu].
Qed.

Section exclusion.
Context (opts : Options).

(** The file is never older than what makes it stale. *)
Definition timely (s : Shared) : Prop := is_stale opts s = false.

Lemma open_exclusive p d s : exclusive s → exclusive (open_wx p d s).
Proof.
  intros He. unfold open_wx. destruct (lock s) as [f|] eqn:El; [by apply exclusive_at|].
  destruct He as [Hf Ho Hr Hl Hu].
  assert (∀ q i, phase q s = Writing i ∨ phase q s = Holding i → False) as Hnone.
  { intros q i Hq. destruct (Hf q i Hq) as [m E]. congruence. }
  set (s' := mkShared _ _ _ _). assert (∀ q, phase q s' = phase q s) as Hp by done.
  constructor.
  - intros q i. rewrite phase_at, Hp. case_decide; [|naive_solver]. intros [[= <-] | [=]]. by eexists.
  - intros q r i. rewrite !phase_at, !Hp. repeat case_decide; naive_solver.
  - intros q i. rewrite phase_at, Hp. case_decide; [|naive_solver]. intros [[= <-] | [=]]. simpl. lia.
  - intros f [= <-]. simpl. lia.
  - intros q e. rewrite phase_at, Hp. case_decide; [done|apply Hu].
Qed.

Lemma write_exclusive p i s : exclusive s → phase p s = Writing i → exclusive (write_pid p i s).
Proof.
  intros [Hf Ho Hr Hl Hu] Hp. destruct (Hf p i (or_introl Hp)) as [m El]. unfold write_pid. rewrite El.
  cbn [l_ino]. rewrite decide_True by done.
  set (s' := with_lock _ s). assert (∀ q, phase q s' = phase q s) as Hq by done.
  assert (∀ q j, phase q (at_phase p (Holding i) s') = Writing j ∨ phase q (at_phase p (Holding i) s') = Holding j →
    phase q s = Writing j ∨ phase q s = Holding j) as Hback.
  { intros q j. rewrite phase_at, Hq. case_decide; [subst|done]. intros [[=]|[= ->]]. by left. }
  constructor.
  - intros q j (m' & E)%Hback%Hf. rewrite El in E. injection E as <- <-. by eexists.
  - intros q r j H1%Hback H2%Hback. by eapply Ho.
  - intros q j H1%Hback. by apply (Hr q j).
  - intros f [= <-]. simpl. apply (Hl _ El).
  - intros q d. rewrite phase_at, Hq. case_decide; [done|apply Hu].
Qed.

Lemma release_exclusive p i ok s : exclusive s → phase p s = Holding i → exclusive (release p ok s).
Proof.
  intros He Hp. unfold release. destruct (lock s) as [f|] eqn:El; [|by apply exclusive_at].
  destruct ok; [|by apply exclusive_at]. destruct He as [Hf Ho Hr Hl Hu].
  assert (∀ q j, phase q (at_phase p Released (with_lock None s)) = Writing j
                 ∨ phase q (at_phase p Released (with_lock None s)) = Holding j → False) as Hnone.
  { intros q j. rewrite phase_at. case_decide as Hqp; [naive_solver|]. intros Hq.
    change (phase q (with_lock None s)) with (phase q s) in Hq.
    destruct (Hf q j Hq) as [m E1], (Hf p i (or_intror Hp)) as [m' E2]. rewrite E1 in E2. injection E2 as -> ->.
    apply Hqp. eauto. }
  constructor; try (intros; by exfalso; eauto).
  intros q d. rewrite phase_at. case_decide; [done|apply Hu].
Qed.

Lemma step_exclusive e s : timely s → exclusive s → exclusive (step opts e s).
Proof.
  intros Ht He. destruct e as [p|p ok|p|ms]; cbn [step].
  - destruct (phase p s); try done; by apply exclusive_at.
  - unfold advance. destruct (phase p s) as [|d|d|d|d|i|i| | | |] eqn:Ep; try done.
    + by apply open_exclusive.
    + unfold check. rewrite Ht. case_decide; by apply exclusive_at.
    + by destruct (ex_safe s He p d).
    + by apply open_exclusive.
    + by apply write_exclusive.
    + by eapply release_exclusive.
  - by apply exclusive_at.
  - destruct He as [Hf Ho Hr Hl Hu]. by constructor.
Qed.

(** The runs in which no file is found too old. *)
Fixpoint always_timely (es : list Event) (s : Shared) : Prop :=
  timely s ∧ match es with [] => True | e :: es => always_timely es (step opts e s) end.

(** In every interleaving, with crashes and removals that fail, two processes
    never hold the lock at once as long as no file of it outlives the age at
    which it counts as abandoned. *)
Theorem lock_exclusive es p q :
  always_timely es free → holds p (run opts es free) → holds q (run opts es free) → p = q.
Proof.
  assert (exclusive free) as H0 by (constructor; try done; intros ? ?; unfold phase; simpl; naive_solver).
  revert H0. generalize free. induction es as [|e es IH]; intros s He Ht.
  - intros [i Hp] [j Hq]. destruct (ex_file s He p i Hp) as [m E1], (ex_file s He q j Hq) as [m' E2].
    rewrite E1 in E2. injection E2 as -> ->. by eapply (ex_one s He).
  - destruct Ht as [Hs Ht]. apply IH; [by apply step_exclusive|done].
Qed.

(** ** Waiting *)

(** A waiter that looks at a file in use gives up at its deadline. *)
Lemma waiter_times_out p d ok s : phase p s = Checking d → timely s → d ≤ clock s →
  phase p (step opts (Advance p ok) s) = TimedOut.
Proof.
  intros Hp Ht Hd. cbn [step]. unfold advance, check. rewrite Hp, Ht, decide_True by done.
  by rewrite phase_at, decide_True.
Qed.

(** A waiter that may not remove an abandoned file never gives up, and does not
    sleep either: whatever the deadline, it goes round the same three
    operations. *)
Definition spinning (p : nat) (d : Z) (s : Shared) : Prop :=
  is_stale opts s = true ∧ (phase p s = Opening d ∨ phase p s = Checking d ∨ phase p s = Unlinking d).

Theorem undeletable_lock_spins p d n s :
  spinning p d s → spinning p d (run opts (replicate n (Advance p false)) s).
Proof.
  revert s. induction n as [|n IH]; intros s Hs; [done|]. apply IH. destruct Hs as [Hst Hph].
  cbn [step]. unfold advance. destruct Hph as [-> | [-> | ->]].
  - unfold open_wx. destruct (lock s) as [f|] eqn:El; [|by unfold is_stale in Hst; rewrite El in Hst].
    split; [done|]. rewrite phase_at, decide_True by done. auto.
  - unfold check. rewrite Hst. split; [done|]. rewrite phase_at, decide_True by done. auto.
  - split; [done|]. rewrite phase_at, decide_True by done. auto.
Qed.
End exclusion.

(** ** Runs *)

(** Two processes, one after the other. *)
Definition orderly : list Event :=
  [Begin 1; Begin 2; Advance 1 true; Advance 1 true; Advance 2 true; Advance 2 true; Wait 100; Advance 1 true;
   Advance 2 true].

Lemma lock_exclusive_witness : 2%nat = 2%nat.
Proof.
  apply (lock_exclusive defaults orderly 2 2).
  - repeat (split; [vm_compute; reflexivity|]). exact I.
  - exists 1%nat. left. vm_compute. reflexivity.
  - exists 1%nat. left. vm_compute. reflexivity.
Defined.

(** A holder crashed; two waiters find its file too old. The second removes the
    file the first has just created, and both hold the lock. *)
Definition stale_race : list Event :=
  [Begin 1; Advance 1 true; Advance 1 true; Crash 1; Wait 31000; Begin 2; Begin 3; Advance 2 true; Advance 3 true;
   Advance 2 true; Advance 3 true; Advance 2 true; Advance 2 true; Advance 2 true; Advance 3 true; Advance 3 true;
   Advance 3 true].

Theorem stale_lock_two_holders :
  holds 2 (run defaults stale_race free) ∧ holds 3 (run defaults stale_race free).
Proof. split; [exists 1%nat|exists 2%nat]; right; vm_compute; reflexivity. Qed.

(** A holder that is slow and not crashed has the same effect, and its release
    removes the lock of the other. *)
Definition slow_holder : list Event :=
  [Begin 1; Advance 1 true; Advance 1 true; Wait 31000; Begin 2; Advance 2 true; Advance 2 true; Advance 2 true;
   Advance 2 true; Advance 2 true; Advance 1 true].

Theorem slow_holder_unlocks_other :
  holds 2 (run defaults slow_holder free) ∧ lock (run defaults slow_holder free) = None.
Proof. split; [exists 1%nat; right|]; vm_compute; reflexivity. Qed.
End SingleFlight.
