(* ===== verification/BootMigrations.v ===== *)
(** * The migrations of a start ([src/database.ts], versions 8 to 12;
    [src/migration-guard.ts], [src/fk-violation-report.ts])

    Every start sets the version of the schema back to 8 and runs the later
    migrations again; each is meant to find nothing left to do. They move rows
    between organisations: onto the default one when their organisation is gone
    (version 9), onto the organisation of their agent when identifiers become
    unique per organisation (version 11), and revocations onto the organisations
    that hold the agent (version 12). *)

From S2P Require Import Prelude Database.
Local Open Scope Z_scope.

Module BootMigrations.

(** ** State *)

(** A row of [revoked_agents]; its time is text of one format. *)
Record RevokedRow := mkRevoked { rv_agent : string; rv_org : string; rv_at : Z; rv_by : string }.

(** A row of [git_cochange_meta]. *)
Record MetaRow := mkMeta { mt_org : string; mt_key : string; mt_value : option string }.

Notation Counts := (list (string * nat)).

(** The rows the migrations add to [audit_log]. *)
Inductive MigrationEvent :=
  | OrgFkReparent (counts : Counts)
  | AgentFkRecover (rows_affected : Counts) (recovered : list (string * string * nat))
  | AgentFkReparent (counts : Counts) (merged : nat) (dropped : list AgentActivity)
  | RevokedAgentsRescope (moved : list (string * list string)).

(** [org_fk] and [agent_fk] name the tables that carry the key to [orgs] and the
    composite key to [agents]; the others of the five refer to [agents(id)], which
    needs the index. *)
Record Store := mkStore {
  user_version : Z;
  org_fk : list string;
  agent_fk : list string;
  idx_agents_id : bool;
  data : Db;
  revoked : list RevokedRow;
  meta : list MetaRow;
  audit : list MigrationEvent
}.

Definition with_version (v : Z) (s : Store) : Store :=
  mkStore v (org_fk s) (agent_fk s) (idx_agents_id s) (data s) (revoked s) (meta s) (audit s).
Definition with_keys (o a : list string) (i : bool) (s : Store) : Store :=
  mkStore (user_version s) o a i (data s) (revoked s) (meta s) (audit s).
Definition with_data (d : Db) (s : Store) : Store :=
  mkStore (user_version s) (org_fk s) (agent_fk s) (idx_agents_id s) d (revoked s) (meta s) (audit s).
Definition with_revoked (l : list RevokedRow) (s : Store) : Store :=
  mkStore (user_version s) (org_fk s) (agent_fk s) (idx_agents_id s) (data s) l (meta s) (audit s).
Definition with_meta (l : list MetaRow) (s : Store) : Store :=
  mkStore (user_version s) (org_fk s) (agent_fk s) (idx_agents_id s) (data s) (revoked s) l (audit s).
Definition log (e : MigrationEvent) (s : Store) : Store :=
  mkStore (user_version s) (org_fk s) (agent_fk s) (idx_agents_id s) (data s) (revoked s) (meta s) (audit s ++ [e]).

(** Why a start stops. *)
Inductive Abort :=
  | DanglingAgents (counts : Counts)
  | UniqueConstraint
  | ForeignKeyConstraint
  | ForeignKeyMismatch
  | Violations (migrationCaused preExisting : nat).

(** A migration: what stopped it, if anything, and what it left. *)
Definition Step : Type := Store → option Abort * Store.

Definition done : Step := λ s, (None, s).
Definition andThen (a b : Step) : Step := λ s,
  match a s with (None, s') => b s' | (Some e, s') => (Some e, s') end.

(** [BEGIN IMMEDIATE] to [COMMIT], or [ROLLBACK] and the error. *)
Definition atomically (a : Step) : Step := λ s,
  match a s with (None, s') => (None, s') | (Some e, _) => (Some e, s) end.

Definition since (v : Z) (a : Step) : Step := λ s, if decide (v ≤ user_version s) then (None, s) else a s.

(** ** Tables with an organisation *)

Class OrgColumn (R : Type) := {
  org_of : R → string;
  with_org : string → R → R;
  org_of_with_org o r : org_of (with_org o r) = o;
  with_org_same r : with_org (org_of r) r = r
}.

#[export, refine] Instance agent_org : OrgColumn Agent := {
  org_of := a_org;
  with_org o r := mkAgent (a_id r) o (a_name r) (a_modules r) (a_status r) (a_registered_at r) (a_last_seen_at r)
}.
Proof. all: by intros []. Defined.

#[export, refine] Instance thread_org : OrgColumn Thread := {
  org_of := t_org;
  with_org o t := mkThread (t_id t) o (t_initiator t) (t_subject t) (t_plan t) (t_target_modules t)
    (t_target_files t) (t_status t) (t_summary t) (t_conflicts t) (t_round t) (t_max_rounds t)
    (t_timeout t) (t_created_at t) (t_resolved_at t) (t_expected t) (t_depends_on t)
    (t_exports t) (t_claimed_by t) (t_claimed_at t) (t_unclaim_count t) (t_assigned_to t) (t_run_id t)
}.
Proof. all: by intros []. Defined.

#[export, refine] Instance message_org : OrgColumn ThreadMessage := {
  org_of := m_org;
  with_org o m := mkMessage (m_id m) o (m_thread m) (m_agent m) (m_agent_name m) (m_type m) (m_content m)
    (m_snapshot m) (m_reply_to m) (m_round m) (m_tokens m) (m_created_at m)
}.
Proof. all: by intros []. Defined.

#[export, refine] Instance summary_org : OrgColumn ActionSummary := {
  org_of := s_org;
  with_org o r := mkSummary (s_id r) o (s_session r) (s_agent r) (s_file r) (s_summary r) (s_created_at r)
}.
Proof. all: by intros []. Defined.

#[export, refine] Instance file_org : OrgColumn FileActivity := {
  org_of := f_org;
  with_org o r := mkFileActivity (f_id r) o (f_session r) (f_agent r) (f_agent_name r) (f_tool r) (f_path r)
    (f_module r) (f_hash r) (f_symbols r) (f_created_at r)
}.
Proof. all: by intros []. Defined.

#[export, refine] Instance event_org : OrgColumn EventRow := {
  org_of := e_org; with_org o r := mkEvent (e_id r) o (e_event r)
}.
Proof. all: by intros []. Defined.

#[export, refine] Instance dep_org : OrgColumn DependencyRow := {
  org_of := d_org; with_org o r := mkDep o (d_module r) (d_depends_on r) (d_exports r) (d_owners r)
}.
Proof. all: by intros []. Defined.

#[export, refine] Instance introspection_org : OrgColumn Introspection := {
  org_of := i_org;
  with_org o r := mkIntrospection (i_id r) o (i_thread r) (i_agent r) (i_score r) (i_reasons r) (i_status r)
    (i_response r) (i_concerned r) (i_created_at r) (i_responded_at r)
}.
Proof. all: by intros []. Defined.

#[export, refine] Instance activity_org : OrgColumn AgentActivity := {
  org_of := aa_org; with_org o r := mkActivity o (aa_agent r) (aa_status r) (aa_file r) (aa_thread r) (aa_last r)
}.
Proof. all: by intros []. Defined.

#[export, refine] Instance revoked_org : OrgColumn RevokedRow := {
  org_of := rv_org; with_org o r := mkRevoked (rv_agent r) o (rv_at r) (rv_by r)
}.
Proof. all: by intros []. Defined.

#[export, refine] Instance working_org : OrgColumn WorkingFile := {
  org_of := wf_org; with_org o r := mkWorking o (wf_agent r) (wf_path r) (wf_started r) (wf_last r) (wf_until r)
}.
Proof. all: by intros []. Defined.

#[export, refine] Instance cochange_org : OrgColumn Cochange := {
  org_of := g_org; with_org o r := mkCochange o (g_file_a r) (g_file_b r) (g_count r) (g_total r)
}.
Proof. all: by intros []. Defined.

#[export, refine] Instance meta_org : OrgColumn MetaRow := {
  org_of := mt_org; with_org o r := mkMeta o (mt_key r) (mt_value r)
}.
Proof. all: by intros []. Defined.

#[export, refine] Instance firing_org : OrgColumn LayerFiring := {
  org_of := lf_org;
  with_org o r := mkFiring o (lf_thread r) (lf_layer r) (lf_score r) (lf_agent r) (lf_fired_at r)
}.
Proof. all: by intros []. Defined.

(** The columns the setters of [Database.v] leave out. *)
Definition set_orgs (l : list string) (d : Db) : Db :=
  mkDb l (db_agents d) (db_threads d) (db_messages d) (db_summaries d) (db_events d) (db_event_seq d) (db_deps d)
    (db_files d) (db_file_seq d) (db_introspections d) (db_activity d) (db_working d) (db_cochange d) (db_firings d).
Definition set_events (l : list EventRow) (d : Db) : Db :=
  mkDb (db_orgs d) (db_agents d) (db_threads d) (db_messages d) (db_summaries d) l (db_event_seq d) (db_deps d)
    (db_files d) (db_file_seq d) (db_introspections d) (db_activity d) (db_working d) (db_cochange d) (db_firings d).
Definition set_files (l : list FileActivity) (d : Db) : Db :=
  mkDb (db_orgs d) (db_agents d) (db_threads d) (db_messages d) (db_summaries d) (db_events d) (db_event_seq d)
    (db_deps d) l (db_file_seq d) (db_introspections d) (db_activity d) (db_working d) (db_cochange d) (db_firings d).
Definition set_cochange (l : list Cochange) (d : Db) : Db :=
  mkDb (db_orgs d) (db_agents d) (db_threads d) (db_messages d) (db_summaries d) (db_events d) (db_event_seq d)
    (db_deps d) (db_files d) (db_file_seq d) (db_introspections d) (db_activity d) (db_working d) l (db_firings d).

(** ** References to agents *)

Definition AGENT_REF_TABLES : list string :=
  ["threads"; "thread_messages"; "action_summaries"; "introspections"; "agent_activity_status"].

(** The agent and the organisation of every row of each of the five tables. *)
Definition agent_refs (d : Db) : list (string * list (string * string)) :=
  [("threads", (λ t, (t_initiator t, t_org t)) <$> db_threads d);
   ("thread_messages", (λ m, (m_agent m, m_org m)) <$> db_messages d);
   ("action_summaries", (λ r, (s_agent r, s_org r)) <$> db_summaries d);
   ("introspections", (λ r, (i_agent r, i_org r)) <$> db_introspections d);
   ("agent_activity_status", (λ r, (aa_agent r, aa_org r)) <$> db_activity d)].

Definition all_refs (d : Db) : list (string * string) := agent_refs d ≫= snd.

Definition agent_ids (d : Db) : list string := a_id <$> db_agents d.
Definition agent_keys (d : Db) : list (string * string) := (λ a, (a_id a, a_org a)) <$> db_agents d.

Definition nonzero (l : Counts) : Counts := filter (λ p, p.2 ≠ 0%nat) l.

(** ** [resolveDanglingAgentRefs] *)

Definition dangling_refs (d : Db) : list (string * string) := filter (λ r, r.1 ∉ agent_ids d) (all_refs d).

Definition dangling_counts (d : Db) : Counts :=
  nonzero ((λ t, (t.1, length (filter (λ r, r.1 ∉ agent_ids d) t.2))) <$> agent_refs d).

(** How many rows of an organisation refer to an identifier. *)
Definition votes (d : Db) (id org : string) : nat := length (filter (λ r, r = (id, org)) (dangling_refs d)).

Section locale.
(** The order of [localeCompare], which belongs to the host. *)
Context (locale : relation string) `{!RelDecision locale}.

Definition ahead (d : Db) (id o1 o2 : string) : Prop :=
  (votes d id o2 < votes d id o1)%nat ∨ (votes d id o1 = votes d id o2 ∧ locale o1 o2).

#[local] Instance ahead_dec d id : RelDecision (ahead d id).
Proof. intros o1 o2. unfold ahead. apply _. Defined.

Definition orgs_of (d : Db) (id : string) : list string :=
  dedup (snd <$> filter (λ r, r.1 = id) (dangling_refs d)).

Definition recovered (d : Db) : list (string * string * nat) :=
  (λ id, (id, default "" (head (merge_sort (ahead d id) (orgs_of d id))),
          length (filter (λ r, r.1 = id) (dangling_refs d))))
    <$> merge_sort locale (dedup (fst <$> dangling_refs d)).

Definition recovered_agent (now : Z) (id org : string) : Agent :=
  mkAgent id org (id +:+ " (recovered by migration v11)") (JText []) AOffline now now.

(** [INSERT OR IGNORE INTO agents]: a key that is taken is skipped, a missing
    organisation is an error. *)
Definition insert_agent (a : Agent) : Step := λ s,
  if decide ((a_id a, a_org a) ∈ agent_keys (data s) ∨ (idx_agents_id s = true ∧ a_id a ∈ agent_ids (data s)))
  then (None, s)
  else if decide ("agents" ∈ org_fk s ∧ a_org a ∉ db_orgs (data s)) then (Some ForeignKeyConstraint, s)
  else (None, with_data (on_agents (λ l, l ++ [a]) (data s)) s).

Fixpoint insert_agents (now : Z) (l : list (string * string * nat)) : Step :=
  match l with
  | [] => done
  | (id, org, _) :: l => andThen (insert_agent (recovered_agent now id org)) (insert_agents now l)
  end.

(** [canRepairMigrationOrphans] *)
Definition canRepairMigrationOrphans (COORDINATOR_ALLOW_MIGRATION_REPAIR : option string) : bool :=
  bool_decide (COORDINATOR_ALLOW_MIGRATION_REPAIR = Some "true").

Definition resolveDanglingAgentRefs (env : option string) (now : Z) : Step := λ s,
  if decide (dangling_refs (data s) = []) then (None, s)
  else if canRepairMigrationOrphans env then
    let l := recovered (data s) in
    andThen (insert_agents now l) (λ s', (None, log (AgentFkRecover (dangling_counts (data s)) (take 50 l)) s')) s
  else (Some (DanglingAgents (dangling_counts (data s))), s).
End locale.

(** ** Version 9: a key to the organisations *)

Definition ORG_TABLES : list string :=
  ["agents"; "threads"; "thread_messages"; "action_summaries"; "file_activity"; "events"; "dependency_map";
   "introspections"; "agent_activity_status"; "revoked_agents"; "working_files"; "git_cochange";
   "git_cochange_meta"; "layer_firings"].

Definition orphan {R} `{OrgColumn R} (orgs : list string) (r : R) : Prop := org_of r ∉ orgs.

#[export] Instance orphan_dec {R} `{OrgColumn R} orgs (r : R) : Decision (orphan orgs r).
Proof. unfold orphan. apply _. Defined.

(** Foreign keys are enforced here: under the composite key an agent that is
    referred to cannot move, nor a row to where its agent is not. *)
Definition agent_held (s : Store) (a : Agent) : bool :=
  bool_decide (Exists (λ t, t.1 ∈ agent_fk s ∧ (a_id a, a_org a) ∈ t.2) (agent_refs (data s))).
Definition agent_absent {R} (name : string) (agent : R → string) (s : Store) (r : R) : bool :=
  bool_decide (name ∈ agent_fk s ∧ (agent r, "default") ∉ agent_keys (data s)).
Definition unkeyed {R} (_ : Store) (_ : R) : bool := false.

(** [UPDATE ... SET org_id = 'default' WHERE org_id NOT IN (SELECT id FROM orgs)]
    on one table, with its keys; and how many rows that was. *)
Definition reparent_table {R K} `{OrgColumn R} `{EqDecision K} (key : R → K) (broken : Store → R → bool)
    (get : Store → list R) (set : list R → Store → Store) (name : string) (s : Store) : (Abort + Counts) * Store :=
  let orgs := db_orgs (data s) in
  let moving := filter (orphan orgs) (get s) in
  if decide (moving = []) then (inr [], s)
  else
    let l := update_where (orphan orgs) (with_org "default") (get s) in
    if decide (¬ NoDup (key <$> l)) then (inl UniqueConstraint, s)
    else if existsb (broken s) moving then (inl ForeignKeyConstraint, s)
    else (inr [(name, length moving)], set l s).

Definition on_data {R} (set : (list R → list R) → Db → Db) (l : list R) (s : Store) : Store :=
  with_data (set (λ _, l) (data s)) s.

(** The fourteen tables, in the order of the migration. The tables numbered by
    SQLite keep their numbers; what matters of [layer_firings] is its rows. *)
Definition reparent_tables : list (Store → (Abort + Counts) * Store) :=
  [reparent_table (λ a, (a_org a, a_id a)) agent_held (db_agents ∘ data) (on_data on_agents) "agents";
   reparent_table t_id (agent_absent "threads" t_initiator) (db_threads ∘ data) (on_data on_threads) "threads";
   reparent_table m_id (agent_absent "thread_messages" m_agent) (db_messages ∘ data) (on_data on_messages)
     "thread_messages";
   reparent_table s_id (agent_absent "action_summaries" s_agent) (db_summaries ∘ data) (on_data on_summaries)
     "action_summaries";
   reparent_table f_id unkeyed (db_files ∘ data) (λ l s, with_data (set_files l (data s)) s) "file_activity";
   reparent_table e_id unkeyed (db_events ∘ data) (λ l s, with_data (set_events l (data s)) s) "events";
   reparent_table (λ r, (d_org r, d_module r)) unkeyed (db_deps ∘ data) (on_data on_deps) "dependency_map";
   reparent_table i_id (agent_absent "introspections" i_agent) (db_introspections ∘ data) (on_data on_introspections)
     "introspections";
   reparent_table (λ r, (aa_org r, aa_agent r)) (agent_absent "agent_activity_status" aa_agent) (db_activity ∘ data)
     (on_data on_activity) "agent_activity_status";
   reparent_table (λ r, (rv_org r, rv_agent r)) unkeyed revoked with_revoked "revoked_agents";
   reparent_table (λ r, (wf_org r, wf_agent r, wf_path r)) unkeyed (db_working ∘ data) (on_data on_working)
     "working_files";
   reparent_table (λ r, (g_org r, g_file_a r, g_file_b r)) unkeyed (db_cochange ∘ data)
     (λ l s, with_data (set_cochange l (data s)) s) "git_cochange";
   reparent_table (λ r, (mt_org r, mt_key r)) unkeyed meta with_meta "git_cochange_meta";
   λ s, let orgs := db_orgs (data s) in
        let n := length (filter (orphan orgs) (db_firings (data s))) in
        (inr (nonzero [("layer_firings", n)]),
         with_data (on_firings (update_where (orphan orgs) (with_org "default")) (data s)) s)].

(** The loop runs outside a transaction: what it moved before an error stays. *)
Fixpoint reparent_all (l : list (Store → (Abort + Counts) * Store)) (counts : Counts) (s : Store)
    : (Abort + Counts) * Store :=
  match l with
  | [] => (inr counts, s)
  | f :: l => match f s with
              | (inl e, s') => (inl e, s')
              | (inr n, s') => reparent_all l (counts ++ n) s'
              end
  end.

(** [INSERT OR IGNORE INTO orgs] *)
Definition ensure_default (s : Store) : Store := with_data (set_orgs (set_add "default" (db_orgs (data s))) (data s)) s.

(** ** [PRAGMA foreign_key_check] *)

(** The rows of the fourteen tables whose organisation is missing. *)
Definition org_violations (s : Store) : Counts :=
  let d := data s in
  let bad {R} `{OrgColumn R} (l : list R) : nat := length (filter (orphan (db_orgs d)) l) in
  [("agents", bad (db_agents d)); ("threads", bad (db_threads d)); ("thread_messages", bad (db_messages d));
   ("action_summaries", bad (db_summaries d)); ("file_activity", bad (db_files d)); ("events", bad (db_events d));
   ("dependency_map", bad (db_deps d)); ("introspections", bad (db_introspections d));
   ("agent_activity_status", bad (db_activity d)); ("revoked_agents", bad (revoked s));
   ("working_files", bad (db_working d)); ("git_cochange", bad (db_cochange d)); ("git_cochange_meta", bad (meta s));
   ("layer_firings", bad (db_firings d))].

(** A reference that its key does not allow. *)
Definition bad_ref (s : Store) (table : string) (r : string * string) : Prop :=
  if decide (table ∈ agent_fk s) then r ∉ agent_keys (data s) else r.1 ∉ agent_ids (data s).

#[export] Instance bad_ref_dec s t r : Decision (bad_ref s t r).
Proof. unfold bad_ref. case_decide; apply _. Defined.

Definition agent_violations (s : Store) : nat :=
  sum_list ((λ t, length (filter (bad_ref s t.1) t.2)) <$> agent_refs (data s)).

Definition thread_violations (d : Db) : nat :=
  length (filter (λ m, m_thread m ∉ t_id <$> db_threads d) (db_messages d))
  + length (filter (λ r, i_thread r ∉ t_id <$> db_threads d) (db_introspections d)).

(** The pragma fails when a table refers to [agents(id)] and nothing makes it
    unique. *)
Definition key_mismatch (s : Store) : Prop := idx_agents_id s = false ∧ Exists (.∉ agent_fk s) AGENT_REF_TABLES.

#[export] Instance key_mismatch_dec s : Decision (key_mismatch s).
Proof. unfold key_mismatch. apply _. Defined.

(** The violations of the keys to [orgs] that the tables carry. *)
Definition org_key_violations (s : Store) : Counts := filter (λ p, p.1 ∈ org_fk s) (org_violations s).

Definition rows (l : Counts) : nat := sum_list (snd <$> l).

(** [summarizeFkViolations]: of the violations, those of the key the migration
    has just added, on the tables it copied; [elsewhere] counts the violations of
    the tables of authentication. *)
Definition foreign_key_check (elsewhere : nat) (copied : list string) : Step := λ s,
  if decide (key_mismatch s) then (Some ForeignKeyMismatch, s)
  else
    let caused := rows (filter (λ p, p.1 ∈ copied) (org_key_violations s)) in
    let other := (rows (filter (λ p, p.1 ∉ copied) (org_key_violations s)) + agent_violations s + thread_violations (data s)
                  + elsewhere)%nat in
    if decide (caused + other = 0)%nat then (None, s) else (Some (Violations caused other), s).

(** The copy of the tables that lack the key. The copies refer to [agents(id)], and
    a copy of [agents] brings the index on the identifier back. *)
Definition copy_org_tables : Step := λ s,
  let copied := filter (.∉ org_fk s) ORG_TABLES in
  let composite := filter (.∉ copied) (agent_fk s) in
  if decide ("agents" ∈ copied) then
    if decide (NoDup (agent_ids (data s))) then (None, with_keys ORG_TABLES composite true s)
    else (Some UniqueConstraint, s)
  else (None, with_keys ORG_TABLES composite (idx_agents_id s) s).

Definition migrateOrgsFkV9 (elsewhere : nat) : Step := since 9 (λ s,
  match reparent_all reparent_tables [] (ensure_default s) with
  | (inl e, s) => (Some e, s)
  | (inr counts, s) =>
      let s := if decide (counts = []) then s else log (OrgFkReparent counts) s in
      let copied := filter (.∉ org_fk s) ORG_TABLES in
      atomically (andThen copy_org_tables (andThen (foreign_key_check elsewhere copied) (λ s, (None, with_version 9 s)))) s
  end).

(** ** Version 10: indexes only *)

Definition migrateSweepIndexesV10 : Step := since 10 (λ s, (None, with_version 10 s)).

(** ** Version 11: identifiers unique per organisation *)

(** [keeper.org_id < loser.org_id] *)
Definition str_lt (a b : string) : Prop := str_le a b ∧ a ≠ b.

(** What makes a row of [agent_activity_status] go before another of the same
    agent, given a row of [agents]. *)
Definition beats (a : Agent) (keeper loser : AgentActivity) : Prop :=
  stamp_lt (aa_last loser) (aa_last keeper)
  ∨ (aa_last keeper = aa_last loser
     ∧ ((aa_org keeper = a_org a ∧ aa_org loser ≠ a_org a)
        ∨ ((aa_org keeper = a_org a ↔ aa_org loser = a_org a) ∧ str_lt (aa_org keeper) (aa_org loser)))).

#[export] Instance stamp_lt_dec a b : Decision (stamp_lt a b).
Proof. unfold stamp_lt. destruct (stamp_key a) as [[??]?], (stamp_key b) as [[??]?]. apply _. Defined.

#[export] Instance beats_dec a k l : Decision (beats a k l).
Proof. unfold beats, str_lt. apply _. Defined.

(** The clause [loserWhere]. *)
Definition is_loser (agents : list Agent) (rows : list AgentActivity) (loser : AgentActivity) : Prop :=
  Exists (λ a, a_id a = aa_agent loser
    ∧ Exists (λ keeper, aa_agent keeper = aa_agent loser ∧ aa_org keeper ≠ aa_org loser ∧ beats a keeper loser) rows)
    agents.

#[export] Instance is_loser_dec agents rows l : Decision (is_loser agents rows l).
Proof. unfold is_loser. apply _. Defined.

Definition losers (d : Db) : list AgentActivity := filter (is_loser (db_agents d) (db_activity d)) (db_activity d).

Definition merge_status (d : Db) : Db := on_activity (delete_where (is_loser (db_agents d) (db_activity d))) d.

(** [SELECT a.org_id FROM agents a WHERE a.id = ...] *)
Definition home_org (d : Db) (id : string) : string :=
  default "" (a_org <$> select_one (λ a, a_id a = id) (db_agents d)).

(** The rows of the clause: their agent exists, and not in their organisation. *)
Definition drifted {R} `{OrgColumn R} (agent : R → string) (d : Db) (r : R) : Prop :=
  agent r ∈ agent_ids d ∧ (agent r, org_of r) ∉ agent_keys d.

#[export] Instance drifted_dec {R} `{OrgColumn R} (agent : R → string) d r : Decision (drifted agent d r).
Proof. unfold drifted. apply _. Defined.

Definition bring_home {R} `{OrgColumn R} (agent : R → string) (d : Db) (l : list R) : list R :=
  update_where (drifted agent d) (λ r, with_org (home_org d (agent r)) r) l.

Definition drift_count {R} `{OrgColumn R} (agent : R → string) (d : Db) (l : list R) : nat :=
  length (filter (drifted agent d) l).

Definition reparent_refs (d : Db) : Counts * Db :=
  (nonzero [("threads", drift_count t_initiator d (db_threads d));
            ("thread_messages", drift_count m_agent d (db_messages d));
            ("action_summaries", drift_count s_agent d (db_summaries d));
            ("introspections", drift_count i_agent d (db_introspections d));
            ("agent_activity_status", drift_count aa_agent d (db_activity d))],
   on_activity (bring_home aa_agent d)
     (on_introspections (bring_home i_agent d)
        (on_summaries (bring_home s_agent d)
           (on_messages (bring_home m_agent d) (on_threads (bring_home t_initiator d) d))))).

Definition activity_key (r : AgentActivity) : string * string := (aa_org r, aa_agent r).

(** The writes of the transaction, before the copy of the tables. *)
Definition rehome : Step := λ s,
  let d := data s in
  let d1 := merge_status d in
  let '(counts, d2) := reparent_refs d1 in
  if decide (NoDup (activity_key <$> db_activity d2)) then
    let s' := with_data d2 s in
    (None, if decide (counts = [] ∧ losers d = []) then s'
           else log (AgentFkReparent counts (length (losers d)) (take 50 (losers d))) s')
  else (Some UniqueConstraint, s).

Definition migrateAgentIdPerOrgV11 (locale : relation string) `{!RelDecision locale} (env : option string) (now : Z)
    (elsewhere : nat) : Step := since 11
  (andThen (resolveDanglingAgentRefs locale env now)
    (atomically (andThen rehome
       (andThen (λ s, (None, with_keys (org_fk s) AGENT_REF_TABLES false s))
          (andThen (foreign_key_check elsewhere []) (λ s, (None, with_version 11 s))))))).

(** ** Version 12: revocations follow the agent *)

Definition revoked_key (r : RevokedRow) : string * string := (rv_agent r, rv_org r).

Definition revoked_before (a b : RevokedRow) : Prop :=
  str_lt (rv_agent a) (rv_agent b) ∨ (rv_agent a = rv_agent b ∧ rv_at a ≤ rv_at b).

#[export] Instance revoked_before_dec : RelDecision revoked_before.
Proof. intros a b. unfold revoked_before, str_lt. apply _. Defined.

(** The earliest row of each identifier. *)
Fixpoint firsts (seen : list string) (l : list RevokedRow) : list RevokedRow :=
  match l with
  | [] => []
  | r :: l => if decide (rv_agent r ∈ seen) then firsts seen l else r :: firsts (rv_agent r :: seen) l
  end.

Definition earliest (l : list RevokedRow) : list RevokedRow := firsts [] (merge_sort revoked_before l).

(** [SELECT org_id FROM agents WHERE id = ? ORDER BY org_id] *)
Definition holders (d : Db) (id : string) : list string :=
  merge_sort str_le (a_org <$> select (λ a, a_id a = id) (db_agents d)).

(** A row in an organisation that does not hold its agent. *)
Definition stale (id : string) (orgs : list string) (r : RevokedRow) : Prop := rv_agent r = id ∧ rv_org r ∉ orgs.

#[export] Instance stale_dec id orgs r : Decision (stale id orgs r).
Proof. unfold stale. apply _. Defined.

(** [INSERT OR IGNORE INTO revoked_agents] *)
Definition insert_revoked (r : RevokedRow) (l : list RevokedRow) : list RevokedRow :=
  if decide (revoked_key r ∈ revoked_key <$> l) then l else l ++ [r].

Definition rescope_one (d : Db) (r : RevokedRow) (l : list RevokedRow) : list RevokedRow * list (string * list string) :=
  let id := rv_agent r in
  let orgs := holders d id in
  if decide (orgs = []) then (l, [])
  else if decide (select (stale id orgs) l = []) then (l, [])
  else (delete_where (stale id orgs)
          (foldl (λ l org, insert_revoked (mkRevoked id org (rv_at r) (rv_by r)) l) l orgs), [(id, orgs)]).

Definition rescope_with (d : Db) (acc : list RevokedRow * list (string * list string)) (r : RevokedRow) :
    list RevokedRow * list (string * list string) :=
  let '(l', m) := rescope_one d r acc.1 in (l', acc.2 ++ m).

Definition rescope (d : Db) (l : list RevokedRow) : list RevokedRow * list (string * list string) :=
  foldl (rescope_with d) (l, []) (earliest l).

Definition migrateRevokedAgentsPerOrgV12 : Step := since 12 (λ s,
  let '(l, moved) := rescope (data s) (revoked s) in
  let s := with_revoked l s in
  (None, with_version 12 (if decide (moved = []) then s else log (RevokedAgentsRescope (take 50 moved)) s))).

(** ** The later part of a start *)

(** [PRAGMA user_version = 7], then 8, at every start. *)
Definition rewind : Step := λ s, (None, with_version 8 s).

Definition boot_migrations (locale : relation string) `{!RelDecision locale} (env : option string) (now : Z)
    (elsewhere : nat) : Step :=
  andThen rewind (andThen (resolveDanglingAgentRefs locale env now) (andThen (migrateOrgsFkV9 elsewhere)
    (andThen migrateSweepIndexesV10 (andThen (migrateAgentIdPerOrgV11 locale env now elsewhere) migrateRevokedAgentsPerOrgV12)))).
End BootMigrations.
