(* ===== verification/BootMigrationsSafety.v ===== *)
(** * What the migrations of a start do to the data

    A start that ends leaves every reference in order; on a database that is in
    order already it changes nothing but the live status of agents that share an
    identifier across organisations, and revocations of agents that are not
    registered. *)

From S2P Require Import Prelude Database BootMigrations.
Local Open Scope Z_scope.

Module BootMigrationsSafety.
Import BootMigrations.

(** ** Lists *)

Lemma filter_nil_iff {A} (P : A → Prop) `{!∀ x, Decision (P x)} l : filter P l = [] ↔ ∀ x, x ∈ l → ¬ P x.
Proof.
  split.
  - intros E x Hx HP. assert (x ∈ filter P l) as Hin by (by apply list_elem_of_filter).
    rewrite E in Hin. by apply elem_of_nil in Hin.
  - intros Hl. destruct (filter P l) as [|x k] eqn:E; [done|]. exfalso.
    assert (x ∈ filter P l) as [HP Hx]%list_elem_of_filter by (rewrite E; left). by apply (Hl x).
Qed.

Lemma length_filter_zero {A} (P : A → Prop) `{!∀ x, Decision (P x)} l :
  length (filter P l) = 0%nat ↔ ∀ x, x ∈ l → ¬ P x.
Proof. by rewrite length_zero_iff_nil, filter_nil_iff. Qed.

Lemma filter_true {A} (P : A → Prop) `{!∀ x, Decision (P x)} (l : list A) : (∀ x, x ∈ l → P x) → filter P l = l.
Proof.
  induction l as [|x l IH]; intros Hl; [done|].
  rewrite filter_cons_True by (apply Hl; left). f_equal. apply IH. intros y Hy. apply Hl. by right.
Qed.

Lemma sum_list_zero l : sum_list l = 0%nat ↔ Forall (λ n, n = 0%nat) l.
Proof.
  induction l as [|n l IH]; [split; [constructor|done]|]. simpl. rewrite Forall_cons, <- IH. lia.
Qed.

(** In a finite set a relation without cycles leaves someone unbeaten. *)
Lemma unbeaten_exists {A} (R : A → A → Prop) `{!∀ x y, Decision (R x y)} (l : list A) :
  (∀ x, ¬ R x x) → (∀ x y z, R x y → R y z → R x z) → l ≠ [] → ∃ x, x ∈ l ∧ ∀ y, y ∈ l → ¬ R y x.
Proof.
  intros Hi Ht. induction l as [|x l IH]; [done|]. intros _. destruct l as [|z l].
  { exists x. split; [left|]. intros y ->%list_elem_of_singleton. apply Hi. }
  destruct IH as (m & Hm & Hu); [done|]. destruct (decide (R x m)) as [Hx|Hx].
  - exists x. split; [left|]. intros y [-> | Hy]%elem_of_cons; [apply Hi|].
    intros Hyx. apply (Hu y Hy). by eapply Ht.
  - exists m. split; [by right|]. intros y [-> | Hy]%elem_of_cons; [done|by apply Hu].
Qed.

(** ** Records *)

Lemma with_data_same s : with_data (data s) s = s.
Proof. by destruct s. Qed.

Lemma set_orgs_same d : set_orgs (db_orgs d) d = d.
Proof. by destruct d. Qed.

(** ** A database in order *)

(** The references to agents, organisations and threads hold, the rows of status
    have their key, and every table carries its keys. *)
Record in_order (s : Store) : Prop := {
  io_refs r : r ∈ all_refs (data s) → r ∈ agent_keys (data s);
  io_orgs : Forall (λ p, p.2 = 0%nat) (org_violations s);
  io_threads : thread_violations (data s) = 0%nat;
  io_activity : NoDup (activity_key <$> db_activity (data s));
  io_default : "default" ∈ db_orgs (data s);
  io_org_fk : org_fk s = ORG_TABLES;
  io_agent_fk : agent_fk s = AGENT_REF_TABLES
}.

Lemma key_id d r : r ∈ agent_keys d → r.1 ∈ agent_ids d.
Proof. intros (a & -> & Ha)%list_elem_of_fmap. apply list_elem_of_fmap. by exists a. Qed.

Lemma refs_table d t l r : (t, l) ∈ agent_refs d → r ∈ l → r ∈ all_refs d.
Proof. intros Ht Hr. apply list_elem_of_bind. by exists (t, l). Qed.

Lemma table_name d t l : (t, l) ∈ agent_refs d → t ∈ AGENT_REF_TABLES.
Proof.
  unfold agent_refs. rewrite !elem_of_cons, elem_of_nil. intros H.
  assert (t = "threads" ∨ t = "thread_messages" ∨ t = "action_summaries" ∨ t = "introspections"
    ∨ t = "agent_activity_status") as Ht by naive_solver.
  unfold AGENT_REF_TABLES. rewrite !elem_of_cons. tauto.
Qed.

(** The check of the keys, where every table has the composite one. *)
Lemma agent_violations_composite s : agent_fk s = AGENT_REF_TABLES →
  agent_violations s = 0%nat ↔ ∀ r, r ∈ all_refs (data s) → r ∈ agent_keys (data s).
Proof.
  intros Hk. unfold agent_violations. rewrite sum_list_zero, Forall_fmap, Forall_forall. split.
  - intros H r Hr. apply list_elem_of_bind in Hr as ([t l] & Hr & Ht). specialize (H _ Ht). simpl in H.
    apply length_filter_zero with (x := r) in H; [|done]. unfold bad_ref in H.
    rewrite Hk, decide_True in H by (by eapply table_name). by destruct (decide (r ∈ agent_keys (data s))).
  - intros H [t l] Ht. simpl. apply length_filter_zero. intros r Hr. unfold bad_ref.
    rewrite Hk, decide_True by (by eapply table_name). intros Hn. apply Hn, H. by eapply refs_table.
Qed.

Lemma no_mismatch s : agent_fk s = AGENT_REF_TABLES → ¬ key_mismatch s.
Proof. intros Hk [_ (t & Ht & Hn)%Exists_exists]. by rewrite Hk in Hn. Qed.

Lemma org_table_names s p : p ∈ org_violations s → p.1 ∈ ORG_TABLES.
Proof.
  intros Hp. assert (p.1 ∈ fst <$> org_violations s) as H by (apply list_elem_of_fmap; eauto). exact H.
Qed.

Lemma org_key_violations_all s : org_fk s = ORG_TABLES → org_key_violations s = org_violations s.
Proof. intros Ho. apply filter_true. intros p Hp. rewrite Ho. by apply org_table_names in Hp. Qed.

Lemma rows_split (P : string * nat → Prop) `{!∀ p, Decision (P p)} (l : Counts) :
  (rows (filter P l) + rows (filter (λ p, ¬ P p) l) = 0)%nat ↔ Forall (λ p, p.2 = 0%nat) l.
Proof.
  unfold rows. induction l as [|p l IH]; [split; [constructor|done]|]. rewrite Forall_cons, <- IH, !filter_cons.
  destruct (decide (P p)) as [Hp|Hp].
  - rewrite decide_False, fmap_cons by tauto. cbn [sum_list_with]. unfold id. lia.
  - rewrite decide_True, fmap_cons by done. cbn [sum_list_with]. unfold id. lia.
Qed.

(** The check passes exactly on a database whose references hold. *)
Lemma fk_check_spec elsewhere copied s : org_fk s = ORG_TABLES → agent_fk s = AGENT_REF_TABLES →
  (foreign_key_check elsewhere copied s).2 = s
  ∧ ((foreign_key_check elsewhere copied s).1 = None ↔
     elsewhere = 0%nat ∧ Forall (λ p, p.2 = 0%nat) (org_violations s) ∧ thread_violations (data s) = 0%nat
     ∧ ∀ r, r ∈ all_refs (data s) → r ∈ agent_keys (data s)).
Proof.
  intros Ho Ha. unfold foreign_key_check. rewrite decide_False by (by apply no_mismatch).
  rewrite <- (agent_violations_composite s Ha), <- (rows_split (λ p, p.1 ∈ copied)), org_key_violations_all by done.
  cbv zeta. split; [by destruct (decide _)|]. destruct (decide _) as [Hz|Hz]; cbn [fst]; split; try done; lia.
Qed.

(** ** A start on a database in order *)

Section restart.
Context (locale : relation string) `{!RelDecision locale} (env : option string) (now : Z).

Lemma resolve_none s : dangling_refs (data s) = [] → resolveDanglingAgentRefs locale env now s = (None, s).
Proof. intros E. unfold resolveDanglingAgentRefs. by rewrite decide_True. Qed.

Lemma refs_not_dangling d : (∀ r, r ∈ all_refs d → r ∈ agent_keys d) → dangling_refs d = [].
Proof. intros Hr. apply filter_nil_iff. intros r Hin Hn. by apply Hn, key_id, Hr. Qed.

Lemma reparent_table_none {R K} `{OrgColumn R} `{EqDecision K} (key : R → K) broken get set name s :
  length (filter (orphan (db_orgs (data s))) (get s)) = 0%nat →
  reparent_table key broken get set name s = (inr [], s).
Proof. intros E%length_zero_iff_nil. unfold reparent_table. cbv zeta. by rewrite E, decide_True. Qed.

Lemma firings_none P `{!∀ x, Decision (P x)} f s : length (filter P (db_firings (data s))) = 0%nat →
  with_data (on_firings (update_where P f) (data s)) s = s.
Proof.
  intros E. rewrite length_filter_zero in E. unfold on_firings. rewrite update_where_none by done.
  by destruct s as [???? []].
Qed.

(** Nothing is re-parented where every organisation exists. *)
Lemma reparent_all_none s : Forall (λ p, p.2 = 0%nat) (org_violations s) →
  reparent_all reparent_tables [] s = (inr [], s).
Proof.
  unfold org_violations. cbv zeta. rewrite !Forall_cons. cbn [snd]. intros Hz. destruct_and! Hz.
  unfold reparent_tables. cbn [reparent_all].
  do 13 (rewrite reparent_table_none by done; cbn [app]). cbv zeta.
  rewrite firings_none by done. unfold nonzero. rewrite filter_cons_False by (cbn; tauto). done.
Qed.

Lemma ensure_default_none s : "default" ∈ db_orgs (data s) → ensure_default s = s.
Proof. intros Hd. unfold ensure_default. by rewrite set_add_in, set_orgs_same, with_data_same. Qed.

Lemma in_order_version v s : in_order s → in_order (with_version v s).
Proof. by intros []. Qed.

Lemma v9_in_order s : in_order s → migrateOrgsFkV9 0 (with_version 8 s) = (None, with_version 9 s).
Proof.
  intros Hs. pose proof (in_order_version 8 s Hs) as [Hr Ho Ht _ Hd Hk Ha]. unfold migrateOrgsFkV9, since.
  rewrite decide_False by (cbn; lia). rewrite ensure_default_none, reparent_all_none, decide_True by done.
  assert (filter (.∉ org_fk (with_version 8 s)) ORG_TABLES = []) as E.
  { apply filter_nil_iff. intros t Hin Hn. by rewrite Hk in Hn. }
  unfold atomically, andThen, copy_org_tables. rewrite E, decide_False by apply not_elem_of_nil.
  rewrite filter_true by (intros ???; by eapply not_elem_of_nil).
  replace (with_keys _ _ _ _) with (with_version 8 s) by (rewrite <- Hk; by destruct s).
  destruct (fk_check_spec 0 [] (with_version 8 s) Hk Ha) as [E2 [_ E1]].
  destruct (foreign_key_check 0 [] (with_version 8 s)) as [e s2]. cbn [fst snd] in E1, E2. subst s2.
  by rewrite E1.
Qed.

Lemma all_refs_app d : all_refs d =
  ((λ t, (t_initiator t, t_org t)) <$> db_threads d) ++ ((λ m, (m_agent m, m_org m)) <$> db_messages d)
  ++ ((λ r, (s_agent r, s_org r)) <$> db_summaries d) ++ ((λ r, (i_agent r, i_org r)) <$> db_introspections d)
  ++ ((λ r, (aa_agent r, aa_org r)) <$> db_activity d).
Proof. unfold all_refs, agent_refs. cbn. by rewrite app_nil_r. Qed.

Lemma no_drift {R} `{OrgColumn R} (agent : R → string) d (l : list R) :
  (∀ r, r ∈ (λ r, (agent r, org_of r)) <$> l → r ∈ agent_keys d) →
  bring_home agent d l = l ∧ drift_count agent d l = 0%nat.
Proof.
  intros Hl. assert (∀ r, r ∈ l → ¬ drifted agent d r) as Hn.
  { intros r Hr [_ Hd]. apply Hd, Hl, list_elem_of_fmap. by exists r. }
  split; [by apply update_where_none|by apply length_filter_zero].
Qed.

Lemma reparent_refs_none d : (∀ r, r ∈ all_refs d → r ∈ agent_keys d) → reparent_refs d = ([], d).
Proof.
  rewrite all_refs_app. intros Hr.
  destruct (no_drift t_initiator d (db_threads d)) as [E1 F1]; [intros; apply Hr; rewrite !elem_of_app; tauto|].
  destruct (no_drift m_agent d (db_messages d)) as [E2 F2]; [intros; apply Hr; rewrite !elem_of_app; tauto|].
  destruct (no_drift s_agent d (db_summaries d)) as [E3 F3]; [intros; apply Hr; rewrite !elem_of_app; tauto|].
  destruct (no_drift i_agent d (db_introspections d)) as [E4 F4]; [intros; apply Hr; rewrite !elem_of_app; tauto|].
  destruct (no_drift aa_agent d (db_activity d)) as [E5 F5]; [intros; apply Hr; rewrite !elem_of_app; tauto|].
  unfold reparent_refs. rewrite F1, F2, F3, F4, F5.
  unfold on_activity, on_introspections, on_summaries, on_messages, on_threads.
  cbn [db_orgs db_agents db_threads db_messages db_summaries db_events db_event_seq db_deps db_files db_file_seq
    db_introspections db_activity db_working db_cochange db_firings].
  rewrite E1, E2, E3, E4, E5. by destruct d.
Qed.

(** The merge takes rows of status away and nothing else. *)
Lemma merge_activity d : db_activity (merge_status d) `sublist_of` db_activity d.
Proof. apply sublist_filter. Qed.

Lemma merge_refs d r : r ∈ all_refs (merge_status d) → r ∈ all_refs d.
Proof.
  rewrite !all_refs_app, !elem_of_app. intros [?|[?|[?|[?|Hr]]]]; [tauto..|].
  do 4 right. apply list_elem_of_fmap in Hr as (a & -> & Ha). apply list_elem_of_fmap. exists a. split; [done|].
  by eapply elem_of_sublist, merge_activity.
Qed.

Lemma filter_length_sublist {A} (P : A → Prop) `{!∀ x, Decision (P x)} (l k : list A) :
  l `sublist_of` k → length (filter P k) = 0%nat → length (filter P l) = 0%nat.
Proof.
  intros Hs. rewrite !length_filter_zero. intros Hk x Hx. apply Hk. by eapply elem_of_sublist.
Qed.

Lemma in_order_merged s v i e : in_order s →
  in_order (mkStore v (org_fk s) (agent_fk s) i (merge_status (data s)) (revoked s) (meta s) e).
Proof.
  intros [Hr Ho Ht Hn Hd Hk Ha]. split; try done.
  - intros r Hin%merge_refs. by apply Hr.
  - revert Ho. unfold org_violations. cbv zeta. rewrite !Forall_cons. cbn [snd]. intros Hz. destruct_and! Hz.
    split_and!; try done. by eapply filter_length_sublist; [apply merge_activity|].
  - eapply sublist_NoDup; [done|]. apply fmap_sublist, merge_activity.
Qed.

(** Version 11 finds no row to move; it merges status. *)
Lemma v11_in_order s : in_order s → ∃ e,
  migrateAgentIdPerOrgV11 locale env now 0 (with_version 10 s)
  = (None, mkStore 11 (org_fk s) (agent_fk s) false (merge_status (data s)) (revoked s) (meta s) e)
  ∧ (losers (data s) = [] → e = audit s).
Proof.
  intros Hs. pose proof Hs as [Hr _ _ Hn _ Hk Ha]. unfold migrateAgentIdPerOrgV11, since.
  rewrite decide_False by (cbn; lia). unfold andThen at 1. rewrite resolve_none by (by apply refs_not_dangling).
  unfold atomically, andThen, rehome. cbn [data with_version].
  rewrite reparent_refs_none by (intros r Hin%merge_refs; by apply Hr). rewrite decide_True.
  2:{ eapply sublist_NoDup; [done|]. apply fmap_sublist, merge_activity. }
  match goal with |- context [foreign_key_check 0 [] ?x] => set (s2 := x) end.
  assert (∃ e, s2 = mkStore 10 (org_fk s) (agent_fk s) false (merge_status (data s)) (revoked s) (meta s) e
    ∧ (losers (data s) = [] → e = audit s)) as (e & -> & He)
    by (unfold s2; rewrite Ha; destruct (decide (_ ∧ _)) as [[_ ?]|Hl]; eexists; (split; [reflexivity|tauto])).
  pose proof (in_order_merged s 10 false e Hs) as [Hr2 Ho2 Ht2 _ _ Hk2 Ha2].
  match goal with |- context [foreign_key_check 0 [] ?x] => destruct (fk_check_spec 0 [] x Hk2 Ha2) as [E2 [_ E1]] end.
  destruct (foreign_key_check 0 [] _) as [x s2]. cbn [fst snd] in E1, E2. subst s2. rewrite E1 by done. by exists e.
Qed.

Lemma losers_nil d : losers d = [] ↔ ∀ x, x ∈ db_activity d → ¬ is_loser (db_agents d) (db_activity d) x.
Proof. apply filter_nil_iff. Qed.

Lemma merge_none d : losers d = [] → merge_status d = d.
Proof.
  rewrite losers_nil. intros Hl. unfold merge_status, on_activity, delete_where. rewrite filter_true by done.
  by destruct d.
Qed.

(** Those who stay beat each other no more than before. *)
Lemma losers_merged d : losers (merge_status d) = [].
Proof.
  apply losers_nil. intros x [Hn Hx]%list_elem_of_filter. intros (a & Ha & E & (y & Hy & Hb)%Exists_exists)%Exists_exists.
  apply Hn, Exists_exists. exists a. split_and!; [done..|]. apply Exists_exists. exists y. split; [|done].
  by eapply elem_of_sublist, merge_activity.
Qed.
End restart.

(** ** Revocations *)

Notation keys l := (revoked_key <$> l).

Lemma holders_keys d i o : o ∈ holders d i ↔ (i, o) ∈ agent_keys d.
Proof.
  unfold holders, agent_keys. rewrite merge_sort_Permutation, !list_elem_of_fmap. split.
  - intros (a & -> & [<- Ha]%elem_of_select). by exists a.
  - intros (a & [= -> ->] & Ha). exists a. by rewrite elem_of_select.
Qed.

Lemma keys_insert r l k : k ∈ keys (insert_revoked r l) ↔ k = revoked_key r ∨ k ∈ keys l.
Proof.
  unfold insert_revoked. case_decide as Hin; [naive_solver|].
  rewrite fmap_app, elem_of_app, fmap_cons, list_elem_of_singleton. tauto.
Qed.

Lemma keys_inserts i at_ by_ orgs l k :
  k ∈ keys (foldl (λ l org, insert_revoked (mkRevoked i org at_ by_) l) l orgs) ↔ (k.1 = i ∧ k.2 ∈ orgs) ∨ k ∈ keys l.
Proof.
  revert l. induction orgs as [|o orgs IH]; intros l; cbn [foldl]; [rewrite elem_of_nil; tauto|].
  rewrite IH, keys_insert, elem_of_cons. destruct k as [k1 k2]. unfold revoked_key. cbn. naive_solver.
Qed.

Lemma keys_delete_stale i orgs l k : k ∈ keys (delete_where (stale i orgs) l) ↔ k ∈ keys l ∧ (k.1 = i → k.2 ∈ orgs).
Proof.
  unfold delete_where. rewrite !list_elem_of_fmap. unfold stale. split.
  - intros (r & -> & [Hs Hr]%list_elem_of_filter). split; [by exists r|]. cbn. intros E.
    destruct (decide (rv_org r ∈ orgs)); [done|]. tauto.
  - intros [(r & -> & Hr) Hk]. exists r. split; [done|]. apply list_elem_of_filter. split; [|done].
    cbn in Hk. intros [E Hn]. by apply Hn, Hk.
Qed.

(** The identifier has agents, and a revocation where none of them is. *)
Definition misplaced (d : Db) (l : list RevokedRow) (i : string) : Prop :=
  (∃ o, (i, o) ∈ agent_keys d) ∧ ∃ o, (i, o) ∈ keys l ∧ (i, o) ∉ agent_keys d.

Lemma stale_misplaced d l i : holders d i ≠ [] ∧ select (stale i (holders d i)) l ≠ [] ↔ misplaced d l i.
Proof.
  unfold misplaced. split.
  - intros [H1 H2]. split.
    + destruct (holders d i) as [|o os] eqn:E; [done|]. exists o. rewrite <- holders_keys, E. left.
    + destruct (select _ l) as [|r rs] eqn:E; [done|].
      assert (r ∈ select (stale i (holders d i)) l) as [[<- Hn] Hr]%elem_of_select by (rewrite E; left).
      exists (rv_org r). rewrite <- holders_keys. split; [|done]. apply list_elem_of_fmap. by exists r.
  - intros [(o & Ho) (o' & (r & E & Hr)%list_elem_of_fmap & Hn)]. rewrite <- holders_keys in Ho, Hn.
    injection E as -> ->. split; intros E; [rewrite E in Ho; by apply elem_of_nil in Ho|].
    assert (r ∈ select (stale (rv_agent r) (holders d (rv_agent r))) l) as Hin by (by apply elem_of_select).
    rewrite E in Hin. by apply elem_of_nil in Hin.
Qed.

Lemma rescope_one_misplaced d r l i o : misplaced d l (rv_agent r) →
  (i, o) ∈ keys (rescope_one d r l).1 ↔ (if decide (i = rv_agent r) then (i, o) ∈ agent_keys d else (i, o) ∈ keys l).
Proof.
  intros [H1 H2]%stale_misplaced. unfold rescope_one. rewrite !decide_False by done. cbn [fst].
  rewrite keys_delete_stale, keys_inserts. cbn [fst snd]. rewrite holders_keys.
  destruct (decide (i = rv_agent r)) as [->|]; tauto.
Qed.

Lemma rescope_one_else d r l : ¬ misplaced d l (rv_agent r) → rescope_one d r l = (l, []).
Proof.
  rewrite <- stale_misplaced. intros Hn. unfold rescope_one.
  destruct (decide (holders _ _ = [])); [done|]. destruct (decide (select _ _ = [])); [done|tauto].
Qed.

(** *** The earliest row of each identifier *)

Lemma firsts_spec seen l :
  NoDup (rv_agent <$> firsts seen l)
  ∧ ∀ i, i ∈ rv_agent <$> firsts seen l ↔ i ∈ rv_agent <$> l ∧ i ∉ seen.
Proof.
  revert seen. induction l as [|r l IH]; intros seen; cbn [firsts].
  { split; [constructor|]. intros i. rewrite elem_of_nil. tauto. }
  destruct (decide (rv_agent r ∈ seen)) as [Hs|Hs].
  - destruct (IH seen) as [Hn Hi]. split; [done|]. intros i. rewrite Hi, fmap_cons, elem_of_cons. naive_solver.
  - destruct (IH (rv_agent r :: seen)) as [Hn Hi]. rewrite !fmap_cons. split.
    + constructor; [|done]. rewrite Hi, elem_of_cons. tauto.
    + intros i. rewrite !elem_of_cons, Hi, elem_of_cons. destruct (decide (i = rv_agent r)) as [->|]; tauto.
Qed.

Lemma firsts_incl seen l : firsts seen l `sublist_of` l.
Proof.
  revert seen. induction l as [|r l IH]; intros seen; cbn [firsts]; [done|]. case_decide; by constructor.
Qed.

Lemma earliest_agents l i : i ∈ rv_agent <$> earliest l ↔ i ∈ rv_agent <$> l.
Proof.
  unfold earliest. rewrite (proj2 (firsts_spec _ _)), merge_sort_Permutation.
  pose proof (not_elem_of_nil i). tauto.
Qed.

(** *** The whole pass *)

Lemma rescope_with_fst d acc r : (rescope_with d acc r).1 = (rescope_one d r acc.1).1.
Proof. unfold rescope_with. by destruct (rescope_one d r acc.1). Qed.

Lemma rescope_one_other d r l i o : i ≠ rv_agent r → (i, o) ∈ keys (rescope_one d r l).1 ↔ (i, o) ∈ keys l.
Proof.
  intros Hi. unfold rescope_one. destruct (decide (holders _ _ = [])); [done|].
  destruct (decide (select _ _ = [])); [done|]. cbn [fst]. rewrite keys_delete_stale, keys_inserts. cbn. tauto.
Qed.

Lemma rescope_fold d rs : NoDup (rv_agent <$> rs) → ∀ acc i o,
  (i ∉ rv_agent <$> rs ∨ ¬ misplaced d acc.1 i →
     (i, o) ∈ keys (foldl (rescope_with d) acc rs).1 ↔ (i, o) ∈ keys acc.1)
  ∧ (i ∈ rv_agent <$> rs → misplaced d acc.1 i →
     (i, o) ∈ keys (foldl (rescope_with d) acc rs).1 ↔ (i, o) ∈ agent_keys d).
Proof.
  induction rs as [|r rs IH]; intros Hn acc i o; cbn [foldl].
  { split; [done|]. by intros ?%elem_of_nil. }
  rewrite fmap_cons in Hn |- *. apply NoDup_cons in Hn as [Hr Hn]. rewrite elem_of_cons.
  destruct (IH Hn (rescope_with d acc r) i o) as [IH1 IH2]. rewrite rescope_with_fst in IH1, IH2.
  destruct (decide (i = rv_agent r)) as [->|Hi].
  - rewrite IH1 by tauto. split.
    + intros [?|Hm]; [tauto|]. by rewrite rescope_one_else.
    + intros _ Hm. rewrite rescope_one_misplaced, decide_True; done.
  - assert (∀ o, (i, o) ∈ keys (rescope_one d r acc.1).1 ↔ (i, o) ∈ keys acc.1) as Hs
      by (intros; by apply rescope_one_other).
    assert (misplaced d (rescope_one d r acc.1).1 i ↔ misplaced d acc.1 i) as Hm
      by (unfold misplaced; by setoid_rewrite Hs).
    rewrite Hm in IH1, IH2. rewrite <- Hs. split; intros ?; [apply IH1; tauto|intros; apply IH2; tauto].
Qed.

Lemma misplaced_agent d l i : misplaced d l i → i ∈ rv_agent <$> l.
Proof. intros [_ (o & (r & [= -> ->] & Hr)%list_elem_of_fmap & _)]. apply list_elem_of_fmap. by exists r. Qed.

Lemma rescope_keys d l i o :
  (misplaced d l i → (i, o) ∈ keys (rescope d l).1 ↔ (i, o) ∈ agent_keys d)
  ∧ (¬ misplaced d l i → (i, o) ∈ keys (rescope d l).1 ↔ (i, o) ∈ keys l).
Proof.
  destruct (rescope_fold d (earliest l) (proj1 (firsts_spec _ _)) (l, []) i o) as [H1 H2]. split.
  - intros Hm. apply H2; [|done]. by eapply earliest_agents, misplaced_agent.
  - intros Hm. apply H1. by right.
Qed.

(** *** What the rows carry *)

Lemma insert_revoked_rows r l x : x ∈ insert_revoked r l → x = r ∨ x ∈ l.
Proof. unfold insert_revoked. case_decide; [tauto|]. rewrite elem_of_app, list_elem_of_singleton. tauto. Qed.

Lemma inserts_rows i at_ by_ orgs l x :
  x ∈ foldl (λ l org, insert_revoked (mkRevoked i org at_ by_) l) l orgs →
  x ∈ l ∨ (rv_org x ∈ orgs ∧ x = mkRevoked i (rv_org x) at_ by_).
Proof.
  revert l. induction orgs as [|o orgs IH]; intros l; cbn [foldl]; [tauto|].
  intros [[->|Hx]%insert_revoked_rows|[Ho Hx]]%IH; [right; split; [left|done]|tauto|right; split; [by right|done]].
Qed.

Lemma rescope_one_rows d r l x : x ∈ (rescope_one d r l).1 →
  x ∈ l ∨ (revoked_key x ∈ agent_keys d ∧ x = mkRevoked (rv_agent r) (rv_org x) (rv_at r) (rv_by r)).
Proof.
  unfold rescope_one. destruct (decide (holders _ _ = [])); [tauto|]. destruct (decide (select _ _ = [])); [tauto|].
  cbn [fst]. intros [_ [Hx|[Ho Hx]]%inserts_rows]%list_elem_of_filter; [tauto|]. right. split; [|done].
  unfold revoked_key. rewrite Hx. cbn. by apply holders_keys.
Qed.

Lemma rescope_fold_rows d rs acc x : x ∈ (foldl (rescope_with d) acc rs).1 →
  x ∈ acc.1 ∨ (revoked_key x ∈ agent_keys d
               ∧ ∃ r, r ∈ rs ∧ x = mkRevoked (rv_agent r) (rv_org x) (rv_at r) (rv_by r)).
Proof.
  revert acc. induction rs as [|r rs IH]; intros acc; cbn [foldl]; [tauto|].
  intros [Hx|(Hk & r' & Hr & E)]%IH.
  - rewrite rescope_with_fst in Hx. apply rescope_one_rows in Hx as [Hx|[Hk E]]; [tauto|].
    right. split; [done|]. exists r. split; [left|done].
  - right. split; [done|]. exists r'. split; [by right|done].
Qed.

#[local] Instance revoked_before_total : Total revoked_before.
Proof.
  intros a b. unfold revoked_before, str_lt. destruct (decide (rv_agent a = rv_agent b)) as [E|E].
  - destruct (decide (rv_at a ≤ rv_at b)); [left; tauto|]. right. right. split; [done|lia].
  - destruct (total str_le (rv_agent a) (rv_agent b)); [left|right]; left; split; congruence.
Qed.

#[local] Instance revoked_before_trans : Transitive revoked_before.
Proof.
  intros a b c. unfold revoked_before, str_lt. intros [[H1 N1]|[E1 L1]] [[H2 N2]|[E2 L2]].
  - left. split; [by etrans|]. intros E. rewrite <- E in H2. apply N1. by apply (anti_symm str_le).
  - left. by rewrite <- E2.
  - left. by rewrite E1.
  - right. split; [congruence|lia].
Qed.

Lemma firsts_earliest seen l r : StronglySorted revoked_before l → r ∈ firsts seen l →
  ∀ y, y ∈ l → rv_agent y = rv_agent r → rv_at r ≤ rv_at y.
Proof.
  intros Hs. revert seen. induction Hs as [|x l Hs IH Hx]; intros seen; cbn [firsts]; [by intros ?%elem_of_nil|].
  assert (∀ s r, r ∈ firsts s l → rv_agent r ∉ s) as Hf.
  { intros s r' Hr. apply (proj2 (firsts_spec s l)), list_elem_of_fmap. by exists r'. }
  rewrite Forall_forall in Hx. destruct (decide (rv_agent x ∈ seen)) as [Hi|Hi].
  - intros Hr y [-> | Hy]%elem_of_cons E; [|by eapply IH]. exfalso. apply (Hf _ _ Hr). by rewrite <- E.
  - intros [-> | Hr]%elem_of_cons y [-> | Hy]%elem_of_cons E; [lia| | |by eapply IH].
    + destruct (Hx y Hy) as [[_ Hn]|[_ ?]]; [by destruct Hn|done].
    + exfalso. apply (Hf _ _ Hr). rewrite <- E. left.
Qed.

Lemma earliest_spec l r : r ∈ earliest l → r ∈ l ∧ ∀ y, y ∈ l → rv_agent y = rv_agent r → rv_at r ≤ rv_at y.
Proof.
  unfold earliest. intros Hr. split.
  - rewrite <- (merge_sort_Permutation revoked_before l). eapply elem_of_sublist; [exact Hr|apply firsts_incl].
  - intros y Hy. eapply firsts_earliest; [|exact Hr|by rewrite merge_sort_Permutation].
    apply StronglySorted_merge_sort; apply _.
Qed.

Lemma rescope_id d l : (∀ i, ¬ misplaced d l i) → rescope d l = (l, []).
Proof.
  intros Hn. unfold rescope. generalize (earliest l). intros rs.
  induction rs as [|r rs IH]; [done|]. cbn [foldl]. unfold rescope_with at 2. cbn [fst snd].
  by rewrite rescope_one_else by apply Hn.
Qed.

Lemma rescoped_placed d l i : ¬ misplaced d (rescope d l).1 i.
Proof.
  intros Hm. assert (¬ ¬ misplaced d l i) as Hl.
  { intros Hl. apply Hl. destruct Hm as [Ho (o & Hk & Hn)]. split; [done|]. exists o.
    split; [by apply (rescope_keys d l i o)|done]. }
  apply Hl. intros Hl'. destruct Hm as [_ (o & Hk & Hn)]. by apply Hn, (rescope_keys d l i o).
Qed.

(** Where an identifier has agents and a revocation stands in an organisation
    that has none of them, version 12 leaves exactly the organisations of the
    agents revoked; every other identifier keeps its revocations. A row that was
    added carries the time and the author of the earliest revocation of its
    identifier, and a second pass changes nothing. *)
Theorem revocations_rescoped d l :
  (∀ i o, misplaced d l i → (i, o) ∈ keys (rescope d l).1 ↔ (i, o) ∈ agent_keys d)
  ∧ (∀ i o, ¬ misplaced d l i → (i, o) ∈ keys (rescope d l).1 ↔ (i, o) ∈ keys l)
  ∧ (∀ x, x ∈ (rescope d l).1 → x ∉ l → ∃ r, r ∈ l ∧ x = mkRevoked (rv_agent r) (rv_org x) (rv_at r) (rv_by r)
       ∧ ∀ y, y ∈ l → rv_agent y = rv_agent r → rv_at r ≤ rv_at y)
  ∧ rescope d (rescope d l).1 = ((rescope d l).1, []).
Proof.
  split_and!; [intros; by apply rescope_keys..| |apply rescope_id, rescoped_placed].
  intros x [Hx|(_ & r & [Hr Hm]%earliest_spec & E)]%rescope_fold_rows Hn; [done|]. by exists r.
Qed.

(** ** A start *)

Lemma in_order_revoked s l e v : in_order s → (∀ x, x ∈ l → x ∈ revoked s ∨ revoked_key x ∈ agent_keys (data s)) →
  in_order (mkStore v (org_fk s) (agent_fk s) (idx_agents_id s) (data s) l (meta s) e).
Proof.
  intros [Hr Ho Ht Hn Hd Hk Ha] Hl. split; try done.
  revert Ho. unfold org_violations. cbv zeta. rewrite !Forall_cons. cbn [snd]. intros Hz. destruct_and! Hz.
  split_and!; try done. apply length_filter_zero. intros x [Hx|Hx]%Hl Horph.
  - match goal with Hrev : length (filter _ (revoked s)) = _ |- _ => rewrite length_filter_zero in Hrev;
      by apply (Hrev x) end.
  - apply list_elem_of_fmap in Hx as (a & [= Ea Eo] & Hin).
    match goal with Hag : length (filter _ (db_agents _)) = _ |- _ => rewrite length_filter_zero in Hag;
      apply (Hag a Hin) end. unfold orphan in *. cbn in *. by rewrite <- Eo.
Qed.

Lemma rescope_in_order s x : x ∈ (rescope (data s) (revoked s)).1 →
  x ∈ revoked s ∨ revoked_key x ∈ agent_keys (data s).
Proof. intros [Hx|[Hx _]]%rescope_fold_rows; auto. Qed.

Lemma v12_revoked s : user_version s = 11 → ∃ e, migrateRevokedAgentsPerOrgV12 s
  = (None, mkStore 12 (org_fk s) (agent_fk s) (idx_agents_id s) (data s) (rescope (data s) (revoked s)).1 (meta s) e)
  ∧ ((rescope (data s) (revoked s)).2 = [] → e = audit s).
Proof.
  intros Hv. unfold migrateRevokedAgentsPerOrgV12, since. rewrite decide_False by lia.
  destruct (rescope _ _) as [l moved]. cbn [fst snd]. case_decide; eexists; (split; [reflexivity|]); done.
Qed.

Lemma restart_in_order locale `{!RelDecision locale} env now s : in_order s → ∃ e,
  boot_migrations locale env now 0 s = (None, mkStore 12 (org_fk s) (agent_fk s) false (merge_status (data s))
    (rescope (data s) (revoked s)).1 (meta s) e)
  ∧ (losers (data s) = [] → (rescope (data s) (revoked s)).2 = [] → e = audit s).
Proof.
  intros Hs. unfold boot_migrations, andThen at 1, rewind. unfold andThen at 1.
  rewrite resolve_none by (apply refs_not_dangling, (io_refs _ Hs)). unfold andThen at 1.
  rewrite v9_in_order by done. unfold andThen at 1, migrateSweepIndexesV10, since.
  rewrite decide_False by (cbn; lia). unfold andThen at 1.
  change (with_version 10 (with_version 9 s)) with (with_version 10 s).
  destruct (v11_in_order locale env now s Hs) as (e & -> & He). set (s1 := mkStore 11 _ _ _ _ _ _ e).
  destruct (v12_revoked s1) as (e' & -> & He'); [done|]. exists e'. split; [done|].
  intros H1 H2. rewrite He' by done. by apply He.
Qed.

(** A start on a database in order ends, at the last version, with the
    database in order. It touches no agent, thread, message, summary or request:
    only the rows of status of an identifier that several organisations have are
    merged, and misplaced revocations moved. A start after it changes nothing at
    all, the log of what was changed included. *)
Theorem restart_keeps locale `{!RelDecision locale} env now now' s : in_order s → ∃ s',
  boot_migrations locale env now 0 s = (None, s') ∧ in_order s' ∧ user_version s' = 12
  ∧ data s' = merge_status (data s) ∧ revoked s' = (rescope (data s) (revoked s)).1 ∧ meta s' = meta s
  ∧ boot_migrations locale env now' 0 s' = (None, s').
Proof.
  intros Hs. destruct (restart_in_order locale env now s Hs) as (e & E & _). eexists. split; [exact E|].
  set (s1 := mkStore 12 _ _ _ _ _ _ e).
  assert (in_order s1) as Hs1.
  { apply (in_order_revoked (mkStore 12 (org_fk s) (agent_fk s) false (merge_status (data s)) (revoked s) (meta s) e));
      [by apply in_order_merged|intros x Hx; by apply rescope_in_order in Hx]. }
  split_and!; try done. destruct (restart_in_order locale env now' s1 Hs1) as (e' & -> & He').
  assert (rescope (data s1) (revoked s1) = (revoked s1, [])) as Hr
    by (apply rescope_id; exact (rescoped_placed (data s) (revoked s))).
  assert (losers (data s1) = []) as Hl by apply losers_merged.
  rewrite Hr in He' |- *. rewrite He', merge_none by done. done.
Qed.

(** ** What a start that ends has established *)

Lemma andThen_ok a b s s' : andThen a b s = (None, s') → ∃ s1, a s = (None, s1) ∧ b s1 = (None, s').
Proof. unfold andThen. destruct (a s) as [[e|] s1]; [done|]. by exists s1. Qed.

Lemma atomically_ok a s s' : atomically a s = (None, s') → a s = (None, s').
Proof. unfold atomically. by destruct (a s) as [[e|] s1]. Qed.

Lemma since_ok v a s s' : user_version s < v → since v a s = (None, s') → a s = (None, s').
Proof. intros Hv. unfold since. by rewrite decide_False by lia. Qed.

(** What the steps before the copies keep. *)
Definition kept (s s' : Store) : Prop :=
  db_orgs (data s') = db_orgs (data s) ∧ org_fk s' = org_fk s ∧ user_version s' = user_version s.

#[local] Instance kept_trans : Transitive kept.
Proof. intros a b c (?&?&?) (?&?&?). repeat split; congruence. Qed.

Lemma insert_agent_kept a s : kept s (insert_agent a s).2.
Proof. unfold insert_agent. case_decide; [done|]. by case_decide. Qed.

Lemma insert_agents_kept now l s : kept s (insert_agents now l s).2.
Proof.
  revert s. induction l as [|[[i o] n] l IH]; intros s; cbn [insert_agents]; [done|]. unfold andThen.
  pose proof (insert_agent_kept (recovered_agent now i o) s) as Hk.
  destruct (insert_agent _ s) as [[e|] s1]; [done|]. by etrans.
Qed.

Lemma resolve_kept locale `{!RelDecision locale} env now s : kept s (resolveDanglingAgentRefs locale env now s).2.
Proof.
  unfold resolveDanglingAgentRefs. case_decide; [done|]. destruct (canRepairMigrationOrphans env); [|done].
  cbv zeta. unfold andThen. pose proof (insert_agents_kept now (recovered locale (data s)) s) as Hk.
  by destruct (insert_agents _ _ s) as [[e|] s1].
Qed.

Lemma reparent_table_kept {R K} `{OrgColumn R} `{EqDecision K} (key : R → K) broken get set name s :
  (∀ l, kept s (set l s)) → kept s (reparent_table key broken get set name s).2.
Proof.
  intros Hk. unfold reparent_table. cbv zeta. case_decide; [done|]. case_decide; [done|].
  destruct (existsb _ _); [done|]. apply Hk.
Qed.

Lemma reparent_all_kept s counts : kept s (reparent_all reparent_tables counts s).2.
Proof.
  assert (Forall (λ f : Store → (Abort + Counts) * Store, ∀ s, kept s (f s).2) reparent_tables) as Hf.
  { unfold reparent_tables. repeat constructor; try apply reparent_table_kept; try done. }
  revert s counts. induction Hf as [|f l Hf _ IH]; intros s counts; cbn [reparent_all]; [done|].
  specialize (Hf s). destruct (f s) as [[e|n] s1]; [done|]. by etrans.
Qed.

Lemma v9_established elsewhere s s' : user_version s = 8 → migrateOrgsFkV9 elsewhere s = (None, s') →
  org_fk s' = ORG_TABLES ∧ "default" ∈ db_orgs (data s') ∧ user_version s' = 9.
Proof.
  intros Hv Hb%since_ok; [|lia]. pose proof (reparent_all_kept (ensure_default s) []) as (Ho & _).
  destruct (reparent_all _ _ _) as [[e|counts] s1]; [done|]. cbn [snd] in Ho. revert Hb.
  set (s2 := if decide (counts = []) then s1 else _).
  assert (db_orgs (data s2) = db_orgs (data (ensure_default s))) as Ho2 by (unfold s2; by case_decide).
  clearbody s2. intros Hb%atomically_ok. apply andThen_ok in Hb as (s3 & Hc & (s4 & Hf & [= <-])%andThen_ok).
  assert (s4 = s3) as ->.
  { revert Hf. unfold foreign_key_check. case_decide; [done|]. cbv zeta. case_decide; congruence. }
  revert Hc. unfold copy_org_tables. cbv zeta.
  assert ("default" ∈ db_orgs (data s2)) as Hd by (rewrite Ho2; apply elem_of_set_add; by left).
  case_decide; [case_decide|]; intros [= <-]; done.
Qed.

Lemma rehome_ok s s' : rehome s = (None, s') →
  kept s s' ∧ NoDup (activity_key <$> db_activity (data s')).
Proof.
  unfold rehome. destruct (reparent_refs _) as [counts d2] eqn:E.
  assert (db_orgs d2 = db_orgs (data s)) as Ho by (by injection E as <- <-).
  case_decide; [|done]. case_decide; intros [= <-]; done.
Qed.

Lemma v11_established locale `{!RelDecision locale} env now elsewhere s s' :
  user_version s = 10 → org_fk s = ORG_TABLES → "default" ∈ db_orgs (data s) →
  migrateAgentIdPerOrgV11 locale env now elsewhere s = (None, s') → in_order s' ∧ user_version s' = 11.
Proof.
  intros Hv Hk Hd Hb%since_ok; [|lia]. apply andThen_ok in Hb as (s1 & Hb & Hc%atomically_ok).
  pose proof (resolve_kept locale env now s) as (Ho1 & Hk1 & _). rewrite Hb in Ho1, Hk1. cbn [snd] in Ho1, Hk1.
  apply andThen_ok in Hc as (s2 & [(Ho2 & Hk2 & _) Hn]%rehome_ok & Hc).
  apply andThen_ok in Hc as (s3 & [= <-] & (s4 & Hf & [= <-])%andThen_ok).
  match type of Hf with foreign_key_check _ _ ?x = _ =>
    destruct (fk_check_spec elsewhere [] x) as [E2 [(_ & Ho & Ht & Hr) _]]; [cbn; congruence|done|by rewrite Hf|] end.
  rewrite Hf in E2. cbn [snd] in E2. subst s4. split; [|done]. split; try done; cbn; congruence.
Qed.

(** A start that ends, from whatever rows, leaves the database at the last
    version and in order: every reference to an agent meets an agent of the same
    organisation, every organisation and thread referred to exists, and every
    table carries its keys. *)
Theorem migrations_establish locale `{!RelDecision locale} env now elsewhere s s' :
  boot_migrations locale env now elsewhere s = (None, s') → in_order s' ∧ user_version s' = 12.
Proof.
  intros (s1 & [= <-] & Hb)%andThen_ok. apply andThen_ok in Hb as (s2 & Hr & Hb).
  pose proof (resolve_kept locale env now (with_version 8 s)) as (_ & _ & Hv). rewrite Hr in Hv. cbn [snd] in Hv.
  apply andThen_ok in Hb as (s3 & (Hk & Hd & Hv3)%v9_established & Hb); [|done].
  apply andThen_ok in Hb as (s4 & Hs%since_ok & Hb); [|lia]. injection Hs as <-.
  apply andThen_ok in Hb as (s5 & [Hi Hv5]%v11_established & Hb); [|done..].
  destruct (v12_revoked s5 Hv5) as (e & E & _). rewrite E in Hb. injection Hb as <-.
  split; [|done]. apply in_order_revoked; [done|apply rescope_in_order].
Qed.
End BootMigrationsSafety.

(** * The upgrade of a database whose agents have identifiers of their own

    Before version 11 an identifier belonged to one agent of the whole database,
    and rows that refer to it may carry another organisation. The upgrade ends,
    brings each row home, and leaves one row of status per agent: the latest. *)

From S2P Require Import Prelude Database BootMigrations.
Local Open Scope Z_scope.

Module BootUpgrade.
Import BootMigrations BootMigrationsSafety.

(** ** The order of the rows of status *)

Lemma stamp_lt_irrefl a : ¬ stamp_lt a a.
Proof. unfold stamp_lt. destruct (stamp_key a) as [[d s] t]. lia. Qed.

Lemma stamp_lt_trans a b c : stamp_lt a b → stamp_lt b c → stamp_lt a c.
Proof.
  unfold stamp_lt. destruct (stamp_key a) as [[??]?], (stamp_key b) as [[??]?], (stamp_key c) as [[??]?]. lia.
Qed.

Lemma stamp_key_inj a b : stamp_key a = stamp_key b → a = b.
Proof.
  destruct a as [x|x], b as [y|y]; intros [= E1 E2]; f_equal.
  - rewrite (Z.div_mod x 86400), (Z.div_mod y 86400) by done. rewrite E1. lia.
  - rewrite (Z.div_mod x 86400000), (Z.div_mod y 86400000) by done. by rewrite E1, E2.
Qed.

Lemma stamp_total a b : stamp_lt a b ∨ a = b ∨ stamp_lt b a.
Proof.
  destruct (decide (stamp_key a = stamp_key b)) as [E|E]; [right; left; by apply stamp_key_inj|].
  unfold stamp_lt. destruct (stamp_key a) as [[d1 s1] t1], (stamp_key b) as [[d2 s2] t2].
  assert (d1 < d2 ∨ d2 < d1 ∨ (d1 = d2 ∧ (s1 < s2 ∨ s2 < s1 ∨ (s1 = s2 ∧ (t1 < t2 ∨ t2 < t1 ∨ t1 = t2))))) as Hc by lia.
  destruct Hc as [?|[?|(-> & [?|[?|(-> & [?|[?| ->]])]])]]; [lia..|done].
Qed.

Lemma str_lt_irrefl a : ¬ str_lt a a.
Proof. by intros [_ ?]. Qed.

Lemma str_lt_trans a b c : str_lt a b → str_lt b c → str_lt a c.
Proof.
  intros [H1 N1] [H2 N2]. split; [by etrans|]. intros ->. apply N1. by apply (anti_symm str_le).
Qed.

Lemma str_lt_total a b : a ≠ b → str_lt a b ∨ str_lt b a.
Proof. intros Hn. destruct (total str_le a b); [left|right]; by split. Qed.

Lemma beats_irrefl a x : ¬ beats a x x.
Proof.
  intros [?%stamp_lt_irrefl|(_ & [[? ?]|[_ ?%str_lt_irrefl]])]; done.
Qed.

Lemma beats_trans a x y z : beats a x y → beats a y z → beats a x z.
Proof.
  unfold beats. intros [H1|[E1 H1]] [H2|[E2 H2]].
  - left. by eapply stamp_lt_trans.
  - left. by rewrite <- E2.
  - left. by rewrite E1.
  - right. split; [congruence|]. destruct H1 as [[??]|[? H1]], H2 as [[??]|[? H2]]; try tauto.
    right. split; [tauto|]. by eapply str_lt_trans.
Qed.

(** Two rows of different organisations are never even. *)
Lemma beats_total a x y : aa_org x ≠ aa_org y → beats a x y ∨ beats a y x.
Proof.
  intros Hn. unfold beats. destruct (stamp_total (aa_last x) (aa_last y)) as [?|[->|?]]; [tauto| |tauto].
  destruct (decide (aa_org x = a_org a)), (decide (aa_org y = a_org a)); [congruence|tauto..|].
  destruct (str_lt_total _ _ Hn); [left|right]; right; split; try done; right; tauto.
Qed.

(** ** Unique identifiers *)

Section unique.
Context (d : Db) (Hids : NoDup (agent_ids d)).

Lemma home_of a : a ∈ db_agents d → home_org d (a_id a) = a_org a.
Proof.
  intros Ha. unfold home_org. erewrite (select_one_key a_id); [done|exact Hids|exact Ha|done|done].
Qed.

Lemma home_key i : i ∈ agent_ids d → (i, home_org d i) ∈ agent_keys d.
Proof.
  intros (a & -> & Ha)%list_elem_of_fmap. rewrite home_of by done. apply list_elem_of_fmap. by exists a.
Qed.

Lemma key_home i o : (i, o) ∈ agent_keys d → o = home_org d i.
Proof. intros (a & [= -> ->] & Ha)%list_elem_of_fmap. by rewrite home_of. Qed.

(** Every row goes to the organisation of its agent. *)
Lemma bring_home_all {R} `{OrgColumn R} (agent : R → string) l : (∀ r, r ∈ l → agent r ∈ agent_ids d) →
  bring_home agent d l = (λ r, with_org (home_org d (agent r)) r) <$> l.
Proof.
  intros Hl. unfold bring_home, update_where. apply list_fmap_ext. intros n r Hr%list_elem_of_lookup_2.
  destruct (decide (drifted agent d r)) as [|Hn]; [done|].
  destruct (decide ((agent r, org_of r) ∈ agent_keys d)) as [Hk|Hk]; [|destruct Hn; split; auto].
  by rewrite <- (key_home _ _ Hk), with_org_same.
Qed.

(** *** The merge of the rows of status *)

Context (Hagents : ∀ r, r ∈ db_activity d → aa_agent r ∈ agent_ids d).
Context (Hkeys : NoDup (activity_key <$> db_activity d)).

Lemma loser_iff a x : a ∈ db_agents d → a_id a = aa_agent x →
  is_loser (db_agents d) (db_activity d) x ↔
  ∃ y, y ∈ db_activity d ∧ aa_agent y = aa_agent x ∧ aa_org y ≠ aa_org x ∧ beats a y x.
Proof.
  intros Ha E. unfold is_loser. rewrite Exists_exists. split.
  - intros (a' & Ha' & E' & (y & Hy & ? & ? & Hb)%Exists_exists). exists y.
    assert (a' = a) as -> by (eapply (NoDup_key_eq a_id); eauto; congruence). done.
  - intros (y & Hy & ? & ? & Hb). exists a. split; [done|]. split; [done|]. apply Exists_exists. by exists y.
Qed.

Lemma elem_of_merged x : x ∈ db_activity (merge_status d) ↔ ¬ is_loser (db_agents d) (db_activity d) x ∧ x ∈ db_activity d.
Proof. unfold merge_status, on_activity, delete_where. cbn [db_activity]. by rewrite list_elem_of_filter. Qed.

Lemma merged_unique x y : x ∈ db_activity (merge_status d) → y ∈ db_activity (merge_status d) →
  aa_agent x = aa_agent y → x = y.
Proof.
  intros [Nx Hx]%elem_of_merged [Ny Hy]%elem_of_merged E.
  destruct (decide (aa_org x = aa_org y)) as [Eo|Eo].
  { eapply (NoDup_key_eq activity_key); eauto. unfold activity_key. congruence. }
  pose proof (Hagents x Hx) as (a & Ea & Ha)%list_elem_of_fmap. exfalso.
  destruct (beats_total a x y Eo) as [Hb|Hb].
  - apply Ny, (loser_iff a); [done|congruence|]. exists x. naive_solver.
  - apply Nx, (loser_iff a); [done|congruence|]. exists y. naive_solver.
Qed.

(** The row that stays is the latest of its agent. *)
Lemma merged_latest r : r ∈ db_activity d → ∃ x, x ∈ db_activity (merge_status d) ∧ aa_agent x = aa_agent r
  ∧ ∀ y, y ∈ db_activity d → aa_agent y = aa_agent r → ¬ stamp_lt (aa_last x) (aa_last y).
Proof.
  intros Hr. pose proof (Hagents r Hr) as (a & Ea & Ha)%list_elem_of_fmap.
  destruct (unbeaten_exists (beats a) (filter (λ y, aa_agent y = aa_agent r) (db_activity d)))
    as (x & [Ex Hx]%list_elem_of_filter & Hu); [apply beats_irrefl|apply beats_trans| |].
  { intros E. rewrite filter_nil_iff in E. by apply (E r). }
  assert (∀ y, y ∈ db_activity d → aa_agent y = aa_agent r → ¬ beats a y x) as Hub.
  { intros y Hy Ey. by apply Hu, list_elem_of_filter. }
  exists x. split_and!; [|done|].
  - apply elem_of_merged. split; [|done]. rewrite (loser_iff a) by congruence.
    intros (y & Hy & Ey & _ & Hb). apply (Hub y); congruence.
  - intros y Hy Ey Hlt. apply (Hub y Hy Ey). by left.
Qed.

Lemma merged_NoDup : NoDup (aa_agent <$> db_activity (merge_status d)).
Proof.
  apply NoDup_fmap_2_strong.
  - intros x y Hx Hy. by apply merged_unique.
  - apply NoDup_filter. by eapply NoDup_fmap_1.
Qed.
End unique.

(** ** The upgrade *)

(** A sound database of the time when identifiers were global: whatever keys to
    [orgs] its tables have, every row is of an organisation that exists, references
    to agents name an identifier that exists, and messages and introspections a
    thread that exists. *)
Record legacy (s : Store) : Prop := {
  lg_ids : NoDup (agent_ids (data s));
  lg_idx : idx_agents_id s = true;
  lg_fk : agent_fk s = [];
  lg_refs r : r ∈ all_refs (data s) → r.1 ∈ agent_ids (data s);
  lg_orgs : Forall (λ p, p.2 = 0%nat) (org_violations s);
  lg_default : "default" ∈ db_orgs (data s);
  lg_threads : thread_violations (data s) = 0%nat;
  lg_activity : NoDup (activity_key <$> db_activity (data s))
}.

Definition at_v9 (s : Store) : Store := mkStore 9 ORG_TABLES [] true (data s) (revoked s) (meta s) (audit s).

Lemma fk_check_plain copied s : org_fk s = ORG_TABLES → agent_fk s = [] → idx_agents_id s = true →
  (∀ r, r ∈ all_refs (data s) → r.1 ∈ agent_ids (data s)) → Forall (λ p, p.2 = 0%nat) (org_violations s) →
  thread_violations (data s) = 0%nat → foreign_key_check 0 copied s = (None, s).
Proof.
  intros Ho Ha Hi Hr Hz Ht. unfold foreign_key_check. rewrite decide_False by (intros [E _]; congruence).
  assert (agent_violations s = 0%nat) as Hv.
  { unfold agent_violations. apply sum_list_zero, Forall_fmap, Forall_forall. intros [t l] Htl. cbn.
    apply length_filter_zero. intros r Hin. unfold bad_ref. rewrite Ha, decide_False by apply not_elem_of_nil.
    intros Hn. apply Hn, Hr. by eapply refs_table. }
  rewrite <- (rows_split (λ p, p.1 ∈ copied)) in Hz. rewrite org_key_violations_all by done. cbv zeta.
  rewrite decide_True by lia. done.
Qed.

Lemma v9_legacy s : legacy s → migrateOrgsFkV9 0 (with_version 8 s) = (None, at_v9 s).
Proof.
  intros [Hn Hi Hf Hr Ho Hd Ht _]. unfold migrateOrgsFkV9, since. rewrite decide_False by (cbn; lia).
  rewrite ensure_default_none, reparent_all_none, decide_True by done. unfold atomically, andThen.
  assert (copy_org_tables (with_version 8 s) = (None, with_keys ORG_TABLES [] true (with_version 8 s))) as ->.
  { unfold copy_org_tables. cbn [org_fk agent_fk idx_agents_id data with_version]. rewrite Hf, Hi.
    destruct (decide ("agents" ∈ _)); [|done]. by rewrite decide_True. }
  by rewrite fk_check_plain.
Qed.

Lemma thread_violations_zero d : thread_violations d = 0%nat ↔
  (∀ m, m ∈ db_messages d → m_thread m ∈ t_id <$> db_threads d)
  ∧ ∀ r, r ∈ db_introspections d → i_thread r ∈ t_id <$> db_threads d.
Proof.
  unfold thread_violations. rewrite Nat.eq_add_0, !length_filter_zero. split; intros [H1 H2]; split; intros x Hx.
  - destruct (decide (m_thread x ∈ t_id <$> db_threads d)); [done|]. by destruct (H1 x).
  - destruct (decide (i_thread x ∈ t_id <$> db_threads d)); [done|]. by destruct (H2 x).
  - intros Hn. by apply Hn, H1.
  - intros Hn. by apply Hn, H2.
Qed.

(** Where the rows of a table are after version 11. *)
Definition home_row {R} `{OrgColumn R} (agent : R → string) (d : Db) (r : R) : R := with_org (home_org d (agent r)) r.

Definition rehomed (d : Db) : Db := (reparent_refs (merge_status d)).2.

Section rehomed.
Context (s : Store) (Hs : legacy s).
Notation d := (data s).

Lemma refs_ids :
  (∀ r, r ∈ db_threads d → t_initiator r ∈ agent_ids d) ∧ (∀ r, r ∈ db_messages d → m_agent r ∈ agent_ids d)
  ∧ (∀ r, r ∈ db_summaries d → s_agent r ∈ agent_ids d) ∧ (∀ r, r ∈ db_introspections d → i_agent r ∈ agent_ids d)
  ∧ ∀ r, r ∈ db_activity d → aa_agent r ∈ agent_ids d.
Proof.
  pose proof (lg_refs _ Hs) as Hr. rewrite all_refs_app in Hr.
  setoid_rewrite elem_of_app in Hr. do 3 setoid_rewrite elem_of_app in Hr.
  split_and!; intros r Hin; [apply (Hr (_, t_org r))|apply (Hr (_, m_org r))|apply (Hr (_, s_org r))
    |apply (Hr (_, i_org r))|apply (Hr (_, aa_org r))]; rewrite !list_elem_of_fmap; eauto 10.
Qed.

Lemma merged_ids r : r ∈ db_activity (merge_status d) → aa_agent r ∈ agent_ids d.
Proof. intros Hr. apply refs_ids. eapply elem_of_sublist, merge_activity. exact Hr. Qed.

Lemma rehomed_threads : db_threads (rehomed d) = home_row t_initiator d <$> db_threads d.
Proof. apply (bring_home_all (merge_status d) (lg_ids _ Hs)), refs_ids. Qed.
Lemma rehomed_messages : db_messages (rehomed d) = home_row m_agent d <$> db_messages d.
Proof. apply (bring_home_all (merge_status d) (lg_ids _ Hs)), refs_ids. Qed.
Lemma rehomed_summaries : db_summaries (rehomed d) = home_row s_agent d <$> db_summaries d.
Proof. apply (bring_home_all (merge_status d) (lg_ids _ Hs)), refs_ids. Qed.
Lemma rehomed_introspections : db_introspections (rehomed d) = home_row i_agent d <$> db_introspections d.
Proof. apply (bring_home_all (merge_status d) (lg_ids _ Hs)), refs_ids. Qed.
Lemma rehomed_activity : db_activity (rehomed d) = home_row aa_agent d <$> db_activity (merge_status d).
Proof. apply (bring_home_all (merge_status d) (lg_ids _ Hs)), merged_ids. Qed.

Lemma home_in_orgs i : i ∈ agent_ids d → home_org d i ∈ db_orgs d.
Proof.
  intros (a & Ea & Ha)%(home_key d (lg_ids _ Hs))%list_elem_of_fmap. injection Ea as _ ->.
  pose proof (lg_orgs _ Hs) as Ho. unfold org_violations in Ho. cbv zeta in Ho. rewrite Forall_cons in Ho.
  destruct Ho as [Ho _]. cbn [snd] in Ho. rewrite length_filter_zero in Ho. specialize (Ho a Ha).
  unfold orphan in Ho. cbn in Ho. by destruct (decide (a_org a ∈ db_orgs d)).
Qed.

(** A table of rows brought home refers to agents that exist. *)
Lemma home_rows_refs {R} `{OrgColumn R} (agent : R → string) (l : list R) :
  (∀ r o, agent (with_org o r) = agent r) → (∀ r, r ∈ l → agent r ∈ agent_ids d) →
  ∀ r, r ∈ (λ r, (agent r, org_of r)) <$> (home_row agent d <$> l) → r ∈ agent_keys d.
Proof.
  intros Hw Hl r (x & -> & (y & -> & Hy)%list_elem_of_fmap)%list_elem_of_fmap. unfold home_row.
  rewrite Hw, org_of_with_org. apply home_key; [apply (lg_ids _ Hs)|auto].
Qed.

Lemma home_rows_orgs {R} `{OrgColumn R} (agent : R → string) (l : list R) : (∀ r, r ∈ l → agent r ∈ agent_ids d) →
  length (filter (orphan (db_orgs d)) (home_row agent d <$> l)) = 0%nat.
Proof.
  intros Hl. apply length_filter_zero. intros x (y & -> & Hy)%list_elem_of_fmap. unfold orphan, home_row.
  rewrite org_of_with_org. intros Hn. by apply Hn, home_in_orgs, Hl.
Qed.

Lemma rehomed_in_order i v e :
  in_order (mkStore v ORG_TABLES AGENT_REF_TABLES i (rehomed d) (revoked s) (meta s) e).
Proof.
  pose proof refs_ids as (R1 & R2 & R3 & R4 & R5). split; try done; cbn [data].
  - intros r. rewrite all_refs_app, rehomed_threads, rehomed_messages, rehomed_summaries, rehomed_introspections,
      rehomed_activity, !elem_of_app.
    change (agent_keys (rehomed d)) with (agent_keys d).
    intros [Hr|[Hr|[Hr|[Hr|Hr]]]];
      [exact (home_rows_refs t_initiator _ (λ _ _, eq_refl) R1 r Hr)|exact (home_rows_refs m_agent _ (λ _ _, eq_refl) R2 r Hr)
      |exact (home_rows_refs s_agent _ (λ _ _, eq_refl) R3 r Hr)|exact (home_rows_refs i_agent _ (λ _ _, eq_refl) R4 r Hr)
      |exact (home_rows_refs aa_agent _ (λ _ _, eq_refl) merged_ids r Hr)].
  - pose proof (lg_orgs _ Hs) as Ho. revert Ho. unfold org_violations. cbv zeta. rewrite !Forall_cons.
    cbn [snd data revoked meta]. intros Hz. destruct_and! Hz.
    rewrite rehomed_threads, rehomed_messages, rehomed_summaries, rehomed_introspections, rehomed_activity.
    split_and!; try done; apply home_rows_orgs; try done. apply merged_ids.
  - apply thread_violations_zero. pose proof (lg_threads _ Hs) as Ht. apply thread_violations_zero in Ht as [H1 H2].
    rewrite rehomed_threads, rehomed_messages, rehomed_introspections, <- list_fmap_compose.
    split; intros x (y & -> & Hy)%list_elem_of_fmap; [by apply (H1 y)|by apply (H2 y)].
  - rewrite rehomed_activity. apply (NoDup_fmap_1 snd). rewrite <- !list_fmap_compose.
    apply (merged_NoDup d (lg_ids _ Hs)); [apply refs_ids|apply (lg_activity _ Hs)].
  - apply (lg_default _ Hs).
Qed.

Lemma v11_legacy locale `{!RelDecision locale} env now : ∃ e,
  migrateAgentIdPerOrgV11 locale env now 0 (with_version 10 (at_v9 s))
  = (None, mkStore 11 ORG_TABLES AGENT_REF_TABLES false (rehomed d) (revoked s) (meta s) e).
Proof.
  unfold migrateAgentIdPerOrgV11, since. rewrite decide_False by (cbn; lia). unfold andThen at 1.
  rewrite resolve_none.
  2:{ apply filter_nil_iff. intros r Hr Hn. by apply Hn, (lg_refs _ Hs). }
  unfold atomically, andThen, rehome. cbn [data with_version at_v9].
  destruct (reparent_refs (merge_status d)) as [counts d2] eqn:E.
  assert (d2 = rehomed d) as -> by (unfold rehomed; by rewrite E).
  rewrite decide_True by apply (io_activity _ (rehomed_in_order false 0 [])).
  match goal with |- context [foreign_key_check 0 [] ?x] => set (s2 := x) end.
  assert (∃ e, s2 = mkStore 10 ORG_TABLES AGENT_REF_TABLES false (rehomed d) (revoked s) (meta s) e)
    as (e & ->) by (unfold s2; case_decide; eexists; reflexivity).
  pose proof (rehomed_in_order false 10 e) as [Hr2 Ho2 Ht2 _ _ Hk2 Ha2].
  match goal with |- context [foreign_key_check 0 [] ?x] => destruct (fk_check_spec 0 [] x Hk2 Ha2) as [E2 [_ E1]] end.
  destruct (foreign_key_check 0 [] _) as [x s2]. cbn [fst snd] in E1, E2. subst s2. rewrite E1 by done. by exists e.
Qed.

(** One row of status stays for each agent that had any. *)
Lemma rehomed_status r : r ∈ db_activity d → ∃ x, x ∈ db_activity d ∧ aa_agent x = aa_agent r
  ∧ (∀ y, y ∈ db_activity d → aa_agent y = aa_agent r → ¬ stamp_lt (aa_last x) (aa_last y))
  ∧ filter (λ y, aa_agent y = aa_agent r) (db_activity (rehomed d)) = [home_row aa_agent d x].
Proof.
  intros Hr. pose proof (lg_ids _ Hs) as Hi. pose proof (lg_activity _ Hs) as Hk.
  destruct (merged_latest d Hi (proj2 (proj2 (proj2 (proj2 refs_ids)))) r Hr) as (x & Hx & Ex & Hl).
  exists x. split; [eapply elem_of_sublist, merge_activity; exact Hx|]. split; [done|]. split; [done|].
  rewrite rehomed_activity.
  pose proof (merged_NoDup d Hi (proj2 (proj2 (proj2 (proj2 refs_ids)))) Hk) as Hn.
  clear Hl Hr. revert Hx Hn Ex. generalize (db_activity (merge_status d)). intros l Hx Hn Ex.
  induction l as [|y l IH]; [by apply elem_of_nil in Hx|].
  rewrite !fmap_cons in *. apply NoDup_cons in Hn as [Hy Hn]. apply elem_of_cons in Hx as [<- | Hx].
  - rewrite filter_cons_True by done. f_equal. apply filter_nil_iff.
    intros z (w & -> & Hw)%list_elem_of_fmap E. apply Hy. rewrite Ex, <- E. apply list_elem_of_fmap. by exists w.
  - rewrite filter_cons_False; [by apply IH|]. intros E. apply Hy. cbn in E. rewrite E, <- Ex.
    apply list_elem_of_fmap. by exists x.
Qed.
End rehomed.

(** [C13] The upgrade of a sound database with global identifiers ends and leaves it
    in order. Sound means that its rows are of organisations that exist, and refer
    to agents and threads that exist ([legacy]). Every thread, message, summary and
    request is still there, in the organisation of its agent; of the rows of status
    of an agent one stays, the latest, in the organisation of the agent too. (On a
    database with references to missing agents the start fails unless the repair
    is allowed: see [upgrade_refuses_dangling] and [repair_resolves].) *)
Theorem upgrade_brings_home locale `{!RelDecision locale} env now s : legacy s → ∃ s',
  boot_migrations locale env now 0 s = (None, s') ∧ in_order s' ∧ db_agents (data s') = db_agents (data s)
  ∧ db_threads (data s') = home_row t_initiator (data s) <$> db_threads (data s)
  ∧ db_messages (data s') = home_row m_agent (data s) <$> db_messages (data s)
  ∧ db_summaries (data s') = home_row s_agent (data s) <$> db_summaries (data s)
  ∧ db_introspections (data s') = home_row i_agent (data s) <$> db_introspections (data s)
  ∧ ∀ r, r ∈ db_activity (data s) → ∃ x, x ∈ db_activity (data s) ∧ aa_agent x = aa_agent r
      ∧ (∀ y, y ∈ db_activity (data s) → aa_agent y = aa_agent r → ¬ stamp_lt (aa_last x) (aa_last y))
      ∧ filter (λ y, aa_agent y = aa_agent r) (db_activity (data s')) = [home_row aa_agent (data s) x].
Proof.
  intros Hs. unfold boot_migrations, andThen at 1, rewind. unfold andThen at 1.
  rewrite resolve_none by (apply filter_nil_iff; intros r Hr Hn; by apply Hn, (lg_refs _ Hs)).
  unfold andThen at 1. rewrite v9_legacy by done. unfold andThen at 1, migrateSweepIndexesV10, since.
  rewrite decide_False by (cbn; lia). unfold andThen at 1.
  destruct (v11_legacy s Hs locale env now) as (e & ->).
  pose proof (rehomed_in_order s Hs false 11 e) as Hm. revert Hm. set (s1 := mkStore 11 _ _ _ _ _ _ e). intros Hm.
  destruct (v12_revoked s1) as (e' & -> & _); [done|]. eexists. split; [reflexivity|].
  split; [apply in_order_revoked; [done|apply rescope_in_order]|]. cbn [data s1].
  split_and!; [done|by apply rehomed_threads|by apply rehomed_messages|by apply rehomed_summaries
    |by apply rehomed_introspections|by apply rehomed_status].
Qed.

(** Where a row refers to a missing agent and the repair is not allowed, the start
    fails before it has changed a row. *)
Lemma upgrade_refuses_dangling locale `{!RelDecision locale} env now elsewhere s :
  dangling_refs (data s) ≠ [] → canRepairMigrationOrphans env = false →
  (boot_migrations locale env now elsewhere s).1 = Some (DanglingAgents (dangling_counts (data s)))
  ∧ data (boot_migrations locale env now elsewhere s).2 = data s.
Proof.
  intros Hd He. unfold boot_migrations, andThen, rewind, resolveDanglingAgentRefs. cbn [data with_version done].
  rewrite decide_False, He by done. done.
Qed.

(** ** The repair of missing agents *)

Section repair.
Context (locale : relation string) `{!RelDecision locale} (now : Z).

Lemma recovered_ids d : ∀ i, i ∈ (λ p, p.1.1) <$> recovered locale d ↔ i ∈ fst <$> dangling_refs d.
Proof.
  intros i. unfold recovered. split.
  - intros (p & -> & (j & -> & Hj)%list_elem_of_fmap)%list_elem_of_fmap. cbn [fst].
    by rewrite merge_sort_Permutation, elem_of_dedup in Hj.
  - intros Hi. apply list_elem_of_fmap. eexists.
    split; [|apply list_elem_of_fmap; exists i; split; [reflexivity|]]; [done|].
    by rewrite merge_sort_Permutation, elem_of_dedup.
Qed.

(** The organisation of a recovered agent is that of one of the rows. *)
Lemma recovered_org d p : p ∈ recovered locale d → (p.1.1, p.1.2) ∈ all_refs d.
Proof.
  intros (i & -> & Hi)%list_elem_of_fmap. rewrite merge_sort_Permutation, elem_of_dedup in Hi. cbn [fst snd].
  assert (∃ o, o ∈ orgs_of d i) as (o & Ho).
  { apply list_elem_of_fmap in Hi as (r & -> & Hr). exists r.2. unfold orgs_of.
    rewrite elem_of_dedup, list_elem_of_fmap. exists r. split; [done|]. by apply list_elem_of_filter. }
  rewrite <- (merge_sort_Permutation (ahead locale d i)) in Ho.
  destruct (merge_sort (ahead locale d i) (orgs_of d i)) as [|o' os] eqn:E; [by apply elem_of_nil in Ho|]. cbn [head default].
  assert (o' ∈ orgs_of d i) as Ho' by (rewrite <- (merge_sort_Permutation (ahead locale d i)), E; left).
  unfold orgs_of in Ho'. rewrite elem_of_dedup in Ho'.
  apply list_elem_of_fmap in Ho' as ([i' o''] & -> & [E1 Hr]%list_elem_of_filter).
  cbn in E1. subst i'. apply list_elem_of_filter in Hr as [_ Hr]. exact Hr.
Qed.

Lemma insert_agents_ok l s : (∀ p, p ∈ l → p.1.2 ∈ db_orgs (data s)) → ∃ k,
  insert_agents now l s = (None, with_data (on_agents (λ l, l ++ k) (data s)) s)
  ∧ ∀ i, i ∈ (λ p, p.1.1) <$> l → i ∈ agent_ids (data s) ++ (a_id <$> k).
Proof.
  revert s. induction l as [|[[i o] n] l IH]; intros s Hl; cbn [insert_agents].
  { exists []. split; [|by intros ? ?%elem_of_nil]. unfold done, on_agents. rewrite app_nil_r. by destruct s as [????[]]. }
  unfold andThen, insert_agent. cbn [a_id a_org recovered_agent].
  assert (∀ p, p ∈ l → p.1.2 ∈ db_orgs (data s)) as Hl' by (intros; apply Hl; by right).
  destruct (decide (_ ∨ _)) as [Hin|Hin].
  - destruct (IH s Hl') as (k & E & Hk). exists k. split; [done|]. intros j [-> | Hj]%elem_of_cons; [|by apply Hk].
    apply elem_of_app. left. destruct Hin as [Hin|[_ ?]]; [|done]. by apply key_id in Hin.
  - rewrite decide_False by (intros [_ Hn]; apply Hn, (Hl (i, o, n)); left).
    match goal with |- context [insert_agents now l ?x] => destruct (IH x Hl') as (k & E & Hk) end.
    exists (recovered_agent now i o :: k). rewrite E. split.
    + unfold with_data, on_agents. cbn. by rewrite <- app_assoc.
    + intros j Hj. revert Hk. unfold agent_ids. cbn [data with_data on_agents db_agents]. rewrite fmap_app. intros Hk.
      rewrite fmap_cons, !elem_of_app, elem_of_cons in *. apply elem_of_cons in Hj as [-> | Hj]; [by auto|].
      specialize (Hk j Hj). rewrite !elem_of_app, list_elem_of_singleton in Hk. cbn in Hk |- *. tauto.
Qed.

(** Where the repair is allowed and the organisations of the rows exist, it
    ends with no reference to a missing agent. It only adds agents. *)
Theorem repair_resolves s : (∀ r, r ∈ all_refs (data s) → r.2 ∈ db_orgs (data s)) → ∃ s' k,
  resolveDanglingAgentRefs locale (Some "true") now s = (None, s')
  ∧ data s' = on_agents (λ l, l ++ k) (data s) ∧ dangling_refs (data s') = [].
Proof.
  intros Ho. unfold resolveDanglingAgentRefs. destruct (decide (dangling_refs (data s) = [])) as [E|E].
  { exists s, []. split; [done|]. split; [|done]. unfold on_agents. rewrite app_nil_r. by destruct (data s). }
  cbv zeta. unfold andThen.
  destruct (insert_agents_ok (recovered locale (data s)) s) as (k & E1 & Hk).
  { intros p Hp%recovered_org. by apply Ho in Hp. }
  replace (canRepairMigrationOrphans (Some "true")) with true by done. rewrite E1.
  eexists _, k. split; [reflexivity|]. split; [done|]. apply filter_nil_iff. intros r Hr Hn. apply Hn.
  unfold agent_ids. cbn [data log with_data on_agents db_agents]. rewrite fmap_app.
  destruct (decide (r.1 ∈ agent_ids (data s))) as [Hi|Hi]; [apply elem_of_app; by left|].
  apply Hk, recovered_ids, list_elem_of_fmap. exists r. split; [done|]. by apply list_elem_of_filter.
Qed.
End repair.

(** ** What every start undoes *)

(** Two organisations have an agent of the same identifier: at the next start the
    status of the one that was active earlier is gone. *)
Theorem restart_drops_earlier d a x y : a ∈ db_agents d → a_id a = aa_agent x →
  x ∈ db_activity d → y ∈ db_activity d → aa_agent y = aa_agent x → aa_org y ≠ aa_org x →
  stamp_lt (aa_last x) (aa_last y) → x ∉ db_activity (merge_status d).
Proof.
  intros Ha Ea Hx Hy Ey Ho Hlt [Hn _]%list_elem_of_filter. apply Hn, Exists_exists. exists a. split_and!; [done..|].
  apply Exists_exists. exists y. split_and!; try done. by left.
Qed.

(** Active in the same second, both lose it. *)
Theorem restart_drops_both d a b x y : a ∈ db_agents d → b ∈ db_agents d →
  a_id a = aa_agent x → a_id b = aa_agent x → aa_agent y = aa_agent x →
  aa_org x = a_org a → aa_org y = a_org b → a_org a ≠ a_org b → aa_last x = aa_last y →
  x ∈ db_activity d → y ∈ db_activity d →
  x ∉ db_activity (merge_status d) ∧ y ∉ db_activity (merge_status d).
Proof.
  intros Ha Hb Ia Ib Ey Ox Oy No E Hx Hy.
  split; intros [Hn _]%list_elem_of_filter; apply Hn, Exists_exists; [exists b|exists a]; (split_and!; [done|congruence|]);
    apply Exists_exists; [exists y|exists x]; (split_and!; [done|congruence..|]); right; split; try congruence; left; split; congruence.
Qed.

(** An organisation revokes an identifier it has no agent of; another one does. At
    the next start the revocation is of the other's agent, and no longer where it
    was made. *)
Theorem restart_moves_revocation d l i mine other : (i, mine) ∈ revoked_key <$> l → (i, mine) ∉ agent_keys d →
  (i, other) ∈ agent_keys d →
  (i, other) ∈ revoked_key <$> (rescope d l).1 ∧ (i, mine) ∉ revoked_key <$> (rescope d l).1.
Proof.
  intros Hl Hn Ho. assert (misplaced d l i) as Hm by (split; [by exists other|by exists mine]).
  split; [by apply (proj1 (rescope_keys d l i other) Hm)|]. intros Hk. by apply Hn, (proj1 (rescope_keys d l i mine) Hm).
Qed.

(** ** An example *)

(** Alice is an agent of acme; a thread of hers and a row of status were written
    under the default organisation, and so was a revocation. *)
Definition demo_agent (id org : string) : Agent := mkAgent id org id (JText []) AOnline 0 0.

Definition demo_thread : Thread :=
  mkThread "t" "default" "alice" "types" None JNull JNull TOpen None None 1 4 600 0 None JNull JNull JNull None None None
    None None.

Definition demo_db : Db :=
  mkDb ["default"; "acme"] [demo_agent "alice" "acme"; demo_agent "bob" "default"] [demo_thread] [] [] [] 0 [] [] 0 []
    [mkActivity "default" "alice" ActWorking None None (SqlTs 9); mkActivity "acme" "alice" ActIdle None None (SqlTs 5);
     mkActivity "default" "bob" ActIdle None None (SqlTs 7)] [] [] [].

Definition demo_store : Store := mkStore 10 [] [] true demo_db [mkRevoked "alice" "default" 3 "root"] [] [].

#[local] Ltac decided := apply (bool_decide_eq_true_1 _); vm_compute; reflexivity.

Definition demo_boot : option Abort * Store := boot_migrations str_le None 0 0 demo_store.
Definition demo_after : Store := Eval vm_compute in demo_boot.2.

Lemma demo_legacy : legacy demo_store.
Proof.
  split; try reflexivity.
  - decided.
  - apply Forall_forall. decided.
  - decided.
  - decided.
  - decided.
Qed.

Example demo_boot_result :
  demo_boot = (None, demo_after)
  ∧ t_org <$> db_threads (data demo_after) = ["acme"]
  ∧ db_activity (data demo_after) = [mkActivity "acme" "alice" ActWorking None None (SqlTs 9);
                                      mkActivity "default" "bob" ActIdle None None (SqlTs 7)]
  ∧ revoked demo_after = [mkRevoked "alice" "acme" 3 "root"].
Proof. by vm_compute. Qed.

Lemma demo_in_order : in_order demo_after.
Proof.
  split; try reflexivity.
  - apply Forall_forall. decided.
  - decided.
  - decided.
  - decided.
Qed.

Lemma upgrade_brings_home_witness : ∃ s', boot_migrations str_le None 0 0 demo_store = (None, s') ∧ in_order s'.
Proof.
  destruct (upgrade_brings_home str_le None 0 demo_store demo_legacy) as (s' & E & Hs & _). exact (ex_intro _ s' (conj E Hs)).
Defined.

Lemma restart_keeps_witness : ∃ s', boot_migrations str_le None 1 0 demo_after = (None, s') ∧ in_order s'.
Proof.
  destruct (restart_keeps str_le None 1 2 demo_after demo_in_order) as (s' & E & Hs & _). exact (ex_intro _ s' (conj E Hs)).
Defined.

Lemma migrations_establish_witness : in_order demo_after ∧ user_version demo_after = 12.
Proof. apply (migrations_establish str_le None 0 0 demo_store). by vm_compute. Defined.

Lemma repair_resolves_witness : ∃ s' k,
  resolveDanglingAgentRefs str_le (Some "true") 0 (with_data (on_agents (λ _, []) demo_db) demo_store) = (None, s')
  ∧ data s' = on_agents (λ l, l ++ k) (on_agents (λ _, []) demo_db) ∧ dangling_refs (data s') = [].
Proof.
  apply (repair_resolves str_le 0 (with_data (on_agents (λ _, []) demo_db) demo_store)).
  apply Forall_forall. decided.
Defined.

(** Both bots lose their status when they were active in the same second. *)
Example demo_drops_both :
  db_activity (merge_status (mkDb ["a"; "b"] [demo_agent "bot" "a"; demo_agent "bot" "b"] [] [] [] [] 0 [] [] 0 []
    [mkActivity "a" "bot" ActWorking None None (SqlTs 5); mkActivity "b" "bot" ActIdle None None (SqlTs 5)] [] [] []))
  = [].
Proof. by vm_compute. Qed.
End BootUpgrade.
