(* ===== verification/Phase2Boot.v ===== *)
(** * Starting with logins ([src/boot.ts], [src/auth/entropy.ts],
    [src/auth/providers/registry.ts])

    Before a server accepts logins it reads its settings from the environment,
    refuses weak secrets and unsafe URLs, looks for signs of a restored database,
    registers the identity providers, makes the organisations that the first
    sign-in needs and opens the encrypted tokens. *)

From S2P Require Import Prelude Paths Announce AuditChain AuthState Rotation Envelope MasterKey EncryptionBoot OrgsGuard.
Local Open Scope Z_scope.

Module Phase2Boot.
Import Envelope MasterKey.

(** ** Addresses ([net.isIPv4], [net.isIPv6]) *)

Fixpoint number (base : Z) (acc : Z) (s : string) : option Z :=
  match s with
  | EmptyString => Some acc
  | String a s => match hex_value a with
                  | Some d => if decide (d < base) then number base (base * acc + d) s else None
                  | None => None
                  end
  end.

Definition octet (s : string) : option Z :=
  if decide (1 ≤ String.length s ≤ 3)%nat then
    if startsWith "0" s && negb (String.eqb s "0") then None
    else n ← number 10 0 s; if decide (n ≤ 255) then Some n else None
  else None.

Definition ipv4 (s : string) : option (Z * Z * Z * Z) :=
  match octet <$> split_on "." s with
  | [Some a; Some b; Some c; Some d] => Some (a, b, c, d)
  | _ => None
  end.

Definition isIPv4 (s : string) : bool := bool_decide (is_Some (ipv4 s)).

Definition hextet (s : string) : option Z :=
  if decide (1 ≤ String.length s ≤ 4)%nat then number 16 0 s else None.

(** Groups of sixteen bits; the last two may be written as an IPv4 address. *)
Fixpoint groups (l : list string) : option (list Z) :=
  match l with
  | [] => Some []
  | [s] => match ipv4 s with
           | Some (a, b, c, d) => Some [256 * a + b; 256 * c + d]
           | None => g ← hextet s; Some [g]
           end
  | s :: l => g ← hextet s; gs ← groups l; Some (g :: gs)
  end.

(** The text before and after the first [::]. *)
Fixpoint cut (s : string) : option (string * string) :=
  match s with
  | EmptyString => None
  | String a r =>
      match startsWith "::" s, r with
      | true, String _ r' => Some ("", r')
      | _, _ => match cut r with Some (x, y) => Some (String a x, y) | None => None end
      end
  end.

Definition side (s : string) : option (list Z) := if String.eqb s "" then Some [] else groups (split_on ":" s).

Definition ipv6 (s : string) : option (list Z) :=
  match cut s with
  | Some (l, r) =>
      a ← side l; b ← side r;
      if decide (length a + length b ≤ 7 ∧ has_char "." l = false)%nat
      then Some (a ++ replicate (8 - length a - length b) 0 ++ b) else None
  | None => gs ← groups (split_on ":" s); if decide (length gs = 8%nat) then Some gs else None
  end.

Definition zone_char (a : ascii) : bool :=
  let n := Paths.code a in
  bool_decide ((48 ≤ n ∧ n ≤ 57) ∨ (65 ≤ n ∧ n ≤ 90) ∨ (97 ≤ n ∧ n ≤ 122) ∨ n = 45 ∨ n = 46 ∨ n = 58).

(** An address may end with a zone. *)
Definition isIPv6 (s : string) : bool :=
  match split_on "%" s with
  | [a] => bool_decide (is_Some (ipv6 a))
  | [a; z] => bool_decide (is_Some (ipv6 a)) && negb (String.eqb z "") && forallb zone_char (String.list_ascii_of_string z)
  | _ => false
  end.

(** [s.replace(c, "")]: the first one. *)
Fixpoint without_first (c : ascii) (s : string) : string :=
  match s with
  | EmptyString => EmptyString
  | String a s => if Ascii.eqb a c then s else String a (without_first c s)
  end.

Definition without_last (s : string) : string := String.substring 0 (String.length s - 1) s.
Definition after (p s : string) : string := String.substring (String.length p) (String.length s - String.length p) s.

Definition MAPPED : string := "::ffff:".

Definition isLoopbackHostname (hostname : string) : bool :=
  let h := Paths.toLowerCase (without_first "]" (without_first "[" hostname)) in
  let bare := if endsWith "." h then without_last h else h in
  if String.eqb bare "localhost" then true
  else if isIPv4 bare then startsWith "127." bare
  else if isIPv6 bare then
    if String.eqb bare "::1" then true
    else if startsWith MAPPED bare then
      let suffix := after MAPPED bare in
      if isIPv4 suffix then startsWith "127." suffix else startsWith "7f" suffix
    else false
  else false.

Definition isLocalhost (host : string) : bool :=
  String.eqb host "localhost" || String.eqb host "127.0.0.1" || String.eqb host "::1".

(** ** Errors *)

Inductive BootError :=
  | BunRuntime
  | Required (key : string)
  | BothOrNeither (id secret : string)
  | AllOrNone
  | InvalidUrl (key : string)
  | WrongScheme (key : string)
  | PlainHttp (key : string)
  | WeakSecret
  | WorkspaceWithoutGoogle
  | UnknownAllowlistSource (value : string)
  | ExtraOrigin (entry : string)
  | NoProvider
  | RestoreSuspected (staleSeconds : Z)
  | MasterKeyError (e : KeyError)
  | OrgConstraint
  | EncryptionError (e : EncryptionBoot.BootError).

Definition ebind {A B} (m : BootError + A) (k : A → BootError + B) : BootError + B :=
  match m with inl e => inl e | inr a => k a end.

Declare Scope boot_scope.
Delimit Scope boot_scope with boot.
Notation "'let!' x ':=' m 'in' k" := (ebind m (λ x, k))
  (at level 200, x name, m at level 100, k at level 200, right associativity) : boot_scope.
Notation "'check!' b 'else' e ';' k" := (if b then k else inl e)
  (at level 200, b at level 100, e at level 100, k at level 200, right associativity) : boot_scope.
Local Open Scope boot_scope.

(** ** [assertSecretEntropy] *)

Definition DICTIONARY : list string :=
  ["change-me"; "changeme"; "change_me"; "secret"; "password"; "passw0rd"; "default"; "test"; "dev"; "12345678";
   "abcdefgh"].

Definition MIN_SUBSTRING_MATCH_LEN : nat := 6.

Definition dictionary_word (asString word : string) : bool :=
  String.eqb asString word || ((MIN_SUBSTRING_MATCH_LEN <=? String.length word)%nat && includes word asString).

(** The estimate is [log2 (n ^ n / count_power)] for [n] bytes, so it is compared
    with [minBits] on integers. *)
Definition low_bits (buf : Buffer) (minBits : Z) : bool :=
  bool_decide (Z.of_nat (length buf) ^ Z.of_nat (length buf) < 2 ^ minBits * count_power buf).

Definition assertSecretEntropy (secret : string) (minBits : Z) : bool :=
  let buf := bytes secret in
  match buf with
  | [] => false
  | first :: _ =>
      negb (forallb (λ b, Ascii.eqb b first) buf)
      && negb (existsb (dictionary_word (Paths.toLowerCase secret)) DICTIONARY)
      && negb (low_bits buf minBits)
  end.

Definition MIN_JWT_SECRET_BITS : Z := 128.
Definition RESTORE_DETECTION_STALE_THRESHOLD_S : Z := 300.

(** ** Reading the environment *)

Notation Env := (string → option string).

Definition readOptionalEnv (env : Env) (key : string) : option string :=
  match env key with
  | Some value => if String.eqb (PlanQuality.trim value) "" then None else Some value
  | None => None
  end.

Definition readRequiredEnv (env : Env) (key : string) : BootError + string :=
  match readOptionalEnv env key with Some value => inr value | None => inl (Required key) end.

(** [env.KEY?.trim()], where an empty text counts as absent. *)
Definition trimmed (env : Env) (key : string) : option string := truthy (PlanQuality.trim <$> env key).

(** What the constructor [URL] gives, or its exception. *)
Record Url := mkUrl { protocol : string; hostname : string; origin : string }.

(** ** Providers *)

Inductive AllowlistSource := UserOrgs | UserInstallations.

Inductive Provider :=
  | GitHubProvider (clientId clientSecret : string) (authBaseUrl apiBaseUrl : option string)
  | GoogleProvider (clientId clientSecret : string)
  | GitHubAppProvider (clientId clientSecret : string) (authBaseUrl apiBaseUrl appName : option string)
      (allowlistSource : option AllowlistSource)
  | OIDCProvider (clientId clientSecret issuerUrl : string) (extraAllowedOrigins : list string)
      (groupsClaim : option string).

Definition provider_name (p : Provider) : string :=
  match p with
  | GitHubProvider _ _ _ _ => "github"
  | GoogleProvider _ _ => "google"
  | GitHubAppProvider _ _ _ _ appName _ => default "github-app" appName
  | OIDCProvider _ _ _ _ _ => "oidc"
  end.

Record ProviderRegistry := mkReg { byName : jsmap Provider; defaultName : option string }.

Definition no_providers : ProviderRegistry := mkReg [] None.

Definition register (p : Provider) (reg : ProviderRegistry) : ProviderRegistry :=
  mkReg (map_set (provider_name p) p (byName reg))
    (match defaultName reg with None => Some (provider_name p) | d => d end).

Definition names (reg : ProviderRegistry) : list string := fst <$> byName reg.
Definition size (reg : ProviderRegistry) : nat := length (byName reg).
Definition getDefault (reg : ProviderRegistry) : option Provider := n ← defaultName reg; map_get n (byName reg).

Definition register_opt (p : option Provider) (reg : ProviderRegistry) : ProviderRegistry :=
  match p with Some p => register p reg | None => reg end.

Section url.
Context (URL : string → option Url).

Definition validatePublicUrl (url : string) (env : Env) : BootError + unit :=
  match URL url with
  | None => inl (InvalidUrl "COORDINATOR_PUBLIC_URL")
  | Some parsed =>
      check! String.eqb (protocol parsed) "http:" || String.eqb (protocol parsed) "https:"
        else WrongScheme "COORDINATOR_PUBLIC_URL";
      check! negb (String.eqb (protocol parsed) "http:" && negb (isLocalhost (hostname parsed))
                   && negb (bool_decide (env "COORDINATOR_INSECURE_COOKIES" = Some "true")))
        else PlainHttp "COORDINATOR_PUBLIC_URL";
      inr tt
  end.

Definition validateGithubBaseUrl (url : option string) (varName : string) : BootError + unit :=
  match url with
  | None => inr tt
  | Some url =>
      match URL url with
      | None => inl (InvalidUrl varName)
      | Some parsed =>
          check! String.eqb (protocol parsed) "http:" || String.eqb (protocol parsed) "https:" else WrongScheme varName;
          inr tt
      end
  end.

Fixpoint check_origins (entries : list string) : BootError + unit :=
  match entries with
  | [] => inr tt
  | entry :: entries =>
      match URL entry with
      | None => inl (ExtraOrigin entry)
      | Some u => check! negb (String.eqb (origin u) "null") else ExtraOrigin entry; check_origins entries
      end
  end.

Definition parseExtraOrigins (raw : option string) : BootError + list string :=
  match truthy raw with
  | None => inr []
  | Some raw =>
      let entries := filter (λ o, o ≠ "") (PlanQuality.trim <$> split_on "," raw) in
      let! _ := check_origins entries in inr entries
  end.

Definition githubCredentials (env : Env) : BootError + option (string * string) :=
  match readOptionalEnv env "COORDINATOR_GITHUB_CLIENT_ID", readOptionalEnv env "COORDINATOR_GITHUB_CLIENT_SECRET" with
  | Some id, Some secret => inr (Some (id, secret))
  | None, None => inr None
  | _, _ => inl (BothOrNeither "COORDINATOR_GITHUB_CLIENT_ID" "COORDINATOR_GITHUB_CLIENT_SECRET")
  end.

Definition googleProvider (env : Env) : BootError + option Provider :=
  match trimmed env "COORDINATOR_GOOGLE_CLIENT_ID", trimmed env "COORDINATOR_GOOGLE_CLIENT_SECRET" with
  | Some id, Some secret => inr (Some (GoogleProvider id secret))
  | None, None => inr None
  | _, _ => inl (BothOrNeither "COORDINATOR_GOOGLE_CLIENT_ID" "COORDINATOR_GOOGLE_CLIENT_SECRET")
  end.

Definition allowlistSourceParsed (env : Env) : BootError + option AllowlistSource :=
  match trimmed env "COORDINATOR_GITHUB_APP_ALLOWLIST_SOURCE" with
  | None => inr None
  | Some s => if String.eqb s "user_orgs" then inr (Some UserOrgs)
              else if String.eqb s "user_installations" then inr (Some UserInstallations) else inl (UnknownAllowlistSource s)
  end.

Definition githubAppProvider (env : Env) (authBaseUrl apiBaseUrl : option string) : BootError + option Provider :=
  match trimmed env "COORDINATOR_GITHUB_APP_CLIENT_ID", trimmed env "COORDINATOR_GITHUB_APP_CLIENT_SECRET" with
  | Some id, Some secret =>
      let! source := allowlistSourceParsed env in
      inr (Some (GitHubAppProvider id secret authBaseUrl apiBaseUrl (trimmed env "COORDINATOR_GITHUB_APP_NAME") source))
  | None, None => inr None
  | _, _ => inl (BothOrNeither "COORDINATOR_GITHUB_APP_CLIENT_ID" "COORDINATOR_GITHUB_APP_CLIENT_SECRET")
  end.

Definition validateIssuer (oidcIssuerUrl : string) : BootError + unit :=
  match URL oidcIssuerUrl with
  | None => inl (InvalidUrl "COORDINATOR_OIDC_ISSUER_URL")
  | Some parsed =>
      check! String.eqb (protocol parsed) "http:" || String.eqb (protocol parsed) "https:"
        else WrongScheme "COORDINATOR_OIDC_ISSUER_URL";
      check! negb (String.eqb (protocol parsed) "http:" && negb (isLoopbackHostname (hostname parsed)))
        else PlainHttp "COORDINATOR_OIDC_ISSUER_URL";
      inr tt
  end.

Definition oidcProvider (env : Env) : BootError + option Provider :=
  match trimmed env "COORDINATOR_OIDC_ISSUER_URL", trimmed env "COORDINATOR_OIDC_CLIENT_ID",
        trimmed env "COORDINATOR_OIDC_CLIENT_SECRET" with
  | Some issuer, Some id, Some secret =>
      let! _ := validateIssuer issuer in
      let! extra := parseExtraOrigins (env "COORDINATOR_OIDC_EXTRA_ORIGINS") in
      inr (Some (OIDCProvider id secret issuer extra (trimmed env "COORDINATOR_OIDC_GROUPS_CLAIM")))
  | None, None, None => inr None
  | _, _, _ => inl AllOrNone
  end.

(** The first part: what can be refused before the database is looked at. *)
Record Settings := mkSettings {
  jwtSecret : string;
  publicUrl : string;
  github : option (string * string);
  githubOrg : option string
}.

Definition readSettings (env : Env) : BootError + Settings :=
  let! jwtSecret := readRequiredEnv env "COORDINATOR_JWT_SECRET" in
  let! publicUrl := readRequiredEnv env "COORDINATOR_PUBLIC_URL" in
  let! github := githubCredentials env in
  let! githubOrg := match github with
                    | Some _ => let! o := readRequiredEnv env "COORDINATOR_GITHUB_ORG" in inr (Some o)
                    | None => inr None
                    end in
  let! _ := validatePublicUrl publicUrl env in
  check! assertSecretEntropy jwtSecret MIN_JWT_SECRET_BITS else WeakSecret;
  inr (mkSettings jwtSecret publicUrl github githubOrg).

(** The second part: keys and providers. *)
Record Components := mkComponents {
  signingKeys : JwtKeyRegistry;
  providers : ProviderRegistry;
  googleWorkspaceDomain : option string
}.

Definition prevSecret (env : Env) : BootError + option string :=
  match readOptionalEnv env "COORDINATOR_JWT_SECRET_PREV" with
  | None => inr None
  | Some prev => check! assertSecretEntropy prev MIN_JWT_SECRET_BITS else WeakSecret; inr (Some prev)
  end.

Definition composeComponents (env : Env) (st : Settings) : BootError + Components :=
  let! prev := prevSecret env in
  let authBaseUrl := trimmed env "COORDINATOR_GITHUB_AUTH_BASE_URL" in
  let apiBaseUrl := trimmed env "COORDINATOR_GITHUB_API_BASE_URL" in
  let! _ := validateGithubBaseUrl authBaseUrl "COORDINATOR_GITHUB_AUTH_BASE_URL" in
  let! _ := validateGithubBaseUrl apiBaseUrl "COORDINATOR_GITHUB_API_BASE_URL" in
  let gh := match github st with
            | Some c => Some (GitHubProvider c.1 c.2 authBaseUrl apiBaseUrl)
            | None => None
            end in
  let! google := googleProvider env in
  let domain := readOptionalEnv env "COORDINATOR_GOOGLE_WORKSPACE_DOMAIN" in
  check! negb (bool_decide (is_Some domain ∧ google = None)) else WorkspaceWithoutGoogle;
  let! app := githubAppProvider env authBaseUrl apiBaseUrl in
  let! oidc := oidcProvider env in
  let reg := register_opt oidc (register_opt app (register_opt google (register_opt gh no_providers))) in
  check! negb (size reg =? 0)%nat else NoProvider;
  inr (mkComponents (mkRegistry (jwtSecret st) prev) reg domain).
End url.

(** ** The state of a start *)

(** [stamps] are the times of the rows of [audit_log], in seconds; [fp] and
    [stash] the row of [system_config] and the invalidated tokens. *)
Record State := mkState {
  auth : Auth;
  stamps : list Z;
  chain_key : option string;
  fp : option string;
  stash : list (string * string * string)
}.

Definition with_auth (a : Auth) (s : State) : State := mkState a (stamps s) (chain_key s) (fp s) (stash s).
Definition with_stamps (l : list Z) (s : State) : State := mkState (auth s) l (chain_key s) (fp s) (stash s).
Definition with_chain_key (k : option string) (s : State) : State := mkState (auth s) (stamps s) k (fp s) (stash s).

(** [audit] of the first tier: the row is written at once. *)
Definition audit_now (now : Z) (action : string) (detail : option string) (s : State) : State :=
  with_stamps (stamps s ++ [now]) (with_auth ((audit (O := False) action 1 detail (auth s)).2) s).

(** ** [performRestoreCheck] *)

Definition max_epoch (l : list Z) : option Z :=
  match l with [] => None | t :: l => Some (foldl Z.max t l) end.

Definition performRestoreCheck (now : Z) (env : Env) (s : State) : BootError + State :=
  match max_epoch (stamps s) with
  | None => inr s
  | Some maxEpoch =>
      let staleSeconds := now - maxEpoch in
      if decide (staleSeconds ≤ RESTORE_DETECTION_STALE_THRESHOLD_S) then inr s
      else if decide (env "COORDINATOR_ALLOW_RESTORE" ≠ Some "true") then inl (RestoreSuspected staleSeconds)
      else inr (audit_now now "recovery.completed" (Some (pretty staleSeconds))
                  (audit_now now "recovery.token_epoch_global_bump" (Some (pretty staleSeconds))
                     (with_auth ((bumpTokenEpochAllUsers (O := False) now (auth s)).2) s)))
  end.

(** ** [ensureBootstrapOrg] *)

Inductive AllowlistColumn := GithubOrg | IdpOrgId.

Definition column (c : AllowlistColumn) (r : OrgRow) : option string :=
  match c with GithubOrg => allowlist_github_org r | IdpOrgId => allowlist_idp_org_id r end.

(** [LOWER(column) = LOWER(?)] *)
Definition allows (c : AllowlistColumn) (value : string) (r : OrgRow) : Prop :=
  Paths.toLowerCase <$> column c r = Some (Paths.toLowerCase value).

#[export] Instance allows_dec c v r : Decision (allows c v r).
Proof. unfold allows. apply _. Defined.

Definition bootstrap_row (c : AllowlistColumn) (suffix value : string) : OrgRow :=
  mkOrg ("org-" +:+ value +:+ "-" +:+ suffix) value
    (match c with GithubOrg => Some value | IdpOrgId => None end)
    (match c with GithubOrg => None | IdpOrgId => Some value end) [].

(** The identifier and the name are unique. *)
Definition seedAllowlistOrg (suffix : string) (c : AllowlistColumn) (value : string) (l : list OrgRow)
    : BootError + list OrgRow :=
  match select_one (allows c value) l with
  | Some _ => inr l
  | None =>
      let r := bootstrap_row c suffix value in
      if decide (o_id r ∈ o_id <$> l ∨ o_name r ∈ o_name <$> l) then inl OrgConstraint else inr (l ++ [r])
  end.

Definition seed_opt (suffix : string) (c : AllowlistColumn) (value : option string) (l : list OrgRow)
    : BootError + list OrgRow :=
  match truthy value with None => inr l | Some v => seedAllowlistOrg suffix c v l end.

(** The error of the second insert leaves the first row. *)
Definition ensureBootstrapOrg (suffix1 suffix2 : string) (githubOrg idpOrg : option string) (l : list OrgRow)
    : option BootError * list OrgRow :=
  match seed_opt suffix1 GithubOrg githubOrg l with
  | inl e => (Some e, l)
  | inr l => match seed_opt suffix2 IdpOrgId idpOrg l with
             | inl e => (Some e, l)
             | inr l => (None, l)
             end
  end.

(** ** [bootPhase2] *)

(** The parts that several instances share when there is a Redis: the limiter, the
    second level of the memberships, and the lease that decides who sweeps. *)
Inductive Limiter := InMemoryLimiter (sweeping : bool) | RedisLimiter.

Record Stores := mkStores {
  rateLimiter : Limiter;
  sharedMembershipStore : bool;
  sweeperGated : bool
}.

(** Only the limiter in memory has a timer that sweeps it. *)
Definition composeStores (redis : bool) : Stores :=
  mkStores (if redis then RedisLimiter else InMemoryLimiter true) redis redis.

(** What a start hands to the routes. *)
Record Bootstrap := mkBootstrap {
  c_settings : Settings;
  c_components : Components;
  c_stores : Stores;
  c_process : EncryptionBoot.Process
}.

Definition boot_env (env : Env) : OrgsGuard.BootEnv :=
  OrgsGuard.mkBootEnv (env "COORDINATOR_ALLOW_DUPLICATE_ORG_NAMES") (env "COORDINATOR_OAUTH_ENABLED")
    (env "COORDINATOR_ENCRYPTION_KEY").

Section boot.
Context `{Aead} (fingerprint : Buffer → string) (deriveAuditChainKey : Buffer → string) (URL : string → option Url).

Definition ensureChainKey (env : Env) (s : State) : BootError + State :=
  match OrgsGuard.ensureAuditChainKeyForBootAudit deriveAuditChainKey (boot_env env)
          (OrgsGuard.mkBoot 0 None true (AuditChain.mkLog [] 0) (chain_key s)) with
  | inl e => inl (MasterKeyError e)
  | inr b => inr (with_chain_key (OrgsGuard.chainKey b) s)
  end.

(** Steps 7b: the guards see the users and leave them, and their events. *)
Definition open_tokens (env : Env) (dr : string → string → Draws) (now : Z) (s : State)
    : (BootError + EncryptionBoot.Process) * State :=
  match OrgsGuard.loadEncryptionKey (boot_env env) with
  | inl e => (inl (MasterKeyError e), s)
  | inr key =>
      let s := with_chain_key (deriveAuditChainKey <$> key) s in
      let '(r, st) := EncryptionBoot.runEncryptionGuards fingerprint env key dr
                        (EncryptionBoot.mkStore (users (auth s)) (fp s) (stash s) []) in
      let a := with_events (events (auth s) ++ EncryptionBoot.s_events st)
                 (with_users (EncryptionBoot.s_users st) (auth s)) in
      let s' := mkState a (stamps s ++ ((λ _, now) <$> EncryptionBoot.s_events st)) (chain_key s)
                  (EncryptionBoot.s_fp st) (EncryptionBoot.s_stash st) in
      (match r with inl e => inl (EncryptionError e) | inr i => inr (EncryptionBoot.buildWrappedProvider i) end, s')
  end.

(** [redis] tells whether there is a connection; [bun] the runtime; [suffix1] and [suffix2] are the draws of
    [Math.random]. The result is what was refused, or the context; and the state. *)
Definition bootPhase2 (enabled redis bun : bool) (env : Env) (suffix1 suffix2 : string) (dr : string → string → Draws)
    (now : Z) (s : State) : option (BootError + Bootstrap) * State :=
  if negb enabled then (None, s)
  else if bun then (Some (inl BunRuntime), s)
  else match readSettings URL env with
  | inl e => (Some (inl e), s)
  | inr st =>
  match ensureChainKey env s with
  | inl e => (Some (inl e), s)
  | inr s =>
  match performRestoreCheck now env s with
  | inl e => (Some (inl e), s)
  | inr s =>
  match composeComponents URL env st with
  | inl e => (Some (inl e), s)
  | inr c =>
  let '(failed, l) := ensureBootstrapOrg suffix1 suffix2 (githubOrg st) (googleWorkspaceDomain c) (orgs (auth s)) in
  let s := with_auth (with_orgs l (auth s)) s in
  match failed with
  | Some e => (Some (inl e), s)
  | None =>
  match open_tokens env dr now s with
  | (inl e, s) => (Some (inl e), s)
  | (inr p, s) =>
      let s := audit_now now "config.boot" (Some (publicUrl st)) s in
      let s := match prev_key (signingKeys c) with
               | Some _ => audit_now now "config.key_rotation"
                             (Some (default "unset" (env "COORDINATOR_JWT_SECRET_PREV_ROTATED_AT"))) s
               | None => s
               end in
      (Some (inr (mkBootstrap st c (composeStores redis) p)), s)
  end end end end end end.

(** The call of [startHttpServer]: logins by a variable, Redis by another one. A
    server whose Redis does not answer has ended before. *)
Definition serve_phase2 (bun : bool) (env : Env) : string → string → (string → string → Draws) → Z → State →
    option (BootError + Bootstrap) * State :=
  bootPhase2 (bool_decide (env "COORDINATOR_OAUTH_ENABLED" = Some "true"))
    (bool_decide (is_Some (truthy (env "COORDINATOR_REDIS_URL")))) bun env.
End boot.
End Phase2Boot.

(** * A start with logins fails closed

    What a start that succeeds has checked and left; what a restored database
    costs; and the addresses that pass for loopback. *)

From S2P Require Import Prelude Paths Announce AuditChain AuthState Rotation Envelope MasterKey EnvelopeSafety EncryptionBoot OrgsGuard EventReader.
Local Open Scope Z_scope.

Module Phase2BootSafety.
Import Envelope MasterKey Phase2Boot.

Lemma ebind_ok {A B} (m : BootError + A) (k : A → BootError + B) b : ebind m k = inr b → ∃ a, m = inr a ∧ k a = inr b.
Proof. destruct m; [done|]. by eexists. Qed.

Lemma check_ok {B} (c : bool) e (k : BootError + B) b : (if c then k else inl e) = inr b → c = true ∧ k = inr b.
Proof. by destruct c. Qed.

(** ** The environment *)

Lemma truthy_ne o v : truthy o = Some v → v ≠ "".
Proof. destruct o as [[|a s]|]; [done| |done]. by intros [= <-]. Qed.

Lemma trimmed_ne env k v : trimmed env k = Some v → v ≠ "".
Proof. apply truthy_ne. Qed.

Lemma readOptional_ne env k v : readOptionalEnv env k = Some v → v ≠ "" ∧ env k = Some v.
Proof.
  unfold readOptionalEnv. destruct (env k) as [w|] eqn:E; [|done]. destruct (String.eqb _ "") eqn:Et; [done|].
  intros [= <-]. split; [|done]. intros ->. by vm_compute in Et.
Qed.

Lemma readRequired_ne env k v : readRequiredEnv env k = inr v → v ≠ "" ∧ env k = Some v.
Proof.
  unfold readRequiredEnv. destruct (readOptionalEnv env k) as [w|] eqn:E; [|done]. intros [= <-].
  by apply readOptional_ne.
Qed.

(** ** Providers *)

(** A registered provider can be used safely: its credentials are there, and an
    issuer is reached over TLS or on the same machine. *)
Definition provider_ok (URL : string → option Url) (p : Provider) : Prop :=
  match p with
  | GitHubProvider id secret _ _ | GoogleProvider id secret | GitHubAppProvider id secret _ _ _ _ => id ≠ "" ∧ secret ≠ ""
  | OIDCProvider id secret issuer extra _ =>
      id ≠ "" ∧ secret ≠ ""
      ∧ (∃ u, URL issuer = Some u
           ∧ (protocol u = "https:" ∨ (protocol u = "http:" ∧ isLoopbackHostname (hostname u) = true)))
      ∧ Forall (λ o, ∃ u, URL o = Some u ∧ origin u ≠ "null") extra
  end.

(** The default is registered, and there is one as soon as there is a provider. *)
Record registry_ok (URL : string → option Url) (reg : ProviderRegistry) : Prop := {
  ro_providers : Forall (λ kv, provider_ok URL kv.2) (byName reg);
  ro_default n : defaultName reg = Some n → is_Some (map_get n (byName reg));
  ro_none : defaultName reg = None → byName reg = []
}.

Lemma register_ok URL p reg : provider_ok URL p → registry_ok URL reg → registry_ok URL (register p reg).
Proof.
  intros Hp [Ha Hd Hn]. unfold register. split; cbn [byName defaultName].
  - by apply EventReader.map_set_forall.
  - intros n E. rewrite map_get_set. case_decide as En; [done|]. destruct (defaultName reg) as [d|] eqn:Ed.
    + apply (Hd n). congruence.
    + congruence.
  - by destruct (defaultName reg).
Qed.

Lemma register_opt_ok URL p reg : (∀ q, p = Some q → provider_ok URL q) → registry_ok URL reg →
  registry_ok URL (register_opt p reg).
Proof. intros Hp Hr. destruct p as [q|]; [|done]. by apply register_ok; [apply Hp|]. Qed.

Lemma registry_default URL reg : registry_ok URL reg → size reg ≠ 0%nat →
  ∃ p, getDefault reg = Some p ∧ provider_ok URL p.
Proof.
  intros [Ha Hd Hn] Hs. unfold getDefault. destruct (defaultName reg) as [n|] eqn:E.
  - destruct (Hd n eq_refl) as [p Hp]. exists p. split; [done|]. unfold map_get in Hp. 
    destruct (select_one _ (byName reg)) as [kv|] eqn:Es; [|done]. injection Hp as <-.
    apply select_one_Some in Es as [_ Hin]. rewrite Forall_forall in Ha. by apply Ha.
  - unfold size in Hs. by rewrite Hn in Hs.
Qed.

Section url.
Context (URL : string → option Url) (env : string → option string).

Lemma http_or_https u e k r : (if String.eqb (protocol u) "http:" || String.eqb (protocol u) "https:" then k else inl e) = inr r →
  (protocol u = "http:" ∨ protocol u = "https:") ∧ (k : BootError + unit) = inr r.
Proof. intros [[?%String.eqb_eq|?%String.eqb_eq]%orb_prop Hk]%check_ok; auto. Qed.

Lemma issuer_ok issuer r : validateIssuer URL issuer = inr r → ∃ u, URL issuer = Some u
  ∧ (protocol u = "https:" ∨ (protocol u = "http:" ∧ isLoopbackHostname (hostname u) = true)).
Proof.
  unfold validateIssuer. destruct (URL issuer) as [u|]; [|done]. intros [[Hp|Hp] Hk]%http_or_https; exists u; [|auto].
  split; [done|]. rewrite Hp in *. cbn in Hk. destruct (isLoopbackHostname (hostname u)); [auto|done].
Qed.

Lemma origins_ok l r : check_origins URL l = inr r → Forall (λ o, ∃ u, URL o = Some u ∧ origin u ≠ "null") l.
Proof.
  induction l as [|o l IH]; [constructor|]. cbn [check_origins]. destruct (URL o) as [u|] eqn:E; [|done].
  intros [Hn Hk]%check_ok. constructor; [|by apply IH]. exists u. split; [done|].
  intros E'. rewrite E' in Hn. done.
Qed.

Lemma extra_origins_ok raw l : parseExtraOrigins URL raw = inr l →
  Forall (λ o, ∃ u, URL o = Some u ∧ origin u ≠ "null") l.
Proof.
  unfold parseExtraOrigins. destruct (truthy raw); [|intros [= <-]; constructor].
  intros (u & Ho & [= <-])%ebind_ok. by eapply origins_ok.
Qed.

Lemma google_ok p : googleProvider env = inr (Some p) → provider_ok URL p.
Proof.
  unfold googleProvider. repeat case_match; try done. intros [= <-]. split; by eapply trimmed_ne.
Qed.

Lemma app_ok a b p : githubAppProvider env a b = inr (Some p) → provider_ok URL p.
Proof.
  unfold githubAppProvider. repeat case_match; try done.
  intros (src & _ & [= <-])%ebind_ok. split; by eapply trimmed_ne.
Qed.

Lemma oidc_ok p : oidcProvider URL env = inr (Some p) → provider_ok URL p.
Proof.
  unfold oidcProvider. repeat case_match; try done.
  intros (r & Hi & (l & Hl & [= <-])%ebind_ok)%ebind_ok. split_and!; [by eapply trimmed_ne..| |].
  - by eapply issuer_ok.
  - by eapply extra_origins_ok.
Qed.

(** The settings of a start that goes on. *)
Definition settings_ok (st : Settings) : Prop :=
  env "COORDINATOR_JWT_SECRET" = Some (jwtSecret st) ∧ assertSecretEntropy (jwtSecret st) MIN_JWT_SECRET_BITS = true
  ∧ (∃ u, URL (publicUrl st) = Some u
       ∧ (protocol u = "https:"
          ∨ (protocol u = "http:"
             ∧ (isLocalhost (hostname u) = true ∨ env "COORDINATOR_INSECURE_COOKIES" = Some "true"))))
  ∧ (∀ c, github st = Some c → c.1 ≠ "" ∧ c.2 ≠ "" ∧ ∃ o, githubOrg st = Some o ∧ o ≠ "")
  ∧ (github st = None → githubOrg st = None).

Lemma github_ok c : githubCredentials env = inr (Some c) → c.1 ≠ "" ∧ c.2 ≠ "".
Proof.
  unfold githubCredentials. repeat case_match; try done.
  intros [= <-]. split; by eapply readOptional_ne.
Qed.

Lemma public_url_ok url r : validatePublicUrl URL url env = inr r → ∃ u, URL url = Some u
  ∧ (protocol u = "https:"
     ∨ (protocol u = "http:"
        ∧ (isLocalhost (hostname u) = true ∨ env "COORDINATOR_INSECURE_COOKIES" = Some "true"))).
Proof.
  unfold validatePublicUrl. destruct (URL url) as [u|]; [|done]. intros [[Hp|Hp] Hk]%http_or_https; exists u; [|auto].
  split; [done|]. right. split; [done|]. rewrite Hp in Hk. cbn [andb String.eqb] in Hk.
  destruct (isLocalhost (hostname u)); [by left|]. right.
  destruct (decide (env "COORDINATOR_INSECURE_COOKIES" = Some "true")) as [E|E]; [done|].
  rewrite bool_decide_eq_false_2 in Hk by done. done.
Qed.

Lemma readSettings_ok st : readSettings URL env = inr st → settings_ok st.
Proof.
  intros (jwt & [_ Hj]%readRequired_ne & Hk)%ebind_ok. apply ebind_ok in Hk as (url & _ & Hk).
  apply ebind_ok in Hk as (gh & Hg & Hk). apply ebind_ok in Hk as (org & Ho & Hk).
  apply ebind_ok in Hk as ([] & Hu%public_url_ok & [He [= <-]]%check_ok). unfold settings_ok. cbn.
  split_and!; [done|done|done| |].
  - intros c ->. destruct (github_ok c Hg) as [? ?]. split_and!; [done..|].
    apply ebind_ok in Ho as (o & [Hne _]%readRequired_ne & [= <-]). by exists o.
  - intros ->. by injection Ho.
Qed.

Lemma compose_ok st c : settings_ok st → composeComponents URL env st = inr c →
  registry_ok URL (providers c) ∧ (∃ p, getDefault (providers c) = Some p ∧ provider_ok URL p)
  ∧ current_key (signingKeys c) = jwtSecret st
  ∧ (∀ k, prev_key (signingKeys c) = Some k → assertSecretEntropy k MIN_JWT_SECRET_BITS = true).
Proof.
  intros (_ & _ & _ & Hgh & _) (prev & Hp & Hk)%ebind_ok. cbv zeta in Hk.
  apply ebind_ok in Hk as (? & _ & Hk). apply ebind_ok in Hk as (? & _ & Hk).
  apply ebind_ok in Hk as (g & Hg & [_ Hk]%check_ok). apply ebind_ok in Hk as (a & Ha & Hk).
  apply ebind_ok in Hk as (o & Ho & [Hs [= <-]]%check_ok). cbn [providers signingKeys current_key prev_key].
  match type of Hs with context [size ?x] => assert (registry_ok URL x) as Hr end.
  { repeat apply register_opt_ok.
    - intros q ->. by apply oidc_ok.
    - intros q ->. by eapply app_ok.
    - intros q ->. by apply google_ok.
    - intros q. destruct (github st) as [c0|] eqn:E; [|done]. intros [= <-]. destruct (Hgh c0 eq_refl) as (? & ? & _).
      by split.
    - by split. }
  split_and!; [done| |done|].
  - apply registry_default; [done|]. intros E. by rewrite E in Hs.
  - intros k ->. revert Hp. unfold prevSecret. destruct (readOptionalEnv env _); [|done].
    by intros [He [= ->]]%check_ok.
Qed.
End url.

Lemma workspace_ne URL env st c d : composeComponents URL env st = inr c → googleWorkspaceDomain c = Some d → d ≠ "".
Proof.
  intros (prev & Hp & Hk)%ebind_ok. cbv zeta in Hk.
  apply ebind_ok in Hk as (? & _ & Hk). apply ebind_ok in Hk as (? & _ & Hk).
  apply ebind_ok in Hk as (g & Hg & [_ Hk]%check_ok). apply ebind_ok in Hk as (a & Ha & Hk).
  apply ebind_ok in Hk as (o & Ho & [Hs [= <-]]%check_ok). cbn. intros Ed. by apply readOptional_ne in Ed as [? _].
Qed.

(** ** The organisations of the first sign-in *)

Lemma bootstrap_allows c sfx v : allows c v (bootstrap_row c sfx v).
Proof. by destruct c. Qed.

Lemma seed_spec sfx c v l l' : seedAllowlistOrg sfx c v l = inr l' →
  l `prefix_of` l' ∧ Exists (allows c v) l' ∧ ∀ sfx', seedAllowlistOrg sfx' c v l' = inr l'.
Proof.
  unfold seedAllowlistOrg. destruct (select_one (allows c v) l) as [r|] eqn:E.
  - intros [= <-]. split_and!; [done| |intros; by rewrite E]. apply select_one_Some in E as [Hr Hin].
    apply Exists_exists. by exists r.
  - cbv zeta. case_decide; [done|]. intros [= <-].
    assert (select_one (allows c v) (l ++ [bootstrap_row c sfx v]) = Some (bootstrap_row c sfx v)) as E'.
    { unfold select_one in *. rewrite filter_app. destruct (filter (allows c v) l); [|done].
      rewrite filter_cons_True by apply bootstrap_allows. done. }
    split_and!; [by apply prefix_app_r| |intros; by rewrite E'].
    apply Exists_app. right. constructor. apply bootstrap_allows.
Qed.

Lemma Exists_prefix {A} (P : A → Prop) (l k : list A) : l `prefix_of` k → Exists P l → Exists P k.
Proof. intros [m ->] Hl. apply Exists_app. by left. Qed.

(** Each organisation that a sign-in must match is there afterwards, the others
    stay, and a second start adds nothing. *)
Lemma bootstrap_orgs_spec sfx1 sfx2 gh idp l l' : ensureBootstrapOrg sfx1 sfx2 gh idp l = (None, l') →
  l `prefix_of` l'
  ∧ (∀ o, gh = Some o → o ≠ "" → Exists (allows GithubOrg o) l') ∧ (∀ d, idp = Some d → d ≠ "" → Exists (allows IdpOrgId d) l')
  ∧ ∀ x y, ensureBootstrapOrg x y gh idp l' = (None, l').
Proof.
  unfold ensureBootstrapOrg. destruct (seed_opt sfx1 GithubOrg gh l) as [e|l1] eqn:E1; [done|].
  destruct (seed_opt sfx2 IdpOrgId idp l1) as [e|l2] eqn:E2; [done|]. intros [= <-].
  assert (l `prefix_of` l1 ∧ (∀ o, truthy gh = Some o → Exists (allows GithubOrg o) l1)) as [P1 X1].
  { revert E1. unfold seed_opt. destruct (truthy gh) as [o|]; [intros (? & ? & _)%seed_spec|intros [= <-]; done].
    split; [done|]. by intros ? [= <-]. }
  assert (l1 `prefix_of` l2 ∧ (∀ o, truthy idp = Some o → Exists (allows IdpOrgId o) l2)
    ∧ ∀ x, seed_opt x IdpOrgId idp l2 = inr l2) as (P2 & X2 & I2).
  { revert E2. unfold seed_opt. destruct (truthy idp) as [o|]; [intros (? & ? & ?)%seed_spec|intros [= <-]; done].
    split; [done|]. split; [|done]. by intros ? [= <-]. }
  split_and!; [by etrans| | |].
  - intros o -> Ho. eapply Exists_prefix; [done|]. apply X1. by destruct o.
  - intros o -> Ho. apply X2. by destruct o.
  - intros x y. assert (seed_opt x GithubOrg gh l2 = inr l2) as ->; [|by rewrite I2].
    unfold seed_opt. destruct (truthy gh) as [o|] eqn:Eo; [|done]. unfold seedAllowlistOrg.
    destruct (select_one (allows GithubOrg o) l2) eqn:Es; [done|]. exfalso.
    rewrite select_one_None in Es. pose proof (Exists_prefix _ _ _ P2 (X1 o eq_refl)) as (r & Hr & Ha)%Exists_exists.
    by apply (Es r).
Qed.

(** ** A restored database *)

Lemma max_epoch_spec l t : max_epoch l = Some t → t ∈ l ∧ ∀ x, x ∈ l → x ≤ t.
Proof.
  destruct l as [|y l]; [done|]. intros [= <-].
  assert (∀ y, (foldl Z.max y l = y ∨ foldl Z.max y l ∈ l) ∧ y ≤ foldl Z.max y l ∧ ∀ x, x ∈ l → x ≤ foldl Z.max y l) as H.
  { clear y. induction l as [|z l IH]; intros y; cbn [foldl].
    { split_and!; [by left|lia|]. by intros x ?%elem_of_nil. }
    destruct (IH (y `max` z)) as (H1 & H2 & H3). split_and!.
    - destruct H1 as [->|H1]; [|right; by right]. destruct (Z.max_spec y z) as [[_ ->]|[_ ->]]; [right; left|by left].
    - lia.
    - intros x [->|Hx]%elem_of_cons; [lia|by apply H3]. }
  destruct (H y) as (H1 & H2 & H3). split.
  - destruct H1 as [->|H1]; [left|by right].
  - intros x [->|Hx]%elem_of_cons; [done|by apply H3].
Qed.

(** A log with a recent row tells nothing of a restore, whatever its other rows. *)
Lemma recent_row_passes now env s t : t ∈ stamps s → now - t ≤ RESTORE_DETECTION_STALE_THRESHOLD_S →
  performRestoreCheck now env s = inr s.
Proof.
  intros Ht Hn. unfold performRestoreCheck. destruct (max_epoch (stamps s)) as [m|] eqn:E; [|done].
  apply max_epoch_spec in E as [_ Hm]. specialize (Hm t Ht). by rewrite decide_True by lia.
Qed.

Definition stale (now : Z) (s : State) : Prop :=
  stamps s ≠ [] ∧ ∀ t, t ∈ stamps s → RESTORE_DETECTION_STALE_THRESHOLD_S < now - t.

Lemma restore_check_stale now env s : stale now s →
  (env "COORDINATOR_ALLOW_RESTORE" ≠ Some "true" → ∃ n, performRestoreCheck now env s = inl (RestoreSuspected n))
  ∧ (env "COORDINATOR_ALLOW_RESTORE" = Some "true" → ∃ s', performRestoreCheck now env s = inr s'
       ∧ users (auth s') = bump now <$> users (auth s) ∧ orgs (auth s') = orgs (auth s)
       ∧ stamps s' = stamps s ++ [now; now] ∧ ∀ now', now' - now ≤ RESTORE_DETECTION_STALE_THRESHOLD_S →
         performRestoreCheck now' env s' = inr s').
Proof.
  intros [Hne Hs]. unfold performRestoreCheck at 1 2. destruct (max_epoch (stamps s)) as [m|] eqn:E.
  2:{ by destruct (stamps s). }
  pose proof E as [Hm _]%max_epoch_spec. specialize (Hs m Hm). rewrite decide_False by lia. split.
  - intros Hr. rewrite decide_True by done. by eexists.
  - intros Hr. rewrite decide_False by tauto. eexists. split; [reflexivity|]. split_and!; try done.
    + cbn. by rewrite <- app_assoc.
    + intros now' Hn. eapply recent_row_passes; [|exact Hn]. cbn. rewrite elem_of_app. right. left.
Qed.

Lemma restore_check_ok now env s s' : performRestoreCheck now env s = inr s' →
  (s' = s ∧ ¬ stale now s)
  ∨ (stale now s ∧ env "COORDINATOR_ALLOW_RESTORE" = Some "true" ∧ users (auth s') = bump now <$> users (auth s)
     ∧ orgs (auth s') = orgs (auth s)).
Proof.
  unfold performRestoreCheck. destruct (max_epoch (stamps s)) as [m|] eqn:E.
  - pose proof E as [Hm Hmax]%max_epoch_spec. case_decide as Hn.
    + intros [= <-]. left. split; [done|]. intros [_ Hs]. specialize (Hs m Hm). lia.
    + case_decide as Hr; [done|]. intros [= <-]. right. assert (stale now s) as Hst.
      { split; [intros El; rewrite El in Hm; by apply elem_of_nil in Hm|].
        intros t Ht. specialize (Hmax t Ht). lia. }
      split; [done|]. split; [|done]. by destruct (decide (env "COORDINATOR_ALLOW_RESTORE" = Some "true")).
  - intros [= <-]. left. split; [done|]. intros [Hne _]. by destruct (stamps s).
Qed.

(** ** Sealing tokens keeps the epochs *)

Definition epochs (us : list UserRow) : list (string * Z) := (λ u, (u_id u, token_epoch u)) <$> us.

Section tokens.
Context `{Aead} (fingerprint : Buffer → string).

Lemma seal_column_epochs key dr r col v set us us' : (∀ t u, u_id (set t u) = u_id u ∧ token_epoch (set t u) = token_epoch u) →
  EncryptionBoot.seal_column key dr r col v set us = Some us' → epochs us' = epochs us.
Proof.
  intros Hset. unfold EncryptionBoot.seal_column. destruct (EncryptionBoot.plain v); [|by intros [= <-]].
  destruct (encrypt _ _ _ _) as [c|]; [|done]. intros [= <-]. apply fmap_update_where. intros u _ _.
  by destruct (Hset (Some c) u) as [-> ->].
Qed.

Lemma seal_rows_epochs key dr rows us us' : EncryptionBoot.seal_rows key dr rows us = Some us' → epochs us' = epochs us.
Proof.
  revert us. induction rows as [|r rows IH]; intros us; cbn [EncryptionBoot.seal_rows]; [by intros [= <-]|].
  destruct (EncryptionBoot.seal_column _ _ _ EncryptionBoot.ACCESS _ _ us) as [u1|] eqn:E1; [|done]. cbn.
  destruct (EncryptionBoot.seal_column _ _ _ EncryptionBoot.REFRESH _ _ u1) as [u2|] eqn:E2; [|done]. cbn. intros E3%IH.
  apply seal_column_epochs in E1, E2; [congruence|done..].
Qed.

Lemma finish_epochs key dr b st : epochs (EncryptionBoot.s_users (EncryptionBoot.finish fingerprint key dr b st).2)
  = epochs (EncryptionBoot.s_users st).
Proof.
  unfold EncryptionBoot.finish, EncryptionBoot.migratePlaintextIdpTokens. destruct (filter _ _) as [|r rows]; [done|].
  destruct (EncryptionBoot.seal_rows _ _ _ _) as [us|] eqn:E; [|done]. cbn. by eapply seal_rows_epochs.
Qed.

Lemma invalidate_epochs rows st : epochs (EncryptionBoot.s_users (fold_left EncryptionBoot.invalidate rows st))
  = epochs (EncryptionBoot.s_users st).
Proof.
  revert st. induction rows as [|r rows IH]; intros st; [done|]. cbn [fold_left]. rewrite IH.
  by apply fmap_update_where.
Qed.

Lemma guards_epochs env key dr st :
  epochs (EncryptionBoot.s_users (EncryptionBoot.runEncryptionGuards fingerprint env key dr st).2)
  = epochs (EncryptionBoot.s_users st).
Proof.
  unfold EncryptionBoot.runEncryptionGuards.
  repeat case_match; try done; first [by rewrite finish_epochs|exact (invalidate_epochs _ _)].
Qed.

Lemma open_tokens_keeps derive env dr now s : let '(r, s') := open_tokens fingerprint derive env dr now s in
  epochs (users (auth s')) = epochs (users (auth s)) ∧ orgs (auth s') = orgs (auth s).
Proof.
  unfold open_tokens. destruct (OrgsGuard.loadEncryptionKey _) as [e|key]; [done|]. cbv zeta.
  match goal with |- context [EncryptionBoot.runEncryptionGuards _ _ _ _ ?x] => pose proof (guards_epochs env key dr x) as He end.
  destruct (EncryptionBoot.runEncryptionGuards _ _ _ _ _) as [r st]. by split.
Qed.
End tokens.

(** ** The whole start *)

Section boot.
Context `{Aead} (fingerprint : Buffer → string) (derive : Buffer → string) (URL : string → option Url).

Lemma ensureChainKey_keeps env s s' : ensureChainKey derive env s = inr s' →
  auth s' = auth s ∧ stamps s' = stamps s.
Proof. unfold ensureChainKey. destruct (OrgsGuard.ensureAuditChainKeyForBootAudit _ _ _); [done|]. by intros [= <-]. Qed.

Lemma bumped now us u : u ∈ us → ∃ e, (u_id u, e) ∈ epochs (bump now <$> us) ∧ now ≤ e ∧ token_epoch u < e.
Proof.
  intros Hu. exists (now `max` (token_epoch u + 1)). split; [|lia]. unfold epochs. rewrite <- list_fmap_compose.
  apply list_elem_of_fmap. by exists u.
Qed.

(** [C12] A start with logins that succeeds has made its checks. Its secrets
    are neither words nor weak; the public URL is of the web and plain only on this
    machine or on demand; the default provider is registered, every provider has
    its credentials and every issuer is reached over TLS or has a name that
    [isLoopbackHostname] accepts (which is not only this machine: see [loopback_unsound]);
    the organisations of the first sign-in exist and none was lost. If the newest
    row of the audit log was more than five minutes old, the restore was announced
    and the epoch of every user is past the start, so that no token from before it
    is accepted (a migration of the same start can write a newer row: see
    [migration_hides_restore]). The limiter, the memberships and the sweeper are
    the shared ones exactly with Redis. *)
Theorem boot_fails_closed enabled redis bun env sfx1 sfx2 dr now s b s' :
  bootPhase2 fingerprint derive URL enabled redis bun env sfx1 sfx2 dr now s = (Some (inr b), s') →
  let st := c_settings b in let c := c_components b in
  settings_ok URL env st ∧ registry_ok URL (providers c)
  ∧ (∃ p, getDefault (providers c) = Some p ∧ provider_ok URL p)
  ∧ (∀ k, prev_key (signingKeys c) = Some k → assertSecretEntropy k MIN_JWT_SECRET_BITS = true)
  ∧ orgs (auth s) `prefix_of` orgs (auth s')
  ∧ (∀ o, githubOrg st = Some o → Exists (allows GithubOrg o) (orgs (auth s')))
  ∧ (∀ d, googleWorkspaceDomain c = Some d → Exists (allows IdpOrgId d) (orgs (auth s')))
  ∧ (stale now s → env "COORDINATOR_ALLOW_RESTORE" = Some "true"
       ∧ ∀ u, u ∈ users (auth s) → ∃ e, (u_id u, e) ∈ epochs (users (auth s')) ∧ now ≤ e ∧ token_epoch u < e)
  ∧ (¬ stale now s → epochs (users (auth s')) = epochs (users (auth s)))
  ∧ c_stores b = mkStores (if redis then RedisLimiter else InMemoryLimiter true) redis redis
  ∧ enabled = true ∧ bun = false.
Proof.
  unfold bootPhase2. destruct enabled; [|done]. destruct bun; [done|]. cbn [negb].
  destruct (readSettings URL env) as [e|st] eqn:Est; [done|].
  destruct (ensureChainKey derive env s) as [e|s1] eqn:E1; [done|]. apply ensureChainKey_keeps in E1 as [Ea Es].
  destruct (performRestoreCheck now env s1) as [e|s2] eqn:E2; [done|].
  destruct (composeComponents URL env st) as [e|c] eqn:Ec; [done|].
  destruct (ensureBootstrapOrg _ _ _ _ _) as [failed l] eqn:Eb. destruct failed; [done|].
  pose proof (open_tokens_keeps fingerprint derive env dr now (with_auth (with_orgs l (auth s2)) s2)) as Hk.
  destruct (open_tokens _ _ _ _ _ _) as [[e|p] s3]; [done|]. destruct Hk as [Hu Ho]. cbn in Hu, Ho.
  intros [= <- <-]. cbn [c_settings c_components]. apply readSettings_ok in Est.
  pose proof Est as (_ & _ & _ & Hgh & Hno). pose proof Ec as (Hr & Hd & _ & Hp)%compose_ok; [|done].
  apply bootstrap_orgs_spec in Eb as (Hpre & Hg & Hi & _).
  match goal with |- context [auth ?x] => match x with context [audit_now] => set (s4 := x) end end.
  assert (orgs (auth s4) = l) as El by (unfold s4; by destruct (prev_key _)).
  assert (epochs (users (auth s4)) = epochs (users (auth s2))) as Eu by (unfold s4; by destruct (prev_key _)).
  assert (stale now s1 ↔ stale now s) as Hst by (unfold stale; by rewrite Es).
  apply restore_check_ok in E2. rewrite El, Eu. clearbody s4.
  split_and!; try done.
  - destruct E2 as [[-> _]|(_ & _ & _ & Eo)]; [by rewrite <- Ea|]. by rewrite <- Ea, <- Eo.
  - intros o Eo. apply Hg; [done|]. destruct (github st) as [cr|] eqn:Ecr; [|by rewrite Hno in Eo].
    destruct (Hgh cr eq_refl) as (_ & _ & o' & Eo' & Hne). congruence.
  - intros d Ed. apply Hi; [done|]. by eapply workspace_ne.
  - intros Hs. destruct E2 as [[_ Hn]|(_ & Hr2 & Eu2 & _)]; [by rewrite Hst in Hn|]. split; [done|].
    intros u Hin. rewrite Eu2, Ea. by apply bumped.
  - intros Hs. destruct E2 as [[-> _]|(Hs' & _)]; [by rewrite Ea|]. by rewrite Hst in Hs'.
Qed.
End boot.

(** ** Addresses of this machine *)

Lemma ipv4_loopback s : isIPv4 s = true → startsWith "127." s = true → ∃ b c d, ipv4 s = Some (127, b, c, d).
Proof.
  intros [[[[a b] c] d] E]%bool_decide_eq_true_1 (r & ->)%Paths.startsWith_spec. exists b, c, d.
  revert E. unfold ipv4. change (split_on "." ("127." +:+ r)) with ("127" :: split_on "." r). rewrite fmap_cons.
  change (octet "127") with (Some 127). repeat case_match; try done. intros ?. by simplify_eq.
Qed.

(** The name without brackets and the final dot, as it is compared. *)
Definition bare_host (hostname : string) : string :=
  let h := Paths.toLowerCase (without_first "]" (without_first "[" hostname)) in
  if endsWith "." h then without_last h else h.

(** A name passes for loopback in five ways: the last one is by the spelling of
    the first group, not by its value. *)
Theorem loopback_spec h : isLoopbackHostname h = true →
  bare_host h = "localhost" ∨ (∃ b c d, ipv4 (bare_host h) = Some (127, b, c, d)) ∨ bare_host h = "::1"
  ∨ (startsWith MAPPED (bare_host h) = true
     ∧ ((∃ b c d, ipv4 (after MAPPED (bare_host h)) = Some (127, b, c, d))
        ∨ (isIPv6 (bare_host h) = true ∧ startsWith "7f" (after MAPPED (bare_host h)) = true))).
Proof.
  unfold isLoopbackHostname. fold (bare_host h). cbv zeta. generalize (bare_host h). clear h. intros h.
  destruct (String.eqb h "localhost") eqn:E1; [intros _; left; by apply String.eqb_eq|].
  destruct (isIPv4 h) eqn:E2; [intros Hs; right; left; by apply ipv4_loopback|].
  destruct (isIPv6 h) eqn:E3; [|done].
  destruct (String.eqb h "::1") eqn:E4; [intros _; do 2 right; left; by apply String.eqb_eq|].
  destruct (startsWith MAPPED h) eqn:E5; [|done]. intros Hs. do 3 right. split; [done|].
  destruct (isIPv4 (after MAPPED h)) eqn:E6; [left; by apply ipv4_loopback|by right].
Qed.

(** [::ffff:7f0:1] is 7.240.0.1, an address of the Internet; it passes for this
    machine, and an issuer there is accepted without TLS. *)
Theorem loopback_unsound URL issuer u : URL issuer = Some u → protocol u = "http:" → hostname u = "[::ffff:7f0:1]" →
  validateIssuer URL issuer = inr tt
  ∧ ipv6 (bare_host (hostname u)) = Some [0; 0; 0; 0; 0; 65535; 256 * 7 + 240; 256 * 0 + 1].
Proof.
  intros E Hp Hh. unfold validateIssuer. rewrite E, Hp, Hh. split; by vm_compute.
Qed.

(** The name that a browser shows for [::1] has brackets, so that it is not this
    machine for the public URL. *)
Theorem bracketed_refused URL url u env : URL url = Some u → protocol u = "http:" → hostname u = "[::1]" →
  env "COORDINATOR_INSECURE_COOKIES" = None →
  validatePublicUrl URL url env = inl (PlainHttp "COORDINATOR_PUBLIC_URL")
  ∧ isLoopbackHostname (hostname u) = true.
Proof. intros E Hp Hh He. unfold validatePublicUrl. rewrite E, Hp, Hh, He. split; by vm_compute. Qed.

(** ** A restore that is not seen *)

(** A migration that wrote a row to the audit log at this start hides that every
    other row is old: no epoch moves, whatever the environment. *)
Theorem migration_hides_restore now env s : stale now s →
  performRestoreCheck now env (with_stamps (stamps s ++ [now]) s) = inr (with_stamps (stamps s ++ [now]) s).
Proof.
  intros _. apply (recent_row_passes _ _ _ now); [cbn; rewrite elem_of_app; right; left|].
  unfold RESTORE_DETECTION_STALE_THRESHOLD_S. lia.
Qed.

(** ** Examples *)

Definition demo_url (s : string) : option Url :=
  if startsWith "https://" s then Some (mkUrl "https:" (after "https://" s) s)
  else if startsWith "http://" s then Some (mkUrl "http:" (after "http://" s) s) else None.

Definition demo_env (extra : list (string * string)) : string → option string := λ k,
  map_get k (extra ++
    [("COORDINATOR_JWT_SECRET", "zyxwvutsrqponmlkjihgfedcba543210"); ("COORDINATOR_PUBLIC_URL", "https://team.example");
     ("COORDINATOR_GOOGLE_CLIENT_ID", "gid"); ("COORDINATOR_GOOGLE_CLIENT_SECRET", "gsecret");
     ("COORDINATOR_GOOGLE_WORKSPACE_DOMAIN", "team.example"); ("COORDINATOR_ALLOW_RESTORE", "true")]).

Definition demo_user : UserRow := mkUser "u" "o" "a@b" None "google" "1" None None "member" None 40.

Definition demo_state : State :=
  mkState (mkAuth [] [demo_user] [] [] [] [] (mkFloor 0 ∅) [] []) [100] None None [].

Notation demo_start := (@bootPhase2 EnvelopeSafety.toy_aead (λ _, "f") (λ _, "k") demo_url true false false (demo_env []) "x" "y"
  (λ _ _, EnvelopeSafety.toy_draws) 1000 demo_state).

Lemma boot_fails_closed_witness :
  match demo_start with
  | (Some (inr b), s') => names (providers (c_components b)) = ["google"]
      ∧ ∃ e, ("u", e) ∈ epochs (users (auth s')) ∧ 1000 ≤ e ∧ 40 < e
  | _ => False
  end.
Proof.
  assert (match (demo_start).1 with Some (inr b) => names (providers (c_components b)) = ["google"] | _ => False end)
    as Hn by (vm_compute; reflexivity).
  destruct (demo_start) as [[[e|b]|] s'] eqn:E; [done| |done]. split; [exact Hn|].
  destruct (@boot_fails_closed EnvelopeSafety.toy_aead (λ _, "f") (λ _, "k") demo_url true false false (demo_env []) "x" "y"
    (λ _ _, EnvelopeSafety.toy_draws) 1000 demo_state b s' E) as (_ & _ & _ & _ & _ & _ & _ & Hs & _).
  refine (proj2 (Hs _) demo_user _); [|left]. split; [done|]. intros t ->%list_elem_of_singleton. by vm_compute.
Defined.

(** An application registered under the name of another provider takes its place:
    Google is configured and cannot be used. *)
Example demo_collision :
  names ∘ providers <$>
    match composeComponents demo_url
            (demo_env [("COORDINATOR_GITHUB_APP_CLIENT_ID", "aid"); ("COORDINATOR_GITHUB_APP_CLIENT_SECRET", "asecret");
                       ("COORDINATOR_GITHUB_APP_NAME", "google")])
            (mkSettings "zyxwvutsrqponmlkjihgfedcba543210" "https://team.example" None None) with
    | inr c => Some c | inl _ => None
    end = Some ["google"].
Proof. by vm_compute. Qed.

Example demo_addresses :
  isLoopbackHostname "127.evil.example.com" = false ∧ isLoopbackHostname "127.0.0.1.nip.io" = false
  ∧ isLoopbackHostname "127.0.0.1" = true ∧ isLoopbackHostname "LOCALHOST." = true ∧ isLoopbackHostname "[::1]" = true
  ∧ isLoopbackHostname "[::ffff:7f00:1]" = true ∧ isLoopbackHostname "[::ffff:127.0.0.1]" = true
  ∧ isLoopbackHostname "128.0.0.1" = false ∧ isLoopbackHostname "[2001:db8::1]" = false.
Proof. by vm_compute. Qed.
End Phase2BootSafety.
