(* ===== verification/RedisLock.v ===== *)
(** * Locks between instances ([src/infra/redis.ts] and its uses in
    [src/serve-http.ts] and [src/boot.ts])

    Instances that share a Redis take a key with an expiry: to run the migrations
    of a start one at a time, to elect the one that sweeps, and to let one of them
    handle the departure of an agent. They interleave between their commands, and
    time passes between any two. *)

From S2P Require Import Prelude.
Local Open Scope Z_scope.

Module RedisLock.

(** ** One key *)

(** Who set it, and when it expires, in milliseconds. *)
Record Entry := mkEntry { e_owner : string; e_expires : Z }.

Definition live (now : Z) (k : option Entry) : option Entry :=
  match k with Some e => if decide (now < e_expires e) then Some e else None | None => None end.

(** [SET key owner NX EX ttl] *)
Definition acquireLock (now ttlSeconds : Z) (owner : string) (k : option Entry) : bool * option Entry :=
  match live now k with
  | Some e => (false, Some e)
  | None => (true, Some (mkEntry owner (now + 1000 * ttlSeconds)))
  end.

(** [GET key] *)
Definition get (now : Z) (k : option Entry) : option string := e_owner <$> live now k.

(** [EXPIRE key ttl] *)
Definition expire (now ttlSeconds : Z) (k : option Entry) : option Entry :=
  (λ e, mkEntry (e_owner e) (now + 1000 * ttlSeconds)) <$> live now k.

(** [RELEASE_LUA] *)
Definition release (now : Z) (owner : string) (k : option Entry) : option Entry :=
  if decide (get now k = Some owner) then None else k.

(** ** [withLock] *)

(** Where an instance is. [attempts] counts the commands it has sent; [since] is
    the time of the one that took the lock. *)
Inductive Phase :=
  | Idle
  | Trying (deadline : Z) (attempts : nat)
  | Refused (deadline : Z) (attempts : nat)
  | Sleeping (deadline wake : Z) (attempts : nat)
  | Running (since : Z)
  | Releasing (since : Z)
  | Returned
  | TimedOut
  | Crashed.

Record Options := mkOptions { ttlSeconds : Z; retryMs : Z; maxWaitMs : Z }.

(** The lock of the migrations. *)
Definition boot_options : Options := mkOptions 120 500 120000.

Record Shared := mkShared { key : option Entry; clock : Z; phases : gmap string Phase }.

Definition phase (p : string) (s : Shared) : Phase := default Idle (phases s !! p).
Definition at_phase (p : string) (h : Phase) (s : Shared) : Shared := mkShared (key s) (clock s) (<[p := h]> (phases s)).
Definition with_key (k : option Entry) (s : Shared) : Shared := mkShared k (clock s) (phases s).

Section protocol.
Context (opts : Options).

Definition begin_ (p : string) (s : Shared) : Shared := at_phase p (Trying (clock s + maxWaitMs opts) 0) s.

Definition try_ (p : string) (deadline : Z) (n : nat) (s : Shared) : Shared :=
  let '(won, k) := acquireLock (clock s) (ttlSeconds opts) p (key s) in
  at_phase p (if won then Running (clock s) else Refused deadline (S n)) (with_key k s).

(** The test after a refusal, whenever the reply comes. *)
Definition refused (p : string) (deadline : Z) (n : nat) (s : Shared) : Shared :=
  at_phase p (if decide (deadline < clock s) then TimedOut else Sleeping deadline (clock s + retryMs opts) n) s.

(** [ok] tells whether the command reached Redis; its errors are ignored. *)
Definition releaseLock (p : string) (ok : bool) (s : Shared) : Shared :=
  at_phase p Returned (if ok then with_key (release (clock s) p (key s)) s else s).

(** The instances, the passage of time, and crashes. *)
Inductive step (s : Shared) : Shared → Prop :=
  | step_time d : 0 ≤ d → step s (mkShared (key s) (clock s + d) (phases s))
  | step_begin p : phase p s = Idle → step s (begin_ p s)
  | step_try p dl n : phase p s = Trying dl n → step s (try_ p dl n s)
  | step_refused p dl n : phase p s = Refused dl n → step s (refused p dl n s)
  | step_wake p dl w n : phase p s = Sleeping dl w n → w ≤ clock s → step s (at_phase p (Trying dl n) s)
  | step_fn p t : phase p s = Running t → step s (at_phase p (Releasing t) s)
  | step_release p t ok : phase p s = Releasing t → step s (releaseLock p ok s)
  | step_crash p : step s (at_phase p Crashed s).

(** All instances idle, at any time, and whatever key an earlier run left. *)
Definition initial (s : Shared) : Prop := phases s = ∅.

Definition reachable (s : Shared) : Prop := ∃ s0, initial s0 ∧ rtc step s0 s.

(** ** The invariant *)

(** An instance within its time is the one the key names. *)
Definition held (p : string) (s : Shared) : Prop :=
  ∀ t, phase p s = Running t ∨ phase p s = Releasing t →
    t ≤ clock s ∧ (clock s < t + 1000 * ttlSeconds opts → key s = Some (mkEntry p (t + 1000 * ttlSeconds opts))).

(** Each attempt cost a sleep. *)
Definition paced (p : string) (s : Shared) : Prop :=
  match phase p s with
  | Trying dl n => dl - maxWaitMs opts + Z.of_nat n * retryMs opts ≤ clock s
      ∧ (n = 0%nat ∨ (Z.of_nat n - 1) * retryMs opts ≤ maxWaitMs opts)
  | Refused dl n => (1 ≤ n)%nat ∧ dl - maxWaitMs opts + (Z.of_nat n - 1) * retryMs opts ≤ clock s
      ∧ (n = 1%nat ∨ (Z.of_nat n - 2) * retryMs opts ≤ maxWaitMs opts)
  | Sleeping dl w n => dl - maxWaitMs opts + Z.of_nat n * retryMs opts ≤ w
      ∧ (Z.of_nat n - 1) * retryMs opts ≤ maxWaitMs opts
  | _ => True
  end.

Definition Inv (s : Shared) : Prop := ∀ p, held p s ∧ paced p s.

Lemma redis_phase_at p q h s : phase q (at_phase p h s) = if decide (q = p) then h else phase q s.
Proof.
  unfold phase, at_phase. cbn [phases]. destruct (decide (q = p)) as [->|Hn]; [by rewrite lookup_insert_eq|].
  by rewrite lookup_insert_ne.
Qed.

Lemma set_nx_spec now ttl p k :
  (live now k = None → acquireLock now ttl p k = (true, Some (mkEntry p (now + 1000 * ttl))))
  ∧ (∀ e, live now k = Some e → acquireLock now ttl p k = (false, Some e) ∧ k = Some e ∧ now < e_expires e).
Proof.
  unfold acquireLock. split; [by intros ->|]. intros e E. rewrite E. split; [done|]. unfold live in E.
  destruct k as [e'|]; [|done]. case_decide; [|done]. by injection E as <-.
Qed.

Lemma release_other now p q k e : k = Some (mkEntry p e) → p ≠ q → release now q k = k.
Proof.
  intros -> Hn. unfold release, get, live. case_decide as Hg; [|done]. cbn in Hg. case_decide; [|done].
  cbn in Hg. congruence.
Qed.

(** Only the phase of one instance changes, and it does not enter. *)
Lemma inv_phase p h s : Inv s → (∀ t, h = Running t ∨ h = Releasing t → phase p s = Running t ∨ phase p s = Releasing t) →
  paced p (at_phase p h s) → Inv (at_phase p h s).
Proof.
  intros Hi Hh Hp q. destruct (Hi q) as [Hk Hq]. split.
  - intros t. rewrite redis_phase_at. destruct (decide (q = p)) as [->|]; [|apply Hk]. intros Ht. by apply Hk, Hh.
  - destruct (decide (q = p)) as [->|Hn]; [done|]. unfold paced in *. rewrite redis_phase_at, decide_False by done. done.
Qed.

Lemma inv_time d s : 0 ≤ d → Inv s → Inv (mkShared (key s) (clock s + d) (phases s)).
Proof.
  intros Hd Hi q. destruct (Hi q) as [Hk Hq]. split.
  - intros t Ht. destruct (Hk t Ht) as [? Hkey]. cbn. split; [lia|]. intros ?. apply Hkey. lia.
  - unfold paced in *. change (phase q (mkShared _ _ _)) with (phase q s). cbn [clock].
    destruct (phase q s); try done; lia.
Qed.

(** The lock is taken only when no instance is within its time. *)
Lemma inv_try p dl n s : Inv s → phase p s = Trying dl n → Inv (try_ p dl n s).
Proof.
  intros Hi Hp. destruct (set_nx_spec (clock s) (ttlSeconds opts) p (key s)) as [Hfree Hbusy]. unfold try_.
  destruct (live (clock s) (key s)) as [e|] eqn:E.
  - destruct (Hbusy e eq_refl) as (-> & Hk & _). rewrite <- Hk.
    change (with_key (key s) s) with (mkShared (key s) (clock s) (phases s)).
    replace (mkShared (key s) (clock s) (phases s)) with s by (by destruct s).
    apply inv_phase; [done|by intros t [?|?]|]. unfold paced. rewrite redis_phase_at, decide_True by done. cbn [clock at_phase].
    destruct (Hi p) as [_ Hq]. unfold paced in Hq. rewrite Hp in Hq. lia.
  - rewrite (Hfree eq_refl). intros q. split.
    + intros t. rewrite redis_phase_at. cbn [clock key at_phase with_key]. destruct (decide (q = p)) as [->|Hn].
      { intros [[= <-]|?]; [|done]. split; [lia|done]. }
      intros Ht. change (phase q (with_key _ s)) with (phase q s) in Ht. destruct (Hi q) as [Hk _].
      destruct (Hk t Ht) as [? Hkey]. split; [done|]. intros Hlt. exfalso. rewrite (Hkey Hlt) in E. cbn in E.
      by rewrite decide_True in E.
    + unfold paced. rewrite redis_phase_at. destruct (decide (q = p)); [done|]. apply (Hi q).
Qed.

Lemma inv_release p t ok s : Inv s → phase p s = Releasing t → Inv (releaseLock p ok s).
Proof.
  intros Hi Hp. unfold releaseLock. destruct ok.
  2:{ apply inv_phase; [done|by intros ? [?|?]|]. unfold paced. by rewrite redis_phase_at, decide_True. }
  intros q. split.
  - intros u. rewrite redis_phase_at. destruct (decide (q = p)) as [->|Hn]; [by intros [?|?]|].
    intros Hu. destruct (Hi q) as [Hk _]. destruct (Hk u Hu) as [? Hkey]. split; [done|]. intros Hlt.
    cbn [key at_phase with_key]. pose proof (Hkey Hlt) as E. by rewrite (release_other _ _ _ _ _ E Hn), E.
  - unfold paced. rewrite redis_phase_at. destruct (decide (q = p)); [done|]. apply (Hi q).
Qed.

Lemma inv_refused p dl n s : Inv s → phase p s = Refused dl n → Inv (refused p dl n s).
Proof.
  intros Hi Hp. unfold refused. apply inv_phase; [done|case_decide; by intros ? [?|?]|].
  unfold paced. rewrite redis_phase_at, decide_True by done. destruct (Hi p) as [_ Hq]. unfold paced in Hq. rewrite Hp in Hq.
  case_decide; [done|]. cbn [clock at_phase]. lia.
Qed.

Lemma inv_step s s' : step s s' → Inv s → Inv s'.
Proof.
  destruct 1 as [d Hd|p Hp|p dl n Hp|p dl n Hp|p dl w n Hp Hw|p t Hp|p t ok Hp|p]; intros Hi.
  - by apply inv_time.
  - apply inv_phase; [done|by intros ? [?|?]|]. unfold paced. rewrite redis_phase_at, decide_True by done.
    cbn [clock at_phase]. split; [lia|by left].
  - by apply inv_try.
  - by apply inv_refused.
  - apply inv_phase; [done|by intros ? [?|?]|]. unfold paced. rewrite redis_phase_at, decide_True by done. cbn [clock at_phase].
    destruct (Hi p) as [_ Hq]. unfold paced in Hq. rewrite Hp in Hq. split; [lia|right; lia].
  - apply inv_phase; [done| |unfold paced; by rewrite redis_phase_at, decide_True]. intros u [?|[= <-]]; [done|by left].
  - by eapply inv_release.
  - apply inv_phase; [done|by intros ? [?|?]|unfold paced; by rewrite redis_phase_at, decide_True].
Qed.

Lemma redis_inv s : reachable s → Inv s.
Proof.
  intros (s0 & H0 & Hr). assert (Inv s0) as Hi.
  { intros p. unfold held, paced, phase. rewrite H0, lookup_empty. cbn. split; [by intros t [?|?]|done]. }
  clear H0. induction Hr as [|? ? ? Hs _ IH]; [done|]. by apply IH, (inv_step _ _ Hs).
Qed.

(** ** Mutual exclusion *)

(** [C14] Two instances that are in the section, each for less than the expiry of
    the lock, are the same. The key then names it, and a release by another
    instance leaves it. *)
Theorem redis_lock_exclusive s p q t u : reachable s → phase p s = Running t → phase q s = Running u →
  clock s < t + 1000 * ttlSeconds opts → clock s < u + 1000 * ttlSeconds opts →
  p = q ∧ key s = Some (mkEntry p (t + 1000 * ttlSeconds opts))
  ∧ ∀ r ok, r ≠ p → key (releaseLock r ok s) = key s.
Proof.
  intros Hr Hp Hq Ht Hu. pose proof (redis_inv s Hr) as Hi.
  destruct (Hi p) as [Hkp _]. destruct (Hkp t (or_introl Hp)) as [_ Ep]. specialize (Ep Ht).
  destruct (Hi q) as [Hkq _]. destruct (Hkq u (or_introl Hq)) as [_ Eq]. specialize (Eq Hu).
  split; [congruence|]. split; [done|]. intros r ok Hn. unfold releaseLock. destruct ok; [|done].
  cbn [key at_phase with_key]. by apply (release_other _ _ _ _ _ Ep).
Qed.

(** A waiter sends a bounded number of commands before it gives up or enters. *)
Theorem attempts_bounded s p dl n : reachable s → 0 < retryMs opts → phase p s = Refused dl n →
  Z.of_nat n ≤ 2 + maxWaitMs opts `max` 0 / retryMs opts.
Proof.
  intros Hr Hm Hp. destruct (redis_inv s Hr p) as [_ Hq]. unfold paced in Hq. rewrite Hp in Hq.
  destruct Hq as (_ & _ & [-> | Hn]); [pose proof (Z.div_pos (maxWaitMs opts `max` 0) (retryMs opts)); lia|].
  assert (Z.of_nat n - 2 ≤ maxWaitMs opts `max` 0 / retryMs opts); [|lia].
  apply Z.div_le_lower_bound; lia.
Qed.

(** An instance that holds the lock and crashes delays the others by its expiry at
    most: the first command after it enters. *)
Theorem expired_taken s p dl n : phase p s = Trying dl n →
  (∀ e, key s = Some e → e_expires e ≤ clock s) → phase p (try_ p dl n s) = Running (clock s).
Proof.
  intros Hp Hk. unfold try_. destruct (set_nx_spec (clock s) (ttlSeconds opts) p (key s)) as [Hfree _].
  rewrite Hfree; [by rewrite redis_phase_at, decide_True|]. unfold live. destruct (key s) as [e|]; [|done].
  specialize (Hk e eq_refl). by rewrite decide_False by lia.
Qed.
End protocol.

(** ** A section longer than the expiry *)

(** The lock of the migrations is not renewed: when they take longer than its two
    minutes another instance runs them too. *)
Theorem section_overrun : ∃ s, reachable boot_options s ∧ phase "a" s = Running 0 ∧ phase "b" s = Running 120000.
Proof.
  set (o := boot_options). set (s0 := mkShared None 0 ∅). set (s1 := begin_ o "a" s0). set (s2 := try_ o "a" 120000 0 s1).
  set (s3 := mkShared (key s2) 120000 (phases s2)). set (s4 := begin_ o "b" s3). set (s5 := try_ o "b" 240000 0 s4).
  exists s5. split; [|done]. exists s0. split; [done|].
  eapply rtc_l; [exact (step_begin o s0 "a" eq_refl)|]. eapply rtc_l; [exact (step_try o s1 "a" 120000 0 eq_refl)|].
  eapply rtc_l; [refine (step_time o s2 120000 _); lia|]. eapply rtc_l; [exact (step_begin o s3 "b" eq_refl)|].
  eapply rtc_l; [exact (step_try o s4 "b" 240000 0 eq_refl)|]. apply rtc_refl.
Qed.

(** ** One instance handles a departure *)

Definition OFFLINE_TTL : Z := 10.

(** The instances that hear of a departure, each at its time. *)
Fixpoint elect (l : list (Z * string)) (k : option Entry) : list bool * option Entry :=
  match l with
  | [] => ([], k)
  | (now, owner) :: l =>
      let '(won, k) := acquireLock now OFFLINE_TTL owner k in
      let '(ws, k) := elect l k in (won :: ws, k)
  end.

Lemma elect_busy l e : Forall (λ a, a.1 < e_expires e) l → elect l (Some e) = ((λ _, false) <$> l, Some e).
Proof.
  induction 1 as [|[now p] l Hn _ IH]; [done|]. cbn in Hn. cbn [elect]. unfold acquireLock, live.
  rewrite decide_True by done. rewrite IH. done.
Qed.

(** Of the instances that hear of one departure within ten seconds, the first
    handles it and the others do not. *)
Theorem departure_once now p l k : live now k = None → Forall (λ a, now ≤ a.1 < now + 1000 * OFFLINE_TTL) l →
  (elect ((now, p) :: l) k).1 = true :: ((λ _, false) <$> l).
Proof.
  intros Hk Hl. cbn [elect]. destruct (set_nx_spec now OFFLINE_TTL p k) as [-> _]; [|done].
  rewrite elect_busy; [done|]. eapply Forall_impl; [exact Hl|]. cbn. lia.
Qed.

(** And no instance handles a second departure of the agent within those ten
    seconds: the key is neither released nor tied to the first. *)
Theorem departure_lost t t' p q k : live t k = None → t ≤ t' < t + 1000 * OFFLINE_TTL →
  (acquireLock t' OFFLINE_TTL q (acquireLock t OFFLINE_TTL p k).2).1 = false.
Proof.
  intros Hk Ht. destruct (set_nx_spec t OFFLINE_TTL p k) as [-> _]; [|done]. unfold acquireLock, live. cbn [snd e_expires].
  by rewrite decide_True by lia.
Qed.

(** ** [acquireOrRenewLock]: who sweeps *)

(** The commands of a call; another instance may run between two of them. *)
Inductive Lead := LSet | LGet | LExpire | LResult (leads : bool).

Definition lead_step (now ttl : Z) (owner : string) (h : Lead) (k : option Entry) : Lead * option Entry :=
  match h with
  | LSet => let '(won, k) := acquireLock now ttl owner k in (if won then LResult true else LGet, k)
  | LGet => (if decide (get now k = Some owner) then LExpire else LResult false, k)
  | LExpire => (LResult true, expire now ttl k)
  | LResult b => (LResult b, k)
  end.

(** The call with nothing in between. *)
Definition acquireOrRenewLock (now ttl : Z) (owner : string) (k : option Entry) : Lead * option Entry :=
  let '(h, k) := lead_step now ttl owner LSet k in
  let '(h, k) := lead_step now ttl owner h k in
  lead_step now ttl owner h k.

(** Undisturbed, it elects: an instance leads exactly when the key is free or its
    own, it then holds the key for the full time, and otherwise nothing changes. *)
Theorem renew_elects now ttl p k : 0 < ttl →
  (live now k = None ∨ get now k = Some p →
     acquireOrRenewLock now ttl p k = (LResult true, Some (mkEntry p (now + 1000 * ttl))))
  ∧ (∀ e, live now k = Some e → e_owner e ≠ p → acquireOrRenewLock now ttl p k = (LResult false, k)).
Proof.
  intros Ht. destruct (set_nx_spec now ttl p k) as [Hfree Hbusy]. unfold acquireOrRenewLock. cbn [lead_step].
  destruct (live now k) as [e|] eqn:E.
  - destruct (Hbusy e eq_refl) as (-> & -> & Hlt). clear Hfree Hbusy. cbn [lead_step]. unfold get. rewrite E. cbn [fmap option_fmap option_map].
    split; [intros [?|[= <-]]; [done|]; rewrite decide_True by done; cbn [lead_step]; unfold expire; by rewrite E|].
    intros e' [= <-] Hn. rewrite decide_False; [done|]. congruence.
  - rewrite (Hfree eq_refl). split; [done|]. done.
Qed.

(** A renewal that is overtaken by the expiry leaves two leaders, and the second
    one with the time of the first. *)
Example two_leaders :
  let k0 := Some (mkEntry "a" 90000) in
  let '(h1, k1) := lead_step 89998 90 "a" LSet k0 in
  let '(h2, k2) := lead_step 89999 90 "a" h1 k1 in
  let '(b, k3) := lead_step 90001 90 "b" LSet k2 in
  let '(h3, k4) := lead_step 90002 90 "a" h2 k3 in
  h3 = LResult true ∧ b = LResult true ∧ k4 = Some (mkEntry "b" 180002).
Proof. by vm_compute. Qed.

(** ** A run *)

Definition demo : Shared := try_ boot_options "a" 120000 0 (begin_ boot_options "a" (mkShared None 0 ∅)).

Lemma demo_reachable : reachable boot_options demo.
Proof.
  exists (mkShared None 0 ∅). split; [done|]. eapply rtc_l; [by apply (step_begin _ _ "a")|].
  eapply rtc_l; [by apply (step_try _ _ "a" 120000 0)|]. apply rtc_refl.
Qed.

Lemma redis_lock_exclusive_witness : key demo = Some (mkEntry "a" 120000).
Proof.
  exact (proj1 (proj2 (redis_lock_exclusive boot_options demo "a" "a" 0 0 demo_reachable eq_refl eq_refl eq_refl eq_refl))).
Defined.
End RedisLock.
