(* ===== verification/Setup.v ===== *)
(** * Setting a project up and taking it out again ([cli/init.ts],
    [cli/uninstall.ts])

    [init] adds a server to [.mcp.json] and a section between two marks to
    [CLAUDE.md]; [uninstall] takes them away. Both edit files that belong to the
    user. *)

From S2P Require Import Prelude Paths Announce Schemas Envelope.
Local Open Scope Z_scope.

Module Setup.
Import Envelope Schemas.

Definition newline : ascii := Paths.char 10.
Notation nl := (String newline "").

(** ** [CLAUDE.md] *)

Definition SENTINEL : string := "<!-- mcp-coordinator:coordination-section -->".

(** The text before and after the first occurrence. *)
Fixpoint cut_at (p s : string) : option (string * string) :=
  match strip p s with
  | Some r => Some ("", r)
  | None => match s with
            | EmptyString => None
            | String a s => match cut_at p s with Some (x, y) => Some (String a x, y) | None => None end
            end
  end.

(** [\n?] at the end of the pattern. *)
Definition skip_newline (s : string) : string :=
  match s with String a r => if Ascii.eqb a newline then r else s | EmptyString => s end.

(** [s.replace(/SENTINEL[\s\S]*?SENTINEL\n?/g, by)] for a text [by] without
    dollars; each match takes two marks, so the length of the text is enough. *)
Fixpoint replace_sections (fuel : nat) (by_ s : string) : string :=
  match fuel with
  | O => s
  | S fuel =>
      match cut_at SENTINEL s with
      | None => s
      | Some (x, y) =>
          match cut_at SENTINEL y with
          | None => s
          | Some (_, z) => x +:+ by_ +:+ replace_sections fuel by_ (skip_newline z)
          end
      end
  end.

Definition replace_all (by_ s : string) : string := replace_sections (String.length s) by_ s.

(** [s.replace(/\n{3,}/g, "\n\n")]: [n] newlines came before. *)
Fixpoint collapse (n : nat) (s : string) : string :=
  match s with
  | EmptyString => EmptyString
  | String a r =>
      if Ascii.eqb a newline then (if decide (n < 2)%nat then String a (collapse (S n) r) else collapse n r)
      else String a (collapse 0 r)
  end.

(** [s.replace(/^\n+/, "")] *)
Fixpoint drop_newlines (s : string) : string :=
  match s with String a r => if Ascii.eqb a newline then drop_newlines r else s | EmptyString => s end.

(** [s.replace(/\n+$/, "\n")] *)
Fixpoint one_newline (s : string) : string :=
  match s with
  | EmptyString => EmptyString
  | String a r =>
      if Ascii.eqb a newline then match drop_newlines r with EmptyString => nl | _ => String a (one_newline r) end
      else String a (one_newline r)
  end.

Definition tidied (cleaned : string) : string := one_newline (drop_newlines (collapse 0 cleaned)).

Section template.
(** [CLAUDE_MD_TEMPLATE] without its final newline. *)
Context (template : string).

Definition sectionBody : string := SENTINEL +:+ nl +:+ template +:+ nl +:+ SENTINEL +:+ nl.

(** What [init --write-claude-md] writes. *)
Definition init_claude (file : option string) : string :=
  match file with
  | Some existing =>
      if includes SENTINEL existing then replace_all sectionBody existing
      else existing +:+ (if endsWith nl existing then nl else nl +:+ nl) +:+ sectionBody
  | None => "# CLAUDE.md" +:+ nl +:+ nl +:+ sectionBody
  end.

(** [uninstall --claude-md]: the file afterwards. *)
Definition uninstall_claude (file : option string) : option string :=
  match file with
  | None => None
  | Some content =>
      if includes SENTINEL content then
        let t := tidied (replace_all "" content) in
        if String.eqb (PlanQuality.trim t) "" || String.eqb (PlanQuality.trim t) "# CLAUDE.md" then None else Some t
      else Some content
  end.
End template.

(** ** [.mcp.json] *)

(** A file: absent, not JSON, or a value. *)
Inductive JsonFile := Absent | Invalid | Value (v : json).

Section mcp.
(** The members of a string that is spread, one per UTF-16 unit; and whether a
    number is not zero, which the values here do not record. *)
Context (units : string → jsmap json) (nonzero : bool).

(** [{ ...v }] *)
Definition spread (v : json) : jsmap json :=
  match v with
  | VObj l => l
  | VArr l => imap (λ i x, (pretty i, x)) l
  | VStr s => units s
  | _ => []
  end.

Definition coordinator (url : string) : json := VObj [("type", VStr "http"); ("url", VStr url)].

Definition snippet (url : string) : json := VObj [("mcpServers", VObj [("coordinator", coordinator url)])].

Definition nullish_obj (o : option json) : json := match o with Some VNull | None => VObj [] | Some v => v end.

(** What [init --write-mcp-config] writes. Reading a property of [null] throws. *)
Definition init_mcp (url : string) (file : JsonFile) : json :=
  match file with
  | Absent | Invalid | Value VNull => snippet url
  | Value existing =>
      VObj (map_set "mcpServers"
              (VObj (map_set "coordinator" (coordinator url) (spread (nullish_obj (field "mcpServers" existing)))))
              (spread existing))
  end.

Definition delete_key (k : string) (m : jsmap json) : jsmap json := filter (λ p, p.1 ≠ k) m.

(** The truth of a value, and [k in v]: [None] is the exception. *)
Definition truthy_json (v : json) : bool :=
  match v with
  | VNull => false
  | VBool b => b
  | VNum => nonzero
  | VStr s => negb (String.eqb s "")
  | VArr _ | VObj _ => true
  end.

Definition has_key (k : string) (v : json) : option bool :=
  match v with
  | VObj l => Some (bool_decide (is_Some (map_get k l)))
  | VArr _ => Some false
  | _ => None
  end.

Inductive Outcome := Untouched | Removed | Rewritten (v : json) | Failed.

Definition remove_server (l servers : jsmap json) : Outcome :=
  let servers := delete_key "coordinator" servers in
  let l := if decide (servers = []) then delete_key "mcpServers" l else map_set "mcpServers" (VObj servers) l in
  if decide (l = []) then Removed else Rewritten (VObj l).

(** [uninstall --mcp-config] *)
Definition uninstall_mcp (file : JsonFile) : Outcome :=
  match file with
  | Absent => Untouched
  | Invalid | Value VNull => Failed
  | Value v =>
      match field "mcpServers" v with
      | None => Untouched
      | Some servers =>
          if truthy_json servers then
            match has_key "coordinator" servers with
            | None => Failed
            | Some false => Untouched
            | Some true => match v, servers with
                           | VObj l, VObj servers => remove_server l servers
                           | _, _ => Untouched
                           end
            end
          else Untouched
      end
  end.

(** The file after an outcome. *)
Definition apply_outcome (o : Outcome) (file : JsonFile) : JsonFile :=
  match o with Untouched | Failed => file | Removed => Absent | Rewritten v => Value v end.
End mcp.
End Setup.

(** * [uninstall] undoes [init]

    What [init] adds to a file of the user [uninstall] takes away again, and
    nothing else, for files that are tidy; for the others the tidying shows. *)

From S2P Require Import Prelude Paths Announce Schemas Envelope.
Local Open Scope Z_scope.

Module SetupSafety.
Import Envelope Schemas Setup.

(** ** Marks and lines *)

Lemma app_cons a s t : String a s +:+ t = String a (s +:+ t).
Proof. done. Qed.

Lemma strip_app p r : strip p (p +:+ r) = Some r.
Proof. induction p as [|a p IH]; [done|]. rewrite app_cons. cbn [strip]. by rewrite Ascii.eqb_refl. Qed.

(** A pattern of one line is not found across a newline. *)
Lemma strip_line p s b : has_char newline p = false →
  strip p (s +:+ String newline b) = (λ r, r +:+ String newline b) <$> strip p s.
Proof.
  revert s. induction p as [|a p IH]; intros s; [done|]. intros [Ha Hp]%orb_false_iff. destruct s as [|c s].
  - change ("" +:+ ?x) with x. cbn [strip]. by rewrite Ha.
  - rewrite app_cons. cbn [strip]. destruct (Ascii.eqb a c); [by apply IH|done].
Qed.

Lemma cut_line p a b : p ≠ "" → has_char newline p = false →
  cut_at p (a +:+ String newline b)
  = match cut_at p a with
    | Some (x, y) => Some (x, y +:+ String newline b)
    | None => match cut_at p b with Some (x, y) => Some (a +:+ String newline x, y) | None => None end
    end.
Proof.
  intros Hne Hp. assert (∀ s, cut_at p s = match strip p s with
    | Some r => Some ("", r)
    | None => match s with
              | EmptyString => None
              | String a s => match cut_at p s with Some (x, y) => Some (String a x, y) | None => None end
              end
    end) as Hc by (by intros []).
  induction a as [|c a IH].
  - rewrite (Hc ("" +:+ _)), strip_line by done. rewrite (Hc ""). destruct p as [|d p]; [done|]. done.
  - rewrite (Hc (String c a +:+ _)), strip_line, (Hc (String c a)) by done.
    destruct (strip p (String c a)); [done|]. rewrite app_cons. cbn [fmap option_fmap option_map]. rewrite IH.
    destruct (cut_at p a) as [[x y]|]; [done|]. by destruct (cut_at p b) as [[x y]|].
Qed.

Lemma cut_none p s : includes p s = false → cut_at p s = None.
Proof.
  assert (∀ s, String.prefix p s = false → strip p s = None) as Hpre.
  { clear s. induction p as [|a p IH]; intros s; [by destruct s|]. destruct s as [|c s]; [done|]. cbn [String.prefix strip]. destruct (ascii_dec a c) as [->|Hn].
    - rewrite Ascii.eqb_refl. apply IH.
    - intros _. rewrite (proj2 (Ascii.eqb_neq a c)) by done. done. }
  induction s as [|a s IH]; cbn [includes cut_at]; intros [H1 H2]%orb_false_iff; rewrite Hpre by done; [done|].
  by rewrite IH.
Qed.

Lemma includes_app p x y : includes p (x +:+ p +:+ y) = true.
Proof.
  induction x as [|a x IH].
  - assert (startsWith p (p +:+ y) = true) as E by (apply Paths.startsWith_spec; by exists y).
    unfold startsWith in E. change ("" +:+ ?x) with x. destruct (p +:+ y); cbn [includes] in *; by rewrite E.
  - rewrite app_cons. cbn [includes]. rewrite IH. apply orb_true_r.
Qed.

Lemma sentinel_line : SENTINEL ≠ "" ∧ has_char newline SENTINEL = false.
Proof. by vm_compute. Qed.

Section section.
Context (template : string) (Ht : includes SENTINEL template = false).

Notation body := (sectionBody template).

Lemma app_nl s t : s +:+ nl +:+ t = s +:+ String newline t.
Proof. done. Qed.

(** The section is found where [init] put it, and replaced whole. *)
Lemma replace_section s t by_ : includes SENTINEL s = false → t = "" ∨ t = nl →
  replace_all by_ (s +:+ nl +:+ t +:+ body) = s +:+ nl +:+ t +:+ by_.
Proof.
  intros Hs Hn. destruct sentinel_line as [Hne Hl]. unfold replace_all.
  destruct (String.length (s +:+ nl +:+ t +:+ body)) as [|fuel] eqn:El.
  { rewrite !Paths.length_str_app in El. cbn in El. lia. }
  cbn [replace_sections]. clear El. rewrite app_nl, cut_line, (cut_none _ s) by done.
  set (rest := nl +:+ template +:+ nl +:+ SENTINEL +:+ nl).
  assert (cut_at SENTINEL (t +:+ body) = Some (t, rest)) as ->.
  { assert (cut_at SENTINEL body = Some ("", rest)) as E.
    { unfold sectionBody. fold rest. pose proof (strip_app SENTINEL rest) as Es.
      destruct (SENTINEL +:+ rest) eqn:Eb; cbn [cut_at]; by rewrite Es. }
    destruct Hn as [->| ->]; [exact E|]. change (nl +:+ body) with ("" +:+ String newline body). rewrite cut_line by done.
    by rewrite E. }
  assert (cut_at SENTINEL rest = Some (nl +:+ template +:+ nl, nl)) as ->.
  { unfold rest. change (nl +:+ ?x) with ("" +:+ String newline x) at 1. rewrite cut_line by done.
    change (cut_at SENTINEL "") with (@None (string * string)). rewrite app_nl, cut_line, (cut_none _ template) by done.
    reflexivity. }
  change (skip_newline nl) with "". assert (replace_sections fuel by_ "" = "") as -> by (by destruct fuel).
  by rewrite str_app_nil_r, str_app_assoc.
Qed.

Lemma has_section s t : includes SENTINEL (s +:+ nl +:+ t +:+ body) = true.
Proof.
  unfold sectionBody. rewrite <- (str_app_assoc s nl), <- (str_app_assoc (s +:+ nl) t). apply includes_app.
Qed.

(** What [init] appends, and the two passes over it. *)
Lemma init_shape s : includes SENTINEL s = false → ∃ t, (t = "" ∨ t = nl)
  ∧ (endsWith nl s = true → t = "") ∧ init_claude template (Some s) = s +:+ nl +:+ t +:+ body.
Proof.
  intros Hs. unfold init_claude. rewrite Hs. destruct (endsWith nl s).
  - exists "". split; [by left|done].
  - exists nl. split; [by right|]. split; [done|]. by rewrite str_app_assoc.
Qed.
End section.

(** ** Tidying *)

(** No run of three newlines, after [n] of them. *)
Fixpoint no_triple (n : nat) (s : string) : bool :=
  match s with
  | EmptyString => true
  | String a r => if Ascii.eqb a newline then bool_decide (n < 2)%nat && no_triple (S n) r else no_triple 0 r
  end.

Lemma collapse_id n s : no_triple n s = true → collapse n s = s.
Proof.
  revert n. induction s as [|a s IH]; intros n; cbn [no_triple collapse]; [done|].
  destruct (Ascii.eqb a newline); [|intros Hs; by rewrite IH].
  intros [Hn%bool_decide_eq_true_1 Hs]%andb_prop. rewrite decide_True by done. by rewrite IH.
Qed.

Lemma drop_newlines_char v c r : Ascii.eqb c newline = false → drop_newlines (v +:+ String c r) ≠ "".
Proof.
  intros Hc. induction v as [|a v IH].
  - change ("" +:+ ?x) with x. cbn [drop_newlines]. by rewrite Hc.
  - rewrite app_cons. cbn [drop_newlines]. by destruct (Ascii.eqb a newline).
Qed.

Lemma one_newline_end v c : Ascii.eqb c newline = false →
  one_newline (v +:+ String c (String newline nl)) = v +:+ String c nl.
Proof.
  intros Hc. induction v as [|a v IH].
  - change ("" +:+ ?x) with x. cbn [one_newline]. by rewrite Hc.
  - rewrite !app_cons. cbn [one_newline]. rewrite IH. destruct (Ascii.eqb a newline); [|done].
    pose proof (drop_newlines_char v c (String newline nl) Hc). by destruct (drop_newlines _).
Qed.

(** A tidy text: a last line that is not empty and its newline, no empty line
    first, and never two empty lines in a row. *)
Definition neat (s : string) : Prop :=
  ∃ v c, s = v +:+ String c nl ∧ Ascii.eqb c newline = false ∧ drop_newlines s = s ∧ no_triple 0 (s +:+ nl) = true.

Lemma tidied_neat s : neat s → tidied (s +:+ nl) = s.
Proof.
  intros (v & c & -> & Hc & Hd & Hn). unfold tidied. rewrite (collapse_id _ _ Hn).
  assert ((v +:+ String c nl) +:+ nl = v +:+ String c (String newline nl)) as E by (by rewrite str_app_assoc).
  assert (drop_newlines ((v +:+ String c nl) +:+ nl) = (v +:+ String c nl) +:+ nl) as ->; [|rewrite E; by apply one_newline_end].
  clear E Hn. destruct v as [|a v].
  { change ("" +:+ ?x) with x. rewrite app_cons. cbn [drop_newlines]. by rewrite Hc. }
  rewrite !app_cons in Hd |- *. cbn [drop_newlines] in Hd |- *. destruct (Ascii.eqb a newline) eqn:Ea.
  2:{ rewrite app_cons. cbn [drop_newlines]. by rewrite Ea. }
  exfalso. apply Ascii.eqb_eq in Ea. subst a.
  assert (∀ x, (String.length (drop_newlines x) ≤ String.length x)%nat) as Hlen.
  { clear. induction x as [|b x IH]; [done|]. cbn [drop_newlines]. destruct (Ascii.eqb b newline); cbn; lia. }
  specialize (Hlen (v +:+ String c nl)). rewrite Hd in Hlen. cbn in Hlen. lia.
Qed.

Lemma neat_ends s : neat s → endsWith nl s = true.
Proof.
  intros (v & c & -> & _). unfold endsWith. change (String.length nl) with 1%nat. apply andb_true_intro. split.
  - apply Nat.leb_le. rewrite Paths.length_str_app. cbn. lia.
  - apply String.eqb_eq. rewrite Paths.length_str_app. change (String.length (String c nl)) with 2%nat.
    replace (String.length v + 2 - 1)%nat with (S (String.length v)) by lia. induction v as [|a v IH]; [done|]. exact IH.
Qed.

(** A tidy [CLAUDE.md] without a section of ours comes back unchanged when
    [init] and then [uninstall] have run, a file that [init] created is removed,
    and a second [init] changes nothing. *)
Theorem claude_round_trip template : includes SENTINEL template = false →
  (∀ s, neat s → includes SENTINEL s = false → PlanQuality.trim s ≠ "" → PlanQuality.trim s ≠ "# CLAUDE.md" →
     uninstall_claude (Some (init_claude template (Some s))) = Some s)
  ∧ uninstall_claude (Some (init_claude template None)) = None
  ∧ ∀ s, includes SENTINEL s = false →
      init_claude template (Some (init_claude template (Some s))) = init_claude template (Some s).
Proof.
  intros Ht. split_and!.
  - intros s Hn Hs H1 H2. destruct (init_shape template s Hs) as (t & Hor & Ht0 & ->).
    rewrite (Ht0 (neat_ends s Hn)). unfold uninstall_claude. rewrite has_section, replace_section by auto.
    change ("" +:+ "") with "". rewrite str_app_nil_r. rewrite (tidied_neat s Hn).
    rewrite (proj2 (String.eqb_neq _ _) H1), (proj2 (String.eqb_neq _ _) H2). done.
  - unfold uninstall_claude, init_claude.
    change ("# CLAUDE.md" +:+ nl +:+ nl +:+ ?x) with ("# CLAUDE.md" +:+ nl +:+ nl +:+ x).
    rewrite (has_section template "# CLAUDE.md" nl), replace_section by auto. by vm_compute.
  - intros s Hs. destruct (init_shape template s Hs) as (t & Hor & _ & ->). unfold init_claude at 1.
    rewrite has_section. by apply replace_section.
Qed.

(** ** [.mcp.json] *)

Lemma map_get_None {A} k (m : jsmap A) : map_get k m = None → ∀ p, p ∈ m → p.1 ≠ k.
Proof.
  unfold map_get. destruct (select_one _ m) eqn:E; [done|]. intros _. by rewrite select_one_None in E.
Qed.

Lemma map_set_new {A} k (v : A) m : map_get k m = None → map_set k v m = m ++ [(k, v)].
Proof. intros E. unfold map_set. by rewrite E. Qed.

Lemma delete_new k v m : map_get k m = None → delete_key k (m ++ [(k, v)]) = m.
Proof.
  intros E. unfold delete_key, jsmap in *. rewrite filter_app, filter_cons_False, filter_nil, app_nil_r by (cbn; tauto).
  pose proof (map_get_None k m E) as Hm. clear E. induction m as [|p m IH]; [done|].
  rewrite filter_cons_True by (apply Hm; left). f_equal. apply IH. intros q Hq. apply Hm. by right.
Qed.

(** Keys of an object are unique. *)
Lemma map_set_back {A} k (v w : A) (m : jsmap A) : NoDup (fst <$> (m : list (string * A))) → map_get k m = Some v →
  map_set k v (map_set k w m) = m.
Proof.
  intros Hn E. unfold map_set at 1. rewrite map_get_set, decide_True by done. unfold map_set. rewrite E.
  rewrite update_where_twice by done. apply update_where_id. intros [k' x] Hin Hk. cbn in *. subst k'. f_equal.
  unfold map_get in E. destruct (select_one (λ p, p.1 = k) m) as [[k' y]|] eqn:Es; [|done]. injection E as <-.
  apply select_one_Some in Es as [Hk Hin']. cbn in Hk. subst k'.
  assert ((k, x) = (k, y)) as E by (by eapply (NoDup_key_eq fst)). congruence.
Qed.

(** A document that [init] may change: an object that is not empty, whose servers,
    if it names them, are an object with some server, none of them ours. *)
Definition foreign (l : jsmap json) : Prop :=
  l ≠ [] ∧ NoDup (fst <$> (l : list (string * json)))
  ∧ match map_get "mcpServers" l with
    | None => True
    | Some (VObj servers) => servers ≠ [] ∧ map_get "coordinator" servers = None
    | Some _ => False
    end.

(** [uninstall] after [init] gives back the document of [.mcp.json], with its
    members in their places; a file that [init] created is removed; and [init]
    replaces no server but its own. *)
Theorem mcp_round_trip units nonzero url :
  (∀ l, foreign l → let v := init_mcp units url (Value (VObj l)) in
     apply_outcome (uninstall_mcp nonzero (Value v)) (Value v) = Value (VObj l)
     ∧ (∀ name, name ≠ "coordinator" →
          map_get name (spread units (nullish_obj (field "mcpServers" v)))
          = map_get name (spread units (nullish_obj (map_get "mcpServers" l))))
     ∧ map_get "coordinator" (spread units (nullish_obj (field "mcpServers" v))) = Some (coordinator url))
  ∧ uninstall_mcp nonzero (Value (init_mcp units url Absent)) = Removed.
Proof.
  split; [|done]. intros l (Hl & Hn & Hm). cbv zeta. cbn [init_mcp spread field].
  rewrite map_get_set, decide_True by done. cbn [nullish_obj spread].
  assert (∀ m, map_get "coordinator" (map_set "coordinator" (coordinator url) m) = Some (coordinator url)) as Hc
    by (intros m; by rewrite map_get_set, decide_True).
  split; [|split; [intros name Hname; by rewrite map_get_set, decide_False|apply Hc]].
  cbn [uninstall_mcp field]. rewrite map_get_set, decide_True by done. cbn [truthy_json has_key].
  rewrite Hc. cbn [bool_decide]. rewrite bool_decide_eq_true_2 by done. unfold remove_server.
  destruct (map_get "mcpServers" l) as [[| | | | |servers]|] eqn:E; try done.
  - destruct Hm as [Hs Hnone]. cbn [nullish_obj spread]. rewrite (map_set_new "coordinator"), delete_new by done.
    cbv zeta. rewrite (decide_False (P := servers = [])) by done. rewrite map_set_back by done. by rewrite decide_False.
  - cbn [nullish_obj spread]. change (map_set "coordinator" (coordinator url) []) with [("coordinator", coordinator url)].
    cbv zeta. rewrite (decide_True (P := delete_key "coordinator" _ = [])) by done.
    rewrite (map_set_new "mcpServers"), delete_new by done. by rewrite decide_False.
Qed.

(** ** Where the tidying shows *)

(** Empty lines of the user that have nothing to do with the section are taken. *)
Example tidying_shows template : includes SENTINEL template = false →
  let s := "a" +:+ nl +:+ nl +:+ nl +:+ nl +:+ "b" +:+ nl in
  uninstall_claude (Some (init_claude template (Some s))) = Some ("a" +:+ nl +:+ nl +:+ "b" +:+ nl).
Proof.
  intros Ht s. destruct (init_shape template s) as (t & Hor & Ht0 & ->); [by vm_compute|].
  rewrite Ht0 by (by vm_compute). unfold uninstall_claude. rewrite has_section, replace_section by auto. by vm_compute.
Qed.

(** A text that did not end with a newline ends with one. *)
Example newline_stays template : includes SENTINEL template = false →
  uninstall_claude (Some (init_claude template (Some "a"))) = Some ("a" +:+ nl).
Proof.
  intros Ht. destruct (init_shape template "a") as (t & [->| ->] & _ & ->); [by vm_compute| |];
    unfold uninstall_claude; rewrite has_section, replace_section by auto; by vm_compute.
Qed.

(** A mark that is left alone is neither completed nor removed. *)
Example lone_mark template by_ : init_claude template (Some (SENTINEL +:+ by_)) = SENTINEL +:+ by_ ∨ includes SENTINEL by_ = true.
Proof.
  destruct (includes SENTINEL by_) eqn:E; [by right|left]. unfold init_claude.
  rewrite (includes_app SENTINEL "" by_ : includes SENTINEL (SENTINEL +:+ by_) = true). unfold replace_all.
  destruct (String.length _) as [|fuel]; [done|]. cbn [replace_sections].
  assert (cut_at SENTINEL (SENTINEL +:+ by_) = Some ("", by_)) as ->; [|by rewrite cut_none].
  pose proof (strip_app SENTINEL by_) as Es. destruct (SENTINEL +:+ by_) eqn:Eb; cbn [cut_at]; by rewrite Es.
Qed.

Definition demo_template : string := "## Coordination".

Lemma claude_round_trip_witness :
  uninstall_claude (Some (init_claude demo_template (Some ("# Notes" +:+ nl)))) = Some ("# Notes" +:+ nl).
Proof.
  refine (proj1 (claude_round_trip demo_template eq_refl) ("# Notes" +:+ nl) _ eq_refl _ _); [|by vm_compute..].
  exists "# Note", "s"%char. by vm_compute.
Defined.

Lemma mcp_round_trip_witness :
  let v := init_mcp (λ _, []) "u" (Value (VObj [("mcpServers", VObj [("other", VNum)])])) in
  apply_outcome (uninstall_mcp true (Value v)) (Value v) = Value (VObj [("mcpServers", VObj [("other", VNum)])]).
Proof.
  refine (proj1 (proj1 (mcp_round_trip (λ _, []) true "u") [("mcpServers", VObj [("other", VNum)])] _)).
  split; [done|]. split; [|by vm_compute]. by apply NoDup_singleton.
Defined.
End SetupSafety.

(** * The wizard for logins ([init phase2] of [cli/init.ts])

    It asks for the settings of a server with logins, checks them by a trial start
    on a database in memory, and only then writes them to a file. *)

From S2P Require Import Prelude Paths Announce AuditChain AuthState Rotation Envelope MasterKey OrgsGuard Phase2Boot.
Local Open Scope Z_scope.

Module SetupWizard.
Import Phase2Boot Setup.

(** ** Answers *)

(** What the operator will type and confirm, in order. *)
Record Script := mkScript { prompts : list string; confirms : list bool }.

(** A run that does not go on: it exits with 1, or waits for an answer. *)
Inductive Stop := Exited | Waiting.

Definition Wizard (A : Type) : Type := Script → (Stop + A) * Script.

Definition wret {A} (a : A) : Wizard A := λ s, (inr a, s).
Definition wexit {A} : Wizard A := λ s, (inl Exited, s).
Definition wbind {A B} (m : Wizard A) (k : A → Wizard B) : Wizard B := λ s,
  match m s with (inl o, s') => (inl o, s') | (inr a, s') => k a s' end.

Declare Scope wizard_scope.
Delimit Scope wizard_scope with wizard.
Notation "'ask' x ':=' m 'in' k" := (wbind m (λ x, k))
  (at level 200, x name, m at level 100, k at level 200, right associativity) : wizard_scope.
Local Open Scope wizard_scope.

Definition prompt : Wizard string := λ s,
  match prompts s with a :: l => (inr a, mkScript l (confirms s)) | [] => (inl Waiting, s) end.
Definition confirm : Wizard bool := λ s,
  match confirms s with b :: l => (inr b, mkScript (prompts s) l) | [] => (inl Waiting, s) end.

Definition PUBLIC_URL_MAX_RETRIES : nat := 3.

Section wizard.
Context (URL : string → option Url).

(** [None] is the absence of an error. *)
Inductive UrlError := EmptyUrl | NotAUrl | BadScheme.

Definition validatePublicUrlString (url : string) : option UrlError :=
  if String.eqb (PlanQuality.trim url) "" then Some EmptyUrl
  else match URL url with
       | None => Some NotAUrl
       | Some parsed =>
           if negb (String.eqb (protocol parsed) "http:") && negb (String.eqb (protocol parsed) "https:")
           then Some BadScheme else None
       end.

Definition isInsecurePublicUrl (url : string) : bool :=
  match URL url with
  | None => false
  | Some parsed =>
      String.eqb (protocol parsed) "http:"
      && negb (String.eqb (hostname parsed) "localhost" || String.eqb (hostname parsed) "127.0.0.1"
               || String.eqb (hostname parsed) "::1" || String.eqb (hostname parsed) "[::1]")
  end.

Fixpoint prompt_url (attempts : nat) : Wizard string :=
  match attempts with
  | O => wexit
  | S attempts =>
      ask raw := prompt in
      match validatePublicUrlString raw with
      | Some _ => prompt_url attempts
      | None =>
          if isInsecurePublicUrl raw then ask ok := confirm in if ok : bool then wret raw else prompt_url attempts
          else wret raw
      end
  end.

Definition promptForValidPublicUrl : Wizard string := prompt_url PUBLIC_URL_MAX_RETRIES.

Fixpoint prompt_text (attempts : nat) : Wizard string :=
  match attempts with
  | O => wexit
  | S attempts =>
      ask val := prompt in
      if String.eqb (PlanQuality.trim val) "" then prompt_text attempts else wret (PlanQuality.trim val)
  end.

Definition promptNonEmpty : Wizard string := prompt_text PUBLIC_URL_MAX_RETRIES.

(** ** Providers *)

Record Options := mkOptions {
  nonInteractive : bool;
  o_publicUrl : option string;
  githubClientId : option string;
  githubClientSecret : option string;
  o_githubOrg : option string;
  googleClientId : option string;
  googleClientSecret : option string;
  o_googleWorkspaceDomain : option string
}.

Notation Vars := (jsmap string).

Definition trim_opt (o : option string) : string := default "" (PlanQuality.trim <$> o).

(** Two texts that must be given together. *)
Definition both (id secret : string) : option (option (string * string)) :=
  match bool_decide (id = ""), bool_decide (secret = "") with
  | true, true => Some None
  | false, false => Some (Some (id, secret))
  | _, _ => None
  end.

Definition domain_var (domain : string) : Vars :=
  if String.eqb domain "" then [] else [("COORDINATOR_GOOGLE_WORKSPACE_DOMAIN", domain)].

Definition collectProvidersNonInteractive (opts : Options) : option Vars :=
  github ← both (trim_opt (githubClientId opts)) (trim_opt (githubClientSecret opts));
  google ← both (trim_opt (googleClientId opts)) (trim_opt (googleClientSecret opts));
  if decide (github = None ∧ google = None) then None
  else
    gh ← match github with
         | None => Some []
         | Some (id, secret) =>
             let org := trim_opt (o_githubOrg opts) in
             if String.eqb org "" then None
             else Some [("COORDINATOR_GITHUB_CLIENT_ID", id); ("COORDINATOR_GITHUB_CLIENT_SECRET", secret);
                        ("COORDINATOR_GITHUB_ORG", org)]
         end;
    Some (gh ++ match google with
                | None => []
                | Some (id, secret) => [("COORDINATOR_GOOGLE_CLIENT_ID", id); ("COORDINATOR_GOOGLE_CLIENT_SECRET", secret)]
                                         ++ domain_var (trim_opt (o_googleWorkspaceDomain opts))
                end).

Definition collectGitHub : Wizard Vars :=
  ask id := promptNonEmpty in
  ask secret := promptNonEmpty in
  ask org := promptNonEmpty in
  wret [("COORDINATOR_GITHUB_CLIENT_ID", id); ("COORDINATOR_GITHUB_CLIENT_SECRET", secret); ("COORDINATOR_GITHUB_ORG", org)].

Definition collectGoogle : Wizard Vars :=
  ask id := promptNonEmpty in
  ask secret := promptNonEmpty in
  ask domain := prompt in
  wret ([("COORDINATOR_GOOGLE_CLIENT_ID", id); ("COORDINATOR_GOOGLE_CLIENT_SECRET", secret)]
          ++ domain_var (PlanQuality.trim domain)).

Definition collectProvidersInteractive : Wizard Vars :=
  ask useGitHub := confirm in
  ask gh := (if useGitHub : bool then collectGitHub else wret []) in
  ask useGoogle := confirm in
  ask google := (if useGoogle : bool then collectGoogle else wret []) in
  if negb useGitHub && negb useGoogle then wexit else wret (gh ++ google).

(** ** The run *)

(** [Object.entries(env).map(([k, v]) => `${k}=${v}`).join("\n") + "\n"] *)
Definition contents (env : Vars) : string := join nl ((λ p, p.1 +:+ "=" +:+ p.2) <$> env) +:+ nl.

(** The file is not there, or the operator agrees to overwrite it. *)
Definition may_write (opts : Options) (fileExists : bool) : Wizard unit :=
  if fileExists then
    if nonInteractive opts then wexit else ask overwrite := confirm in if overwrite : bool then wret tt else wexit
  else wret tt.

Definition resolvePublicUrl (opts : Options) : Wizard string :=
  if nonInteractive opts then
    let publicUrl := default "" (o_publicUrl opts) in
    match validatePublicUrlString publicUrl with Some _ => wexit | None => wret publicUrl end
  else promptForValidPublicUrl.

(** [validate] is [io.validateConfig]: an error, or nothing. The result is what is
    written; nothing is written otherwise. *)
Definition runInitPhase2 {E} (validate : Vars → option E) (generateJwtSecret : string) (opts : Options) (fileExists : bool)
    : Wizard (Vars * string) :=
  ask _ := may_write opts fileExists in
  ask publicUrl := resolvePublicUrl opts in
  ask providers := (if nonInteractive opts
                    then match collectProvidersNonInteractive opts with Some v => wret v | None => wexit end
                    else collectProvidersInteractive) in
  let env := ([("COORDINATOR_OAUTH_ENABLED", "true"); ("COORDINATOR_PUBLIC_URL", publicUrl)] ++ providers
                ++ [("COORDINATOR_JWT_SECRET", generateJwtSecret)])%list in
  match validate env with
  | Some _ => wexit
  | None => wret (env, contents env)
  end.

(** ** [defaultValidateConfig] *)

(** The tables of the trial and their columns. *)
Definition trial_schema : list (string * list string) :=
  [("orgs", ["id"; "name"; "allowlist_github_org"]);
   ("users", ["id"; "email"; "token_epoch"]);
   ("audit_log", ["id"; "action"; "metadata_json"; "created_at"])].

Inductive TrialError := BootFailed (e : BootError) | NoSuchColumn (table : string).

(** Preparing a statement that names these columns. *)
Definition prepare (schema : list (string * list string)) (table : string) (columns : list string) : TrialError + unit :=
  if decide (columns ⊆ default [] (map_get table schema)) then inr tt else inl (NoSuchColumn table).

Definition tbind {A B} (m : TrialError + A) (k : A → TrialError + B) : TrialError + B :=
  match m with inl e => inl e | inr a => k a end.

Definition lift {A} (m : BootError + A) : TrialError + A := match m with inl e => inl (BootFailed e) | inr a => inr a end.

Definition QUEUE_COLUMNS : list string :=
  ["actor_user_id"; "actor_org_id"; "action"; "target"; "actor_ip"; "actor_user_agent"; "request_id"; "outcome";
   "metadata_json"; "prev_hash"; "row_hash"].

(** [bootPhase2] on an empty database of the schema, up to the guards of the
    encryption: each statement, where its columns are. *)
Definition trial (schema : list (string * list string)) (env : string → option string) : TrialError + unit :=
  tbind (lift (readSettings URL env)) (λ st,
  tbind (match OrgsGuard.loadEncryptionKey (boot_env env) with
         | inl e => inl (BootFailed (MasterKeyError e)) | inr _ => inr tt end) (λ _,
  tbind (prepare schema "audit_log" ["created_at"]) (λ _,
  tbind (lift (composeComponents URL env st)) (λ c,
  tbind (match githubOrg st with Some _ => prepare schema "orgs" ["id"; "name"; "allowlist_github_org"] | None => inr tt end) (λ _,
  tbind (match googleWorkspaceDomain c with Some _ => prepare schema "orgs" ["id"; "name"; "allowlist_idp_org_id"]
         | None => inr tt end) (λ _,
  tbind (prepare schema "audit_log" QUEUE_COLUMNS) (λ _,
  prepare schema "users" ["idp_access_token"; "idp_refresh_token"]))))))).

(** The variables of the file over those of the process. *)
Definition overlay (process : string → option string) (env : Vars) : string → option string := λ k,
  match map_get k env with Some v => Some v | None => process k end.

Definition defaultValidateConfig (process : string → option string) (env : Vars) : option TrialError :=
  match trial trial_schema (overlay process env) with inl e => Some e | inr _ => None end.

(** ** What is written *)

Lemma wbind_ok {A B} (m : Wizard A) (k : A → Wizard B) s b s' : wbind m k s = (inr b, s') →
  ∃ a s1, m s = (inr a, s1) ∧ k a s1 = (inr b, s').
Proof. unfold wbind. destruct (m s) as [[o|a] s1]; [done|]. by exists a, s1. Qed.

Lemma wret_ok {A} (a b : A) s s' : wret a s = (inr b, s') → a = b ∧ s = s'.
Proof. by intros [= -> ->]. Qed.

Lemma prompt_url_ok n s url s' : prompt_url n s = (inr url, s') → validatePublicUrlString url = None.
Proof.
  revert s. induction n as [|n IH]; intros s; [done|]. cbn [prompt_url]. intros (raw & s1 & _ & Hk)%wbind_ok.
  destruct (validatePublicUrlString raw) eqn:E; [by apply IH in Hk|].
  destruct (isInsecurePublicUrl raw); [|by apply wret_ok in Hk as [<- _]].
  apply wbind_ok in Hk as ([] & s2 & _ & Hk); [by apply wret_ok in Hk as [<- _]|by apply IH in Hk].
Qed.

Lemma prompt_text_ok n s v s' : prompt_text n s = (inr v, s') → v ≠ "".
Proof.
  revert s. induction n as [|n IH]; intros s; [done|]. cbn [prompt_text]. intros (raw & s1 & _ & Hk)%wbind_ok.
  destruct (String.eqb _ "") eqn:E; [by apply IH in Hk|]. apply wret_ok in Hk as [<- _]. by apply String.eqb_neq.
Qed.

(** The providers that a file configures, each with all it needs. *)
Definition github_vars (v : Vars) : Prop := ∃ id secret org, id ≠ "" ∧ secret ≠ "" ∧ org ≠ ""
  ∧ v = [("COORDINATOR_GITHUB_CLIENT_ID", id); ("COORDINATOR_GITHUB_CLIENT_SECRET", secret); ("COORDINATOR_GITHUB_ORG", org)].
Definition google_vars (v : Vars) : Prop := ∃ id secret domain, id ≠ "" ∧ secret ≠ ""
  ∧ v = [("COORDINATOR_GOOGLE_CLIENT_ID", id); ("COORDINATOR_GOOGLE_CLIENT_SECRET", secret)] ++ domain_var domain.

Definition provider_vars (v : Vars) : Prop := ∃ gh google, v = gh ++ google
  ∧ (gh = [] ∨ github_vars gh) ∧ (google = [] ∨ google_vars google) ∧ (gh ≠ [] ∨ google ≠ []).

Lemma both_ok a b id secret : both a b = Some (Some (id, secret)) → id ≠ "" ∧ secret ≠ "".
Proof. unfold both. repeat case_bool_decide; try done. by intros [= <- <-]. Qed.

Lemma non_interactive_ok opts v : collectProvidersNonInteractive opts = Some v → provider_vars v.
Proof.
  unfold collectProvidersNonInteractive.
  destruct (both (trim_opt (githubClientId opts)) _) as [gh|] eqn:E1; [|done]. cbn [mbind option_bind].
  destruct (both (trim_opt (googleClientId opts)) _) as [go|] eqn:E2; [|done]. cbn [mbind option_bind].
  case_decide as Hn; [done|]. intros Hv.
  assert (google_vars match go with None => [] | Some (id, secret) =>
    [("COORDINATOR_GOOGLE_CLIENT_ID", id); ("COORDINATOR_GOOGLE_CLIENT_SECRET", secret)]
      ++ domain_var (trim_opt (o_googleWorkspaceDomain opts)) end ∨ go = None) as Hgo.
  { destruct go as [[id secret]|]; [|by right]. left. apply both_ok in E2 as [? ?]. by exists id, secret, (trim_opt (o_googleWorkspaceDomain opts)). }
  destruct gh as [[id secret]|].
  - destruct (String.eqb _ "") eqn:Eo; [done|]. injection Hv as <-. apply both_ok in E1 as [? ?].
    exists [("COORDINATOR_GITHUB_CLIENT_ID", id); ("COORDINATOR_GITHUB_CLIENT_SECRET", secret);
            ("COORDINATOR_GITHUB_ORG", trim_opt (o_githubOrg opts))],
      (match go with None => [] | Some (id, secret) =>
      [("COORDINATOR_GOOGLE_CLIENT_ID", id); ("COORDINATOR_GOOGLE_CLIENT_SECRET", secret)]
        ++ domain_var (trim_opt (o_googleWorkspaceDomain opts)) end).
    split; [done|]. split_and!; [right| |by left].
    + eexists id, secret, _. split_and!; [done|done| |reflexivity]. by apply String.eqb_neq.
    + destruct Hgo as [?| ->]; [by right|by left].
  - injection Hv as <-. exists [], (match go with None => [] | Some (id, secret) =>
      [("COORDINATOR_GOOGLE_CLIENT_ID", id); ("COORDINATOR_GOOGLE_CLIENT_SECRET", secret)]
        ++ domain_var (trim_opt (o_googleWorkspaceDomain opts)) end).
    split; [done|]. destruct go as [[id secret]|]; [|tauto]. split_and!; [by left|right; by destruct Hgo|by right].
Qed.

Lemma collectGitHub_ok s v s' : collectGitHub s = (inr v, s') → github_vars v.
Proof.
  intros (id & s1 & H1%prompt_text_ok & Hk)%wbind_ok. apply wbind_ok in Hk as (secret & s2 & H2%prompt_text_ok & Hk).
  apply wbind_ok in Hk as (org & s3 & H3%prompt_text_ok & [<- _]%wret_ok). by exists id, secret, org.
Qed.

Lemma collectGoogle_ok s v s' : collectGoogle s = (inr v, s') → google_vars v.
Proof.
  intros (id & s1 & H1%prompt_text_ok & Hk)%wbind_ok. apply wbind_ok in Hk as (secret & s2 & H2%prompt_text_ok & Hk).
  apply wbind_ok in Hk as (domain & s3 & _ & [<- _]%wret_ok). by exists id, secret, (PlanQuality.trim domain).
Qed.

Lemma github_ne v : github_vars v → v ≠ [].
Proof. by intros (? & ? & ? & _ & _ & _ & ->). Qed.
Lemma google_ne v : google_vars v → v ≠ [].
Proof. by intros (? & ? & ? & _ & _ & ->). Qed.

Lemma interactive_ok s v s' : collectProvidersInteractive s = (inr v, s') → provider_vars v.
Proof.
  intros (b1 & s1 & _ & Hk)%wbind_ok. apply wbind_ok in Hk as (gh & s2 & Hgh & Hk).
  apply wbind_ok in Hk as (b2 & s3 & _ & Hk). apply wbind_ok in Hk as (go & s4 & Hgo & Hk).
  assert ((b1 = true ∧ github_vars gh) ∨ (b1 = false ∧ gh = [])) as H1.
  { destruct b1; [left; split; [done|by eapply collectGitHub_ok]|right; by apply wret_ok in Hgh as [<- _]]. }
  assert ((b2 = true ∧ google_vars go) ∨ (b2 = false ∧ go = [])) as H2.
  { destruct b2; [left; split; [done|by eapply collectGoogle_ok]|right; by apply wret_ok in Hgo as [<- _]]. }
  destruct (negb b1 && negb b2) eqn:Eb; [done|]. apply wret_ok in Hk as [<- _]. exists gh, go. split; [done|].
  destruct H1 as [[-> H1]|[-> ->]], H2 as [[-> H2]|[-> ->]]; try done;
    (split_and!; [tauto|tauto|]); first [left; by apply github_ne|right; by apply google_ne].
Qed.

Lemma may_write_ok opts ex s s' r : may_write opts ex s = (inr r, s') → ex = true →
  nonInteractive opts = false ∧ head (confirms s) = Some true.
Proof.
  unfold may_write. intros Hm ->. destruct (nonInteractive opts); [done|]. split; [done|].
  apply wbind_ok in Hm as (b & s1 & Hc & Hk). unfold confirm in Hc. destruct (confirms s) as [|c l]; [done|].
  injection Hc as -> _. by destruct b.
Qed.

(** The wizard writes its file only with settings that the trial accepted, a
    public URL of the web and at least one provider with all its credentials; an
    existing file only when the operator said so. *)
Theorem wizard_writes_checked {E} (validate : Vars → option E) secret opts ex s env text s' :
  runInitPhase2 validate secret opts ex s = (inr (env, text), s') →
  validate env = None ∧ text = contents env
  ∧ (∃ url v, validatePublicUrlString url = None ∧ provider_vars v
       ∧ env = [("COORDINATOR_OAUTH_ENABLED", "true"); ("COORDINATOR_PUBLIC_URL", url)] ++ v
               ++ [("COORDINATOR_JWT_SECRET", secret)])
  ∧ (ex = true → nonInteractive opts = false ∧ head (confirms s) = Some true).
Proof.
  intros (r & s1 & Hm & Hk)%wbind_ok. apply wbind_ok in Hk as (url & s2 & Hu & Hk).
  apply wbind_ok in Hk as (v & s3 & Hp & Hk). cbv zeta in Hk. destruct (validate _) eqn:Ev; [done|].
  apply wret_ok in Hk as [[= <- <-] _]. split_and!; [done|done| |by eapply may_write_ok].
  exists url, v. split_and!; [| |done].
  - revert Hu. unfold resolvePublicUrl. destruct (nonInteractive opts); [|apply prompt_url_ok].
    cbv zeta. destruct (validatePublicUrlString _) eqn:E1; [done|]. by intros [<- _]%wret_ok.
  - destruct (nonInteractive opts); [|by eapply interactive_ok].
    destruct (collectProvidersNonInteractive opts) eqn:E1; [|done]. apply wret_ok in Hp as [<- _].
    by apply (non_interactive_ok opts).
Qed.

(** The trial cannot succeed: its database has neither the columns that the queue
    of the audit log writes nor those of the tokens. *)
Lemma trial_fails env : ∃ e, trial trial_schema env = inl e.
Proof.
  unfold trial. destruct (lift (readSettings URL env)) as [e|st]; [by exists e|]. cbn [tbind].
  destruct (OrgsGuard.loadEncryptionKey _) as [e|k]; [by eexists|]. cbn [tbind].
  change (prepare trial_schema "audit_log" ["created_at"]) with (inr tt : TrialError + unit). cbn [tbind].
  destruct (lift (composeComponents URL env st)) as [e|c]; [by exists e|]. cbn [tbind].
  destruct (githubOrg st); cbn [tbind].
  - change (prepare trial_schema "orgs" ["id"; "name"; "allowlist_github_org"]) with (inr tt : TrialError + unit). cbn [tbind].
    destruct (googleWorkspaceDomain c); by eexists.
  - destruct (googleWorkspaceDomain c); by eexists.
Qed.

(** So that [init phase2] never writes its file. *)
Theorem wizard_never_writes process secret opts ex s env text s' :
  runInitPhase2 (defaultValidateConfig process) secret opts ex s ≠ (inr (env, text), s').
Proof.
  intros (r & s1 & _ & Hk)%wbind_ok. apply wbind_ok in Hk as (url & s2 & _ & Hk).
  apply wbind_ok in Hk as (v & s3 & _ & Hk). cbv zeta in Hk. unfold defaultValidateConfig in Hk.
  match type of Hk with context [trial _ ?x] => destruct (trial_fails x) as (e & E) end. by rewrite E in Hk.
Qed.
End wizard.

(** ** A run *)

Definition demo_url (s : string) : option Url :=
  if String.eqb s "https://coord.example" then Some (mkUrl "https:" "coord.example" "https://coord.example") else None.

(** A URL that is not one, then a good one; GitHub with an empty secret at first;
    no Google. *)
Definition demo_script : Script :=
  mkScript ["coord"; "https://coord.example"; "id1"; "  "; "s3cret"; "acme"] [true; true; false].

Definition demo_options : Options := mkOptions false None None None None None None None.

Lemma wizard_writes_checked_witness :
  ∃ env text s', runInitPhase2 demo_url (λ _, None : option unit) "jwt" demo_options true demo_script = (inr (env, text), s')
  ∧ text = contents env
  ∧ map_get "COORDINATOR_GITHUB_CLIENT_SECRET" env = Some "s3cret"
  ∧ head (confirms demo_script) = Some true.
Proof.
  eexists _, _, _. split; [reflexivity|].
  destruct (wizard_writes_checked demo_url (λ _, None : option unit) "jwt" demo_options true demo_script _ _ _ eq_refl)
    as (_ & Ht & _ & Hc).
  split; [exact Ht|]. split; [reflexivity|]. apply Hc; reflexivity.
Defined.
End SetupWizard.
