(* ===== verification/ServerControl.v ===== *)
(** * Starting and stopping a server ([cli/server/start.ts], [stop.ts],
    [restart.ts], [cli/pid-file.ts], [cli/config.ts])

    A server that runs is known by its port; a file named after the port holds the
    identifier of its process, and [stop] reads it. In the background a server is a
    child with an environment made of a list of allowed variables. *)

From S2P Require Import Prelude Paths Announce EventStream Login Providers Envelope Phase2Boot.
Local Open Scope Z_scope.

Module ServerControl.
Import Providers Phase2Boot.

(** ** [config.json] *)

(** The file: absent, not JSON, or a value; the values of a configuration are
    taken as they are. *)
Inductive ConfigFile := NoConfig | NotJson | Parsed (v : js).

Record CoordinatorConfig := mkConfig { c_port : js; c_data_dir : js; c_coordinator_url : js }.

Definition DEFAULT_HTTP_PORT : Z := 3100.

Definition DEFAULT_CONFIG (data_dir : string) : CoordinatorConfig :=
  mkConfig (JNum DEFAULT_HTTP_PORT) (JStr data_dir) (JStr "http://localhost:3100").

(** [raw.a?.b ?? d] *)
Definition setting (raw : js) (a b : string) (d : js) : js :=
  match prop_of a raw with
  | None | Some JNull => d
  | Some v => match prop_of b v with None | Some JNull => d | Some x => x end
  end.

(** [None] is the exception. *)
Definition loadConfig (data_dir : string) (f : ConfigFile) : option CoordinatorConfig :=
  let d := DEFAULT_CONFIG data_dir in
  match f with
  | NoConfig => Some d
  | NotJson | Parsed JNull => None
  | Parsed raw =>
      Some (mkConfig (setting raw "server" "port" (c_port d)) (setting raw "server" "data_dir" (c_data_dir d))
              (setting raw "defaults" "coordinator_url" (c_coordinator_url d)))
  end.

Definition saveConfig (c : CoordinatorConfig) : ConfigFile :=
  Parsed (JObj [("server", JObj [("port", c_port c); ("data_dir", c_data_dir c)]);
                ("defaults", JObj [("coordinator_url", c_coordinator_url c)])]).

(** The first part of [init]: the file afterwards, and the configuration used. *)
Definition init_config (data_dir : string) (printOnly : bool) (f : ConfigFile) : ConfigFile * CoordinatorConfig :=
  let safe f := default (DEFAULT_CONFIG data_dir) (loadConfig data_dir f) in
  let f' := match f with
            | NoConfig => if printOnly then f else saveConfig (safe f)
            | _ => match loadConfig data_dir f with
                   | Some _ => f
                   | None => if printOnly then f else saveConfig (DEFAULT_CONFIG data_dir)
                   end
            end in
  (f', safe f').

(** [String(v)] *)
Fixpoint String_ (v : js) : string :=
  match v with
  | JNull => "null"
  | JBool b => if b then "true" else "false"
  | JNum z => pretty z
  | JStr s => s
  | JArr l => join "," ((λ x, match x with JNull => "" | _ => String_ x end) <$> l)
  | JObj _ => "[object Object]"
  end.

(** [parseInt(opts.port ?? process.env.PORT ?? String(config.server.port), 10)];
    [None] is NaN. *)
Definition resolve_port (flag : option string) (env : Env) (config : CoordinatorConfig) : option Z :=
  EventStream.parseInt (match flag with
            | Some p => p
            | None => match env "PORT" with Some p => p | None => String_ (c_port config) end
            end).

(** ** The file of a process *)

(** A port as the code has it: [None] is NaN. *)
Notation Port := (option js).

Definition pidFileName (port : Port) : string :=
  match port with
  | None => "server-NaN.pid"
  | Some (JNum z) => if decide (z = DEFAULT_HTTP_PORT) then "server.pid" else "server-" +:+ pretty z +:+ ".pid"
  | Some v => "server-" +:+ String_ v +:+ ".pid"
  end.

(** The names are those of one directory. *)
Definition existingPidFile (exists_ : string → bool) (port : Port) : string :=
  let scoped := pidFileName port in
  if exists_ scoped then scoped else if exists_ "server.pid" then "server.pid" else scoped.

(** ** [stopServer] *)

Inductive Signal := SIGTERM | SIGKILL.
Inductive Action := Kill (pid : Z) (sig : Signal) | RemovePidFile | Exit (code : Z).

Definition POLL_INTERVAL_MS : Z := 200.
Definition DEFAULT_TIMEOUT_MS : Z := 5000.

Section stop.
(** The answers to the questions of a run, in order: whether the process is
    alive, and the time. *)
Context (isAlive : nat → bool) (clock : nat → Z).

(** [while (now() < deadline)]: [n] is the number of readings of the clock so far. *)
Fixpoint grace (fuel : nat) (deadline : Z) (pid : Z) (n : nat) : option (list Action) :=
  match fuel with
  | O => None
  | S fuel =>
      if decide (clock n < deadline) then
        if isAlive n then grace fuel deadline pid (S n) else Some [RemovePidFile]
      else Some [Kill pid SIGKILL; RemovePidFile]
  end.

(** The first reading of the clock sets the deadline. *)
Definition stopServer (fuel : nat) (timeoutMs : Z) (force : bool) (raw : option string) : option (list Action) :=
  match raw with
  | None => Some [Exit 1]
  | Some raw =>
      match EventStream.parseInt (PlanQuality.trim raw) with
      | None => Some [RemovePidFile; Exit 1]
      | Some pid =>
          if negb (isAlive 0) then Some [RemovePidFile]
          else if force then Some [Kill pid SIGKILL; RemovePidFile]
          else l ← grace fuel (clock 0 + timeoutMs) pid 1; Some (Kill pid SIGTERM :: l)
      end
  end.
End stop.

(** ** [waitForDaemonBind] *)

Inductive DaemonBindOutcome := Listening | Exited | TimedOut.

Section wait.
(** Round [n] looks at the child, asks the port, looks at the child again and
    reads the clock. *)
Context (exited exited_after : nat → bool) (probe : nat → bool) (clock : nat → Z).

Fixpoint await_bind (fuel : nat) (deadline : Z) (n : nat) : option DaemonBindOutcome :=
  match fuel with
  | O => None
  | S fuel =>
      if exited n then Some Exited
      else if probe n then Some Listening
      else if exited_after n then Some Exited
      else if decide (deadline ≤ clock n) then Some TimedOut
      else await_bind fuel deadline (S n)
  end.

Definition waitForDaemonBind (fuel : nat) (start timeoutMs : Z) : option DaemonBindOutcome :=
  await_bind fuel (start + timeoutMs) 0.
End wait.

Definition DEFAULT_DAEMON_BIND_TIMEOUT_MS : Z := 15000.

(** What [start --daemon] leaves: whether the file of the process is written, and
    the exit code. *)
Definition daemon_result (o : DaemonBindOutcome) : bool * Z :=
  match o with Exited => (false, 1) | TimedOut => (true, 1) | Listening => (true, 0) end.

(** ** [createForegroundShutdownHandler] *)

Inductive Teardown := StopServer | Unlink | ExitWith (code : Z).

(** A signal: [stops] tells whether [handle.stop()] succeeds. *)
Definition on_signal (stops : bool) (shuttingDown : bool) : list Teardown * bool :=
  if shuttingDown then ([], true) else ([StopServer; Unlink; ExitWith (if stops then 0 else 1)], true).

(** ** [restart] *)

Fixpoint portFromArgs (args : list string) : option Z :=
  match args with
  | [] => None
  | a :: rest =>
      match rest with
      | p :: _ => if String.eqb a "--port" then EventStream.parseInt p
                  else match Envelope.strip "--port=" a with Some p => EventStream.parseInt p | None => portFromArgs rest end
      | [] => match Envelope.strip "--port=" a with Some p => EventStream.parseInt p | None => None end
      end
  end.

(** The port whose server is stopped. *)
Definition restart_port (args : list string) (config : CoordinatorConfig) : Port :=
  match portFromArgs args with Some p => Some (JNum p) | None => Some (c_port config) end.

(** ** The environment of a server in the background *)

(** The variables that are passed on, in the order of the calls. *)
Definition FORWARDED : list string :=
  ["NODE_ENV"; "LOG_LEVEL"; "COORDINATOR_AUTH_ENABLED"; "COORDINATOR_JWT_SECRET"; "COORDINATOR_JWT_EXPIRY";
   "COORDINATOR_REGISTRATION_SECRET"; "COORDINATOR_ADMIN_SECRET"; "COORDINATOR_MQTT_TCP_PORT";
   "COORDINATOR_MQTT_WS_PATH"; "COORDINATOR_REPO_ROOT"; "COORDINATOR_MAX_BODY_BYTES";
   "COORDINATOR_WORKING_FILES_TTL_MIN"; "COORDINATOR_WORKING_FILES_SWEEP_INTERVAL_MS";
   "COORDINATOR_LAYER4_SINCE_DAYS"; "COORDINATOR_LAYER4_MAX_COMMITS"; "COORDINATOR_LAYER4_REFRESH_INTERVAL_MS";
   "COORDINATOR_LAYER4_RETRY_MS"; "COORDINATOR_LOG_JSON"; "COORDINATOR_ENCRYPTION_KEY";
   "COORDINATOR_ALLOW_TOKEN_LOSS"; "COORDINATOR_TOKEN_LOSS_CONFIRM"; "COORDINATOR_ALLOW_KEY_ROTATION";
   "COORDINATOR_OAUTH_ENABLED"; "COORDINATOR_PUBLIC_URL"; "COORDINATOR_BIND"; "COORDINATOR_INSECURE_COOKIES";
   "COORDINATOR_GITHUB_CLIENT_ID"; "COORDINATOR_GITHUB_CLIENT_SECRET"; "COORDINATOR_GITHUB_ORG";
   "COORDINATOR_GITHUB_AUTH_BASE_URL"; "COORDINATOR_GITHUB_API_BASE_URL"; "COORDINATOR_GOOGLE_CLIENT_ID";
   "COORDINATOR_GOOGLE_CLIENT_SECRET"; "COORDINATOR_GITHUB_APP_CLIENT_ID";
   "COORDINATOR_GITHUB_APP_CLIENT_SECRET"; "COORDINATOR_GITHUB_APP_NAME";
   "COORDINATOR_GITHUB_APP_ALLOWLIST_SOURCE"; "COORDINATOR_OIDC_ISSUER_URL"; "COORDINATOR_OIDC_CLIENT_ID";
   "COORDINATOR_OIDC_CLIENT_SECRET"; "COORDINATOR_OIDC_GROUPS_CLAIM"; "COORDINATOR_JWT_PREV_SECRET";
   "COORDINATOR_JWT_SECRET_PREV"; "COORDINATOR_JWT_SECRET_PREV_ROTATED_AT"; "COORDINATOR_ALLOW_RESTORE";
   "COORDINATOR_ALLOW_DUPLICATE_ORG_NAMES"; "COORDINATOR_ALLOW_RESET"; "COORDINATOR_MAX_SSE_CLIENTS";
   "COORDINATOR_SSE_HEARTBEAT_MS"; "COORDINATOR_METRICS_BEARER"].

(** [fwd]: a variable that is not set is left out. *)
Definition fwd (parentEnv : Env) (key : string) : option (string * string) :=
  match parentEnv key with Some v => Some (key, v) | None => None end.

Definition nullish (o : option string) (d : string) : string := match o with Some v => v | None => d end.

Definition buildDaemonEnv (parentEnv : Env) (port : option Z) (dataDir : string) : jsmap string :=
  [("PATH", nullish (parentEnv "PATH") ""); ("HOME", nullish (parentEnv "HOME") (nullish (parentEnv "USERPROFILE") ""));
   ("PORT", match port with Some z => pretty z | None => "NaN" end); ("COORDINATOR_DATA_DIR", dataDir)]
  ++ omap (fwd parentEnv) FORWARDED.

(** What the child reads. *)
Definition as_env (m : jsmap string) : Env := λ k, map_get k m.

(** The flags of [start], with the variables they set. *)
Record StartFlags := mkFlags {
  repoRoot : option string;
  maxBodyBytes : option string;
  workingFilesTtlMin : option string;
  workingFilesSweepMs : option string;
  layer4SinceDays : option string;
  layer4MaxCommits : option string;
  layer4RefreshMs : option string;
  layer4RetryMs : option string;
  logJson : bool
}.

(** [if (flag) process.env.K = flag] *)
Definition wire (k : string) (flag : option string) (env : Env) : Env :=
  match truthy flag with Some v => λ k', if String.eqb k' k then Some v else env k' | None => env end.

Definition wire_flags (o : StartFlags) (env : Env) : Env :=
  let env := wire "COORDINATOR_REPO_ROOT" (repoRoot o) env in
  let env := wire "COORDINATOR_MAX_BODY_BYTES" (maxBodyBytes o) env in
  let env := wire "COORDINATOR_WORKING_FILES_TTL_MIN" (workingFilesTtlMin o) env in
  let env := wire "COORDINATOR_WORKING_FILES_SWEEP_INTERVAL_MS" (workingFilesSweepMs o) env in
  let env := wire "COORDINATOR_LAYER4_SINCE_DAYS" (layer4SinceDays o) env in
  let env := wire "COORDINATOR_LAYER4_MAX_COMMITS" (layer4MaxCommits o) env in
  let env := wire "COORDINATOR_LAYER4_REFRESH_INTERVAL_MS" (layer4RefreshMs o) env in
  let env := wire "COORDINATOR_LAYER4_RETRY_MS" (layer4RetryMs o) env in
  wire "COORDINATOR_LOG_JSON" (if logJson o then Some "true" else None) env.

(** ** Servers on one machine *)

(** The files of the processes and the servers that run, with the port each has
    bound. *)
Record Machine := mkMachine { files : gmap string string; servers : gmap Z Z }.

Definition bound (port : Z) (m : Machine) : Prop := map_Exists (λ _ q, q = port) (servers m).

#[export] Instance bound_dec port m : Decision (bound port m).
Proof. unfold bound. apply _. Defined.

(** [start] in the foreground, which is also the child of [start --daemon]: the
    file is written first, then the port is bound; it is refused when a server has
    it, and the process ends. *)
Definition start_server (pid port : Z) (m : Machine) : Machine :=
  let m := mkMachine (<[pidFileName (Some (JNum port)) := pretty pid]> (files m)) (servers m) in
  if decide (bound port m) then m else mkMachine (files m) (<[pid := port]> (servers m)).

(** [stop]: each signal ends the process, the first or the second. *)
Definition stop_server (port : Port) (m : Machine) : Machine :=
  let file := existingPidFile (λ f, bool_decide (is_Some (files m !! f))) port in
  match files m !! file with
  | None => m
  | Some raw =>
      mkMachine (delete file (files m))
        (match EventStream.parseInt (PlanQuality.trim raw) with Some pid => delete pid (servers m) | None => servers m end)
  end.

(** A server that ends on its own leaves its file. *)
Definition crash (pid : Z) (m : Machine) : Machine := mkMachine (files m) (delete pid (servers m)).
End ServerControl.

(** * Properties of starting and stopping a server

    The server in the background is the one of the foreground; a run of [stop]
    ends and spares a server that obeys; each server is stopped by its own port. *)

From S2P Require Import Prelude Paths Announce EventStream EventReader Login Providers AuthState Envelope EnvelopeSafety MasterKey OrgsGuard EncryptionBoot BootMigrations Phase2Boot.
Local Open Scope Z_scope.

Module ServerControlSafety.
Import Providers Envelope MasterKey Phase2Boot ServerControl.

(** ** The environment *)

Lemma map_get_cons {A} k k' (v : A) m : map_get k ((k', v) :: m) = if decide (k' = k) then Some v else map_get k m.
Proof. unfold map_get, select_one. rewrite filter_cons. cbn [fst]. by case_decide. Qed.

Lemma get_forwarded (env : Env) (k : string) (l : list string) :
  map_get k (omap (fwd env) l : jsmap string) = if decide (k ∈ l) then env k else None.
Proof.
  induction l as [|k' l IH]; [done|]. cbn [omap list_omap]. unfold fwd at 1.
  destruct (decide (k = k')) as [->|Hk].
  - rewrite decide_True by left. destruct (env k') as [v|] eqn:E.
    + rewrite map_get_cons. by rewrite decide_True.
    + rewrite IH. by case_decide.
  - assert (∀ o : option (string * string), match o with Some p => p.1 = k' | None => True end →
      map_get k (match o with Some p => p :: omap (fwd env) l | None => omap (fwd env) l end) = map_get k (omap (fwd env) l)) as Hc.
    { intros [[x v]|] Hx; [|done]. rewrite map_get_cons, decide_False; [done|]. simpl in Hx. congruence. }
    rewrite Hc by (by destruct (env k')). rewrite IH. repeat case_decide; set_solver.
Qed.

(** What a variable is in the background. *)
Lemma daemon_get env port dir k : k ∉ ["PATH"; "HOME"; "PORT"; "COORDINATOR_DATA_DIR"] →
  as_env (buildDaemonEnv env port dir) k = if decide (k ∈ FORWARDED) then env k else None.
Proof.
  intros Hk. unfold as_env, buildDaemonEnv. rewrite <- get_forwarded. cbn [app].
  rewrite !map_get_cons, !decide_False by set_solver. done.
Qed.

(** The variables that a start with logins reads. *)
Definition BOOT_KEYS : list string :=
  ["COORDINATOR_JWT_SECRET"; "COORDINATOR_PUBLIC_URL"; "COORDINATOR_INSECURE_COOKIES"; "COORDINATOR_GITHUB_CLIENT_ID";
   "COORDINATOR_GITHUB_CLIENT_SECRET"; "COORDINATOR_GITHUB_ORG"; "COORDINATOR_GITHUB_AUTH_BASE_URL";
   "COORDINATOR_GITHUB_API_BASE_URL"; "COORDINATOR_GOOGLE_CLIENT_ID"; "COORDINATOR_GOOGLE_CLIENT_SECRET";
   "COORDINATOR_GOOGLE_WORKSPACE_DOMAIN"; "COORDINATOR_GITHUB_APP_CLIENT_ID"; "COORDINATOR_GITHUB_APP_CLIENT_SECRET";
   "COORDINATOR_GITHUB_APP_NAME"; "COORDINATOR_GITHUB_APP_ALLOWLIST_SOURCE"; "COORDINATOR_OIDC_ISSUER_URL";
   "COORDINATOR_OIDC_CLIENT_ID"; "COORDINATOR_OIDC_CLIENT_SECRET"; "COORDINATOR_OIDC_GROUPS_CLAIM";
   "COORDINATOR_OIDC_EXTRA_ORIGINS"; "COORDINATOR_JWT_SECRET_PREV"; "COORDINATOR_JWT_SECRET_PREV_ROTATED_AT";
   "COORDINATOR_ALLOW_RESTORE"; "COORDINATOR_ALLOW_DUPLICATE_ORG_NAMES"; "COORDINATOR_OAUTH_ENABLED";
   "COORDINATOR_ENCRYPTION_KEY"; "COORDINATOR_ALLOW_TOKEN_LOSS"; "COORDINATOR_TOKEN_LOSS_CONFIRM";
   "COORDINATOR_ALLOW_KEY_ROTATION"; "COORDINATOR_REDIS_URL"].

(** Of those, the three that are not passed on. *)
Definition NOT_FORWARDED : list string :=
  ["COORDINATOR_GOOGLE_WORKSPACE_DOMAIN"; "COORDINATOR_OIDC_EXTRA_ORIGINS"; "COORDINATOR_REDIS_URL"].

(** An environment without some variables. *)
Definition unset (l : list string) (env : Env) : Env := λ k, if decide (k ∈ l) then None else env k.

Lemma boot_keys_forwarded k : k ∈ BOOT_KEYS → k ∉ NOT_FORWARDED → k ∈ FORWARDED.
Proof. revert k. apply (proj1 (Forall_forall (λ k, k ∉ NOT_FORWARDED → k ∈ FORWARDED) BOOT_KEYS)). apply (bool_decide_eq_true_1 _). vm_compute. reflexivity. Qed.

Lemma not_forwarded k : k ∈ NOT_FORWARDED → k ∉ FORWARDED.
Proof. revert k. apply (proj1 (Forall_forall (λ k, k ∉ FORWARDED) NOT_FORWARDED)). apply (bool_decide_eq_true_1 _). vm_compute. reflexivity. Qed.

Lemma boot_keys_own k : k ∈ BOOT_KEYS → k ∉ ["PATH"; "HOME"; "PORT"; "COORDINATOR_DATA_DIR"].
Proof. revert k. apply (proj1 (Forall_forall (λ k, k ∉ ["PATH"; "HOME"; "PORT"; "COORDINATOR_DATA_DIR"]) BOOT_KEYS)). apply (bool_decide_eq_true_1 _). vm_compute. reflexivity. Qed.

(** ** What a start reads *)

Section reads.
Context (e e' : Env) (Hsame : ∀ k, k ∈ BOOT_KEYS → e k = e' k).
Context (URL : string → option Url).

Ltac same := repeat match goal with
  | |- context [e ?k] => rewrite (Hsame k) by (apply (bool_decide_eq_true_1 _); vm_compute; reflexivity)
  end.

Lemma settings_same : readSettings URL e = readSettings URL e'.
Proof. unfold readSettings, githubCredentials, validatePublicUrl, readRequiredEnv, readOptionalEnv. by same. Qed.

Lemma components_same st : composeComponents URL e st = composeComponents URL e' st.
Proof.
  unfold composeComponents, prevSecret, googleProvider, githubAppProvider, allowlistSourceParsed, oidcProvider, trimmed, readOptionalEnv.
  by same.
Qed.

Lemma restore_same now s : performRestoreCheck now e s = performRestoreCheck now e' s.
Proof. unfold performRestoreCheck. by same. Qed.

Lemma boot_env_same : boot_env e = boot_env e'.
Proof. unfold boot_env. by same. Qed.

Lemma guards_same `{Envelope.Aead} fingerprint key dr s :
  EncryptionBoot.runEncryptionGuards fingerprint e key dr s = EncryptionBoot.runEncryptionGuards fingerprint e' key dr s.
Proof. unfold EncryptionBoot.runEncryptionGuards. by same. Qed.

Lemma boot_same `{Envelope.Aead} fingerprint derive enabled redis bun s1 s2 dr now s :
  bootPhase2 fingerprint derive URL enabled redis bun e s1 s2 dr now s
  = bootPhase2 fingerprint derive URL enabled redis bun e' s1 s2 dr now s.
Proof.
  unfold bootPhase2, ensureChainKey, open_tokens. rewrite settings_same, boot_env_same.
  destruct (negb enabled), bun; try done. destruct (readSettings URL e'); [done|].
  destruct (OrgsGuard.ensureAuditChainKeyForBootAudit _ _ _); [done|]. rewrite restore_same.
  destruct (performRestoreCheck _ _ _); [done|]. rewrite components_same.
  destruct (composeComponents _ _ _); [done|]. destruct (ensureBootstrapOrg _ _ _ _ _) as [[?|] l]; [done|].
  destruct (OrgsGuard.loadEncryptionKey _); [done|]. rewrite guards_same. by same.
Qed.

Lemma serve_same `{Envelope.Aead} fingerprint derive bun s1 s2 dr now s :
  serve_phase2 fingerprint derive URL bun e s1 s2 dr now s = serve_phase2 fingerprint derive URL bun e' s1 s2 dr now s.
Proof. unfold serve_phase2. rewrite boot_same. by same. Qed.
End reads.

(** [C36] A server in the background starts as one in the foreground would with three
    variables unset: the domain of the Google accounts, the extra origins of the
    OpenID provider, and the URL of Redis. On the environment of the child, the
    start with logins takes the same decisions, builds the same components,
    limiter, memberships and sweeper, and ends in the same state. *)
Theorem daemon_boots_alike `{Envelope.Aead} fingerprint derive URL bun env port dir s1 s2 dr now s :
  serve_phase2 fingerprint derive URL bun (as_env (buildDaemonEnv env port dir)) s1 s2 dr now s
  = serve_phase2 fingerprint derive URL bun (unset NOT_FORWARDED env) s1 s2 dr now s.
Proof.
  apply serve_same. intros k Hk. rewrite daemon_get by by apply boot_keys_own. unfold unset.
  destruct (decide (k ∈ FORWARDED)) as [Hf|Hf], (decide (k ∈ NOT_FORWARDED)) as [Hn|Hn]; try done.
  - by destruct (not_forwarded k Hn).
  - by destruct Hf; apply boot_keys_forwarded.
Qed.

(** The child sees nothing but what is listed: a secret of another program that
    the parent has is not passed on. *)
Theorem daemon_env_closed env port dir k v :
  as_env (buildDaemonEnv env port dir) k = Some v →
  k ∈ ["PATH"; "HOME"; "PORT"; "COORDINATOR_DATA_DIR"] ∨ k ∈ FORWARDED ∧ env k = Some v.
Proof.
  intros E. destruct (decide (k ∈ ["PATH"; "HOME"; "PORT"; "COORDINATOR_DATA_DIR"])) as [?|Hk]; [by left|right].
  rewrite daemon_get in E by done. by case_decide.
Qed.

(** The permission to repair a database at its migration is not among the
    variables: in the background it is never given. *)
Theorem daemon_never_repairs env port dir :
  BootMigrations.canRepairMigrationOrphans (as_env (buildDaemonEnv env port dir) "COORDINATOR_ALLOW_MIGRATION_REPAIR") = false.
Proof. rewrite daemon_get by (apply (bool_decide_eq_true_1 _); vm_compute; reflexivity). reflexivity. Qed.

(** ** [stop] *)

Lemma digits_printable x s : Forall printable s → ∃ b, pretty_N_go x (text s) = text b ∧ Forall printable b.
Proof.
  revert s. induction (N.lt_wf_0 x) as [x _ IH]. intros s Hs. destruct (decide (0 < x)%N) as [Hx|Hx].
  - rewrite pretty_N_go_step by done. apply (IH (x / 10)%N (N.div_lt x 10 Hx ltac:(done)) (pretty_N_char (x mod 10) :: s)).
    constructor; [|done]. assert (x mod 10 < 10)%N as Hm by by apply N.mod_lt.
    destruct (x mod 10)%N as [|d]; [by vm_compute|]. do 4 (destruct d; try (by vm_compute); try lia).
  - assert (x = 0)%N as -> by lia. by exists s.
Qed.

Lemma pid_read_back pid : 0 < pid → EventStream.parseInt (PlanQuality.trim (pretty pid)) = Some pid.
Proof.
  intros Hp. assert (PlanQuality.trim (pretty pid) = pretty pid) as ->; [|by apply EventReader.parseInt_pretty].
  destruct pid as [|q|q]; [lia| |lia]. destruct (digits_printable (N.pos q) [] (Forall_nil_2 _)) as (b & E & Hb).
  change (pretty (Z.pos q)) with (pretty_N_go (N.pos q) (text [])). rewrite E. by apply trim_printable.
Qed.

Section stop.
Context (isAlive : nat → bool) (clock : nat → Z).

Lemma grace_ends fuel deadline pid n :
  (∀ i, clock i + POLL_INTERVAL_MS ≤ clock (S i)) → deadline ≤ clock n + POLL_INTERVAL_MS * Z.of_nat fuel →
  ∃ m, (n ≤ m)%nat ∧ (∀ i, (n ≤ i < m)%nat → isAlive i = true) ∧
  ((grace isAlive clock (S fuel) deadline pid n = Some [RemovePidFile] ∧ clock m < deadline ∧ isAlive m = false)
   ∨ (grace isAlive clock (S fuel) deadline pid n = Some [Kill pid SIGKILL; RemovePidFile] ∧ deadline ≤ clock m)).
Proof.
  intros Hc. revert n. induction fuel as [|fuel IH]; intros n Hd; cbn [grace]; (case_decide as Hn; [|exists n; split_and!; [lia|intros; lia|right; split; [done|lia]]]).
  { lia. }
  destruct (isAlive n) eqn:Ea; [|exists n; split_and!; [lia|intros; lia|by left]].
  destruct (IH (S n)) as (m & Hm & Hall & Hr); [specialize (Hc n); lia|]. exists m. split_and!; [lia| |exact Hr].
  intros i Hi. destruct (decide (i = n)) as [->|]; [done|apply Hall; lia].
Qed.

(** A graceful stop of a live server ends, whatever the server does: it is asked
    to end first, and it is killed only when it was alive at every question until
    the time given to it had passed; one that obeys in time is never killed. *)
Theorem stop_ends_gracefully timeoutMs pid :
  0 < pid → 0 ≤ timeoutMs → (∀ i, clock i + POLL_INTERVAL_MS ≤ clock (S i)) → isAlive 0%nat = true →
  ∃ l m, stopServer isAlive clock (S (Z.to_nat (timeoutMs / POLL_INTERVAL_MS))) timeoutMs false (Some (pretty pid))
         = Some (Kill pid SIGTERM :: l)
  ∧ (0 < m)%nat ∧ (∀ i, (i < m)%nat → isAlive i = true)
  ∧ ((l = [RemovePidFile] ∧ isAlive m = false ∧ clock m < clock 0%nat + timeoutMs)
     ∨ (l = [Kill pid SIGKILL; RemovePidFile] ∧ clock 0%nat + timeoutMs ≤ clock m)).
Proof.
  intros Hp Ht Hc Ha. unfold stopServer. rewrite pid_read_back by done. rewrite Ha. cbn [negb].
  destruct (grace_ends (Z.to_nat (timeoutMs / POLL_INTERVAL_MS)) (clock 0%nat + timeoutMs) pid 1 Hc) as (m & Hm & Hall & Hr).
  { rewrite Z2Nat.id by (apply Z.div_pos; [done|by vm_compute]). pose proof (Z.div_mod timeoutMs POLL_INTERVAL_MS ltac:(done)).
    pose proof (Z.mod_pos_bound timeoutMs POLL_INTERVAL_MS ltac:(by vm_compute)). specialize (Hc 0%nat). lia. }
  assert (∀ i, (i < m)%nat → isAlive i = true) as Hall'.
  { intros i Hi. destruct i; [done|apply Hall; lia]. }
  destruct Hr as [(-> & H1 & H2)|(-> & H1)]; cbn [mbind option_bind]; eexists _, m; (split; [reflexivity|]);
    (split_and!; [lia|done|]); [by left|by right].
Qed.
End stop.

Section wait.
Context (exited exited_after probe : nat → bool) (clock : nat → Z) (pollMs : Z).

Lemma await_ends fuel deadline n :
  (∀ i, clock i + pollMs ≤ clock (S i)) → deadline ≤ clock n + pollMs * Z.of_nat fuel →
  ∃ o m, await_bind exited exited_after probe clock (S fuel) deadline n = Some o ∧ (n ≤ m)%nat
  ∧ (∀ i, (n ≤ i < m)%nat → probe i = false) ∧
  match o with
  | Listening => probe m = true ∧ exited m = false
  | Exited => exited m = true ∨ exited_after m = true
  | TimedOut => probe m = false ∧ deadline ≤ clock m
  end.
Proof.
  intros Hc. revert n. induction fuel as [|fuel IH]; intros n Hd; cbn [await_bind];
    (destruct (exited n) eqn:E1; [exists Exited, n; split_and!; [done|lia|intros; lia|by left]|]);
    (destruct (probe n) eqn:E2; [exists Listening, n; split_and!; [done|lia|intros; lia|done|done]|]);
    (destruct (exited_after n) eqn:E3; [exists Exited, n; split_and!; [done|lia|intros; lia|by right]|]);
    (case_decide as Hn; [exists TimedOut, n; split_and!; [done|lia|intros; lia|done|done]|]).
  { lia. }
  destruct (IH (S n)) as (o & m & Hr & Hm & Hall & Ho); [specialize (Hc n); lia|]. exists o, m.
  split_and!; [exact Hr|lia| |exact Ho]. intros i Hi. destruct (decide (i = n)) as [->|]; [done|apply Hall; lia].
Qed.
End wait.

(** ** Servers on one machine *)

Lemma name_inj p q : pidFileName (Some (JNum p)) = pidFileName (Some (JNum q)) → p = q.
Proof.
  unfold pidFileName. repeat case_decide; intros E; try congruence; try discriminate E.
  apply str_app_inj in E. destruct (sep_inj "." (pretty p) "pid" (pretty q) "pid" eq_refl eq_refl E) as [E1 _].
  by apply (inj pretty).
Qed.

(** Every server that runs is named by the file of its port. *)
Definition recorded (m : Machine) : Prop := ∀ pid port, servers m !! pid = Some port →
  0 < pid ∧ files m !! pidFileName (Some (JNum port)) = Some (pretty pid).

(** What happens on a machine: a start on a free port, a stop of a port whose
    file is there, and the end of a server on its own. *)
Inductive machine_step : relation Machine :=
  | MStart pid port m : 0 < pid → servers m !! pid = None → ¬ bound port m → machine_step m (start_server pid port m)
  | MStop port m : is_Some (files m !! pidFileName (Some (JNum port))) → machine_step m (stop_server (Some (JNum port)) m)
  | MCrash pid m : machine_step m (crash pid m).

Definition no_servers : Machine := mkMachine ∅ ∅.

Lemma start_free pid port m : ¬ bound port m →
  start_server pid port m = mkMachine (<[pidFileName (Some (JNum port)) := pretty pid]> (files m)) (<[pid := port]> (servers m)).
Proof. intros Hb. unfold start_server. by rewrite decide_False. Qed.

(** Where the port has its own file, that is the one read. *)
Lemma stop_own port m raw : files m !! pidFileName (Some (JNum port)) = Some raw →
  stop_server (Some (JNum port)) m =
    mkMachine (delete (pidFileName (Some (JNum port))) (files m))
      (match EventStream.parseInt (PlanQuality.trim raw) with Some pid => delete pid (servers m) | None => servers m end).
Proof.
  intros E. unfold stop_server, existingPidFile. rewrite bool_decide_true by by eexists. cbv beta iota zeta. by rewrite E.
Qed.

Lemma recorded_port m pid pid' port : recorded m → servers m !! pid = Some port → servers m !! pid' = Some port → pid = pid'.
Proof.
  intros Hr H1 H2. destruct (Hr pid port H1) as [_ E1]. destruct (Hr pid' port H2) as [_ E2].
  rewrite E1 in E2. apply (inj pretty). congruence.
Qed.

Lemma recorded_step m m' : machine_step m m' → recorded m → recorded m'.
Proof.
  intros [pid port m1 Hp Hpid Hb|port m1 [raw Hf]|pid m1] Hr q r.
  - rewrite start_free by done. cbn [files servers]. destruct (decide (pid = q)) as [->|Hq].
    + rewrite lookup_insert_eq. intros [= <-]. by rewrite lookup_insert_eq.
    + rewrite lookup_insert_ne by done. intros Hs. destruct (Hr q r Hs) as [? E].
      rewrite lookup_insert_ne; [done|]. intros ->%name_inj. apply Hb. by exists q, r.
  - rewrite (stop_own port m1 raw Hf). cbn [files servers]. intros Hs.
    assert (servers m1 !! q = Some r ∧ r ≠ port) as [Hs' Hne].
    { destruct (EventStream.parseInt (PlanQuality.trim raw)) as [pid|] eqn:Ep.
      - apply lookup_delete_Some in Hs as [Hne Hs]. split; [done|]. intros ->.
        destruct (Hr q port Hs) as [? E]. rewrite Hf in E. injection E as ->. rewrite pid_read_back in Ep by done. congruence.
      - split; [done|]. intros ->. destruct (Hr q port Hs) as [? E]. rewrite Hf in E. injection E as ->.
        by rewrite pid_read_back in Ep. }
    destruct (Hr q r Hs') as [? E]. split; [done|]. rewrite lookup_delete_ne; [done|]. by intros ->%name_inj.
  - cbn [crash files servers]. intros [_ Hs]%lookup_delete_Some. by apply Hr.
Qed.

(** On a machine where servers were started on free ports, stopped by the port of
    a file and ended on their own, in any order: no two run on one port, and
    stopping the port of one ends that one and touches no other, nor its file. *)
Theorem stop_stops_own m pid port :
  rtc machine_step no_servers m → servers m !! pid = Some port →
  let m' := stop_server (Some (JNum port)) m in
  servers m' = delete pid (servers m)
  ∧ (∀ pid' port', servers m !! pid' = Some port' → pid' ≠ pid → port' ≠ port
       ∧ servers m' !! pid' = Some port' ∧ files m' !! pidFileName (Some (JNum port')) = Some (pretty pid')).
Proof.
  intros Hm Hs. assert (recorded m) as Hr.
  { refine (rtc_ind_r (λ x, recorded x) no_servers _ _ m Hm); [by intros ? ? ?|]. intros y z _ Hyz. by apply recorded_step. }
  destruct (Hr pid port Hs) as [Hp Hf]. cbv zeta. rewrite (stop_own port m _ Hf), pid_read_back by done. cbn [files servers].
  split; [done|]. intros pid' port' Hs' Hne.
  assert (port' ≠ port) as Hport by (intros ->; by eapply Hne, (recorded_port m pid' pid)).
  destruct (Hr pid' port' Hs') as [_ Hf']. split_and!; [done|by rewrite lookup_delete_ne|].
  rewrite lookup_delete_ne; [done|]. by intros ->%name_inj.
Qed.

(** ** Where it does not hold *)

(** A start on a port that a server has is refused the port, but has already
    overwritten the file of that server: a stop then finds the file of a process
    that is gone, removes it, and the server keeps running with no file. *)
Theorem occupied_start_orphans m pid pid' port :
  recorded m → servers m !! pid = Some port → 0 < pid' → servers m !! pid' = None →
  let m' := stop_server (Some (JNum port)) (start_server pid' port m) in
  servers m' = servers m ∧ files m' !! pidFileName (Some (JNum port)) = None.
Proof.
  intros Hr Hs Hp Hn. cbv zeta. unfold start_server. rewrite decide_True by (by exists pid, port).
  rewrite (stop_own port _ (pretty pid')) by apply lookup_insert_eq. rewrite pid_read_back by done. cbn [files servers].
  split; [|by rewrite lookup_delete_eq]. by apply delete_id.
Qed.

(** And [start --daemon] on it reports success: the port answers at the first
    question, since the other server does, when the child has not yet ended. *)
Theorem occupied_reported_started exited exited_after clock fuel start timeoutMs port m :
  bound port m → exited 0%nat = false →
  waitForDaemonBind exited exited_after (λ _, bool_decide (bound port m)) clock (S fuel) start timeoutMs = Some Listening
  ∧ daemon_result Listening = (true, 0)
  ∧ ∀ pid, servers (start_server pid port m) = servers m.
Proof.
  intros Hb He. split_and!; [|done|].
  - unfold waitForDaemonBind. cbn [await_bind]. by rewrite He, bool_decide_true.
  - intros pid. unfold start_server. by rewrite decide_True.
Qed.

(** A stop of a port that has no server stops the server of the default port. *)
Theorem stop_falls_back m pid port :
  recorded m → servers m !! pid = Some DEFAULT_HTTP_PORT → files m !! pidFileName (Some (JNum port)) = None →
  servers (stop_server (Some (JNum port)) m) = delete pid (servers m).
Proof.
  intros Hr Hs Hf. destruct (Hr pid _ Hs) as [Hp Hd]. change (pidFileName (Some (JNum DEFAULT_HTTP_PORT))) with "server.pid" in Hd.
  unfold stop_server, existingPidFile. rewrite bool_decide_false by (rewrite Hf; by intros [? [=]]).
  rewrite bool_decide_true by by eexists. cbv beta iota zeta. rewrite Hd. cbn [servers]. by rewrite pid_read_back.
Qed.

(** A restart stops the port of the configuration, and starts on that of the
    variable [PORT]. *)
Example restart_other_port :
  let config := DEFAULT_CONFIG "data" in
  let env := λ k, if String.eqb k "PORT" then Some "3200" else None in
  restart_port [] config = Some (JNum 3100) ∧ resolve_port None env config = Some 3200.
Proof. by vm_compute. Qed.

(** ** The configuration *)

(** A configuration that is written is read back, where its values are there. *)
Lemma config_read_back dir c :
  c_port c ≠ JNull → c_data_dir c ≠ JNull → c_coordinator_url c ≠ JNull → loadConfig dir (saveConfig c) = Some c.
Proof.
  destruct c as [p d u]. cbn [c_port c_data_dir c_coordinator_url]. intros Hp Hd Hu. unfold saveConfig, loadConfig, setting.
  cbn. destruct p, d, u; done.
Qed.

(** [init] leaves a file that can be read, and one that could be read as it was. *)
Theorem init_recovers dir f :
  let f' := (init_config dir false f).1 in
  loadConfig dir f' = Some (init_config dir false f).2
  ∧ (f ≠ NoConfig → is_Some (loadConfig dir f) → f' = f).
Proof.
  cbv zeta. unfold init_config. assert (loadConfig dir (saveConfig (DEFAULT_CONFIG dir)) = Some (DEFAULT_CONFIG dir)) as Hd
    by by apply config_read_back.
  destruct f as [| |v].
  - cbn [fst snd loadConfig default from_option id]. rewrite Hd. by split.
  - cbn [fst snd loadConfig default from_option id]. rewrite Hd. split; [done|]. by intros _ [? [=]].
  - destruct (loadConfig dir (Parsed v)) eqn:E; cbn [fst snd].
    + rewrite E. by split.
    + rewrite Hd. split; [done|]. intros _ [? [=]].
Qed.

(** ** Runs *)

Definition team_env : Env := Phase2BootSafety.demo_env [("COORDINATOR_OAUTH_ENABLED", "true"); ("COORDINATOR_REDIS_URL", "redis://r")].

Notation demo_boot env := (@serve_phase2 EnvelopeSafety.toy_aead (λ _, "f") (λ _, "k") Phase2BootSafety.demo_url false env
  "x" "y" (λ _ _, EnvelopeSafety.toy_draws) 1000 Phase2BootSafety.demo_state).

(** The providers and the stores of a start that succeeds. *)
Definition started (r : option (BootError + Bootstrap)) : option (list string * Stores) :=
  match r with Some (inr b) => Some (names (providers (c_components b)), c_stores b) | _ => None end.

Lemma daemon_boots_alike_witness :
  started (demo_boot (as_env (buildDaemonEnv team_env (Some 3100) "data"))).1 =
    Some (["google"], mkStores (InMemoryLimiter true) false false).
Proof.
  rewrite (@daemon_boots_alike EnvelopeSafety.toy_aead (λ _, "f") (λ _, "k") Phase2BootSafety.demo_url false team_env
             (Some 3100) "data" "x" "y" (λ _ _, EnvelopeSafety.toy_draws) 1000 Phase2BootSafety.demo_state).
  vm_compute. reflexivity.
Defined.

Lemma stop_ends_gracefully_witness :
  ∃ m, (0 < m)%nat ∧ ∀ i, (i < m)%nat → (i <? 3)%nat = true.
Proof.
  destruct (stop_ends_gracefully (λ i, (i <? 3)%nat) (λ i, 200 * Z.of_nat i) 5000 77 ltac:(lia) ltac:(lia)
              ltac:(unfold POLL_INTERVAL_MS; lia) eq_refl) as (l & m & _ & Hm & Hall & _).
  exact (ex_intro _ m (conj Hm Hall)).
Defined.

Definition two_servers : Machine := start_server 20 3200 (start_server 10 3100 no_servers).

Lemma stop_stops_own_witness :
  servers (stop_server (Some (JNum 3100)) two_servers) !! 20 = Some 3200.
Proof.
  assert (rtc machine_step no_servers two_servers) as Hm.
  { eapply rtc_l; [apply (MStart 10 3100); [lia|done|]|eapply rtc_once, (MStart 20 3200); [lia|done|]];
      apply (bool_decide_eq_false_1 _); vm_compute; reflexivity. }
  destruct (stop_stops_own two_servers 10 3100 Hm eq_refl) as [_ Ho]. apply (Ho 20 3200 eq_refl). lia.
Defined.

(** The domain whose people may log in is one of the three variables that are not
    passed on: the start in the foreground makes its organisation, the one in the
    background does not, and nothing says so. *)
Example daemon_loses_domain :
  (allowlist_idp_org_id <$> orgs (auth (demo_boot team_env).2)) = [Some "team.example"]
  ∧ orgs (auth (demo_boot (as_env (buildDaemonEnv team_env (Some 3100) "data"))).2) = []
  ∧ fst <$> started (demo_boot (as_env (buildDaemonEnv team_env (Some 3100) "data"))).1 = Some ["google"].
Proof. by vm_compute. Qed.

(** So is the URL of Redis: in the foreground the limiter and the memberships are
    shared and one instance sweeps, in the background each server is on its own. *)
Example daemon_loses_redis :
  snd <$> started (demo_boot team_env).1 = Some (mkStores RedisLimiter true true)
  ∧ snd <$> started (demo_boot (as_env (buildDaemonEnv team_env (Some 3100) "data"))).1
    = Some (mkStores (InMemoryLimiter true) false false).
Proof. by vm_compute. Qed.
End ServerControlSafety.
