(* ===== verification/Backup.v ===== *)
(** * Archives of a server ([cli/server/backup.ts], [cli/server/restore.ts])

    A directory is the map of its files by path; one without files is as none,
    but for the directory of the configuration itself. An archive is such a map
    too, made and unpacked by a library. *)

From S2P Require Import Prelude Paths Announce EventStream Providers ServerControl.
Local Open Scope Z_scope.

Module Backup.

Notation Path := (list string).
Notation Tree := (gmap Path string).

Definition top (p : Path) : string := match p with [] => "" | x :: _ => x end.

(** The files of some entries of a directory, and a directory as an entry. *)
Definition pack (entries : list string) (t : Tree) : Tree := filter (λ f, top f.1 ∈ entries) t.
Definition under (name : string) (t : Tree) : Tree := kmap (cons name) t.

(** [existsSync] of an entry, and whether an archive lists it. *)
Definition has_entry (name : string) (t : Tree) : bool := bool_decide (map_Exists (λ p _, top p = name) t).

(** [getRunningCoordinatorPid]: the files of the processes are by their name. *)
Definition getRunningCoordinatorPid (isProcessAlive : Z → bool) (files : gmap string string)
    (config : ServerControl.CoordinatorConfig) : option Z :=
  raw ← files !! ServerControl.existingPidFile (λ f, bool_decide (is_Some (files !! f))) (Some (ServerControl.c_port config));
  pid ← EventStream.parseInt (PlanQuality.trim raw);
  if isProcessAlive pid then Some pid else None.

(** ** [backup] *)

(** Where the data are: under the directory of the configuration, or in another,
    which may be missing. *)
Inductive DataDir := DefaultData | CustomData (dir : option (string * Tree)).

Definition buildEntries (config : Tree) (data : DataDir) : list string :=
  (if has_entry "config.json" config then ["config.json"] else [])
  ++ (match data with DefaultData => if has_entry "data" config then ["data"] else [] | CustomData _ => [] end).

(** [outputPath.replace(/\.tar\.gz$/, ".data.tar.gz")] *)
Definition dataArchive (outputPath : string) : string :=
  if endsWith ".tar.gz" outputPath
  then String.substring 0 (String.length outputPath - 7) outputPath +:+ ".data.tar.gz" else outputPath.

Inductive BackupResult := BackupRefused (pid : Z) | NoConfigDir | NothingToBackUp | BackedUp.

Definition custom_entry (data : DataDir) : option Tree :=
  match data with CustomData (Some (name, t)) => Some (under name t) | _ => None end.

(** The archives are files by their path. *)
Definition backup (running : option Z) (force : bool) (outputPath : string) (config : option Tree) (data : DataDir)
    (archives : gmap string Tree) : BackupResult * gmap string Tree :=
  match running, force, config with
  | Some pid, false, _ => (BackupRefused pid, archives)
  | _, _, None => (NoConfigDir, archives)
  | _, _, Some config =>
      let entries := buildEntries config data in
      if decide (entries = [] ∧ custom_entry data = None) then (NothingToBackUp, archives)
      else
        let archives := if decide (entries = []) then archives else <[outputPath := pack entries config]> archives in
        (BackedUp, match custom_entry data with Some t => <[dataArchive outputPath := t]> archives | None => archives end)
  end.

(** ** [restore] *)

(** The library unpacks the archive, or fails with part of it written. *)
Inductive Extraction := Extracted | Broken (partial : Tree).

Inductive RestoreResult :=
  | TarballNotFound | RestoreRefused (pid : Z) | TarballUnreadable | UnexpectedEntries
  | Crashed | RestoreDone | RolledBack | ManualRecovery | ExtractionFailed.

(** [renameSync] of a directory onto one that has files throws. *)
Definition rename (from to : string) (dirs : gmap string Tree) : option (gmap string Tree) :=
  match dirs !! from with
  | None => None
  | Some t =>
      if decide (default ∅ (dirs !! to) = ∅) then Some (<[to := t]> (delete from dirs)) else None
  end.

Section restore.
(** The directory of the configuration and the times in the names. *)
Context (configDir ts1 ts2 : string).

Definition snapshotPath : string := configDir +:+ ".bak-" +:+ ts1.
Definition failedPath : string := configDir +:+ ".failed-" +:+ ts2.

(** [mkdirSync(configDir, { recursive: true })], then the files over those there. *)
Definition unpack (files : Tree) (dirs : gmap string Tree) : gmap string Tree :=
  <[configDir := files ∪ default ∅ (dirs !! configDir)]> dirs.

Definition roll_back (dirs : gmap string Tree) : RestoreResult * gmap string Tree :=
  match rename configDir failedPath dirs with
  | None => (ManualRecovery, dirs)
  | Some dirs => match rename snapshotPath configDir dirs with
                 | None => (ManualRecovery, dirs)
                 | Some dirs => (RolledBack, dirs)
                 end
  end.

(** The directory is moved aside, made again and filled. *)
Definition replace_config (shouldSnapshot : bool) (ex : Extraction) (files : Tree) (dirs : gmap string Tree)
    : RestoreResult * gmap string Tree :=
  let snapshot := shouldSnapshot && bool_decide (is_Some (dirs !! configDir)) in
  match (if snapshot then rename configDir snapshotPath dirs else Some dirs) with
  | None => (Crashed, dirs)
  | Some dirs =>
      match ex with
      | Extracted => (RestoreDone, unpack files dirs)
      | Broken partial =>
          let dirs := unpack partial dirs in
          if snapshot then roll_back dirs else (ExtractionFailed, dirs)
      end
  end.

(** [tar] is nothing where there is no file, and [Some None] one that cannot be
    listed. *)
Definition restore (running : option Z) (force shouldSnapshot : bool) (ex : Extraction) (tar : option (option Tree))
    (dirs : gmap string Tree) : RestoreResult * gmap string Tree :=
  match tar with
  | None => (TarballNotFound, dirs)
  | Some tar =>
      match running, force, tar with
      | Some pid, false, _ => (RestoreRefused pid, dirs)
      | _, _, None => (TarballUnreadable, dirs)
      | _, _, Some files =>
          if negb (has_entry "config.json" files) && negb (has_entry "data" files) then (UnexpectedEntries, dirs)
          else replace_config shouldSnapshot ex files dirs
      end
  end.

(** ** Nothing is lost *)

Lemma app_ne a b : b ≠ "" → a +:+ b ≠ a.
Proof. intros Hb E. apply Hb, (str_app_inj a). by rewrite E, str_app_nil_r. Qed.

Lemma snapshot_other : snapshotPath ≠ configDir.
Proof. by apply app_ne. Qed.
Lemma failed_other : failedPath ≠ configDir.
Proof. by apply app_ne. Qed.
Lemma snapshot_failed : snapshotPath ≠ failedPath.
Proof. unfold snapshotPath, failedPath. by intros E%str_app_inj. Qed.

Lemma rename_spec from to dirs dirs' : from ≠ to → rename from to dirs = Some dirs' →
  ∃ t, dirs !! from = Some t ∧ dirs' !! to = Some t ∧ dirs' !! from = None
  ∧ ∀ n, n ≠ from → n ≠ to → dirs' !! n = dirs !! n.
Proof.
  intros Hne. unfold rename. destruct (dirs !! from) as [t|] eqn:E; [|done]. case_decide; [|done]. intros [= <-]. exists t.
  split_and!; [done|by rewrite lookup_insert_eq|by rewrite lookup_insert_ne, lookup_delete_eq|].
  intros n Hn Hn'. by rewrite lookup_insert_ne, lookup_delete_ne.
Qed.

Lemma rename_free from to dirs t : dirs !! from = Some t → dirs !! to = None →
  rename from to dirs = Some (<[to := t]> (delete from dirs)).
Proof. intros E1 E2. unfold rename. by rewrite E1, E2. Qed.

(** What a directory of the home holds after a restore. *)
Definition kept (old : option Tree) (dirs dirs' : gmap string Tree) : Prop :=
  (∀ t, old = Some t → dirs' !! configDir = Some t ∨ dirs' !! snapshotPath = Some t)
  ∧ ∀ n, n ≠ configDir → n ≠ snapshotPath → n ≠ failedPath → dirs' !! n = dirs !! n.

Lemma kept_refl dirs : kept (dirs !! configDir) dirs dirs.
Proof. split; [by left|done]. Qed.

Lemma unpack_other files dirs n : n ≠ configDir → unpack files dirs !! n = dirs !! n.
Proof. intros Hn. unfold unpack. by rewrite lookup_insert_ne. Qed.

Lemma roll_back_keeps dirs r dirs' t :
  dirs !! snapshotPath = Some t → roll_back dirs = (r, dirs') →
  (dirs' !! configDir = Some t ∨ dirs' !! snapshotPath = Some t)
  ∧ ∀ n, n ≠ configDir → n ≠ snapshotPath → n ≠ failedPath → dirs' !! n = dirs !! n.
Proof.
  intros Hs. unfold roll_back. destruct (rename configDir failedPath dirs) as [d1|] eqn:E1; [|intros [= _ <-]; by split; [right|]].
  apply rename_spec in E1 as (u & _ & _ & _ & H1); [|symmetry; apply failed_other].
  assert (d1 !! snapshotPath = Some t) as Hs1 by (rewrite H1; [done|apply snapshot_other|apply snapshot_failed]).
  destruct (rename snapshotPath configDir d1) as [d2|] eqn:E2; intros [= _ <-].
  - apply rename_spec in E2 as (v & Ev & Hv & _ & H2); [|apply snapshot_other]. split; [left; congruence|].
    intros n Hn1 Hn2 Hn3. by rewrite H2, H1.
  - split; [by right|]. intros n Hn1 Hn2 Hn3. by rewrite H1.
Qed.

Lemma replace_keeps ex files dirs r dirs' :
  replace_config true ex files dirs = (r, dirs') → kept (dirs !! configDir) dirs dirs'.
Proof.
  unfold replace_config. cbv zeta. cbn [andb]. destruct (dirs !! configDir) as [t|] eqn:Et.
  - rewrite bool_decide_true by by eexists.
    destruct (rename configDir snapshotPath dirs) as [d1|] eqn:E1; [|intros [= _ <-]; rewrite <- Et; apply kept_refl].
    apply rename_spec in E1 as (u & Eu & Hs & _ & H1); [|symmetry; apply snapshot_other].
    assert (u = t) as -> by congruence. destruct ex as [|partial].
    + intros [= _ <-]. split; [|intros n Hn1 Hn2 _; by rewrite unpack_other, H1].
      intros t' [= <-]. right. rewrite unpack_other; [done|apply snapshot_other].
    + intros Hr. apply (roll_back_keeps _ _ _ t) in Hr as [Hk Ho]; [|rewrite unpack_other; [done|apply snapshot_other]].
      split; [by intros t' [= <-]|]. intros n Hn1 Hn2 Hn3. rewrite Ho by done. by rewrite unpack_other, H1.
  - rewrite bool_decide_false by by intros [? [=]].
    destruct ex; intros [= _ <-]; (split; [done|]); intros n Hn1 _ _; by rewrite unpack_other.
Qed.

(** A restore with its default options loses nothing, whatever the archive holds,
    wherever the extraction breaks and whichever rename fails: the directory of
    the configuration is still there as it was, in its place or under the name it
    was moved to, and no other directory of the home is touched. *)
Theorem restore_never_loses running force ex tar dirs r dirs' :
  restore running force true ex tar dirs = (r, dirs') → kept (dirs !! configDir) dirs dirs'.
Proof.
  unfold restore. intros Hr.
  assert (dirs' = dirs ∨ ∃ files, replace_config true ex files dirs = (r, dirs')) as [->|(files & Hf)];
    [|apply kept_refl|by eapply replace_keeps].
  repeat case_match; simplify_eq; eauto.
Qed.

(** An extraction that breaks leaves the directory as it was, where the names are
    free; what was unpacked is kept apart. *)
Theorem restore_rolls_back force partial files dirs t :
  dirs !! configDir = Some t → dirs !! snapshotPath = None → dirs !! failedPath = None →
  has_entry "config.json" files || has_entry "data" files = true →
  restore None force true (Broken partial) (Some (Some files)) dirs = (RolledBack, <[failedPath := partial]> dirs).
Proof.
  intros Ht Hs Hf He. unfold restore, replace_config. assert (negb (has_entry "config.json" files) && negb (has_entry "data" files) = false) as ->
    by (destruct (has_entry _ _), (has_entry _ _); done).
  cbv zeta. rewrite Ht, bool_decide_true by by eexists. cbn [andb].
  pose proof snapshot_other as N1. pose proof failed_other as N2. pose proof snapshot_failed as N3.
  rewrite (rename_free _ _ _ t) by done. unfold roll_back, unpack.
  rewrite lookup_insert_ne, lookup_delete_eq by done. cbn [default from_option id]. rewrite map_union_empty.
  rewrite (rename_free _ _ _ partial);
    [|by rewrite lookup_insert_eq|by rewrite !lookup_insert_ne, lookup_delete_ne by done].
  rewrite (rename_free _ _ _ t);
    [|rewrite lookup_insert_ne, lookup_delete_ne, lookup_insert_ne, lookup_insert_eq by done; done
     |by rewrite lookup_insert_ne, lookup_delete_eq by done].
  f_equal. apply map_eq. intros n.
  destruct (decide (n = configDir)) as [->|Hn1]; [rewrite lookup_insert_eq, lookup_insert_ne by done; done|].
  rewrite lookup_insert_ne by done. destruct (decide (n = snapshotPath)) as [->|Hn2].
  { rewrite lookup_delete_eq, lookup_insert_ne by done. done. }
  rewrite lookup_delete_ne by done. destruct (decide (n = failedPath)) as [->|Hn3]; [by rewrite !lookup_insert_eq|].
  by rewrite !lookup_insert_ne, lookup_delete_ne, !lookup_insert_ne, lookup_delete_ne by done.
Qed.

(** ** A backup is restored *)

Lemma has_entry_pack name l t : name ∈ l → has_entry name (pack l t) = has_entry name t.
Proof.
  intros Hl. unfold has_entry, pack. apply bool_decide_ext. split; intros (p & v & E & Hp).
  - apply map_lookup_filter_Some in E as [E _]. by exists p, v.
  - exists p, v. split; [|done]. apply map_lookup_filter_Some. split; [done|]. simpl. by rewrite Hp.
Qed.

(** The entries that are not there have no files. *)
Lemma pack_entries config : pack (buildEntries config DefaultData) config = pack ["config.json"; "data"] config.
Proof.
  apply map_filter_ext. intros p v E. simpl. unfold buildEntries.
  assert (∀ n, top p = n → has_entry n config = true) as Hh by (intros n Hn; apply bool_decide_eq_true; by exists p, v).
  rewrite elem_of_app, elem_of_cons, list_elem_of_singleton. split.
  - intros [Hi|Hi]; [destruct (has_entry "config.json" config)|destruct (has_entry "data" config)];
      apply elem_of_cons in Hi as [?|?%elem_of_nil] || apply elem_of_nil in Hi; tauto.
  - intros [Hi|Hi]; [left|right]; rewrite (Hh _ Hi), Hi; left.
Qed.

(** What is archived from one machine and unpacked on another is its
    configuration and its data, and what was there before is moved aside. *)
Theorem backup_restored force output config archives archives' dirs :
  backup None force output (Some config) DefaultData archives = (BackedUp, archives') → dirs !! snapshotPath = None →
  ∃ files dirs', archives' !! output = Some files
  ∧ restore None false true Extracted (Some (Some files)) dirs = (RestoreDone, dirs')
  ∧ dirs' !! configDir = Some (pack ["config.json"; "data"] config)
  ∧ dirs' !! snapshotPath = dirs !! configDir.
Proof.
  unfold backup. cbn [custom_entry]. cbv zeta. case_decide as Hd; [by destruct force|]. assert (buildEntries config DefaultData ≠ []) as Hne by tauto.
  rewrite decide_False by done. intros Hb Hs. assert (archives' = <[output := pack (buildEntries config DefaultData) config]> archives) as ->
    by (destruct force; by injection Hb).
  rewrite pack_entries. exists (pack ["config.json"; "data"] config).
  cut (∃ dirs', restore None false true Extracted (Some (Some (pack ["config.json"; "data"] config))) dirs = (RestoreDone, dirs')
    ∧ dirs' !! configDir = Some (pack ["config.json"; "data"] config) ∧ dirs' !! snapshotPath = dirs !! configDir).
  { intros (dirs' & ? & ? & ?). exists dirs'. split_and!; [by rewrite lookup_insert_eq|done..]. }
  unfold restore. rewrite !has_entry_pack by set_solver.
  assert (negb (has_entry "config.json" config) && negb (has_entry "data" config) = false) as ->.
  { unfold buildEntries in Hne. destruct (has_entry "config.json" config), (has_entry "data" config); done. }
  unfold replace_config. cbv zeta. cbn [andb]. pose proof snapshot_other as N1.
  destruct (dirs !! configDir) as [t|] eqn:Et.
  - rewrite bool_decide_true by by eexists. rewrite (rename_free _ _ _ t) by done. eexists. split; [reflexivity|]. unfold unpack.
    rewrite lookup_insert_eq, !lookup_insert_ne, lookup_delete_eq, lookup_insert_eq by done.
    cbn [default from_option id]. by rewrite map_union_empty.
  - rewrite bool_decide_false by by intros [? [=]]. eexists. split; [reflexivity|]. unfold unpack.
    rewrite lookup_insert_eq, lookup_insert_ne, Et by done. cbn [default from_option id]. by rewrite map_union_empty.
Qed.

(** ** Where it is not *)

Lemma has_entry_under name n t : n ≠ name → has_entry n (under name t) = false.
Proof.
  intros Hn. apply bool_decide_eq_false. intros (p & v & E & Hp). apply lookup_kmap_Some in E as (q & -> & _); [|apply _].
  by apply Hn.
Qed.

(** The archive of a data directory that is elsewhere is refused by [restore],
    unless that directory happens to be called [data]. *)
Theorem custom_data_refused force snap ex name t dirs : name ≠ "config.json" → name ≠ "data" →
  restore None force snap ex (Some (Some (under name t))) dirs = (UnexpectedEntries, dirs).
Proof. intros H1 H2. unfold restore. by rewrite !has_entry_under by congruence. Qed.
End restore.

(** Where the name given does not end in [.tar.gz], the archive of such a directory
    overwrites that of the configuration. *)
Theorem custom_data_overwrites force output config name t archives archives' :
  endsWith ".tar.gz" output = false →
  backup None force output (Some config) (CustomData (Some (name, t))) archives = (BackedUp, archives') →
  archives' !! output = Some (under name t).
Proof.
  intros He. unfold backup. cbn [custom_entry]. cbv zeta. rewrite decide_False by (by intros [_ ?]).
  unfold dataArchive. rewrite He. destruct force; intros [= <-]; by rewrite lookup_insert_eq.
Qed.

(** A server on a port that is not the configured one is not seen, and is archived
    while it writes. *)
Example running_unseen :
  let m := ServerControl.start_server 20 3200 (ServerControl.mkMachine ∅ ∅) in
  ServerControl.servers m !! 20 = Some 3200
  ∧ getRunningCoordinatorPid (λ _, true) (ServerControl.files m) (ServerControl.DEFAULT_CONFIG "data") = None.
Proof. by vm_compute. Qed.

(** ** A run *)

Definition demo_config : Tree := {[ ["config.json"] := "{}"; ["data"; "coordinator.db"] := "rows"; ["logs"; "server.log"] := "x" ]}.

Notation demo_dirs := ({[ "home" := demo_config ]} : gmap string Tree).
Notation demo_restore := (restore "home" "1" "2" None false true (Broken {[ ["config.json"] := "half" ]})
  (Some (Some {[ ["config.json"] := "{ }" ]})) demo_dirs).

Lemma restore_never_loses_witness : demo_restore.1 = RolledBack ∧ demo_restore.2 !! "home" = Some demo_config.
Proof.
  split; [vm_compute; reflexivity|].
  destruct (restore_never_loses "home" "1" "2" None false (Broken {[ ["config.json"] := "half" ]})
    (Some (Some {[ ["config.json"] := "{ }" ]})) demo_dirs demo_restore.1 demo_restore.2 (surjective_pairing _)) as [Hk _].
  destruct (Hk demo_config) as [H1|H1]; [apply lookup_singleton_eq|exact H1|].
  exfalso. assert (demo_restore.2 !! snapshotPath "home" "1" = None) as H2 by (vm_compute; reflexivity).
  rewrite H2 in H1. discriminate H1.
Defined.

Lemma backup_restored_witness : ∃ files dirs',
  restore "home" "1" "2" None false true Extracted (Some (Some files)) ∅ = (RestoreDone, dirs')
  ∧ dirs' !! "home" = Some (pack ["config.json"; "data"] demo_config).
Proof.
  assert ((backup None false "out.tar.gz" (Some demo_config) DefaultData ∅).1 = BackedUp) as Hb by (vm_compute; reflexivity).
  destruct (backup None false "out.tar.gz" (Some demo_config) DefaultData ∅) as [r archives'] eqn:Ea. cbn [fst] in Hb. subst r.
  destruct (backup_restored "home" "1" "2" false "out.tar.gz" demo_config ∅ archives' ∅ Ea (lookup_empty _)) as (files & dirs' & _ & E & Hc & _).
  exact (ex_intro _ files (ex_intro _ dirs' (conj E Hc))).
Defined.
End Backup.
