(* ===== verification/Doctor.v ===== *)
(** * The examination of an installation ([cli/doctor.ts])

    Each probe reads an answer, of the network, of the database or of the
    environment, and gives a verdict; the exit code is that of the worst. The
    answers are arguments; what a server answers comes from its own files
    ([src/http/health.ts], [src/discovery.ts]), and the probes are compared with it.
    The texts shown are left out. *)

From S2P Require Import Prelude Paths Announce EventStream Login Providers AuditChain Sweeper HttpServer Phase2Boot ServerControl.
Local Open Scope Z_scope.

Module Doctor.
Import Providers Phase2Boot Phase2BootSafety.

(** ** Verdicts *)

Inductive Severity := SevOk | SevWarn | SevFail.

#[export] Instance Severity_eq_dec : EqDecision Severity.
Proof. solve_decision. Defined.

(** [ok] and the optional [severity]. *)
Record CheckResult := mkCheck { name : string; ok : bool; severity : option Severity }.

Definition passed (n : string) : CheckResult := mkCheck n true (Some SevOk).
Definition warned (n : string) : CheckResult := mkCheck n false (Some SevWarn).
Definition failed (n : string) : CheckResult := mkCheck n false (Some SevFail).

(** ** The modules *)

(** What [import] of a module does; an exception has a code and a message. *)
Inductive Import := Loads | Throws (code : option string) (message : string).

Definition isMissing (code : option string) (message : string) : bool :=
  match code with
  | Some c => String.eqb c "ERR_MODULE_NOT_FOUND" || String.eqb c "MODULE_NOT_FOUND"
  | None => false
  end || includes "Cannot find module" message.

Definition is_broken (i : Import) : bool := match i with Throws c m => isMissing c m | Loads => false end.
Definition is_other (i : Import) : bool := match i with Throws c m => negb (isMissing c m) | Loads => false end.

Definition checkDependencyTree (imports : list Import) : CheckResult :=
  if existsb is_broken imports then failed "deps"
  else if existsb is_other imports then failed "deps"
  else passed "deps".

(** ** The network *)

(** A failed fetch, or a status with a text, parsed where it is JSON. *)
Inductive Answer := Unreachable | Response (status : Z) (text : string) (body : option js).

Definition res_ok (status : Z) : bool := bool_decide (200 ≤ status ≤ 299).

Definition stripTrailingSlash (u : string) : string :=
  if endsWith "/" u then String.substring 0 (String.length u - 1) u else u.

Section url.
Context (URL : string → option Url).

Definition probePublicUrl (publicUrl : option string) (head : Answer) : CheckResult :=
  let n := "phase2.public_url" in
  match truthy publicUrl with
  | None => failed n
  | Some u =>
      match URL u with
      | None => failed n
      | Some parsed =>
          if negb (String.eqb (protocol parsed) "http:") && negb (String.eqb (protocol parsed) "https:") then failed n
          else match head with
               | Response 200 _ _ => passed n
               | _ => warned n
               end
      end
  end.
End url.

(** [Array.isArray(v) && v.length === 1 && v[0] === s] *)
Definition only (s : string) (v : option js) : bool :=
  match v with Some (JArr [JStr x]) => String.eqb x s | _ => false end.

(** [v === s] *)
Definition is_text (s : string) (v : option js) : bool := match v with Some (JStr x) => String.eqb x s | _ => false end.

(** [None] is an exception: a property of [null] is read. *)
Definition probeDiscoveryDoc (publicUrl : option string) (get : Answer) : option CheckResult :=
  let n := "phase2.discovery_doc" in
  match truthy publicUrl with
  | None => Some (failed n)
  | Some u =>
      match get with
      | Unreachable => Some (failed n)
      | Response status _ body =>
          if negb (res_ok status) then Some (failed n)
          else match body with
               | None => Some (failed n)
               | Some JNull => None
               | Some doc =>
                   if negb (is_text (stripTrailingSlash u) (prop_of "issuer" doc)) then Some (warned n)
                   else if negb (only "none" (prop_of "token_endpoint_auth_methods_supported" doc)) then Some (failed n)
                   else if negb (only "S256" (prop_of "code_challenge_methods_supported" doc)) then Some (failed n)
                   else Some (passed n)
               end
      end
  end.

(** The two probes of credentials, with the error that a good pair gives. *)
Definition probe_creds (n good : string) (clientId clientSecret : option string) (smoke : bool) (error : option string)
    : CheckResult :=
  match truthy clientId, truthy clientSecret with
  | None, None => passed n
  | Some _, None | None, Some _ => warned n
  | Some _, Some _ =>
      if negb smoke then passed n
      else match error with Some e => if String.eqb e good then passed n else warned n | None => warned n end
  end.

(** [parsed.error], where the text is JSON. *)
Definition json_error (body : option js) : option string :=
  match body with Some b => match prop_of "error" b with Some (JStr e) => Some e | _ => None end | None => None end.

Definition github_error (a : Answer) : option string :=
  match a with
  | Unreachable => None
  | Response _ text (Some b) => json_error (Some b)
  | Response _ text None =>
      if includes "bad_verification_code" text then Some "bad_verification_code"
      else if includes "incorrect_client_credentials" text then Some "incorrect_client_credentials" else None
  end.

Definition probeGitHubCreds (clientId clientSecret : option string) (smoke : bool) (a : Answer) : CheckResult :=
  probe_creds "phase2.github_creds" "bad_verification_code" clientId clientSecret smoke (github_error a).

Definition google_error (a : Answer) : option string := match a with Unreachable => None | Response _ _ b => json_error b end.

Definition probeGoogleCreds (clientId clientSecret : option string) (smoke : bool) (a : Answer) : CheckResult :=
  probe_creds "phase2.google_creds" "invalid_grant" clientId clientSecret smoke (google_error a).

(** ** The database *)

(** What a connection answers; [None] is an exception of the opener. *)
Record Pragmas := mkPragmas {
  journal_mode : string; foreign_keys : string; busy_timeout : Z; p_user_version : Z; sqlite_version : string }.

(** The parts that are not numbers compare as false. *)
Definition sqliteVerOk (v : string) : bool :=
  match split_on "." v with
  | major :: rest =>
      match EventStream.parseInt major with
      | Some m => bool_decide (3 < m)
          || bool_decide (m = 3) && match rest with
                                    | minor :: _ => match EventStream.parseInt minor with
                                                    | Some k => bool_decide (25 ≤ k) | None => false end
                                    | [] => false
                                    end
      | None => false
      end
  | [] => false
  end.

Definition probeSqlite (opened : option Pragmas) : CheckResult :=
  let n := "phase2.sqlite" in
  match opened with
  | None => failed n
  | Some p =>
      if String.eqb (Paths.toLowerCase (journal_mode p)) "wal" && String.eqb (foreign_keys p) "1"
         && bool_decide (5000 ≤ busy_timeout p) && bool_decide (8 ≤ p_user_version p) && sqliteVerOk (sqlite_version p)
      then passed n else failed n
  end.

Definition PHASE2_ACTIONS : list string :=
  ["auth.login.success"; "auth.login.failure"; "auth.refresh"; "auth.token_revoke"; "auth.logout"; "config.boot";
   "device.approve"; "service_token.issue"].

(** The rows of the log with their times in seconds. *)
Definition probePhase2AuditEvents (now : Z) (opened : option (list (string * Z))) : CheckResult :=
  let n := "phase2.audit_events" in
  match opened with
  | None => failed n
  | Some rows =>
      if decide (filter (λ r, r.1 ∈ PHASE2_ACTIONS ∧ now - 86400 ≤ r.2) rows = []) then warned n else passed n
  end.

(** [defaultSqliteOpener] and [defaultAuditOpener] call [require], which an ES
    module has not. *)
Definition defaultOpener {A} (es_module : bool) (open : option A) : option A := if es_module then None else open.

(** ** The environment *)

Definition probeJwtSecretEntropy (secret : option string) : CheckResult :=
  let n := "phase2.jwt_secret_entropy" in
  match truthy secret with
  | None => failed n
  | Some s => if assertSecretEntropy s 128 then passed n else failed n
  end.

(** ** The readiness of the server *)

(** [doc.checks?.k]; the outer [None] is the exception on [null]. *)
Definition check_of (k : string) (doc : js) : option (option js) :=
  match doc with
  | JNull => None
  | _ => match prop_of "checks" doc with
         | None | Some JNull => Some None
         | Some c => Some (prop_of k c)
         end
  end.

Definition num_of (k : string) (v : option js) : option Z :=
  match v with Some v => match prop_of k v with Some (JNum z) => Some z | _ => None end | None => None end.

Definition probeAuditQueueDepth (publicUrl : option string) (get : Answer) : option CheckResult :=
  let n := "phase2.audit_queue" in
  match truthy publicUrl, get with
  | None, _ | _, Unreachable | _, Response _ _ None => Some (failed n)
  | Some _, Response _ _ (Some doc) =>
      match check_of "audit_queue" doc with
      | None => None
      | Some q =>
          match num_of "depth" q, num_of "threshold_percent" q with
          | Some depth, Some threshold => Some (if decide (threshold ≤ depth) then warned n else passed n)
          | _, _ => Some (warned n)
          end
      end
  end.

(** A value that counts as false. *)
Definition falsy (v : option js) : bool :=
  match v with
  | None | Some JNull | Some (JBool false) | Some (JNum 0) | Some (JStr "") => true
  | _ => false
  end.

Definition is_true (v : option js) : bool := match v with Some (JBool b) => b | _ => false end.

Definition probeSweeperStatus (publicUrl : option string) (get : Answer) : option CheckResult :=
  let n := "phase2.sweeper" in
  match truthy publicUrl, get with
  | None, _ => Some (failed n)
  | _, Unreachable | _, Response _ _ None => Some (warned n)
  | Some _, Response _ _ (Some doc) =>
      match check_of "sweeper" doc with
      | None => None
      | Some s =>
          if falsy s then Some (warned n)
          else if is_true (s ≫= prop_of "ok") && negb (is_true (s ≫= prop_of "circuit_open")) then Some (passed n)
          else Some (failed n)
      end
  end.

(** ** The run *)

(** The third check: the file of the process, where there is one, and whether the
    process is alive. *)
Definition pid_check (raw : option string) (isAlive : Z → bool) : CheckResult :=
  mkCheck "pid-file"
    (match raw with
     | Some raw => match EventStream.parseInt (PlanQuality.trim raw) with
                   | Some pid => bool_decide (0 < pid) && isAlive pid
                   | None => false
                   end
     | None => false
     end) None.

Record Phase1 := mkPhase1 {
  deps : list Import; configDir_exists : bool; config_file : ServerControl.ConfigFile;
  pid_file : option string; alive : Z → bool; http_up : bool;
  health_status : option Z; mcp_ok : bool; dashboard_status : option Z; mqtt_up : bool }.

Definition config_check (f : ServerControl.ConfigFile) : CheckResult :=
  mkCheck "config.json"
    (match f with ServerControl.NoConfig => false | _ => bool_decide (is_Some (ServerControl.loadConfig "" f)) end) None.

Definition phase1 (p : Phase1) : list CheckResult :=
  [checkDependencyTree (deps p); mkCheck "config-dir" (configDir_exists p) None; config_check (config_file p);
   pid_check (pid_file p) (alive p); mkCheck "tcp" (http_up p) None]
  ++ (if http_up p then [mkCheck "/health" (bool_decide (health_status p = Some 200)) None;
                         mkCheck "/mcp initialize" (mcp_ok p) None;
                         mkCheck "/dashboard" (bool_decide (dashboard_status p = Some 200)) None] else [])
  ++ [mkCheck "mqtt" (mqtt_up p) None].

(** The answers that the second part gets. *)
Record Phase2 := mkPhase2 {
  head_healthz : Answer; get_discovery : Answer; post_github : Answer; post_google : Answer;
  get_ready : Answer; pragmas : option Pragmas; audit_rows : option (list (string * Z)) }.

(** [Promise.all]: an exception of one is that of all. *)
Definition runPhase2Probes (URL : string → option Url) (env : Env) (now : Z) (a : Phase2) : option (list CheckResult) :=
  let publicUrl := env "COORDINATOR_PUBLIC_URL" in
  discovery ← probeDiscoveryDoc publicUrl (get_discovery a);
  queue ← probeAuditQueueDepth publicUrl (get_ready a);
  sweeper ← probeSweeperStatus publicUrl (get_ready a);
  Some [probePublicUrl URL publicUrl (head_healthz a); discovery;
        probeGitHubCreds (env "COORDINATOR_GITHUB_CLIENT_ID") (env "COORDINATOR_GITHUB_CLIENT_SECRET") true (post_github a);
        probeGoogleCreds (env "COORDINATOR_GOOGLE_CLIENT_ID") (env "COORDINATOR_GOOGLE_CLIENT_SECRET") true (post_google a);
        probeSqlite (pragmas a); probeJwtSecretEntropy (env "COORDINATOR_JWT_SECRET"); queue; sweeper;
        probePhase2AuditEvents now (audit_rows a)].

Definition sev (r : CheckResult) : Severity := match severity r with Some s => s | None => if ok r then SevOk else SevFail end.

(** The exit code. The first part counts [ok], the second the severity. *)
Definition exit_code (first second : list CheckResult) : Z :=
  let anyFail := existsb (λ r, negb (ok r)) first || existsb (λ r, bool_decide (sev r = SevFail)) second in
  let anyWarn := existsb (λ r, bool_decide (sev r = SevWarn)) second in
  if negb anyFail && negb anyWarn then 0 else if anyFail then 2 else 1.

(** ** What the server answers *)

Definition buildDiscoveryDoc (publicUrl : string) : js :=
  let base := stripTrailingSlash publicUrl in
  JObj [("issuer", JStr base); ("token_endpoint", JStr (base +:+ "/api/auth/oauth/token"));
        ("device_authorization_endpoint", JStr (base +:+ "/api/auth/oauth/device_authorization"));
        ("revocation_endpoint", JStr (base +:+ "/api/auth/revoke")); ("userinfo_endpoint", JStr (base +:+ "/api/auth/me"));
        ("grant_types_supported", JArr [JStr "authorization_code"; JStr "refresh_token";
                                        JStr "urn:ietf:params:oauth:grant-type:device_code"]);
        ("response_types_supported", JArr []); ("code_challenge_methods_supported", JArr [JStr "S256"]);
        ("token_endpoint_auth_methods_supported", JArr [JStr "none"]);
        ("revocation_endpoint_auth_methods_supported", JArr [JStr "none"]);
        ("service_documentation", JStr (base +:+ "/docs/oauth-setup"));
        ("id_token_signing_alg_values_supported", JArr [JStr "HS256"])].

(** The document of [/health/ready]: the error of the database and the block on
    the encryption are left out. *)
Definition ready_doc (p : HttpServer.Probes) : js :=
  JObj [("status", JStr (if decide (HttpServer.handleHealthReady p = 200) then "ready" else "not_ready"));
        ("checks", JObj [("db", JObj [("ok", JBool (HttpServer.db_ok p))]);
                         ("audit_queue", JObj [("ok", JBool (HttpServer.audit_queue_ok p));
                                               ("depth", JNum (default 0 (HttpServer.audit_depth p)));
                                               ("capacity", JNum HttpServer.AUDIT_QUEUE_CAPACITY);
                                               ("threshold_percent", JNum HttpServer.auditDepthThresholdPercent)]);
                         ("sweeper", JObj [("ok", JBool (negb (HttpServer.circuit_open p)))]);
                         ("draining", JBool false)])].

Definition ready_answer (p : HttpServer.Probes) : Answer := Response (HttpServer.handleHealthReady p) "" (Some (ready_doc p)).

(** ** The exit code *)

(** Zero, one and two are: nothing wrong, warnings of the second part only, and a
    failure. *)
Theorem exit_code_spec first second :
  (exit_code first second = 0 ↔ Forall (λ r, ok r = true) first ∧ Forall (λ r, sev r = SevOk) second)
  ∧ (exit_code first second = 2 ↔ Exists (λ r, ok r = false) first ∨ Exists (λ r, sev r = SevFail) second)
  ∧ (exit_code first second = 0 ∨ exit_code first second = 1 ∨ exit_code first second = 2).
Proof.
  unfold exit_code. cbv zeta.
  assert (existsb (λ r, negb (ok r)) first = true ↔ Exists (λ r, ok r = false) first) as E1.
  { rewrite existsb_exists, Exists_exists. setoid_rewrite negb_true_iff. setoid_rewrite list_elem_of_In. done. }
  assert (∀ s, existsb (λ r, bool_decide (sev r = s)) second = true ↔ Exists (λ r, sev r = s) second) as E2.
  { intros s. rewrite existsb_exists, Exists_exists. setoid_rewrite bool_decide_eq_true. setoid_rewrite list_elem_of_In. done. }
  pose proof (E2 SevFail) as Ef. pose proof (E2 SevWarn) as Ew. clear E2.
  assert (Forall (λ r, ok r = true) first ↔ ¬ Exists (λ r, ok r = false) first) as N1.
  { rewrite Forall_forall, Exists_exists. split; [intros Ha (r & Hr & E); specialize (Ha r Hr); congruence|].
    intros Hn r Hr. destruct (ok r) eqn:E; [done|]. destruct Hn. by exists r. }
  assert (Forall (λ r, sev r = SevOk) second ↔ ¬ Exists (λ r, sev r = SevFail) second ∧ ¬ Exists (λ r, sev r = SevWarn) second) as N2.
  { rewrite Forall_forall, !Exists_exists. split.
    - intros Ha. split; intros (r & Hr & E); specialize (Ha r Hr); congruence.
    - intros [H1 H2] r Hr. destruct (sev r) eqn:E; [done|destruct H2; by exists r|destruct H1; by exists r]. }
  rewrite N1, N2, <- E1, <- Ef, <- Ew.
  destruct (existsb _ first), (existsb (λ r, bool_decide (sev r = SevFail)) second), (existsb (λ r, bool_decide (sev r = SevWarn)) second);
    cbn; repeat split; try tauto; try lia; intuition (try congruence; try lia).
Qed.

(** ** The doctor and the server *)

(** The document the server publishes is the one that the probe asks for. *)
Lemma discovery_agrees u : u ≠ "" →
  probeDiscoveryDoc (Some u) (Response 200 "" (Some (buildDiscoveryDoc u))) = Some (passed "phase2.discovery_doc").
Proof.
  intros Hu. unfold probeDiscoveryDoc. assert (truthy (Some u) = Some u) as -> by by destruct u.
  unfold buildDiscoveryDoc. cbv zeta. generalize (stripTrailingSlash u). intros base.
  change (res_ok 200) with true. cbn [negb]. unfold is_text. change (prop_of "issuer" _) with (Some (JStr base)).
  cbv iota. rewrite String.eqb_refl. done.
Qed.

Lemma sweeper_agrees u p : u ≠ "" →
  probeSweeperStatus (Some u) (ready_answer p)
  = Some (if HttpServer.circuit_open p then failed "phase2.sweeper" else passed "phase2.sweeper").
Proof.
  intros Hu. unfold probeSweeperStatus. assert (truthy (Some u) = Some u) as -> by by destruct u.
  unfold ready_answer, ready_doc. cbn. by destruct (HttpServer.circuit_open p).
Qed.

Lemma depth_agrees u p : u ≠ "" →
  probeAuditQueueDepth (Some u) (ready_answer p)
  = Some (if decide (80 ≤ default 0 (HttpServer.audit_depth p)) then warned "phase2.audit_queue" else passed "phase2.audit_queue").
Proof. intros Hu. unfold probeAuditQueueDepth. assert (truthy (Some u) = Some u) as -> by by destruct u. done. Qed.

Lemma creds_pass n good id secret : (truthy id = None ↔ truthy secret = None) →
  sev (probe_creds n good id secret true (Some good)) = SevOk.
Proof.
  unfold probe_creds. destruct (truthy id), (truthy secret); cbn [negb]; intros E.
  - by rewrite String.eqb_refl.
  - by assert (Some s = None) by by apply E.
  - by assert (Some s = None) by by apply E.
  - done.
Qed.

(** With no variable set to blanks, what the start takes for unset is unset. *)
Lemma optional_unset env k : (∀ v, env k = Some v → PlanQuality.trim v ≠ "") → readOptionalEnv env k = None ↔ truthy (env k) = None.
Proof.
  intros Hb. unfold readOptionalEnv. destruct (env k) as [v|]; [|done]. specialize (Hb v eq_refl).
  destruct (String.eqb _ "") eqn:E; [by apply String.eqb_eq in E|]. destruct v; [by vm_compute in Hb|done].
Qed.

Lemma trimmed_unset env k : (∀ v, env k = Some v → PlanQuality.trim v ≠ "") → trimmed env k = None ↔ truthy (env k) = None.
Proof.
  intros Hb. unfold trimmed. destruct (env k) as [v|]; [|done]. specialize (Hb v eq_refl). cbn [fmap option_fmap option_map].
  destruct (PlanQuality.trim v) eqn:E; [done|]. destruct v; [by vm_compute in E|done].
Qed.

Lemma public_url_env URL env st : readSettings URL env = inr st →
  publicUrl st ≠ "" ∧ env "COORDINATOR_PUBLIC_URL" = Some (publicUrl st)
  ∧ (readOptionalEnv env "COORDINATOR_GITHUB_CLIENT_ID" = None ↔ readOptionalEnv env "COORDINATOR_GITHUB_CLIENT_SECRET" = None).
Proof.
  intros (jwt & _ & Hk)%ebind_ok. apply ebind_ok in Hk as (url & Hu & Hk). apply readRequired_ne in Hu as [Hne Hu].
  apply ebind_ok in Hk as (gh & Hg & Hk). apply ebind_ok in Hk as (org & _ & Hk).
  apply ebind_ok in Hk as ([] & _ & [_ [= <-]]%check_ok). split_and!; [done|done|].
  revert Hg. unfold githubCredentials. destruct (readOptionalEnv _ _), (readOptionalEnv _ _); done.
Qed.

Lemma google_both URL env st c : composeComponents URL env st = inr c →
  (trimmed env "COORDINATOR_GOOGLE_CLIENT_ID" = None ↔ trimmed env "COORDINATOR_GOOGLE_CLIENT_SECRET" = None).
Proof.
  intros (prev & _ & Hk)%ebind_ok. cbv zeta in Hk. apply ebind_ok in Hk as (? & _ & Hk). apply ebind_ok in Hk as (? & _ & Hk).
  apply ebind_ok in Hk as (g & Hg & _). revert Hg. unfold googleProvider.
  destruct (trimmed _ _), (trimmed _ _); done.
Qed.

(** A server that answers as its code does, with a queue that is nearly empty and
    a sweeper that runs, on a database in order, started within the day. *)
Record healthy (publicUrl : string) (now : Z) (a : Phase2) : Prop := {
  hy_alive : ∃ text body, head_healthz a = Response 200 text body;
  hy_discovery : get_discovery a = Response 200 "" (Some (buildDiscoveryDoc publicUrl));
  hy_ready : ∃ p, get_ready a = ready_answer p ∧ HttpServer.circuit_open p = false ∧ default 0 (HttpServer.audit_depth p) < 80;
  hy_github : github_error (post_github a) = Some "bad_verification_code";
  hy_google : google_error (post_google a) = Some "invalid_grant";
  hy_pragmas : ∃ busy version, pragmas a = Some (mkPragmas "wal" "1" busy version "3.45.1") ∧ 5000 ≤ busy ∧ 8 ≤ version;
  hy_started : ∃ rows t, audit_rows a = Some rows ∧ ("config.boot", t) ∈ rows ∧ now - 86400 ≤ t
}.

(** The doctor agrees with the server: when a start has accepted the settings, and the
    server then answers as its own code does, every probe of the second part
    passes and the exit code is zero. *)
Theorem healthy_server_passes URL env st c now a :
  readSettings URL env = inr st → composeComponents URL env st = inr c →
  (∀ k v, env k = Some v → PlanQuality.trim v ≠ "") → healthy (publicUrl st) now a →
  ∃ l, runPhase2Probes URL env now a = Some l ∧ length l = 9%nat ∧ exit_code [] l = 0.
Proof.
  intros Hs Hc Hb Hy. pose proof (public_url_env URL env st Hs) as (Hne & Hu & Hgh).
  destruct (readSettings_ok URL env st Hs) as (Hj & He & (url & Eu & Hp) & _).
  destruct Hy as [(t1 & b1 & E1) E2 (p & E3 & Hcirc & Hd) E4 E5 (busy & ver & E6 & Hbusy & Hver) (rows & t & E7 & Hrow & Ht)].
  unfold runPhase2Probes. rewrite Hu, E2, discovery_agrees by done. cbn [mbind option_bind].
  rewrite E3, depth_agrees, sweeper_agrees by done. cbn [mbind option_bind].
  eexists. split; [reflexivity|]. split; [reflexivity|]. apply (exit_code_spec [] _). split; [constructor|].
  rewrite Hcirc, decide_False by lia.
  assert (truthy (Some (publicUrl st)) = Some (publicUrl st)) as Htr by by destruct (publicUrl st).
  repeat apply Forall_cons_2; try apply Forall_nil_2; try done.
  - unfold probePublicUrl. rewrite Htr, Eu, E1. by destruct Hp as [->|[-> _]].
  - unfold probeGitHubCreds. rewrite E4. apply creds_pass. rewrite <- !optional_unset by (by intros v; apply Hb). done.
  - unfold probeGoogleCreds. rewrite E5. apply creds_pass. rewrite <- !trimmed_unset by (by intros v; apply Hb).
    by apply (google_both URL env st c).
  - rewrite E6. unfold probeSqlite. cbn [journal_mode foreign_keys busy_timeout p_user_version sqlite_version].
    by rewrite !bool_decide_true.
  - unfold probeJwtSecretEntropy. rewrite Hj. assert (jwtSecret st ≠ "") as Hn by (intros E; by rewrite E in He).
    assert (truthy (Some (jwtSecret st)) = Some (jwtSecret st)) as -> by by destruct (jwtSecret st).
    change 128 with MIN_JWT_SECRET_BITS. by rewrite He.
  - unfold probePhase2AuditEvents. rewrite E7, decide_False; [done|]. intros E. refine (filter_nil_not_elem_of _ rows ("config.boot", t) E _ Hrow).
    split; [|done]. apply (bool_decide_eq_true_1 _). vm_compute. reflexivity.
Qed.

(** ** Where they do not agree *)

(** The depth of the queue is a number of rows and the threshold a percentage: a
    queue of eighty rows of ten thousand is a warning, although the server calls
    itself ready up to eight thousand. *)
Theorem depth_units u p depth : u ≠ "" →
  HttpServer.db_ok p = true → HttpServer.circuit_open p = false → HttpServer.audit_depth p = Some depth → 80 ≤ depth ≤ 8000 →
  HttpServer.handleHealthReady p = 200 ∧ probeAuditQueueDepth (Some u) (ready_answer p) = Some (warned "phase2.audit_queue").
Proof.
  intros Hu Hdb Hc Hd Hr. rewrite depth_agrees by done. rewrite Hd. cbn [default from_option id]. rewrite decide_True by lia.
  split; [|done]. unfold HttpServer.handleHealthReady, HttpServer.audit_queue_ok. rewrite Hdb, Hc, Hd, bool_decide_true; [done|].
  unfold HttpServer.auditDepthThresholdPercent, HttpServer.AUDIT_QUEUE_CAPACITY. lia.
Qed.

(** The default openers never open: in the package, which is made of ES modules, the
    second part always ends with a failure. *)
Theorem openers_fail URL env now a first opened l :
  pragmas a = defaultOpener true opened → runPhase2Probes URL env now a = Some l → exit_code first l = 2.
Proof.
  intros Ho. unfold runPhase2Probes. cbv zeta.
  destruct (probeDiscoveryDoc _ _) as [d|]; [|done]. cbn [mbind option_bind].
  destruct (probeAuditQueueDepth _ _) as [q|]; [|done]. cbn [mbind option_bind].
  destruct (probeSweeperStatus _ _) as [s|]; [|done]. cbn [mbind option_bind]. intros [= <-].
  apply exit_code_spec. right. cbn [defaultOpener] in Ho. rewrite Ho. apply Exists_exists.
  exists (probeSqlite None). split; [|done]. do 4 right. left.
Qed.

(** Of the actions that are counted the server writes three; a server whose users
    only renew their sessions, log out or approve devices looks idle. *)
Example actions_written :
  filter (λ x, x ∈ Sweeper.TIER1_EVENTS ++ Sweeper.TIER2_EVENTS) PHASE2_ACTIONS
  = ["auth.login.success"; "auth.login.failure"; "config.boot"].
Proof. by vm_compute. Qed.

(** ** A run *)

Definition demo_answers : Phase2 :=
  mkPhase2 (Response 200 "" None) (Response 200 "" (Some (buildDiscoveryDoc "https://team.example")))
    (Response 200 "" (Some (JObj [("error", JStr "bad_verification_code")])))
    (Response 400 "" (Some (JObj [("error", JStr "invalid_grant")])))
    (ready_answer (HttpServer.mkProbes true true false (Some 3)))
    (Some (mkPragmas "wal" "1" 5000 12 "3.45.1")) (Some [("config.boot", 900)]).

Lemma healthy_server_passes_witness :
  ∃ l, runPhase2Probes demo_url (demo_env []) 1000 demo_answers = Some l ∧ exit_code [] l = 0.
Proof.
  assert (match readSettings demo_url (demo_env []) with
          | inr st => publicUrl st = "https://team.example"
              ∧ match composeComponents demo_url (demo_env []) st with inr _ => True | inl _ => False end
          | inl _ => False end) as Hok by (vm_compute; split; [reflexivity|exact I]).
  destruct (readSettings demo_url (demo_env [])) as [e|st] eqn:Es; [destruct Hok|]. destruct Hok as [Hu Hok].
  destruct (composeComponents demo_url (demo_env []) st) as [e|c] eqn:Ec; [destruct Hok|].
  destruct (healthy_server_passes demo_url (demo_env []) st c 1000 demo_answers Es Ec) as (l & E & _ & Hx);
    [| |exact (ex_intro _ l (conj E Hx))].
  - intros k v E. unfold demo_env, map_get in E. apply fmap_Some in E as (q & E & ->). apply select_one_Some in E as [_ Hq].
    revert q Hq. apply Forall_forall. apply (bool_decide_eq_true_1 _). vm_compute. reflexivity.
  - rewrite Hu. split; try reflexivity.
    + exists "", None. reflexivity.
    + exists (HttpServer.mkProbes true true false (Some 3)). split; [reflexivity|]. split; [reflexivity|]. cbn. lia.
    + exists 5000, 12. split; [reflexivity|]. lia.
    + exists [("config.boot", 900)], 900. split; [reflexivity|]. split; [left|lia].
Defined.
End Doctor.
