(* ===== verification/ServerLife.v ===== *)
(** * The life of a server in a process ([startServer], [wireMqtt] and
    [wireShutdown] of [src/serve-http.ts], [createServices] of
    [src/server-setup.ts])

    A start opens its parts in order and may fail after any of them; [stop] closes
    them in another order and waits between. The services and the database are
    variables of the module, so that [stop] closes those of the latest start. *)

From S2P Require Import Prelude.

Module ServerLife.

(** What runs for a server. *)
Inductive Part :=
  | PRedis | PDb | PWorking | PCochange | PSweeper | PLimiter | PMcp | PBroker | PBridge | PHttp | PTimeouts | PQuota.

#[export] Instance Part_eq_dec : EqDecision Part.
Proof. solve_decision. Defined.

(** [current] is the start that the variables of the module are of; [live] what
    runs, with the start that made it; [streams] the event streams that clients
    hold open on the server. *)
Record Process := mkProcess {
  serverRunning : bool; current : nat; live : list (nat * Part); streams : nat }.

Definition with_running (b : bool) (s : Process) : Process := mkProcess b (current s) (live s) (streams s).
Definition with_live (l : list (nat * Part)) (s : Process) : Process := mkProcess (serverRunning s) (current s) l (streams s).
Definition with_current (g : nat) (s : Process) : Process := mkProcess (serverRunning s) g (live s) (streams s).
Definition with_streams (n : nat) (s : Process) : Process := mkProcess (serverRunning s) (current s) (live s) n.

(** ** Starting *)

Record Options := mkOptions { redis : bool; repoRoot : bool; phase2 : bool; embedded : bool; mqttRequired : bool }.

(** Where a start goes wrong: the connection to Redis, the opening of the database,
    the checks of the environment of phase 2 (before it starts a timer), the
    listener of the broker, the connection of the bridge, the port of HTTP. *)
Inductive Fault := FRedis | FServices | FBoot | FBroker | FBridge | FListen.

#[export] Instance Fault_eq_dec : EqDecision Fault.
Proof. solve_decision. Defined.

Definition services_parts (o : Options) : list Part := [PDb; PWorking] ++ (if repoRoot o then [PCochange] else []).

(** The limiter in memory has a sweeper, the one of Redis has none. *)
Definition sweepers (o : Options) : list Part := PSweeper :: (if phase2 o && redis o then [] else [PLimiter]).

(** [wireMqtt]: whether it throws, and what it leaves running. A broker that is
    bound when the bridge fails is closed, unless MQTT is required; the client of
    the bridge is kept, and goes on trying to connect. *)
Definition wireMqtt (o : Options) (fault : option Fault) : bool * list Part :=
  if embedded o && bool_decide (fault = Some FBroker) then (mqttRequired o, [])
  else if bool_decide (fault = Some FBridge) then
    (mqttRequired o, (if mqttRequired o && embedded o then [PBroker] else []) ++ [PBridge])
  else (false, (if embedded o then [PBroker] else []) ++ [PBridge]).

(** The parts that are left running, whether the services were assigned, and
    whether a handle is returned. *)
Definition startServerInner (o : Options) (fault : option Fault) : list Part * bool * bool :=
  if decide (redis o = true ∧ fault = Some FRedis) then ([], false, false)
  else
    let parts := if redis o then [PRedis] else [] in
    if decide (fault = Some FServices) then (parts, false, false)
    else
      let parts := parts ++ services_parts o in
      if decide (phase2 o = true ∧ fault = Some FBoot) then (parts, true, false)
      else
        let parts := parts ++ sweepers o ++ [PMcp] in
        let '(threw, mqtt) := wireMqtt o fault in
        let parts := parts ++ mqtt in
        if threw then (parts, true, false)
        else if decide (fault = Some FListen) then (parts, true, false)
        else (parts ++ [PHttp; PTimeouts], true, true).

Inductive StartResult := AlreadyRunning | StartFailed | Started.

(** [g] numbers the start. *)
Definition startServer (g : nat) (o : Options) (fault : option Fault) (s : Process) : StartResult * Process :=
  if serverRunning s then (AlreadyRunning, s)
  else
    let '(parts, assigned, ok) := startServerInner o fault in
    let s := with_live (((λ p, (g, p)) <$> parts) ++ live s) (if assigned then with_current g s else s) in
    if ok then (Started, with_running true s) else (StartFailed, with_running false s).

(** An agent comes online: the timer of the quota runs. *)
Definition agent_online (s : Process) : Process := with_live ((current s, PQuota) :: live s) s.

(** ** Stopping *)

(** Parts of the handle, parts of the services of the module, and the wait for the
    connections of the server. *)
Inductive Action := CloseOwn (p : Part) | CloseCurrent (p : Part) | CloseHttp.

#[export] Instance Action_eq_dec : EqDecision Action.
Proof. solve_decision. Defined.

Definition teardown : list Action :=
  [CloseOwn PSweeper; CloseOwn PLimiter; CloseHttp; CloseCurrent PBridge; CloseOwn PBroker; CloseCurrent PQuota; CloseOwn PRedis;
   CloseCurrent PTimeouts; CloseCurrent PWorking; CloseOwn PMcp; CloseCurrent PDb].

Definition close_part (g : nat) (p : Part) (s : Process) : Process := with_live (filter (λ x, x ≠ (g, p)) (live s)) s.

(** One step of [stop] for the start [g]; what throws is logged and left. *)
Definition perform (fails : Part → bool) (g : nat) (a : Action) (s : Process) : Process :=
  match a with
  | CloseOwn p => if fails p then s else close_part g p s
  | CloseCurrent p => if fails p then s else close_part (current s) p s
  | CloseHttp => if fails PHttp then s else close_part g PHttp s
  end.

(** [stop], when nothing comes in between and no stream is open. *)
Definition stop (fails : Part → bool) (g : nat) (stopped : bool) (s : Process) : bool * Process :=
  if stopped then (true, s)
  else (true, foldl (λ s a, perform fails g a s) (with_running false s) teardown).

(** With other work between its steps: [todo] is what is left of it. [CloseHttp]
    waits for the streams, which only their clients end. *)
Inductive stop_step (fails : Part → bool) (g : nat) : list Action * Process → list Action * Process → Prop :=
  | StopAct a todo s : a ≠ CloseHttp ∨ streams s = O → stop_step fails g (a :: todo, s) (todo, perform fails g a s)
  | StopLeave todo s n : streams s = S n → stop_step fails g (todo, s) (todo, with_streams n s)
  | StopStart todo s g' o fault : stop_step fails g (todo, s) (todo, (startServer g' o fault s).2).

(** ** A stop closes what the start opened *)

(** What an action closes, when the services are those of the start [cur]. *)
Definition closes (fails : Part → bool) (g cur : nat) (a : Action) (x : nat * Part) : Prop :=
  match a with
  | CloseOwn p => fails p = false ∧ x = (g, p)
  | CloseCurrent p => fails p = false ∧ x = (cur, p)
  | CloseHttp => fails PHttp = false ∧ x = (g, PHttp)
  end.

Lemma close_part_live g p s x : x ∈ live (close_part g p s) ↔ x ∈ live s ∧ x ≠ (g, p).
Proof. unfold close_part. cbn [live with_live]. rewrite list_elem_of_filter. tauto. Qed.

Lemma perform_live fails g a s x : x ∈ live (perform fails g a s) ↔ x ∈ live s ∧ ¬ closes fails g (current s) a x.
Proof.
  destruct a as [p|p|]; cbn [perform closes];
    match goal with |- context [fails ?p] => destruct (fails p) end; rewrite ?close_part_live; intuition congruence.
Qed.

Lemma perform_keeps fails g a s :
  current (perform fails g a s) = current s ∧ serverRunning (perform fails g a s) = serverRunning s
  ∧ streams (perform fails g a s) = streams s.
Proof. destruct a as [p|p|]; cbn [perform]; match goal with |- context [fails ?p] => by destruct (fails p) end. Qed.

Lemma teardown_live fails g l s x :
  x ∈ live (foldl (λ s a, perform fails g a s) s l) ↔ x ∈ live s ∧ ∀ a, a ∈ l → ¬ closes fails g (current s) a x.
Proof.
  revert s. induction l as [|a l IH]; intros s; cbn [foldl]; [set_solver|].
  rewrite IH, perform_live, (proj1 (perform_keeps fails g a s)). setoid_rewrite elem_of_cons. naive_solver.
Qed.

Lemma teardown_running fails g l s : serverRunning (foldl (λ s a, perform fails g a s) s l) = serverRunning s.
Proof. revert s. induction l as [|a l IH]; intros s; cbn [foldl]; [done|]. rewrite IH. apply perform_keeps. Qed.

(** Every part but the scheduler of the co-changes has its action. *)
Lemma all_closed fails g p : p ≠ PCochange → fails p = false → ∃ a, a ∈ teardown ∧ closes fails g g a (g, p).
Proof.
  intros Hp Hf. destruct p; try done;
    match goal with |- context [(g, ?p)] =>
      first [exists (CloseOwn p); split; [apply (bool_decide_eq_true_1 _); reflexivity|done]
            |exists (CloseCurrent p); split; [apply (bool_decide_eq_true_1 _); reflexivity|done]
            |exists CloseHttp; split; [apply (bool_decide_eq_true_1 _); reflexivity|done]] end.
Qed.

Lemma started g o fault s s1 : startServer g o fault s = (Started, s1) →
  serverRunning s = false ∧ current s1 = g ∧ serverRunning s1 = true
  ∧ ∃ parts, live s1 = ((λ p, (g, p)) <$> parts) ++ live s ∧ services_parts o ⊆ parts ∧ PHttp ∈ parts.
Proof.
  unfold startServer. destruct (serverRunning s); [done|].
  destruct (startServerInner o fault) as [[parts assigned] ok] eqn:E. destruct ok; [|done]. intros [= <-].
  revert E. unfold startServerInner. case_decide; [done|]. case_decide; [done|]. case_decide; [done|].
  destruct (wireMqtt o fault) as [threw mqtt]. destruct threw; [done|]. case_decide; [done|]. intros [= <- <-].
  split_and!; try done. eexists. split; [reflexivity|]. split; [|set_solver]. set_solver.
Qed.

Lemma online_iter n s : let s' := Nat.iter n agent_online s in
  current s' = current s ∧ serverRunning s' = serverRunning s
  ∧ ∀ x, x ∈ live s' → x ∈ live s ∨ x = (current s, PQuota).
Proof.
  cbv zeta. induction n as [|n (IH1 & IH2 & IH3)]; [by auto|].
  change (Nat.iter (S n) agent_online s) with (agent_online (Nat.iter n agent_online s)).
  split_and!; [done|done|]. intros x [->|Hx]%elem_of_cons; [right; by rewrite IH1|auto].
Qed.

Lemma online_other n s x : x ∈ live s → x ∈ live (Nat.iter n agent_online s).
Proof. intros Hx. induction n as [|n IH]; [done|]. cbn. by right. Qed.

(** A stop after a start closes everything that the start opened but the scheduler
    of the co-changes, whichever of its steps throw: only what threw is left. It
    touches nothing of another start, and the process may start again. *)
Theorem stop_releases fails g o fault n s s1 :
  startServer g o fault s = (Started, s1) → (∀ p, (g, p) ∉ live s) →
  let s2 := (stop fails g false (Nat.iter n agent_online s1)).2 in
  serverRunning s2 = false
  ∧ (∀ p, (g, p) ∈ live s2 → p = PCochange ∨ fails p = true)
  ∧ (∀ g' p, g' ≠ g → ((g', p) ∈ live s2 ↔ (g', p) ∈ live s)).
Proof.
  intros Hs Hg. apply started in Hs as (_ & Hc & _ & parts & Hl & _). cbv zeta. unfold stop. cbn [snd].
  pose proof (online_iter n s1) as (Hoc & _ & Hon). set (si := Nat.iter n agent_online s1) in *. rewrite Hc in Hoc, Hon.
  split_and!.
  - by rewrite teardown_running.
  - intros p (_ & Hn)%teardown_live. cbn [current with_running] in Hn. rewrite Hoc in Hn.
    destruct (decide (p = PCochange)) as [->|Hp]; [by left|right]. destruct (fails p) eqn:Ef; [done|].
    destruct (all_closed fails g p Hp Ef) as (a & Ha & Hx). by destruct (Hn a Ha).
  - intros g' p Hne. rewrite teardown_live. cbn [current with_running live]. rewrite Hoc. split.
    + intros [Hi _]. apply Hon in Hi as [Hi|[= -> _]]; [|done]. rewrite Hl in Hi.
      apply elem_of_app in Hi as [(q & [= -> _] & _)%list_elem_of_fmap|Hi]; done.
    + intros Hi. split; [apply online_other; rewrite Hl; apply elem_of_app; by right|].
      intros a _ Hx. destruct a; cbn in Hx; destruct Hx as [_ [= -> _]]; done.
Qed.

(** ** Where it does not *)

(** The scheduler of the co-changes goes on after the stop. *)
Theorem cochange_survives fails g o fault s s1 :
  startServer g o fault s = (Started, s1) → repoRoot o = true → (g, PCochange) ∈ live (stop fails g false s1).2.
Proof.
  intros Hs Hr. apply started in Hs as (_ & _ & _ & parts & Hl & Hp & _). unfold stop. cbn [snd]. apply teardown_live. split.
  - cbn [live with_running]. rewrite Hl. apply elem_of_app. left. apply list_elem_of_fmap. exists PCochange. split; [done|].
    apply Hp. unfold services_parts. rewrite Hr. set_solver.
  - intros a Ha Hx. unfold teardown in Ha. rewrite !elem_of_cons in Ha.
    repeat destruct Ha as [->|Ha]; try (by destruct Hx as [_ [=]]). by apply elem_of_nil in Ha.
Qed.

(** A start is allowed as soon as a stop has begun; the rest of that stop then closes
    the bridge, the sweepers and the database of the new server, which goes on
    listening. *)
Theorem stop_tears_down_next g g' o fault s s' :
  g ≠ g' → startServer g' o fault (with_running false s) = (Started, s') →
  let s2 := foldl (λ s a, perform (λ _, false) g a s) s' (drop 2 teardown) in
  (g', PHttp) ∈ live s2 ∧ serverRunning s2 = true
  ∧ ∀ p, p ∈ [PBridge; PQuota; PTimeouts; PWorking; PDb] → (g', p) ∉ live s2.
Proof.
  intros Hne Hs. apply started in Hs as (_ & Hc & Hrun & parts & Hl & _ & Hh). cbv zeta. split_and!.
  - apply teardown_live. split; [rewrite Hl; apply elem_of_app; left; apply list_elem_of_fmap; by exists PHttp|].
    intros a Ha Hx. cbn [drop teardown] in Ha. rewrite !elem_of_cons in Ha.
    repeat destruct Ha as [->|Ha]; try (by destruct Hx as [_ [=]]); try (by apply elem_of_nil in Ha).
  - by rewrite teardown_running.
  - intros p Hp Hi. apply teardown_live in Hi as [_ Hn]. rewrite Hc in Hn. apply (Hn (CloseCurrent p)); [|done].
    rewrite !elem_of_cons in Hp. repeat destruct Hp as [->|Hp]; try (by apply elem_of_nil in Hp);
      apply (bool_decide_eq_true_1 _); reflexivity.
Qed.

(** A start that cannot bind its port leaves the database, the sweepers and the
    broker running, which nothing will close; another start is allowed. *)
Theorem failed_bind_leaks g o s :
  serverRunning s = false → let '(r, s') := startServer g o (Some FListen) s in
  r = StartFailed ∧ serverRunning s' = false
  ∧ ∀ p, p ∈ [PDb; PWorking; PSweeper; PMcp; PBridge] ++ (if embedded o then [PBroker] else []) → (g, p) ∈ live s'.
Proof.
  intros Hr. destruct o as [r1 r2 r3 r4 r5]. destruct s as [run cur l st]. cbn in Hr. subst run.
  destruct r1, r2, r3, r4, r5; cbn; (split_and!; [done|done|]); intros p Hp; set_solver.
Qed.

(** ** A stream that stays open *)

Lemma start_keeps g o fault s : streams (startServer g o fault s).2 = streams s
  ∧ ∀ x, x ∈ live s → x ∈ live (startServer g o fault s).2.
Proof.
  unfold startServer. destruct (serverRunning s); [done|]. destruct (startServerInner o fault) as [[parts assigned] ok].
  destruct ok, assigned; cbn; (split; [done|]); intros x Hx; apply elem_of_app; by right.
Qed.

(** Of the first two actions and the third, which waits. *)
Lemma blocked_step fails g (s : Process) y z : stop_step fails g y z →
  (streams y.2 ≠ O → (∃ k, (k ≤ 2)%nat ∧ y.1 = drop k teardown)
     ∧ ∀ x, x.2 ≠ PSweeper → x.2 ≠ PLimiter → x ∈ live s → x ∈ live y.2) →
  streams z.2 ≠ O → (∃ k, (k ≤ 2)%nat ∧ z.1 = drop k teardown)
     ∧ ∀ x, x.2 ≠ PSweeper → x.2 ≠ PLimiter → x ∈ live s → x ∈ live z.2.
Proof.
  intros [a todo t Ha|todo t n Hn|todo t g' o fault] IH; cbn [fst snd] in *.
  - destruct (perform_keeps fails g a t) as (_ & _ & Est). rewrite Est. intros Hz. specialize (IH Hz) as [(k & Hk & Ek) Hx].
    destruct Ha as [Ha|Ha]; [|done].
    destruct k as [|[|[|k]]]; [| |exfalso; by injection Ek as -> _|lia]; injection Ek as -> ->;
      (split; [first [by exists 1%nat; split; [lia|] | by exists 2%nat; split; [lia|]]|]);
      intros x H1 H2 H3; apply perform_live; (split; [by apply Hx|]); intros [_ ->]; done.
  - intros _. apply IH. by rewrite Hn.
  - destruct (start_keeps g' o fault t) as [Est Hl]. rewrite Est. intros Hz. specialize (IH Hz) as [Hk Hx]. split; [done|].
    intros x H1 H2 H3. apply Hl. by apply Hx.
Qed.

(** While a client holds an event stream, the stop does not get past the wait for
    the connections: the bridge, the broker and the database stay as they were. *)
Theorem stream_blocks_stop fails g s todo s' :
  rtc (stop_step fails g) (teardown, s) (todo, s') → streams s' ≠ O →
  CloseHttp ∈ todo ∧ ∀ x, x.2 ≠ PSweeper → x.2 ≠ PLimiter → x ∈ live s → x ∈ live s'.
Proof.
  intros Hr. enough (streams s' ≠ O → (∃ k, (k ≤ 2)%nat ∧ todo = drop k teardown)
    ∧ ∀ x, x.2 ≠ PSweeper → x.2 ≠ PLimiter → x ∈ live s → x ∈ live s') as Hi.
  { intros Hn. destruct (Hi Hn) as [(k & Hk & ->) Hx]. split; [|done].
    destruct k as [|[|[|k]]]; [..|lia]; apply (bool_decide_eq_true_1 _); reflexivity. }
  cut (∀ y, rtc (stop_step fails g) (teardown, s) y → streams y.2 ≠ O →
    (∃ k, (k ≤ 2)%nat ∧ y.1 = drop k teardown) ∧ ∀ x, x.2 ≠ PSweeper → x.2 ≠ PLimiter → x ∈ live s → x ∈ live y.2).
  { intros Hall. exact (Hall (todo, s') Hr). }
  clear todo s' Hr. intros y Hy. refine (rtc_ind_r (λ y, streams y.2 ≠ O → (∃ k, (k ≤ 2)%nat ∧ y.1 = drop k teardown)
    ∧ ∀ x, x.2 ≠ PSweeper → x.2 ≠ PLimiter → x ∈ live s → x ∈ live y.2) _ _ _ y Hy).
  { intros _. split; [exists 0%nat; split; [lia|done]|done]. }
  clear y Hy. intros y z _ Hyz IH. by apply (blocked_step fails g s y z Hyz).
Qed.
End ServerLife.
