(* ===== verification/SymbolExtractor.v ===== *)
(** * The symbols of a file ([src/tree-sitter-extractor.ts])

    A file that an agent reports is parsed by one of fifteen grammars, and the names
    of its functions are kept with the edit. The parsers are parameters: a parser
    gives a tree or throws. The walk over the tree collects at most two hundred
    names in the order of the file. *)

From S2P Require Import Prelude Paths Database FileTracking Schemas Handlers.

Module SymbolExtractor.

(** ** Trees *)

(** A node of tree-sitter: its type, its text, and its children, each with the field
    it has in the parent and whether it is named. *)
Inductive Node := mkNode (type text : string) (children : list (option string * bool * Node)).

Definition Child : Type := option string * bool * Node.

Definition type (n : Node) : string := match n with mkNode t _ _ => t end.
Definition text (n : Node) : string := match n with mkNode _ t _ => t end.
Definition children (n : Node) : list Child := match n with mkNode _ _ l => l end.

Definition namedChildren (n : Node) : list Node := snd <$> filter (λ c : Child, c.1.2 = true) (children n).
Definition namedChild (i : nat) (n : Node) : option Node := namedChildren n !! i.
Definition childForFieldName (f : string) (n : Node) : option Node :=
  snd <$> head (filter (λ c : Child, c.1.1 = Some f) (children n)).

(** ** Names *)

(** [${ctx}.${name}] when both are there. *)
Definition qualified (ctx name : option string) : option string :=
  match truthy ctx, truthy name with Some c, Some n => Some (c ++ "." ++ n)%string | _, _ => name end.

Fixpoint findGoTypeIdent (n : Node) : option string :=
  let first := fix first (skip : string → bool) (cs : list Child) : option string :=
    match cs with
    | [] => None
    | (_, named, c) :: cs =>
        if named && negb (skip (type c)) then
          match truthy (findGoTypeIdent c) with Some found => Some found | None => first skip cs end
        else first skip cs
    end in
  match n with
  | mkNode ty tx cs =>
      if decide (ty = "type_identifier") then Some tx
      else if decide (ty = "pointer_type") then first (λ _, false) cs
      else if decide (ty = "parameter_declaration") then first (λ t, bool_decide (t = "identifier")) cs
      else None
  end.

Fixpoint first_found {A} (f : A → option string) (l : list A) : option string :=
  match l with
  | [] => None
  | x :: l => match truthy (f x) with Some found => Some found | None => first_found f l end
  end.

Definition goReceiverType (recv : option Node) : option string :=
  recv ≫= λ r, first_found findGoTypeIdent (namedChildren r).

(** ** The languages *)

(** How the name of a function is found; [FromName] is the absence of an override. *)
Inductive FnName := FromName | GoName | DeclaratorName | FirstChildName.

(** How a container that is no class is named. *)
Inductive ContainerName := NoName | ByField (f : string) | ByFirstChild | ByFieldOrFirst (f : string).

Record LanguageHandler := mkHandler {
  classNodeTypes : list string; fnNodeTypes : list string; fnName : FnName;
  containerNodeTypes : list string; containerName : ContainerName;
  varDeclTypes : list string; exportStmtTypes : list string }.

Definition extractFnName (f : FnName) (n : Node) (rawName classCtx : option string) : option string :=
  match f with
  | FromName => qualified classCtx rawName
  | GoName =>
      if decide (type n = "method_declaration")
      then qualified (goReceiverType (childForFieldName "receiver" n)) rawName
      else qualified classCtx rawName
  | DeclaratorName =>
      let decl := childForFieldName "declarator" n in
      let name := match text <$> (decl ≫= childForFieldName "declarator") with
                  | Some t => Some t
                  | None => text <$> (decl ≫= namedChild 0)
                  end in
      qualified classCtx name
  | FirstChildName => qualified classCtx (text <$> namedChild 0 n)
  end.

Definition extractContainerName (f : ContainerName) (n : Node) : option string :=
  match f with
  | NoName => None
  | ByField f => text <$> childForFieldName f n
  | ByFirstChild => text <$> namedChild 0 n
  | ByFieldOrFirst f =>
      match childForFieldName f n with Some c => Some (text c) | None => text <$> namedChild 0 n end
  end.

Definition script : LanguageHandler :=
  mkHandler ["class_declaration"] ["function_declaration"; "method_definition"] FromName [] NoName
    ["variable_declarator"] ["export_statement"].

Definition HANDLERS : jsmap LanguageHandler :=
  [("ts", script); ("tsx", script); ("js", script);
   ("py", mkHandler ["class_definition"] ["function_definition"] FromName [] NoName [] []);
   ("go", mkHandler [] ["function_declaration"; "method_declaration"] GoName [] NoName [] []);
   ("rust", mkHandler [] ["function_item"] FromName ["impl_item"] (ByField "type") [] []);
   ("java", mkHandler ["class_declaration"] ["method_declaration"] FromName [] NoName [] []);
   ("cs", mkHandler ["class_declaration"; "interface_declaration"; "struct_declaration"; "record_declaration"]
            ["method_declaration"; "constructor_declaration"; "property_declaration"] FromName
            ["namespace_declaration"] NoName [] []);
   ("c", mkHandler [] ["function_definition"] DeclaratorName [] NoName [] []);
   ("cpp", mkHandler ["class_specifier"; "struct_specifier"] ["function_definition"] DeclaratorName [] NoName [] []);
   ("ruby", mkHandler ["class"] ["method"; "singleton_method"] FromName ["module"] (ByField "name") [] []);
   ("php", mkHandler ["class_declaration"; "interface_declaration"; "trait_declaration"]
             ["method_declaration"; "function_definition"] FromName ["namespace_definition"] NoName [] []);
   ("kotlin", mkHandler [] ["function_declaration"] FirstChildName ["class_declaration"; "object_declaration"]
                ByFirstChild [] []);
   ("swift", mkHandler ["class_declaration"; "struct_declaration"; "protocol_declaration"] ["function_declaration"]
               FromName ["extension_declaration"] (ByFieldOrFirst "type") [] []);
   ("bash", mkHandler [] ["function_definition"] FromName [] NoName [] [])].

(** ** The walk *)

Definition CAP : nat := 200.

(** What the walk does at a node: descend under a name, push a name or none and stop,
    or descend under the same name. *)
Inductive Visit := Descend (ctx : option string) | Leaf (name : option string).

Definition inspect (h : LanguageHandler) (basename : string) (classCtx : option string) (n : Node) : Visit :=
  if decide (type n ∈ classNodeTypes h) then Descend (text <$> childForFieldName "name" n)
  else if decide (type n ∈ containerNodeTypes h) then Descend (extractContainerName (containerName h) n)
  else if decide (type n ∈ fnNodeTypes h) then
    Leaf (truthy (extractFnName (fnName h) n (text <$> childForFieldName "name" n) classCtx))
  else if decide (type n ∈ varDeclTypes h) then
    match childForFieldName "value" n with
    | Some v => if decide (type v = "arrow_function" ∨ type v = "function_expression")
                then Leaf (truthy (text <$> childForFieldName "name" n)) else Leaf None
    | None => Leaf None
    end
  else if decide (type n ∈ exportStmtTypes h) then
    match namedChild 0 n with
    | Some d => if decide (type d = "arrow_function"
                           ∨ (type d = "function_declaration" ∧ childForFieldName "name" d = None))
                then Leaf (Some (basename ++ ":default")%string) else Descend classCtx
    | None => Descend classCtx
    end
  else Descend classCtx.

Section walk.
Context (h : LanguageHandler) (basename : string).

(** [walk], with the list it pushes to. *)
Fixpoint walk (n : Node) (classCtx : option string) (out : list string) {struct n} : list string :=
  if (CAP <=? length out)%nat then out
  else
    match inspect h basename classCtx n with
    | Leaf (Some s) => out ++ [s]
    | Leaf None => out
    | Descend ctx =>
        match n with
        | mkNode _ _ cs =>
            (fix go (cs : list Child) (out : list string) : list string :=
               match cs with
               | [] => out
               | (_, named, c) :: cs => go cs (if named then walk c ctx out else out)
               end) cs out
        end
    end.

(** The loop over the named children of a node. *)
Definition walk_children (ctx : option string) : list Child → list string → list string :=
  fix go cs out :=
    match cs with
    | [] => out
    | (_, named, c) :: cs => go cs (if named then walk c ctx out else out)
    end.
End walk.

(** ** Files *)

Fixpoint last_dot_from (s : string) (acc : option string) : option string :=
  match s with
  | EmptyString => acc
  | String a s' => last_dot_from s' (if decide (a = "."%char) then Some s else acc)
  end.

(** The last component, slashes at the end dropped. *)
Definition base (p : string) : string := default "" (last (filter (λ c, c ≠ "") (split_on "/" p))).

(** [path.extname] of POSIX: a dot that opens the name does not count. *)
Definition extname (p : string) : string :=
  match base p with
  | EmptyString => ""
  | String _ rest => if decide (base p = "..") then "" else default "" (last_dot_from rest None)
  end.

Fixpoint strip_suffix (suf s : string) : string :=
  if decide (s = suf) then ""
  else match s with EmptyString => "" | String a s => String a (strip_suffix suf s) end.

(** [path.basename] with a suffix; a name that is the suffix is kept. *)
Definition basename (p ext : string) : string :=
  if decide (base p = ext) then base p else strip_suffix ext (base p).

Definition EXTENSIONS : jsmap string :=
  [(".ts", "ts"); (".tsx", "tsx"); (".js", "js"); (".jsx", "js"); (".mjs", "js"); (".cjs", "js"); (".py", "py");
   (".go", "go"); (".rs", "rust"); (".java", "java"); (".cs", "cs"); (".c", "c"); (".h", "c"); (".cpp", "cpp");
   (".cc", "cpp"); (".cxx", "cpp"); (".hpp", "cpp"); (".hh", "cpp"); (".rb", "ruby"); (".php", "php");
   (".kt", "kotlin"); (".kts", "kotlin"); (".swift", "swift"); (".sh", "bash"); (".bash", "bash")].

Definition extToKey (ext : string) : option string := map_get ext EXTENSIONS.

(** ** The grammars *)

(** A parser throws, gives no tree, or gives a root and whether it has errors. *)
Inductive Parse := Throws | NoTree | Tree (root : Node) (hasError : bool).

Definition Grammar : Type := string → Parse.

Record TreeSitterExtractor := mkExtractor {
  grammars : jsmap Grammar; ready : bool; grammarsLoaded : nat; parseFailures : nat }.

Definition totalGrammars : nat := 15.

Definition init : TreeSitterExtractor := mkExtractor [] false 0 0.

(** The modules of npm with the member of each that is the language. *)
Definition LOADS : list (string * string * option string) :=
  [("ts", "tree-sitter-typescript", Some "typescript"); ("tsx", "tree-sitter-typescript", Some "tsx");
   ("js", "tree-sitter-javascript", None); ("py", "tree-sitter-python", None); ("go", "tree-sitter-go", None);
   ("rust", "tree-sitter-rust", None); ("java", "tree-sitter-java", None); ("cs", "tree-sitter-c-sharp", None);
   ("c", "tree-sitter-c", None); ("cpp", "tree-sitter-cpp", None); ("ruby", "tree-sitter-ruby", None);
   ("php", "tree-sitter-php", Some "php"); ("kotlin", "tree-sitter-kotlin", None);
   ("swift", "tree-sitter-swift", None); ("bash", "tree-sitter-bash", None)].

Section extractor.

(** What importing a module and taking its language gives; nothing when a module is
    not installed or refuses the language. *)
Context (import : string → option string → option Grammar).

Definition tryLoad (l : string * string * option string) (e : TreeSitterExtractor) : TreeSitterExtractor :=
  match import l.1.2 l.2 with
  | None => e
  | Some g => mkExtractor (map_set l.1.1 g (grammars e)) (ready e) (S (grammarsLoaded e)) (parseFailures e)
  end.

(** [load], of which any number of turns may be done when a file comes. *)
Definition load_turns (k : nat) (e : TreeSitterExtractor) : TreeSitterExtractor :=
  foldl (λ e l, tryLoad l e) e (take k LOADS).

Definition load (e : TreeSitterExtractor) : TreeSitterExtractor :=
  let e := load_turns (length LOADS) e in mkExtractor (grammars e) true (grammarsLoaded e) (parseFailures e).
End extractor.

Record Status := mkStatus { ok : bool; grammars_loaded : nat; total_grammars : nat }.

Definition status (e : TreeSitterExtractor) : Status :=
  mkStatus (ready e && negb (Nat.eqb (grammarsLoaded e) 0)) (grammarsLoaded e) totalGrammars.

Definition failed (e : TreeSitterExtractor) : TreeSitterExtractor :=
  mkExtractor (grammars e) (ready e) (grammarsLoaded e) (S (parseFailures e)).

Definition extract (filePath content : string) (e : TreeSitterExtractor) : option (list string) * TreeSitterExtractor :=
  let ext := Paths.toLowerCase (extname filePath) in
  match extToKey ext with
  | None => (None, e)
  | Some key =>
      match map_get key (grammars e) with
      | None => (None, e)
      | Some parse =>
          match parse content with
          | Tree root false =>
              (Some (take CAP (match map_get key HANDLERS with
                               | Some h => walk h (basename filePath ext) root None []
                               | None => []
                               end)), e)
          | _ => (None, failed e)
          end
      end
  end.

(** ** What the walk collects *)

Section induction.
Context (P : Node → Prop) (H : ∀ ty tx cs, Forall (λ c : Child, P c.2) cs → P (mkNode ty tx cs)).

Fixpoint node_ind' (n : Node) : P n :=
  match n with
  | mkNode ty tx cs =>
      H ty tx cs ((fix go (cs : list Child) : Forall (λ c : Child, P c.2) cs :=
        match cs with [] => Forall_nil_2 _ | c :: cs => Forall_cons_2 _ c cs (node_ind' c.2) (go cs) end) cs)
  end.
End induction.

Section reference.
Context (h : LanguageHandler) (basename : string).

(** Every name of a tree, in the order of the file and without a limit. *)
Fixpoint symbols (n : Node) (classCtx : option string) {struct n} : list string :=
  match inspect h basename classCtx n with
  | Leaf s => option_list s
  | Descend ctx =>
      match n with
      | mkNode _ _ cs =>
          (fix go (cs : list Child) : list string :=
             match cs with
             | [] => []
             | (_, named, c) :: cs => (if named then symbols c ctx else []) ++ go cs
             end) cs
      end
  end.

(** A node is reached under a name, through classes and containers that rename and
    other nodes that do not. *)
Inductive reaches : Node → option string → Node → option string → Prop :=
  | reaches_here n ctx : reaches n ctx n ctx
  | reaches_below n ctx ctx' c m ctx'' :
      inspect h basename ctx n = Descend ctx' → c ∈ namedChildren n → reaches c ctx' m ctx'' → reaches n ctx m ctx''.

Lemma named_cons f (named : bool) c ty tx cs :
  namedChildren (mkNode ty tx ((f, named, c) :: cs))
  = (if named then [c] else []) ++ namedChildren (mkNode ty tx cs).
Proof. unfold namedChildren. cbn [children]. rewrite filter_cons. by destruct named; case_decide. Qed.

Lemma named_forall (P : Node → Prop) ty tx cs :
  Forall (λ c : Child, P c.2) cs → Forall P (namedChildren (mkNode ty tx cs)).
Proof.
  intros Hf. apply Forall_fmap, Forall_forall. intros c [_ Hc]%list_elem_of_filter. by apply (proj1 (Forall_forall _ _) Hf).
Qed.

Lemma symbols_eq n ctx : symbols n ctx =
  match inspect h basename ctx n with Leaf s => option_list s | Descend ctx' => namedChildren n ≫= λ c, symbols c ctx' end.
Proof.
  destruct n as [ty tx cs]. cbn [symbols]. destruct (inspect h basename ctx (mkNode ty tx cs)) as [ctx'|s]; [|done].
  induction cs as [|[[f named] c] cs IH]; [done|]. rewrite named_cons, bind_app, <- IH.
  destruct named; cbn; by rewrite ?app_nil_r.
Qed.

Lemma walk_eq n ctx out : walk h basename n ctx out =
  if (CAP <=? length out)%nat then out
  else match inspect h basename ctx n with
       | Leaf s => out ++ option_list s
       | Descend ctx' => foldl (λ out c, walk h basename c ctx' out) out (namedChildren n)
       end.
Proof.
  destruct n as [ty tx cs]. cbn [walk]. destruct (CAP <=? length out)%nat eqn:El; [done|]. clear El.
  destruct (inspect h basename ctx (mkNode ty tx cs)) as [ctx'|[s|]]; [|done|by rewrite app_nil_r].
  revert out. induction cs as [|[[f named] c] cs IH]; intros out; [done|]. rewrite named_cons, foldl_app, <- IH.
  by destruct named.
Qed.

Lemma take_take_app (l k : list string) : take CAP (take CAP l ++ k) = take CAP (l ++ k).
Proof.
  destruct (decide (CAP ≤ length l)%nat) as [Hl|Hl].
  - by rewrite !take_app_le, take_idemp by (rewrite ?length_take; lia).
  - by rewrite (take_ge l) by lia.
Qed.

(** The walk that stops at the limit collects the first names of all. *)
Lemma walk_prefix n : ∀ ctx out, (length out ≤ CAP)%nat →
  walk h basename n ctx out = take CAP (out ++ symbols n ctx).
Proof.
  induction n as [ty tx cs IH] using node_ind'. intros ctx out Hout. rewrite walk_eq, symbols_eq.
  destruct (Nat.leb_spec CAP (length out)) as [Hc|Hc].
  { rewrite take_app_le by lia. by rewrite take_ge by lia. }
  destruct (inspect h basename ctx (mkNode ty tx cs)) as [ctx'|s].
  - assert (Forall (λ c, ∀ ctx out, (length out ≤ CAP)%nat →
      walk h basename c ctx out = take CAP (out ++ symbols c ctx)) (namedChildren (mkNode ty tx cs))) as Hn.
    { by apply named_forall. }
    clear IH Hc. revert out Hout. induction Hn as [|c l Hc _ IHl]; intros out Hout; cbn [foldl mbind list_bind].
    + by rewrite app_nil_r, take_ge by lia.
    + rewrite Hc by done. rewrite IHl by (rewrite length_take; lia). by rewrite take_take_app, app_assoc.
  - symmetry. apply take_ge. rewrite length_app. destruct s; cbn; lia.
Qed.

(** The names are those of the nodes that are reached. *)
Lemma symbols_spec n : ∀ ctx s,
  s ∈ symbols n ctx ↔ ∃ m ctx', reaches n ctx m ctx' ∧ inspect h basename ctx' m = Leaf (Some s).
Proof.
  induction n as [ty tx cs IH] using node_ind'. intros ctx s. rewrite symbols_eq.
  assert (∀ c, c ∈ namedChildren (mkNode ty tx cs) → ∀ ctx s,
    s ∈ symbols c ctx ↔ ∃ m ctx', reaches c ctx m ctx' ∧ inspect h basename ctx' m = Leaf (Some s)) as Hn.
  { exact (proj1 (Forall_forall _ _) (named_forall _ ty tx cs IH)). }
  destruct (inspect h basename ctx (mkNode ty tx cs)) as [ctx'|o] eqn:Ev.
  - rewrite list_elem_of_bind. split.
    + intros (c & Hs & Hc). apply (Hn c Hc) in Hs as (m & ctx2 & Hr & Hm). exists m, ctx2. split; [|done].
      by eapply reaches_below.
    + intros (m & ctx2 & Hr & Hm). inversion Hr as [|? ? ? c ? ? Hv Hc Hr']; subst; [congruence|].
      exists c. split; [|done]. apply (Hn c Hc). exists m, ctx2. split; [|done]. congruence.
  - split.
    + intros Hs. exists (mkNode ty tx cs), ctx. split; [constructor|]. rewrite Ev. destruct o as [t|]; cbn in Hs.
      * apply list_elem_of_singleton in Hs as ->. done.
      * by apply elem_of_nil in Hs.
    + intros (m & ctx2 & Hr & Hm). inversion Hr; subst; [|congruence]. rewrite Ev in Hm. injection Hm as ->. by left.
Qed.
End reference.

(** ** Extensions, grammars and languages agree *)

(** Every extension leads to a grammar that is loaded and to a language that is
    described, and every grammar has an extension; the total is right. *)
Theorem extensions_handled :
  Forall (λ x, is_Some (map_get x.2 HANDLERS) ∧ x.2 ∈ (λ l, l.1.1) <$> LOADS) EXTENSIONS
  ∧ Forall (λ l, l.1.1 ∈ EXTENSIONS.*2) LOADS ∧ NoDup ((λ l, l.1.1) <$> LOADS) ∧ length LOADS = totalGrammars.
Proof. split_and!; apply (bool_decide_eq_true_1 _); vm_compute; reflexivity. Qed.

Lemma key_handled ext key : extToKey ext = Some key → is_Some (map_get key HANDLERS).
Proof.
  unfold extToKey, map_get, select_one. intros (x & Hx & ->)%fmap_Some.
  assert (x ∈ EXTENSIONS) as Hin.
  { apply head_Some_elem_of in Hx. by apply list_elem_of_filter in Hx as [_ Hx]. }
  clear Hx. revert x Hin. apply (proj1 (Forall_forall (λ x, is_Some (map_get x.2 HANDLERS)) EXTENSIONS)). apply (bool_decide_eq_true_1 _); vm_compute; reflexivity.
Qed.

(** ** Extraction *)

(** What [extract] returns, on every branch. *)
Theorem extract_spec filePath content e :
  let ext := Paths.toLowerCase (extname filePath) in
  let b := basename filePath ext in
  match extToKey ext ≫= λ key, (λ parse, (key, parse content)) <$> map_get key (grammars e) with
  | None => extract filePath content e = (None, e)
  | Some (key, Tree root false) =>
      ∃ h l, map_get key HANDLERS = Some h ∧ extract filePath content e = (Some l, e)
        ∧ l = take CAP (symbols h b root None)
        ∧ (∀ s, s ∈ l → ∃ m ctx, reaches h b root None m ctx ∧ inspect h b ctx m = Leaf (Some s))
        ∧ ((length l < CAP)%nat →
           ∀ m ctx s, reaches h b root None m ctx → inspect h b ctx m = Leaf (Some s) → s ∈ l)
  | Some _ => extract filePath content e = (None, failed e)
  end.
Proof.
  cbv zeta. unfold extract. destruct (extToKey _) as [key|] eqn:Ek; [|done]. cbn [mbind option_bind].
  destruct (map_get key (grammars e)) as [parse|]; [|done]. cbn [fmap option_fmap option_map].
  destruct (parse content) as [| |root [|]]; try done. destruct (key_handled _ _ Ek) as [h Eh]. rewrite Eh.
  exists h. eexists. split; [done|]. split; [done|]. rewrite walk_prefix by (cbn; lia). rewrite app_nil_l, take_idemp.
  split; [done|]. split.
  - intros s Hs. apply symbols_spec. rewrite <- (take_drop CAP). apply elem_of_app. by left.
  - intros Hl m ctx s Hr Hv. rewrite length_take in Hl. rewrite take_ge by lia. apply symbols_spec. eauto.
Qed.

(** ** Loading *)

(** The languages of the first [k] turns that could be loaded. *)
Definition installed (import : string → option string → option Grammar) (k : nat) : list (string * string * option string) :=
  filter (λ l, import l.1.2 l.2 ≠ None) (take k LOADS).

Lemma load_turns_spec import k e :
  let e' := load_turns import k e in
  grammarsLoaded e' = (grammarsLoaded e + length (installed import k))%nat
  ∧ ready e' = ready e ∧ parseFailures e' = parseFailures e
  ∧ ∀ key, map_get key (grammars e') =
      match last (filter (λ l, l.1.1 = key) (installed import k)) with
      | Some l => import l.1.2 l.2 | None => map_get key (grammars e) end.
Proof.
  cbv zeta. unfold load_turns, installed. generalize (take k LOADS). intros ls.
  induction ls as [|l ls IH] using rev_ind; [cbn; repeat split; lia|].
  destruct IH as (IH1 & IH2 & IH3 & IH4). rewrite foldl_app, filter_app. cbn [foldl].
  unfold tryLoad at 1 3 5 7. destruct (import l.1.2 l.2) as [g|] eqn:Eg.
  - rewrite (filter_cons_True _ l) by by rewrite Eg. cbn [filter list_filter grammarsLoaded ready parseFailures grammars].
    rewrite length_app. cbn [length]. repeat split; [lia|done|done|]. intros key.
    rewrite map_get_set, IH4, filter_app. destruct (decide (key = l.1.1)) as [->|Hne].
    + rewrite filter_cons_True by done. by rewrite filter_nil, last_snoc.
    + rewrite filter_cons_False by congruence. by rewrite filter_nil, app_nil_r.
  - rewrite (filter_cons_False _ l) by (rewrite Eg; by intros []). by rewrite filter_nil, app_nil_r.
Qed.

Lemma load_keys import k key : (∃ l, l ∈ take k LOADS ∧ l.1.1 = key ∧ import l.1.2 l.2 = map_get key (grammars (load_turns import k init))) ∨
  map_get key (grammars (load_turns import k init)) = None.
Proof.
  destruct (load_turns_spec import k init) as (_ & _ & _ & Hg). rewrite Hg.
  destruct (last _) as [l|] eqn:El; [left|by right]. apply last_Some_elem_of in El.
  apply list_elem_of_filter in El as [E El]. apply list_elem_of_filter in El as [_ El]. by exists l.
Qed.

Lemma load_one l l' : l ∈ LOADS → l' ∈ LOADS → l.1.1 = l'.1.1 → l = l'.
Proof.
  intros Hl Hl' E. apply list_elem_of_lookup in Hl as [i Hi]. apply list_elem_of_lookup in Hl' as [j Hj].
  assert (NoDup ((λ l, l.1.1) <$> LOADS)) as Hn by apply extensions_handled.
  assert (i = j) as ->; [|congruence].
  apply (NoDup_lookup _ i j l.1.1 Hn); rewrite list_lookup_fmap, ?Hi, ?Hj; cbn; by rewrite ?E.
Qed.

(** After [load] the count is of the grammars that are there, and the status is in
    order if there is one. *)
Theorem load_spec import :
  let e := load import init in
  ready e = true ∧ grammars_loaded (status e) = length (installed import (length LOADS))
  ∧ (grammars_loaded (status e) ≤ total_grammars (status e))%nat
  ∧ (ok (status e) = true ↔ ∃ l, l ∈ LOADS ∧ import l.1.2 l.2 ≠ None)
  ∧ ∀ l, l ∈ LOADS → map_get l.1.1 (grammars e) = import l.1.2 l.2.
Proof.
  cbv zeta. destruct (load_turns_spec import (length LOADS) init) as (Hn & _ & _ & Hg).
  unfold load. set (e := load_turns import (length LOADS) init) in *. change (grammarsLoaded init) with 0%nat in Hn.
  assert (take (length LOADS) LOADS = LOADS) as Et by by apply take_ge.
  cbn [ready status grammars_loaded total_grammars ok grammarsLoaded grammars]. rewrite Hn, Nat.add_0_l.
  split_and!; [done|done| | |].
  - unfold installed. rewrite Et. etransitivity; [apply length_filter|]. by apply Nat.leb_le.
  - unfold installed. rewrite Et. cbn [andb]. split.
    + intros Hk. destruct (filter _ LOADS) as [|l ls] eqn:E; [done|]. exists l.
      assert (l ∈ l :: ls) as Hl by left. rewrite <- E in Hl. apply list_elem_of_filter in Hl. tauto.
    + intros (l & Hl & Hi). assert (l ∈ filter (λ l, import l.1.2 l.2 ≠ None) LOADS) as Hf by by apply list_elem_of_filter.
      by destruct (filter _ LOADS); [apply elem_of_nil in Hf|].
  - intros l Hl. rewrite Hg. destruct (last _) as [l'|] eqn:El.
    + apply last_Some_elem_of in El. apply list_elem_of_filter in El as [E El]. apply list_elem_of_filter in El as [_ El].
      rewrite Et in El. by rewrite (load_one l' l).
    + apply last_None in El. destruct (import l.1.2 l.2) as [g|] eqn:Ei; [|done]. exfalso.
      apply (filter_nil_not_elem_of _ _ l El); [done|]. apply list_elem_of_filter. rewrite Et. split; [by rewrite Ei|done].
Qed.

(** A file that comes while the grammars are loading gets no names or the names it
    would get after. *)
Theorem extract_while_loading import k filePath content :
  let r := (extract filePath content (load_turns import k init)).1 in
  r = None ∨ r = (extract filePath content (load import init)).1.
Proof.
  cbv zeta. unfold extract. destruct (extToKey _) as [key|]; [|by left].
  destruct (load_keys import k key) as [(l & Hl & <- & El)|E]; [|rewrite E; by left]. rewrite <- El.
  assert (l ∈ LOADS) as Hl'. { rewrite <- (take_drop k LOADS). apply elem_of_app. by left. }
  destruct (load_spec import) as (_ & _ & _ & _ & Hg). rewrite (Hg l Hl').
  destruct (import l.1.2 l.2) as [parse|]; [right|by left]. by destruct (parse content) as [| |root [|]].
Qed.

(** ** With the endpoint *)

Lemma extract_bounded filePath content e l : (extract filePath content e).1 = Some l → (length l ≤ CAP)%nat.
Proof.
  unfold extract. destruct (extToKey _); [|done]. destruct (map_get _ _) as [parse|]; [|done].
  destruct (parse content) as [| |root [|]]; try done. intros [= <-]. rewrite length_take. lia.
Qed.

Lemma log_files org session agent name tool path hash syms w f :
  f ∈ db_files (w_db (FileTracker.log org session agent name tool path hash syms w).1) →
  f ∈ db_files (w_db w) ∨ f_path f = path ∧ f_symbols f = match syms with Some l => JText l | None => JNull end.
Proof.
  unfold FileTracker.log, checked_insert, mbind, M_bind, gets, stmt. cbn. repeat (case_decide; cbn; try by left).
  intros [Hf|Hf]%elem_of_app; [by left|right]. by apply list_elem_of_singleton in Hf as ->.
Qed.

(** What an upload of a file adds to the log: no names, or at most two hundred, which
    [extract] gives for the path that is logged. *)
Theorem upload_symbols cx e body w f :
  Handlers.cx_extract cx = (λ p c, (extract p c e).1) →
  f ∈ db_files (w_db (Handlers.handleFileActivity cx body w).1) →
  f ∈ db_files (w_db w) ∨ f_symbols f = JNull
  ∨ ∃ content l, f_symbols f = JText l ∧ (extract (f_path f) content e).1 = Some l ∧ (length l ≤ CAP)%nat.
Proof.
  intros He. unfold Handlers.handleFileActivity. repeat (case_match; try by left). unfold mbind, M_bind.
  destruct (FileTracker.log _ _ _ _ _ _ _ _ w) as [w' r] eqn:El. intros Hf.
  assert (f ∈ db_files (w_db w')) as Hf' by by destruct r.
  assert (w' = (w', r).1) as Ew by done. rewrite Ew, <- El in Hf'. apply log_files in Hf' as [Hf'|[Hp Hs]]; [by left|right].
  rewrite He in Hs.
  destruct (Schemas.z_string (Schemas.field "content" body)) as [content|]; [|by left]. cbn [option_bind] in Hs. rewrite <- Hp in Hs.
  destruct (extract (f_path f) content e).1 as [l|] eqn:Ex; [right|by left].
  exists content, l. split_and!; [done|done|by eapply extract_bounded].
Qed.

(** ** Files of TypeScript *)

Definition leaf (ty tx : string) : Node := mkNode ty tx [].
Definition method (name : string) : Node :=
  mkNode "method_definition" (name ++ "() {}") [(Some "name", true, leaf "property_identifier" name)].
Definition class (ty name : string) (ms : list Node) : Node :=
  mkNode ty "" [(Some "name", true, leaf "type_identifier" name);
                (Some "body", true, mkNode "class_body" "" ((λ m, (None, true, m)) <$> ms))].
Definition program (ns : list Node) : Node := mkNode "program" "" ((λ n, (None, true, n)) <$> ns).
Definition arrow (name : string) : Node :=
  mkNode "lexical_declaration" ""
    [(None, true, mkNode "variable_declarator" ""
        [(Some "name", true, leaf "identifier" name); (Some "value", true, leaf "arrow_function" "() => 1")])].
Definition default_export : Node := mkNode "export_statement" "" [(Some "value", true, leaf "arrow_function" "() => 1")].

Definition parser (t : Node) : TreeSitterExtractor := mkExtractor [("ts", λ _, Tree t false)] true 1 0.

(** The table of names, on one file: a method under its class, the class inside a
    class under its own name only, a constant that is a function, and the default. *)
Example names_of_a_file :
  (extract "src/app.ts" "" (parser (program
     [class "class_declaration" "App" [method "run"; class "class_declaration" "Inner" [method "go"]];
      arrow "helper"; default_export]))).1
  = Some ["App.run"; "Inner.go"; "helper"; "app:default"].
Proof. vm_compute. reflexivity. Qed.

(** A method of a node of another type than a class loses its qualification, as in
    an abstract class. *)
Example abstract_class_unqualified :
  (extract "src/app.ts" "" (parser (program [class "abstract_class_declaration" "App" [method "run"]]))).1 = Some ["run"].
Proof. vm_compute. reflexivity. Qed.

(** The extension is dropped from the name of a default export only when it is in lower
    case. *)
Example upper_extension_kept :
  (extract "src/App.TS" "" (parser (program [default_export]))).1 = Some ["App.TS:default"].
Proof. vm_compute. reflexivity. Qed.
End SymbolExtractor.
