(* ===== verification/SdkConfig.v ===== *)
(** * Profiles, the discovery document and the keychain of a client
    ([sdk/src/profiles.ts], [discovery.ts], [keytar-store.ts], the endpoints of
    [client.ts])

    White space and the ends of lines are those of ASCII. *)

From S2P Require Import Prelude SdkClient Providers Doctor.
Import SdkClient.
Local Open Scope Z_scope.

(** ** The file of profiles *)
Module Profiles.

Definition chars : Type := list ascii.
Definition code (a : ascii) : Z := Z.of_N (Ascii.N_of_ascii a).
Definition chr (n : Z) : ascii := Ascii.ascii_of_N (Z.to_N n).
Definition NL : ascii := chr 10.
Definition CR : ascii := chr 13.
Definition TAB : ascii := chr 9.
Definition DQUOTE : ascii := chr 34.
Definition SQUOTE : ascii := chr 39.
Definition BACKSLASH : ascii := chr 92.

(** [\s] *)
Definition space (a : ascii) : bool := bool_decide (code a = 32 ∨ 9 ≤ code a ≤ 13).
Definition alpha (a : ascii) : bool := bool_decide (65 ≤ code a ≤ 90 ∨ 97 ≤ code a ≤ 122).
Definition digit (a : ascii) : bool := bool_decide (48 ≤ code a ≤ 57).
Definition line_end (a : ascii) : bool := bool_decide (a = NL ∨ a = CR).
(** [A-Za-z_], [A-Za-z0-9_], [A-Za-z0-9_-] *)
Definition key_start (a : ascii) : bool := alpha a || bool_decide (code a = 95).
Definition key_char (a : ascii) : bool := key_start a || digit a.
Definition name_char (a : ascii) : bool := key_char a || bool_decide (code a = 45).

Fixpoint drop_while (p : ascii → bool) (l : chars) : chars :=
  match l with [] => [] | a :: l' => if p a then drop_while p l' else l end.
Fixpoint span (p : ascii → bool) (l : chars) : chars * chars :=
  match l with
  | [] => ([], [])
  | a :: l' => if p a then let '(x, y) := span p l' in (a :: x, y) else ([], l)
  end.
Definition trim (l : chars) : chars := reverse (drop_while space (reverse (drop_while space l))).

(** [content.split(/\r?\n/)] *)
Fixpoint split_lines (l : chars) : list chars :=
  match l with
  | [] => [[]]
  | a :: l' =>
      if decide (a = NL) then [] :: split_lines l'
      else if decide (a = CR ∧ head l' = Some NL) then split_lines l'
      else match split_lines l' with [] => [[a]] | x :: xs => (a :: x) :: xs end
  end.

(** The scan for a comment: the quote that is open, whether the character is escaped,
    and the position. *)
Fixpoint findUnquotedHash (inQuote : option ascii) (escaped : bool) (i : nat) (l : chars) : option nat :=
  match l with
  | [] => None
  | c :: l =>
      if escaped then findUnquotedHash inQuote false (S i) l
      else if decide (c = BACKSLASH ∧ inQuote ≠ None) then findUnquotedHash inQuote true (S i) l
      else
        match inQuote with
        | Some q => findUnquotedHash (if decide (c = q) then None else inQuote) false (S i) l
        | None =>
            if decide (c = DQUOTE ∨ c = SQUOTE) then findUnquotedHash (Some c) false (S i) l
            else if decide (c = chr 35) then Some i
            else findUnquotedHash None false (S i) l
        end
  end.

Definition strip_comment (l : chars) : chars :=
  match findUnquotedHash None false 0 l with Some i => take i l | None => l end.

Fixpoint strip_prefix (p l : chars) : option chars :=
  match p, l with
  | [], l => Some l
  | a :: p, b :: l => if decide (a = b) then strip_prefix p l else None
  | _ :: _, [] => None
  end.

Definition PROFILE : chars := String.list_ascii_of_string "profile.".

(** The header of a profile, with white space around its name. *)
Definition sectionMatch (l : chars) : option chars :=
  match l with
  | a :: l =>
      if decide (a = chr 91) then
        l ← strip_prefix PROFILE (drop_while space l);
        let '(name, l) := span name_char l in
        if decide (name ≠ [] ∧ drop_while space l = [chr 93]) then Some name else None
      else None
  | [] => None
  end.

(** A key, an equals sign, and the rest of the line. *)
Definition kvMatch (l : chars) : option (chars * chars) :=
  match l with
  | a :: l =>
      if key_start a then
        let '(k, l) := span key_char l in
        match drop_while space l with
        | e :: l => if decide (e = chr 61) then
                      let v := drop_while space l in
                      if forallb (λ c, negb (line_end c)) v then Some (a :: k, v) else None
                    else None
        | [] => None
        end
      else None
  | [] => None
  end.

(** The inside of a string in double quotes, up to the quote that closes it, with only
    white space after. *)
Fixpoint double_quoted (l : chars) : option chars :=
  match l with
  | [] => None
  | c :: l =>
      if decide (c = DQUOTE) then (if forallb space l then Some [] else None)
      else if decide (c = BACKSLASH) then
        match l with
        | d :: l => if line_end d then None else (λ x, c :: d :: x) <$> double_quoted l
        | [] => None
        end
      else (λ x, c :: x) <$> double_quoted l
  end.

(** A string in double quotes with escapes, or in single quotes without. *)
Definition valueMatch (l : chars) : option chars :=
  match l with
  | q :: l =>
      if decide (q = DQUOTE) then double_quoted l
      else if decide (q = SQUOTE) then
        let '(v, l) := span (λ c, negb (bool_decide (c = SQUOTE))) l in
        match l with _ :: l => if forallb space l then Some v else None | [] => None end
      else None
  | [] => None
  end.

Definition unescaped (c : ascii) : chars :=
  if decide (code c = 110) then [NL]
  else if decide (code c = 116) then [TAB]
  else if decide (code c = 114) then [CR]
  else if decide (c = DQUOTE) then [DQUOTE]
  else if decide (c = BACKSLASH) then [BACKSLASH]
  else [BACKSLASH; c].

(** Every escape, whichever quotes the string had. *)
Fixpoint unescapeTomlString (l : chars) : chars :=
  match l with
  | [] => []
  | c :: l =>
      if decide (c = BACKSLASH) then
        match l with
        | d :: l' => if line_end d then c :: unescapeTomlString l else unescaped d ++ unescapeTomlString l'
        | [] => [c]
        end
      else c :: unescapeTomlString l
  end.

(** *** Objects *)

(** Every object has the members of [Object.prototype] under these names. A profile of
    such a name is that member: its fields are written to the shared object. *)
Definition is_inherited (n : chars) : bool := bool_decide (String.string_of_list_ascii n ∈ inherited).
Definition PROTO : chars := String.list_ascii_of_string "__proto__".

(** [own] has the properties of the record of profiles, [fields] what was written to
    the object of each name. *)
Record Profiles := mkProfiles { own : list chars; fields : list (chars * list (chars * chars)) }.

(** [OutsideModel]: a name of a profile that is also a field written to [__proto__], and
    so stands for a string. *)
Inductive TomlError :=
  | OutsideModel
  | UnsupportedTable (line : nat) | OutsideSection (line : nat) | ExpectedKeyValue (line : nat)
  | ExpectedString (line : nat) | ReadOnlyProperty.

Definition fields_of (n : chars) (p : Profiles) : list (chars * chars) :=
  default [] (snd <$> select_one (λ x, x.1 = n) (fields p)).

Definition set_field (k v : chars) (l : list (chars * chars)) : list (chars * chars) :=
  match select_one (λ x, x.1 = k) l with
  | Some _ => update_where (λ x, x.1 = k) (λ x, (x.1, v)) l
  | None => l ++ [(k, v)]
  end.

(** [profiles[name] = profiles[name] ?? {}]; assigning [__proto__] makes no property. *)
Definition open_profile (n : chars) (p : Profiles) : Profiles :=
  mkProfiles (if decide (n = PROTO ∨ n ∈ own p) then own p else own p ++ [n])
    (if decide (n ∈ (fields p).*1) then fields p else fields p ++ [(n, [])]).

Definition is_string (n : chars) (p : Profiles) : Prop := n ∉ own p ∧ n ∈ (fields_of PROTO p).*1.

#[export] Instance is_string_dec n p : Decision (is_string n p).
Proof. unfold is_string. apply _. Defined.

(** The properties of functions that cannot be assigned. *)
Definition read_only (n k : chars) : bool :=
  is_inherited n && bool_decide (n ≠ PROTO)
  && bool_decide (String.string_of_list_ascii k ∈ ["name"; "length"]
       ∨ (String.string_of_list_ascii n = "constructor" ∧ String.string_of_list_ascii k = "prototype")).

(** [currentProfile[key] = value]; a string is not taken for [__proto__]. *)
Definition assign (n k v : chars) (p : Profiles) : TomlError + Profiles :=
  if read_only n k then inl ReadOnlyProperty
  else if decide (k = PROTO) then inr p
  else inr (mkProfiles (own p) (update_where (λ x, x.1 = n) (λ x, (x.1, set_field k v x.2)) (fields p))).

(** *** The parser *)

(** One turn of the loop, with the profile that is open. *)
Definition parse_line (lineNum : nat) (line : chars) (s : option chars * Profiles)
    : TomlError + option chars * Profiles :=
  let line := trim (strip_comment line) in
  if decide (line = []) then inr s
  else
    match sectionMatch line with
    | Some name => if decide (is_string name s.2) then inl OutsideModel else inr (Some name, open_profile name s.2)
    | None =>
        if decide (head line = Some (chr 91)) then inl (UnsupportedTable lineNum)
        else
          match s.1 with
          | None => inl (OutsideSection lineNum)
          | Some n =>
              match kvMatch line with
              | None => inl (ExpectedKeyValue lineNum)
              | Some (k, v) =>
                  match valueMatch v with
                  | None => inl (ExpectedString lineNum)
                  | Some v =>
                      match assign n k (unescapeTomlString v) s.2 with
                      | inl e => inl e
                      | inr p => inr (Some n, p)
                      end
                  end
              end
          end
    end.

Fixpoint parse_lines (lineNum : nat) (ls : list chars) (s : option chars * Profiles)
    : TomlError + option chars * Profiles :=
  match ls with
  | [] => inr s
  | l :: ls => match parse_line lineNum l s with inl e => inl e | inr s => parse_lines (S lineNum) ls s end
  end.

Definition parseProfilesToml (content : chars) : TomlError + Profiles :=
  match parse_lines 1 (split_lines content) (None, mkProfiles [] []) with
  | inl e => inl e
  | inr s => inr s.2
  end.

(** *** A profile *)

Inductive ConfigFile := NoFile | UnreadableFile | Content (c : chars).

(** [available] is in the order of the file; the message lists whole numbers first. *)
Inductive Loaded :=
  | NoProfiles
  | Profile (n : chars) (p : Profiles)
  | ProfileNotFound (n : chars) (available : list chars)
  | TomlFailed (e : TomlError)
  | ReadFailed.

Definition profileName (opt env : option string) : chars :=
  String.list_ascii_of_string (nullish (nullish "default" env) opt).

Definition loadProfile (opt env : option string) (f : ConfigFile) : Loaded :=
  let n := profileName opt env in
  match f with
  | NoFile => NoProfiles
  | UnreadableFile => ReadFailed
  | Content c =>
      match parseProfilesToml c with
      | inl e => TomlFailed e
      | inr p => if decide (is_string n p) then TomlFailed OutsideModel
                 else if decide (n ∈ own p ∨ is_inherited n = true) then Profile n p else ProfileNotFound n (own p)
      end
  end.

(** A field of a profile: its own, or one written to the object that all inherit from. *)
Definition profile_field (k n : chars) (p : Profiles) : option chars :=
  match snd <$> select_one (λ x, x.1 = k) (fields_of n p) with
  | Some v => Some v
  | None => snd <$> select_one (λ x, x.1 = k) (fields_of PROTO p)
  end.

(** *** What a file says is read back *)

Definition escape (a : ascii) : chars :=
  if decide (a = NL) then [BACKSLASH; chr 110]
  else if decide (a = TAB) then [BACKSLASH; chr 116]
  else if decide (a = CR) then [BACKSLASH; chr 114]
  else if decide (a = DQUOTE) then [BACKSLASH; DQUOTE]
  else if decide (a = BACKSLASH) then [BACKSLASH; BACKSLASH]
  else [a].

Definition header (n : chars) : chars := chr 91 :: PROFILE ++ n ++ [chr 93].
Definition entry (kv : chars * chars) : chars :=
  kv.1 ++ [chr 32; chr 61; chr 32; DQUOTE] ++ (kv.2 ≫= escape) ++ [DQUOTE].
Definition profile_lines (x : chars * list (chars * chars)) : list chars := header x.1 :: (entry <$> x.2).
Definition print (ps : list (chars * list (chars * chars))) : chars :=
  (ps ≫= profile_lines) ≫= λ l, l ++ [NL].

Definition good_name (n : chars) : Prop := n ≠ [] ∧ forallb name_char n = true ∧ is_inherited n = false.
Definition good_key (k : chars) : Prop :=
  match k with [] => False | a :: l => key_start a = true ∧ forallb key_char l = true ∧ k ≠ PROTO end.

(** Facts on characters, by enumeration. *)
Lemma ascii_all (P : ascii → bool) : forallb P (Ascii.ascii_of_nat <$> seq 0 256) = true → ∀ a, P a = true.
Proof.
  intros H a. rewrite forallb_forall in H. apply H. apply list_elem_of_In, list_elem_of_fmap.
  exists (Ascii.nat_of_ascii a). split; [by rewrite Ascii.ascii_nat_embedding|].
  apply elem_of_seq. pose proof (Ascii.nat_ascii_bounded a). lia.
Qed.

Ltac by_chars a := let H := fresh in
  match goal with |- ?P => assert (bool_decide P = true) as H; [|by apply bool_decide_eq_true in H] end;
  revert a; apply ascii_all; vm_compute; reflexivity.

Lemma name_char_plain a : name_char a = true →
  space a = false ∧ line_end a = false ∧ a ≠ BACKSLASH ∧ a ≠ DQUOTE ∧ a ≠ SQUOTE ∧ a ≠ chr 35 ∧ a ≠ chr 93.
Proof. by_chars a. Qed.

Lemma forallb_True_iff (p : ascii → bool) l : forallb p l = true ↔ Forall (λ a, p a = true) l.
Proof. rewrite forallb_forall, Forall_forall. by setoid_rewrite list_elem_of_In. Qed.

Lemma key_name a : key_char a = true → name_char a = true.
Proof. by_chars a. Qed.

Lemma start_key a : key_start a = true → key_char a = true ∧ a ≠ chr 91.
Proof. by_chars a. Qed.

(** How the scan and the two readers treat an escaped character. *)
Lemma escape_reads a :
  (∀ j r, ∃ j', findUnquotedHash (Some DQUOTE) false j (escape a ++ r) = findUnquotedHash (Some DQUOTE) false j' r)
  ∧ (∀ r, double_quoted (escape a ++ r) = app (escape a) <$> double_quoted r)
  ∧ (∀ r, unescapeTomlString (escape a ++ r) = a :: unescapeTomlString r)
  ∧ Forall (λ c, line_end c = false) (escape a).
Proof.
  unfold escape.
  repeat match goal with |- context [decide (a = ?b)] => destruct (decide (a = b)) as [->|?] end;
    try (split_and!; [intros j r; by exists (S (S j)) | intros r; cbn; by destruct (double_quoted r) | done
      | by repeat constructor]).
  assert (line_end a = false) as Ha by (unfold line_end; rewrite bool_decide_eq_false; naive_solver).
  split_and!.
  - intros j r. exists (S j). cbn [app findUnquotedHash]. rewrite decide_False by naive_solver. by rewrite decide_False.
  - intros r. cbn [app double_quoted]. rewrite !decide_False by done. by destruct (double_quoted r).
  - intros r. cbn [app unescapeTomlString]. by rewrite decide_False.
  - by repeat constructor.
Qed.

Lemma escaped_hash v j r : ∃ j',
  findUnquotedHash (Some DQUOTE) false j ((v ≫= escape) ++ r) = findUnquotedHash (Some DQUOTE) false j' r.
Proof.
  revert j. induction v as [|a v IH]; intros j; [by exists j|]. rewrite bind_cons, <- app_assoc.
  destruct (proj1 (escape_reads a) j ((v ≫= escape) ++ r)) as [j1 E]. destruct (IH j1) as [j2 E2]. exists j2. by rewrite E.
Qed.

Lemma escaped_quoted v : double_quoted ((v ≫= escape) ++ [DQUOTE]) = Some (v ≫= escape).
Proof.
  induction v as [|a v IH]; [done|]. rewrite bind_cons, <- app_assoc.
  rewrite (proj1 (proj2 (escape_reads a))). by rewrite IH.
Qed.

Lemma escaped_read v : unescapeTomlString (v ≫= escape) = v.
Proof.
  induction v as [|a v IH]; [done|]. rewrite bind_cons, (proj1 (proj2 (proj2 (escape_reads a)))).
  f_equal. exact IH.
Qed.

Lemma escaped_one_line v : Forall (λ c, line_end c = false) (v ≫= escape).
Proof. induction v as [|a v IH]; [constructor|]. rewrite bind_cons. apply Forall_app. split; [apply escape_reads|exact IH]. Qed.

(** *** Lines *)

Lemma split_line l r : Forall (λ c, line_end c = false) l → split_lines (l ++ NL :: r) = l :: split_lines r.
Proof.
  induction 1 as [|a l Ha _ IH]; cbn [app split_lines]; [by rewrite decide_True|].
  unfold line_end in Ha. rewrite bool_decide_eq_false in Ha.
  rewrite decide_False by naive_solver. rewrite decide_False by naive_solver. by rewrite IH.
Qed.

Lemma split_all ls : Forall (Forall (λ c, line_end c = false)) ls →
  split_lines (ls ≫= λ l, l ++ [NL]) = ls ++ [[]].
Proof.
  induction 1 as [|l ls Hl _ IH]; [done|]. rewrite bind_cons, <- app_assoc. cbn [app].
  rewrite split_line by done. f_equal. exact IH.
Qed.

Definition unquoted (a : ascii) : Prop := a ≠ DQUOTE ∧ a ≠ SQUOTE ∧ a ≠ chr 35.

Lemma unquoted_hash l j r : Forall unquoted l → ∃ j', findUnquotedHash None false j (l ++ r) = findUnquotedHash None false j' r.
Proof.
  intros H. revert j. induction H as [|a l (H1 & H2 & H3) _ IH]; intros j; [by exists j|].
  destruct (IH (S j)) as [j' E]. exists j'. cbn [app findUnquotedHash].
  rewrite decide_False by naive_solver. rewrite decide_False by naive_solver. by rewrite decide_False.
Qed.

Lemma trim_id a l b : space a = false → space b = false → trim (a :: l ++ [b]) = a :: l ++ [b].
Proof.
  intros Ha Hb. unfold trim. cbn [drop_while]. rewrite Ha.
  rewrite (app_comm_cons l [b] a), reverse_snoc. cbn [drop_while]. rewrite Hb. by rewrite reverse_cons, reverse_involutive.
Qed.

Lemma span_all p l r : forallb p l = true → match r with [] => True | a :: _ => p a = false end → span p (l ++ r) = (l, r).
Proof.
  intros Hl Hr. induction l as [|a l IH]; cbn in *.
  - destruct r as [|a r]; [done|]. cbn. by rewrite Hr.
  - apply andb_true_iff in Hl as [Ha Hl]. rewrite Ha, IH by done. done.
Qed.

Lemma strip_prefix_app q l : strip_prefix q (q ++ l) = Some l.
Proof. induction q as [|a q IH]; cbn; [done|]. by rewrite decide_True. Qed.

Lemma name_facts n : forallb name_char n = true →
  Forall unquoted n ∧ Forall (λ c, line_end c = false) n.
Proof.
  rewrite forallb_True_iff. intros H. split; (eapply Forall_impl; [exact H|]); intros a Ha%name_char_plain; unfold unquoted; tauto.
Qed.

Lemma header_line n : forallb name_char n = true → n ≠ [] →
  trim (strip_comment (header n)) = header n ∧ sectionMatch (header n) = Some n
  ∧ Forall (λ c, line_end c = false) (header n).
Proof.
  intros Hn Hne. destruct (name_facts n Hn) as [Hq Hl].
  assert (Forall unquoted (header n)) as Hu.
  { unfold header, PROFILE. cbn. repeat (constructor; [by repeat split|]). apply Forall_app. split; [done|].
    constructor; [by repeat split|constructor]. }
  split_and!.
  - unfold strip_comment. destruct (unquoted_hash (header n) 0 [] Hu) as [j E]. rewrite app_nil_r in E. rewrite E. cbn [findUnquotedHash].
    unfold header. rewrite app_assoc. by apply trim_id.
  - unfold header. cbn [sectionMatch]. rewrite decide_True by done.
    change (drop_while space (PROFILE ++ n ++ [chr 93])) with (PROFILE ++ n ++ [chr 93]). rewrite strip_prefix_app. cbn [mbind option_bind].
    rewrite span_all by done. by rewrite decide_True.
  - unfold header, PROFILE. cbn. repeat (constructor; [done|]). apply Forall_app. split; [done|]. by repeat constructor.
Qed.

Lemma entry_line k v : good_key k →
  let l := entry (k, v) in
  trim (strip_comment l) = l ∧ l ≠ [] ∧ sectionMatch l = None ∧ head l ≠ Some (chr 91)
  ∧ kvMatch l = Some (k, DQUOTE :: (v ≫= escape) ++ [DQUOTE])
  ∧ valueMatch (DQUOTE :: (v ≫= escape) ++ [DQUOTE]) = Some (v ≫= escape)
  ∧ Forall (λ c, line_end c = false) l.
Proof.
  intros Hk. destruct k as [|a k]; [done|]. destruct Hk as (Ha & Hk & _). cbv zeta.
  destruct (start_key a Ha) as [Hak Hab].
  assert (forallb name_char (a :: k) = true) as Hn.
  { cbn. rewrite (key_name a Hak). cbn. rewrite forallb_True_iff in Hk |- *. eapply Forall_impl; [exact Hk|]. intros c. apply key_name. }
  destruct (name_facts _ Hn) as [Hq Hl].
  assert (Forall (λ c, line_end c = false) ((v ≫= escape) ++ [DQUOTE])) as Hv.
  { apply Forall_app. split; [apply escaped_one_line|by repeat constructor]. }
  unfold entry. cbn [fst snd]. split_and!.
  - assert (strip_comment ((a :: k) ++ [chr 32; chr 61; chr 32; DQUOTE] ++ (v ≫= escape) ++ [DQUOTE])
        = (a :: k) ++ [chr 32; chr 61; chr 32; DQUOTE] ++ (v ≫= escape) ++ [DQUOTE]) as Es.
    { unfold strip_comment. destruct (unquoted_hash (a :: k) 0 ([chr 32; chr 61; chr 32; DQUOTE] ++ (v ≫= escape) ++ [DQUOTE]) Hq) as [j E].
      rewrite E. destruct (escaped_hash v (S (S (S (S j)))) [DQUOTE]) as [j' E'].
      change (findUnquotedHash None false j ([chr 32; chr 61; chr 32; DQUOTE] ++ (v ≫= escape) ++ [DQUOTE]))
        with (findUnquotedHash (Some DQUOTE) false (S (S (S (S j)))) ((v ≫= escape) ++ [DQUOTE])). by rewrite E'. }
    rewrite Es. cbn [app]. rewrite !app_comm_cons, app_assoc. apply trim_id; [|done].
    by apply (name_char_plain a), key_name.
  - done.
  - cbn. by rewrite decide_False.
  - intros E. injection E as E. exact (Hab E).
  - cbn [app kvMatch]. rewrite Ha, span_all by done. cbn [drop_while]. 
    change (space (chr 32)) with true. change (space (chr 61)) with false. cbv iota. rewrite decide_True by done. cbn [drop_while].
    change (space (chr 32)) with true. change (space DQUOTE) with false. cbv iota.
    assert (forallb (λ c, negb (line_end c)) (DQUOTE :: (v ≫= escape) ++ [DQUOTE]) = true) as ->; [|done].
    apply forallb_True_iff. constructor; [done|]. eapply Forall_impl; [exact Hv|]. by intros c ->.
  - cbn [valueMatch]. rewrite decide_True by done. apply escaped_quoted.
  - apply Forall_app. split; [done|]. cbn. repeat (constructor; [done|]). done.
Qed.

(** *** Profiles *)

Definition of_list (ps : list (chars * list (chars * chars))) : Profiles := mkProfiles ps.*1 ps.

Lemma no_proto ps : Forall good_name ps.*1 → fields_of PROTO (of_list ps) = [].
Proof.
  intros Hg. unfold fields_of. cbn [fields of_list].
  destruct (select_one _ ps) as [x|] eqn:E; [|done]. apply select_one_Some in E as [Ex Hx]. exfalso.
  rewrite Forall_forall in Hg. destruct (Hg PROTO) as (_ & _ & Hi); [|done]. rewrite <- Ex. by apply list_elem_of_fmap_2.
Qed.

Lemma open_new n ps : good_name n → Forall good_name ps.*1 → n ∉ ps.*1 →
  open_profile n (of_list ps) = of_list (ps ++ [(n, [])]).
Proof.
  intros (_ & _ & Hi) Hg Hn. unfold open_profile, of_list. cbn [own fields].
  rewrite decide_False by (intros [->|?]; done). rewrite decide_False by done. by rewrite fmap_app.
Qed.

Lemma assign_new n k v ps kvs : good_name n → n ∉ ps.*1 → k ≠ PROTO → k ∉ kvs.*1 →
  assign n k v (of_list (ps ++ [(n, kvs)])) = inr (of_list (ps ++ [(n, kvs ++ [(k, v)])])).
Proof.
  intros (_ & _ & Hi) Hn Hp Hk. unfold assign, read_only. rewrite Hi. cbn [andb]. rewrite decide_False by done.
  unfold of_list. cbn [own fields]. f_equal. f_equal; [by rewrite !fmap_app|].
  unfold update_where. rewrite fmap_app. f_equal.
  - apply (update_where_none (λ x, x.1 = n)). intros x Hx <-. apply Hn. by apply list_elem_of_fmap_2.
  - cbn. rewrite decide_True by done. unfold set_field.
    destruct (select_one _ kvs) as [x|] eqn:E; [|done]. apply select_one_Some in E as [<- Hx]. exfalso. apply Hk.
    by apply list_elem_of_fmap_2.
Qed.

Lemma parse_entries n ps kvs : ∀ todo i,
  good_name n → n ∉ ps.*1 → Forall good_key todo.*1 → NoDup (kvs ++ todo).*1 →
  ∀ rest, parse_lines i ((entry <$> todo) ++ rest) (Some n, of_list (ps ++ [(n, kvs)]))
  = parse_lines (i + length todo) rest (Some n, of_list (ps ++ [(n, kvs ++ todo)])).
Proof.
  intros todo i Hg Hn. revert kvs i. induction todo as [|[k v] todo IH]; intros kvs i Hk Hd rest.
  { cbn. by rewrite Nat.add_0_r, app_nil_r. }
  apply Forall_cons in Hk as [Hk Hks]. destruct (entry_line k v Hk) as (E1 & E2 & E3 & E4 & E5 & E6 & _).
  rewrite fmap_cons. cbn [app parse_lines]. unfold parse_line. rewrite E1, decide_False, E3, decide_False by done. cbn [fst snd].
  rewrite E5, E6, escaped_read. rewrite assign_new; [|done|done| |].
  - rewrite IH; [|done|by rewrite <- app_assoc]. cbn [length]. rewrite Nat.add_succ_r. by rewrite <- app_assoc.
  - by destruct k; [|apply Hk].
  - rewrite fmap_app, fmap_cons in Hd. apply NoDup_app in Hd as (_ & Hd & _). intros Hin. apply (Hd k Hin). left.
Qed.

Definition good_profile (x : chars * list (chars * chars)) : Prop :=
  good_name x.1 ∧ Forall good_key x.2.*1 ∧ NoDup x.2.*1.

Lemma parse_profiles todo : ∀ ps cur i,
  Forall good_name ps.*1 → Forall good_profile todo → NoDup (ps ++ todo).*1 →
  ∀ rest, ∃ cur' i', parse_lines i ((todo ≫= profile_lines) ++ rest) (cur, of_list ps)
  = parse_lines i' rest (cur', of_list (ps ++ todo)).
Proof.
  induction todo as [|[n kvs] todo IH]; intros ps cur i Hg Ht Hd rest.
  { exists cur, i. by rewrite app_nil_r. }
  apply Forall_cons in Ht as [(Hn & Hk & Hkd) Ht]. cbn [fst snd] in *.
  assert (n ∉ ps.*1) as Hnew.
  { rewrite fmap_app, fmap_cons in Hd. apply NoDup_app in Hd as (_ & Hd & _). intros Hin. apply (Hd n Hin). left. }
  rewrite bind_cons, <- app_assoc. unfold profile_lines at 1. cbn [fst snd app parse_lines]. unfold parse_line at 1.
  destruct (header_line n) as (E1 & E2 & _); [apply Hn|apply Hn|]. rewrite E1, decide_False, E2 by done. cbn [snd].
  rewrite decide_False by (intros [_ Hs]; by rewrite no_proto in Hs; [apply elem_of_nil in Hs|]).
  rewrite open_new by done. rewrite (parse_entries n ps []) by done. rewrite app_nil_l.
  destruct (IH (ps ++ [(n, kvs)]) (Some n) (S i + length kvs)%nat) with (rest := rest) as (c & i' & E).
  - rewrite fmap_app. apply Forall_app. split; [done|by apply Forall_singleton].
  - done.
  - by rewrite <- app_assoc.
  - exists c, i'. rewrite E. by rewrite <- app_assoc.
Qed.

(** A file of profiles reads back as the profiles it was written from: any value, with
    names and keys that the format allows and that no object has. *)
Theorem profiles_round_trip ps : Forall good_profile ps → NoDup ps.*1 → parseProfilesToml (print ps) = inr (of_list ps).
Proof.
  intros Hp Hd. unfold parseProfilesToml, print. rewrite split_all.
  - destruct (parse_profiles ps [] None 1 (Forall_nil_2 _) Hp Hd [[]]) as (c & i & E).
    exact (f_equal (λ r : TomlError + option chars * Profiles, match r with inl e => inl e | inr s => inr s.2 end) E).
  - apply Forall_bind. eapply Forall_impl; [exact Hp|]. intros [n kvs] (Hn & Hk & _). constructor.
    + apply header_line; apply Hn.
    + apply Forall_fmap. apply Forall_forall. intros [k v] Hkv. rewrite Forall_forall in Hk.
      apply entry_line, Hk. apply list_elem_of_fmap. by exists (k, v).
Qed.

(** A profile that was written is found, with its fields. *)
Theorem written_profile_found opt env ps n kvs k v :
  Forall good_profile ps → NoDup ps.*1 → profileName opt env = n → (n, kvs) ∈ ps → (k, v) ∈ kvs →
  ∃ p, loadProfile opt env (Content (print ps)) = Profile n p ∧ profile_field k n p = Some v.
Proof.
  intros Hp Hd <- Hin Hkv. exists (of_list ps). unfold loadProfile. rewrite profiles_round_trip by done.
  assert (Forall good_name ps.*1) as Hg. { apply Forall_fmap. eapply Forall_impl; [exact Hp|]. by intros x []. }
  rewrite decide_False by (intros [_ Hs]; by rewrite no_proto in Hs; [apply elem_of_nil in Hs|]).
  assert (profileName opt env ∈ ps.*1) as Hn by (apply list_elem_of_fmap; by exists (profileName opt env, kvs)).
  rewrite decide_True by by left. split; [done|]. unfold profile_field, fields_of. cbn [fields of_list].
  rewrite (select_one_key fst _ ps (profileName opt env, kvs)); [|done..]. cbn.
  rewrite Forall_forall in Hp. destruct (Hp _ Hin) as (_ & _ & Hk).
  by rewrite (select_one_key fst _ kvs (k, v)).
Qed.

(** *** Where the reader departs from the format *)

Definition txt (s : string) : chars := String.list_ascii_of_string s.
Definition quoted_path (path after : string) : chars :=
  header (txt "default") ++ [NL] ++ txt "tokens_path = " ++ [SQUOTE] ++ txt path ++ [SQUOTE] ++ txt after ++ [NL].

(** Escapes are replaced in single quotes too, where the format has none: the path of a
    Windows machine is changed. *)
Theorem literal_unescaped :
  parseProfilesToml (quoted_path "C:\new\tokens.json" "")
  = inr (of_list [(txt "default", [(txt "tokens_path", txt "C:" ++ [NL] ++ txt "ew" ++ [TAB] ++ txt "okens.json")])]).
Proof. vm_compute. reflexivity. Qed.

(** A backslash before the closing single quote hides it from the scan for comments: the
    line with a comment is refused, without one it is read. *)
Theorem literal_hides_comment :
  parseProfilesToml (quoted_path "C:\dir\" " # here") = inl (ExpectedString 2)
  ∧ parseProfilesToml (quoted_path "C:\dir\" "")
    = inr (of_list [(txt "default", [(txt "tokens_path", txt "C:\dir\")])]).
Proof. split; vm_compute; reflexivity. Qed.

(** A name that every object has is found in any file that parses. *)
Theorem inherited_profile_found opt env c p :
  parseProfilesToml c = inr p → is_inherited (profileName opt env) = true → ¬ is_string (profileName opt env) p →
  loadProfile opt env (Content c) = Profile (profileName opt env) p.
Proof. intros Hp Hi Hs. unfold loadProfile. rewrite Hp, decide_False by done. by rewrite decide_True by by right. Qed.

(** The fields of a profile named [__proto__] are fields of every profile. *)
Theorem proto_profile_shared :
  match loadProfile (Some "work") None (Content (print [(PROTO, [(txt "base_url", txt "http://x")]); (txt "work", [])])) with
  | Profile n p => n = txt "work" ∧ fields_of n p = [] ∧ profile_field (txt "base_url") n p = Some (txt "http://x")
  | _ => False
  end.
Proof. vm_compute. repeat split. Qed.
End Profiles.

(** ** The discovery document *)
Module Discovery.
Section discovery.
Context {Doc : Type}.

Record CacheEntry := mkEntry { fetchedAt : Z; e_baseUrl : string; doc : Doc }.

(** The file of the cache: [DiskOther] is JSON of another shape or no JSON, [DiskError]
    a read that fails otherwise than by the absence of the file. *)
Inductive Disk := DiskAbsent | DiskOther | DiskError | DiskEntry (e : CacheEntry).

Inductive Fetch := FetchFailed | FetchStatus (status : Z) | FetchDoc (d : Doc).

Inductive LoadError := ReadError | NetworkError | HttpStatus (status : Z).

Definition DEFAULT_TTL_MS : Z := 24 * 60 * 60 * 1000.

Context (ttlMs : Z).

Definition isFresh (now : Z) (e : CacheEntry) : bool := bool_decide (now - fetchedAt e < ttlMs).

Definition usable (now : Z) (base : string) (e : option CacheEntry) : option CacheEntry :=
  match e with Some e => if bool_decide (e_baseUrl e = base) && isFresh now e then Some e else None | None => None end.

Definition readDiskCache (d : Disk) : LoadError + option CacheEntry :=
  match d with
  | DiskAbsent | DiskOther => inr None
  | DiskError => inl ReadError
  | DiskEntry e => inr (Some e)
  end.

Definition fetchFromNetwork (f : Fetch) : LoadError + Doc :=
  match f with FetchFailed => inl NetworkError | FetchStatus s => inl (HttpStatus s) | FetchDoc d => inr d end.

(** [load] looks in memory, then on disk, then asks: [now'] is the clock after the answer,
    [disk'] the file at that time, which others may have written, and [written] whether
    the write succeeds. The result comes with the memory and the file. *)
Definition load (base : string) (now now' : Z) (fetch : Fetch) (written : bool)
    (memory : option CacheEntry) (disk disk' : Disk) : (LoadError + Doc) * option CacheEntry * Disk :=
  match usable now base memory with
  | Some e => (inr (doc e), memory, disk')
  | None =>
      match readDiskCache disk with
      | inl err => (inl err, memory, disk')
      | inr entry =>
          match usable now base entry with
          | Some e => (inr (doc e), Some e, disk')
          | None =>
              match fetchFromNetwork fetch with
              | inr d =>
                  let e := mkEntry now' base d in (inr d, Some e, if written then DiskEntry e else disk')
              | inl err =>
                  match entry with
                  | Some e => if decide (e_baseUrl e = base) then (inr (doc e), Some e, disk')
                              else (inl err, memory, disk')
                  | None => (inl err, memory, disk')
                  end
              end
          end
      end
  end.

Definition refresh (base : string) (now' : Z) (fetch : Fetch) (written : bool)
    (memory : option CacheEntry) (disk' : Disk) : (LoadError + Doc) * option CacheEntry * Disk :=
  match fetchFromNetwork fetch with
  | inr d => let e := mkEntry now' base d in (inr d, Some e, if written then DiskEntry e else disk')
  | inl err => (inl err, memory, disk')
  end.

(** [clear]; the removal fails or not. *)
Definition clear (removed : bool) (disk : Disk) : option CacheEntry * Disk :=
  (None, if removed then DiskAbsent else disk).

(** *** Runs of several clients over one file *)

(** The memory of each client, the file, what was served so far (with the time it was
    received), and the documents handed out: the base, the clock when the load began,
    the document and whether the network had failed. *)
Record World := mkWorld {
  mem : gmap nat (option CacheEntry); file : Disk; served : list CacheEntry;
  given : list (string * Z * Doc * bool) }.

Definition answered (base : string) (now' : Z) (fetch : Fetch) : list CacheEntry :=
  match fetch with FetchDoc d => [mkEntry now' base d] | _ => [] end.

Definition not_doc (fetch : Fetch) : bool := match fetch with FetchDoc _ => false | _ => true end.

Definition hand (base : string) (now : Z) (fetch : Fetch) (r : LoadError + Doc) : list (string * Z * Doc * bool) :=
  match r with inr d => [(base, now, d, not_doc fetch)] | inl _ => [] end.

(** A load or a refresh of the client [c], and a clear. [file] may be read before another
    client writes: [seen] is any file there was. *)
Inductive step : World → World → Prop :=
  | StepLoad w c base now now' fetch written seen r m d :
      (seen = file w ∨ seen = DiskAbsent ∨ seen = DiskOther ∨ seen = DiskError
       ∨ ∃ e, seen = DiskEntry e ∧ e ∈ served w) → now ≤ now' →
      load base now now' fetch written (mem w !! c ≫= id) seen (file w) = (r, m, d) →
      step w (mkWorld (<[c := m]> (mem w)) d (answered base now' fetch ++ served w) (hand base now fetch r ++ given w))
  | StepRefresh w c base now' fetch written r m d :
      refresh base now' fetch written (mem w !! c ≫= id) (file w) = (r, m, d) →
      step w (mkWorld (<[c := m]> (mem w)) d (answered base now' fetch ++ served w) (hand base now' fetch r ++ given w))
  | StepClear w c removed m d :
      clear removed (file w) = (m, d) → step w (mkWorld (<[c := m]> (mem w)) d (served w) (given w)).

(** What is kept was served, and what was handed out was served for its base, less than the
    time to live before, unless the network failed. *)
Definition consistent (w : World) : Prop :=
  (∀ c e, mem w !! c = Some (Some e) → e ∈ served w)
  ∧ (∀ e, file w = DiskEntry e → e ∈ served w)
  ∧ (∀ base now d failed, (base, now, d, failed) ∈ given w →
       ∃ e, e ∈ served w ∧ e_baseUrl e = base ∧ doc e = d ∧ (now - fetchedAt e < ttlMs ∨ failed = true)).

Lemma usable_Some now base e e' : usable now base e = Some e' →
  e = Some e' ∧ e_baseUrl e' = base ∧ now - fetchedAt e' < ttlMs.
Proof.
  unfold usable, isFresh. destruct e as [e|]; [|done]. repeat case_bool_decide; cbn; try done. by intros [= <-].
Qed.

Lemma fetch_cases fetch : (∃ d, fetch = FetchDoc d ∧ fetchFromNetwork fetch = inr d)
  ∨ (∃ err, fetchFromNetwork fetch = inl err ∧ not_doc fetch = true).
Proof. destruct fetch; [right|right|left]; eauto. Qed.

(** One load: where its document comes from, what it keeps and what it writes. *)
Lemma load_from base now now' fetch written memory disk disk' r m d :
  now ≤ now' → 0 < ttlMs →
  load base now now' fetch written memory disk disk' = (r, m, d) →
  let known e := memory = Some e ∨ disk = DiskEntry e ∨ e ∈ answered base now' fetch in
  (∀ x, r = inr x → ∃ e, known e ∧ e_baseUrl e = base ∧ doc e = x ∧ (now - fetchedAt e < ttlMs ∨ not_doc fetch = true))
  ∧ (∀ e, m = Some e → known e) ∧ (∀ e, d = DiskEntry e → disk' = DiskEntry e ∨ e ∈ answered base now' fetch).
Proof.
  intros Hn Ht. cbv zeta. unfold load. destruct (usable now base memory) as [e|] eqn:E1.
  { apply usable_Some in E1 as (-> & Hb & Hf). intros [= <- <- <-]. split_and!; [|naive_solver..].
    intros x [= <-]. exists e. auto. }
  destruct (readDiskCache disk) as [err|entry] eqn:Ed; [intros [= <- <- <-]; naive_solver|].
  assert (∀ e, entry = Some e → disk = DiskEntry e) as He by (intros e ->; destruct disk; naive_solver).
  destruct (usable now base entry) as [e|] eqn:E2.
  { apply usable_Some in E2 as (-> & Hb & Hf). intros [= <- <- <-]. split_and!; [|naive_solver..].
    intros x [= <-]. exists e. auto. }
  destruct (fetch_cases fetch) as [(x & -> & ->)|(err & -> & Hnd)].
  - intros [= <- <- <-]. cbn [answered]. split_and!.
    + intros y [= <-]. exists (mkEntry now' base x). split_and!; [right; right; by left|done|done|]. cbn. left. lia.
    + intros e [= <-]. right; right. by left.
    + intros e. destruct written; [intros [= <-]; right; by left|by left].
  - destruct entry as [e|]; [case_decide|]; intros [= <- <- <-]; (split_and!; [|naive_solver..]); try done.
    intros y [= <-]. exists e. naive_solver.
Qed.

Lemma consistent_step w w' : 0 < ttlMs → step w w' → consistent w → consistent w'.
Proof.
  intros Ht Hs (Hm & Hf & Hg). destruct Hs as [w c base now now' fetch written seen r m d Hseen Hn Hl
    |w c base now' fetch written r m d Hl|w c removed m d Hl].
  - apply load_from in Hl as (Hr & Hm' & Hd'); [|done|done]. cbv beta zeta in Hr, Hm', Hd'.
    assert (∀ e, (mem w !! c ≫= id = Some e ∨ seen = DiskEntry e ∨ e ∈ answered base now' fetch) →
      e ∈ answered base now' fetch ++ served w) as Hk.
    { intros e [He|[He|He]]; apply elem_of_app; [right|right|by left].
      - destruct (mem w !! c) as [[e'|]|] eqn:E; cbn in He; try done. injection He as ->. by eapply Hm.
      - subst seen. destruct Hseen as [E|[E|[E|[E|(e' & [= <-] & He)]]]]; try done. by apply Hf. }
    split_and!; cbn [mem file served given].
    + intros c' e. rewrite lookup_insert. case_decide; [intros [= ->]; by apply Hk, Hm'|].
      intros He. apply elem_of_app. right. by eapply Hm.
    + intros e He. apply elem_of_app. apply Hd' in He as [He|He]; [right; by apply Hf|by left].
    + intros b n x fl Hin. apply elem_of_app in Hin as [Hin|Hin].
      * destruct r as [|y]; [by apply elem_of_nil in Hin|]. apply list_elem_of_singleton in Hin as [= -> -> -> ->].
        destruct (Hr y eq_refl) as (e & He & Hb & Hx & Hfr). exists e. split; [by apply Hk|done].
      * destruct (Hg _ _ _ _ Hin) as (e & He & Hrest). exists e. split; [|done]. apply elem_of_app. by right.
  - unfold refresh in Hl. split_and!; cbn [mem file served given].
    all: destruct (fetch_cases fetch) as [(x & -> & E)|(err & E & Hnd)]; rewrite E in Hl; injection Hl as <- <- <-; cbn [answered hand].
    + intros c' e. rewrite lookup_insert. case_decide; [intros [= <-]; by left|]. intros He. right. by eapply Hm.
    + intros c' e. rewrite lookup_insert. intros He. apply elem_of_app. right. case_decide; [|by eapply Hm].
      destruct (mem w !! c) as [[e'|]|] eqn:Ec; cbn in He; try done. injection He as ->. by eapply Hm.
    + intros e. destruct written; [intros [= <-]; by left|]. intros He. right. by apply Hf.
    + intros e He. apply elem_of_app. right. by apply Hf.
    + intros b n y fl [[= -> -> -> ->]|Hin]%elem_of_cons.
      * exists (mkEntry now' base x). split_and!; [by left|done|done|]. left. cbn. lia.
      * destruct (Hg _ _ _ _ Hin) as (e & He & Hrest). exists e. split; [by right|done].
    + intros b n y fl Hin. destruct (Hg _ _ _ _ Hin) as (e & He & Hrest). exists e. split; [|done]. apply elem_of_app. by right.
  - injection Hl as <- <-. split_and!; cbn [mem file served given]; [| |done].
    + intros c' e. rewrite lookup_insert. case_decide; [done|]. apply Hm.
    + intros e. destruct removed; [done|]. apply Hf.
Qed.

Definition start : World := mkWorld ∅ DiskAbsent [] [].

(** Whatever clients share the file, a document that is handed out was served for the base
    of its client, and less than the time to live before unless the network failed. *)
Theorem discovery_served w base now d failed :
  0 < ttlMs → rtc step start w → (base, now, d, failed) ∈ given w →
  ∃ e, e ∈ served w ∧ e_baseUrl e = base ∧ doc e = d ∧ (now - fetchedAt e < ttlMs ∨ failed = true).
Proof.
  intros Ht Hr. assert (consistent w) as (_ & _ & Hg); [|apply Hg].
  revert Hr. apply (rtc_ind_r consistent).
  - split_and!; [intros c e; cbn; by rewrite lookup_empty|done|]. intros b n x fl Hin. by apply elem_of_nil in Hin.
  - intros y z _ Hyz Hc. by eapply consistent_step.
Qed.

(** *** Where there is no fallback *)

(** The file has one place: after a client of another base has written, a client whose
    document is too old and whose network fails gets nothing. *)
Theorem one_place base other now now' written (x : Doc) m d :
  base ≠ other → ttlMs ≤ now - now' →
  load base now' now' (FetchDoc x) true None DiskAbsent DiskAbsent = (inr x, m, d) →
  let '(_, _, d1) := load other now' now' (FetchDoc x) true None d d in
  load base now now FetchFailed written None d1 d1 = (inl NetworkError, None, d1).
Proof.
  intros Hne Hold. cbn. intros [= <- <-]. unfold load. cbn. rewrite bool_decide_eq_false_2 by congruence. cbn.
  rewrite bool_decide_eq_false_2 by congruence. cbn. by rewrite decide_False by congruence.
Qed.

(** A document that is too old is kept in memory and not used: when it could not be written
    to the file, a failing network leaves nothing. *)
Theorem stale_memory_unused base now e :
  e_baseUrl e = base → ttlMs ≤ now - fetchedAt e →
  load base now now FetchFailed true (Some e) DiskAbsent DiskAbsent = (inl NetworkError, Some e, DiskAbsent).
Proof.
  intros <- Hold. unfold load, usable, isFresh. rewrite (bool_decide_eq_false_2 (now - fetchedAt e < ttlMs)) by lia.
  by rewrite andb_false_r.
Qed.
End discovery.
End Discovery.

(** ** The endpoints of a client *)
Module Endpoints.

(** The fields of the document that the client reads; a field that is no string is used as
    it is, and is outside the model. *)
Record DiscoveryDoc := mkDiscoveryDoc {
  issuer : string; token_endpoint : string; device_authorization_endpoint : string;
  revocation_endpoint : string; userinfo_endpoint : option string }.

Definition str (k : string) (d : Providers.js) : option string :=
  match Providers.prop_of k d with Some (Providers.JStr s) => Some s | _ => None end.

Definition read_doc (d : Providers.js) : option DiscoveryDoc :=
  i ← str "issuer" d; t ← str "token_endpoint" d; v ← str "device_authorization_endpoint" d;
  r ← str "revocation_endpoint" d; Some (mkDiscoveryDoc i t v r (str "userinfo_endpoint" d)).

(** [discovery] is what the load of the document gives, when the client has one. *)
Definition tokenEndpoint (baseUrl : string) (discovery : option DiscoveryDoc) : string :=
  match discovery with None => (baseUrl ++ "/api/auth/oauth/token")%string | Some d => token_endpoint d end.
Definition deviceAuthorizationEndpoint (baseUrl : string) (discovery : option DiscoveryDoc) : string :=
  match discovery with
  | None => (baseUrl ++ "/api/auth/oauth/device_authorization")%string
  | Some d => device_authorization_endpoint d
  end.
Definition revocationEndpoint (baseUrl : string) (discovery : option DiscoveryDoc) : string :=
  match discovery with None => (baseUrl ++ "/api/auth/revoke")%string | Some d => revocation_endpoint d end.
Definition userinfoEndpoint (baseUrl : string) (discovery : option DiscoveryDoc) : string :=
  match discovery with
  | None => (baseUrl ++ "/api/auth/me")%string
  | Some d => nullish (baseUrl ++ "/api/auth/me")%string (userinfo_endpoint d)
  end.

Definition endpoints (baseUrl : string) (discovery : option DiscoveryDoc) : list string :=
  [tokenEndpoint baseUrl discovery; deviceAuthorizationEndpoint baseUrl discovery;
   revocationEndpoint baseUrl discovery; userinfoEndpoint baseUrl discovery].

(** With the document of the server a client of its public address uses the endpoints that
    it would use without. *)
Theorem endpoints_agree publicUrl :
  ∃ d, read_doc (Doctor.buildDiscoveryDoc publicUrl) = Some d ∧ issuer d = Doctor.stripTrailingSlash publicUrl
    ∧ ∀ baseUrl, baseUrl = Doctor.stripTrailingSlash publicUrl → endpoints baseUrl (Some d) = endpoints baseUrl None.
Proof. eexists. split; [reflexivity|]. split; [done|]. by intros baseUrl ->. Qed.
End Endpoints.

(** ** The keychain *)
Module Keytar.
Section keytar.

(** How tokens are written as text. *)
Class TokenJson := { stringify : TokenSet → string; parse : string → option TokenSet }.
Class TokenJsonLaws `{TokenJson} : Prop := parse_stringify t : parse (stringify t) = Some t.

Context `{TokenJsonLaws}.

Notation Keychain := (gmap (string * string) string).

Record KeytarTokenStore := mkKeytar {
  serviceName : string; account : string;
  (** The import of the library, remembered with its outcome. *)
  keytarPromise : option bool; injected : bool }.

Definition DEFAULT_SERVICE_NAME : string := "mcp-coordinator".
Definition DEFAULT_ACCOUNT : string := "default".

Definition new (service acc : option string) (inj : bool) : KeytarTokenStore :=
  mkKeytar (nullish DEFAULT_SERVICE_NAME service) (nullish DEFAULT_ACCOUNT acc) None inj.

(** [installed] is what an import gives now; whether there is a library, and the store. *)
Definition resolveKeytar (installed : bool) (s : KeytarTokenStore) : bool * KeytarTokenStore :=
  if injected s then (true, s)
  else match keytarPromise s with
       | Some b => (b, s)
       | None => (installed, mkKeytar (serviceName s) (account s) (Some installed) (injected s))
       end.

Definition place (s : KeytarTokenStore) : string * string := (serviceName s, account s).

Inductive KeytarResult (A : Type) := KeytarUnavailable | Done (a : A).
Arguments KeytarUnavailable {A}.
Arguments Done {A} a.

Definition load (installed : bool) (k : Keychain) (s : KeytarTokenStore) : KeytarResult (option TokenSet) * KeytarTokenStore :=
  let '(b, s) := resolveKeytar installed s in
  (if b then Done (k !! place s ≫= parse) else KeytarUnavailable, s).

Definition save (installed : bool) (t : TokenSet) (k : Keychain) (s : KeytarTokenStore)
    : KeytarResult unit * Keychain * KeytarTokenStore :=
  let '(b, s) := resolveKeytar installed s in
  if b then (Done (), <[place s := stringify t]> k, s) else (KeytarUnavailable, k, s).

Definition clear (installed : bool) (k : Keychain) (s : KeytarTokenStore) : KeytarResult unit * Keychain * KeytarTokenStore :=
  let '(b, s) := resolveKeytar installed s in
  if b then (Done (), delete (place s) k, s) else (KeytarUnavailable, k, s).

Lemma resolve_place b s : place (resolveKeytar b s).2 = place s.
Proof. unfold resolveKeytar. destruct (injected s); [done|]. by destruct (keytarPromise s). Qed.

Lemma resolve_once b b' s : resolveKeytar b' (resolveKeytar b s).2 = ((resolveKeytar b s).1, (resolveKeytar b s).2).
Proof. destruct s as [n a [p|] [|]]; reflexivity. Qed.

(** What one store saves, it and every other store of the same account loads; another
    account is not touched, and a clear removes it. *)
Theorem keychain_round_trip installed installed' t k s k' s' s2 :
  save installed t k s = (Done (), k', s') →
  (load installed' k' s').1 = Done (Some t)
  ∧ ((resolveKeytar installed' s2).1 = true → place s2 = place s → (load installed' k' s2).1 = Done (Some t))
  ∧ (place s2 ≠ place s → (load installed' k' s2).1 = (load installed' k s2).1)
  ∧ (load installed' (clear installed' k' s').1.2 s').1 = Done None.
Proof.
  unfold save. destruct (resolveKeytar installed s) as [[|] s1] eqn:E; [|done]. intros [= <- <-].
  assert (place s1 = place s) as Ep by (rewrite <- (resolve_place installed s), E; done).
  assert (resolveKeytar installed' s1 = (true, s1)) as E1.
  { change s1 with (true, s1).2. rewrite <- E at 1. rewrite resolve_once. by rewrite E. }
  unfold load, clear. rewrite E1. cbv iota beta zeta. cbn [fst snd]. split_and!.
  - rewrite lookup_insert_eq. cbn. by rewrite parse_stringify.
  - destruct (resolveKeytar installed' s2) as [b2 s3] eqn:E2. cbn. intros -> Hp.
    assert (place s3 = place s1) as -> by (rewrite Ep, <- Hp, <- (resolve_place installed' s2), E2; done).
    rewrite lookup_insert_eq. cbn. by rewrite parse_stringify.
  - intros Hp. destruct (resolveKeytar installed' s2) as [[|] s3] eqn:E2; [|done]. cbn.
    rewrite lookup_insert_ne; [done|]. rewrite Ep. intros Eq. apply Hp. rewrite Eq, <- (resolve_place installed' s2), E2. done.
  - by rewrite lookup_delete_eq.
Qed.

(** An import that failed is remembered: the store stays unavailable. *)
Theorem failed_import_kept k s : injected s = false → keytarPromise s = None →
  let s' := (load false k s).2 in ∀ installed, (load installed k s').1 = KeytarUnavailable.
Proof. intros Hi Hk. cbv zeta. intros installed. unfold load, resolveKeytar. rewrite Hi, Hk. done. Qed.
End keytar.
End Keytar.
